(* ===== verification/_CoqProject ===== *)
-Q . S2P
Prelude.v
Mem.v
Endianconv.v
Intset.v
Util.v
Crc.v
Bitops.v
BitopsSpec.v
BitfieldSpec.v
Ziplist.v
ZiplistRepr.v
ZiplistOps.v
ZiplistWalk.v
ZiplistDelete.v
ZiplistMerge.v
ZiplistSpec.v
Packed.v
Adlist.v
AdlistSpec.v
Dict.v
DictSpec.v
DictRefine.v
DictScan.v
DictIter.v
Sds.v
Glob.v
SdsSpec.v
SdsRefine.v
Object.v
ObjectSpec.v
KvTable.v
KvIter.v
Skiplist.v
SkiplistRepr.v
SkiplistOps.v
SkiplistDelete.v
SkiplistSpec.v
SkiplistRange.v
SkiplistCorrect.v
Zset.v
ZsetSpec.v
Score.v
SetType.v
PackedPairs.v
HashType.v
HashSpec.v
Zzl.v
ZzlSpec.v
ZzlRange.v
ZsetObj.v
ZsetObjSpec.v
Lzf.v
LzfSpec.v
LzfCompress.v
Quicklist.v
QuicklistRepr.v
QuicklistLinks.v
QuicklistSpec.v
QuicklistIndex.v
QuicklistMerge.v
QuicklistInsert.v
QuicklistRange.v
QuicklistIter.v
ListType.v
ListSpec.v
ListCommands.v
QuicklistFindings.v
Keyspace.v
StringType.v
Commands.v
KeyspaceSpec.v
KeyspaceOps.v
KeyCommands.v
StringCommands.v
StringEdit.v
KeyspaceSession.v
KeyspaceFacts.v
Multi.v
MultiSpec.v
MultiKeyspace.v
