(* ===== verification/Prelude.v ===== *)
(** * A verification library for the data structures of Redis 4.0.6

    The program is the C code under src/hw5/redis-4.0.6/src.  A Redis value is
    built from a few data structures, and these are what the library models,
    with the keyspace, the commands on keys and the string commands over them:

<<
      multi.c ----> the commands of server.c, the hooks of db.c
      server.c (queries) -----> t_string.c, expire.c
         |                         |
         \---------------------> db.c -----> object.c, dict.c
      t_list.c -----> quicklist.c ----> ziplist.c, lzf_c.c, lzf_d.c
         \----------> object.c
      t_set.c ------> intset.c ----> endianconv.c
         |  \-------> dict.c
      t_hash.c -----> ziplist.c
         |  \-------> dict.c
      t_zset.c -----> dict.c
         |  \-------> the skip list of t_zset.c ----> sds.c
         \----------> ziplist.c, util.c
      ziplist.c ----> endianconv.c, util.c
      object.c -----> sds.c, util.c
      cluster.c (hash slots) ----> crc16.c
      adlist.c, bitops.c, crc64.c, dict.c, sds.c, util.c
>>

    ** Files

    - [Prelude]: the error monad, loops with fuel, wrap-around arithmetic,
      lists indexed by [Z], the tactics and hint databases.
    - [Mem]: blocks of bytes with checked loads and stores, [memcpy],
      [memmove], [realloc]; class [Alloc] for what the allocator leaves in new
      bytes.  A load or a store outside the block gives [None].
    - [Endianconv]: endianconv.c.
    - [Intset]: intset.c and intset.h, the packed sorted set of integers.
    - [Util]: the conversions between integers and decimal text of util.c.
    - [Glob]: the pattern matcher of util.c and, in its module [GlobSpec], what
      a pattern means.
    - [Crc]: crc16.c and crc64.c, and in its module [Slot] the hash slot of a
      key (cluster.c).
    - [Bitops] (operations), [BitopsSpec] (counting and searching bits),
      [BitfieldSpec] (fields and their overflow): the low level functions of
      bitops.c.
    - [Ziplist] (operations), [ZiplistRepr], [ZiplistOps], [ZiplistWalk],
      [ZiplistDelete], [ZiplistMerge] (lemmas), [ZiplistSpec] (theorems):
      ziplist.c, the packed list of strings and integers.
    - [Packed]: the interface of a ziplist to the types of values that use one,
      and the proof that ziplist.c provides it; [PackedPairs]: lists of pairs
      in it.
    - [Adlist], [AdlistSpec]: adlist.c, doubly linked lists in a shared heap of
      nodes, with the destructor, the copy function and the comparison of the
      list.
    - [Dict] (operations), [DictSpec], [DictRefine], [DictScan], [DictIter]:
      dict.c and dict.h, the hash table with incremental rehashing, its
      iterators, samples and the stateless scan.
    - [Sds], [SdsSpec], [SdsRefine]: sds.c and sds.h, strings with the five
      header types in one block of bytes.
    - [Object], [ObjectSpec]: the string objects of object.c in a heap of
      objects with reference counts and shared integers.
    - [KvTable], [KvIter]: the interface of a hash table and of its iterators to
      the types of values that use one, and the proof that dict.c provides it.
    - [Skiplist] (operations), [SkiplistRepr], [SkiplistOps], [SkiplistDelete],
      [SkiplistSpec], [SkiplistRange] (lemmas), [SkiplistCorrect] (theorems):
      the skip list of t_zset.c.
    - [Zset], [ZsetSpec]: sorted sets as a dictionary and a skip list.
    - [Score]: [d2string] of util.c and what it relies on of the C library.
    - [Zzl], [ZzlSpec], [ZzlRange]: sorted sets in a ziplist.
    - [ZsetObj], [ZsetObjSpec]: sorted set objects in either encoding and the
      conversions between them.
    - [SetType]: sets as intsets or hash tables (t_set.c).
    - [Lzf] (operations), [LzfSpec] (decompression), [LzfCompress]
      (compression): lzf_c.c and lzf_d.c, over blocks of bytes.
    - [Quicklist] (operations), [QuicklistRepr] (what a heap of nodes holds, and
      the compression of nodes), [QuicklistLinks] (insertion and deletion of
      nodes), [QuicklistSpec] (pushes and pops), [QuicklistIndex],
      [QuicklistMerge], [QuicklistInsert], [QuicklistRange], [QuicklistIter]:
      quicklist.c, the linked list of ziplists with compressed inner nodes.
    - [ListType] (operations), [ListSpec], [ListCommands] (theorems): the list
      API and the list commands of t_list.c but for the blocking ones.
    - [QuicklistFindings]: concrete runs of quicklist.c and t_list.c that show
      the defects found in them.
    - [HashType], [HashSpec]: hashes as ziplists or hash tables (t_hash.c).
    - [Keyspace] (operations): a database of db.c and expire.c with its
      commands, over string objects with reference counts; [StringType]:
      t_string.c; [Commands]: the rows of the command table, the lookup of a
      command and the life of a query (server.c, networking.c).
    - [KeyspaceSpec] (references and the two dictionaries), [KeyspaceOps] (the
      operations of db.c on a finite map), [KeyCommands], [StringCommands],
      [StringEdit] (each command and its abstract counterpart),
      [KeyspaceSession] (theorems on sessions of queries), [KeyspaceFacts]
      (what a client sees, and the defects found).
    - [Multi] (operations), [MultiSpec] (proofs for any commands),
      [MultiKeyspace] (the commands of the keyspace, and the theorems): multi.c,
      transactions and watched keys of any number of clients, with the parts of
      server.c, db.c, rdb.c and networking.c that call it.

    ** How the code is modelled

    A C function is a Gallina function with the name it has in the source.  It
    takes and returns the state it reads and writes and gives an [option]:
    [None] is an access outside a block or to freed memory, a failed assertion
    or a loop that used up its fuel, so a theorem that a call is [Some] says
    that none of these happens and that the loop ends.  [wp m Q] is that
    statement with a postcondition.  Integers are [Z] with the wrap-around of
    their C type written out ([uwrap], [swrap]); bytes are integers between 0
    and 255; doubles are the canonical IEEE values of [spec_float].  Packed
    structures (intset, ziplist, sds) are blocks of bytes and offsets; linked
    ones (adlist, the entries of dict, the nodes of the skip list) are finite
    maps from addresses to nodes, so that sharing, dangling pointers and the
    memory outside a structure can be talked about.  A quicklist is both: its
    nodes are in such a heap, each with the block of its ziplist or the
    compressed form of it.  A list command takes the value at the key, the
    nodes, the count of changes and the events so far, and gives the new ones
    with the reply.  The commands on the keyspace are functions in a monad
    [Keyspace.M] of state and failure: the two dictionaries of a database as
    finite maps, the heap of string objects with their counts, the arguments
    of the client, the time, the changes, the events and the replies.  The
    time is the same during a command and any other at the next one.  The two
    flags of lazyfree.c, the limit of memory and the shared objects are
    parameters; the theorems are for a master that is not loading.  In [Multi]
    an event of a client is a step of the server, with the times at which the
    commands run.

    Fuel is computed from the operands: the length of the block for the walks
    over a ziplist, the number of entries, buckets or nodes elsewhere, 64 for
    the bits of a cursor.  Every theorem is one of total correctness, so each
    one includes that this is enough.

    What is not in the repository, or depends on the machine, is a parameter:
    the contents of fresh memory ([Alloc], [Uninit]), the results of
    [random()] (a list of numbers), the hash, copy and comparison functions
    of a dictionary (fields of its type, with the class [DictTypeOk] of what
    dict.c relies on: hashes of 64 bits that respect the comparison), the
    functions of an adlist, the configured limits, and how the C library prints
    and reads doubles ([Libc], with the class [LibcOk]: 17 significant digits
    identify a double, decimal integers and infinities are read as such).

    ** Interfaces

    Sets, hashes and sorted sets are written against the class
    [KvTable.Table], and proved against its laws [KvTable.TableOk];
    [KvTable.dict_table_ok] proves these laws from the theorems on dict.c, for
    any type of dictionary that does not copy values.  Iteration is a class of
    its own, [KvIter.TableIter] with the laws [KvIter.TableIterOk].  What is kept
    in a ziplist is written against [Packed.Packed] and proved against
    [Packed.PackedOk], which [Packed.ziplist_packed_ok] proves for ziplist.c.
    The nodes of a quicklist are compressed through [Quicklist.Compressor];
    its law, that decompression gives back what was compressed, is the class
    [QuicklistRepr.CompressorOk], and [QuicklistRepr.lzf_compressor_ok] proves it
    for lzf_c.c and lzf_d.c from the lemmas of [LzfCompress].
    What multi.c calls is the class [Multi.Procs]; [MultiSpec.ProcsOk] states what
    it relies on (a change is signalled and counted, an expiration apart), and
    [MultiKeyspace.keyspace_procs_ok] proves it for the commands of [Commands]
    from [KeyspaceSession] and from what each abstract command does to a key.
    The witnesses instantiate the classes with dict.c and ziplist.c.

    ** What the theorems show

    - Refinement.  Any sequence of operations from the empty structure runs
      without a fault and answers as the abstract one: intset and t_set.c a
      finite set, ziplist and adlist a sequence, dict a finite map, sds a list
      of bytes, the skip list a list ordered by score and string, a sorted set
      a finite map with ranks, a hash a finite map, a quicklist a deque, and the
      list commands a sequence of strings with its replies, events and errors.
      Any session of queries to the keyspace answers as a finite map with
      deadlines.  For the structures that keep two views of
      the same data (dictionary and skip list) or change their encoding (intset
      to wider integers or to a hash table, ziplist to a hash table or to a
      skip list and back), the theorem covers the change.
    - Equivalence: what a command sees of a string object depends on its text
      and not on its encoding, and encoding keeps the text.  The tables of the
      cyclic redundancy checks compute what the shift registers of their
      polynomials compute, so a change of up to two or eight neighbouring
      bytes is always detected; the table and the word arithmetic of the bit
      count give the number of ones.
    - Functional correctness of the hard steps one by one: the upgrade of an
      intset, the cascade update, insertion, deletion, merge and search of a
      ziplist, spans and ranks of the skip list, ranges of scores and of strings,
      iteration and scanning of a dictionary while it changes, iteration over
      sets and hashes in either encoding, insertion with splitting and merging
      of the nodes of a quicklist, deletion of a range over several nodes, the
      strings that a pattern matches, the slot of a key with a tag, the first
      bit of a value, reading and writing a field of bits.
    - Memory safety and ownership: an insertion or a deletion touches the nodes
      of its own structure only, frees what it must and nothing else, and
      iteration survives the deletion of the current node.  Between two queries
      the count of every string object is the number of keys that hold it.  The
      table of watched keys never holds a client that is gone, and what is
      propagated never holds half a transaction unless SAVE runs in one.
    - What a client relies on: a value that was set is read back, an expired
      key is never returned, a counter is exact or reports the overflow, a
      transaction runs as one step and only if no watched key was changed
      otherwise than by its expiration or by PERSIST.
    - Termination of incremental rehashing and its number of rounds, round trips between numbers and
      text and of the compressor for every input of two bytes or more and every
      contents of its uninitialised hash table, bounds, the exact, saturated or wrapped sums of
      BITFIELD.
    - Defects found on the way, each with a theorem that shows it on a concrete
      input: the size of an intset wraps at 32 bits, merging with an empty
      second ziplist loses the tail, a scan can miss an element when the table
      shrinks, the comparison of strings truncates the difference of lengths,
      the rank of an element ignores the score, a range that ends in the
      text of a shared object is taken for an empty one; in a quicklist an
      insertion at a negative index can land elsewhere, the deletion of a range
      can lose count, nodes within the depth get compressed and an inner one
      can stay uncompressed, the limits of depth and fill wrap, a rotation reads
      through a pointer that was reallocated; the compressor reads past an input
      of one byte and the decompressor past an empty one; trimming a string
      removes NUL bytes, and a range up to INT_MAX overflows; a rank query of an
      empty sorted set fails an assertion; deadlines, a decrement by the smallest number and
      the length of SETRANGE wrap, PERSIST does not signal the key; a pattern
      with a class can match the empty string or read past it, and a class that
      ends in a backslash reads past the pattern; a field of 64 signed bits is
      read and wrapped with a shift by 64; a key that expires is not signalled
      to the clients that watch it; SAVE in a transaction keeps its EXEC from
      being propagated.

    The bounds in the theorems are those of the code: lengths below 2^29 - 1
    for an intset (its size is computed in 32 bits), blocks below 2^32 bytes for
    a ziplist, at most 2^30 or 2^31 entries in a dictionary, strings shorter
    than 2^31 bytes where [sdscmp] is used.  The theorems on the list commands
    are for a compression depth of 0, the default (the iterator of t_list.c
    leaves nodes uncompressed otherwise), and every fill; the one on the
    deletion of a range is for ranges that start at the head or at a negative
    index, which is what LTRIM uses, since the code miscounts others.  Queries
    have arguments of at most 512MB and not more than 2^20 of them, as the
    protocol has it; deadlines, the end of a SETRANGE and the argument of a
    DECRBY must fit in 64 bits, since the code wraps beyond.  The theorem on
    patterns is for those without the class just named, and for the empty string
    only if the pattern does not start with a class or a NUL character; counting
    and fields of bits are for any address of the block.  Words are read in the
    little endian order of the machine.  An index, a rank or a number of buckets
    that a function takes as an [int] is an integer of any size in the model: the
    calls of the code are those within the range of its type.  Strings are
    trimmed with a C string as the set, and must not start or end with a NUL byte
    afterwards; ranges of sds end below INT_MAX.  In [MultiKeyspace] every
    database has objects of its own; in the code they differ in the same way,
    but for the shared objects, which never change.

    ** Not modelled

    Persistence, replication, networking, cluster, scripting and modules are
    outside the library: they are I/O and process control around these
    structures.  Of the command layer the dispatch of sets, hashes and
    sorted sets, the blocking commands of t_list.c and RPOPLPUSH, INCRBYFLOAT,
    SCAN, KEYS, RANDOMKEY, MOVE, SWAPDB and FLUSHDB, the cycle that expires
    keys in the background and the expiration on a slave are left out; so are
    access times and hit counters.  A value that is not a string has its type
    only in [Keyspace].  Of the files above these parts
    are left out: test code, printing and statistics; the printf family,
    splitting and quoting of sds.c; long doubles, paths and random bytes of
    util.c; the commands of bitops.c and of cluster.c; the parsing of ranges of
    scores; random members of sets; the LRU field, doubles and the memory
    statistics of object.c.  Freed strings are not tracked separately from the
    nodes or entries that own them. *)

From stdpp Require Export base tactics numbers list option sorting sets gmap.
From Stdlib Require Export ZArith Lia.
Open Scope Z_scope.

(** ** The error monad

    A C function that can read or write memory, hit an [assert] or loop is
    modelled by a function into [option]: [None] stands for an access outside
    the block, a failed assertion or a loop that used up its fuel.  [wp m Q]
    says that [m] returns, and returns a value that satisfies [Q]: it is a
    statement of total correctness. *)
Definition wp {A} (m : option A) (Q : A → Prop) : Prop :=
  match m with Some a => Q a | None => False end.

Lemma wp_ret {A} (a : A) (Q : A → Prop) : Q a → wp (Some a) Q.
Proof. done. Qed.

Lemma wp_bind {A B} (m : option A) (k : A → option B) (Q : B → Prop) :
  wp m (λ a, wp (k a) Q) → wp (m ≫= k) Q.
Proof. by destruct m. Qed.

Lemma wp_mono {A} (m : option A) (P Q : A → Prop) :
  wp m P → (∀ a, P a → Q a) → wp m Q.
Proof. destruct m; simpl; auto. Qed.

Lemma wp_inv {A} (m : option A) (Q : A → Prop) :
  wp m Q → ∃ a, m = Some a ∧ Q a.
Proof. destruct m; simpl; [eauto | done]. Qed.

Lemma wp_of_eq {A} (m : option A) a (Q : A → Prop) : m = Some a → Q a → wp m Q.
Proof. by intros ->. Qed.

(** A prefix of a computation that is known to return [r]. *)
Lemma bind_prefix {A B C D} (m : option A) (f : A → option B) (g : A → B → option C)
    (k : C → option D) r :
  (m ≫= λ a, f a ≫= λ b, g a b) = Some r →
  (m ≫= λ a, f a ≫= λ b, g a b ≫= k) = k r.
Proof. destruct m as [a|]; simpl; [|done]. destruct (f a); simpl; [|done]. by intros ->. Qed.

(** ** Loops

    [loop fuel body s] runs [body] from [s] until it leaves with [inr].  The C
    loops below are bodies of this combinator, with a fuel computed from the
    operands; [loop_wp] is the rule that proves both that the fuel is enough
    (a measure decreases) and what holds on exit. *)
Fixpoint loop {S R} (fuel : nat) (body : S → option (S + R)) (s : S) : option R :=
  match fuel with
  | O => None
  | Datatypes.S n =>
      body s ≫= λ r, match r with inl s' => loop n body s' | inr r => Some r end
  end.

Lemma loop_wp {S R} (I : S → Prop) (m : S → nat) (Q : R → Prop)
    (body : S → option (S + R)) :
  (∀ s, I s →
     wp (body s) (λ r, match r with
                       | inl s' => I s' ∧ (m s' < m s)%nat
                       | inr r => Q r end)) →
  ∀ fuel s, I s → (m s < fuel)%nat → wp (loop fuel body s) Q.
Proof.
  intros Hbody fuel. induction fuel as [|n IH]; intros s HI Hm; [lia|]. simpl.
  apply wp_bind. eapply wp_mono; [by apply Hbody|].
  intros [s'|r]; simpl; [|done]. intros [HI' Hm']. apply IH; [done|lia].
Qed.

(** One unfolding of a loop, with the fuel kept symbolic. *)
Lemma loop_S {S R} n (body : S → option (S + R)) s :
  loop (Datatypes.S n) body s =
  body s ≫= λ r, match r with inl s' => loop n body s' | inr r => Some r end.
Proof. done. Qed.

#[global] Arguments loop : simpl never.
#[global] Arguments Z.shiftl : simpl never.
#[global] Arguments Z.shiftr : simpl never.
#[global] Arguments Z.land : simpl never.
#[global] Arguments Z.lor : simpl never.
#[global] Arguments Z.pow : simpl never.

(** ** Machine integers

    A [w]-bit integer is a [Z]; [uwrap w] and [swrap w] are the conversions to
    the unsigned and to the two's complement signed type of width [w]. *)
Definition uwrap (w z : Z) : Z := z mod 2 ^ w.
Definition swrap (w z : Z) : Z := (z + 2 ^ (w - 1)) mod 2 ^ w - 2 ^ (w - 1).

Definition in_u (w z : Z) : Prop := 0 ≤ z < 2 ^ w.
Definition in_s (w z : Z) : Prop := - 2 ^ (w - 1) ≤ z < 2 ^ (w - 1).

Lemma uwrap_id w z : in_u w z → uwrap w z = z.
Proof. apply Z.mod_small. Qed.

Lemma pow2_half w : 0 < w → 2 ^ w = 2 * 2 ^ (w - 1).
Proof. intros. rewrite <-Z.pow_succ_r by lia. f_equal; lia. Qed.

Lemma swrap_id w z : 0 < w → in_s w z → swrap w z = z.
Proof.
  unfold in_s, swrap. intros Hw ?. rewrite (pow2_half w) by done.
  rewrite Z.mod_small; lia.
Qed.

Lemma swrap_uwrap w z : 0 < w → swrap w (uwrap w z) = swrap w z.
Proof.
  intros. unfold swrap, uwrap. by rewrite Zplus_mod_idemp_l.
Qed.

Lemma uwrap_bound w z : 0 ≤ w → in_u w (uwrap w z).
Proof. intros. apply Z.mod_pos_bound, Z.pow_pos_nonneg; lia. Qed.

Lemma swrap_bound w z : 0 < w → in_s w (swrap w z).
Proof.
  intros. unfold in_s, swrap.
  pose proof (Z.mod_pos_bound (z + 2 ^ (w - 1)) (2 ^ w)
                ltac:(apply Z.pow_pos_nonneg; lia)).
  pose proof (pow2_half w). lia.
Qed.

(** ** Lengths and slices with [Z] indices *)
Definition zlen {A} (l : list A) : Z := Z.of_nat (length l).

Lemma zlen_nonneg {A} (l : list A) : 0 ≤ zlen l.
Proof. unfold zlen; lia. Qed.
Lemma zlen_nil {A} : zlen (@nil A) = 0.
Proof. done. Qed.
Lemma zlen_cons {A} (x : A) l : zlen (x :: l) = 1 + zlen l.
Proof. unfold zlen; simpl; lia. Qed.
Lemma zlen_app {A} (l k : list A) : zlen (l ++ k) = zlen l + zlen k.
Proof. unfold zlen. rewrite length_app. lia. Qed.
Lemma zlen_take {A} (l : list A) n : zlen (take (Z.to_nat n) l) = Z.min (Z.max 0 n) (zlen l).
Proof. unfold zlen. rewrite length_take. lia. Qed.
Lemma zlen_drop {A} (l : list A) n : zlen (drop (Z.to_nat n) l) = Z.max 0 (zlen l - Z.max 0 n).
Proof. unfold zlen. rewrite length_drop. lia. Qed.
Lemma zlen_replicate {A} (x : A) n : zlen (replicate n x) = Z.of_nat n.
Proof. unfold zlen. by rewrite length_replicate. Qed.
Lemma zlen_fmap {A B} (f : A → B) l : zlen (f <$> l) = zlen l.
Proof. unfold zlen. by rewrite length_fmap. Qed.
Lemma zlen_map {A B} (f : A → B) l : zlen (map f l) = zlen l.
Proof. unfold zlen. by rewrite List.length_map. Qed.
Lemma zlen_rev {A} (l : list A) : zlen (rev l) = zlen l.
Proof. unfold zlen. by rewrite List.length_rev. Qed.
Lemma zlen_insert {A} (l : list A) i x : zlen (<[i:=x]> l) = zlen l.
Proof. unfold zlen. by rewrite length_insert. Qed.
Lemma zlen_0_nil {A} (l : list A) : zlen l = 0 → l = [].
Proof. destruct l; [done|]. rewrite zlen_cons. pose proof (zlen_nonneg l). lia. Qed.

(** [zl]: normalise lengths, then linear arithmetic. *)
Create Rewrite HintDb zlen.
#[export] Hint Rewrite @zlen_nil @zlen_cons @zlen_app @zlen_take @zlen_drop
  @zlen_replicate @zlen_fmap @zlen_map @zlen_rev @zlen_insert : zlen.

Ltac zlen_pos :=
  repeat match goal with
  | |- context [zlen ?l] =>
      lazymatch goal with H : 0 ≤ zlen l |- _ => fail | _ => pose proof (zlen_nonneg l) end
  | H : context [zlen ?l] |- _ =>
      lazymatch goal with H : 0 ≤ zlen l |- _ => fail | _ => pose proof (zlen_nonneg l) end
  end.

Ltac zl := autorewrite with zlen in *; zlen_pos; lia.

(** Boolean comparisons of the C code, as facts for [lia]. *)
Ltac zbool :=
  repeat match goal with
  | |- context [?a <? ?b] => destruct (Z.ltb_spec a b)
  | |- context [?a <=? ?b] => destruct (Z.leb_spec a b)
  | |- context [?a >? ?b] => rewrite (Z.gtb_ltb a b)
  | |- context [?a >=? ?b] => rewrite (Z.geb_leb a b)
  | |- context [?a =? ?b] => destruct (Z.eqb_spec a b)
  end.

(** ** Splitting lists at a [Z] index *)
Lemma list_split {A} (l : list A) i :
  0 ≤ i ≤ zlen l →
  ∃ a b, l = a ++ b ∧ zlen a = i ∧ zlen b = zlen l - i.
Proof.
  intros Hi. exists (take (Z.to_nat i) l), (drop (Z.to_nat i) l).
  rewrite take_drop. split; [done|]. zl.
Qed.

Lemma list_split3 {A} (l : list A) i n :
  0 ≤ i → 0 ≤ n → i + n ≤ zlen l →
  ∃ a b c, l = a ++ b ++ c ∧ zlen a = i ∧ zlen b = n ∧ zlen c = zlen l - i - n.
Proof.
  intros Hi Hn Hl.
  destruct (list_split l i) as (a & r & -> & Ha & Hr); [lia|].
  destruct (list_split r n) as (b & c & -> & Hb & Hc); [zl|].
  exists a, b, c. split; [done|]. zl.
Qed.

Lemma list_split_elem {A} (l : list A) i :
  0 ≤ i < zlen l → ∃ a x c, l = a ++ x :: c ∧ zlen a = i.
Proof.
  intros Hi. destruct (list_split3 l i 1) as (a & b & c & -> & Ha & Hb & _); [lia..|].
  destruct b as [|x b]; [by rewrite zlen_nil in Hb|].
  rewrite zlen_cons in Hb. rewrite (zlen_0_nil b) by lia. by exists a, x, c.
Qed.

Lemma app_inj_len {A} (a b c d : list A) :
  zlen a = zlen c → a ++ b = c ++ d → a = c ∧ b = d.
Proof. unfold zlen. intros ? ?. apply app_inj_1; [lia|done]. Qed.

Lemma lookup_mid {A} (a b : list A) x i :
  i = length a → (a ++ x :: b) !! i = Some x.
Proof. intros ->. by apply list_lookup_middle. Qed.

(** The position an index denotes; negative ones count from the end. *)
Definition norm {A} (l : list A) (i : Z) : option nat :=
  let j := if i <? 0 then zlen l + i else i in
  if (0 <=? j) && (j <? zlen l) then Some (Z.to_nat j) else None.

Lemma norm_bound {A} (l : list A) i j : norm l i = Some j → (j < length l)%nat.
Proof.
  unfold norm, zlen. intros Hn. case_match eqn:E; [|done]. simplify_eq.
  apply andb_true_iff in E as [?%Z.leb_le ?%Z.ltb_lt]. lia.
Qed.

Lemma norm_fmap {A B} (f : A → B) l i : norm (f <$> l) i = norm l i.
Proof. unfold norm. by rewrite zlen_fmap. Qed.

Lemma norm_lookup {A} (l : list A) i :
  (norm l i ≫= λ j, l !! j) =
  if i <? 0 then reverse l !! Z.to_nat (- i - 1) else l !! Z.to_nat i.
Proof.
  unfold norm, zlen. destruct (Z.ltb_spec i 0).
  - destruct (Z.leb_spec 0 (Z.of_nat (length l) + i)), (Z.ltb_spec (Z.of_nat (length l) + i) (Z.of_nat (length l)));
      simpl; try lia.
    + rewrite reverse_lookup by lia. f_equal. lia.
    + symmetry. apply lookup_ge_None_2. rewrite length_reverse. lia.
  - destruct (Z.leb_spec 0 i), (Z.ltb_spec i (Z.of_nat (length l))); simpl; try lia; [done|].
    symmetry. apply lookup_ge_None_2. lia.
Qed.

(** ** Sorted lists *)
Lemma StronglySorted_app_iff {A} (R : A → A → Prop) l k :
  StronglySorted R (l ++ k) ↔
  StronglySorted R l ∧ StronglySorted R k ∧ (∀ x y, x ∈ l → y ∈ k → R x y).
Proof. rewrite StronglySorted_app. naive_solver. Qed.

Lemma StronglySorted_mid {A} (R : A → A → Prop) l x k :
  StronglySorted R (l ++ x :: k) ↔
  StronglySorted R l ∧ StronglySorted R k ∧ (∀ y, y ∈ l → R y x) ∧
  (∀ y, y ∈ k → R x y) ∧ (∀ y z, y ∈ l → z ∈ k → R y z).
Proof.
  rewrite StronglySorted_app_iff, StronglySorted_cons, Forall_forall.
  setoid_rewrite elem_of_cons. naive_solver.
Qed.

Lemma StronglySorted_weaken {A} (R S : A → A → Prop) l :
  (∀ x y, R x y → S x y) → StronglySorted R l → StronglySorted S l.
Proof.
  intros HRS. induction 1 as [|x l _ IH Hx]; constructor; [done|].
  eapply Forall_impl; [done|]. auto.
Qed.

(** ** Filters *)
Lemma filter_all {A} (P : A → Prop) `{∀ x, Decision (P x)} (l : list A) : (∀ x, x ∈ l → P x) → filter P l = l.
Proof.
  induction l as [|x l IH]; intros Hl; [done|]. rewrite filter_cons_True by (apply Hl; left).
  f_equal. apply IH. intros y Hy. apply Hl. by right.
Qed.

Lemma filter_none {A} (P : A → Prop) `{∀ x, Decision (P x)} (l : list A) : (∀ x, x ∈ l → ¬ P x) → filter P l = [].
Proof.
  induction l as [|x l IH]; intros Hl; [done|]. rewrite filter_cons_False by (apply Hl; left).
  apply IH. intros y Hy. apply Hl. by right.
Qed.

Lemma filter_same {A} (P Q : A → Prop) `{∀ x, Decision (P x), ∀ x, Decision (Q x)} (l : list A) :
  (∀ x, x ∈ l → P x ↔ Q x) → filter P l = filter Q l.
Proof.
  induction l as [|x l IH]; intros Hl; [done|]. rewrite !filter_cons, IH by (intros y Hy; apply Hl; by right).
  assert (P x ↔ Q x) as Hx by (apply Hl; left).
  destruct (decide (P x)), (decide (Q x)); done || tauto.
Qed.

(** Equality of concatenations up to associativity. *)
Ltac app_norm := repeat (rewrite <-app_assoc || rewrite app_nil_r || simpl).
Ltac app_eq := solve [reflexivity | app_norm; reflexivity].
