(* ===== verification/Mem.v ===== *)
(** * Byte blocks: the memory the encoded data structures live in

    A block is the list of its bytes, a pointer into it is an offset.  Every
    access is checked: it returns [None] outside the block, so a theorem that an
    operation returns [Some] also says that it never touches memory it does not
    own.  [le_split]/[le_combine] are the little endian byte order in which
    intset.c, ziplist.c and rdb.c store integers ([memrev16ifbe] and its kin are
    no-ops on the little endian host this models; endianconv.c is in
    [Endianconv]). *)

From stdpp Require Import list.
From Stdlib Require Import String Ascii.
From S2P Require Import Prelude.

Abbreviation bytes := (list Z).

Definition is_byte (b : Z) : Prop := 0 ≤ b < 256.
Definition wf_bytes (m : bytes) : Prop := Forall is_byte m.

(** The bytes of a C string literal, without the terminator. *)
Definition bytes_of (s : string) : bytes :=
  map (λ c, Z.of_N (N_of_ascii c)) (list_ascii_of_string s).

(** ** Little endian integers *)
Fixpoint le_split (n : nat) (z : Z) : bytes :=
  match n with
  | O => []
  | S n => z mod 256 :: le_split n (z / 256)
  end.

Fixpoint le_combine (l : bytes) : Z :=
  match l with
  | [] => 0
  | b :: l => b + 256 * le_combine l
  end.

Lemma length_le_split n z : length (le_split n z) = n.
Proof. revert z; induction n; intros; simpl; auto. Qed.

Lemma zlen_le_split n z : zlen (le_split n z) = Z.of_nat n.
Proof. unfold zlen. by rewrite length_le_split. Qed.
#[export] Hint Rewrite zlen_le_split : zlen.

Lemma wf_le_split n z : wf_bytes (le_split n z).
Proof.
  revert z; induction n; intros; simpl; constructor; [|apply IHn].
  apply Z.mod_pos_bound; lia.
Qed.

Lemma pow256_succ n : 256 ^ Z.of_nat (S n) = 256 * 256 ^ Z.of_nat n.
Proof. rewrite Nat2Z.inj_succ, Z.pow_succ_r; lia. Qed.

Lemma le_combine_split n z : le_combine (le_split n z) = z mod 256 ^ Z.of_nat n.
Proof.
  revert z; induction n as [|n IH]; intros z; simpl le_split; simpl le_combine.
  - by rewrite Z.mod_1_r.
  - rewrite IH, pow256_succ.
    rewrite Z.rem_mul_r; [done|lia|]. apply Z.pow_pos_nonneg; lia.
Qed.

Lemma le_combine_bound l : wf_bytes l → 0 ≤ le_combine l < 256 ^ zlen l.
Proof.
  induction 1 as [|b l Hb _ IH]; simpl; [done|].
  unfold zlen in *. simpl length. rewrite pow256_succ.
  unfold is_byte in Hb. lia.
Qed.

Lemma le_split_combine l : wf_bytes l → le_split (length l) (le_combine l) = l.
Proof.
  induction 1 as [|b l Hb _ IH]; simpl; [done|]. unfold is_byte in Hb.
  f_equal.
  - rewrite (Z.mul_comm 256), Z.mod_add by lia. by apply Z.mod_small.
  - rewrite (Z.mul_comm 256), Z.div_add, (Z.div_small b) by lia. done.
Qed.

Lemma le_split_mod n z : le_split n (z mod 256 ^ Z.of_nat n) = le_split n z.
Proof.
  rewrite <-le_combine_split. rewrite <-(length_le_split n z) at 1.
  apply le_split_combine, wf_le_split.
Qed.

(** Reading back a stored two's complement integer. *)
Lemma le_signed_roundtrip n z :
  (0 < n)%nat → in_s (8 * Z.of_nat n) z →
  swrap (8 * Z.of_nat n) (le_combine (le_split n z)) = z.
Proof.
  intros Hn Hz. rewrite le_combine_split.
  replace (256 ^ Z.of_nat n) with (2 ^ (8 * Z.of_nat n)).
  - rewrite <-(swrap_id (8 * Z.of_nat n) z) at 2 by (done || lia).
    apply swrap_uwrap; lia.
  - change 256 with (2 ^ 8). rewrite <-Z.pow_mul_r; [done|lia..].
Qed.

Lemma le_unsigned_roundtrip n z :
  in_u (8 * Z.of_nat n) z → le_combine (le_split n z) = z.
Proof.
  intros Hz. rewrite le_combine_split. apply Z.mod_small.
  unfold in_u in Hz. rewrite Z.pow_mul_r in Hz; [done|lia..].
Qed.

Lemma le_combine_cons b l : le_combine (b :: l) = b + 256 * le_combine l.
Proof. done. Qed.

Lemma le_split_shift8 n v : le_split (S n) (Z.shiftl v 8) = 0 :: le_split n v.
Proof.
  simpl. rewrite Z.shiftl_mul_pow2 by lia.
  change (2 ^ 8) with 256. by rewrite Z.mod_mul, Z.div_mul by lia.
Qed.

Lemma le_split_zero n : le_split n 0 = replicate n 0.
Proof. induction n as [|n IH]; simpl; [done|]. by rewrite Z.div_0_l, IH by lia. Qed.

(** ** Checked accesses *)
Definition load (m : bytes) (i n : Z) : option bytes :=
  if (0 <=? i) && (0 <=? n) && (i + n <=? zlen m)
  then Some (take (Z.to_nat n) (drop (Z.to_nat i) m)) else None.

Definition store (m : bytes) (i : Z) (bs : bytes) : option bytes :=
  if (0 <=? i) && (i + zlen bs <=? zlen m)
  then Some (take (Z.to_nat i) m ++ bs ++ drop (Z.to_nat (i + zlen bs)) m) else None.

Definition load1 (m : bytes) (i : Z) : option Z :=
  load m i 1 ≫= head.

(** memmove(3): the source is read before the destination is written. *)
Definition memmove (m : bytes) (dst src n : Z) : option bytes :=
  load m src n ≫= store m dst.

(** The bytes a fresh or grown allocation holds are not specified: theorems hold
    for every instance. *)
Class Alloc := { junk : nat → Z }.

Definition fresh_bytes `{Alloc} (n : nat) : bytes := map (λ i, junk i mod 256) (seq 0 n).

Definition zmalloc `{Alloc} (n : Z) : bytes := fresh_bytes (Z.to_nat n).

Definition zrealloc `{Alloc} (m : bytes) (n : Z) : bytes :=
  take (Z.to_nat n) m ++ fresh_bytes (Z.to_nat n - length m).

Definition junk0 : Alloc := {| junk := λ i, 170 |}.

(** ** Reasoning with blocks in concatenated form *)
Lemma load_at (m a b c : bytes) i n :
  m = a ++ b ++ c → i = zlen a → n = zlen b → load m i n = Some b.
Proof.
  intros -> -> ->. unfold load.
  replace (_ && _) with true.
  - unfold zlen. rewrite !Nat2Z.id, drop_app_length, take_app_length. done.
  - symmetry. rewrite !andb_true_iff, !Z.leb_le. zl.
Qed.

Lemma load1_at (m a c : bytes) x i :
  m = a ++ x :: c → i = zlen a → load1 m i = Some x.
Proof.
  intros Hm Hi. unfold load1. by rewrite (load_at m a [x] c) by done.
Qed.

Lemma store_at (m a b b' c : bytes) i :
  m = a ++ b ++ c → i = zlen a → zlen b' = zlen b →
  store m i b' = Some (a ++ b' ++ c).
Proof.
  intros -> -> Hb. unfold store.
  replace (_ && _) with true.
  - do 3 f_equal.
    + unfold zlen. by rewrite Nat2Z.id, take_app_length.
    + f_equal. rewrite Hb. replace (Z.to_nat (zlen a + zlen b)) with (length (a ++ b)).
      * by rewrite app_assoc, drop_app_length.
      * rewrite length_app. unfold zlen; lia.
  - symmetry. rewrite !andb_true_iff, !Z.leb_le. zl.
Qed.

Lemma memmove_at (m a b c : bytes) a' b' c' dst src n :
  m = a ++ b ++ c → src = zlen a → n = zlen b →
  m = a' ++ b' ++ c' → dst = zlen a' → zlen b' = zlen b →
  memmove m dst src n = Some (a' ++ b ++ c').
Proof.
  intros ? ? ? ? ? ?. unfold memmove.
  rewrite (load_at m a b c) by done. simpl.
  by apply (store_at m a' b' b c').
Qed.

Lemma load_wp m i n (Q : bytes → Prop) :
  0 ≤ i → 0 ≤ n → i + n ≤ zlen m →
  (∀ a b c, m = a ++ b ++ c → zlen a = i → zlen b = n → Q b) → wp (load m i n) Q.
Proof.
  intros Hi Hn Hl HQ.
  destruct (list_split3 m i n) as (a & b & c & -> & Ha & Hb & Hc); [done..|].
  rewrite (load_at _ a b c) by done. simpl. by eapply HQ.
Qed.

Lemma load_inv m i n b :
  load m i n = Some b → ∃ a c, m = a ++ b ++ c ∧ zlen a = i ∧ zlen b = n.
Proof.
  intros H. unfold load in H.
  destruct (_ && _) eqn:E; [|done]. rewrite !andb_true_iff, !Z.leb_le in E.
  destruct (list_split3 m i n) as (a & b' & c & -> & Ha & Hb & Hc); [lia..|].
  exists a, c. enough (b' = b) as -> by done.
  assert (load (a ++ b' ++ c) i n = Some b') as Hl by (by apply (load_at _ a b' c)).
  unfold load in Hl. replace (_ && _) with true in Hl; [congruence|].
  symmetry. rewrite !andb_true_iff, !Z.leb_le. lia.
Qed.

Lemma zlen_fresh `{Alloc} n : zlen (fresh_bytes n) = Z.of_nat n.
Proof. unfold zlen, fresh_bytes. by rewrite List.length_map, List.length_seq. Qed.
#[export] Hint Rewrite @zlen_fresh : zlen.

Lemma wf_fresh `{Alloc} n : wf_bytes (fresh_bytes n).
Proof.
  unfold fresh_bytes, wf_bytes. apply Forall_map, Forall_true.
  intros x. apply Z.mod_pos_bound; lia.
Qed.

Lemma zrealloc_grow `{Alloc} m n :
  zlen m ≤ n → zrealloc m n = m ++ fresh_bytes (Z.to_nat (n - zlen m)).
Proof.
  intros. unfold zrealloc, zlen in *. rewrite take_ge by lia.
  do 2 f_equal. lia.
Qed.

Lemma zrealloc_shrink `{Alloc} a b n : n = zlen a → zrealloc (a ++ b) n = a.
Proof.
  intros ->. unfold zrealloc, zlen. rewrite Nat2Z.id, take_app_length.
  rewrite length_app. replace (length a - _)%nat with 0%nat by lia.
  by rewrite app_nil_r.
Qed.

(** Whatever the new size, a prefix that fits is kept. *)
Lemma zrealloc_prefix `{Alloc} (P R : bytes) n :
  zlen P ≤ n → ∃ X, zrealloc (P ++ R) n = P ++ X ∧ zlen X = n - zlen P.
Proof.
  intros Hn. destruct (Z.le_ge_cases (zlen (P ++ R)) n) as [Hle|Hge].
  - rewrite zrealloc_grow by done. rewrite <-app_assoc. eexists. split; [done|]. zl.
  - destruct (list_split R (n - zlen P)) as (R1 & R2 & -> & H1 & H2); [zl|].
    rewrite app_assoc, zrealloc_shrink by zl. exists R1. split; [done|]. lia.
Qed.

Lemma wf_bytes_app a b : wf_bytes (a ++ b) ↔ wf_bytes a ∧ wf_bytes b.
Proof. apply Forall_app. Qed.

(** Proofs use the lemmas above; evaluation still computes. *)
#[global] Opaque le_split le_combine load load1 store memmove.
