(* ===== verification/Endianconv.v ===== *)
(** * endianconv.c: byte order conversions

    The functions swap bytes in place at a pointer into a block; the [intrev]
    versions do the same on the bytes of an integer variable. *)

From S2P Require Import Prelude.
From S2P Require Import Mem.

(** [t = x[i]; x[i] = x[j]; x[j] = t] on the block, at base pointer [p]. *)
Definition swap_bytes (m : bytes) (p i j : Z) : option bytes :=
  t ← load1 m (p + i);
  u ← load1 m (p + j);
  m ← store m (p + i) [u];
  store m (p + j) [t].

Definition memrev16 (m : bytes) (p : Z) : option bytes :=
  swap_bytes m p 0 1.

Definition memrev32 (m : bytes) (p : Z) : option bytes :=
  m ← swap_bytes m p 0 3;
  swap_bytes m p 1 2.

Definition memrev64 (m : bytes) (p : Z) : option bytes :=
  m ← swap_bytes m p 0 7;
  m ← swap_bytes m p 1 6;
  m ← swap_bytes m p 2 5;
  swap_bytes m p 3 4.

(** The integer versions apply the swap to the object representation of [v] on
    the host, which is little endian here. *)
Definition intrev16 (v : Z) : option Z := le_combine <$> memrev16 (le_split 2 v) 0.
Definition intrev32 (v : Z) : option Z := le_combine <$> memrev32 (le_split 4 v) 0.
Definition intrev64 (v : Z) : option Z := le_combine <$> memrev64 (le_split 8 v) 0.

Lemma swap_bytes_at (m a b c : bytes) x y p i j :
  m = a ++ x :: b ++ y :: c → p + i = zlen a → p + j = zlen a + 1 + zlen b →
  swap_bytes m p i j = Some (a ++ y :: b ++ x :: c).
Proof.
  intros -> Hi Hj. unfold swap_bytes.
  rewrite (load1_at _ a (b ++ y :: c) x (p + i)) by done. simpl.
  rewrite (load1_at _ (a ++ x :: b) c y) by (rewrite <-?app_assoc; simpl; done || zl).
  simpl. rewrite (store_at _ a [x] [y] (b ++ y :: c)) by done. simpl.
  rewrite (store_at _ (a ++ y :: b) [y] [x] c) by (rewrite <-?app_assoc; simpl; done || zl).
  simpl. by rewrite <-app_assoc.
Qed.

(** The three conversions are byte reversal of the 2, 4 or 8 bytes at [p], and
    leave the rest of the block alone. *)
Lemma memrev16_rev a x c : length x = 2%nat → memrev16 (a ++ x ++ c) (zlen a) = Some (a ++ rev x ++ c).
Proof.
  destruct x as [|x0 [|x1 [|]]]; try done. intros _. unfold memrev16.
  rewrite (swap_bytes_at _ a [] c x0 x1) by (done || zl). done.
Qed.

Lemma memrev32_rev a x c : length x = 4%nat → memrev32 (a ++ x ++ c) (zlen a) = Some (a ++ rev x ++ c).
Proof.
  destruct x as [|x0 [|x1 [|x2 [|x3 [|]]]]]; try done. intros _. unfold memrev32.
  rewrite (swap_bytes_at _ a [x1; x2] c x0 x3) by (done || zl). simpl.
  rewrite (swap_bytes_at _ (a ++ [x3]) [] (x0 :: c) x1 x2)
    by (rewrite <-?app_assoc; done || zl).
  by rewrite <-app_assoc.
Qed.

Lemma memrev64_rev a x c : length x = 8%nat → memrev64 (a ++ x ++ c) (zlen a) = Some (a ++ rev x ++ c).
Proof.
  destruct x as [|x0 [|x1 [|x2 [|x3 [|x4 [|x5 [|x6 [|x7 [|]]]]]]]]]; try done.
  intros _. unfold memrev64.
  rewrite (swap_bytes_at _ a [x1; x2; x3; x4; x5; x6] c x0 x7) by (done || zl). simpl.
  rewrite (swap_bytes_at _ (a ++ [x7]) [x2; x3; x4; x5] (x0 :: c) x1 x6)
    by (rewrite <-?app_assoc; done || zl). simpl.
  rewrite (swap_bytes_at _ (a ++ [x7; x6]) [x3; x4] (x1 :: x0 :: c) x2 x5)
    by (rewrite <-?app_assoc; done || zl). simpl.
  rewrite (swap_bytes_at _ (a ++ [x7; x6; x5]) [] (x2 :: x1 :: x0 :: c) x3 x4)
    by (rewrite <-?app_assoc; done || zl).
  by rewrite <-!app_assoc.
Qed.
