(* ===== verification/Intset.v ===== *)
(** * intset.c: sorted sets of integers in a packed array

    The header fields are record fields and [contents] is the byte block behind
    them, read and written through checked accesses at the current element
    width. *)

From S2P Require Import Prelude.
From S2P Require Import Mem.

Module Intset.

Record intset := Intset { encoding : Z; length : Z; contents : bytes }.

Definition INTSET_ENC_INT16 : Z := 2.
Definition INTSET_ENC_INT32 : Z := 4.
Definition INTSET_ENC_INT64 : Z := 8.

Definition INT16_MIN : Z := -32768.
Definition INT16_MAX : Z := 32767.
Definition INT32_MIN : Z := -2147483648.
Definition INT32_MAX : Z := 2147483647.

Definition _intsetValueEncoding (v : Z) : Z :=
  if (v <? INT32_MIN) || (INT32_MAX <? v) then INTSET_ENC_INT64
  else if (v <? INT16_MIN) || (INT16_MAX <? v) then INTSET_ENC_INT32
  else INTSET_ENC_INT16.

Definition _intsetGetEncoded (ist : intset) (pos enc : Z) : option Z :=
  if enc =? INTSET_ENC_INT64 then
    v64 ← load (contents ist) (pos * 8) 8; Some (swrap 64 (le_combine v64))
  else if enc =? INTSET_ENC_INT32 then
    v32 ← load (contents ist) (pos * 4) 4; Some (swrap 32 (le_combine v32))
  else
    v16 ← load (contents ist) (pos * 2) 2; Some (swrap 16 (le_combine v16)).

Definition _intsetGet (ist : intset) (pos : Z) : option Z :=
  _intsetGetEncoded ist pos (encoding ist).

Definition _intsetSet (ist : intset) (pos value : Z) : option intset :=
  c ← (if encoding ist =? INTSET_ENC_INT64 then
         store (contents ist) (pos * 8) (le_split 8 value)
       else if encoding ist =? INTSET_ENC_INT32 then
         store (contents ist) (pos * 4) (le_split 4 value)
       else
         store (contents ist) (pos * 2) (le_split 2 value));
  Some (Intset (encoding ist) (length ist) c).

Definition intsetNew : intset := Intset INTSET_ENC_INT16 0 [].

Section Operations.
Context `{Alloc}.

(** [size] is a [uint32_t]: the product wraps. *)
Definition intsetResize (ist : intset) (len : Z) : intset :=
  let size := uwrap 32 (len * encoding ist) in
  Intset (encoding ist) (length ist) (zrealloc (contents ist) size).

(** The binary search, on state [(min, max, mid, cur)]. *)
Definition intsetSearch_body (ist : intset) (value : Z) (s : Z * Z * Z * Z) :
    option (Z * Z * Z * Z + Z * Z * Z) :=
  let '(min, max, mid, cur) := s in
  if min <=? max then
    let mid := swrap 32 (Z.shiftr (uwrap 32 (uwrap 32 min + uwrap 32 max)) 1) in
    cur ← _intsetGet ist mid;
    if cur <? value then Some (inl (mid + 1, max, mid, cur))
    else if value <? cur then Some (inl (min, mid - 1, mid, cur))
    else Some (inr (min, mid, cur))
  else Some (inr (min, mid, cur)).

Definition intsetSearch (ist : intset) (value : Z) : option (bool * Z) :=
  let len := length ist in
  if len =? 0 then Some (false, 0)
  else
    last ← _intsetGet ist (len - 1);
    if last <? value then Some (false, len)
    else
      first ← _intsetGet ist 0;
      if value <? first then Some (false, 0)
      else
        r ← loop (S (Z.to_nat len)) (intsetSearch_body ist value) (0, len - 1, -1, -1);
        let '(min, mid, cur) := r in
        if value =? cur then Some (true, mid) else Some (false, min).

(** [while(length--) _intsetSet(is,length+prepend,_intsetGetEncoded(is,length,curenc))] *)
Fixpoint intsetUpgrade_loop (length : nat) (ist : intset) (prepend curenc : Z) : option intset :=
  match length with
  | O => Some ist
  | S length =>
      v ← _intsetGetEncoded ist (Z.of_nat length) curenc;
      ist ← _intsetSet ist (Z.of_nat length + prepend) v;
      intsetUpgrade_loop length ist prepend curenc
  end.

Definition intsetUpgradeAndAdd (ist : intset) (value : Z) : option intset :=
  let curenc := encoding ist in
  let newenc := _intsetValueEncoding value in
  let len := length ist in
  let prepend := if value <? 0 then 1 else 0 in
  let ist := Intset newenc len (contents ist) in
  let ist := intsetResize ist (uwrap 32 (len + 1)) in
  ist ← intsetUpgrade_loop (Z.to_nat len) ist prepend curenc;
  ist ← (if negb (prepend =? 0) then _intsetSet ist 0 value
        else _intsetSet ist (length ist) value);
  Some (Intset (encoding ist) (uwrap 32 (length ist + 1)) (contents ist)).

Definition intsetMoveTail (ist : intset) (from to : Z) : option intset :=
  let bytes := uwrap 32 (length ist - from) in
  c ← (if encoding ist =? INTSET_ENC_INT64 then
         memmove (contents ist) (to * 8) (from * 8) (uwrap 32 (bytes * 8))
       else if encoding ist =? INTSET_ENC_INT32 then
         memmove (contents ist) (to * 4) (from * 4) (uwrap 32 (bytes * 4))
       else
         memmove (contents ist) (to * 2) (from * 2) (uwrap 32 (bytes * 2)));
  Some (Intset (encoding ist) (length ist) c).

Definition intsetAdd (ist : intset) (value : Z) : option (intset * bool) :=
  let valenc := _intsetValueEncoding value in
  if encoding ist <? valenc then
    ist ← intsetUpgradeAndAdd ist value; Some (ist, true)
  else
    r ← intsetSearch ist value;
    let '(found, pos) := r in
    if found : bool then Some (ist, false)
    else
      let ist := intsetResize ist (uwrap 32 (length ist + 1)) in
      ist ← (if pos <? length ist then intsetMoveTail ist pos (uwrap 32 (pos + 1)) else Some ist);
      ist ← _intsetSet ist pos value;
      Some (Intset (encoding ist) (uwrap 32 (length ist + 1)) (contents ist), true).

Definition intsetRemove (ist : intset) (value : Z) : option (intset * bool) :=
  let valenc := _intsetValueEncoding value in
  if valenc <=? encoding ist then
    r ← intsetSearch ist value;
    let '(found, pos) := r in
    if found : bool then
      let len := length ist in
      ist ← (if pos <? uwrap 32 (len - 1) then intsetMoveTail ist (uwrap 32 (pos + 1)) pos
            else Some ist);
      let ist := intsetResize ist (uwrap 32 (len - 1)) in
      Some (Intset (encoding ist) (uwrap 32 (len - 1)) (contents ist), true)
    else Some (ist, false)
  else Some (ist, false).

Definition intsetFind (ist : intset) (value : Z) : option bool :=
  let valenc := _intsetValueEncoding value in
  if valenc <=? encoding ist then fst <$> intsetSearch ist value else Some false.

(** [r] is the value rand(3) returned; an empty set divides by zero. *)
Definition intsetRandom (ist : intset) (r : Z) : option Z :=
  if length ist =? 0 then None else _intsetGet ist (r mod length ist).

Definition intsetGet (ist : intset) (pos : Z) : option (option Z) :=
  if pos <? length ist then v ← _intsetGet ist pos; Some (Some v) else Some None.

Definition intsetLen (ist : intset) : Z := length ist.

(** The struct header is two [uint32_t]. *)
Definition intsetBlobLen (ist : intset) : Z := 8 + uwrap 32 (length ist * encoding ist).

(** ** The representation

    [repr ist vs]: the block holds the strictly increasing list [vs], each
    element in [encoding] bytes.  [MAXLEN] is the largest length for which the
    32-bit sizes computed by the code do not wrap at the widest encoding. *)
Definition MAXLEN : Z := 2 ^ 29 - 1.

Definition enc_ok (e : Z) : Prop := e = 2 ∨ e = 4 ∨ e = 8.

Definition pack (e : Z) (vs : list Z) : bytes := concat (le_split (Z.to_nat e) <$> vs).

Record repr (ist : intset) (vs : list Z) : Prop := {
  repr_enc : enc_ok (encoding ist);
  repr_len : length ist = zlen vs;
  repr_contents : contents ist = pack (encoding ist) vs;
  repr_range : Forall (in_s (8 * encoding ist)) vs;
  repr_sorted : StronglySorted Z.lt vs;
  repr_bound : zlen vs ≤ MAXLEN }.

(** The set an intset stands for. *)
Definition elems (vs : list Z) : gset Z := list_to_set vs.

Lemma pack_app e a b : pack e (a ++ b) = pack e a ++ pack e b.
Proof. unfold pack. by rewrite fmap_app, concat_app. Qed.
Lemma pack_cons e x b : pack e (x :: b) = le_split (Z.to_nat e) x ++ pack e b.
Proof. done. Qed.
Lemma zlen_pack e vs : 0 ≤ e → zlen (pack e vs) = zlen vs * e.
Proof.
  intros He. induction vs as [|x vs IH]; [done|].
  rewrite pack_cons, zlen_app, IH, zlen_le_split, zlen_cons. lia.
Qed.

Lemma enc_ok_pos e : enc_ok e → 2 ≤ e ≤ 8.
Proof. unfold enc_ok. lia. Qed.

Lemma valenc_ok v : enc_ok (_intsetValueEncoding v).
Proof. unfold _intsetValueEncoding, enc_ok. repeat case_match; auto. Qed.

(** The encoding of a value is the least one whose range holds it. *)
Lemma valenc_spec v e :
  in_s 64 v → enc_ok e → (_intsetValueEncoding v ≤ e ↔ in_s (8 * e) v).
Proof.
  intros Hv He. unfold _intsetValueEncoding, in_s in *.
  unfold INT32_MIN, INT32_MAX, INT16_MIN, INT16_MAX,
    INTSET_ENC_INT16, INTSET_ENC_INT32, INTSET_ENC_INT64.
  change (2 ^ (64 - 1)) with 9223372036854775808 in Hv.
  destruct He as [->|[->| ->]];
    [change (2 ^ (8 * 2 - 1)) with 32768 | change (2 ^ (8 * 4 - 1)) with 2147483648
    | change (2 ^ (8 * 8 - 1)) with 9223372036854775808];
    zbool; simpl; lia.
Qed.

Lemma get_encoded_at ist A C e x pos :
  enc_ok e → in_s (8 * e) x →
  contents ist = A ++ le_split (Z.to_nat e) x ++ C → zlen A = pos * e →
  _intsetGetEncoded ist pos e = Some x.
Proof.
  intros He Hx Hc HA. unfold _intsetGetEncoded.
  unfold INTSET_ENC_INT16, INTSET_ENC_INT32, INTSET_ENC_INT64.
  destruct He as [->|[->| ->]]; simpl;
    (erewrite load_at; [|exact Hc|lia|by rewrite zlen_le_split]); simpl; f_equal;
    [apply (le_signed_roundtrip 2 x) | apply (le_signed_roundtrip 4 x)
    | apply (le_signed_roundtrip 8 x)]; done || lia.
Qed.

Lemma set_at ist A B C pos v :
  enc_ok (encoding ist) →
  contents ist = A ++ B ++ C → zlen A = pos * encoding ist → zlen B = encoding ist →
  _intsetSet ist pos v =
  Some (Intset (encoding ist) (length ist) (A ++ le_split (Z.to_nat (encoding ist)) v ++ C)).
Proof.
  intros He Hc HA HB. unfold _intsetSet.
  unfold INTSET_ENC_INT16, INTSET_ENC_INT32, INTSET_ENC_INT64.
  destruct He as [He|[He|He]]; rewrite He in *; simpl;
    (erewrite store_at; [|exact Hc|lia|by rewrite zlen_le_split]); done.
Qed.

Lemma get_repr ist vs a x b :
  repr ist vs → vs = a ++ x :: b → _intsetGet ist (zlen a) = Some x.
Proof.
  intros [He Hl Hc Hr _ _] ->. unfold _intsetGet.
  pose proof (enc_ok_pos _ He).
  apply (get_encoded_at ist (pack (encoding ist) a) (pack (encoding ist) b));
    [done| |by rewrite Hc, pack_app, pack_cons|by rewrite zlen_pack by lia].
  rewrite Forall_forall in Hr. apply Hr. set_solver.
Qed.

Lemma get_repr_wp ist vs pos (Q : Z → Prop) :
  repr ist vs → 0 ≤ pos < zlen vs →
  (∀ a x b, vs = a ++ x :: b → zlen a = pos → Q x) → wp (_intsetGet ist pos) Q.
Proof.
  intros Hr Hp HQ. destruct (list_split_elem vs pos) as (a & x & b & -> & <-); [done|].
  rewrite (get_repr ist _ a x b) by done. by eapply HQ.
Qed.

(** ** Searching *)
Lemma mid_eq min max :
  0 ≤ min → 0 ≤ max → min ≤ MAXLEN → max ≤ MAXLEN →
  swrap 32 (Z.shiftr (uwrap 32 (uwrap 32 min + uwrap 32 max)) 1) = (min + max) / 2.
Proof.
  unfold MAXLEN. change (2 ^ 29) with 536870912. intros.
  rewrite !(uwrap_id 32) by (unfold in_u; change (2 ^ 32) with 4294967296; 
    rewrite ?(uwrap_id 32) by (unfold in_u; change (2 ^ 32) with 4294967296; lia); lia).
  rewrite Z.shiftr_div_pow2 by lia. change (2 ^ 1) with 2.
  apply swrap_id; [lia|]. unfold in_s. change (2 ^ (32 - 1)) with 2147483648.
  pose proof (Z.div_le_mono (min + max) 2147483646 2). 
  assert (0 ≤ (min + max) / 2) by (apply Z.div_pos; lia). 
  change (2147483646 / 2) with 1073741823 in *. lia.
Qed.

(** What a search result means: a position of the value, or the position at
    which inserting it keeps the list sorted. *)
Definition search_post (vs : list Z) (v : Z) (r : bool * Z) : Prop :=
  let '(found, pos) := r in
  ∃ a b, zlen a = pos ∧
    if found : bool then vs = a ++ v :: b
    else vs = a ++ b ∧ Forall (λ x, x < v) a ∧ Forall (λ x, v < x) b.

Definition search_inv (vs : list Z) (v : Z) (s : Z * Z * Z * Z) : Prop :=
  let '(min, max, mid, cur) := s in
  0 ≤ min ∧ max < zlen vs ∧ min ≤ max + 1 ∧ (cur = v → min ≤ max) ∧
  Forall (λ x, x < v) (take (Z.to_nat min) vs) ∧
  Forall (λ x, v < x) (drop (Z.to_nat (max + 1)) vs).

Lemma sorted_split_lt vs a x b v :
  StronglySorted Z.lt vs → vs = a ++ x :: b → x < v →
  Forall (λ y, y < v) (a ++ [x]).
Proof.
  intros Hs -> Hx. apply StronglySorted_mid in Hs as (_ & _ & Ha & _).
  apply Forall_app; split; [|by constructor].
  apply Forall_forall. intros y Hy. specialize (Ha y Hy). lia.
Qed.

Lemma sorted_split_gt vs a x b v :
  StronglySorted Z.lt vs → vs = a ++ x :: b → v < x →
  Forall (λ y, v < y) (x :: b).
Proof.
  intros Hs -> Hx. apply StronglySorted_mid in Hs as (_ & _ & _ & Hb & _).
  constructor; [done|]. apply Forall_forall. intros y Hy. specialize (Hb y Hy). lia.
Qed.

Lemma take_mid {A} (a : list A) x b i :
  i = zlen a + 1 → take (Z.to_nat i) (a ++ x :: b) = a ++ [x].
Proof.
  intros ->. replace (Z.to_nat (zlen a + 1)) with (Datatypes.length (a ++ [x]))
    by (rewrite length_app; unfold zlen; simpl; lia).
  change (x :: b) with ([x] ++ b). by rewrite app_assoc, take_app_length.
Qed.

Lemma drop_mid {A} (a : list A) b i : i = zlen a → drop (Z.to_nat i) (a ++ b) = b.
Proof. intros ->. unfold zlen. by rewrite Nat2Z.id, drop_app_length. Qed.

Lemma search_body_wp ist vs v s :
  repr ist vs → search_inv vs v s →
  wp (intsetSearch_body ist v s) (λ r,
    match r with
    | inl s' => search_inv vs v s' ∧
        (Z.to_nat (s'.1.1.2 + 1 - s'.1.1.1) < Z.to_nat (s.1.1.2 + 1 - s.1.1.1))%nat
    | inr (min, mid, cur) =>
        search_post vs v (if v =? cur then (true, mid) else (false, min))
    end).
Proof.
  intros Hr. destruct s as [[[min max] mid] cur]. intros (Hmin & Hmax & Hmm & Hcur & Hlo & Hhi).
  unfold intsetSearch_body. pose proof (repr_bound _ _ Hr).
  destruct (Z.leb_spec min max) as [Hle|Hgt]; simpl.
  - rewrite mid_eq by (unfold MAXLEN in *; lia).
    assert (min ≤ (min + max) / 2 ≤ max) as Hm.
    { split; [apply Z.div_le_lower_bound | apply Z.div_le_upper_bound]; lia. }
    set (m := (min + max) / 2) in *. clearbody m.
    apply wp_bind. apply (get_repr_wp ist vs); [done|lia|].
    intros a x b Hvs Ha. pose proof (repr_sorted _ _ Hr) as Hs.
    destruct (Z.ltb_spec x v); [|destruct (Z.ltb_spec v x)]; simpl.
    + split; [|lia]. split_and!; try lia; [|done].
      rewrite Hvs, take_mid by lia. by eapply sorted_split_lt.
    + split; [|lia]. split_and!; try lia; [done|].
      rewrite Hvs, drop_mid by lia. by eapply sorted_split_gt.
    + rewrite (proj2 (Z.eqb_eq v x)) by lia. exists a, b. split; [done|].
      rewrite Hvs. repeat f_equal; lia.
  - destruct (Z.eqb_spec v cur) as [->|]; [lia|].
    exists (take (Z.to_nat min) vs), (drop (Z.to_nat min) vs).
    split_and!; [zl|by rewrite take_drop|done|].
    by replace min with (max + 1) by lia.
Qed.

Lemma search_wp ist vs v : repr ist vs → wp (intsetSearch ist v) (search_post vs v).
Proof.
  intros Hr. unfold intsetSearch. rewrite (repr_len _ _ Hr).
  pose proof (repr_sorted _ _ Hr) as Hs.
  destruct (Z.eqb_spec (zlen vs) 0) as [Hz|Hz].
  { rewrite (zlen_0_nil vs Hz). by exists [], []. }
  pose proof (zlen_nonneg vs).
  apply wp_bind, (get_repr_wp ist vs); [done|lia|]. intros a x b Hvs Ha.
  assert (b = []) as -> by (apply zlen_0_nil; rewrite Hvs in Ha; zl).
  destruct (Z.ltb_spec x v) as [Hxv|Hxv].
  { exists vs, []. split_and!; [done|by rewrite app_nil_r| |done].
    rewrite Hvs. by eapply sorted_split_lt. }
  apply wp_bind, (get_repr_wp ist vs); [done|lia|]. intros a0 x0 b0 Hvs0 Ha0.
  assert (a0 = []) as -> by (by apply zlen_0_nil). simpl in Hvs0.
  destruct (Z.ltb_spec v x0) as [Hvx|Hvx].
  { exists [], vs. split_and!; [done..|]. rewrite Hvs0. by apply (sorted_split_gt _ [] x0 b0 v Hs). }
  apply wp_bind. eapply wp_mono.
  - apply (loop_wp (search_inv vs v)
             (λ s, Z.to_nat (s.1.1.2 + 1 - s.1.1.1))
             (λ '(min, mid, cur), search_post vs v (if v =? cur then (true, mid) else (false, min)))
             (intsetSearch_body ist v)).
    + intros s Hs'. eapply wp_mono; [by apply (search_body_wp ist vs)|].
      intros [s'|[[??]?]]; done.
    + split_and!; try lia; [by rewrite take_0|].
      replace (Z.to_nat (zlen vs - 1 + 1)) with (Datatypes.length vs) by (unfold zlen; lia).
      by rewrite drop_all.
    + simpl. lia.
  - intros [[min mid] cur] Hp. by destruct (v =? cur).
Qed.

(** ** Upgrading the encoding in place *)
Ltac u32 :=
  repeat match goal with
  | |- context [uwrap 32 ?x] =>
      rewrite (uwrap_id 32 x) by
        (unfold in_u; change (2 ^ 32) with 4294967296;
         unfold MAXLEN in *; change (2 ^ 29) with 536870912 in *; zl)
  end.

Lemma size_ok n e : 0 ≤ n ≤ MAXLEN → 0 ≤ e ≤ 8 → uwrap 32 (n * e) = n * e.
Proof.
  intros. apply uwrap_id. unfold in_u, MAXLEN in *. change (2 ^ 32) with 4294967296.
  change (2 ^ 29) with 536870912 in *. nia.
Qed.

Lemma in_s_mono e e' x : enc_ok e → enc_ok e' → e ≤ e' → in_s (8 * e) x → in_s (8 * e') x.
Proof.
  unfold in_s. intros [->|[->| ->]] [->|[->| ->]] Hle; try lia;
  change (2 ^ (8 * 2 - 1)) with 32768; change (2 ^ (8 * 4 - 1)) with 2147483648;
  change (2 ^ (8 * 8 - 1)) with 9223372036854775808; lia.
Qed.

(** Copying back to front never overwrites an element still to be copied: the
    first [zlen vs] elements are still in the old encoding, [K] holds what was
    copied, and [J] is the gap between them. *)
Lemma upgrade_loop_eq vs curenc newenc prepend J K ist :
  enc_ok curenc → enc_ok newenc → curenc ≤ newenc → 0 ≤ prepend →
  Forall (in_s (8 * curenc)) vs → encoding ist = newenc →
  contents ist = pack curenc vs ++ J ++ K →
  zlen J = (zlen vs + prepend) * newenc - zlen vs * curenc →
  ∃ J', zlen J' = prepend * newenc ∧
    intsetUpgrade_loop (Datatypes.length vs) ist prepend curenc =
    Some (Intset newenc (length ist) (J' ++ pack newenc vs ++ K)).
Proof.
  intros Hce Hne Hle Hp. revert J K ist.
  pose proof (enc_ok_pos _ Hce). pose proof (enc_ok_pos _ Hne).
  induction vs as [|x vs IH] using rev_ind; intros J K ist Hr He Hc HJ.
  - exists J. split; [rewrite HJ, zlen_nil; lia|]. simpl. destruct ist; simpl in *. by subst.
  - apply Forall_app in Hr as [Hr Hx]. apply Forall_cons in Hx as [Hx _].
    rewrite length_app, Nat.add_comm. simpl.
    rewrite pack_app, <-!app_assoc in Hc. unfold pack at 2 in Hc. simpl in Hc.
    rewrite app_nil_r in Hc.
    rewrite zlen_app, zlen_cons, zlen_nil in HJ. 
    erewrite (get_encoded_at ist (pack curenc vs) (J ++ K)); [|done|done|done|].
    2: { rewrite zlen_pack by lia. done. }
    simpl. destruct (list_split (le_split (Z.to_nat curenc) x ++ J)
                       ((zlen vs + prepend) * newenc - zlen vs * curenc))
      as (J' & Y & HX & HJ' & HY).
    { rewrite zlen_app, zlen_le_split. pose proof (zlen_nonneg vs). nia. }
    rewrite zlen_app, zlen_le_split in HY.
    rewrite (app_assoc _ J K), HX, <-app_assoc in Hc.
    erewrite (set_at ist (pack curenc vs ++ J') Y K); 
      [|by rewrite He|by rewrite Hc, <-app_assoc| |rewrite He; lia].
    2: { rewrite zlen_app, zlen_pack, He by lia. unfold zlen in *. lia. }
    simpl. rewrite He.
    edestruct (IH J' (le_split (Z.to_nat newenc) x ++ K)
                 (Intset newenc (length ist)
                    ((pack curenc vs ++ J') ++ le_split (Z.to_nat newenc) x ++ K)))
      as (J'' & HJ'' & Heq); [done|done|by simpl; rewrite <-!app_assoc|done|].
    exists J''. split; [done|]. rewrite Heq. simpl. do 2 f_equal.
    rewrite pack_app, <-app_assoc. unfold pack at 3. simpl. by rewrite app_nil_r.
Qed.

Lemma out_of_range_cmp e v x :
  enc_ok e → ¬ in_s (8 * e) v → in_s (8 * e) x → if v <? 0 then v < x else x < v.
Proof.
  unfold in_s. intros [->|[->| ->]]; 
  change (2 ^ (8 * 2 - 1)) with 32768; change (2 ^ (8 * 4 - 1)) with 2147483648;
  change (2 ^ (8 * 8 - 1)) with 9223372036854775808; zbool; lia.
Qed.

Lemma repr_insert ist a v b c :
  StronglySorted Z.lt (a ++ b) → Forall (λ x, x < v) a → Forall (λ x, v < x) b →
  Forall (in_s (8 * encoding ist)) (a ++ b) → in_s (8 * encoding ist) v →
  enc_ok (encoding ist) → zlen (a ++ b) < MAXLEN →
  c = pack (encoding ist) (a ++ v :: b) →
  repr (Intset (encoding ist) (zlen (a ++ b) + 1) c) (a ++ v :: b).
Proof.
  intros Hs Ha Hb Hr Hv He Hl ->. rewrite Forall_forall in Ha, Hb.
  apply Forall_app in Hr as [Hra Hrb].
  constructor; simpl; [done|zl|done| | |zl].
  - apply Forall_app; split; [done|]. by constructor.
  - apply StronglySorted_mid. apply StronglySorted_app_iff in Hs as (?&?&?).
    split_and!; auto.
Qed.

Lemma upgrade_wp ist vs v :
  repr ist vs → in_s 64 v → zlen vs < MAXLEN → encoding ist < _intsetValueEncoding v →
  wp (intsetUpgradeAndAdd ist v)
     (λ ist', ∃ vs', repr ist' vs' ∧ vs' ≡ₚ v :: vs ∧ encoding ist' = _intsetValueEncoding v).
Proof.
  intros Hr Hv Hl Henc. pose proof Hr as [He Hlen Hc Hrg Hs Hb].
  set (ne := _intsetValueEncoding v) in *. pose proof (zlen_nonneg vs).
  assert (enc_ok ne) as Hne by apply valenc_ok.
  pose proof (enc_ok_pos _ He). pose proof (enc_ok_pos _ Hne).
  assert (¬ in_s (8 * encoding ist) v) as Hnr by (rewrite <-valenc_spec by done; lia).
  assert (in_s (8 * ne) v) as Hvn by (apply valenc_spec; [done..|lia]).
  assert (Forall (in_s (8 * ne)) vs) as Hrn
    by (eapply Forall_impl; [done|]; intros x; apply in_s_mono; done || lia).
  unfold intsetUpgradeAndAdd. fold ne. rewrite Hlen. unfold intsetResize. simpl. u32.
  rewrite (size_ok _ ne) by lia.
  rewrite zrealloc_grow, Hc by (rewrite Hc, zlen_pack by lia; nia).
  set (p := if v <? 0 then 1 else 0). assert (0 ≤ p ≤ 1) by (unfold p; case_match; lia).
  set (F := fresh_bytes _). 
  assert (zlen F = (zlen vs + 1) * ne - zlen vs * encoding ist) as HF.
  { unfold F. rewrite zlen_fresh, zlen_pack by lia. zlen_pos. nia. }
  destruct (list_split F ((zlen vs + p) * ne - zlen vs * encoding ist))
    as (J & K & HJK & HJ & HK); [zlen_pos; nia|].
  destruct (upgrade_loop_eq vs (encoding ist) ne p J K
              (Intset ne (zlen vs) (pack (encoding ist) vs ++ F)))
    as (J' & HJ' & Heq); [done|done|lia|lia|done|done|by rewrite HJK|done|].
  replace (Z.to_nat (zlen vs)) with (Datatypes.length vs) by (unfold zlen; lia).
  rewrite Heq. simpl. unfold p in *. destruct (Z.ltb_spec v 0) as [Hneg|Hpos]; simpl.
  - erewrite (set_at _ [] J' (pack ne vs ++ K)); [|done|done|done|simpl; lia].
    simpl. assert (K = []) as -> by (apply zlen_0_nil; lia). u32.
    exists (v :: vs). split_and!; [|done|done].
    apply (repr_insert (Intset ne 0 []) [] v vs); simpl; try done.
    + rewrite Forall_forall in *. intros x Hx.
      pose proof (out_of_range_cmp _ v x He Hnr (Hrg x Hx)) as Hcmp.
      by destruct (Z.ltb_spec v 0); [|lia].
    + by rewrite app_nil_r.
  - assert (J' = []) as -> by (apply zlen_0_nil; lia).
    erewrite (set_at _ (pack ne vs) K []);
      [|done|simpl; by rewrite app_nil_r|simpl; by rewrite zlen_pack by lia|simpl; lia].
    simpl. u32. exists (vs ++ [v]). split_and!; [|by rewrite Permutation_app_comm|done].
    replace (zlen vs + 1) with (zlen (vs ++ []) + 1) by (by rewrite app_nil_r).
    apply (repr_insert (Intset ne 0 []) vs v []); simpl; rewrite ?app_nil_r; try done.
    + rewrite Forall_forall in *. intros x Hx.
      pose proof (out_of_range_cmp _ v x He Hnr (Hrg x Hx)) as Hcmp.
      by destruct (Z.ltb_spec v 0); [lia|].
    + rewrite pack_app, pack_cons. simpl. by rewrite ?app_nil_r.
Qed.

(** ** Moving the tail, adding and removing *)
Lemma move_tail_eq ist e A B C A' B' C' from to :
  enc_ok e → encoding ist = e → 0 ≤ from ≤ length ist → length ist ≤ MAXLEN →
  contents ist = A ++ B ++ C → zlen A = from * e → zlen B = (length ist - from) * e →
  contents ist = A' ++ B' ++ C' → zlen A' = to * e → zlen B' = zlen B →
  intsetMoveTail ist from to = Some (Intset e (length ist) (A' ++ B ++ C')).
Proof.
  intros He Hee Hf Hm H1 H2 H3 H4 H5 H6. unfold intsetMoveTail. u32.
  unfold INTSET_ENC_INT16, INTSET_ENC_INT32, INTSET_ENC_INT64.
  rewrite Hee. destruct He as [->|[->| ->]]; simpl; u32;
  (erewrite memmove_at; [|exact H1|lia|lia|exact H4|lia|done]); done.
Qed.

Lemma valenc_elem ist vs v :
  repr ist vs → v ∈ vs → _intsetValueEncoding v ≤ encoding ist.
Proof.
  intros [He _ _ Hr _ _] Hv. rewrite Forall_forall in Hr. specialize (Hr v Hv).
  apply valenc_spec; [|done..]. apply (in_s_mono (encoding ist) 8); try done.
  - unfold enc_ok; auto.
  - pose proof (enc_ok_pos _ He). lia.
Qed.

Lemma repr_pos ist vs : repr ist vs → 0 ≤ zlen vs ≤ MAXLEN ∧ 2 ≤ encoding ist ≤ 8.
Proof. intros []. split; [|by apply enc_ok_pos]. zlen_pos. lia. Qed.

(** Insertion at the position the search found. *)
Lemma add_at_wp ist vs v a b :
  repr ist vs → in_s (8 * encoding ist) v → zlen vs < MAXLEN → vs = a ++ b →
  Forall (λ x, x < v) a → Forall (λ x, v < x) b →
  wp (let ist := intsetResize ist (uwrap 32 (length ist + 1)) in
      ist ← (if zlen a <? length ist then intsetMoveTail ist (zlen a) (uwrap 32 (zlen a + 1))
             else Some ist);
      ist ← _intsetSet ist (zlen a) v;
      Some (Intset (encoding ist) (uwrap 32 (length ist + 1)) (contents ist), true))
     (λ r, r.2 = true ∧ encoding r.1 = encoding ist ∧ repr r.1 (a ++ v :: b)).
Proof.
  intros Hr Hv Hl -> Ha Hb. pose proof Hr as [He Hlen Hc Hrg Hs Hbd].
  destruct (repr_pos _ _ Hr) as [? ?]. unfold intsetResize. rewrite Hlen. simpl. u32.
  rewrite size_ok by lia.
  rewrite zrealloc_grow, Hc by (rewrite Hc, zlen_pack by lia; nia).
  set (F := fresh_bytes _).
  assert (zlen F = encoding ist) as HF.
  { unfold F. rewrite zlen_fresh, zlen_pack by lia. nia. }
  rewrite pack_app, <-!app_assoc.
  set (e := encoding ist) in *.
  assert (wp (if zlen a <? zlen (a ++ b)
              then intsetMoveTail (Intset e (zlen (a ++ b)) (pack e a ++ pack e b ++ F))
                     (zlen a) (zlen a + 1)
              else Some (Intset e (zlen (a ++ b)) (pack e a ++ pack e b ++ F)))
             (λ i, ∃ G, zlen G = e ∧
                i = Intset e (zlen (a ++ b)) (pack e a ++ G ++ pack e b))) as Hmove.
  { destruct (Z.ltb_spec (zlen a) (zlen (a ++ b))) as [Hlt|Hge].
    - destruct (list_split (pack e b ++ F) e) as (G & B' & HG & HGl & HB').
      { rewrite zlen_app, zlen_pack by lia. zl. }
      rewrite zlen_app, zlen_pack in HB' by lia.
      erewrite (move_tail_eq _ e (pack e a) (pack e b) F (pack e a ++ G) B' []);
        simpl; try done.
      + exists G. split; [done|]. by rewrite app_nil_r, <-app_assoc.
      + zl.
      + by rewrite zlen_pack by lia.
      + rewrite zlen_pack by lia. zl.
      + by rewrite HG, app_nil_r, <-app_assoc.
      + rewrite zlen_app, zlen_pack by lia. lia.
      + rewrite zlen_pack by lia. lia.
    - assert (b = []) as -> by (apply zlen_0_nil; zl).
      exists F. split; [done|]. simpl. by rewrite !app_nil_r. }
  apply wp_bind. eapply wp_mono; [exact Hmove|]. intros i (G & HG & ->).
  erewrite (set_at _ (pack e a) G (pack e b));
    [|done|done|simpl; by rewrite zlen_pack by lia|done].
  simpl. u32. split_and!; [done..|].
  apply (repr_insert (Intset e 0 []) a v b); simpl; try done.
  by rewrite pack_app, pack_cons.
Qed.

Lemma add_wp ist vs v :
  repr ist vs → in_s 64 v → zlen vs < MAXLEN →
  wp (intsetAdd ist v) (λ r, r.2 = bool_decide (v ∉ vs) ∧
    encoding r.1 = Z.max (encoding ist) (_intsetValueEncoding v) ∧
    ∃ vs', repr r.1 vs' ∧ if r.2 then vs' ≡ₚ v :: vs else vs' = vs).
Proof.
  intros Hr Hv Hl. unfold intsetAdd. pose proof (repr_enc _ _ Hr).
  destruct (Z.ltb_spec (encoding ist) (_intsetValueEncoding v)) as [Hlt|Hge].
  - apply wp_bind. eapply wp_mono; [by apply (upgrade_wp ist vs)|].
    intros i (vs' & Hr' & Hp & He). simpl. split_and!.
    + symmetry. apply bool_decide_eq_true_2. intros Hin.
      pose proof (valenc_elem _ _ _ Hr Hin). lia.
    + lia.
    + by exists vs'.
  - apply wp_bind. eapply wp_mono; [by apply (search_wp ist vs)|].
    intros [[] pos] (a & b & <- & Hab).
    + simpl. split_and!; [|lia|by exists vs].
      symmetry. apply bool_decide_eq_false_2. intros Hni. apply Hni. rewrite Hab. set_solver.
    + destruct Hab as (Hab & Ha & Hb).
      eapply wp_mono; [apply (add_at_wp ist vs v a b); try done; by apply valenc_spec|].
      intros [i ok] (Hok & He & Hr'). simpl in *. subst ok. split_and!.
      * symmetry. apply bool_decide_eq_true_2. rewrite Hab. rewrite Forall_forall in Ha, Hb.
        intros [Hin|Hin]%elem_of_app; [specialize (Ha v Hin)|specialize (Hb v Hin)]; lia.
      * lia.
      * exists (a ++ v :: b). split; [done|]. rewrite Hab. by rewrite Permutation_middle.
Qed.

Lemma remove_at_wp ist vs v a b :
  repr ist vs → vs = a ++ v :: b →
  wp (let len := length ist in
      ist ← (if zlen a <? uwrap 32 (len - 1)
             then intsetMoveTail ist (uwrap 32 (zlen a + 1)) (zlen a) else Some ist);
      let ist := intsetResize ist (uwrap 32 (len - 1)) in
      Some (Intset (encoding ist) (uwrap 32 (len - 1)) (contents ist), true))
     (λ r, r.2 = true ∧ encoding r.1 = encoding ist ∧ repr r.1 (a ++ b)).
Proof.
  intros Hr ->. pose proof Hr as [He Hlen Hc Hrg Hs Hbd].
  destruct (repr_pos _ _ Hr) as [? ?]. rewrite Hlen. cbv zeta.
  set (e := encoding ist) in *.
  assert (wp (if zlen a <? uwrap 32 (zlen (a ++ v :: b) - 1)
              then intsetMoveTail ist (uwrap 32 (zlen a + 1)) (zlen a) else Some ist)
             (λ i, ∃ G, i = Intset e (zlen (a ++ v :: b)) (pack e (a ++ b) ++ G))) as Hmove.
  { u32. rewrite pack_app, pack_cons in Hc.
    destruct (Z.ltb_spec (zlen a) (zlen (a ++ v :: b) - 1)).
    - destruct (list_split (le_split (Z.to_nat e) v ++ pack e b) (zlen b * e))
        as (B' & C' & HB & HBl & HCl).
      { rewrite zlen_app, zlen_le_split, zlen_pack by lia. zlen_pos. nia. }
      erewrite (move_tail_eq _ e (pack e a ++ le_split (Z.to_nat e) v) (pack e b) []
                  (pack e a) B' C'); simpl; try done.
      + exists C'. rewrite Hlen. by rewrite pack_app, <-app_assoc.
      + rewrite Hlen. zl.
      + by rewrite Hlen.
      + by rewrite Hc, app_nil_r, <-app_assoc.
      + rewrite zlen_app, zlen_pack, zlen_le_split by lia. lia.
      + rewrite zlen_pack, Hlen by lia. zl.
      + by rewrite Hc, HB.
      + by rewrite zlen_pack by lia.
      + rewrite zlen_pack by lia. lia.
    - assert (b = []) as -> by (apply zlen_0_nil; zl).
      exists (le_split (Z.to_nat e) v). destruct ist; simpl in *.
      rewrite Hlen, Hc, !app_nil_r. done. }
  apply wp_bind. eapply wp_mono; [exact Hmove|]. intros i (G & ->). simpl.
  unfold intsetResize. simpl. u32. rewrite size_ok by (lia || zl).
  rewrite zrealloc_shrink by (rewrite zlen_pack by lia; zl).
  split_and!; [done..|]. 
  apply Forall_app in Hrg as [Hra Hrb]. apply Forall_cons in Hrb as [_ Hrb].
  apply StronglySorted_mid in Hs as (?&?&?&?&?).
  constructor; simpl; [done|zl|done|by apply Forall_app| |zl].
  apply StronglySorted_app_iff. auto.
Qed.

Lemma sorted_nodup vs : StronglySorted Z.lt vs → NoDup vs.
Proof.
  induction 1 as [|x vs _ IH Hx]; constructor; [|done].
  intros Hin. rewrite Forall_forall in Hx. specialize (Hx x Hin). lia.
Qed.

Lemma remove_wp ist vs v :
  repr ist vs → in_s 64 v →
  wp (intsetRemove ist v) (λ r, r.2 = bool_decide (v ∈ vs) ∧ encoding r.1 = encoding ist ∧
    ∃ vs', repr r.1 vs' ∧ if r.2 then vs ≡ₚ v :: vs' else vs' = vs).
Proof.
  intros Hr Hv. unfold intsetRemove. pose proof (repr_enc _ _ Hr).
  destruct (Z.leb_spec (_intsetValueEncoding v) (encoding ist)) as [Hle|Hgt].
  - apply wp_bind. eapply wp_mono; [by apply (search_wp ist vs)|].
    intros [[] pos] (a & b & <- & Hab).
    + eapply wp_mono; [by apply (remove_at_wp ist vs v a b)|].
      intros [i ok] (Hok & He & Hr'). simpl in *. subst ok. split_and!; [|done|].
      * symmetry. apply bool_decide_eq_true_2. rewrite Hab. set_solver.
      * exists (a ++ b). split; [done|]. by rewrite Hab, Permutation_middle.
    + destruct Hab as (Hab & Ha & Hb). simpl. split_and!; [|done|by exists vs].
      symmetry. apply bool_decide_eq_false_2. rewrite Hab. rewrite Forall_forall in Ha, Hb.
      intros [Hin|Hin]%elem_of_app; [specialize (Ha v Hin)|specialize (Hb v Hin)]; lia.
  - simpl. split_and!; [|done|by exists vs]. symmetry. apply bool_decide_eq_false_2.
    intros Hin. pose proof (valenc_elem _ _ _ Hr Hin). lia.
Qed.

Lemma find_eq ist vs v :
  repr ist vs → in_s 64 v → intsetFind ist v = Some (bool_decide (v ∈ vs)).
Proof.
  intros Hr Hv. unfold intsetFind. pose proof (repr_enc _ _ Hr).
  destruct (Z.leb_spec (_intsetValueEncoding v) (encoding ist)) as [Hle|Hgt].
  - destruct (wp_inv _ _ (search_wp ist vs v Hr)) as ([[] pos] & -> & a & b & <- & Hab); simpl.
    + rewrite bool_decide_eq_true_2; [done|]. rewrite Hab. set_solver.
    + destruct Hab as (Hab & Ha & Hb). rewrite bool_decide_eq_false_2; [done|].
      rewrite Hab. rewrite Forall_forall in Ha, Hb.
      intros [Hin|Hin]%elem_of_app; [specialize (Ha v Hin)|specialize (Hb v Hin)]; lia.
  - rewrite bool_decide_eq_false_2; [done|]. intros Hin.
    pose proof (valenc_elem _ _ _ Hr Hin). lia.
Qed.

Lemma repr_new : repr intsetNew [].
Proof.
  constructor; simpl; [by left|done|done|by apply Forall_nil|by apply SSorted_nil|].
  unfold MAXLEN. change (2 ^ 29) with 536870912. rewrite zlen_nil. lia.
Qed.

(** ** The abstract specification: a finite set of 64-bit integers *)
Inductive cmd := Add (v : Z) | Remove (v : Z).

Definition cmd_value (c : cmd) : Z := match c with Add v | Remove v => v end.

Definition spec_step (c : cmd) (s : gset Z) : gset Z * bool :=
  match c with
  | Add v => ({[v]} ∪ s, bool_decide (v ∉ s))
  | Remove v => (s ∖ {[v]}, bool_decide (v ∈ s))
  end.

Definition impl_step (c : cmd) (ist : intset) : option (intset * bool) :=
  match c with
  | Add v => intsetAdd ist v
  | Remove v => intsetRemove ist v
  end.

Fixpoint spec_run (cs : list cmd) (s : gset Z) : gset Z * list bool :=
  match cs with
  | [] => (s, [])
  | c :: cs => let '(s, r) := spec_step c s in let '(s, rs) := spec_run cs s in (s, r :: rs)
  end.

Fixpoint impl_run (cs : list cmd) (ist : intset) : option (intset * list bool) :=
  match cs with
  | [] => Some (ist, [])
  | c :: cs => '(ist, r) ← impl_step c ist; '(ist, rs) ← impl_run cs ist; Some (ist, r :: rs)
  end.

Lemma step_refines c ist vs :
  repr ist vs → in_s 64 (cmd_value c) → zlen vs < MAXLEN →
  wp (impl_step c ist) (λ r, ∃ vs',
    repr r.1 vs' ∧ spec_step c (elems vs) = (elems vs', r.2) ∧
    encoding ist ≤ encoding r.1 ∧ zlen vs' ≤ zlen vs + 1).
Proof.
  intros Hr Hv Hl. destruct c as [v|v]; simpl in *.
  - eapply wp_mono; [by apply (add_wp ist vs)|].
    intros [i ok] (Hok & He & vs' & Hr' & Hp). simpl in *.
    exists vs'. split_and!; [done| |lia|].
    + f_equal.
      * unfold elems. destruct ok.
        -- apply set_eq. intros x. 
           by rewrite elem_of_union, elem_of_singleton, !elem_of_list_to_set, Hp, elem_of_cons.
        -- symmetry in Hok. apply bool_decide_eq_false, dec_stable in Hok. subst vs'.
           apply set_eq. intros x.
           rewrite elem_of_union, elem_of_singleton, !elem_of_list_to_set. naive_solver.
      * rewrite Hok. unfold elems. apply bool_decide_ext. by rewrite elem_of_list_to_set.
    + destruct ok; [|subst; lia]. unfold zlen. rewrite (Permutation_length Hp). simpl. lia.
  - eapply wp_mono; [by apply (remove_wp ist vs)|].
    intros [i ok] (Hok & He & vs' & Hr' & Hp). simpl in *.
    exists vs'. split_and!; [done| |lia|].
    + f_equal.
      * pose proof (sorted_nodup _ (repr_sorted _ _ Hr)) as Hnd. unfold elems. destruct ok.
        -- rewrite Hp in Hnd. apply NoDup_cons in Hnd as [Hnv _].
           apply set_eq. intros x. 
           rewrite elem_of_difference, elem_of_singleton, !elem_of_list_to_set, Hp, elem_of_cons.
           naive_solver.
        -- symmetry in Hok. apply bool_decide_eq_false in Hok. subst vs'.
           apply set_eq. intros x.
           rewrite elem_of_difference, elem_of_singleton, !elem_of_list_to_set. naive_solver.
      * rewrite Hok. unfold elems. apply bool_decide_ext. by rewrite elem_of_list_to_set.
    + destruct ok; [|subst; lia]. unfold zlen. rewrite (Permutation_length Hp). simpl. lia.
Qed.

Lemma run_refines cs ist vs :
  repr ist vs → Forall (λ c, in_s 64 (cmd_value c)) cs → zlen vs + zlen cs ≤ MAXLEN →
  wp (impl_run cs ist) (λ r, ∃ vs', repr r.1 vs' ∧ spec_run cs (elems vs) = (elems vs', r.2)).
Proof.
  revert ist vs. induction cs as [|c cs IH]; intros ist vs Hr Hcs Hl; simpl.
  - by exists vs.
  - apply Forall_cons in Hcs as [Hc Hcs]. rewrite zlen_cons in Hl.
    apply wp_bind. eapply wp_mono; [apply (step_refines c ist vs); done || zl|].
    intros [i r] (vs1 & Hr1 & Hsp & _ & Hl1). simpl in *.
    apply wp_bind. eapply wp_mono; [apply (IH i vs1); done || lia|].
    intros [i' rs] (vs2 & Hr2 & Hsp2). simpl in *. exists vs2. split; [done|].
    by rewrite Hsp, Hsp2.
Qed.

(** C11: Every sequence of [intsetAdd] and [intsetRemove] calls on 64-bit values,
    starting from [intsetNew], runs without an out of bounds access and without
    exhausting a loop, reports the same success flags as a mathematical finite
    set and leaves a block that represents that set: sorted, without
    duplicates, every element packed at the current encoding.  The bound is the
    largest number of elements for which the 32-bit sizes do not wrap. *)
Theorem intset_refines_set (cs : list cmd) :
  Forall (λ c, in_s 64 (cmd_value c)) cs → zlen cs ≤ MAXLEN →
  ∃ ist vs rs, impl_run cs intsetNew = Some (ist, rs) ∧ repr ist vs ∧
    spec_run cs ∅ = (elems vs, rs).
Proof.
  intros Hcs Hl.
  destruct (wp_inv _ _ (run_refines cs intsetNew [] repr_new Hcs ltac:(zl)))
    as ([ist rs] & Heq & vs & Hr & Hsp).
  by exists ist, vs, rs.
Qed.

(** On a represented set [intsetFind] terminates inside the block and decides
    membership, whatever the encoding of the value and of the set. *)
Theorem intsetFind_correct ist vs v :
  repr ist vs → in_s 64 v → intsetFind ist v = Some (bool_decide (v ∈ elems vs)).
Proof.
  intros Hr Hv. rewrite (find_eq ist vs) by done. f_equal. apply bool_decide_ext.
  unfold elems. by rewrite elem_of_list_to_set.
Qed.

(** When the value needs a wider encoding, [intsetAdd] rewrites the array in
    place, back to front, in the wider encoding: the old elements survive, the
    value is put at the end its sign tells, and the encoding becomes that of
    the value. *)
Theorem intsetUpgradeAndAdd_correct ist vs v :
  repr ist vs → in_s 64 v → zlen vs < MAXLEN → encoding ist < _intsetValueEncoding v →
  ∃ ist', intsetUpgradeAndAdd ist v = Some ist' ∧
    repr ist' (if v <? 0 then v :: vs else vs ++ [v]) ∧
    encoding ist' = _intsetValueEncoding v.
Proof.
  intros Hr Hv Hl He.
  destruct (wp_inv _ _ (upgrade_wp ist vs v Hr Hv Hl He)) as (i & Hi & vs' & Hr' & Hp & He').
  exists i. split_and!; [done| |done].
  enough (vs' = if v <? 0 then v :: vs else vs ++ [v]) as <- by done.
  assert (∀ l, StronglySorted Z.lt l → l ≡ₚ v :: vs → vs' = l) as Huniq.
  { intros l Hl' Hpl. apply (StronglySorted_unique Z.le).
    - eapply StronglySorted_weaken; [|exact (repr_sorted _ _ Hr')]. lia.
    - eapply StronglySorted_weaken; [|exact Hl']. lia.
    - by rewrite Hp, Hpl. }
  pose proof Hr as [Hee _ _ Hrg Hs _].
  assert (¬ in_s (8 * encoding ist) v) as Hnr by (rewrite <-valenc_spec by done; lia).
  assert (∀ x, x ∈ vs → if v <? 0 then v < x else x < v) as Hcmp.
  { intros x Hx. rewrite Forall_forall in Hrg. by eapply out_of_range_cmp, Hrg. }
  destruct (v <? 0); apply Huniq.
  - constructor; [done|]. by apply Forall_forall.
  - done.
  - apply StronglySorted_mid. split_and!; [done|constructor|done| |]; set_solver.
  - by rewrite Permutation_app_comm.
Qed.

(** The size computation of [intsetResize] is 32 bits wide: asked to hold
    2^29 elements at the 64-bit encoding it shrinks the block to nothing while
    the header still counts the elements. *)
Theorem intsetResize_overflow ist :
  encoding ist = INTSET_ENC_INT64 →
  contents (intsetResize ist (MAXLEN + 1)) = [] ∧ length (intsetResize ist (MAXLEN + 1)) = length ist.
Proof.
  intros He. split; [|done]. unfold intsetResize. rewrite He. simpl contents.
  replace (uwrap 32 ((MAXLEN + 1) * INTSET_ENC_INT64)) with 0 by (vm_compute; reflexivity).
  by apply (zrealloc_shrink [] (contents ist) 0).
Qed.

End Operations.

(** ** The theorems at concrete inputs *)
Lemma intset_refines_set_witness :
  ∃ ist vs rs,
    @impl_run junk0 [Add 5; Add 100000; Add (-1); Remove 5; Add (-5000000000)] intsetNew
      = Some (ist, rs) ∧ repr ist vs ∧
    spec_run [Add 5; Add 100000; Add (-1); Remove 5; Add (-5000000000)] ∅ = (elems vs, rs).
Proof.
  apply (@intset_refines_set junk0).
  - repeat constructor; vm_compute; congruence.
  - vm_compute; congruence.
Defined.

Definition sample : intset := Intset 2 2 [254; 255; 44; 1].

Lemma sample_repr : repr sample [-2; 300].
Proof.
  constructor; [by left|done|by vm_compute| | |by vm_compute].
  - repeat constructor; vm_compute; congruence.
  - repeat constructor; lia.
Qed.

Lemma intsetFind_correct_witness :
  intsetFind sample 300 = Some (bool_decide (300 ∈ elems [-2; 300])).
Proof. apply intsetFind_correct; [apply sample_repr | by vm_compute]. Defined.

Lemma intsetUpgradeAndAdd_correct_witness :
  ∃ ist', @intsetUpgradeAndAdd junk0 sample 70000 = Some ist' ∧
    repr ist' (if 70000 <? 0 then 70000 :: [-2; 300] else [-2; 300] ++ [70000]) ∧
    encoding ist' = _intsetValueEncoding 70000.
Proof.
  apply (@intsetUpgradeAndAdd_correct junk0);
    [apply sample_repr | by vm_compute | by vm_compute | by vm_compute].
Defined.

Lemma intsetResize_overflow_witness :
  contents (@intsetResize junk0 (Intset 8 536870911 []) (MAXLEN + 1)) = [] ∧
  length (@intsetResize junk0 (Intset 8 536870911 []) (MAXLEN + 1)) = 536870911.
Proof. apply (@intsetResize_overflow junk0 (Intset 8 536870911 [])). reflexivity. Defined.

End Intset.
