(* ===== verification/Util.v ===== *)
(** * util.c: conversions between integers and their decimal text *)

From Stdlib Require Import String.
From S2P Require Import Prelude.
From S2P Require Import Mem.

Module Util.

Definition LLONG_MAX : Z := 9223372036854775807.
Definition LLONG_MIN : Z := -9223372036854775808.
Definition ULLONG_MAX : Z := 18446744073709551615.
Definition LONG_MAX : Z := LLONG_MAX.
Definition LONG_MIN : Z := LLONG_MIN.

(** Character codes. *)
Definition ch_0 : Z := 48.
Definition ch_1 : Z := 49.
Definition ch_9 : Z := 57.
Definition ch_minus : Z := 45.

(** The recursion of [digits10] divides by 10^12: two levels are enough for a
    64-bit argument. *)
Fixpoint digits10_rec (fuel : nat) (v : Z) : option Z :=
  match fuel with
  | O => None
  | S fuel =>
    if v <? 10 then Some 1
    else if v <? 100 then Some 2
    else if v <? 1000 then Some 3
    else if v <? 1000000000000 then
      if v <? 100000000 then
        if v <? 1000000 then
          if v <? 10000 then Some 4
          else Some (5 + (if 100000 <=? v then 1 else 0))
        else Some (7 + (if 10000000 <=? v then 1 else 0))
      else if v <? 10000000000 then Some (9 + (if 1000000000 <=? v then 1 else 0))
      else Some (11 + (if 100000000000 <=? v then 1 else 0))
    else r ← digits10_rec fuel (v / 1000000000000); Some (12 + r)
  end.

Definition digits10 (v : Z) : option Z := digits10_rec 2 v.

Definition sdigits10 (v : Z) : option Z :=
  if v <? 0 then
    let uv := if negb (v =? LLONG_MIN) then uwrap 64 (- v) else uwrap 64 (LLONG_MAX + 1) in
    r ← digits10 uv; Some (r + 1)
  else digits10 v.

(** The static table of the 100 two-digit numbers. *)
Definition digits : bytes :=
  Eval vm_compute in bytes_of (
    "0001020304050607080910111213141516171819" ++
    "2021222324252627282930313233343536373839" ++
    "4041424344454647484950515253545556575859" ++
    "6061626364656667686970717273747576777879" ++
    "8081828384858687888990919293949596979899")%string.

(** The main loop writes two digits per round, on state [(dst, next, value)];
    [next] is a [uint32_t] index. *)
Definition ll2string_body (s : bytes * Z * Z) : option (bytes * Z * Z + bytes * Z * Z) :=
  let '(dst, next, value) := s in
  if 100 <=? value then
    let i := (value mod 100) * 2 in
    let value := value / 100 in
    d1 ← load1 digits (i + 1);
    dst ← store dst next [d1];
    d0 ← load1 digits i;
    dst ← store dst (next - 1) [d0];
    Some (inl (dst, next - 2, value))
  else Some (inr (dst, next, value)).

(** Handle last 1-2 digits. *)
Definition ll2string_last (dst : bytes) (next value : Z) : option bytes :=
  if value <? 10 then store dst next [ch_0 + value]
  else
    let i := value * 2 in
    d1 ← load1 digits (i + 1);
    dst ← store dst next [d1];
    d0 ← load1 digits i;
    store dst (next - 1) [d0].

(** Returns the buffer and the length written; 0 when [dst] is too small. *)
Definition ll2string (dst : bytes) (dstlen svalue : Z) : option (bytes * Z) :=
  let '(value, negative) :=
    if svalue <? 0 then
      if negb (svalue =? LLONG_MIN) then (uwrap 64 (- svalue), 1)
      else (uwrap 64 (LLONG_MAX + 1), 1)
    else (svalue, 0) in
  n ← digits10 value;
  let length := n + negative in
  if dstlen <=? length then Some (dst, 0)
  else
    let next := length in
    dst ← store dst next [0];
    let next := next - 1 in
    r ← loop 11 ll2string_body (dst, next, value);
    let '(dst, next, value) := r in
    dst ← ll2string_last dst next value;
    dst ← (if negative =? 1 then store dst 0 [ch_minus] else Some dst);
    Some (dst, length).

(** [string2ll] on the [slen] bytes [s]: [None] is the failure return 0.  The
    digit loop, from accumulator [v]; the two checks are the ones that keep the
    unsigned 64-bit accumulator from wrapping. *)
Fixpoint string2ll_loop (s : bytes) (v : Z) : option (bytes * Z) :=
  match s with
  | [] => Some ([], v)
  | c :: s' =>
      if (ch_0 <=? c) && (c <=? ch_9) then
        if ULLONG_MAX / 10 <? v then None
        else
          let v := uwrap 64 (v * 10) in
          if ULLONG_MAX - (c - ch_0) <? v then None
          else string2ll_loop s' (uwrap 64 (v + (c - ch_0)))
      else Some (s, v)
  end.

Definition string2ll (s : bytes) : option Z :=
  match s with
  | [] => None
  | c0 :: s' =>
    if (zlen s =? 1) && (c0 =? ch_0) then Some 0
    else
      let '(negative, p) := if c0 =? ch_minus then (true, s') else (false, s) in
      match p with
      | [] => None
      | c :: p' =>
        if (ch_1 <=? c) && (c <=? ch_9) then
          r ← string2ll_loop p' (c - ch_0);
          let '(rest, v) := r in
          match rest with
          | _ :: _ => None
          | [] =>
            if negative : bool then
              if - (LLONG_MIN + 1) + 1 <? v then None else Some (swrap 64 (uwrap 64 (- v)))
            else
              if LLONG_MAX <? v then None else Some (swrap 64 v)
          end
        else if (c =? ch_0) && (zlen s =? 1) then Some 0
        else None
      end
  end.

Definition string2l (s : bytes) : option Z :=
  llval ← string2ll s;
  if (llval <? LONG_MIN) || (LONG_MAX <? llval) then None else Some llval.

(** ** The decimal text of a number

    [dec v] is the reference: the usual recursion on [v / 10], with a fuel that
    is enough for every [v]. *)
Fixpoint dec_rec (fuel : nat) (v : Z) : bytes :=
  match fuel with
  | O => []
  | S fuel => (if v <? 10 then [] else dec_rec fuel (v / 10)) ++ [ch_0 + v mod 10]
  end.

Definition dec (v : Z) : bytes := dec_rec (S (Z.to_nat (Z.log2 v))) v.

(** The text of a signed integer. *)
Definition print (v : Z) : bytes :=
  if v <? 0 then ch_minus :: dec (- v) else dec v.

Lemma dec_rec_enough n m v :
  0 ≤ v < 2 ^ Z.of_nat n → (n ≤ m)%nat → (0 < n)%nat → dec_rec m v = dec_rec n v.
Proof.
  revert m v. induction n as [|n IH]; intros m v Hv Hm Hn; [lia|].
  destruct m as [|m]; [lia|]. simpl. f_equal. destruct (Z.ltb_spec v 10); [done|].
  rewrite Nat2Z.inj_succ, Z.pow_succ_r in Hv by lia.
  assert (v / 10 ≤ v / 2) by (apply Z.div_le_compat_l; lia).
  assert (v / 2 < 2 ^ Z.of_nat n) by (apply Z.div_lt_upper_bound; lia).
  assert (0 ≤ v / 10) by (apply Z.div_pos; lia).
  apply IH; [lia|lia|]. destruct n; [|lia]. simpl in *. lia.
Qed.

Lemma dec_bound v : 0 ≤ v → v < 2 ^ Z.of_nat (S (Z.to_nat (Z.log2 v))).
Proof.
  intros Hv. rewrite Nat2Z.inj_succ, Z2Nat.id by apply Z.log2_nonneg.
  destruct (Z.eq_dec v 0) as [->|]; [done|]. apply Z.log2_spec; lia.
Qed.

Lemma dec_step v :
  10 ≤ v → dec v = dec (v / 10) ++ [ch_0 + v mod 10].
Proof.
  intros Hv. unfold dec at 1. cbn [dec_rec]. destruct (Z.ltb_spec v 10); [lia|].
  f_equal. unfold dec. assert (0 ≤ v / 10) by (apply Z.div_pos; lia).
  assert (Z.log2 (v / 10) < Z.log2 v) as Hlog.
  { apply Z.log2_lt_pow2.
    - apply Z.div_str_pos; lia.
    - pose proof (Z.log2_spec v ltac:(lia)) as [_ H1].
      assert (v / 10 ≤ v / 4) by (apply Z.div_le_compat_l; lia).
      assert (3 ≤ Z.log2 v) by (change 3 with (Z.log2 8); apply Z.log2_le_mono; lia).
      assert (v / 4 < 2 ^ (Z.log2 v)); [|lia].
      apply Z.div_lt_upper_bound; [lia|].
      rewrite Z.pow_succ_r in H1 by lia. lia. }
  symmetry. rewrite <-(dec_rec_enough (S (Z.to_nat (Z.log2 (v / 10)))) (Z.to_nat (Z.log2 v)));
    [done|split; [lia|by apply dec_bound]| |lia].
  pose proof (Z.log2_nonneg (v / 10)). lia.
Qed.

Lemma dec_small v : 0 ≤ v < 10 → dec v = [ch_0 + v].
Proof.
  intros Hv. unfold dec. cbn [dec_rec]. destruct (Z.ltb_spec v 10); [|lia].
  simpl. by rewrite Z.mod_small.
Qed.

Lemma dec_snoc v d : 0 < v → 0 ≤ d < 10 → dec (v * 10 + d) = dec v ++ [ch_0 + d].
Proof.
  intros Hv Hd. rewrite dec_step by lia.
  rewrite Z.div_add_l, Z.div_small, Z.add_0_r by lia.
  by rewrite (Z.add_comm (v * 10)), Z.mod_add, Z.mod_small by lia.
Qed.

Lemma dec_two v : 100 ≤ v →
  dec v = dec (v / 100) ++ [ch_0 + (v mod 100) / 10; ch_0 + (v mod 100) mod 10].
Proof.
  intros Hv. rewrite dec_step by lia.
  assert (10 ≤ v / 10) by (apply Z.div_le_lower_bound; lia).
  rewrite (dec_step (v / 10)) by lia.
  rewrite Z.div_div, <-app_assoc by lia. simpl.
  replace ((v mod 100) / 10) with ((v / 10) mod 10)
    by (Z.to_euclidean_division_equations; lia).
  by replace ((v mod 100) mod 10) with (v mod 10)
    by (Z.to_euclidean_division_equations; lia).
Qed.

(** The number of digits, by powers of ten. *)
Lemma dec_len n v :
  10 ^ Z.of_nat n ≤ v < 10 ^ (Z.of_nat n + 1) → zlen (dec v) = Z.of_nat n + 1.
Proof.
  revert v. induction n as [|n IH]; intros v Hv.
  - rewrite dec_small; [done|]. change (10 ^ Z.of_nat 0) with 1 in Hv.
    change (10 ^ (Z.of_nat 0 + 1)) with 10 in Hv. lia.
  - rewrite Nat2Z.inj_succ, <-Z.add_1_r in *. rewrite !Z.pow_add_r in Hv by lia.
    change (10 ^ 1) with 10 in Hv. pose proof (Z.pow_pos_nonneg 10 (Z.of_nat n)).
    rewrite dec_step, zlen_app, IH; [done| |lia].
    rewrite Z.pow_add_r by lia. change (10 ^ 1) with 10.
    split; [apply Z.div_le_lower_bound | apply Z.div_lt_upper_bound]; lia.
Qed.

Ltac dec_len_tac n := rewrite (dec_len n) by (cbn; lia); reflexivity.

Lemma digits10_low v : 1000 ≤ v < 1000000000000 → digits10_rec 1 v = Some (zlen (dec v)).
Proof.
  intros Hv. cbn [digits10_rec]. zbool; try lia; simpl;
    first [ dec_len_tac 3%nat | dec_len_tac 4%nat | dec_len_tac 5%nat | dec_len_tac 6%nat
          | dec_len_tac 7%nat | dec_len_tac 8%nat | dec_len_tac 9%nat | dec_len_tac 10%nat
          | dec_len_tac 11%nat ].
Qed.

Lemma digits10_1 v : 0 ≤ v < 1000000000000 → digits10_rec 1 v = Some (zlen (dec v)).
Proof.
  intros Hv. destruct (Z.lt_ge_cases v 1000) as [Hlt|]; [|apply digits10_low; lia].
  cbn [digits10_rec]. zbool; try lia.
  - by rewrite dec_small by lia.
  - dec_len_tac 1%nat.
  - dec_len_tac 2%nat.
Qed.

Lemma dec_len_div100 v : 100 ≤ v → zlen (dec v) = 2 + zlen (dec (v / 100)).
Proof. intros. rewrite dec_two by done. zl. Qed.

Lemma dec_len_div12 v : 1000000000000 ≤ v → zlen (dec v) = 12 + zlen (dec (v / 1000000000000)).
Proof.
  intros Hv. rewrite dec_len_div100 by lia.
  rewrite (dec_len_div100 (v / 100)) by (Z.to_euclidean_division_equations; lia).
  rewrite Z.div_div by lia.
  rewrite (dec_len_div100 (v / (100 * 100))) by (Z.to_euclidean_division_equations; lia).
  rewrite Z.div_div by lia.
  rewrite (dec_len_div100 (v / (100 * 100 * 100))) by (Z.to_euclidean_division_equations; lia).
  rewrite Z.div_div by lia.
  rewrite (dec_len_div100 (v / (100 * 100 * 100 * 100))) by (Z.to_euclidean_division_equations; lia).
  rewrite Z.div_div by lia.
  rewrite (dec_len_div100 (v / (100 * 100 * 100 * 100 * 100))) by (Z.to_euclidean_division_equations; lia).
  rewrite Z.div_div by lia.
  change (100 * 100 * 100 * 100 * 100 * 100) with 1000000000000. lia.
Qed.

Lemma digits10_rec_big n v :
  1000000000000 ≤ v →
  digits10_rec (S n) v = digits10_rec n (v / 1000000000000) ≫= λ r, Some (12 + r).
Proof. intros. cbn [digits10_rec]. zbool; try lia. done. Qed.

Lemma digits10_rec_less n v :
  v < 1000000000000 → digits10_rec (S n) v = digits10_rec 1 v.
Proof. intros. cbn [digits10_rec]. destruct (Z.ltb_spec v 1000000000000); [done|lia]. Qed.

Lemma digits10_eq v : in_u 64 v → digits10 v = Some (zlen (dec v)).
Proof.
  unfold in_u. change (2 ^ 64) with 18446744073709551616. intros Hv. unfold digits10.
  destruct (Z.lt_ge_cases v 1000000000000) as [Hlt|Hge].
  - rewrite digits10_rec_less by done. apply digits10_1; lia.
  - rewrite digits10_rec_big, digits10_1, (dec_len_div12 v)
      by (done || (Z.to_euclidean_division_equations; lia)).
    done.
Qed.

(** ** [string2ll] accepts exactly the canonical texts *)
Lemma string2ll_loop_app s v r :
  string2ll_loop s v = r →
  0 < v ≤ ULLONG_MAX →
  match r with
  | Some ([], w) => v ≤ w ≤ ULLONG_MAX ∧ dec w = dec v ++ s
  | _ => True
  end.
Proof.
  revert v r. induction s as [|c s IH]; intros v r <- Hv; simpl.
  - split; [lia|]. by rewrite app_nil_r.
  - destruct ((ch_0 <=? c) && (c <=? ch_9)) eqn:Hd; [|done].
    apply andb_true_iff in Hd as [H1%Z.leb_le H2%Z.leb_le]. unfold ch_0, ch_9 in *.
    destruct (Z.ltb_spec (ULLONG_MAX / 10) v) as [|Hov]; [done|].
    change (ULLONG_MAX / 10) with 1844674407370955161 in Hov. unfold ULLONG_MAX in *.
    rewrite (uwrap_id 64 (v * 10)) by (unfold in_u; change (2 ^ 64) with 18446744073709551616; lia).
    destruct (Z.ltb_spec (18446744073709551615 - (c - 48)) (v * 10)) as [|Hov2]; [done|].
    rewrite uwrap_id by (unfold in_u; change (2 ^ 64) with 18446744073709551616; lia).
    specialize (IH (v * 10 + (c - 48)) _ eq_refl ltac:(lia)).
    destruct (string2ll_loop s _) as [[[|] w]|]; [|done..].
    destruct IH as [Hw Hdec]. split; [lia|].
    rewrite Hdec, dec_snoc by lia. rewrite <-app_assoc. simpl. unfold ch_0. do 2 f_equal. f_equal. lia.
Qed.

Lemma string2ll_loop_cat s1 s2 v :
  string2ll_loop (s1 ++ s2) v =
  match string2ll_loop s1 v with
  | Some ([], u) => string2ll_loop s2 u
  | Some (r, u) => Some (r ++ s2, u)
  | None => None
  end.
Proof.
  revert v. induction s1 as [|c s1 IH]; intros v; simpl; [done|].
  repeat (case_match; try done).
Qed.

Ltac u64 :=
  repeat match goal with
  | |- context [uwrap 64 ?x] =>
      rewrite (uwrap_id 64 x) by
        (unfold in_u; change (2 ^ 64) with 18446744073709551616; lia)
  | |- context [swrap 64 ?x] =>
      rewrite (swrap_id 64 x) by
        (done || (unfold in_s; change (2 ^ (64 - 1)) with 9223372036854775808; lia))
  end.

Lemma string2ll_loop_digit d v :
  0 ≤ d < 10 → 0 ≤ v → v * 10 + d ≤ ULLONG_MAX →
  string2ll_loop [ch_0 + d] v = Some ([], v * 10 + d).
Proof.
  unfold ULLONG_MAX. intros. simpl. unfold ch_0, ch_9, ULLONG_MAX.
  change (18446744073709551615 / 10) with 1844674407370955161. u64.
  zbool; simpl; try lia. u64. do 2 f_equal. lia.
Qed.

Lemma parse_dec w :
  1 ≤ w ≤ ULLONG_MAX →
  ∃ c p, dec w = c :: p ∧ ch_1 ≤ c ≤ ch_9 ∧ string2ll_loop p (c - ch_0) = Some ([], w).
Proof.
  intros Hw0. apply (Zlt_0_ind (λ w, 1 ≤ w ≤ ULLONG_MAX → ∃ c p, dec w = c :: p ∧
    ch_1 ≤ c ≤ ch_9 ∧ string2ll_loop p (c - ch_0) = Some ([], w))); [|lia|done].
  clear w Hw0. intros w IH _ Hw. unfold ch_1, ch_9, ch_0 in *.
  destruct (Z.lt_ge_cases w 10).
  - exists (48 + w), []. rewrite dec_small by lia. split_and!; try done; try lia.
    simpl. do 2 f_equal. lia.
  - destruct (IH (w / 10)) as (c & p & Hdec & Hc & Hp);
      [Z.to_euclidean_division_equations; lia..|].
    exists c, (p ++ [48 + w mod 10]). rewrite dec_step, Hdec by lia. split_and!; [done|lia..|].
    rewrite string2ll_loop_cat, Hp.
    rewrite string2ll_loop_digit by (Z.to_euclidean_division_equations; lia).
    do 2 f_equal. Z.to_euclidean_division_equations; lia.
Qed.

Lemma string2ll_digits p :
  ∀ c w, ch_1 ≤ c ≤ ch_9 → string2ll_loop p (c - ch_0) = Some ([], w) →
  1 ≤ w ≤ ULLONG_MAX ∧ c :: p = dec w.
Proof.
  unfold ch_1, ch_9, ch_0. intros c w Hc Hp.
  pose proof (string2ll_loop_app p (c - 48) _ Hp ltac:(unfold ULLONG_MAX; lia)) as [Hw Hdec].
  split; [lia|]. rewrite Hdec, dec_small by lia. simpl. unfold ch_0. f_equal. lia.
Qed.

Lemma string2ll_sound s v : string2ll s = Some v → in_s 64 v ∧ s = print v.
Proof.
  unfold in_s. change (2 ^ (64 - 1)) with 9223372036854775808.
  unfold string2ll. destruct s as [|c0 s']; [done|]. intros H.
  destruct ((zlen (c0 :: s') =? 1) && (c0 =? ch_0)) eqn:E0.
  { apply andb_true_iff in E0 as [E1%Z.eqb_eq E2%Z.eqb_eq]. injection H as <-. subst c0.
    split; [lia|]. rewrite zlen_cons in E1. by rewrite (zlen_0_nil s') by lia. }
  destruct (if c0 =? ch_minus then _ else _) as [neg p] eqn:Eneg.
  destruct p as [|c p']; [done|].
  destruct ((ch_1 <=? c) && (c <=? ch_9)) eqn:E1.
  - apply andb_true_iff in E1 as [H1%Z.leb_le H2%Z.leb_le].
    destruct (string2ll_loop p' (c - ch_0)) as [[[|] w]|] eqn:El; simpl in H; [|done..].
    destruct (string2ll_digits p' c w) as [Hw Hdec]; [done..|].
    unfold print, LLONG_MAX, LLONG_MIN in *. unfold ULLONG_MAX in Hw.
    destruct (Z.eqb_spec c0 ch_minus) as [->|Hm]; simplify_eq; simpl in H; revert H.
    + change (- (-9223372036854775808 + 1) + 1) with 9223372036854775808.
      destruct (Z.ltb_spec 9223372036854775808 w) as [|Hle]; [done|].
      rewrite swrap_uwrap by done. u64. intros [= <-].
      split; [lia|]. destruct (Z.ltb_spec (- w) 0); [|lia]. 
      rewrite Z.opp_involutive. by f_equal.
    + destruct (Z.ltb_spec 9223372036854775807 w) as [|Hle]; [done|].
      u64. intros [= <-]. split; [lia|].
      destruct (Z.ltb_spec w 0); [lia|done].
  - destruct ((c =? ch_0) && (zlen (c0 :: s') =? 1)) eqn:E2; [|done].
    apply andb_true_iff in E2 as [E3%Z.eqb_eq E4%Z.eqb_eq]. rewrite zlen_cons in E4.
    assert (s' = []) as -> by (apply zlen_0_nil; lia).
    destruct (c0 =? ch_minus); simplify_eq.
Qed.

Lemma string2ll_complete v : in_s 64 v → string2ll (print v) = Some v.
Proof.
  unfold in_s. change (2 ^ (64 - 1)) with 9223372036854775808. intros Hv. unfold print.
  destruct (Z.ltb_spec v 0) as [Hneg|Hpos].
  - destruct (parse_dec (- v)) as (c & p & Hdec & Hc & Hp); [unfold ULLONG_MAX; lia|].
    unfold ch_1, ch_9 in Hc. unfold string2ll. rewrite Hdec.
    replace ((_ =? 1) && _) with false.
    2: { symmetry. apply andb_false_iff. right. done. }
    simpl. rewrite (proj2 (Z.leb_le ch_1 c)), (proj2 (Z.leb_le c ch_9)) by (unfold ch_1, ch_9; lia).
    simpl. rewrite Hp. simpl. unfold LLONG_MIN.
    change (- (-9223372036854775808 + 1) + 1) with 9223372036854775808.
    destruct (Z.ltb_spec 9223372036854775808 (- v)); [lia|].
    rewrite swrap_uwrap by done. u64. f_equal. lia.
  - destruct (Z.eq_dec v 0) as [->|]; [done|].
    destruct (parse_dec v) as (c & p & Hdec & Hc & Hp); [unfold ULLONG_MAX; lia|].
    unfold ch_1, ch_9 in Hc. unfold string2ll. rewrite Hdec.
    replace ((_ =? 1) && _) with false.
    2: { symmetry. apply andb_false_iff. right. apply Z.eqb_neq. unfold ch_0. lia. }
    destruct (Z.eqb_spec c ch_minus); [unfold ch_minus in *; lia|].
    rewrite (proj2 (Z.leb_le ch_1 c)), (proj2 (Z.leb_le c ch_9)) by (unfold ch_1, ch_9; lia).
    simpl. rewrite Hp. simpl. unfold LLONG_MAX.
    destruct (Z.ltb_spec 9223372036854775807 v); [lia|]. by u64.
Qed.

(** ** [ll2string] prints the canonical text *)
Lemma digits_table k :
  0 ≤ k < 100 →
  load1 digits (k * 2) = Some (ch_0 + k / 10) ∧ load1 digits (k * 2 + 1) = Some (ch_0 + k mod 10).
Proof.
  intros Hk.
  assert (Forall (λ n, load1 digits (Z.of_nat n * 2) = Some (ch_0 + Z.of_nat n / 10) ∧
                   load1 digits (Z.of_nat n * 2 + 1) = Some (ch_0 + Z.of_nat n mod 10))
            (seq 0 100)) as Hall.
  { repeat (apply Forall_cons; split; [split; vm_compute; reflexivity|]). by apply Forall_nil. }
  rewrite Forall_forall in Hall. specialize (Hall (Z.to_nat k)).
  rewrite Z2Nat.id in Hall by lia. apply Hall. apply elem_of_seq. lia.
Qed.

(** Writing the last two positions before the already written suffix. *)
Lemma store_two (A suf R : bytes) x y :
  2 ≤ zlen A →
  ∃ A', zlen A' = zlen A - 2 ∧
    (dst ← store (A ++ suf ++ R) (zlen A - 1) [y]; store dst (zlen A - 1 - 1) [x]) =
    Some (A' ++ (x :: y :: suf) ++ R).
Proof.
  intros HA. destruct (list_split A (zlen A - 2)) as (A' & B & HAB & HA' & HB); [lia|].
  destruct B as [|b0 [|b1 [|]]]; try (exfalso; revert HB; rewrite ?zlen_cons, ?zlen_nil; zlen_pos; lia).
  rewrite HAB in *. exists A'. split; [zl|].
  rewrite (store_at _ (A' ++ [b0]) [b1] [y] (suf ++ R)) by (rewrite <-?app_assoc; done || zl).
  simpl. rewrite <-app_assoc. simpl.
  rewrite (store_at _ A' [b0] [x] (y :: suf ++ R)) by (done || zl).
  done.
Qed.

Lemma store_one (A suf R : bytes) x :
  1 ≤ zlen A →
  ∃ A', zlen A' = zlen A - 1 ∧
    store (A ++ suf ++ R) (zlen A - 1) [x] = Some (A' ++ (x :: suf) ++ R).
Proof.
  intros HA. destruct (list_split A (zlen A - 1)) as (A' & B & HAB & HA' & HB); [lia|].
  destruct B as [|b0 [|]]; try (exfalso; revert HB; rewrite ?zlen_cons, ?zlen_nil; zlen_pos; lia).
  rewrite HAB in *. exists A'. split; [zl|].
  rewrite (store_at _ A' [b0] [x] (suf ++ R)) by (rewrite <-?app_assoc; done || zl). done.
Qed.

Section Loop.
Context (sg : Z) (R : bytes) (V : Z).

(** Before each round the text of [value] is still to be written before the
    suffix. *)
Definition ll_inv (s : bytes * Z * Z) : Prop :=
  let '(dst, next, value) := s in
  0 ≤ value ∧ ∃ A suf, dst = A ++ suf ++ R ∧ zlen A = next + 1 ∧
    zlen A = sg + zlen (dec value) ∧ dec V = dec value ++ suf.

Definition ll_measure (s : bytes * Z * Z) : nat := Z.to_nat (zlen (dec s.2) / 2).

Lemma ll_body_wp s :
  0 ≤ sg → ll_inv s →
  wp (ll2string_body s) (λ r, match r with
    | inl s' => ll_inv s' ∧ (ll_measure s' < ll_measure s)%nat
    | inr s' => ll_inv s' ∧ s'.2 < 100
    end).
Proof.
  destruct s as [[dst next] value]. intros Hsg (Hv & A & suf & -> & HA & HAl & HV).
  unfold ll2string_body. destruct (Z.leb_spec 100 value) as [Hge|Hlt].
  2: { simpl. split; [|done]. split; [done|]. by exists A, suf. }
  assert (0 ≤ value mod 100 < 100) as Hm by (apply Z.mod_pos_bound; lia).
  destruct (digits_table _ Hm) as [Ht0 Ht1].
  rewrite Ht1, Ht0. simpl.
  pose proof (dec_two value Hge) as Hd. rewrite Hd in HAl. autorewrite with zlen in HAl.
  destruct (store_two A suf R (ch_0 + value mod 100 / 10) (ch_0 + (value mod 100) mod 10))
    as (A' & HA' & Heq); [zl|].
  replace next with (zlen A - 1) by lia.
  destruct (store (A ++ suf ++ R) (zlen A - 1) _) as [dst'|]; simpl in *; [|done].
  rewrite Heq. simpl. split.
  - split; [apply Z.div_pos; lia|]. exists A', (ch_0 + value mod 100 / 10 :: ch_0 + (value mod 100) mod 10 :: suf).
    split_and!; [done|lia|lia|].
    by rewrite HV, Hd, <-app_assoc.
  - unfold ll_measure. simpl. rewrite Hd. autorewrite with zlen.
    pose proof (zlen_nonneg (dec (value / 100))).
    Z.to_euclidean_division_equations; lia.
Qed.
End Loop.

Lemma dec_len_le n v : 0 ≤ v < 10 ^ Z.of_nat (S n) → zlen (dec v) ≤ Z.of_nat (S n).
Proof.
  revert v. induction n as [|n IH]; intros v Hv.
  - change (10 ^ Z.of_nat 1) with 10 in Hv. rewrite dec_small by lia. zl.
  - destruct (Z.lt_ge_cases v 10); [rewrite dec_small by lia; zl|].
    rewrite dec_step by lia. rewrite Nat2Z.inj_succ, Z.pow_succ_r in Hv by lia.
    specialize (IH (v / 10)). rewrite zlen_app, zlen_cons, zlen_nil.
    enough (zlen (dec (v / 10)) ≤ Z.of_nat (S n)) by lia. apply IH.
    split; [apply Z.div_pos | apply Z.div_lt_upper_bound]; lia.
Qed.

Lemma dec_len_u64 v : in_u 64 v → 1 ≤ zlen (dec v) ≤ 20.
Proof.
  unfold in_u. change (2 ^ 64) with 18446744073709551616. intros Hv. split.
  - destruct (Z.lt_ge_cases v 10) as [|Hge]; [by rewrite dec_small by lia|]. rewrite dec_step by lia. zl.
  - apply (dec_len_le 19). cbn. lia.
Qed.

Lemma print_split v :
  print v = (if v <? 0 then [ch_minus] else []) ++ dec (Z.abs v).
Proof.
  unfold print. destruct (Z.ltb_spec v 0); simpl.
  - by rewrite Z.abs_neq by lia.
  - by rewrite Z.abs_eq by lia.
Qed.

(** The unsigned magnitude the code starts from. *)
Lemma magnitude_eq v :
  in_s 64 v →
  (if v <? 0 then
     if negb (v =? LLONG_MIN) then (uwrap 64 (- v), 1) else (uwrap 64 (LLONG_MAX + 1), 1)
   else (v, 0)) = (Z.abs v, if v <? 0 then 1 else 0) ∧ in_u 64 (Z.abs v).
Proof.
  unfold in_s, in_u, LLONG_MIN, LLONG_MAX. change (2 ^ (64 - 1)) with 9223372036854775808.
  change (2 ^ 64) with 18446744073709551616. intros Hv. split; [|lia].
  zbool; simpl; try lia; u64; f_equal; lia.
Qed.

(** What is left when the loop ends: one or two digits and the sign. *)
Lemma ll_finish sg R V dst next value :
  0 ≤ sg → ll_inv sg R V (dst, next, value) → value < 100 →
  wp (ll2string_last dst next value) (λ dst, ∃ A, zlen A = sg ∧ dst = A ++ dec V ++ R).
Proof.
  intros Hsg (Hv & A & suf & -> & HA & HAl & HV) Hlt. replace next with (zlen A - 1) by lia.
  unfold ll2string_last. destruct (Z.ltb_spec value 10) as [Hlt'|Hge].
  - rewrite (dec_small value) in HAl, HV by lia. autorewrite with zlen in HAl.
    destruct (store_one A suf R (ch_0 + value)) as (A' & HA' & ->); [zl|].
    exists A'. split; [lia|]. by rewrite HV.
  - destruct (digits_table value) as [Ht0 Ht1]; [lia|]. simpl. rewrite Ht1, Ht0. simpl.
    rewrite (dec_step value), (dec_small (value / 10)) in HAl, HV
      by (Z.to_euclidean_division_equations; lia).
    autorewrite with zlen in HAl.
    destruct (store_two A suf R (ch_0 + value / 10) (ch_0 + value mod 10)) as (A' & HA' & Heq); [zl|].
    destruct (store (A ++ suf ++ R) (zlen A - 1) _) as [dst'|]; simpl in *; [|done].
    rewrite Heq. exists A'. split; [lia|]. by rewrite HV.
Qed.

Lemma ll2string_eq dst dstlen v :
  in_s 64 v → dstlen ≤ zlen dst →
  ll2string dst dstlen v =
  if dstlen <=? zlen (print v) then Some (dst, 0)
  else Some (print v ++ 0 :: drop (Datatypes.length (print v) + 1) dst, zlen (print v)).
Proof.
  intros Hv Hd. unfold ll2string. destruct (magnitude_eq v Hv) as [-> Hu].
  set (sg := if v <? 0 then [ch_minus] else []).
  assert (print v = sg ++ dec (Z.abs v)) as Hpr by apply print_split.
  assert (zlen sg = if v <? 0 then 1 else 0) as Hsg by (unfold sg; by destruct (v <? 0)).
  rewrite digits10_eq by done. simpl. rewrite <-Hsg.
  replace (zlen (dec (Z.abs v)) + zlen sg) with (zlen (print v)) by (rewrite Hpr; zl).
  destruct (Z.leb_spec dstlen (zlen (print v))) as [|Hbig]; [done|].
  destruct (list_split3 dst (zlen (print v)) 1) as (A & z & R & -> & HA & Hz & _); [zl..|].
  rewrite (store_at _ A z [0] R) by done. simpl.
  pose proof (dec_len_u64 _ Hu) as Hlen. pose proof (zlen_nonneg sg).
  assert (ll_inv (zlen sg) (0 :: R) (Z.abs v) (A ++ 0 :: R, zlen (print v) - 1, Z.abs v)) as Hinv.
  { split; [lia|]. exists A, []. rewrite app_nil_r. split_and!; [done|lia|rewrite HA, Hpr; zl|done]. }
  destruct (wp_inv _ _ (loop_wp (ll_inv (zlen sg) (0 :: R) (Z.abs v)) ll_measure
    (λ s, ll_inv (zlen sg) (0 :: R) (Z.abs v) s ∧ s.2 < 100) ll2string_body
    (λ s Hs, ll_body_wp (zlen sg) (0 :: R) (Z.abs v) s ltac:(lia) Hs) 11 _ Hinv
    ltac:(unfold ll_measure; cbn [snd]; Z.to_euclidean_division_equations; lia)))
    as ([[dst next] value] & -> & Hi & Hlt).
  simpl in Hlt. simpl.
  destruct (wp_inv _ _ (ll_finish (zlen sg) _ _ _ _ _ ltac:(lia) Hi Hlt)) as (dst' & Heq & A' & HA' & ->).
  rewrite Heq. simpl.
  replace (drop (Datatypes.length (print v) + 1) (A ++ z ++ R)) with R.
  2: { replace (Datatypes.length (print v) + 1)%nat with (Datatypes.length (A ++ z))
         by (rewrite length_app; unfold zlen in *; lia).
       by rewrite app_assoc, drop_app_length. }
  rewrite Hpr, <-app_assoc. unfold sg in *. destruct (v <? 0); simpl in *.
  - destruct A' as [|a' [|]]; try (exfalso; revert HA'; rewrite ?zlen_cons, ?zlen_nil; zlen_pos; lia).
    rewrite (store_at _ [] [a'] [ch_minus] (dec (Z.abs v) ++ 0 :: R)) by done. done.
  - by rewrite (zlen_0_nil A') by lia.
Qed.

(** For every [long long], [ll2string] writes exactly its canonical decimal
    text, NUL terminated, at the start of a buffer that is large enough and
    returns its length; when the buffer is too small it returns 0 and writes
    nothing.  The bytes after the terminator are untouched. *)
Theorem ll2string_correct dst dstlen v :
  in_s 64 v → dstlen ≤ zlen dst →
  ll2string dst dstlen v =
  if dstlen <=? zlen (print v) then Some (dst, 0)
  else Some (print v ++ 0 :: drop (Datatypes.length (print v) + 1) dst, zlen (print v)).
Proof. apply ll2string_eq. Qed.

(** C26: [string2ll] accepts a byte string exactly when it is the canonical text
    of a 64-bit integer, and returns that integer: no leading zeroes, spaces or
    plus sign, no overflow; so converting the number back gives the string. *)
Theorem string2ll_correct s v : string2ll s = Some v ↔ in_s 64 v ∧ s = print v.
Proof.
  split; [apply string2ll_sound|]. intros [Hv ->]. by apply string2ll_complete.
Qed.

(** Printing into any large enough buffer and parsing the bytes written
    gives back the number. *)
Theorem ll2string_string2ll dst dstlen v n dst' :
  in_s 64 v → dstlen ≤ zlen dst → ll2string dst dstlen v = Some (dst', n) → n ≠ 0 →
  string2ll (take (Z.to_nat n) dst') = Some v.
Proof.
  intros Hv Hd H Hn. rewrite ll2string_eq in H by done.
  destruct (dstlen <=? zlen (print v)); simplify_eq.
  unfold zlen. rewrite Nat2Z.id, take_app_length. by apply string2ll_complete.
Qed.

Lemma ll2string_correct_witness :
  ll2string (replicate 8 7) 8 (-12) = 
  if 8 <=? zlen (print (-12)) then Some (replicate 8 7, 0)
  else Some (print (-12) ++ 0 :: drop (Datatypes.length (print (-12)) + 1) (replicate 8 7),
             zlen (print (-12))).
Proof. apply ll2string_correct; vm_compute; done. Defined.

Lemma ll2string_string2ll_witness :
  string2ll (take (Z.to_nat 3) [45; 49; 50; 0; 7; 7; 7; 7]) = Some (-12).
Proof.
  apply (ll2string_string2ll (replicate 8 7) 8 (-12) 3); [by vm_compute..|done].
Defined.

End Util.
