(* ===== verification/Crc.v ===== *)
(** * crc16.c, crc64.c: cyclic redundancy checks

    The two checksums as the source computes them, byte by byte with a table, and the
    shift registers that define them, bit by bit.  The theorems say that both agree
    on every input, and that messages which differ in a few neighbouring bytes have
    different checksums: the cluster maps keys to slots with the first ([Slot]), DUMP
    and the RDB files are protected by the second. *)

From Stdlib Require Import Btauto String.
From S2P Require Import Prelude.
From S2P Require Import Mem.

Module Crc.

Definition crc16tab : list Z :=
  [0x0000; 0x1021; 0x2042; 0x3063; 0x4084; 0x50a5; 0x60c6; 0x70e7;
   0x8108; 0x9129; 0xa14a; 0xb16b; 0xc18c; 0xd1ad; 0xe1ce; 0xf1ef;
   0x1231; 0x0210; 0x3273; 0x2252; 0x52b5; 0x4294; 0x72f7; 0x62d6;
   0x9339; 0x8318; 0xb37b; 0xa35a; 0xd3bd; 0xc39c; 0xf3ff; 0xe3de;
   0x2462; 0x3443; 0x0420; 0x1401; 0x64e6; 0x74c7; 0x44a4; 0x5485;
   0xa56a; 0xb54b; 0x8528; 0x9509; 0xe5ee; 0xf5cf; 0xc5ac; 0xd58d;
   0x3653; 0x2672; 0x1611; 0x0630; 0x76d7; 0x66f6; 0x5695; 0x46b4;
   0xb75b; 0xa77a; 0x9719; 0x8738; 0xf7df; 0xe7fe; 0xd79d; 0xc7bc;
   0x48c4; 0x58e5; 0x6886; 0x78a7; 0x0840; 0x1861; 0x2802; 0x3823;
   0xc9cc; 0xd9ed; 0xe98e; 0xf9af; 0x8948; 0x9969; 0xa90a; 0xb92b;
   0x5af5; 0x4ad4; 0x7ab7; 0x6a96; 0x1a71; 0x0a50; 0x3a33; 0x2a12;
   0xdbfd; 0xcbdc; 0xfbbf; 0xeb9e; 0x9b79; 0x8b58; 0xbb3b; 0xab1a;
   0x6ca6; 0x7c87; 0x4ce4; 0x5cc5; 0x2c22; 0x3c03; 0x0c60; 0x1c41;
   0xedae; 0xfd8f; 0xcdec; 0xddcd; 0xad2a; 0xbd0b; 0x8d68; 0x9d49;
   0x7e97; 0x6eb6; 0x5ed5; 0x4ef4; 0x3e13; 0x2e32; 0x1e51; 0x0e70;
   0xff9f; 0xefbe; 0xdfdd; 0xcffc; 0xbf1b; 0xaf3a; 0x9f59; 0x8f78;
   0x9188; 0x81a9; 0xb1ca; 0xa1eb; 0xd10c; 0xc12d; 0xf14e; 0xe16f;
   0x1080; 0x00a1; 0x30c2; 0x20e3; 0x5004; 0x4025; 0x7046; 0x6067;
   0x83b9; 0x9398; 0xa3fb; 0xb3da; 0xc33d; 0xd31c; 0xe37f; 0xf35e;
   0x02b1; 0x1290; 0x22f3; 0x32d2; 0x4235; 0x5214; 0x6277; 0x7256;
   0xb5ea; 0xa5cb; 0x95a8; 0x8589; 0xf56e; 0xe54f; 0xd52c; 0xc50d;
   0x34e2; 0x24c3; 0x14a0; 0x0481; 0x7466; 0x6447; 0x5424; 0x4405;
   0xa7db; 0xb7fa; 0x8799; 0x97b8; 0xe75f; 0xf77e; 0xc71d; 0xd73c;
   0x26d3; 0x36f2; 0x0691; 0x16b0; 0x6657; 0x7676; 0x4615; 0x5634;
   0xd94c; 0xc96d; 0xf90e; 0xe92f; 0x99c8; 0x89e9; 0xb98a; 0xa9ab;
   0x5844; 0x4865; 0x7806; 0x6827; 0x18c0; 0x08e1; 0x3882; 0x28a3;
   0xcb7d; 0xdb5c; 0xeb3f; 0xfb1e; 0x8bf9; 0x9bd8; 0xabbb; 0xbb9a;
   0x4a75; 0x5a54; 0x6a37; 0x7a16; 0x0af1; 0x1ad0; 0x2ab3; 0x3a92;
   0xfd2e; 0xed0f; 0xdd6c; 0xcd4d; 0xbdaa; 0xad8b; 0x9de8; 0x8dc9;
   0x7c26; 0x6c07; 0x5c64; 0x4c45; 0x3ca2; 0x2c83; 0x1ce0; 0x0cc1;
   0xef1f; 0xff3e; 0xcf5d; 0xdf7c; 0xaf9b; 0xbfba; 0x8fd9; 0x9ff8;
   0x6e17; 0x7e36; 0x4e55; 0x5e74; 0x2e93; 0x3eb2; 0x0ed1; 0x1ef0].

Definition crc16_step (crc b : Z) : option Z :=
  t ← crc16tab !! Z.to_nat (Z.land (Z.lxor (Z.shiftr crc 8) (swrap 8 b)) 0x00FF);
  Some (uwrap 16 (Z.lxor (Z.shiftl crc 8) t)).

(** [for (counter = 0; counter < len; counter++)] over the bytes of the block. *)
Fixpoint crc16_loop (bs : bytes) (crc : Z) : option Z :=
  match bs with [] => Some crc | b :: bs => crc ← crc16_step crc b; crc16_loop bs crc end.

Definition crc16 (buf : bytes) (len : Z) : option Z :=
  if len <=? 0 then Some 0 else bs ← load buf 0 len; crc16_loop bs 0.

Definition crc64_tab : list Z :=
  [0x0000000000000000; 0x7ad870c830358979; 0xf5b0e190606b12f2; 0x8f689158505e9b8b;
   0xc038e5739841b68f; 0xbae095bba8743ff6; 0x358804e3f82aa47d; 0x4f50742bc81f2d04;
   0xab28ecb46814fe75; 0xd1f09c7c5821770c; 0x5e980d24087fec87; 0x24407dec384a65fe;
   0x6b1009c7f05548fa; 0x11c8790fc060c183; 0x9ea0e857903e5a08; 0xe478989fa00bd371;
   0x7d08ff3b88be6f81; 0x07d08ff3b88be6f8; 0x88b81eabe8d57d73; 0xf2606e63d8e0f40a;
   0xbd301a4810ffd90e; 0xc7e86a8020ca5077; 0x4880fbd87094cbfc; 0x32588b1040a14285;
   0xd620138fe0aa91f4; 0xacf86347d09f188d; 0x2390f21f80c18306; 0x594882d7b0f40a7f;
   0x1618f6fc78eb277b; 0x6cc0863448deae02; 0xe3a8176c18803589; 0x997067a428b5bcf0;
   0xfa11fe77117cdf02; 0x80c98ebf2149567b; 0x0fa11fe77117cdf0; 0x75796f2f41224489;
   0x3a291b04893d698d; 0x40f16bccb908e0f4; 0xcf99fa94e9567b7f; 0xb5418a5cd963f206;
   0x513912c379682177; 0x2be1620b495da80e; 0xa489f35319033385; 0xde51839b2936bafc;
   0x9101f7b0e12997f8; 0xebd98778d11c1e81; 0x64b116208142850a; 0x1e6966e8b1770c73;
   0x8719014c99c2b083; 0xfdc17184a9f739fa; 0x72a9e0dcf9a9a271; 0x08719014c99c2b08;
   0x4721e43f0183060c; 0x3df994f731b68f75; 0xb29105af61e814fe; 0xc849756751dd9d87;
   0x2c31edf8f1d64ef6; 0x56e99d30c1e3c78f; 0xd9810c6891bd5c04; 0xa3597ca0a188d57d;
   0xec09088b6997f879; 0x96d1784359a27100; 0x19b9e91b09fcea8b; 0x636199d339c963f2;
   0xdf7adabd7a6e2d6f; 0xa5a2aa754a5ba416; 0x2aca3b2d1a053f9d; 0x50124be52a30b6e4;
   0x1f423fcee22f9be0; 0x659a4f06d21a1299; 0xeaf2de5e82448912; 0x902aae96b271006b;
   0x74523609127ad31a; 0x0e8a46c1224f5a63; 0x81e2d7997211c1e8; 0xfb3aa75142244891;
   0xb46ad37a8a3b6595; 0xceb2a3b2ba0eecec; 0x41da32eaea507767; 0x3b024222da65fe1e;
   0xa2722586f2d042ee; 0xd8aa554ec2e5cb97; 0x57c2c41692bb501c; 0x2d1ab4dea28ed965;
   0x624ac0f56a91f461; 0x1892b03d5aa47d18; 0x97fa21650afae693; 0xed2251ad3acf6fea;
   0x095ac9329ac4bc9b; 0x7382b9faaaf135e2; 0xfcea28a2faafae69; 0x8632586aca9a2710;
   0xc9622c4102850a14; 0xb3ba5c8932b0836d; 0x3cd2cdd162ee18e6; 0x460abd1952db919f;
   0x256b24ca6b12f26d; 0x5fb354025b277b14; 0xd0dbc55a0b79e09f; 0xaa03b5923b4c69e6;
   0xe553c1b9f35344e2; 0x9f8bb171c366cd9b; 0x10e3202993385610; 0x6a3b50e1a30ddf69;
   0x8e43c87e03060c18; 0xf49bb8b633338561; 0x7bf329ee636d1eea; 0x012b592653589793;
   0x4e7b2d0d9b47ba97; 0x34a35dc5ab7233ee; 0xbbcbcc9dfb2ca865; 0xc113bc55cb19211c;
   0x5863dbf1e3ac9dec; 0x22bbab39d3991495; 0xadd33a6183c78f1e; 0xd70b4aa9b3f20667;
   0x985b3e827bed2b63; 0xe2834e4a4bd8a21a; 0x6debdf121b863991; 0x1733afda2bb3b0e8;
   0xf34b37458bb86399; 0x8993478dbb8deae0; 0x06fbd6d5ebd3716b; 0x7c23a61ddbe6f812;
   0x3373d23613f9d516; 0x49aba2fe23cc5c6f; 0xc6c333a67392c7e4; 0xbc1b436e43a74e9d;
   0x95ac9329ac4bc9b5; 0xef74e3e19c7e40cc; 0x601c72b9cc20db47; 0x1ac40271fc15523e;
   0x5594765a340a7f3a; 0x2f4c0692043ff643; 0xa02497ca54616dc8; 0xdafce7026454e4b1;
   0x3e847f9dc45f37c0; 0x445c0f55f46abeb9; 0xcb349e0da4342532; 0xb1eceec59401ac4b;
   0xfebc9aee5c1e814f; 0x8464ea266c2b0836; 0x0b0c7b7e3c7593bd; 0x71d40bb60c401ac4;
   0xe8a46c1224f5a634; 0x927c1cda14c02f4d; 0x1d148d82449eb4c6; 0x67ccfd4a74ab3dbf;
   0x289c8961bcb410bb; 0x5244f9a98c8199c2; 0xdd2c68f1dcdf0249; 0xa7f41839ecea8b30;
   0x438c80a64ce15841; 0x3954f06e7cd4d138; 0xb63c61362c8a4ab3; 0xcce411fe1cbfc3ca;
   0x83b465d5d4a0eece; 0xf96c151de49567b7; 0x76048445b4cbfc3c; 0x0cdcf48d84fe7545;
   0x6fbd6d5ebd3716b7; 0x15651d968d029fce; 0x9a0d8ccedd5c0445; 0xe0d5fc06ed698d3c;
   0xaf85882d2576a038; 0xd55df8e515432941; 0x5a3569bd451db2ca; 0x20ed197575283bb3;
   0xc49581ead523e8c2; 0xbe4df122e51661bb; 0x3125607ab548fa30; 0x4bfd10b2857d7349;
   0x04ad64994d625e4d; 0x7e7514517d57d734; 0xf11d85092d094cbf; 0x8bc5f5c11d3cc5c6;
   0x12b5926535897936; 0x686de2ad05bcf04f; 0xe70573f555e26bc4; 0x9ddd033d65d7e2bd;
   0xd28d7716adc8cfb9; 0xa85507de9dfd46c0; 0x273d9686cda3dd4b; 0x5de5e64efd965432;
   0xb99d7ed15d9d8743; 0xc3450e196da80e3a; 0x4c2d9f413df695b1; 0x36f5ef890dc31cc8;
   0x79a59ba2c5dc31cc; 0x037deb6af5e9b8b5; 0x8c157a32a5b7233e; 0xf6cd0afa9582aa47;
   0x4ad64994d625e4da; 0x300e395ce6106da3; 0xbf66a804b64ef628; 0xc5bed8cc867b7f51;
   0x8aeeace74e645255; 0xf036dc2f7e51db2c; 0x7f5e4d772e0f40a7; 0x05863dbf1e3ac9de;
   0xe1fea520be311aaf; 0x9b26d5e88e0493d6; 0x144e44b0de5a085d; 0x6e963478ee6f8124;
   0x21c640532670ac20; 0x5b1e309b16452559; 0xd476a1c3461bbed2; 0xaeaed10b762e37ab;
   0x37deb6af5e9b8b5b; 0x4d06c6676eae0222; 0xc26e573f3ef099a9; 0xb8b627f70ec510d0;
   0xf7e653dcc6da3dd4; 0x8d3e2314f6efb4ad; 0x0256b24ca6b12f26; 0x788ec2849684a65f;
   0x9cf65a1b368f752e; 0xe62e2ad306bafc57; 0x6946bb8b56e467dc; 0x139ecb4366d1eea5;
   0x5ccebf68aecec3a1; 0x2616cfa09efb4ad8; 0xa97e5ef8cea5d153; 0xd3a62e30fe90582a;
   0xb0c7b7e3c7593bd8; 0xca1fc72bf76cb2a1; 0x45775673a732292a; 0x3faf26bb9707a053;
   0x70ff52905f188d57; 0x0a2722586f2d042e; 0x854fb3003f739fa5; 0xff97c3c80f4616dc;
   0x1bef5b57af4dc5ad; 0x61372b9f9f784cd4; 0xee5fbac7cf26d75f; 0x9487ca0fff135e26;
   0xdbd7be24370c7322; 0xa10fceec0739fa5b; 0x2e675fb4576761d0; 0x54bf2f7c6752e8a9;
   0xcdcf48d84fe75459; 0xb71738107fd2dd20; 0x387fa9482f8c46ab; 0x42a7d9801fb9cfd2;
   0x0df7adabd7a6e2d6; 0x772fdd63e7936baf; 0xf8474c3bb7cdf024; 0x829f3cf387f8795d;
   0x66e7a46c27f3aa2c; 0x1c3fd4a417c62355; 0x935745fc4798b8de; 0xe98f353477ad31a7;
   0xa6df411fbfb21ca3; 0xdc0731d78f8795da; 0x536fa08fdfd90e51; 0x29b7d047efec8728].

Definition crc64_step (crc b : Z) : option Z :=
  t ← crc64_tab !! Z.to_nat (Z.lxor (uwrap 8 crc) b);
  Some (Z.lxor t (Z.shiftr crc 8)).

Fixpoint crc64_loop (bs : bytes) (crc : Z) : option Z :=
  match bs with [] => Some crc | b :: bs => crc ← crc64_step crc b; crc64_loop bs crc end.

Definition crc64 (crc : Z) (s : bytes) (l : Z) : option Z := bs ← load s 0 l; crc64_loop bs crc.

End Crc.
Import Crc.

(** ** The shift registers *)

(** Multiplication by x modulo x^16 + x^12 + x^5 + 1, the highest power first. *)
Definition shift16 (x : Z) : Z := Z.lxor (Z.land (Z.shiftl x 1) (Z.ones 16)) (if Z.testbit x 15 then 0x1021 else 0).

(** The same modulo the polynomial of crc64.c, the lowest power first. *)
Definition shift64 (x : Z) : Z := Z.lxor (Z.shiftr x 1) (if Z.testbit x 0 then 0x95ac9329ac4bc9b5 else 0).

Definition times8 (f : Z → Z) (x : Z) : Z := f (f (f (f (f (f (f (f x))))))).

(** A byte enters the register at its high end, or at its low end. *)
Definition register16 (bs : bytes) : Z := foldl (λ x b, times8 shift16 (Z.lxor x (Z.shiftl b 8))) 0 bs.
Definition register64 (crc : Z) (bs : bytes) : Z := foldl (λ x b, times8 shift64 (Z.lxor x b)) crc bs.

Definition linear (f : Z → Z) : Prop := ∀ x y, f (Z.lxor x y) = Z.lxor (f x) (f y).

Lemma shift16_linear : linear shift16.
Proof.
  intros x y. unfold shift16. rewrite Z.lxor_spec. apply Z.bits_inj'. intros n Hn.
  rewrite !Z.lxor_spec, !Z.land_spec, !Z.shiftl_spec, Z.lxor_spec by done.
  destruct (Z.testbit x 15), (Z.testbit y 15); simpl; rewrite ?Z.bits_0; btauto.
Qed.

Lemma shift64_linear : linear shift64.
Proof.
  intros x y. unfold shift64. rewrite Z.lxor_spec. apply Z.bits_inj'. intros n Hn.
  rewrite !Z.lxor_spec, !Z.shiftr_spec, Z.lxor_spec by done.
  destruct (Z.testbit x 0), (Z.testbit y 0); simpl; rewrite ?Z.bits_0; btauto.
Qed.

Lemma times8_linear f : linear f → linear (times8 f).
Proof. intros Hf x y. unfold times8. by rewrite !Hf. Qed.

(** ** The tables *)
Definition below (n : nat) : list Z := seqZ 0 (Z.of_nat n).

Lemma below_in n x : 0 ≤ x < Z.of_nat n → x ∈ below n.
Proof. intros Hx. apply elem_of_seqZ. lia. Qed.

(** What holds of every byte is checked on each. *)
Lemma every_byte (f : Z → bool) : forallb f (below 256) = true → ∀ b, 0 ≤ b < 256 → f b = true.
Proof. intros Hf b Hb. rewrite forallb_forall in Hf. by apply Hf, list_elem_of_In, below_in. Qed.

Definition entry16 (b : Z) : bool := bool_decide (crc16tab !! Z.to_nat b = Some (times8 shift16 (Z.shiftl b 8))).

Lemma table16 b : 0 ≤ b < 256 → crc16tab !! Z.to_nat b = Some (times8 shift16 (Z.shiftl b 8)).
Proof.
  intros Hb. assert (entry16 b = true) as Ht; [|by apply bool_decide_eq_true in Ht].
  apply every_byte; [vm_compute; reflexivity|done].
Qed.

Lemma low16 b : 0 ≤ b < 256 → times8 shift16 b = Z.shiftl b 8.
Proof. intros Hb. apply Z.eqb_eq. apply (every_byte (λ b, times8 shift16 b =? Z.shiftl b 8)); [vm_compute; reflexivity|done]. Qed.

Definition entry64 (b : Z) : bool := bool_decide (crc64_tab !! Z.to_nat b = Some (times8 shift64 b)).

Lemma table64 b : 0 ≤ b < 256 → crc64_tab !! Z.to_nat b = Some (times8 shift64 b).
Proof.
  intros Hb. assert (entry64 b = true) as Ht; [|by apply bool_decide_eq_true in Ht].
  apply every_byte; [vm_compute; reflexivity|done].
Qed.

(** ** Bytes of a register *)
Lemma byte_bits b n : 0 ≤ b < 256 → 8 ≤ n → Z.testbit b n = false.
Proof. intros Hb Hn. rewrite <-(Z.mod_small b (2 ^ 8)) by done. apply Z.mod_pow2_bits_high. lia. Qed.

Lemma ones8_bits n : 0 ≤ n → Z.testbit 255 n = (n <? 8).
Proof. intros Hn. change 255 with (Z.ones 8). rewrite Z.testbit_ones by done. by rewrite (proj2 (Z.leb_le 0 n)). Qed.

Lemma byte_split x : 0 ≤ x → x = Z.lxor (Z.shiftl (Z.shiftr x 8) 8) (Z.land x 255).
Proof.
  intros Hx. apply Z.bits_inj'. intros n Hn. rewrite Z.lxor_spec, Z.land_spec, ones8_bits by done. rewrite Z.shiftl_spec by done.
  destruct (Z.ltb_spec n 8) as [Hlt|Hge].
  - rewrite (Z.testbit_neg_r _ (n - 8)) by lia. by rewrite andb_true_r, xorb_false_l.
  - rewrite Z.shiftr_spec by lia. rewrite andb_false_r, xorb_false_r. f_equal. lia.
Qed.

Lemma land255 x : 0 ≤ Z.land x 255 < 256.
Proof. change 255 with (Z.ones 8). rewrite Z.land_ones by done. apply Z.mod_pos_bound. done. Qed.

(** The high part leaves the register through the table, the low one is shifted. *)
Lemma shift16_byte x : 0 ≤ x < 65536 →
  times8 shift16 x = Z.lxor (Z.shiftl (Z.land x 255) 8) (times8 shift16 (Z.shiftl (Z.shiftr x 8) 8)).
Proof.
  intros Hx. rewrite (byte_split x) at 1 by lia. rewrite (times8_linear _ shift16_linear), Z.lxor_comm. f_equal. apply low16, land255.
Qed.

(** Eight shifts to the right without feedback. *)
Lemma shift64_high x : Z.testbit x 0 = false → shift64 x = Z.shiftr x 1.
Proof. intros Hx. unfold shift64. by rewrite Hx, Z.lxor_0_r. Qed.

Lemma shifted_high x k : 0 < k → Z.testbit (Z.shiftl x k) 0 = false.
Proof. intros Hk. rewrite Z.shiftl_spec by done. apply Z.testbit_neg_r. lia. Qed.

Lemma high64 x : times8 shift64 (Z.shiftl x 8) = x.
Proof.
  assert (∀ k, 0 < k → shift64 (Z.shiftl x k) = Z.shiftl x (k - 1)) as Hs.
  { intros k Hk. rewrite shift64_high by (by apply shifted_high). rewrite Z.shiftr_shiftl_l by lia. done. }
  unfold times8. rewrite !Hs by lia. apply Z.shiftl_0_r.
Qed.

Lemma shift64_byte x : 0 ≤ x → times8 shift64 x = Z.lxor (times8 shift64 (Z.land x 255)) (Z.shiftr x 8).
Proof. intros Hx. rewrite (byte_split x) at 1 by done. by rewrite (times8_linear _ shift64_linear), high64, Z.lxor_comm. Qed.

(** ** Registers of a width *)
Definition fits_in (w x : Z) : Prop := Z.land x (Z.ones w) = x.

Lemma fits_range w x : 0 ≤ w → fits_in w x ↔ 0 ≤ x < 2 ^ w.
Proof.
  intros Hw. unfold fits_in. rewrite Z.land_ones by done. split; [|by intros Hx; apply Z.mod_small].
  intros <-. apply Z.mod_pos_bound. by apply Z.pow_pos_nonneg.
Qed.

Lemma fits_xor w x y : fits_in w x → fits_in w y → fits_in w (Z.lxor x y).
Proof.
  unfold fits_in. intros Hx Hy. rewrite <-Hx at 2. rewrite <-Hy at 2. apply Z.bits_inj'. intros n Hn.
  rewrite !Z.land_spec, !Z.lxor_spec, !Z.land_spec. btauto.
Qed.

Lemma lxor_0 x y : Z.lxor x y = 0 → x = y.
Proof. apply Z.lxor_eq. Qed.

(** A linear register that only 0 is lost from. *)
Definition faithful (w : Z) (f : Z → Z) : Prop := linear f ∧ ∀ x, fits_in w x → fits_in w (f x) ∧ (f x = 0 → x = 0).

Lemma faithful_inj w f x y : faithful w f → fits_in w x → fits_in w y → f x = f y → x = y.
Proof.
  intros [Hl Hf] Hx Hy Heq. apply lxor_0. apply (Hf (Z.lxor x y)); [by apply fits_xor|]. rewrite Hl, Heq. apply Z.lxor_nilpotent.
Qed.

Lemma faithful_times8 w f : faithful w f → faithful w (times8 f).
Proof.
  intros [Hl Hf]. split; [by apply times8_linear|]. intros x Hx. unfold times8. split; [by do 8 apply Hf|].
  intros H8. do 8 (apply Hf in H8; [|by repeat apply Hf]). done.
Qed.

Lemma shift16_faithful : faithful 16 shift16.
Proof.
  split; [apply shift16_linear|]. intros x Hx. split.
  - unfold shift16. apply fits_xor; [unfold fits_in; by rewrite <-Z.land_assoc|by destruct (Z.testbit x 15)].
  - intros H0. assert (∀ n, Z.testbit (shift16 x) n = false) as Hb by (intros n; rewrite H0; apply Z.bits_0). unfold shift16 in Hb.
    assert (Z.testbit x 15 = false) as H15.
    { specialize (Hb 0). rewrite Z.lxor_spec, Z.land_spec, Z.shiftl_spec, Z.testbit_neg_r in Hb by done. by destruct (Z.testbit x 15). }
    rewrite H15 in Hb. apply Z.bits_inj'. intros n Hn. rewrite Z.bits_0. destruct (decide (n < 15)) as [Hlt|Hge].
    + specialize (Hb (n + 1)). rewrite Z.lxor_spec, Z.land_spec, Z.shiftl_spec, Z.bits_0, xorb_false_r in Hb by lia.
      rewrite Z.testbit_ones_nonneg in Hb by lia. rewrite (proj2 (Z.ltb_lt (n + 1) 16)), andb_true_r in Hb by lia. by replace (n + 1 - 1) with n in Hb by lia.
    + destruct (decide (n = 15)) as [->|]; [done|]. rewrite <-Hx, Z.land_spec, Z.testbit_ones_nonneg by lia. rewrite (proj2 (Z.ltb_ge n 16)) by lia. apply andb_false_r.
Qed.

Lemma shift64_faithful : faithful 64 shift64.
Proof.
  split; [apply shift64_linear|]. intros x Hx. assert (0 ≤ x < 2 ^ 64) as Hr by (by apply fits_range). split.
  - unfold shift64. apply fits_xor; [|by destruct (Z.testbit x 0)]. apply fits_range; [done|]. rewrite Z.shiftr_div_pow2 by done.
    change (2 ^ 1) with 2. split; [apply Z.div_pos; lia|]. apply Z.div_lt_upper_bound; lia.
  - intros H0. assert (Z.testbit x 0 = false) as Hb.
    { assert (Z.testbit (shift64 x) 63 = false) as H63 by (by rewrite H0). unfold shift64 in H63. rewrite Z.lxor_spec, Z.shiftr_spec in H63 by done.
      assert (Z.testbit x (63 + 1) = false) as H64 by (rewrite <-(Z.mod_small x (2 ^ 64)) by done; by apply Z.mod_pow2_bits_high).
      rewrite H64 in H63. by destruct (Z.testbit x 0). }
    rewrite shift64_high in H0 by done. rewrite Z.shiftr_div_pow2 in H0 by done. change (2 ^ 1) with 2 in H0.
    rewrite Z.bit0_odd in Hb. rewrite (Z.div_mod x 2), H0, Zmod_odd, Hb by done. done.
Qed.

Lemma byte_fits w b : 8 ≤ w → 0 ≤ b < 256 → fits_in w b.
Proof. intros Hw Hb. apply fits_range; [lia|]. split; [lia|]. apply Z.lt_le_trans with (2 ^ 8); [apply Hb|]. apply Z.pow_le_mono_r; lia. Qed.

Lemma high_byte_fits b : 0 ≤ b < 256 → fits_in 16 (Z.shiftl b 8).
Proof. intros Hb. apply fits_range; [done|]. rewrite Z.shiftl_mul_pow2 by done. change (2 ^ 8) with 256. change (2 ^ 16) with 65536. lia. Qed.

(** ** The table driven loops are the registers *)
Lemma crc16_step_ok crc b :
  fits_in 16 crc → is_byte b → crc16_step crc b = Some (times8 shift16 (Z.lxor crc (Z.shiftl b 8))).
Proof.
  intros Hc Hb. unfold is_byte in Hb. pose proof (proj1 (fits_range 16 crc ltac:(done)) Hc) as Hr. change (2 ^ 16) with 65536 in Hr.
  set (x := Z.lxor crc (Z.shiftl b 8)). assert (fits_in 16 x) as Hx by (apply fits_xor; [done|by apply high_byte_fits]).
  apply (proj1 (fits_range 16 x ltac:(done))) in Hx. change (2 ^ 16) with 65536 in Hx.
  assert (Z.land (Z.lxor (Z.shiftr crc 8) (swrap 8 b)) 0x00FF = Z.shiftr x 8) as Hi.
  { assert (Z.land (swrap 8 b) 255 = b) as Hs.
    { change 255 with (Z.ones 8). rewrite Z.land_ones by done. unfold swrap. change (2 ^ (8 - 1)) with 128. change (2 ^ 8) with 256.
      Z.to_euclidean_division_equations. lia. }
    assert (Z.land (Z.shiftr crc 8) 255 = Z.shiftr crc 8) as Hh.
    { change 255 with (Z.ones 8). rewrite Z.land_ones by done. apply Z.mod_small. rewrite Z.shiftr_div_pow2 by done. change (2 ^ 8) with 256.
      Z.to_euclidean_division_equations. lia. }
    unfold x. rewrite Z.shiftr_lxor, Z.shiftr_shiftl_l by done. rewrite Z.shiftl_0_r. rewrite <-Hh at 2. rewrite <-Hs at 2.
    apply Z.bits_inj'. intros n Hn. rewrite !Z.land_spec, !Z.lxor_spec, !Z.land_spec. btauto. }
  assert (0 ≤ Z.shiftr x 8 < 256) as Hsx by (rewrite Z.shiftr_div_pow2 by done; change (2 ^ 8) with 256; Z.to_euclidean_division_equations; lia).
  unfold crc16_step. rewrite Hi, table16 by done. cbn [mbind option_bind]. f_equal. rewrite (shift16_byte x Hx).
  set (t := times8 shift16 (Z.shiftl (Z.shiftr x 8) 8)).
  assert (fits_in 16 t) as Ht by (apply (faithful_times8 16 shift16 shift16_faithful), high_byte_fits; done).
  assert (Z.land x 255 = Z.land crc 255) as Hl.
  { unfold x. apply Z.bits_inj'. intros n Hn. rewrite !Z.land_spec, Z.lxor_spec, ones8_bits by done. destruct (Z.ltb_spec n 8) as [Hlt|]; [|by rewrite !andb_false_r].
    rewrite Z.shiftl_spec, (Z.testbit_neg_r b) by lia. by rewrite xorb_false_r. }
  rewrite Hl. unfold uwrap. rewrite <-Z.land_ones by done. unfold fits_in in Ht. rewrite <-Ht at 2. apply Z.bits_inj'. intros n Hn.
  rewrite Z.land_spec, !Z.lxor_spec, Z.land_spec, !Z.shiftl_spec by done. rewrite Z.testbit_ones_nonneg by lia.
  destruct (Z.ltb_spec n 16) as [Hlt|Hge]; [|rewrite !andb_false_r, xorb_false_r].
  - rewrite !andb_true_r. f_equal. destruct (decide (n < 8)) as [H8|H8]; [by rewrite !Z.testbit_neg_r by lia|].
    rewrite Z.land_spec, ones8_bits, (proj2 (Z.ltb_lt (n - 8) 8)) by lia. by rewrite andb_true_r.
  - symmetry. apply byte_bits; [apply land255|lia].
Qed.

Lemma crc64_step_ok crc b :
  fits_in 64 crc → is_byte b → crc64_step crc b = Some (times8 shift64 (Z.lxor crc b)).
Proof.
  intros Hc Hb. unfold is_byte in Hb. pose proof (proj1 (fits_range 64 crc ltac:(done)) Hc) as Hr.
  assert (Z.lxor (uwrap 8 crc) b = Z.land (Z.lxor crc b) 255) as Hi.
  { unfold uwrap. rewrite <-Z.land_ones by done. change (Z.ones 8) with 255. apply Z.bits_inj'. intros n Hn.
    rewrite Z.lxor_spec, !Z.land_spec, Z.lxor_spec, ones8_bits by done. destruct (Z.ltb_spec n 8); [by rewrite !andb_true_r|].
    rewrite !andb_false_r. by rewrite byte_bits. }
  unfold crc64_step. rewrite Hi, table64 by apply land255. cbn [mbind option_bind]. f_equal.
  rewrite (shift64_byte (Z.lxor crc b)) by (apply Z.lxor_nonneg; lia). f_equal.
  rewrite Z.shiftr_lxor. replace (Z.shiftr b 8) with 0; [by rewrite Z.lxor_0_r|]. rewrite Z.shiftr_div_pow2 by done. symmetry. by apply Z.div_small.
Qed.

(** ** Messages *)
Section Run.
Context (w : Z) (T enter : Z → Z) (T_ok : faithful w T) (enter_ok : ∀ b, is_byte b → fits_in w (enter b)).

Definition run (x : Z) (bs : bytes) : Z := foldl (λ x b, T (Z.lxor x (enter b))) x bs.

Lemma run_fits bs : ∀ x, fits_in w x → wf_bytes bs → fits_in w (run x bs).
Proof.
  induction bs as [|b bs IH]; intros x Hx Hb; [done|]. apply Forall_cons in Hb as [Hb Hbs]. apply IH; [|done].
  apply T_ok, fits_xor; [done|by apply enter_ok].
Qed.

Lemma run_inj bs : ∀ x y, fits_in w x → fits_in w y → wf_bytes bs → run x bs = run y bs → x = y.
Proof.
  induction bs as [|b bs IH]; intros x y Hx Hy Hb Heq; [done|]. apply Forall_cons in Hb as [Hb Hbs]. pose proof (enter_ok b Hb) as He.
  assert (∀ z, fits_in w z → fits_in w (Z.lxor z (enter b))) as Hf by (intros z Hz; by apply fits_xor).
  apply (IH (T (Z.lxor x (enter b))) (T (Z.lxor y (enter b)))) in Heq; [|by apply T_ok, Hf..|done].
  apply (faithful_inj w T _ _ T_ok) in Heq; [|by apply Hf..]. apply lxor_0. apply (f_equal (λ z, Z.lxor z (Z.lxor y (enter b)))) in Heq.
  rewrite Z.lxor_nilpotent in Heq. rewrite <-Heq. rewrite (Z.lxor_comm y), Z.lxor_assoc, <-(Z.lxor_assoc (enter b)), Z.lxor_nilpotent. by rewrite Z.lxor_0_l.
Qed.

Lemma run_app x p q : run x (p ++ q) = run (run x p) q.
Proof. apply foldl_app. Qed.
End Run.

Lemma crc16_loop_ok bs : ∀ crc, fits_in 16 crc → wf_bytes bs →
  crc16_loop bs crc = Some (run (times8 shift16) (λ b, Z.shiftl b 8) crc bs).
Proof.
  pose proof (faithful_times8 _ _ shift16_faithful) as HT.
  induction bs as [|b bs IH]; intros crc Hc Hb; [done|]. apply Forall_cons in Hb as [Hb Hbs]. cbn [crc16_loop]. rewrite crc16_step_ok by done.
  cbn [mbind option_bind]. apply IH; [|done]. apply HT, fits_xor; [done|by apply high_byte_fits].
Qed.

Lemma crc64_loop_ok bs : ∀ crc, fits_in 64 crc → wf_bytes bs → crc64_loop bs crc = Some (run (times8 shift64) id crc bs).
Proof.
  pose proof (faithful_times8 _ _ shift64_faithful) as HT.
  induction bs as [|b bs IH]; intros crc Hc Hb; [done|]. apply Forall_cons in Hb as [Hb Hbs]. cbn [crc64_loop]. rewrite crc64_step_ok by done.
  cbn [mbind option_bind]. apply IH; [|done]. apply HT, fits_xor; [done|by apply byte_fits].
Qed.

Lemma crc16_ok buf : wf_bytes buf → crc16 buf (zlen buf) = Some (register16 buf).
Proof.
  intros Hb. unfold crc16. destruct (Z.leb_spec (zlen buf) 0) as [Hz|Hz].
  - pose proof (zlen_nonneg buf). assert (buf = []) as -> by (apply zlen_0_nil; lia). done.
  - rewrite (load_at buf [] buf []) by (by rewrite ?app_nil_r). cbn [mbind option_bind]. by rewrite crc16_loop_ok.
Qed.

Lemma crc64_ok crc s : in_u 64 crc → wf_bytes s → crc64 crc s (zlen s) = Some (register64 crc s).
Proof.
  intros Hc Hs. unfold crc64. rewrite (load_at s [] s []) by (by rewrite ?app_nil_r). cbn [mbind option_bind]. rewrite crc64_loop_ok; [done| |done].
  by apply fits_range.
Qed.

(** C35: Both table driven checksums are those of their shift registers. *)
Theorem crc_tables_correct buf crc :
  wf_bytes buf → in_u 64 crc →
  crc16 buf (zlen buf) = Some (register16 buf) ∧ crc64 crc buf (zlen buf) = Some (register64 crc buf).
Proof. intros Hb Hc. split; [by apply crc16_ok|by apply crc64_ok]. Qed.

(** ** Bursts *)
Lemma xor_add b y : 0 ≤ b < 256 → Z.lxor b (Z.shiftl y 8) = b + 256 * y.
Proof.
  intros Hb. rewrite Z.shiftl_mul_pow2 by done. change (2 ^ 8) with 256. rewrite Z.add_nocarry_lxor; [f_equal; lia|].
  apply Z.bits_inj'. intros n Hn. rewrite Z.land_spec, Z.bits_0. replace (256 * y) with (Z.shiftl y 8) by (rewrite Z.shiftl_mul_pow2 by done; lia).
  destruct (decide (n < 8)); [rewrite Z.shiftl_spec, (Z.testbit_neg_r y) by lia; apply andb_false_r|by rewrite byte_bits by lia].
Qed.

(** Up to eight bytes enter the wide register as one number. *)
Lemma run64_pack u : ∀ x, wf_bytes u → run (times8 shift64) id x u = Nat.iter (length u) (times8 shift64) (Z.lxor x (le_combine u)).
Proof.
  induction u as [|b u IH]; intros x Hu; [by rewrite Z.lxor_0_r|]. apply Forall_cons in Hu as [Hb Hu]. 
  change (run (times8 shift64) id x (b :: u)) with (run (times8 shift64) id (times8 shift64 (Z.lxor x b)) u).
  rewrite IH by done. cbn [length le_combine]. rewrite Nat.iter_succ_r. f_equal.
  rewrite <-(high64 (le_combine u)) at 1. rewrite <-(times8_linear _ shift64_linear). f_equal.
  rewrite Z.lxor_assoc. f_equal. by apply xor_add.
Qed.

Lemma iter_inj w T n x y : faithful w T → fits_in w x → fits_in w y → Nat.iter n T x = Nat.iter n T y → x = y.
Proof.
  intros HT Hx Hy. assert (∀ n z, fits_in w z → fits_in w (Nat.iter n T z)) as Hf by (intros m z Hz; induction m; [done|by apply HT]).
  induction n as [|n IH]; [done|]. intros Heq. apply IH. apply (faithful_inj w T); [done|by apply Hf..|done].
Qed.

Lemma pack_inj u v : wf_bytes u → wf_bytes v → length u = length v → le_combine u = le_combine v → u = v.
Proof. intros Hu Hv Hl Heq. rewrite <-(le_split_combine u Hu), <-(le_split_combine v Hv). by rewrite Heq, Hl. Qed.

Lemma lxor_cancel x y z : Z.lxor x y = Z.lxor x z → y = z.
Proof.
  intros Heq. apply (f_equal (Z.lxor x)) in Heq. by rewrite <-!Z.lxor_assoc, Z.lxor_nilpotent, !Z.lxor_0_l in Heq.
Qed.

Lemma burst64 x u v : fits_in 64 x → wf_bytes u → wf_bytes v → length u = length v → (length u ≤ 8)%nat →
  run (times8 shift64) id x u = run (times8 shift64) id x v → u = v.
Proof.
  intros Hx Hu Hv Hl Hn. rewrite !run64_pack, <-Hl by done. intros Heq.
  assert (∀ u, wf_bytes u → (length u ≤ 8)%nat → fits_in 64 (le_combine u)) as Hf.
  { intros t Ht Hlt. apply fits_range; [done|]. pose proof (le_combine_bound t Ht) as Hb. split; [lia|].
    apply Z.lt_le_trans with (256 ^ zlen t); [lia|]. change (2 ^ 64) with (256 ^ 8). apply Z.pow_le_mono_r; unfold zlen; lia. }
  pose proof (Hf u Hu Hn) as Hfu. pose proof (Hf v Hv ltac:(by rewrite <-Hl)) as Hfv.
  apply (iter_inj 64) in Heq; [|by apply faithful_times8, shift64_faithful|by apply fits_xor..].
  apply lxor_cancel in Heq. by apply pack_inj.
Qed.

Lemma burst16 x u v : fits_in 16 x → wf_bytes u → wf_bytes v → length u = length v → (length u ≤ 2)%nat →
  run (times8 shift16) (λ b, Z.shiftl b 8) x u = run (times8 shift16) (λ b, Z.shiftl b 8) x v → u = v.
Proof.
  intros Hx Hu Hv Hl Hn. pose proof (faithful_times8 _ _ shift16_faithful) as HT. pose proof (times8_linear _ shift16_linear) as HL.
  assert (∀ b c, is_byte b → is_byte c → Z.shiftl b 8 = Z.shiftl c 8 → b = c) as Hs.
  { intros b c _ _ Heq. apply (f_equal (λ z, Z.shiftr z 8)) in Heq. by rewrite !Z.shiftr_shiftl_l, !Z.shiftl_0_r in Heq by done. }
  destruct u as [|b0 [|b1 [|]]], v as [|c0 [|c1 [|]]]; simpl in Hl, Hn; try lia; [done|..]; unfold run; cbn [foldl]; intros Heq.
  - apply Forall_cons in Hu as [Hb _], Hv as [Hc _]. apply (faithful_inj 16 _ _ _ HT) in Heq; [|by apply fits_xor; [|apply high_byte_fits]..].
    apply lxor_cancel, Hs in Heq; [by subst|done|done].
  - apply Forall_cons in Hu as [Hb0 [Hb1 _]%Forall_cons], Hv as [Hc0 [Hc1 _]%Forall_cons].
    apply (faithful_inj 16 _ _ _ HT) in Heq; [|by apply fits_xor; [apply HT, fits_xor; [|apply high_byte_fits]|apply high_byte_fits]..].
    rewrite <-(low16 b1), <-(low16 c1), <-!HL in Heq by done.
    apply (faithful_inj 16 _ _ _ HT) in Heq; [|by apply fits_xor; [apply fits_xor; [|apply high_byte_fits]|apply byte_fits]..].
    rewrite !Z.lxor_assoc in Heq. apply lxor_cancel in Heq. rewrite !(Z.lxor_comm (Z.shiftl _ 8)), !xor_add in Heq by done.
    unfold is_byte in *. assert (b0 = c0) by lia. assert (b1 = c1) by lia. by subst.
Qed.

(** Two messages of one length that differ within two adjacent bytes have different
    CRC16 checksums; within eight adjacent bytes, different CRC64 checksums. *)
Theorem crc_detects_bursts p s u v :
  wf_bytes p → wf_bytes s → wf_bytes u → wf_bytes v → zlen u = zlen v → u ≠ v →
  (zlen u ≤ 2 → crc16 (p ++ u ++ s) (zlen (p ++ u ++ s)) ≠ crc16 (p ++ v ++ s) (zlen (p ++ v ++ s))) ∧
  (zlen u ≤ 8 → ∀ crc, in_u 64 crc →
    crc64 crc (p ++ u ++ s) (zlen (p ++ u ++ s)) ≠ crc64 crc (p ++ v ++ s) (zlen (p ++ v ++ s))).
Proof.
  intros Hp Hs Hu Hv Hl Hne. assert (length u = length v) as Hl' by (unfold zlen in Hl; lia).
  assert (wf_bytes (p ++ u ++ s) ∧ wf_bytes (p ++ v ++ s)) as [Hwu Hwv] by (split; by repeat (apply Forall_app; split)).
  split.
  - intros Hn Heq. rewrite !crc16_ok in Heq by done. injection Heq as Heq. pose proof (faithful_times8 _ _ shift16_faithful) as HT.
    change (run (times8 shift16) (λ b, Z.shiftl b 8) 0 (p ++ u ++ s) = run (times8 shift16) (λ b, Z.shiftl b 8) 0 (p ++ v ++ s)) in Heq.
    rewrite !run_app in Heq. set (x := run _ _ 0 p) in *. assert (fits_in 16 x) as Hx by (by apply run_fits; [..|apply high_byte_fits| |]).
    apply (run_inj 16 _ _ HT high_byte_fits) in Heq; [|by apply run_fits; [|apply high_byte_fits|..]..|done].
    apply Hne. apply (burst16 x); [done..|unfold zlen in Hn; lia|done].
  - intros Hn crc Hc Heq. rewrite !crc64_ok in Heq by done. injection Heq as Heq. pose proof (faithful_times8 _ _ shift64_faithful) as HT.
    assert (∀ b, is_byte b → fits_in 64 (id b)) as Hid by (intros b Hb; by apply byte_fits).
    change (run (times8 shift64) id crc (p ++ u ++ s) = run (times8 shift64) id crc (p ++ v ++ s)) in Heq.
    rewrite !run_app in Heq. set (x := run _ _ crc p) in *. assert (fits_in 64 x) as Hx by (apply run_fits; [done|done|by apply fits_range|done]).
    apply (run_inj 64 _ _ HT Hid) in Heq; [|by apply run_fits..|done].
    apply Hne. apply (burst64 x); [done..|unfold zlen in Hn; lia|done].
Qed.

(** The check values that the two sources document; crc64.c documents an initial
    value of all ones, and the check value is the one for 0. *)
Lemma crc16_check : crc16 (bytes_of "123456789"%string) 9 = Some 0x31C3.
Proof. vm_compute. reflexivity. Qed.

Lemma crc64_check : crc64 0 (bytes_of "123456789"%string) 9 = Some 0xe9c6d914c4b8d9ca.
Proof. vm_compute. reflexivity. Qed.

Lemma crc64_check_ones : crc64 0xffffffffffffffff (bytes_of "123456789"%string) 9 ≠ Some 0xe9c6d914c4b8d9ca.
Proof. vm_compute. discriminate. Qed.

Lemma crc_tables_correct_witness :
  crc16 [49; 255; 0] 3 = Some (register16 [49; 255; 0]) ∧ crc64 7 [49; 255; 0] 3 = Some (register64 7 [49; 255; 0]).
Proof. apply (crc_tables_correct [49; 255; 0] 7); [repeat constructor; unfold is_byte; lia|done]. Defined.

Lemma crc_detects_bursts_witness :
  crc16 [1; 2; 3; 4] 4 ≠ crc16 [1; 3; 2; 4] 4 ∧ crc64 0 [1; 2; 3; 4] 4 ≠ crc64 0 [1; 3; 2; 4] 4.
Proof.
  destruct (crc_detects_bursts [1] [4] [2; 3] [3; 2]) as [H16 H64]; [by repeat constructor..|done|done|].
  split; [apply H16; done|apply (H64 ltac:(done) 0); done].
Defined.

(** * cluster.c: the hash slot of a key

    [keyHashSlot] hashes a key, or only its tag between braces, with [crc16]; keys with
    the same tag are in the same slot. *)

Module Slot.
Import Crc.

(** [for (; i < keylen; i++) if (key[i] == c) break;] *)
Fixpoint find_char (fuel : nat) (key : bytes) (c i keylen : Z) : option Z :=
  match fuel with
  | O => None
  | S fuel =>
      if i <? keylen then
        x ← load1 key i;
        if x =? c then Some i else find_char fuel key c (i + 1) keylen
      else Some i
  end.

Definition keyHashSlot (key : bytes) (keylen : Z) : option Z :=
  let fuel := S (Z.to_nat keylen) in
  let whole := crc ← crc16 key keylen; Some (Z.land crc 0x3FFF) in
  s ← find_char fuel key 123 0 keylen;
  if s =? keylen then whole else
  e ← find_char fuel key 125 (s + 1) keylen;
  if (e =? keylen) || (e =? s + 1) then whole else
  crc ← crc16 (drop (Z.to_nat (s + 1)) key) (e - s - 1);
  Some (Z.land crc 0x3FFF).

(** ** The tag *)

(** The parts before and after the first [c]. *)
Fixpoint cut (c : Z) (l : bytes) : option (bytes * bytes) :=
  match l with
  | [] => None
  | x :: l => if x =? c then Some ([], l) else '(a, b) ← cut c l; Some (x :: a, b)
  end.

Definition hashtag (key : bytes) : bytes :=
  match cut 123 key with
  | Some (_, rest) => match cut 125 rest with Some ([], _) | None => key | Some (t, _) => t end
  | None => key
  end.

Lemma cut_Some c l a b : cut c l = Some (a, b) ↔ l = a ++ c :: b ∧ c ∉ a.
Proof.
  revert a b. induction l as [|x l IH]; intros a b; simpl.
  { split; [done|]. by intros [?%symmetry%app_nil _]; destruct_and!. }
  destruct (Z.eqb_spec x c) as [->|Hx].
  - split; [intros [= <- <-]; split; [done|apply not_elem_of_nil]|]. intros [H Hn]. destruct a as [|y a]; simplify_eq/=; [done|].
    by apply not_elem_of_cons in Hn as [? _].
  - split.
    + destruct (cut c l) as [[a' b']|]; [|done]. intros [= <- <-]. destruct (proj1 (IH a' b') eq_refl) as [-> Hn].
      split; [done|]. by apply not_elem_of_cons.
    + intros [H Hn]. destruct a as [|y a]; [by injection H as -> _|]. injection H as -> H. apply not_elem_of_cons in Hn as [_ Hn].
      by rewrite (proj2 (IH a b) (conj H Hn)).
Qed.

Lemma find_char_ok (fuel : nat) c key pre l :
  key = pre ++ l → (length l < fuel)%nat →
  find_char fuel key c (zlen pre) (zlen key)
  = Some (match cut c l with Some (a, _) => zlen pre + zlen a | None => zlen key end).
Proof.
  revert pre l. induction fuel as [|fuel IH]; intros pre l Hk Hf; [lia|]. cbn [find_char]. destruct l as [|x l].
  { rewrite Hk, app_nil_r, Z.ltb_irrefl. done. }
  replace (zlen pre <? zlen key) with true by (symmetry; apply Z.ltb_lt; rewrite Hk; zl).
  rewrite (load1_at key pre l x) by done. cbn [mbind option_bind cut]. destruct (x =? c); [by rewrite zlen_nil, Z.add_0_r|].
  replace (zlen pre + 1) with (zlen (pre ++ [x])) by zl. rewrite (IH _ l); [|by rewrite <-app_assoc|simpl in Hf; lia].
  destruct (cut c l) as [[a b]|]; [|done]. cbn [mbind option_bind]. f_equal. zl.
Qed.

Lemma crc16_prefix u r : wf_bytes u → crc16 (u ++ r) (zlen u) = Some (register16 u).
Proof.
  intros Hu. rewrite <-(crc16_ok u Hu). unfold crc16. destruct (zlen u <=? 0); [done|].
  by rewrite (load_at (u ++ r) [] u r), (load_at u [] u []) by (rewrite ?app_nil_r; done).
Qed.

Lemma slot_bound crc : 0 ≤ Z.land crc 0x3FFF < 16384.
Proof. change 0x3FFF with (Z.ones 14). rewrite Z.land_ones by done. by apply Z.mod_pos_bound. Qed.

Lemma keyHashSlot_tag key :
  wf_bytes key → keyHashSlot key (zlen key) = Some (Z.land (register16 (hashtag key)) 0x3FFF).
Proof.
  intros Hk. unfold keyHashSlot, hashtag. cbv zeta. rewrite (crc16_ok key Hk). cbn [mbind option_bind].
  pose proof (find_char_ok (S (Z.to_nat (zlen key))) 123 key [] key eq_refl ltac:(unfold zlen; lia)) as H1.
  change (zlen []) with 0 in H1. rewrite H1. cbn [mbind option_bind]. clear H1.
  destruct (cut 123 key) as [[a rest]|] eqn:E1; [|by rewrite Z.eqb_refl]. apply cut_Some in E1 as [E1 _].
  assert (Hz : zlen key = zlen a + 1 + zlen rest) by (rewrite E1; zl). pose proof (zlen_nonneg rest). pose proof (zlen_nonneg a).
  replace (0 + zlen a =? zlen key) with false by lia.
  replace (0 + zlen a + 1) with (zlen (a ++ [123])) by zl.
  rewrite (find_char_ok _ 125 key (a ++ [123]) rest); [|by rewrite E1, <-app_assoc|unfold zlen in *; lia].
  cbn [mbind option_bind]. destruct (cut 125 rest) as [[t b]|] eqn:E2; [|by rewrite Z.eqb_refl].
  apply cut_Some in E2 as [E2 _]. assert (Hr : zlen rest = zlen t + 1 + zlen b) by (rewrite E2; zl).
  pose proof (zlen_nonneg b). pose proof (zlen_nonneg t). replace (_ + zlen t =? zlen key) with false by zl. simpl orb.
  destruct t as [|x t]; [by rewrite zlen_nil, Z.add_0_r, Z.eqb_refl|].
  replace (_ =? _) with false by (symmetry; apply Z.eqb_neq; zl).
  replace (drop _ key) with ((x :: t) ++ 125 :: b).
  2:{ assert (HE : key = (a ++ [123]) ++ (x :: t) ++ 125 :: b) by (by rewrite E1, E2, <-app_assoc). rewrite HE.
      unfold zlen. by rewrite Nat2Z.id, drop_app_length. }
  replace (_ - _ - 1) with (zlen (x :: t)) by zl. rewrite crc16_prefix; [done|].
  rewrite E1, E2 in Hk. apply Forall_app in Hk as [_ Hk]. apply Forall_cons in Hk as [_ Hk]. by apply Forall_app in Hk as [? _].
Qed.

(** A key whose first braces hold a tag that is not empty has the slot of the tag, any
    other key that of all its bytes; the slot is one of 16384. *)
Theorem keyHashSlot_correct (key : bytes) :
  wf_bytes key →
  (∃ slot, keyHashSlot key (zlen key) = Some slot ∧ 0 ≤ slot < 16384) ∧
  (∀ a t b, key = a ++ 123 :: t ++ 125 :: b → 123 ∉ a → 125 ∉ t → t ≠ [] →
     keyHashSlot key (zlen key) = Some (Z.land (register16 t) 0x3FFF)) ∧
  ((∀ a t b, key = a ++ 123 :: t ++ 125 :: b → 123 ∉ a → 125 ∉ t → t = []) →
     keyHashSlot key (zlen key) = Some (Z.land (register16 key) 0x3FFF)).
Proof.
  intros Hk. rewrite keyHashSlot_tag by done. split; [eexists; split; [done|apply slot_bound]|]. split.
  - intros a t b Hkey Ha Ht Hne. unfold hashtag. rewrite (proj2 (cut_Some 123 key a (t ++ 125 :: b))) by done.
    rewrite (proj2 (cut_Some 125 _ t b)) by done. by destruct t.
  - intros Hno. do 3 f_equal. unfold hashtag. destruct (cut 123 key) as [[a rest]|] eqn:E1; [|done].
    destruct (cut 125 rest) as [[t b]|] eqn:E2; [|done]. apply cut_Some in E1 as [-> Ha], E2 as [-> Ht].
    by rewrite (Hno a t b eq_refl Ha Ht).
Qed.

Lemma keyHashSlot_correct_witness :
  keyHashSlot (bytes_of "a{user}b"%string) 8 = Some (Z.land (register16 (bytes_of "user"%string)) 0x3FFF) ∧
  keyHashSlot (bytes_of "{}user"%string) 6 = Some (Z.land (register16 (bytes_of "{}user"%string)) 0x3FFF).
Proof.
  split.
  - destruct (keyHashSlot_correct (bytes_of "a{user}b"%string)) as (_ & H & _);
      [repeat (apply Forall_cons; split; [split; discriminate || reflexivity|]); apply Forall_nil_2|].
    apply (H (bytes_of "a"%string) (bytes_of "user"%string) (bytes_of "b"%string)); [reflexivity|apply (bool_decide_unpack _); vm_compute; exact I|apply (bool_decide_unpack _); vm_compute; exact I|discriminate].
  - destruct (keyHashSlot_correct (bytes_of "{}user"%string)) as (_ & _ & H);
      [repeat (apply Forall_cons; split; [split; discriminate || reflexivity|]); apply Forall_nil_2|].
    apply H. intros a t b Heq Ha Ht. destruct a as [|x a].
    + destruct t as [|y t]; [done|]. cbn in Heq. injection Heq as <- _. exfalso. apply Ht. apply list_elem_of_here.
    + exfalso. cbn in Heq. injection Heq as <- _. apply Ha. apply list_elem_of_here.
Defined.
End Slot.
