(* ===== verification/Bitops.v ===== *)
(** * bitops.c: the bits of a block

    The low level functions of the bit commands over a block of bytes: counting ones
    (with the address of the block, on which the first loop depends), the first bit of a
    value, reading and writing fields of 1 to 64 bits at any offset, and the overflow
    checks of BITFIELD.  Signed differences wrap around.  Bit 0 is the most significant bit of the first byte.  A read
    outside the block, a shift by the width of the type and a panic give [None]. *)

From S2P Require Import Prelude.
From S2P Require Import Mem.

Module Bitops.

Definition bitsinbyte : list Z :=
  [0; 1; 1; 2; 1; 2; 2; 3; 1; 2; 2; 3; 2; 3; 3; 4; 1; 2; 2; 3; 2; 3; 3; 4; 2; 3; 3; 4; 3; 4; 4; 5;
   1; 2; 2; 3; 2; 3; 3; 4; 2; 3; 3; 4; 3; 4; 4; 5; 2; 3; 3; 4; 3; 4; 4; 5; 3; 4; 4; 5; 4; 5; 5; 6;
   1; 2; 2; 3; 2; 3; 3; 4; 2; 3; 3; 4; 3; 4; 4; 5; 2; 3; 3; 4; 3; 4; 4; 5; 3; 4; 4; 5; 4; 5; 5; 6;
   2; 3; 3; 4; 3; 4; 4; 5; 3; 4; 4; 5; 4; 5; 5; 6; 3; 4; 4; 5; 4; 5; 5; 6; 4; 5; 5; 6; 5; 6; 6; 7;
   1; 2; 2; 3; 2; 3; 3; 4; 2; 3; 3; 4; 3; 4; 4; 5; 2; 3; 3; 4; 3; 4; 4; 5; 3; 4; 4; 5; 4; 5; 5; 6;
   2; 3; 3; 4; 3; 4; 4; 5; 3; 4; 4; 5; 4; 5; 5; 6; 3; 4; 4; 5; 4; 5; 5; 6; 4; 5; 5; 6; 5; 6; 6; 7;
   2; 3; 3; 4; 3; 4; 4; 5; 3; 4; 4; 5; 4; 5; 5; 6; 3; 4; 4; 5; 4; 5; 5; 6; 4; 5; 5; 6; 5; 6; 6; 7;
   3; 4; 4; 5; 4; 5; 5; 6; 4; 5; 5; 6; 5; 6; 6; 7; 4; 5; 5; 6; 5; 6; 6; 7; 5; 6; 6; 7; 6; 7; 7; 8].

(** Adds the ones of the byte at [p]. *)
Definition count_byte (s : bytes) (p bits : Z) : option Z :=
  c ← load1 s p; k ← bitsinbyte !! Z.to_nat c; Some (uwrap 64 (bits + k)).

(** [while((unsigned long)p & 3 && count)]; [addr] is the address of [s]. *)
Fixpoint popcount_head (fuel : nat) (s : bytes) (addr p count bits : Z) : option (Z * Z * Z) :=
  match fuel with
  | O => None
  | S fuel =>
      if negb (Z.land (addr + p) 3 =? 0) && negb (count =? 0) then
        bits ← count_byte s p bits;
        popcount_head fuel s addr (p + 1) (count - 1) bits
      else Some (p, count, bits)
  end.

Definition load32 (s : bytes) (p : Z) : option Z := w ← load s p 4; Some (le_combine w).

(** The ones of each pair, then of each group of four bits. *)
Definition aux_nibbles (aux : Z) : Z :=
  let aux := uwrap 32 (aux - Z.land (Z.shiftr aux 1) 0x55555555) in
  uwrap 32 (Z.land aux 0x33333333 + Z.land (Z.shiftr aux 2) 0x33333333).

Definition aux_bytes (aux : Z) : Z := Z.land (uwrap 32 (aux + Z.shiftr aux 4)) 0x0F0F0F0F.

(** [n] words one after the other, as [aux1] to [aux7]. *)
Fixpoint load_words (n : nat) (s : bytes) (p : Z) : option (list Z) :=
  match n with
  | O => Some []
  | S n => aux ← load32 s p; auxs ← load_words n s (p + 4); Some (aux :: auxs)
  end.

Definition sum_words (auxs : list Z) : Z := foldr (λ aux n, aux_bytes (aux_nibbles aux) + n) 0 auxs.

(** [while(count>=28)] *)
Fixpoint popcount_words (fuel : nat) (s : bytes) (p count bits : Z) : option (Z * Z * Z) :=
  match fuel with
  | O => None
  | S fuel =>
      if count >=? 28 then
        auxs ← load_words 7 s p;
        let sum := uwrap 32 (sum_words auxs) in
        popcount_words fuel s (p + 28) (count - 28) (uwrap 64 (bits + Z.shiftr (uwrap 32 (sum * 0x01010101)) 24))
      else Some (p, count, bits)
  end.

(** [while(count--)] *)
Fixpoint popcount_rest (fuel : nat) (s : bytes) (p count bits : Z) : option Z :=
  match fuel with
  | O => None
  | S fuel =>
      if count =? 0 then Some bits
      else bits ← count_byte s p bits; popcount_rest fuel s (p + 1) (count - 1) bits
  end.

Definition redisPopcount (addr : Z) (s : bytes) (count : Z) : option Z :=
  let fuel := S (Z.to_nat count) in
  '(p, count, bits) ← popcount_head fuel s addr 0 count 0;
  '(p, count, bits) ← popcount_words fuel s p count bits;
  popcount_rest fuel s p count bits.

Definition UCHAR_MAX : Z := 255.
Definition ULONG_MAX : Z := 2 ^ 64 - 1.

(** [while((unsigned long)c & 7 && count)] *)
Fixpoint bitpos_head (fuel : nat) (s : bytes) (addr skipval c count pos : Z) : option (bool * Z * Z * Z) :=
  match fuel with
  | O => None
  | S fuel =>
      if negb (Z.land (addr + c) 7 =? 0) && negb (count =? 0) then
        x ← load1 s c;
        if negb (x =? skipval) then Some (true, c, count, pos)
        else bitpos_head fuel s addr skipval (c + 1) (count - 1) (pos + 8)
      else Some (false, c, count, pos)
  end.

(** [while (count >= 8)] *)
Fixpoint bitpos_words (fuel : nat) (s : bytes) (skipval l count pos : Z) : option (Z * Z * Z) :=
  match fuel with
  | O => None
  | S fuel =>
      if count >=? 8 then
        w ← load s l 8;
        if negb (le_combine w =? skipval) then Some (l, count, pos)
        else bitpos_words fuel s skipval (l + 8) (count - 8) (pos + 8 * 8)
      else Some (l, count, pos)
  end.

(** [for (j = 0; j < 8; j++)] *)
Fixpoint bitpos_load (n : nat) (s : bytes) (c count word : Z) : option Z :=
  match n with
  | O => Some word
  | S n =>
      let word := uwrap 64 (Z.shiftl word 8) in
      if negb (count =? 0) then x ← load1 s c; bitpos_load n s (c + 1) (count - 1) (Z.lor word x)
      else bitpos_load n s c count word
  end.

(** [while(one)] and the panic after it. *)
Fixpoint bitpos_scan (fuel : nat) (word bit one pos : Z) : option Z :=
  match fuel with
  | O => None
  | S fuel =>
      if one =? 0 then None
      else if Z.b2z (negb (Z.land one word =? 0)) =? bit then Some pos
      else bitpos_scan fuel word bit (Z.shiftr one 1) (pos + 1)
  end.

Definition redisBitpos (addr : Z) (s : bytes) (count bit : Z) : option Z :=
  let fuel := S (Z.to_nat count) in
  let skipval := if negb (bit =? 0) then 0 else UCHAR_MAX in
  '(found, c, count, pos) ← bitpos_head fuel s addr skipval 0 count 0;
  '(l, count, pos) ←
    (if negb found then
       let skipval := if negb (bit =? 0) then 0 else ULONG_MAX in
       bitpos_words fuel s skipval c count pos
     else Some (c, count, pos));
  word ← bitpos_load 8 s l count 0;
  if (bit =? 1) && (word =? 0) then Some (-1) else
  let one := ULONG_MAX in let one := Z.shiftr one 1 in let one := uwrap 64 (Z.lnot one) in
  bitpos_scan 65 word bit one pos.

(** [x << n] on [uint64_t], undefined for a count of 64 or more. *)
Definition shl64 (x n : Z) : option Z :=
  if (0 <=? n) && (n <? 64) then Some (uwrap 64 (Z.shiftl x n)) else None.

(** [for (j = 0; j < bits; j++)], counted by the iterations left: [bits-1-j] is one less. *)
Fixpoint set_field_loop (n : nat) (p : bytes) (offset value : Z) : option bytes :=
  match n with
  | O => Some p
  | S n =>
      m ← shl64 1 (Z.of_nat n);
      let bitval := Z.b2z (negb (Z.land value m =? 0)) in
      let byte := Z.shiftr offset 3 in
      let bit := 7 - Z.land offset 7 in
      byteval ← load1 p byte;
      let byteval := Z.land byteval (Z.lnot (Z.shiftl 1 bit)) in
      let byteval := Z.lor byteval (Z.shiftl bitval bit) in
      p ← store p byte [Z.land byteval 0xff];
      set_field_loop n p (uwrap 64 (offset + 1)) value
  end.

Definition setUnsignedBitfield (p : bytes) (offset bits value : Z) : option bytes :=
  set_field_loop (Z.to_nat bits) p offset value.

Definition setSignedBitfield (p : bytes) (offset bits value : Z) : option bytes :=
  let uv := uwrap 64 value in setUnsignedBitfield p offset bits uv.

Fixpoint get_field_loop (n : nat) (p : bytes) (offset value : Z) : option Z :=
  match n with
  | O => Some value
  | S n =>
      let byte := Z.shiftr offset 3 in
      let bit := 7 - Z.land offset 7 in
      byteval ← load1 p byte;
      let bitval := Z.land (Z.shiftr byteval bit) 1 in
      get_field_loop n p (uwrap 64 (offset + 1)) (Z.lor (uwrap 64 (Z.shiftl value 1)) bitval)
  end.

Definition getUnsignedBitfield (p : bytes) (offset bits : Z) : option Z :=
  get_field_loop (Z.to_nat bits) p offset 0.

Definition getSignedBitfield (p : bytes) (offset bits : Z) : option Z :=
  u ← getUnsignedBitfield p offset bits;
  let value := swrap 64 u in
  msb ← shl64 1 (bits - 1);
  if negb (Z.land (uwrap 64 value) msb =? 0) then
    mask ← shl64 (uwrap 64 (-1)) bits;
    Some (swrap 64 (Z.lor (uwrap 64 value) mask))
  else Some value.

Inductive bfoverflow := BFOVERFLOW_WRAP | BFOVERFLOW_SAT | BFOVERFLOW_FAIL.

Definition UINT64_MAX : Z := 2 ^ 64 - 1.
Definition INT64_MAX : Z := 2 ^ 63 - 1.

(** The result and what [limit] points to, where it is set; the callers of the command pass a [limit]. *)
Definition handle_wrap_unsigned (value incr bits : Z) : option (Z * option Z) :=
  mask ← shl64 (uwrap 64 (-1)) bits;
  let res := uwrap 64 (value + uwrap 64 incr) in
  let res := Z.land res (uwrap 64 (Z.lnot mask)) in
  Some (1, Some res).

Definition checkUnsignedBitfieldOverflow (value incr bits : Z) (owtype : bfoverflow) : option (Z * option Z) :=
  max ← (if bits =? 64 then Some UINT64_MAX else m ← shl64 1 bits; Some (uwrap 64 (m - 1)));
  let maxincr := swrap 64 (uwrap 64 (max - value)) in
  let minincr := swrap 64 (uwrap 64 (- value)) in
  if (value >? max) || ((incr >? 0) && (incr >? maxincr)) then
    match owtype with
    | BFOVERFLOW_WRAP => handle_wrap_unsigned value incr bits
    | BFOVERFLOW_SAT => Some (1, Some max)
    | BFOVERFLOW_FAIL => Some (1, None)
    end
  else if (incr <? 0) && (incr <? minincr) then
    match owtype with
    | BFOVERFLOW_WRAP => handle_wrap_unsigned value incr bits
    | BFOVERFLOW_SAT => Some (-1, Some 0)
    | BFOVERFLOW_FAIL => Some (-1, None)
    end
  else Some (0, None).

Definition handle_wrap_signed (value incr bits : Z) : option (Z * option Z) :=
  mask ← shl64 (uwrap 64 (-1)) bits;
  msb ← shl64 1 (bits - 1);
  let a := uwrap 64 value in let b := uwrap 64 incr in
  let c := uwrap 64 (a + b) in
  let c := if negb (Z.land c msb =? 0) then Z.lor c mask else Z.land c (uwrap 64 (Z.lnot mask)) in
  Some (1, Some (swrap 64 c)).

Definition checkSignedBitfieldOverflow (value incr bits : Z) (owtype : bfoverflow) : option (Z * option Z) :=
  max ← (if bits =? 64 then Some INT64_MAX else m ← shl64 1 (bits - 1); Some (m - 1));
  let min := - max - 1 in
  let maxincr := swrap 64 (max - value) in
  let minincr := swrap 64 (min - value) in
  if (value >? max) || (negb (bits =? 64) && (incr >? maxincr))
     || ((value >=? 0) && (incr >? 0) && (incr >? maxincr)) then
    match owtype with
    | BFOVERFLOW_WRAP => handle_wrap_signed value incr bits
    | BFOVERFLOW_SAT => Some (1, Some max)
    | BFOVERFLOW_FAIL => Some (1, None)
    end
  else if (value <? min) || (negb (bits =? 64) && (incr <? minincr))
     || ((value <? 0) && (incr <? 0) && (incr <? minincr)) then
    match owtype with
    | BFOVERFLOW_WRAP => handle_wrap_signed value incr bits
    | BFOVERFLOW_SAT => Some (-1, Some min)
    | BFOVERFLOW_FAIL => Some (-1, None)
    end
  else Some (0, None).
End Bitops.
