(* ===== verification/BitopsSpec.v ===== *)
(** * bitops.c: the bits of a block, from left to right

    [bits_of] is a block as a list of bits; the functions of [Bitops] are shown to
    compute what their names say of this list: the number of ones, the position of the
    first bit of a value, a field and its update, and the exact or wrapped sums that the
    overflow checks decide. *)

From S2P Require Import Prelude.
From S2P Require Import Mem.
From S2P Require Import Bitops.

Module BitopsSpec.
Import Bitops.

Definition bits_of_byte (b : Z) : list bool := map (Z.testbit b) [7; 6; 5; 4; 3; 2; 1; 0].
Definition bits_of (s : bytes) : list bool := flat_map bits_of_byte s.

Fixpoint ones (l : list bool) : Z := match l with [] => 0 | b :: l => Z.b2z b + ones l end.

Lemma ones_app k l : ones (k ++ l) = ones k + ones l.
Proof. induction k as [|b k IH]; simpl; [done|]. rewrite IH. lia. Qed.

Lemma ones_bound l : 0 ≤ ones l ≤ zlen l.
Proof. induction l as [|b l IH]; [done|]. simpl. rewrite zlen_cons. destruct b; simpl; lia. Qed.

Lemma bits_of_app s t : bits_of (s ++ t) = bits_of s ++ bits_of t.
Proof. apply flat_map_app. Qed.

Lemma bits_of_length s : zlen (bits_of s) = 8 * zlen s.
Proof. induction s as [|b s IH]; [done|]. change (bits_of (b :: s)) with (bits_of_byte b ++ bits_of s). rewrite zlen_app, zlen_cons. change (zlen (bits_of_byte b)) with 8. lia. Qed.

Lemma ones_byte_bound b : 0 ≤ ones (bits_of_byte b) ≤ 8.
Proof. apply (ones_bound (bits_of_byte b)). Qed.

(** A fact about every byte by evaluation. *)
Definition all_bytes (P : Z → bool) : bool := forallb P (map Z.of_nat (seq 0 256)).

Lemma all_bytes_spec P b : all_bytes P = true → is_byte b → P b = true.
Proof.
  unfold all_bytes. rewrite forallb_forall. intros H [? ?]. apply H. apply in_map_iff. exists (Z.to_nat b).
  split; [lia|]. apply in_seq. lia.
Qed.

(** ** Counting ones *)

Definition table_entry (b : Z) : bool := bool_decide (bitsinbyte !! Z.to_nat b = Some (ones (bits_of_byte b))).

Lemma bitsinbyte_ok b : is_byte b → bitsinbyte !! Z.to_nat b = Some (ones (bits_of_byte b)).
Proof. intros Hb. by apply (bool_decide_eq_true_1 _), (all_bytes_spec table_entry). Qed.

Lemma land_bound w a m : 0 ≤ w → 0 ≤ m < 2 ^ w → 0 ≤ Z.land a m < 2 ^ w.
Proof.
  intros Hw Hm. rewrite <-(Z.mod_small m (2 ^ w)), <-Z.land_ones, Z.land_assoc, Z.land_ones by done.
  apply Z.mod_pos_bound. by apply Z.pow_pos_nonneg.
Qed.

Lemma bits_high w a i : 0 ≤ w → 0 ≤ a < 2 ^ w → w ≤ i → Z.testbit a i = false.
Proof. intros Hw Ha Hi. rewrite <-(Z.mod_small a (2 ^ w)) by done. by apply Z.mod_pow2_bits_high. Qed.

Lemma add_byte_lor a b : 0 ≤ a < 2 ^ 8 → a + 256 * b = Z.lor a (Z.shiftl b 8).
Proof.
  intros Ha. rewrite Z.shiftl_mul_pow2 by done. pose proof (Z.add_lor_land a (b * 256)) as Hs.
  change (2 ^ 8) with 256 in *. assert (Z.land a (b * 256) = 0); [|lia]. apply Z.bits_inj'. intros n Hn. rewrite Z.land_spec, Z.bits_0.
  replace (b * 256) with (Z.shiftl b 8) by (rewrite Z.shiftl_mul_pow2 by done; done). rewrite Z.shiftl_spec by done.
  destruct (Z.ltb_spec n 8); [rewrite (Z.testbit_neg_r b (n - 8)) by lia; by rewrite andb_false_r|].
  by rewrite (bits_high 8 a n) by lia.
Qed.

(** A mask that hides what a shift brings down from the next byte works byte by byte. *)
Lemma land_shiftr_bytes k x y m M :
  0 ≤ k ≤ 8 → is_byte x → 0 ≤ y → 0 ≤ m < 2 ^ (8 - k) → 0 ≤ M →
  Z.land (Z.shiftr (x + 256 * y) k) (m + 256 * M) = Z.land (Z.shiftr x k) m + 256 * Z.land (Z.shiftr y k) M.
Proof.
  intros Hk [Hx0 Hx] Hy Hm HM.
  assert (Hm8 : m < 2 ^ 8) by (apply Z.lt_le_trans with (2 ^ (8 - k)); [lia|apply Z.pow_le_mono_r; lia]).
  assert (Hl : 0 ≤ Z.land (Z.shiftr x k) m < 2 ^ 8).
  { apply land_bound; lia. }
  rewrite (add_byte_lor x y), (add_byte_lor m M), (add_byte_lor _ _ Hl) by lia. apply Z.bits_inj'. intros n Hn.
  rewrite Z.land_spec, Z.shiftr_spec, !Z.lor_spec, Z.land_spec, !Z.shiftl_spec, Z.shiftr_spec by lia.
  destruct (Z.ltb_spec n 8).
  - rewrite !(Z.testbit_neg_r _ (n - 8)) by lia. rewrite !orb_false_r.
    destruct (Z.ltb_spec (n + k) 8); [rewrite (Z.testbit_neg_r y) by lia; by rewrite orb_false_r|].
    rewrite (bits_high (8 - k) m n) by lia. by rewrite !andb_false_r.
  - rewrite (bits_high 8 x (n + k)), (bits_high 8 m n), Z.land_spec, Z.shiftr_spec by lia. rewrite andb_false_r. simpl.
    by replace (n + k - 8) with (n - 8 + k) by lia.
Qed.

(** The three steps of the word loop, on the low byte and on the bytes above it. *)
Definition pairs (x M : Z) : Z := x - Z.land (Z.shiftr x 1) M.
Definition quads (x M : Z) : Z := Z.land x M + Z.land (Z.shiftr x 2) M.
Definition octets (x M : Z) : Z := Z.land (x + Z.shiftr x 4) M.

Lemma pairs_cons x y M : is_byte x → 0 ≤ y → 0 ≤ M → pairs (x + 256 * y) (0x55 + 256 * M) = pairs x 0x55 + 256 * pairs y M.
Proof. intros. unfold pairs. rewrite land_shiftr_bytes by (done || lia). lia. Qed.

Lemma quads_cons x y M : is_byte x → 0 ≤ y → 0 ≤ M → quads (x + 256 * y) (0x33 + 256 * M) = quads x 0x33 + 256 * quads y M.
Proof.
  intros. unfold quads. rewrite land_shiftr_bytes by (done || lia).
  pose proof (land_shiftr_bytes 0 x y 0x33 M) as Hz. rewrite !Z.shiftr_0_r in Hz. rewrite Hz by (done || lia). lia.
Qed.

Lemma octets_cons x y M :
  0 ≤ x ≤ 0x44 → 0 ≤ y → y mod 16 ≤ 4 → 0 ≤ M → octets (x + 256 * y) (0x0F + 256 * M) = octets x 0x0F + 256 * octets y M.
Proof.
  intros Hx Hy Hm HM. unfold octets. rewrite !Z.shiftr_div_pow2 by done. change (2 ^ 4) with 16.
  pose proof (Z.div_mod y 16 ltac:(done)). pose proof (Z.mod_pos_bound y 16 ltac:(done)).
  replace ((x + 256 * y) / 16) with (x / 16 + 16 * (y mod 16) + 256 * (y / 16)).
  2:{ replace (x + 256 * y) with (x + (16 * y) * 16) by lia. rewrite Z.div_add by done. lia. }
  assert (0 ≤ x / 16 ≤ 4) by (split; [apply Z.div_pos; lia|]; apply Z.lt_succ_r, Z.div_lt_upper_bound; lia).
  assert (0 ≤ y / 16) by (apply Z.div_pos; lia).
  replace (x + 256 * y + _) with ((x + x / 16 + 16 * (y mod 16)) + 256 * (y + y / 16)) by lia.
  pose proof (land_shiftr_bytes 0 (x + x / 16 + 16 * (y mod 16)) (y + y / 16) 0x0F M) as Hz. rewrite !Z.shiftr_0_r in Hz.
  rewrite Hz by (unfold is_byte; lia). f_equal. change 0x0F with (Z.ones 4). rewrite !Z.land_ones by done. change (2 ^ 4) with 16.
  replace (x + x / 16 + 16 * (y mod 16)) with (x + x / 16 + y mod 16 * 16) by lia. apply Z.mod_add. done.
Qed.

(** What the steps make of one byte. *)
Definition byte_steps (b : Z) : bool :=
  let p := pairs b 0x55 in let q := quads p 0x33 in
  (0 <=? p) && (p <? 256) && (0 <=? q) && (q <=? 0x44) && (q mod 16 <=? 4) && (octets q 0x0F =? ones (bits_of_byte b)).

Lemma byte_steps_ok b : is_byte b → byte_steps b = true.
Proof. by apply all_bytes_spec. Qed.

Definition aux_of (b0 b1 b2 b3 : Z) : Z := b0 + 256 * (b1 + 256 * (b2 + 256 * (b3 + 256 * 0))).

Lemma aux_counts b0 b1 b2 b3 :
  is_byte b0 → is_byte b1 → is_byte b2 → is_byte b3 →
  aux_bytes (aux_nibbles (aux_of b0 b1 b2 b3)) =
  aux_of (ones (bits_of_byte b0)) (ones (bits_of_byte b1)) (ones (bits_of_byte b2)) (ones (bits_of_byte b3)).
Proof.
  intros H0 H1 H2 H3. pose proof (byte_steps_ok _ H0) as E0. pose proof (byte_steps_ok _ H1) as E1.
  pose proof (byte_steps_ok _ H2) as E2. pose proof (byte_steps_ok _ H3) as E3. unfold byte_steps in *.
  rewrite !andb_true_iff, !Z.leb_le, !Z.ltb_lt, !Z.eqb_eq in E0, E1, E2, E3.
  destruct E0 as [[[[[? ?] ?] ?] ?] O0], E1 as [[[[[? ?] ?] ?] ?] O1], E2 as [[[[[? ?] ?] ?] ?] O2], E3 as [[[[[? ?] ?] ?] ?] O3].
  unfold is_byte in *.
  assert (P : uwrap 32 (aux_of b0 b1 b2 b3 - Z.land (Z.shiftr (aux_of b0 b1 b2 b3) 1) 0x55555555)
    = aux_of (pairs b0 0x55) (pairs b1 0x55) (pairs b2 0x55) (pairs b3 0x55)).
  { change (aux_of b0 b1 b2 b3 - _) with (pairs (aux_of b0 b1 b2 b3) (aux_of 0x55 0x55 0x55 0x55)).
    unfold aux_of. rewrite !pairs_cons by (unfold is_byte; lia). change (pairs 0 0) with 0. apply uwrap_id. unfold in_u.
    change (2 ^ 32) with 4294967296. lia. }
  unfold aux_nibbles. rewrite P. clear P.
  set (p0 := pairs b0 0x55) in *. set (p1 := pairs b1 0x55) in *. set (p2 := pairs b2 0x55) in *. set (p3 := pairs b3 0x55) in *.
  assert (Q : uwrap 32 (Z.land (aux_of p0 p1 p2 p3) 0x33333333 + Z.land (Z.shiftr (aux_of p0 p1 p2 p3) 2) 0x33333333)
    = aux_of (quads p0 0x33) (quads p1 0x33) (quads p2 0x33) (quads p3 0x33)).
  { change (Z.land _ 0x33333333 + _) with (quads (aux_of p0 p1 p2 p3) (aux_of 0x33 0x33 0x33 0x33)).
    unfold aux_of. rewrite !quads_cons by (unfold is_byte; lia). change (quads 0 0) with 0. apply uwrap_id. unfold in_u.
    change (2 ^ 32) with 4294967296. lia. }
  rewrite Q. clear Q. rewrite <-O0, <-O1, <-O2, <-O3.
  set (q0 := quads p0 0x33) in *. set (q1 := quads p1 0x33) in *. set (q2 := quads p2 0x33) in *. set (q3 := quads p3 0x33) in *.
  unfold aux_bytes. rewrite uwrap_id.
  2:{ unfold in_u. change (2 ^ 32) with 4294967296. rewrite Z.shiftr_div_pow2 by done. change (2 ^ 4) with 16.
      assert (0 ≤ aux_of q0 q1 q2 q3 ≤ aux_of 0x44 0x44 0x44 0x44) as Hq by (unfold aux_of; lia).
      change (aux_of 0x44 0x44 0x44 0x44) with 1145324612 in Hq.
      pose proof (Z.div_pos (aux_of q0 q1 q2 q3) 16 ltac:(lia) ltac:(done)).
      assert (aux_of q0 q1 q2 q3 / 16 ≤ aux_of q0 q1 q2 q3) by (apply Z.div_le_upper_bound; lia). lia. }
  change (Z.land _ _) with (octets (aux_of q0 q1 q2 q3) (aux_of 0x0F 0x0F 0x0F 0x0F)). unfold aux_of.
  assert (Hmod : ∀ q y, (q + 256 * y) mod 16 = q mod 16).
  { intros q y. replace (q + 256 * y) with (q + (16 * y) * 16) by lia. apply Z.mod_add. done. }
  rewrite !octets_cons by (rewrite ?Hmod; lia || done). done.
Qed.

Lemma bits_of_cons b s : bits_of (b :: s) = bits_of_byte b ++ bits_of s.
Proof. done. Qed.

Lemma ones_bits_bound s : 0 ≤ ones (bits_of s) ≤ 8 * zlen s.
Proof. rewrite <-bits_of_length. apply ones_bound. Qed.

Lemma count_byte_ok s pre b r bits :
  s = pre ++ b :: r → is_byte b → 0 ≤ bits → bits + 8 < 2 ^ 64 →
  count_byte s (zlen pre) bits = Some (bits + ones (bits_of_byte b)).
Proof.
  intros Hs Hb H0 H8. unfold count_byte. rewrite (load1_at s pre r b) by done. cbn [mbind option_bind].
  rewrite bitsinbyte_ok by done. cbn [mbind option_bind]. pose proof (ones_byte_bound b).
  rewrite uwrap_id by (unfold in_u; lia). done.
Qed.

Lemma load32_ok s pre b0 b1 b2 b3 r p :
  s = pre ++ b0 :: b1 :: b2 :: b3 :: r → p = zlen pre → load32 s p = Some (aux_of b0 b1 b2 b3).
Proof. intros -> ->. unfold load32. by rewrite (load_at _ pre [b0; b1; b2; b3] r). Qed.

(** Seven words: at most 56 ones in each lane, so the product gathers the four lanes in
    the top byte. *)
Lemma lanes_sum a b c d :
  0 ≤ a ≤ 56 → 0 ≤ b ≤ 56 → 0 ≤ c ≤ 56 → 0 ≤ d ≤ 56 →
  Z.shiftr (uwrap 32 (aux_of a b c d * 0x01010101)) 24 = a + b + c + d.
Proof.
  intros. unfold uwrap, aux_of. rewrite Z.shiftr_div_pow2 by done.
  replace (_ * 0x01010101) with
    ((a + 256 * (a + b) + 65536 * (a + b + c) + 16777216 * (a + b + c + d))
     + (b + c + d + 256 * (c + d) + 65536 * d) * 2 ^ 32) by (change (2 ^ 32) with 4294967296; lia).
  rewrite Z.mod_add by done. rewrite Z.mod_small by (change (2 ^ 32) with 4294967296; lia).
  symmetry. apply Z.div_unique with (a + 256 * (a + b) + 65536 * (a + b + c)); change (2 ^ 24) with 16777216; lia.
Qed.

Lemma load_words_ok (n : nat) s pre u r :
  s = pre ++ u ++ r → zlen u = 4 * Z.of_nat n → wf_bytes u →
  ∃ auxs a b c d, load_words n s (zlen pre) = Some auxs ∧ sum_words auxs = aux_of a b c d ∧
    0 ≤ a ≤ 8 * Z.of_nat n ∧ 0 ≤ b ≤ 8 * Z.of_nat n ∧ 0 ≤ c ≤ 8 * Z.of_nat n ∧ 0 ≤ d ≤ 8 * Z.of_nat n ∧
    a + b + c + d = ones (bits_of u).
Proof.
  revert pre u. induction n as [|n IH]; intros pre u Hs Hn Hu.
  { apply zlen_0_nil in Hn as ->. exists [], 0, 0, 0, 0. repeat split; done. }
  destruct u as [|b0 [|b1 [|b2 [|b3 u]]]]; try (revert Hn; rewrite ?zlen_cons, ?zlen_nil; lia).
  apply Forall_cons in Hu as [B0 Hu]. apply Forall_cons in Hu as [B1 Hu]. apply Forall_cons in Hu as [B2 Hu].
  apply Forall_cons in Hu as [B3 Hu]. cbn [load_words]. rewrite (load32_ok s pre b0 b1 b2 b3 (u ++ r)) by done.
  cbn [mbind option_bind]. rewrite !zlen_cons in Hn.
  destruct (IH (pre ++ [b0; b1; b2; b3]) u) as (auxs & a & b & c & d & Hl & Hsum & ? & ? & ? & ? & Ho);
    [by rewrite <-app_assoc|lia|done|].
  rewrite zlen_app in Hl. change (zlen [b0; b1; b2; b3]) with 4 in Hl. rewrite Hl. cbn [mbind option_bind].
  pose proof (ones_byte_bound b0). pose proof (ones_byte_bound b1). pose proof (ones_byte_bound b2). pose proof (ones_byte_bound b3).
  eexists _, (ones (bits_of_byte b0) + a), (ones (bits_of_byte b1) + b), (ones (bits_of_byte b2) + c), (ones (bits_of_byte b3) + d).
  split; [done|]. rewrite !bits_of_cons, !ones_app. change (sum_words (?x :: ?l)) with (aux_bytes (aux_nibbles x) + sum_words l).
  rewrite aux_counts, Hsum by done. unfold aux_of. lia.
Qed.

Section Popcount.
Context (s post : bytes) (addr : Z).

Lemma popcount_head_ok (fuel : nat) t pre bits :
  s = pre ++ t ++ post → wf_bytes t → (length t < fuel)%nat → 0 ≤ bits → bits + 8 * zlen t < 2 ^ 64 →
  ∃ u v, t = u ++ v ∧
    popcount_head fuel s addr (zlen pre) (zlen t) bits = Some (zlen (pre ++ u), zlen v, bits + ones (bits_of u)).
Proof.
  revert t pre bits. induction fuel as [|fuel IH]; intros t pre bits Hs Ht Hf H0 H8; [lia|]. cbn [popcount_head].
  destruct (negb _ && _) eqn:E.
  2:{ exists [], t. rewrite app_nil_r. simpl. by rewrite Z.add_0_r. }
  apply andb_true_iff in E as [_ E]. destruct t as [|b t]; [done|]. apply Forall_cons in Ht as [Hb Ht]. rewrite zlen_cons in *.
  pose proof (zlen_nonneg t). rewrite (count_byte_ok s pre b (t ++ post)) by (done || lia). cbn [mbind option_bind].
  pose proof (ones_byte_bound b).
  destruct (IH t (pre ++ [b]) (bits + ones (bits_of_byte b))) as (u & v & -> & Hl);
    [by rewrite <-app_assoc|done|simpl in Hf; lia|lia|lia|].
  exists (b :: u), v. split; [done|]. rewrite <-app_assoc in Hl. rewrite (cons_middle b pre u), bits_of_cons, ones_app, Z.add_assoc.
  rewrite <-Hl. f_equal; zl.
Qed.

Lemma popcount_rest_ok (fuel : nat) t pre bits :
  s = pre ++ t ++ post → wf_bytes t → (length t < fuel)%nat → 0 ≤ bits → bits + 8 * zlen t < 2 ^ 64 →
  popcount_rest fuel s (zlen pre) (zlen t) bits = Some (bits + ones (bits_of t)).
Proof.
  revert t pre bits. induction fuel as [|fuel IH]; intros t pre bits Hs Ht Hf H0 H8; [lia|]. cbn [popcount_rest].
  destruct t as [|b t]; [by simpl; rewrite Z.add_0_r|]. apply Forall_cons in Ht as [Hb Ht]. rewrite zlen_cons in *.
  pose proof (zlen_nonneg t). replace (1 + zlen t =? 0) with false by lia.
  rewrite (count_byte_ok s pre b (t ++ post)) by (done || lia). cbn [mbind option_bind]. pose proof (ones_byte_bound b).
  rewrite bits_of_cons, ones_app, Z.add_assoc.
  rewrite <-(IH t (pre ++ [b])); [f_equal; zl|by rewrite <-app_assoc|done|simpl in Hf; lia|lia|lia].
Qed.

Lemma popcount_words_ok (fuel : nat) t pre bits :
  s = pre ++ t ++ post → wf_bytes t → (length t < fuel)%nat → 0 ≤ bits → bits + 8 * zlen t < 2 ^ 64 →
  ∃ u v, t = u ++ v ∧
    popcount_words fuel s (zlen pre) (zlen t) bits = Some (zlen (pre ++ u), zlen v, bits + ones (bits_of u)).
Proof.
  revert t pre bits. induction fuel as [|fuel IH]; intros t pre bits Hs Ht Hf H0 H8; [lia|]. cbn [popcount_words].
  rewrite Z.geb_leb. destruct (Z.leb_spec 28 (zlen t)) as [Hn|Hn].
  2:{ exists [], t. rewrite app_nil_r. simpl. by rewrite Z.add_0_r. }
  rewrite <-(take_drop 28 t) in Hs, Ht. apply Forall_app in Ht as [Hu Hv].
  assert (HL : zlen (take 28 t) = 28) by (unfold zlen in *; rewrite length_take; lia).
  assert (HD : zlen (drop 28 t) = zlen t - 28) by (unfold zlen in *; rewrite length_drop; lia).
  set (u := take 28 t) in *. set (v := drop 28 t) in *. rewrite <-app_assoc in Hs.
  destruct (load_words_ok 7 s pre u (v ++ post)) as (auxs & a & b & c & d & -> & Hsum & ? & ? & ? & ? & Ho); [done..|].
  cbn [mbind option_bind]. rewrite Hsum, (uwrap_id 32 (aux_of a b c d)) by (unfold in_u, aux_of; change (2 ^ 32) with 4294967296; lia).
  rewrite lanes_sum, Ho by lia. pose proof (ones_bits_bound u). rewrite uwrap_id by (unfold in_u; lia).
  destruct (IH v (pre ++ u) (bits + ones (bits_of u))) as (u' & v' & Hv' & Hl);
    [by rewrite <-app_assoc|done|unfold zlen in *; lia|lia|lia|].
  exists (u ++ u'), v'. split; [by rewrite <-app_assoc, <-Hv'; unfold u, v; rewrite take_drop|].
  rewrite bits_of_app, ones_app, Z.add_assoc, app_assoc, <-Hl, HD. f_equal. rewrite zlen_app. lia.
Qed.
End Popcount.

(** C37: Whatever the alignment of the block, the table, the words and the lanes count the
    ones of its first [count] bytes. *)
Theorem redisPopcount_correct (addr : Z) (s : bytes) (count : Z) :
  wf_bytes s → 0 ≤ count ≤ zlen s → 8 * count < 2 ^ 64 →
  redisPopcount addr s count = Some (ones (bits_of (take (Z.to_nat count) s))).
Proof.
  intros Hs Hc H8. set (t := take (Z.to_nat count) s). set (post := drop (Z.to_nat count) s).
  assert (Hst : s = t ++ post) by (symmetry; apply take_drop). assert (Ht : wf_bytes t) by (by apply Forall_take).
  assert (Hl : zlen t = count) by (unfold t; rewrite zlen_take; lia). unfold redisPopcount. rewrite <-Hl in *.
  assert (Hf : (length t < S (Z.to_nat (zlen t)))%nat) by (unfold zlen; lia).
  destruct (popcount_head_ok s post addr (S (Z.to_nat (zlen t))) t [] 0) as (u & v & Huv & Hh); [done..|].
  change (zlen []) with 0 in Hh. rewrite Hh. cbn [mbind option_bind].
  rewrite Huv in Ht. apply Forall_app in Ht as [Hu Hv]. pose proof (ones_bits_bound u).
  assert (zlen t = zlen u + zlen v) by (by rewrite Huv, zlen_app). assert (length t = length u + length v)%nat by (by rewrite Huv, length_app).
  destruct (popcount_words_ok s post (S (Z.to_nat (zlen t))) v ([] ++ u) (0 + ones (bits_of u))) as (u' & v' & Huv' & Hw);
    [by rewrite Hst, Huv, <-app_assoc|done|lia|lia|lia|].
  rewrite Hw. cbn [mbind option_bind]. rewrite Huv' in Hv. apply Forall_app in Hv as [Hu' Hv']. pose proof (ones_bits_bound u').
  assert (zlen v = zlen u' + zlen v') by (by rewrite Huv', zlen_app). assert (length v = length u' + length v')%nat by (by rewrite Huv', length_app).
  rewrite (popcount_rest_ok s post (S (Z.to_nat (zlen t))) v' (([] ++ u) ++ u'));
    [|by rewrite Hst, Huv, Huv', <-!app_assoc|done|lia|lia|lia].
  f_equal. rewrite Huv, Huv', !bits_of_app, !ones_app. lia.
Qed.

(** ** Words of bits *)

(** The [k] low bits of a number, the most significant first. *)
Fixpoint low_bits (k : nat) (w : Z) : list bool :=
  match k with O => [] | S k => Z.testbit w (Z.of_nat k) :: low_bits k w end.

Lemma low_bits_length k w : length (low_bits k w) = k.
Proof. induction k; simpl; congruence. Qed.

Lemma low_bits_app j k w : low_bits (j + k) w = low_bits j (Z.shiftr w (Z.of_nat k)) ++ low_bits k w.
Proof.
  induction j as [|j IH]; [done|]. simpl. rewrite IH, Z.shiftr_spec by lia. by rewrite Nat2Z.inj_add.
Qed.

Lemma low_bits_ext k v w : (∀ i, 0 ≤ i < Z.of_nat k → Z.testbit v i = Z.testbit w i) → low_bits k v = low_bits k w.
Proof. induction k as [|k IH]; intros H; [done|]. simpl. f_equal; [apply H; lia|]. apply IH. intros i Hi. apply H. lia. Qed.

Lemma low_bits_mod k w : low_bits k (w mod 2 ^ Z.of_nat k) = low_bits k w.
Proof. apply low_bits_ext. intros i Hi. apply Z.mod_pow2_bits_low. lia. Qed.

Lemma low_bits_inj k v w : 0 ≤ v < 2 ^ Z.of_nat k → 0 ≤ w < 2 ^ Z.of_nat k → low_bits k v = low_bits k w → v = w.
Proof.
  intros Hv Hw H. assert (Hi : ∀ i, 0 ≤ i < Z.of_nat k → Z.testbit v i = Z.testbit w i).
  { clear Hv Hw. induction k as [|k IH]; intros i Hi; [lia|]. simpl in H. injection H as H0 H1.
    destruct (decide (i = Z.of_nat k)) as [->|]; [done|]. apply IH; [done|lia]. }
  apply Z.bits_inj'. intros i H0. destruct (Z.ltb_spec i (Z.of_nat k)); [by apply Hi|].
  by rewrite !(bits_high (Z.of_nat k)) by lia.
Qed.

Lemma low_bits_byte a x : is_byte x → low_bits 8 (256 * a + x) = bits_of_byte x.
Proof.
  intros Hx. change (bits_of_byte x) with (low_bits 8 x). rewrite <-(low_bits_mod 8 (256 * a + x)).
  change (2 ^ Z.of_nat 8) with 256. f_equal. rewrite Z.add_comm, Z.mul_comm, Z.mod_add by done. by apply Z.mod_small.
Qed.

Lemma low_bits_bytes w : ∀ a, wf_bytes w → low_bits (8 * length w) (foldl (λ a x, 256 * a + x) a w) = bits_of w.
Proof.
  induction w as [|x w IH] using rev_ind; intros a Hw; [done|]. apply Forall_app in Hw as [Hw Hx].
  apply Forall_cons in Hx as [Hx _]. rewrite length_app, foldl_app, bits_of_app.
  replace (8 * (length w + length [x]))%nat with (8 * length w + 8)%nat by (simpl; lia).
  rewrite low_bits_app. change (foldl _ ?b [x]) with (256 * b + x). rewrite low_bits_byte by done.
  change (bits_of [x]) with (bits_of_byte x ++ []). rewrite app_nil_r. f_equal. rewrite <-(IH a Hw). f_equal.
  rewrite Z.shiftr_div_pow2 by done. change (2 ^ Z.of_nat 8) with 256. rewrite Z.mul_comm, Z.div_add_l by done.
  rewrite (Z.div_small x) by done. lia.
Qed.

(** ** The first bit of a value *)

Fixpoint first_bit (b : bool) (l : list bool) : option Z :=
  match l with
  | [] => None
  | x :: l => if eqb x b then Some 0 else Z.succ <$> first_bit b l
  end.

Lemma first_bit_skip b n l : first_bit b (replicate n (negb b) ++ l) = Z.add (Z.of_nat n) <$> first_bit b l.
Proof.
  induction n as [|n IH]; [simpl; by destruct (first_bit b l)|]. simpl replicate. simpl. rewrite eqb_negb1, IH.
  destruct (first_bit b l); [|done]. simpl. f_equal. lia.
Qed.

Lemma first_bit_app b k l i : first_bit b k = Some i → first_bit b (k ++ l) = Some i.
Proof.
  revert i. induction k as [|x k IH]; intros i; [done|]. simpl. destruct (eqb x b); [done|].
  destruct (first_bit b k) as [j|]; [|done]. intros [= <-]. by rewrite (IH j).
Qed.

Lemma first_bit_None b l : first_bit b l = None ↔ l = replicate (length l) (negb b).
Proof.
  induction l as [|x l IH]; [done|]. simpl. destruct x, b; simpl; try (split; [done|intros [=]; done]).
  all: rewrite fmap_None, IH; split; intros E; [by f_equal|by injection E].
Qed.

Lemma land_pow2 w k : 0 ≤ k → negb (Z.land w (2 ^ k) =? 0) = Z.testbit w k.
Proof.
  intros Hk. destruct (Z.testbit w k) eqn:E.
  - apply negb_true_iff, Z.eqb_neq. intros H0. apply (f_equal (λ z, Z.testbit z k)) in H0.
    rewrite Z.land_spec, E, Z.pow2_bits_true, Z.bits_0 in H0 by lia. done.
  - apply negb_false_iff, Z.eqb_eq. apply Z.bits_inj'. intros i Hi. rewrite Z.land_spec, Z.bits_0.
    destruct (decide (i = k)) as [->|]; [by rewrite E|]. rewrite Z.pow2_bits_false by lia. apply andb_false_r.
Qed.

Lemma bitpos_scan_ok (k fuel : nat) word (bit : bool) pos :
  (k < fuel)%nat → bitpos_scan fuel word (Z.b2z bit) (2 ^ Z.of_nat k / 2) pos = Z.add pos <$> first_bit bit (low_bits k word).
Proof.
  revert fuel pos. induction k as [|k IH]; intros [|fuel] pos Hf; try lia; [done|]. cbn [bitpos_scan].
  replace (2 ^ Z.of_nat (S k) / 2) with (2 ^ Z.of_nat k).
  2:{ rewrite Nat2Z.inj_succ, Z.pow_succ_r, Z.mul_comm by lia. by rewrite Z.div_mul. }
  pose proof (Z.pow_pos_nonneg 2 (Z.of_nat k) ltac:(done) ltac:(lia)). replace (2 ^ Z.of_nat k =? 0) with false by lia.
  rewrite Z.land_comm, land_pow2 by lia. cbn [low_bits first_bit]. replace (Z.b2z (Z.testbit word (Z.of_nat k)) =? Z.b2z bit) with (eqb (Z.testbit word (Z.of_nat k)) bit)
    by (by destruct (Z.testbit _ _), bit).
  destruct (eqb _ bit); [simpl; f_equal; lia|]. rewrite Z.shiftr_div_pow2 by done. change (2 ^ 1) with 2. rewrite IH by lia.
  destruct (first_bit bit (low_bits k word)); [|done]. simpl. f_equal. lia.
Qed.

(** The byte without a bit of the value. *)
Definition skip_byte (bit : bool) : Z := if bit then 0 else UCHAR_MAX.

Lemma bits_of_skip bit n : bits_of (replicate n (skip_byte bit)) = replicate (8 * n) (negb bit).
Proof.
  induction n as [|n IH]; [done|]. simpl replicate at 1. rewrite bits_of_cons, IH.
  replace (8 * S n)%nat with (8 + 8 * n)%nat by lia. rewrite replicate_add. by destruct bit.
Qed.

Lemma bits_of_skip_inv bit w :
  wf_bytes w → bits_of w = replicate (8 * length w) (negb bit) → w = replicate (length w) (skip_byte bit).
Proof.
  induction 1 as [|x w Hx _ IH]; intros H; [done|]. simpl length in *. rewrite bits_of_cons in H.
  replace (8 * S (length w))%nat with (8 + 8 * length w)%nat in H by lia. rewrite replicate_add in H.
  apply app_inj_1 in H as [H0 H1]; [|done]. simpl. f_equal; [|by apply IH]. unfold is_byte in Hx.
  apply (low_bits_inj 8); [done|by destruct bit|]. by destruct bit.
Qed.

Lemma first_bit_pad b k m : (0 < m)%nat → first_bit b (k ++ replicate m b) = Some (default (zlen k) (first_bit b k)).
Proof.
  intros Hm. induction k as [|x k IH]; simpl.
  - destruct m; [lia|]. simpl. by rewrite eqb_reflx.
  - destruct (eqb x b); [done|]. rewrite IH. destruct (first_bit b k); simpl; [done|]. f_equal. rewrite zlen_cons. lia.
Qed.

Lemma first_bit_pad_other b k m : first_bit b (k ++ replicate m (negb b)) = first_bit b k.
Proof.
  induction k as [|x k IH]; simpl.
  - induction m as [|m IH]; [done|]. simpl. by rewrite eqb_negb1, IH.
  - by rewrite IH.
Qed.

Section Bitpos.
Context (s post : bytes) (addr : Z) (bit : bool).

Lemma bitpos_head_ok (fuel : nat) t pre pos :
  s = pre ++ t ++ post → (length t < fuel)%nat →
  ∃ found n v, t = replicate n (skip_byte bit) ++ v ∧
    bitpos_head fuel s addr (skip_byte bit) (zlen pre) (zlen t) pos
    = Some (found, zlen pre + Z.of_nat n, zlen v, pos + 8 * Z.of_nat n) ∧
    (found = true → take 8 v ≠ replicate 8 (skip_byte bit)).
Proof.
  revert t pre pos. induction fuel as [|fuel IH]; intros t pre pos Hs Hf; [lia|]. cbn [bitpos_head].
  destruct (negb _ && _) eqn:E.
  2:{ exists false, O, t. rewrite !Z.add_0_r. done. }
  apply andb_true_iff in E as [_ E]. destruct t as [|b t]; [done|]. simpl in Hf.
  rewrite (load1_at s pre (t ++ post) b) by done. cbn [mbind option_bind]. destruct (Z.eqb_spec b (skip_byte bit)) as [->|Hb]; simpl negb.
  - destruct (IH t (pre ++ [skip_byte bit]) (pos + 8)) as (found & n & v & -> & Hl & Hv); [by rewrite <-app_assoc|lia|].
    exists found, (S n), v. split; [done|]. split; [|done].
    replace (zlen pre + Z.of_nat (S n)) with (zlen (pre ++ [skip_byte bit]) + Z.of_nat n) by zl.
    replace (pos + 8 * Z.of_nat (S n)) with (pos + 8 + 8 * Z.of_nat n) by lia. rewrite <-Hl. f_equal; zl.
  - exists true, O, (b :: t). rewrite !Z.add_0_r. split; [done|]. split; [done|]. intros _ [=]. done.
Qed.

Definition skip_word : Z := if bit then 0 else ULONG_MAX.

Lemma skip_word_ok w : wf_bytes w → length w = 8%nat → le_combine w = skip_word ↔ w = replicate 8 (skip_byte bit).
Proof.
  intros Hw Hl. split; [|intros ->; by unfold skip_word; destruct bit].
  intros H. rewrite <-(le_split_combine w Hw), Hl, H. unfold skip_word. by destruct bit.
Qed.

Lemma bitpos_words_ok (fuel : nat) t pre pos :
  s = pre ++ t ++ post → wf_bytes t → (length t < fuel)%nat →
  ∃ n v, t = replicate n (skip_byte bit) ++ v ∧
    bitpos_words fuel s skip_word (zlen pre) (zlen t) pos = Some (zlen pre + Z.of_nat n, zlen v, pos + 8 * Z.of_nat n) ∧
    (8 ≤ zlen v → take 8 v ≠ replicate 8 (skip_byte bit)).
Proof.
  revert t pre pos. induction fuel as [|fuel IH]; intros t pre pos Hs Ht Hf; [lia|]. cbn [bitpos_words].
  rewrite Z.geb_leb. destruct (Z.leb_spec 8 (zlen t)) as [Hn|Hn].
  2:{ exists O, t. rewrite !Z.add_0_r. split; [done|]. split; [done|]. lia. }
  pose proof (take_drop 8 t) as Htd. set (w := take 8 t) in *. set (v := drop 8 t) in *.
  assert (Hw : length w = 8%nat) by (unfold w, zlen in *; rewrite length_take; lia).
  assert (Hzw : zlen w = 8) by (unfold zlen; lia).
  rewrite <-Htd, <-app_assoc in Hs. rewrite <-Htd in Ht. apply Forall_app in Ht as [Hww Hwv].
  rewrite (load_at s pre w (v ++ post)) by done. cbn [mbind option_bind]. destruct (Z.eqb_spec (le_combine w) skip_word) as [E|E]; simpl negb.
  - apply skip_word_ok in E; [|done..].
    destruct (IH v (pre ++ w) (pos + 8 * 8)) as (n & v' & Hv & Hl & Hne); [by rewrite <-app_assoc|done| |].
    { rewrite <-Htd, length_app in Hf. lia. }
    exists (8 + n)%nat, v'. split; [rewrite <-Htd, E, Hv, app_assoc; by rewrite <-replicate_add|]. split; [|done].
    replace (zlen pre + Z.of_nat (8 + n)) with (zlen (pre ++ w) + Z.of_nat n) by (rewrite zlen_app; lia).
    replace (pos + 8 * Z.of_nat (8 + n)) with (pos + 8 * 8 + 8 * Z.of_nat n) by lia. rewrite <-Hl.
    rewrite <-Htd at 1. rewrite !zlen_app, Hzw. f_equal; lia.
  - exists O, t. rewrite !Z.add_0_r. split; [done|]. split; [done|]. intros _ Hx. apply E, skip_word_ok; done.
Qed.

Lemma bitpos_load_ok (n : nat) v pre word :
  s = pre ++ v ++ post → wf_bytes v → 0 ≤ word → (word + 1) * 256 ^ Z.of_nat n ≤ 2 ^ 64 →
  bitpos_load n s (zlen pre) (zlen v) word = Some (foldl (λ a x, 256 * a + x) word (take n (v ++ replicate n 0))).
Proof.
  revert v pre word. induction n as [|n IH]; intros v pre word Hs Hv H0 Hb; [by rewrite take_0|]. cbn [bitpos_load].
  rewrite Nat2Z.inj_succ, Z.pow_succ_r in Hb by lia. pose proof (Z.pow_pos_nonneg 256 (Z.of_nat n) ltac:(done) ltac:(lia)).
  assert (Hw : uwrap 64 (Z.shiftl word 8) = 256 * word).
  { rewrite Z.shiftl_mul_pow2 by done. change (2 ^ 8) with 256. rewrite Z.mul_comm. apply uwrap_id. unfold in_u. nia. }
  rewrite Hw. destruct v as [|x v]; simpl negb.
  - pose proof (IH [] pre (256 * word)) as Hn. change (zlen []) with 0 in Hn |- *.
    simpl. rewrite Hn; [|done|done|lia|nia]. by rewrite Z.add_0_r.
  - replace (zlen (x :: v) =? 0) with false by (symmetry; apply Z.eqb_neq; zl). simpl negb.
    apply Forall_cons in Hv as [Hx Hv]. unfold is_byte in Hx.
    rewrite (load1_at s pre (v ++ post) x) by done. cbn [mbind option_bind].
    replace (Z.lor (256 * word) x) with (256 * word + x).
    2:{ rewrite Z.lor_comm, Z.add_comm, (add_byte_lor x word) by done. f_equal. rewrite Z.shiftl_mul_pow2 by done. apply Z.mul_comm. }
    replace (zlen pre + 1) with (zlen (pre ++ [x])) by zl. replace (zlen (x :: v) - 1) with (zlen v) by zl.
    rewrite (IH v (pre ++ [x])); [|by rewrite <-app_assoc|done|lia|nia].
    f_equal. change (take (S n) ((x :: v) ++ replicate (S n) 0)) with (x :: take n (v ++ replicate (S n) 0)).
    change (foldl ?f ?a (x :: ?l)) with (foldl f (256 * word + x) l). f_equal.
    rewrite replicate_S_end, app_assoc, (take_app_le (v ++ replicate n 0)); [done|]. rewrite length_app, length_replicate. lia.
Qed.
End Bitpos.

(** What the scan of the last word answers, and what that means for all the bits that
    were not skipped. *)
Lemma last_word bit v :
  wf_bytes v → (8 ≤ zlen v → take 8 v ≠ replicate 8 (skip_byte bit)) →
  let w := take 8 (v ++ replicate 8 0) in
  (first_bit bit (bits_of w) = None → bit = true ∧ first_bit bit (bits_of v) = None) ∧
  (∀ i, first_bit bit (bits_of w) = Some i → i = default (if bit then -1 else 8 * zlen v) (first_bit bit (bits_of v))
     ∧ (first_bit bit (bits_of v) = None → bit = false)).
Proof.
  intros Hv Hne w. destruct (Z.leb_spec 8 (zlen v)) as [Hl|Hl].
  - assert (Hw : w = take 8 v) by (unfold w; rewrite take_app_le; [done|unfold zlen in *; lia]).
    assert (H8 : length (take 8 v) = 8%nat) by (unfold zlen in *; rewrite length_take; lia).
    assert (Hbv : bits_of v = bits_of (take 8 v) ++ bits_of (drop 8 v)) by (by rewrite <-bits_of_app, take_drop).
    rewrite Hw, Hbv. split.
    + intros Hn. exfalso. apply Hne; [done|]. apply first_bit_None in Hn.
      pose proof (bits_of_skip_inv bit (take 8 v)) as Hi. rewrite H8 in Hi. apply Hi; [by apply Forall_take|]. rewrite Hn. f_equal.
      pose proof (bits_of_length (take 8 v)) as Hb. unfold zlen in Hb. lia.
    + intros i Hi. by rewrite (first_bit_app _ _ _ i).
  - assert (Hw : w = v ++ replicate (8 - length v) 0).
    { unfold w, zlen in *. rewrite take_app, take_ge by lia. f_equal. rewrite take_replicate. f_equal. lia. }
    rewrite Hw, bits_of_app. change 0 with (skip_byte true). rewrite bits_of_skip. simpl negb.
    assert (0 < 8 * (8 - length v))%nat by (unfold zlen in *; lia). destruct bit.
    + change false with (negb true). rewrite first_bit_pad_other. split; [done|]. by intros i ->.
    + rewrite first_bit_pad by done. split; [done|]. intros i [= <-]. by rewrite bits_of_length.
Qed.

Lemma fold_bytes_zero w : ∀ a, 0 ≤ a → wf_bytes w → foldl (λ a x, 256 * a + x) a w = 0 ↔ a = 0 ∧ w = replicate (length w) 0.
Proof.
  induction w as [|x w IH]; intros a Ha Hw; [simpl; naive_solver|]. apply Forall_cons in Hw as [[Hx _] Hw]. simpl.
  rewrite IH by (done || lia). split; [intros [H ->]|intros [-> H]].
  - split; [lia|]. f_equal; [lia|by rewrite length_replicate].
  - injection H as -> H. split; [lia|done].
Qed.

Lemma last_word_scan bit v pos :
  wf_bytes v → (8 ≤ zlen v → take 8 v ≠ replicate 8 (skip_byte bit)) →
  let word := foldl (λ a x, 256 * a + x) 0 (take 8 (v ++ replicate 8 0)) in
  (if (Z.b2z bit =? 1) && (word =? 0) then Some (-1) else bitpos_scan 65 word (Z.b2z bit) (2 ^ 63) pos)
  = Some (match first_bit bit (bits_of v) with Some i => pos + i | None => if bit then -1 else pos + 8 * zlen v end).
Proof.
  intros Hv Hne. destruct (last_word bit v Hv Hne) as [Hnone Hsome]. set (w := take 8 (v ++ replicate 8 0)) in *.
  assert (Hw : wf_bytes w) by (apply Forall_take, Forall_app; split; [done|by repeat constructor]).
  assert (Hl : length w = 8%nat) by (unfold w; rewrite length_take, length_app, length_replicate; lia).
  pose proof (low_bits_bytes w 0 Hw) as Hb. rewrite Hl in Hb. pose proof (fold_bytes_zero w 0 ltac:(done) Hw) as Hz.
  set (word := foldl _ 0 w) in *. cbv zeta. pose proof (bitpos_scan_ok 64 65 word bit pos ltac:(lia)) as Hscan.
  change (2 ^ Z.of_nat 64 / 2) with (2 ^ 63) in Hscan. change (8 * 8)%nat with 64%nat in Hb. rewrite Hscan, Hb. clear Hscan.
  destruct (first_bit bit (bits_of w)) as [i|] eqn:Ei.
  - destruct (Hsome i eq_refl) as [-> Hf]. replace (_ && _) with false.
    2:{ symmetry. apply andb_false_iff. destruct bit; [right|by left]. apply Z.eqb_neq. intros [_ H0]%Hz.
        rewrite H0, Hl in Ei. done. }
    simpl. f_equal. destruct (first_bit bit (bits_of v)) as [j|]; [done|]. by rewrite (Hf eq_refl).
  - destruct (Hnone eq_refl) as [-> ->]. replace (_ && _) with true; [done|]. symmetry. apply andb_true_iff. split; [done|].
    apply Z.eqb_eq, Hz. split; [done|]. apply (bits_of_skip_inv true); [done|]. apply first_bit_None in Ei. rewrite Ei at 1. f_equal.
    pose proof (bits_of_length w) as Hlw. unfold zlen in Hlw. lia.
Qed.

(** The two loops that skip, together. *)
Lemma bitpos_skip_ok s post addr bit t :
  s = t ++ post → wf_bytes t →
  let fuel := S (Z.to_nat (zlen t)) in
  ∃ n v, t = replicate n (skip_byte bit) ++ v ∧ (8 ≤ zlen v → take 8 v ≠ replicate 8 (skip_byte bit)) ∧
  ∃ found c count pos, bitpos_head fuel s addr (skip_byte bit) 0 (zlen t) 0 = Some (found, c, count, pos) ∧
    (if negb found then bitpos_words fuel s (skip_word bit) c count pos else Some (c, count, pos))
    = Some (Z.of_nat n, zlen v, 8 * Z.of_nat n).
Proof.
  intros Hst Ht fuel. assert (Hf : (length t < fuel)%nat) by (unfold fuel, zlen; lia).
  destruct (bitpos_head_ok s post addr bit fuel t [] 0) as (found & n & v & Hv & Hh & Hfound); [done..|].
  change (zlen []) with 0 in Hh. destruct found.
  { exists n, v. split; [done|]. split; [intros _; by apply Hfound|]. eexists _, _, _, _. split; [exact Hh|]. done. }
  assert (length v ≤ length t)%nat by (rewrite Hv, length_app; lia). rewrite Hv in Ht. apply Forall_app in Ht as [_ Hwv].
  destruct (bitpos_words_ok s post bit fuel v (replicate n (skip_byte bit)) (0 + 8 * Z.of_nat n))
    as (m & v' & Hv' & Hw & Hne); [by rewrite Hst, Hv, <-app_assoc|done|lia|].
  assert (Hz : zlen (replicate n (skip_byte bit)) = Z.of_nat n) by (unfold zlen; by rewrite length_replicate).
  exists (n + m)%nat, v'. split; [by rewrite Hv, Hv', app_assoc, <-replicate_add|]. split; [done|].
  eexists _, _, _, _. split; [exact Hh|]. simpl negb. rewrite Hz in Hw. replace (0 + Z.of_nat n) with (Z.of_nat n) by lia.
  rewrite Hw. f_equal. f_equal; [f_equal|]; lia.
Qed.

(** C40: The position of the first bit of the value in the first [count] bytes, whatever the
    alignment: -1 if no bit is set, and the end of the block if none is clear.  The
    panic at the end is not reached. *)
Theorem redisBitpos_correct (addr : Z) (s : bytes) (count : Z) (bit : bool) :
  wf_bytes s → 0 ≤ count ≤ zlen s →
  redisBitpos addr s count (Z.b2z bit)
  = Some (default (if bit then -1 else 8 * count) (first_bit bit (bits_of (take (Z.to_nat count) s)))).
Proof.
  intros Hs Hc. set (t := take (Z.to_nat count) s). set (post := drop (Z.to_nat count) s).
  assert (Hst : s = t ++ post) by (symmetry; apply take_drop). assert (Ht : wf_bytes t) by (by apply Forall_take).
  assert (Hl : zlen t = count) by (unfold t, zlen in *; rewrite length_take; lia). unfold redisBitpos. rewrite <-Hl in *. clear Hc Hl.
  replace (if negb (Z.b2z bit =? 0) then 0 else UCHAR_MAX) with (skip_byte bit) by (by destruct bit).
  replace (if negb (Z.b2z bit =? 0) then 0 else ULONG_MAX) with (skip_word bit) by (by destruct bit).
  destruct (bitpos_skip_ok s post addr bit t Hst Ht) as (n & v & Hv & Hne & found & c & count' & pos & Hh & Hw). cbv zeta.
  rewrite Hh. cbn [mbind option_bind]. rewrite Hw. cbn [mbind option_bind].
  rewrite Hv in Ht. apply Forall_app in Ht as [_ Hwv].
  pose proof (bitpos_load_ok s post 8 v (replicate n (skip_byte bit)) 0) as Hload.
  unfold zlen in Hload at 1. rewrite length_replicate in Hload. rewrite Hload; [|by rewrite Hst, Hv, <-app_assoc|done..]. clear Hload.
  cbn [mbind option_bind]. change (uwrap 64 (Z.lnot (Z.shiftr ULONG_MAX 1))) with (2 ^ 63).
  rewrite (last_word_scan bit v) by done. f_equal. rewrite Hv, bits_of_app, bits_of_skip, first_bit_skip.
  destruct (first_bit bit (bits_of v)); simpl; [lia|]. destruct bit; [done|].
  rewrite zlen_app. unfold zlen at 2. rewrite length_replicate. lia.
Qed.

(** Every alignment of a block of 40 bytes. *)
Lemma redisPopcount_correct_witness :
  Forall (λ addr, redisPopcount addr (replicate 40 0xF1) 40 = Some (ones (bits_of (replicate 40 0xF1)))) [0; 1; 2; 3].
Proof.
  repeat (apply Forall_cons; split); [..|apply Forall_nil_2];
    apply (redisPopcount_correct _ (replicate 40 0xF1) 40); try reflexivity;
    try (split; discriminate); repeat (apply Forall_cons; split; [split; discriminate || reflexivity|]); apply Forall_nil_2.
Defined.

Lemma redisBitpos_correct_witness :
  redisBitpos 3 (replicate 20 0 ++ [0x10]) 21 1 = Some 163 ∧ redisBitpos 3 (replicate 20 0xff) 20 0 = Some 160.
Proof.
  split.
  - apply (redisBitpos_correct 3 (replicate 20 0 ++ [0x10]) 21 true); [|split; discriminate].
    simpl. repeat (apply Forall_cons; split; [split; discriminate || reflexivity|]); apply Forall_nil_2.
  - apply (redisBitpos_correct 3 (replicate 20 0xff) 20 false); [|split; discriminate].
    simpl. repeat (apply Forall_cons; split; [split; discriminate || reflexivity|]); apply Forall_nil_2.
Defined.
End BitopsSpec.
