(* ===== verification/BitfieldSpec.v ===== *)
(** * bitops.c: fields of bits and their overflow

    Writing a field of up to 64 bits replaces exactly its bits of the block, and reading
    it gives them back; the checks of BITFIELD decide whether the exact sum fits in the
    field, and give the saturated or the wrapped sum if not.  The findings are the
    fields of 64 signed bits, for which the code shifts by the width of the type. *)

From S2P Require Import Prelude.
From S2P Require Import Mem.
From S2P Require Import Bitops.
From S2P Require Import BitopsSpec.

Module BitfieldSpec.
Import Bitops BitopsSpec.

(** ** One bit *)

(** [byte] and [bit] of an offset. *)
Lemma offset_split (off : nat) :
  ∃ q o : nat, off = (8 * q + o)%nat ∧ (o < 8)%nat ∧
    Z.shiftr (Z.of_nat off) 3 = Z.of_nat q ∧ 7 - Z.land (Z.of_nat off) 7 = 7 - Z.of_nat o.
Proof.
  pose proof (Nat.div_mod off 8 ltac:(done)). pose proof (Nat.mod_upper_bound off 8 ltac:(done)).
  exists (off / 8)%nat, (off mod 8)%nat. split; [done|]. split; [done|]. split.
  - rewrite Z.shiftr_div_pow2 by done. change (2 ^ 3) with (Z.of_nat 8). by rewrite <-Nat2Z.inj_div.
  - change 7 with (Z.ones 3) at 2. rewrite Z.land_ones by done. change (2 ^ 3) with (Z.of_nat 8). by rewrite <-Nat2Z.inj_mod.
Qed.

Lemma block_split (p : bytes) (q : nat) : (q < length p)%nat → ∃ a x c, p = a ++ x :: c ∧ length a = q.
Proof.
  intros Hq. destruct (lookup_lt_is_Some_2 p q Hq) as [x Hx]. exists (take q p), x, (drop (S q) p).
  split; [by rewrite take_drop_middle|]. rewrite length_take. lia.
Qed.

(** The update of a byte, on all bytes, positions and values. *)
Definition put_bit (x bit : Z) (v : bool) : Z :=
  Z.land (Z.lor (Z.land x (Z.lnot (Z.shiftl 1 bit))) (Z.shiftl (Z.b2z v) bit)) 0xff.

Definition put_bit_check (x : Z) : bool :=
  forallb (λ o, forallb (λ v, bool_decide (bits_of_byte (put_bit x (7 - Z.of_nat o) v) = <[o := v]> (bits_of_byte x))
    && bool_decide (0 ≤ put_bit x (7 - Z.of_nat o) v < 256)
    && bool_decide (bits_of_byte x !! o = Some (Z.testbit x (7 - Z.of_nat o)))) [true; false]) (seq 0 8).

Lemma put_bit_ok x (o : nat) v :
  is_byte x → (o < 8)%nat →
  bits_of_byte (put_bit x (7 - Z.of_nat o) v) = <[o := v]> (bits_of_byte x) ∧ is_byte (put_bit x (7 - Z.of_nat o) v) ∧
  bits_of_byte x !! o = Some (Z.testbit x (7 - Z.of_nat o)).
Proof.
  intros Hx Ho. assert (Hc : put_bit_check x = true) by (by apply all_bytes_spec).
  unfold put_bit_check in Hc. rewrite forallb_forall in Hc. specialize (Hc o ltac:(apply in_seq; lia)).
  rewrite forallb_forall in Hc. specialize (Hc v ltac:(destruct v; simpl; auto)).
  apply andb_true_iff in Hc as [[H1 H2]%andb_true_iff H3]. by rewrite !bool_decide_eq_true in *.
Qed.

Lemma bits_of_split a x c : bits_of (a ++ x :: c) = bits_of a ++ bits_of_byte x ++ bits_of c.
Proof. by rewrite bits_of_app, bits_of_cons. Qed.

Lemma bits_of_len a : length (bits_of a) = (8 * length a)%nat.
Proof. pose proof (bits_of_length a). unfold zlen in *. lia. Qed.

Lemma bits_of_insert a x y c (o : nat) v :
  (o < 8)%nat → bits_of_byte y = <[o := v]> (bits_of_byte x) →
  bits_of (a ++ y :: c) = <[(8 * length a + o)%nat := v]> (bits_of (a ++ x :: c)).
Proof.
  intros Ho Hy. rewrite !bits_of_split, Hy, <-bits_of_len, insert_app_r. f_equal. symmetry. by apply insert_app_l.
Qed.

Lemma bits_of_at a x c (o : nat) : (o < 8)%nat → bits_of (a ++ x :: c) !! (8 * length a + o)%nat = bits_of_byte x !! o.
Proof.
  intros Ho. rewrite bits_of_split, <-bits_of_len, lookup_app_r by lia.
  replace (_ + o - _)%nat with o by lia. by apply lookup_app_l.
Qed.

(** ** Fields *)

Lemma shl64_1 k : 0 ≤ k < 64 → shl64 1 k = Some (2 ^ k).
Proof.
  intros Hk. unfold shl64. replace (_ && _) with true by lia. rewrite Z.shiftl_1_l, uwrap_id; [done|].
  split; [apply Z.pow_nonneg; lia|apply Z.pow_lt_mono_r; lia].
Qed.

Lemma set_field_loop_ok (n : nat) p (off : nat) value :
  wf_bytes p → (off + n ≤ 8 * length p)%nat → (n ≤ 64)%nat → 8 * zlen p < 2 ^ 64 →
  ∃ p', set_field_loop n p (Z.of_nat off) value = Some p' ∧ wf_bytes p' ∧ length p' = length p ∧
    bits_of p' = take off (bits_of p) ++ low_bits n value ++ drop (off + n) (bits_of p).
Proof.
  revert p off. induction n as [|n IH]; intros p off Hp Hn H64 Hs.
  { exists p. simpl. rewrite Nat.add_0_r, take_drop. done. }
  cbn [set_field_loop]. rewrite shl64_1 by lia. cbn [mbind option_bind]. rewrite land_pow2 by lia.
  set (v := Z.testbit value (Z.of_nat n)). destruct (offset_split off) as (q & o & -> & Ho & Hq & Hb).
  rewrite Hq, Hb. destruct (block_split p q) as (a & x & c & -> & Ha); [lia|].
  apply Forall_app in Hp as [Hwa Hp]. apply Forall_cons in Hp as [Hx Hc].
  destruct (put_bit_ok x o v Hx Ho) as (Hput & Hbyte & _).
  rewrite (load1_at _ a c x) by (done || unfold zlen; lia). cbn [mbind option_bind].
  rewrite (store_at _ a [x] [put_bit x (7 - Z.of_nat o) v] c) by (done || unfold zlen; lia). cbn [mbind option_bind app].
  set (y := put_bit x (7 - Z.of_nat o) v) in *. set (off := (8 * q + o)%nat) in *.
  rewrite uwrap_id by (unfold in_u, zlen in *; lia). replace (Z.of_nat off + 1) with (Z.of_nat (off + 1)) by lia.
  assert (HB : bits_of (a ++ y :: c) = <[off := v]> (bits_of (a ++ x :: c))) by (unfold off; rewrite <-Ha; by apply bits_of_insert).
  assert (HL : length (a ++ y :: c) = length (a ++ x :: c)) by (by rewrite !length_app).
  destruct (IH (a ++ y :: c) (off + 1)%nat) as (p' & Hset & Hw' & Hl' & Hbits);
    [by apply Forall_app; split; [|by apply Forall_cons]|lia|lia|unfold zlen in *; lia|].
  exists p'. split; [done|]. split; [done|]. split; [lia|]. rewrite Hbits, HB. clear Hbits Hset.
  assert (off < length (bits_of (a ++ x :: c)))%nat by (rewrite bits_of_len; lia).
  rewrite Nat.add_1_r, (take_S_r _ _ v) by (by apply list_lookup_insert_eq). rewrite take_insert_ge by lia.
  rewrite drop_insert_lt by lia. rewrite <-app_assoc. simpl. by rewrite Nat.add_succ_r.
Qed.

Lemma get_field_loop_ok (n : nat) p (off : nat) value :
  wf_bytes p → (off + n ≤ 8 * length p)%nat → 8 * zlen p < 2 ^ 64 → 0 ≤ value → (value + 1) * 2 ^ Z.of_nat n ≤ 2 ^ 64 →
  ∃ r, get_field_loop n p (Z.of_nat off) value = Some r ∧ 0 ≤ r ∧ Z.shiftr r (Z.of_nat n) = value ∧
    low_bits n r = take n (drop off (bits_of p)).
Proof.
  revert off value. induction n as [|n IH]; intros off value Hp Hn Hs H0 H64.
  { exists value. by rewrite Z.shiftr_0_r, take_0. }
  cbn [get_field_loop]. destruct (offset_split off) as (q & o & -> & Ho & Hq & Hb).
  rewrite Hq, Hb. destruct (block_split p q) as (a & x & c & Hpx & Ha); [lia|].
  assert (Hx : is_byte x) by (rewrite Hpx in Hp; apply Forall_app in Hp as [_ Hp]; by apply Forall_cons in Hp as [? _]).
  rewrite (load1_at p a c x) by (done || unfold zlen; lia). cbn [mbind option_bind].
  destruct (put_bit_ok x o true Hx Ho) as (_ & _ & Hat). rewrite <-(bits_of_at a x c o Ho), <-Hpx, Ha in Hat.
  set (off := (8 * q + o)%nat) in *. set (v := Z.testbit x (7 - Z.of_nat o)) in *.
  rewrite uwrap_id by (unfold in_u, zlen in *; lia). replace (Z.of_nat off + 1) with (Z.of_nat (off + 1)) by lia.
  assert (Hv : Z.land (Z.shiftr x (7 - Z.of_nat o)) 1 = Z.b2z v).
  { change 1 with (Z.ones 1) at 1. rewrite Z.land_ones by done. change (2 ^ 1) with 2.
    rewrite <-Z.bit0_mod, Z.shiftr_spec by done. unfold v. by rewrite Z.add_0_l. }
  rewrite Nat2Z.inj_succ, Z.pow_succ_r in H64 by lia. pose proof (Z.pow_pos_nonneg 2 (Z.of_nat n) ltac:(done) ltac:(lia)).
  assert (Hval : Z.lor (uwrap 64 (Z.shiftl value 1)) (Z.b2z v) = 2 * value + Z.b2z v).
  { rewrite Z.shiftl_mul_pow2, uwrap_id by (unfold in_u; change (2 ^ 1) with 2; nia || done). change (2 ^ 1) with 2.
    rewrite Z.mul_comm. destruct value as [|w|w], v; try done; lia. }
  rewrite Hv, Hval. destruct (IH (off + 1)%nat (2 * value + Z.b2z v)) as (r & Hget & Hr & Hsh & Hbits);
    [done|lia|done|destruct v; simpl; lia|destruct v; simpl; nia|].
  exists r. split; [done|]. split; [done|]. split.
  - rewrite Nat2Z.inj_succ, <-Z.add_1_r, <-Z.shiftr_shiftr, Hsh by lia. rewrite Z.shiftr_div_pow2 by done. change (2 ^ 1) with 2.
    rewrite Z.mul_comm, Z.div_add_l by done. by destruct v; simpl; rewrite Z.add_0_r.
  - cbn [low_bits]. rewrite Hbits. apply (f_equal (λ z, Z.testbit z 0)) in Hsh. rewrite Z.shiftr_spec, Z.add_0_l in Hsh by done.
    rewrite Hsh, Z.testbit_0_r. rewrite (drop_S _ v off) by done. simpl. by rewrite Nat.add_1_r.
Qed.

(** A field that lies in the block. *)
Definition field_in (p : bytes) (off n : Z) : Prop := 0 ≤ off ∧ 0 ≤ n ≤ 64 ∧ off + n ≤ 8 * zlen p.

Lemma set_field_ok p off n v :
  wf_bytes p → 8 * zlen p < 2 ^ 64 → field_in p off n →
  ∃ p', setUnsignedBitfield p off n v = Some p' ∧ wf_bytes p' ∧ zlen p' = zlen p ∧
    bits_of p' = take (Z.to_nat off) (bits_of p) ++ low_bits (Z.to_nat n) v ++ drop (Z.to_nat off + Z.to_nat n) (bits_of p).
Proof.
  intros Hp Hs (Ho & Hn & Hin). unfold zlen in Hin.
  destruct (set_field_loop_ok (Z.to_nat n) p (Z.to_nat off) v) as (p' & Hset & Hw & Hl & Hb); [done|lia|lia|done|].
  rewrite Z2Nat.id in Hset by done. exists p'. unfold setUnsignedBitfield, zlen. rewrite Hl. done.
Qed.

Lemma get_field_ok p off n :
  wf_bytes p → 8 * zlen p < 2 ^ 64 → field_in p off n →
  ∃ r, getUnsignedBitfield p off n = Some r ∧ 0 ≤ r < 2 ^ n ∧
    low_bits (Z.to_nat n) r = take (Z.to_nat n) (drop (Z.to_nat off) (bits_of p)).
Proof.
  intros Hp Hs (Ho & Hn & Hin). unfold zlen in Hin.
  destruct (get_field_loop_ok (Z.to_nat n) p (Z.to_nat off) 0) as (r & Hget & Hr & Hsh & Hb); [done|lia|done|done| |].
  { rewrite Z2Nat.id, Z.mul_1_l by lia. apply Z.pow_le_mono_r; lia. }
  rewrite Z2Nat.id in Hget, Hsh by lia. exists r. split; [done|]. split; [|done]. split; [done|].
  rewrite Z.shiftr_div_pow2 in Hsh by lia. apply Z.div_small_iff in Hsh; [lia|]. apply Z.pow_nonzero; lia.
Qed.

(** A field is determined by its bits. *)
Lemma get_field_bits p q off n off' :
  wf_bytes p → wf_bytes q → 8 * zlen p < 2 ^ 64 → 8 * zlen q < 2 ^ 64 → field_in p off n → field_in q off' n →
  take (Z.to_nat n) (drop (Z.to_nat off) (bits_of p)) = take (Z.to_nat n) (drop (Z.to_nat off') (bits_of q)) →
  getUnsignedBitfield p off n = getUnsignedBitfield q off' n.
Proof.
  intros Hp Hq Hsp Hsq Hip Hiq Heq. destruct (get_field_ok p off n) as (r & -> & Hr & Hb); [done..|].
  destruct (get_field_ok q off' n) as (r' & -> & Hr' & Hb'); [done..|]. f_equal.
  assert (0 ≤ n) by apply Hip. apply (low_bits_inj (Z.to_nat n)); [by rewrite Z2Nat.id..|]. congruence.
Qed.

Lemma get_set_field p off n v p' :
  wf_bytes p → 8 * zlen p < 2 ^ 64 → field_in p off n → setUnsignedBitfield p off n v = Some p' →
  getUnsignedBitfield p' off n = Some (v mod 2 ^ n).
Proof.
  intros Hp Hs Hin Hset. destruct (set_field_ok p off n v) as (p1 & Hset1 & Hw & Hl & Hb); [done..|]. rewrite Hset in Hset1. injection Hset1 as <-.
  assert (Hin' : field_in p' off n) by (unfold field_in; by rewrite Hl).
  destruct (get_field_ok p' off n) as (r & -> & Hr & Hbr); [done|by rewrite Hl|done|]. f_equal.
  destruct Hin as (Ho & Hn & Hi). unfold zlen in Hi.
  apply (low_bits_inj (Z.to_nat n)); rewrite ?Z2Nat.id by lia; [done|apply Z.mod_pos_bound, Z.pow_pos_nonneg; lia|].
  rewrite <-(Z2Nat.id n) at 3 by lia. rewrite low_bits_mod, Hbr, Hb.
  assert (Hto : length (take (Z.to_nat off) (bits_of p)) = Z.to_nat off) by (rewrite length_take, bits_of_len; lia).
  rewrite <-Hto at 1. rewrite drop_app_length, <-(low_bits_length (Z.to_nat n) v) at 1. by rewrite take_app_length.
Qed.

Lemma set_field_frame p off n v p' off' n' :
  wf_bytes p → 8 * zlen p < 2 ^ 64 → field_in p off n → setUnsignedBitfield p off n v = Some p' →
  field_in p off' n' → off' + n' ≤ off ∨ off + n ≤ off' → getUnsignedBitfield p' off' n' = getUnsignedBitfield p off' n'.
Proof.
  intros Hp Hs Hin Hset Hin' Hd. destruct (set_field_ok p off n v) as (p1 & Hset1 & Hw & Hl & Hb); [done..|]. rewrite Hset in Hset1. injection Hset1 as <-.
  apply get_field_bits; [done|done|by rewrite Hl|done|unfold field_in; by rewrite Hl|done|]. rewrite Hb.
  destruct Hin as (Ho & Hn & Hi), Hin' as (Ho' & Hn' & Hi'). unfold zlen in Hi, Hi'.
  assert (Hto : length (take (Z.to_nat off) (bits_of p)) = Z.to_nat off) by (rewrite length_take, bits_of_len; lia).
  destruct Hd as [Hd|Hd].
  - rewrite drop_app_le, take_app_le by (rewrite ?length_drop; lia).
    replace (Z.to_nat off) with (Z.to_nat off' + (Z.to_nat off - Z.to_nat off'))%nat by lia.
    rewrite take_drop_commute, take_take, Nat.min_l by lia. symmetry. apply take_drop_commute.
  - rewrite app_assoc, drop_app_ge; rewrite length_app, low_bits_length, Hto; [|lia]. rewrite drop_drop. do 2 f_equal. lia.
Qed.

(** C38: A field of up to 64 bits at any offset holds what is written to it, cut to its
    width, and every field beside it keeps its value. *)
Theorem bitfield_roundtrip (p : bytes) (off n v : Z) :
  wf_bytes p → 8 * zlen p < 2 ^ 64 → field_in p off n →
  ∃ p', setUnsignedBitfield p off n v = Some p' ∧ wf_bytes p' ∧ zlen p' = zlen p ∧
    getUnsignedBitfield p' off n = Some (v mod 2 ^ n) ∧
    ∀ off' n', field_in p off' n' → off' + n' ≤ off ∨ off + n ≤ off' →
      getUnsignedBitfield p' off' n' = getUnsignedBitfield p off' n'.
Proof.
  intros Hp Hs Hin. destruct (set_field_ok p off n v) as (p' & Hset & Hw & Hl & _); [done..|].
  exists p'. split; [done|]. split; [done|]. split; [done|]. split; [by apply (get_set_field p off n v p')|].
  intros off' n' Hf Hd. by apply (set_field_frame p off n v p').
Qed.

(** ** Signed fields *)

Lemma mask64 n : 0 ≤ n < 64 → shl64 (uwrap 64 (-1)) n = Some (2 ^ 64 - 2 ^ n).
Proof.
  intros Hn. unfold shl64. replace (_ && _) with true by lia. change (uwrap 64 (-1)) with (2 ^ 64 - 1).
  rewrite Z.shiftl_mul_pow2 by lia. f_equal. unfold uwrap.
  pose proof (Z.pow_pos_nonneg 2 n ltac:(done) ltac:(lia)). assert (2 ^ n < 2 ^ 64) by (apply Z.pow_lt_mono_r; lia).
  symmetry. apply Z.mod_unique with (2 ^ n - 1); nia.
Qed.

Lemma mask_bits n i : 0 ≤ n < 64 → 0 ≤ i → Z.testbit (2 ^ 64 - 2 ^ n) i = (n <=? i) && (i <? 64).
Proof.
  intros Hn Hi. replace (2 ^ 64 - 2 ^ n) with (Z.shiftl (Z.ones (64 - n)) n).
  2:{ rewrite Z.shiftl_mul_pow2, Z.ones_equiv, <-Z.sub_1_r, Z.mul_sub_distr_r, <-Z.pow_add_r by lia.
      replace (64 - n + n) with 64 by lia. lia. }
  rewrite Z.shiftl_spec by done. destruct (Z.leb_spec n i); [|by rewrite Z.testbit_neg_r by lia].
  destruct (Z.ltb_spec i 64); [by rewrite Z.ones_spec_low by lia|by rewrite Z.ones_spec_high by lia].
Qed.

(** The sign is spread over the bits above the field. *)
Lemma lor_mask c n : 0 ≤ n < 64 → in_u 64 c → Z.lor c (2 ^ 64 - 2 ^ n) = c mod 2 ^ n + (2 ^ 64 - 2 ^ n).
Proof.
  intros Hn Hc. assert (0 < 2 ^ n) by (apply Z.pow_pos_nonneg; lia).
  pose proof (Z.add_lor_land (c mod 2 ^ n) (2 ^ 64 - 2 ^ n)) as Ha.
  assert (Hl : Z.land (c mod 2 ^ n) (2 ^ 64 - 2 ^ n) = 0).
  { apply Z.bits_inj'. intros i Hi. rewrite Z.land_spec, mask_bits, Z.bits_0 by done.
    destruct (Z.leb_spec n i); [by rewrite Z.mod_pow2_bits_high by lia|by rewrite andb_false_r]. }
  rewrite Hl, Z.add_0_r in Ha. rewrite <-Ha. apply Z.bits_inj'. intros i Hi. rewrite !Z.lor_spec, mask_bits by done.
  destruct (Z.leb_spec n i); simpl; [|by rewrite Z.mod_pow2_bits_low by lia].
  rewrite (Z.mod_pow2_bits_high c) by lia. simpl. destruct (Z.ltb_spec i 64); [apply orb_true_r|].
  by rewrite orb_false_r, (bits_high 64).
Qed.

Lemma land_unmask c n : 0 ≤ n < 64 → Z.land c (uwrap 64 (Z.lnot (2 ^ 64 - 2 ^ n))) = c mod 2 ^ n.
Proof.
  intros Hn. rewrite <-Z.land_ones by lia. f_equal. unfold Z.lnot, uwrap. rewrite Z.ones_equiv.
  assert (0 < 2 ^ n) by (apply Z.pow_pos_nonneg; lia). assert (2 ^ n < 2 ^ 64) by (apply Z.pow_lt_mono_r; lia).
  symmetry. apply Z.mod_unique with (-1); lia.
Qed.

(** The bit of the sign of a wrapped number, and what it stands for. *)
Lemma sign_bit c n : 1 ≤ n → Z.testbit c (n - 1) = (2 ^ (n - 1) <=? c mod 2 ^ n).
Proof.
  intros Hn. rewrite <-(Z.mod_pow2_bits_low c n) by lia. pose proof (Z.mod_pos_bound c (2 ^ n) ltac:(apply Z.pow_pos_nonneg; lia)) as Hm.
  set (m := c mod 2 ^ n) in *. rewrite (pow2_half n) in Hm by lia. assert (0 < 2 ^ (n - 1)) by (apply Z.pow_pos_nonneg; lia).
  destruct (Z.leb_spec (2 ^ (n - 1)) m).
  - apply (Z.testbit_true m); [lia|]. replace (m / 2 ^ (n - 1)) with 1; [done|]. apply Z.div_unique with (m - 2 ^ (n - 1)); lia.
  - apply (bits_high (n - 1)); lia.
Qed.

Lemma swrap_mod n c : 1 ≤ n → swrap n c = (let m := c mod 2 ^ n in if 2 ^ (n - 1) <=? m then m - 2 ^ n else m).
Proof.
  intros Hn. assert (0 < 2 ^ (n - 1)) by (apply Z.pow_pos_nonneg; lia). pose proof (pow2_half n ltac:(lia)) as H2.
  pose proof (Z.mod_pos_bound c (2 ^ n) ltac:(lia)) as Hm. unfold swrap. rewrite <-(Zplus_mod_idemp_l c). cbv zeta.
  set (m := c mod 2 ^ n) in *. destruct (Z.leb_spec (2 ^ (n - 1)) m).
  - rewrite <-(Z.mod_unique (m + 2 ^ (n - 1)) (2 ^ n) 1 (m - 2 ^ (n - 1))); lia.
  - rewrite Z.mod_small; lia.
Qed.

Lemma mod_mod_pow c n : 0 ≤ n ≤ 64 → uwrap 64 c mod 2 ^ n = c mod 2 ^ n.
Proof.
  intros Hn. unfold uwrap. symmetry. apply Znumtheory.Zmod_div_mod; [apply Z.pow_pos_nonneg; lia|done|].
  exists (2 ^ (64 - n)). rewrite <-Z.pow_add_r by lia. f_equal. lia.
Qed.

(** The two signed results that the code builds from the sign bit. *)
Lemma spread_sign c n :
  1 ≤ n ≤ 63 → in_u 64 c →
  swrap 64 (if Z.testbit c (n - 1) then Z.lor c (2 ^ 64 - 2 ^ n) else c mod 2 ^ n) = swrap n c.
Proof.
  intros Hn Hc. rewrite sign_bit, lor_mask, (swrap_mod n) by (done || lia). cbv zeta.
  pose proof (Z.mod_pos_bound c (2 ^ n) ltac:(apply Z.pow_pos_nonneg; lia)) as Hm.
  assert (2 ^ n ≤ 2 ^ 63) by (apply Z.pow_le_mono_r; lia). set (m := c mod 2 ^ n) in *. change (2 ^ 64) with (2 * 2 ^ 63).
  destruct (_ <=? m); [|apply swrap_id; [done|unfold in_s; change (64 - 1) with 63; lia]].
  unfold swrap. change (64 - 1) with 63. change (2 ^ 64) with (2 * 2 ^ 63).
  rewrite <-(Z.mod_unique _ (2 * 2 ^ 63) 1 (m - 2 ^ n + 2 ^ 63)); lia.
Qed.

Lemma get_signed_ok p off n u :
  1 ≤ n ≤ 63 → 0 ≤ u < 2 ^ n → getUnsignedBitfield p off n = Some u → getSignedBitfield p off n = Some (swrap n u).
Proof.
  intros Hn Hu Hget. unfold getSignedBitfield. rewrite Hget. cbn [mbind option_bind].
  assert (2 ^ n ≤ 2 ^ 63) by (apply Z.pow_le_mono_r; lia).
  rewrite (swrap_id 64 u) by (done || (unfold in_s; change (64 - 1) with 63; lia)).
  assert (Hu64 : in_u 64 u) by (unfold in_u; change (2 ^ 64) with (2 * 2 ^ 63); lia).
  rewrite (uwrap_id 64 u Hu64), shl64_1 by lia. cbn [mbind option_bind]. rewrite land_pow2 by lia.
  rewrite <-(spread_sign u n) by done. destruct (Z.testbit u (n - 1)).
  - by rewrite mask64 by lia.
  - rewrite (Z.mod_small u) by done. by rewrite swrap_id by (done || (unfold in_s; change (64 - 1) with 63; lia)).
Qed.

(** A signed field of up to 63 bits gives back every value of its range. *)
Theorem bitfield_signed_roundtrip (p : bytes) (off n v : Z) :
  wf_bytes p → 8 * zlen p < 2 ^ 64 → field_in p off n → 1 ≤ n ≤ 63 → in_s n v →
  ∃ p', setSignedBitfield p off n v = Some p' ∧ getSignedBitfield p' off n = Some v.
Proof.
  intros Hp Hs Hin Hn Hv. unfold setSignedBitfield.
  destruct (set_field_ok p off n (uwrap 64 v)) as (p' & Hset & Hw & Hl & _); [done..|]. exists p'. split; [done|].
  pose proof (get_set_field _ _ _ _ _ Hp Hs Hin Hset) as Hget. rewrite mod_mod_pow in Hget by lia.
  rewrite (get_signed_ok p' off n (v mod 2 ^ n)); [|done|apply Z.mod_pos_bound, Z.pow_pos_nonneg; lia|done].
  f_equal. change (v mod 2 ^ n) with (uwrap n v). rewrite swrap_uwrap by lia. apply swrap_id; [lia|done].
Qed.

(** ** Overflow *)

(** What BITFIELD is to do with the exact sum: the result of the check and the limit. *)
Definition overflow_spec (lo hi sum wrapped : Z) (owtype : bfoverflow) : Z * option Z :=
  if (lo <=? sum) && (sum <=? hi) then (0, None)
  else match owtype with
  | BFOVERFLOW_WRAP => (1, Some wrapped)
  | BFOVERFLOW_SAT => if sum <? lo then (-1, Some lo) else (1, Some hi)
  | BFOVERFLOW_FAIL => (if sum <? lo then -1 else 1, None)
  end.

Lemma handle_wrap_unsigned_ok value incr bits :
  0 ≤ bits < 64 → handle_wrap_unsigned value incr bits = Some (1, Some ((value + incr) mod 2 ^ bits)).
Proof.
  intros Hb. unfold handle_wrap_unsigned. rewrite mask64 by done. cbn [mbind option_bind]. rewrite land_unmask, mod_mod_pow by lia.
  do 3 f_equal. rewrite Zplus_mod, mod_mod_pow by lia. by rewrite <-Zplus_mod.
Qed.

Lemma handle_wrap_signed_ok value incr bits :
  1 ≤ bits ≤ 63 → handle_wrap_signed value incr bits = Some (1, Some (swrap bits (value + incr))).
Proof.
  intros Hb. unfold handle_wrap_signed. rewrite mask64, shl64_1 by lia. cbn [mbind option_bind]. rewrite land_pow2, land_unmask by lia.
  rewrite spread_sign by (done || apply uwrap_bound; lia). do 3 f_equal. rewrite !swrap_mod, mod_mod_pow by lia.
  by rewrite Zplus_mod, !mod_mod_pow, <-Zplus_mod by lia.
Qed.

Lemma unsigned_exact (value incr bits : Z) (owtype : bfoverflow) :
  1 ≤ bits ≤ 63 → in_u bits value → in_s 64 incr →
  checkUnsignedBitfieldOverflow value incr bits owtype
  = Some (overflow_spec 0 (2 ^ bits - 1) (value + incr) ((value + incr) mod 2 ^ bits) owtype).
Proof.
  intros Hb Hv Hi. unfold in_u, in_s in Hv, Hi. change (64 - 1) with 63 in Hi. unfold checkUnsignedBitfieldOverflow.
  assert (H63 : 2 ^ bits ≤ 2 ^ 63) by (apply Z.pow_le_mono_r; lia). assert (H2 : 2 ^ 64 = 2 * 2 ^ 63) by done.
  replace (bits =? 64) with false by lia. rewrite shl64_1 by lia. cbn [mbind option_bind].
  rewrite !swrap_uwrap, (uwrap_id 64 (2 ^ bits - 1)) by (done || (unfold in_u; lia)).
  rewrite !swrap_id by (done || (unfold in_s; change (64 - 1) with 63; lia)).
  rewrite handle_wrap_unsigned_ok by lia. unfold overflow_spec.
  destruct (Z.ltb_spec (value + incr) 0) as [Hlo|Hlo].
  - replace ((0 <=? value + incr) && _) with false by lia. replace (_ || _) with false by lia.
    replace ((incr <? 0) && _) with true by lia. by destruct owtype.
  - destruct (Z.leb_spec (value + incr) (2 ^ bits - 1)) as [Hhi|Hhi].
    + replace ((0 <=? value + incr) && _) with true by lia. replace (_ || _) with false by lia.
      by replace ((incr <? 0) && _) with false by lia.
    + replace ((0 <=? value + incr) && _) with false by lia. replace (_ || _) with true by lia. by destruct owtype.
Qed.

Lemma signed_check_ok (value incr bits : Z) (owtype : bfoverflow) :
  1 ≤ bits ≤ 64 → in_s bits value → in_s 64 incr →
  checkSignedBitfieldOverflow value incr bits owtype
  = (let lo := - 2 ^ (bits - 1) in let hi := 2 ^ (bits - 1) - 1 in
     if (lo <=? value + incr) && (value + incr <=? hi) then Some (0, None)
     else match owtype with
     | BFOVERFLOW_WRAP => handle_wrap_signed value incr bits
     | _ => Some (overflow_spec lo hi (value + incr) 0 owtype)
     end).
Proof.
  intros Hb Hv Hi. unfold in_s in Hv, Hi. change (64 - 1) with 63 in Hi. unfold checkSignedBitfieldOverflow, overflow_spec.
  replace (if bits =? 64 then Some INT64_MAX else m ← shl64 1 (bits - 1); Some (m - 1)) with (Some (2 ^ (bits - 1) - 1)).
  2:{ destruct (Z.eqb_spec bits 64) as [->|]; [done|]. by rewrite shl64_1 by lia. }
  cbn [mbind option_bind]. assert (H63 : 2 ^ (bits - 1) ≤ 2 ^ 63) by (apply Z.pow_le_mono_r; lia).
  set (h := 2 ^ (bits - 1)) in *. replace (- (h - 1) - 1) with (- h) by lia.
  assert (Hmax : bits ≠ 64 ∨ 0 ≤ value → swrap 64 (h - 1 - value) = h - 1 - value).
  { intros Hc. apply swrap_id; [done|]. unfold in_s. change (64 - 1) with 63. destruct Hc as [Hc|Hc]; [|lia].
    assert (h ≤ 2 ^ 62) by (apply Z.pow_le_mono_r; lia). change (2 ^ 63) with (2 * 2 ^ 62). lia. }
  assert (Hmin : bits ≠ 64 ∨ value < 0 → swrap 64 (- h - value) = - h - value).
  { intros Hc. apply swrap_id; [done|]. unfold in_s. change (64 - 1) with 63. destruct Hc as [Hc|Hc]; [|lia].
    assert (h ≤ 2 ^ 62) by (apply Z.pow_le_mono_r; lia). change (2 ^ 63) with (2 * 2 ^ 62). lia. }
  assert (H64 : bits = 64 → h = 2 ^ 63) by (by intros ->).
  set (mx := swrap 64 (h - 1 - value)) in *. set (mn := swrap 64 (- h - value)) in *. cbv zeta.
  destruct (Z.ltb_spec (value + incr) (- h)) as [Hlo|Hlo].
  - replace ((- h <=? value + incr) && _) with false by lia. replace (_ || _ || _) with false by lia.
    replace (_ || _ || _) with true by lia. by destruct owtype.
  - destruct (Z.leb_spec (value + incr) (h - 1)) as [Hhi|Hhi].
    + replace ((- h <=? value + incr) && _) with true by lia.
      replace (_ || _ || _) with false by lia. by replace (_ || _ || _) with false by lia.
    + replace ((- h <=? value + incr) && _) with false by lia. replace (_ || _ || _) with true by lia. by destruct owtype.
Qed.

Lemma signed_exact (value incr bits : Z) (owtype : bfoverflow) :
  1 ≤ bits ≤ 64 → bits ≤ 63 ∨ owtype ≠ BFOVERFLOW_WRAP → in_s bits value → in_s 64 incr →
  checkSignedBitfieldOverflow value incr bits owtype
  = Some (overflow_spec (- 2 ^ (bits - 1)) (2 ^ (bits - 1) - 1) (value + incr) (swrap bits (value + incr)) owtype).
Proof.
  intros Hb Hw Hv Hi. rewrite signed_check_ok by done. cbv zeta. unfold overflow_spec. destruct (_ && _); [done|].
  destruct owtype; [|done..]. destruct Hw as [Hw|Hw]; [|done]. apply handle_wrap_signed_ok; lia.
Qed.

(** C39: The checks of BITFIELD decide whether the exact sum of a value of the field and any
    64-bit increment fits in the field, and give the saturated or the wrapped sum if
    not: unsigned up to the 63 bits that the command allows, signed up to 64 bits, but
    for the wrapped sum of 64 bits. *)
Theorem bitfield_overflow_exact (value incr bits : Z) (owtype : bfoverflow) :
  in_s 64 incr →
  (1 ≤ bits ≤ 63 → in_u bits value →
   checkUnsignedBitfieldOverflow value incr bits owtype
   = Some (overflow_spec 0 (2 ^ bits - 1) (value + incr) ((value + incr) mod 2 ^ bits) owtype)) ∧
  (1 ≤ bits ≤ 64 → bits ≤ 63 ∨ owtype ≠ BFOVERFLOW_WRAP → in_s bits value →
   checkSignedBitfieldOverflow value incr bits owtype
   = Some (overflow_spec (- 2 ^ (bits - 1)) (2 ^ (bits - 1) - 1) (value + incr) (swrap bits (value + incr)) owtype)).
Proof. intros Hi. split; [intros Hb Hv; by apply unsigned_exact|intros Hb Hw Hv; apply signed_exact; assumption]. Qed.

(** ** Fields of 64 signed bits *)

(** A negative value of 64 bits is written, but reading it shifts a word by its whole
    width. *)
Lemma bitfield_i64_undefined p off v :
  wf_bytes p → 8 * zlen p < 2 ^ 64 → field_in p off 64 → in_s 64 v → v < 0 →
  ∃ p', setSignedBitfield p off 64 v = Some p' ∧ getSignedBitfield p' off 64 = None.
Proof.
  intros Hp Hs Hin Hv Hneg. unfold setSignedBitfield.
  destruct (set_field_ok p off 64 (uwrap 64 v)) as (p' & Hset & Hw & Hl & _); [done..|]. exists p'. split; [done|].
  unfold getSignedBitfield. rewrite (get_set_field _ _ _ _ _ Hp Hs Hin Hset). cbn [mbind option_bind].
  rewrite shl64_1 by lia. cbn [mbind option_bind]. rewrite land_pow2 by lia. replace (Z.testbit _ (64 - 1)) with true; [done|].
  symmetry. rewrite sign_bit, mod_mod_pow by lia. unfold in_s in Hv.
  change (uwrap 64 v mod 2 ^ 64) with (uwrap 64 (uwrap 64 v)).
  rewrite (uwrap_id 64 (uwrap 64 v)) by (by apply uwrap_bound). rewrite swrap_uwrap, swrap_id by done.
  rewrite <-(Z.mod_unique v (2 ^ 64) (-1) (v + 2 ^ 64)); change (2 ^ 64) with (2 * 2 ^ 63); change (64 - 1) with 63 in *; lia.
Qed.

(** The wrapped sum of 64 bits has no result either. *)
Lemma bitfield_i64_wrap_undefined : checkSignedBitfieldOverflow INT64_MAX 1 64 BFOVERFLOW_WRAP = None.
Proof. vm_compute. reflexivity. Qed.

(** A sum below the range that is wrapped is reported as 1, not as -1. *)
Lemma bitfield_wrap_underflow : checkUnsignedBitfieldOverflow 0 (-1) 8 BFOVERFLOW_WRAP = Some (1, Some 255).
Proof. vm_compute. reflexivity. Qed.

Lemma bitfield_roundtrip_witness :
  ∃ p', setUnsignedBitfield [0; 0] 7 5 23 = Some p' ∧ getUnsignedBitfield p' 7 5 = Some 23 ∧ p' = [0x01; 0x70].
Proof.
  destruct (bitfield_roundtrip [0; 0] 7 5 23) as (p' & Hset & _ & _ & Hget & _).
  - repeat (apply Forall_cons; split; [split; discriminate || reflexivity|]); apply Forall_nil_2.
  - reflexivity.
  - unfold field_in. vm_compute. repeat split; discriminate.
  - exists p'. split; [exact Hset|]. split; [exact Hget|]. vm_compute in Hset. injection Hset as <-. reflexivity.
Defined.

Lemma bitfield_signed_roundtrip_witness :
  ∃ p', setSignedBitfield [255; 0; 9] 3 12 (-2000) = Some p' ∧ getSignedBitfield p' 3 12 = Some (-2000).
Proof.
  apply bitfield_signed_roundtrip.
  - repeat (apply Forall_cons; split; [split; discriminate || reflexivity|]); apply Forall_nil_2.
  - reflexivity.
  - unfold field_in. vm_compute. repeat split; discriminate.
  - lia.
  - unfold in_s. vm_compute. split; [discriminate|reflexivity].
Defined.

Lemma bitfield_overflow_exact_witness :
  checkUnsignedBitfieldOverflow 250 10 8 BFOVERFLOW_WRAP = Some (1, Some 4) ∧
  checkSignedBitfieldOverflow (-100) (-100) 8 BFOVERFLOW_SAT = Some (-1, Some (-128)).
Proof.
  split.
  - destruct (bitfield_overflow_exact 250 10 8 BFOVERFLOW_WRAP) as [Hu _]; [unfold in_s; lia|].
    apply Hu; [lia|unfold in_u; lia].
  - destruct (bitfield_overflow_exact (-100) (-100) 8 BFOVERFLOW_SAT) as [_ Hs]; [unfold in_s; lia|].
    apply Hs; [lia|left; lia|unfold in_s; lia].
Defined.
End BitfieldSpec.
