(* ===== verification/Ziplist.v ===== *)
(** * ziplist.c: lists of strings and integers in one byte block

    A ziplist is its byte block [zl]; the [unsigned char *p] pointers of the
    code are offsets into it and NULL is [None].  All header fields are read
    and written through the block, as the macros of the code do. *)

From S2P Require Import Prelude.
From S2P Require Import Mem.
From S2P Require Import Util.

Module Ziplist.

Definition ZIP_END : Z := 255.
Definition ZIP_BIG_PREVLEN : Z := 254.
Definition ZIP_STR_MASK : Z := 192.
Definition ZIP_STR_06B : Z := Z.shiftl 0 6.
Definition ZIP_STR_14B : Z := Z.shiftl 1 6.
Definition ZIP_STR_32B : Z := Z.shiftl 2 6.
Definition ZIP_INT_16B : Z := Z.lor 192 (Z.shiftl 0 4).
Definition ZIP_INT_32B : Z := Z.lor 192 (Z.shiftl 1 4).
Definition ZIP_INT_64B : Z := Z.lor 192 (Z.shiftl 2 4).
Definition ZIP_INT_24B : Z := Z.lor 192 (Z.shiftl 3 4).
Definition ZIP_INT_8B : Z := 254.
Definition ZIP_INT_IMM_MASK : Z := 15.
Definition ZIP_INT_IMM_MIN : Z := 241.
Definition ZIP_INT_IMM_MAX : Z := 253.
Definition INT24_MAX : Z := 8388607.
Definition INT24_MIN : Z := - INT24_MAX - 1.
Definition UINT16_MAX : Z := 65535.
Definition UCHAR_MAX : Z := 255.

Definition ZIP_IS_STR (enc : Z) : bool := Z.land enc ZIP_STR_MASK <? ZIP_STR_MASK.

(** ** The header *)
Definition ZIPLIST_BYTES (zl : bytes) : option Z := le_combine <$> load zl 0 4.
Definition ZIPLIST_TAIL_OFFSET (zl : bytes) : option Z := le_combine <$> load zl 4 4.
Definition ZIPLIST_LENGTH (zl : bytes) : option Z := le_combine <$> load zl 8 2.

Definition set_ZIPLIST_BYTES (zl : bytes) (v : Z) : option bytes := store zl 0 (le_split 4 v).
Definition set_ZIPLIST_TAIL_OFFSET (zl : bytes) (v : Z) : option bytes := store zl 4 (le_split 4 v).
Definition set_ZIPLIST_LENGTH (zl : bytes) (v : Z) : option bytes := store zl 8 (le_split 2 v).

Definition ZIPLIST_HEADER_SIZE : Z := 4 * 2 + 2.
Definition ZIPLIST_END_SIZE : Z := 1.
Definition ZIPLIST_ENTRY_HEAD : Z := ZIPLIST_HEADER_SIZE.
Definition ZIPLIST_ENTRY_TAIL (zl : bytes) : option Z := ZIPLIST_TAIL_OFFSET zl.
Definition ZIPLIST_ENTRY_END (zl : bytes) : option Z := b ← ZIPLIST_BYTES zl; Some (b - 1).

Definition ZIPLIST_INCR_LENGTH (zl : bytes) (incr : Z) : option bytes :=
  len ← ZIPLIST_LENGTH zl;
  if len <? UINT16_MAX then set_ZIPLIST_LENGTH zl (uwrap 16 (len + incr)) else Some zl.

Record zlentry := Zlentry {
  prevrawlensize : Z; prevrawlen : Z; lensize : Z; len : Z;
  headersize : Z; encoding : Z; p : Z }.

Definition ZIP_ENTRY_ENCODING (zl : bytes) (ptr : Z) : option Z :=
  encoding ← load1 zl ptr;
  Some (if encoding <? ZIP_STR_MASK then Z.land encoding ZIP_STR_MASK else encoding).

Definition zipIntSize (encoding : Z) : option Z :=
  if encoding =? ZIP_INT_8B then Some 1
  else if encoding =? ZIP_INT_16B then Some 2
  else if encoding =? ZIP_INT_24B then Some 3
  else if encoding =? ZIP_INT_32B then Some 4
  else if encoding =? ZIP_INT_64B then Some 8
  else if (ZIP_INT_IMM_MIN <=? encoding) && (encoding <=? ZIP_INT_IMM_MAX) then Some 0
  else None.

(** The bytes [zipStoreEntryEncoding] builds in [buf]; with a NULL pointer the
    function only returns their number. *)
Definition zipEntryEncoding_buf (encoding rawlen : Z) : bytes :=
  if ZIP_IS_STR encoding then
    if rawlen <=? 63 then [Z.lor ZIP_STR_06B rawlen]
    else if rawlen <=? 16383 then
      [Z.lor ZIP_STR_14B (Z.land (Z.shiftr rawlen 8) 63); Z.land rawlen 255]
    else
      [ZIP_STR_32B; Z.land (Z.shiftr rawlen 24) 255; Z.land (Z.shiftr rawlen 16) 255;
       Z.land (Z.shiftr rawlen 8) 255; Z.land rawlen 255]
  else [encoding].

Definition zipStoreEntryEncoding_size (encoding rawlen : Z) : Z :=
  zlen (zipEntryEncoding_buf encoding rawlen).

Definition zipStoreEntryEncoding (zl : bytes) (p encoding rawlen : Z) : option (bytes * Z) :=
  let buf := zipEntryEncoding_buf encoding rawlen in
  zl ← store zl p buf; Some (zl, zlen buf).

(** Returns [(encoding, lensize, len)]. *)
Definition ZIP_DECODE_LENGTH (zl : bytes) (ptr : Z) : option (Z * Z * Z) :=
  encoding ← ZIP_ENTRY_ENCODING zl ptr;
  if encoding <? ZIP_STR_MASK then
    if encoding =? ZIP_STR_06B then
      b0 ← load1 zl ptr; Some (encoding, 1, Z.land b0 63)
    else if encoding =? ZIP_STR_14B then
      b0 ← load1 zl ptr; b1 ← load1 zl (ptr + 1);
      Some (encoding, 2, Z.lor (Z.shiftl (Z.land b0 63) 8) b1)
    else if encoding =? ZIP_STR_32B then
      b1 ← load1 zl (ptr + 1); b2 ← load1 zl (ptr + 2);
      b3 ← load1 zl (ptr + 3); b4 ← load1 zl (ptr + 4);
      Some (encoding, 5,
        uwrap 32 (Z.lor (Z.lor (Z.lor (Z.shiftl b1 24) (Z.shiftl b2 16)) (Z.shiftl b3 8)) b4))
    else None
  else
    len ← zipIntSize encoding; Some (encoding, 1, len).

Definition zipStorePrevEntryLengthLarge (zl : bytes) (p len : Z) : option (bytes * Z) :=
  zl ← store zl p [ZIP_BIG_PREVLEN];
  zl ← store zl (p + 1) (le_split 4 len);
  Some (zl, 5).

(** The size returned when the pointer is NULL, and the store otherwise; [len]
    is an [unsigned int]. *)
Definition zipStorePrevEntryLength_size (len : Z) : Z :=
  let len := uwrap 32 len in
  if len <? ZIP_BIG_PREVLEN then 1 else 5.

Definition zipStorePrevEntryLength (zl : bytes) (p len : Z) : option (bytes * Z) :=
  let len := uwrap 32 len in
  if len <? ZIP_BIG_PREVLEN then zl ← store zl p [uwrap 8 len]; Some (zl, 1)
  else zipStorePrevEntryLengthLarge zl p len.

Definition ZIP_DECODE_PREVLENSIZE (zl : bytes) (ptr : Z) : option Z :=
  b ← load1 zl ptr; Some (if b <? ZIP_BIG_PREVLEN then 1 else 5).

(** Returns [(prevlensize, prevlen)]. *)
Definition ZIP_DECODE_PREVLEN (zl : bytes) (ptr : Z) : option (Z * Z) :=
  prevlensize ← ZIP_DECODE_PREVLENSIZE zl ptr;
  if prevlensize =? 1 then b ← load1 zl ptr; Some (prevlensize, b)
  else bs ← load zl (ptr + 1) 4; Some (prevlensize, le_combine bs).

Definition zipPrevLenByteDiff (zl : bytes) (p len : Z) : option Z :=
  prevlensize ← ZIP_DECODE_PREVLENSIZE zl p;
  Some (zipStorePrevEntryLength_size len - prevlensize).

Definition zipRawEntryLength (zl : bytes) (p : Z) : option Z :=
  prevlensize ← ZIP_DECODE_PREVLENSIZE zl p;
  '(encoding, lensize, len) ← ZIP_DECODE_LENGTH zl (p + prevlensize);
  Some (uwrap 32 (prevlensize + lensize + len)).

(** The smallest encoding that holds an integer. *)
Definition zipIntEncoding (value : Z) : Z :=
  if (0 <=? value) && (value <=? 12) then ZIP_INT_IMM_MIN + value
  else if (-128 <=? value) && (value <=? 127) then ZIP_INT_8B
  else if (-32768 <=? value) && (value <=? 32767) then ZIP_INT_16B
  else if (INT24_MIN <=? value) && (value <=? INT24_MAX) then ZIP_INT_24B
  else if (-2147483648 <=? value) && (value <=? 2147483647) then ZIP_INT_32B
  else ZIP_INT_64B.

(** [Some (v, encoding)] when the string is the text of an integer. *)
Definition zipTryEncoding (entry : bytes) : option (Z * Z) :=
  if (32 <=? zlen entry) || (zlen entry =? 0) then None
  else value ← Util.string2ll entry; Some (value, zipIntEncoding value).

Definition zipSaveInteger (zl : bytes) (p value encoding : Z) : option bytes :=
  if encoding =? ZIP_INT_8B then store zl p (le_split 1 value)
  else if encoding =? ZIP_INT_16B then store zl p (le_split 2 value)
  else if encoding =? ZIP_INT_24B then
    let i32 := le_split 4 (Z.shiftl value 8) in
    bs ← load i32 1 3; store zl p bs
  else if encoding =? ZIP_INT_32B then store zl p (le_split 4 value)
  else if encoding =? ZIP_INT_64B then store zl p (le_split 8 value)
  else if (ZIP_INT_IMM_MIN <=? encoding) && (encoding <=? ZIP_INT_IMM_MAX) then Some zl
  else None.

Definition zipLoadInteger (zl : bytes) (p encoding : Z) : option Z :=
  if encoding =? ZIP_INT_8B then bs ← load zl p 1; Some (swrap 8 (le_combine bs))
  else if encoding =? ZIP_INT_16B then bs ← load zl p 2; Some (swrap 16 (le_combine bs))
  else if encoding =? ZIP_INT_32B then bs ← load zl p 4; Some (swrap 32 (le_combine bs))
  else if encoding =? ZIP_INT_24B then
    bs ← load zl p 3;
    i32 ← store (le_split 4 0) 1 bs;
    Some (Z.shiftr (swrap 32 (le_combine i32)) 8)
  else if encoding =? ZIP_INT_64B then bs ← load zl p 8; Some (swrap 64 (le_combine bs))
  else if (ZIP_INT_IMM_MIN <=? encoding) && (encoding <=? ZIP_INT_IMM_MAX)
  then Some (Z.land encoding ZIP_INT_IMM_MASK - 1)
  else None.

Definition zipEntry (zl : bytes) (p : Z) : option zlentry :=
  '(prevrawlensize, prevrawlen) ← ZIP_DECODE_PREVLEN zl p;
  '(encoding, lensize, len) ← ZIP_DECODE_LENGTH zl (p + prevrawlensize);
  Some (Zlentry prevrawlensize prevrawlen lensize len (prevrawlensize + lensize) encoding p).

(** ** Operations *)
Section Operations.
Context `{Alloc}.

Definition ziplistNew : option bytes :=
  let bytes := ZIPLIST_HEADER_SIZE + 1 in
  let zl := zmalloc bytes in
  zl ← set_ZIPLIST_BYTES zl bytes;
  zl ← set_ZIPLIST_TAIL_OFFSET zl ZIPLIST_HEADER_SIZE;
  zl ← set_ZIPLIST_LENGTH zl 0;
  store zl (bytes - 1) [ZIP_END].

(** [len] is an [unsigned int]. *)
Definition ziplistResize (zl : bytes) (len : Z) : option bytes :=
  let len := uwrap 32 len in
  let zl := zrealloc zl len in
  zl ← set_ZIPLIST_BYTES zl len;
  store zl (len - 1) [ZIP_END].

(** One round of the cascade, on state [(zl, p, curlen)]. *)
Definition cascade_body (s : bytes * Z * Z) : option (bytes * Z * Z + bytes) :=
  let '(zl, p, curlen) := s in
  b ← load1 zl p;
  if b =? ZIP_END then Some (inr zl)
  else
    cur ← zipEntry zl p;
    let rawlen := uwrap 32 (headersize cur + len cur) in
    let rawlensize := zipStorePrevEntryLength_size rawlen in
    b ← load1 zl (p + rawlen);
    if b =? ZIP_END then Some (inr zl)
    else
      next ← zipEntry zl (p + rawlen);
      if prevrawlen next =? rawlen then Some (inr zl)
      else if prevrawlensize next <? rawlensize then
        let offset := p in
        let extra := rawlensize - prevrawlensize next in
        zl ← ziplistResize zl (curlen + extra);
        let p := offset in
        let np := p + rawlen in
        let noffset := np in
        tail ← ZIPLIST_TAIL_OFFSET zl;
        zl ← (if negb (tail =? np) then set_ZIPLIST_TAIL_OFFSET zl (uwrap 32 (tail + extra))
              else Some zl);
        zl ← memmove zl (np + rawlensize) (np + prevrawlensize next)
               (curlen - noffset - prevrawlensize next - 1);
        '(zl, _) ← zipStorePrevEntryLength zl np rawlen;
        Some (inl (zl, p + rawlen, curlen + extra))
      else
        '(zl, _) ← (if rawlensize <? prevrawlensize next
                    then zipStorePrevEntryLengthLarge zl (p + rawlen) rawlen
                    else zipStorePrevEntryLength zl (p + rawlen) rawlen);
        Some (inr zl).

(** Every round moves [p] over at least one byte of the block, so its length
    bounds the number of rounds. *)
Definition __ziplistCascadeUpdate (zl : bytes) (p : Z) : option bytes :=
  curlen ← ZIPLIST_BYTES zl;
  loop (S (length zl)) cascade_body (zl, p, curlen).

(** [for (i = 0; p[0] != ZIP_END && i < num; i++) { p += ...; deleted++; }] *)
Definition skip_body (zl : bytes) (num : Z) (s : Z * Z * Z) : option (Z * Z * Z + Z * Z) :=
  let '(p, i, deleted) := s in
  b ← load1 zl p;
  if negb (b =? ZIP_END) && (i <? num) then
    l ← zipRawEntryLength zl p; Some (inl (p + l, i + 1, deleted + 1))
  else Some (inr (p, deleted)).

Definition __ziplistDelete (zl : bytes) (p num : Z) : option bytes :=
  first ← zipEntry zl p;
  '(p, deleted) ← loop (S (length zl)) (skip_body zl num) (p, 0, 0);
  let first_p := Ziplist.p first in
  let totlen := uwrap 32 (p - first_p) in
  if 0 <? totlen then
    b ← load1 zl p;
    '(zl, nextdiff) ←
      (if negb (b =? ZIP_END) then
         nextdiff ← zipPrevLenByteDiff zl p (prevrawlen first);
         let p := p - nextdiff in
         '(zl, _) ← zipStorePrevEntryLength zl p (prevrawlen first);
         tailoff ← ZIPLIST_TAIL_OFFSET zl;
         zl ← set_ZIPLIST_TAIL_OFFSET zl (uwrap 32 (tailoff - totlen));
         tail ← zipEntry zl p;
         b ← load1 zl (p + uwrap 32 (headersize tail + len tail));
         zl ← (if negb (b =? ZIP_END) then
                 tailoff ← ZIPLIST_TAIL_OFFSET zl;
                 set_ZIPLIST_TAIL_OFFSET zl (uwrap 32 (tailoff + nextdiff))
               else Some zl);
         zlbytes ← ZIPLIST_BYTES zl;
         zl ← memmove zl first_p p (zlbytes - p - 1);
         Some (zl, nextdiff)
       else
         zl ← set_ZIPLIST_TAIL_OFFSET zl (uwrap 32 (first_p - prevrawlen first));
         Some (zl, 0));
    let offset := first_p in
    zlbytes ← ZIPLIST_BYTES zl;
    zl ← ziplistResize zl (zlbytes - totlen + nextdiff);
    zl ← ZIPLIST_INCR_LENGTH zl (- deleted);
    if negb (nextdiff =? 0) then __ziplistCascadeUpdate zl offset else Some zl
  else Some zl.

Definition __ziplistInsert (zl : bytes) (p : Z) (s : bytes) : option bytes :=
  let slen := zlen s in
  curlen ← ZIPLIST_BYTES zl;
  b ← load1 zl p;
  prevlen ← (if negb (b =? ZIP_END) then snd <$> ZIP_DECODE_PREVLEN zl p
             else
               ptail ← ZIPLIST_ENTRY_TAIL zl;
               b ← load1 zl ptail;
               if negb (b =? ZIP_END) then zipRawEntryLength zl ptail else Some 0);
  let '(value, encoding) := default (123456789, 0) (zipTryEncoding s) in
  reqlen ← (match zipTryEncoding s with
            | Some (_, encoding) => zipIntSize encoding
            | None => Some slen
            end);
  let reqlen := reqlen + zipStorePrevEntryLength_size prevlen in
  let reqlen := reqlen + zipStoreEntryEncoding_size encoding slen in
  b ← load1 zl p;
  nextdiff ← (if negb (b =? ZIP_END) then zipPrevLenByteDiff zl p reqlen else Some 0);
  let forcelarge := (nextdiff =? -4) && (reqlen <? 4) in
  let nextdiff := if forcelarge then 0 else nextdiff in
  let offset := p in
  zl ← ziplistResize zl (curlen + reqlen + nextdiff);
  let p := offset in
  b ← load1 zl p;
  zl ← (if negb (b =? ZIP_END) then
          zl ← memmove zl (p + reqlen) (p - nextdiff) (curlen - offset - 1 + nextdiff);
          '(zl, _) ← (if forcelarge : bool then zipStorePrevEntryLengthLarge zl (p + reqlen) reqlen
                      else zipStorePrevEntryLength zl (p + reqlen) reqlen);
          tailoff ← ZIPLIST_TAIL_OFFSET zl;
          zl ← set_ZIPLIST_TAIL_OFFSET zl (uwrap 32 (tailoff + reqlen));
          tail ← zipEntry zl (p + reqlen);
          b ← load1 zl (p + (reqlen + headersize tail + len tail));
          if negb (b =? ZIP_END) then
            tailoff ← ZIPLIST_TAIL_OFFSET zl;
            set_ZIPLIST_TAIL_OFFSET zl (uwrap 32 (tailoff + nextdiff))
          else Some zl
        else set_ZIPLIST_TAIL_OFFSET zl (uwrap 32 p));
  zl ← (if negb (nextdiff =? 0) then __ziplistCascadeUpdate zl (p + reqlen) else Some zl);
  '(zl, n) ← zipStorePrevEntryLength zl p prevlen;
  let p := p + n in
  '(zl, n) ← zipStoreEntryEncoding zl p encoding slen;
  let p := p + n in
  zl ← (if ZIP_IS_STR encoding then store zl p s else zipSaveInteger zl p value encoding);
  ZIPLIST_INCR_LENGTH zl 1.

(** [first] and [second] are two distinct blocks (the NULL and aliasing cases
    return NULL before anything is read); the result replaces the one with more
    entries and the other is freed. *)
Definition ziplistMerge (first second : bytes) : option bytes :=
  first_bytes ← ZIPLIST_BYTES first;
  first_len ← ZIPLIST_LENGTH first;
  second_bytes ← ZIPLIST_BYTES second;
  second_len ← ZIPLIST_LENGTH second;
  let append := second_len <=? first_len in
  let '(target, target_bytes, source, source_bytes) :=
    if append then (first, first_bytes, second, second_bytes)
    else (second, second_bytes, first, first_bytes) in
  let zlbytes := first_bytes + second_bytes - ZIPLIST_HEADER_SIZE - ZIPLIST_END_SIZE in
  let zllength := first_len + second_len in
  let zllength := if zllength <? UINT16_MAX then zllength else UINT16_MAX in
  first_offset ← ZIPLIST_TAIL_OFFSET first;
  second_offset ← ZIPLIST_TAIL_OFFSET second;
  let target := zrealloc target zlbytes in
  target ←
    (if append then
       src ← load source ZIPLIST_HEADER_SIZE (source_bytes - ZIPLIST_HEADER_SIZE);
       store target (target_bytes - ZIPLIST_END_SIZE) src
     else
       target ← memmove target (source_bytes - ZIPLIST_END_SIZE) ZIPLIST_HEADER_SIZE
                  (target_bytes - ZIPLIST_HEADER_SIZE);
       src ← load source 0 (source_bytes - ZIPLIST_END_SIZE);
       store target 0 src);
  target ← set_ZIPLIST_BYTES target zlbytes;
  target ← set_ZIPLIST_LENGTH target zllength;
  target ← set_ZIPLIST_TAIL_OFFSET target
    (uwrap 32 ((first_bytes - ZIPLIST_END_SIZE) + (second_offset - ZIPLIST_HEADER_SIZE)));
  __ziplistCascadeUpdate target first_offset.

Inductive where_ := ZIPLIST_HEAD | ZIPLIST_TAIL.

Definition ziplistPush (zl s : bytes) (where_to : where_) : option bytes :=
  p ← (match where_to with
       | ZIPLIST_HEAD => Some ZIPLIST_ENTRY_HEAD
       | ZIPLIST_TAIL => ZIPLIST_ENTRY_END zl
       end);
  __ziplistInsert zl p s.

(** The two walks of [ziplistIndex]; [index--] is tested before it is
    decremented. *)
Definition index_back_body (zl : bytes) (s : Z * Z * Z) : option (Z * Z * Z + Z * Z) :=
  let '(p, prevlen, index) := s in
  if 0 <? prevlen then
    if index =? 0 then Some (inr (p, index - 1))
    else
      let p := p - prevlen in
      '(_, prevlen) ← ZIP_DECODE_PREVLEN zl p;
      Some (inl (p, prevlen, index - 1))
  else Some (inr (p, index)).

Definition index_fwd_body (zl : bytes) (s : Z * Z) : option (Z * Z + Z * Z) :=
  let '(p, index) := s in
  b ← load1 zl p;
  if negb (b =? ZIP_END) then
    if index =? 0 then Some (inr (p, index - 1))
    else l ← zipRawEntryLength zl p; Some (inl (p + l, index - 1))
  else Some (inr (p, index)).

(** The outer option is the checked access, the inner one the returned
    pointer. *)
Definition ziplistIndex (zl : bytes) (index : Z) : option (option Z) :=
  '(p, index) ←
    (if index <? 0 then
       let index := - index - 1 in
       p ← ZIPLIST_ENTRY_TAIL zl;
       b ← load1 zl p;
       if negb (b =? ZIP_END) then
         '(_, prevlen) ← ZIP_DECODE_PREVLEN zl p;
         loop (S (length zl)) (index_back_body zl) (p, prevlen, index)
       else Some (p, index)
     else loop (S (length zl)) (index_fwd_body zl) (ZIPLIST_ENTRY_HEAD, index));
  b ← load1 zl p;
  Some (if (b =? ZIP_END) || (0 <? index) then None else Some p).

Definition ziplistNext (zl : bytes) (p : Z) : option (option Z) :=
  b ← load1 zl p;
  if b =? ZIP_END then Some None
  else
    l ← zipRawEntryLength zl p;
    let p := p + l in
    b ← load1 zl p;
    Some (if b =? ZIP_END then None else Some p).

Definition ziplistPrev (zl : bytes) (p : Z) : option (option Z) :=
  b ← load1 zl p;
  if b =? ZIP_END then
    p ← ZIPLIST_ENTRY_TAIL zl;
    b ← load1 zl p;
    Some (if b =? ZIP_END then None else Some p)
  else if p =? ZIPLIST_ENTRY_HEAD then Some None
  else
    '(_, prevlen) ← ZIP_DECODE_PREVLEN zl p;
    if 0 <? prevlen then Some (Some (p - prevlen)) else None.

(** What an entry holds. *)
Inductive zval := ZStr (s : bytes) | ZInt (v : Z).

(** [Some None]: the function returned 0. *)
Definition ziplistGet (zl : bytes) (p : Z) : option (option zval) :=
  b ← load1 zl p;
  if b =? ZIP_END then Some None
  else
    entry ← zipEntry zl p;
    if ZIP_IS_STR (encoding entry) then
      s ← load zl (p + headersize entry) (len entry); Some (Some (ZStr s))
    else
      v ← zipLoadInteger zl (p + headersize entry) (encoding entry); Some (Some (ZInt v)).

Definition ziplistInsert (zl : bytes) (p : Z) (s : bytes) : option bytes :=
  __ziplistInsert zl p s.

(** Returns the new block and the updated [*p]. *)
Definition ziplistDelete (zl : bytes) (p : Z) : option (bytes * Z) :=
  let offset := p in
  zl ← __ziplistDelete zl p 1; Some (zl, offset).

Definition ziplistDeleteRange (zl : bytes) (index num : Z) : option bytes :=
  p ← ziplistIndex zl index;
  match p with
  | None => Some zl
  | Some p => __ziplistDelete zl p num
  end.

Definition ziplistCompare (zl : bytes) (p : Z) (sstr : bytes) : option bool :=
  b ← load1 zl p;
  if b =? ZIP_END then Some false
  else
    entry ← zipEntry zl p;
    if ZIP_IS_STR (encoding entry) then
      if len entry =? zlen sstr then
        s ← load zl (p + headersize entry) (zlen sstr); Some (bool_decide (s = sstr))
      else Some false
    else
      match zipTryEncoding sstr with
      | Some (sval, _) =>
          zval ← zipLoadInteger zl (p + headersize entry) (encoding entry);
          Some (zval =? sval)
      | None => Some false
      end.

(** One entry of the search, on state [(p, skipcnt, vencoding, vll)]. *)
Definition find_body (zl vstr : bytes) (skip : Z) (s : Z * Z * Z * Z) :
    option (Z * Z * Z * Z + option Z) :=
  let '(p, skipcnt, vencoding, vll) := s in
  b ← load1 zl p;
  if b =? ZIP_END then Some (inr None)
  else
    prevlensize ← ZIP_DECODE_PREVLENSIZE zl p;
    '(encoding, lensize, len) ← ZIP_DECODE_LENGTH zl (p + prevlensize);
    let q := p + prevlensize + lensize in
    if skipcnt =? 0 then
      if ZIP_IS_STR encoding then
        eq ← (if len =? zlen vstr then s ← load zl q (zlen vstr); Some (bool_decide (s = vstr))
              else Some false);
        if eq : bool then Some (inr (Some p))
        else Some (inl (q + len, skip, vencoding, vll))
      else
        let '(vencoding, vll) :=
          if vencoding =? 0 then
            match zipTryEncoding vstr with
            | Some (v, e) => (e, v)
            | None => (UCHAR_MAX, vll)
            end
          else (vencoding, vll) in
        if vencoding =? 0 then None
        else if negb (vencoding =? UCHAR_MAX) then
          ll ← zipLoadInteger zl q encoding;
          if ll =? vll then Some (inr (Some p))
          else Some (inl (q + len, skip, vencoding, vll))
        else Some (inl (q + len, skip, vencoding, vll))
    else Some (inl (q + len, skipcnt - 1, vencoding, vll)).

Definition ziplistFind (zl : bytes) (p : Z) (vstr : bytes) (skip : Z) : option (option Z) :=
  loop (S (length zl)) (find_body zl vstr skip) (p, 0, 0, 0).

Definition count_body (zl : bytes) (s : Z * Z) : option (Z * Z + Z) :=
  let '(p, len) := s in
  b ← load1 zl p;
  if negb (b =? ZIP_END) then l ← zipRawEntryLength zl p; Some (inl (p + l, len + 1))
  else Some (inr len).

(** Returns the block (the count may be stored again) and the length. *)
Definition ziplistLen (zl : bytes) : option (bytes * Z) :=
  n ← ZIPLIST_LENGTH zl;
  if n <? UINT16_MAX then Some (zl, n)
  else
    len ← loop (S (length zl)) (count_body zl) (ZIPLIST_HEADER_SIZE, 0);
    zl ← (if len <? UINT16_MAX then set_ZIPLIST_LENGTH zl len else Some zl);
    Some (zl, len).

Definition ziplistBlobLen (zl : bytes) : option Z := ZIPLIST_BYTES zl.

End Operations.
End Ziplist.
