(* ===== verification/ZiplistRepr.v ===== *)
(** * The byte layout of a ziplist and its decoding

    [lay q es] are the bytes of the entries [es] when the first one records [q]
    as the length of the entry before it.  An entry is its value and a flag that
    says whether its prevlen field takes five bytes; the code never shrinks that
    field, so the flag is part of the state.  The lemmas of this file decode one
    entry at a position of a block written as a concatenation. *)

From S2P Require Import Prelude.
From S2P Require Import Mem.
From S2P Require Import Util.
From S2P Require Import Ziplist.
Import Ziplist.

Ltac zipconst :=
  change ZIP_END with 255 in *; change ZIP_BIG_PREVLEN with 254 in *;
  change ZIP_STR_MASK with 192 in *; change ZIP_STR_06B with 0 in *;
  change ZIP_STR_14B with 64 in *; change ZIP_STR_32B with 128 in *;
  change ZIP_INT_16B with 192 in *; change ZIP_INT_32B with 208 in *;
  change ZIP_INT_64B with 224 in *; change ZIP_INT_24B with 240 in *;
  change ZIP_INT_8B with 254 in *; change ZIP_INT_IMM_MASK with 15 in *;
  change ZIP_INT_IMM_MIN with 241 in *; change ZIP_INT_IMM_MAX with 253 in *;
  change INT24_MAX with 8388607 in *; change INT24_MIN with (-8388608) in *;
  change UINT16_MAX with 65535 in *; change UCHAR_MAX with 255 in *;
  change ZIPLIST_HEADER_SIZE with 10 in *; change ZIPLIST_END_SIZE with 1 in *;
  change ZIPLIST_ENTRY_HEAD with 10 in *.

(** ** Bit operations as arithmetic *)
Lemma land_255 x : Z.land x 255 = x mod 256.
Proof. change 255 with (Z.ones 8). by rewrite Z.land_ones. Qed.
Lemma land_63 x : Z.land x 63 = x mod 64.
Proof. change 63 with (Z.ones 6). by rewrite Z.land_ones. Qed.

Lemma lor_shiftl a b k : 0 ≤ k → 0 ≤ b < 2 ^ k → Z.lor (Z.shiftl a k) b = a * 2 ^ k + b.
Proof.
  intros Hk Hb. assert (Z.land (Z.shiftl a k) b = 0) as Hz.
  { apply Z.bits_inj'. intros n Hn. rewrite Z.land_spec, Z.bits_0.
    destruct (Z.lt_ge_cases n k) as [Hlt|Hge].
    - by rewrite Z.shiftl_spec_low by lia.
    - rewrite <-(Z.mod_small b (2 ^ k)), Z.mod_pow2_bits_high by lia. apply andb_false_r. }
  by rewrite <-Z.lxor_lor, <-Z.add_nocarry_lxor, Z.shiftl_mul_pow2.
Qed.

Lemma below_64 (P : Z → bool) :
  forallb P (map Z.of_nat (seq 0 64)) = true → ∀ x, 0 ≤ x < 64 → P x = true.
Proof.
  rewrite forallb_forall. intros H x Hx. apply H. apply in_map_iff.
  exists (Z.to_nat x). rewrite Z2Nat.id by lia. split; [done|].
  apply in_seq. lia.
Qed.

Lemma str06_mask x : 0 ≤ x < 64 → Z.land x 192 = 0.
Proof. intros. apply Z.eqb_eq. by apply (below_64 (λ x, Z.land x 192 =? 0)). Qed.
Lemma str14_mask x : 0 ≤ x < 64 → Z.land (64 + x) 192 = 64.
Proof. intros. apply Z.eqb_eq. by apply (below_64 (λ x, Z.land (64 + x) 192 =? 64)). Qed.
Lemma imm_mask x : 0 ≤ x ≤ 12 → Z.land (241 + x) 15 = x + 1.
Proof.
  intros. assert (Z.land (241 + x) 15 =? x + 1 = true); [|by apply Z.eqb_eq].
  assert (∀ x, 0 ≤ x < 64 → (12 <? x) || (Z.land (241 + x) 15 =? x + 1) = true) as Hb.
  { by apply (below_64 (λ x, (12 <? x) || (Z.land (241 + x) 15 =? x + 1))). }
  specialize (Hb x ltac:(lia)). by destruct (Z.ltb_spec 12 x); [lia|].
Qed.

(** ** Values and their bytes *)
Definition int_size (n : Z) : nat :=
  if (0 <=? n) && (n <=? 12) then 0
  else if (-128 <=? n) && (n <=? 127) then 1
  else if (-32768 <=? n) && (n <=? 32767) then 2
  else if (-8388608 <=? n) && (n <=? 8388607) then 3
  else if (-2147483648 <=? n) && (n <=? 2147483647) then 4
  else 8.

(** The header bytes of a value and its data. *)
Definition zhead (v : zval) : bytes :=
  match v with
  | ZStr s => zipEntryEncoding_buf 0 (zlen s)
  | ZInt n => [zipIntEncoding n]
  end.

Definition zdata (v : zval) : bytes :=
  match v with
  | ZStr s => s
  | ZInt n => le_split (int_size n) n
  end.

Definition zbody (v : zval) : bytes := zhead v ++ zdata v.

Definition val_ok (v : zval) : Prop :=
  match v with ZStr s => zlen s < 2 ^ 32 | ZInt n => in_s 64 n end.

(** The encoding the decoder reports. *)
Definition zenc (v : zval) : Z :=
  match v with
  | ZStr s => if zlen s <=? 63 then 0 else if zlen s <=? 16383 then 64 else 128
  | ZInt n => zipIntEncoding n
  end.

Lemma zipIntEncoding_range n : 192 ≤ zipIntEncoding n ≤ 254.
Proof. unfold zipIntEncoding. zipconst. zbool; simpl; lia. Qed.

Lemma zipIntEncoding_size n : zipIntSize (zipIntEncoding n) = Some (Z.of_nat (int_size n)).
Proof.
  unfold zipIntEncoding, zipIntSize, int_size. zipconst.
  destruct ((0 <=? n) && (n <=? 12)) eqn:E.
  - apply andb_true_iff in E as [?%Z.leb_le ?%Z.leb_le].
    zbool; simpl; try lia. done.
  - repeat (case_match; try done).
Qed.

Lemma zipIntEncoding_not_str n : ZIP_IS_STR (zipIntEncoding n) = false.
Proof.
  unfold zipIntEncoding, ZIP_IS_STR. zipconst.
  destruct ((0 <=? n) && (n <=? 12)) eqn:E.
  - apply andb_true_iff in E as [?%Z.leb_le ?%Z.leb_le].
    assert (∀ x, 0 ≤ x < 64 → (12 <? x) || negb (Z.land (241 + x) 192 <? 192) = true) as Hb.
    { by apply (below_64 (λ x, (12 <? x) || negb (Z.land (241 + x) 192 <? 192))). }
    specialize (Hb n ltac:(lia)). destruct (Z.ltb_spec 12 n); [lia|].
    by destruct (_ <? 192).
  - repeat case_match; done.
Qed.

Lemma zhead_nonempty v : 1 ≤ zlen (zhead v) ≤ 5.
Proof.
  destruct v as [s|n]; simpl.
  - unfold zipEntryEncoding_buf. repeat case_match; zl.
  - zl.
Qed.

Lemma zlen_zbody v : zlen (zbody v) = zlen (zhead v) + zlen (zdata v).
Proof. apply zlen_app. Qed.

(** The header of a value decodes to its encoding and sizes. *)
Lemma decode_length_at m A v C i :
  m = A ++ zhead v ++ C → i = zlen A → val_ok v →
  ZIP_DECODE_LENGTH m i = Some (zenc v, zlen (zhead v), zlen (zdata v)).
Proof.
  intros Hm -> Hv. unfold ZIP_DECODE_LENGTH, ZIP_ENTRY_ENCODING. destruct v as [s|n]; simpl in *.
  - pose proof (zlen_nonneg s). change (2 ^ 32) with 4294967296 in Hv.
    unfold zipEntryEncoding_buf in *. change (ZIP_IS_STR 0) with true in *. simpl in Hm |- *.
    zipconst. destruct (Z.leb_spec (zlen s) 63); [|destruct (Z.leb_spec (zlen s) 16383)];
      simpl in Hm |- *.
    + rewrite (load1_at m A C (zlen s)) by done. simpl.
      destruct (Z.ltb_spec (zlen s) 192); [|lia]. rewrite str06_mask by lia. simpl.
      rewrite land_63, Z.mod_small by lia. done.
    + rewrite land_63, land_255, Z.shiftr_div_pow2 in * by lia. change (2 ^ 8) with 256 in *.
      assert (zlen s / 256 < 64) by (apply Z.div_lt_upper_bound; lia).
      assert (0 ≤ zlen s / 256) by (apply Z.div_pos; lia).
      rewrite (Z.mod_small (zlen s / 256)) in * by lia.
      change 64 with (Z.shiftl 1 6) in Hm at 1.
      rewrite lor_shiftl in Hm by (change (2 ^ 6) with 64; lia).
      change (1 * 2 ^ 6) with 64 in Hm.
      rewrite (load1_at m A (zlen s mod 256 :: C) (64 + zlen s / 256)) by done. simpl.
      destruct (Z.ltb_spec (64 + zlen s / 256) 192); [|lia].
      rewrite str14_mask by lia. simpl.
      rewrite (load1_at m (A ++ [64 + zlen s / 256]) C (zlen s mod 256))
        by (rewrite ?Hm, <-?app_assoc; done || zl). simpl.
      do 3 f_equal. rewrite land_63.
      replace ((64 + zlen s / 256) mod 64) with (zlen s / 256)
        by (Z.to_euclidean_division_equations; lia).
      rewrite lor_shiftl by (done || (apply Z.mod_pos_bound; lia)).
      change (2 ^ 8) with 256. Z.to_euclidean_division_equations; lia.
    + rewrite !land_255, !Z.shiftr_div_pow2 in Hm by lia.
      change (2 ^ 24) with 16777216 in Hm. change (2 ^ 16) with 65536 in Hm.
      change (2 ^ 8) with 256 in Hm.
      set (b1 := (zlen s / 16777216) mod 256) in *. set (b2 := (zlen s / 65536) mod 256) in *.
      set (b3 := (zlen s / 256) mod 256) in *. set (b4 := zlen s mod 256) in *.
      assert (zlen s = ((b1 * 256 + b2) * 256 + b3) * 256 + b4 ∧
        0 ≤ b1 < 256 ∧ 0 ≤ b2 < 256 ∧ 0 ≤ b3 < 256 ∧ 0 ≤ b4 < 256) as (Hs & ? & ? & ? & ?)
        by (unfold b1, b2, b3, b4; Z.to_euclidean_division_equations; lia).
      clearbody b1 b2 b3 b4.
      rewrite (load1_at m A (b1 :: b2 :: b3 :: b4 :: C) 128) by done. simpl.
      rewrite (load1_at m (A ++ [128]) (b2 :: b3 :: b4 :: C) b1 (zlen A + 1))
        by (rewrite ?Hm, <-?app_assoc; done || zl). simpl.
      rewrite (load1_at m (A ++ [128; b1]) (b3 :: b4 :: C) b2 (zlen A + 2))
        by (rewrite ?Hm, <-?app_assoc; done || zl). simpl.
      rewrite (load1_at m (A ++ [128; b1; b2]) (b4 :: C) b3 (zlen A + 3))
        by (rewrite ?Hm, <-?app_assoc; done || zl). simpl.
      rewrite (load1_at m (A ++ [128; b1; b2; b3]) C b4 (zlen A + 4))
        by (rewrite ?Hm, <-?app_assoc; done || zl). simpl.
      change (Z.land 128 192) with 128. change (zlen [_; _; _; _; _]) with 5. do 2 f_equal.
      replace (Z.shiftl b1 24) with (Z.shiftl b1 (8 + 16)) by done.
      rewrite <-(Z.shiftl_shiftl b1 8 16) by lia. rewrite <-Z.shiftl_lor.
      rewrite (lor_shiftl b1 b2 8) by done.
      replace (Z.shiftl (b1 * 2 ^ 8 + b2) 16) with (Z.shiftl (b1 * 2 ^ 8 + b2) (8 + 8)) by done.
      rewrite <-(Z.shiftl_shiftl _ 8 8) by lia. rewrite <-Z.shiftl_lor.
      rewrite (lor_shiftl _ b3 8) by done. rewrite (lor_shiftl _ b4 8) by done.
      change (2 ^ 8) with 256. rewrite <-Hs. apply uwrap_id.
      unfold in_u. change (2 ^ 32) with 4294967296. lia.
  - rewrite (load1_at m A C (zipIntEncoding n)) by done. simpl. zipconst.
    pose proof (zipIntEncoding_range n).
    destruct (Z.ltb_spec (zipIntEncoding n) 192); [lia|].
    destruct (Z.ltb_spec (zipIntEncoding n) 192); [lia|].
    rewrite zipIntEncoding_size. simpl. by rewrite zlen_le_split.
Qed.

Lemma zenc_is_str v : ZIP_IS_STR (zenc v) = match v with ZStr _ => true | ZInt _ => false end.
Proof.
  destruct v as [s|n]; simpl; [|apply zipIntEncoding_not_str].
  by destruct (zlen s <=? 63), (zlen s <=? 16383).
Qed.

(** ** Integer payloads *)
Lemma save_integer_at m A B C n i :
  m = A ++ B ++ C → i = zlen A → zlen B = Z.of_nat (int_size n) →
  zipSaveInteger m i n (zipIntEncoding n) = Some (A ++ le_split (int_size n) n ++ C).
Proof.
  intros Hm Hi. unfold zipSaveInteger, zipIntEncoding, int_size. zipconst.
  rewrite le_split_shift8, (load_at _ [0] (le_split 3 n) []) by (by rewrite ?app_nil_r).
  destruct ((0 <=? n) && (n <=? 12)) eqn:E.
  - apply andb_true_iff in E as [?%Z.leb_le ?%Z.leb_le]. intros HB. zbool; simpl; try lia.
    rewrite Hm. by rewrite (zlen_0_nil B) by lia.
  - destruct ((-128 <=? n) && (n <=? 127));
      [|destruct ((-32768 <=? n) && (n <=? 32767));
      [|destruct ((-8388608 <=? n) && (n <=? 8388607));
      [|destruct ((-2147483648 <=? n) && (n <=? 2147483647))]]]; simpl; intros HB.
    all: apply (store_at m A B (le_split _ n) C); [done|done|by rewrite zlen_le_split].
Qed.

Lemma swrap_shift8 c : swrap 32 (256 * c) = 256 * swrap 24 c.
Proof.
  unfold swrap. change (2 ^ (32 - 1)) with (256 * 2 ^ (24 - 1)). change (2 ^ 32) with (256 * 2 ^ 24).
  rewrite <-Z.mul_add_distr_l, Z.mul_mod_distr_l by done. lia.
Qed.

Lemma load_integer_at m A C n i :
  m = A ++ le_split (int_size n) n ++ C → i = zlen A → in_s 64 n →
  zipLoadInteger m i (zipIntEncoding n) = Some n.
Proof.
  intros Hm Hi Hn. unfold zipLoadInteger, zipIntEncoding. unfold int_size in Hm. zipconst.
  destruct ((0 <=? n) && (n <=? 12)) eqn:E0.
  { apply andb_true_iff in E0 as [?%Z.leb_le ?%Z.leb_le].
    zbool; simpl; try lia. rewrite imm_mask by lia. f_equal. lia. }
  destruct ((-128 <=? n) && (n <=? 127)) eqn:E1; simpl.
  { apply andb_true_iff in E1 as [?%Z.leb_le ?%Z.leb_le].
    rewrite (load_at m A (le_split 1 n) C) by (done || by rewrite zlen_le_split). simpl. f_equal.
    apply (le_signed_roundtrip 1); [lia|]. split; cbn; lia. }
  destruct ((-32768 <=? n) && (n <=? 32767)) eqn:E2; simpl.
  { apply andb_true_iff in E2 as [?%Z.leb_le ?%Z.leb_le].
    rewrite (load_at m A (le_split 2 n) C) by (done || by rewrite zlen_le_split). simpl. f_equal.
    apply (le_signed_roundtrip 2); [lia|]. split; cbn; lia. }
  destruct ((-8388608 <=? n) && (n <=? 8388607)) eqn:E3; simpl.
  { apply andb_true_iff in E3 as [?%Z.leb_le ?%Z.leb_le].
    rewrite (load_at m A (le_split 3 n) C) by (done || by rewrite zlen_le_split). simpl.
    rewrite (store_at (le_split 4 0) [0] [0; 0; 0] (le_split 3 n) []) by (done || by rewrite zlen_le_split).
    simpl. rewrite app_nil_r. f_equal.
    rewrite le_combine_cons, Z.add_0_l, swrap_shift8, Z.shiftr_div_pow2 by lia.
    change (2 ^ 8) with 256. rewrite Z.mul_comm, Z.div_mul by lia.
    apply (le_signed_roundtrip 3); [lia|]. split; cbn; lia. }
  destruct ((-2147483648 <=? n) && (n <=? 2147483647)) eqn:E4; simpl.
  { apply andb_true_iff in E4 as [?%Z.leb_le ?%Z.leb_le].
    rewrite (load_at m A (le_split 4 n) C) by (done || by rewrite zlen_le_split). simpl. f_equal.
    apply (le_signed_roundtrip 4); [lia|]. split; cbn; lia. }
  rewrite (load_at m A (le_split 8 n) C) by (done || by rewrite zlen_le_split). simpl. f_equal.
  apply (le_signed_roundtrip 8); [lia|done].
Qed.

(** ** Entries *)
Notation entry := (bool * zval)%type.

Definition psize (big : bool) : Z := if big then 5 else 1.

Definition enc_prevlen (big : bool) (q : Z) : bytes :=
  if big then 254 :: le_split 4 q else [q].

Definition ebytes (q : Z) (e : entry) : bytes := enc_prevlen e.1 q ++ zbody e.2.

Definition esize (e : entry) : Z := psize e.1 + zlen (zbody e.2).

Fixpoint lay (q : Z) (es : list entry) : bytes :=
  match es with
  | [] => []
  | e :: es => ebytes q e ++ lay (esize e) es
  end.

(** A one-byte prevlen field holds a length below 254. *)
Definition prev_ok (big : bool) (q : Z) : Prop := 0 ≤ q < 2 ^ 32 ∧ (big = false → q < 254).

Fixpoint wf_es (q : Z) (es : list entry) : Prop :=
  match es with
  | [] => True
  | e :: es => prev_ok e.1 q ∧ val_ok e.2 ∧ esize e < 2 ^ 32 ∧ wf_es (esize e) es
  end.

Lemma zlen_enc_prevlen big q : zlen (enc_prevlen big q) = psize big.
Proof. destruct big; simpl; zl. Qed.

Lemma zlen_ebytes q e : zlen (ebytes q e) = esize e.
Proof. unfold ebytes, esize. by rewrite zlen_app, zlen_enc_prevlen. Qed.

Lemma esize_pos e : 2 ≤ esize e.
Proof.
  unfold esize, psize. rewrite zlen_zbody. pose proof (zhead_nonempty e.2).
  zlen_pos. destruct e.1; lia.
Qed.

#[export] Hint Rewrite zlen_enc_prevlen zlen_ebytes : zlen.

(** Sizes depend on the entries only. *)
Fixpoint total (es : list entry) : Z :=
  match es with [] => 0 | e :: es => esize e + total es end.

Lemma zlen_lay q es : zlen (lay q es) = total es.
Proof. revert q; induction es as [|e es IH]; intros q; simpl; [done|].
  by rewrite zlen_app, zlen_ebytes, IH.
Qed.
#[export] Hint Rewrite zlen_lay : zlen.

Lemma total_nonneg es : 0 ≤ total es.
Proof. induction es as [|e es IH]; simpl; [done|]. pose proof (esize_pos e). lia. Qed.

Lemma total_app a b : total (a ++ b) = total a + total b.
Proof. induction a as [|e a IH]; simpl; lia. Qed.

(** The length recorded after a list of entries. *)
Definition last_size (q : Z) (es : list entry) : Z :=
  match last es with Some e => esize e | None => q end.

Lemma last_size_cons q e es : last_size q (e :: es) = last_size (esize e) es.
Proof.
  unfold last_size. destruct es as [|e' es]; [done|]. rewrite last_cons_cons.
  destruct (last (e' :: es)) eqn:E; [done|]. by apply last_None in E.
Qed.

Lemma lay_app q a b : lay q (a ++ b) = lay q a ++ lay (last_size q a) b.
Proof.
  revert q; induction a as [|e a IH]; intros q; [done|]. simpl.
  by rewrite IH, <-app_assoc, last_size_cons.
Qed.

Lemma wf_es_app q a b : wf_es q (a ++ b) ↔ wf_es q a ∧ wf_es (last_size q a) b.
Proof.
  revert q; induction a as [|e a IH]; intros q; simpl; [tauto|].
  rewrite IH, last_size_cons. tauto.
Qed.

Lemma prevlensize_at m A big q C i :
  m = A ++ enc_prevlen big q ++ C → i = zlen A → prev_ok big q →
  ZIP_DECODE_PREVLENSIZE m i = Some (psize big).
Proof.
  intros Hm Hi [Hq Hb]. unfold ZIP_DECODE_PREVLENSIZE, psize. zipconst. destruct big; simpl in Hm.
  - by rewrite (load1_at m A (le_split 4 q ++ C) 254) by done.
  - rewrite (load1_at m A C q) by done. simpl. specialize (Hb eq_refl).
    by destruct (Z.ltb_spec q 254); [|lia].
Qed.

Lemma prevlen_at m A big q C i :
  m = A ++ enc_prevlen big q ++ C → i = zlen A → prev_ok big q →
  ZIP_DECODE_PREVLEN m i = Some (psize big, q).
Proof.
  intros Hm Hi Hq. unfold ZIP_DECODE_PREVLEN. rewrite (prevlensize_at m A big q C) by done.
  simpl. destruct Hq as [Hq Hb]. unfold psize. destruct big; simpl in *.
  - rewrite (load_at m (A ++ [254]) (le_split 4 q) C) by (rewrite ?Hm, <-?app_assoc; done || zl).
    simpl. do 2 f_equal. by apply le_unsigned_roundtrip.
  - by rewrite (load1_at m A C q) by done.
Qed.

Definition zlentry_of (A : bytes) (q : Z) (e : entry) : zlentry :=
  Zlentry (psize e.1) q (zlen (zhead e.2)) (zlen (zdata e.2))
    (psize e.1 + zlen (zhead e.2)) (zenc e.2) (zlen A).

Lemma zipEntry_at m A q e C i :
  m = A ++ ebytes q e ++ C → i = zlen A → prev_ok e.1 q → val_ok e.2 →
  zipEntry m i = Some (zlentry_of A q e).
Proof.
  intros Hm -> Hq Hv. unfold ebytes, zbody in Hm. rewrite <-!app_assoc in Hm. unfold zipEntry.
  rewrite (prevlen_at m A e.1 q (zhead e.2 ++ zdata e.2 ++ C)) by done. simpl.
  rewrite (decode_length_at m (A ++ enc_prevlen e.1 q) e.2 (zdata e.2 ++ C))
    by (rewrite <-?app_assoc; done || zl).
  done.
Qed.

Lemma zlentry_of_size A q e :
  headersize (zlentry_of A q e) + len (zlentry_of A q e) = esize e.
Proof. simpl. unfold esize. rewrite zlen_zbody. lia. Qed.

Lemma rawlen_at m A q e C i :
  m = A ++ ebytes q e ++ C → i = zlen A → prev_ok e.1 q → val_ok e.2 → esize e < 2 ^ 32 →
  zipRawEntryLength m i = Some (esize e).
Proof.
  intros Hm -> Hq Hv Hs. unfold ebytes, zbody in Hm. rewrite <-!app_assoc in Hm.
  unfold zipRawEntryLength.
  rewrite (prevlensize_at m A e.1 q (zhead e.2 ++ zdata e.2 ++ C)) by done. simpl.
  rewrite (decode_length_at m (A ++ enc_prevlen e.1 q) e.2 (zdata e.2 ++ C))
    by (rewrite <-?app_assoc; done || zl).
  simpl. pose proof (esize_pos e). unfold esize in *. rewrite zlen_zbody in *.
  rewrite uwrap_id by (unfold in_u; lia). f_equal. lia.
Qed.

(** The first byte of an entry is never the end marker. *)
Lemma first_byte_at m A q e C i :
  m = A ++ ebytes q e ++ C → i = zlen A → prev_ok e.1 q →
  ∃ b, load1 m i = Some b ∧ b ≠ ZIP_END.
Proof.
  intros Hm -> [Hq Hb]. unfold ebytes, enc_prevlen in Hm. zipconst. destruct (e.1); simpl in Hm.
  - exists 254. split; [|done]. by eapply load1_at.
  - exists q. specialize (Hb eq_refl). split; [by eapply load1_at | lia].
Qed.
