(* ===== verification/ZiplistOps.v ===== *)
(** * The ziplist operations implement a list of values

    [zrepr zl es]: the block [zl] holds exactly the entries [es], with the
    header fields the code keeps.  The cascade update, insertion, deletion,
    merging and the traversals are verified against it. *)

From S2P Require Import Prelude.
From S2P Require Import Mem.
From S2P Require Import Util.
From S2P Require Import Ziplist.
From S2P Require Import ZiplistRepr.
Import Ziplist.

Definition hdr (b t c : Z) : bytes := le_split 4 b ++ le_split 4 t ++ le_split 2 c.

Lemma zlen_hdr b t c : zlen (hdr b t c) = 10.
Proof. unfold hdr. zl. Qed.
#[export] Hint Rewrite zlen_hdr : zlen.

Lemma get_bytes b t c r : in_u 32 b → ZIPLIST_BYTES (hdr b t c ++ r) = Some b.
Proof.
  intros Hb. unfold ZIPLIST_BYTES, hdr.
  rewrite (load_at _ [] (le_split 4 b) (le_split 4 t ++ le_split 2 c ++ r))
    by (app_eq || zl).
  simpl. f_equal. by apply le_unsigned_roundtrip.
Qed.

Lemma get_tail b t c r : in_u 32 t → ZIPLIST_TAIL_OFFSET (hdr b t c ++ r) = Some t.
Proof.
  intros Hb. unfold ZIPLIST_TAIL_OFFSET, hdr.
  rewrite (load_at _ (le_split 4 b) (le_split 4 t) (le_split 2 c ++ r)) by (app_eq || zl).
  simpl. f_equal. by apply le_unsigned_roundtrip.
Qed.

Lemma get_length b t c r : in_u 16 c → ZIPLIST_LENGTH (hdr b t c ++ r) = Some c.
Proof.
  intros Hb. unfold ZIPLIST_LENGTH, hdr.
  rewrite (load_at _ (le_split 4 b ++ le_split 4 t) (le_split 2 c) r) by (app_eq || zl).
  simpl. f_equal. by apply le_unsigned_roundtrip.
Qed.

Lemma set_bytes b b' t c r : set_ZIPLIST_BYTES (hdr b t c ++ r) b' = Some (hdr b' t c ++ r).
Proof.
  unfold set_ZIPLIST_BYTES, hdr.
  rewrite (store_at _ [] (le_split 4 b) _ (le_split 4 t ++ le_split 2 c ++ r)) by (app_eq || zl).
  app_eq.
Qed.

Lemma set_tail b t t' c r : set_ZIPLIST_TAIL_OFFSET (hdr b t c ++ r) t' = Some (hdr b t' c ++ r).
Proof.
  unfold set_ZIPLIST_TAIL_OFFSET, hdr.
  rewrite (store_at _ (le_split 4 b) (le_split 4 t) _ (le_split 2 c ++ r)) by (app_eq || zl).
  app_eq.
Qed.

Lemma set_length b t c c' r : set_ZIPLIST_LENGTH (hdr b t c ++ r) c' = Some (hdr b t c' ++ r).
Proof.
  unfold set_ZIPLIST_LENGTH, hdr.
  rewrite (store_at _ (le_split 4 b ++ le_split 4 t) (le_split 2 c) _ r) by (app_eq || zl).
  app_eq.
Qed.

(** Storing a prevlen in the space of the same width. *)
Lemma store_prevlen_large_at m A B C q i :
  m = A ++ B ++ C → i = zlen A → zlen B = 5 →
  zipStorePrevEntryLengthLarge m i q = Some (A ++ enc_prevlen true q ++ C, 5).
Proof.
  intros -> -> HB. unfold zipStorePrevEntryLengthLarge.
  destruct B as [|b0 B]; [done|]. rewrite zlen_cons in HB.
  rewrite (store_at _ A [b0] [ZIP_BIG_PREVLEN] (B ++ C)) by (app_eq || zl). simpl.
  rewrite (store_at _ (A ++ [ZIP_BIG_PREVLEN]) B (le_split 4 q) C) by (app_eq || zl).
  simpl. do 2 f_equal. app_eq.
Qed.

Lemma store_prevlen_at m A B C q i :
  m = A ++ B ++ C → i = zlen A → in_u 32 q → zlen B = psize (254 <=? q) →
  zipStorePrevEntryLength m i q = Some (A ++ enc_prevlen (254 <=? q) q ++ C, psize (254 <=? q)).
Proof.
  intros Hm Hi Hq HB. unfold zipStorePrevEntryLength. rewrite (uwrap_id 32 q) by done. zipconst.
  unfold in_u in Hq. rewrite Z.ltb_antisym. destruct (Z.leb_spec 254 q) as [Hle|Hlt]; simpl in *.
  - by apply (store_prevlen_large_at m A B C).
  - rewrite uwrap_id by (unfold in_u; change (2 ^ 8) with 256; lia).
    by rewrite (store_at m A B [q] C) by done.
Qed.

Lemma size_prevlen q : in_u 32 q → zipStorePrevEntryLength_size q = psize (254 <=? q).
Proof.
  intros Hq. unfold zipStorePrevEntryLength_size. rewrite uwrap_id by done. zipconst.
  rewrite Z.ltb_antisym. by destruct (254 <=? q).
Qed.

Section Ops.
Context `{Alloc}.

Lemma resize_at b t c (A R : bytes) n :
  in_u 32 n → zlen A + 11 ≤ n →
  ∃ J, ziplistResize (hdr b t c ++ A ++ R) n = Some (hdr n t c ++ A ++ J ++ [ZIP_END]) ∧
    zlen J = n - 11 - zlen A.
Proof.
  intros Hn Hle. unfold ziplistResize. rewrite uwrap_id by done. rewrite app_assoc.
  destruct (zrealloc_prefix (hdr b t c ++ A) R n) as (X & -> & HX); [zl|].
  destruct (list_split X (zlen X - 1)) as (J & L & -> & HJ & HL); [zl|].
  rewrite <-app_assoc, set_bytes. simpl. exists J. split; [|zl].
  rewrite (store_at _ (hdr n t c ++ A ++ J) L [ZIP_END] []) by (app_eq || zl).
  f_equal. app_eq.
Qed.

(** ** The offset of the last entry *)
Fixpoint tail_off (es : list entry) : Z :=
  match es with
  | [] => 0
  | [e] => 0
  | e :: es => esize e + tail_off es
  end.

Lemma tail_off_cons e es : es ≠ [] → tail_off (e :: es) = esize e + tail_off es.
Proof. by destruct es. Qed.

Lemma tail_off_pos es : 0 ≤ tail_off es.
Proof. induction es as [|e [|e' es] IH]; simpl in *; try lia. pose proof (esize_pos e). lia. Qed.

Lemma tail_off_le es : tail_off es ≤ total es.
Proof.
  induction es as [|e [|e' es] IH]; simpl in *; [lia| |]; pose proof (esize_pos e); lia.
Qed.

Lemma tail_off_snoc es e : tail_off (es ++ [e]) = total es.
Proof.
  induction es as [|e' es IH]; [done|]. simpl app. rewrite tail_off_cons by (by destruct es).
  simpl. lia.
Qed.

(** ** The cascade update

    [p] is at the entry [e0], whose size is what the next entry should record;
    the next entry records [q] instead. *)
Definition cascade_pre (zl : bytes) (b t c : Z) (pre : bytes) (q0 : Z) (e0 : entry) (q : Z)
    (es : list entry) : Prop :=
  zl = hdr b t c ++ pre ++ ebytes q0 e0 ++ lay q es ++ [ZIP_END] ∧
  b = zlen zl ∧ b + 4 * zlen es < 2 ^ 32 ∧
  t = 10 + zlen pre + tail_off (e0 :: es) ∧
  prev_ok e0.1 q0 ∧ val_ok e0.2 ∧ wf_es q es.

Definition cascade_post (c : Z) (b0 : Z) (pre : bytes) (q0 : Z) (e0 : entry) (es : list entry)
    (zl : bytes) : Prop :=
  ∃ es' b t, zl = hdr b t c ++ pre ++ ebytes q0 e0 ++ lay (esize e0) es' ++ [ZIP_END] ∧
    b = zlen zl ∧ b ≤ b0 + 4 * zlen es ∧ t = 10 + zlen pre + tail_off (e0 :: es') ∧
    wf_es (esize e0) es' ∧ es'.*2 = es.*2.

Lemma cascade_sizes zl b t c pre q0 e0 q es :
  cascade_pre zl b t c pre q0 e0 q es →
  b = 11 + zlen pre + esize e0 + total es ∧ 0 ≤ t < b.
Proof.
  intros (Hz & Hb & _ & Ht & _). pose proof (tail_off_pos (e0 :: es)).
  pose proof (tail_off_le (e0 :: es)). simpl total in *.
  assert (b = 11 + zlen pre + esize e0 + total es) by (rewrite Hb, Hz; zl).
  split; [done|]. zlen_pos. lia.
Qed.

(** Growing the next entry's prevlen field by four bytes. *)
Lemma cascade_grow b t c pre q0 e0 q v es :
  cascade_pre (hdr b t c ++ pre ++ ebytes q0 e0 ++ lay q ((false, v) :: es) ++ [ZIP_END])
    b t c pre q0 e0 q ((false, v) :: es) →
  254 ≤ esize e0 →
  let np := 10 + zlen pre + esize e0 in
  wp (zl ← ziplistResize
             (hdr b t c ++ pre ++ ebytes q0 e0 ++ lay q ((false, v) :: es) ++ [ZIP_END]) (b + 4);
      tail ← ZIPLIST_TAIL_OFFSET zl;
      zl ← (if negb (tail =? np) then set_ZIPLIST_TAIL_OFFSET zl (uwrap 32 (tail + 4))
            else Some zl);
      zl ← memmove zl (np + 5) (np + 1) (b - np - 1 - 1);
      '(zl, _) ← zipStorePrevEntryLength zl np (esize e0);
      Some (inl (zl, np, b + 4) : bytes * Z * Z + bytes))
     (λ r, ∃ zl t', r = inl (zl, 10 + zlen (pre ++ ebytes q0 e0), b + 4) ∧
             cascade_pre zl (b + 4) t' c (pre ++ ebytes q0 e0) (esize e0) (true, v)
               (esize (false, v)) es).
Proof.
  intros Hpre Hbig np. pose proof (cascade_sizes _ _ _ _ _ _ _ _ _ Hpre) as [Hb Ht].
  destruct Hpre as (_ & _ & Hlim & Htail & Hq0 & Hv0 & Hwf).
  simpl total in *. simpl wf_es in *. destruct Hwf as (Hq & Hv & Hs & Hwf).
  rewrite zlen_cons in Hlim.
  set (X := zbody v ++ lay (esize (false, v)) es).
  set (W := q :: X ++ [ZIP_END]).
  replace (lay q ((false, v) :: es) ++ [ZIP_END]) with W by (unfold W, X; app_eq).
  assert (zlen W = 1 + zlen X + 1) as HW by (unfold W; zl).
  assert (zlen X = total es + zlen (zbody v)) as HX by (unfold X; zl).
  assert (esize (false, v) = 1 + zlen (zbody v)) as Hes by done.
  pose proof (esize_pos e0) as Hp0. pose proof (total_nonneg es). zlen_pos.
  destruct (resize_at b t c (pre ++ ebytes q0 e0 ++ W) [] (b + 4)) as (J & Hr & HJ).
  { unfold in_u. lia. }
  { zl. }
  rewrite app_nil_r, <-!app_assoc in Hr. rewrite Hr. cbn [mbind option_bind].
  rewrite get_tail by (unfold in_u; lia). cbn [mbind option_bind].
  assert (∃ t', (if negb (t =? np) then
        set_ZIPLIST_TAIL_OFFSET
          (hdr (b + 4) t c ++ pre ++ ebytes q0 e0 ++ W ++ J ++ [ZIP_END]) (uwrap 32 (t + 4))
      else Some (hdr (b + 4) t c ++ pre ++ ebytes q0 e0 ++ W ++ J ++ [ZIP_END])) =
      Some (hdr (b + 4) t' c ++ pre ++ ebytes q0 e0 ++ W ++ J ++ [ZIP_END]) ∧
      t' = 10 + zlen (pre ++ ebytes q0 e0) + tail_off ((true, v) :: es)) as (t' & Heq & Ht').
  { rewrite tail_off_cons in Htail by done. destruct es as [|e1 es1].
    - exists t. simpl in Htail. rewrite (proj2 (Z.eqb_eq t np)) by (unfold np; lia).
      split; [done|]. simpl. zl.
    - rewrite tail_off_cons in Htail by done. exists (t + 4).
      pose proof (tail_off_pos (e1 :: es1)).
      destruct (Z.eqb_spec t np) as [He|Hne]; [unfold np in *; lia|]. simpl negb.
      rewrite uwrap_id by (unfold in_u; lia). split; [apply set_tail|].
      rewrite tail_off_cons by done. assert (esize (true, v) = 5 + zlen (zbody v)) by done. zl. }
  rewrite Heq. cbn [mbind option_bind].
  destruct (list_split (W ++ J) 5) as (P5 & B' & HPB & HP5 & HB'); [zl|].
  assert (zlen J = 3) by zl.
  erewrite (memmove_at _ (hdr (b + 4) t' c ++ pre ++ ebytes q0 e0 ++ [q]) X ([ZIP_END] ++ J ++ [ZIP_END])
    (hdr (b + 4) t' c ++ pre ++ ebytes q0 e0 ++ P5) B' [ZIP_END]).
  2: { unfold W. app_eq. }
  2: { unfold np. zl. }
  2: { unfold np. zl. }
  2: { rewrite <-!app_assoc, (app_assoc P5), <-HPB. app_eq. }
  2: { unfold np. zl. }
  2: { zl. }
  cbn [mbind option_bind].
  rewrite (store_prevlen_at _ (hdr (b + 4) t' c ++ pre ++ ebytes q0 e0) P5 (X ++ [ZIP_END]));
    [|app_eq|unfold np; zl|unfold in_u; lia|].
  2: { rewrite (proj2 (Z.leb_le 254 (esize e0))) by done. done. }
  rewrite (proj2 (Z.leb_le 254 (esize e0))) by done. cbn [mbind option_bind].
  eexists _, t'. assert (esize (true, v) = 5 + zlen (zbody v)) by done.
  split; [by rewrite zlen_app, zlen_ebytes, Z.add_assoc|]. split_and!.
  - unfold X, ebytes. app_eq.
  - autorewrite with zlen. change (psize true) with 5. lia.
  - lia.
  - done.
  - split; [lia|done].
  - done.
  - done.
Qed.

(** Rewriting the next entry's prevlen in place. *)
Lemma cascade_in_place zl b t c pre q0 e0 q big v es :
  cascade_pre zl b t c pre q0 e0 q ((big, v) :: es) →
  (big = false → esize e0 < 254) →
  wp ('(zl, _) ← (if zipStorePrevEntryLength_size (esize e0) <? psize big
                  then zipStorePrevEntryLengthLarge zl (10 + zlen pre + esize e0) (esize e0)
                  else zipStorePrevEntryLength zl (10 + zlen pre + esize e0) (esize e0));
      Some (inr zl : bytes * Z * Z + bytes))
     (λ r, match r with
           | inl _ => False
           | inr zl => cascade_post c b pre q0 e0 ((big, v) :: es) zl
           end).
Proof.
  intros Hpre Hbig. pose proof (cascade_sizes _ _ _ _ _ _ _ _ _ Hpre) as [Hb Ht].
  destruct Hpre as (-> & _ & Hlim & Htail & Hq0 & Hv0 & Hwf).
  simpl total in *. simpl wf_es in *. destruct Hwf as (Hq & Hv & Hs & Hwf).
  pose proof (esize_pos e0). pose proof (esize_pos (big, v)). pose proof (total_nonneg es).
  zlen_pos. rewrite size_prevlen by (unfold in_u; lia).
  assert (hdr b t c ++ pre ++ ebytes q0 e0 ++ lay q ((big, v) :: es) ++ [ZIP_END] =
    (hdr b t c ++ pre ++ ebytes q0 e0) ++ enc_prevlen big q ++
      (zbody v ++ lay (esize (big, v)) es ++ [ZIP_END])) as Heq
    by (simpl lay; unfold ebytes; app_eq).
  assert (∀ m, m = (hdr b t c ++ pre ++ ebytes q0 e0) ++ enc_prevlen big (esize e0) ++
      (zbody v ++ lay (esize (big, v)) es ++ [ZIP_END]) →
      cascade_post c b pre q0 e0 ((big, v) :: es) m) as Hpost.
  { intros m ->. exists ((big, v) :: es), b, t. split_and!; try done.
    - simpl lay. unfold ebytes. app_eq.
    - assert (esize (big, v) = psize big + zlen (zbody v)) by done. zl.
    - lia.
    - simpl. split_and!; try done. split; [lia|]. auto. }
  assert (10 + zlen pre + esize e0 = zlen (hdr b t c ++ pre ++ ebytes q0 e0)) as Hnp by zl.
  destruct (Z.leb_spec 254 (esize e0)) as [Hle|Hlt], big; simpl psize; simpl Z.ltb; cbv iota.
  2: { specialize (Hbig eq_refl). lia. }
  - erewrite store_prevlen_at; [|exact Heq|done|unfold in_u; lia|].
    2: { by rewrite (proj2 (Z.leb_le 254 _)), zlen_enc_prevlen by done. }
    rewrite (proj2 (Z.leb_le 254 _)) by done. simpl. by apply Hpost.
  - erewrite store_prevlen_large_at; [|exact Heq|done|by rewrite zlen_enc_prevlen]. simpl. by apply Hpost.
  - erewrite store_prevlen_at; [|exact Heq|done|unfold in_u; lia|].
    2: { by rewrite (proj2 (Z.leb_gt 254 _)), zlen_enc_prevlen by done. }
    rewrite (proj2 (Z.leb_gt 254 _)) by done. simpl. by apply Hpost.
Qed.

Lemma cascade_post_same zl b t c pre q0 e0 es :
  cascade_pre zl b t c pre q0 e0 (esize e0) es → cascade_post c b pre q0 e0 es zl.
Proof.
  intros (-> & Hb & Hlim & Ht & ? & ? & Hwf). exists es, b, t. zlen_pos. split_and!; done || lia.
Qed.

Lemma cascade_post_cons c b pre q0 e0 v es zl :
  prev_ok true (esize e0) → val_ok v → esize (true, v) < 2 ^ 32 →
  cascade_post c (b + 4) (pre ++ ebytes q0 e0) (esize e0) (true, v) es zl →
  cascade_post c b pre q0 e0 ((false, v) :: es) zl.
Proof.
  intros Hq Hv Hs (es' & b' & t' & Hz & Hb & Hle & Ht & Hwf & Hval).
  exists ((true, v) :: es'), b', t'. split_and!; try done.
  - rewrite Hz. simpl lay. app_eq.
  - zl.
  - rewrite Ht. rewrite (tail_off_cons e0) by done. zl.
  - rewrite !fmap_cons. by f_equal.
Qed.

Lemma cascade_loop fuel : ∀ es zl b t c pre q0 e0 q,
  cascade_pre zl b t c pre q0 e0 q es → (length es < fuel)%nat →
  wp (loop fuel cascade_body (zl, 10 + zlen pre, b)) (cascade_post c b pre q0 e0 es).
Proof.
  induction fuel as [|fuel IH]; intros es zl b t c pre q0 e0 q Hpre Hfuel; [lia|]. rewrite loop_S.
  pose proof (cascade_sizes _ _ _ _ _ _ _ _ _ Hpre) as [Hb Ht].
  pose proof Hpre as (Hz & _ & Hlim & Htail & Hq0 & Hv0 & Hwf).
  pose proof (esize_pos e0). pose proof (total_nonneg es). zlen_pos.
  apply wp_bind. unfold cascade_body at 1. cbv beta iota zeta.
  destruct (first_byte_at zl (hdr b t c ++ pre) q0 e0 (lay q es ++ [ZIP_END]) (10 + zlen pre))
    as (b0 & -> & Hb0); [rewrite Hz; app_eq|zl|done|].
  cbn [mbind option_bind]. rewrite (proj2 (Z.eqb_neq _ _) Hb0).
  rewrite (zipEntry_at zl (hdr b t c ++ pre) q0 e0 (lay q es ++ [ZIP_END]))
    by (done || (rewrite Hz; app_eq) || zl). cbn [mbind option_bind].
  rewrite zlentry_of_size, uwrap_id by (unfold in_u; lia).
  assert (zl = (hdr b t c ++ pre ++ ebytes q0 e0) ++ lay q es ++ [ZIP_END]) as Hz'
    by (rewrite Hz; app_eq).
  assert (10 + zlen pre + esize e0 = zlen (hdr b t c ++ pre ++ ebytes q0 e0)) as Hnp by zl.
  destruct es as [|[big v] es].
  { rewrite (load1_at zl _ [] ZIP_END _ Hz' Hnp). simpl.
    destruct Hpre as (? & ? & ? & ? & ? & ? & ?).
    apply (cascade_post_same zl b t). by split_and!. }
  simpl lay in Hz'. rewrite <-(app_assoc (ebytes q _)) in Hz'.
  simpl wf_es in Hwf. destruct Hwf as (Hq & Hv & Hs & Hwf).
  destruct (first_byte_at zl _ q (big, v) _ _ Hz' Hnp) as (b1 & -> & Hb1); [done|].
  cbn [mbind option_bind]. rewrite (proj2 (Z.eqb_neq _ _) Hb1).
  rewrite (zipEntry_at zl _ q (big, v) _ _ Hz' Hnp) by done. cbn [mbind option_bind].
  simpl prevrawlen. simpl prevrawlensize. simpl fst.
  destruct (Z.eqb_spec q (esize e0)) as [->|Hne]; [by apply (cascade_post_same zl b t)|].
  rewrite size_prevlen by (unfold in_u; lia).
  destruct (Z.ltb_spec (psize big) (psize (254 <=? esize e0))) as [Hgrow|Hnot].
  - assert (big = false ∧ 254 ≤ esize e0) as [-> Hbig].
    { destruct (Z.leb_spec 254 (esize e0)), big; simpl in Hgrow; lia || done. }
    rewrite (proj2 (Z.leb_le _ _) Hbig).
    change (psize true - psize false) with 4. change (psize true) with 5.
    change (psize false) with 1. subst zl.
    eapply wp_mono; [by apply (cascade_grow b t)|].
    intros r (zl & t' & -> & Hpre'). simpl in Hfuel |- *.
    eapply wp_mono; [eapply IH; [done|lia]|].
    intros zl'. simpl total in *. rewrite zlen_cons in Hlim. pose proof (total_nonneg es). zlen_pos.
    assert (esize (true, v) = esize (false, v) + 4)
      by (unfold esize, psize; simpl; lia).
    apply cascade_post_cons; [split; [lia|done]|done|lia].
  - rewrite <-size_prevlen by (unfold in_u; lia).
    eapply wp_mono; [eapply cascade_in_place; [done|]|].
    { intros ->. by destruct (Z.leb_spec 254 (esize e0)); [simpl in Hnot; lia|]. }
    by intros [s|r].
Qed.

Lemma zlen_total es : 2 * zlen es ≤ total es.
Proof.
  induction es as [|e es IH]; [done|]. simpl total. pose proof (esize_pos e). zl.
Qed.

Lemma cascade_wp zl b t c pre q0 e0 q es :
  cascade_pre zl b t c pre q0 e0 q es →
  wp (__ziplistCascadeUpdate zl (10 + zlen pre)) (cascade_post c b pre q0 e0 es).
Proof.
  intros Hpre. pose proof (cascade_sizes _ _ _ _ _ _ _ _ _ Hpre) as [Hb Ht].
  unfold __ziplistCascadeUpdate. pose proof Hpre as (Hz & Hlen & Hlim & _).
  pose proof (zlen_total es). pose proof (esize_pos e0). zlen_pos.
  rewrite Hz at 1. rewrite get_bytes by (unfold in_u; lia). simpl.
  eapply cascade_loop; [done|]. unfold zlen in *. lia.
Qed.

(** ** The representation *)
Definition cnt_ok (c n : Z) : Prop := 0 ≤ c ≤ 65535 ∧ (c < 65535 → c = n).

Definition zblock (c : Z) (es : list entry) : bytes :=
  hdr (11 + total es) (10 + tail_off es) c ++ lay 0 es ++ [ZIP_END].

Definition zrepr (zl : bytes) (es : list entry) : Prop :=
  ∃ c, zl = zblock c es ∧ wf_es 0 es ∧ 11 + total es < 2 ^ 32 ∧ cnt_ok c (zlen es).

Lemma zlen_zblock c es : zlen (zblock c es) = 11 + total es.
Proof. unfold zblock. zl. Qed.
Lemma zrepr_zlen zl es : zrepr zl es → zlen zl = 11 + total es.
Proof. intros (c & -> & _). apply zlen_zblock. Qed.

Lemma zrepr_new : wp ziplistNew (λ zl, zrepr zl []).
Proof.
  unfold ziplistNew. zipconst.
  assert (zlen (zmalloc (10 + 1)) = 11) as Hm by (unfold zmalloc; zl).
  destruct (list_split (zmalloc (10 + 1)) 10) as (h & e & Heq & Hh & He); [lia|].
  rewrite Heq. rewrite Hm in He. clear Hm Heq.
  destruct (list_split h 4) as (h1 & h' & -> & Hh1 & Hh'); [lia..|].
  destruct (list_split h' 4) as (h2 & h3 & -> & Hh2 & Hh3); [zl|].
  unfold set_ZIPLIST_BYTES, set_ZIPLIST_TAIL_OFFSET, set_ZIPLIST_LENGTH.
  rewrite (store_at _ [] h1 _ (h2 ++ h3 ++ e)) by (app_eq || zl). simpl.
  rewrite (store_at _ (le_split 4 11) h2 _ (h3 ++ e)) by (app_eq || zl). simpl.
  rewrite (store_at _ (le_split 4 11 ++ le_split 4 10) h3 _ e) by (app_eq || zl). simpl.
  rewrite (store_at _ (le_split 4 11 ++ le_split 4 10 ++ le_split 2 0) e _ []) by (app_eq || zl).
  exists 0. split; [|done]. unfold zblock, hdr. zipconst. app_eq.
Qed.

(** ** Insertion *)
Definition zval_of (s : bytes) : zval :=
  match zipTryEncoding s with Some (v, _) => ZInt v | None => ZStr s end.

Lemma zipTryEncoding_inv s v enc :
  zipTryEncoding s = Some (v, enc) → Util.string2ll s = Some v ∧ enc = zipIntEncoding v.
Proof.
  unfold zipTryEncoding. case_match; [done|]. intros (n & Hn & [= -> <-])%bind_Some. done.
Qed.

Lemma zval_of_ok s : zlen s < 2 ^ 32 → val_ok (zval_of s).
Proof.
  intros Hs. unfold zval_of. destruct (zipTryEncoding s) as [[v enc]|] eqn:E; [|done].
  apply zipTryEncoding_inv in E as [Hv _]. by apply Util.string2ll_sound in Hv as [? _].
Qed.

(** Writing an entry over a gap of its size, and counting it. *)
Lemma write_entry b t c P G S s prevlen :
  in_u 32 prevlen → 0 ≤ c ≤ 65535 →
  let v := zval_of s in
  zlen G = esize (254 <=? prevlen, v) →
  ('(zl, n) ← zipStorePrevEntryLength (hdr b t c ++ P ++ G ++ S) (10 + zlen P) prevlen;
   let p := 10 + zlen P + n in
   let '(value, encoding) := default (123456789, 0) (zipTryEncoding s) in
   '(zl, n) ← zipStoreEntryEncoding zl p encoding (zlen s);
   let p := p + n in
   zl ← (if ZIP_IS_STR encoding then store zl p s else zipSaveInteger zl p value encoding);
   ZIPLIST_INCR_LENGTH zl 1) =
  Some (hdr b t (if c <? 65535 then c + 1 else c) ++ P ++
        ebytes prevlen (254 <=? prevlen, v) ++ S).
Proof.
  intros Hprev Hc v HG. unfold esize in HG. simpl fst in HG. simpl snd in HG.
  rewrite zlen_zbody in HG. pose proof (zhead_nonempty v).
  destruct (list_split3 G (psize (254 <=? prevlen)) (zlen (zhead v)))
    as (G1 & G2 & G3 & -> & H1 & H2 & H3); [unfold psize; case_match; lia|lia|zl|].
  rewrite (store_prevlen_at _ (hdr b t c ++ P) G1 (G2 ++ G3 ++ S)); [|app_eq|zl|done|done].
  cbn [mbind option_bind]. cbv zeta.
  assert (∀ r, ZIPLIST_INCR_LENGTH (hdr b t c ++ r) 1 =
    Some (hdr b t (if c <? 65535 then c + 1 else c) ++ r)) as Hincr.
  { intros r. unfold ZIPLIST_INCR_LENGTH. rewrite get_length by (unfold in_u; lia). simpl.
    zipconst. destruct (Z.ltb_spec c 65535); [|done].
    rewrite uwrap_id by (unfold in_u; lia). apply set_length. }
  assert (zlen G3 = zlen (zdata v)) as H3' by zl.
  set (pb := enc_prevlen (254 <=? prevlen) prevlen).
  subst v. unfold zval_of in *. destruct (zipTryEncoding s) as [[value enc]|] eqn:Etry; simpl default.
  - destruct (zipTryEncoding_inv _ _ _ Etry) as [_ ->].
    unfold zipStoreEntryEncoding, zipEntryEncoding_buf.
    rewrite zipIntEncoding_not_str. simpl zhead in *. simpl zdata in *.
    rewrite (store_at _ (hdr b t c ++ P ++ pb) G2 _ (G3 ++ S));
      [|app_eq|unfold pb; zl|by rewrite H2]. cbn [mbind option_bind].
    rewrite (save_integer_at _ (hdr b t c ++ P ++ pb ++ [zipIntEncoding value]) G3 S);
      [|app_eq|unfold pb; zl|zl]. cbn [mbind option_bind].
    rewrite <-!app_assoc, Hincr. unfold ebytes, zbody, pb. simpl. do 2 f_equal. app_eq.
  - unfold zipStoreEntryEncoding. simpl zhead in *. simpl zdata in *.
    rewrite (store_at _ (hdr b t c ++ P ++ pb) G2 _ (G3 ++ S));
      [|app_eq|unfold pb; zl|done]. cbn [mbind option_bind].
    change (ZIP_IS_STR 0) with true. cbv iota.
    rewrite (store_at _ (hdr b t c ++ P ++ pb ++ zipEntryEncoding_buf 0 (zlen s)) G3 s S);
      [|app_eq|unfold pb; zl|done]. cbn [mbind option_bind].
    rewrite <-!app_assoc, Hincr. unfold ebytes, zbody, pb. simpl. do 2 f_equal. app_eq.
Qed.

Lemma tail_off_app es1 es2 : es2 ≠ [] → tail_off (es1 ++ es2) = total es1 + tail_off es2.
Proof.
  intros Hne. induction es1 as [|e es1 IH]; [done|]. simpl app.
  rewrite tail_off_cons by (destruct es1; [done|by destruct es1]). simpl total. lia.
Qed.

(** The end test [p[0] == ZIP_END] tells whether entries are left. *)
Lemma end_test m A q r i :
  m = A ++ lay q r ++ [ZIP_END] → i = zlen A → wf_es q r →
  ∃ b, load1 m i = Some b ∧ (b =? ZIP_END) = bool_decide (r = []).
Proof.
  intros Hm Hi Hwf. destruct r as [|e r].
  - exists ZIP_END. split; [by apply (load1_at m A [])|done].
  - simpl in Hm, Hwf. rewrite <-app_assoc in Hm.
    destruct (first_byte_at m A q e _ i Hm Hi) as (b & Hb & Hne); [tauto|].
    exists b. split; [done|]. by apply Z.eqb_neq.
Qed.

Lemma zblock_cons_at c es1 e es2 :
  zblock c (es1 ++ e :: es2) =
  (hdr (11 + total (es1 ++ e :: es2)) (10 + tail_off (es1 ++ e :: es2)) c ++ lay 0 es1) ++
    ebytes (last_size 0 es1) e ++ lay (esize e) es2 ++ [ZIP_END].
Proof. unfold zblock. rewrite lay_app. simpl. app_eq. Qed.

Lemma prev_ok_store req : in_u 32 req → prev_ok (254 <=? req) req.
Proof. intros Hr. split; [exact Hr|]. intros ?%Z.leb_gt. lia. Qed.

(** Opening a gap of [req] bytes before the entry [(big, v)], whose prevlen
    becomes [req] and whose prevlen field changes its width by [nextdiff]. *)
Lemma insert_shift c es1 big v r req :
  wf_es 0 (es1 ++ (big, v) :: r) → 2 ≤ req →
  15 + total (es1 ++ (big, v) :: r) + req < 2 ^ 32 →
  let nextdiff := psize (254 <=? req) - psize big in
  let forcelarge := (nextdiff =? -4) && (req <? 4) in
  let nextdiff := if forcelarge then 0 else nextdiff in
  let p := 10 + total es1 in
  let curlen := 11 + total (es1 ++ (big, v) :: r) in
  ∃ big' G, zlen G = req ∧ psize big' = psize big + nextdiff ∧ prev_ok big' req ∧
   (zl ← ziplistResize (zblock c (es1 ++ (big, v) :: r)) (curlen + req + nextdiff);
    b ← load1 zl p;
    (if negb (b =? ZIP_END) then
       zl ← memmove zl (p + req) (p - nextdiff) (curlen - p - 1 + nextdiff);
       '(zl, _) ← (if forcelarge : bool then zipStorePrevEntryLengthLarge zl (p + req) req
                   else zipStorePrevEntryLength zl (p + req) req);
       tailoff ← ZIPLIST_TAIL_OFFSET zl;
       zl ← set_ZIPLIST_TAIL_OFFSET zl (uwrap 32 (tailoff + req));
       tail ← zipEntry zl (p + req);
       b ← load1 zl (p + (req + headersize tail + len tail));
       if negb (b =? ZIP_END) then
         tailoff ← ZIPLIST_TAIL_OFFSET zl;
         set_ZIPLIST_TAIL_OFFSET zl (uwrap 32 (tailoff + nextdiff))
       else Some zl
     else set_ZIPLIST_TAIL_OFFSET zl (uwrap 32 p))) =
   Some (hdr (curlen + req + nextdiff) (p + req + tail_off ((big', v) :: r)) c ++
         lay 0 es1 ++ G ++ ebytes req (big', v) ++ lay (esize (big, v)) r ++ [ZIP_END]).
Proof.
  intros Hwf Hreq Hlim nd0 fl nd p curlen.
  apply wf_es_app in Hwf as [Hwf1 Hwf2]. simpl wf_es in Hwf2.
  destruct Hwf2 as (Hq & Hv & Hs & Hwf2).
  set (q := last_size 0 es1) in *.
  assert (esize (big, v) = psize big + zlen (zbody v)) as Hes by done.
  pose proof (total_nonneg es1). pose proof (total_nonneg r).
  pose proof (tail_off_pos ((big, v) :: r)) as Htp. pose proof (tail_off_le ((big, v) :: r)) as Htl.
  unfold curlen, p in *. rewrite total_app in *. simpl total in *. zlen_pos.
  pose proof (esize_pos (big, v)).
  set (big' := if fl then true else 254 <=? req).
  assert (psize big' = psize big + nd ∧ prev_ok big' req ∧ 0 ≤ req + nd ∧ nd ≤ 4) as (Hb' & Hpok & Hrn & Hnd4).
  { unfold big', nd, fl, nd0. destruct big, (Z.leb_spec 254 req), (Z.ltb_spec req 4);
      simpl; split_and!; try lia; split; (lia || intros; (done || lia)). }
  assert (psize big' = 1 ∨ psize big' = 5) as Hbs by (unfold psize; destruct big'; auto).
  unfold zblock. rewrite tail_off_app, total_app by done. simpl total.
  set (n := 11 + (total es1 + (esize (big, v) + total r)) + req + nd).
  rewrite lay_app. fold q.
  destruct (resize_at (11 + total (es1 ++ (big, v) :: r)) (10 + (total es1 + tail_off ((big, v) :: r)))
    c (lay 0 es1 ++ lay q ((big, v) :: r)) [ZIP_END] n) as (J & Hr & HJ).
  { unfold in_u, n. lia. }
  { autorewrite with zlen. simpl total. unfold n. lia. }
  autorewrite with zlen in HJ. simpl total in HJ.
  rewrite total_app in Hr. simpl total in Hr. rewrite Hr. cbn [mbind option_bind].
  set (t := 10 + (total es1 + tail_off ((big, v) :: r))).
  destruct (first_byte_at (hdr n t c ++ (lay 0 es1 ++ lay q ((big, v) :: r)) ++ J ++ [ZIP_END])
    (hdr n t c ++ lay 0 es1) q (big, v) (lay (esize (big, v)) r ++ J ++ [ZIP_END])
    (10 + total es1)) as (b0 & -> & Hb0); [simpl lay; app_eq|zl|done|].
  cbn [mbind option_bind]. rewrite (proj2 (Z.eqb_neq _ _) Hb0). cbn [negb].
  destruct (list_split (hdr n t c ++ lay 0 es1 ++ enc_prevlen big q)
    (10 + total es1 - nd)) as (H0' & Pg & HPg & HlH & HlP).
  { autorewrite with zlen. lia. }
  destruct (list_split (lay q ((big, v) :: r) ++ J) req) as (G & B' & HGB & HlG & HlB).
  { autorewrite with zlen. simpl total. lia. }
  autorewrite with zlen in HlP, HlB. simpl total in HlB.
  exists big', G. split_and!; [done..|].
  rewrite (memmove_at _ H0' (Pg ++ zbody v ++ lay (esize (big, v)) r) (J ++ [ZIP_END])
    (hdr n t c ++ lay 0 es1 ++ G) B' [ZIP_END]).
  2: { rewrite <-!app_assoc, (app_assoc H0'), <-HPg. simpl lay. unfold ebytes. simpl. app_eq. }
  2: { lia. }
  2: { autorewrite with zlen. lia. }
  2: { rewrite <-!app_assoc, (app_assoc G), <-HGB. app_eq. }
  2: { autorewrite with zlen. lia. }
  2: { autorewrite with zlen. lia. }
  cbn [mbind option_bind].
  assert ((if fl then
       zipStorePrevEntryLengthLarge ((hdr n t c ++ lay 0 es1 ++ G) ++
         (Pg ++ zbody v ++ lay (esize (big, v)) r) ++ [ZIP_END]) (10 + total es1 + req) req
      else zipStorePrevEntryLength ((hdr n t c ++ lay 0 es1 ++ G) ++
         (Pg ++ zbody v ++ lay (esize (big, v)) r) ++ [ZIP_END]) (10 + total es1 + req) req) =
      Some (hdr n t c ++ lay 0 es1 ++ G ++ ebytes req (big', v) ++ lay (esize (big, v)) r ++
            [ZIP_END], psize big')) as ->.
  { unfold big' in *. destruct fl.
    - rewrite (store_prevlen_large_at _ (hdr n t c ++ lay 0 es1 ++ G) Pg
        (zbody v ++ lay (esize (big, v)) r ++ [ZIP_END])); [|app_eq|zl|simpl in *; lia].
      unfold ebytes. do 2 f_equal. app_eq.
    - rewrite (store_prevlen_at _ (hdr n t c ++ lay 0 es1 ++ G) Pg
        (zbody v ++ lay (esize (big, v)) r ++ [ZIP_END])); [|app_eq|zl|unfold in_u; lia|lia].
      unfold ebytes. do 2 f_equal. app_eq. }
  cbn [mbind option_bind]. rewrite get_tail by (unfold in_u, t; lia). cbn [mbind option_bind].
  rewrite set_tail. cbn [mbind option_bind]. rewrite uwrap_id by (unfold in_u, t; lia).
  assert (hdr n (t + req) c ++ lay 0 es1 ++ G ++ ebytes req (big', v) ++
    lay (esize (big, v)) r ++ [ZIP_END] = (hdr n (t + req) c ++ lay 0 es1 ++ G) ++
    ebytes req (big', v) ++ lay (esize (big, v)) r ++ [ZIP_END]) as Heq by app_eq.
  rewrite (zipEntry_at _ _ req (big', v) _ (10 + total es1 + req) Heq) by (done || zl).
  cbn [mbind option_bind].
  destruct (end_test (hdr n (t + req) c ++ lay 0 es1 ++ G ++ ebytes req (big', v) ++
    lay (esize (big, v)) r ++ [ZIP_END])
    (hdr n (t + req) c ++ lay 0 es1 ++ G ++ ebytes req (big', v)) (esize (big, v)) r
    (10 + total es1 + (req + headersize (zlentry_of (hdr n (t + req) c ++ lay 0 es1 ++ G) req (big', v)) +
       len (zlentry_of (hdr n (t + req) c ++ lay 0 es1 ++ G) req (big', v)))))
    as (b1 & -> & Hb1); [app_eq| |done|].
  { pose proof (zlentry_of_size (hdr n (t + req) c ++ lay 0 es1 ++ G) req (big', v)). zl. }
  cbn [mbind option_bind]. rewrite Hb1.
  assert (esize (big', v) = esize (big, v) + nd) by (unfold esize in *; simpl in *; lia).
  destruct r as [|e r]; cbn [bool_decide decide negb].
  - simpl tail_off. do 2 f_equal. f_equal. unfold t. simpl. lia.
  - rewrite get_tail by (unfold in_u, t; lia). cbn [mbind option_bind].
    pose proof (tail_off_cons (big, v) (e :: r) ltac:(done)).
    pose proof (tail_off_cons (big', v) (e :: r) ltac:(done)).
    pose proof (tail_off_pos (e :: r)).
    rewrite set_tail, uwrap_id by (unfold in_u, t; lia). do 3 f_equal. unfold t. lia.
Qed.

Lemma last_size_snoc q es e : last_size q (es ++ [e]) = esize e.
Proof. unfold last_size. by rewrite last_snoc. Qed.

Lemma last_size_range es : 0 ≤ last_size 0 es ≤ total es.
Proof.
  destruct es as [|e es] using rev_ind; [done|]. rewrite last_size_snoc, total_app. simpl.
  pose proof (total_nonneg es). pose proof (esize_pos e). lia.
Qed.

(** Reading the tail entry of a block. *)
Lemma tail_entry c es e :
  wf_es 0 (es ++ [e]) → 11 + total (es ++ [e]) < 2 ^ 32 →
  zipRawEntryLength (zblock c (es ++ [e])) (10 + total es) = Some (esize e).
Proof.
  intros Hwf Hlim. apply wf_es_app in Hwf as [_ (Hq & Hv & Hs & _)].
  eapply rawlen_at; [apply zblock_cons_at|zl|done..].
Qed.

Lemma zblock_bytes c es : 11 + total es < 2 ^ 32 → ZIPLIST_BYTES (zblock c es) = Some (11 + total es).
Proof. intros. pose proof (total_nonneg es). apply get_bytes. unfold in_u. lia. Qed.

Lemma zblock_tail c es :
  11 + total es < 2 ^ 32 → ZIPLIST_TAIL_OFFSET (zblock c es) = Some (10 + tail_off es).
Proof.
  intros. pose proof (tail_off_pos es). pose proof (tail_off_le es).
  apply get_tail. unfold in_u. lia.
Qed.

Lemma zblock_end_test c es1 es2 :
  wf_es 0 (es1 ++ es2) →
  ∃ b, load1 (zblock c (es1 ++ es2)) (10 + total es1) = Some b ∧
    (b =? ZIP_END) = bool_decide (es2 = []).
Proof.
  intros [_ Hwf]%wf_es_app. unfold zblock.
  rewrite lay_app, <-app_assoc, (app_assoc (hdr _ _ _)).
  eapply end_test; [reflexivity|zl|done].
Qed.

(** The length recorded in front of the insertion point. *)
Lemma insert_prevlen c es1 es2 :
  wf_es 0 (es1 ++ es2) → 11 + total (es1 ++ es2) < 2 ^ 32 →
  let zl := zblock c (es1 ++ es2) in
  ∃ b, load1 zl (10 + total es1) = Some b ∧ (b =? ZIP_END) = bool_decide (es2 = []) ∧
  (if negb (b =? ZIP_END) then snd <$> ZIP_DECODE_PREVLEN zl (10 + total es1)
   else
     ptail ← ZIPLIST_ENTRY_TAIL zl;
     b ← load1 zl ptail;
     if negb (b =? ZIP_END) then zipRawEntryLength zl ptail else Some 0) =
  Some (last_size 0 es1).
Proof.
  intros Hwf Hlim zl. destruct (zblock_end_test c es1 es2 Hwf) as (b & Hb & Hend).
  exists b. split; [done|]. split; [done|].
  unfold zl. rewrite Hend. destruct es2 as [|e es2]; simpl.
  - unfold ZIPLIST_ENTRY_TAIL. rewrite zblock_tail by done. rewrite app_nil_r in *. simpl.
    destruct es1 as [|e es1 _] using rev_ind.
    + destruct (zblock_end_test c [] [] Hwf) as (b' & Hb' & Hend'). simpl in *.
      rewrite Hb'. simpl. by rewrite Hend'.
    + rewrite tail_off_snoc. destruct (zblock_end_test c es1 [e] Hwf) as (b' & Hb' & Hend').
      rewrite Hb'. simpl. rewrite Hend'. simpl. rewrite last_size_snoc. by apply tail_entry.
  - apply wf_es_app in Hwf as [_ (Hq & _)]. rewrite zblock_cons_at. unfold ebytes.
    rewrite <-(app_assoc (enc_prevlen _ _)).
    by erewrite prevlen_at; [|reflexivity|zl|].
Qed.

(** The space an entry needs. *)
Lemma insert_reqlen s value enc :
  default (123456789, 0) (zipTryEncoding s) = (value, enc) →
  ∃ n, match zipTryEncoding s with
       | Some (_, encoding) => zipIntSize encoding
       | None => Some (zlen s)
       end = Some n ∧
    n + zipStoreEntryEncoding_size enc (zlen s) = zlen (zbody (zval_of s)) ∧
    zlen (zbody (zval_of s)) ≤ zlen s + 8.
Proof.
  unfold zval_of, zipStoreEntryEncoding_size.
  destruct (zipTryEncoding s) as [[v e]|] eqn:E; simpl; intros [= <- <-]; rewrite zlen_zbody.
  - pose proof E as [_ ->]%zipTryEncoding_inv. rewrite zipIntEncoding_size.
    unfold zipEntryEncoding_buf. rewrite zipIntEncoding_not_str. eexists. split; [done|].
    assert (1 ≤ zlen s).
    { unfold zipTryEncoding in E. destruct s; [done|]. zl. }
    simpl. autorewrite with zlen. unfold int_size. repeat case_match; lia.
  - eexists. split; [done|]. pose proof (zhead_nonempty (ZStr s)) as Hh. simpl in *. lia.
Qed.

Lemma zrepr_intro zl b t c es :
  zl = hdr b t c ++ lay 0 es ++ [ZIP_END] → b = 11 + total es → t = 10 + tail_off es →
  wf_es 0 es → b < 2 ^ 32 → cnt_ok c (zlen es) → zrepr zl es.
Proof. intros -> -> -> ? ? ?. by exists c. Qed.

Lemma cnt_ok_incr c n : cnt_ok c n → 0 ≤ n → cnt_ok (if c <? 65535 then c + 1 else c) (n + 1).
Proof. unfold cnt_ok. intros. destruct (Z.ltb_spec c 65535); lia. Qed.

(** Insertion at the end of the block. *)
Lemma insert_end c es s :
  wf_es 0 es → zlen (zblock c es) + zlen s + 20 < 2 ^ 32 → cnt_ok c (zlen es) →
  wp (__ziplistInsert (zblock c es) (10 + total es) s)
     (λ zl, zrepr zl (es ++ [(254 <=? last_size 0 es, zval_of s)])).
Proof.
  intros Hwf Hlim Hc. rewrite zlen_zblock in Hlim. pose proof (total_nonneg es). zlen_pos.
  pose proof (last_size_range es).
  destruct (insert_prevlen c es []) as (b & Hb & Hend & Hprev); rewrite ?app_nil_r; [done|lia|].
  rewrite app_nil_r in *. unfold __ziplistInsert. rewrite zblock_bytes by lia. simpl mbind.
  rewrite Hb. simpl mbind. rewrite Hprev. simpl mbind.
  destruct (default _ (zipTryEncoding s)) as [value enc] eqn:Edef.
  destruct (insert_reqlen s value enc Edef) as (n & -> & Hn & Hsz). simpl mbind.
  rewrite size_prevlen by (unfold in_u; lia).
  set (e := (254 <=? last_size 0 es, zval_of s)) in *.
  assert (n + psize (254 <=? last_size 0 es) + zipStoreEntryEncoding_size enc (zlen s) = esize e)
    as -> by (unfold esize, e; simpl; lia).
  pose proof (esize_pos e). assert (esize e ≤ zlen s + 13) 
    by (unfold esize; change e.2 with (zval_of s); unfold psize; destruct e.1; lia).
  rewrite Hend. simpl bool_decide. simpl negb. cbv iota. simpl mbind. simpl andb. cbv iota.
  destruct (resize_at (11 + total es) (10 + tail_off es) c (lay 0 es ++ [ZIP_END]) []
    (11 + total es + esize e + 0)) as (J & Hr & HJ); [unfold in_u; lia|zl|].
  rewrite app_nil_r in Hr. unfold zblock at 1. rewrite Hr. simpl mbind.
  rewrite (load1_at _ (hdr (11 + total es + esize e + 0) (10 + tail_off es) c ++ lay 0 es)
    (J ++ [ZIP_END]) ZIP_END); [|app_eq|zl]. simpl mbind.
  rewrite set_tail. simpl mbind. rewrite uwrap_id by (unfold in_u; lia).
  pose proof (write_entry (11 + total es + esize e + 0) (10 + total es) c (lay 0 es)
    ([ZIP_END] ++ J) [ZIP_END] s (last_size 0 es)) as Hw.
  cbv zeta in Hw. rewrite Edef, <-!app_assoc, zlen_lay in Hw.
  rewrite <-!app_assoc. eapply wp_of_eq; [apply Hw; [unfold in_u; lia|apply Hc|fold e; zl]|].
  eapply (zrepr_intro _ _ _ _ (es ++ [e])); [rewrite lay_app; simpl; app_eq|..].
  - rewrite total_app. simpl. lia.
  - rewrite tail_off_snoc. lia.
  - apply wf_es_app. split; [done|]. simpl. split_and!; [|by apply zval_of_ok; lia|lia|done].
    apply prev_ok_store. unfold in_u. lia.
  - lia.
  - rewrite zlen_app. by apply cnt_ok_incr.
Qed.

(** After the gap is open, the entries behind it are brought up to date. *)
Lemma insert_cascade c es1 big v r big' G req nextdiff n :
  wf_es (esize (big, v)) r → val_ok v → prev_ok big' req → psize big' = psize big + nextdiff →
  zlen G = req → n = 11 + total es1 + req + esize (big', v) + total r →
  n + 4 * zlen r < 2 ^ 32 →
  let zl := hdr n (10 + total es1 + req + tail_off ((big', v) :: r)) c ++
    lay 0 es1 ++ G ++ ebytes req (big', v) ++ lay (esize (big, v)) r ++ [ZIP_END] in
  wp (if negb (nextdiff =? 0) then __ziplistCascadeUpdate zl (10 + total es1 + req) else Some zl)
     (λ zl, ∃ r' b t, zl = hdr b t c ++ lay 0 es1 ++ G ++ lay req ((big', v) :: r') ++ [ZIP_END] ∧
        b = zlen zl ∧ b ≤ n + 4 * zlen r ∧
        t = 10 + total es1 + req + tail_off ((big', v) :: r') ∧
        wf_es req ((big', v) :: r') ∧ r'.*2 = r.*2).
Proof.
  intros Hwf Hv Hpok Hps HG Hn Hlim zl.
  pose proof (total_nonneg es1). pose proof (total_nonneg r). pose proof (esize_pos (big', v)).
  zlen_pos. destruct (Z.eqb_spec nextdiff 0) as [Hz|Hnz]; simpl.
  - assert (big' = big) as -> by (unfold psize in Hps; destruct big', big; done || lia).
    exists r, n, (10 + total es1 + req + tail_off ((big, v) :: r)). unfold zl.
    split_and!; [simpl lay; app_eq|zl|lia|done|done| |lia|done|done].
    done.
  - eapply wp_mono.
    { replace (10 + total es1 + req) with (10 + zlen (lay 0 es1 ++ G)) by zl.
      eapply (cascade_wp zl n _ c (lay 0 es1 ++ G) req (big', v)). split_and!.
      - unfold zl. rewrite <-app_assoc. reflexivity.
      - unfold zl. zl.
      - done.
      - zl.
      - done.
      - done.
      - done. }
    intros zl' (r' & b & t & Hz & Hb & Hle & Ht & Hwf' & Hval).
    assert (t = 10 + total es1 + req + tail_off ((big', v) :: r')) by (rewrite Ht; zl).
    assert (esize (big', v) < 2 ^ 32).
    { rewrite Hz in Hb. autorewrite with zlen in Hb. pose proof (total_nonneg r'). lia. }
    exists r', b, t. split_and!; try done. rewrite Hz. simpl lay. app_eq.
Qed.

Lemma insert_mid c es1 big v r s :
  let es2 := (big, v) :: r in
  wf_es 0 (es1 ++ es2) → zlen (zblock c (es1 ++ es2)) + zlen s + 20 + 4 * zlen es2 < 2 ^ 32 →
  cnt_ok c (zlen (es1 ++ es2)) →
  wp (__ziplistInsert (zblock c (es1 ++ es2)) (10 + total es1) s)
     (λ zl, ∃ es2', zrepr zl (es1 ++ (254 <=? last_size 0 es1, zval_of s) :: es2') ∧
                    es2'.*2 = es2.*2).
Proof.
  intros es2 Hwf Hlim Hc. rewrite zlen_zblock in Hlim. pose proof (total_nonneg (es1 ++ es2)).
  pose proof (last_size_range es1). pose proof (total_nonneg es1). pose proof (total_nonneg es2).
  assert (zlen es2 = 1 + zlen r) as Hl2 by (unfold es2; zl). zlen_pos.
  pose proof (total_app es1 es2) as Htot.
  destruct (insert_prevlen c es1 es2) as (b & Hb & Hend & Hprev); [done|lia|].
  unfold __ziplistInsert. rewrite zblock_bytes by lia. simpl mbind.
  rewrite Hb. simpl mbind. rewrite Hprev. simpl mbind.
  destruct (default _ (zipTryEncoding s)) as [value enc] eqn:Edef.
  destruct (insert_reqlen s value enc Edef) as (n & -> & Hn & Hsz). simpl mbind.
  rewrite size_prevlen by (unfold in_u; lia).
  set (e := (254 <=? last_size 0 es1, zval_of s)) in *.
  assert (n + psize (254 <=? last_size 0 es1) + zipStoreEntryEncoding_size enc (zlen s) = esize e)
    as -> by (unfold esize, e; simpl; lia).
  pose proof (esize_pos e). assert (esize e ≤ zlen s + 13)
    by (unfold esize; change e.2 with (zval_of s); unfold psize; destruct e.1; lia).
  rewrite Hend. simpl bool_decide. simpl negb. cbv iota.
  assert (zipPrevLenByteDiff (zblock c (es1 ++ es2)) (10 + total es1) (esize e) =
    Some (psize (254 <=? esize e) - psize big)) as ->.
  { unfold zipPrevLenByteDiff. rewrite size_prevlen by (unfold in_u; lia).
    apply wf_es_app in Hwf as [_ (Hq & _)].
    unfold es2. rewrite zblock_cons_at. unfold ebytes. rewrite <-(app_assoc (enc_prevlen _ _)).
    by erewrite prevlensize_at; [|reflexivity|zl|]. }
  simpl mbind.
  destruct (insert_shift c es1 big v r (esize e)) as (big' & G & HG & Hps & Hpok & Hshift);
    [done|done|fold es2; lia|].
  cbv zeta in Hshift. fold es2 in Hshift.
  set (nd := if _ && _ then 0 else _) in *.
  erewrite bind_prefix; [|exact Hshift]. apply wp_bind.
  assert (esize (big', v) = esize (big, v) + nd) as Hes' by (unfold esize; simpl; lia).
  assert (total es2 = esize (big, v) + total r) as Ht2 by done.
  assert (nd ≤ 4) as Hnd by (unfold psize in Hps; destruct big', big; lia).
  apply wf_es_app in Hwf as [Hwf1 (_ & Hv & _ & Hwf2)].
  eapply wp_mono.
  { eapply (insert_cascade c es1 big v r big' G (esize e) nd);
      [done|done|done|done|done|lia|lia]. }
  intros zl (r' & b' & t & -> & Hb' & Hle & Ht & Hwf' & Hval).
  autorewrite with zlen in Hb'. pose proof (write_entry b' t c (lay 0 es1) G
    (lay (esize e) ((big', v) :: r') ++ [ZIP_END]) s (last_size 0 es1)) as Hw.
  cbv zeta in Hw. rewrite Edef, zlen_lay in Hw.
  eapply wp_of_eq; [apply Hw; [unfold in_u; lia|apply Hc|done]|].
  exists ((big', v) :: r'). split.
  - eapply (zrepr_intro _ b' t); [rewrite lay_app; simpl lay; app_eq|..].
    + rewrite total_app. change (total (e :: (big', v) :: r')) with (esize e + total ((big', v) :: r')).
      lia.
    + rewrite tail_off_app, tail_off_cons by done. lia.
    + apply wf_es_app. split; [done|]. split_and!; [|apply zval_of_ok; lia|lia|apply Hwf'].
      apply prev_ok_store. unfold in_u. lia.
    + lia.
    + assert (zlen r' = zlen r) as Hlr.
      { rewrite <-(zlen_fmap snd r'), <-(zlen_fmap snd r). by rewrite Hval. }
      replace (zlen (es1 ++ e :: (big', v) :: r')) with (zlen (es1 ++ es2) + 1)
        by (unfold es2; autorewrite with zlen; lia).
      by apply cnt_ok_incr.
  - unfold es2. rewrite !fmap_cons. by f_equal.
Qed.
End Ops.
