(* ===== verification/ZiplistWalk.v ===== *)
(** * Reading a ziplist: cursors, lookups and counting

    Positions are the offsets [off es1] of the entries of the represented list
    [es1 ++ es2].  The walks of [ziplistIndex], [ziplistNext], [ziplistPrev],
    [ziplistFind] and [ziplistLen] are related to that list. *)

From S2P Require Import Prelude.
From S2P Require Import Mem.
From S2P Require Import Util.
From S2P Require Import Ziplist.
From S2P Require Import ZiplistRepr.
From S2P Require Import ZiplistOps.
Import Ziplist.

(** The offset of the entry that follows [es]. *)
Definition off (es : list entry) : Z := 10 + total es.

Lemma off_snoc es e : off (es ++ [e]) = off es + esize e.
Proof. unfold off. rewrite total_app. simpl. lia. Qed.

Lemma off_end_test c es1 es2 :
  wf_es 0 (es1 ++ es2) →
  ∃ b, load1 (zblock c (es1 ++ es2)) (off es1) = Some b ∧
    (b =? ZIP_END) = bool_decide (es2 = []).
Proof. apply zblock_end_test. Qed.

(** ** Decoding at a position of a well-formed block *)
Section Decode.
Context (c : Z) (es1 : list entry) (e : entry) (es2 : list entry).
Context (Hwf : wf_es 0 (es1 ++ e :: es2)).
Context (Hlim : 11 + total (es1 ++ e :: es2) < 2 ^ 32).
Notation zl := (zblock c (es1 ++ e :: es2)).

Lemma wf_mid : prev_ok e.1 (last_size 0 es1) ∧ val_ok e.2 ∧ esize e < 2 ^ 32.
Proof. apply wf_es_app in Hwf as [_ (? & ? & ? & _)]. done. Qed.

Lemma block_rawlen : zipRawEntryLength zl (off es1) = Some (esize e).
Proof.
  destruct wf_mid as (? & ? & ?). eapply rawlen_at; [apply zblock_cons_at|unfold off; zl|done..].
Qed.

Lemma block_entry :
  ∃ A, zlen A = off es1 ∧ zl = A ++ ebytes (last_size 0 es1) e ++ lay (esize e) es2 ++ [ZIP_END] ∧
    zipEntry zl (off es1) = Some (zlentry_of A (last_size 0 es1) e).
Proof.
  destruct wf_mid as (? & ? & ?). eexists. split; [|split; [apply zblock_cons_at|]].
  - unfold off. zl.
  - eapply zipEntry_at; [apply zblock_cons_at|unfold off; zl|done..].
Qed.

Lemma block_prevlen :
  ZIP_DECODE_PREVLEN zl (off es1) = Some (psize e.1, last_size 0 es1).
Proof.
  destruct wf_mid as (? & ? & ?). rewrite zblock_cons_at. unfold ebytes.
  rewrite <-(app_assoc (enc_prevlen _ _)).
  eapply prevlen_at; [reflexivity|unfold off; zl|done].
Qed.

Lemma block_prevlensize : ZIP_DECODE_PREVLENSIZE zl (off es1) = Some (psize e.1).
Proof.
  destruct wf_mid as (? & ? & ?). rewrite zblock_cons_at. unfold ebytes.
  rewrite <-(app_assoc (enc_prevlen _ _)).
  eapply prevlensize_at; [reflexivity|unfold off; zl|done].
Qed.

Lemma block_decode_length :
  ZIP_DECODE_LENGTH zl (off es1 + psize e.1) =
  Some (zenc e.2, zlen (zhead e.2), zlen (zdata e.2)).
Proof.
  destruct wf_mid as (? & ? & ?). destruct block_entry as (A & HA & -> & _).
  eapply (decode_length_at _ (A ++ enc_prevlen e.1 (last_size 0 es1)) _
    (zdata e.2 ++ lay (esize e) es2 ++ [ZIP_END])); [|zl|done].
  unfold ebytes, zbody. app_eq.
Qed.

(** The payload of the entry. *)
Lemma block_data :
  load zl (off es1 + (psize e.1 + zlen (zhead e.2))) (zlen (zdata e.2)) = Some (zdata e.2).
Proof.
  destruct block_entry as (A & HA & -> & _).
  eapply (load_at _ (A ++ enc_prevlen e.1 (last_size 0 es1) ++ zhead e.2) _
    (lay (esize e) es2 ++ [ZIP_END])); [|zl|done].
  unfold ebytes, zbody. app_eq.
Qed.

Lemma block_load_integer n :
  e.2 = ZInt n →
  zipLoadInteger zl (off es1 + (psize e.1 + zlen (zhead e.2))) (zenc e.2) = Some n.
Proof.
  intros He. destruct wf_mid as (_ & Hv & _). destruct block_entry as (A & HA & -> & _).
  rewrite He in *. simpl in Hv.
  eapply (load_integer_at _ (A ++ enc_prevlen e.1 (last_size 0 es1) ++ zhead e.2) 
    (lay (esize e) es2 ++ [ZIP_END])); [|rewrite He; zl|done].
  unfold ebytes, zbody. rewrite He. simpl zdata. app_eq.
Qed.
End Decode.

(** What [ziplistGet] returns at an entry and at the end. *)
Lemma get_at c es1 e es2 :
  wf_es 0 (es1 ++ e :: es2) →
  ziplistGet (zblock c (es1 ++ e :: es2)) (off es1) = Some (Some e.2).
Proof.
  intros Hwf. unfold ziplistGet.
  destruct (off_end_test c es1 (e :: es2) Hwf) as (b & Hb & Hend).
  rewrite Hb. simpl mbind. rewrite Hend. simpl bool_decide. cbv iota.
  destruct (block_entry c es1 e es2 Hwf) as (A & HA & _ & ->). simpl mbind. simpl encoding.
  simpl headersize. simpl len. rewrite zenc_is_str. destruct e.2 as [s|n] eqn:E.
  - pose proof (block_data c es1 e es2 Hwf) as Hd. rewrite E in Hd. simpl in Hd |- *. by rewrite Hd.
  - pose proof (block_load_integer c es1 e es2 Hwf n E) as Hd. rewrite E in Hd. by rewrite Hd.
Qed.

Lemma get_end c es : wf_es 0 es → ziplistGet (zblock c es) (off es) = Some None.
Proof.
  intros Hwf. unfold ziplistGet. destruct (off_end_test c es []) as (b & Hb & Hend);
    rewrite app_nil_r in *; [done|]. rewrite Hb. simpl. by rewrite Hend.
Qed.

(** ** Moving the cursor *)
Lemma next_end c es : wf_es 0 es → ziplistNext (zblock c es) (off es) = Some None.
Proof.
  intros Hwf. unfold ziplistNext. destruct (off_end_test c es []) as (b & Hb & Hend);
    rewrite app_nil_r in *; [done|]. rewrite Hb. simpl. by rewrite Hend.
Qed.

Lemma next_at c es1 e es2 :
  wf_es 0 (es1 ++ e :: es2) →
  ziplistNext (zblock c (es1 ++ e :: es2)) (off es1) =
  Some (if bool_decide (es2 = []) then None else Some (off (es1 ++ [e]))).
Proof.
  intros Hwf. unfold ziplistNext.
  destruct (off_end_test c es1 (e :: es2) Hwf) as (b & Hb & Hend).
  rewrite Hb. simpl mbind. rewrite Hend. simpl bool_decide. cbv iota.
  rewrite block_rawlen by done. simpl mbind. rewrite <-off_snoc.
  rewrite (cons_middle e es1 es2), (app_assoc es1) in Hwf |- *.
  destruct (off_end_test c (es1 ++ [e]) es2 Hwf) as (b' & Hb' & Hend').
  rewrite Hb'. simpl mbind. by rewrite Hend'.
Qed.

Lemma prev_first c e es :
  wf_es 0 (e :: es) → ziplistPrev (zblock c (e :: es)) (off []) = Some None.
Proof.
  intros Hwf. unfold ziplistPrev. destruct (off_end_test c [] (e :: es) Hwf) as (b & Hb & Hend).
  simpl app in Hb. rewrite Hb. simpl. by rewrite Hend.
Qed.

Lemma prev_at c es1 e0 e es2 :
  wf_es 0 (es1 ++ e0 :: e :: es2) →
  ziplistPrev (zblock c (es1 ++ e0 :: e :: es2)) (off (es1 ++ [e0])) = Some (Some (off es1)).
Proof.
  intros Hwf. rewrite (cons_middle e0 es1 (e :: es2)), (app_assoc es1) in Hwf |- *.
  unfold ziplistPrev. destruct (off_end_test c (es1 ++ [e0]) (e :: es2) Hwf) as (b & Hb & Hend).
  rewrite Hb. simpl mbind. rewrite Hend. simpl bool_decide. cbv iota.
  pose proof (total_nonneg es1). pose proof (esize_pos e0).
  rewrite (proj2 (Z.eqb_neq _ _)) by (zipconst; rewrite off_snoc; unfold off; lia).
  rewrite block_prevlen by done. simpl mbind. rewrite last_size_snoc, off_snoc.
  rewrite (proj2 (Z.ltb_lt _ _)) by lia. do 2 f_equal. lia.
Qed.

Lemma prev_end c es e :
  wf_es 0 (es ++ [e]) → 11 + total (es ++ [e]) < 2 ^ 32 →
  ziplistPrev (zblock c (es ++ [e])) (off (es ++ [e])) = Some (Some (off es)).
Proof.
  intros Hwf Hlim. unfold ziplistPrev.
  destruct (off_end_test c (es ++ [e]) []) as (b & Hb & Hend); rewrite ?app_nil_r in *; [done|].
  rewrite Hb. simpl mbind. rewrite Hend. simpl bool_decide. cbv iota.
  unfold ZIPLIST_ENTRY_TAIL. rewrite zblock_tail by done. simpl mbind. rewrite tail_off_snoc. fold (off es).
  destruct (off_end_test c es [e] Hwf) as (b' & Hb' & Hend').
  rewrite Hb'. simpl. by rewrite Hend'.
Qed.

(** ** Forward loops

    Each takes one round per entry; the block has at least two bytes for each of
    them, so the fuel [S (length zl)] is never used up. *)
Lemma block_fuel c es1 es2 : (length es2 < S (length (zblock c (es1 ++ es2))))%nat.
Proof.
  pose proof (zlen_zblock c (es1 ++ es2)) as Hz. rewrite total_app in Hz.
  pose proof (total_nonneg es1). pose proof (zlen_total es2). unfold zlen in *. lia.
Qed.

Lemma skip_loop c num es2 : ∀ fuel es1 i d,
  wf_es 0 (es1 ++ es2) → (length es2 < fuel)%nat →
  loop fuel (skip_body (zblock c (es1 ++ es2)) num) (off es1, i, d) =
  Some (off (es1 ++ take (Z.to_nat (num - i)) es2), d + zlen (take (Z.to_nat (num - i)) es2)).
Proof.
  induction es2 as [|e es2 IH]; intros [|fuel] es1 i d Hwf Hf; try (simpl in Hf; lia);
    rewrite loop_S; unfold skip_body at 2.
  all: destruct (off_end_test c es1 _ Hwf) as (b & Hb & Hend); rewrite Hb; simpl mbind;
    rewrite Hend; simpl bool_decide; simpl negb.
  - rewrite take_nil, app_nil_r, zlen_nil. simpl. by rewrite Z.add_0_r.
  - simpl andb. destruct (Z.ltb_spec i num).
    + rewrite block_rawlen by done. simpl mbind. rewrite <-off_snoc.
      rewrite (cons_middle e es1 es2), (app_assoc es1) in Hwf |- *.
      rewrite IH by (done || (simpl in Hf; lia)).
      replace (Z.to_nat (num - i)) with (S (Z.to_nat (num - (i + 1)))) by lia.
      rewrite firstn_cons, <-(app_assoc es1), zlen_cons. f_equal. f_equal. lia.
    + simpl. replace (Z.to_nat (num - i)) with 0%nat by lia.
      rewrite firstn_O, app_nil_r, zlen_nil. by rewrite Z.add_0_r.
Qed.

Lemma count_loop c es2 : ∀ fuel es1 n,
  wf_es 0 (es1 ++ es2) → (length es2 < fuel)%nat →
  loop fuel (count_body (zblock c (es1 ++ es2))) (off es1, n) = Some (n + zlen es2).
Proof.
  induction es2 as [|e es2 IH]; intros [|fuel] es1 n Hwf Hf; try (simpl in Hf; lia);
    rewrite loop_S; unfold count_body at 2.
  all: destruct (off_end_test c es1 _ Hwf) as (b & Hb & Hend); rewrite Hb; simpl mbind;
    rewrite Hend; simpl bool_decide; simpl negb.
  - simpl. f_equal. zl.
  - cbv iota. rewrite block_rawlen by done. simpl mbind. rewrite <-off_snoc.
    rewrite (cons_middle e es1 es2), (app_assoc es1) in Hwf |- *.
    rewrite IH by (done || (simpl in Hf; lia)). rewrite zlen_cons. f_equal. lia.
Qed.

Lemma index_fwd_loop c es2 : ∀ fuel es1 i,
  wf_es 0 (es1 ++ es2) → (length es2 < fuel)%nat → 0 ≤ i →
  loop fuel (index_fwd_body (zblock c (es1 ++ es2))) (off es1, i) =
  Some (off (es1 ++ take (Z.to_nat i) es2), if i <? zlen es2 then -1 else i - zlen es2).
Proof.
  induction es2 as [|e es2 IH]; intros [|fuel] es1 i Hwf Hf Hi; try (simpl in Hf; lia);
    rewrite loop_S; unfold index_fwd_body at 2.
  all: destruct (off_end_test c es1 _ Hwf) as (b & Hb & Hend); rewrite Hb; simpl mbind;
    rewrite Hend; simpl bool_decide; simpl negb; cbv iota.
  - rewrite take_nil, app_nil_r, zlen_nil. simpl. by rewrite (proj2 (Z.ltb_ge i 0)), Z.sub_0_r by lia.
  - rewrite zlen_cons. zlen_pos. destruct (Z.eqb_spec i 0) as [->|Hne].
    + simpl mbind. rewrite app_nil_r. by rewrite (proj2 (Z.ltb_lt 0 _)) by lia.
    + rewrite block_rawlen by done. simpl mbind. rewrite <-off_snoc.
      rewrite (cons_middle e es1 es2), (app_assoc es1) in Hwf |- *.
      rewrite IH by (done || lia || (simpl in Hf; lia)).
      replace (Z.to_nat i) with (S (Z.to_nat (i - 1))) by lia.
      rewrite firstn_cons, <-(app_assoc es1). f_equal. f_equal.
      destruct (Z.ltb_spec (i - 1) (zlen es2)), (Z.ltb_spec i (1 + zlen es2)); lia.
Qed.

(** The backward walk, from the entry that follows [es1]. *)
Lemma index_back_loop c es1 : ∀ fuel e es2 i,
  wf_es 0 (es1 ++ e :: es2) → (length es1 < fuel)%nat → 0 ≤ i →
  loop fuel (index_back_body (zblock c (es1 ++ e :: es2))) (off es1, last_size 0 es1, i) =
  Some (if i <=? zlen es1
        then (off (take (Z.to_nat (zlen es1 - i)) es1), if i <? zlen es1 then -1 else 0)
        else (off [], i - zlen es1)).
Proof.
  induction es1 as [|e0 es1 IH] using rev_ind; intros [|fuel] e es2 i Hwf Hf Hi;
    try (rewrite ?length_app in Hf; simpl in Hf; lia); rewrite loop_S; unfold index_back_body at 2.
  - simpl. rewrite zlen_nil. destruct (Z.leb_spec i 0).
    + replace i with 0 by lia. done.
    + by rewrite Z.sub_0_r.
  - assert (zlen (es1 ++ [e0]) = zlen es1 + 1) as -> by zl.
    rewrite last_size_snoc. zlen_pos. pose proof (esize_pos e0).
    rewrite (proj2 (Z.ltb_lt 0 (esize e0))) by lia. destruct (Z.eqb_spec i 0) as [->|Hne]; simpl mbind.
    + rewrite (proj2 (Z.leb_le 0 _)), (proj2 (Z.ltb_lt 0 _)) by lia. do 3 f_equal.
      rewrite Z.sub_0_r, take_ge; [done|]. unfold zlen. rewrite length_app. simpl. lia.
    + rewrite off_snoc. replace (off es1 + esize e0 - esize e0) with (off es1) by lia.
      rewrite <-(app_assoc es1) in Hwf |- *. simpl app in Hwf |- *.
      rewrite block_prevlen by done. simpl mbind.
      rewrite IH; [|done|rewrite length_app in Hf; simpl in Hf; lia|lia].
      destruct (Z.leb_spec (i - 1) (zlen es1)), (Z.leb_spec i (zlen es1 + 1)); try lia.
      * do 2 f_equal.
        -- rewrite take_app_le by (unfold zlen in *; lia). do 3 f_equal. lia.
        -- by destruct (Z.ltb_spec (i - 1) (zlen es1)), (Z.ltb_spec i (zlen es1 + 1)); try lia.
      * do 2 f_equal. lia.
Qed.

(** The position of the entry with a (possibly negative) index. *)
Definition index_pos (es : list entry) (i : Z) : option Z :=
  let j := if i <? 0 then zlen es + i else i in
  if (0 <=? j) && (j <? zlen es) then Some (off (take (Z.to_nat j) es)) else None.

Lemma off_take_end_test c es j :
  wf_es 0 es → 0 ≤ j →
  ∃ b, load1 (zblock c es) (off (take (Z.to_nat j) es)) = Some b ∧
    (b =? ZIP_END) = (zlen es <=? j).
Proof.
  intros Hwf Hj. rewrite <-(take_drop (Z.to_nat j) es) in Hwf.
  destruct (off_end_test c _ _ Hwf) as (b & Hb & Hend). rewrite take_drop in Hb.
  exists b. split; [done|]. rewrite Hend. pose proof (zlen_drop es j).
  destruct (Z.leb_spec (zlen es) j).
  - apply bool_decide_eq_true, zlen_0_nil. lia.
  - apply bool_decide_eq_false. intros Hd. rewrite Hd, zlen_nil in *. lia.
Qed.

Lemma index_at c es i :
  wf_es 0 es → 11 + total es < 2 ^ 32 → ziplistIndex (zblock c es) i = Some (index_pos es i).
Proof.
  intros Hwf Hlim. unfold ziplistIndex, index_pos. zlen_pos.
  destruct (Z.ltb_spec i 0) as [Hneg|Hpos].
  - unfold ZIPLIST_ENTRY_TAIL. rewrite zblock_tail by done. simpl mbind.
    destruct es as [|e es _] using rev_ind.
    + destruct (off_end_test c [] [] Hwf) as (b & Hb & Hend). simpl app in Hb.
      unfold off in Hb. simpl in Hb |- *. rewrite Hb. simpl. rewrite Hend. simpl.
      rewrite Hb. simpl. rewrite Hend. simpl. change (zlen (@nil entry)) with 0.
      by destruct (Z.leb_spec 0 (0 + i)); [lia|].
    + rewrite tail_off_snoc. fold (off es).
      destruct (off_end_test c es [e] Hwf) as (b & Hb & Hend).
      rewrite Hb. simpl mbind. rewrite Hend. simpl bool_decide. simpl negb. cbv iota.
      rewrite block_prevlen by done. simpl mbind.
      rewrite index_back_loop;
        [|done|pose proof (block_fuel c [] (es ++ [e])) as Hf; rewrite length_app in Hf;
               simpl in Hf |- *; lia|lia].
      assert (zlen (es ++ [e]) = zlen es + 1) as -> by zl. zlen_pos.
      destruct (Z.leb_spec (- i - 1) (zlen es)) as [Hle|Hgt].
      * simpl mbind.
        destruct (off_take_end_test c (es ++ [e]) (zlen es - (- i - 1)) Hwf) as (b' & Hb' & Hend');
          [lia|].
        rewrite take_app_le in Hb' by (unfold zlen in *; lia). rewrite Hb'. simpl mbind.
        rewrite Hend'. assert (zlen (es ++ [e]) = zlen es + 1) as -> by zl.
        destruct (Z.leb_spec (zlen es + 1) (zlen es - (- i - 1))); [lia|].
        rewrite take_app_le by (unfold zlen in *; lia).
        destruct (Z.leb_spec 0 (zlen es + 1 + i)), (Z.ltb_spec (zlen es + 1 + i) (zlen es + 1)); try lia.
        simpl. replace (zlen es - (- i - 1)) with (zlen es + 1 + i) by lia.
        by destruct (- i - 1 <? zlen es).
      * simpl mbind. destruct (off_take_end_test c (es ++ [e]) 0 Hwf) as (b' & Hb' & Hend'); [done|].
        simpl in Hb'. rewrite take_0 in Hb'. rewrite Hb'. simpl mbind.
        destruct (Z.ltb_spec 0 (- i - 1 - zlen es)); [|lia]. rewrite orb_true_r.
        by destruct (Z.leb_spec 0 (zlen es + 1 + i)); [lia|].
  - pose proof (index_fwd_loop c es (S (length (zblock c es))) [] i Hwf (block_fuel c [] es) Hpos) as Hl.
    simpl app in Hl. change ZIPLIST_ENTRY_HEAD with (off []). rewrite Hl. simpl mbind.
    destruct (off_take_end_test c es i Hwf Hpos) as (b & Hb & Hend). rewrite Hb. simpl mbind.
    rewrite Hend, (proj2 (Z.leb_le 0 i)) by done. simpl andb.
    destruct (Z.leb_spec (zlen es) i), (Z.ltb_spec i (zlen es)); try lia; done.
Qed.

Lemma zblock_length c es n : cnt_ok c n → ZIPLIST_LENGTH (zblock c es) = Some c.
Proof. intros [? _]. apply get_length. unfold in_u. lia. Qed.

Lemma zblock_set_length c c' es : set_ZIPLIST_LENGTH (zblock c es) c' = Some (zblock c' es).
Proof. apply set_length. Qed.

(** Counting, with the count stored again when it fits. *)
Lemma len_at c es :
  wf_es 0 es → 11 + total es < 2 ^ 32 → cnt_ok c (zlen es) →
  ∃ c', ziplistLen (zblock c es) = Some (zblock c' es, zlen es) ∧ cnt_ok c' (zlen es).
Proof.
  intros Hwf Hlim Hc. unfold ziplistLen.
  rewrite (zblock_length _ _ _ Hc). simpl mbind. zipconst.
  destruct Hc as [Hc Hcn]. destruct (Z.ltb_spec c 65535) as [Hlt|Hge].
  - exists c. split; [by rewrite <-(Hcn Hlt)|by split].
  - pose proof (count_loop c es (S (length (zblock c es))) [] 0 Hwf (block_fuel c [] es)) as Hl.
    simpl app in Hl. rewrite Z.add_0_l in Hl. change 10 with (off []). rewrite Hl. simpl mbind. zlen_pos.
    destruct (Z.ltb_spec (zlen es) 65535).
    + rewrite zblock_set_length. simpl. exists (zlen es). split; [done|]. split; [lia|done].
    + exists c. split; [done|]. split; [done|]. lia.
Qed.

(** ** Comparing an entry with a string *)
Definition zmatch (v : zval) (s : bytes) : bool :=
  match v with
  | ZStr t => bool_decide (t = s)
  | ZInt n => match zipTryEncoding s with Some (m, _) => n =? m | None => false end
  end.

(** Inserted strings are stored in one canonical form: two of them match exactly
    when they are the same bytes. *)
Lemma zmatch_zval_of t s : zmatch (zval_of t) s = bool_decide (t = s).
Proof.
  unfold zmatch, zval_of. destruct (zipTryEncoding t) as [[n enc]|] eqn:Et; [|done].
  symmetry. destruct (zipTryEncoding s) as [[m enc']|] eqn:Es.
  - apply zipTryEncoding_inv in Et as [Ht _], Es as [Hs _].
    apply Util.string2ll_sound in Ht as [? ->], Hs as [? ->].
    destruct (Z.eqb_spec n m) as [->|Hne]; [by apply bool_decide_eq_true|].
    apply bool_decide_eq_false. intros Heq. apply Hne.
    enough (Some n = Some m) as [=] by done.
    rewrite <-!Util.string2ll_complete by done. by rewrite Heq.
  - apply bool_decide_eq_false. intros ->. congruence.
Qed.

Lemma compare_at c es1 e es2 s :
  wf_es 0 (es1 ++ e :: es2) →
  ziplistCompare (zblock c (es1 ++ e :: es2)) (off es1) s = Some (zmatch e.2 s).
Proof.
  intros Hwf. unfold ziplistCompare, zmatch.
  destruct (off_end_test c es1 (e :: es2) Hwf) as (b & Hb & Hend).
  rewrite Hb. simpl mbind. rewrite Hend. simpl bool_decide. cbv iota.
  destruct (block_entry c es1 e es2 Hwf) as (A & HA & _ & ->). simpl mbind. simpl encoding.
  simpl headersize. simpl len. rewrite zenc_is_str. destruct e.2 as [t|n] eqn:E.
  - simpl zdata. destruct (Z.eqb_spec (zlen t) (zlen s)) as [Hl|Hl].
    + pose proof (block_data c es1 e es2 Hwf) as Hd. rewrite E in Hd. simpl in Hd |- *.
      rewrite <-Hl. by rewrite Hd.
    + f_equal. symmetry. apply bool_decide_eq_false. by intros ->.
  - pose proof (block_load_integer c es1 e es2 Hwf n E) as Hd. rewrite E in Hd.
    destruct (zipTryEncoding s) as [[m enc]|]; [|done]. by rewrite Hd.
Qed.

(** ** Searching *)
Fixpoint zfind (es1 es2 : list entry) (k skip : Z) (s : bytes) : option Z :=
  match es2 with
  | [] => None
  | e :: es2 =>
      if (k =? 0) && zmatch e.2 s then Some (off es1)
      else zfind (es1 ++ [e]) es2 (if k =? 0 then skip else k - 1) skip s
  end.

(** The integer encoding of the string is computed at the first integer entry
    and remembered. *)
Definition vcache (s : bytes) (venc vll : Z) : Prop :=
  venc = 0 ∨ match zipTryEncoding s with
             | Some (v, enc) => venc = enc ∧ vll = v
             | None => venc = UCHAR_MAX
             end.

Lemma find_loop c s skip es2 : ∀ fuel es1 k venc vll,
  wf_es 0 (es1 ++ es2) → (length es2 < fuel)%nat → vcache s venc vll →
  loop fuel (find_body (zblock c (es1 ++ es2)) s skip) (off es1, k, venc, vll) =
  Some (zfind es1 es2 k skip s).
Proof.
  induction es2 as [|e es2 IH]; intros [|fuel] es1 k venc vll Hwf Hf Hc; try (simpl in Hf; lia);
    rewrite loop_S; unfold find_body at 2.
  all: destruct (off_end_test c es1 _ Hwf) as (b & Hb & Hend); rewrite Hb; simpl mbind;
    rewrite Hend; simpl bool_decide; cbv iota.
  { done. }
  rewrite block_prevlensize by done. simpl mbind.
  rewrite block_decode_length by done. simpl mbind. simpl zfind.
  assert (off es1 + psize e.1 + zlen (zhead e.2) + zlen (zdata e.2) = off (es1 ++ [e])) as ->.
  { rewrite off_snoc. unfold esize. rewrite zlen_zbody. lia. }
  rewrite <-(Z.add_assoc (off es1)).
  assert (∀ k venc vll, vcache s venc vll →
    loop fuel (find_body (zblock c (es1 ++ e :: es2)) s skip) (off (es1 ++ [e]), k, venc, vll) =
    Some (zfind (es1 ++ [e]) es2 k skip s)) as Hnext.
  { intros. rewrite (cons_middle e es1 es2), (app_assoc es1) in Hwf |- *.
    apply IH; [done| |done]. simpl in Hf. lia. }
  destruct (Z.eqb_spec k 0) as [->|Hk]; simpl andb; [|by apply Hnext].
  rewrite zenc_is_str. destruct e.2 as [t|n] eqn:E; simpl zmatch.
  - simpl zdata. destruct (Z.eqb_spec (zlen t) (zlen s)) as [Hl|Hl].
    + pose proof (block_data c es1 e es2 Hwf) as Hd. rewrite E in Hd. simpl in Hd |- *.
      rewrite <-Hl, Hd. simpl. destruct (bool_decide (t = s)); [done|]. by apply Hnext.
    + simpl. rewrite bool_decide_eq_false_2 by (by intros ->). by apply Hnext.
  - pose proof (block_load_integer c es1 e es2 Hwf n E) as Hd. rewrite E in Hd.
    assert (∃ venc' vll', (if venc =? 0 then
        match zipTryEncoding s with Some (v, e) => (e, v) | None => (UCHAR_MAX, vll) end
        else (venc, vll)) = (venc', vll') ∧ venc' ≠ 0 ∧ vcache s venc' vll' ∧
        (venc' ≠ UCHAR_MAX → ∃ enc, zipTryEncoding s = Some (vll', enc)) ∧
        (venc' = UCHAR_MAX → zipTryEncoding s = None)) as (venc' & vll' & -> & Hnz & Hc' & Hs & Hn).
    { unfold vcache in *. destruct (zipTryEncoding s) as [[v enc]|] eqn:Es.
      - pose proof Es as [_ ->]%zipTryEncoding_inv. pose proof (zipIntEncoding_range v). zipconst.
        destruct (Z.eqb_spec venc 0), Hc as [?|[-> ->]]; try lia; eexists _, _;
          (split; [done|]); split_and!; try lia; eauto.
      - zipconst. destruct (Z.eqb_spec venc 0), Hc as [?| ->]; try lia; eexists _, _;
          (split; [done|]); split_and!; try lia; eauto. }
    rewrite (proj2 (Z.eqb_neq venc' 0)) by done.
    destruct (Z.eqb_spec venc' UCHAR_MAX) as [Hu|Hu]; simpl negb; cbv iota.
    + rewrite (Hn Hu). simpl. by apply Hnext.
    + destruct (Hs Hu) as (enc & ->). rewrite Hd. simpl. destruct (n =? vll'); [done|].
      by apply Hnext.
Qed.

(** Positions [k], [k + (skip + 1)], ... are the ones compared. *)
Definition visited (k skip : Z) (i : nat) : Prop :=
  k ≤ Z.of_nat i ∧ (Z.of_nat i - k) mod (skip + 1) = 0.

Lemma visited_S k skip i :
  0 ≤ k ≤ skip →
  visited k skip (S i) ↔ visited (if k =? 0 then skip else k - 1) skip i.
Proof.
  intros Hk. unfold visited. destruct (Z.eqb_spec k 0) as [->|Hne].
  - assert ((Z.of_nat (S i) - 0) mod (skip + 1) = (Z.of_nat i - skip) mod (skip + 1)) as Heq.
    { rewrite <-(Z.mod_add (Z.of_nat i - skip) 1) by lia. f_equal. lia. }
    rewrite Heq. split; intros [H1 H2].
    + assert (skip ≤ Z.of_nat i).
      { destruct (Z.lt_ge_cases (Z.of_nat i) skip); [|done].
        rewrite <-Heq, Z.mod_small in H2 by lia. lia. }
      done.
    + split; [lia|done].
  - replace (Z.of_nat (S i) - k) with (Z.of_nat i - (k - 1)) by lia.
    split; intros [H1 H2]; (split; [lia|done]).
Qed.

Lemma visited_0 k skip : 0 ≤ k → visited k skip 0 ↔ k = 0.
Proof. unfold visited. intros. split; [lia|]. intros ->. simpl. by rewrite Zmod_0_l. Qed.

Lemma zfind_spec s skip es2 : ∀ es1 k, 0 ≤ k ≤ skip →
  match zfind es1 es2 k skip s with
  | Some p => ∃ i e, es2 !! i = Some e ∧ p = off (es1 ++ take i es2) ∧ visited k skip i ∧
      zmatch e.2 s = true ∧
      ∀ j e', (j < i)%nat → es2 !! j = Some e' → visited k skip j → zmatch e'.2 s = false
  | None => ∀ j e', es2 !! j = Some e' → visited k skip j → zmatch e'.2 s = false
  end.
Proof.
  induction es2 as [|e es2 IH]; intros es1 k Hk; simpl zfind; [done|].
  destruct ((k =? 0) && zmatch e.2 s) eqn:E.
  { apply andb_true_iff in E as [->%Z.eqb_eq Hm]. exists 0%nat, e. simpl. rewrite app_nil_r.
    split_and!; try done. intros. lia. }
  assert (∀ e', (e :: es2) !! 0%nat = Some e' → visited k skip 0 → zmatch e'.2 s = false) as H0.
  { intros e' [= <-] ->%visited_0; [done|lia]. }
  specialize (IH (es1 ++ [e]) (if k =? 0 then skip else k - 1)).
  destruct (zfind (es1 ++ [e]) es2 _ skip s) as [p|].
  - destruct IH as (i & e' & Hi & -> & Hv & Hm & Hmin); [destruct (Z.eqb_spec k 0); lia|].
    exists (S i), e'. simpl. rewrite <-app_assoc. split_and!; try done.
    { by apply visited_S. }
    intros [|j] e'' Hj Hl Hvj; [eauto|]. eapply Hmin; [|done|by apply visited_S]. lia.
  - intros [|j] e'' Hl Hvj; [eauto|]. eapply IH; [|done|by apply visited_S].
    destruct (Z.eqb_spec k 0); lia.
Qed.
