(* ===== verification/ZiplistDelete.v ===== *)
(** * Deleting entries of a ziplist

    [__ziplistDelete] removes a run of entries, repairs the prevlen of the entry
    that follows and cascades the change of its width. *)

From S2P Require Import Prelude.
From S2P Require Import Mem.
From S2P Require Import Util.
From S2P Require Import Ziplist.
From S2P Require Import ZiplistRepr.
From S2P Require Import ZiplistOps.
From S2P Require Import ZiplistWalk.
Import Ziplist.

Section Delete.
Context `{Alloc}.

Lemma cnt_ok_decr b t c r n d :
  cnt_ok c n → 0 ≤ d ≤ n →
  ∃ c', ZIPLIST_INCR_LENGTH (hdr b t c ++ r) (- d) = Some (hdr b t c' ++ r) ∧ cnt_ok c' (n - d).
Proof.
  intros [Hc Hn] Hd. unfold ZIPLIST_INCR_LENGTH. rewrite get_length by (unfold in_u; lia).
  simpl mbind. zipconst. destruct (Z.ltb_spec c 65535).
  - rewrite uwrap_id by (unfold in_u; lia). rewrite set_length. eexists. split; [done|].
    split; lia.
  - exists c. split; [done|]. split; lia.
Qed.

(** Moving the entry [(big, v)] and what follows it to the place of the deleted
    entries, before the block is shrunk. *)
Lemma delete_shift c es1 mid big v r :
  let es := es1 ++ mid ++ (big, v) :: r in
  let q := last_size 0 es1 in
  let nextdiff := psize (254 <=? q) - psize big in
  let p := off (es1 ++ mid) - nextdiff in
  let zl := zblock c es in
  mid ≠ [] → wf_es 0 es → 15 + total es < 2 ^ 32 →
  ∃ X, zlen X = total mid - nextdiff ∧
  ('(zl, _) ← zipStorePrevEntryLength zl p q;
   tailoff ← ZIPLIST_TAIL_OFFSET zl;
   zl ← set_ZIPLIST_TAIL_OFFSET zl (uwrap 32 (tailoff - total mid));
   tail ← zipEntry zl p;
   b ← load1 zl (p + uwrap 32 (headersize tail + len tail));
   zl ← (if negb (b =? ZIP_END) then
           tailoff ← ZIPLIST_TAIL_OFFSET zl;
           set_ZIPLIST_TAIL_OFFSET zl (uwrap 32 (tailoff + nextdiff))
         else Some zl);
   zlbytes ← ZIPLIST_BYTES zl;
   zl ← memmove zl (off es1) p (zlbytes - p - 1);
   Some (zl, nextdiff)) =
  Some (hdr (11 + total es) (off es1 + tail_off ((254 <=? q, v) :: r)) c ++ lay 0 es1 ++
        ebytes q (254 <=? q, v) ++ lay (esize (big, v)) r ++ X ++ [ZIP_END], nextdiff).
Proof.
  intros es q nd p zl Hmid Hwf Hlim.
  set (big' := 254 <=? q).
  assert (esize (big, v) = psize big + zlen (zbody v)) as Hes by done.
  assert (esize (big', v) = esize (big, v) + nd) as Hes' by (unfold nd, esize, big'; simpl; lia).
  pose proof (last_size_range es1) as Hq. fold q in Hq.
  pose proof (total_nonneg es1). pose proof (total_nonneg r). pose proof (total_nonneg mid).
  pose proof (esize_pos (big, v)). pose proof (esize_pos (big', v)).
  assert (total es = total es1 + (total mid + (esize (big, v) + total r))) as Htot
    by (unfold es; rewrite !total_app; done).
  assert (tail_off es = total es1 + total mid + tail_off ((big, v) :: r)) as Htail.
  { unfold es. rewrite app_assoc, tail_off_app, total_app by done. lia. }
  pose proof (tail_off_pos ((big, v) :: r)) as Htp. pose proof (tail_off_le ((big, v) :: r)) as Htl.
  simpl total in Htl.
  pose proof Hwf as [_ [Hwfm (_ & Hv & _ & Hwf2)]%wf_es_app]%wf_es_app.
  assert (psize big' = psize big + nd) as Hps by (unfold nd, big'; lia).
  assert (nd ≤ total mid ∧ nd ≤ 4 ∧ -4 ≤ nd) as (Hnd & Hnd4 & Hnd4').
  { destruct mid as [|e mid]; [done|]. destruct Hwfm as ([_ Hf] & _). fold q in Hf.
    assert (psize e.1 + 1 ≤ esize e).
    { unfold esize. rewrite zlen_zbody. pose proof (zhead_nonempty e.2). zlen_pos. lia. }
    pose proof (total_nonneg mid). simpl total. unfold nd.
    destruct (Z.leb_spec 254 q), big, e.1; simpl in *; lia || (specialize (Hf eq_refl); lia). }
  assert (1 ≤ psize big') as Hp1 by (by destruct big').
  set (q' := last_size q mid).
  set (b := 11 + total es). set (t := 10 + tail_off es).
  set (S := lay (esize (big, v)) r ++ [ZIP_END]).
  destruct (list_split (lay q mid ++ enc_prevlen big q') (total mid - nd))
    as (X0 & Pg & HX & HlX & HlP); [autorewrite with zlen; lia|].
  autorewrite with zlen in HlP.
  assert (zl = (hdr b t c ++ lay 0 es1 ++ X0) ++ Pg ++ zbody v ++ S) as Hm.
  { unfold zl, zblock, es. rewrite lay_app, lay_app. fold es q q'.
    rewrite <-!app_assoc, (app_assoc X0), <-HX. unfold S. simpl lay. unfold ebytes. simpl fst.
    simpl snd. rewrite <-!app_assoc. reflexivity. }
  assert (p = zlen (hdr b t c ++ lay 0 es1 ++ X0)) as Hp.
  { unfold p, off. rewrite total_app. autorewrite with zlen. lia. }
  rewrite (store_prevlen_at zl _ Pg _ q p Hm Hp); [|unfold in_u; lia|fold big'; lia].
  fold big'. cbn [mbind option_bind].
  set (Y := ebytes q (big', v) ++ lay (esize (big, v)) r).
  assert (∀ t, (hdr b t c ++ lay 0 es1 ++ X0) ++ enc_prevlen big' q ++ zbody v ++ S =
    hdr b t c ++ lay 0 es1 ++ X0 ++ Y ++ [ZIP_END]) as Hblk.
  { intros. unfold S, Y, ebytes. app_eq. }
  rewrite Hblk, get_tail by (unfold in_u, t; lia). cbn [mbind option_bind].
  rewrite set_tail, uwrap_id by (unfold in_u, t; lia). cbn [mbind option_bind].
  erewrite (zipEntry_at _ (hdr b (t - total mid) c ++ lay 0 es1 ++ X0) q (big', v) S p);
    [|unfold Y, S; app_eq|rewrite Hp; zl|by apply prev_ok_store; unfold in_u; lia|done].
  cbn [mbind option_bind]. rewrite zlentry_of_size, uwrap_id by (unfold in_u; lia).
  destruct (end_test (hdr b (t - total mid) c ++ lay 0 es1 ++ X0 ++ Y ++ [ZIP_END])
    (hdr b (t - total mid) c ++ lay 0 es1 ++ X0 ++ ebytes q (big', v)) (esize (big, v)) r
    (p + esize (big', v))) as (b1 & -> & Hb1); [unfold Y; app_eq|rewrite Hp; zl|done|].
  cbn [mbind option_bind]. rewrite Hb1.
  assert ((if negb (bool_decide (r = [])) then
      ZIPLIST_TAIL_OFFSET (hdr b (t - total mid) c ++ lay 0 es1 ++ X0 ++ Y ++ [ZIP_END])
      ≫= λ tailoff, set_ZIPLIST_TAIL_OFFSET
           (hdr b (t - total mid) c ++ lay 0 es1 ++ X0 ++ Y ++ [ZIP_END]) (uwrap 32 (tailoff + nd))
      else Some (hdr b (t - total mid) c ++ lay 0 es1 ++ X0 ++ Y ++ [ZIP_END])) =
      Some (hdr b (off es1 + tail_off ((big', v) :: r)) c ++ lay 0 es1 ++ X0 ++ Y ++ [ZIP_END])) as ->.
  { destruct r as [|e r]; cbn [bool_decide decide negb].
    - do 3 f_equal. unfold t, off. rewrite Htail. simpl. lia.
    - pose proof (tail_off_cons (big, v) (e :: r) ltac:(done)).
      pose proof (tail_off_cons (big', v) (e :: r) ltac:(done)).
      pose proof (tail_off_pos (e :: r)).
      rewrite get_tail by (unfold in_u, t; lia). cbn [mbind option_bind].
      rewrite set_tail, uwrap_id by (unfold in_u, t; lia). do 3 f_equal. unfold t, off. lia. }
  cbn [mbind option_bind]. rewrite get_bytes by (unfold in_u, b; lia). cbn [mbind option_bind].
  assert (zlen Y = esize (big', v) + total r) as HY by (unfold Y; zl).
  destruct (list_split (X0 ++ Y) (zlen Y)) as (B' & X & HXY & HlB & HlX'); [zl|].
  rewrite zlen_app in HlX'.
  exists X. split; [lia|].
  set (t' := off es1 + tail_off ((big', v) :: r)).
  rewrite (memmove_at _ (hdr b t' c ++ lay 0 es1 ++ X0) Y [ZIP_END]
    (hdr b t' c ++ lay 0 es1) B' (X ++ [ZIP_END])).
  - simpl. do 2 f_equal. unfold Y. app_eq.
  - app_eq.
  - rewrite Hp. zl.
  - rewrite Hp. autorewrite with zlen. unfold b. lia.
  - rewrite (app_assoc X0), HXY. app_eq.
  - unfold off. zl.
  - done.
Qed.

Lemma tail_off_last es : 10 + tail_off es = off es - last_size 0 es.
Proof.
  unfold off. destruct es as [|e es _] using rev_ind; [done|].
  rewrite tail_off_snoc, last_size_snoc, total_app. simpl. lia.
Qed.

(** After the block is shrunk, the entries behind the gap are brought up to date. *)
Lemma delete_cascade c es1 big big' v r n nextdiff :
  wf_es 0 es1 → wf_es (esize (big, v)) r → val_ok v → prev_ok big' (last_size 0 es1) →
  psize big' = psize big + nextdiff → n = 11 + total es1 + esize (big', v) + total r →
  n + 4 * zlen r < 2 ^ 32 → cnt_ok c (zlen es1 + 1 + zlen r) →
  let zl := hdr n (off es1 + tail_off ((big', v) :: r)) c ++ lay 0 es1 ++
    ebytes (last_size 0 es1) (big', v) ++ lay (esize (big, v)) r ++ [ZIP_END] in
  wp (if negb (nextdiff =? 0) then __ziplistCascadeUpdate zl (off es1) else Some zl)
     (λ zl, ∃ r', zrepr zl (es1 ++ (big', v) :: r') ∧ r'.*2 = r.*2).
Proof.
  intros Hwf1 Hwf Hv Hpok Hps Hn Hlim Hc zl.
  pose proof (total_nonneg es1). pose proof (total_nonneg r). pose proof (esize_pos (big', v)).
  assert (∀ zl' b t r', zl' = hdr b t c ++ lay 0 es1 ++ ebytes (last_size 0 es1) (big', v) ++
      lay (esize (big', v)) r' ++ [ZIP_END] →
    b = zlen zl' → b ≤ n + 4 * zlen r → t = 10 + total es1 + tail_off ((big', v) :: r') →
    wf_es (esize (big', v)) r' → r'.*2 = r.*2 →
    ∃ r', zrepr zl' (es1 ++ (big', v) :: r') ∧ r'.*2 = r.*2) as Hfin.
  { intros zl' b t r' Hz Hb Hle Ht Hwf' Hval. exists r'. split; [|done].
    assert (zlen r' = zlen r) as Hlr.
    { rewrite <-(zlen_fmap snd r'), <-(zlen_fmap snd r). by rewrite Hval. }
    rewrite Hz in Hb. autorewrite with zlen in Hb. pose proof (total_nonneg r').
    apply (zrepr_intro _ b t c).
    - rewrite Hz, lay_app. simpl lay. app_eq.
    - rewrite total_app. simpl total. lia.
    - rewrite tail_off_app by done. lia.
    - apply wf_es_app. split; [done|]. simpl. split_and!; try done. simpl total in *. lia.
    - lia.
    - rewrite zlen_app, zlen_cons, Hlr. by rewrite Z.add_assoc. }
  destruct (Z.eqb_spec nextdiff 0) as [Hz|Hnz]; simpl.
  - assert (big' = big) as -> by (unfold psize in Hps; destruct big', big; done || lia).
    eapply (Hfin zl n); [reflexivity|unfold zl; zl|zl|unfold off; lia|done|done].
  - eapply wp_mono.
    { replace (off es1) with (10 + zlen (lay 0 es1)) by (unfold off; zl).
      eapply (cascade_wp zl n _ c (lay 0 es1) (last_size 0 es1) (big', v)). split_and!.
      - reflexivity.
      - unfold zl. zl.
      - done.
      - unfold off. zl.
      - done.
      - done.
      - done. }
    intros zl' (r' & b & t & Hz & Hb & Hle & Ht & Hwf' & Hval).
    eapply (Hfin zl' b t r'); try done. rewrite Ht. zl.
Qed.

Lemma delete_wp c es1 mid es2 num :
  let es := es1 ++ mid ++ es2 in
  mid ≠ [] → take (Z.to_nat num) (mid ++ es2) = mid →
  wf_es 0 es → 15 + total es + 4 * zlen es2 < 2 ^ 32 → cnt_ok c (zlen es) →
  wp (__ziplistDelete (zblock c es) (off es1) num)
     (λ zl, ∃ es2', zrepr zl (es1 ++ es2') ∧ es2'.*2 = es2.*2).
Proof.
  intros es Hmid Hnum Hwf Hlim Hc. unfold __ziplistDelete.
  assert (∃ e mid', mid = e :: mid') as (e & mid' & Hmid') by (destruct mid; eauto; done).
  destruct (block_entry c es1 e (mid' ++ es2)) as (A & HA & _ & He); [by unfold es in Hwf; rewrite Hmid' in Hwf|].
  change (e :: mid' ++ es2) with ((e :: mid') ++ es2) in He. rewrite <-Hmid' in He.
  fold es in He. rewrite He. cbn [mbind option_bind].
  pose proof (skip_loop c num (mid ++ es2) (S (length (zblock c es))) es1 0 0 Hwf
    (block_fuel c es1 (mid ++ es2))) as Hskip.
  rewrite Z.sub_0_r, Hnum, Z.add_0_l in Hskip. fold es in Hskip. rewrite Hskip.
  cbn [mbind option_bind]. clear Hskip.
  pose proof (total_nonneg es1). pose proof (total_nonneg es2). pose proof (total_nonneg mid').
  pose proof (esize_pos e). assert (total mid = esize e + total mid') as Htm by (by rewrite Hmid').
  assert (total es = total es1 + (total mid + total es2)) as Htot by (unfold es; by rewrite !total_app).
  assert (zlen es = zlen es1 + (zlen mid + zlen es2)) as Hzl by (unfold es; by rewrite !zlen_app).
  pose proof (last_size_range es1). zlen_pos.
  simpl Ziplist.p. rewrite HA. simpl prevrawlen.
  assert (off (es1 ++ mid) - off es1 = total mid) as Hoff by (unfold off; rewrite total_app; lia).
  rewrite Hoff, uwrap_id by (unfold in_u; lia).
  rewrite (proj2 (Z.ltb_lt 0 (total mid))) by lia.
  destruct (off_end_test c (es1 ++ mid) es2) as (b & Hb & Hend); [by rewrite <-app_assoc|].
  rewrite <-app_assoc in Hb. fold es in Hb. rewrite Hb. cbn [mbind option_bind]. rewrite Hend.
  destruct es2 as [|[big v] r];
    [rewrite bool_decide_eq_true_2 by done | rewrite bool_decide_eq_false_2 by done]; cbn [negb].
  - destruct (resize_at (11 + total es) (off es1 - last_size 0 es1) c (lay 0 es1)
      (lay (last_size 0 es1) mid ++ [ZIP_END]) (11 + total es1)) as (J & Hr & HJ);
      [unfold in_u; lia|zl|]. autorewrite with zlen in HJ.
    rewrite (zlen_0_nil J) in Hr by lia. simpl total in *.
    unfold zblock. rewrite set_tail. cbn [mbind option_bind].
    rewrite get_bytes by (unfold in_u; lia). cbn [mbind option_bind].
    rewrite uwrap_id by (unfold in_u; rewrite <-tail_off_last; pose proof (tail_off_pos es1);
      pose proof (tail_off_le es1); lia).
    replace (11 + total es - total mid + 0) with (11 + total es1) by lia.
    unfold es at 2. rewrite app_nil_r, lay_app, <-app_assoc, Hr. cbn [mbind option_bind].
    destruct (cnt_ok_decr (11 + total es1) (off es1 - last_size 0 es1) c (lay 0 es1 ++ [] ++ [ZIP_END])
      (zlen es) (zlen mid) Hc) as (c' & -> & Hc'); [lia|]. simpl.
    exists []. rewrite app_nil_r. split; [|done].
    apply (zrepr_intro _ (11 + total es1) (off es1 - last_size 0 es1) c'); try done.
    + by rewrite tail_off_last.
    + unfold es in Hwf. by apply wf_es_app in Hwf as [? _].
    + lia.
    + rewrite zlen_nil in *. by replace (zlen es1) with (zlen es - zlen mid) by lia.
  - apply wf_es_app in Hwf as [Hwf1 Hwfr]. pose proof Hwfr as [_ (_ & Hv & _ & Hwf2)]%wf_es_app.
    set (q := last_size 0 es1) in *. set (big' := 254 <=? q).
    assert (zipPrevLenByteDiff (zblock c es) (off (es1 ++ mid)) q = Some (psize big' - psize big)) as ->.
    { unfold zipPrevLenByteDiff. rewrite size_prevlen by (unfold in_u; lia). unfold es.
      rewrite app_assoc. rewrite block_prevlensize; [done|].
      rewrite <-app_assoc. by apply wf_es_app. }
    cbn [mbind option_bind].
    destruct (delete_shift c es1 mid big v r) as (X & HX & Hshift); [done|by apply wf_es_app|fold es; lia|].
    fold es q big' in Hshift, HX. rewrite Hshift. cbn [mbind option_bind]. clear Hshift.
    rewrite get_bytes by (unfold in_u; lia). cbn [mbind option_bind].
    set (nd := psize big' - psize big) in *.
    assert (esize (big', v) = esize (big, v) + nd) as Hes' by (unfold nd, esize; simpl; lia).
    assert (nd ≤ 4) by (unfold nd; by destruct big', big). pose proof (esize_pos (big', v)).
    pose proof (total_nonneg r). simpl total in Htot. rewrite zlen_cons in *.
    destruct (resize_at (11 + total es) (off es1 + tail_off ((big', v) :: r)) c
      (lay 0 es1 ++ ebytes q (big', v) ++ lay (esize (big, v)) r) (X ++ [ZIP_END])
      (11 + total es - total mid + nd)) as (J & Hr & HJ); [unfold in_u; lia|zl|].
    autorewrite with zlen in HJ. rewrite (zlen_0_nil J) in Hr by lia.
    rewrite app_nil_l, <-!app_assoc in Hr. rewrite Hr. cbn [mbind option_bind].
    destruct (cnt_ok_decr (11 + total es - total mid + nd) (off es1 + tail_off ((big', v) :: r)) c
      (lay 0 es1 ++ ebytes q (big', v) ++ lay (esize (big, v)) r ++ [ZIP_END])
      (zlen es) (zlen mid) Hc) as (c' & -> & Hc'); [lia|]. cbn [mbind option_bind].
    eapply wp_mono.
    { apply (delete_cascade c' es1 big big' v r); try done; fold q.
      - apply prev_ok_store. unfold in_u. lia.
      - unfold nd. lia.
      - lia.
      - lia.
      - by replace (zlen es1 + 1 + zlen r) with (zlen es - zlen mid) by lia. }
    intros zl' (r' & Hz & Hval). exists ((big', v) :: r'). split; [done|].
    rewrite !fmap_cons. by f_equal.
Qed.
End Delete.
