(* ===== verification/ZiplistMerge.v ===== *)
(** * Merging two ziplists

    [ziplistMerge] copies the block with fewer entries next to the other one and
    repairs the boundary with the cascade update. *)

From S2P Require Import Prelude.
From S2P Require Import Mem.
From S2P Require Import Util.
From S2P Require Import Ziplist.
From S2P Require Import ZiplistRepr.
From S2P Require Import ZiplistOps.
From S2P Require Import ZiplistWalk.
Import Ziplist.

Section Merge.
Context `{Alloc}.

Lemma cnt_ok_add c1 c2 n1 n2 :
  cnt_ok c1 n1 → cnt_ok c2 n2 →
  cnt_ok (if c1 + c2 <? 65535 then c1 + c2 else 65535) (n1 + n2).
Proof. unfold cnt_ok. intros. destruct (Z.ltb_spec (c1 + c2) 65535); lia. Qed.

(** Both copying orders produce the same block. *)
Lemma merge_copy (append : bool) c1 c2 es1 es2 :
  let first := zblock c1 es1 in
  let second := zblock c2 es2 in
  let zlbytes := 11 + total es1 + total es2 in
  let '(target, target_bytes, source, source_bytes) :=
    if append then (first, 11 + total es1, second, 11 + total es2)
    else (second, 11 + total es2, first, 11 + total es1) in
  let target := zrealloc target zlbytes in
  ∃ b t c,
  (if append then
     src ← load source ZIPLIST_HEADER_SIZE (source_bytes - ZIPLIST_HEADER_SIZE);
     store target (target_bytes - ZIPLIST_END_SIZE) src
   else
     target ← memmove target (source_bytes - ZIPLIST_END_SIZE) ZIPLIST_HEADER_SIZE
                (target_bytes - ZIPLIST_HEADER_SIZE);
     src ← load source 0 (source_bytes - ZIPLIST_END_SIZE);
     store target 0 src) =
  Some (hdr b t c ++ lay 0 es1 ++ lay 0 es2 ++ [ZIP_END]).
Proof.
  intros first second zlbytes. pose proof (total_nonneg es1). pose proof (total_nonneg es2).
  zipconst. destruct append; cbv beta iota zeta.
  - set (h2 := hdr (11 + total es2) (10 + tail_off es2) c2).
    set (h1 := hdr (11 + total es1) (10 + tail_off es1) c1).
    destruct (zrealloc_prefix (h1 ++ lay 0 es1) [ZIP_END] zlbytes) as (X & HX & HlX);
      [unfold h1, zlbytes; zl|].
    assert (first = (h1 ++ lay 0 es1) ++ [ZIP_END]) as -> by (unfold first, zblock; app_eq).
    rewrite HX.
    rewrite (load_at second h2 (lay 0 es2 ++ [ZIP_END]) []); [|unfold second, zblock; app_eq|done|zl].
    cbn [mbind option_bind]. rewrite (store_at _ (h1 ++ lay 0 es1) X _ []); [|app_eq|unfold h1; zl|].
    2: { unfold h1, zlbytes in HlX. zl. }
    eexists _, _, _. f_equal. unfold h1. app_eq.
  - set (h2 := hdr (11 + total es2) (10 + tail_off es2) c2).
    set (h1 := hdr (11 + total es1) (10 + tail_off es1) c1).
    rewrite zrealloc_grow by (unfold second, zlbytes; rewrite zlen_zblock; lia).
    set (F := fresh_bytes _).
    assert (zlen F = total es1) as HF.
    { unfold F, second, zlbytes. rewrite zlen_fresh, zlen_zblock. lia. }
    destruct (list_split (h2 ++ lay 0 es2 ++ [ZIP_END] ++ F) (10 + total es1)) as (P & B & HPB & HP & HB);
      [unfold h2; zl|].
    rewrite (memmove_at _ h2 (lay 0 es2 ++ [ZIP_END]) F P B []).
    2: { unfold second, zblock. app_eq. }
    2: { done. }
    2: { zl. }
    2: { rewrite app_nil_r, <-HPB. unfold second, zblock. app_eq. }
    2: { lia. }
    2: { unfold h2 in HB. zl. }
    cbn [mbind option_bind]. rewrite (load_at first [] (h1 ++ lay 0 es1) [ZIP_END]);
      [|unfold first, zblock; app_eq|done|unfold h1; zl].
    cbn [mbind option_bind]. rewrite (store_at _ [] P _ (lay 0 es2 ++ [ZIP_END])); [|app_eq|done|unfold h1; zl].
    eexists _, _, _. unfold h1. reflexivity.
Qed.

(** The boundary: the first entry of the second list records 0 until the
    cascade corrects it. *)
Lemma merge_cascade c es1 es2 :
  es2 ≠ [] → wf_es 0 es1 → wf_es 0 es2 →
  11 + total es1 + total es2 + 4 * zlen es2 < 2 ^ 32 → cnt_ok c (zlen es1 + zlen es2) →
  wp (__ziplistCascadeUpdate
        (hdr (11 + total es1 + total es2) (10 + total es1 + tail_off es2) c ++
         lay 0 es1 ++ lay 0 es2 ++ [ZIP_END]) (10 + tail_off es1))
     (λ zl, ∃ es2', zrepr zl (es1 ++ es2') ∧ es2'.*2 = es2.*2).
Proof.
  intros Hne Hwf1 Hwf2 Hlim Hc. pose proof (total_nonneg es1). pose proof (total_nonneg es2).
  zlen_pos. destruct es1 as [|e es1 _] using rev_ind.
  - destruct es2 as [|e0 r]; [done|]. destruct Hwf2 as (Hq & Hv & Hs & Hwf2).
    eapply wp_mono.
    { eapply (cascade_wp _ (11 + total (e0 :: r)) (10 + tail_off (e0 :: r)) c [] 0 e0 (esize e0) r).
      split_and!; try done.
      - simpl lay. simpl total. by rewrite <-app_assoc.
      - autorewrite with zlen. simpl total. lia.
      - rewrite zlen_cons in *. simpl total in *. lia. }
    intros zl (r' & b & t & Hz & Hb & Hle & Ht & Hwf' & Hval). exists (e0 :: r').
    assert (zlen r' = zlen r) as Hlr.
    { rewrite <-(zlen_fmap snd r'), <-(zlen_fmap snd r). by rewrite Hval. }
    split; [|rewrite !fmap_cons; by f_equal]. rewrite Hz in Hb. autorewrite with zlen in Hb.
    apply (zrepr_intro _ b t c); rewrite ?app_nil_l.
    + rewrite Hz. simpl lay. app_eq.
    + simpl total. lia.
    + rewrite Ht, zlen_nil. lia.
    + simpl. by split_and!.
    + simpl total in *. zl.
    + rewrite zlen_nil, !zlen_cons in *. by rewrite Hlr.
  - rewrite tail_off_snoc, total_app in *. simpl total in *.
    apply wf_es_app in Hwf1 as [Hwf1 (Hq & Hv & Hs & _)]. pose proof (esize_pos e).
    pose proof (total_nonneg es1).
    eapply wp_mono.
    { replace (10 + total es1) with (10 + zlen (lay 0 es1)) by zl.
      eapply (cascade_wp _ (11 + (total es1 + (esize e + 0)) + total es2) (10 + (total es1 + (esize e + 0)) + tail_off es2) c (lay 0 es1)
        (last_size 0 es1) e 0 es2).
      split_and!; try done.
      - rewrite lay_app. simpl lay. rewrite app_nil_r, <-!app_assoc. reflexivity.
      - autorewrite with zlen. rewrite total_app. simpl total. lia.
      - rewrite tail_off_cons by done. zl. }
    intros zl (es2' & b & t & Hz & Hb & Hle & Ht & Hwf' & Hval). exists es2'. split; [|done].
    assert (zlen es2' = zlen es2) as Hlr.
    { rewrite <-(zlen_fmap snd es2'), <-(zlen_fmap snd es2). by rewrite Hval. }
    assert (es2' ≠ []) as Hne'.
    { intros ->. rewrite zlen_nil in Hlr. by apply Hne, zlen_0_nil. }
    rewrite Hz in Hb. autorewrite with zlen in Hb.
    rewrite <-app_assoc. apply (zrepr_intro _ b t c).
    + rewrite Hz, lay_app. simpl lay. app_eq.
    + rewrite total_app. simpl total. lia.
    + rewrite tail_off_app by done. simpl app. rewrite tail_off_cons in * by done. zl.
    + apply wf_es_app. split; [done|]. simpl. by split_and!.
    + lia.
    + assert (zlen (es1 ++ [e] ++ es2') = zlen (es1 ++ [e]) + zlen es2) as ->
        by (autorewrite with zlen; lia). done.
Qed.

Lemma merge_wp c1 c2 es1 es2 :
  es2 ≠ [] → wf_es 0 es1 → wf_es 0 es2 →
  11 + total es1 + total es2 + 4 * zlen es2 < 2 ^ 32 →
  cnt_ok c1 (zlen es1) → cnt_ok c2 (zlen es2) →
  wp (ziplistMerge (zblock c1 es1) (zblock c2 es2))
     (λ zl, ∃ es2', zrepr zl (es1 ++ es2') ∧ es2'.*2 = es2.*2).
Proof.
  intros Hne Hwf1 Hwf2 Hlim Hc1 Hc2. pose proof (total_nonneg es1). pose proof (total_nonneg es2).
  pose proof (tail_off_pos es2). pose proof (tail_off_le es2). zlen_pos. unfold ziplistMerge.
  rewrite !zblock_bytes by lia. cbn [mbind option_bind].
  rewrite (zblock_length c1 _ _ Hc1). cbn [mbind option_bind].
  rewrite (zblock_length c2 _ _ Hc2). cbn [mbind option_bind].
  pose proof (merge_copy (c2 <=? c1) c1 c2 es1 es2) as Hcopy. cbv zeta in Hcopy |- *.
  destruct (if c2 <=? c1 then _ else _) as [[[target tb] source] sb].
  destruct Hcopy as (b & t & c & Hcopy).
  rewrite !zblock_tail by lia. cbn [mbind option_bind].
  change ZIPLIST_HEADER_SIZE with 10 in *. change ZIPLIST_END_SIZE with 1 in *.
  replace (11 + total es1 + (11 + total es2) - 10 - 1) with (11 + total es1 + total es2) by lia.
  rewrite Hcopy. cbn [mbind option_bind]. rewrite set_bytes. cbn [mbind option_bind].
  rewrite set_length. cbn [mbind option_bind]. rewrite set_tail. cbn [mbind option_bind].
  rewrite uwrap_id by (unfold in_u; lia).
  replace (11 + total es1 - 1 + (10 + tail_off es2 - 10)) with (10 + total es1 + tail_off es2) by lia.
  apply merge_cascade; try done. by apply cnt_ok_add.
Qed.
End Merge.
