(* ===== verification/ZiplistSpec.v ===== *)
(** * What a ziplist promises its clients

    Clients of ziplist.c see a list of byte strings.  [zlist zl es ss] says that
    the block [zl] with the entries [es] holds the strings [ss]: strings that
    are the text of a 64-bit integer are stored as that integer.  The theorems
    of this file state the operations in those terms. *)

From S2P Require Import Prelude.
From S2P Require Import Mem.
From S2P Require Import Util.
From S2P Require Import Ziplist.
From S2P Require Import ZiplistRepr.
From S2P Require Import ZiplistOps.
From S2P Require Import ZiplistWalk.
From S2P Require Import ZiplistDelete.
From S2P Require Import ZiplistMerge.
Import Ziplist.

Definition zlist (zl : bytes) (es : list entry) (ss : list bytes) : Prop :=
  zrepr zl es ∧ es.*2 = zval_of <$> ss.

(** The text a client prints for the value it got. *)
Definition text (v : zval) : bytes :=
  match v with ZStr s => s | ZInt n => Util.print n end.

Lemma text_zval_of s : text (zval_of s) = s.
Proof.
  unfold zval_of. destruct (zipTryEncoding s) as [[n enc]|] eqn:E; [|done].
  apply zipTryEncoding_inv in E as [Hn _]. by apply Util.string2ll_sound in Hn as [_ ->].
Qed.

(** A bound on the size of the block that depends on the strings only. *)
Fixpoint budget (ss : list bytes) : Z :=
  match ss with [] => 0 | s :: ss => zlen s + 17 + budget ss end.

Definition room (ss : list bytes) : Prop := 40 + budget ss < 2 ^ 32.

Lemma budget_nonneg ss : 17 * zlen ss ≤ budget ss.
Proof. induction ss as [|s ss IH]; simpl; [done|]. zl. Qed.

Lemma budget_app a b : budget (a ++ b) = budget a + budget b.
Proof. induction a; simpl; lia. Qed.

Lemma zlen_zbody_zval_of s : zlen (zbody (zval_of s)) ≤ zlen s + 8.
Proof.
  destruct (default (123456789, 0) (zipTryEncoding s)) as [v e] eqn:E.
  by destruct (insert_reqlen s v e E) as (_ & _ & _ & ?).
Qed.

Lemma zlist_len (es : list entry) ss : es.*2 = zval_of <$> ss → zlen es = zlen ss.
Proof. intros Hes. rewrite <-(zlen_fmap snd es), Hes. apply zlen_fmap. Qed.

Lemma zlist_budget (es : list entry) : ∀ ss, es.*2 = zval_of <$> ss → total es + 4 * zlen es ≤ budget ss.
Proof.
  induction es as [|[big v] es IH]; intros [|s ss] Heq; try done.
  rewrite !fmap_cons in Heq. injection Heq as Hv Heq. specialize (IH ss Heq).
  simpl. rewrite zlen_cons. pose proof (zlen_zbody_zval_of s). unfold esize. simpl in *.
  rewrite <-Hv in *. unfold psize. destruct big; lia.
Qed.

Lemma zlist_split zl es ss i :
  zlist zl es ss → 0 ≤ i ≤ zlen ss →
  ∃ es1 es2, es = es1 ++ es2 ∧ es1 = take (Z.to_nat i) es ∧
    es1.*2 = zval_of <$> take (Z.to_nat i) ss ∧ es2.*2 = zval_of <$> drop (Z.to_nat i) ss ∧
    zlen es1 = i.
Proof.
  intros [Hr Hes] Hi. exists (take (Z.to_nat i) es), (drop (Z.to_nat i) es).
  rewrite take_drop, !fmap_take, !fmap_drop, Hes. pose proof (zlist_len es ss Hes).
  rewrite zlen_take. split_and!; done || lia.
Qed.

Section Spec.
Context `{Alloc}.

Lemma insert_wp zl es1 es2 s :
  zrepr zl (es1 ++ es2) → zlen zl + zlen s + 20 + 4 * zlen es2 < 2 ^ 32 →
  wp (ziplistInsert zl (off es1) s)
     (λ zl', ∃ big es2', zrepr zl' (es1 ++ (big, zval_of s) :: es2') ∧ es2'.*2 = es2.*2).
Proof.
  intros (c & -> & Hwf & Hl & Hc) Hlim. unfold ziplistInsert. destruct es2 as [|[big v] r].
  - rewrite app_nil_r in *. rewrite (zlen_nil (A:=entry)) in Hlim.
    eapply wp_mono; [apply insert_end; [done|lia|done]|].
    intros zl' Hr. by exists (254 <=? last_size 0 es1), [].
  - eapply wp_mono; [by apply insert_mid|]. intros zl' (es2' & Hr & Hval). eauto.
Qed.

Lemma delete_none c es1 e es2 num :
  wf_es 0 (es1 ++ e :: es2) → num ≤ 0 →
  __ziplistDelete (zblock c (es1 ++ e :: es2)) (off es1) num = Some (zblock c (es1 ++ e :: es2)).
Proof.
  intros Hwf Hnum. unfold __ziplistDelete.
  destruct (block_entry c es1 e es2 Hwf) as (A & HA & _ & ->). cbn [mbind option_bind].
  rewrite (skip_loop c num (e :: es2) _ es1 0 0 Hwf (block_fuel c es1 (e :: es2))).
  replace (Z.to_nat (num - 0)) with 0%nat by lia. rewrite firstn_O, app_nil_r.
  cbn [mbind option_bind]. simpl Ziplist.p. by rewrite HA, Z.sub_diag.
Qed.

(** Deleting at an entry, for every count. *)
Lemma delete_at zl es1 e es2 num :
  zrepr zl (es1 ++ e :: es2) → zlen zl + 4 + 4 * zlen es2 < 2 ^ 32 →
  wp (__ziplistDelete zl (off es1) num)
     (λ zl', ∃ es2', zrepr zl' (es1 ++ es2') ∧
                     es2'.*2 = (drop (Z.to_nat num) (e :: es2)).*2).
Proof.
  intros (c & -> & Hwf & Hl & Hc) Hlim. rewrite zlen_zblock in Hlim.
  destruct (Z.le_gt_cases num 0) as [Hn|Hn].
  - rewrite delete_none by done. simpl. exists (e :: es2). replace (Z.to_nat num) with 0%nat by lia.
    split; [|done]. by exists c.
  - set (mid := take (Z.to_nat num) (e :: es2)). set (rest := drop (Z.to_nat num) (e :: es2)).
    assert (e :: es2 = mid ++ rest) as Heq by (unfold mid, rest; by rewrite take_drop).
    rewrite Heq in *. apply delete_wp; try done.
    + unfold mid. by replace (Z.to_nat num) with (S (Nat.pred (Z.to_nat num))) by lia.
    + by rewrite <-Heq.
    + assert (zlen rest ≤ zlen es2); [|lia].
      unfold rest. rewrite zlen_drop, zlen_cons. zlen_pos. lia.
Qed.

(** ** A client session *)
Inductive zop :=
| OPush (w : where_) (s : bytes)
| OInsert (i : Z) (s : bytes)
| ODelete (i : Z)
| ODeleteRange (i n : Z).

(** The calls a client makes: positions come from [ziplistIndex]. *)
Definition impl_step (op : zop) (zl : bytes) : option bytes :=
  match op with
  | OPush w s => ziplistPush zl s w
  | OInsert i s =>
      p ← ziplistIndex zl i;
      match p with Some p => ziplistInsert zl p s | None => Some zl end
  | ODelete i =>
      p ← ziplistIndex zl i;
      match p with Some p => fst <$> ziplistDelete zl p | None => Some zl end
  | ODeleteRange i n => ziplistDeleteRange zl i n
  end.

(** Looking up by index, as text. *)
Definition get_index (zl : bytes) (i : Z) : option (option bytes) :=
  p ← ziplistIndex zl i;
  match p with
  | Some p => v ← ziplistGet zl p; Some (option_map text v)
  | None => Some None
  end.

Definition spec_step (op : zop) (ss : list bytes) : list bytes :=
  match op with
  | OPush ZIPLIST_HEAD s => s :: ss
  | OPush ZIPLIST_TAIL s => ss ++ [s]
  | OInsert i s =>
      match norm ss i with Some j => take j ss ++ s :: drop j ss | None => ss end
  | ODelete i =>
      match norm ss i with Some j => take j ss ++ drop 1 (drop j ss) | None => ss end
  | ODeleteRange i n =>
      match norm ss i with Some j => take j ss ++ drop (Z.to_nat n) (drop j ss) | None => ss end
  end.

Fixpoint impl_run (ops : list zop) (zl : bytes) : option bytes :=
  match ops with [] => Some zl | op :: ops => zl ← impl_step op zl; impl_run ops zl end.

Fixpoint spec_run (ops : list zop) (ss : list bytes) : list bytes :=
  match ops with [] => ss | op :: ops => spec_run ops (spec_step op ss) end.

Definition op_cost (op : zop) : Z :=
  match op with OPush _ s | OInsert _ s => zlen s + 17 | _ => 0 end.

Fixpoint ops_cost (ops : list zop) : Z :=
  match ops with [] => 0 | op :: ops => op_cost op + ops_cost ops end.

Lemma index_norm zl es ss i :
  zlist zl es ss →
  ziplistIndex zl i = Some ((λ j, off (take j es)) <$> norm ss i).
Proof.
  intros [(c & -> & Hwf & Hl & Hc) Hes]. rewrite index_at by done.
  unfold index_pos, norm. rewrite (zlist_len es ss Hes). by case_match.
Qed.

(** Insertion and deletion at the [j]-th string. *)
Lemma insert_nth zl es ss j s :
  zlist zl es ss → (j ≤ length ss)%nat → room (s :: ss) →
  wp (ziplistInsert zl (off (take j es)) s)
     (λ zl', ∃ es', zlist zl' es' (take j ss ++ s :: drop j ss) ∧ take j es' = take j es).
Proof.
  intros Hz Hj Hroom. pose proof Hz as [Hr Hes].
  destruct (zlist_split zl es ss (Z.of_nat j) Hz) as (es1 & es2 & -> & He1 & Hv1 & Hv2 & Hl1);
    [unfold zlen; lia|]. rewrite Nat2Z.id in *. rewrite <-He1.
  pose proof (zrepr_zlen _ _ Hr) as Hlen. pose proof (zlist_budget _ _ Hes).
  unfold room in Hroom. simpl in Hroom. rewrite zlen_app in *. zlen_pos.
  eapply wp_mono; [apply insert_wp; [done|lia]|].
  intros zl' (big & es2' & Hr' & Hval). exists (es1 ++ (big, zval_of s) :: es2').
  split; [|apply take_app_length'; unfold zlen in Hl1; lia]. split; [done|].
  rewrite !fmap_app, !fmap_cons, Hval. by rewrite Hv1, Hv2.
Qed.

Lemma delete_nth zl es ss j n :
  zlist zl es ss → (j < length ss)%nat → room ss →
  wp (__ziplistDelete zl (off (take j es)) n)
     (λ zl', ∃ es', zlist zl' es' (take j ss ++ drop (Z.to_nat n) (drop j ss)) ∧ take j es' = take j es).
Proof.
  intros Hz Hj Hroom. pose proof Hz as [Hr Hes].
  destruct (zlist_split zl es ss (Z.of_nat j) Hz) as (es1 & es2 & -> & He1 & Hv1 & Hv2 & Hl1);
    [unfold zlen; lia|]. rewrite Nat2Z.id in *. rewrite <-He1.
  pose proof (zrepr_zlen _ _ Hr) as Hlen. pose proof (zlist_budget _ _ Hes).
  pose proof (zlist_len _ _ Hes) as Hls.
  unfold room in Hroom. rewrite zlen_app in *. zlen_pos.
  destruct es2 as [|e es2]; [rewrite (zlen_nil (A:=entry)) in *; unfold zlen in *; lia|].
  rewrite zlen_cons in *.
  eapply wp_mono; [apply (delete_at zl es1 e es2 n); [done|lia]|].
  intros zl' (es2' & Hr' & Hval). exists (es1 ++ es2').
  split; [|apply take_app_length'; unfold zlen in Hl1; lia]. split; [done|].
  by rewrite !fmap_app, Hval, fmap_drop, Hv1, Hv2, <-fmap_drop.
Qed.

Lemma budget_take_drop j ss : budget (take j ss) + budget (drop j ss) = budget ss.
Proof. by rewrite <-budget_app, take_drop. Qed.

Lemma budget_drop j ss : budget (drop j ss) ≤ budget ss.
Proof.
  pose proof (budget_take_drop j ss). pose proof (budget_nonneg (take j ss)). zlen_pos. lia.
Qed.

Lemma budget_step op ss : budget (spec_step op ss) ≤ budget ss + op_cost op.
Proof.
  destruct op as [[] s|i s|i|i n]; simpl; rewrite ?budget_app; simpl; try lia;
    (destruct (norm ss i) as [j|]; [|zlen_pos; lia]); rewrite budget_app; simpl;
    pose proof (budget_take_drop j ss); try lia.
  - pose proof (budget_drop 1 (drop j ss)). simpl in *. lia.
  - pose proof (budget_drop (Z.to_nat n) (drop j ss)). lia.
Qed.

Lemma zstep_refines op zl es ss :
  zlist zl es ss → 40 + budget ss + op_cost op < 2 ^ 32 →
  wp (impl_step op zl) (λ zl', ∃ es', zlist zl' es' (spec_step op ss)).
Proof.
  intros Hz Hroom. pose proof (budget_nonneg ss). zlen_pos.
  assert (∃ c, zl = zblock c es ∧ 11 + total es < 2 ^ 32) as (c & Heq & Hl)
    by (destruct Hz as [(c & ? & ? & ? & ?) _]; eauto).
  pose proof (zlist_len es ss (proj2 Hz)) as Hls.
  destruct op as [w s|i s|i|i n]; simpl impl_step; simpl spec_step; simpl op_cost in *.
  - destruct w.
    + eapply wp_mono; [apply (insert_nth zl es ss 0 s Hz); [lia|unfold room; simpl; lia]|].
      intros zl' (es' & ? & _). eauto.
    + unfold ziplistPush, ZIPLIST_ENTRY_END. rewrite Heq, zblock_bytes by done. rewrite <-Heq.
      cbn [mbind option_bind].
      replace (11 + total es - 1) with (off (take (length es) es))
        by (rewrite take_ge by done; unfold off; lia).
      assert (length es = length ss) as Hle by (unfold zlen in Hls; lia).
      eapply wp_mono; [apply (insert_nth zl es ss (length es) s Hz); [lia|unfold room; simpl; lia]|].
      intros zl' (es' & Hz' & _). exists es'. by rewrite Hle, take_ge, drop_ge in Hz' by done.
  - rewrite (index_norm zl es ss i Hz). cbn [mbind option_bind].
    destruct (norm ss i) as [j|] eqn:En; simpl; [|eauto].
    apply norm_bound in En. eapply wp_mono; [apply insert_nth; [done|lia|unfold room; simpl; lia]|].
    intros zl' (es' & ? & _). eauto.
  - rewrite (index_norm zl es ss i Hz). cbn [mbind option_bind].
    destruct (norm ss i) as [j|] eqn:En; simpl; [|eauto].
    apply norm_bound in En. unfold ziplistDelete.
    destruct (wp_inv _ _ (delete_nth zl es ss j 1 Hz En ltac:(unfold room; lia))) as (zl' & -> & es' & Hz' & _).
    by exists es'.
  - unfold ziplistDeleteRange. rewrite (index_norm zl es ss i Hz). cbn [mbind option_bind].
    destruct (norm ss i) as [j|] eqn:En; simpl; [|eauto].
    apply norm_bound in En. eapply wp_mono; [apply delete_nth; [done|done|unfold room; lia]|].
    intros zl' (es' & ? & _). eauto.
Qed.

Lemma zrun_refines ops : ∀ zl es ss,
  zlist zl es ss → 40 + budget ss + ops_cost ops < 2 ^ 32 →
  wp (impl_run ops zl) (λ zl', ∃ es', zlist zl' es' (spec_run ops ss)).
Proof.
  induction ops as [|op ops IH]; intros zl es ss Hz Hroom; simpl in *; [eauto|].
  assert (0 ≤ ops_cost ops).
  { clear. induction ops as [|[] ops]; simpl; zlen_pos; lia. }
  apply wp_bind. eapply wp_mono; [apply (zstep_refines op zl es ss Hz); lia|].
  intros zl' (es' & Hz'). apply (IH zl' es' _ Hz'). pose proof (budget_step op ss). lia.
Qed.

(** C7: Every sequence of pushes at both ends, insertions before an index,
    deletions of one entry and of ranges (positive and negative indices, valid
    or not), starting from [ziplistNew], completes without an access outside
    the block, and the block then holds exactly the strings that the same
    operations leave in an ordinary list.  The bound keeps the 32-bit sizes
    from wrapping. *)
Theorem ziplist_refines_list (ops : list zop) :
  40 + ops_cost ops < 2 ^ 32 →
  ∃ zl es, (zl ← ziplistNew; impl_run ops zl) = Some zl ∧ zlist zl es (spec_run ops []).
Proof.
  intros Hroom. destruct (wp_inv _ _ zrepr_new) as (zl0 & -> & Hnew). simpl.
  assert (zlist zl0 [] []) as Hz by done.
  destruct (wp_inv _ _ (zrun_refines ops zl0 [] [] Hz Hroom)) as (zl & -> & es & Hes). eauto.
Qed.

(** C24: Inserting a string of any length before any entry, or at the end, keeps
    the entries in front of the position unchanged, puts the string there (as an
    integer when it is the text of one) and keeps the values behind it, whatever
    prevlen fields have to grow, shrink or be forced large. *)
Theorem ziplistInsert_correct zl es1 es2 s :
  zrepr zl (es1 ++ es2) → zlen zl + zlen s + 20 + 4 * zlen es2 < 2 ^ 32 →
  ∃ zl' big es2', ziplistInsert zl (off es1) s = Some zl' ∧
    zrepr zl' (es1 ++ (big, zval_of s) :: es2') ∧ es2'.*2 = es2.*2.
Proof.
  intros Hr Hlim. destruct (wp_inv _ _ (insert_wp zl es1 es2 s Hr Hlim)) as (zl' & ? & ? & ? & ?).
  eauto.
Qed.

(** [__ziplistDelete] at an entry removes that entry and the following
    ones up to the given number, and keeps every other value. *)
Theorem ziplistDelete_correct zl es1 e es2 num :
  zrepr zl (es1 ++ e :: es2) → zlen zl + 4 + 4 * zlen es2 < 2 ^ 32 →
  ∃ zl' es2', __ziplistDelete zl (off es1) num = Some zl' ∧
    zrepr zl' (es1 ++ es2') ∧ es2'.*2 = drop (Z.to_nat num) (e.2 :: es2.*2).
Proof.
  intros Hr Hlim.
  destruct (wp_inv _ _ (delete_at zl es1 e es2 num Hr Hlim)) as (zl' & ? & es2' & ? & Hval).
  exists zl', es2'. split_and!; [done..|]. by rewrite Hval, fmap_drop.
Qed.

(** C16: The cascade update: called at an entry whose successor still records
    another length for it, in a block that is well formed otherwise, it
    terminates and leaves a block where every following entry records the length
    of its predecessor, with the same values, the right tail offset and the
    right size. *)
Theorem ziplistCascadeUpdate_correct zl b t c pre q0 e0 q es :
  cascade_pre zl b t c pre q0 e0 q es →
  ∃ zl', __ziplistCascadeUpdate zl (10 + zlen pre) = Some zl' ∧
    cascade_post c b pre q0 e0 es zl'.
Proof.
  intros Hpre. by destruct (wp_inv _ _ (cascade_wp _ _ _ _ _ _ _ _ _ Hpre)) as (zl' & ? & ?); eauto.
Qed.

(** [ziplistIndex] followed by [ziplistGet] returns the string at that
    index (from the end when the index is negative), and NULL when there is no
    such entry. *)
Theorem ziplistGet_index zl es ss i :
  zlist zl es ss → get_index zl i = Some (norm ss i ≫= λ j, ss !! j).
Proof.
  intros Hz. unfold get_index. rewrite (index_norm zl es ss i Hz). destruct (norm ss i) as [j|] eqn:En; [|done].
  simpl. apply norm_bound in En. destruct Hz as [(c & -> & Hwf & _) Hes].
  destruct (lookup_lt_is_Some_2 ss j En) as [s Hs]. rewrite Hs.
  assert (es.*2 !! j = Some (zval_of s)) as Hl by (by rewrite Hes, list_lookup_fmap, Hs).
  rewrite list_lookup_fmap in Hl. apply fmap_Some in Hl as (e & He & Hv).
  rewrite <-(take_drop_middle es j e He) in Hwf |- *.
  rewrite take_app_length' by (rewrite length_take; apply lookup_lt_Some in He; lia).
  rewrite get_at by done. simpl. by rewrite <-Hv, text_zval_of.
Qed.

(** [ziplistNext] visits the entries in order and ends with NULL;
    [ziplistPrev] is its inverse, also from the end marker. *)
Theorem ziplistNext_Prev zl es1 e es2 :
  zrepr zl (es1 ++ e :: es2) →
  ziplistNext zl (off es1) = Some (if bool_decide (es2 = []) then None else Some (off (es1 ++ [e]))) ∧
  ziplistPrev zl (off (es1 ++ [e])) = Some (Some (off es1)) ∧
  (es1 = [] → ziplistPrev zl (off es1) = Some None).
Proof.
  intros (c & -> & Hwf & Hl & _). split_and!.
  - by apply next_at.
  - destruct es2 as [|e2 es2]; [by apply prev_end|by apply prev_at].
  - intros ->. by apply prev_first.
Qed.

(** The search among the strings. *)
Lemma find_strings zl es1 es2 (ss2 : list bytes) s skip :
  zrepr zl (es1 ++ es2) → es2.*2 = zval_of <$> ss2 → 0 ≤ skip →
  ∃ r, ziplistFind zl (off es1) s skip = Some r ∧
  match r with
  | Some p => ∃ i, ss2 !! i = Some s ∧ p = off (es1 ++ take i es2) ∧ visited 0 skip i ∧
      ∀ j, (j < i)%nat → visited 0 skip j → ss2 !! j ≠ Some s
  | None => ∀ j, visited 0 skip j → ss2 !! j ≠ Some s
  end.
Proof.
  intros (c & -> & Hwf & _) Hes Hskip. exists (zfind es1 es2 0 skip s). split.
  { apply find_loop; [done|apply block_fuel|by left]. }
  assert (∀ j e, es2 !! j = Some e → ∃ t, ss2 !! j = Some t ∧ zmatch e.2 s = bool_decide (t = s))
    as Hm.
  { intros j e He. assert ((snd <$> es2) !! j = Some e.2) as Hv by (by rewrite list_lookup_fmap, He).
    rewrite Hes, list_lookup_fmap in Hv. apply fmap_Some in Hv as (t & Ht & ->).
    exists t. split; [done|]. apply zmatch_zval_of. }
  assert (∀ j, ss2 !! j = Some s → ∃ e, es2 !! j = Some e ∧ zmatch e.2 s = true) as Hn.
  { intros j Hj. assert ((snd <$> es2) !! j = Some (zval_of s)) as Hv
      by (by rewrite Hes, list_lookup_fmap, Hj).
    rewrite list_lookup_fmap in Hv. apply fmap_Some in Hv as (e & He & Hv). exists e.
    split; [done|]. rewrite <-Hv, zmatch_zval_of. by apply bool_decide_eq_true. }
  pose proof (zfind_spec s skip es2 es1 0 ltac:(lia)) as Hspec.
  destruct (zfind es1 es2 0 skip s) as [p|].
  - destruct Hspec as (i & e & He & -> & Hv & Hms & Hmin). exists i.
    destruct (Hm i e He) as (t & Ht & Htm). rewrite Hms in Htm. symmetry in Htm.
    apply bool_decide_eq_true in Htm as ->. split_and!; try done.
    intros j Hj Hvj (e' & He' & Hme)%Hn. by rewrite (Hmin j e') in Hme.
  - intros j Hvj (e' & He' & Hme)%Hn. by rewrite (Hspec j e') in Hme.
Qed.

(** [ziplistFind] returns the first entry, among the one at the position and
    every [skip + 1]-th after it, that holds the string, and NULL when none of
    them does. *)
Theorem ziplistFind_correct zl es1 es2 (ss2 : list bytes) s skip :
  zrepr zl (es1 ++ es2) → es2.*2 = zval_of <$> ss2 → 0 ≤ skip →
  ∃ r, ziplistFind zl (off es1) s skip = Some r ∧
  match r with
  | Some p => ∃ i, ss2 !! i = Some s ∧ p = off (es1 ++ take i es2) ∧ visited 0 skip i ∧
      ∀ j, (j < i)%nat → visited 0 skip j → ss2 !! j ≠ Some s
  | None => ∀ j, visited 0 skip j → ss2 !! j ≠ Some s
  end.
Proof. apply find_strings. Qed.

(** C25: Merging two ziplists, the second not empty, gives the concatenation of
    their values, whichever block is reused. *)
Theorem ziplistMerge_correct zl1 zl2 es1 es2 :
  zrepr zl1 es1 → zrepr zl2 es2 → es2 ≠ [] →
  zlen zl1 + zlen zl2 + 4 * zlen es2 < 2 ^ 32 →
  ∃ zl es2', ziplistMerge zl1 zl2 = Some zl ∧ zrepr zl (es1 ++ es2') ∧ es2'.*2 = es2.*2.
Proof.
  intros (c1 & -> & Hwf1 & Hl1 & Hc1) (c2 & -> & Hwf2 & Hl2 & Hc2) Hne Hlim.
  rewrite !zlen_zblock in Hlim.
  destruct (wp_inv _ _ (merge_wp c1 c2 es1 es2 Hne Hwf1 Hwf2 ltac:(lia) Hc1 Hc2))
    as (zl & ? & es2' & ? & ?). eauto.
Qed.

(** [ziplistLen] returns the number of entries, also when the 16-bit count of
    the header is saturated, and leaves the entries as they are. *)
Theorem ziplistLen_correct zl es :
  zrepr zl es → ∃ zl', ziplistLen zl = Some (zl', zlen es) ∧ zrepr zl' es.
Proof.
  intros (c & -> & Hwf & Hl & Hc). destruct (len_at c es Hwf Hl Hc) as (c' & Hlen & Hc').
  exists (zblock c' es). split; [done|]. by exists c'.
Qed.
End Spec.

(** ** The theorems at concrete inputs

    [demo] holds the strings "ab", "12" and "-4000". *)
Definition demo_es : list entry :=
  [(false, ZStr [97; 98]); (false, ZInt 12); (false, ZInt (-4000))].
Definition demo : bytes := zblock 3 demo_es.

Lemma demo_repr : zrepr demo demo_es.
Proof. exists 3. split; [done|]. vm_compute. intuition congruence. Qed.

Lemma demo_zlist : zlist demo demo_es [[97; 98]; [49; 50]; [45; 52; 48; 48; 48]].
Proof. split; [apply demo_repr|]. vm_compute. reflexivity. Qed.

(** Merging with an empty second list leaves the tail offset at the end marker:
    the last entry cannot be reached from the end although it is still there. *)
Theorem ziplistMerge_empty_second :
  ∃ zl, @ziplistMerge junk0 demo (zblock 0 []) = Some zl ∧
    ziplistLen zl = Some (zl, 3) ∧ ziplistIndex zl 2 = Some (Some 16) ∧
    ziplistIndex demo (-1) = Some (Some 16) ∧ ziplistIndex zl (-1) = Some None.
Proof. eexists. split; [vm_compute; reflexivity|]. vm_compute. done. Qed.

Lemma ziplist_refines_list_witness :
  ∃ zl es, (zl ← @ziplistNew junk0;
            @impl_run junk0 [OPush ZIPLIST_TAIL [97]; OPush ZIPLIST_HEAD [49; 50];
                             OInsert (-1) (replicate 300 120); ODeleteRange 0 1] zl) = Some zl ∧
    zlist zl es [replicate 300 120; [97]].
Proof.
  apply (@ziplist_refines_list junk0 [OPush ZIPLIST_TAIL [97]; OPush ZIPLIST_HEAD [49; 50];
    OInsert (-1) (replicate 300 120); ODeleteRange 0 1]).
  vm_compute. reflexivity.
Defined.

Lemma ziplistInsert_correct_witness :
  ∃ zl' big es2', @ziplistInsert junk0 demo (off [(false, ZStr [97; 98])]) (replicate 300 120) = Some zl' ∧
    zrepr zl' ([(false, ZStr [97; 98])] ++ (big, zval_of (replicate 300 120)) :: es2') ∧
    es2'.*2 = [ZInt 12; ZInt (-4000)].
Proof.
  apply (@ziplistInsert_correct junk0 demo [(false, ZStr [97; 98])]
    [(false, ZInt 12); (false, ZInt (-4000))] (replicate 300 120)).
  - exact demo_repr.
  - vm_compute. reflexivity.
Defined.

Lemma ziplistDelete_correct_witness :
  ∃ zl' es2', @__ziplistDelete junk0 demo (off [(false, ZStr [97; 98])]) 1 = Some zl' ∧
    zrepr zl' ([(false, ZStr [97; 98])] ++ es2') ∧ es2'.*2 = [ZInt (-4000)].
Proof.
  apply (@ziplistDelete_correct junk0 demo [(false, ZStr [97; 98])]
    (false, ZInt 12) [(false, ZInt (-4000))] 1).
  - exact demo_repr.
  - vm_compute. reflexivity.
Defined.

(** Two entries behind one of 300 bytes that still record its old length 2. *)
Lemma ziplistCascadeUpdate_correct_witness :
  let e0 := (false, ZStr (replicate 300 120)) in
  let es := [(false, ZStr [97]); (false, ZInt 7)] in
  let zl := hdr 319 316 3 ++ [] ++ ebytes 0 e0 ++ lay 2 es ++ [ZIP_END] in
  ∃ zl', @__ziplistCascadeUpdate junk0 zl (10 + zlen (@nil Z)) = Some zl' ∧
    cascade_post 3 319 [] 0 e0 es zl'.
Proof.
  intros e0 es zl.
  apply (@ziplistCascadeUpdate_correct junk0 zl 319 316 3 [] 0 e0 2 es).
  vm_compute. intuition congruence.
Defined.

Lemma ziplistGet_index_witness :
  get_index demo (-1) = Some (Some [45; 52; 48; 48; 48]).
Proof.
  apply (ziplistGet_index demo demo_es [[97; 98]; [49; 50]; [45; 52; 48; 48; 48]] (-1)).
  exact demo_zlist.
Defined.

Lemma ziplistNext_Prev_witness :
  ziplistNext demo 10 = Some (Some 14) ∧ ziplistPrev demo 14 = Some (Some 10) ∧
  (@nil entry = [] → ziplistPrev demo 10 = Some None).
Proof.
  apply (ziplistNext_Prev demo [] (false, ZStr [97; 98]) [(false, ZInt 12); (false, ZInt (-4000))]).
  exact demo_repr.
Defined.

Lemma ziplistFind_correct_witness :
  ∃ r, ziplistFind demo 10 [49; 50] 0 = Some r ∧
  match r with
  | Some p => ∃ i, [[97; 98]; [49; 50]; [45; 52; 48; 48; 48]] !! i = Some [49; 50] ∧
      p = off ([] ++ take i demo_es) ∧ visited 0 0 i ∧
      ∀ j, (j < i)%nat → visited 0 0 j → [[97; 98]; [49; 50]; [45; 52; 48; 48; 48]] !! j ≠ Some [49; 50]
  | None => ∀ j, visited 0 0 j → [[97; 98]; [49; 50]; [45; 52; 48; 48; 48]] !! j ≠ Some [49; 50]
  end.
Proof.
  apply (ziplistFind_correct demo [] demo_es [[97; 98]; [49; 50]; [45; 52; 48; 48; 48]] [49; 50] 0).
  - exact demo_repr.
  - exact (proj2 demo_zlist).
  - done.
Defined.

Lemma ziplistMerge_correct_witness :
  ∃ zl es2', @ziplistMerge junk0 demo demo = Some zl ∧ zrepr zl (demo_es ++ es2') ∧
    es2'.*2 = [ZStr [97; 98]; ZInt 12; ZInt (-4000)].
Proof.
  apply (@ziplistMerge_correct junk0 demo demo demo_es demo_es).
  - exact demo_repr.
  - exact demo_repr.
  - done.
  - vm_compute. reflexivity.
Defined.

Lemma ziplistLen_correct_witness :
  ∃ zl', ziplistLen demo = Some (zl', 3) ∧ zrepr zl' demo_es.
Proof. apply (ziplistLen_correct demo demo_es). exact demo_repr. Defined.
