(* ===== verification/Packed.v ===== *)
(** * The interface of a packed list to its clients

    [Packed] is what hashes and sorted sets call of ziplist.c, [PackedOk] what
    they rely on: a packed list holds a list of strings, and a position in it is
    the index of a string.  The file ends with the proof that ziplist.c provides
    it. *)

From S2P Require Import Prelude.
From S2P Require Import Mem.
From S2P Require Import Util.
From S2P Require Import Ziplist.
From S2P Require Import ZiplistRepr.
From S2P Require Import ZiplistOps.
From S2P Require Import ZiplistWalk.
From S2P Require Import ZiplistSpec.
Import Ziplist.

Module Packed.

(** [L] is the packed list, [P] a pointer into it.  A result of [None] is a
    failed assertion or a wild access, an inner [None] is NULL. *)
Class Packed (L P : Type) := {
  packed_new : option L;
  packed_index : L → Z → option (option P);
  packed_next : L → P → option (option P);
  packed_prev : L → P → option (option P);
  packed_get : L → P → option (option zval);
  packed_compare : L → P → bytes → option bool;
  packed_find : L → P → bytes → Z → option (option P);
  packed_insert : L → P → bytes → option L;
  packed_delete : L → P → option (L * P);
  packed_delete_range : L → Z → Z → option L;
  packed_push : L → bytes → where_ → option L;
  packed_len : L → option (L * Z) }.

(** [packed_at l ss j p]: the list holds the strings [ss] and [p] is where the
    [j]-th one is, or the end when there are [j] strings. *)
Class PackedOk (L P : Type) `{!Packed L P} := {
  packed_rep : L → list bytes → Prop;
  packed_at : L → list bytes → nat → P → Prop;
  packed_at_rep l ss j p : packed_at l ss j p → packed_rep l ss;
  packed_new_ok : ∃ l, packed_new = Some l ∧ packed_rep l [];
  packed_index_ok l ss i :
    packed_rep l ss →
    match norm ss i with
    | Some j => ∃ p, packed_index l i = Some (Some p) ∧ packed_at l ss j p
    | None => packed_index l i = Some None
    end;
  packed_next_ok l ss j p :
    packed_at l ss j p →
    if decide (S j < length ss)%nat
    then ∃ q, packed_next l p = Some (Some q) ∧ packed_at l ss (S j) q
    else packed_next l p = Some None;
  packed_prev_ok l ss j p :
    packed_at l ss j p → (j < length ss)%nat →
    match j with
    | O => packed_prev l p = Some None
    | S i => ∃ q, packed_prev l p = Some (Some q) ∧ packed_at l ss i q
    end;
  packed_get_ok l ss j p :
    packed_at l ss j p → packed_get l p = Some (zval_of <$> ss !! j);
  packed_compare_ok l ss j p t s :
    packed_at l ss j p → ss !! j = Some t → packed_compare l p s = Some (bool_decide (t = s));
  packed_find_ok l ss j p s skip :
    packed_at l ss j p → 0 ≤ skip →
    ∃ r, packed_find l p s skip = Some r ∧
    match r with
    | Some q => ∃ i, ss !! (j + i)%nat = Some s ∧ packed_at l ss (j + i)%nat q ∧ visited 0 skip i ∧
        ∀ i', (i' < i)%nat → visited 0 skip i' → ss !! (j + i')%nat ≠ Some s
    | None => ∀ i, visited 0 skip i → ss !! (j + i)%nat ≠ Some s
    end;
  packed_insert_ok l ss j p s :
    packed_at l ss j p → room (s :: ss) →
    ∃ l', packed_insert l p s = Some l' ∧ packed_at l' (take j ss ++ s :: drop j ss) j p;
  packed_delete_ok l ss j p :
    packed_at l ss j p → (j < length ss)%nat → room ss →
    ∃ l', packed_delete l p = Some (l', p) ∧ packed_at l' (take j ss ++ drop (S j) ss) j p;
  packed_delete_range_ok l ss i n :
    packed_rep l ss → room ss →
    ∃ l', packed_delete_range l i n = Some l' ∧
      packed_rep l' (match norm ss i with
                     | Some j => take j ss ++ drop (Z.to_nat n) (drop j ss)
                     | None => ss
                     end);
  packed_push_ok l ss s w :
    packed_rep l ss → room (s :: ss) →
    ∃ l', packed_push l s w = Some l' ∧
      packed_rep l' (match w with ZIPLIST_HEAD => s :: ss | ZIPLIST_TAIL => ss ++ [s] end);
  packed_len_ok l ss :
    packed_rep l ss → ∃ l', packed_len l = Some (l', zlen ss) ∧ packed_rep l' ss }.

(** ** ziplist.c as such a list *)
Section ZiplistPacked.
Context `{Alloc}.

#[export] Instance ziplist_packed : Packed bytes Z := {|
  packed_new := ziplistNew;
  packed_index := ziplistIndex;
  packed_next := ziplistNext;
  packed_prev := ziplistPrev;
  packed_get := ziplistGet;
  packed_compare := ziplistCompare;
  packed_find := ziplistFind;
  packed_insert := ziplistInsert;
  packed_delete := ziplistDelete;
  packed_delete_range := ziplistDeleteRange;
  packed_push := ziplistPush;
  packed_len := ziplistLen |}.

Definition zl_at (zl : bytes) (ss : list bytes) (j : nat) (p : Z) : Prop :=
  ∃ es, zlist zl es ss ∧ (j ≤ length ss)%nat ∧ p = off (take j es).

(** The entry at a position. *)
Lemma zl_at_entry zl ss j p :
  zl_at zl ss j p → (j < length ss)%nat →
  ∃ c es1 e es2, zl = zblock c (es1 ++ e :: es2) ∧ wf_es 0 (es1 ++ e :: es2) ∧
    zlist zl (es1 ++ e :: es2) ss ∧ 11 + total (es1 ++ e :: es2) < 2 ^ 32 ∧
    length es1 = j ∧ p = off es1 ∧ zval_of <$> ss !! j = Some e.2.
Proof.
  intros (es & Hz & _ & ->) Hj. pose proof Hz as [(c & Hzl & Hwf & Hlim & _) Hes].
  pose proof (zlist_len es ss Hes) as Hlen. unfold zlen in Hlen.
  assert ((snd <$> es) !! j = zval_of <$> ss !! j) as Hv by (by rewrite Hes, list_lookup_fmap).
  destruct (lookup_lt_is_Some_2 es j ltac:(lia)) as [e He].
  exists c, (take j es), e, (drop (S j) es). rewrite (take_drop_middle es j e He).
  rewrite list_lookup_fmap, He in Hv. rewrite length_take. split_and!; auto; lia.
Qed.

Lemma zl_next_ok zl ss j p :
  zl_at zl ss j p →
  if decide (S j < length ss)%nat
  then ∃ q, ziplistNext zl p = Some (Some q) ∧ zl_at zl ss (S j) q
  else ziplistNext zl p = Some None.
Proof.
  intros Hat. destruct (decide (j < length ss)%nat) as [Hj|Hj].
  2:{ rewrite decide_False by lia. destruct Hat as (es & [(c & -> & Hwf & _) Hes] & _ & ->).
      pose proof (zlist_len es ss Hes) as Hlen. unfold zlen in Hlen. rewrite take_ge by lia. by apply next_end. }
  destruct (zl_at_entry zl ss j p Hat Hj) as (c & es1 & e & es2 & Hzl & Hwf & Hz & Hlim & Hl & -> & _).
  pose proof (zlist_len _ _ (proj2 Hz)) as Hlen. unfold zlen in Hlen. rewrite length_app in Hlen. simpl in Hlen.
  rewrite Hzl, next_at by done. rewrite <-Hzl. destruct es2 as [|e2 es2].
  - rewrite decide_False by (simpl in *; lia). by rewrite bool_decide_eq_true_2.
  - rewrite decide_True by (simpl in *; lia). rewrite bool_decide_eq_false_2 by done. eexists. split; [done|].
    exists (es1 ++ e :: e2 :: es2). split_and!; [done|lia|].
    rewrite (cons_middle e es1 (e2 :: es2)), (app_assoc es1), take_app_length'; [done|].
    rewrite length_app. simpl. lia.
Qed.

Lemma zl_prev_ok zl ss j p :
  zl_at zl ss j p → (j < length ss)%nat →
  match j with
  | O => ziplistPrev zl p = Some None
  | S i => ∃ q, ziplistPrev zl p = Some (Some q) ∧ zl_at zl ss i q
  end.
Proof.
  intros Hat Hj. destruct (zl_at_entry zl ss j p Hat Hj) as (c & es1 & e & es2 & Hzl & Hwf & Hz & Hlim & Hl & -> & _).
  destruct j as [|i].
  - apply length_zero_iff_nil in Hl as ->. rewrite Hzl. by apply prev_first.
  - destruct (exists_last (l := es1)) as (es0 & e0 & ->); [by intros ->|]. rewrite length_app in Hl. simpl in Hl.
    rewrite Hzl. rewrite <-app_assoc in *. simpl in *. rewrite prev_at by done. eexists. split; [done|].
    rewrite <-Hzl. eexists. split_and!; [exact Hz|lia|]. f_equal. symmetry. apply take_app_length'. lia.
Qed.

Lemma zl_get_ok zl ss j p : zl_at zl ss j p → ziplistGet zl p = Some (zval_of <$> ss !! j).
Proof.
  intros Hat. destruct (decide (j < length ss)%nat) as [Hj|Hj].
  - destruct (zl_at_entry zl ss j p Hat Hj) as (c & es1 & e & es2 & -> & Hwf & _ & _ & _ & -> & ->). by apply get_at.
  - destruct Hat as (es & [(c & -> & Hwf & _) Hes] & _ & ->). pose proof (zlist_len es ss Hes) as Hlen. unfold zlen in Hlen.
    rewrite take_ge by lia. rewrite (lookup_ge_None_2 ss) by lia. by apply get_end.
Qed.

Lemma zl_compare_ok zl ss j p t s :
  zl_at zl ss j p → ss !! j = Some t → ziplistCompare zl p s = Some (bool_decide (t = s)).
Proof.
  intros Hat Ht. destruct (zl_at_entry zl ss j p Hat (lookup_lt_Some _ _ _ Ht)) as (c & es1 & e & es2 & -> & Hwf & _ & _ & _ & -> & Hv).
  rewrite compare_at by done. rewrite Ht in Hv. injection Hv as <-. by rewrite zmatch_zval_of.
Qed.

Lemma zl_find_ok zl ss j p s skip :
  zl_at zl ss j p → 0 ≤ skip →
  ∃ r, ziplistFind zl p s skip = Some r ∧
  match r with
  | Some q => ∃ i, ss !! (j + i)%nat = Some s ∧ zl_at zl ss (j + i)%nat q ∧ visited 0 skip i ∧
      ∀ i', (i' < i)%nat → visited 0 skip i' → ss !! (j + i')%nat ≠ Some s
  | None => ∀ i, visited 0 skip i → ss !! (j + i)%nat ≠ Some s
  end.
Proof.
  intros (es & Hz & Hj & ->) Hskip. pose proof Hz as [Hr Hes].
  assert (es = take j es ++ drop j es) as Hsplit by (by rewrite take_drop).
  destruct (find_strings zl (take j es) (drop j es) (drop j ss) s skip) as (r & Hrun & Hspec);
    [by rewrite take_drop|by rewrite !fmap_drop, Hes|done|].
  exists r. split; [done|]. destruct r as [q|].
  - destruct Hspec as (i & Hi & -> & Hv & Hmin). exists i. rewrite <-lookup_drop. split_and!; [done| |done|].
    + exists es. split_and!; [done| |by rewrite take_take_drop]. apply lookup_lt_Some in Hi. rewrite length_drop in Hi. lia.
    + intros i'. rewrite <-lookup_drop. apply Hmin.
  - intros i. rewrite <-lookup_drop. apply Hspec.
Qed.

Lemma zl_insert_ok zl ss j p s :
  zl_at zl ss j p → room (s :: ss) →
  ∃ zl', ziplistInsert zl p s = Some zl' ∧ zl_at zl' (take j ss ++ s :: drop j ss) j p.
Proof.
  intros (es & Hz & Hj & ->) Hroom.
  destruct (wp_inv _ _ (insert_nth zl es ss j s Hz Hj Hroom)) as (zl' & Hrun & es' & Hz' & Ht).
  exists zl'. split; [done|]. exists es'. split_and!; [done| |by rewrite Ht].
  rewrite length_app, length_take. simpl. lia.
Qed.

Lemma zl_delete_ok zl ss j p :
  zl_at zl ss j p → (j < length ss)%nat → room ss →
  ∃ zl', ziplistDelete zl p = Some (zl', p) ∧ zl_at zl' (take j ss ++ drop (S j) ss) j p.
Proof.
  intros (es & Hz & _ & ->) Hj Hroom. unfold ziplistDelete.
  destruct (wp_inv _ _ (delete_nth zl es ss j 1 Hz Hj Hroom)) as (zl' & -> & es' & Hz' & Ht).
  exists zl'. split; [done|]. rewrite drop_drop in Hz'. replace (j + Z.to_nat 1)%nat with (S j) in Hz' by lia.
  exists es'. split_and!; [done| |by rewrite Ht]. rewrite length_app, length_take. lia.
Qed.

#[export] Instance ziplist_packed_ok : PackedOk bytes Z.
Proof.
  refine {| packed_rep := λ zl ss, ∃ es, zlist zl es ss; packed_at := zl_at |}.
  - intros zl ss j p (es & Hz & _). eauto.
  - destruct (wp_inv _ _ zrepr_new) as (zl & Hrun & Hnew). exists zl. split; [done|]. by exists [].
  - intros zl ss i (es & Hz). simpl. rewrite (index_norm zl es ss i Hz).
    destruct (norm ss i) as [j|] eqn:En; simpl; [|done]. eexists. split; [done|]. exists es.
    apply norm_bound in En. split_and!; [done|lia|done].
  - apply zl_next_ok.
  - apply zl_prev_ok.
  - apply zl_get_ok.
  - apply zl_compare_ok.
  - apply zl_find_ok.
  - apply zl_insert_ok.
  - apply zl_delete_ok.
  - intros zl ss i n (es & Hz) Hroom.
    destruct (wp_inv _ _ (zstep_refines (ODeleteRange i n) zl es ss Hz ltac:(unfold room in *; simpl; lia))) as (zl' & Hrun & Hz').
    by exists zl'.
  - intros zl ss s w (es & Hz) Hroom.
    destruct (wp_inv _ _ (zstep_refines (OPush w s) zl es ss Hz ltac:(unfold room in *; simpl in *; lia))) as (zl' & Hrun & Hz').
    exists zl'. split; [done|]. by destruct w.
  - intros zl ss (es & (c & -> & Hwf & Hlim & Hc) & Hes). rewrite <-(zlist_len es ss Hes).
    destruct (len_at c es Hwf Hlim Hc) as (c' & Hrun & Hc'). eexists. split; [done|]. exists es. split; [|done]. by exists c'.
Defined.
End ZiplistPacked.
End Packed.
