(* ===== verification/Adlist.v ===== *)
(** * adlist.c: the generic doubly linked list

    Nodes live in a shared heap, a finite map from pointers to nodes; the
    [struct list] is a record that the operations return updated.  [None] is a
    dereference of NULL or of a freed node.  [freed] records the values handed
    to the [free] method, in order. *)

From S2P Require Import Prelude.

Module Adlist.

Notation ptr := positive.

Section Adlist.
Context {V : Type}.

Record listNode := ListNode { prev : option ptr; next : option ptr; value : V }.

(** The [free] method is only called for its effect: [true] when it is set. *)
Record lst := List {
  head : option ptr; tail : option ptr;
  dup : option (V → option V); free : bool; match_ : option (V → V → bool);
  len : Z }.

Record heap := Heap { nodes : gmap ptr listNode; freed : list V }.

Inductive direction := AL_START_HEAD | AL_START_TAIL.
Record listIter := ListIter { inext : option ptr; idir : direction }.

(** ** Memory *)
Definition deref (h : heap) (p : option ptr) : option listNode := p ≫= λ p, nodes h !! p.

Definition zmalloc_node (h : heap) : ptr := fresh (dom (nodes h)).

Definition set_node (h : heap) (p : ptr) (n : listNode) : heap :=
  Heap (<[p := n]> (nodes h)) (freed h).

(** [p->next = v] and [p->prev = v]. *)
Definition set_next (h : heap) (p : option ptr) (v : option ptr) : option heap :=
  p ← p; n ← nodes h !! p; Some (set_node h p (ListNode (prev n) v (value n))).

Definition set_prev (h : heap) (p : option ptr) (v : option ptr) : option heap :=
  p ← p; n ← nodes h !! p; Some (set_node h p (ListNode v (next n) (value n))).

(** [zfree] of a node: freeing twice is an error. *)
Definition zfree_node (h : heap) (p : ptr) : option heap :=
  n ← nodes h !! p; Some (Heap (delete p (nodes h)) (freed h)).

Definition call_free (l : lst) (h : heap) (v : V) : heap :=
  if free l then Heap (nodes h) (freed h ++ [v]) else h.

(** [unsigned long] arithmetic on the length. *)
Definition set_ends (l : lst) (hd tl : option ptr) (n : Z) : lst :=
  List hd tl (dup l) (free l) (match_ l) (uwrap 64 n).

(** ** Operations *)
Definition listCreate : lst := List None None None false None 0.

Fixpoint listEmpty_loop (len : nat) (l : lst) (h : heap) (current : option ptr) : option heap :=
  match len with
  | O => Some h
  | S len =>
      p ← current;
      n ← nodes h !! p;
      let h := call_free l h (value n) in
      h ← zfree_node h p;
      listEmpty_loop len l h (next n)
  end.

Definition listEmpty (l : lst) (h : heap) : option (lst * heap) :=
  h ← listEmpty_loop (Z.to_nat (len l)) l h (head l);
  Some (set_ends l None None 0, h).

(** The [struct list] itself is not in the heap. *)
Definition listRelease (l : lst) (h : heap) : option heap :=
  '(_, h) ← listEmpty l h; Some h.

Definition listAddNodeHead (l : lst) (h : heap) (v : V) : option (lst * heap) :=
  let node := zmalloc_node h in
  if len l =? 0 then
    Some (set_ends l (Some node) (Some node) (len l + 1), set_node h node (ListNode None None v))
  else
    let h := set_node h node (ListNode None (head l) v) in
    h ← set_prev h (head l) (Some node);
    Some (set_ends l (Some node) (tail l) (len l + 1), h).

Definition listAddNodeTail (l : lst) (h : heap) (v : V) : option (lst * heap) :=
  let node := zmalloc_node h in
  if len l =? 0 then
    Some (set_ends l (Some node) (Some node) (len l + 1), set_node h node (ListNode None None v))
  else
    let h := set_node h node (ListNode (tail l) None v) in
    h ← set_next h (tail l) (Some node);
    Some (set_ends l (head l) (Some node) (len l + 1), h).

Definition listInsertNode (l : lst) (h : heap) (old_node : ptr) (v : V) (after : bool) :
    option (lst * heap) :=
  let node := zmalloc_node h in
  old ← nodes h !! old_node;
  let '(n, l) :=
    if after then
      (ListNode (Some old_node) (next old) v,
       if bool_decide (tail l = Some old_node) then set_ends l (head l) (Some node) (len l) else l)
    else
      (ListNode (prev old) (Some old_node) v,
       if bool_decide (head l = Some old_node) then set_ends l (Some node) (tail l) (len l) else l) in
  let h := set_node h node n in
  h ← (match prev n with Some _ => set_next h (prev n) (Some node) | None => Some h end);
  h ← (match next n with Some _ => set_prev h (next n) (Some node) | None => Some h end);
  Some (set_ends l (head l) (tail l) (len l + 1), h).

Definition listDelNode (l : lst) (h : heap) (node : ptr) : option (lst * heap) :=
  n ← nodes h !! node;
  '(l, h) ← (match prev n with
             | Some _ => h ← set_next h (prev n) (next n); Some (l, h)
             | None => Some (set_ends l (next n) (tail l) (len l), h)
             end);
  n ← nodes h !! node;
  '(l, h) ← (match next n with
             | Some _ => h ← set_prev h (next n) (prev n); Some (l, h)
             | None => Some (set_ends l (head l) (prev n) (len l), h)
             end);
  n ← nodes h !! node;
  let h := call_free l h (value n) in
  h ← zfree_node h node;
  Some (set_ends l (head l) (tail l) (len l - 1), h).

Definition listGetIterator (l : lst) (d : direction) : listIter :=
  match d with
  | AL_START_HEAD => ListIter (head l) d
  | AL_START_TAIL => ListIter (tail l) d
  end.

Definition listRewind (l : lst) : listIter := ListIter (head l) AL_START_HEAD.
Definition listRewindTail (l : lst) : listIter := ListIter (tail l) AL_START_TAIL.

Definition listNext (h : heap) (iter : listIter) : option (option ptr * listIter) :=
  match inext iter with
  | None => Some (None, iter)
  | Some current =>
      n ← nodes h !! current;
      Some (Some current,
        ListIter (match idir iter with AL_START_HEAD => next n | AL_START_TAIL => prev n end)
          (idir iter))
  end.

(** One round of the loop of [listDup] on state [(iter, copy, h)]; the result is
    [None] when the [dup] method failed. *)
Definition dup_body (s : listIter * lst * heap) :
    option (listIter * lst * heap + option lst * heap) :=
  let '(iter, copy, h) := s in
  '(node, iter) ← listNext h iter;
  match node with
  | None => Some (inr (Some copy, h))
  | Some node =>
      n ← nodes h !! node;
      match (match dup copy with Some f => f (value n) | None => Some (value n) end) with
      | None => h ← listRelease copy h; Some (inr (None, h))
      | Some v => '(copy, h) ← listAddNodeTail copy h v; Some (inl (iter, copy, h))
      end
  end.

Definition listDup (orig : lst) (h : heap) : option (option lst * heap) :=
  let copy := List None None (dup orig) (free orig) (match_ orig) 0 in
  loop (S (size (nodes h))) dup_body (listRewind orig, copy, h).

Context `{EqDecision V}.

Definition search_body (l : lst) (h : heap) (key : V) (iter : listIter) :
    option (listIter + option ptr) :=
  '(node, iter) ← listNext h iter;
  match node with
  | None => Some (inr None)
  | Some node =>
      n ← nodes h !! node;
      let eq := match match_ l with
                | Some f => f (value n) key
                | None => bool_decide (key = value n)
                end in
      Some (if eq : bool then inr (Some node) else inl iter)
  end.

Definition listSearchKey (l : lst) (h : heap) (key : V) : option (option ptr) :=
  loop (S (size (nodes h))) (search_body l h key) (listRewind l).

(** [while (index-- && n) n = step(n)] *)
Fixpoint index_walk (step : listNode → option ptr) (index : nat) (h : heap) (n : option ptr) :
    option (option ptr) :=
  match index, n with
  | O, _ => Some n
  | S index, None => Some None
  | S index, Some p => nd ← nodes h !! p; index_walk step index h (step nd)
  end.

Definition listIndex (l : lst) (h : heap) (index : Z) : option (option ptr) :=
  if index <? 0 then index_walk prev (Z.to_nat (- index - 1)) h (tail l)
  else index_walk next (Z.to_nat index) h (head l).

Definition listRotate (l : lst) (h : heap) : option (lst * heap) :=
  if len l <=? 1 then Some (l, h)
  else
    tl ← tail l;
    t ← nodes h !! tl;
    let l := set_ends l (head l) (prev t) (len l) in
    h ← set_next h (tail l) None;
    h ← set_prev h (head l) (Some tl);
    h ← set_prev h (Some tl) None;
    h ← set_next h (Some tl) (head l);
    Some (set_ends l (Some tl) (tail l) (len l), h).

(** [l] and [o] are two different lists. *)
Definition listJoin (l o : lst) (h : heap) : option (lst * lst * heap) :=
  h ← (match head o with Some _ => set_prev h (head o) (tail l) | None => Some h end);
  '(l, h) ← (match tail l with
             | Some _ => h ← set_next h (tail l) (head o); Some (l, h)
             | None => Some (set_ends l (head o) (tail l) (len l), h)
             end);
  let l := match tail o with Some _ => set_ends l (head l) (tail o) (len l) | None => l end in
  Some (set_ends l (head l) (tail l) (len l + len o), set_ends o None None 0, h).

End Adlist.
Arguments listNode V : clear implicits.
Arguments lst V : clear implicits.
Arguments heap V : clear implicits.
End Adlist.
