(* ===== verification/AdlistSpec.v ===== *)
(** * The linked list represents a sequence of values

    [dll h l xs]: in the heap [h] the list [l] consists of the nodes and values
    [xs], linked in both directions.  Every operation is stated with its frame:
    nodes outside the list are untouched. *)

From S2P Require Import Prelude.
From S2P Require Import Adlist.
Import Adlist.

Section Repr.
Context {V : Type}.
Notation cells := (list (ptr * V)).

Definition first (xs : cells) (nx : option ptr) : option ptr :=
  match xs with [] => nx | (p, _) :: _ => Some p end.

Definition lastp (xs : cells) (pv : option ptr) : option ptr :=
  match last xs with Some (p, _) => Some p | None => pv end.

(** A linked segment between the neighbours [pv] and [nx]. *)
Fixpoint seg (m : gmap ptr (listNode V)) (pv : option ptr) (xs : cells) (nx : option ptr) : Prop :=
  match xs with
  | [] => True
  | (p, v) :: xs =>
      m !! p = Some (ListNode pv (first xs nx) v) ∧ seg m (Some p) xs nx
  end.

Definition dll (h : heap V) (l : lst V) (xs : cells) : Prop :=
  seg (nodes h) None xs None ∧ NoDup xs.*1 ∧
  head l = first xs None ∧ tail l = lastp xs None ∧ len l = zlen xs ∧ zlen xs < 2 ^ 64 - 1.

(** The methods of a list never change. *)
Definition same_methods (l l' : lst V) : Prop :=
  dup l' = dup l ∧ free l' = free l ∧ match_ l' = match_ l.

(** Nodes outside [D] are untouched. *)
Definition frame (D : list ptr) (h h' : heap V) : Prop :=
  ∀ p, p ∈ dom (nodes h) → p ∉ D → nodes h' !! p = nodes h !! p.

Lemma first_app xs ys nx : first (xs ++ ys) nx = first xs (first ys nx).
Proof. by destruct xs as [|[]]. Qed.

Lemma lastp_snoc xs p v pv : lastp (xs ++ [(p, v)]) pv = Some p.
Proof. unfold lastp. by rewrite last_snoc. Qed.

Lemma lastp_cons p v xs pv : lastp ((p, v) :: xs) pv = lastp xs (Some p).
Proof.
  destruct xs as [|x xs _] using rev_ind; [done|]. unfold lastp. rewrite app_comm_cons.
  by rewrite !last_snoc.
Qed.

Lemma lastp_app xs ys pv : lastp (xs ++ ys) pv = lastp ys (lastp xs pv).
Proof.
  revert pv; induction xs as [|[p v] xs IH]; intros pv; [done|].
  simpl app. by rewrite !lastp_cons.
Qed.

Lemma seg_app m pv xs ys nx :
  seg m pv (xs ++ ys) nx ↔ seg m pv xs (first ys nx) ∧ seg m (lastp xs pv) ys nx.
Proof.
  revert pv; induction xs as [|[p v] xs IH]; intros pv; simpl; [tauto|].
  rewrite IH, first_app, lastp_cons. tauto.
Qed.

(** Writing to a node outside the segment. *)
Lemma seg_insert m p n pv xs nx : p ∉ xs.*1 → seg (<[p := n]> m) pv xs nx ↔ seg m pv xs nx.
Proof.
  revert pv; induction xs as [|[q v] xs IH]; intros pv Hp; [done|].
  rewrite fmap_cons, not_elem_of_cons in Hp. destruct Hp as [Hne Hp]. simpl.
  rewrite lookup_insert_ne by (simpl in Hne; congruence). by rewrite IH.
Qed.

Lemma seg_delete m p pv xs nx : p ∉ xs.*1 → seg (delete p m) pv xs nx ↔ seg m pv xs nx.
Proof.
  revert pv; induction xs as [|[q v] xs IH]; intros pv Hp; [done|].
  rewrite fmap_cons, not_elem_of_cons in Hp. destruct Hp as [Hne Hp]. simpl.
  rewrite lookup_delete_ne by (simpl in Hne; congruence). by rewrite IH.
Qed.

Lemma seg_ext m m' pv xs nx :
  (∀ p, p ∈ xs.*1 → m' !! p = m !! p) → seg m pv xs nx → seg m' pv xs nx.
Proof.
  revert pv; induction xs as [|[q v] xs IH]; intros pv Heq; [done|]. simpl.
  intros [Hq Hs]. rewrite Heq by (rewrite fmap_cons; apply elem_of_cons; by left).
  split; [done|]. apply IH; [|done]. intros p Hp. apply Heq. rewrite fmap_cons.
  apply elem_of_cons. by right.
Qed.

Lemma seg_dom m pv xs nx p : seg m pv xs nx → p ∈ xs.*1 → p ∈ dom m.
Proof.
  revert pv; induction xs as [|[q v] xs IH]; intros pv; simpl.
  - by intros _ ?%not_elem_of_nil.
  - intros [Hq Hs] [->|Hp]%elem_of_cons; [|by eapply IH]. apply elem_of_dom. simpl. eauto.
Qed.

Lemma seg_mid m pv xs p v ys nx :
  seg m pv (xs ++ (p, v) :: ys) nx ↔
  seg m pv xs (Some p) ∧ m !! p = Some (ListNode (lastp xs pv) (first ys nx) v) ∧
  seg m (Some p) ys nx.
Proof. rewrite seg_app. simpl. tauto. Qed.

(** [seg] with a new right neighbour: only the last node changes, and dually. *)
Lemma seg_set_next m pv xs p v nx nx' :
  p ∉ xs.*1 → seg m pv (xs ++ [(p, v)]) nx →
  seg (<[p := ListNode (lastp xs pv) nx' v]> m) pv (xs ++ [(p, v)]) nx'.
Proof.
  intros Hp (Hxs & _ & _)%seg_mid. apply seg_mid. rewrite seg_insert by done.
  by rewrite lookup_insert_eq.
Qed.

Lemma seg_set_prev m pv pv' xs p v nx :
  p ∉ xs.*1 → seg m pv ((p, v) :: xs) nx →
  seg (<[p := ListNode pv' (first xs nx) v]> m) pv' ((p, v) :: xs) nx.
Proof.
  intros Hp [_ Hs]. simpl. rewrite lookup_insert_eq. split; [done|]. by apply seg_insert.
Qed.

Lemma seg_length m pv xs nx : seg m pv xs nx → NoDup xs.*1 → (length xs ≤ size m)%nat.
Proof.
  intros Hs Hnd. rewrite <-(length_fmap fst xs), <-(size_list_to_set (C:=gset ptr)) by done.
  rewrite <-size_dom. apply subseteq_size. intros p. rewrite elem_of_list_to_set.
  by eapply seg_dom.
Qed.

Lemma NoDup_mid (xs ys : cells) p v :
  NoDup (xs ++ (p, v) :: ys).*1 ↔ NoDup (xs ++ ys).*1 ∧ p ∉ xs.*1 ∧ p ∉ ys.*1.
Proof.
  rewrite !fmap_app, fmap_cons, !NoDup_app, NoDup_cons. simpl. set_solver.
Qed.

Lemma fresh_notin (h : heap V) p n : nodes h !! p = Some n → zmalloc_node h ≠ p.
Proof.
  intros Hp Heq. apply (is_fresh (dom (nodes h))). fold (zmalloc_node h). rewrite Heq.
  apply elem_of_dom. eauto.
Qed.

Lemma fresh_notin_seg (h : heap V) pv xs nx : seg (nodes h) pv xs nx → zmalloc_node h ∉ xs.*1.
Proof. intros Hs Hin. eapply (is_fresh (dom (nodes h))). by eapply seg_dom. Qed.

Lemma frame_refl D h : frame D h h.
Proof. done. Qed.

Lemma set_next_at (h : heap V) p n v :
  nodes h !! p = Some n → set_next h (Some p) v = Some (set_node h p (ListNode (prev n) v (value n))).
Proof. intros Hp. unfold set_next. simpl. by rewrite Hp. Qed.

Lemma set_prev_at (h : heap V) p n v :
  nodes h !! p = Some n → set_prev h (Some p) v = Some (set_node h p (ListNode v (next n) (value n))).
Proof. intros Hp. unfold set_prev. simpl. by rewrite Hp. Qed.

(** The common shape of the results: the new list, what was touched, what was
    handed to [free]. *)
Definition result (h : heap V) (l : lst V) (D : list ptr) (ys : cells) (fs : list V)
    (r : lst V * heap V) : Prop :=
  dll r.2 r.1 ys ∧ frame D h r.2 ∧ same_methods l r.1 ∧ freed r.2 = freed h ++ fs.

Lemma dll_intro h l xs hd tl n :
  seg (nodes h) None xs None → NoDup xs.*1 → hd = first xs None → tl = lastp xs None →
  n = zlen xs → zlen xs < 2 ^ 64 - 1 → dll h (set_ends l hd tl n) xs.
Proof.
  intros. unfold dll. simpl. rewrite uwrap_id by (unfold in_u; zlen_pos; lia). by split_and!.
Qed.

Lemma zlen_cells_0 (xs : cells) : (zlen xs =? 0) = bool_decide (xs = []).
Proof.
  destruct xs as [|x xs]; [done|]. rewrite zlen_cons. zlen_pos.
  rewrite bool_decide_eq_false_2 by done. apply Z.eqb_neq. lia.
Qed.

Ltac frame_tac :=
  let q := fresh "q" in let Hd := fresh in let Hq := fresh in
  intros q Hd Hq; simpl;
  repeat first
    [ rewrite lookup_insert_ne; [|by intros ->; set_solver]
    | rewrite lookup_delete_ne; [|by intros ->; set_solver]
    | rewrite lookup_insert_ne;
      [|intros <-; exact (is_fresh _ Hd)] ];
  try done.

Lemma addHead_ok h l xs v :
  dll h l xs → zlen xs + 1 < 2 ^ 64 - 1 →
  wp (listAddNodeHead l h v) (result h l xs.*1 ((zmalloc_node h, v) :: xs) []).
Proof.
  intros (Hs & Hnd & Hh & Ht & Hl & Hlen) Hlen'. unfold listAddNodeHead.
  pose proof (fresh_notin_seg h _ _ _ Hs) as Hf.
  rewrite Hl, zlen_cells_0. destruct xs as [|[p x] xs].
  - rewrite bool_decide_eq_true_2 by done. unfold result. simpl. rewrite app_nil_r.
    split_and!; try done; [|frame_tac].
    apply dll_intro; try done. { simpl. by rewrite lookup_insert_eq. } { apply NoDup_singleton. }
  - rewrite bool_decide_eq_false_2 by done. rewrite Hh. simpl first.
    pose proof Hs as [Hp Hs'].
    assert (zmalloc_node h ≠ p) as Hne by (by eapply fresh_notin).
    rewrite (set_prev_at _ p (ListNode None (first xs None) x))
      by (simpl; by rewrite lookup_insert_ne).
    simpl. unfold result. simpl. rewrite app_nil_r. split_and!; try done; [|frame_tac].
    rewrite fmap_cons in Hnd, Hf. apply NoDup_cons in Hnd as [Hpx Hnd].
    rewrite not_elem_of_cons in Hf. destruct Hf as [_ Hf].
    apply dll_intro; rewrite ?lastp_cons in *; try done.
    + simpl. rewrite lookup_insert_ne, !lookup_insert_eq by done. split_and!; [done..|].
      by rewrite !seg_insert.
    + rewrite !fmap_cons, !NoDup_cons. set_solver.
    + zl.
    + zl.
Qed.

Lemma addTail_ok h l xs v :
  dll h l xs → zlen xs + 1 < 2 ^ 64 - 1 →
  wp (listAddNodeTail l h v) (result h l xs.*1 (xs ++ [(zmalloc_node h, v)]) []).
Proof.
  intros (Hs & Hnd & Hh & Ht & Hl & Hlen) Hlen'. unfold listAddNodeTail.
  pose proof (fresh_notin_seg h _ _ _ Hs) as Hf.
  rewrite Hl, zlen_cells_0. destruct xs as [|[p x] xs _] using rev_ind.
  - rewrite bool_decide_eq_true_2 by done. unfold result. simpl. rewrite app_nil_r.
    split_and!; try done; [|frame_tac].
    apply dll_intro; try done. { simpl. by rewrite lookup_insert_eq. } { apply NoDup_singleton. }
  - rewrite bool_decide_eq_false_2 by (by destruct xs). rewrite Ht, lastp_snoc.
    pose proof Hs as (Hxs & Hp & _)%seg_mid.
    assert (zmalloc_node h ≠ p) as Hne by (by eapply fresh_notin).
    rewrite (set_next_at _ p (ListNode (lastp xs None) None x))
      by (simpl; by rewrite lookup_insert_ne).
    simpl. unfold result. simpl. rewrite app_nil_r.
    pose proof Hnd as (Hnd' & Hpx & _)%NoDup_mid. rewrite fmap_app in Hf.
    split_and!; try done; [|rewrite fmap_app; frame_tac].
    apply dll_intro; try done.
    + rewrite <-app_assoc. simpl. apply seg_mid. simpl. split_and!.
      * rewrite !seg_insert by set_solver. done.
      * by rewrite lookup_insert_eq.
      * by rewrite lookup_insert_ne, lookup_insert_eq.
      * done.
    + apply NoDup_mid. rewrite app_nil_r. split_and!; [done| |set_solver]. by rewrite fmap_app.
    + rewrite Hh. by rewrite !first_app.
    + by rewrite lastp_snoc.
    + zl.
    + zl.
Qed.

(** ** Relinking

    [link_next m q v] is the effect of [if (q) q->next = v]. *)
Definition link_next (m : gmap ptr (listNode V)) (q v : option ptr) : gmap ptr (listNode V) :=
  match q with
  | Some q => alter (λ n, ListNode (prev n) v (value n)) q m
  | None => m
  end.

Definition link_prev (m : gmap ptr (listNode V)) (q v : option ptr) : gmap ptr (listNode V) :=
  match q with
  | Some q => alter (λ n, ListNode v (next n) (value n)) q m
  | None => m
  end.

Lemma alter_some (f : listNode V → listNode V) (m : gmap ptr (listNode V)) p n :
  m !! p = Some n → alter f p m = <[p := f n]> m.
Proof.
  intros Hp. apply map_eq. intros q. destruct (decide (q = p)) as [->|Hne].
  - by rewrite lookup_alter_eq, lookup_insert_eq, Hp.
  - by rewrite lookup_alter_ne, lookup_insert_ne.
Qed.

Lemma set_next_link h q v :
  q ∈ dom (nodes h) → set_next h (Some q) v = Some (Heap (link_next (nodes h) (Some q) v) (freed h)).
Proof.
  intros [n Hn]%elem_of_dom. rewrite (set_next_at h q n v Hn). unfold set_node, link_next.
  by rewrite (alter_some _ _ _ _ Hn).
Qed.

Lemma set_prev_link h q v :
  q ∈ dom (nodes h) → set_prev h (Some q) v = Some (Heap (link_prev (nodes h) (Some q) v) (freed h)).
Proof.
  intros [n Hn]%elem_of_dom. rewrite (set_prev_at h q n v Hn). unfold set_node, link_prev.
  by rewrite (alter_some _ _ _ _ Hn).
Qed.

Lemma lookup_link_next_ne m q v p : q ≠ Some p → link_next m q v !! p = m !! p.
Proof. destruct q as [q|]; simpl; [|done]. intros. apply lookup_alter_ne. congruence. Qed.
Lemma lookup_link_prev_ne m q v p : q ≠ Some p → link_prev m q v !! p = m !! p.
Proof. destruct q as [q|]; simpl; [|done]. intros. apply lookup_alter_ne. congruence. Qed.
Lemma lookup_link_next m p v n :
  m !! p = Some n → link_next m (Some p) v !! p = Some (ListNode (prev n) v (value n)).
Proof. intros Hp. simpl. by rewrite lookup_alter_eq, Hp. Qed.
Lemma lookup_link_prev m p v n :
  m !! p = Some n → link_prev m (Some p) v !! p = Some (ListNode v (next n) (value n)).
Proof. intros Hp. simpl. by rewrite lookup_alter_eq, Hp. Qed.

Lemma dom_link_next m q v : dom (link_next m q v) = dom m.
Proof. destruct q as [q|]; simpl; [|done]. apply set_eq. intros p. by rewrite !elem_of_dom, lookup_alter_is_Some. Qed.
Lemma dom_link_prev m q v : dom (link_prev m q v) = dom m.
Proof. destruct q as [q|]; simpl; [|done]. apply set_eq. intros p. by rewrite !elem_of_dom, lookup_alter_is_Some. Qed.

Lemma lastp_cases (xs : cells) :
  (xs = [] ∧ lastp xs None = None) ∨
  ∃ xs' p v, xs = xs' ++ [(p, v)] ∧ lastp xs None = Some p.
Proof.
  destruct xs as [|[p v] xs _] using rev_ind; [by left|]. right. exists xs, p, v.
  split; [done|]. apply lastp_snoc.
Qed.

Lemma lastp_in (xs : cells) p : lastp xs None = Some p → p ∈ xs.*1.
Proof.
  destruct (lastp_cases xs) as [[-> ->]|(xs' & q & v & -> & ->)]; [done|].
  intros [= ->]. rewrite fmap_app. set_solver.
Qed.

Lemma first_in (xs : cells) p : first xs None = Some p → p ∈ xs.*1.
Proof. destruct xs as [|[q v] xs]; [done|]. intros [= ->]. set_solver. Qed.

Lemma seg_link_next m pv xs nx nx' :
  seg m pv xs nx → NoDup xs.*1 → seg (link_next m (lastp xs None) nx') pv xs nx'.
Proof.
  intros Hs Hnd. destruct (lastp_cases xs) as [[-> ->]|(xs' & q & v & -> & ->)]; [done|].
  pose proof Hs as (_ & Hq & _)%seg_mid. apply NoDup_mid in Hnd as (_ & Hnq & _).
  simpl. rewrite (alter_some _ _ _ _ Hq). simpl. by eapply seg_set_next.
Qed.

Lemma seg_link_prev m pv pv' xs nx :
  seg m pv xs nx → NoDup xs.*1 → seg (link_prev m (first xs None) pv') pv' xs nx.
Proof.
  intros Hs Hnd. destruct xs as [|[q v] xs]; [done|].
  rewrite fmap_cons in Hnd. apply NoDup_cons in Hnd as [Hq _]. pose proof Hs as [Hl _].
  simpl first. unfold link_prev. rewrite (alter_some _ _ _ _ Hl). by eapply seg_set_prev.
Qed.

Lemma seg_link_next_ne m q v pv xs nx :
  (∀ p, q = Some p → p ∉ xs.*1) → seg (link_next m q v) pv xs nx ↔ seg m pv xs nx.
Proof.
  intros Hq. split; apply seg_ext; intros p Hp;
    rewrite lookup_link_next_ne; try done; intros ->; by eapply Hq.
Qed.
Lemma seg_link_prev_ne m q v pv xs nx :
  (∀ p, q = Some p → p ∉ xs.*1) → seg (link_prev m q v) pv xs nx ↔ seg m pv xs nx.
Proof.
  intros Hq. split; apply seg_ext; intros p Hp;
    rewrite lookup_link_prev_ne; try done; intros ->; by eapply Hq.
Qed.

(** Two segments become neighbours. *)
Lemma seg_join m pv xs ys a b nx :
  seg m pv xs a → seg m b ys nx → NoDup (xs ++ ys).*1 →
  seg (link_prev (link_next m (lastp xs None) (first ys nx)) (first ys None) (lastp xs pv))
    pv (xs ++ ys) nx.
Proof.
  intros Hx Hy Hnd. rewrite fmap_app in Hnd. apply NoDup_app in Hnd as (Hndx & Hdisj & Hndy).
  apply seg_app. split.
  - apply seg_link_prev_ne; [|by eapply seg_link_next].
    intros p Hp%first_in Hin. by eapply Hdisj.
  - apply (seg_link_prev _ b); [|done]. apply seg_link_next_ne; [|done].
    intros p Hp%lastp_in Hin. by eapply Hdisj.
Qed.

(** [node->prev->next = ...] when there is a previous node, else the head. *)
Lemma del_prev_step h (l : lst V) (xs : cells) v :
  (∀ p, p ∈ xs.*1 → p ∈ dom (nodes h)) →
  match lastp xs None with
  | Some _ => h' ← set_next h (lastp xs None) v; Some (l, h')
  | None => Some (set_ends l v (tail l) (len l), h)
  end = Some (if bool_decide (xs = []) then set_ends l v (tail l) (len l) else l,
              Heap (link_next (nodes h) (lastp xs None) v) (freed h)).
Proof.
  intros Hd. destruct (lastp_cases xs) as [[-> ->]|(xs' & q & w & -> & Hq)].
  - by destruct h.
  - rewrite Hq, bool_decide_eq_false_2 by (by destruct xs').
    by rewrite set_next_link by (apply Hd, lastp_in; done).
Qed.

Lemma del_next_step h (l : lst V) (ys : cells) v :
  (∀ p, p ∈ ys.*1 → p ∈ dom (nodes h)) →
  match first ys None with
  | Some _ => h' ← set_prev h (first ys None) v; Some (l, h')
  | None => Some (set_ends l (head l) v (len l), h)
  end = Some (if bool_decide (ys = []) then set_ends l (head l) v (len l) else l,
              Heap (link_prev (nodes h) (first ys None) v) (freed h)).
Proof.
  intros Hd. destruct ys as [|[q w] ys]; [by destruct h|].
  rewrite bool_decide_eq_false_2 by done. simpl first.
  by rewrite set_prev_link by (apply Hd, first_in; done).
Qed.

Lemma del_ok h l xs p v ys :
  dll h l (xs ++ (p, v) :: ys) →
  wp (listDelNode l h p)
     (result h l (xs ++ (p, v) :: ys).*1 (xs ++ ys) (if free l then [v] else [])).
Proof.
  intros (Hs & Hnd & Hh & Ht & Hl & Hlen). unfold listDelNode.
  pose proof Hs as (Hsx & Hp & Hsy)%seg_mid. pose proof Hnd as (Hnd' & Hpx & Hpy)%NoDup_mid.
  rewrite Hp. cbn [mbind option_bind prev next].
  rewrite del_prev_step by (intros q Hq; exact (seg_dom _ _ _ _ _ Hsx Hq)). cbn [mbind option_bind].
  set (l1 := if bool_decide (xs = []) then _ else _). simpl nodes.
  rewrite lookup_link_next_ne by (intros Hq%lastp_in; done). rewrite Hp.
  cbn [mbind option_bind prev next].
  rewrite del_next_step by (intros q Hq; simpl; rewrite dom_link_next; exact (seg_dom _ _ _ _ _ Hsy Hq)).
  cbn [mbind option_bind]. set (l2 := if bool_decide (ys = []) then _ else _). simpl nodes.
  rewrite lookup_link_prev_ne by (intros Hq%first_in; done).
  rewrite lookup_link_next_ne by (intros Hq%lastp_in; done). rewrite Hp.
  cbn [mbind option_bind value].
  assert (free l2 = free l ∧ len l2 = zlen (xs ++ (p, v) :: ys) ∧ head l2 = first (xs ++ ys) None ∧
    tail l2 = lastp (xs ++ ys) None ∧ same_methods l l2) as (Hfree & Hl2 & Hh2 & Ht2 & Hm).
  { assert (uwrap 64 (zlen (xs ++ (p, v) :: ys)) = zlen (xs ++ (p, v) :: ys)) as Hu
      by (apply uwrap_id; unfold in_u; zlen_pos; lia).
    rewrite first_app, lastp_app in *. rewrite lastp_cons in Ht.
    unfold l2, l1. destruct (lastp_cases xs) as [[-> Hxl]|(xs' & q & w & -> & Hxl)].
    - rewrite (bool_decide_eq_true_2 ([] = [])) by done. destruct ys as [|[r y] ys].
      + rewrite bool_decide_eq_true_2 by done. simpl. rewrite Hl, !Hu. by split_and!.
      + rewrite bool_decide_eq_false_2 by done. simpl in *.
        rewrite lastp_cons in *. rewrite Hl, Hu. by split_and!.
    - rewrite (bool_decide_eq_false_2 (xs' ++ [(q, w)] = [])) by (by destruct xs').
      destruct ys as [|[r y] ys].
      + rewrite bool_decide_eq_true_2 by done. simpl. rewrite Hl, Hu. split_and!; try done.
        by destruct xs' as [|[]].
      + rewrite bool_decide_eq_false_2 by done. split_and!; try done.
        * by destruct xs' as [|[]].
        * by rewrite !lastp_cons in *. }
  unfold call_free. rewrite Hfree.
  unfold zfree_node.
  assert (link_prev (link_next (nodes h) (lastp xs None) (first ys None)) (first ys None)
      (lastp xs None) !! p = Some (ListNode (lastp xs None) (first ys None) v)) as Hlk.
  { rewrite lookup_link_prev_ne by (intros Hq%first_in; done).
    by rewrite lookup_link_next_ne, Hp by (intros Hq%lastp_in; done). }
  assert (∀ F, result h l (xs ++ (p, v) :: ys).*1 (xs ++ ys) F
    (set_ends l2 (head l2) (tail l2) (len l2 - 1),
     Heap (delete p (link_prev (link_next (nodes h) (lastp xs None) (first ys None))
       (first ys None) (lastp xs None))) (freed h ++ F))) as Hres.
  { intros F. unfold result. simpl. split_and!; [|..|done].
    - apply dll_intro; try done.
      + simpl. apply seg_delete; [rewrite fmap_app; set_solver|]. by eapply seg_join.
      + rewrite Hl2. zl.
      + zl.
    - intros q Hd Hq. simpl. rewrite fmap_app, fmap_cons in Hq.
      rewrite lookup_delete_ne by set_solver.
      rewrite lookup_link_prev_ne by (intros ?%first_in; set_solver).
      apply lookup_link_next_ne. intros ?%lastp_in. set_solver.
    - done. }
  destruct (free l); cbn [nodes freed]; rewrite Hlk; cbn [mbind option_bind]; [apply Hres|].
  specialize (Hres []). by rewrite app_nil_r in Hres.
Qed.

Lemma opt_set_next h q v :
  (∀ p, q = Some p → p ∈ dom (nodes h)) →
  match q with Some _ => set_next h q v | None => Some h end =
  Some (Heap (link_next (nodes h) q v) (freed h)).
Proof. intros Hq. destruct q as [p|]; [by apply set_next_link, Hq|by destruct h]. Qed.

Lemma opt_set_prev h q v :
  (∀ p, q = Some p → p ∈ dom (nodes h)) →
  match q with Some _ => set_prev h q v | None => Some h end =
  Some (Heap (link_prev (nodes h) q v) (freed h)).
Proof. intros Hq. destruct q as [p|]; [by apply set_prev_link, Hq|by destruct h]. Qed.

(** A new node between two halves of a list. *)
Lemma seg_new_mid m A B node v :
  seg m None (A ++ B) None → NoDup (A ++ B).*1 → node ∉ (A ++ B).*1 →
  seg (link_prev (link_next (<[node := ListNode (lastp A None) (first B None) v]> m)
         (lastp A None) (Some node)) (first B None) (Some node)) None (A ++ (node, v) :: B) None.
Proof.
  intros [HA HB]%seg_app Hnd Hnode. rewrite fmap_app in Hnd, Hnode.
  apply NoDup_app in Hnd as (HndA & Hdisj & HndB). apply seg_mid. split_and!.
  - apply seg_link_prev_ne; [intros p ?%first_in ?; by eapply Hdisj|].
    eapply seg_link_next; [|done]. apply seg_insert; [set_solver|done].
  - rewrite lookup_link_prev_ne by (intros ?%first_in; set_solver).
    rewrite lookup_link_next_ne by (intros ?%lastp_in; set_solver). apply lookup_insert_eq.
  - eapply seg_link_prev; [|done]. apply seg_link_next_ne; [intros p ?%lastp_in ?; by eapply Hdisj|].
    apply seg_insert; [set_solver|done].
Qed.

Lemma insert_between h l l1 A B v (node := zmalloc_node h) :
  dll h l (A ++ B) → zlen (A ++ B) + 1 < 2 ^ 64 - 1 →
  head l1 = first (A ++ (node, v) :: B) None → tail l1 = lastp (A ++ (node, v) :: B) None →
  len l1 = len l → same_methods l l1 →
  let n := ListNode (lastp A None) (first B None) v in
  let h1 := set_node h node n in
  wp (h ← (match prev n with Some _ => set_next h1 (prev n) (Some node) | None => Some h1 end);
      h ← (match next n with Some _ => set_prev h (next n) (Some node) | None => Some h end);
      Some (set_ends l1 (head l1) (tail l1) (len l1 + 1), h))
     (result h l (A ++ B).*1 (A ++ (node, v) :: B) []).
Proof.
  intros (Hs & Hnd & Hh & Ht & Hl & Hlen) Hlen' Hh1 Ht1 Hl1 Hm n h1.
  assert (node ∉ (A ++ B).*1) as Hf by (by eapply fresh_notin_seg).
  pose proof Hs as [HA HB]%seg_app.
  rewrite opt_set_next.
  2: { intros p Hp%lastp_in. simpl. rewrite dom_insert. apply elem_of_union_r.
       exact (seg_dom _ _ _ _ _ HA Hp). }
  cbn [mbind option_bind]. rewrite opt_set_prev.
  2: { intros p Hp%first_in. simpl. rewrite dom_link_next, dom_insert. apply elem_of_union_r.
       exact (seg_dom _ _ _ _ _ HB Hp). }
  cbn [mbind option_bind]. unfold result. simpl. rewrite app_nil_r. split_and!; try done.
  - apply dll_intro; try done.
    + by apply seg_new_mid.
    + apply NoDup_mid. rewrite fmap_app in Hf. set_solver.
    + rewrite Hl1, Hl. zl.
    + zl.
  - intros q Hd Hq. simpl. rewrite fmap_app in Hq.
    rewrite lookup_link_prev_ne by (intros ?%first_in; set_solver).
    rewrite lookup_link_next_ne by (intros ?%lastp_in; set_solver).
    apply lookup_insert_ne. intros <-. exact (is_fresh _ Hd).
Qed.

Lemma dll_head_is h l xs p w ys :
  dll h l (xs ++ (p, w) :: ys) → bool_decide (head l = Some p) = bool_decide (xs = []).
Proof.
  intros (_ & Hnd & Hh & _). apply NoDup_mid in Hnd as (_ & Hp & _). rewrite Hh.
  apply bool_decide_ext. destruct xs as [|[q x] xs]; [done|]. simpl.
  split; [|done]. intros [= ->]. set_solver.
Qed.

Lemma dll_tail_is h l xs p w ys :
  dll h l (xs ++ (p, w) :: ys) → bool_decide (tail l = Some p) = bool_decide (ys = []).
Proof.
  intros (_ & Hnd & _ & Ht & _). apply NoDup_mid in Hnd as (_ & _ & Hp). rewrite Ht.
  apply bool_decide_ext. rewrite lastp_app, lastp_cons.
  destruct ys as [|[q x] ys _] using rev_ind; [done|]. rewrite lastp_snoc.
  rewrite fmap_app in Hp. split; [|by destruct ys]. intros [= ->]. set_solver.
Qed.

Lemma insert_ok h l xs p w ys v (after : bool) :
  dll h l (xs ++ (p, w) :: ys) → zlen (xs ++ (p, w) :: ys) + 1 < 2 ^ 64 - 1 →
  wp (listInsertNode l h p v after)
     (result h l (xs ++ (p, w) :: ys).*1
        (if after then xs ++ (p, w) :: (zmalloc_node h, v) :: ys
         else xs ++ (zmalloc_node h, v) :: (p, w) :: ys) []).
Proof.
  intros Hd Hlen. pose proof Hd as (Hs & _ & Hh & Ht & Hl & Hlen'). unfold listInsertNode.
  pose proof Hs as (_ & Hp & _)%seg_mid. rewrite Hp. cbn [mbind option_bind prev next].
  assert (uwrap 64 (len l) = len l) as Hu.
  { rewrite Hl. apply uwrap_id. unfold in_u. zlen_pos. lia. }
  destruct after.
  - rewrite (dll_tail_is _ _ _ _ _ _ Hd).
    pose proof (cons_middle (p, w) xs ys) as Hcm. rewrite app_assoc in Hcm.
    rewrite Hcm in Hd, Hlen, Hh, Ht |- *.
    rewrite (cons_middle (p, w) xs ((zmalloc_node h, v) :: ys)), app_assoc.
    rewrite <-(lastp_snoc xs p w None).
    apply (insert_between h l _ (xs ++ [(p, w)]) ys v); [done|done|..];
      destruct ys as [|[q y] ys]; simpl; rewrite ?Hu; try done.
    + by rewrite Hh, !first_app.
    + by rewrite Hh, !first_app.
    + by rewrite lastp_snoc.
    + by rewrite Ht, !lastp_app, !lastp_cons.
  - rewrite (dll_head_is _ _ _ _ _ _ Hd).
    change (Some p) with (first ((p, w) :: ys) None).
    apply (insert_between h l _ xs ((p, w) :: ys) v); [done|done|..];
      destruct xs as [|[q y] xs]; simpl; rewrite ?Hu; try done.
    rewrite Ht, !app_comm_cons, !lastp_app. by rewrite !lastp_cons.
Qed.

Lemma link_comm m q v p w : link_next (link_prev m q v) p w = link_prev (link_next m p w) q v.
Proof.
  destruct q as [q|], p as [p|]; simpl; try done. apply map_eq. intros i.
  destruct (decide (p = i)), (decide (q = i)); subst;
    repeat (rewrite lookup_alter_eq || rewrite lookup_alter_ne by done); try done.
  by destruct (m !! i).
Qed.

(** [listJoin]: [l] takes the nodes of [o], which becomes empty. *)
Lemma join_ok h l o xs ys :
  dll h l xs → dll h o ys → NoDup (xs ++ ys).*1 → zlen (xs ++ ys) < 2 ^ 64 - 1 →
  wp (listJoin l o h) (λ '(l', o', h'), result h l (xs ++ ys).*1 (xs ++ ys) [] (l', h') ∧ dll h' o' []).
Proof.
  intros (Hs & Hndx & Hh & Ht & Hl & _) (Hso & Hndy & Hho & Hto & Hlo & _) Hnd Hlen.
  unfold listJoin. rewrite Hho, Ht.
  rewrite opt_set_prev by (intros p Hp%first_in; exact (seg_dom _ _ _ _ _ Hso Hp)).
  cbn [mbind option_bind].
  pose proof (del_prev_step (Heap (link_prev (nodes h) (first ys None) (lastp xs None)) (freed h))
    l xs (first ys None)) as Hstep.
  rewrite Ht in Hstep. rewrite Hstep; clear Hstep.
  2: { intros q Hq. simpl. rewrite dom_link_prev. exact (seg_dom _ _ _ _ _ Hs Hq). }
  cbn [mbind option_bind]. set (l1 := if bool_decide (xs = []) then _ else _).
  set (l2 := match tail o with Some _ => _ | None => _ end).
  assert (uwrap 64 (zlen xs) = zlen xs) as Hu
    by (apply uwrap_id; unfold in_u; rewrite zlen_app in Hlen; zlen_pos; lia).
  assert (head l2 = first (xs ++ ys) None ∧ tail l2 = lastp (xs ++ ys) None ∧ len l2 = zlen xs ∧
    same_methods l l2) as (Hh2 & Ht2 & Hl2 & Hm2).
  { rewrite first_app, lastp_app. unfold l2. rewrite Hto.
    assert (head l1 = first xs (first ys None) ∧ tail l1 = lastp xs None ∧ len l1 = zlen xs ∧
      same_methods l l1) as (Hh1 & Ht1 & Hl1 & Hm1).
    { unfold l1. destruct xs as [|[p v] xs].
      - rewrite bool_decide_eq_true_2 by done. simpl. rewrite Hl, Hu. by split_and!.
      - rewrite bool_decide_eq_false_2 by done. by split_and!. }
    destruct (lastp_cases ys) as [[-> Hy]|(ys' & q & v & -> & Hy)]; rewrite Hy; [done|].
    simpl. rewrite Hl1, Hu. split_and!; try done. by rewrite lastp_snoc. }
  split.
  - unfold result. simpl. rewrite app_nil_r. split_and!; try done.
    + apply dll_intro; try done.
      * simpl. rewrite link_comm. by eapply seg_join.
      * rewrite Hl2, Hlo. zl.
    + intros q Hd Hq. simpl. rewrite fmap_app in Hq.
      rewrite lookup_link_next_ne by (intros ?%lastp_in; set_solver).
      apply lookup_link_prev_ne. intros ?%first_in. set_solver.
  - apply dll_intro; try done. constructor.
Qed.

(** [listRotate] moves the last node to the front. *)
Lemma rotate_ok h l xs t v :
  dll h l (xs ++ [(t, v)]) →
  wp (listRotate l h) (result h l (xs ++ [(t, v)]).*1 ((t, v) :: xs) []).
Proof.
  intros Hd. pose proof Hd as (Hs & Hnd & Hh & Ht & Hl & Hlen). unfold listRotate.
  assert (zlen (xs ++ [(t, v)]) = zlen xs + 1) as Hz by zl. rewrite Hl, Hz. zlen_pos.
  destruct (Z.leb_spec (zlen xs + 1) 1).
  { assert (xs = []) as -> by (apply zlen_0_nil; lia). unfold result. simpl.
    rewrite app_nil_r. by split_and!. }
  pose proof Hs as (Hsx & Ht0 & _)%seg_mid. pose proof Hnd as (Hndx & Htx & _)%NoDup_mid.
  rewrite app_nil_r in Hndx. rewrite Ht, lastp_snoc. cbn [mbind option_bind].
  rewrite Ht0. cbn [mbind option_bind prev]. simpl tail. simpl head.
  destruct (lastp_cases xs) as [[-> _]|(xs' & q & w & -> & Hq)]; [by rewrite (zlen_nil (A:=ptr*V)) in *|].
  set (ys := xs' ++ [(q, w)]) in *.
  assert (∃ f, first ys None = Some f ∧ f ∈ ys.*1) as (f & Hf & Hfin).
  { assert (∃ f, first ys None = Some f) as [f Hf]; [|exists f; split; [done|by apply first_in]].
    unfold ys. destruct xs' as [|[]]; simpl; eauto. }
  assert (head l = Some f) as Hhf by (rewrite Hh, first_app; unfold ys in *; by destruct xs' as [|[]]).
  pose proof (lastp_in _ _ Hq) as Hqin.
  rewrite Hq, Hhf. rewrite set_next_link by exact (seg_dom _ _ _ _ _ Hsx Hqin).
  cbn [mbind option_bind]. change (head (set_ends l (Some f) _ _)) with (Some f).
  rewrite set_prev_link by (cbn [nodes]; rewrite dom_link_next; exact (seg_dom _ _ _ _ _ Hsx Hfin)).
  cbn [mbind option_bind].
  assert (t ∈ dom (nodes h)) as Htd by (apply elem_of_dom; eauto).
  rewrite set_prev_link by (cbn [nodes]; by rewrite dom_link_prev, dom_link_next).
  cbn [mbind option_bind].
  rewrite set_next_link by (cbn [nodes]; by rewrite !dom_link_prev, dom_link_next).
  cbn [mbind option_bind nodes freed].
  unfold result. simpl fst. simpl snd. rewrite app_nil_r. split_and!; try done.
  - apply dll_intro; try done.
    + rewrite <-Hf, <-Hq. cbn [seg snd nodes]. split.
      * erewrite lookup_link_next; [|eapply lookup_link_prev;
          rewrite lookup_link_prev_ne by (rewrite Hf; intros [= ->]; done);
          rewrite lookup_link_next_ne by (rewrite Hq; intros [= ->]; done); exact Ht0].
        done.
      * rewrite seg_link_next_ne by (intros ? [= <-]; done).
        rewrite seg_link_prev_ne by (intros ? [= <-]; done).
        eapply seg_link_prev; [|done]. by eapply seg_link_next.
    + rewrite fmap_cons. by constructor.
    + rewrite lastp_cons. unfold ys. by rewrite lastp_snoc.
    + simpl. rewrite uwrap_id by (unfold in_u; lia). rewrite zlen_cons. lia.
    + rewrite zlen_cons. lia.
  - intros p Hd' Hp. rewrite fmap_app in Hp. cbn [snd nodes].
    rewrite lookup_link_next_ne by (intros [= ->]; set_solver).
    rewrite lookup_link_prev_ne by (intros [= ->]; set_solver).
    rewrite lookup_link_prev_ne by (intros [= ->]; set_solver).
    apply lookup_link_next_ne. intros [= ->]. set_solver.
Qed.

(** ** Walking *)
Lemma walk_next h pv xs i :
  seg (nodes h) pv xs None → index_walk next i h (first xs None) = Some (fst <$> xs !! i).
Proof.
  revert pv i; induction xs as [|[p v] xs IH]; intros pv [|i] Hs; simpl; try done.
  destruct Hs as [Hp Hs]. rewrite Hp. cbn [mbind option_bind next]. by eapply IH.
Qed.

Lemma walk_prev h xs : ∀ nx i,
  seg (nodes h) None xs nx →
  index_walk prev i h (lastp xs None) = Some (fst <$> reverse xs !! i).
Proof.
  induction xs as [|[p v] xs IH] using rev_ind; intros nx i Hs.
  - by destruct i.
  - rewrite lastp_snoc, reverse_app. apply seg_mid in Hs as (Hs & Hp & _).
    destruct i as [|i]; simpl; [done|]. rewrite Hp. cbn [mbind option_bind prev]. by eapply IH.
Qed.

(** The node with a (possibly negative) index. *)
Lemma index_ok h l xs i :
  dll h l xs →
  listIndex l h i = Some (fst <$> (if i <? 0 then reverse xs !! Z.to_nat (- i - 1)
                                   else xs !! Z.to_nat i)).
Proof.
  intros (Hs & _ & Hh & Ht & _). unfold listIndex. rewrite Hh, Ht.
  destruct (i <? 0); [by eapply walk_prev|by eapply walk_next].
Qed.

Lemma next_ok h pv xs p v ys :
  seg (nodes h) pv (xs ++ (p, v) :: ys) None →
  listNext h (ListIter (first ((p, v) :: ys) None) AL_START_HEAD) =
  Some (Some p, ListIter (first ys None) AL_START_HEAD).
Proof. intros (_ & Hp & _)%seg_mid. unfold listNext. simpl. by rewrite Hp. Qed.

Lemma next_back_ok h xs p v ys nx :
  seg (nodes h) None (xs ++ (p, v) :: ys) nx →
  listNext h (ListIter (lastp (xs ++ [(p, v)]) None) AL_START_TAIL) =
  Some (Some p, ListIter (lastp xs None) AL_START_TAIL).
Proof. intros (_ & Hp & _)%seg_mid. rewrite lastp_snoc. unfold listNext. simpl. by rewrite Hp. Qed.

(** ** Emptying *)
Lemma empty_loop_ok l : ∀ xs h pv,
  seg (nodes h) pv xs None → NoDup xs.*1 →
  ∃ h', listEmpty_loop (length xs) l h (first xs None) = Some h' ∧
    (∀ p, nodes h' !! p = if bool_decide (p ∈ xs.*1) then None else nodes h !! p) ∧
    freed h' = freed h ++ (if free l then xs.*2 else []).
Proof.
  induction xs as [|[p v] xs IH]; intros h pv Hs Hnd; simpl.
  { exists h. split_and!; [done|done|]. by destruct (free l); rewrite app_nil_r. }
  destruct Hs as [Hp Hs]. rewrite fmap_cons in Hnd. apply NoDup_cons in Hnd as [Hpx Hnd].
  rewrite Hp. cbn [mbind option_bind value next].
  set (h1 := call_free l h v). assert (nodes h1 = nodes h) as Hn1 by (unfold h1, call_free; by destruct (free l)).
  unfold zfree_node. rewrite Hn1, Hp. cbn [mbind option_bind].
  destruct (IH (Heap (delete p (nodes h)) (freed h1)) (Some p)) as (h' & He & Hl & Hf); [|done|].
  { by apply seg_delete. }
  exists h'. split_and!; [done|..].
  - intros q. rewrite Hl. cbn [nodes].
    destruct (decide (q = p)) as [->|Hne];
      [rewrite lookup_delete_eq|rewrite lookup_delete_ne by done];
      repeat case_bool_decide; done || set_solver.
  - rewrite Hf. unfold h1, call_free. cbn [freed]. destruct (free l); cbn [freed]; [|done].
    by rewrite <-app_assoc.
Qed.

Lemma empty_ok h l xs :
  dll h l xs →
  wp (listEmpty l h) (λ r, result h l xs.*1 [] (if free l then xs.*2 else []) r ∧
    ∀ p, p ∈ xs.*1 → nodes r.2 !! p = None).
Proof.
  intros (Hs & Hnd & Hh & _ & Hl & _). unfold listEmpty. rewrite Hl, Hh. unfold zlen. rewrite Nat2Z.id.
  destruct (empty_loop_ok l xs h None Hs Hnd) as (h' & -> & Hlk & Hf). simpl. split.
  - split_and!; try done.
    + apply dll_intro; try done. constructor.
    + intros p _ Hp. simpl. by rewrite Hlk, bool_decide_eq_false_2.
  - intros p Hp. by rewrite Hlk, bool_decide_eq_true_2.
Qed.

(** ** Searching *)
Context `{EqDecision V}.

Definition matches (l : lst V) (key : V) (c : ptr * V) : bool :=
  match match_ l with Some f => f c.2 key | None => bool_decide (key = c.2) end.

Lemma search_loop h l key ys : ∀ fuel pv xs,
  seg (nodes h) pv (xs ++ ys) None → (length ys < fuel)%nat →
  loop fuel (search_body l h key) (ListIter (first ys None) AL_START_HEAD) =
  Some (fst <$> List.find (matches l key) ys).
Proof.
  induction ys as [|[p v] ys IH]; intros [|fuel] pv xs Hs Hf; try (simpl in Hf; lia);
    rewrite loop_S; unfold search_body at 2; [done|].
  rewrite (next_ok h pv xs p v ys Hs). cbn [mbind option_bind].
  pose proof Hs as (_ & Hp & _)%seg_mid. rewrite Hp. cbn [mbind option_bind value].
  change (match match_ l with Some f => f v key | None => bool_decide (key = v) end)
    with (matches l key (p, v)). cbn [List.find].
  destruct (matches l key (p, v)); [done|].
  apply (IH fuel pv (xs ++ [(p, v)])); [by rewrite <-app_assoc|simpl in Hf; lia].
Qed.

Lemma search_ok h l xs key :
  dll h l xs → listSearchKey l h key = Some (fst <$> List.find (matches l key) xs).
Proof.
  intros (Hs & Hnd & Hh & _). unfold listSearchKey, listRewind. rewrite Hh.
  apply (search_loop h l key xs _ None []); [done|]. pose proof (seg_length _ _ _ _ Hs Hnd). lia.
Qed.

(** ** Duplicating *)
Definition dup_value (l : lst V) (v : V) : option V :=
  match dup l with Some f => f v | None => Some v end.

Lemma dup_loop orig ys : ∀ fuel h copy xs cs,
  seg (nodes h) None (xs ++ ys) None → dll h copy cs → dup copy = dup orig →
  (∀ p, p ∈ (xs ++ ys).*1 → p ∉ cs.*1) →
  (length ys < fuel)%nat → zlen cs + zlen ys < 2 ^ 64 - 1 →
  wp (loop fuel dup_body (ListIter (first ys None) AL_START_HEAD, copy, h))
     (λ r, seg (nodes r.2) None (xs ++ ys) None ∧
           (∀ p, p ∈ dom (nodes h) → p ∉ cs.*1 → nodes r.2 !! p = nodes h !! p) ∧
           match r.1, mapM (dup_value orig) ys.*2 with
           | Some copy', Some vs => ∃ cs', dll r.2 copy' cs' ∧ cs'.*2 = cs.*2 ++ vs ∧
               same_methods copy copy' ∧ (∀ p, p ∈ (xs ++ ys).*1 → p ∉ cs'.*1)
           | None, None => ∀ p, p ∈ cs.*1 → nodes r.2 !! p = None
           | _, _ => False
           end).
Proof.
  induction ys as [|[p v] ys IH]; intros [|fuel] h copy xs cs Hs Hd Hdup Hdisj Hf Hlen;
    try (simpl in Hf; lia); rewrite loop_S; apply wp_bind; unfold dup_body at 1; cbv beta iota.
  - simpl. split_and!; try done. exists cs. rewrite app_nil_r. by split_and!.
  - rewrite (next_ok h None xs p v ys Hs). cbn [mbind option_bind].
    pose proof Hs as (_ & Hp & _)%seg_mid. rewrite Hp. cbn [mbind option_bind value].
    rewrite Hdup. change (match dup orig with Some f => f v | None => Some v end) with (dup_value orig v).
    change (((p, v) :: ys).*2) with (v :: ys.*2). cbn [mapM].
    destruct (dup_value orig v) as [w|]; cbn [mbind option_bind].
    + rewrite zlen_cons in Hlen. zlen_pos.
      destruct (wp_inv _ _ (addTail_ok h copy cs w Hd ltac:(lia))) as ([copy1 h1] & -> & Hd1 & Hfr & Hm1 & _).
      cbn [mbind option_bind wp fst snd] in *.
      assert (∀ q, q ∈ (xs ++ (p, v) :: ys).*1 → q ∉ (cs ++ [(zmalloc_node h, w)]).*1) as Hdisj1.
      { intros q Hq. rewrite fmap_app. intros [Hq'|Hq']%elem_of_app; [by eapply Hdisj|].
        apply list_elem_of_singleton in Hq' as ->. by eapply (fresh_notin_seg h). }
      assert (seg (nodes h1) None (xs ++ (p, v) :: ys) None) as Hs1.
      { eapply seg_ext; [|exact Hs]. intros q Hq. apply Hfr; [by eapply seg_dom|by apply Hdisj]. }
      rewrite cons_middle, app_assoc in Hs1, Hdisj1.
      eapply wp_mono; [apply (IH fuel h1 copy1 (xs ++ [(p, v)]) (cs ++ [(zmalloc_node h, w)]));
        [done|done| |done|simpl in Hf; lia|zl]|].
      { destruct Hm1 as (-> & _). done. }
      intros [r h2]. cbn [fst snd]. intros (Hs2 & Hfr2 & Hr). rewrite <-app_assoc in Hs2, Hr.
      split_and!; [done|..].
      * intros q Hq Hqc. rewrite Hfr2, Hfr; try done.
        -- by rewrite elem_of_dom, Hfr, <-elem_of_dom.
        -- rewrite fmap_app, elem_of_app. intros [?|Hq']; [done|].
           apply list_elem_of_singleton in Hq' as ->. exact (is_fresh _ Hq).
      * destruct r as [copy2|], (mapM (dup_value orig) ys.*2) as [vs|]; cbn [mbind option_bind]; try done.
        -- destruct Hr as (cs' & Hd2 & Hv & Hm2 & Hdisj2). exists cs'. split_and!; try done.
           ++ rewrite Hv, fmap_app. cbn. by rewrite <-app_assoc.
           ++ destruct Hm1 as (? & ? & ?), Hm2 as (? & ? & ?). split_and!; congruence.
        -- intros q Hq. apply Hr. rewrite fmap_app. set_solver.
    + destruct (wp_inv _ _ (empty_ok h copy cs Hd)) as ([l1 h1] & He & [(_ & Hfr & _) Hgone]).
      unfold listRelease. rewrite He. cbn [mbind option_bind wp fst snd] in *.
      assert (∀ q, q ∈ dom (nodes h) → q ∉ cs.*1 → nodes h1 !! q = nodes h !! q) as Hfr'
        by (intros; by apply Hfr).
      split_and!; try done. eapply seg_ext; [|exact Hs].
      intros q Hq. apply Hfr; [by eapply seg_dom|by apply Hdisj].
Qed.

(** ** A client session *)
Inductive lop :=
| LAddHead (v : V) | LAddTail (v : V) | LInsert (i : Z) (v : V) (after : bool)
| LDel (i : Z) | LRotate.

(** Nodes are found with [listIndex]. *)
Definition impl_step (op : lop) (l : lst V) (h : heap V) : option (lst V * heap V) :=
  match op with
  | LAddHead v => listAddNodeHead l h v
  | LAddTail v => listAddNodeTail l h v
  | LInsert i v after =>
      p ← listIndex l h i;
      match p with Some p => listInsertNode l h p v after | None => Some (l, h) end
  | LDel i =>
      p ← listIndex l h i;
      match p with Some p => listDelNode l h p | None => Some (l, h) end
  | LRotate => listRotate l h
  end.

(** The new values and the ones given to [free]. *)
Definition spec_step (op : lop) (vs : list V) : list V * list V :=
  match op with
  | LAddHead v => (v :: vs, [])
  | LAddTail v => (vs ++ [v], [])
  | LInsert i v after =>
      match norm vs i with
      | Some j => let j := if after then S j else j in (take j vs ++ v :: drop j vs, [])
      | None => (vs, [])
      end
  | LDel i =>
      match norm vs i with
      | Some j => (take j vs ++ drop (S j) vs, option_list (vs !! j))
      | None => (vs, [])
      end
  | LRotate => (option_list (last vs) ++ take (pred (length vs)) vs, [])
  end.

Fixpoint impl_run (ops : list lop) (l : lst V) (h : heap V) : option (lst V * heap V) :=
  match ops with
  | [] => Some (l, h)
  | op :: ops => '(l, h) ← impl_step op l h; impl_run ops l h
  end.

Fixpoint spec_run (ops : list lop) (vs : list V) : list V * list V :=
  match ops with
  | [] => (vs, [])
  | op :: ops =>
      let '(vs, fs) := spec_step op vs in
      let '(vs', fs') := spec_run ops vs in (vs', fs ++ fs')
  end.

(** [other] are nodes of other lists: present, and not nodes of this one. *)
Definition session (other : gmap ptr (listNode V)) (l : lst V) (h : heap V) (xs : cells) : Prop :=
  dll h l xs ∧ other ⊆ nodes h ∧ ∀ p, p ∈ xs.*1 → other !! p = None.

Lemma index_split h l xs i :
  dll h l xs →
  match norm xs.*2 i with
  | Some j => ∃ a p v b, xs = a ++ (p, v) :: b ∧ length a = j ∧ listIndex l h i = Some (Some p)
  | None => listIndex l h i = Some None
  end.
Proof.
  intros Hd. rewrite norm_fmap, (index_ok h l xs i Hd), <-norm_lookup.
  destruct (norm xs i) as [j|] eqn:En; [|done]. pose proof (norm_bound _ _ _ En) as Hj.
  destruct (lookup_lt_is_Some_2 xs j Hj) as [[p v] Hp]. simpl. rewrite Hp.
  exists (take j xs), p, v, (drop (S j) xs). rewrite take_drop_middle, length_take by done.
  split_and!; [done|lia|done].
Qed.

Lemma session_result other l h xs l' h' ys fs :
  session other l h xs → result h l xs.*1 ys fs (l', h') →
  (∀ p, p ∈ ys.*1 → p ∈ xs.*1 ∨ p = zmalloc_node h) →
  session other l' h' ys ∧ same_methods l l' ∧ freed h' = freed h ++ fs.
Proof.
  intros (Hd & Hsub & Hdisj) (Hd' & Hfr & Hm & Hf) Hys. simpl in *.
  assert (∀ p n, other !! p = Some n → p ∈ dom (nodes h)) as Hdom.
  { intros p n Hp. apply elem_of_dom. exists n. by eapply lookup_weaken. }
  split_and!; try done. split_and!; try done.
  - apply map_subseteq_spec. intros p n Hp. rewrite Hfr; [by eapply lookup_weaken|by eapply Hdom|].
    intros Hin. by rewrite Hdisj in Hp.
  - intros p [Hp| ->]%Hys; [by apply Hdisj|].
    destruct (other !! zmalloc_node h) eqn:E; [|done]. exfalso.
    eapply (is_fresh (dom (nodes h))), Hdom, E.
Qed.

Lemma step_ok op other l h xs :
  session other l h xs → zlen xs + 1 < 2 ^ 64 - 1 →
  wp (impl_step op l h) (λ '(l', h'), ∃ ys, session other l' h' ys ∧ same_methods l l' ∧
    ys.*2 = (spec_step op xs.*2).1 ∧
    freed h' = freed h ++ (if free l then (spec_step op xs.*2).2 else []) ∧
    zlen ys ≤ zlen xs + 1).
Proof.
  intros Hses Hlen. pose proof Hses as (Hd & _).
  assert (∀ ys fs r, result h l xs.*1 ys fs r →
    (∀ p, p ∈ ys.*1 → p ∈ xs.*1 ∨ p = zmalloc_node h) → zlen ys ≤ zlen xs + 1 →
    ys.*2 = (spec_step op xs.*2).1 → fs = (if free l then (spec_step op xs.*2).2 else []) →
    let '(l', h') := r in ∃ ys, session other l' h' ys ∧ same_methods l l' ∧
    ys.*2 = (spec_step op xs.*2).1 ∧
    freed h' = freed h ++ (if free l then (spec_step op xs.*2).2 else []) ∧
    zlen ys ≤ zlen xs + 1) as Hfin.
  { intros ys fs [l' h'] Hres Hys Hz Hv Hfs.
    destruct (session_result _ _ _ _ _ _ _ _ Hses Hres Hys) as (? & ? & Hf).
    exists ys. rewrite Hf, Hfs. by split_and!. }
  assert (∀ b : bool, [] = if b then @nil V else []) as Hnil by (by intros []).
  assert (∃ ys, session other l h ys ∧ same_methods l l ∧ ys.*2 = xs.*2 ∧
    freed h = freed h ++ (if free l then [] else []) ∧ zlen ys ≤ zlen xs + 1) as Hsame.
  { exists xs. rewrite <-(Hnil (free l)), app_nil_r. split_and!; try done. lia. }
  destruct op as [v|v|i v after|i|]; simpl impl_step.
  - eapply wp_mono; [by apply (addHead_ok h l xs)|]. intros r Hr. eapply (Hfin _ _ _ Hr); simpl; auto.
    + set_solver.
    + zl.
  - eapply wp_mono; [by apply (addTail_ok h l xs)|]. intros r Hr. eapply (Hfin _ _ _ Hr); simpl; auto.
    + rewrite fmap_app. set_solver.
    + zl.
    + by rewrite fmap_app.
  - pose proof (index_split h l xs i Hd) as Hidx. cbn [spec_step] in *.
    destruct (norm xs.*2 i) as [j|]; [|by rewrite Hidx].
    destruct Hidx as (a & p & w & b & -> & <- & Hidx). rewrite Hidx. cbn [mbind option_bind].
    eapply wp_mono; [by apply (insert_ok h l a p w b v after)|]. intros r Hr.
    assert (take (length a) (a ++ (p, w) :: b).*2 = a.*2 ∧ drop (length a) (a ++ (p, w) :: b).*2 = w :: b.*2)
      as [Hta Hdr].
    { rewrite fmap_app, fmap_cons. split; [apply take_app_length'|apply drop_app_length'];
        by rewrite length_fmap. }
    eapply (Hfin _ _ _ Hr); cbn [fst snd]; auto.
    + destruct after; rewrite !fmap_app, !fmap_cons; set_solver.
    + destruct after; zl.
    + destruct after.
      * rewrite (cons_middle (p, w) a b), (app_assoc a), (fmap_app _ (a ++ [(p, w)]) b).
        rewrite take_app_length', drop_app_length'
          by (rewrite length_fmap, length_app; simpl; lia).
        rewrite !fmap_app, !fmap_cons. simpl. by rewrite <-app_assoc.
      * rewrite Hta, Hdr. by rewrite fmap_app, !fmap_cons.
  - pose proof (index_split h l xs i Hd) as Hidx. cbn [spec_step] in *.
    destruct (norm xs.*2 i) as [j|]; [|by rewrite Hidx].
    destruct Hidx as (a & p & w & b & -> & <- & Hidx). rewrite Hidx. cbn [mbind option_bind].
    eapply wp_mono; [by apply (del_ok h l a p w b)|]. intros r Hr.
    eapply (Hfin _ _ _ Hr); cbn [fst snd]; auto.
    + rewrite !fmap_app, fmap_cons. set_solver.
    + zl.
    + rewrite !fmap_app, fmap_cons. rewrite take_app_length' by (by rewrite length_fmap).
      rewrite drop_app_ge by (rewrite length_fmap; lia). rewrite length_fmap.
      by replace (S (length a) - length a)%nat with 1%nat by lia.
    + rewrite list_lookup_fmap, list_lookup_middle by done. by destruct (free l).
  - destruct xs as [|[p v] xs _] using rev_ind.
    + unfold listRotate. destruct Hd as (_ & _ & _ & _ & -> & _). simpl. apply Hsame.
    + eapply wp_mono; [by apply (rotate_ok h l xs p v)|]. intros r Hr.
      eapply (Hfin _ _ _ Hr); simpl; auto.
      * rewrite fmap_app. set_solver.
      * zl.
      * rewrite fmap_app, fmap_cons. simpl. rewrite last_snoc, length_app. simpl. f_equal.
        rewrite take_app_length' by lia. done.
Qed.

Lemma run_ok ops : ∀ other l h xs,
  session other l h xs → zlen xs + zlen ops < 2 ^ 64 - 1 →
  wp (impl_run ops l h) (λ '(l', h'), ∃ ys, session other l' h' ys ∧ same_methods l l' ∧
    ys.*2 = (spec_run ops xs.*2).1 ∧
    freed h' = freed h ++ (if free l then (spec_run ops xs.*2).2 else [])).
Proof.
  induction ops as [|op ops IH]; intros other l h xs Hses Hlen; simpl.
  { exists xs. split_and!; try done. destruct (free l); by rewrite app_nil_r. }
  rewrite zlen_cons in Hlen. zlen_pos.
  apply wp_bind. eapply wp_mono; [apply (step_ok op other l h xs Hses); lia|].
  intros [l1 h1] (ys & Hses1 & Hm1 & Hv1 & Hf1 & Hl1).
  destruct (spec_step op xs.*2) as [vs1 fs1]. simpl in *.
  eapply wp_mono; [apply (IH other l1 h1 ys Hses1); lia|].
  intros [l2 h2] (zs & Hses2 & Hm2 & Hv2 & Hf2). rewrite Hv1 in *.
  destruct (spec_run ops vs1) as [vs2 fs2]. simpl in *. exists zs.
  destruct Hm1 as (? & Hfr1 & ?), Hm2 as (? & ? & ?).
  split_and!; try done; [split_and!; congruence|].
  rewrite Hf2, Hf1, Hfr1, <-app_assoc. by destruct (free l).
Qed.

(** ** Iterating while deleting

    The use the comment of [listNext] allows: the node just returned may be
    removed. *)
Definition prune_body (P : V → bool) (s : listIter * lst V * heap V) :
    option (listIter * lst V * heap V + lst V * heap V) :=
  let '(iter, l, h) := s in
  '(node, iter) ← listNext h iter;
  match node with
  | None => Some (inr (l, h))
  | Some p =>
      n ← nodes h !! p;
      if P (value n) then '(l, h) ← listDelNode l h p; Some (inl (iter, l, h))
      else Some (inl (iter, l, h))
  end.

Definition prune (P : V → bool) (l : lst V) (h : heap V) : option (lst V * heap V) :=
  loop (S (size (nodes h))) (prune_body P) (listRewind l, l, h).

Lemma prune_loop P ys : ∀ fuel l h xs,
  dll h l (xs ++ ys) → (length ys < fuel)%nat →
  wp (loop fuel (prune_body P) (ListIter (first ys None) AL_START_HEAD, l, h))
     (λ '(l', h'), ∃ zs, dll h' l' (xs ++ zs) ∧ zs.*2 = List.filter (λ v, negb (P v)) ys.*2 ∧
        freed h' = freed h ++ (if free l then List.filter P ys.*2 else [])).
Proof.
  induction ys as [|[p v] ys IH]; intros [|fuel] l h xs Hd Hf; try (simpl in Hf; lia);
    rewrite loop_S; apply wp_bind; unfold prune_body at 1; cbv beta iota.
  - simpl. exists []. split_and!; try done. by destruct (free l); rewrite app_nil_r.
  - pose proof Hd as (Hs & _). rewrite (next_ok h None xs p v ys Hs). cbn [mbind option_bind].
    pose proof Hs as (_ & Hp & _)%seg_mid. rewrite Hp. cbn [mbind option_bind value].
    change (((p, v) :: ys).*2) with (v :: ys.*2). cbn [List.filter].
    destruct (P v) eqn:EP; cbn [negb].
    + destruct (wp_inv _ _ (del_ok h l xs p v ys Hd)) as ([l1 h1] & -> & Hd1 & _ & (_ & Hm & _) & Hf1).
      cbn [mbind option_bind wp fst snd] in *.
      eapply wp_mono; [apply (IH fuel l1 h1 xs); [done|simpl in Hf; lia]|].
      intros [l2 h2] (zs & Hd2 & Hv & Hf2). exists zs. split_and!; try done.
      rewrite Hf2, Hf1, Hm, <-app_assoc. by destruct (free l).
    + cbn [wp]. eapply wp_mono; [apply (IH fuel l h (xs ++ [(p, v)])); [by rewrite <-app_assoc|simpl in Hf; lia]|].
      intros [l2 h2] (zs & Hd2 & Hv & Hf2). exists ((p, v) :: zs). rewrite <-app_assoc in Hd2.
      split_and!; try done. rewrite fmap_cons. by f_equal.
Qed.

(** C13: Every sequence of insertions at both ends and around an indexed node,
    deletions by index and rotations, on any list in any heap, performs no
    invalid dereference, leaves the values a plain sequence would have, linked
    correctly in both directions, hands exactly the deleted values to the [free]
    method when it is set, and does not touch the nodes of other lists. *)
Theorem adlist_refines_sequence ops other l h xs :
  session other l h xs → zlen xs + zlen ops < 2 ^ 64 - 1 →
  ∃ l' h' ys, impl_run ops l h = Some (l', h') ∧ session other l' h' ys ∧
    ys.*2 = (spec_run ops xs.*2).1 ∧
    freed h' = freed h ++ (if free l then (spec_run ops xs.*2).2 else []).
Proof.
  intros Hs Hl. destruct (wp_inv _ _ (run_ok ops other l h xs Hs Hl)) as ([l' h'] & -> & ys & ? & _ & ?).
  exists l', h', ys. tauto.
Qed.

(** Iterating from the head and deleting some of the returned nodes on the
    way visits every node: exactly the values that satisfy the predicate are
    removed. *)
Theorem listNext_delete_current P l h xs :
  dll h l xs →
  ∃ l' h' ys, prune P l h = Some (l', h') ∧ dll h' l' ys ∧
    ys.*2 = List.filter (λ v, negb (P v)) xs.*2 ∧
    freed h' = freed h ++ (if free l then List.filter P xs.*2 else []).
Proof.
  intros Hd. pose proof Hd as (Hs & Hnd & Hh & _). unfold prune, listRewind. rewrite Hh.
  pose proof (seg_length _ _ _ _ Hs Hnd).
  destruct (wp_inv _ _ (prune_loop P xs (S (size (nodes h))) l h [] Hd ltac:(lia)))
    as ([l' h'] & -> & ys & ? & ? & ?).
  by exists l', h', ys.
Qed.

(** [listDup] returns a copy made of new nodes, with the values the [dup]
    method gives (the same values without one), or NULL exactly when [dup] fails
    on some value; the original list and every other node are unchanged. *)
Theorem listDup_correct orig h xs :
  dll h orig xs →
  ∃ r h', listDup orig h = Some (r, h') ∧ dll h' orig xs ∧
    (∀ p, p ∈ dom (nodes h) → nodes h' !! p = nodes h !! p) ∧
    match r, mapM (dup_value orig) xs.*2 with
    | Some copy, Some vs => ∃ cs, dll h' copy cs ∧ cs.*2 = vs ∧ (∀ p, p ∈ xs.*1 → p ∉ cs.*1)
    | None, None => True
    | _, _ => False
    end.
Proof.
  intros (Hs & Hnd & Hh & Ht & Hl & Hlen). unfold listDup, listRewind. rewrite Hh.
  set (copy := List None None (dup orig) (free orig) (match_ orig) 0).
  assert (dll h copy []) as Hc by (split_and!; try done; constructor).
  pose proof (seg_length _ _ _ _ Hs Hnd).
  destruct (wp_inv _ _ (dup_loop orig xs (S (size (nodes h))) h copy [] [] Hs Hc eq_refl
    (λ p _, not_elem_of_nil p) ltac:(lia) ltac:(rewrite (zlen_nil (A:=ptr*V)); lia)))
    as ([r h'] & -> & Hs' & Hfr & Hr). simpl in *.
  exists r, h'. split_and!; try done.
  - intros p Hp. apply Hfr; [done|apply not_elem_of_nil].
  - destruct r as [c|], (mapM (dup_value orig) xs.*2) as [vs|]; try done.
    destruct Hr as (cs & ? & ? & _ & ?). by exists cs.
Qed.

(** [listJoin] appends all nodes of the second list to the first, which
    then represents the concatenation; the second list is left empty. *)
Theorem listJoin_correct h l o xs ys :
  dll h l xs → dll h o ys → NoDup (xs ++ ys).*1 → zlen (xs ++ ys) < 2 ^ 64 - 1 →
  ∃ l' o' h', listJoin l o h = Some (l', o', h') ∧ dll h' l' (xs ++ ys) ∧ dll h' o' [].
Proof.
  intros Hx Hy Hnd Hl.
  destruct (wp_inv _ _ (join_ok h l o xs ys Hx Hy Hnd Hl)) as ([[l' o'] h'] & -> & (? & _) & ?).
  by exists l', o', h'.
Qed.

(** [listSearchKey] returns the first node from the head whose value
    matches the key (by the [match] method, or by equality without one), or
    NULL; [listIndex] returns the node at an index, from the tail when negative,
    or NULL when out of range. *)
Theorem listSearchKey_listIndex h l xs key i :
  dll h l xs →
  listSearchKey l h key = Some (fst <$> List.find (matches l key) xs) ∧
  listIndex l h i = Some (fst <$> (norm xs i ≫= λ j, xs !! j)).
Proof.
  intros Hd. split; [by apply search_ok|]. rewrite (index_ok h l xs i Hd). by rewrite norm_lookup.
Qed.
End Repr.

(** ** The theorems at concrete inputs: the list 10, 20, 30 *)
Definition demo_nodes : gmap ptr (listNode Z) :=
  {[ 1%positive := ListNode None (Some 2%positive) 10;
     2%positive := ListNode (Some 1%positive) (Some 3%positive) 20;
     3%positive := ListNode (Some 2%positive) None 30 ]}.
Definition demo_heap : heap Z := Heap demo_nodes [].
Definition demo_list : lst Z :=
  List (Some 1%positive) (Some 3%positive) None true None 3.
Definition demo_cells : list (ptr * Z) :=
  [(1%positive, 10); (2%positive, 20); (3%positive, 30)].

Lemma demo_dll : dll demo_heap demo_list demo_cells.
Proof.
  split_and!; try done. repeat (apply NoDup_cons; split; [set_solver|]). constructor.
Qed.

Lemma adlist_refines_sequence_witness :
  ∃ l' h' ys, impl_run [LAddHead 5; LDel (-1); LInsert 1 7 true; LRotate] demo_list demo_heap
      = Some (l', h') ∧ session ∅ l' h' ys ∧ ys.*2 = [20; 5; 10; 7] ∧ freed h' = [30].
Proof.
  apply (adlist_refines_sequence [LAddHead 5; LDel (-1); LInsert 1 7 true; LRotate]
    ∅ demo_list demo_heap demo_cells).
  - split_and!; [exact demo_dll|apply map_empty_subseteq|done].
  - done.
Defined.

Lemma listNext_delete_current_witness :
  ∃ l' h' ys, prune (λ v, v =? 20) demo_list demo_heap = Some (l', h') ∧ dll h' l' ys ∧
    ys.*2 = [10; 30] ∧ freed h' = [20].
Proof. apply (listNext_delete_current (λ v, v =? 20) demo_list demo_heap demo_cells). exact demo_dll. Defined.

Lemma listDup_correct_witness :
  ∃ r h', listDup demo_list demo_heap = Some (r, h') ∧ dll h' demo_list demo_cells ∧
    (∀ p, p ∈ dom (nodes demo_heap) → nodes h' !! p = nodes demo_heap !! p) ∧
    match r, Some [10; 20; 30] with
    | Some copy, Some vs => ∃ cs, dll h' copy cs ∧ cs.*2 = vs ∧ (∀ p, p ∈ demo_cells.*1 → p ∉ cs.*1)
    | None, None => True
    | _, _ => False
    end.
Proof. apply (listDup_correct demo_list demo_heap demo_cells). exact demo_dll. Defined.

Lemma listJoin_correct_witness :
  ∃ l' o' h', listJoin listCreate demo_list demo_heap = Some (l', o', h') ∧
    dll h' l' demo_cells ∧ dll h' o' [].
Proof.
  apply (listJoin_correct demo_heap listCreate demo_list [] demo_cells).
  - split_and!; try done. constructor.
  - exact demo_dll.
  - exact (proj1 (proj2 demo_dll)).
  - done.
Defined.

Lemma listSearchKey_listIndex_witness :
  listSearchKey demo_list demo_heap 20 = Some (Some 2%positive) ∧
  listIndex demo_list demo_heap (-1) = Some (Some 3%positive).
Proof.
  destruct (listSearchKey_listIndex demo_heap demo_list demo_cells 20 (-1) demo_dll) as [-> ->].
  vm_compute. done.
Defined.
