(* ===== verification/Dict.v ===== *)
(** * dict.c: hash tables with incremental rehashing

    Entries live in a store, a finite map from pointers to keys and values; the
    chain of a bucket is the list of its entry pointers, first the most recent
    one.  [None] is a failed assertion, a dereference of NULL or an access
    outside the table.  The hash function and the other methods come with the
    dictionary type. *)

From S2P Require Import Prelude.

Module Dict.

Notation ptr := positive.
Definition DICT_OK : Z := 0.
Definition DICT_ERR : Z := 1.
Definition DICT_HT_INITIAL_SIZE : Z := 4.
Definition LONG_MAX : Z := 9223372036854775807.
Definition dict_force_resize_ratio : Z := 5.

Section Dict.
Context {K V : Type} `{EqDecision K}.

(** The value is unset between the allocation of an entry and [dictSetVal]. *)
Record dictEntry := DictEntry { key : K; val : option V }.

(** Destructors are called for their effect only: [true] when they are set. *)
Record dictType := DictType {
  hashFunction : K → Z;
  keyDup : option (K → K); valDup : option (V → V);
  keyCompare : option (K → K → bool);
  keyDestructor : bool; valDestructor : bool }.

(** [table] is [None] for NULL. *)
Record dictht := Dictht { table : option (list (list ptr)); size : Z; sizemask : Z; used : Z }.

Record dict := Dict { type : dictType; ht0 : dictht; ht1 : dictht; rehashidx : Z; iterators : Z }.

(** The entries, what was given to the destructors, and the global
    [dict_can_resize]. *)
Record store := Store {
  entries : gmap ptr dictEntry; freed_keys : list K; freed_vals : list V; dict_can_resize : bool }.

Definition set_entry (st : store) (p : ptr) (e : dictEntry) : store :=
  Store (<[p := e]> (entries st)) (freed_keys st) (freed_vals st) (dict_can_resize st).

Definition set_ht0 (d : dict) (t : dictht) : dict := Dict (type d) t (ht1 d) (rehashidx d) (iterators d).
Definition set_ht1 (d : dict) (t : dictht) : dict := Dict (type d) (ht0 d) t (rehashidx d) (iterators d).
Definition set_rehashidx (d : dict) (i : Z) : dict := Dict (type d) (ht0 d) (ht1 d) i (iterators d).
Definition set_iterators (d : dict) (i : Z) : dict := Dict (type d) (ht0 d) (ht1 d) (rehashidx d) i.

(** [ht->table[i]] and [ht->table[i] = b]. *)
Definition tget (t : dictht) (i : Z) : option (list ptr) :=
  bs ← table t; if 0 <=? i then bs !! Z.to_nat i else None.

Definition tset (t : dictht) (i : Z) (b : list ptr) : option dictht :=
  bs ← table t;
  if (0 <=? i) && (i <? zlen bs)
  then Some (Dictht (Some (<[Z.to_nat i := b]> bs)) (size t) (sizemask t) (used t)) else None.

Definition set_used (t : dictht) (n : Z) : dictht :=
  Dictht (table t) (size t) (sizemask t) (uwrap 64 n).

(** ** Macros *)
Definition dictIsRehashing (d : dict) : bool := negb (rehashidx d =? -1).
Definition dictSize (d : dict) : Z := uwrap 64 (used (ht0 d) + used (ht1 d)).

Definition dictSlots (d : dict) : Z := uwrap 64 (size (ht0 d) + size (ht1 d)).

Definition dictHashKey (d : dict) (k : K) : Z := hashFunction (type d) k.

Definition dictCompareKeys (d : dict) (k1 k2 : K) : bool :=
  match keyCompare (type d) with Some f => f k1 k2 | None => bool_decide (k1 = k2) end.

Definition dictFreeKey (d : dict) (st : store) (e : dictEntry) : store :=
  if keyDestructor (type d)
  then Store (entries st) (freed_keys st ++ [key e]) (freed_vals st) (dict_can_resize st) else st.

Definition dictFreeVal (d : dict) (st : store) (e : dictEntry) : store :=
  if valDestructor (type d)
  then Store (entries st) (freed_keys st) (freed_vals st ++ option_list (val e)) (dict_can_resize st)
  else st.

Definition dictSetVal (d : dict) (st : store) (p : ptr) (v : V) : option store :=
  e ← entries st !! p;
  let v := match valDup (type d) with Some f => f v | None => v end in
  Some (set_entry st p (DictEntry (key e) (Some v))).

Definition zfree_entry (st : store) (p : ptr) : store :=
  Store (delete p (entries st)) (freed_keys st) (freed_vals st) (dict_can_resize st).

(** ** Creation and expansion *)
Definition _dictReset : dictht := Dictht None 0 0 0.

Definition _dictInit (ty : dictType) : dict := Dict ty _dictReset _dictReset (-1) 0.
Definition dictCreate (ty : dictType) : dict := _dictInit ty.

(** [i] doubles at each round: 64 rounds pass every 64-bit size. *)
Fixpoint next_power (fuel : nat) (i size : Z) : option Z :=
  match fuel with
  | O => None
  | S fuel => if size <=? i then Some i else next_power fuel (uwrap 64 (i * 2)) size
  end.

Definition _dictNextPower (size : Z) : option Z :=
  if LONG_MAX <=? size then Some (LONG_MAX + 1) else next_power 64 DICT_HT_INITIAL_SIZE size.

Definition dictExpand (d : dict) (sz : Z) : option (dict * Z) :=
  realsize ← _dictNextPower sz;
  if dictIsRehashing d || (sz <? used (ht0 d)) then Some (d, DICT_ERR)
  else if realsize =? size (ht0 d) then Some (d, DICT_ERR)
  else
    let n := Dictht (Some (replicate (Z.to_nat realsize) [])) realsize (realsize - 1) 0 in
    match table (ht0 d) with
    | None => Some (set_ht0 d n, DICT_OK)
    | Some _ => Some (set_rehashidx (set_ht1 d n) 0, DICT_OK)
    end.

(** [minimal] is an [int]; passing it on converts it to [unsigned long]. *)
Definition dictResize (st : store) (d : dict) : option (dict * Z) :=
  if negb (dict_can_resize st) || dictIsRehashing d then Some (d, DICT_ERR)
  else
    let minimal := swrap 32 (used (ht0 d)) in
    let minimal := if minimal <? DICT_HT_INITIAL_SIZE then DICT_HT_INITIAL_SIZE else minimal in
    dictExpand d (uwrap 64 minimal).

(** ** Rehashing *)
(** The inner [while] over empty buckets: the new index and the visits left, or
    [None] for the early return. *)
Fixpoint skip_empty (fuel : nat) (t : dictht) (idx empty_visits : Z) : option (Z * option Z) :=
  match fuel with
  | O => None
  | S fuel =>
      b ← tget t idx;
      match b with
      | [] =>
          let idx := idx + 1 in
          let empty_visits := empty_visits - 1 in
          if empty_visits =? 0 then Some (idx, None) else skip_empty fuel t idx empty_visits
      | _ => Some (idx, Some empty_visits)
      end
  end.

(** Moves the chain [de]. *)
Fixpoint move_bucket (st : store) (d : dict) (de : list ptr) : option dict :=
  match de with
  | [] => Some d
  | p :: nextde =>
      e ← entries st !! p;
      let h := uwrap 32 (Z.land (dictHashKey d (key e)) (sizemask (ht1 d))) in
      b ← tget (ht1 d) h;
      t1 ← tset (ht1 d) h (p :: b);
      let d := set_ht0 d (set_used (ht0 d) (used (ht0 d) - 1)) in
      let d := set_ht1 d (set_used t1 (used t1 + 1)) in
      move_bucket st d nextde
  end.

(** The outer loop: [None] in the second component is the early [return 1]. *)
Fixpoint rehash_loop (n : nat) (st : store) (d : dict) (empty_visits : Z) : option (dict * bool) :=
  match n with
  | O => Some (d, true)
  | S n =>
      if used (ht0 d) =? 0 then Some (d, true)
      else if negb (rehashidx d <? size (ht0 d)) then None
      else
        '(idx, ev) ← skip_empty (S (Z.to_nat (size (ht0 d)))) (ht0 d) (rehashidx d) empty_visits;
        let d := set_rehashidx d idx in
        match ev with
        | None => Some (d, false)
        | Some empty_visits =>
            de ← tget (ht0 d) (rehashidx d);
            d ← move_bucket st d de;
            t0 ← tset (ht0 d) (rehashidx d) [];
            let d := set_rehashidx (set_ht0 d t0) (rehashidx d + 1) in
            rehash_loop n st d empty_visits
        end
  end.

(** [n] is not negative and [n*10] fits in an [int]: the callers pass 1 and 100. *)
Definition dictRehash (st : store) (d : dict) (n : Z) : option (dict * Z) :=
  if negb (dictIsRehashing d) then Some (d, 0)
  else
    '(d, through) ← rehash_loop (Z.to_nat n) st d (n * 10);
    if negb (through : bool) then Some (d, 1)
    else if used (ht0 d) =? 0 then
      let d := set_ht0 d (ht1 d) in
      let d := set_ht1 d _dictReset in
      Some (set_rehashidx d (-1), 0)
    else Some (d, 1).

Definition _dictRehashStep (st : store) (d : dict) : option dict :=
  if iterators d =? 0 then fst <$> dictRehash st d 1 else Some d.

(** [if (dictIsRehashing(d)) _dictRehashStep(d);] *)
Definition rehash_if (st : store) (d : dict) : option dict :=
  if dictIsRehashing d then _dictRehashStep st d else Some d.

(** [clock] answers, after each round, whether the time is up. *)
Fixpoint dictRehashMilliseconds (clock : list bool) (st : store) (d : dict) : option (dict * Z) :=
  match clock with
  | [] => None
  | time_up :: clock =>
      '(d, r) ← dictRehash st d 100;
      if r =? 0 then Some (d, 0)
      else if time_up : bool then Some (d, 100)
      else '(d, n) ← dictRehashMilliseconds clock st d; Some (d, 100 + n)
  end.

(** ** Looking up *)
(** Walks a chain for the key. *)
Fixpoint chain_find (st : store) (d : dict) (k : K) (he : list ptr) : option (option ptr) :=
  match he with
  | [] => Some None
  | p :: next =>
      e ← entries st !! p;
      if bool_decide (k = key e) || dictCompareKeys d k (key e) then Some (Some p)
      else chain_find st d k next
  end.

(** One round of the loop over the tables: the index and the entry found. *)
Definition probe (st : store) (d : dict) (t : dictht) (k : K) (h : Z) : option (Z * option ptr) :=
  let idx := Z.land h (sizemask t) in
  b ← tget t idx;
  r ← chain_find st d k b;
  Some (idx, r).

Definition dictFind (st : store) (d : dict) (k : K) : option (dict * option ptr) :=
  if uwrap 64 (used (ht0 d) + used (ht1 d)) =? 0 then Some (d, None)
  else
    d ← rehash_if st d;
    let h := uwrap 32 (dictHashKey d k) in
    '(_, r) ← probe st d (ht0 d) k h;
    match r with
    | Some p => Some (d, Some p)
    | None =>
        if negb (dictIsRehashing d) then Some (d, None)
        else '(_, r) ← probe st d (ht1 d) k h; Some (d, r)
    end.

Definition dictFetchValue (st : store) (d : dict) (k : K) : option (dict * option V) :=
  '(d, he) ← dictFind st d k;
  match he with
  | None => Some (d, None)
  | Some p => e ← entries st !! p; Some (d, val e)
  end.

(** ** Adding *)
Definition _dictExpandIfNeeded (st : store) (d : dict) : option (dict * Z) :=
  if dictIsRehashing d then Some (d, DICT_OK)
  else if size (ht0 d) =? 0 then dictExpand d DICT_HT_INITIAL_SIZE
  else if (size (ht0 d) <=? used (ht0 d)) &&
          (dict_can_resize st || (dict_force_resize_ratio <? used (ht0 d) / size (ht0 d)))
  then dictExpand d (uwrap 64 (used (ht0 d) * 2))
  else Some (d, DICT_OK).

(** [-1] with the existing entry, or the index; the index is an [int]. *)
Definition _dictKeyIndex (st : store) (d : dict) (k : K) (hash : Z) :
    option (dict * Z * option ptr) :=
  let hash := uwrap 32 hash in
  '(d, r) ← _dictExpandIfNeeded st d;
  if r =? DICT_ERR then Some (d, -1, None)
  else
    '(idx, he) ← probe st d (ht0 d) k hash;
    match he with
    | Some p => Some (d, -1, Some p)
    | None =>
        if negb (dictIsRehashing d) then Some (d, swrap 32 idx, None)
        else
          '(idx, he) ← probe st d (ht1 d) k hash;
          match he with
          | Some p => Some (d, -1, Some p)
          | None => Some (d, swrap 32 idx, None)
          end
    end.

(** Returns the new entry, if any, and [*existing]. *)
Definition dictAddRaw (st : store) (d : dict) (k : K) :
    option (store * dict * option ptr * option ptr) :=
  d ← rehash_if st d;
  '(d, index, existing) ← _dictKeyIndex st d k (dictHashKey d k);
  if index =? -1 then Some (st, d, None, existing)
  else
    let ht := if dictIsRehashing d then ht1 d else ht0 d in
    let entry := fresh (dom (entries st)) in
    b ← tget ht index;
    ht ← tset ht index (entry :: b);
    let ht := set_used ht (used ht + 1) in
    let d := if dictIsRehashing d then set_ht1 d ht else set_ht0 d ht in
    let k := match keyDup (type d) with Some f => f k | None => k end in
    Some (set_entry st entry (DictEntry k None), d, Some entry, None).

Definition dictAdd (st : store) (d : dict) (k : K) (v : V) : option (store * dict * Z) :=
  '(st, d, entry, _) ← dictAddRaw st d k;
  match entry with
  | None => Some (st, d, DICT_ERR)
  | Some p => st ← dictSetVal d st p v; Some (st, d, DICT_OK)
  end.

Definition dictReplace (st : store) (d : dict) (k : K) (v : V) : option (store * dict * Z) :=
  '(st, d, entry, existing) ← dictAddRaw st d k;
  match entry with
  | Some p => st ← dictSetVal d st p v; Some (st, d, 1)
  | None =>
      p ← existing;
      auxentry ← entries st !! p;
      st ← dictSetVal d st p v;
      Some (dictFreeVal d st auxentry, d, 0)
  end.

Definition dictAddOrFind (st : store) (d : dict) (k : K) : option (store * dict * option ptr) :=
  '(st, d, entry, existing) ← dictAddRaw st d k;
  Some (st, d, match entry with Some _ => entry | None => existing end).

(** ** Removing *)
(** Unlinks the first entry with the key from a chain. *)
Fixpoint chain_unlink (st : store) (d : dict) (k : K) (he : list ptr) :
    option (option (ptr * list ptr)) :=
  match he with
  | [] => Some None
  | p :: next =>
      e ← entries st !! p;
      if bool_decide (k = key e) || dictCompareKeys d k (key e) then Some (Some (p, next))
      else
        r ← chain_unlink st d k next;
        Some (match r with Some (q, next') => Some (q, p :: next') | None => None end)
  end.

Definition free_entry (d : dict) (st : store) (p : ptr) : option store :=
  e ← entries st !! p;
  Some (zfree_entry (dictFreeVal d (dictFreeKey d st e) e) p).

(** One round of the loop over the tables. *)
Definition delete_in (st : store) (d : dict) (t : dictht) (k : K) (h : Z) (nofree : bool) :
    option (option (store * dictht * ptr)) :=
  let idx := Z.land h (sizemask t) in
  b ← tget t idx;
  r ← chain_unlink st d k b;
  match r with
  | None => Some None
  | Some (p, b') =>
      t ← tset t idx b';
      st ← (if nofree then Some st else free_entry d st p);
      Some (Some (st, set_used t (used t - 1), p))
  end.

Definition dictGenericDelete (st : store) (d : dict) (k : K) (nofree : bool) :
    option (store * dict * option ptr) :=
  if (used (ht0 d) =? 0) && (used (ht1 d) =? 0) then Some (st, d, None)
  else
    d ← rehash_if st d;
    let h := uwrap 32 (dictHashKey d k) in
    r ← delete_in st d (ht0 d) k h nofree;
    match r with
    | Some (st, t, p) => Some (st, set_ht0 d t, Some p)
    | None =>
        if negb (dictIsRehashing d) then Some (st, d, None)
        else
          r ← delete_in st d (ht1 d) k h nofree;
          match r with
          | Some (st, t, p) => Some (st, set_ht1 d t, Some p)
          | None => Some (st, d, None)
          end
    end.

Definition dictDelete (st : store) (d : dict) (k : K) : option (store * dict * Z) :=
  '(st, d, he) ← dictGenericDelete st d k false;
  Some (st, d, match he with Some _ => DICT_OK | None => DICT_ERR end).

Definition dictUnlink (st : store) (d : dict) (k : K) : option (store * dict * option ptr) :=
  dictGenericDelete st d k true.

Definition dictFreeUnlinkedEntry (st : store) (d : dict) (he : option ptr) : option store :=
  match he with None => Some st | Some p => free_entry d st p end.

(** Frees a chain; returns the number of entries with the store. *)
Fixpoint clear_chain (d : dict) (st : store) (u : Z) (he : list ptr) : option (store * Z) :=
  match he with
  | [] => Some (st, u)
  | p :: next => st ← free_entry d st p; clear_chain d st (uwrap 64 (u - 1)) next
  end.

(** [for (i = 0; i < ht->size && ht->used > 0; i++)] *)
Fixpoint clear_buckets (d : dict) (st : store) (u : Z) (bs : list (list ptr)) : option store :=
  match bs with
  | [] => Some st
  | b :: bs =>
      if 0 <? u then '(st, u) ← clear_chain d st u b; clear_buckets d st u bs else Some st
  end.

Definition _dictClear (d : dict) (st : store) (t : dictht) : option (store * dictht) :=
  st ← clear_buckets d st (used t) (default [] (table t));
  Some (st, _dictReset).

Definition dictEmpty (st : store) (d : dict) : option (store * dict) :=
  '(st, t0) ← _dictClear d st (ht0 d);
  '(st, t1) ← _dictClear d st (ht1 d);
  Some (st, Dict (type d) t0 t1 (-1) 0).

Definition dictRelease (st : store) (d : dict) : option store :=
  '(st, _) ← _dictClear d st (ht0 d);
  '(st, _) ← _dictClear d st (ht1 d);
  Some st.

Definition dictEnableResize (st : store) : store :=
  Store (entries st) (freed_keys st) (freed_vals st) true.
Definition dictDisableResize (st : store) : store :=
  Store (entries st) (freed_keys st) (freed_vals st) false.

Definition dictGetHash (d : dict) (k : K) : Z := uwrap 32 (dictHashKey d k).

(** ** Iterators *)
Record dictIterator := DictIterator {
  index : Z; itable : Z; safe : bool; entry : option ptr; nextEntry : option ptr; fingerprint : Z }.

(** The address of the bucket array, 0 for NULL. *)
Context (table_addr : dictht → Z).

(** One round of Thomas Wang's 64-bit integer hash, in two's complement. *)
Definition wang (hash : Z) : Z :=
  let hash := swrap 64 (Z.lnot hash + swrap 64 (Z.shiftl hash 21)) in
  let hash := Z.lxor hash (Z.shiftr hash 24) in
  let hash := swrap 64 (swrap 64 (hash + Z.shiftl hash 3) + Z.shiftl hash 8) in
  let hash := Z.lxor hash (Z.shiftr hash 14) in
  let hash := swrap 64 (swrap 64 (hash + Z.shiftl hash 2) + Z.shiftl hash 4) in
  let hash := Z.lxor hash (Z.shiftr hash 28) in
  swrap 64 (hash + Z.shiftl hash 31).

Definition dictFingerprint (d : dict) : Z :=
  let integers := [table_addr (ht0 d); size (ht0 d); used (ht0 d);
                   table_addr (ht1 d); size (ht1 d); used (ht1 d)] in
  foldl (λ hash i, wang (swrap 64 (hash + i))) 0 integers.

Definition dictGetIterator : dictIterator := DictIterator (-1) 0 false None None 0.
Definition dictGetSafeIterator : dictIterator := DictIterator (-1) 0 true None None 0.

(** The entry that follows [p] in a chain, and in the tables. *)
Fixpoint succ_in (p : ptr) (b : list ptr) : option (option ptr) :=
  match b with
  | [] => None
  | q :: b => if bool_decide (q = p) then Some (head b) else succ_in p b
  end.

Fixpoint succ_in_table (p : ptr) (bs : list (list ptr)) : option (option ptr) :=
  match bs with
  | [] => None
  | b :: bs => match succ_in p b with Some r => Some r | None => succ_in_table p bs end
  end.

Definition entry_next (d : dict) (p : ptr) : option (option ptr) :=
  succ_in_table p (default [] (table (ht0 d)) ++ default [] (table (ht1 d))).

(** One round of [while (1)] on state [(iter, d)]; [inr] leaves the loop. *)
Definition dictNext_body (s : dictIterator * dict) :
    option (dictIterator * dict + option ptr * dictIterator * dict) :=
  let '(iter, d) := s in
  '(iter, d, stop) ←
    (match entry iter with
     | None =>
         let '(iter, d) :=
           if (index iter =? -1) && (itable iter =? 0) then
             if safe iter then (iter, set_iterators d (iterators d + 1))
             else (DictIterator (index iter) (itable iter) (safe iter) None (nextEntry iter)
                     (dictFingerprint d), d)
           else (iter, d) in
         let i := index iter + 1 in
         let ht := if itable iter =? 0 then ht0 d else ht1 d in
         if size ht <=? i then
           if dictIsRehashing d && (itable iter =? 0) then
             b ← tget (ht1 d) 0;
             Some (DictIterator 0 1 (safe iter) (head b) (nextEntry iter) (fingerprint iter), d, false)
           else Some (DictIterator i (itable iter) (safe iter) None (nextEntry iter) (fingerprint iter), d, true)
         else
           b ← tget ht i;
           Some (DictIterator i (itable iter) (safe iter) (head b) (nextEntry iter) (fingerprint iter), d, false)
     | Some _ =>
         Some (DictIterator (index iter) (itable iter) (safe iter) (nextEntry iter) (nextEntry iter)
                 (fingerprint iter), d, false)
     end);
  if stop : bool then Some (inr (None, iter, d))
  else
    match entry iter with
    | Some p =>
        n ← entry_next d p;
        Some (inr (Some p, DictIterator (index iter) (itable iter) (safe iter) (Some p) n
                             (fingerprint iter), d))
    | None => Some (inl (iter, d))
    end.

(** Every round without an entry moves to another bucket. *)
Definition dictNext (iter : dictIterator) (d : dict) : option (option ptr * dictIterator * dict) :=
  loop (Z.to_nat (size (ht0 d) + size (ht1 d) + 3)) dictNext_body (iter, d).

Definition dictReleaseIterator (iter : dictIterator) (d : dict) : option dict :=
  if negb ((index iter =? -1) && (itable iter =? 0)) then
    if safe iter then Some (set_iterators d (iterators d - 1))
    else if fingerprint iter =? dictFingerprint d then Some d else None
  else Some d.

(** ** Random entries

    [rs] are the numbers [random()] returns, not negative; running out of them
    is [None]. *)
Fixpoint random_bucket (st : store) (d : dict) (rs : list Z) : option (list ptr * list Z) :=
  match rs with
  | [] => None
  | r :: rs =>
      he ← (if dictIsRehashing d then
              let h := uwrap 32 (rehashidx d + r mod (size (ht0 d) + size (ht1 d) - rehashidx d)) in
              if size (ht0 d) <=? h then tget (ht1 d) (h - size (ht0 d)) else tget (ht0 d) h
            else tget (ht0 d) (uwrap 32 (Z.land r (sizemask (ht0 d)))));
      match he with [] => random_bucket st d rs | _ => Some (he, rs) end
  end.

Definition dictGetRandomKey (st : store) (d : dict) (rs : list Z) : option (dict * option ptr) :=
  if dictSize d =? 0 then Some (d, None)
  else
    d ← rehash_if st d;
    '(he, rs) ← random_bucket st d rs;
    r ← head rs;
    let listele := r mod zlen he in
    p ← he !! Z.to_nat listele;
    Some (d, Some p).

(** The state of [dictGetSomeKeys]: the index, the length of the run of empty
    buckets, the entries stored in [des] and the random numbers left. *)
Record someKeys := SomeKeys { at_i : Z; emptylen : Z; des : list ptr; rnd : list Z }.

(** Stores a chain; [true] when [count] entries are stored. *)
Fixpoint collect (count : Z) (out : list ptr) (he : list ptr) : list ptr * bool :=
  match he with
  | [] => (out, false)
  | p :: next =>
      let out := out ++ [p] in
      if zlen out =? count then (out, true) else collect count out next
  end.

(** One round of the inner [for], table [j]; [true] for the early return. *)
Definition some_bucket (d : dict) (count maxsizemask tables j : Z) (s : someKeys) :
    option (someKeys * bool) :=
  let i := at_i s in
  if (tables =? 2) && (j =? 0) && (i <? uwrap 64 (rehashidx d)) then
    Some (if size (ht1 d) <=? i then SomeKeys (rehashidx d) (emptylen s) (des s) (rnd s) else s, false)
  else
    let ht := if j =? 0 then ht0 d else ht1 d in
    if size ht <=? i then Some (s, false)
    else
      he ← tget ht i;
      match he with
      | [] =>
          let emptylen := emptylen s + 1 in
          if (5 <=? emptylen) && (count <? emptylen) then
            match rnd s with
            | [] => None
            | r :: rs => Some (SomeKeys (Z.land r maxsizemask) 0 (des s) rs, false)
            end
          else Some (SomeKeys i emptylen (des s) (rnd s), false)
      | _ =>
          let '(out, full) := collect count (des s) he in
          Some (SomeKeys i 0 out (rnd s), full)
      end.

Fixpoint some_loop (maxsteps : nat) (d : dict) (count maxsizemask tables : Z) (s : someKeys) :
    option someKeys :=
  match maxsteps with
  | O => Some s
  | S maxsteps =>
      if negb (zlen (des s) <? count) then Some s
      else
        '(s, full) ← some_bucket d count maxsizemask tables 0 s;
        if full : bool then Some s
        else
          '(s, full) ← (if tables =? 2 then some_bucket d count maxsizemask tables 1 s else Some (s, false));
          if full : bool then Some s
          else
            some_loop maxsteps d count maxsizemask tables
              (SomeKeys (Z.land (uwrap 64 (at_i s + 1)) maxsizemask) (emptylen s) (des s) (rnd s))
  end.

Fixpoint rehash_some (count : nat) (st : store) (d : dict) : option dict :=
  match count with
  | O => Some d
  | S count =>
      if dictIsRehashing d then d ← _dictRehashStep st d; rehash_some count st d else Some d
  end.

(** [count] is an [unsigned int], also in [count*10]. *)
Definition dictGetSomeKeys (st : store) (d : dict) (count : Z) (rs : list Z) :
    option (dict * list ptr) :=
  let count := if dictSize d <? count then uwrap 32 (dictSize d) else count in
  let maxsteps := uwrap 32 (count * 10) in
  d ← rehash_some (Z.to_nat count) st d;
  let tables := if dictIsRehashing d then 2 else 1 in
  let maxsizemask := sizemask (ht0 d) in
  let maxsizemask :=
    if (1 <? tables) && (maxsizemask <? sizemask (ht1 d)) then sizemask (ht1 d) else maxsizemask in
  match rs with
  | [] => None
  | r :: rs =>
      s ← some_loop (Z.to_nat maxsteps) d count maxsizemask tables (SomeKeys (Z.land r maxsizemask) 0 [] rs);
      Some (d, des s)
  end.

(** ** Scanning *)
Definition not64 (v : Z) : Z := uwrap 64 (Z.lnot v).

(** [while ((s >>= 1) > 0)] over a 64-bit word. *)
Fixpoint rev_loop (fuel : nat) (s mask v : Z) : Z :=
  match fuel with
  | O => v
  | S fuel =>
      let s := Z.shiftr s 1 in
      if 0 <? s then
        let mask := Z.lxor mask (uwrap 64 (Z.shiftl mask s)) in
        let v := Z.lor (Z.land (Z.shiftr v s) mask) (Z.land (uwrap 64 (Z.shiftl v s)) (not64 mask)) in
        rev_loop fuel s mask v
      else v
  end.

Definition rev (v : Z) : Z := rev_loop 7 64 (not64 0) v.

(** The expansions of the cursor in the larger table: the entries emitted and
    the cursor left. *)
Fixpoint scan_expand (fuel : nat) (t1 : dictht) (m0 m1 v : Z) (out : list ptr) :
    option (list ptr * Z) :=
  match fuel with
  | O => None
  | S fuel =>
      b ← tget t1 (Z.land v m1);
      let out := out ++ b in
      let v := Z.lor (Z.land (uwrap 64 (Z.lor v m0 + 1)) (not64 m0)) (Z.land v m0) in
      if Z.land v (Z.lxor m0 m1) =? 0 then Some (out, v) else scan_expand fuel t1 m0 m1 v out
  end.

(** The entries given to [fn], in order, and the next cursor. *)
Definition dictScan (d : dict) (v : Z) : option (list ptr * Z) :=
  if dictSize d =? 0 then Some ([], 0)
  else
    '(out, v, m0) ←
      (if negb (dictIsRehashing d) then
         let m0 := sizemask (ht0 d) in
         b ← tget (ht0 d) (Z.land v m0);
         Some (b, v, m0)
       else
         let '(t0, t1) := if size (ht1 d) <? size (ht0 d) then (ht1 d, ht0 d) else (ht0 d, ht1 d) in
         let m0 := sizemask t0 in
         let m1 := sizemask t1 in
         b ← tget t0 (Z.land v m0);
         '(out, v) ← scan_expand (Z.to_nat (size t1)) t1 m0 m1 v b;
         Some (out, v, m0));
    let v := Z.lor v (not64 m0) in
    let v := rev v in
    let v := uwrap 64 (v + 1) in
    let v := rev v in
    Some (out, v).

End Dict.
Arguments dictEntry K V : clear implicits.
Arguments dictType K V : clear implicits.
Arguments dict K V : clear implicits.
Arguments store K V : clear implicits.
Arguments dictht : clear implicits.
End Dict.
