(* ===== verification/DictSpec.v ===== *)
(** * The hash table represents a finite map

    [dict_ok st d m]: the two tables of [d] are well formed (sizes are powers of
    two, every entry is in the bucket of its hash, buckets before [rehashidx] are
    empty) and together hold exactly the map [m], each key once.  Rehashing only
    permutes the entries; every operation is proved to act on [m]. *)

From S2P Require Import Prelude.
From S2P Require Import Dict.
Import Dict.

(** What the methods of a dictionary type must satisfy: the hash is a 64-bit
    number, keys are compared by content and copied faithfully. *)
Class DictTypeOk {K V} (ty : dictType K V) : Prop := {
  hash_u64 : ∀ k, in_u 64 (hashFunction ty k);
  keyDup_id : ∀ f k, keyDup ty = Some f → f k = k;
  keyCompare_eq : ∀ f k1 k2, keyCompare ty = Some f → f k1 k2 = true ↔ k1 = k2 }.

(** ** Lists of buckets *)
Lemma concat_split {A} (bs : list (list A)) i b :
  bs !! i = Some b →
  ∃ R, concat bs ≡ₚ b ++ R ∧ ∀ b', concat (<[i := b']> bs) ≡ₚ b' ++ R.
Proof.
  intros Hi. pose proof (lookup_lt_Some _ _ _ Hi) as Hlt.
  exists (concat (take i bs) ++ concat (drop (S i) bs)). split.
  - rewrite <-(take_drop_middle bs i b Hi) at 1. rewrite concat_app. simpl.
    by rewrite !app_assoc, (Permutation_app_comm (concat (take i bs)) b).
  - intros b'. rewrite insert_take_drop by done. rewrite concat_app. simpl.
    by rewrite !app_assoc, (Permutation_app_comm (concat (take i bs)) b').
Qed.

Lemma concat_replicate_nil {A} n : concat (replicate n (@nil A)) = [].
Proof. by induction n. Qed.

Lemma elem_of_concat {A} (bs : list (list A)) x :
  x ∈ concat bs ↔ ∃ i b, bs !! i = Some b ∧ x ∈ b.
Proof.
  rewrite list_elem_of_In, in_concat. setoid_rewrite <-list_elem_of_In. split.
  - intros (b & Hb & Hx). apply list_elem_of_lookup in Hb as [i Hi]. eauto.
  - intros (i & b & Hi & Hx). exists b. split; [|done]. by eapply list_elem_of_lookup_2.
Qed.

Section Spec.
Context {K V : Type} `{Countable K}.
Implicit Types (st : store K V) (d : dict K V) (t : dictht) (m : gmap K V) (ps : list ptr).

(** ** Tables *)
Definition slots t : list ptr := concat (default [] (table t)).

(** The entry [p] belongs to bucket [i]. *)
Definition placed (ty : dictType K V) st (mask : Z) (i : nat) (p : ptr) : Prop :=
  ∃ e, entries st !! p = Some e ∧ Z.land (hashFunction ty (key e)) mask = Z.of_nat i.

Definition ht_ok (ty : dictType K V) st t : Prop :=
  match table t with
  | None => size t = 0 ∧ sizemask t = 0 ∧ used t = 0
  | Some bs =>
      (∃ k, 2 ≤ k ≤ 31 ∧ size t = 2 ^ k) ∧ sizemask t = size t - 1 ∧ zlen bs = size t ∧
      used t = zlen (slots t) ∧
      ∀ i b p, bs !! i = Some b → p ∈ b → placed ty st (sizemask t) i p
  end.

Definition ptrs d : list ptr := slots (ht0 d) ++ slots (ht1 d).

(** ** Contents *)
Definition holds st ps m : Prop :=
  NoDup ps ∧
  (∀ p, p ∈ ps → ∃ k v, entries st !! p = Some (DictEntry k (Some v)) ∧ m !! k = Some v) ∧
  (∀ k v, m !! k = Some v → ∃ p, p ∈ ps ∧ entries st !! p = Some (DictEntry k (Some v))) ∧
  (∀ p q k v w, p ∈ ps → q ∈ ps → entries st !! p = Some (DictEntry k v) →
     entries st !! q = Some (DictEntry k w) → p = q).

Definition dict_ok st d m : Prop :=
  ht_ok (type d) st (ht0 d) ∧ ht_ok (type d) st (ht1 d) ∧ holds st (ptrs d) m ∧
  zlen (ptrs d) < 2 ^ 61 ∧
  (if dictIsRehashing d then
     0 ≤ rehashidx d ≤ size (ht0 d) ∧ table (ht0 d) ≠ None ∧ table (ht1 d) ≠ None ∧
     (∀ i b, Z.of_nat i < rehashidx d → default [] (table (ht0 d)) !! i = Some b → b = [])
   else ht1 d = _dictReset).

Global Instance holds_proper st : Proper ((≡ₚ) ==> (=) ==> iff) (holds st).
Proof.
  intros ps qs Hp m ? <-. unfold holds. by setoid_rewrite Hp.
Qed.

(** ** Masks *)
Lemma land_mask h k : 0 ≤ k → Z.land h (2 ^ k - 1) = h mod 2 ^ k.
Proof. intros. rewrite Z.sub_1_r, <-Z.ones_equiv. by apply Z.land_ones. Qed.

Lemma land_mask_32 h k : 0 ≤ k ≤ 32 → Z.land (uwrap 32 h) (2 ^ k - 1) = Z.land h (2 ^ k - 1).
Proof.
  intros Hk. rewrite !land_mask by lia. unfold uwrap.
  replace (2 ^ 32) with (2 ^ k * 2 ^ (32 - k)) by (rewrite <-Z.pow_add_r by lia; f_equal; lia).
  rewrite Z.rem_mul_r by (apply Z.pow_nonzero || apply Z.pow_pos_nonneg; lia).
  rewrite Z.mul_comm, Z.mod_add by (apply Z.pow_nonzero; lia). apply Zmod_mod.
Qed.

Lemma mask_range h k : 0 ≤ k → 0 ≤ Z.land h (2 ^ k - 1) < 2 ^ k.
Proof. intros. rewrite land_mask by done. apply Z.mod_pos_bound, Z.pow_pos_nonneg; lia. Qed.

Lemma pow_31 k : 2 ≤ k ≤ 31 → 4 ≤ 2 ^ k ≤ 2 ^ 31.
Proof.
  intros Hk. split; [change 4 with (2 ^ 2)|]; apply Z.pow_le_mono_r; lia.
Qed.

(** The bucket of a hash exists. *)
Lemma bucket_of ty st t h bs :
  ht_ok ty st t → table t = Some bs →
  let i := Z.land (uwrap 32 h) (sizemask t) in
  i = Z.land h (sizemask t) ∧ 0 ≤ i < size t ∧ ∃ b, bs !! Z.to_nat i = Some b ∧ tget t i = Some b.
Proof.
  intros Hok Ht. unfold ht_ok in Hok. rewrite Ht in Hok.
  destruct Hok as ((k & Hk & Hsz) & Hm & Hl & _). simpl. rewrite Hm, Hsz.
  rewrite land_mask_32 by lia. pose proof (mask_range h k ltac:(lia)) as Hr.
  split; [done|]. split; [done|]. unfold tget. rewrite Ht. simpl.
  rewrite (proj2 (Z.leb_le 0 _)) by lia.
  destruct (lookup_lt_is_Some_2 bs (Z.to_nat (Z.land h (2 ^ k - 1)))) as [b Hb].
  { unfold zlen in Hl. lia. }
  eauto.
Qed.

(** ** Chains *)
Definition has_key st (p : ptr) (k : K) : Prop := ∃ v, entries st !! p = Some (DictEntry k v).

Lemma compare_eq d `{!DictTypeOk (type d)} k k' :
  bool_decide (k = k') || dictCompareKeys d k k' = bool_decide (k = k').
Proof.
  unfold dictCompareKeys. destruct (keyCompare (type d)) as [f|] eqn:Ef.
  - destruct (f k k') eqn:E; [|by rewrite orb_false_r].
    apply (keyCompare_eq f k k' Ef) in E as ->. by rewrite bool_decide_eq_true_2.
  - by destruct (bool_decide (k = k')).
Qed.

Lemma chain_unlink_ok st d `{!DictTypeOk (type d)} k b :
  (∀ p, p ∈ b → is_Some (entries st !! p)) →
  ∃ r, chain_unlink st d k b = Some r ∧
  match r with
  | Some (p, b') => has_key st p k ∧ ∃ l1 l2, b = l1 ++ p :: l2 ∧ b' = l1 ++ l2
  | None => ∀ p, p ∈ b → ¬ has_key st p k
  end.
Proof.
  induction b as [|p b IH]; intros Hb; simpl.
  { eexists. split; [done|]. by intros p ?%not_elem_of_nil. }
  destruct (Hb p) as [[k' v] He]; [set_solver|]. rewrite He. cbn [mbind option_bind key].
  rewrite compare_eq by done. case_bool_decide as Hk.
  - subst k'. eexists. split; [done|]. split; [by exists v|]. by exists [], b.
  - destruct IH as (r & -> & Hr); [set_solver|]. cbn [mbind option_bind].
    eexists. split; [done|]. destruct r as [[q b']|].
    + destruct Hr as (Hq & l1 & l2 & -> & ->). split; [done|]. by exists (p :: l1), l2.
    + intros q [->|Hq]%elem_of_cons; [|by apply Hr].
      intros (w & Hw). rewrite He in Hw. by injection Hw as ->.
Qed.

Lemma chain_find_ok st d `{!DictTypeOk (type d)} k b :
  (∀ p, p ∈ b → is_Some (entries st !! p)) →
  ∃ r, chain_find st d k b = Some r ∧
  match r with
  | Some p => p ∈ b ∧ has_key st p k
  | None => ∀ p, p ∈ b → ¬ has_key st p k
  end.
Proof.
  induction b as [|p b IH]; intros Hb; simpl.
  { eexists. split; [done|]. by intros p ?%not_elem_of_nil. }
  destruct (Hb p) as [[k' v] He]; [set_solver|]. rewrite He. cbn [mbind option_bind key].
  rewrite compare_eq by done. case_bool_decide as Hk.
  - subst k'. eexists. split; [done|]. split; [set_solver|by exists v].
  - destruct IH as (r & -> & Hr); [set_solver|]. eexists. split; [done|]. destruct r as [q|].
    + destruct Hr. split; [set_solver|done].
    + intros q [->|Hq]%elem_of_cons; [|by apply Hr].
      intros (w & Hw). rewrite He in Hw. by injection Hw as ->.
Qed.

(** An entry with the key can only be in the bucket of its hash. *)
Lemma placed_bucket ty st t bs k p :
  ht_ok ty st t → table t = Some bs → p ∈ slots t → has_key st p k →
  ∃ b, bs !! Z.to_nat (Z.land (hashFunction ty k) (sizemask t)) = Some b ∧ p ∈ b.
Proof.
  intros Hok Ht Hp (v & He). unfold slots in Hp. rewrite Ht in Hp. simpl in Hp.
  apply elem_of_concat in Hp as (i & b & Hi & Hp).
  unfold ht_ok in Hok. rewrite Ht in Hok. destruct Hok as (_ & _ & _ & _ & Hpl).
  destruct (Hpl i b p Hi Hp) as (e & He' & Hh). rewrite He in He'. injection He' as <-.
  simpl in Hh. rewrite Hh, Nat2Z.id. eauto.
Qed.

Lemma slots_entry ty st t p : ht_ok ty st t → p ∈ slots t → is_Some (entries st !! p).
Proof.
  unfold slots, ht_ok. destruct (table t) as [bs|]; simpl; [|by intros _ ?%not_elem_of_nil].
  intros (_ & _ & _ & _ & Hpl) (i & b & Hi & Hp)%elem_of_concat.
  destruct (Hpl i b p Hi Hp) as (e & He & _). eauto.
Qed.

Lemma probe_ok st d `{!DictTypeOk (type d)} t bs k :
  ht_ok (type d) st t → table t = Some bs →
  ∃ r, probe st d t k (uwrap 32 (dictHashKey d k)) =
       Some (Z.land (dictHashKey d k) (sizemask t), r) ∧
  match r with
  | Some p => p ∈ slots t ∧ has_key st p k
  | None => ∀ p, p ∈ slots t → ¬ has_key st p k
  end.
Proof.
  intros Hok Ht. unfold probe.
  destruct (bucket_of (type d) st t (dictHashKey d k) bs Hok Ht) as (Hi & Hr & b & Hb & Hg).
  rewrite Hg. cbn [mbind option_bind].
  assert (∀ p, p ∈ b → p ∈ slots t) as Hin.
  { intros p Hp. unfold slots. rewrite Ht. apply elem_of_concat. eauto. }
  destruct (chain_find_ok st d k b) as (r & -> & Hc).
  { intros p Hp. eapply slots_entry; [done|by apply Hin]. }
  cbn [mbind option_bind]. exists r. rewrite Hi. split; [done|]. destruct r as [p|].
  - destruct Hc. auto.
  - intros p Hp Hk. destruct (placed_bucket _ _ _ _ _ _ Hok Ht Hp Hk) as (b' & Hb' & Hp').
    rewrite Hi in Hb. unfold dictHashKey in Hb. rewrite Hb' in Hb. injection Hb as ->. by apply (Hc p).
Qed.

(** ** Replacing a bucket *)
Lemma tset_ok ty st t bs i b b' :
  ht_ok ty st t → table t = Some bs → 0 ≤ i → bs !! Z.to_nat i = Some b →
  (∀ p, p ∈ b' → placed ty st (sizemask t) (Z.to_nat i) p) →
  ∃ R, slots t ≡ₚ b ++ R ∧
    tset t i b' = Some (Dictht (Some (<[Z.to_nat i := b']> bs)) (size t) (sizemask t) (used t)) ∧
    ∀ u, u = zlen (b' ++ R) → zlen (b' ++ R) < 2 ^ 64 →
      let t' := set_used (Dictht (Some (<[Z.to_nat i := b']> bs)) (size t) (sizemask t) (used t)) u in
      ht_ok ty st t' ∧ slots t' ≡ₚ b' ++ R.
Proof.
  intros Hok Ht Hi Hb Hpl. destruct (concat_split bs (Z.to_nat i) b Hb) as (R & HR & HR').
  exists R. unfold slots at 1. rewrite Ht. split; [done|]. split.
  - unfold tset. rewrite Ht. cbn [mbind option_bind].
    pose proof (lookup_lt_Some _ _ _ Hb). unfold zlen.
    rewrite (proj2 (Z.leb_le 0 i)), (proj2 (Z.ltb_lt i _)) by lia. done.
  - intros u -> Hlt. set (t' := set_used _ _). assert (slots t' ≡ₚ b' ++ R) as Hs by apply HR'. split; [|done].
    unfold ht_ok in *. rewrite Ht in Hok. destruct Hok as (Hk & Hm & Hl & Hu & Hp).
    simpl. split_and!; try done.
    + by rewrite zlen_insert.
    + rewrite uwrap_id by (unfold in_u; zlen_pos; lia). unfold zlen. by rewrite (Permutation_length Hs).
    + intros j c p Hj Hin. destruct (decide (j = Z.to_nat i)) as [->|Hne].
      * rewrite list_lookup_insert_eq in Hj by (by eapply lookup_lt_Some). injection Hj as <-. auto.
      * rewrite list_lookup_insert_ne in Hj by done. by eapply Hp.
Qed.

(** ** Rehashing *)
Lemma move_bucket_ok st de : ∀ d,
  ht_ok (type d) st (ht1 d) → table (ht1 d) ≠ None →
  (∀ p, p ∈ de → is_Some (entries st !! p)) →
  zlen (slots (ht1 d)) + zlen de < 2 ^ 61 → zlen de ≤ used (ht0 d) < 2 ^ 61 →
  ∃ t0 t1, move_bucket st d de = Some (set_ht1 (set_ht0 d t0) t1) ∧
    ht_ok (type d) st t1 ∧ table t1 ≠ None ∧ slots t1 ≡ₚ de ++ slots (ht1 d) ∧
    size t1 = size (ht1 d) ∧
    t0 = Dictht (table (ht0 d)) (size (ht0 d)) (sizemask (ht0 d)) (used (ht0 d) - zlen de).
Proof.
  induction de as [|p de IH]; intros d Hok Hne Hde Hl1 Hl0; simpl.
  { exists (ht0 d), (ht1 d). split_and!; try done; [by destruct d|].
    rewrite Z.sub_0_r. by destruct (ht0 d). }
  destruct (Hde p) as [e He]; [set_solver|]. rewrite He. cbn [mbind option_bind].
  destruct (table (ht1 d)) as [bs|] eqn:Ht; [|done].
  destruct (bucket_of (type d) st (ht1 d) (dictHashKey d (key e)) bs Hok Ht) as (Hi & Hr & b & Hb & Hg).
  assert (uwrap 32 (Z.land (dictHashKey d (key e)) (sizemask (ht1 d))) =
    Z.land (uwrap 32 (dictHashKey d (key e))) (sizemask (ht1 d))) as Hu.
  { rewrite Hi in *. apply uwrap_id. unfold ht_ok in Hok. rewrite Ht in Hok.
    destruct Hok as ((k & Hk & Hsz) & _). pose proof (pow_31 k Hk). unfold in_u. lia. }
  rewrite Hu, Hg. cbn [mbind option_bind].
  rewrite zlen_cons in *. zlen_pos.
  destruct (tset_ok (type d) st (ht1 d) bs _ b (p :: b) Hok Ht (proj1 Hr) Hb) as (R & HR & -> & Hset).
  { intros q [->|Hq]%elem_of_cons.
    - exists e. split; [done|]. unfold dictHashKey in *. rewrite <-Hi. lia.
    - unfold ht_ok in Hok. rewrite Ht in Hok. destruct Hok as (_ & _ & _ & _ & Hpl). by eapply Hpl. }
  cbn [mbind option_bind].
  assert (used (ht1 d) = zlen (slots (ht1 d))) as Hused.
  { unfold ht_ok in Hok. rewrite Ht in Hok. tauto. }
  assert (zlen (slots (ht1 d)) = zlen (b ++ R)) as HzR
    by (unfold zlen; by rewrite (Permutation_length HR)).
  set (t1 := set_used _ (used (Dictht _ _ _ _) + 1)).
  destruct (Hset (used (ht1 d) + 1)) as [Hok1 Hs1]; [rewrite Hused; zl|zl|].
  assert (slots t1 ≡ₚ p :: slots (ht1 d)) as Hs1' by (by rewrite HR).
  assert (zlen (slots t1) = 1 + zlen (slots (ht1 d))) as Hzs.
  { unfold zlen. rewrite (Permutation_length Hs1'). simpl. lia. }
  destruct (IH (set_ht1 (set_ht0 d (set_used (ht0 d) (used (ht0 d) - 1))) t1))
    as (t0' & t1' & -> & Hok' & Hne' & Hs' & Hsz' & Ht0'); simpl.
  - exact Hok1.
  - done.
  - intros q Hq. apply Hde. set_solver.
  - lia.
  - rewrite uwrap_id by (unfold in_u; lia). lia.
  - exists t0', t1'. split_and!; try done.
    + rewrite Hs'. simpl. rewrite Hs1'. by rewrite Permutation_middle.
    + rewrite Ht0'. simpl. rewrite uwrap_id by (unfold in_u; lia). f_equal. lia.
Qed.

Lemma skip_empty_ok t bs fuel : ∀ idx ev,
  table t = Some bs → 0 ≤ idx →
  (∃ j b, idx ≤ Z.of_nat j ∧ bs !! j = Some b ∧ b ≠ []) → (Z.to_nat (zlen bs - idx) < fuel)%nat →
  ∃ idx' r, skip_empty fuel t idx ev = Some (idx', r) ∧ idx ≤ idx' ≤ zlen bs ∧
    (∀ i b, idx ≤ Z.of_nat i < idx' → bs !! i = Some b → b = []) ∧
    match r with
    | Some _ => ∃ b, bs !! Z.to_nat idx' = Some b ∧ b ≠ []
    | None => idx < idx'
    end.
Proof.
  induction fuel as [|fuel IH]; intros idx ev Ht Hidx (j & b & Hj & Hb & Hbne) Hfuel; [lia|]. simpl.
  pose proof (lookup_lt_Some _ _ _ Hb) as Hlt.
  destruct (lookup_lt_is_Some_2 bs (Z.to_nat idx)) as [c Hc]; [lia|].
  unfold tget. rewrite Ht. cbn [mbind option_bind]. rewrite (proj2 (Z.leb_le 0 idx)), Hc by done.
  cbn [mbind option_bind]. unfold zlen in *. destruct c as [|p c].
  - assert (Z.of_nat j ≠ idx) as Hne.
    { intros <-. rewrite Nat2Z.id, Hb in Hc. by injection Hc. }
    assert (∀ i b, idx ≤ Z.of_nat i < idx + 1 → bs !! i = Some b → b = []) as H1.
    { intros i b' Hi Hb'. replace i with (Z.to_nat idx) in Hb' by lia. rewrite Hc in Hb'.
      by injection Hb'. }
    destruct (ev - 1 =? 0).
    + exists (idx + 1), None. split_and!; try done; lia.
    + destruct (IH (idx + 1) (ev - 1) Ht) as (idx' & r & Hs & Hr & He & Hm); [lia| |lia|].
      { exists j, b. split_and!; [lia|done..]. }
      exists idx', r. split_and!; try done; [lia..| |].
      * intros i b' Hi. destruct (decide (Z.of_nat i = idx)); [apply H1; lia|apply He; lia].
      * destruct r; [done|lia].
  - exists idx, (Some ev). split_and!; try done; [lia..|]. by exists (p :: c).
Qed.

(** A table with elements has a bucket that is not empty. *)
Lemma nonempty_bucket t bs :
  table t = Some bs → zlen (slots t) ≠ 0 → ∃ j b, bs !! j = Some b ∧ b ≠ [].
Proof.
  intros Ht Hne. unfold slots in Hne. rewrite Ht in Hne. simpl in Hne.
  destruct (concat bs) as [|p l] eqn:E; [done|].
  assert (p ∈ concat bs) as (i & b & Hi & Hp)%elem_of_concat by (rewrite E; set_solver).
  exists i, b. split; [done|]. by intros ->; apply not_elem_of_nil in Hp.
Qed.

Definition same_dict d d' : Prop := type d' = type d ∧ iterators d' = iterators d.

(** Taking a bucket out of a table whose counter was already lowered. *)
Lemma clear_bucket ty st t bs i b :
  ht_ok ty st t → table t = Some bs → 0 ≤ i → bs !! Z.to_nat i = Some b →
  let t0 := Dictht (table t) (size t) (sizemask t) (used t - zlen b) in
  let t' := Dictht (Some (<[Z.to_nat i := []]> bs)) (size t) (sizemask t) (used t - zlen b) in
  tset t0 i [] = Some t' ∧ ht_ok ty st t' ∧ slots t ≡ₚ b ++ slots t'.
Proof.
  intros Hok Ht Hi Hb t0 t'.
  destruct (tset_ok ty st t bs i b [] Hok Ht Hi Hb) as (R & HR & _ & _); [set_solver|].
  destruct (concat_split bs (Z.to_nat i) b Hb) as (R' & HR1 & HR2). specialize (HR2 []).
  assert (slots t ≡ₚ b ++ slots t') as Hs.
  { unfold slots. rewrite Ht. simpl. by rewrite HR1, HR2. }
  split_and!; [|..|done].
  - unfold tset, t0. simpl. rewrite Ht. cbn [mbind option_bind].
    pose proof (lookup_lt_Some _ _ _ Hb). unfold zlen.
    by rewrite (proj2 (Z.leb_le 0 i)), (proj2 (Z.ltb_lt i _)) by lia.
  - unfold ht_ok in *. rewrite Ht in Hok. destruct Hok as (Hk & Hm & Hl & Hu & Hp).
    simpl. split_and!; try done.
    + by rewrite zlen_insert.
    + rewrite Hu. assert (zlen (slots t) = zlen (b ++ slots t')) as ->
        by (unfold zlen; by rewrite (Permutation_length Hs)). zl.
    + intros j c p Hj Hin. destruct (decide (j = Z.to_nat i)) as [->|Hne].
      * rewrite list_lookup_insert_eq in Hj by (by eapply lookup_lt_Some). injection Hj as <-.
        by apply not_elem_of_nil in Hin.
      * rewrite list_lookup_insert_ne in Hj by done. by eapply Hp.
Qed.

Lemma rehash_loop_ok n st : ∀ d m ev,
  dict_ok st d m → dictIsRehashing d = true →
  ∃ d' r, rehash_loop n st d ev = Some (d', r) ∧ dict_ok st d' m ∧ dictIsRehashing d' = true ∧
    same_dict d d' ∧ size (ht0 d') = size (ht0 d) ∧ size (ht1 d') = size (ht1 d) ∧
    rehashidx d ≤ rehashidx d' ∧
    (n ≠ 0%nat → used (ht0 d) ≠ 0 → rehashidx d < rehashidx d').
Proof.
  induction n as [|n IH]; intros d m ev Hd Hre; cbn [rehash_loop].
  { exists d, true. split_and!; try done; lia. }
  pose proof Hd as (Hok0 & Hok1 & Hh & Hlen & Hstate). rewrite Hre in Hstate.
  destruct Hstate as (Hidx & Hn0 & Hn1 & Hempty).
  destruct (Z.eqb_spec (used (ht0 d)) 0) as [Hu|Hu].
  { exists d, true. split_and!; done || lia. }
  destruct (table (ht0 d)) as [bs|] eqn:Ht0; [|done]. simpl in Hempty.
  assert (zlen bs = size (ht0 d) ∧ used (ht0 d) = zlen (slots (ht0 d))) as [Hzb Hzu].
  { unfold ht_ok in Hok0. rewrite Ht0 in Hok0. tauto. }
  destruct (nonempty_bucket (ht0 d) bs Ht0 ltac:(lia)) as (j & bj & Hj & Hjne).
  assert (rehashidx d ≤ Z.of_nat j) as Hjge.
  { destruct (Z.lt_ge_cases (Z.of_nat j) (rehashidx d)); [|done]. by destruct Hjne; eapply Hempty. }
  pose proof (lookup_lt_Some _ _ _ Hj) as Hjlt. unfold zlen in Hzb.
  rewrite (proj2 (Z.ltb_lt (rehashidx d) (size (ht0 d)))) by lia. simpl negb. cbv iota.
  destruct (skip_empty_ok (ht0 d) bs (S (Z.to_nat (size (ht0 d)))) (rehashidx d) ev Ht0)
    as (idx & r & -> & Hir & Hemp & Hr); [lia|by exists j, bj|unfold zlen; lia|].
  cbn [mbind option_bind]. unfold zlen in Hir.
  assert (∀ i b, Z.of_nat i < idx → bs !! i = Some b → b = []) as Hempty'.
  { intros i b Hi Hb. destruct (Z.lt_ge_cases (Z.of_nat i) (rehashidx d)); [by eapply Hempty|].
    by eapply Hemp. }
  destruct r as [ev'|].
  2: { assert (dictIsRehashing (set_rehashidx d idx) = true) as Hre'.
       { unfold dictIsRehashing. simpl. by rewrite (proj2 (Z.eqb_neq idx (-1))) by lia. }
       exists (set_rehashidx d idx), false. split_and!; try done; try (simpl; lia).
       split_and!; try done. rewrite Hre'. simpl. rewrite Ht0. split_and!; done || lia. }
  destruct Hr as (b & Hb & Hbne). simpl.
  unfold tget at 1. rewrite Ht0. cbn [mbind option_bind].
  rewrite (proj2 (Z.leb_le 0 idx)), Hb by lia. cbn [mbind option_bind].
  destruct (clear_bucket (type d) st (ht0 d) bs idx b Hok0 Ht0 ltac:(lia) Hb) as (Htset & Hok0' & Hs0).
  assert (zlen (slots (ht0 d)) = zlen b + zlen (slots (Dictht (Some (<[Z.to_nat idx:=[]]> bs))
    (size (ht0 d)) (sizemask (ht0 d)) (used (ht0 d) - zlen b)))) as Hz0.
  { rewrite <-zlen_app. unfold zlen. by rewrite (Permutation_length Hs0). }
  unfold ptrs in Hlen. rewrite zlen_app in Hlen. zlen_pos.
  destruct (move_bucket_ok st b (set_rehashidx d idx)) as (t0 & t1 & -> & Hok1' & Hne1 & Hs1 & Hsz1 & Ht0e);
    simpl; try done; [|lia|lia|].
  { intros p Hp. eapply slots_entry; [exact Hok0|]. rewrite Hs0. set_solver. }
  cbn [mbind option_bind]. simpl. rewrite Ht0e. simpl. rewrite Ht0 in Htset |- *. rewrite Htset.
  cbn [mbind option_bind].
  set (t0' := Dictht (Some (<[Z.to_nat idx:=[]]> bs)) _ _ _) in *.
  set (d1 := set_rehashidx _ (idx + 1)).
  assert (dictIsRehashing d1 = true) as Hre1.
  { unfold dictIsRehashing, d1. simpl. by rewrite (proj2 (Z.eqb_neq (idx + 1) (-1))) by lia. }
  assert (ptrs d ≡ₚ ptrs d1) as Hperm.
  { unfold ptrs, d1. simpl. rewrite Hs0, Hs1. simpl. rewrite app_assoc.
    by rewrite (Permutation_app_comm b (slots t0')). }
  assert (dict_ok st d1 m) as Hd1.
  { split_and!; [exact Hok0'|exact Hok1'|by rewrite <-Hperm| |].
    - unfold zlen. rewrite <-(Permutation_length Hperm). unfold ptrs. rewrite length_app.
      unfold zlen in Hlen. lia.
    - pose proof (lookup_lt_Some _ _ _ Hb). rewrite Hre1. simpl. split_and!; try done; [lia|lia|].
      intros i c Hi Hc. destruct (decide (i = Z.to_nat idx)) as [->|Hne].
      + rewrite list_lookup_insert_eq in Hc by (by eapply lookup_lt_Some). by injection Hc.
      + rewrite list_lookup_insert_ne in Hc by done. apply (Hempty' i c); [lia|done]. }
  destruct (IH d1 m ev' Hd1 Hre1) as (d' & r & -> & Hd' & Hre' & Hsame & Hsz & Hsz' & Hmono & _).
  exists d', r. split_and!; try done.
  - rewrite Hsz'. exact Hsz1.
  - simpl in Hmono. lia.
  - intros _ _. simpl in Hmono. lia.
Qed.

Lemma rehash_loop_done n st d ev : used (ht0 d) = 0 → rehash_loop n st d ev = Some (d, true).
Proof. intros Hu. destruct n; cbn [rehash_loop]; [done|]. by rewrite Hu. Qed.

(** The end of a rehashing: the second table becomes the first. *)
Lemma rehash_finish st d m :
  dict_ok st d m → dictIsRehashing d = true → used (ht0 d) = 0 →
  let d' := set_rehashidx (set_ht1 (set_ht0 d (ht1 d)) _dictReset) (-1) in
  dict_ok st d' m ∧ dictIsRehashing d' = false.
Proof.
  intros (Hok0 & Hok1 & Hh & Hlen & Hstate) Hre Hu d'. rewrite Hre in Hstate.
  destruct Hstate as (_ & Hn0 & _). destruct (table (ht0 d)) as [bs|] eqn:Ht0; [|done].
  assert (slots (ht0 d) = []) as Hs0.
  { unfold ht_ok in Hok0. rewrite Ht0 in Hok0. apply zlen_0_nil. destruct Hok0 as (_ & _ & _ & <- & _). done. }
  assert (ptrs d = ptrs d') as Hp.
  { unfold ptrs, d'. simpl. rewrite Hs0. simpl. unfold slots at 3. simpl. by rewrite app_nil_r. }
  split; [|done]. split_and!; try done; by rewrite <-Hp.
Qed.

(** A call of [dictRehash] keeps the map; it returns 0 exactly when no rehashing
    is left, and otherwise gets further. *)
Lemma rehash_ok st d m n :
  dict_ok st d m → 0 ≤ n →
  ∃ d' r, dictRehash st d n = Some (d', r) ∧ dict_ok st d' m ∧ same_dict d d' ∧
    (r = 0 ∧ dictIsRehashing d' = false ∨
     r = 1 ∧ dictIsRehashing d' = true ∧ dictIsRehashing d = true ∧
     size (ht0 d') = size (ht0 d) ∧ (0 < n → rehashidx d < rehashidx d')).
Proof.
  intros Hd Hn. unfold dictRehash. destruct (dictIsRehashing d) eqn:Hre; simpl.
  2: { exists d, 0. split_and!; try done. by left. }
  destruct (decide (used (ht0 d) = 0)) as [Hu|Hu].
  { rewrite rehash_loop_done by done. cbn [mbind option_bind negb]. rewrite Hu. simpl.
    destruct (rehash_finish st d m Hd Hre Hu). eexists _, 0. split_and!; try done. by left. }
  destruct (rehash_loop_ok (Z.to_nat n) st d m (n * 10) Hd Hre)
    as (d' & r & -> & Hd' & Hre' & Hsame & Hsz0 & Hsz1 & Hmono & Hprog). cbn [mbind option_bind].
  assert (0 < n → rehashidx d < rehashidx d') as Hprog' by (intros; apply Hprog; [lia|done]).
  destruct r; simpl.
  - destruct (Z.eqb_spec (used (ht0 d')) 0) as [Hu'|Hu'].
    + destruct (rehash_finish st d' m Hd' Hre' Hu'). eexists _, 0. split_and!; try done. by left.
    + exists d', 1. split_and!; try done. right. by split_and!.
  - exists d', 1. split_and!; try done. right. by split_and!.
Qed.

Lemma rehash_if_ok st d m :
  dict_ok st d m → ∃ d', rehash_if st d = Some d' ∧ dict_ok st d' m ∧ same_dict d d' ∧
    (dictIsRehashing d = false → d' = d).
Proof.
  intros Hd. unfold rehash_if, _dictRehashStep. destruct (dictIsRehashing d) eqn:Hre.
  - destruct (iterators d =? 0); [|by exists d].
    destruct (rehash_ok st d m 1 Hd ltac:(lia)) as (d' & r & -> & Hd' & Hs & _). exists d'. done.
  - by exists d.
Qed.

(** ** The map *)
Lemma holds_key st ps m p k : holds st ps m → p ∈ ps → has_key st p k → is_Some (m !! k).
Proof.
  intros (_ & Hp & _) Hin (v & He). destruct (Hp p Hin) as (k' & v' & He' & Hm).
  rewrite He in He'. injection He' as -> ->. eauto.
Qed.

Lemma holds_no_key st ps m k : holds st ps m → (∀ p, p ∈ ps → ¬ has_key st p k) → m !! k = None.
Proof.
  intros (_ & _ & Hm & _) Hno. destruct (m !! k) as [v|] eqn:E; [|done].
  destruct (Hm k v E) as (p & Hp & He). exfalso. apply (Hno p Hp). by exists (Some v).
Qed.

Lemma holds_value st ps m p k v :
  holds st ps m → p ∈ ps → entries st !! p = Some (DictEntry k v) → m !! k = v.
Proof.
  intros (_ & Hp & _) Hin He. destruct (Hp p Hin) as (k' & v' & He' & Hm).
  rewrite He in He'. by injection He' as -> ->.
Qed.

Lemma holds_insert st ps m p k v :
  holds st ps m → entries st !! p = None → m !! k = None →
  holds (set_entry st p (DictEntry k (Some v))) (p :: ps) (<[k := v]> m).
Proof.
  intros (Hnd & Hp & Hm & Hinj) Hnew Hk.
  assert (p ∉ ps) as Hnin.
  { intros Hin. destruct (Hp p Hin) as (k' & v' & He & _). congruence. }
  assert (∀ q, q ∈ ps → q ≠ p) as Hqp by (intros q Hq ->; done).
  split_and!; simpl.
  - by constructor.
  - intros q [->|Hq]%elem_of_cons.
    + exists k, v. by rewrite !lookup_insert_eq.
    + destruct (Hp q Hq) as (k' & v' & He & Hm'). exists k', v'.
      rewrite lookup_insert_ne by (symmetry; auto). split; [done|].
      rewrite lookup_insert_ne by (intros ->; congruence). done.
  - intros k' v' Hlk. destruct (decide (k' = k)) as [->|Hne].
    + rewrite lookup_insert_eq in Hlk. injection Hlk as ->. exists p. rewrite lookup_insert_eq. set_solver.
    + rewrite lookup_insert_ne in Hlk by done. destruct (Hm k' v' Hlk) as (q & Hq & He).
      exists q. rewrite lookup_insert_ne by (symmetry; auto). set_solver.
  - assert (∀ q v', q ∈ ps → entries st !! q ≠ Some (DictEntry k v')) as Hnok.
    { intros q v' Hq He. destruct (Hp q Hq) as (k2 & v2 & He2 & Hm2). rewrite He in He2.
      injection He2 as -> ->. congruence. }
    intros q r k' v' w' [->|Hq]%elem_of_cons [->|Hr]%elem_of_cons; try done.
    + rewrite lookup_insert_eq, lookup_insert_ne by (symmetry; auto).
      intros [= <- <-] He. by apply Hnok in He.
    + rewrite lookup_insert_eq, lookup_insert_ne by (symmetry; auto).
      intros He [= <- <-]. by apply Hnok in He.
    + rewrite !lookup_insert_ne by (symmetry; auto). by apply Hinj.
Qed.

Lemma holds_update st ps m p k w v :
  holds st ps m → p ∈ ps → entries st !! p = Some (DictEntry k w) →
  holds (set_entry st p (DictEntry k (Some v))) ps (<[k := v]> m).
Proof.
  intros (Hnd & Hp & Hm & Hinj) Hin Hpk.
  assert (∀ q k' v', q ∈ ps → q ≠ p → entries st !! q = Some (DictEntry k' v') → k' ≠ k) as Hne.
  { intros q k' v' Hq Hqp He ->. by apply Hqp, (Hinj q p k v' w). }
  split_and!; simpl; [done|..].
  - intros q Hq. destruct (decide (q = p)) as [->|Hqp].
    + exists k, v. by rewrite !lookup_insert_eq.
    + destruct (Hp q Hq) as (k' & v' & He & Hm'). exists k', v'.
      rewrite lookup_insert_ne by done. split; [done|].
      rewrite lookup_insert_ne; [done|]. intros ->. by eapply Hne.
  - intros k' v' Hlk. destruct (decide (k' = k)) as [->|Hkne].
    + rewrite lookup_insert_eq in Hlk. injection Hlk as ->. exists p. by rewrite lookup_insert_eq.
    + rewrite lookup_insert_ne in Hlk by done. destruct (Hm k' v' Hlk) as (q & Hq & He).
      exists q. split; [done|]. rewrite lookup_insert_ne; [done|]. intros ->.
      rewrite Hpk in He. by injection He as ->.
  - intros q r k' v1 v2 Hq Hr. destruct (decide (q = p)) as [->|Hqp], (decide (r = p)) as [->|Hrp];
      try done; rewrite ?lookup_insert_eq, ?lookup_insert_ne by done.
    + intros [= <- <-] He. exfalso. by eapply (Hne r).
    + intros He [= <- <-]. exfalso. by eapply (Hne q).
    + by apply Hinj.
Qed.

Lemma holds_remove st st' ps ps' m p k w :
  holds st ps m → ps ≡ₚ p :: ps' → entries st !! p = Some (DictEntry k w) →
  (∀ q, q ≠ p → entries st' !! q = entries st !! q) → holds st' ps' (delete k m).
Proof.
  intros Hh Hperm Hpk Heq. rewrite Hperm in Hh. destruct Hh as (Hnd & Hp & Hm & Hinj).
  apply NoDup_cons in Hnd as [Hnin Hnd].
  assert (∀ q, q ∈ ps' → q ≠ p) as Hqp by (intros q Hq ->; done).
  split_and!; [done|..].
  - intros q Hq. destruct (Hp q) as (k' & v' & He & Hm'); [set_solver|]. exists k', v'.
    rewrite Heq by auto. split; [done|]. rewrite lookup_delete_ne; [done|].
    intros <-. apply (Hqp q Hq). apply (Hinj q p k (Some v') w); set_solver.
  - intros k' v' [Hne Hlk]%lookup_delete_Some.
    destruct (Hm k' v' Hlk) as (q & [->|Hq]%elem_of_cons & He).
    + rewrite Hpk in He. by injection He as ->.
    + exists q. by rewrite Heq by auto.
  - intros q r k' v1 v2 Hq Hr. rewrite !Heq by auto. apply Hinj; set_solver.
Qed.

Lemma ht_ok_ext ty st st' t :
  (∀ p e, p ∈ slots t → entries st !! p = Some e →
     ∃ e', entries st' !! p = Some e' ∧ key e' = key e) →
  ht_ok ty st t → ht_ok ty st' t.
Proof.
  intros Hext. unfold ht_ok. destruct (table t) as [bs|] eqn:Ht; [|done].
  intros (Hk & Hm & Hl & Hu & Hp). split_and!; try done. intros i b p Hi Hin.
  destruct (Hp i b p Hi Hin) as (e & He & Hh). destruct (Hext p e) as (e' & He' & Hke); [|done|].
  { unfold slots. rewrite Ht. apply elem_of_concat. eauto. }
  exists e'. split; [done|]. by rewrite Hke.
Qed.

Lemma ok_table0 st d m : dict_ok st d m → m ≠ ∅ → table (ht0 d) ≠ None.
Proof.
  intros (Hok0 & _ & (_ & _ & Hm & _) & _ & Hst) Hne. destruct (dictIsRehashing d); [tauto|].
  intros Ht. apply Hne, map_empty. intros k. destruct (m !! k) as [v|] eqn:E; [|done].
  destruct (Hm k v E) as (p & Hp & _). unfold ptrs, slots in Hp. rewrite Ht, Hst in Hp.
  by apply not_elem_of_nil in Hp.
Qed.

Lemma ok_used st d m :
  dict_ok st d m → used (ht0 d) = zlen (slots (ht0 d)) ∧ used (ht1 d) = zlen (slots (ht1 d)).
Proof.
  intros (Hok0 & Hok1 & _). unfold ht_ok in *.
  split; [destruct (table (ht0 d)) eqn:E|destruct (table (ht1 d)) eqn:E]; try tauto;
    unfold slots; rewrite E; tauto.
Qed.

Lemma ok_empty st d m : dict_ok st d m → zlen (ptrs d) = 0 → m = ∅.
Proof.
  intros (_ & _ & (_ & _ & Hm & _) & _) Hz%zlen_0_nil. apply map_empty. intros k.
  destruct (m !! k) as [v|] eqn:E; [|done]. destruct (Hm k v E) as (p & Hp & _).
  rewrite Hz in Hp. by apply not_elem_of_nil in Hp.
Qed.

Lemma ok_nonempty st d m : dict_ok st d m → zlen (ptrs d) ≠ 0 → m ≠ ∅.
Proof.
  intros (_ & _ & (_ & Hp & _) & _) Hz ->. destruct (ptrs d) as [|p ps]; [done|].
  destruct (Hp p) as (k & v & _ & Hm); [set_solver|]. by rewrite lookup_empty in Hm.
Qed.

(** ** Finding *)
Lemma find_ok st d `{!DictTypeOk (type d)} m k :
  dict_ok st d m →
  ∃ d' r, dictFind st d k = Some (d', r) ∧ dict_ok st d' m ∧ same_dict d d' ∧
  match r with
  | Some p => p ∈ ptrs d' ∧ entries st !! p = Some (DictEntry k (m !! k)) ∧ is_Some (m !! k)
  | None => m !! k = None
  end.
Proof.
  intros Hd. unfold dictFind. destruct (ok_used st d m Hd) as [Hu0 Hu1].
  assert (used (ht0 d) + used (ht1 d) = zlen (ptrs d)) as Hsum by (unfold ptrs; zl).
  pose proof Hd as (_ & _ & _ & Hlen & _). zlen_pos.
  rewrite Hsum, uwrap_id by (unfold in_u; lia). destruct (Z.eqb_spec (zlen (ptrs d)) 0) as [Hz|Hz].
  { exists d, None. split_and!; try done. rewrite (ok_empty st d m Hd Hz). apply lookup_empty. }
  destruct (rehash_if_ok st d m Hd) as (d' & -> & Hd' & [Hty Hit] & _). cbn [mbind option_bind].
  assert (DictTypeOk (type d')) as Hty' by (by rewrite Hty).
  pose proof (ok_nonempty st d m Hd Hz) as Hne.
  pose proof Hd' as (Hok0 & Hok1 & Hh & _ & Hst).
  assert (∀ t p, (t = ht0 d' ∨ t = ht1 d') → p ∈ slots t → has_key st p k →
    p ∈ ptrs d' ∧ entries st !! p = Some (DictEntry k (m !! k)) ∧ is_Some (m !! k)) as Hfound.
  { intros t p Ht Hp Hk. assert (p ∈ ptrs d') as Hin.
    { unfold ptrs. apply elem_of_app. destruct Ht as [-> | ->]; auto. }
    pose proof (holds_key _ _ _ _ _ Hh Hin Hk). destruct Hk as (v & He).
    rewrite (holds_value _ _ _ _ _ _ Hh Hin He) in *. by split_and!. }
  destruct (table (ht0 d')) as [bs|] eqn:Ht0; [|by destruct (ok_table0 st d' m Hd' Hne)].
  destruct (probe_ok st d' (ht0 d') bs k Hok0 Ht0) as (r & -> & Hr). cbn [mbind option_bind].
  destruct r as [p|].
  { exists d', (Some p). split_and!; try done; apply (Hfound (ht0 d') p); tauto. }
  destruct (dictIsRehashing d') eqn:Hre; cbn [negb].
  - destruct Hst as (_ & _ & Hn1 & _). destruct (table (ht1 d')) as [bs1|] eqn:Ht1; [|done].
    destruct (probe_ok st d' (ht1 d') bs1 k Hok1 Ht1) as (r & -> & Hr1). cbn [mbind option_bind].
    exists d', r. split_and!; try done. destruct r as [p|].
    + apply (Hfound (ht1 d') p); tauto.
    + apply (holds_no_key st (ptrs d')); [done|]. intros p [Hp|Hp]%elem_of_app; auto.
  - exists d', None. split_and!; try done. apply (holds_no_key st (ptrs d')); [done|].
    intros p [Hp|Hp]%elem_of_app; [auto|]. rewrite Hst in Hp. by apply not_elem_of_nil in Hp.
Qed.

(** ** Expanding *)
Lemma next_power_ok fuel : ∀ j sz,
  2 ≤ j ≤ 31 → sz ≤ 2 ^ 31 → 31 - j < Z.of_nat fuel →
  ∃ k, next_power fuel (2 ^ j) sz = Some (2 ^ k) ∧ 2 ≤ k ≤ 31 ∧ sz ≤ 2 ^ k.
Proof.
  induction fuel as [|fuel IH]; intros j sz Hj Hsz Hf; [lia|]. simpl.
  destruct (Z.leb_spec sz (2 ^ j)); [by exists j|].
  assert (j ≠ 31) by (intros ->; lia). assert (2 ^ j * 2 = 2 ^ (j + 1)) as Hp by (rewrite Z.pow_add_r by lia; lia).
  pose proof (pow_31 (j + 1) ltac:(lia)). rewrite Hp, uwrap_id by (unfold in_u; lia).
  apply IH; lia.
Qed.

Lemma nextPower_ok sz :
  sz ≤ 2 ^ 31 → ∃ k, _dictNextPower sz = Some (2 ^ k) ∧ 2 ≤ k ≤ 31 ∧ sz ≤ 2 ^ k.
Proof.
  intros Hsz. unfold _dictNextPower. rewrite (proj2 (Z.leb_gt LONG_MAX sz)) by (unfold LONG_MAX; lia).
  change DICT_HT_INITIAL_SIZE with (2 ^ 2). apply next_power_ok; lia.
Qed.

Lemma new_table_ok ty st k :
  2 ≤ k ≤ 31 →
  let t := Dictht (Some (replicate (Z.to_nat (2 ^ k)) [])) (2 ^ k) (2 ^ k - 1) 0 in
  ht_ok ty st t ∧ slots t = [].
Proof.
  intros Hk t. assert (slots t = []) as Hs by apply concat_replicate_nil. split; [|done].
  pose proof (pow_31 k Hk). unfold ht_ok. simpl. split_and!; eauto.
  - rewrite zlen_replicate. lia.
  - by rewrite Hs.
  - intros i b p [-> _]%lookup_replicate Hp. by apply not_elem_of_nil in Hp.
Qed.

Lemma expand_ok st d m sz :
  dict_ok st d m → 0 ≤ sz ≤ 2 ^ 31 →
  ∃ d' r, dictExpand d sz = Some (d', r) ∧ dict_ok st d' m ∧ same_dict d d' ∧
    (r = DICT_ERR ∧ d' = d ∧
       (dictIsRehashing d = true ∨ sz < used (ht0 d) ∨ sz ≤ size (ht0 d)) ∨
     r = DICT_OK ∧ table (ht0 d') ≠ None).
Proof.
  intros Hd Hsz. unfold dictExpand. destruct (nextPower_ok sz ltac:(lia)) as (k & -> & Hk & Hge).
  cbn [mbind option_bind]. pose proof Hd as (Hok0 & Hok1 & Hh & Hlen & Hst).
  destruct (dictIsRehashing d) eqn:Hre; simpl.
  { exists d, DICT_ERR. split_and!; try done. left. tauto. }
  destruct (Z.ltb_spec sz (used (ht0 d))).
  { exists d, DICT_ERR. split_and!; try done. left. tauto. }
  destruct (Z.eqb_spec (2 ^ k) (size (ht0 d))) as [Hks|Hks].
  { exists d, DICT_ERR. split_and!; try done. left. rewrite <-Hks. tauto. }
  destruct (new_table_ok (type d) st k Hk) as [Hokn Hsn].
  set (n := Dictht _ _ _ _) in *.
  assert (slots (ht1 d) = []) as Hs1 by (by rewrite Hst).
  destruct (table (ht0 d)) as [bs|] eqn:Ht0.
  - eexists _, DICT_OK. split_and!; [done| |done|right; split; [done|simpl; congruence]].
    split_and!; try done; unfold ptrs in *; simpl; rewrite ?Hsn, ?Hs1 in *; try done.
    pose proof Hok0 as Hok0'. unfold ht_ok in Hok0'. rewrite Ht0 in Hok0'.
    destruct Hok0' as ((j & Hj & Hsj) & _). pose proof (pow_31 j Hj).
    split_and!; [lia|lia|congruence|done|]. intros. lia.
  - assert (slots (ht0 d) = []) as Hs0 by (unfold slots; by rewrite Ht0).
    eexists _, DICT_OK. split_and!; [done| |done|by right].
    split_and!; try done; unfold ptrs in *; simpl; rewrite ?Hsn, ?Hs0 in *; try done.
    change (dictIsRehashing (set_ht0 d n)) with (dictIsRehashing d). by rewrite Hre.
Qed.

Lemma holds_size st ps : ∀ m, holds st ps m → zlen ps = Z.of_nat (base.size m).
Proof.
  induction ps as [|p ps IH]; intros m Hh.
  - destruct Hh as (_ & _ & Hm & _). replace m with (∅ : gmap K V); [by rewrite map_size_empty|].
    symmetry. apply map_empty. intros k. destruct (m !! k) as [v|] eqn:E; [|done].
    destruct (Hm k v E) as (p & Hp & _). by apply not_elem_of_nil in Hp.
  - destruct (proj1 (proj2 Hh) p) as (k & v & He & Hm); [set_solver|].
    pose proof (holds_remove st st (p :: ps) ps m p k _ Hh ltac:(done) He ltac:(done)) as Hrem.
    apply IH in Hrem. rewrite map_size_delete_Some in Hrem by eauto. rewrite zlen_cons.
    enough (base.size m ≠ 0%nat) by lia. intros ->%map_size_empty_iff. by rewrite lookup_empty in Hm.
Qed.

Lemma ok_size st d m : dict_ok st d m → zlen (ptrs d) = Z.of_nat (base.size m).
Proof. intros (_ & _ & Hh & _). by eapply holds_size. Qed.

(** ** Adding *)
Lemma expandIfNeeded_ok st d m :
  dict_ok st d m → Z.of_nat (base.size m) ≤ 2 ^ 30 →
  ∃ d', _dictExpandIfNeeded st d = Some (d', DICT_OK) ∧ dict_ok st d' m ∧ same_dict d d' ∧
    table (ht0 d') ≠ None.
Proof.
  intros Hd Hlen. rewrite <-(ok_size st d m Hd) in Hlen. unfold _dictExpandIfNeeded.
  destruct (ok_used st d m Hd) as [Hu0 Hu1]. pose proof Hd as (Hok0 & _ & _ & _ & Hst).
  unfold ptrs in Hlen. rewrite zlen_app in Hlen. zlen_pos.
  destruct (dictIsRehashing d) eqn:Hre; [exists d; split_and!; done || apply Hst|].
  unfold ht_ok in Hok0. destruct (table (ht0 d)) as [bs|] eqn:Ht0.
  - destruct Hok0 as ((j & Hj & Hsj) & _). pose proof (pow_31 j Hj).
    rewrite (proj2 (Z.eqb_neq (size (ht0 d)) 0)) by lia.
    destruct (Z.leb_spec (size (ht0 d)) (used (ht0 d))); simpl; [|exists d; by rewrite Ht0].
    destruct (_ || _); [|exists d; by rewrite Ht0].
    rewrite uwrap_id by (unfold in_u; lia).
    destruct (expand_ok st d m (used (ht0 d) * 2) Hd ltac:(lia)) as (d' & r & -> & Hd' & Hs & Hr).
    destruct Hr as [(_ & _ & Hc)|[-> ?]]; [|by exists d']. rewrite Hre in Hc. exfalso. lia.
  - destruct Hok0 as (Hs0 & _ & Hused). rewrite Hs0. simpl.
    destruct (expand_ok st d m DICT_HT_INITIAL_SIZE Hd) as (d' & r & -> & Hd' & Hs & Hr);
      [unfold DICT_HT_INITIAL_SIZE; lia|].
    unfold DICT_HT_INITIAL_SIZE in Hr.
    destruct Hr as [(_ & _ & Hc)|[-> ?]]; [|by exists d']. rewrite Hre in Hc. exfalso. lia.
Qed.

Lemma keyIndex_ok st d `{!DictTypeOk (type d)} m k :
  dict_ok st d m → Z.of_nat (base.size m) ≤ 2 ^ 30 →
  ∃ d' i ex, _dictKeyIndex st d k (dictHashKey d k) = Some (d', i, ex) ∧
    dict_ok st d' m ∧ same_dict d d' ∧ table (ht0 d') ≠ None ∧
  match ex with
  | Some p => i = -1 ∧ p ∈ ptrs d' ∧ has_key st p k
  | None => i = Z.land (dictHashKey d k) (sizemask (if dictIsRehashing d' then ht1 d' else ht0 d')) ∧
            ∀ p, p ∈ ptrs d' → ¬ has_key st p k
  end.
Proof.
  intros Hd Hlen. unfold _dictKeyIndex.
  destruct (expandIfNeeded_ok st d m Hd Hlen) as (d' & -> & Hd' & [Hty Hit] & Hn0).
  cbn [mbind option_bind]. change (DICT_OK =? DICT_ERR) with false. cbv iota.
  assert (DictTypeOk (type d')) as Hty' by (by rewrite Hty).
  replace (dictHashKey d k) with (dictHashKey d' k) by (unfold dictHashKey; by rewrite Hty).
  pose proof Hd' as (Hok0 & Hok1 & _ & _ & Hst).
  assert (∀ t bs, ht_ok (type d') st t → table t = Some bs →
    swrap 32 (Z.land (dictHashKey d' k) (sizemask t)) = Z.land (dictHashKey d' k) (sizemask t)) as Hint.
  { intros t bs Hok Ht. unfold ht_ok in Hok. rewrite Ht in Hok.
    destruct Hok as ((j & Hj & Hsj) & -> & _). rewrite Hsj. pose proof (pow_31 j Hj).
    pose proof (mask_range (dictHashKey d' k) j ltac:(lia)). apply swrap_id; unfold in_s; lia. }
  destruct (table (ht0 d')) as [bs|] eqn:Ht0; [|done].
  destruct (probe_ok st d' (ht0 d') bs k Hok0 Ht0) as (r & -> & Hr). cbn [mbind option_bind].
  destruct r as [p|].
  { exists d', (-1), (Some p). rewrite Ht0. destruct Hr. split_and!; try done.
    unfold ptrs. set_solver. }
  destruct (dictIsRehashing d') eqn:Hre; cbn [negb].
  - destruct Hst as (_ & _ & Hn1 & _). destruct (table (ht1 d')) as [bs1|] eqn:Ht1; [|done].
    destruct (probe_ok st d' (ht1 d') bs1 k Hok1 Ht1) as (r & -> & Hr1). cbn [mbind option_bind].
    destruct r as [p|].
    + exists d', (-1), (Some p). rewrite Ht0. destruct Hr1. split_and!; try done.
      unfold ptrs. set_solver.
    + eexists d', _, None. rewrite Ht0, Hre. split_and!; try done; [by eapply Hint|].
      intros p [Hp|Hp]%elem_of_app; auto.
  - eexists d', _, None. rewrite Ht0, Hre. split_and!; try done; [by eapply Hint|].
    intros p [Hp|Hp]%elem_of_app; [auto|]. rewrite Hst in Hp. by apply not_elem_of_nil in Hp.
Qed.

Lemma fresh_entry st : entries st !! fresh (dom (entries st)) = None.
Proof. apply not_elem_of_dom, is_fresh. Qed.

(** Linking a new entry at the head of its bucket. *)
Lemma ht_insert_ok ty st t bs p e :
  ht_ok ty st t → table t = Some bs → entries st !! p = None → zlen (slots t) < 2 ^ 61 →
  let i := Z.land (hashFunction ty (key e)) (sizemask t) in
  ∃ b t', tget t i = Some b ∧ tset t i (p :: b) = Some t' ∧ table t' ≠ None ∧
    ht_ok ty (set_entry st p e) (set_used t' (used t' + 1)) ∧
    slots (set_used t' (used t' + 1)) ≡ₚ p :: slots t.
Proof.
  intros Hok Ht Hp Hlen i.
  assert (ht_ok ty (set_entry st p e) t) as Hok'.
  { revert Hok. apply ht_ok_ext. intros q e' _ He. exists e'. simpl.
    rewrite lookup_insert_ne by congruence. done. }
  destruct (bucket_of ty st t (hashFunction ty (key e)) bs Hok Ht) as (Hi & Hr & b & Hb & Hg).
  rewrite Hi in *. fold i in Hr, Hb, Hg.
  destruct (tset_ok ty (set_entry st p e) t bs i b (p :: b) Hok' Ht ltac:(lia) Hb) as (R & HR & Hset & Hnew).
  { intros q [->|Hq]%elem_of_cons.
    - exists e. simpl. rewrite lookup_insert_eq. split; [done|]. fold i. lia.
    - unfold ht_ok in Hok'. rewrite Ht in Hok'. destruct Hok' as (_ & _ & _ & _ & Hpl). by eapply Hpl. }
  assert (used t = zlen (b ++ R)) as Hu.
  { unfold ht_ok in Hok. rewrite Ht in Hok. destruct Hok as (_ & _ & _ & -> & _).
    unfold zlen. by rewrite (Permutation_length HR). }
  assert (zlen (slots t) = zlen (b ++ R)) as Hz by (unfold zlen; by rewrite (Permutation_length HR)).
  eexists b, _. split; [done|]. split; [exact Hset|]. split; [done|].
  destruct (Hnew (used t + 1)) as [Hokn Hsn]; [simpl; zl|simpl; zl|].
  split; [exact Hokn|]. by rewrite Hsn, HR.
Qed.

Lemma addRaw_ok st d `{!DictTypeOk (type d)} m k :
  dict_ok st d m → Z.of_nat (base.size m) ≤ 2 ^ 30 →
  ∃ st' d' r ex, dictAddRaw st d k = Some (st', d', r, ex) ∧ same_dict d d' ∧
  match r with
  | Some p => ex = None ∧ m !! k = None ∧ entries st !! p = None ∧
      st' = set_entry st p (DictEntry k None) ∧
      ∀ v, dict_ok (set_entry st p (DictEntry k (Some v))) d' (<[k := v]> m)
  | None => st' = st ∧ dict_ok st d' m ∧ is_Some (m !! k) ∧
      ∃ p, ex = Some p ∧ p ∈ ptrs d' ∧ entries st !! p = Some (DictEntry k (m !! k))
  end.
Proof.
  intros Hd Hsize. unfold dictAddRaw.
  destruct (rehash_if_ok st d m Hd) as (d1 & -> & Hd1 & [Hty1 Hit1] & _). cbn [mbind option_bind].
  assert (DictTypeOk (type d1)) as Hok1 by (by rewrite Hty1).
  destruct (keyIndex_ok st d1 m k Hd1 Hsize) as (d2 & i & ex & -> & Hd2 & [Hty2 Hit2] & Hn0 & Hr).
  cbn [mbind option_bind]. pose proof Hd2 as (Hht0 & Hht1 & Hh & Hlen & Hst).
  destruct ex as [p|].
  { destruct Hr as (-> & Hp & Hk). simpl. pose proof (holds_key _ _ _ _ _ Hh Hp Hk).
    destruct Hk as (v & He). rewrite (holds_value _ _ _ _ _ _ Hh Hp He) in *.
    eexists st, d2, None, (Some p). split; [done|]. split; [split; congruence|].
    split_and!; eauto. }
  destruct Hr as (-> & Hno). pose proof (holds_no_key _ _ _ _ Hh Hno) as Hmk.
  set (t := if dictIsRehashing d2 then ht1 d2 else ht0 d2).
  set (p := fresh _). pose proof (fresh_entry st : entries st !! p = None) as Hp.
  assert (ht_ok (type d2) st t ∧ table t ≠ None ∧ zlen (slots t) < 2 ^ 61) as (Hht & Htn & Hlt).
  { unfold ptrs in Hlen. rewrite zlen_app in Hlen. zlen_pos.
    unfold t. destruct (dictIsRehashing d2); split_and!; try done; [apply Hst|lia..]. }
  destruct (table t) as [bs|] eqn:Ht; [|done].
  replace (dictHashKey d1 k) with (hashFunction (type d2) k) by (unfold dictHashKey; congruence).
  destruct (bucket_of (type d2) st t (hashFunction (type d2) k) bs Hht Ht) as (Hi & Hr & _).
  rewrite (proj2 (Z.eqb_neq _ (-1))) by lia.
  pose proof (λ v, ht_insert_ok (type d2) st t bs p (DictEntry k v) Hht Ht Hp Hlt) as Hins.
  destruct (Hins None) as (b & t' & Hg & Hset & Htn' & _). simpl in Hg, Hset.
  rewrite Hg. cbn [mbind option_bind]. rewrite Hset. cbn [mbind option_bind].
  eexists _, _, (Some p), None. split; [done|].
  set (d3 := if dictIsRehashing d2 then _ else _).
  assert (type d3 = type d2 ∧ iterators d3 = iterators d2 ∧ rehashidx d3 = rehashidx d2) as (Hty3 & Hit3 & Hri)
    by (unfold d3; by destruct (dictIsRehashing d2)).
  split; [split; congruence|]. split_and!; try done.
  { do 2 f_equal. destruct (keyDup _) as [f|] eqn:Ek; [|done].
    rewrite Hty3, Hty2, Hty1 in Ek. by apply (keyDup_id f k) in Ek. }
  intros v. destruct (Hins (Some v)) as (b' & t'' & Hg' & Hset' & _ & Hokt & Hst').
  simpl in Hg', Hset'. rewrite Hg in Hg'. injection Hg' as <-. rewrite Hset in Hset'. injection Hset' as <-.
  set (st' := set_entry _ _ _) in *. set (tn := set_used t' _) in *.
  assert (∀ t0, ht_ok (type d2) st t0 → ht_ok (type d2) st' t0) as Hext.
  { intros t0. apply ht_ok_ext. intros q e' _ He. exists e'. simpl.
    rewrite lookup_insert_ne by congruence. done. }
  assert (ptrs d3 ≡ₚ p :: ptrs d2) as Hperm.
  { unfold ptrs, d3, t in *. destruct (dictIsRehashing d2); simpl; rewrite Hst';
      [by rewrite <-Permutation_middle|done]. }
  assert (dictIsRehashing d3 = dictIsRehashing d2) as Hre by (unfold dictIsRehashing; by rewrite Hri).
  pose proof (holds_size _ _ _ Hh) as Hsz2.
  split_and!.
  - rewrite Hty3. unfold d3. destruct (dictIsRehashing d2); [by apply Hext|done].
  - rewrite Hty3. unfold d3. destruct (dictIsRehashing d2); [done|by apply Hext].
  - rewrite Hperm. by apply holds_insert.
  - unfold zlen in *. rewrite (Permutation_length Hperm). simpl. lia.
  - rewrite Hre, Hri. unfold d3. destruct (dictIsRehashing d2); [|done].
    destruct Hst as (? & ? & ? & ?). split_and!; simpl; done || lia.
Qed.

(** The value an entry gets from [dictSetVal]. *)
Definition dup_val (ty : dictType K V) (v : V) : V :=
  match valDup ty with Some f => f v | None => v end.

Lemma add_ok st d `{!DictTypeOk (type d)} m k v :
  dict_ok st d m → Z.of_nat (base.size m) ≤ 2 ^ 30 →
  ∃ st' d', same_dict d d' ∧
    dictAdd st d k v = Some (st', d', if decide (is_Some (m !! k)) then DICT_ERR else DICT_OK) ∧
    dict_ok st' d' (if decide (is_Some (m !! k)) then m else <[k := dup_val (type d) v]> m).
Proof.
  intros Hd Hsize. unfold dictAdd.
  destruct (addRaw_ok st d m k Hd Hsize) as (st' & d' & r & ex & -> & Hs & Hr). cbn [mbind option_bind].
  destruct r as [p|].
  - destruct Hr as (_ & Hmk & Hp & -> & Hok).
    unfold dictSetVal. simpl. rewrite lookup_insert_eq. cbn [mbind option_bind key].
    rewrite !decide_False by (rewrite Hmk; by intros [? ?]).
    eexists _, d'. split; [done|]. split; [done|].
    replace (set_entry (set_entry _ _ _) _ _) with (set_entry st p (DictEntry k (Some (dup_val (type d') v)))).
    + destruct Hs as [<- _]. apply Hok.
    + unfold set_entry. simpl. by rewrite insert_insert_eq.
  - destruct Hr as (-> & Hok & Hmk & _). rewrite !decide_True by done. eauto.
Qed.

(** The invariant looks at the entries only. *)
Lemma dict_ok_entries st st' d m : entries st = entries st' → dict_ok st d m → dict_ok st' d m.
Proof.
  intros He (Hok0 & Hok1 & Hh & Hlen & Hst). split_and!; try done.
  - revert Hok0. apply ht_ok_ext. intros p e _. rewrite He. eauto.
  - revert Hok1. apply ht_ok_ext. intros p e _. rewrite He. eauto.
  - unfold holds in *. by rewrite <-He.
Qed.

Lemma dict_ok_update st d m p k w v :
  dict_ok st d m → p ∈ ptrs d → entries st !! p = Some (DictEntry k w) →
  dict_ok (set_entry st p (DictEntry k (Some v))) d (<[k := v]> m).
Proof.
  intros (Hok0 & Hok1 & Hh & Hlen & Hst) Hp He.
  assert (∀ t, ht_ok (type d) st t → ht_ok (type d) (set_entry st p (DictEntry k (Some v))) t) as Hext.
  { intros t. apply ht_ok_ext. intros q e _ Hq. simpl. destruct (decide (p = q)) as [<-|Hne].
    - rewrite lookup_insert_eq. rewrite He in Hq. injection Hq as <-. eauto.
    - rewrite lookup_insert_ne by done. eauto. }
  split_and!; try done; [by apply Hext..|]. by eapply holds_update.
Qed.

Lemma entries_freeVal d st e : entries (dictFreeVal d st e) = entries st.
Proof. unfold dictFreeVal. by destruct (valDestructor _). Qed.
Lemma entries_freeKey d st e : entries (dictFreeKey d st e) = entries st.
Proof. unfold dictFreeKey. by destruct (keyDestructor _). Qed.

(** The values given to the destructor. *)
Definition val_freed (ty : dictType K V) (v : option V) : list V :=
  if valDestructor ty then option_list v else [].
Definition key_freed (ty : dictType K V) (k : K) : list K :=
  if keyDestructor ty then [k] else [].

Lemma freed_freeVal d st e : freed_vals (dictFreeVal d st e) = freed_vals st ++ val_freed (type d) (val e).
Proof. unfold dictFreeVal, val_freed. destruct (valDestructor _); [done|]. by rewrite app_nil_r. Qed.

Lemma replace_ok st d `{!DictTypeOk (type d)} m k v :
  dict_ok st d m → Z.of_nat (base.size m) ≤ 2 ^ 30 →
  ∃ st' d', same_dict d d' ∧
    dictReplace st d k v = Some (st', d', if decide (is_Some (m !! k)) then 0 else 1) ∧
    dict_ok st' d' (<[k := dup_val (type d) v]> m) ∧
    freed_vals st' = freed_vals st ++ val_freed (type d) (m !! k).
Proof.
  intros Hd Hsize. unfold dictReplace.
  destruct (addRaw_ok st d m k Hd Hsize) as (st' & d' & r & ex & -> & Hs & Hr). cbn [mbind option_bind].
  destruct r as [p|].
  - destruct Hr as (_ & Hmk & Hp & -> & Hok).
    unfold dictSetVal. simpl. rewrite lookup_insert_eq. cbn [mbind option_bind key].
    rewrite decide_False by (rewrite Hmk; by intros [? ?]).
    eexists _, d'. split; [done|]. split; [done|]. rewrite Hmk. simpl.
    split; [|unfold val_freed; destruct (valDestructor _); by rewrite app_nil_r].
    replace (set_entry (set_entry _ _ _) _ _) with (set_entry st p (DictEntry k (Some (dup_val (type d') v)))).
    + destruct Hs as [<- _]. apply Hok.
    + unfold set_entry. simpl. by rewrite insert_insert_eq.
  - destruct Hr as (-> & Hok & Hmk & p & -> & Hp & He). rewrite decide_True by done.
    cbn [mbind option_bind]. rewrite He. cbn [mbind option_bind]. unfold dictSetVal. rewrite He.
    cbn [mbind option_bind key]. eexists _, d'. split; [done|]. split; [done|].
    destruct Hs as [<- _]. split; [|by rewrite freed_freeVal].
    eapply dict_ok_entries; [symmetry; apply entries_freeVal|]. by apply (dict_ok_update st d' m p k _ _ Hok Hp He).
Qed.

(** ** Removing *)
Lemma free_entry_ok d st p e :
  entries st !! p = Some e →
  free_entry d st p = Some (Store (delete p (entries st)) (freed_keys st ++ key_freed (type d) (key e))
    (freed_vals st ++ val_freed (type d) (val e)) (dict_can_resize st)).
Proof.
  intros He. unfold free_entry. rewrite He. cbn [mbind option_bind].
  unfold dictFreeVal, dictFreeKey, zfree_entry, key_freed, val_freed.
  destruct (keyDestructor _), (valDestructor _); simpl; by rewrite ?app_nil_r.
Qed.

Definition unlinked_store (nofree : bool) (ty : dictType K V) st (p : ptr) (e : dictEntry K V) : store K V :=
  if nofree then st
  else Store (delete p (entries st)) (freed_keys st ++ key_freed ty (key e))
         (freed_vals st ++ val_freed ty (val e)) (dict_can_resize st).

Lemma unlinked_store_ne nofree ty st p e q :
  q ≠ p → entries (unlinked_store nofree ty st p e) !! q = entries st !! q.
Proof. intros. destruct nofree; simpl; [done|]. by rewrite lookup_delete_ne. Qed.

Lemma delete_in_ok st d `{!DictTypeOk (type d)} t bs k nofree :
  ht_ok (type d) st t → table t = Some bs → zlen (slots t) < 2 ^ 61 →
  ∃ r, delete_in st d t k (uwrap 32 (dictHashKey d k)) nofree = Some r ∧
  match r with
  | None => ∀ p, p ∈ slots t → ¬ has_key st p k
  | Some (st', t', p) => ∃ v,
      entries st !! p = Some (DictEntry k v) ∧
      st' = unlinked_store nofree (type d) st p (DictEntry k v) ∧
      ht_ok (type d) st t' ∧ slots t ≡ₚ p :: slots t' ∧ size t' = size t ∧
      ∃ i b', table t' = Some (<[i := b']> bs) ∧ bs !! i ≠ Some []
  end.
Proof.
  intros Hok Ht Hlen. unfold delete_in.
  destruct (bucket_of (type d) st t (dictHashKey d k) bs Hok Ht) as (Hi & Hr & b & Hb & Hg).
  rewrite Hg. cbn [mbind option_bind]. rewrite Hi in Hr, Hb |- *. set (i := Z.land (dictHashKey d k) _) in *.
  assert (∀ p, p ∈ b → p ∈ slots t) as Hin.
  { intros p Hp. unfold slots. rewrite Ht. apply elem_of_concat. eauto. }
  destruct (chain_unlink_ok st d k b) as (r & -> & Hc).
  { intros p Hp. eapply slots_entry; [done|by apply Hin]. }
  cbn [mbind option_bind]. destruct r as [[p b']|].
  2: { eexists. split; [done|]. simpl. intros p Hp Hk.
       destruct (placed_bucket _ _ _ _ _ _ Hok Ht Hp Hk) as (b' & Hb' & Hp').
       unfold i, dictHashKey in Hb. rewrite Hb' in Hb. injection Hb as ->. by apply (Hc p). }
  destruct Hc as ((v & He) & l1 & l2 & -> & ->).
  pose proof Hok as Hok'. unfold ht_ok in Hok'. rewrite Ht in Hok'. destruct Hok' as (_ & _ & _ & Hu & Hpl).
  destruct (tset_ok (type d) st t bs i _ (l1 ++ l2) Hok Ht ltac:(lia) Hb) as (R & HR & -> & Hnew).
  { intros q Hq. eapply Hpl; [done|]. set_solver. }
  assert (zlen (slots t) = zlen ((l1 ++ p :: l2) ++ R)) as Hz
    by (unfold zlen; by rewrite (Permutation_length HR)).
  cbn [mbind option_bind].
  destruct (Hnew (used t - 1)) as [Hokn Hsn]; [zl|zl|].
  assert ((if nofree then Some st else free_entry d st p) =
          Some (unlinked_store nofree (type d) st p (DictEntry k v))) as ->.
  { destruct nofree; [done|]. by rewrite (free_entry_ok d st p _ He). }
  cbn [mbind option_bind]. eexists. split; [done|]. simpl. exists v. split_and!; try done.
  - rewrite HR. rewrite Hsn. by rewrite <-Permutation_middle.
  - exists (Z.to_nat i), (l1 ++ l2). split; [done|]. rewrite Hb. by destruct l1.
Qed.

(** Taking an entry out of the lists of pointers. *)
Lemma dict_ok_remove st d d' m k v p nofree :
  dict_ok st d m → entries st !! p = Some (DictEntry k v) →
  type d' = type d → rehashidx d' = rehashidx d → ptrs d ≡ₚ p :: ptrs d' →
  ht_ok (type d) st (ht0 d') → ht_ok (type d) st (ht1 d') →
  (dictIsRehashing d = true → size (ht0 d') = size (ht0 d) ∧ table (ht0 d') ≠ None ∧ table (ht1 d') ≠ None ∧
     ∀ i b, default [] (table (ht0 d')) !! i = Some b → b ≠ [] →
       ∃ b', default [] (table (ht0 d)) !! i = Some b' ∧ b' ≠ []) →
  (dictIsRehashing d = false → ht1 d' = ht1 d) →
  dict_ok (unlinked_store nofree (type d) st p (DictEntry k v)) d' (delete k m).
Proof.
  intros (Hok0 & Hok1 & Hh & Hlen & Hst) He Hty Hri Hperm Hn0 Hn1 Hreh Hnre.
  assert (p ∉ ptrs d') as Hnin.
  { destruct Hh as (Hnd & _). rewrite Hperm in Hnd. by apply NoDup_cons in Hnd as [? _]. }
  assert (∀ t, (∀ q, q ∈ slots t → q ∈ ptrs d') → ht_ok (type d) st t →
    ht_ok (type d) (unlinked_store nofree (type d) st p (DictEntry k v)) t) as Hext.
  { intros t Hin. apply ht_ok_ext. intros q e Hq Heq. exists e.
    rewrite unlinked_store_ne by (intros ->; by apply Hnin, Hin). done. }
  assert (dictIsRehashing d' = dictIsRehashing d) as Hre by (unfold dictIsRehashing; by rewrite Hri).
  split_and!.
  - rewrite Hty. apply Hext; [|done]. unfold ptrs. set_solver.
  - rewrite Hty. apply Hext; [|done]. unfold ptrs. set_solver.
  - eapply holds_remove; [done..|]. apply unlinked_store_ne.
  - unfold zlen in *. rewrite (Permutation_length Hperm) in Hlen. simpl in Hlen. lia.
  - rewrite Hre, Hri. destruct (dictIsRehashing d); [|by rewrite Hnre].
    destruct (Hreh eq_refl) as (Hsz & ? & ? & Hem). destruct Hst as (? & ? & ? & Hemp).
    rewrite Hsz. split_and!; try done; try lia. intros i b Hi Hb.
    destruct b as [|q b]; [done|]. destruct (Hem i (q :: b) Hb) as (b' & Hb' & Hne); [done|].
    destruct Hne. by eapply Hemp.
Qed.

Lemma genericDelete_ok st d `{!DictTypeOk (type d)} m k nofree :
  dict_ok st d m →
  ∃ st' d' r, dictGenericDelete st d k nofree = Some (st', d', r) ∧ same_dict d d' ∧
  match r with
  | None => st' = st ∧ m !! k = None ∧ dict_ok st d' m
  | Some p => ∃ v, m !! k = Some v ∧ entries st !! p = Some (DictEntry k (Some v)) ∧
      st' = unlinked_store nofree (type d) st p (DictEntry k (Some v)) ∧ p ∉ ptrs d' ∧
      dict_ok st' d' (delete k m)
  end.
Proof.
  intros Hd. unfold dictGenericDelete. destruct (ok_used st d m Hd) as [Hu0 Hu1].
  zlen_pos. destruct ((used (ht0 d) =? 0) && (used (ht1 d) =? 0)) eqn:Hz.
  { apply andb_true_iff in Hz as [Hz0%Z.eqb_eq Hz1%Z.eqb_eq]. eexists st, d, None. split_and!; try done.
    rewrite (ok_empty st d m Hd); [apply lookup_empty|]. unfold ptrs. zl. }
  assert (zlen (ptrs d) ≠ 0) as Hne.
  { unfold ptrs. rewrite zlen_app. apply andb_false_iff in Hz as [Hz%Z.eqb_neq|Hz%Z.eqb_neq]; lia. }
  destruct (rehash_if_ok st d m Hd) as (d1 & -> & Hd1 & [Hty Hit] & _). cbn [mbind option_bind].
  assert (DictTypeOk (type d1)) as Hty1 by (by rewrite Hty).
  pose proof (ok_table0 st d1 m Hd1 (ok_nonempty st d m Hd Hne)) as Hn0.
  pose proof Hd1 as (Hok0 & Hok1 & Hh & Hlen & Hst).
  unfold ptrs in Hlen. rewrite zlen_app in Hlen. zlen_pos.
  destruct (table (ht0 d1)) as [bs|] eqn:Ht0; [|done].
  destruct (delete_in_ok st d1 (ht0 d1) bs k nofree Hok0 Ht0 ltac:(lia)) as (r & -> & Hr).
  cbn [mbind option_bind]. destruct r as [[[st' t'] p]|].
  { destruct Hr as (v & He & -> & Hok' & Hperm & Hsz & i & b' & Ht' & Hbi).
    assert (ptrs d1 ≡ₚ p :: ptrs (set_ht0 d1 t')) as Hp by (unfold ptrs; simpl; by rewrite Hperm).
    assert (p ∈ ptrs d1) as Hin by (rewrite Hp; set_solver).
    pose proof (holds_value _ _ _ _ _ _ Hh Hin He) as Hv. pose proof (holds_key _ _ _ _ _ Hh Hin ltac:(by exists v)) as [w Hw].
    rewrite Hw in Hv. subst v. eexists _, _, (Some p). split; [done|]. split; [done|].
    exists w. rewrite Hty. split_and!; try done.
    - destruct Hh as (Hnd & _). rewrite Hp in Hnd. by apply NoDup_cons in Hnd as [? _].
    - rewrite <-Hty. apply (dict_ok_remove st d1); try done. simpl. intros Hre. rewrite Hre in Hst.
      rewrite Ht'. split_and!; [done..|apply Hst|]. intros j c. simpl.
      destruct (decide (i = j)) as [<-|Hij].
      + intros Hc _. pose proof (lookup_lt_Some _ _ _ Hc) as Hlt. rewrite length_insert in Hlt.
        rewrite Ht0. simpl. destruct (lookup_lt_is_Some_2 bs i Hlt) as [c' Hc']. exists c'.
        split; [done|]. intros ->. done.
      + rewrite list_lookup_insert_ne by done. rewrite Ht0. simpl. eauto. }
  destruct (dictIsRehashing d1) eqn:Hre; cbn [negb].
  2: { eexists st, d1, None. split_and!; try done. apply (holds_no_key st (ptrs d1)); [done|].
       intros p [Hp|Hp]%elem_of_app; [auto|]. rewrite Hst in Hp. by apply not_elem_of_nil in Hp. }
  destruct Hst as (Hidx & _ & Hn1 & Hemp). destruct (table (ht1 d1)) as [bs1|] eqn:Ht1; [|done].
  destruct (delete_in_ok st d1 (ht1 d1) bs1 k nofree Hok1 Ht1 ltac:(lia)) as (r & -> & Hr1).
  cbn [mbind option_bind]. destruct r as [[[st' t'] p]|].
  - destruct Hr1 as (v & He & -> & Hok' & Hperm & Hsz & i & b' & Ht' & Hbi).
    assert (ptrs d1 ≡ₚ p :: ptrs (set_ht1 d1 t')) as Hp.
    { unfold ptrs. simpl. rewrite Hperm. by rewrite <-Permutation_middle. }
    assert (p ∈ ptrs d1) as Hin by (rewrite Hp; set_solver).
    pose proof (holds_value _ _ _ _ _ _ Hh Hin He) as Hv. pose proof (holds_key _ _ _ _ _ Hh Hin ltac:(by exists v)) as [w Hw].
    rewrite Hw in Hv. subst v. eexists _, _, (Some p). split; [done|]. split; [done|].
    exists w. rewrite Hty. split_and!; try done.
    + destruct Hh as (Hnd & _). rewrite Hp in Hnd. by apply NoDup_cons in Hnd as [? _].
    + rewrite <-Hty. apply (dict_ok_remove st d1); try done; [|congruence]. simpl. intros _.
      rewrite Ht0, Ht'. split_and!; eauto.
  - eexists st, d1, None. split_and!; try done. apply (holds_no_key st (ptrs d1)); [done|].
    intros p [Hp|Hp]%elem_of_app; auto.
Qed.
End Spec.
