(* ===== verification/DictRefine.v ===== *)
(** * Sessions of dict.c refine a finite map

    Sequences of operations on a dictionary behave as on a [gmap], whatever
    rehashing goes on in between; rehashing ends; emptying gives every key and
    value to its destructor once. *)

From S2P Require Import Prelude.
From S2P Require Import Dict.
From S2P Require Import DictSpec.
Import Dict.

Section Refine.
Context {K V : Type} `{Countable K}.
Implicit Types (st : store K V) (d : dict K V) (t : dictht) (m : gmap K V) (ps : list ptr).

Lemma create_ok st (ty : dictType K V) : dict_ok st (dictCreate ty) ∅.
Proof.
  assert (holds st (ptrs (dictCreate ty)) ∅); [|done].
  split_and!; [constructor|by intros p ?%not_elem_of_nil| |by intros p q k v w ?%not_elem_of_nil].
  intros k v. by rewrite lookup_empty.
Qed.

Lemma resize_ok st d m :
  dict_ok st d m → Z.of_nat (base.size m) ≤ 2 ^ 30 →
  ∃ d' r, dictResize st d = Some (d', r) ∧ dict_ok st d' m ∧ same_dict d d'.
Proof.
  intros Hd Hs. unfold dictResize. destruct (_ || _); [by exists d, DICT_ERR|].
  destruct (ok_used st d m Hd) as [Hu0 _]. pose proof (ok_size st d m Hd) as Hsz.
  unfold ptrs in Hsz. rewrite zlen_app in Hsz. zlen_pos.
  rewrite (swrap_id 32 (used (ht0 d))) by (unfold in_s; lia). unfold DICT_HT_INITIAL_SIZE.
  set (x := if used (ht0 d) <? 4 then 4 else used (ht0 d)).
  assert (0 ≤ x ≤ 2 ^ 31) by (unfold x; destruct (Z.ltb_spec (used (ht0 d)) 4); lia).
  rewrite uwrap_id by (unfold in_u; lia).
  destruct (expand_ok st d m x Hd ltac:(lia)) as (d' & r & -> & Hd' & Hsame & _). eauto.
Qed.

(** ** Sessions *)
Inductive op :=
  | OAdd (k : K) (v : V) | OReplace (k : K) (v : V) | ODelete (k : K) | OFetch (k : K)
  | OResize | ORehash (n : nat) | OEnable | ODisable | OEmpty.

(** The answer to the caller; of the maintenance operations only that they end. *)
Inductive answer := ARet (r : Z) | AVal (v : option V) | AUnit.

Definition run_op (o : op) (s : store K V * dict K V) : option (store K V * dict K V * answer) :=
  let '(st, d) := s in
  match o with
  | OAdd k v => '(st, d, r) ← dictAdd st d k v; Some (st, d, ARet r)
  | OReplace k v => '(st, d, r) ← dictReplace st d k v; Some (st, d, ARet r)
  | ODelete k => '(st, d, r) ← dictDelete st d k; Some (st, d, ARet r)
  | OFetch k => '(d, v) ← dictFetchValue st d k; Some (st, d, AVal v)
  | OResize => '(d, _) ← dictResize st d; Some (st, d, AUnit)
  | ORehash n => '(d, _) ← dictRehash st d (Z.of_nat n); Some (st, d, AUnit)
  | OEnable => Some (dictEnableResize st, d, AUnit)
  | ODisable => Some (dictDisableResize st, d, AUnit)
  | OEmpty => '(st, d) ← dictEmpty st d; Some (st, d, AUnit)
  end.

Definition spec_op (ty : dictType K V) (o : op) (m : gmap K V) : gmap K V * answer :=
  match o with
  | OAdd k v =>
      if decide (is_Some (m !! k)) then (m, ARet DICT_ERR)
      else (<[k := dup_val ty v]> m, ARet DICT_OK)
  | OReplace k v => (<[k := dup_val ty v]> m, ARet (if decide (is_Some (m !! k)) then 0 else 1))
  | ODelete k => (delete k m, ARet (if decide (is_Some (m !! k)) then DICT_OK else DICT_ERR))
  | OFetch k => (m, AVal (m !! k))
  | OResize | ORehash _ | OEnable | ODisable => (m, AUnit)
  | OEmpty => (∅, AUnit)
  end.

Fixpoint run_ops (os : list op) (s : store K V * dict K V) : option (store K V * dict K V * list answer) :=
  match os with
  | [] => Some (s, [])
  | o :: os => '(s, a) ← run_op o s; '(s, l) ← run_ops os s; Some (s, a :: l)
  end.

Fixpoint spec_ops (ty : dictType K V) (os : list op) (m : gmap K V) : gmap K V * list answer :=
  match os with
  | [] => (m, [])
  | o :: os => let '(m, a) := spec_op ty o m in let '(m, l) := spec_ops ty os m in (m, a :: l)
  end.

(** ** Emptying *)
(** The entries [ps] have the keys and values [kvs]. *)
Definition listed (E : gmap ptr (dictEntry K V)) ps (kvs : list (K * V)) : Prop :=
  Forall2 (λ p kv, E !! p = Some (DictEntry kv.1 (Some kv.2))) ps kvs.

Lemma listed_delete E p ps kvs : p ∉ ps → listed E ps kvs → listed (delete p E) ps kvs.
Proof.
  intros Hnin. induction 1 as [|q kv ps kvs He _ IH]; constructor.
  - rewrite lookup_delete_ne; [done|]. set_solver.
  - apply IH. set_solver.
Qed.

Lemma holds_list st ps : ∀ m, holds st ps m →
  ∃ kvs, kvs ≡ₚ map_to_list m ∧
    listed (entries st) ps kvs.
Proof.
  induction ps as [|p ps IH]; intros m Hh.
  - exists []. split; [|constructor]. pose proof (holds_size _ _ _ Hh) as Hz. change (zlen []) with 0 in Hz.
    assert (m = ∅) as -> by (apply map_size_empty_iff; lia). by rewrite map_to_list_empty.
  - destruct (proj1 (proj2 Hh) p) as (k & v & He & Hm); [set_solver|].
    pose proof (holds_remove st st (p :: ps) ps m p k _ Hh ltac:(done) He ltac:(done)) as Hrem.
    destruct (IH _ Hrem) as (kvs & Hp & Hall). exists ((k, v) :: kvs). split; [|by constructor].
    rewrite Hp, <-map_to_list_insert by apply lookup_delete_eq. by rewrite insert_delete_id.
Qed.

(** The store after [ps] are freed, first the head. *)
Definition freed_all (ty : dictType K V) st ps (kvs : list (K * V)) : store K V :=
  Store (foldl (λ E p, delete p E) (entries st) ps)
    (freed_keys st ++ (if keyDestructor ty then kvs.*1 else []))
    (freed_vals st ++ (if valDestructor ty then kvs.*2 else [])) (dict_can_resize st).

Lemma freed_all_step ty st p ps kv kvs :
  freed_all ty (Store (delete p (entries st)) (freed_keys st ++ key_freed ty kv.1)
    (freed_vals st ++ val_freed ty (Some kv.2)) (dict_can_resize st)) ps kvs =
  freed_all ty st (p :: ps) (kv :: kvs).
Proof.
  unfold freed_all, key_freed, val_freed. simpl.
  destruct (keyDestructor ty), (valDestructor ty); by rewrite <-?app_assoc, ?app_nil_r.
Qed.

Lemma clear_chain_ok d b : ∀ st u kvs,
  NoDup b → listed (entries st) b kvs →
  zlen b ≤ u < 2 ^ 64 →
  clear_chain d st u b = Some (freed_all (type d) st b kvs, u - zlen b).
Proof.
  induction b as [|p b IH]; intros st u kvs Hnd Hall Hu.
  - apply Forall2_nil_inv_l in Hall as ->. simpl. unfold freed_all. simpl.
    change (zlen []) with 0. do 2 f_equal; [|lia]. destruct st. simpl.
    by destruct (keyDestructor _), (valDestructor _); rewrite !app_nil_r.
  - apply Forall2_cons_inv_l in Hall as (kv & kvs' & He & Hall & ->).
    apply NoDup_cons in Hnd as [Hnin Hnd]. cbn [clear_chain].
    rewrite (free_entry_ok d st p _ He). cbn [mbind option_bind key val].
    rewrite zlen_cons in *. zlen_pos. rewrite uwrap_id by (unfold in_u; lia).
    rewrite (IH _ (u - 1) kvs'); [|done| |lia].
    + rewrite freed_all_step. do 2 f_equal. lia.
    + by apply listed_delete.
Qed.

Lemma listed_delete_all ps qs kvs : ∀ E : gmap ptr (dictEntry K V),
  NoDup (qs ++ ps) → listed E ps kvs → listed (foldl (λ E p, delete p E) E qs) ps kvs.
Proof.
  induction qs as [|q qs IH]; intros E Hnd Hl; [done|]. simpl in *. apply NoDup_cons in Hnd as [Hq Hnd].
  apply IH; [done|]. apply listed_delete; [set_solver|done].
Qed.

Lemma freed_all_app ty st ps qs kvs kws :
  freed_all ty (freed_all ty st ps kvs) qs kws = freed_all ty st (ps ++ qs) (kvs ++ kws).
Proof.
  unfold freed_all. simpl. rewrite foldl_app.
  destruct (keyDestructor ty), (valDestructor ty); by rewrite ?fmap_app, <-?app_assoc, ?app_nil_r.
Qed.

Lemma clear_buckets_ok d bs : ∀ st u kvs,
  NoDup (concat bs) → listed (entries st) (concat bs) kvs → u = zlen (concat bs) → u < 2 ^ 64 →
  clear_buckets d st u bs = Some (freed_all (type d) st (concat bs) kvs).
Proof.
  assert (∀ st, st = freed_all (type d) st [] []) as Hnil.
  { intros st. unfold freed_all. destruct st. simpl.
    by destruct (keyDestructor _), (valDestructor _); rewrite !app_nil_r. }
  induction bs as [|b bs IH]; intros st u kvs Hnd Hl Hu Hlt; cbn [clear_buckets concat] in *.
  { apply Forall2_nil_inv_l in Hl as ->. by rewrite <-Hnil. }
  zlen_pos. destruct (Z.ltb_spec 0 u).
  - apply Forall2_app_inv_l in Hl as (kv1 & kv2 & Hl1 & Hl2 & ->).
    pose proof Hnd as (Hnd1 & _ & Hnd2)%NoDup_app. rewrite zlen_app in Hu. zlen_pos.
    rewrite (clear_chain_ok d b st u kv1) by (done || lia). cbn [mbind option_bind].
    rewrite (IH _ _ kv2); [by rewrite freed_all_app|done| |lia|lia]. simpl.
    by apply listed_delete_all.
  - assert (b ++ concat bs = []) as Hb by (apply zlen_0_nil; lia). rewrite Hb in *.
    apply Forall2_nil_inv_l in Hl as ->. by rewrite <-Hnil.
Qed.

Lemma dict_empty_ok st d m :
  dict_ok st d m →
  ∃ st' kvs, dictEmpty st d = Some (st', Dict (type d) _dictReset _dictReset (-1) 0) ∧
    kvs ≡ₚ map_to_list m ∧ st' = freed_all (type d) st (ptrs d) kvs.
Proof.
  intros Hd. destruct (ok_used st d m Hd) as [Hu0 Hu1]. pose proof Hd as (_ & _ & Hh & Hlen & _).
  destruct (holds_list st (ptrs d) m Hh) as (kvs & Hperm & Hl). destruct Hh as (Hnd & _).
  unfold ptrs in Hl, Hnd, Hlen |- *. rewrite zlen_app in Hlen. zlen_pos.
  apply Forall2_app_inv_l in Hl as (kv1 & kv2 & Hl1 & Hl2 & ->).
  pose proof Hnd as (Hnd1 & _ & Hnd2)%NoDup_app. unfold slots in *.
  unfold dictEmpty, _dictClear. rewrite (clear_buckets_ok d _ st _ kv1) by (done || lia).
  cbn [mbind option_bind].
  rewrite (clear_buckets_ok d _ _ _ kv2); [|done|by apply listed_delete_all|done|lia].
  cbn [mbind option_bind]. eexists _, _. split; [done|]. split; [done|]. by rewrite freed_all_app.
Qed.

(** ** The claims *)
Lemma run_op_ok o st d `{!DictTypeOk (type d)} m :
  dict_ok st d m → Z.of_nat (base.size m) ≤ 2 ^ 30 →
  ∃ st' d', run_op o (st, d) = Some (st', d', (spec_op (type d) o m).2) ∧
    dict_ok st' d' (spec_op (type d) o m).1 ∧ type d' = type d.
Proof.
  intros Hd Hs. destruct o as [k v|k v|k|k| |n| | |]; simpl.
  - destruct (add_ok st d m k v Hd Hs) as (st' & d' & [? _] & -> & Hd'). cbn [mbind option_bind].
    destruct (decide _); eauto.
  - destruct (replace_ok st d m k v Hd Hs) as (st' & d' & [? _] & -> & Hd' & _). eauto.
  - unfold dictDelete. destruct (genericDelete_ok st d m k false Hd) as (st' & d' & r & -> & [? _] & Hr).
    cbn [mbind option_bind]. exists st', d'. destruct r as [p|].
    + destruct Hr as (v & Hm & _ & _ & _ & Hd'). rewrite decide_True by eauto. eauto.
    + destruct Hr as (-> & Hm & Hd'). rewrite decide_False by (rewrite Hm; by intros [? ?]).
      rewrite delete_id by done. eauto.
  - unfold dictFetchValue. destruct (find_ok st d m k Hd) as (d' & r & -> & Hd' & [? _] & Hr).
    cbn [mbind option_bind]. exists st, d'. destruct r as [p|].
    + destruct Hr as (_ & -> & _). eauto.
    + rewrite Hr. eauto.
  - destruct (resize_ok st d m Hd Hs) as (d' & r & -> & Hd' & [? _]). eauto.
  - destruct (rehash_ok st d m (Z.of_nat n) Hd ltac:(lia)) as (d' & r & -> & Hd' & [? _] & _). eauto.
  - eexists _, d. split; [done|]. split; [|done]. by eapply dict_ok_entries; [|done].
  - eexists _, d. split; [done|]. split; [|done]. by eapply dict_ok_entries; [|done].
  - destruct (dict_empty_ok st d m Hd) as (st' & kvs & -> & _). cbn [mbind option_bind].
    eexists st', _. split_and!; try done. apply create_ok.
Qed.

Lemma spec_op_size ty o m : (base.size (spec_op ty o m).1 ≤ S (base.size m))%nat.
Proof.
  destruct o as [k v|k v|k|k| |n| | |]; simpl; try lia.
  - destruct (decide _); simpl; [lia|]. rewrite map_size_insert. destruct (m !! k); simpl; lia.
  - rewrite map_size_insert. destruct (m !! k); simpl; lia.
  - rewrite map_size_delete. destruct (m !! k); simpl; lia.
  - rewrite map_size_empty. lia.
Qed.

Lemma run_ops_ok (ty : dictType K V) `{!DictTypeOk ty} os : ∀ st d m,
  type d = ty → dict_ok st d m → Z.of_nat (base.size m) + zlen os ≤ 2 ^ 30 →
  ∃ st' d', run_ops os (st, d) = Some (st', d', (spec_ops ty os m).2) ∧
    dict_ok st' d' (spec_ops ty os m).1 ∧ type d' = ty.
Proof.
  induction os as [|o os IH]; intros st d m Hty Hd Hs; [by exists st, d|].
  rewrite zlen_cons in Hs. zlen_pos. cbn [run_ops].
  assert (DictTypeOk (type d)) by (by rewrite Hty).
  destruct (run_op_ok o st d m Hd ltac:(lia)) as (st' & d' & -> & Hd' & Hty'). cbn [mbind option_bind].
  pose proof (spec_op_size (type d) o m). rewrite Hty in *. cbn [spec_ops].
  destruct (spec_op ty o m) as [m' a]. simpl in *.
  destruct (IH st' d' m' Hty' Hd' ltac:(lia)) as (st2 & d2 & -> & Hd2 & Hty2). cbn [mbind option_bind].
  destruct (spec_ops ty os m') as [m2 l]. eauto.
Qed.

(** C8: any sequence of operations on a fresh dictionary runs without a failed
    assertion or a wild access, and answers what the same operations on a finite
    map answer. *)
Theorem dict_session_refines (ty : dictType K V) `{!DictTypeOk ty} (os : list op) st :
  zlen os ≤ 2 ^ 30 →
  ∃ st' d', run_ops os (st, dictCreate ty) = Some (st', d', (spec_ops ty os ∅).2) ∧
    dict_ok st' d' (spec_ops ty os ∅).1.
Proof.
  intros Hs. destruct (run_ops_ok ty os st (dictCreate ty) ∅) as (st' & d' & Hrun & Hok & _);
    [done|apply create_ok|rewrite map_size_empty; lia|eauto].
Qed.

(** Every round of the inner loop visits a bucket. *)
Lemma skip_empty_progress t fuel : ∀ idx ev idx' r,
  0 < ev → skip_empty fuel t idx ev = Some (idx', r) →
  match r with None => idx' = idx + ev | Some ev' => 0 < ev' ∧ idx' + ev' = idx + ev ∧ idx ≤ idx' end.
Proof.
  induction fuel as [|fuel IH]; intros idx ev idx' r Hev; [done|]. cbn [skip_empty].
  destruct (tget t idx) as [[|p b]|]; cbn [mbind option_bind]; [|intros [= <- <-]; lia|done].
  destruct (Z.eqb_spec (ev - 1) 0); [intros [= <- <-]; lia|]. intros Hs.
  apply IH in Hs; [|lia]. destruct r; lia.
Qed.

Lemma move_bucket_idx st de : ∀ d d', move_bucket st d de = Some d' → rehashidx d' = rehashidx d.
Proof.
  induction de as [|p de IH]; intros d d'; cbn [move_bucket]; [by intros [= <-]|].
  destruct (entries st !! p) as [e|]; [|done]. cbn [mbind option_bind]. destruct (tget _ _) as [b|]; [|done].
  cbn [mbind option_bind]. destruct (tset _ _ _) as [t1|]; [|done]. cbn [mbind option_bind]. by intros ->%IH.
Qed.

Lemma rehash_loop_progress st n : ∀ d ev d' r,
  0 < ev → rehash_loop n st d ev = Some (d', r) →
  if r : bool then used (ht0 d') = 0 ∨ rehashidx d + Z.of_nat n ≤ rehashidx d' else rehashidx d + ev ≤ rehashidx d'.
Proof.
  induction n as [|n IH]; intros d ev d' r Hev; cbn [rehash_loop]; [intros [= <- <-]; lia|].
  destruct (Z.eqb_spec (used (ht0 d)) 0); [intros [= <- <-]; by left|]. destruct (negb _); [done|].
  destruct (skip_empty _ _ _ _) as [[idx ev1]|] eqn:Es; [|done]. cbn [mbind option_bind].
  apply skip_empty_progress in Es; [|done]. destruct ev1 as [ev1|]; [|intros [= <- <-]; simpl; lia].
  destruct (tget _ _) as [de|]; [|done]. cbn [mbind option_bind]. destruct (move_bucket _ _ _) as [d1|] eqn:Em; [|done].
  apply move_bucket_idx in Em. simpl in Em. cbn [mbind option_bind]. destruct (tset _ _ _) as [t0|]; [|done].
  cbn [mbind option_bind]. intros Hl. apply IH in Hl; [|lia]. simpl in Hl. destruct r; lia.
Qed.

(** A call that leaves work went at least [n] buckets further. *)
Lemma rehash_progress st d n d' : 0 < n → dictRehash st d n = Some (d', 1) → rehashidx d + n ≤ rehashidx d'.
Proof.
  intros Hn. unfold dictRehash. destruct (negb (dictIsRehashing d)); [done|].
  destruct (rehash_loop _ _ _ _) as [[d1 r]|] eqn:El; [|done]. cbn [mbind option_bind].
  apply rehash_loop_progress in El; [|lia]. destruct r; cbn [negb].
  - destruct (Z.eqb_spec (used (ht0 d1)) 0); [done|]. intros [= <-]. lia.
  - intros [= <-]. lia.
Qed.

Lemma rehash_bounds st d m : dict_ok st d m → 0 ≤ size (ht0 d) ∧ -1 ≤ rehashidx d ≤ size (ht0 d).
Proof.
  intros Hd. pose proof Hd as (Hok0 & _ & _ & _ & Hst).
  assert (0 ≤ size (ht0 d)).
  { unfold ht_ok in Hok0. destruct (table (ht0 d)); [|lia]. destruct Hok0 as ((k & Hk & ->) & _).
    pose proof (pow_31 k Hk). lia. }
  unfold dictIsRehashing in Hst. destruct (Z.eqb_spec (rehashidx d) (-1)); simpl in Hst; lia.
Qed.

Lemma rehashMilliseconds_rounds st m clock : ∀ d,
  dict_ok st d m → (dictIsRehashing d = true → size (ht0 d) < rehashidx d + 100 * zlen clock) → clock ≠ [] →
  ∃ d' n, dictRehashMilliseconds clock st d = Some (d', n) ∧ dict_ok st d' m ∧ same_dict d d' ∧
    0 ≤ n ∧ (dictIsRehashing d = false → n = 0) ∧ (dictIsRehashing d = true → rehashidx d + n ≤ size (ht0 d)) ∧
    (Forall (λ time_up, time_up = false) clock → dictIsRehashing d' = false).
Proof.
  induction clock as [|c clock IH]; intros d Hd Hfuel Hne; [done|]. cbn [dictRehashMilliseconds].
  destruct (rehash_bounds st d m Hd) as [Hs Hb]. rewrite zlen_cons in Hfuel.
  destruct (rehash_ok st d m 100 Hd ltac:(lia)) as (d1 & r & Hrun & Hd1 & Hsame & Hr). rewrite Hrun. cbn [mbind option_bind].
  destruct Hr as [[-> Hre]|(-> & Hre1 & Hre & Hsz & _)]; simpl.
  { exists d1, 0. split; [done|]. split; [done|]. split; [done|]. split; [lia|]. split; [done|]. split; [lia|done]. }
  apply rehash_progress in Hrun; [|lia]. destruct (rehash_bounds st d1 m Hd1) as [_ Hb1]. specialize (Hfuel Hre).
  destruct c.
  { exists d1, 100. split; [done|]. split; [done|]. split; [done|]. split; [lia|]. split; [congruence|]. split; [lia|].
    by intros [? _]%Forall_cons. }
  destruct (IH d1 Hd1) as (d' & n & -> & Hd' & Hsame' & Hn & _ & Hle & Hdone).
  { intros _. lia. }
  { intros ->. change (zlen []) with 0 in Hfuel. lia. }
  cbn [mbind option_bind]. exists d', (100 + n). specialize (Hle Hre1). destruct Hsame, Hsame'.
  split; [done|]. split; [done|]. split; [split; congruence|]. split; [lia|]. split; [congruence|]. split; [lia|].
  intros [_ ?]%Forall_cons. auto.
Qed.

(** C27: [dictRehashMilliseconds] ends, whatever the clock says: a round that leaves work
    gets at least 100 buckets further, so that the number it returns, 100 for each
    such round, is at most the number of buckets of the old table, and one more round
    than a hundredth of the buckets is enough.  The map is unchanged, and without an
    expiry of the time the rehashing is complete. *)
Theorem dictRehashMilliseconds_terminates st d m clock :
  dict_ok st d m → size (ht0 d) < 100 * zlen clock →
  ∃ d' n, dictRehashMilliseconds clock st d = Some (d', n) ∧ dict_ok st d' m ∧ same_dict d d' ∧
    0 ≤ n ≤ size (ht0 d) ∧ (Forall (λ time_up, time_up = false) clock → dictIsRehashing d' = false).
Proof.
  intros Hd Hlen. destruct (rehash_bounds st d m Hd) as [Hs Hb].
  assert (dictIsRehashing d = true → 0 ≤ rehashidx d) as Hi.
  { unfold dictIsRehashing. destruct (Z.eqb_spec (rehashidx d) (-1)); [done|lia]. }
  destruct (rehashMilliseconds_rounds st m clock d Hd) as (d' & n & Hrun & Hd' & Hsame & Hn & H0 & Hle & Hdone).
  { intros Hre. specialize (Hi Hre). lia. }
  { intros ->. change (zlen []) with 0 in Hlen. lia. }
  exists d', n. split; [done|]. split; [done|]. split; [done|]. split; [|done]. split; [done|].
  destruct (dictIsRehashing d) eqn:Hre; [specialize (Hi eq_refl); specialize (Hle eq_refl); lia|rewrite H0; done].
Qed.

(** [dictUnlink] followed by [dictFreeUnlinkedEntry] does what [dictDelete]
    does, failures included. *)
Theorem dictDelete_unlink_free st d k :
  dictDelete st d k =
  ('(st1, d1, he) ← dictUnlink st d k;
   st2 ← dictFreeUnlinkedEntry st1 d1 he;
   Some (st2, d1, match he with Some _ => DICT_OK | None => DICT_ERR end)).
Proof.
  unfold dictDelete, dictUnlink, dictGenericDelete. destruct (_ && _); [done|].
  destruct (rehash_if st d) as [d1|]; [|done]. cbn [mbind option_bind].
  assert (∀ t h, delete_in st d1 t k h false =
    (r ← delete_in st d1 t k h true;
     match r with
     | Some (st, t, p) => st ← free_entry d1 st p; Some (Some (st, t, p))
     | None => Some None
     end)) as Hin.
  { intros t h. unfold delete_in. destruct (tget t _) as [b|]; [|done]. cbn [mbind option_bind].
    destruct (chain_unlink st d1 k b) as [[[p b']|]|]; cbn [mbind option_bind]; try done.
    destruct (tset t _ b'); cbn [mbind option_bind]; [|done]. by destruct (free_entry d1 st p). }
  rewrite !Hin. destruct (delete_in st d1 (ht0 d1) k _ true) as [[[[st2 t2] p]|]|]; cbn [mbind option_bind].
  - cbn [dictFreeUnlinkedEntry]. change (free_entry (set_ht0 d1 t2)) with (free_entry d1).
    by destruct (free_entry d1 st2 p).
  - destruct (negb _); [done|].
    destruct (delete_in st d1 (ht1 d1) k _ true) as [[[[st2 t2] p]|]|]; cbn [mbind option_bind]; try done.
    cbn [dictFreeUnlinkedEntry]. change (free_entry (set_ht1 d1 t2)) with (free_entry d1).
    by destruct (free_entry d1 st2 p).
  - done.
Qed.

(** [dictEmpty] leaves an empty dictionary, frees exactly its entries, and
    gives every key and every value of the map to its destructor once. *)
Theorem dictEmpty_frees st d m :
  dict_ok st d m →
  ∃ st' d' kvs, dictEmpty st d = Some (st', d') ∧ dict_ok st' d' ∅ ∧ kvs ≡ₚ map_to_list m ∧
    (keyDestructor (type d) = true → freed_keys st' = freed_keys st ++ kvs.*1) ∧
    (valDestructor (type d) = true → freed_vals st' = freed_vals st ++ kvs.*2) ∧
    ∀ p, entries st' !! p = if decide (p ∈ ptrs d) then None else entries st !! p.
Proof.
  intros Hd. destruct (dict_empty_ok st d m Hd) as (st' & kvs & -> & Hp & ->).
  eexists _, _, kvs. split; [done|]. split; [apply create_ok|]. split; [done|]. simpl.
  split; [by intros ->|]. split; [by intros ->|].
  generalize (ptrs d), (entries st). clear. induction l as [|q l IH]; intros E p; [done|]. cbn [foldl].
  rewrite IH. destruct (decide (p = q)) as [->|Hne].
  - rewrite lookup_delete_eq. repeat case_decide; set_solver.
  - rewrite lookup_delete_ne by done. repeat case_decide; set_solver.
Qed.
End Refine.

(** ** Witnesses: integer keys, hashed by their value *)
Definition int_type : dictType Z Z := DictType (uwrap 64) None None None true true.
Definition empty_store : store Z Z := Store ∅ [] [] true.

#[export] Instance int_type_ok : DictTypeOk int_type.
Proof. split; [|done..]. intros k. simpl. by apply uwrap_bound. Qed.

Definition demo_ops : list (@op Z Z) :=
  [OAdd 1 10; OAdd 5 50; OAdd 9 90; OAdd 2 20; OAdd 6 60; OAdd 5 51; OReplace 5 52; ODelete 9;
   OFetch 5; OFetch 9; OResize; ORehash 1; OFetch 6].

Lemma dict_session_refines_witness :
  ∃ st' d', run_ops demo_ops (empty_store, dictCreate int_type) =
    Some (st', d', [ARet 0; ARet 0; ARet 0; ARet 0; ARet 0; ARet 1; ARet 0; ARet 0;
                    AVal (Some 52); AVal None; AUnit; AUnit; AVal (Some 60)]) ∧
    dict_ok st' d' (spec_ops int_type demo_ops ∅).1.
Proof.
  destruct (dict_session_refines int_type demo_ops empty_store) as (st' & d' & Hrun & Hok); [by vm_compute|].
  exists st', d'. split; [|done]. rewrite Hrun. reflexivity.
Defined.

(** A dictionary in the middle of a rehashing. *)
Definition half_ops : list (@op Z Z) := [OAdd 1 10; OAdd 5 50; OAdd 9 90; OAdd 2 20; OAdd 6 60; OAdd 7 70].
Definition half : store Z Z * dict Z Z :=
  default (empty_store, dictCreate int_type) (fst <$> run_ops half_ops (empty_store, dictCreate int_type)).

Lemma half_ok : dict_ok half.1 half.2 (spec_ops int_type half_ops ∅).1.
Proof.
  destruct (run_ops_ok int_type half_ops empty_store (dictCreate int_type) ∅) as (st' & d' & Hrun & Hok & _);
    [done|apply create_ok|by vm_compute|].
  unfold half. rewrite Hrun. exact Hok.
Qed.

Lemma dictRehashMilliseconds_terminates_witness :
  dictIsRehashing half.2 = true ∧
  ∃ d' n, dictRehashMilliseconds [false] half.1 half.2 = Some (d', n) ∧
    dict_ok half.1 d' (spec_ops int_type half_ops ∅).1 ∧ dictIsRehashing d' = false ∧ 0 ≤ n ≤ size (ht0 half.2).
Proof.
  split; [by vm_compute|].
  destruct (dictRehashMilliseconds_terminates half.1 half.2 _ [false] half_ok)
    as (d' & n & Hrun & Hok & _ & Hn & Hdone); [by vm_compute|].
  exists d', n. split; [exact Hrun|]. split; [exact Hok|]. split; [apply Hdone; repeat constructor|exact Hn].
Defined.

Lemma dictEmpty_frees_witness :
  ∃ st' d' kvs, dictEmpty half.1 half.2 = Some (st', d') ∧ dict_ok st' d' ∅ ∧
    kvs ≡ₚ map_to_list (spec_ops int_type half_ops ∅).1 ∧ freed_vals st' = kvs.*2 ∧ zlen kvs = 6.
Proof.
  destruct (dictEmpty_frees half.1 half.2 _ half_ok) as (st' & d' & kvs & Hrun & Hok & Hp & _ & Hv & _).
  exists st', d', kvs. split; [done|]. split; [done|]. split; [done|]. split; [by apply Hv|].
  unfold zlen. rewrite Hp. reflexivity.
Defined.
