(* ===== verification/DictScan.v ===== *)
(** * dictScan: the reverse-binary cursor

    [rev] reverses the 64 bits of the cursor, so that a call is seen to visit an
    interval of reversed hashes: the block of [rev v] at the size of the smaller
    table.  Growing and shrinking only changes the size of the blocks. *)

From S2P Require Import Prelude.
From S2P Require Import Dict.
From S2P Require Import DictSpec.
From S2P Require Import DictRefine.
Import Dict.

(** ** Reversing bits *)
Lemma not64_bits m i : 0 ≤ i < 64 → Z.testbit (not64 m) i = negb (Z.testbit m i).
Proof.
  intros Hi. unfold not64, uwrap. rewrite Z.mod_pow2_bits_low by lia. apply Z.lnot_spec. lia.
Qed.

(** What one round must find in its mask: bit [i] of the result is bit
    [i xor s] of the word. *)
Definition round_ok (s mask : Z) : bool :=
  forallb (λ i, if Z.testbit mask i then (i + s =? Z.lxor i s)
                else (i - s =? Z.lxor i s) && (s <=? i)) (seqZ 0 64).

Lemma round_bits s mask v i :
  round_ok s mask = true → 0 ≤ s → 0 ≤ i < 64 →
  Z.testbit (Z.lor (Z.land (Z.shiftr v s) mask) (Z.land (uwrap 64 (Z.shiftl v s)) (not64 mask))) i =
  Z.testbit v (Z.lxor i s).
Proof.
  intros Hok Hs Hi. unfold round_ok in Hok. rewrite forallb_forall in Hok.
  specialize (Hok i ltac:(apply list_elem_of_In, elem_of_seqZ; lia)).
  rewrite Z.lor_spec, !Z.land_spec, not64_bits, Z.shiftr_spec by lia.
  unfold uwrap. rewrite Z.mod_pow2_bits_low, Z.shiftl_spec by lia.
  destruct (Z.testbit mask i); simpl.
  - apply Z.eqb_eq in Hok as ->. by rewrite andb_true_r, andb_false_r, orb_false_r.
  - apply andb_true_iff in Hok as [->%Z.eqb_eq _]. by rewrite andb_true_r, andb_false_r.
Qed.

Lemma bits_range v : 0 ≤ v → (∀ i, 64 ≤ i → Z.testbit v i = false) → in_u 64 v.
Proof.
  intros Hv Hb. split; [done|]. destruct (Z.eq_dec v 0) as [->|]; [lia|].
  destruct (Z.lt_ge_cases (Z.log2 v) 64) as [Hl|Hl].
  - apply Z.log2_lt_pow2; lia.
  - specialize (Hb (Z.log2 v) Hl). rewrite Z.bit_log2 in Hb by lia. done.
Qed.

Lemma high_bits v i : in_u 64 v → 64 ≤ i → Z.testbit v i = false.
Proof.
  intros [Hv Hlt] Hi. destruct (Z.eq_dec v 0) as [->|]; [apply Z.testbit_0_l|].
  apply Z.bits_above_log2; [lia|]. apply Z.lt_le_trans with 64; [|done].
  apply Z.log2_lt_pow2; lia.
Qed.

(** [rev] with its six rounds written out. *)
Definition round (s mask v : Z) : Z :=
  Z.lor (Z.land (Z.shiftr v s) mask) (Z.land (uwrap 64 (Z.shiftl v s)) (not64 mask)).

Lemma rev_rounds v :
  rev v = round 1 0x5555555555555555 (round 2 0x3333333333333333 (round 4 0x0f0f0f0f0f0f0f0f
    (round 8 0x00ff00ff00ff00ff (round 16 0x0000ffff0000ffff (round 32 0x00000000ffffffff v))))).
Proof. reflexivity. Qed.

Lemma lxor_63 i : 0 ≤ i < 64 →
  Z.lxor (Z.lxor (Z.lxor (Z.lxor (Z.lxor (Z.lxor i 1) 2) 4) 8) 16) 32 = 63 - i.
Proof.
  intros Hi. assert (forallb (λ i,
    Z.lxor (Z.lxor (Z.lxor (Z.lxor (Z.lxor (Z.lxor i 1) 2) 4) 8) 16) 32 =? 63 - i) (seqZ 0 64) = true) as Hb
    by (by vm_compute).
  rewrite forallb_forall in Hb. apply Z.eqb_eq, Hb, list_elem_of_In, elem_of_seqZ. lia.
Qed.

Lemma lxor_range i s : 0 ≤ i < 64 → 0 ≤ s < 64 → 0 ≤ Z.lxor i s < 64.
Proof.
  intros Hi Hs. split; [apply Z.lxor_nonneg; lia|].
  destruct (Z.eq_dec (Z.lxor i s) 0) as [->|]; [lia|]. apply (Z.log2_lt_pow2 _ 6).
  { pose proof (proj2 (Z.lxor_nonneg i s) ltac:(lia)). lia. }
  eapply Z.le_lt_trans; [apply Z.log2_lxor; lia|].
  assert (∀ x, 0 ≤ x < 64 → Z.log2 x < 6) as Hlog.
  { intros x Hx. destruct (Z.eq_dec x 0) as [->|]; [done|]. apply Z.log2_lt_pow2; lia. }
  pose proof (Hlog i Hi). pose proof (Hlog s Hs). lia.
Qed.

Lemma rev_bits v i : 0 ≤ i < 64 → Z.testbit (rev v) i = Z.testbit v (63 - i).
Proof.
  intros Hi. rewrite rev_rounds, <-(lxor_63 i Hi). unfold round.
  repeat (rewrite round_bits; [|by vm_compute|lia|repeat apply lxor_range; lia]). done.
Qed.

Lemma rev_bound v : in_u 64 (rev v).
Proof.
  rewrite rev_rounds. set (w := round 2 _ _). unfold round.
  split; [apply Z.lor_nonneg; split; apply Z.land_nonneg; right; [lia|]; apply (uwrap_bound 64); lia|].
  apply bits_range; [apply Z.lor_nonneg; split; apply Z.land_nonneg; right; [lia|]; apply (uwrap_bound 64); lia|].
  intros i Hi. rewrite Z.lor_spec, !Z.land_spec.
  rewrite (high_bits 0x5555555555555555), (high_bits (not64 _)) by (done || apply uwrap_bound; lia).
  by rewrite !andb_false_r.
Qed.

Lemma eq_bits v w : in_u 64 v → in_u 64 w → (∀ i, 0 ≤ i < 64 → Z.testbit v i = Z.testbit w i) → v = w.
Proof.
  intros Hv Hw Hb. apply Z.bits_inj'. intros i Hi. destruct (Z.lt_ge_cases i 64); [auto|].
  by rewrite !high_bits.
Qed.

Lemma rev_involutive v : in_u 64 v → rev (rev v) = v.
Proof.
  intros Hv. apply eq_bits; [apply rev_bound|done|]. intros i Hi.
  rewrite !rev_bits by lia. f_equal. lia.
Qed.

Lemma rev_0 : rev 0 = 0.
Proof. reflexivity. Qed.

#[local] Opaque rev.

(** ** Blocks of cursors *)
Lemma lor_ones_div a j : 0 ≤ j → Z.lor a (2 ^ j - 1) = a / 2 ^ j * 2 ^ j + (2 ^ j - 1).
Proof.
  intros Hj. rewrite Z.sub_1_r, <-Z.ones_equiv.
  rewrite <-(Z.shiftr_div_pow2 a j), <-(Z.shiftl_mul_pow2 _ j) by done.
  rewrite <-Z.ldiff_ones_r by done.
  assert (Z.land (Z.ldiff a (Z.ones j)) (Z.ones j) = 0) as Hd by apply Z.land_ldiff.
  rewrite Z.add_nocarry_lxor, Z.lxor_lor by done.
  apply Z.bits_inj'. intros i Hi. rewrite !Z.lor_spec, Z.ldiff_spec.
  by destruct (Z.testbit a i), (Z.testbit (Z.ones j) i).
Qed.

Lemma ones_bit k i : 0 ≤ k → 0 ≤ i → Z.testbit (2 ^ k - 1) i = (i <? k).
Proof.
  intros Hk Hi. rewrite Z.sub_1_r, <-Z.ones_equiv. destruct (Z.ltb_spec i k).
  - by apply Z.ones_spec_low.
  - apply Z.ones_spec_high. lia.
Qed.

(** The reversed cursor, with the bits outside the mask set. *)
Lemma rev_masked v k : in_u 64 v → 0 ≤ k ≤ 64 →
  rev (Z.lor v (not64 (2 ^ k - 1))) = rev v / 2 ^ (64 - k) * 2 ^ (64 - k) + (2 ^ (64 - k) - 1).
Proof.
  intros Hv Hk. rewrite <-lor_ones_div by lia.
  assert (in_u 64 (Z.lor (rev v) (2 ^ (64 - k) - 1))) as Hb.
  { pose proof (Z.pow_pos_nonneg 2 (64 - k) ltac:(lia) ltac:(lia)).
    apply bits_range; [apply Z.lor_nonneg; split; [apply rev_bound|lia]|].
    intros i Hi. rewrite Z.lor_spec, ones_bit, high_bits by (apply rev_bound || lia).
    apply Z.ltb_ge. lia. }
  apply eq_bits; [apply rev_bound|done|]. intros i Hi.
  rewrite rev_bits, !Z.lor_spec, rev_bits, not64_bits, !ones_bit by lia. f_equal.
  destruct (Z.ltb_spec (63 - i) k), (Z.ltb_spec i (64 - k)); simpl; done || lia.
Qed.

(** The next cursor. *)
Definition next_cursor (v m0 : Z) : Z := rev (uwrap 64 (rev (Z.lor v (not64 m0)) + 1)).

Lemma next_cursor_ok v k : in_u 64 v → 0 ≤ k ≤ 64 →
  let U := (rev v / 2 ^ (64 - k) + 1) * 2 ^ (64 - k) in
  rev v < U ≤ 2 ^ 64 ∧ in_u 64 (next_cursor v (2 ^ k - 1)) ∧
  (next_cursor v (2 ^ k - 1) = 0 ∧ U = 2 ^ 64 ∨
   next_cursor v (2 ^ k - 1) ≠ 0 ∧ rev (next_cursor v (2 ^ k - 1)) = U).
Proof.
  intros Hv Hk U. unfold next_cursor. rewrite rev_masked by done.
  pose proof (Z.pow_pos_nonneg 2 (64 - k) ltac:(lia) ltac:(lia)) as HS. set (S := 2 ^ (64 - k)) in *.
  replace (rev v / S * S + (S - 1) + 1) with U by (unfold U; lia).
  assert (2 ^ 64 = 2 ^ k * S) as HP by (unfold S; rewrite <-Z.pow_add_r by lia; f_equal; lia).
  pose proof (rev_bound v) as [Hr0 Hr1].
  assert (rev v / S < 2 ^ k) as Hq by (apply Z.div_lt_upper_bound; lia).
  assert (rev v < U) by (unfold U; pose proof (Z.mul_succ_div_gt (rev v) S HS); lia).
  assert (U ≤ 2 ^ 64) by (unfold U; rewrite HP; apply Z.mul_le_mono_nonneg_r; lia).
  split; [lia|]. split; [apply rev_bound|]. destruct (Z.eq_dec U (2 ^ 64)) as [HU|HU].
  - left. split; [|done]. rewrite HU. exact rev_0.
  - right. rewrite uwrap_id by (unfold in_u; lia). rewrite rev_involutive by (unfold in_u; lia).
    split; [|done]. intros Hz. apply (f_equal rev) in Hz.
    rewrite rev_involutive, rev_0 in Hz by (unfold in_u; lia). lia.
Qed.

(** Reversed hashes in one block are in one bucket. *)
Lemma same_block h v k : in_u 64 h → in_u 64 v → 0 ≤ k ≤ 64 →
  rev h / 2 ^ (64 - k) = rev v / 2 ^ (64 - k) → Z.land h (2 ^ k - 1) = Z.land v (2 ^ k - 1).
Proof.
  intros Hh Hv Hk Heq. apply Z.bits_inj'. intros i Hi. rewrite !Z.land_spec, ones_bit by lia.
  destruct (Z.ltb_spec i k); [|by rewrite !andb_false_r]. rewrite !andb_true_r.
  assert (∀ x, Z.testbit x i = Z.testbit (rev x / 2 ^ (64 - k)) (k - 1 - i)) as Hx.
  { intros x. rewrite Z.div_pow2_bits, rev_bits by lia. f_equal. lia. }
  by rewrite !Hx, Heq.
Qed.

Lemma in_block v h S : 0 < S → rev v ≤ h < (rev v / S + 1) * S → h / S = rev v / S.
Proof.
  intros HS Hh. apply Z.le_antisymm.
  - assert (h / S < rev v / S + 1) by (apply Z.div_lt_upper_bound; lia). lia.
  - apply Z.div_le_mono; lia.
Qed.

(** ** The expansions in the larger table *)
Section Expand.
Context (a b r : Z) (Ha : 0 ≤ a) (Hab : a ≤ b) (Hb : b ≤ 63) (Hr : 0 ≤ r < 2 ^ a).

Let m0 := 2 ^ a - 1.
Let m1 := 2 ^ b - 1.

Lemma pow_split : 2 ^ b = 2 ^ a * 2 ^ (b - a) ∧ 2 ^ 64 = 2 ^ a * 2 ^ (64 - a) ∧ 0 < 2 ^ a ∧ 0 < 2 ^ (b - a) ∧ 0 < 2 ^ (64 - a).
Proof.
  split_and!; try (apply Z.pow_pos_nonneg; lia); rewrite <-Z.pow_add_r by lia; f_equal; lia.
Qed.

(** A cursor with low bits [r] and high part [q]. *)
Definition cur (q : Z) : Z := r + 2 ^ a * q.

Lemma cur_low q : Z.land (cur q) m0 = r.
Proof.
  pose proof pow_split as (_ & _ & ? & _). unfold m0, cur. rewrite land_mask by done.
  rewrite Z.mul_comm, Z.mod_add by lia. by apply Z.mod_small.
Qed.

Lemma cur_bucket q : Z.land (cur q) m1 = cur (q mod 2 ^ (b - a)).
Proof.
  pose proof pow_split as (HB & _ & ? & ? & _). unfold m1, cur. rewrite land_mask by lia. rewrite HB.
  rewrite Z.rem_mul_r by lia. replace (r + 2 ^ a * q) with (r + q * 2 ^ a) by lia.
  rewrite Z.mod_add, Z.div_add, Z.mod_small, Z.div_small by lia. done.
Qed.

Lemma cur_next q : 0 ≤ q < 2 ^ (64 - a) →
  Z.lor (Z.land (uwrap 64 (Z.lor (cur q) m0 + 1)) (not64 m0)) (Z.land (cur q) m0) =
  cur ((q + 1) mod 2 ^ (64 - a)).
Proof.
  intros Hq. pose proof pow_split as (_ & HP & ? & _ & ?). rewrite cur_low. unfold m0, cur.
  rewrite lor_ones_div by done. replace (r + 2 ^ a * q) with (r + q * 2 ^ a) by lia.
  rewrite Z.div_add, Z.div_small by lia.
  replace ((0 + q) * 2 ^ a + (2 ^ a - 1) + 1) with (2 ^ a * (q + 1)) by lia.
  unfold uwrap. rewrite HP, Z.mul_mod_distr_l by lia. set (x := (q + 1) mod _).
  assert (0 ≤ x < 2 ^ (64 - a)) as Hx by (apply Z.mod_pos_bound; lia).
  replace (2 ^ a * x) with (Z.shiftl x a) by (rewrite Z.shiftl_mul_pow2 by done; lia).
  assert (in_u 64 (Z.shiftl x a)) as Hu.
  { rewrite Z.shiftl_mul_pow2 by done. unfold in_u. rewrite HP. nia. }
  assert (∀ i, 0 ≤ i < a → Z.testbit (Z.shiftl x a) i = false) as Hlow.
  { intros i Hi. rewrite Z.shiftl_spec by lia. apply Z.testbit_neg_r. lia. }
  assert (∀ i, a ≤ i → Z.testbit r i = false) as Hrh.
  { intros i Hi. rewrite <-(Z.mod_small r (2 ^ a)) by done. apply Z.mod_pow2_bits_high. lia. }
  assert (Z.land (Z.shiftl x a) (not64 (2 ^ a - 1)) = Z.shiftl x a) as ->.
  { apply Z.bits_inj'. intros i Hi. rewrite Z.land_spec. destruct (Z.lt_ge_cases i 64).
    - rewrite not64_bits, ones_bit by lia. destruct (Z.ltb_spec i a); simpl.
      + by rewrite Hlow by lia.
      + by rewrite andb_true_r.
    - by rewrite (high_bits (Z.shiftl x a)). }
  rewrite Z.add_nocarry_lxor, Z.lxor_lor, Z.lor_comm; [done|..];
    apply Z.bits_inj'; intros i Hi; rewrite Z.land_spec, Z.testbit_0_l;
    (destruct (Z.lt_ge_cases i a); [by rewrite Hlow, andb_false_r by lia|by rewrite Hrh by lia]).
Qed.

Lemma cur_stop q : (Z.land (cur q) (Z.lxor m0 m1) =? 0) = (q mod 2 ^ (b - a) =? 0).
Proof.
  pose proof pow_split as (HB & _ & ? & ? & _).
  assert (Z.land (cur q) (Z.lxor m0 m1) = Z.shiftl (q mod 2 ^ (b - a)) a) as ->.
  { apply Z.bits_inj'. intros i Hi.
    rewrite Z.land_spec, Z.lxor_spec, Z.shiftl_spec by done. unfold m0, m1. rewrite !ones_bit by lia.
    destruct (Z.ltb_spec i a), (Z.ltb_spec i b); simpl; try lia.
    - rewrite andb_false_r, Z.testbit_neg_r by lia. done.
    - rewrite andb_true_r, Z.mod_pow2_bits_low by lia.
      replace q with (cur q / 2 ^ a) at 2.
      + rewrite Z.div_pow2_bits by lia. f_equal. lia.
      + unfold cur. rewrite Z.mul_comm, Z.div_add, Z.div_small by lia. lia.
    - rewrite andb_false_r, Z.mod_pow2_bits_high by lia. done. }
  rewrite Z.shiftl_mul_pow2 by done.
  destruct (Z.eqb_spec (q mod 2 ^ (b - a)) 0) as [->|Hne]; [done|].
  apply Z.eqb_neq. intros [?|?]%Z.mul_eq_0; lia.
Qed.

Lemma high_succ q :
  (q + 1) mod 2 ^ (64 - a) mod 2 ^ (b - a) =
  if q mod 2 ^ (b - a) =? 2 ^ (b - a) - 1 then 0 else q mod 2 ^ (b - a) + 1.
Proof.
  pose proof pow_split as (_ & _ & _ & HM & _). set (M := 2 ^ (b - a)) in *.
  replace (2 ^ (64 - a)) with (M * 2 ^ (64 - b)) by (unfold M; rewrite <-Z.pow_add_r by lia; f_equal; lia).
  pose proof (Z.pow_pos_nonneg 2 (64 - b) ltac:(lia) ltac:(lia)).
  rewrite Z.rem_mul_r by lia. rewrite Z.mul_comm, Z.mod_add, Zmod_mod by lia.
  pose proof (Z.mod_pos_bound q M HM). pose proof (Z.div_mod q M ltac:(lia)).
  destruct (Z.eqb_spec (q mod M) (M - 1)).
  - replace (q + 1) with (0 + (q / M + 1) * M) by lia. rewrite Z.mod_add by lia. by apply Z.mod_small.
  - replace (q + 1) with (q mod M + 1 + q / M * M) by lia. rewrite Z.mod_add by lia. apply Z.mod_small. lia.
Qed.

Definition bucket (t : dictht) (x : Z) : list ptr := default [] (tget t x).

Lemma scan_expand_ok t1 fuel : ∀ q out,
  0 ≤ q < 2 ^ (64 - a) → (∀ x, 0 ≤ x < 2 ^ b → is_Some (tget t1 x)) →
  2 ^ (b - a) - q mod 2 ^ (b - a) ≤ Z.of_nat fuel →
  ∃ q', scan_expand fuel t1 m0 m1 (cur q) out =
    Some (out ++ concat (map (λ j, bucket t1 (cur j))
                          (seqZ (q mod 2 ^ (b - a)) (2 ^ (b - a) - q mod 2 ^ (b - a)))), cur q') ∧
    0 ≤ q' < 2 ^ (64 - a).
Proof.
  pose proof pow_split as (HB & _ & H0a & HM & H64). set (M := 2 ^ (b - a)) in *.
  induction fuel as [|fuel IH]; intros q out Hq Hget Hfuel.
  { pose proof (Z.mod_pos_bound q M HM). lia. }
  cbn [scan_expand]. rewrite cur_bucket. fold M. pose proof (Z.mod_pos_bound q M HM) as Hqm.
  assert (0 ≤ cur (q mod M) < 2 ^ b) as Hx by (unfold cur; rewrite HB; nia).
  destruct (Hget _ Hx) as [c Hc]. rewrite Hc. cbn [mbind option_bind].
  rewrite cur_next by done. rewrite cur_stop. fold M. rewrite high_succ. fold M.
  assert (0 ≤ (q + 1) mod 2 ^ (64 - a) < 2 ^ (64 - a)) as Hq' by (apply Z.mod_pos_bound; lia).
  rewrite (seqZ_cons (q mod M)) by lia. cbn [map concat]. unfold bucket at 1. rewrite Hc. simpl default.
  destruct (Z.eqb_spec (q mod M) (M - 1)) as [He|He].
  - simpl. eexists. split; [|exact Hq']. rewrite seqZ_nil by lia. simpl. by rewrite app_nil_r.
  - rewrite (proj2 (Z.eqb_neq _ 0)) by lia.
    destruct (IH ((q + 1) mod 2 ^ (64 - a)) (out ++ c) Hq' Hget) as (q' & -> & Hr').
    { rewrite high_succ. fold M. rewrite (proj2 (Z.eqb_neq (q mod M) _)) by lia. lia. }
    exists q'. split; [|done]. rewrite high_succ. fold M. rewrite (proj2 (Z.eqb_neq (q mod M) _)) by lia.
    rewrite <-app_assoc. replace (Z.succ (q mod M)) with (q mod M + 1) by lia.
    by replace (Z.pred (M - q mod M)) with (M - (q mod M + 1)) by lia.
Qed.
End Expand.

(** ** One call *)
Section Scan.
Context {K V : Type} `{Countable K}.
Implicit Types (st : store K V) (d : dict K V) (t : dictht) (m : gmap K V).

(** The cursor has no bit between the masks of the two tables. *)
Definition fits d (v : Z) : Prop :=
  dictIsRehashing d = true → Z.land v (Z.lxor (sizemask (ht0 d)) (sizemask (ht1 d))) = 0.

Lemma table_bits ty st t :
  ht_ok ty st t → table t ≠ None →
  ∃ k, 2 ≤ k ≤ 31 ∧ size t = 2 ^ k ∧ sizemask t = 2 ^ k - 1 ∧ ∀ x, 0 ≤ x < 2 ^ k → is_Some (tget t x).
Proof.
  unfold ht_ok, tget. destruct (table t) as [bs|]; [|done].
  intros ((k & Hk & Hs) & Hm & Hl & _) _. exists k. split_and!; try done; [lia|lia|congruence|].
  intros x Hx. cbn [mbind option_bind]. rewrite (proj2 (Z.leb_le 0 x)) by lia.
  apply lookup_lt_is_Some_2. unfold zlen in Hl. lia.
Qed.

Lemma bucket_slots t x p : p ∈ bucket t x → p ∈ slots t.
Proof.
  unfold bucket, tget, slots. destruct (table t) as [bs|]; simpl; [|done].
  destruct (0 <=? x); [|by intros ?%not_elem_of_nil].
  destruct (bs !! Z.to_nat x) as [c|] eqn:E; simpl; [|by intros ?%not_elem_of_nil].
  intros Hp. apply elem_of_concat. eauto.
Qed.

(** The key is in the bucket of its hash. *)
Lemma key_bucket ty st t p k :
  ht_ok ty st t → p ∈ slots t → has_key st p k →
  p ∈ bucket t (Z.land (hashFunction ty k) (sizemask t)).
Proof.
  intros Hok Hp Hk. destruct (table t) as [bs|] eqn:Ht.
  - destruct (placed_bucket ty st t bs k p Hok Ht Hp Hk) as (b & Hb & Hpb).
    destruct (bucket_of ty st t (hashFunction ty k) bs Hok Ht) as (Hi & Hr & _).
    unfold bucket, tget. rewrite Ht. cbn [mbind option_bind].
    rewrite (proj2 (Z.leb_le 0 _)), Hb by lia. done.
  - unfold slots in Hp. rewrite Ht in Hp. by apply not_elem_of_nil in Hp.
Qed.

Lemma key_ptr st d m k : dict_ok st d m → is_Some (m !! k) → ∃ p, p ∈ ptrs d ∧ has_key st p k.
Proof.
  intros (_ & _ & (_ & _ & Hm & _) & _) [v Hv]. destruct (Hm k v Hv) as (p & Hp & He).
  exists p. split; [done|]. by exists (Some v).
Qed.

(** The entries of the two tables that a call emits, for a cursor that fits. *)
Lemma scan_two ty st t0 t1 v :
  DictTypeOk ty → ht_ok ty st t0 → ht_ok ty st t1 → table t0 ≠ None → table t1 ≠ None →
  size t0 ≤ size t1 → in_u 64 v → Z.land v (Z.lxor (sizemask t0) (sizemask t1)) = 0 →
  ∃ b0 out v', tget t0 (Z.land v (sizemask t0)) = Some b0 ∧
    scan_expand (Z.to_nat (size t1)) t1 (sizemask t0) (sizemask t1) v b0 = Some (out, v') ∧
    in_u 64 v' ∧ Z.land v' (sizemask t0) = Z.land v (sizemask t0) ∧
    (∀ p, p ∈ out → p ∈ slots t0 ∨ p ∈ slots t1) ∧
    ∀ p k, p ∈ slots t0 ∨ p ∈ slots t1 → has_key st p k →
      Z.land (hashFunction ty k) (sizemask t0) = Z.land v (sizemask t0) → p ∈ out.
Proof.
  intros Hty Hok0 Hok1 Hn0 Hn1 Hsz Hv Hfit.
  destruct (table_bits ty st t0 Hok0 Hn0) as (a & Ha & Hsa & Hma & Hget0).
  destruct (table_bits ty st t1 Hok1 Hn1) as (b & Hb & Hsb & Hmb & Hget1).
  assert (a ≤ b) as Hab by (apply (Z.pow_le_mono_r_iff 2); lia).
  pose proof (Z.pow_pos_nonneg 2 a ltac:(lia) ltac:(lia)) as Hpa.
  set (r := v mod 2 ^ a). set (q := v / 2 ^ a).
  assert (0 ≤ r < 2 ^ a) as Hr by (apply Z.mod_pos_bound; lia).
  destruct (pow_split a b ltac:(lia) Hab ltac:(lia)) as (HB & HP & _ & HM & H64).
  assert (0 ≤ q < 2 ^ (64 - a)) as Hq.
  { destruct Hv as [Hv0 Hv1]. split; [apply Z.div_pos; lia|]. apply Z.div_lt_upper_bound; lia. }
  assert (v = cur a r q) as Hcur by (unfold cur, r, q; pose proof (Z.div_mod v (2 ^ a) ltac:(lia)); lia).
  rewrite Hma, Hmb in *. rewrite Hcur in Hfit |- *.
  apply Z.eqb_eq in Hfit. rewrite (cur_stop a b r) in Hfit by lia. apply Z.eqb_eq in Hfit.
  rewrite (cur_low a b r) by lia.
  destruct (Hget0 r Hr) as [b0 Hb0]. 
  destruct (scan_expand_ok a b r ltac:(lia) Hab ltac:(lia) Hr t1 (Z.to_nat (size t1)) q b0 Hq Hget1)
    as (q' & Hscan & Hq').
  { rewrite Hsb, HB. nia. }
  eexists b0, _, _. split; [done|]. split; [exact Hscan|]. split.
  { unfold cur, in_u. rewrite HP. nia. }
  split; [by rewrite (cur_low a b r) by lia|]. split.
  - intros p [Hp|Hp]%elem_of_app.
    + left. apply (bucket_slots t0 r). unfold bucket. by rewrite Hb0.
    + right. apply list_elem_of_In, in_concat in Hp as (c & Hc & Hp). apply in_map_iff in Hc as (j & <- & _).
      by eapply bucket_slots, list_elem_of_In.
  - intros p k Hp Hk Hland. apply elem_of_app. destruct Hp as [Hp|Hp].
    + left. apply (key_bucket ty st t0 p k Hok0 Hp) in Hk. rewrite Hma, Hland in Hk.
      unfold bucket in Hk. by rewrite Hb0 in Hk.
    + right. apply (key_bucket ty st t1 p k Hok1 Hp) in Hk. rewrite Hmb in Hk.
      set (h := hashFunction ty k) in *. rewrite land_mask in Hland by lia.
      assert (h = cur a r (h / 2 ^ a)) as Hh.
      { unfold cur. rewrite <-Hland. pose proof (Z.div_mod h (2 ^ a) ltac:(lia)). lia. }
      rewrite Hh, (cur_bucket a b r) in Hk by lia.
      apply list_elem_of_In, in_concat. eexists. split; [|by apply list_elem_of_In, Hk].
      apply in_map_iff. eexists. split; [done|]. apply list_elem_of_In, elem_of_seqZ.
      rewrite Hfit. pose proof (Z.mod_pos_bound (h / 2 ^ a) (2 ^ (b - a)) HM). lia.
Qed.

Lemma next_cursor_low v v' k :
  in_u 64 v → in_u 64 v' → 0 ≤ k → Z.land v (2 ^ k - 1) = Z.land v' (2 ^ k - 1) →
  next_cursor v (2 ^ k - 1) = next_cursor v' (2 ^ k - 1).
Proof.
  intros Hv Hv' Hk Heq. unfold next_cursor.
  assert (Z.lor v (not64 (2 ^ k - 1)) = Z.lor v' (not64 (2 ^ k - 1))) as ->; [|done].
  apply Z.bits_inj'. intros i Hi.
  rewrite !Z.lor_spec. destruct (Z.lt_ge_cases i 64); [|by rewrite (high_bits v), (high_bits v')].
  rewrite not64_bits, ones_bit by lia. destruct (Z.ltb_spec i k); [|by rewrite !orb_true_r].
  apply (f_equal (λ x, Z.testbit x i)) in Heq. rewrite !Z.land_spec, ones_bit in Heq by lia.
  rewrite (proj2 (Z.ltb_lt i k)), !andb_true_r in Heq by lia. by rewrite Heq.
Qed.

(** The result of a call at cursor [v] that visits the reversed hashes from
    [rev v] up to the next cursor. *)
Definition visits st d m (v : Z) (res : option (list ptr * Z)) : Prop :=
  ∃ out v' U, res = Some (out, v') ∧ in_u 64 v' ∧ rev v < U ≤ 2 ^ 64 ∧
    (v' = 0 ∧ U = 2 ^ 64 ∨ v' ≠ 0 ∧ rev v' = U) ∧
    (∀ p, p ∈ out → p ∈ ptrs d) ∧
    ∀ k, is_Some (m !! k) → rev v ≤ rev (hashFunction (type d) k) < U → ∃ p, p ∈ out ∧ has_key st p k.

(** A bucket of a table of [a] bits covers the block of the cursor. *)
Lemma visits_block st d `{!DictTypeOk (type d)} m v a out v' :
  dict_ok st d m → in_u 64 v → in_u 64 v' → 0 ≤ a ≤ 64 →
  Z.land v' (2 ^ a - 1) = Z.land v (2 ^ a - 1) → (∀ p, p ∈ out → p ∈ ptrs d) →
  (∀ p k, p ∈ ptrs d → has_key st p k →
     Z.land (hashFunction (type d) k) (2 ^ a - 1) = Z.land v (2 ^ a - 1) → p ∈ out) →
  visits st d m v (Some (out, next_cursor v' (2 ^ a - 1))).
Proof.
  intros Hd Hv Hv' Ha Hlow Hsound Hall. rewrite (next_cursor_low v' v a) by (done || lia).
  destruct (next_cursor_ok v a Hv ltac:(lia)) as (HU & Hn2 & Hnext).
  eexists out, _, _. split; [done|]. split; [done|]. split; [exact HU|]. split; [exact Hnext|].
  split; [done|]. intros k Hk Hrange. destruct (key_ptr st d m k Hd Hk) as (p & Hp & Hpk).
  exists p. split; [|done]. apply (Hall p k Hp Hpk).
  apply same_block; [apply hash_u64|done|lia|]. apply in_block; [|done]. apply Z.pow_pos_nonneg; lia.
Qed.

Lemma scan_step st d `{!DictTypeOk (type d)} m v :
  dict_ok st d m → in_u 64 v → fits d v → visits st d m v (dictScan d v).
Proof.
  intros Hd Hv Hfit. unfold dictScan, dictSize. destruct (ok_used st d m Hd) as [Hu0 Hu1].
  assert (used (ht0 d) + used (ht1 d) = zlen (ptrs d)) as Hsum by (unfold ptrs; zl).
  pose proof Hd as (Hok0 & Hok1 & _ & Hlen & Hst). zlen_pos.
  rewrite Hsum, uwrap_id by (unfold in_u; lia). pose proof (rev_bound v) as [_ Hrv].
  destruct (Z.eqb_spec (zlen (ptrs d)) 0) as [Hz|Hz].
  { exists [], 0, (2 ^ 64). split_and!; try done; [by left|by intros p ?%not_elem_of_nil|].
    intros k. rewrite (ok_empty st d m Hd Hz), lookup_empty. by intros [? ?]. }
  pose proof (ok_table0 st d m Hd (ok_nonempty st d m Hd Hz)) as Hn0.
  destruct (table_bits (type d) st (ht0 d) Hok0 Hn0) as (a & Ha & _ & Hma & Hget).
  destruct (dictIsRehashing d) eqn:Hre; cbn [negb].
  - destruct Hst as (_ & _ & Hn1 & _). specialize (Hfit Hre).
    destruct (table_bits (type d) st (ht1 d) Hok1 Hn1) as (a1 & Ha1 & _ & Hma1 & _).
    destruct (Z.ltb_spec (size (ht1 d)) (size (ht0 d))).
    + destruct (scan_two (type d) st (ht1 d) (ht0 d) v) as (b0 & out & v' & -> & Hex & Hv' & Hlow & Hs & Hall);
        try done; [lia|by rewrite Z.lxor_comm|].
      cbn [mbind option_bind]. rewrite Hex. cbn [mbind option_bind]. rewrite Hma1 in *.
      fold (next_cursor v' (2 ^ a1 - 1)). apply (visits_block st d m v a1 out v' Hd Hv Hv' ltac:(lia) Hlow).
      { intros p Hp. apply elem_of_app. destruct (Hs p Hp); auto. }
      intros p k Hp. apply Hall. apply elem_of_app in Hp. tauto.
    + destruct (scan_two (type d) st (ht0 d) (ht1 d) v) as (b0 & out & v' & -> & Hex & Hv' & Hlow & Hs & Hall); try done.
      cbn [mbind option_bind]. rewrite Hex. cbn [mbind option_bind]. rewrite Hma in *.
      fold (next_cursor v' (2 ^ a - 1)). apply (visits_block st d m v a out v' Hd Hv Hv' ltac:(lia) Hlow).
      { intros p Hp. apply elem_of_app. destruct (Hs p Hp); auto. }
      intros p k Hp. apply Hall. apply elem_of_app in Hp. tauto.
  - destruct (Hget (Z.land v (sizemask (ht0 d)))) as [b Hb]; [rewrite Hma; apply mask_range; lia|].
    rewrite Hb. cbn [mbind option_bind]. assert (ptrs d = slots (ht0 d)) as Hps.
    { unfold ptrs. rewrite Hst. unfold slots at 2. simpl. apply app_nil_r. }
    rewrite Hma in *.
    fold (next_cursor v (2 ^ a - 1)). apply (visits_block st d m v a b v Hd Hv Hv ltac:(lia) eq_refl); rewrite Hps.
    + intros p Hp. apply (bucket_slots _ (Z.land v (2 ^ a - 1))). unfold bucket. by rewrite Hb.
    + intros p k Hp Hk Heq. pose proof (key_bucket _ _ _ _ _ Hok0 Hp Hk) as Hin.
      rewrite Hma, Heq in Hin. unfold bucket in Hin. by rewrite Hb in Hin.
Qed.

(** ** A whole scan

    The calls of a scan, each on the state of the dictionary at its time. *)
Fixpoint scan_calls (ds : list (dict K V)) (v : Z) : option (list (list ptr) * Z) :=
  match ds with
  | [] => Some ([], v)
  | d :: ds => '(out, v) ← dictScan d v; '(outs, v) ← scan_calls ds v; Some (out :: outs, v)
  end.

(** [states] are the store, the dictionary and its contents at the calls; the
    cursor fits at each call, and only the last one returns 0. *)
Fixpoint scan_run (ty : dictType K V) (states : list (store K V * dict K V * gmap K V)) (v : Z) : Prop :=
  match states with
  | [] => True
  | (st, d, m) :: states =>
      type d = ty ∧ dict_ok st d m ∧ fits d v ∧
      ∀ out v', dictScan d v = Some (out, v') → (states = [] ↔ v' = 0) ∧ scan_run ty states v'
  end.

Lemma scan_run_complete (ty : dictType K V) `{!DictTypeOk ty} states k : ∀ v,
  scan_run ty states v → in_u 64 v → states ≠ [] → (∀ s, s ∈ states → is_Some (s.2 !! k)) →
  ∃ outs, scan_calls (map (λ s, s.1.2) states) v = Some (outs, 0) ∧
    (rev v ≤ rev (hashFunction ty k) →
     ∃ i st d m out p, states !! i = Some (st, d, m) ∧ outs !! i = Some out ∧ p ∈ out ∧ has_key st p k).
Proof.
  induction states as [|[[st d] m] states IH]; intros v Hrun Hv Hne Hk; [done|].
  destruct Hrun as (Hty & Hd & Hfit & Hnext). assert (DictTypeOk (type d)) by (by rewrite Hty).
  destruct (scan_step st d m v Hd Hv Hfit) as (out & v' & U & Hscan & Hv' & HU & Hcase & _ & Hall).
  rewrite Hty in Hall. destruct (Hnext out v' Hscan) as [Hlast Hrun].
  cbn [map scan_calls fst snd]. rewrite Hscan. cbn [mbind option_bind].
  assert (rev v ≤ rev (hashFunction ty k) < U → ∃ p, p ∈ out ∧ has_key st p k) as Hnow.
  { apply Hall. apply (Hk (st, d, m)). set_solver. }
  destruct states as [|s states].
  - rewrite (proj1 Hlast eq_refl) in *. simpl. eexists. split; [done|]. intros Hrev.
    destruct Hcase as [[_ ->]|[? _]]; [|done].
    destruct Hnow as (p & Hp & Hpk); [split; [done|apply rev_bound]|]. exists 0%nat, st, d, m, out, p. done.
  - destruct Hcase as [[Hz _]|[Hnz <-]]; [by apply Hlast in Hz|].
    destruct (IH v' Hrun Hv' ltac:(done)) as (outs & -> & Hin); [intros; apply Hk; set_solver|].
    cbn [mbind option_bind]. eexists. split; [done|]. intros Hrev.
    destruct (Z.lt_ge_cases (rev (hashFunction ty k)) (rev v')) as [Hlt|Hge].
    + destruct Hnow as (p & Hp & Hpk); [done|]. exists 0%nat, st, d, m, out, p. done.
    + destruct (Hin Hge) as (i & st' & d' & m' & out' & p & ? & ? & ? & ?).
      exists (S i), st', d', m', out', p. done.
Qed.

(** C15: a scan, from cursor 0 until 0 is returned, with any changes of the
    dictionary between the calls (rehashing, growing, shrinking, adding and
    removing) that leave the cursor within the smaller table, emits every
    element that is present all the time. *)
Theorem dictScan_complete (ty : dictType K V) `{!DictTypeOk ty} states k :
  scan_run ty states 0 → states ≠ [] → (∀ s, s ∈ states → is_Some (s.2 !! k)) →
  ∃ outs, scan_calls (map (λ s, s.1.2) states) 0 = Some (outs, 0) ∧
    ∃ i st d m out p, states !! i = Some (st, d, m) ∧ outs !! i = Some out ∧ p ∈ out ∧ has_key st p k.
Proof.
  intros Hrun Hne Hk. destruct (scan_run_complete ty states k 0 Hrun ltac:(done) Hne Hk) as (outs & Hs & Hin).
  exists outs. split; [done|]. apply Hin. rewrite rev_0. apply rev_bound.
Qed.
End Scan.

(** [rev] reverses the 64 bits of a word. *)
Theorem rev_reverses v i : 0 ≤ i < 64 → Z.testbit (rev v) i = Z.testbit v (63 - i).
Proof. apply rev_bits. Qed.

Lemma rev_reverses_witness : Z.testbit (rev 6) 62 = true ∧ Z.testbit (rev 6) 61 = true ∧ rev 1 = 2 ^ 63.
Proof.
  split; [rewrite (rev_reverses 6 62) by lia; reflexivity|].
  split; [rewrite (rev_reverses 6 61) by lia; reflexivity|by vm_compute].
Defined.

(** ** Witnesses *)
Definition after (os : list (@op Z Z)) : store Z Z * dict Z Z :=
  default (empty_store, dictCreate int_type) (fst <$> run_ops os (empty_store, dictCreate int_type)).
Definition contents (os : list (@op Z Z)) : gmap Z Z := (spec_ops int_type os ∅).1.

Lemma after_ok os : zlen os ≤ 2 ^ 30 → type (after os).2 = int_type ∧ dict_ok (after os).1 (after os).2 (contents os).
Proof.
  intros Hl. destruct (run_ops_ok int_type os empty_store (dictCreate int_type) ∅) as (st' & d' & Hrun & Hok & Hty);
    [done|apply create_ok|rewrite map_size_empty; lia|].
  unfold after. rewrite Hrun. done.
Qed.

(** A scan that starts in the middle of a rehashing from 4 to 8 buckets and goes
    on when it is complete, an element less and one more. *)
Definition grown_ops := half_ops ++ [ODelete 1; OAdd 13 130; ORehash 10].
Definition grow_states : list (store Z Z * dict Z Z * gmap Z Z) :=
  (after half_ops, contents half_ops) :: replicate 6 (after grown_ops, contents grown_ops).

(** The computable conditions of [scan_run]. *)
Fixpoint scan_check (ds : list (dict Z Z)) (v : Z) : bool :=
  match ds with
  | [] => true
  | d :: ds =>
      (negb (dictIsRehashing d) || (Z.land v (Z.lxor (sizemask (ht0 d)) (sizemask (ht1 d))) =? 0)) &&
      match dictScan d v with
      | Some (_, v') => Bool.eqb (match ds with [] => true | _ => false end) (v' =? 0) && scan_check ds v'
      | None => false
      end
  end.

Lemma scan_check_run ty states : ∀ v,
  (∀ s, s ∈ states → type s.1.2 = ty ∧ dict_ok s.1.1 s.1.2 s.2) →
  scan_check (map (λ s, s.1.2) states) v = true → scan_run ty states v.
Proof.
  induction states as [|[[st d] m] states IH]; intros v Hs Hc; [done|].
  cbn [map scan_check scan_run fst snd] in *. apply andb_true_iff in Hc as [Hfit Hc].
  destruct (Hs (st, d, m)) as [Hty Hd]; [set_solver|]. split; [done|]. split; [done|]. split.
  { intros Hre. rewrite Hre in Hfit. by apply Z.eqb_eq. }
  intros out v' Hscan. rewrite Hscan in Hc. apply andb_true_iff in Hc as [Heq%Bool.eqb_prop Hc].
  split; [|apply IH; [|done]; intros s Hin; apply Hs, elem_of_cons; by right].
  clear Hscan Hc Hs IH. destruct (Z.eqb_spec v' 0) as [Hz|Hz]; destruct states; done.
Qed.

Lemma dictScan_complete_witness :
  dictIsRehashing (after half_ops).2 = true ∧ dictIsRehashing (after grown_ops).2 = false ∧
  ∃ outs, scan_calls (map (λ s, s.1.2) grow_states) 0 = Some (outs, 0) ∧
    ∃ i st d m out p, grow_states !! i = Some (st, d, m) ∧ outs !! i = Some out ∧ p ∈ out ∧ has_key st p 6.
Proof.
  assert (∀ s, s ∈ grow_states → s = (after half_ops, contents half_ops) ∨ s = (after grown_ops, contents grown_ops)) as Hin.
  { intros s [->|Hs]%elem_of_cons; [by left|]. apply elem_of_replicate in Hs as [-> _]. by right. }
  split; [by vm_compute|]. split; [by vm_compute|].
  apply (dictScan_complete int_type grow_states 6).
  - apply scan_check_run; [|by vm_compute]. intros s [-> | ->]%Hin.
    + apply (after_ok half_ops). by vm_compute.
    + apply (after_ok grown_ops). by vm_compute.
  - done.
  - intros s [-> | ->]%Hin; apply (bool_decide_unpack _); by vm_compute.
Defined.

(** ** Shrinking during a scan *)
(** A table of 16 buckets that holds the keys 4, 7 and 8, and the same one when it
    begins to shrink to 4 buckets. *)
Definition big_ops : list (@op Z Z) :=
  map (λ k, OAdd k (10 * k)) (seqZ 0 9) ++ [ORehash 100] ++ map ODelete [0; 1; 2; 3; 5; 6].

(** The keys that the pointers [ps] of a store have. *)
Definition keys_at (st : store Z Z) (ps : list ptr) : list Z := omap (λ p, key <$> entries st !! p) ps.

(** A table that shrinks while it is scanned.  The first call visits bucket
    0 of 16 and returns cursor 8; then the table starts shrinking to 4 buckets,
    and the calls go on until 0 is returned: key 4, in the dictionary all the
    time, is not emitted, since the expansions of cursor 8 in the larger table
    begin at bucket 8 and leave out bucket 4. *)
Theorem dictScan_shrink_misses :
  let '(st, d1) := after big_ops in
  let d2 := default d1 (fst <$> dictResize st d1) in
  dict_ok st d1 (contents big_ops) ∧ dict_ok st d2 (contents big_ops) ∧
  contents big_ops !! 4 = Some 40 ∧
  size (ht0 d1) = 16 ∧ dictIsRehashing d1 = false ∧ size (ht1 d2) = 4 ∧ dictIsRehashing d2 = true ∧
  (λ r, (keys_at st (concat r.1), r.2)) <$> scan_calls [d1; d2; d2; d2; d2] 0 = Some ([8; 7], 0).
Proof.
  pose proof (after_ok big_ops ltac:(by vm_compute)) as [_ Hok].
  assert (Z.of_nat (base.size (contents big_ops)) ≤ 2 ^ 30) as Hs by (by vm_compute).
  destruct (resize_ok (after big_ops).1 (after big_ops).2 (contents big_ops) Hok Hs) as (d2 & r & Hr & Hok2 & _).
  assert (Hd2 : d2 = default (after big_ops).2 (fst <$> dictResize (after big_ops).1 (after big_ops).2))
    by (by rewrite Hr).
  rewrite (surjective_pairing (after big_ops)). cbv zeta. rewrite <-Hd2.
  split; [exact Hok|]. split; [exact Hok2|]. rewrite Hd2. clear.
  split; [by vm_compute|]. split; [by vm_compute|]. split; [by vm_compute|].
  split; [by vm_compute|]. split; [by vm_compute|]. vm_compute. reflexivity.
Qed.
