(* ===== verification/DictIter.v ===== *)
(** * Iterators and random samples of dict.c

    An iteration returns every entry once, in the order of the buckets; the
    sampling routines stay inside the tables and return entries of the
    dictionary, at most as many as asked for. *)

From S2P Require Import Prelude.
From S2P Require Import Dict.
From S2P Require Import DictSpec.
From S2P Require Import DictRefine.
Import Dict.

(** ** Successors in a chain *)
Lemma succ_in_ok p pre rest : p ∉ pre → succ_in p (pre ++ p :: rest) = Some (head rest).
Proof.
  induction pre as [|q pre IH]; intros Hnin; simpl.
  - by rewrite bool_decide_eq_true_2.
  - rewrite bool_decide_eq_false_2 by set_solver. apply IH. set_solver.
Qed.

Lemma succ_in_none p b : p ∉ b → succ_in p b = None.
Proof.
  induction b as [|q b IH]; intros Hnin; simpl; [done|].
  rewrite bool_decide_eq_false_2 by set_solver. apply IH. set_solver.
Qed.

Lemma succ_in_table_ok p pre rest bs : ∀ i,
  NoDup (concat bs) → bs !! i = Some (pre ++ p :: rest) → succ_in_table p bs = Some (head rest).
Proof.
  induction bs as [|b bs IH]; intros i Hnd Hi; [done|]. simpl in *.
  apply NoDup_app in Hnd as (Hb & Hdis & Hbs). destruct i as [|i]; simpl in Hi.
  - injection Hi as ->. apply NoDup_app in Hb as (_ & Hpre & _).
    rewrite succ_in_ok; [done|]. intros Hin. apply (Hpre p Hin). set_solver.
  - rewrite succ_in_none; [by apply (IH i)|]. intros Hin. apply (Hdis p Hin).
    apply elem_of_concat. exists i, (pre ++ p :: rest). set_solver.
Qed.

Section Iter.
Context {K V : Type} `{Countable K}.
Context (table_addr : dictht → Z).
Implicit Types (st : store K V) (d : dict K V) (m : gmap K V) (iter : dictIterator).

(** The buckets of both tables, in the order of an iteration. *)
Definition tables d : list (list ptr) := default [] (table (ht0 d)) ++ default [] (table (ht1 d)).

Lemma tables_ptrs d : concat (tables d) = ptrs d.
Proof. apply concat_app. Qed.

Definition pos d iter : Z := if itable iter =? 0 then index iter else size (ht0 d) + index iter.

(** The iterator is at a bucket of its table (or before the first one). *)
Definition iter_ok d iter : Prop :=
  (itable iter = 0 ∧ -1 ≤ index iter < Z.max 1 (size (ht0 d)) ∨
   itable iter = 1 ∧ dictIsRehashing d = true ∧ 0 ≤ index iter < size (ht1 d)).

Definition started iter : bool := negb ((index iter =? -1) && (itable iter =? 0)).

Lemma tables_len st d m :
  dict_ok st d m →
  zlen (default [] (table (ht0 d))) = size (ht0 d) ∧ zlen (default [] (table (ht1 d))) = size (ht1 d) ∧
  0 ≤ size (ht0 d) ∧ 0 ≤ size (ht1 d).
Proof.
  intros (Hok0 & Hok1 & _).
  assert (∀ t, ht_ok (type d) st t → zlen (default [] (table t)) = size t ∧ 0 ≤ size t) as Hlen.
  { intros t. unfold ht_ok. destruct (table t) as [bs|]; simpl.
    - intros ((k & Hk & Hs) & _ & Hz & _). pose proof (pow_31 k Hk). lia.
    - intros (-> & _). done. }
  destruct (Hlen _ Hok0), (Hlen _ Hok1). done.
Qed.

(** A bucket of one of the tables, by its place in [tables]. *)
Lemma tget_tables st d m (n : Z) :
  dict_ok st d m → 0 ≤ n →
  tables d !! Z.to_nat n = if n <? size (ht0 d) then tget (ht0 d) n else tget (ht1 d) (n - size (ht0 d)).
Proof.
  intros Hd Hn. destruct (tables_len st d m Hd) as (H0 & H1 & Hs0 & Hs1).
  unfold tables, tget. unfold zlen in *. destruct (Z.ltb_spec n (size (ht0 d))).
  - rewrite lookup_app_l by lia. destruct (table (ht0 d)); simpl in *; [|lia].
    by rewrite (proj2 (Z.leb_le 0 n)) by lia.
  - rewrite lookup_app_r by lia. destruct (table (ht1 d)); simpl in *; [|by rewrite lookup_nil].
    rewrite (proj2 (Z.leb_le 0 _)) by lia. f_equal. lia.
Qed.

(** What the first call does before it moves. *)
Definition start iter d : dictIterator * dict K V :=
  if started iter then (iter, d)
  else if safe iter then (iter, set_iterators d (iterators d + 1))
  else (DictIterator (index iter) (itable iter) (safe iter) (entry iter) (nextEntry iter)
          (dictFingerprint table_addr d), d).

Lemma negb_if {A} (b : bool) (x y : A) : (if negb b then x else y) = if b then y else x.
Proof. by destruct b. Qed.

Lemma start_same iter d iter1 d1 :
  start iter d = (iter1, d1) →
  index iter1 = index iter ∧ itable iter1 = itable iter ∧ safe iter1 = safe iter ∧
  entry iter1 = entry iter ∧ nextEntry iter1 = nextEntry iter ∧
  (d1 = d ∨ d1 = set_iterators d (iterators d + 1)).
Proof. unfold start. destruct (started iter); [|destruct (safe iter) eqn:E]; intros [= <- <-]; split_and!; auto. Qed.

(** A round that begins with no entry: [iter'] is at the next bucket. *)
Definition next_round d iter (res : option (dictIterator * dict K V + option ptr * dictIterator * dict K V)) : Prop :=
  let n := pos d iter + 1 in
  ∃ iter', started iter' = true ∧ safe iter' = safe iter ∧ fingerprint iter' = fingerprint iter ∧
  match tables d !! Z.to_nat n with
  | None => res = Some (inr (None, iter', d))
  | Some b => iter_ok d iter' ∧ pos d iter' = n ∧ entry iter' = head b ∧
      match b with
      | [] => res = Some (inl (iter', d))
      | p :: rest => nextEntry iter' = head rest ∧ res = Some (inr (Some p, iter', d))
      end
  end.

(** The bucket is read: what remains of the round. *)
Lemma round_bucket st d m iter n b i tb :
  dict_ok st d m → 0 ≤ n → tables d !! Z.to_nat n = Some b → 0 ≤ i → n = pos d iter + 1 →
  (let iter' := DictIterator i tb (safe iter) (head b) (nextEntry iter) (fingerprint iter) in
   iter_ok d iter' ∧ pos d iter' = n) →
  next_round d iter
    (let iter' := DictIterator i tb (safe iter) (head b) (nextEntry iter) (fingerprint iter) in
     match head b with
     | Some p =>
         n ← entry_next d p;
         Some (inr (Some p, DictIterator i tb (safe iter) (Some p) n (fingerprint iter), d))
     | None => Some (inl (iter', d))
     end).
Proof.
  intros (_ & _ & (Hnd & _) & _) Hn Hb Hi Hpos [Hok Hp]. unfold next_round. rewrite <-Hpos, Hb.
  assert (∀ e ne, started (DictIterator i tb (safe iter) e ne (fingerprint iter)) = true) as Hst.
  { intros. unfold started. simpl. by rewrite (proj2 (Z.eqb_neq i (-1))) by lia. }
  destruct b as [|p rest].
  - eexists. split; [apply Hst|]. split_and!; done.
  - change (head (p :: rest)) with (Some p). cbv iota beta. change (entry_next d p) with (succ_in_table p (tables d)). rewrite <-tables_ptrs in Hnd.
    rewrite (succ_in_table_ok p [] rest (tables d) _ Hnd Hb). cbn [mbind option_bind].
    exists (DictIterator i tb (safe iter) (Some p) (head rest) (fingerprint iter)).
    split; [apply Hst|]. split_and!; done.
Qed.

Lemma in_table st d m n :
  dict_ok st d m → 0 ≤ n < size (ht0 d) + size (ht1 d) → is_Some (tables d !! Z.to_nat n).
Proof.
  intros Hd Hn. destruct (tables_len st d m Hd) as (Hl0 & Hl1 & _).
  apply lookup_lt_is_Some_2. unfold tables. rewrite length_app. unfold zlen in *. lia.
Qed.

Lemma past_tables st d m n :
  dict_ok st d m → size (ht0 d) + size (ht1 d) ≤ n → tables d !! Z.to_nat n = None.
Proof.
  intros Hd Hn. destruct (tables_len st d m Hd) as (Hl0 & Hl1 & _).
  apply lookup_ge_None_2. unfold tables. rewrite length_app. unfold zlen in *. lia.
Qed.

Lemma rehash_sizes st d m :
  dict_ok st d m →
  if dictIsRehashing d then 4 ≤ size (ht0 d) ∧ 4 ≤ size (ht1 d) else size (ht1 d) = 0.
Proof.
  intros (Hok0 & Hok1 & _ & _ & Hst). destruct (dictIsRehashing d); [|by rewrite Hst].
  destruct Hst as (_ & Hn0 & Hn1 & _). unfold ht_ok in *.
  destruct (table (ht0 d)); [|done]. destruct (table (ht1 d)); [|done].
  destruct Hok0 as ((j & Hj & ->) & _), Hok1 as ((k & Hk & ->) & _).
  pose proof (pow_31 j Hj). pose proof (pow_31 k Hk). lia.
Qed.

Lemma round_end d iter e ne :
  tables d !! Z.to_nat (pos d iter + 1) = None → -1 ≤ index iter →
  next_round d iter (Some (inr (None, DictIterator (index iter + 1) (itable iter) (safe iter) e ne (fingerprint iter), d))).
Proof.
  intros Hn Hi. unfold next_round. rewrite Hn.
  exists (DictIterator (index iter + 1) (itable iter) (safe iter) e ne (fingerprint iter)). split; [|done].
  unfold started. simpl. by rewrite (proj2 (Z.eqb_neq _ (-1))) by lia.
Qed.

Lemma round_none st d0 d m iter0 iter :
  dict_ok st d m → iter_ok d iter → entry iter0 = None → start iter0 d0 = (iter, d) →
  next_round d iter (dictNext_body table_addr (iter0, d0)).
Proof.
  intros Hd Hok He Hst. destruct (tables_len st d m Hd) as (_ & _ & Hs0 & Hs1).
  pose proof (rehash_sizes st d m Hd) as Hsz.
  unfold dictNext_body. rewrite He. unfold start, started in Hst. rewrite He in Hst.
  rewrite negb_if in Hst. rewrite Hst. clear Hst He.
  assert (0 ≤ pos d iter + 1) as Hp0 by (unfold pos; destruct Hok as [[-> ?]|(-> & _ & ?)]; simpl; lia).
  pose proof (tget_tables st d m (pos d iter + 1) Hd Hp0) as Hget.
  pose proof (past_tables st d m (pos d iter + 1) Hd) as Hpast.
  pose proof (in_table st d m (pos d iter + 1) Hd) as Hin.
  destruct Hok as [[Ht Hi]|(Ht & Hre & Hi)].
  - assert (pos d iter = index iter) as Hp by (unfold pos; by rewrite Ht).
    rewrite Hp in Hget, Hpast, Hin. rewrite !(proj2 (Z.eqb_eq (itable iter) 0) Ht).
    destruct (Z.leb_spec (size (ht0 d)) (index iter + 1)).
    + rewrite andb_true_r. destruct (dictIsRehashing d) eqn:Hre.
      * destruct Hin as [b Hb]; [lia|]. rewrite Hb in Hget.
        rewrite (proj2 (Z.ltb_ge _ _)) in Hget by lia.
        replace (index iter + 1 - size (ht0 d)) with 0 in Hget by lia. rewrite <-Hget. cbn [mbind option_bind].
        apply (round_bucket st d m iter (index iter + 1) b 0 1); try done; try lia.
        simpl. split; [right; split_and!; simpl; done || lia|]. unfold pos. simpl. lia.
      * apply round_end; [rewrite Hp; apply Hpast; lia|lia].
    + destruct Hin as [b Hb]; [lia|]. rewrite Hb in Hget. rewrite (proj2 (Z.ltb_lt _ _)) in Hget by lia.
      rewrite <-Hget. cbn [mbind option_bind].
      apply (round_bucket st d m iter (index iter + 1) b (index iter + 1) (itable iter)); try done; try lia.
      simpl. split; [left; simpl; lia|]. unfold pos. simpl. by rewrite Ht.
  - assert (pos d iter = size (ht0 d) + index iter) as Hp by (unfold pos; by rewrite Ht).
    rewrite Hp in Hget, Hpast, Hin. rewrite !(proj2 (Z.eqb_neq (itable iter) 0)) by lia.
    destruct (Z.leb_spec (size (ht1 d)) (index iter + 1)).
    + rewrite andb_false_r. apply round_end; [rewrite Hp; apply Hpast; lia|lia].
    + destruct Hin as [b Hb]; [lia|]. rewrite Hb in Hget. rewrite (proj2 (Z.ltb_ge _ _)) in Hget by lia.
      replace (size (ht0 d) + index iter + 1 - size (ht0 d)) with (index iter + 1) in Hget by lia.
      rewrite <-Hget. cbn [mbind option_bind].
      apply (round_bucket st d m iter (size (ht0 d) + index iter + 1) b (index iter + 1) (itable iter)); try done; try lia.
      simpl. split; [right; split_and!; simpl; done || lia|]. unfold pos. simpl. rewrite Ht. simpl. lia.
Qed.

(** The iterator has returned [p]; [rest] follows it in its chain. *)
Definition points d iter (p : ptr) (rest : list ptr) : Prop :=
  iter_ok d iter ∧ started iter = true ∧ entry iter = Some p ∧ nextEntry iter = head rest ∧
  ∃ pre, tables d !! Z.to_nat (pos d iter) = Some (pre ++ p :: rest).

(** The entries of the buckets after the current one. *)
Definition later d iter : list ptr := concat (drop (Z.to_nat (pos d iter + 1)) (tables d)).

(** The outcome of a call that has [l] still to return. *)
Definition returns d iter (l : list ptr) (res : option (option ptr * dictIterator * dict K V)) : Prop :=
  ∃ r iter', res = Some (r, iter', d) ∧ started iter' = true ∧
    safe iter' = safe iter ∧ fingerprint iter' = fingerprint iter ∧
    match r with
    | None => l = []
    | Some p => ∃ rest, points d iter' p rest ∧ l = p :: rest ++ later d iter'
    end.

Lemma later_cons d iter b :
  tables d !! Z.to_nat (pos d iter + 1) = Some b → -1 ≤ pos d iter →
  later d iter = b ++ concat (drop (Z.to_nat (pos d iter + 2)) (tables d)).
Proof.
  intros Hb Hp. unfold later. rewrite (drop_S _ _ _ Hb). simpl. do 3 f_equal. lia.
Qed.

Lemma iter_pos st d m iter : dict_ok st d m → iter_ok d iter → -1 ≤ pos d iter.
Proof.
  intros Hd Hok. destruct (tables_len st d m Hd) as (_ & _ & Hs0 & Hs1). unfold pos.
  destruct Hok as [[-> ?]|(-> & _ & ?)]; simpl; lia.
Qed.

Lemma iter_search_ok st d m fuel : ∀ d0 iter0 iter,
  dict_ok st d m → iter_ok d iter → entry iter0 = None → start iter0 d0 = (iter, d) →
  (length (drop (Z.to_nat (pos d iter + 1)) (tables d)) < fuel)%nat →
  returns d iter (later d iter) (loop fuel (dictNext_body table_addr) (iter0, d0)).
Proof.
  induction fuel as [|fuel IH]; intros d0 iter0 iter Hd Hok He Hst Hf; [lia|]. rewrite loop_S.
  pose proof (iter_pos st d m iter Hd Hok) as Hp.
  destruct (round_none st d0 d m iter0 iter Hd Hok He Hst) as (iter' & Hs' & Hsafe & Hfp & Hr).
  destruct (tables d !! Z.to_nat (pos d iter + 1)) as [b|] eqn:Hb.
  2: { rewrite Hr. cbn [mbind option_bind]. eexists None, iter'. split_and!; try done.
       unfold later. by rewrite drop_ge by (by apply lookup_ge_None_1). }
  rewrite (later_cons d iter b Hb Hp). destruct Hr as (Hok' & Hpos & He' & Hr). destruct b as [|p rest].
  - rewrite Hr. cbn [mbind option_bind app].
    destruct (IH d iter' iter' Hd Hok' He') as (r & iter2 & Hrun & H2 & Hsafe2 & Hfp2 & Hr2).
    { unfold start. by rewrite Hs'. }
    { rewrite Hpos. rewrite (drop_S _ _ _ Hb) in Hf. simpl in Hf.
      replace (Z.to_nat (pos d iter + 1 + 1)) with (S (Z.to_nat (pos d iter + 1))) by lia. lia. }
    exists r, iter2. split; [done|]. split; [done|]. split; [congruence|]. split; [congruence|].
    replace (pos d iter + 2) with (pos d iter' + 1) by lia. exact Hr2.
  - destruct Hr as [Hn Hr]. rewrite Hr. cbn [mbind option_bind]. exists (Some p), iter'.
    split; [done|]. split; [done|]. split; [done|]. split; [done|]. exists rest. split.
    + split_and!; try done. exists []. by rewrite Hpos.
    + unfold later. rewrite Hpos. simpl. do 5 f_equal. lia.
Qed.

Lemma next_first st d m iter0 d0 iter :
  dict_ok st d m → iter_ok d iter → entry iter0 = None → start iter0 d0 = (iter, d) →
  returns d iter (later d iter) (dictNext table_addr iter0 d0).
Proof.
  intros Hd Hok He Hst. unfold dictNext. apply (iter_search_ok st d m); try done.
  destruct (tables_len st d m Hd) as (Hl0 & Hl1 & Hs0 & Hs1). unfold zlen in *.
  assert (size (ht0 d0) = size (ht0 d) ∧ size (ht1 d0) = size (ht1 d)) as [-> ->].
  { apply start_same in Hst as (_ & _ & _ & _ & _ & [-> | ->]); done. }
  rewrite length_drop. unfold tables. rewrite length_app. lia.
Qed.

Lemma next_again st d m iter p rest :
  dict_ok st d m → points d iter p rest →
  returns d iter (rest ++ later d iter) (dictNext table_addr iter d).
Proof.
  intros Hd (Hok & Hst & He & Hn & pre & Hb).
  destruct (tables_len st d m Hd) as (Hl0 & Hl1 & Hs0 & Hs1). pose proof Hd as (_ & _ & (Hnd & _) & _).
  unfold dictNext. set (fuel := Z.to_nat _). assert (∃ n, fuel = S n ∧ (length (tables d) < n)%nat) as (n & -> & Hfuel).
  { exists (pred fuel). unfold fuel, tables. rewrite length_app. unfold zlen in *. lia. }
  rewrite loop_S. unfold dictNext_body at 2. rewrite He. cbn [mbind option_bind entry]. rewrite Hn.
  destruct rest as [|q rest].
  - cbn [head hd_error mbind option_bind app].
    set (iter1 := DictIterator _ _ _ _ _ _).
    apply (iter_search_ok st d m n d iter1 iter1 Hd); try done.
    + unfold start. change (started iter1) with (started iter). by rewrite Hst.
    + rewrite length_drop. lia.
  - change (head (q :: rest)) with (Some q). cbv iota.
    change (entry_next d q) with (succ_in_table q (tables d)).
    rewrite <-tables_ptrs in Hnd.
    rewrite (succ_in_table_ok q (pre ++ [p]) rest (tables d) (Z.to_nat (pos d iter)) Hnd)
      by (by rewrite Hb, <-app_assoc).
    cbn [mbind option_bind]. eexists (Some q), _. split; [done|]. split; [exact Hst|]. split; [done|]. split; [done|].
    exists rest. split; [|done]. split; [exact Hok|]. split; [exact Hst|]. split; [done|]. split; [done|].
    exists (pre ++ [p]). change (pos d (DictIterator _ _ _ _ _ _)) with (pos d iter). by rewrite Hb, <-app_assoc.
Qed.

(** Calls [dictNext] until it returns NULL, at most [n] times. *)
Fixpoint iterate (n : nat) iter d : option (list ptr * dictIterator * dict K V) :=
  match n with
  | O => None
  | S n =>
      '(r, iter, d) ← dictNext table_addr iter d;
      match r with
      | None => Some ([], iter, d)
      | Some p => '(ps, iter, d) ← iterate n iter d; Some (p :: ps, iter, d)
      end
  end.

Lemma iterate_rest st d m l : ∀ n iter res,
  dict_ok st d m → returns d iter l res → (length l ≤ n)%nat →
  ∃ iter', ('(r, iter, d) ← res;
     match r with
     | None => Some ([], iter, d)
     | Some p => '(ps, iter, d) ← iterate n iter d; Some (p :: ps, iter, d)
     end) = Some (l, iter', d) ∧ started iter' = true ∧
    safe iter' = safe iter ∧ fingerprint iter' = fingerprint iter.
Proof.
  induction l as [|p l IH]; intros n iter res Hd (r & iter' & -> & Hst & Hsafe & Hfp & Hr) Hn;
    cbn [mbind option_bind].
  - destruct r as [p|]; [by destruct Hr as (? & _ & ?)|]. eauto.
  - destruct r as [q|]; [|done]. destruct Hr as (rest & Hpts & Heq). injection Heq as <- Heq.
    destruct n as [|n]; simpl in Hn; [lia|]. cbn [iterate].
    pose proof (next_again st d m iter' p rest Hd Hpts) as Hnext. rewrite <-Heq in Hnext.
    destruct (IH n iter' _ Hd Hnext ltac:(lia)) as (iter2 & -> & Hst2 & Hsafe2 & Hfp2).
    cbn [mbind option_bind]. exists iter2. split; [done|]. split; [done|]. split; congruence.
Qed.

(** C28: an iterator, safe or not, returns every entry of the dictionary once, in
    the order of the buckets of the first table and then of the second, and then
    NULL; it can be released (the fingerprint of an unsafe iterator is the same),
    which leaves the dictionary as it was. *)
Theorem dictNext_complete st d m iter :
  dict_ok st d m → iter = dictGetIterator ∨ iter = dictGetSafeIterator →
  ∃ iter' d', iterate (S (length (ptrs d))) iter d = Some (ptrs d, iter', d') ∧
    iterators d' = iterators d + (if safe iter then 1 else 0) ∧
    dictReleaseIterator table_addr iter' d' = Some d.
Proof.
  intros Hd Hi. cbn [iterate]. destruct (start iter d) as [iter1 d1] eqn:Hst.
  pose proof (start_same iter d iter1 d1 Hst) as (Hix & Htb & Hsf & Hen & _ & Hd1).
  assert (dict_ok st d1 m ∧ ptrs d1 = ptrs d) as [Hdok Hps] by (destruct Hd1 as [-> | ->]; done).
  assert (index iter1 = -1 ∧ itable iter1 = 0 ∧ entry iter = None) as (Hix1 & Htb1 & He).
  { rewrite Hix, Htb. destruct Hi as [-> | ->]; done. }
  destruct (tables_len st d1 m Hdok) as (_ & _ & Hs0 & _).
  assert (iter_ok d1 iter1) as Hok by (left; lia).
  pose proof (next_first st d1 m iter d iter1 Hdok Hok He Hst) as Hret.
  assert (later d1 iter1 = ptrs d) as Hl.
  { unfold later, pos. rewrite Hix1, Htb1. simpl. rewrite drop_0, tables_ptrs. done. }
  rewrite Hl in Hret.
  destruct (iterate_rest st d1 m (ptrs d) (length (ptrs d)) iter1 _ Hdok Hret ltac:(lia))
    as (iter' & Hrun & Hst' & Hsafe & Hfp).
  exists iter', d1. split; [exact Hrun|].
  unfold start in Hst. replace (started iter) with false in Hst by (by destruct Hi as [-> | ->]).
  unfold dictReleaseIterator. fold (started iter'). rewrite Hst', Hsafe, Hsf, Hfp.
  destruct (safe iter); injection Hst as <- <-.
  - split; [done|]. f_equal. destruct d as [ty h0 h1 ri it]. unfold set_iterators. simpl. f_equal. lia.
  - cbn [negb fingerprint]. rewrite Z.eqb_refl. split; [lia|done].
Qed.
End Iter.

(** ** Samples *)
Section Sample.
Context {K V : Type} `{Countable K}.
Implicit Types (st : store K V) (d : dict K V) (m : gmap K V) (s : someKeys).

Lemma collect_ok count he : ∀ out,
  zlen out < count →
  let '(out', full) := collect count out he in
  zlen out' ≤ count ∧ (full = false → zlen out' < count) ∧ ∀ p, p ∈ out' → p ∈ out ∨ p ∈ he.
Proof.
  induction he as [|p he IH]; intros out Hlt; simpl; [split_and!; auto; lia|].
  assert (zlen (out ++ [p]) = zlen out + 1) as Hz by zl.
  destruct (Z.eqb_spec (zlen (out ++ [p])) count) as [He|He].
  - split_and!; [lia|done|set_solver].
  - specialize (IH (out ++ [p]) ltac:(lia)). destruct (collect count (out ++ [p]) he) as [out' full].
    destruct IH as (? & ? & Hin). split_and!; [done..|]. intros q Hq. apply Hin in Hq. set_solver.
Qed.

(** The random numbers of the stream are not negative, and [n] of them are left. *)
Definition rnd_ok (n : Z) (rs : list Z) : Prop := Forall (λ r, 0 ≤ r) rs ∧ n ≤ zlen rs.

Definition some_ok d (count n : Z) s : Prop :=
  0 ≤ at_i s ∧ zlen (des s) ≤ count ∧ (∀ p, p ∈ des s → p ∈ ptrs d) ∧ rnd_ok n (rnd s).

Lemma some_bucket_ok st d m count mask n j s :
  dict_ok st d m → 0 ≤ mask → some_ok d count (n + 1) s → 0 ≤ n → zlen (des s) < count →
  ∃ s' full, some_bucket d count mask (if dictIsRehashing d then 2 else 1) j s = Some (s', full) ∧
    some_ok d count n s' ∧ (full = false → zlen (des s') < count).
Proof.
  intros Hd Hmask (Hi & Hle & Hin & Hf & Hn) Hn0 Hlt. unfold some_bucket, some_ok, rnd_ok.
  set (rehash := (_ =? 2) && _ && _). destruct rehash eqn:Hre.
  { assert (0 ≤ rehashidx d).
    { destruct Hd as (_ & _ & _ & _ & Hst). unfold rehash in Hre.
      destruct (dictIsRehashing d); [|done]. lia. }
    eexists _, false. split; [done|]. split; [|by destruct (_ <=? _)].
    destruct (_ <=? _); split_and!; try done; simpl; lia. }
  clear rehash Hre. set (t := if j =? 0 then ht0 d else ht1 d).
  destruct (Z.leb_spec (size t) (at_i s)); [exists s, false; split_and!; done || lia|].
  assert (is_Some (tget t (at_i s)) ∧ ∀ b p, tget t (at_i s) = Some b → p ∈ b → p ∈ ptrs d) as [[b Hb] Hptr].
  { destruct (tables_len st d m Hd) as (Hl0 & Hl1 & _).
    assert (zlen (default [] (table t)) = size t) as Hl by (unfold t; by destruct (j =? 0)).
    unfold tget. destruct (table t) as [bs|] eqn:Ht; simpl in Hl; [|change (zlen []) with 0 in Hl; lia].
    cbn [mbind option_bind]. rewrite (proj2 (Z.leb_le 0 _)) by done. split.
    - apply lookup_lt_is_Some_2. unfold zlen in Hl. lia.
    - intros b p Hb Hp. assert (p ∈ slots t) as Hs.
      { unfold slots. rewrite Ht. apply elem_of_concat. eauto. }
      unfold ptrs. apply elem_of_app. unfold t in Hs. destruct (j =? 0); auto. }
  rewrite Hb. cbn [mbind option_bind]. destruct b as [|p b].
  - destruct (_ && _).
    + destruct (rnd s) as [|r rs]; [change (zlen []) with 0 in Hn; lia|].
      apply Forall_cons in Hf as [Hr Hf]. rewrite zlen_cons in Hn.
      eexists _, false. split; [done|]. split; [|done].
      split_and!; try done; simpl; [apply Z.land_nonneg; auto|lia].
    + eexists _, false. split; [done|]. split; [|done]. split_and!; try done. simpl. lia.
  - pose proof (collect_ok count (p :: b) (des s) Hlt) as Hc.
    destruct (collect count (des s) (p :: b)) as [out full]. destruct Hc as (Hc1 & Hc2 & Hc3).
    eexists _, full. split; [done|]. split; [|done]. split_and!; try done; simpl; [|lia].
    intros q Hq. destruct (Hc3 q Hq) as [?|Hq']; [auto|]. by apply (Hptr (p :: b)).
Qed.

Lemma some_loop_ok st d m count mask steps : ∀ s,
  dict_ok st d m → 0 ≤ mask → some_ok d count (2 * Z.of_nat steps) s →
  ∃ s', some_loop steps d count mask (if dictIsRehashing d then 2 else 1) s = Some s' ∧
    some_ok d count 0 s'.
Proof.
  induction steps as [|steps IH]; intros s Hd Hmask Hs; [by exists s|]. cbn [some_loop].
  assert (∀ n s', 0 ≤ n → some_ok d count n s' → some_ok d count 0 s') as Hweak.
  { intros n s' Hn (? & ? & ? & ? & ?). split; [done|]. split; [done|]. split; [done|]. split; [done|lia]. }
  destruct (Z.ltb_spec (zlen (des s)) count) as [Hlt|]; cbn [negb]; [|exists s; split; [done|refine (Hweak _ _ _ Hs); lia]].
  destruct (some_bucket_ok st d m count mask (2 * Z.of_nat steps + 1) 0 s Hd Hmask) as (s1 & full & -> & Hs1 & Hf1);
    [replace (2 * Z.of_nat steps + 1 + 1) with (2 * Z.of_nat (S steps)) by lia; done|lia|done|].
  cbn [mbind option_bind]. destruct full; [exists s1; split; [done|refine (Hweak _ _ _ Hs1); lia]|].
  assert (∃ s2 full, (if (if dictIsRehashing d then 2 else 1) =? 2
      then some_bucket d count mask (if dictIsRehashing d then 2 else 1) 1 s1 else Some (s1, false)) = Some (s2, full) ∧
    some_ok d count (2 * Z.of_nat steps) s2) as (s2 & full & -> & Hs2).
  { destruct (some_bucket_ok st d m count mask (2 * Z.of_nat steps) 1 s1 Hd Hmask Hs1) as (s2 & full & Hb & Hs2 & _);
      [lia|auto|].
    destruct (dictIsRehashing d); simpl; [eauto|]. exists s1, false. split; [done|].
    destruct Hs1 as (? & ? & ? & ? & ?). split; [done|]. split; [done|]. split; [done|]. split; [done|lia]. }
  cbn [mbind option_bind]. destruct full; [exists s2; split; [done|refine (Hweak _ _ _ Hs2); lia]|].
  apply IH; [done|done|]. destruct Hs2 as (? & ? & ? & ?). split_and!; try done; simpl.
  apply Z.land_nonneg. auto.
Qed.

Lemma rehash_some_ok st m n : ∀ d,
  dict_ok st d m → ∃ d', rehash_some n st d = Some d' ∧ dict_ok st d' m.
Proof.
  induction n as [|n IH]; intros d Hd; cbn [rehash_some]; [eauto|].
  destruct (rehash_if_ok st d m Hd) as (d' & Hr & Hd' & _). unfold rehash_if in Hr.
  destruct (dictIsRehashing d); [|eauto]. rewrite Hr. cbn [mbind option_bind]. auto.
Qed.

(** [dictGetSomeKeys] stores at most [count] entries in the caller's array,
    all of them entries of the dictionary, and reads no bucket outside the
    tables. *)
Theorem dictGetSomeKeys_bounds st d m count rs :
  dict_ok st d m → 0 ≤ count < 2 ^ 32 → rnd_ok (20 * count + 1) rs →
  ∃ d' ps, dictGetSomeKeys st d count rs = Some (d', ps) ∧ dict_ok st d' m ∧
    zlen ps ≤ count ∧ zlen ps ≤ dictSize d ∧ ∀ p, p ∈ ps → p ∈ ptrs d'.
Proof.
  intros Hd Hc [Hf Hr]. unfold dictGetSomeKeys, dictSize. destruct (ok_used st d m Hd) as [Hu0 Hu1].
  assert (used (ht0 d) + used (ht1 d) = zlen (ptrs d)) as -> by (unfold ptrs; zl).
  pose proof Hd as (_ & _ & _ & Hlen & _). zlen_pos. rewrite (uwrap_id 64) by (unfold in_u; lia).
  set (c := if _ <? _ then _ else count).
  assert (0 ≤ c ≤ count ∧ c ≤ zlen (ptrs d)) as [Hc0 Hc1].
  { unfold c. destruct (Z.ltb_spec (zlen (ptrs d)) count); [|lia]. rewrite uwrap_id by (unfold in_u; lia). lia. }
  assert (0 ≤ uwrap 32 (c * 10) ≤ c * 10) as Hsteps.
  { unfold uwrap. pose proof (Z.mod_le (c * 10) (2 ^ 32) ltac:(lia) ltac:(lia)).
    pose proof (Z.mod_pos_bound (c * 10) (2 ^ 32) ltac:(lia)). lia. }
  destruct (rehash_some_ok st m (Z.to_nat c) d Hd) as (d' & -> & Hd'). cbn [mbind option_bind].
  set (mask := if _ && _ then _ else _).
  assert (0 ≤ mask) as Hmask.
  { pose proof Hd' as (Hok0 & Hok1 & _).
    assert (∀ t, ht_ok (type d') st t → 0 ≤ sizemask t) as Hm.
    { intros t. unfold ht_ok. destruct (table t); [|lia]. intros ((k & Hk & Hs) & -> & _).
      pose proof (pow_31 k Hk). lia. }
    unfold mask. destruct (_ && _); auto. }
  destruct rs as [|r rs]; [change (zlen []) with 0 in Hr; lia|].
  apply Forall_cons in Hf as [Hr0 Hf]. rewrite zlen_cons in Hr.
  destruct (some_loop_ok st d' m c mask (Z.to_nat (uwrap 32 (c * 10)))
    (SomeKeys (Z.land r mask) 0 [] rs) Hd' Hmask) as (s & -> & Hs).
  { split_and!; simpl; [apply Z.land_nonneg; auto|change (zlen []) with 0; lia|by intros p ?%not_elem_of_nil|].
    split; [done|lia]. }
  cbn [mbind option_bind]. destruct Hs as (_ & Hle & Hin & _). exists d', (des s). split_and!; try done; lia.
Qed.
End Sample.

(** ** Witnesses *)
Lemma dictNext_complete_witness :
  ∃ iter' d', iterate size (S (length (ptrs half.2))) dictGetSafeIterator half.2 = Some (ptrs half.2, iter', d') ∧
    iterators d' = 1 ∧ dictReleaseIterator size iter' d' = Some half.2 ∧ length (ptrs half.2) = 6%nat.
Proof.
  destruct (dictNext_complete size half.1 half.2 _ dictGetSafeIterator half_ok (or_intror eq_refl))
    as (iter' & d' & Hrun & Hit & Hrel).
  exists iter', d'. split; [exact Hrun|]. split; [rewrite Hit; by vm_compute|]. split; [exact Hrel|by vm_compute].
Defined.

Lemma dictGetSomeKeys_bounds_witness :
  ∃ d' ps, dictGetSomeKeys half.1 half.2 3 (replicate 61 5) = Some (d', ps) ∧ zlen ps ≤ 3 ∧
    ∀ p, p ∈ ps → p ∈ ptrs d'.
Proof.
  destruct (dictGetSomeKeys_bounds half.1 half.2 _ 3 (replicate 61 5) half_ok) as (d' & ps & Hrun & _ & Hle & _ & Hin).
  - lia.
  - split; [apply Forall_replicate; lia|by vm_compute].
  - exists d', ps. split; [exact Hrun|]. split; [exact Hle|exact Hin].
Defined.
