(* ===== verification/Sds.v ===== *)
(** * sds.c: dynamic strings

    An sds is a pointer into a block: the header is before it, with the length
    and the allocated size in 1, 2, 4 or 8 bytes (or the length alone in the flag
    byte, type 5), the string and a NUL after it.  [blk] is the whole allocation
    and [base] the offset of the pointer, so that [s[i]] is the byte at
    [base + i].  Allocation does not fail ([zmalloc] aborts). *)

From stdpp Require Import list.
From S2P Require Import Prelude.
From S2P Require Import Mem.
From S2P Require Import Util.

Module Sds.

Definition SDS_MAX_PREALLOC : Z := 1048576.
Definition SDS_TYPE_5 : Z := 0.
Definition SDS_TYPE_8 : Z := 1.
Definition SDS_TYPE_16 : Z := 2.
Definition SDS_TYPE_32 : Z := 3.
Definition SDS_TYPE_64 : Z := 4.
Definition SDS_TYPE_MASK : Z := 7.
Definition SDS_TYPE_BITS : Z := 3.
Definition SDS_TYPE_5_LEN (f : Z) : Z := Z.shiftr f SDS_TYPE_BITS.

Record sds := Sds { blk : bytes; base : Z }.

Definition peek (s : sds) (i n : Z) : option bytes := load (blk s) (base s + i) n.
Definition poke (s : sds) (i : Z) (bs : bytes) : option sds :=
  b ← store (blk s) (base s + i) bs; Some (Sds b (base s)).
Definition peek1 (s : sds) (i : Z) : option Z := load1 (blk s) (base s + i).

(** The flag byte, [s[-1]]. *)
Definition flags (s : sds) : option Z := peek1 s (-1).

(** The packed structures sdshdr8 to sdshdr64: two fields of [w] bytes and the
    flags before the string. *)
Definition hdr_width (type : Z) : option Z :=
  if type =? SDS_TYPE_8 then Some 1
  else if type =? SDS_TYPE_16 then Some 2
  else if type =? SDS_TYPE_32 then Some 4
  else if type =? SDS_TYPE_64 then Some 8
  else None.

Definition hdr_len (w : Z) (s : sds) : option Z := le_combine <$> peek s (- (2 * w + 1)) w.
Definition hdr_alloc (w : Z) (s : sds) : option Z := le_combine <$> peek s (- (w + 1)) w.
Definition set_hdr_len (w : Z) (s : sds) (n : Z) : option sds :=
  poke s (- (2 * w + 1)) (le_split (Z.to_nat w) n).
Definition set_hdr_alloc (w : Z) (s : sds) (n : Z) : option sds :=
  poke s (- (w + 1)) (le_split (Z.to_nat w) n).

Definition sdslen (s : sds) : option Z :=
  f ← flags s;
  let type := Z.land f SDS_TYPE_MASK in
  if type =? SDS_TYPE_5 then Some (SDS_TYPE_5_LEN f)
  else match hdr_width type with Some w => hdr_len w s | None => Some 0 end.

(** The fields of 8 and 16 bits are subtracted as [int]. *)
Definition sdsavail (s : sds) : option Z :=
  f ← flags s;
  let type := Z.land f SDS_TYPE_MASK in
  if type =? SDS_TYPE_5 then Some 0
  else
    match hdr_width type with
    | Some w =>
        len ← hdr_len w s;
        alloc ← hdr_alloc w s;
        Some (if w =? 4 then uwrap 32 (alloc - len) else uwrap 64 (alloc - len))
    | None => Some 0
    end.

Definition sdssetlen (s : sds) (newlen : Z) : option sds :=
  f ← flags s;
  let type := Z.land f SDS_TYPE_MASK in
  if type =? SDS_TYPE_5
  then poke s (-1) [uwrap 8 (Z.lor SDS_TYPE_5 (Z.shiftl newlen SDS_TYPE_BITS))]
  else match hdr_width type with Some w => set_hdr_len w s newlen | None => Some s end.

Definition sdsalloc (s : sds) : option Z :=
  f ← flags s;
  let type := Z.land f SDS_TYPE_MASK in
  if type =? SDS_TYPE_5 then Some (SDS_TYPE_5_LEN f)
  else match hdr_width type with Some w => hdr_alloc w s | None => Some 0 end.

Definition sdssetalloc (s : sds) (newlen : Z) : option sds :=
  f ← flags s;
  let type := Z.land f SDS_TYPE_MASK in
  if type =? SDS_TYPE_5 then Some s
  else match hdr_width type with Some w => set_hdr_alloc w s newlen | None => Some s end.

Definition sdsHdrSize (type : Z) : Z :=
  let type := Z.land type SDS_TYPE_MASK in
  if type =? SDS_TYPE_5 then 1
  else match hdr_width type with Some w => 2 * w + 1 | None => 0 end.

Definition sdsReqType (string_size : Z) : Z :=
  if string_size <? Z.shiftl 1 5 then SDS_TYPE_5
  else if string_size <? Z.shiftl 1 8 then SDS_TYPE_8
  else if string_size <? Z.shiftl 1 16 then SDS_TYPE_16
  else if string_size <? Z.shiftl 1 32 then SDS_TYPE_32
  else SDS_TYPE_64.

Section Sds.
Context `{Alloc}.

(** [init] is [None] for NULL. *)
Definition sdsnewlen (init : option bytes) (initlen : Z) : option sds :=
  let type := sdsReqType initlen in
  let type := if (type =? SDS_TYPE_5) && (initlen =? 0) then SDS_TYPE_8 else type in
  let hdrlen := sdsHdrSize type in
  let sh := zmalloc (uwrap 64 (hdrlen + initlen + 1)) in
  let sh := match init with None => replicate (length sh) 0 | Some _ => sh end in
  let s := Sds sh hdrlen in
  s ← (if type =? SDS_TYPE_5
       then poke s (-1) [uwrap 8 (Z.lor type (Z.shiftl initlen SDS_TYPE_BITS))]
       else
         match hdr_width type with
         | Some w =>
             s ← set_hdr_len w s initlen;
             s ← set_hdr_alloc w s initlen;
             poke s (-1) [type]
         | None => Some s
         end);
  s ← match init with
      | Some t => if negb (initlen =? 0) then t ← load t 0 initlen; poke s 0 t else Some s
      | None => Some s
      end;
  poke s initlen [0].

(** Reads up to the first NUL; a C string without one is read past its end. *)
Fixpoint strlen (t : bytes) : option Z :=
  match t with
  | [] => None
  | c :: t => if c =? 0 then Some 0 else n ← strlen t; Some (1 + n)
  end.

Definition sdsempty : option sds := sdsnewlen (Some [0]) 0.

Definition sdsnew (init : option bytes) : option sds :=
  initlen ← match init with None => Some 0 | Some t => strlen t end;
  sdsnewlen init initlen.

(** The bytes from the pointer to the end of the block. *)
Definition from_ptr (s : sds) : bytes := drop (Z.to_nat (base s)) (blk s).

Definition sdsdup (s : sds) : option sds :=
  len ← sdslen s;
  sdsnewlen (Some (from_ptr s)) len.

(** [reallen] is an [int]. *)
Definition sdsupdatelen (s : sds) : option sds :=
  n ← strlen (from_ptr s);
  let reallen := swrap 32 n in
  sdssetlen s (uwrap 64 reallen).

Definition sdsclear (s : sds) : option sds :=
  s ← sdssetlen s 0;
  poke s 0 [0].

Definition sdsMakeRoomFor (s : sds) (addlen : Z) : option sds :=
  avail ← sdsavail s;
  f ← flags s;
  let oldtype := Z.land f SDS_TYPE_MASK in
  if addlen <=? avail then Some s
  else
    len ← sdslen s;
    let newlen := uwrap 64 (len + addlen) in
    let newlen := if newlen <? SDS_MAX_PREALLOC then uwrap 64 (newlen * 2)
                  else uwrap 64 (newlen + SDS_MAX_PREALLOC) in
    let type := sdsReqType newlen in
    let type := if type =? SDS_TYPE_5 then SDS_TYPE_8 else type in
    let hdrlen := sdsHdrSize type in
    s ← (if oldtype =? type
         then Some (Sds (zrealloc (blk s) (uwrap 64 (hdrlen + newlen + 1))) hdrlen)
         else
           let newsh := zmalloc (uwrap 64 (hdrlen + newlen + 1)) in
           t ← peek s 0 (len + 1);
           s ← poke (Sds newsh hdrlen) 0 t;
           s ← poke s (-1) [type];
           sdssetlen s len);
    sdssetalloc s newlen.

Definition sdsRemoveFreeSpace (s : sds) : option sds :=
  f ← flags s;
  let oldtype := Z.land f SDS_TYPE_MASK in
  let oldhdrlen := sdsHdrSize oldtype in
  len ← sdslen s;
  let type := sdsReqType len in
  let hdrlen := sdsHdrSize type in
  s ← (if (oldtype =? type) || (SDS_TYPE_8 <? type)
       then Some (Sds (zrealloc (blk s) (uwrap 64 (oldhdrlen + len + 1))) oldhdrlen)
       else
         let newsh := zmalloc (uwrap 64 (hdrlen + len + 1)) in
         t ← peek s 0 (len + 1);
         s ← poke (Sds newsh hdrlen) 0 t;
         s ← poke s (-1) [type];
         sdssetlen s len);
  sdssetalloc s len.

Definition sdsAllocSize (s : sds) : option Z :=
  alloc ← sdsalloc s;
  f ← flags s;
  Some (uwrap 64 (sdsHdrSize f + alloc + 1)).

(** The assertions compare [int], [unsigned int] or 64-bit numbers by the width
    of the fields. *)
Definition sdsIncrLen (s : sds) (incr : Z) : option sds :=
  f ← flags s;
  let type := Z.land f SDS_TYPE_MASK in
  if type =? SDS_TYPE_5 then
    let oldlen := SDS_TYPE_5_LEN f in
    if ((0 <? incr) && (oldlen + incr <? 32)) || ((incr <? 0) && (uwrap 32 (- incr) <=? oldlen)) then
      s ← poke s (-1) [uwrap 8 (Z.lor SDS_TYPE_5 (Z.shiftl (oldlen + incr) SDS_TYPE_BITS))];
      poke s (oldlen + incr) [0]
    else None
  else
    match hdr_width type with
    | Some w =>
        len ← hdr_len w s;
        alloc ← hdr_alloc w s;
        let free := if w =? 4 then uwrap 32 (alloc - len) else if w =? 8 then uwrap 64 (alloc - len) else alloc - len in
        let neg := if w =? 8 then uwrap 64 (- incr) else uwrap 32 (- incr) in
        if ((0 <=? incr) && (incr <=? free)) || ((incr <? 0) && (neg <=? len)) then
          let newlen := uwrap (8 * w) (len + incr) in
          s ← set_hdr_len w s newlen;
          poke s newlen [0]
        else None
    | None => poke s 0 [0]
    end.

Definition sdsgrowzero (s : sds) (len : Z) : option sds :=
  curlen ← sdslen s;
  if len <=? curlen then Some s
  else
    s ← sdsMakeRoomFor s (len - curlen);
    s ← poke s curlen (replicate (Z.to_nat (len - curlen + 1)) 0);
    sdssetlen s len.

(** ** Appending and copying *)
Definition sdscatlen (s : sds) (t : bytes) (len : Z) : option sds :=
  curlen ← sdslen s;
  s ← sdsMakeRoomFor s len;
  t ← load t 0 len;
  s ← poke s curlen t;
  s ← sdssetlen s (uwrap 64 (curlen + len));
  poke s (curlen + len) [0].

Definition sdscat (s : sds) (t : bytes) : option sds :=
  n ← strlen t;
  sdscatlen s t n.

Definition sdscatsds (s t : sds) : option sds :=
  n ← sdslen t;
  sdscatlen s (from_ptr t) n.

Definition sdscpylen (s : sds) (t : bytes) (len : Z) : option sds :=
  alloc ← sdsalloc s;
  s ← (if alloc <? len then curlen ← sdslen s; sdsMakeRoomFor s (uwrap 64 (len - curlen)) else Some s);
  t ← load t 0 len;
  s ← poke s 0 t;
  s ← poke s len [0];
  sdssetlen s len.

Definition sdscpy (s : sds) (t : bytes) : option sds :=
  n ← strlen t;
  sdscpylen s t n.

(** ** Numbers *)
Definition SDS_LLSTR_SIZE : Z := 21.

(** The [do] loop: the digits, the last one first. *)
Fixpoint rev_digits (fuel : nat) (v : Z) : option bytes :=
  match fuel with
  | O => None
  | S fuel =>
      let c := Util.ch_0 + v mod 10 in
      let v := v / 10 in
      if v =? 0 then Some [c] else l ← rev_digits fuel v; Some (c :: l)
  end.

(** Swaps from both ends: [i] and [j] are [s] and [p]. *)
Fixpoint swap_loop (fuel : nat) (buf : bytes) (i j : Z) : option bytes :=
  match fuel with
  | O => None
  | S fuel =>
      if i <? j then
        aux ← load1 buf i;
        c ← load1 buf j;
        buf ← store buf i [c];
        buf ← store buf j [aux];
        swap_loop fuel buf (i + 1) (j - 1)
      else Some buf
  end.

(** The part after the digits, shared by the two functions. *)
Definition finish_ll (buf : bytes) (ds : bytes) : option (bytes * Z) :=
  let l := zlen ds in
  buf ← store buf 0 ds;
  buf ← store buf l [0];
  buf ← swap_loop (length ds) buf 0 (l - 1);
  Some (buf, l).

(** [-value] wraps for LLONG_MIN. *)
Definition sdsll2str (buf : bytes) (value : Z) : option (bytes * Z) :=
  let v := if value <? 0 then uwrap 64 (- value) else value in
  ds ← rev_digits 20 v;
  finish_ll buf (if value <? 0 then ds ++ [Util.ch_minus] else ds).

Definition sdsull2str (buf : bytes) (v : Z) : option (bytes * Z) :=
  ds ← rev_digits 20 v;
  finish_ll buf ds.

Definition sdsfromlonglong (value : Z) : option sds :=
  '(buf, len) ← sdsll2str (zmalloc SDS_LLSTR_SIZE) value;
  sdsnewlen (Some buf) len.

(** ** Modifying *)
(** strchr(3) != NULL on the block of a C string: the bytes up to the first NUL are
    searched, and that NUL is found too; [None] past the end of the block. *)
Fixpoint strchr (cset : bytes) (c : Z) : option bool :=
  match cset with
  | [] => None
  | x :: cset => if x =? c then Some true else if x =? 0 then Some false else strchr cset c
  end.

(** [while(sp <= end && strchr(cset, *sp)) sp++;] *)
Fixpoint trim_left (fuel : nat) (s : sds) (cset : bytes) (sp stop : Z) : option Z :=
  match fuel with
  | O => None
  | S fuel =>
      if sp <=? stop then
        c ← peek1 s sp;
        found ← strchr cset c;
        if found : bool then trim_left fuel s cset (sp + 1) stop else Some sp
      else Some sp
  end.

(** [while(ep > sp && strchr(cset, *ep)) ep--;] *)
Fixpoint trim_right (fuel : nat) (s : sds) (cset : bytes) (sp ep : Z) : option Z :=
  match fuel with
  | O => None
  | S fuel =>
      if sp <? ep then
        c ← peek1 s ep;
        found ← strchr cset c;
        if found : bool then trim_right fuel s cset sp (ep - 1) else Some ep
      else Some ep
  end.

Definition move_down (s : sds) (from n : Z) : option sds :=
  b ← memmove (blk s) (base s) (base s + from) n; Some (Sds b (base s)).

Definition sdstrim (s : sds) (cset : bytes) : option sds :=
  n ← sdslen s;
  let stop := n - 1 in
  sp ← trim_left (S (Z.to_nat n)) s cset 0 stop;
  ep ← trim_right (S (Z.to_nat n)) s cset sp stop;
  let len := if ep <? sp then 0 else ep - sp + 1 in
  s ← (if negb (sp =? 0) then move_down s sp len else Some s);
  s ← poke s len [0];
  sdssetlen s len.

(** [start], [end] and the differences are [int]; [len] is a [size_t].  The sum in
    [(end-start)+1] that does not fit in an [int] is undefined: [None]. *)
Definition sdsrange (s : sds) (start stop : Z) : option sds :=
  len ← sdslen s;
  if len =? 0 then Some s
  else
    let start := if start <? 0 then
                   let start := swrap 32 (len + start) in if start <? 0 then 0 else start
                 else start in
    let stop := if stop <? 0 then
                  let stop := swrap 32 (len + stop) in if stop <? 0 then 0 else stop
                else stop in
    let span := λ stop, if stop <? start then Some 0
                        else if stop - start + 1 <? 2 ^ 31 then Some (uwrap 64 (stop - start + 1)) else None in
    newlen ← span stop;
    '(start, newlen) ← (
      if negb (newlen =? 0) then
        if swrap 32 len <=? start then Some (start, 0)
        else if swrap 32 len <=? stop then newlen ← span (swrap 32 (len - 1)); Some (start, newlen)
        else Some (start, newlen)
      else Some (0, newlen));
    s ← (if negb (start =? 0) && negb (newlen =? 0) then move_down s start newlen else Some s);
    s ← poke s newlen [0];
    sdssetlen s newlen.

(** tolower(3) and toupper(3) in the C locale. *)
Definition tolower (c : Z) : Z := if (65 <=? c) && (c <=? 90) then c + 32 else c.
Definition toupper (c : Z) : Z := if (97 <=? c) && (c <=? 122) then c - 32 else c.

(** [for (j = 0; j < len; j++) s[j] = f(s[j]);] *)
Fixpoint map_loop (f : Z → Z) (n : nat) (s : sds) (j : Z) : option sds :=
  match n with
  | O => Some s
  | S n =>
      c ← peek1 s j;
      s ← poke s j [f c];
      map_loop f n s (j + 1)
  end.

(** [len] is an [int]. *)
Definition sdstolower (s : sds) : option sds :=
  len ← sdslen s; map_loop tolower (Z.to_nat (swrap 32 len)) s 0.
Definition sdstoupper (s : sds) : option sds :=
  len ← sdslen s; map_loop toupper (Z.to_nat (swrap 32 len)) s 0.

(** The inner loop: the first match in [from]. *)
Fixpoint mapchar (from to : bytes) (c : Z) : Z :=
  match from, to with
  | x :: from, y :: to => if c =? x then y else mapchar from to c
  | _, _ => c
  end.

Definition sdsmapchars (s : sds) (from to : bytes) (setlen : Z) : option sds :=
  l ← sdslen s;
  from ← load from 0 setlen;
  to ← load to 0 setlen;
  map_loop (mapchar from to) (Z.to_nat l) s 0.

(** memcmp(3): the first difference. *)
Fixpoint memcmp (a b : bytes) : Z :=
  match a, b with
  | x :: a, y :: b => if x =? y then memcmp a b else x - y
  | _, _ => 0
  end.

Definition sdscmp (s1 s2 : sds) : option Z :=
  l1 ← sdslen s1;
  l2 ← sdslen s2;
  let minlen := if l1 <? l2 then l1 else l2 in
  a ← peek s1 0 minlen;
  b ← peek s2 0 minlen;
  let cmp := memcmp a b in
  Some (if cmp =? 0 then swrap 32 (l1 - l2) else cmp).

(** [argc] is the length of the array. *)
Fixpoint join_loop (join : sds) (argv : list sds) (sep : bytes) : option sds :=
  match argv with
  | [] => Some join
  | a :: rest =>
      join ← sdscatsds join a;
      join ← match rest with [] => Some join | _ => sdscatlen join sep (zlen sep) end;
      join_loop join rest sep
  end.

Definition sdsjoinsds (argv : list sds) (sep : bytes) : option sds :=
  join ← sdsempty;
  join_loop join argv sep.
End Sds.
End Sds.
