(* ===== verification/Glob.v ===== *)
(** * util.c: glob-style patterns

    [stringmatchlen], which KEYS, SCAN, PSUBSCRIBE and CONFIG GET use, over the blocks
    of the pattern and of the string with their terminators, and what a pattern means:
    a sequence of tokens.  A read outside a block gives [None]. *)

From Stdlib Require Import String.
From S2P Require Import Prelude.
From S2P Require Import Mem.
From S2P Require Import Sds.

Module Glob.

(** [char] is signed. *)
Definition schar (b : Z) : Z := swrap 8 b.

Definition ch_star : Z := 42.
Definition ch_question : Z := 63.
Definition ch_open : Z := 91.
Definition ch_backslash : Z := 92.
Definition ch_close : Z := 93.
Definition ch_caret : Z := 94.
Definition ch_minus : Z := 45.

(** Equality of two characters, without their case if [nocase]. *)
Definition same (nocase : bool) (a b : Z) : bool :=
  if nocase then Sds.tolower (schar a) =? Sds.tolower (schar b) else a =? b.

Definition in_range (nocase : bool) (a b x : Z) : bool :=
  let start := schar a in let stop := schar b in let c := schar x in
  let '(start, stop) := if start >? stop then (stop, start) else (start, stop) in
  let '(start, stop, c) := if nocase then (Sds.tolower start, Sds.tolower stop, Sds.tolower c) else (start, stop, c) in
  (start <=? c) && (c <=? stop).

Section Glob.
Context (pattern string : bytes) (nocase : bool).

(** [while(1)] of a class: [p] and [patternLen] are left at the bracket that closes it,
    or at the last character of the pattern. *)
Fixpoint class_loop (fuel : nat) (p patternLen s : Z) (mtch : bool) : option (Z * Z * bool) :=
  match fuel with
  | O => None
  | S fuel =>
      c0 ← load1 pattern p;
      if c0 =? ch_backslash then
        let p := p + 1 in let patternLen := patternLen - 1 in
        c ← load1 pattern p; x ← load1 string s;
        class_loop fuel (p + 1) (patternLen - 1) s (mtch || (c =? x))
      else if c0 =? ch_close then Some (p, patternLen, mtch)
      else if patternLen =? 0 then Some (p - 1, patternLen + 1, mtch)
      else
        c1 ← load1 pattern (p + 1);
        if (c1 =? ch_minus) && (3 <=? patternLen) then
          c2 ← load1 pattern (p + 2); x ← load1 string s;
          class_loop fuel (p + 2 + 1) (patternLen - 2 - 1) s (mtch || in_range nocase c0 c2 x)
        else
          x ← load1 string s;
          class_loop fuel (p + 1) (patternLen - 1) s (mtch || same nocase c0 x)
  end.

(** [while (pattern[k] == '*')] for k = 1 after a star and k = 0 at the end. *)
Fixpoint skip_stars (fuel : nat) (k p patternLen : Z) : option (Z * Z) :=
  match fuel with
  | O => None
  | S fuel =>
      c ← load1 pattern (p + k);
      if c =? ch_star then skip_stars fuel k (p + 1) (patternLen - 1) else Some (p, patternLen)
  end.

(** [while(stringLen)] after a star; [rec] is the call on the rest of the pattern. *)
Fixpoint star_loop (rec : Z → Z → option bool) (fuel : nat) (s stringLen : Z) : option bool :=
  match fuel with
  | O => None
  | S fuel =>
      if stringLen =? 0 then Some false else
      r ← rec s stringLen;
      if (r : bool) then Some true else star_loop rec fuel (s + 1) (stringLen - 1)
  end.

(** A class: where the pattern goes on, and whether the character is in it. *)
Definition match_class (fuel : nat) (p patternLen s : Z) : option (Z * Z * bool) :=
  let p := p + 1 in let patternLen := patternLen - 1 in
  c ← load1 pattern p;
  let not := c =? ch_caret in
  let '(p, patternLen) := if not then (p + 1, patternLen - 1) else (p, patternLen) in
  '(p, patternLen, mtch) ← class_loop fuel p patternLen s false;
  Some (p, patternLen, if not then negb mtch else mtch).

(** One character of the string against one element of the pattern that is not a
    star: [None] inside means no match. *)
Definition match_one (fuel : nat) (c0 p patternLen s stringLen : Z) : option (option (Z * Z)) :=
  if c0 =? ch_question then Some (if stringLen =? 0 then None else Some (p, patternLen)) else
  if c0 =? ch_open then
    '(p, patternLen, mtch) ← match_class fuel p patternLen s;
    Some (if mtch : bool then Some (p, patternLen) else None)
  else
    let '(p, patternLen) := if (c0 =? ch_backslash) && (2 <=? patternLen) then (p + 1, patternLen - 1) else (p, patternLen) in
    c ← load1 pattern p; x ← load1 string s;
    Some (if same nocase c x then Some (p, patternLen) else None).

Fixpoint matchlen (fuel : nat) (p patternLen s stringLen : Z) : option bool :=
  match fuel with
  | O => None
  | S fuel =>
      if patternLen =? 0 then Some (stringLen =? 0) else
      c0 ← load1 pattern p;
      if c0 =? ch_star then
        '(p, patternLen) ← skip_stars (length pattern) 1 p patternLen;
        if patternLen =? 1 then Some true
        else star_loop (matchlen fuel (p + 1) (patternLen - 1)) (S (Z.to_nat (Z.abs stringLen))) s stringLen
      else
        next ← match_one (S (length pattern)) c0 p patternLen s stringLen;
        match next with
        | None => Some false
        | Some (p, patternLen) =>
            let s := s + 1 in let stringLen := stringLen - 1 in
            let p := p + 1 in let patternLen := patternLen - 1 in
            if stringLen =? 0 then
              '(p, patternLen) ← skip_stars (length pattern) 0 p patternLen;
              Some ((patternLen =? 0) && (stringLen =? 0))
            else matchlen fuel p patternLen s stringLen
        end
  end.
End Glob.

Definition stringmatchlen (pattern : bytes) (patternLen : Z) (string : bytes) (stringLen : Z) (nocase : bool) : option bool :=
  matchlen pattern string nocase (S (Z.to_nat patternLen)) 0 patternLen 0 stringLen.

Definition stringmatch (pattern string : bytes) (nocase : bool) : option bool :=
  patternLen ← Sds.strlen pattern; stringLen ← Sds.strlen string;
  stringmatchlen pattern patternLen string stringLen nocase.
End Glob.

(** * What a glob pattern means

    A pattern is a sequence of tokens, [parse] reads them, and [matches] says which
    strings they describe.  [stringmatchlen_correct] shows that the matcher answers for
    every pattern that can be parsed; the findings are the patterns and the empty strings
    on which it does not. *)

#[local] Notation length := Datatypes.length.

Module GlobSpec.
Import Glob.

Inductive item := One (c : Z) | Esc (c : Z) | Range (a b : Z).

Inductive token := TStar | TAny | TClass (neg : bool) (items : list item) | TChar (c : Z).

(** The items of a class up to its closing bracket, or to the end of the pattern; a
    class that ends in a backslash is not one. *)
Fixpoint parse_items (l : bytes) : option (list item * bytes) :=
  match l with
  | [] => Some ([], [])
  | c :: l1 =>
      if c =? ch_backslash then
        match l1 with
        | [] => None
        | d :: l2 => '(its, rest) ← parse_items l2; Some (Esc d :: its, rest)
        end
      else if c =? ch_close then Some ([], l1)
      else
        let one := '(its, rest) ← parse_items l1; Some (One c :: its, rest) in
        match l1 with
        | d :: b :: l3 =>
            if d =? ch_minus then '(its, rest) ← parse_items l3; Some (Range c b :: its, rest) else one
        | _ => one
        end
  end.

Definition parse_class (l : bytes) : option (token * bytes) :=
  match l with
  | c :: l1 =>
      if c =? ch_caret then '(its, rest) ← parse_items l1; Some (TClass true its, rest)
      else '(its, rest) ← parse_items (c :: l1); Some (TClass false its, rest)
  | [] => Some (TClass false [], [])
  end.

(** One token that is not a star. *)
Definition parse_one (c : Z) (l : bytes) : option (token * bytes) :=
  if c =? ch_question then Some (TAny, l)
  else if c =? ch_open then parse_class l
  else if c =? ch_backslash then
    match l with [] => Some (TChar c, []) | d :: l => Some (TChar d, l) end
  else Some (TChar c, l).

Fixpoint parse_fuel (fuel : nat) (l : bytes) : option (list token) :=
  match l, fuel with
  | [], _ => Some []
  | _, O => None
  | c :: l, S fuel =>
      if c =? ch_star then ts ← parse_fuel fuel l; Some (TStar :: ts)
      else '(t, rest) ← parse_one c l; ts ← parse_fuel fuel rest; Some (t :: ts)
  end.

Definition parse (l : bytes) : option (list token) := parse_fuel (length l) l.

(** A range holds the characters between its two ends, in either order. *)
Definition item_has (nocase : bool) (x : Z) (i : item) : bool :=
  let fold c := if nocase then Sds.tolower c else c in
  match i with
  | One c => same nocase c x
  | Esc c => c =? x
  | Range a b => (fold (Z.min (schar a) (schar b)) <=? fold (schar x)) && (fold (schar x) <=? fold (Z.max (schar a) (schar b)))
  end.

Lemma glob_range_ok nocase a b x : in_range nocase a b x = item_has nocase x (Range a b).
Proof.
  unfold in_range, item_has. rewrite Z.gtb_ltb. destruct (Z.ltb_spec (schar b) (schar a)).
  - rewrite (Z.min_r (schar a)), (Z.max_l (schar a)) by lia. by destruct nocase.
  - rewrite (Z.min_l (schar a)), (Z.max_r (schar a)) by lia. by destruct nocase.
Qed.

(** The characters a token other than a star stands for. *)
Definition token_has (nocase : bool) (t : token) (x : Z) : bool :=
  match t with
  | TStar => false
  | TAny => true
  | TClass neg items => xorb neg (existsb (item_has nocase x) items)
  | TChar c => same nocase c x
  end.

Inductive matches (nocase : bool) : list token → bytes → Prop :=
| matches_nil : matches nocase [] []
| matches_star ts s1 s2 : matches nocase ts s2 → matches nocase (TStar :: ts) (s1 ++ s2)
| matches_one t ts x s :
    token_has nocase t x = true → matches nocase ts s → matches nocase (t :: ts) (x :: s).

(** What the first token of a pattern must not be when the string is empty. *)
Definition empty_safe (nocase : bool) (ts : list token) : bool :=
  match ts with
  | TClass _ _ :: _ => false
  | TChar c :: _ => negb (same nocase c 0)
  | _ => true
  end.

(** ** Parsing *)

Lemma parse_items_shorter_aux (n : nat) l its rest :
  (length l ≤ n)%nat → parse_items l = Some (its, rest) → (length rest ≤ length l)%nat.
Proof.
  revert l its rest. induction n as [|n IH]; intros l its rest Hn H.
  { destruct l; [|simpl in Hn; lia]. simpl in H. by simplify_eq. }
  destruct l as [|c l1]; [simpl in H; by simplify_eq|]. simpl in H, Hn |- *.
  assert (Hrec : ∀ l2 (i : item), (length l2 ≤ length l1)%nat →
    ('(its, rest) ← parse_items l2; Some (i :: its, rest)) = Some (its, rest) → (length rest ≤ S (length l1))%nat).
  { intros l2 i Hl. destruct (parse_items l2) as [[is2 r2]|] eqn:E; [|done]. cbn [mbind option_bind].
    intros [= <- <-]. apply IH in E; lia. }
  destruct (c =? ch_backslash).
  { destruct l1 as [|d l2]; [done|]. eapply Hrec; [|exact H]. simpl. lia. }
  destruct (c =? ch_close); [simplify_eq; lia|].
  destruct l1 as [|d [|b l3]]; [by eapply Hrec; [|exact H]..|].
  destruct (d =? ch_minus); (eapply Hrec; [|exact H]); simpl; lia.
Qed.

Lemma parse_class_inv l t rest :
  parse_class l = Some (t, rest) →
  ∃ neg its l', t = TClass neg its ∧ (l' = l ∨ ∃ c, l = c :: l') ∧ parse_items l' = Some (its, rest).
Proof.
  unfold parse_class. destruct l as [|c l]; [intros [= <- <-]; exists false, [], []; eauto|].
  destruct (c =? ch_caret).
  - destruct (parse_items l) as [[its r]|] eqn:E; [|done]. intros [= <- <-]. exists true, its, l. eauto.
  - destruct (parse_items (c :: l)) as [[its r]|] eqn:E; [|done]. intros [= <- <-]. exists false, its, (c :: l). eauto.
Qed.

Lemma parse_one_shorter c l t rest : parse_one c l = Some (t, rest) → (length rest ≤ length l)%nat.
Proof.
  unfold parse_one. intros H. destruct (c =? ch_question); [by simplify_eq|].
  destruct (c =? ch_open).
  - apply parse_class_inv in H as (neg & its & l' & -> & Hl & H).
    apply (parse_items_shorter_aux _ _ _ _ (le_n _)) in H. destruct Hl as [->|[d ->]]; simpl; lia.
  - destruct (c =? ch_backslash), l; simplify_eq/=; lia.
Qed.

Lemma parse_fuel_mono (f f' : nat) l ts :
  (length l ≤ f')%nat → parse_fuel f l = Some ts → parse_fuel f' l = Some ts.
Proof.
  revert f' l ts. induction f as [|f IH]; intros f' l ts Hf H; destruct l as [|c l]; simpl in H; try done.
  { destruct f'; by simplify_eq/=. }
  { destruct f'; by simplify_eq/=. }
  destruct f' as [|f']; simpl in Hf; [lia|]. simpl. destruct (c =? ch_star).
  - destruct (parse_fuel f l) as [us|] eqn:E; [|done]. by rewrite (IH f' l us) by (done || lia).
  - destruct (parse_one c l) as [[t rest]|] eqn:Eo; [|done]. cbn [mbind option_bind] in *.
    destruct (parse_fuel f rest) as [us|] eqn:E; [|done]. pose proof (parse_one_shorter _ _ _ _ Eo).
    by rewrite (IH f' rest us) by (done || lia).
Qed.

Lemma parse_nil_inv ts : parse [] = Some ts → ts = [].
Proof. by intros [= <-]. Qed.

Lemma parse_star_inv l ts : parse (ch_star :: l) = Some ts → ∃ us, ts = TStar :: us ∧ parse l = Some us.
Proof.
  unfold parse. simpl. destruct (parse_fuel _ l) as [us|] eqn:E; [|done]. intros [= <-]. eauto.
Qed.

Lemma parse_one_inv c l ts :
  c ≠ ch_star → parse (c :: l) = Some ts →
  ∃ t us rest, ts = t :: us ∧ parse_one c l = Some (t, rest) ∧ parse rest = Some us.
Proof.
  intros Hc. unfold parse. simpl. destruct (Z.eqb_spec c ch_star); [done|].
  destruct (parse_one c l) as [[t rest]|] eqn:Eo; [|done]. cbn [mbind option_bind].
  destruct (parse_fuel _ rest) as [us|] eqn:E; [|done]. intros [= <-].
  exists t, us, rest. split; [done|]. split; [done|]. by eapply parse_fuel_mono; [|exact E].
Qed.

Lemma parse_one_not_star c l t rest : parse_one c l = Some (t, rest) → t ≠ TStar.
Proof.
  unfold parse_one. intros H. destruct (c =? ch_question); [by simplify_eq|].
  destruct (c =? ch_open); [by apply parse_class_inv in H as (neg & its & l' & -> & _)|].
  by destruct (c =? ch_backslash), l; simplify_eq/=.
Qed.

(** ** What the tokens match *)

Lemma matches_star_inv nocase ts s :
  matches nocase (TStar :: ts) s ↔ ∃ s1 s2, s = s1 ++ s2 ∧ matches nocase ts s2.
Proof.
  split; [|intros (s1 & s2 & -> & H); by constructor].
  intros H. inversion H; subst; [by eauto|done].
Qed.

Lemma matches_one_inv nocase t ts s :
  t ≠ TStar → matches nocase (t :: ts) s ↔ ∃ x s', s = x :: s' ∧ token_has nocase t x = true ∧ matches nocase ts s'.
Proof.
  intros Ht. split; [|intros (x & s' & -> & ? & ?); by constructor].
  intros H. inversion H; subst; [done|eauto].
Qed.

Lemma matches_nil_inv nocase s : matches nocase [] s ↔ s = [].
Proof. split; [by inversion 1|intros ->; constructor]. Qed.

Lemma matches_star_star nocase ts s : matches nocase (TStar :: TStar :: ts) s ↔ matches nocase (TStar :: ts) s.
Proof.
  rewrite !matches_star_inv. split.
  - intros (s1 & s2 & -> & (s3 & s4 & -> & H)%matches_star_inv). exists (s1 ++ s3), s4. by rewrite <-app_assoc.
  - intros (s1 & s2 & -> & H). exists s1, s2. split; [done|]. apply matches_star_inv. by exists [], s2.
Qed.

Lemma matches_star_cons nocase ts x s :
  matches nocase (TStar :: ts) (x :: s) ↔ matches nocase ts (x :: s) ∨ matches nocase (TStar :: ts) s.
Proof.
  rewrite !matches_star_inv. split.
  - intros ([|y s1] & s2 & E & H); simplify_eq/=; [by left|]. right. eauto.
  - intros [H|(s1 & s2 & -> & H)]; [by exists [], (x :: s)|by exists (x :: s1), s2].
Qed.

(** ** Leading stars *)

Fixpoint strip (l : bytes) : bytes :=
  match l with [] => [] | c :: l' => if c =? ch_star then strip l' else l end.

Lemma strip_length l : (length (strip l) ≤ length l)%nat ∧ zlen (strip l) ≤ zlen l.
Proof. unfold zlen. induction l as [|c l IH]; simpl; [lia|]. destruct (c =? ch_star); simpl; lia. Qed.

Lemma strip_star l : strip (ch_star :: l) = strip l.
Proof. done. Qed.

Lemma parse_strip l ts :
  parse l = Some ts →
  ∃ us, parse (strip l) = Some us ∧ (∀ nocase s, matches nocase (TStar :: ts) s ↔ matches nocase (TStar :: us) s) ∧
    ((strip l = [] ∧ us = []) ∨ ∃ t us', us = t :: us' ∧ t ≠ TStar ∧ strip l ≠ []).
Proof.
  revert ts. induction l as [|c l IH]; intros ts H.
  { apply parse_nil_inv in H as ->. exists []. eauto. }
  cbn [strip]. destruct (Z.eqb_spec c ch_star) as [->|Hc].
  - apply parse_star_inv in H as (us & -> & Hus). destruct (IH us Hus) as (vs & Hvs & Heq & Hv).
    exists vs. split; [done|]. split; [|done]. intros nocase s. rewrite matches_star_star. apply Heq.
  - exists ts. split; [done|]. split; [done|]. right.
    apply parse_one_inv in H as (t & us & rest & -> & Ho & _); [|done]. apply parse_one_not_star in Ho. eauto.
Qed.

Lemma parse_strip_nil nocase l ts : parse l = Some ts → matches nocase ts [] ↔ strip l = [].
Proof.
  revert ts. induction l as [|c l IH]; intros ts H.
  { apply parse_nil_inv in H as ->. by rewrite matches_nil_inv. }
  cbn [strip]. destruct (Z.eqb_spec c ch_star) as [->|Hc].
  - apply parse_star_inv in H as (us & -> & Hus). rewrite <-(IH us Hus), matches_star_inv. split.
    + by intros (s1 & s2 & [-> ->]%symmetry%app_nil & ?).
    + intros Hm. by exists [], [].
  - apply parse_one_inv in H as (t & us & rest & -> & Ho & _); [|done]. apply parse_one_not_star in Ho.
    rewrite matches_one_inv by done. split; [by intros (? & ? & ? & _)|done].
Qed.

(** ** Positions in a terminated block *)

Lemma zlen_zero {A} (l : list A) : zlen l = 0 ↔ l = [].
Proof. split; [apply zlen_0_nil|by intros ->]. Qed.

Definition At (m : bytes) (p : Z) (l : bytes) : Prop := ∃ pre, m = pre ++ l ++ [0] ∧ p = zlen pre.

(** The character at a position: the terminator after the last one. *)
Definition hd0 (l : bytes) : Z := match l with [] => 0 | x :: _ => x end.

Lemma At_start l : At (l ++ [0]) 0 l.
Proof. by exists []. Qed.

Lemma At_next m p x l : At m p (x :: l) → At m (p + 1) l.
Proof. intros (pre & -> & ->). exists (pre ++ [x]). rewrite <-app_assoc. split; [done|zl]. Qed.

Lemma At_load m p l : At m p l → load1 m p = Some (hd0 l).
Proof.
  intros (pre & -> & ->). destruct l as [|x l]; [by apply (load1_at _ pre [])|by apply (load1_at _ pre (l ++ [0]))].
Qed.

Lemma At_length m p l : At m p l → (length l < length m)%nat.
Proof. intros (pre & -> & ->). rewrite !length_app. simpl. lia. Qed.

(** Reads the character at the position of a hypothesis [At]. *)
Ltac reads H := rewrite (At_load _ _ _ H); cbn [mbind option_bind hd0].

Section Matcher.
Context (pattern string : bytes) (nocase : bool).

Lemma class_loop_ok (fuel : nat) l p s x m its rest :
  (length l < fuel)%nat → At pattern p l → load1 string s = Some x → parse_items l = Some (its, rest) →
  ∃ p' n', class_loop pattern string nocase fuel p (zlen l) s m
           = Some (p', n', m || existsb (item_has nocase x) its) ∧
    At pattern (p' + 1) rest ∧ n' - 1 = zlen rest.
Proof.
  intros Hf Hp Hx. revert l p m its rest Hf Hp. induction fuel as [|fuel IH]; intros l p m its rest Hf Hp Hi; [lia|].
  cbn [class_loop]. reads Hp. destruct l as [|c l1]; cbn [hd0].
  { simpl in Hi. simplify_eq. simpl. exists (p - 1), 1. replace (p - 1 + 1) with p by lia.
    rewrite orb_false_r. done. }
  assert (Hrec : ∀ l2 q n i its2 b, At pattern q l2 → n = zlen l2 → (length l2 ≤ length l1)%nat →
    parse_items l2 = Some (its2, rest) → its = i :: its2 → b = item_has nocase x i →
    ∃ p' n', class_loop pattern string nocase fuel q n s (m || b) = Some (p', n', m || existsb (item_has nocase x) its) ∧
      At pattern (p' + 1) rest ∧ n' - 1 = zlen rest).
  { intros l2 q n i its2 b Hq -> Hl H2 -> ->. simpl in Hf.
    destruct (IH l2 q (m || item_has nocase x i) its2 rest) as (p' & n' & Hc & HA & Hn); [lia|done..|].
    exists p', n'. split; [|done]. rewrite Hc. simpl. by rewrite orb_assoc. }
  pose proof (At_next _ _ _ _ Hp) as Hp1. simpl in Hi. destruct (c =? ch_backslash) eqn:Eb.
  { destruct l1 as [|d l2]; [done|]. reads Hp1. rewrite Hx. cbn [mbind option_bind].
    destruct (parse_items l2) as [[its2 r2]|] eqn:E2; [|done]. cbn [mbind option_bind] in Hi. simplify_eq.
    eapply (Hrec l2); [by eapply At_next|zl|simpl; lia|done..]. }
  destruct (c =? ch_close) eqn:Ec.
  { simplify_eq. exists p, (zlen (c :: rest)). simpl existsb. rewrite orb_false_r. split; [done|]. split; [done|zl]. }
  replace (zlen (c :: l1) =? 0) with false by (symmetry; apply Z.eqb_neq; zl). reads Hp1.
  destruct ((hd0 l1 =? ch_minus) && (3 <=? zlen (c :: l1))) eqn:Er.
  - apply andb_true_iff in Er as [Ed Hn]. apply Z.leb_le in Hn.
    destruct l1 as [|d [|b l3]]; [zl..|]. simpl in Ed. rewrite Ed in Hi.
    pose proof (At_next _ _ _ _ Hp1) as Hp2. replace (p + 1 + 1) with (p + 2) in Hp2 by lia. reads Hp2.
    rewrite Hx. cbn [mbind option_bind]. destruct (parse_items l3) as [[its2 r2]|] eqn:E3; [|done].
    cbn [mbind option_bind] in Hi. simplify_eq.
    eapply (Hrec l3); [by eapply At_next|zl|simpl; lia|done|done|apply glob_range_ok].
  - assert (Hone : ('(its, rest) ← parse_items l1; Some (One c :: its, rest)) = Some (its, rest)).
    { destruct l1 as [|d [|b l3]]; [done..|]. simpl in Er. destruct (d =? ch_minus); [|done].
      exfalso. apply Z.leb_gt in Er. zl. }
    rewrite Hx. cbn [mbind option_bind]. destruct (parse_items l1) as [[its2 r2]|] eqn:E1; [|done].
    cbn [mbind option_bind] in Hone. simplify_eq. eapply (Hrec l1); [done|zl|lia|done..].
Qed.

Lemma match_class_ok (fuel : nat) c l p s x t rest :
  (length l < fuel)%nat → At pattern p (c :: l) → load1 string s = Some x → parse_class l = Some (t, rest) →
  ∃ p' n', match_class pattern string nocase fuel p (zlen (c :: l)) s = Some (p', n', token_has nocase t x) ∧
    At pattern (p' + 1) rest ∧ n' - 1 = zlen rest.
Proof.
  intros Hf Hp Hx Hc. apply At_next in Hp. unfold match_class. reads Hp.
  replace (zlen (c :: l) - 1) with (zlen l) by zl. destruct l as [|d l]; cbn [hd0].
  - simpl in Hc. simplify_eq.
    destruct (class_loop_ok fuel [] (p + 1) s x false [] []) as (p' & n' & HL & HA & Hn); [done..|].
    exists p', n'. simpl. rewrite HL. done.
  - unfold parse_class in Hc. destruct (d =? ch_caret).
    + destruct (parse_items l) as [[its r]|] eqn:E; [|done]. cbn [mbind option_bind] in Hc. simplify_eq.
      destruct (class_loop_ok fuel l (p + 1 + 1) s x false its rest) as (p' & n' & HL & HA & Hn);
        [simpl in Hf; lia|by eapply At_next|done..|].
      replace (zlen (d :: l) - 1) with (zlen l) by zl. exists p', n'. rewrite HL. cbn [mbind option_bind token_has].
      by destruct (existsb _ _).
    + destruct (parse_items (d :: l)) as [[its r]|] eqn:E; [|done]. cbn [mbind option_bind] in Hc. simplify_eq.
      destruct (class_loop_ok fuel (d :: l) (p + 1) s x false its rest) as (p' & n' & HL & HA & Hn); [done..|].
      exists p', n'. rewrite HL. cbn [mbind option_bind token_has]. by destruct (existsb _ _).
Qed.

(** One token that is not a star against the character [x] of the string, which is
    not at its end. *)
Lemma match_one_ok (fuel : nat) c l p s n x t rest :
  (length l < fuel)%nat → At pattern p (c :: l) → load1 string s = Some x → n ≠ 0 → parse_one c l = Some (t, rest) →
  ∃ next, match_one pattern string nocase fuel c p (zlen (c :: l)) s n = Some next ∧
    if token_has nocase t x
    then ∃ p' n', next = Some (p', n') ∧ At pattern (p' + 1) rest ∧ n' - 1 = zlen rest
    else next = None.
Proof.
  intros Hf Hp Hx Hn Ho. unfold match_one. unfold parse_one in Ho. destruct (c =? ch_question) eqn:Eq.
  { simplify_eq. replace (n =? 0) with false by lia. eexists. split; [done|]. simpl.
    exists p, (zlen (c :: rest)). split; [done|]. split; [by eapply At_next|zl]. }
  destruct (c =? ch_open) eqn:Eo.
  { destruct (match_class_ok fuel c l p s x t rest) as (p' & n' & Hc & HA & Hn'); [done..|].
    rewrite Hc. cbn [mbind option_bind]. eexists. split; [done|]. destruct (token_has nocase t x); eauto. }
  assert (Hone : ∀ q m d, At pattern q (d :: rest) → m - 1 = zlen rest → t = TChar d →
    ∃ next, (c ← load1 pattern q; x ← load1 string s; Some (if same nocase c x then Some (q, m) else None)) = Some next ∧
    if token_has nocase t x
    then ∃ p' n', next = Some (p', n') ∧ At pattern (p' + 1) rest ∧ n' - 1 = zlen rest
    else next = None).
  { intros q m d Hq Hm ->. reads Hq. rewrite Hx. cbn [mbind option_bind]. eexists. split; [done|]. simpl.
    destruct (same nocase d x); [|done]. exists q, m. split; [done|]. split; [by eapply At_next|done]. }
  destruct (c =? ch_backslash); [|simplify_eq; apply (Hone p _ c); [done|zl|done]].
  destruct l as [|d l]; simplify_eq; [apply (Hone p _ c); [done|zl|done]|].
  replace (2 <=? zlen (c :: d :: rest)) with true by (symmetry; apply Z.leb_le; zl).
  apply (Hone (p + 1) _ d); [by eapply At_next|zl|done].
Qed.

(** At the end of the string no token matches but a class or the terminator. *)
Lemma match_one_empty (fuel : nat) c l p s t us rest :
  At pattern p (c :: l) → At string s [] → parse_one c l = Some (t, rest) → empty_safe nocase (t :: us) = true →
  match_one pattern string nocase fuel c p (zlen (c :: l)) s 0 = Some None.
Proof.
  intros Hp Hs Ho Hsafe. unfold match_one. unfold parse_one in Ho. destruct (c =? ch_question); [done|].
  destruct (c =? ch_open); [by apply parse_class_inv in Ho as (neg & its & l' & -> & _)|].
  assert (Hone : ∀ q d l, At pattern q (d :: l) → ∀ m, t = TChar d →
    (c ← load1 pattern q; x ← load1 string s; Some (if same nocase c x then Some (q, m : Z) else None)) = Some None).
  { intros q d l' Hq m ->. reads Hq. reads Hs. simpl in Hsafe. by destruct (same nocase d 0). }
  destruct (c =? ch_backslash); [|simplify_eq; by apply (Hone p c _ Hp)].
  destruct l as [|d l]; simplify_eq; [by apply (Hone p c _ Hp)|].
  replace (2 <=? zlen (c :: d :: rest)) with true by (symmetry; apply Z.leb_le; zl).
  by apply (Hone (p + 1) d _ (At_next _ _ _ _ Hp)).
Qed.

Lemma skip_stars_ok (fuel : nat) l k p n :
  (length l < fuel)%nat → At pattern (p + k) l →
  ∃ p', skip_stars pattern fuel k p n = Some (p', n - (zlen l - zlen (strip l))) ∧ At pattern (p' + k) (strip l).
Proof.
  revert l p n. induction fuel as [|fuel IH]; intros l p n Hf Hp; [lia|]. cbn [skip_stars]. reads Hp.
  destruct l as [|c l]; cbn [hd0 strip].
  { exists p. split; [do 2 f_equal; lia|done]. }
  destruct (c =? ch_star) eqn:Ec.
  - destruct (IH l (p + 1) (n - 1)) as (p' & Hs & HA); [simpl in Hf; lia| |].
    { replace (p + 1 + k) with (p + k + 1) by lia. by eapply At_next. }
    exists p'. rewrite Hs. split; [|done]. do 2 f_equal. zl.
  - exists p. split; [do 2 f_equal; lia|done].
Qed.

Lemma star_loop_ok rec us (fuel : nat) str s :
  (∀ str s, str ≠ [] → At string s str →
    ∃ b, rec s (zlen str) = Some b ∧ (b = true ↔ matches nocase us str)) →
  ¬ matches nocase us [] → (length str < fuel)%nat → At string s str →
  ∃ b, star_loop rec fuel s (zlen str) = Some b ∧ (b = true ↔ matches nocase (TStar :: us) str).
Proof.
  intros Hrec Hus. revert str s. induction fuel as [|fuel IH]; intros str s Hf Hs; [lia|]. cbn [star_loop].
  destruct str as [|x str].
  { exists false. split; [done|]. rewrite matches_star_inv. split; [done|].
    by intros (s1 & s2 & [-> ->]%symmetry%app_nil & ?). }
  replace (zlen (x :: str) =? 0) with false by (symmetry; apply Z.eqb_neq; zl).
  destruct (Hrec (x :: str) s) as (b & -> & Hb); [done..|]. cbn [mbind option_bind].
  pose proof (matches_star_cons nocase us x str). destruct b; [exists true; naive_solver|].
  replace (zlen (x :: str) - 1) with (zlen str) by zl.
  destruct (IH str (s + 1)) as (b & Hl & Hb'); [simpl in Hf; lia|by eapply At_next|].
  exists b. split; [done|]. naive_solver.
Qed.

(** The loop of the matcher, from any position in the pattern and in the string. *)
Lemma matchlen_ok (fuel : nat) l ts p str s :
  (length l < fuel)%nat → At pattern p l → At string s str → parse l = Some ts →
  (str = [] → empty_safe nocase ts = true) →
  ∃ b, matchlen pattern string nocase fuel p (zlen l) s (zlen str) = Some b ∧ (b = true ↔ matches nocase ts str).
Proof.
  revert l ts p str s. induction fuel as [|fuel IH]; intros l ts p str s Hf Hp Hs Hts Hsafe; [lia|].
  cbn [matchlen]. destruct l as [|c l].
  { apply parse_nil_inv in Hts as ->. eexists. split; [done|]. rewrite matches_nil_inv, Z.eqb_eq. apply zlen_zero. }
  replace (zlen (c :: l) =? 0) with false by (symmetry; apply Z.eqb_neq; zl). reads Hp.
  pose proof (At_length _ _ _ Hp) as Hlen. simpl in Hlen, Hf. destruct (Z.eqb_spec c ch_star) as [->|Hc].
  - apply parse_star_inv in Hts as (us & -> & Hus). pose proof (At_next _ _ _ _ Hp) as Hp1.
    destruct (skip_stars_ok (length pattern) l 1 p (zlen (ch_star :: l))) as (p' & -> & HA); [lia|done|].
    cbn [mbind option_bind]. destruct (parse_strip _ _ Hus) as (vs & Hvs & Heq & Hv).
    pose proof (strip_length l). destruct Hv as [(Hl & ->)|(t & vs' & -> & Ht & Hl)].
    + rewrite Hl in *. replace (_ =? 1) with true by (symmetry; apply Z.eqb_eq; zl).
      exists true. split; [done|]. rewrite Heq, matches_star_inv. split; [|done]. intros _. exists str, [].
      rewrite app_nil_r. split; [done|constructor].
    + assert (zlen (strip l) ≠ 0) by (by rewrite zlen_zero).
      replace (_ =? 1) with false by (symmetry; apply Z.eqb_neq; zl). setoid_rewrite (Heq nocase str).
      replace (zlen (ch_star :: l) - _ - 1) with (zlen (strip l)) by zl.
      apply star_loop_ok; [| |unfold zlen; lia|done].
      * intros str' s' Hne Hs'. by apply IH; [lia|..].
      * rewrite matches_one_inv by done. by intros (? & ? & ? & _).
  - apply parse_one_inv in Hts as (t & us & rest & -> & Ho & Hus); [|done].
    pose proof (parse_one_not_star _ _ _ _ Ho) as Ht. pose proof (parse_one_shorter _ _ _ _ Ho) as Hr.
    destruct str as [|x str].
    { change (zlen []) with 0. rewrite (match_one_empty (S (length pattern)) c l p s t us rest) by (done || auto). exists false. split; [done|].
      rewrite matches_one_inv by done. split; [done|]. by intros (? & ? & ? & _). }
    destruct (match_one_ok (S (length pattern)) c l p s (zlen (x :: str)) x t rest) as (next & -> & Hnext);
      [lia|done|by apply (At_load _ _ _ Hs)|zl|done|]. cbn [mbind option_bind].
    setoid_rewrite (matches_one_inv nocase t us (x :: str) Ht). destruct (token_has nocase t x) eqn:Ex.
    2:{ subst next. exists false. split; [done|]. split; [done|]. intros (? & ? & [= <- <-] & ? & _). congruence. }
    destruct Hnext as (p' & n' & -> & HA & ->). replace (zlen (x :: str) - 1) with (zlen str) by zl.
    assert (Hiff : (∃ y str', x :: str = y :: str' ∧ token_has nocase t y = true ∧ matches nocase us str') ↔ matches nocase us str)
      by naive_solver.
    setoid_rewrite Hiff. destruct (Z.eqb_spec (zlen str) 0) as [Hz|Hz].
    + apply zlen_zero in Hz as ->.
      destruct (skip_stars_ok (length pattern) rest 0 (p' + 1) (zlen rest)) as (q & -> & HB); [lia|by rewrite Z.add_0_r|].
      cbn [mbind option_bind]. eexists. split; [done|]. rewrite andb_true_r, Z.eqb_eq.
      rewrite (parse_strip_nil nocase _ _ Hus), <-zlen_zero. lia.
    + apply IH; [lia|done|by eapply At_next|done|]. intros ->. by rewrite zlen_nil in Hz.
Qed.
End Matcher.

(** ** Correctness *)

(** C36: For every pattern that [parse] reads, the matcher stays inside the two blocks and
    answers whether the string is one that the tokens describe, for every string that
    is not empty, and for the empty one unless the pattern starts with a class or with
    a NUL character. *)
Theorem stringmatchlen_correct (pat str : bytes) (nocase : bool) ts :
  parse pat = Some ts →
  (str = [] → empty_safe nocase ts = true) →
  ∃ b, stringmatchlen (pat ++ [0]) (zlen pat) (str ++ [0]) (zlen str) nocase = Some b ∧
    (b = true ↔ matches nocase ts str).
Proof.
  intros Hp Hs. unfold stringmatchlen. apply matchlen_ok; [unfold zlen; lia|apply At_start..|done|done].
Qed.

Definition txt (s : string) : bytes := map (fun c => Z.of_nat (Ascii.nat_of_ascii c)) (list_ascii_of_string s).

Definition glob (pat str : string) (nocase : bool) : option bool :=
  stringmatchlen (txt pat ++ [0]) (zlen (txt pat)) (txt str ++ [0]) (zlen (txt str)) nocase.

Lemma stringmatchlen_correct_witness :
  matches true [TChar 72; TClass false [Range 97 101; One 111]; TStar; TChar 111] (txt "hello") ∧
  ¬ matches false [TStar; TChar 42; TAny] (txt "a*") .
Proof.
  split.
  - destruct (stringmatchlen_correct (txt "H[a-eo]*o") (txt "hello") true
      [TChar 72; TClass false [Range 97 101; One 111]; TStar; TChar 111]) as (b & Hb & Hm);
      [vm_compute; reflexivity|discriminate|].
    apply Hm. vm_compute in Hb. injection Hb as <-. reflexivity.
  - destruct (stringmatchlen_correct (txt "*\*?") (txt "a*") false
      [TStar; TChar 42; TAny]) as (b & Hb & Hm); [vm_compute; reflexivity|discriminate|].
    intros Hx. apply Hm in Hx. subst b. vm_compute in Hb. discriminate.
Defined.

(** A class does not test for the end of the string: it reads the terminator, and
    [stringLen] goes to -1.  So [[^a]*] matches the empty string, and [[^a]?x] reads
    past the terminator. *)
Lemma stringmatchlen_empty_string :
  glob "[^a]*" "" false = Some true ∧
  (∀ ts, parse (txt "[^a]*") = Some ts → ¬ matches false ts []) ∧
  glob "[^a]?x" "" false = None.
Proof.
  split; [vm_compute; reflexivity|]. split; [|vm_compute; reflexivity].
  intros ts Hts. vm_compute in Hts. injection Hts as <-. intros H. apply matches_one_inv in H as (? & ? & ? & _); done.
Qed.

(** A class that ends in a backslash makes the matcher read past the pattern. *)
Lemma stringmatchlen_class_backslash :
  parse (txt "[\") = None ∧ glob "[\" "x" false = None.
Proof. split; vm_compute; reflexivity. Qed.
End GlobSpec.
