(* ===== verification/SdsSpec.v ===== *)
(** * sds.c represents byte strings

    [sds_rep s c]: the block of [s] is a well formed header of its type, the
    string [c], a NUL, and as many free bytes as the header says. *)

From stdpp Require Import list.
From S2P Require Import Prelude.
From S2P Require Import Mem.
From S2P Require Import Util.
From S2P Require Import Sds.
Import Sds.

(** ** Headers *)
(** The type and the width of its fields. *)
Definition typed (t w : Z) : Prop :=
  t = SDS_TYPE_5 ∧ w = 0 ∨ hdr_width t = Some w ∧ (t, w) ∈ [(1, 1); (2, 2); (3, 4); (4, 8)].

Definition header (t w len alloc : Z) : bytes :=
  if t =? SDS_TYPE_5 then [Z.shiftl len SDS_TYPE_BITS]
  else le_split (Z.to_nat w) len ++ le_split (Z.to_nat w) alloc ++ [t].

(** The block of [s]: a header and the bytes after it. *)
Definition shape (s : sds) (t w len alloc : Z) (body : bytes) : Prop :=
  typed t w ∧ blk s = header t w len alloc ++ body ∧ base s = 2 * w + 1.

(** The numbers a type can hold. *)
Definition fits (t w len alloc : Z) : Prop :=
  0 ≤ len ≤ alloc ∧ (if t =? SDS_TYPE_5 then len < 32 else alloc < 2 ^ (8 * w)).

Lemma typed_cases t w :
  typed t w → t = 0 ∧ w = 0 ∨ t = 1 ∧ w = 1 ∨ t = 2 ∧ w = 2 ∨ t = 3 ∧ w = 4 ∨ t = 4 ∧ w = 8.
Proof.
  intros [[-> ->]|[_ Hin]]; [by left|].
  repeat (apply elem_of_cons in Hin as [Hin|Hin]; [injection Hin as -> ->; lia|]).
  by apply not_elem_of_nil in Hin.
Qed.

Lemma typed_intro t w : t = 0 ∧ w = 0 ∨ t = 1 ∧ w = 1 ∨ t = 2 ∧ w = 2 ∨ t = 3 ∧ w = 4 ∨ t = 4 ∧ w = 8 → typed t w.
Proof.
  intros [[-> ->]|[[-> ->]|[[-> ->]|[[-> ->]|[-> ->]]]]]; [by left|right; (split; [done|set_solver])..].
Qed.

Lemma zlen_header t w len alloc : typed t w → zlen (header t w len alloc) = 2 * w + 1.
Proof.
  intros Ht. unfold header. destruct (typed_cases t w Ht) as [[-> ->]|[[-> ->]|[[-> ->]|[[-> ->]|[-> ->]]]]];
    simpl; [done|autorewrite with zlen; lia..].
Qed.

Lemma hdrsize_typed t w : typed t w → sdsHdrSize t = 2 * w + 1.
Proof.
  intros Ht. by destruct (typed_cases t w Ht) as [[-> ->]|[[-> ->]|[[-> ->]|[[-> ->]|[-> ->]]]]].
Qed.

(** The flag byte: the type, with the length for type 5. *)
Definition flag_byte (t len : Z) : Z := if t =? SDS_TYPE_5 then Z.shiftl len SDS_TYPE_BITS else t.

Lemma header_last t w len alloc :
  typed t w → ∃ h, header t w len alloc = h ++ [flag_byte t len] ∧ zlen h = 2 * w.
Proof.
  intros Ht. unfold header, flag_byte. destruct (Z.eqb_spec t SDS_TYPE_5) as [->|Hne].
  - exists []. split; [done|]. destruct (typed_cases _ _ Ht) as [[_ ->]|H]; [done|unfold SDS_TYPE_5 in H; lia].
  - exists (le_split (Z.to_nat w) len ++ le_split (Z.to_nat w) alloc). split; [by rewrite app_assoc|].
    destruct (typed_cases t w Ht) as [[-> _]|H]; [done|]. zl.
Qed.

Lemma flags_shape s t w len alloc body :
  shape s t w len alloc body → flags s = Some (flag_byte t len).
Proof.
  intros (Ht & Hb & Hp). destruct (header_last t w len alloc Ht) as (h & Hh & Hz).
  unfold flags, peek1. apply (load1_at _ h body); [|lia]. rewrite Hb, Hh. by rewrite <-app_assoc.
Qed.

Lemma flag_type t w len : typed t w → Z.land (flag_byte t len) SDS_TYPE_MASK = t.
Proof.
  intros Ht. unfold flag_byte. destruct (Z.eqb_spec t SDS_TYPE_5) as [->|Hne].
  - apply Z.bits_inj'. intros i Hi. rewrite Z.land_spec, Z.testbit_0_l, Z.shiftl_spec by done.
    destruct (Z.lt_ge_cases i 3).
    + rewrite Z.testbit_neg_r by (unfold SDS_TYPE_BITS; lia). done.
    + replace (Z.testbit SDS_TYPE_MASK i) with false; [by rewrite andb_false_r|].
      symmetry. apply (Z.bits_above_log2 7 i); [done|]. change (Z.log2 7) with 2. lia.
  - destruct (typed_cases t w Ht) as [[-> _]|[[-> _]|[[-> _]|[[-> _]|[-> _]]]]]; done.
Qed.

Lemma typed_width t w : typed t w → t ≠ SDS_TYPE_5 → hdr_width t = Some w ∧ 0 < w.
Proof.
  intros Ht Hne. destruct (typed_cases t w Ht) as [[-> _]|[[-> ->]|[[-> ->]|[[-> ->]|[-> ->]]]]]; done.
Qed.

Section Fields.
Context (s : sds) (t w len alloc : Z) (body : bytes).
Context (Hs : shape s t w len alloc body).

Lemma shape_hdr_len : t ≠ SDS_TYPE_5 → in_u (8 * w) len → hdr_len w s = Some len.
Proof.
  destruct Hs as (Ht & Hb & Hp). intros Hne Hl. destruct (typed_width t w Ht Hne) as [_ Hw].
  unfold hdr_len, peek. unfold header in Hb. rewrite (proj2 (Z.eqb_neq t SDS_TYPE_5) Hne) in Hb.
  rewrite (load_at _ [] (le_split (Z.to_nat w) len) ((le_split (Z.to_nat w) alloc ++ [t]) ++ body)); simpl.
  - f_equal. apply le_unsigned_roundtrip. by rewrite Z2Nat.id by lia.
  - rewrite Hb. by rewrite <-!app_assoc.
  - change (zlen []) with 0. lia.
  - rewrite zlen_le_split. lia.
Qed.

Lemma shape_hdr_alloc : t ≠ SDS_TYPE_5 → in_u (8 * w) alloc → hdr_alloc w s = Some alloc.
Proof.
  destruct Hs as (Ht & Hb & Hp). intros Hne Hl. destruct (typed_width t w Ht Hne) as [_ Hw].
  unfold hdr_alloc, peek. unfold header in Hb. rewrite (proj2 (Z.eqb_neq t SDS_TYPE_5) Hne) in Hb.
  rewrite (load_at _ (le_split (Z.to_nat w) len) (le_split (Z.to_nat w) alloc) ([t] ++ body)); simpl.
  - f_equal. apply le_unsigned_roundtrip. by rewrite Z2Nat.id by lia.
  - rewrite Hb. by rewrite <-!app_assoc.
  - rewrite zlen_le_split. lia.
  - rewrite zlen_le_split. lia.
Qed.

Lemma shape_set_hdr_len n :
  t ≠ SDS_TYPE_5 → ∃ s', set_hdr_len w s n = Some s' ∧ shape s' t w n alloc body.
Proof.
  destruct Hs as (Ht & Hb & Hp). intros Hne. destruct (typed_width t w Ht Hne) as [_ Hw].
  unfold set_hdr_len, poke. unfold header in Hb. rewrite (proj2 (Z.eqb_neq t SDS_TYPE_5) Hne) in Hb.
  rewrite (store_at _ [] (le_split (Z.to_nat w) len) (le_split (Z.to_nat w) n) ((le_split (Z.to_nat w) alloc ++ [t]) ++ body)).
  - simpl. eexists. split; [done|]. split; [done|]. split; [|done]. simpl. unfold header.
    rewrite (proj2 (Z.eqb_neq t SDS_TYPE_5) Hne). by rewrite <-!app_assoc.
  - rewrite Hb. by rewrite <-!app_assoc.
  - change (zlen []) with 0. lia.
  - by rewrite !zlen_le_split.
Qed.

Lemma shape_set_hdr_alloc n :
  t ≠ SDS_TYPE_5 → ∃ s', set_hdr_alloc w s n = Some s' ∧ shape s' t w len n body.
Proof.
  destruct Hs as (Ht & Hb & Hp). intros Hne. destruct (typed_width t w Ht Hne) as [_ Hw].
  unfold set_hdr_alloc, poke. unfold header in Hb. rewrite (proj2 (Z.eqb_neq t SDS_TYPE_5) Hne) in Hb.
  rewrite (store_at _ (le_split (Z.to_nat w) len) (le_split (Z.to_nat w) alloc) (le_split (Z.to_nat w) n) ([t] ++ body)).
  - simpl. eexists. split; [done|]. split; [done|]. split; [|done]. simpl. unfold header.
    rewrite (proj2 (Z.eqb_neq t SDS_TYPE_5) Hne). by rewrite <-!app_assoc.
  - rewrite Hb. by rewrite <-!app_assoc.
  - rewrite zlen_le_split. lia.
  - by rewrite !zlen_le_split.
Qed.

(** Writing after the header. *)
Lemma shape_poke a b b' c i :
  body = a ++ b ++ c → i = zlen a → zlen b' = zlen b →
  ∃ s', poke s i b' = Some s' ∧ shape s' t w len alloc (a ++ b' ++ c).
Proof.
  destruct Hs as (Ht & Hb & Hp). intros Hbody Hi Hz. unfold poke.
  pose proof (zlen_header t w len alloc Ht) as Hh.
  rewrite (store_at _ (header t w len alloc ++ a) b b' c); [|rewrite Hb, Hbody; by rewrite <-app_assoc|zl|done].
  eexists. split; [done|]. split; [done|]. split; [|done]. simpl. by rewrite <-app_assoc.
Qed.

Lemma shape_peek a b c i n :
  body = a ++ b ++ c → i = zlen a → n = zlen b → peek s i n = Some b.
Proof.
  destruct Hs as (Ht & Hb & Hp). intros Hbody Hi Hz. unfold peek.
  pose proof (zlen_header t w len alloc Ht) as Hh.
  apply (load_at _ (header t w len alloc ++ a) b c); [rewrite Hb, Hbody; by rewrite <-app_assoc|zl|done].
Qed.
End Fields.

(** ** Reading and setting the lengths *)
Lemma flag5 n : 0 ≤ n < 32 → uwrap 8 (Z.lor SDS_TYPE_5 (Z.shiftl n SDS_TYPE_BITS)) = Z.shiftl n SDS_TYPE_BITS.
Proof.
  intros Hn. rewrite Z.lor_0_l. apply uwrap_id. unfold in_u, SDS_TYPE_BITS.
  rewrite Z.shiftl_mul_pow2 by lia. change (2 ^ 3) with 8. change (2 ^ 8) with 256. lia.
Qed.

Lemma setlen_ok s t w len alloc body n :
  shape s t w len alloc body → (t = SDS_TYPE_5 → 0 ≤ n < 32) →
  ∃ s', sdssetlen s n = Some s' ∧ shape s' t w n alloc body.
Proof.
  intros Hs Hn. unfold sdssetlen. rewrite (flags_shape _ _ _ _ _ _ Hs). cbn [mbind option_bind].
  pose proof Hs as (Ht & Hb & Hp). rewrite (flag_type t w) by done.
  destruct (Z.eqb_spec t SDS_TYPE_5) as [->|Hne].
  - rewrite flag5 by auto. destruct (typed_cases _ _ Ht) as [[_ ->]|H]; [|unfold SDS_TYPE_5 in H; lia].
    unfold poke. rewrite (store_at _ [] (header 0 0 len alloc) [Z.shiftl n SDS_TYPE_BITS] body);
      [|done|change (zlen []) with 0; lia|done].
    eexists. split; [done|]. done.
  - destruct (typed_width t w Ht Hne) as [-> _]. by eapply shape_set_hdr_len.
Qed.

Lemma setalloc_ok s t w len alloc body n :
  shape s t w len alloc body → ∃ s', sdssetalloc s n = Some s' ∧ shape s' t w len n body.
Proof.
  intros Hs. unfold sdssetalloc. rewrite (flags_shape _ _ _ _ _ _ Hs). cbn [mbind option_bind].
  pose proof Hs as (Ht & Hb & Hp). rewrite (flag_type t w) by done.
  destruct (Z.eqb_spec t SDS_TYPE_5) as [->|Hne].
  - exists s. split; [done|]. split_and!; done.
  - destruct (typed_width t w Ht Hne) as [-> _]. by eapply shape_set_hdr_alloc.
Qed.

Section Sds.
Context `{Alloc}.

(** ** Strings *)
Definition sds_at (s : sds) (t w : Z) (c free : bytes) : Prop :=
  shape s t w (zlen c) (zlen c + zlen free) (c ++ [0] ++ free) ∧ fits t w (zlen c) (zlen c + zlen free).

Definition sds_rep (s : sds) (c : bytes) : Prop := ∃ t w free, sds_at s t w c free.

Lemma fits_u t w len alloc : fits t w len alloc → t ≠ SDS_TYPE_5 → in_u (8 * w) len ∧ in_u (8 * w) alloc.
Proof.
  intros [Hl Hf] Hne. rewrite (proj2 (Z.eqb_neq t SDS_TYPE_5) Hne) in Hf. unfold in_u. lia.
Qed.

Lemma fits_len t w len alloc len' :
  fits t w len alloc → 0 ≤ len' ≤ alloc → (t = SDS_TYPE_5 → len' < 32) → fits t w len' alloc.
Proof. intros [Hl Hf] Hl' H5. split; [done|]. destruct (Z.eqb_spec t SDS_TYPE_5); auto. Qed.

Lemma fits_small t w len alloc : fits t w len alloc → t = SDS_TYPE_5 → len < 32.
Proof. intros [Hl Hf] ->. exact Hf. Qed.

Lemma shiftr_5 n : SDS_TYPE_5_LEN (Z.shiftl n SDS_TYPE_BITS) = n.
Proof.
  unfold SDS_TYPE_5_LEN, SDS_TYPE_BITS. rewrite Z.shiftr_shiftl_l by lia. apply Z.shiftl_0_r.
Qed.

Lemma len_ok s t w c free : sds_at s t w c free → sdslen s = Some (zlen c).
Proof.
  intros [Hs Hf]. unfold sdslen. rewrite (flags_shape _ _ _ _ _ _ Hs). cbn [mbind option_bind].
  pose proof Hs as (Ht & _ & _). rewrite (flag_type t w) by done. unfold flag_byte.
  destruct (Z.eqb_spec t SDS_TYPE_5) as [->|Hne]; [by rewrite shiftr_5|].
  destruct (typed_width t w Ht Hne) as [-> _]. destruct (fits_u _ _ _ _ Hf Hne). by eapply shape_hdr_len.
Qed.

Lemma alloc_ok s t w c free :
  sds_at s t w c free → sdsalloc s = Some (if t =? SDS_TYPE_5 then zlen c else zlen c + zlen free).
Proof.
  intros [Hs Hf]. unfold sdsalloc. rewrite (flags_shape _ _ _ _ _ _ Hs). cbn [mbind option_bind].
  pose proof Hs as (Ht & _ & _). rewrite (flag_type t w) by done. unfold flag_byte.
  destruct (Z.eqb_spec t SDS_TYPE_5) as [->|Hne]; [by rewrite shiftr_5|].
  destruct (typed_width t w Ht Hne) as [-> _]. destruct (fits_u _ _ _ _ Hf Hne). by eapply shape_hdr_alloc.
Qed.

Lemma width_64 t w : typed t w → 0 ≤ w ≤ 8 ∧ (w = 4 → 8 * w = 32).
Proof. intros Ht. destruct (typed_cases t w Ht); lia. Qed.

Lemma avail_ok s t w c free :
  sds_at s t w c free → sdsavail s = Some (if t =? SDS_TYPE_5 then 0 else zlen free).
Proof.
  intros [Hs Hf]. unfold sdsavail. rewrite (flags_shape _ _ _ _ _ _ Hs). cbn [mbind option_bind].
  pose proof Hs as (Ht & _ & _). rewrite (flag_type t w) by done.
  destruct (Z.eqb_spec t SDS_TYPE_5) as [->|Hne]; [done|].
  destruct (typed_width t w Ht Hne) as [-> _]. destruct (fits_u _ _ _ _ Hf Hne) as [Hl Ha].
  rewrite (shape_hdr_len s t w _ _ _ Hs Hne Hl). cbn [mbind option_bind].
  rewrite (shape_hdr_alloc s t w _ _ _ Hs Hne Ha). cbn [mbind option_bind].
  replace (zlen c + zlen free - zlen c) with (zlen free) by lia. zlen_pos. unfold in_u in Ha.
  destruct (width_64 t w Ht) as [Hw Hw4]. destruct (Z.eqb_spec w 4) as [Hw'|_].
  - rewrite uwrap_id; [done|]. unfold in_u. rewrite (Hw4 Hw') in Ha. lia.
  - rewrite uwrap_id; [done|]. unfold in_u.
    assert (2 ^ (8 * w) ≤ 2 ^ 64) by (apply Z.pow_le_mono_r; lia). lia.
Qed.

(** [sdsReqType] chooses a type that can hold the number. *)
Lemma reqtype_ok n : 0 ≤ n < 2 ^ 64 → ∃ w, typed (sdsReqType n) w ∧
  (if sdsReqType n =? SDS_TYPE_5 then n < 32 else n < 2 ^ (8 * w)).
Proof.
  intros Hn. unfold sdsReqType. change (Z.shiftl 1 5) with 32. change (Z.shiftl 1 8) with 256.
  change (Z.shiftl 1 16) with 65536. change (Z.shiftl 1 32) with 4294967296.
  destruct (Z.ltb_spec n 32); [exists 0; split; [apply typed_intro; unfold SDS_TYPE_5; lia|done]|].
  destruct (Z.ltb_spec n 256); [exists 1; split; [apply typed_intro; unfold SDS_TYPE_8; lia|done]|].
  destruct (Z.ltb_spec n 65536); [exists 2; split; [apply typed_intro; unfold SDS_TYPE_16; lia|done]|].
  destruct (Z.ltb_spec n 4294967296); [exists 4; split; [apply typed_intro; unfold SDS_TYPE_32; lia|done]|].
  exists 8. split; [apply typed_intro; unfold SDS_TYPE_64; lia|]. simpl. lia.
Qed.

(** A fresh block gets its header. *)
Lemma init_header (X1 X2 : bytes) x body t w n m :
  typed t w → t ≠ SDS_TYPE_5 → zlen X1 = w → zlen X2 = w →
  ∃ s', (s ← set_hdr_len w (Sds (X1 ++ X2 ++ [x] ++ body) (2 * w + 1)) n;
         s ← set_hdr_alloc w s m; poke s (-1) [t]) = Some s' ∧ shape s' t w n m body.
Proof.
  intros Ht Hne H1 H2. destruct (typed_width t w Ht Hne) as [_ Hw].
  unfold set_hdr_len, set_hdr_alloc, poke. simpl base. simpl blk.
  rewrite (store_at _ [] X1 (le_split (Z.to_nat w) n) (X2 ++ [x] ++ body));
    [|done|change (zlen []) with 0; lia|rewrite zlen_le_split; lia]. cbn [mbind option_bind app base blk].
  rewrite (store_at _ (le_split (Z.to_nat w) n) X2 (le_split (Z.to_nat w) m) ([x] ++ body));
    [|done|rewrite zlen_le_split; lia|rewrite zlen_le_split; lia]. cbn [mbind option_bind base blk].
  rewrite (store_at _ (le_split (Z.to_nat w) n ++ le_split (Z.to_nat w) m) [x] [t] body);
    [|by rewrite <-app_assoc|zl|done]. cbn [mbind option_bind].
  eexists. split; [done|]. split; [done|]. split; [|done]. simpl. unfold header.
  rewrite (proj2 (Z.eqb_neq t SDS_TYPE_5) Hne). by rewrite <-!app_assoc.
Qed.

Lemma split_block (X : bytes) w n :
  0 ≤ w → 0 ≤ n → zlen X = 2 * w + 1 + n →
  ∃ X1 X2 x B, X = X1 ++ X2 ++ [x] ++ B ∧ zlen X1 = w ∧ zlen X2 = w ∧ zlen B = n.
Proof.
  intros Hw Hn Hz. destruct (list_split3 X w w) as (X1 & X2 & R & -> & H1 & H2 & H3); [lia..|].
  destruct R as [|x B]; [change (zlen []) with 0 in H3; lia|]. rewrite zlen_cons in H3.
  exists X1, X2, x, B. split_and!; [done..|lia].
Qed.

(** Copying the initial content. *)
Lemma fill_ok s t w n m B init c :
  shape s t w n m B → zlen B = n + 1 → 0 ≤ n → zlen c = n →
  match init with Some t => load t 0 n = Some c | None => B = c ++ [0] end →
  ∃ s' y, match init with
      | Some t => if negb (n =? 0) then t ← load t 0 n; poke s 0 t else Some s
      | None => Some s
      end = Some s' ∧ shape s' t w n m (c ++ [y]).
Proof.
  intros Hs HB Hn Hc Hinit. destruct init as [t'|]; [|exists s, 0; by rewrite <-Hinit].
  destruct (list_split B n) as (B1 & B2 & -> & H1 & H2); [lia|].
  destruct B2 as [|y [|? ?]]; [change (zlen []) with 0 in H2; lia| |rewrite !zlen_cons in H2; zlen_pos; lia].
  destruct (Z.eqb_spec n 0) as [->|Hne]; cbn [negb].
  - apply zlen_0_nil in Hc as ->. apply zlen_0_nil in H1 as ->. by exists s, y.
  - rewrite Hinit. cbn [mbind option_bind].
    destruct (shape_poke s t w n m (B1 ++ [y]) Hs [] B1 c [y] 0) as (s' & Hp & Hs'); [done|done|lia|].
    by exists s', y.
Qed.

Lemma newlen_ok init n c :
  0 ≤ n < 2 ^ 62 → zlen c = n →
  match init with Some t => load t 0 n = Some c | None => c = replicate (Z.to_nat n) 0 end →
  ∃ s, sdsnewlen init n = Some s ∧ sds_rep s c.
Proof.
  intros Hn Hc Hinit. unfold sdsnewlen.
  set (type := if (sdsReqType n =? SDS_TYPE_5) && (n =? 0) then SDS_TYPE_8 else sdsReqType n).
  assert (∃ w, typed type w ∧ if type =? SDS_TYPE_5 then n < 32 else n < 2 ^ (8 * w)) as (w & Ht & Hfit).
  { unfold type. destruct (_ && _) eqn:E.
    - apply andb_true_iff in E as [_ ->%Z.eqb_eq]. exists 1. split; [apply typed_intro; unfold SDS_TYPE_8; lia|done].
    - apply reqtype_ok. lia. }
  rewrite (hdrsize_typed type w Ht). destruct (width_64 type w Ht) as [Hw _].
  rewrite uwrap_id by (unfold in_u; lia).
  set (sh := match init with None => _ | Some _ => _ end).
  assert (zlen sh = 2 * w + 1 + (n + 1)) as Hsh.
  { pose proof (zlen_fresh (Z.to_nat (2 * w + 1 + n + 1))) as Hf. unfold sh, zmalloc, zlen in *.
    destruct init; rewrite ?length_replicate; lia. }
  destruct (split_block sh w (n + 1)) as (X1 & X2 & x & B & HX & H1 & H2 & HB); [lia..|].
  assert (∃ s, (if type =? SDS_TYPE_5
       then poke (Sds sh (2 * w + 1)) (-1) [uwrap 8 (Z.lor type (Z.shiftl n SDS_TYPE_BITS))]
       else match hdr_width type with
         | Some w0 => s ← set_hdr_len w0 (Sds sh (2 * w + 1)) n; s ← set_hdr_alloc w0 s n; poke s (-1) [type]
         | None => Some (Sds sh (2 * w + 1))
         end) = Some s ∧ shape s type w n n B) as (s & -> & Hs).
  { destruct (Z.eqb_spec type SDS_TYPE_5) as [He|Hne].
    - rewrite He in *. destruct (typed_cases _ _ Ht) as [[_ ->]|Hc']; [|unfold SDS_TYPE_5 in Hc'; lia].
      rewrite flag5 by lia. unfold poke. simpl base. simpl blk. apply zlen_0_nil in H1 as ->. apply zlen_0_nil in H2 as ->.
      rewrite HX. rewrite (store_at _ [] [x] [Z.shiftl n SDS_TYPE_BITS] B); [|done|done|done].
      eexists. split; [done|]. done.
    - destruct (typed_width type w Ht Hne) as [-> _]. rewrite HX. by apply init_header. }
  cbn [mbind option_bind].
  assert (∃ s' y, match init with
      | Some t => if negb (n =? 0) then t ← load t 0 n; poke s 0 t else Some s
      | None => Some s
      end = Some s' ∧ shape s' type w n n (c ++ [y])) as (s' & y & -> & Hs').
  { apply (fill_ok s type w n n B init c Hs HB); [lia|done|]. destruct init as [t|]; [done|].
    subst c. replace (X1 ++ X2 ++ [x] ++ B) with ((X1 ++ X2 ++ [x]) ++ B) in HX by (by rewrite <-!app_assoc).
    apply (f_equal (drop (Z.to_nat (2 * w + 1)))) in HX. unfold sh, zmalloc in HX.
    rewrite drop_replicate, drop_app_length' in HX by (unfold zlen in *; rewrite !length_app; simpl; lia).
    change [0] with (replicate 1 0). rewrite <-replicate_add, <-HX. f_equal.
    unfold fresh_bytes. rewrite List.length_map, List.length_seq. lia. }
  cbn [mbind option_bind].
  destruct (shape_poke s' type w n n (c ++ [y]) Hs' c [y] [0] [] n) as (s2 & -> & Hs2); [done|done|done|].
  exists s2. split; [done|]. exists type, w, []. unfold sds_at. rewrite Hc. change (zlen []) with 0. rewrite Z.add_0_r.
  split; [done|]. split; [lia|done].
Qed.

(** ** Moving a string to another block *)
(** A block of junk whose flag byte is set has the shape of some string. *)
Lemma flag_shape (X1 X2 : bytes) x body t w :
  typed t w → wf_bytes X1 → wf_bytes X2 → zlen X1 = w → zlen X2 = w →
  ∃ s' len alloc, poke (Sds (X1 ++ X2 ++ [x] ++ body) (2 * w + 1)) (-1) [t] = Some s' ∧
    shape s' t w len alloc body.
Proof.
  intros Ht Hw1 Hw2 H1 H2. unfold poke. simpl base. simpl blk.
  rewrite (store_at _ (X1 ++ X2) [x] [t] body); [|by rewrite <-app_assoc|zl|done]. cbn [mbind option_bind].
  destruct (Z.eqb_spec t SDS_TYPE_5) as [->|Hne].
  - destruct (typed_cases _ _ Ht) as [[_ ->]|Hc]; [|unfold SDS_TYPE_5 in Hc; lia].
    apply zlen_0_nil in H1 as ->. apply zlen_0_nil in H2 as ->. eexists _, 0, 0. split; [done|]. done.
  - eexists _, (le_combine X1), (le_combine X2). split; [done|]. split; [done|]. split; [|done]. simpl.
    unfold header. rewrite (proj2 (Z.eqb_neq t SDS_TYPE_5) Hne).
    assert (∀ X, zlen X = w → wf_bytes X → le_split (Z.to_nat w) (le_combine X) = X) as Hle.
    { intros X Hz Hwf. rewrite <-(le_split_combine X Hwf) at 2. f_equal. unfold zlen in Hz. lia. }
    rewrite !Hle by done. by rewrite <-!app_assoc.
Qed.

Lemma move_ok s t w c free t' w' m :
  sds_at s t w c free → typed t' w' → (t' = SDS_TYPE_5 → zlen c < 32) → zlen c ≤ m < 2 ^ 63 + 2 ^ 62 →
  ∃ s' a free', (u ← peek s 0 (zlen c + 1);
      s ← poke (Sds (zmalloc (uwrap 64 (2 * w' + 1 + m + 1))) (2 * w' + 1)) 0 u;
      s ← poke s (-1) [t'];
      sdssetlen s (zlen c)) = Some s' ∧
    shape s' t' w' (zlen c) a (c ++ [0] ++ free') ∧ zlen free' = m - zlen c.
Proof.
  intros [Hs Hf] Ht' H5 Hm. zlen_pos. destruct (width_64 t' w' Ht') as [Hw _].
  rewrite (shape_peek s t w _ _ _ Hs [] (c ++ [0]) free); [|by rewrite <-app_assoc|done|zl].
  cbn [mbind option_bind]. rewrite uwrap_id by (unfold in_u; lia). unfold zmalloc.
  pose proof (wf_fresh (Z.to_nat (2 * w' + 1 + m + 1))) as Hwf.
  destruct (split_block (fresh_bytes (Z.to_nat (2 * w' + 1 + m + 1))) w' (m + 1)) as (X1 & X2 & x & B & HX & HX1 & HX2 & HB);
    [lia|lia|rewrite zlen_fresh; lia|]. rewrite HX in *.
  apply wf_bytes_app in Hwf as [Hwf1 Hwf]. apply wf_bytes_app in Hwf as [Hwf2 _].
  destruct (list_split B (zlen c + 1)) as (B1 & free' & -> & HB1 & HB2); [lia|].
  assert (poke (Sds (X1 ++ X2 ++ [x] ++ B1 ++ free') (2 * w' + 1)) 0 (c ++ [0]) =
    Some (Sds (X1 ++ X2 ++ [x] ++ (c ++ [0] ++ free')) (2 * w' + 1))) as ->.
  { unfold poke. simpl base. simpl blk.
    rewrite (store_at _ (X1 ++ X2 ++ [x]) B1 (c ++ [0]) free'); [|by rewrite <-!app_assoc|zl|zl].
    cbn [mbind option_bind]. by rewrite <-!app_assoc. }
  cbn [mbind option_bind].
  destruct (flag_shape X1 X2 x (c ++ [0] ++ free') t' w' Ht' Hwf1 Hwf2 HX1 HX2) as (s1 & l1 & a1 & -> & Hs1).
  cbn [mbind option_bind].
  destruct (setlen_ok s1 t' w' l1 a1 _ (zlen c) Hs1) as (s2 & -> & Hs2); [intros; split; [done|auto]|].
  exists s2, a1, free'. split; [done|]. split; [done|]. lia.
Qed.

Lemma realloc_ok s t w c free m :
  sds_at s t w c free → zlen c ≤ m → 2 * w + 1 + m + 1 < 2 ^ 64 →
  ∃ free', shape (Sds (zrealloc (blk s) (uwrap 64 (2 * w + 1 + m + 1))) (2 * w + 1)) t w (zlen c)
      (zlen c + zlen free) (c ++ [0] ++ free') ∧ zlen free' = m - zlen c.
Proof.
  intros [(Ht & Hb & Hp) _] Hm Hlt. zlen_pos. destruct (width_64 t w Ht) as [Hw _].
  rewrite uwrap_id by (unfold in_u; lia). rewrite Hb. set (h := header _ _ _ _).
  assert (zlen h = 2 * w + 1) as Hh by (by apply zlen_header).
  replace (h ++ c ++ [0] ++ free) with ((h ++ c ++ [0]) ++ free) by (by rewrite <-!app_assoc).
  destruct (zrealloc_prefix (h ++ c ++ [0]) free (2 * w + 1 + m + 1)) as (X & -> & HX); [zl|].
  exists X. split; [|zl]. split; [done|]. split; [|done]. simpl. by rewrite <-!app_assoc.
Qed.

(** ** Making room *)
Lemma makeroom_ok s t w c free addlen :
  sds_at s t w c free → 0 ≤ addlen → zlen c + addlen < 2 ^ 62 →
  ∃ s' t' w' free', sdsMakeRoomFor s addlen = Some s' ∧ sds_at s' t' w' c free' ∧
    addlen ≤ zlen free' ∧ (t' = SDS_TYPE_5 → addlen = 0).
Proof.
  intros Hs Ha Hlt. unfold sdsMakeRoomFor. rewrite (avail_ok s t w c free Hs). cbn [mbind option_bind].
  pose proof Hs as [Hsh Hf]. rewrite (flags_shape _ _ _ _ _ _ Hsh). cbn [mbind option_bind].
  pose proof Hsh as (Ht & _ & _). rewrite (flag_type t w) by done. zlen_pos.
  destruct (Z.leb_spec addlen (if t =? SDS_TYPE_5 then 0 else zlen free)) as [Hle|Hgt].
  { exists s, t, w, free. split_and!; try done; destruct (Z.eqb_spec t SDS_TYPE_5); done || lia. }
  rewrite (len_ok s t w c free Hs). cbn [mbind option_bind]. rewrite (uwrap_id 64 (zlen c + addlen)) by (unfold in_u; lia).
  set (newlen := if _ <? SDS_MAX_PREALLOC then _ else _).
  assert (zlen c + addlen ≤ newlen < 2 ^ 63) as Hnew.
  { unfold newlen, SDS_MAX_PREALLOC. destruct (Z.ltb_spec (zlen c + addlen) 1048576);
      rewrite uwrap_id by (unfold in_u; lia); lia. }
  set (type := if sdsReqType newlen =? SDS_TYPE_5 then SDS_TYPE_8 else sdsReqType newlen).
  assert (∃ w', typed type w' ∧ type ≠ SDS_TYPE_5 ∧ newlen < 2 ^ (8 * w')) as (w' & Ht' & Hne & Hfit).
  { destruct (reqtype_ok newlen) as (w' & Hw' & Hf'); [lia|]. unfold type.
    destruct (Z.eqb_spec (sdsReqType newlen) SDS_TYPE_5) as [He|He]; [|by exists w'].
    exists 1. split; [apply typed_intro; unfold SDS_TYPE_8; lia|]. split; [done|]. change (2 ^ (8 * 1)) with 256. lia. }
  rewrite (hdrsize_typed type w' Ht'). destruct (width_64 type w' Ht') as [Hw8 _].
  assert (∃ s1 a free', (if t =? type
         then Some (Sds (zrealloc (blk s) (uwrap 64 (2 * w' + 1 + newlen + 1))) (2 * w' + 1))
         else
           u ← peek s 0 (zlen c + 1);
           s ← poke (Sds (zmalloc (uwrap 64 (2 * w' + 1 + newlen + 1))) (2 * w' + 1)) 0 u;
           s ← poke s (-1) [type];
           sdssetlen s (zlen c)) = Some s1 ∧
    shape s1 type w' (zlen c) a (c ++ [0] ++ free') ∧ zlen free' = newlen - zlen c) as (s1 & a & free' & -> & Hs1 & Hfr).
  { destruct (Z.eqb_spec t type) as [->|Htne].
    - assert (w' = w) as -> by (destruct (typed_cases _ _ Ht), (typed_cases _ _ Ht'); lia).
      destruct (realloc_ok s type w c free newlen Hs) as (free' & Hsh' & Hfr); [lia|lia|]. eauto 6.
    - apply (move_ok s t w c free); try done. lia. }
  cbn [mbind option_bind]. destruct (setalloc_ok s1 type w' _ a _ newlen Hs1) as (s2 & -> & Hs2).
  exists s2, type, w', free'. split; [done|]. split; [|split; [lia|done]].
  unfold sds_at, fits. replace (zlen c + zlen free') with newlen by lia. split; [done|].
  rewrite (proj2 (Z.eqb_neq type SDS_TYPE_5) Hne). lia.
Qed.

(** ** Ending a string at another place *)
Section Relen.
Context (s : sds) (t w len : Z) (u F : bytes) (y : Z).
Context (Hs : shape s t w len (zlen u + zlen F) (u ++ [y] ++ F)).
Context (Hf : fits t w (zlen u) (zlen u + zlen F)).

Lemma fits_5 : t = SDS_TYPE_5 → 0 ≤ zlen u < 32.
Proof. intros ->. destruct Hf as [? Hlt]. simpl in Hlt. lia. Qed.

Lemma len_then_nul n : n = zlen u →
  ∃ s', (s ← sdssetlen s n; poke s n [0]) = Some s' ∧ sds_at s' t w u F.
Proof.
  intros ->. destruct (setlen_ok s t w len _ _ (zlen u) Hs fits_5) as (s1 & -> & Hs1). cbn [mbind option_bind].
  destruct (shape_poke s1 t w _ _ _ Hs1 u [y] [0] F (zlen u)) as (s2 & -> & Hs2); [done..|].
  exists s2. done.
Qed.

Lemma nul_then_len n : n = zlen u →
  ∃ s', (s ← poke s n [0]; sdssetlen s n) = Some s' ∧ sds_at s' t w u F.
Proof.
  intros ->. destruct (shape_poke s t w _ _ _ Hs u [y] [0] F (zlen u)) as (s1 & -> & Hs1); [done..|].
  cbn [mbind option_bind].
  destruct (setlen_ok s1 t w len _ _ (zlen u) Hs1 fits_5) as (s2 & -> & Hs2). exists s2. done.
Qed.
End Relen.

(** The bytes after the header, cut at [n]. *)
Lemma cut_body (c free : bytes) n :
  0 ≤ n ≤ zlen c + zlen free →
  ∃ u y F, c ++ [0] ++ free = u ++ [y] ++ F ∧ zlen u = n ∧ zlen u + zlen F = zlen c + zlen free.
Proof.
  intros Hn. destruct (list_split_elem (c ++ [0] ++ free) n) as (u & y & F & He & Hu); [zl|].
  exists u, y, F. split; [done|]. split; [done|]. apply (f_equal zlen) in He. zl.
Qed.

Lemma clear_ok s t w c free :
  sds_at s t w c free → ∃ s' F, sdsclear s = Some s' ∧ sds_at s' t w [] F ∧ zlen F = zlen c + zlen free.
Proof.
  intros [Hs Hf]. zlen_pos. destruct (cut_body c free 0) as (u & y & F & He & Hu & HF); [lia|].
  apply zlen_0_nil in Hu as ->. rewrite He, <-HF in Hs. change (zlen []) with 0 in *.
  destruct (len_then_nul s t w (zlen c) [] F y Hs) with (n := 0) as (s' & Hr & Hs'); [|done|].
  { rewrite <-HF in Hf. apply (fits_len t w _ _ _ Hf); [change (zlen []) with 0 in *; zlen_pos; lia|done]. }
  exists s', F. unfold sdsclear. split; [done|]. split; [done|]. lia.
Qed.

Lemma catlen_ok s c b n u :
  sds_rep s c → load b 0 n = Some u → zlen c + zlen u < 2 ^ 62 →
  ∃ s', sdscatlen s b n = Some s' ∧ sds_rep s' (c ++ u).
Proof.
  intros (t & w & free & Hs) Hl Hlt. pose proof (load_inv _ _ _ _ Hl) as (a0 & c0 & _ & _ & Hn).
  unfold sdscatlen. rewrite (len_ok s t w c free Hs). cbn [mbind option_bind]. zlen_pos.
  destruct (makeroom_ok s t w c free n Hs) as (s1 & t1 & w1 & F1 & -> & [Hs1 Hf1] & Hroom & H5); [lia|lia|].
  cbn [mbind option_bind]. rewrite Hl. cbn [mbind option_bind].
  destruct (list_split_elem ([0] ++ F1) n) as (Y & y & F2 & HY & HzY); [zl|].
  assert (n + zlen F2 = zlen F1) as HF2 by (apply (f_equal zlen) in HY; zl).
  destruct (shape_poke s1 t1 w1 _ _ _ Hs1 c Y u (y :: F2) (zlen c)) as (s2 & -> & Hs2);
    [by rewrite HY|done|lia|]. cbn [mbind option_bind].
  rewrite uwrap_id by (unfold in_u; lia).
  destruct (len_then_nul s2 t1 w1 (zlen c) (c ++ u) F2 y) with (n := zlen c + n) as (s' & Hr & Hs'); [| |zl|].
  - rewrite zlen_app. replace (zlen c + zlen u + zlen F2) with (zlen c + zlen F1) by lia.
    by rewrite <-app_assoc.
  - rewrite zlen_app. replace (zlen c + zlen u + zlen F2) with (zlen c + zlen F1) by lia.
    apply (fits_len t1 w1 _ _ _ Hf1); [lia|]. intros Ht5. pose proof (fits_small _ _ _ _ Hf1 Ht5). specialize (H5 Ht5). lia.
  - exists s'. split; [done|]. by exists t1, w1, F2.
Qed.

Lemma cpylen_ok s c b n u :
  sds_rep s c → load b 0 n = Some u → zlen c < 2 ^ 62 → zlen u < 2 ^ 62 →
  ∃ s', sdscpylen s b n = Some s' ∧ sds_rep s' u.
Proof.
  intros (t & w & free & Hs) Hl Hc Hlt. pose proof (load_inv _ _ _ _ Hl) as (a0 & c0 & _ & _ & Hn).
  unfold sdscpylen. rewrite (alloc_ok s t w c free Hs). cbn [mbind option_bind]. zlen_pos.
  set (alloc := if t =? SDS_TYPE_5 then _ else _).
  assert (∃ s1 t1 w1 F1, (if alloc <? n then curlen ← sdslen s; sdsMakeRoomFor s (uwrap 64 (n - curlen)) else Some s) = Some s1 ∧
    sds_at s1 t1 w1 c F1 ∧ n ≤ zlen c + zlen F1 ∧ (t1 = SDS_TYPE_5 → n ≤ zlen c)) as (s1 & t1 & w1 & F1 & -> & [Hs1 Hf1] & Hroom & H5).
  { destruct (Z.ltb_spec alloc n) as [Hlt'|Hge].
    - assert (zlen c ≤ alloc) by (unfold alloc; destruct (t =? SDS_TYPE_5); lia).
      rewrite (len_ok s t w c free Hs). cbn [mbind option_bind]. rewrite uwrap_id by (unfold in_u; lia).
      destruct (makeroom_ok s t w c free (n - zlen c) Hs) as (s1 & t1 & w1 & F1 & -> & Hs1 & Hroom & H5); [lia|lia|].
      exists s1, t1, w1, F1. split_and!; [done|done|lia|]. intros ?%H5. lia.
    - exists s, t, w, free. unfold alloc in Hge. split_and!; [done|done| |]; destruct (Z.eqb_spec t SDS_TYPE_5); done || lia. }
  cbn [mbind option_bind]. rewrite Hl. cbn [mbind option_bind].
  destruct (cut_body c F1 n) as (Y & y & F & He & HY & HF); [lia|]. rewrite He in Hs1.
  destruct (shape_poke s1 t1 w1 _ _ _ Hs1 [] Y u (y :: F) 0) as (s2 & -> & Hs2); [done|done|lia|].
  cbn [mbind option_bind].
  destruct (nul_then_len s2 t1 w1 (zlen c) u F y) with (n := n) as (s' & Hr & Hs'); [| |lia|].
  - replace (zlen u + zlen F) with (zlen c + zlen F1) by lia. done.
  - replace (zlen u + zlen F) with (zlen c + zlen F1) by lia.
    apply (fits_len t1 w1 _ _ _ Hf1); [lia|]. intros Ht5. pose proof (fits_small _ _ _ _ Hf1 Ht5). specialize (H5 Ht5). lia.
  - exists s'. split; [done|]. by exists t1, w1, F.
Qed.

Lemma growzero_ok s c n :
  sds_rep s c → 0 ≤ n < 2 ^ 62 → zlen c < 2 ^ 62 →
  ∃ s', sdsgrowzero s n = Some s' ∧ sds_rep s' (c ++ replicate (Z.to_nat (n - zlen c)) 0).
Proof.
  intros (t & w & free & Hs) Hn Hc. unfold sdsgrowzero. rewrite (len_ok s t w c free Hs). cbn [mbind option_bind].
  zlen_pos. destruct (Z.leb_spec n (zlen c)).
  { exists s. split; [done|]. replace (Z.to_nat (n - zlen c)) with 0%nat by lia. simpl. rewrite app_nil_r. by exists t, w, free. }
  destruct (makeroom_ok s t w c free (n - zlen c) Hs) as (s1 & t1 & w1 & F1 & -> & [Hs1 Hf1] & Hroom & H5); [lia|lia|].
  cbn [mbind option_bind]. destruct (list_split ([0] ++ F1) (n - zlen c + 1)) as (Y & F2 & HY & HzY & HzF); [zl|].
  set (z := replicate (Z.to_nat (n - zlen c)) 0).
  assert (zlen z = n - zlen c) as Hz by (unfold z; rewrite zlen_replicate; lia).
  assert (replicate (Z.to_nat (n - zlen c + 1)) 0 = z ++ [0]) as ->.
  { unfold z. change [0] with (replicate 1 0). rewrite <-replicate_add. f_equal. lia. }
  destruct (shape_poke s1 t1 w1 _ _ _ Hs1 c Y (z ++ [0]) F2 (zlen c)) as (s2 & -> & Hs2);
    [by rewrite HY|done|zl|]. cbn [mbind option_bind].
  rewrite zlen_app in HzF. change (zlen [0]) with 1 in HzF.
  destruct (setlen_ok s2 t1 w1 (zlen c) _ _ n Hs2) as (s3 & -> & Hs3); [intros ?%H5; lia|].
  exists s3. split; [done|]. exists t1, w1, F2. unfold sds_at. rewrite zlen_app, Hz.
  replace (zlen c + (n - zlen c)) with n by lia. replace (n + zlen F2) with (zlen c + zlen F1) by lia. split.
  - by rewrite <-!app_assoc in *.
  - apply (fits_len t1 w1 _ _ _ Hf1); [lia|]. intros Ht5. specialize (H5 Ht5). lia.
Qed.

Lemma removefree_ok s c :
  sds_rep s c → zlen c < 2 ^ 62 →
  ∃ s' t' w', sdsRemoveFreeSpace s = Some s' ∧ sds_at s' t' w' c [].
Proof.
  intros (t & w & free & Hs) Hc. pose proof Hs as [Hsh [Hl Hfit]]. pose proof Hsh as (Ht & _ & _).
  unfold sdsRemoveFreeSpace. rewrite (flags_shape _ _ _ _ _ _ Hsh). cbn [mbind option_bind].
  rewrite (flag_type t w) by done. rewrite (len_ok s t w c free Hs). cbn [mbind option_bind]. zlen_pos.
  destruct (reqtype_ok (zlen c)) as (w' & Ht' & Hfit'); [lia|].
  rewrite (hdrsize_typed t w Ht), (hdrsize_typed _ w' Ht'). set (type := sdsReqType (zlen c)) in *.
  destruct (width_64 t w Ht) as [Hw8 _].
  assert (∃ s1 t1 w1 a, (if (t =? type) || (SDS_TYPE_8 <? type)
       then Some (Sds (zrealloc (blk s) (uwrap 64 (2 * w + 1 + zlen c + 1))) (2 * w + 1))
       else
         u ← peek s 0 (zlen c + 1);
         s ← poke (Sds (zmalloc (uwrap 64 (2 * w' + 1 + zlen c + 1))) (2 * w' + 1)) 0 u;
         s ← poke s (-1) [type];
         sdssetlen s (zlen c)) = Some s1 ∧ shape s1 t1 w1 (zlen c) a (c ++ [0]) ∧
     (if t1 =? SDS_TYPE_5 then zlen c < 32 else zlen c < 2 ^ (8 * w1))) as (s1 & t1 & w1 & a & -> & Hs1 & Hf1).
  { destruct (_ || _).
    - destruct (realloc_ok s t w c free (zlen c) Hs) as (free' & Hsh' & Hfr); [lia|lia|].
      replace (zlen c - zlen c) with 0 in Hfr by lia. apply zlen_0_nil in Hfr as ->.
      eexists _, t, w, _. split; [done|]. split; [exact Hsh'|]. destruct (t =? SDS_TYPE_5); lia.
    - destruct (move_ok s t w c free type w' (zlen c) Hs Ht') as (s1 & a & free' & Hr & Hs1 & Hfr).
      + intros He. rewrite He in Hfit'. simpl in Hfit'. lia.
      + lia.
      + replace (zlen c - zlen c) with 0 in Hfr by lia. apply zlen_0_nil in Hfr as ->.
        exists s1, type, w', a. done. }
  cbn [mbind option_bind]. destruct (setalloc_ok s1 t1 w1 _ a _ (zlen c) Hs1) as (s2 & -> & Hs2).
  exists s2, t1, w1. split; [done|]. unfold sds_at. change (zlen []) with 0. rewrite Z.add_0_r.
  split; [done|]. split; [lia|done].
Qed.

(** ** Keeping a part of the string *)
Lemma keep_ok s t w A u B free (move : bool) :
  sds_at s t w (A ++ u ++ B) free → (move = false → A = [] ∨ u = []) →
  ∃ s' F, (s ← (if move then move_down s (zlen A) (zlen u) else Some s);
           s ← poke s (zlen u) [0]; sdssetlen s (zlen u)) = Some s' ∧
    sds_at s' t w u F ∧ zlen u + zlen F = zlen (A ++ u ++ B) + zlen free.
Proof.
  intros [Hs Hf] Hmove. set (c := A ++ u ++ B) in *.
  assert (zlen c = zlen A + zlen u + zlen B) as Hc by (unfold c; zl).
  zlen_pos. destruct (cut_body c free (zlen u)) as (Y & y & F & He & HY & HF); [lia|].
  assert (∃ s1, (if move then move_down s (zlen A) (zlen u) else Some s) = Some s1 ∧
    shape s1 t w (zlen c) (zlen u + zlen F) (u ++ [y] ++ F)) as (s1 & -> & Hs1).
  { replace (zlen u + zlen F) with (zlen c + zlen free) by lia. destruct move.
    - pose proof Hs as (Ht & Hb & Hp). set (h := header _ _ _ _) in *.
      assert (zlen h = 2 * w + 1) as Hh by (by apply zlen_header). unfold move_down.
      rewrite (memmove_at (blk s) (h ++ A) u (B ++ [0] ++ free) h Y ([y] ++ F)); cbn [mbind option_bind].
      + eexists. split; [done|]. split; [done|]. split; done.
      + rewrite Hb. unfold c. by rewrite <-!app_assoc.
      + rewrite zlen_app. lia.
      + done.
      + by rewrite Hb, He.
      + lia.
      + done.
    - exists s. split; [done|]. destruct (Hmove eq_refl) as [-> | ->].
      + unfold c in He. simpl in He. rewrite <-app_assoc in He. apply app_inj_len in He as [<- He]; [|done].
        change ([y] ++ F) with (y :: F). rewrite <-He. unfold c in Hs. simpl in Hs. by rewrite <-app_assoc in Hs.
      + apply zlen_0_nil in HY as ->. by rewrite He in Hs. }
  cbn [mbind option_bind]. destruct (nul_then_len s1 t w (zlen c) u F y Hs1) with (n := zlen u) as (s2 & Hr & Hs2); [|done|].
  - replace (zlen u + zlen F) with (zlen c + zlen free) by lia. apply (fits_len t w _ _ _ Hf); [lia|].
    intros Ht5. pose proof (fits_small _ _ _ _ Hf Ht5). lia.
  - exists s2, F. split; [done|]. split; [done|]. lia.
Qed.

Lemma peek1_ok s t w a x b free : sds_at s t w (a ++ x :: b) free → peek1 s (zlen a) = Some x.
Proof.
  intros [(Ht & Hb & Hp) _]. unfold peek1. set (h := header _ _ _ _) in Hb.
  assert (zlen h = 2 * w + 1) as Hh by (by apply zlen_header).
  apply (load1_at _ (h ++ a) (b ++ [0] ++ free)); [|rewrite zlen_app; lia]. rewrite Hb. by rewrite <-!app_assoc.
Qed.

Fixpoint drop_while (P : Z → bool) (l : bytes) : bytes :=
  match l with [] => [] | x :: l' => if P x then drop_while P l' else l end.

Lemma drop_while_suffix P l : ∃ A, l = A ++ drop_while P l.
Proof.
  induction l as [|x l [A IH]]; simpl; [by exists []|]. destruct (P x); [|by exists []].
  exists (x :: A). simpl. by rewrite <-IH.
Qed.

Lemma drop_while_head P l x r : drop_while P l = x :: r → P x = false.
Proof. induction l as [|y l IH]; simpl; [done|]. destruct (P y) eqn:E; [done|]. by intros [= <- _]. Qed.

Definition drop_while_end (P : Z → bool) (l : bytes) : bytes := reverse (drop_while P (reverse l)).

Lemma drop_while_end_snoc P l x :
  drop_while_end P (l ++ [x]) = if P x then drop_while_end P l else l ++ [x].
Proof.
  unfold drop_while_end. rewrite reverse_app. simpl. destruct (P x); [done|].
  change (x :: reverse l) with ([x] ++ reverse l). by rewrite reverse_app, reverse_involutive.
Qed.

(** A C string in a block, and what [strchr] finds in it. *)
Definition cstring (b t : bytes) : Prop := 0 ∉ t ∧ ∃ junk, b = t ++ 0 :: junk.

Definition found (t : bytes) (c : Z) : bool := bool_decide (c ∈ t) || (c =? 0).

Lemma strchr_ok b t c : cstring b t → strchr b c = Some (found t c).
Proof.
  intros [H0 [junk ->]]. unfold found. induction t as [|x t IH]; cbn [app strchr].
  - destruct (Z.eqb_spec 0 c) as [<-|Hc]; [done|]. simpl. rewrite (proj2 (Z.eqb_neq c 0)) by lia. done.
  - apply not_elem_of_cons in H0 as [Hx H0]. destruct (Z.eqb_spec x c) as [->|Hne].
    + rewrite bool_decide_true; [done|apply list_elem_of_here].
    + rewrite (proj2 (Z.eqb_neq x 0)), IH by (done || lia). do 2 f_equal. apply bool_decide_ext. rewrite elem_of_cons. naive_solver.
Qed.

Lemma trim_left_ok s t w c free cset cs rest : cstring cset cs → ∀ front fuel,
  sds_at s t w c free → c = front ++ rest → (length rest < fuel)%nat →
  trim_left fuel s cset (zlen front) (zlen c - 1) = Some (zlen c - zlen (drop_while (found cs) rest)).
Proof.
  intros Hcs. induction rest as [|x rest IH]; intros front fuel Hs Hc Hf; (destruct fuel; [lia|]); cbn [trim_left].
  - rewrite app_nil_r in Hc. subst. rewrite (proj2 (Z.leb_gt _ _)) by lia. simpl. f_equal. change (zlen []) with 0. lia.
  - assert (zlen c = zlen front + (1 + zlen rest)) as Hz by (subst; zl). zlen_pos.
    rewrite (proj2 (Z.leb_le _ _)) by lia. rewrite Hc in Hs. rewrite (peek1_ok s t w front x rest free Hs).
    cbn [mbind option_bind drop_while]. rewrite (strchr_ok cset cs x Hcs). cbn [mbind option_bind]. destruct (found cs x).
    + specialize (IH (front ++ [x]) fuel). rewrite zlen_app in IH. change (zlen [x]) with 1 in IH.
      apply IH; [by rewrite Hc|by rewrite <-app_assoc|simpl in Hf; lia].
    + f_equal. rewrite zlen_cons. lia.
Qed.

Lemma trim_right_ok s t w front y cset cs m : cstring cset cs → ∀ tail free fuel,
  sds_at s t w (front ++ (y :: m) ++ tail) free → found cs y = false → (length m < fuel)%nat →
  trim_right fuel s cset (zlen front) (zlen front + zlen (y :: m) - 1) =
  Some (zlen front + zlen (drop_while_end (found cs) (y :: m)) - 1).
Proof.
  intros Hcs. induction m as [|x m IH] using rev_ind; intros tail free fuel Hs Hy Hf; (destruct fuel; [lia|]); cbn [trim_right].
  - change (zlen [y]) with 1. rewrite (proj2 (Z.ltb_ge _ _)) by lia.
    change [y] with ([] ++ [y]). rewrite drop_while_end_snoc, Hy. done.
  - assert (zlen (y :: m ++ [x]) = zlen (y :: m) + 1) as Hz by zl. rewrite Hz.
    replace (zlen front + (zlen (y :: m) + 1) - 1) with (zlen (front ++ y :: m)) by zl.
    rewrite (proj2 (Z.ltb_lt _ _)) by zl.
    assert (front ++ (y :: m ++ [x]) ++ tail = (front ++ y :: m) ++ x :: tail) as Heq.
    { simpl. by rewrite <-!app_assoc. }
    rewrite Heq in Hs. rewrite (peek1_ok s t w (front ++ y :: m) x tail free Hs). cbn [mbind option_bind].
    change (y :: m ++ [x]) with ((y :: m) ++ [x]). rewrite drop_while_end_snoc, (strchr_ok cset cs x Hcs).
    cbn [mbind option_bind]. destruct (found cs x).
    + replace (zlen (front ++ y :: m) - 1) with (zlen front + zlen (y :: m) - 1) by zl.
      apply (IH (x :: tail) free); [by rewrite <-app_assoc in Hs|done|]. rewrite length_app in Hf. simpl in Hf. lia.
    + f_equal. zl.
Qed.

Lemma drop_while_end_prefix P l : ∃ B, l = drop_while_end P l ++ B.
Proof.
  unfold drop_while_end. destruct (drop_while_suffix P (reverse l)) as [A HA]. exists (reverse A).
  apply (f_equal reverse) in HA. by rewrite reverse_involutive, reverse_app in HA.
Qed.

Lemma trim_ok s c cset cs :
  sds_rep s c → cstring cset cs →
  ∃ s', sdstrim s cset = Some s' ∧ sds_rep s' (drop_while_end (found cs) (drop_while (found cs) c)).
Proof.
  intros (t & w & free & Hs) Hcs. unfold sdstrim. rewrite (len_ok s t w c free Hs). cbn [mbind option_bind].
  pose proof (trim_left_ok s t w c free cset cs c Hcs [] (S (Z.to_nat (zlen c))) Hs eq_refl) as Hleft.
  change (zlen []) with 0 in Hleft. rewrite Hleft by (unfold zlen; lia). clear Hleft.
  cbn [mbind option_bind]. destruct (drop_while_suffix (found cs) c) as [A HA].
  set (M := drop_while (found cs) c) in *. assert (zlen c = zlen A + zlen M) as Hz by (rewrite HA; zl).
  replace (zlen c - zlen M) with (zlen A) by lia. set (u := drop_while_end (found cs) M).
  destruct (drop_while_end_prefix (found cs) M) as [B HB]. fold u in HB.
  assert (trim_right (S (Z.to_nat (zlen c))) s cset (zlen A) (zlen c - 1) = Some (zlen A + zlen u - 1)) as ->.
  { destruct M as [|y m] eqn:HM.
    - cbn [trim_right]. change (zlen []) with 0 in *. rewrite (proj2 (Z.ltb_ge _ _)) by lia. unfold u. simpl. f_equal.
      change (zlen (drop_while_end (found cs) [])) with 0. lia.
    - replace (zlen c - 1) with (zlen A + zlen (y :: m) - 1) by lia.
      apply (trim_right_ok s t w A y cset cs m Hcs [] free); [by rewrite app_nil_r, <-HA|by eapply drop_while_head|].
      unfold zlen in Hz. simpl in Hz. unfold zlen. lia. }
  cbn [mbind option_bind]. zlen_pos.
  replace (if zlen A + zlen u - 1 <? zlen A then 0 else zlen A + zlen u - 1 - zlen A + 1) with (zlen u)
    by (destruct (Z.ltb_spec (zlen A + zlen u - 1) (zlen A)); lia).
  rewrite HA, HB in Hs.
  destruct (keep_ok s t w A u B free (negb (zlen A =? 0)) Hs) as (s' & F & Hr & Hs' & _).
  { intros Hneg. left. apply zlen_0_nil. destruct (Z.eqb_spec (zlen A) 0); done. }
  exists s'. split; [done|]. by exists t, w, F.
Qed.

(** A position from the end if negative, not before the start. *)
Definition clamp (l i : Z) : Z := if i <? 0 then Z.max 0 (l + i) else i.

Definition range_spec (c : bytes) (start stop : Z) : bytes :=
  let l := zlen c in
  let start := clamp l start in
  let stop := clamp l stop in
  if (stop <? start) || (l <=? start) then []
  else take (Z.to_nat (Z.min stop (l - 1) - start + 1)) (drop (Z.to_nat start) c).

Lemma keep_range s t w c free a n (move : bool) :
  sds_at s t w c free → 0 ≤ a → 0 ≤ n → a + n ≤ zlen c → (move = false → a = 0 ∨ n = 0) →
  ∃ s', (s ← (if move then move_down s a n else Some s); s ← poke s n [0]; sdssetlen s n) = Some s' ∧
    sds_rep s' (take (Z.to_nat n) (drop (Z.to_nat a) c)).
Proof.
  intros Hs Ha Hn Hle Hmove. destruct (list_split3 c a n) as (A & u & B & -> & <- & <- & _); [done..|].
  destruct (keep_ok s t w A u B free move Hs) as (s' & F & Hr & Hs' & _).
  { intros [?|?]%Hmove; [left|right]; by apply zlen_0_nil. }
  exists s'. split; [done|]. unfold zlen. rewrite !Nat2Z.id, drop_app_length, take_app_length. by exists t, w, F.
Qed.

Lemma clamp_code l i :
  0 ≤ l < 2 ^ 31 → in_s 32 i →
  (if i <? 0 then (if swrap 32 (l + i) <? 0 then 0 else swrap 32 (l + i)) else i) = clamp l i ∧
  0 ≤ clamp l i < 2 ^ 31.
Proof.
  intros Hl Hi. unfold in_s in Hi. unfold clamp. change (2 ^ (32 - 1)) with (2 ^ 31) in Hi.
  destruct (Z.ltb_spec i 0); [|lia].
  rewrite swrap_id by (unfold in_s; change (2 ^ (32 - 1)) with (2 ^ 31); lia).
  destruct (Z.ltb_spec (l + i) 0); lia.
Qed.

Lemma span_code a b :
  0 ≤ a → a ≤ b → b - a < 2 ^ 31 - 1 →
  (if b <? a then Some 0 else if b - a + 1 <? 2 ^ 31 then Some (uwrap 64 (b - a + 1)) else None) = Some (b - a + 1).
Proof.
  intros Ha Hab Hb. rewrite (proj2 (Z.ltb_ge b a)), (proj2 (Z.ltb_lt (b - a + 1) _)), uwrap_id by (unfold in_u; lia). done.
Qed.

Lemma range_ok s c start stop :
  sds_rep s c → zlen c < 2 ^ 31 → in_s 32 start → in_s 32 stop → stop < 2 ^ 31 - 1 →
  ∃ s', sdsrange s start stop = Some s' ∧ sds_rep s' (range_spec c start stop).
Proof.
  intros (t & w & free & Hs) Hc Hstart Hstop Hmax. unfold sdsrange, range_spec. rewrite (len_ok s t w c free Hs).
  cbn [mbind option_bind]. zlen_pos. destruct (Z.eqb_spec (zlen c) 0) as [Hz|Hz].
  { exists s. split; [done|]. apply zlen_0_nil in Hz as ->. rewrite drop_nil, take_nil.
    destruct (_ || _); by exists t, w, free. }
  destruct (clamp_code (zlen c) start ltac:(lia) Hstart) as [Ea Ha].
  destruct (clamp_code (zlen c) stop ltac:(lia) Hstop) as [Eb Hb].
  cbv zeta. rewrite Ea, Eb. set (a := clamp (zlen c) start) in *. set (b := clamp (zlen c) stop) in *.
  assert (b < 2 ^ 31 - 1) as Hb1 by (clear Ea Eb; subst b; unfold clamp; destruct (Z.ltb_spec stop 0); lia).
  clearbody a b. clear Ea Eb Hstart Hstop Hmax start stop.
  assert (swrap 32 (zlen c) = zlen c ∧ swrap 32 (zlen c - 1) = zlen c - 1) as [-> ->].
  { split; apply swrap_id; try lia; unfold in_s; change (2 ^ (32 - 1)) with (2 ^ 31); lia. }
  destruct (Z.ltb_spec b a) as [Hlt|Hge]; cbn [orb].
  { cbn [mbind option_bind]. change (negb (0 =? 0)) with false. cbv iota beta.
    apply (keep_range s t w c free 0 0 false Hs); [done|done|lia|auto]. }
  assert (b - a + 1 < 2 ^ 31) as Hsp by lia. apply Z.ltb_lt in Hsp as Hsp2. rewrite Hsp2, (uwrap_id 64 (b - a + 1)) by (unfold in_u; lia). cbn [mbind option_bind].
  replace (b - a + 1 =? 0) with false by (symmetry; apply Z.eqb_neq; lia). cbn [negb].
  destruct (Z.leb_spec (zlen c) a).
  { cbn [mbind option_bind]. change (negb (0 =? 0)) with false. rewrite andb_false_r.
    apply (keep_range s t w c free 0 0 false Hs); [done|done|lia|auto]. }
  destruct (Z.leb_spec (zlen c) b).
  - rewrite (span_code a (zlen c - 1)) by lia. cbn [mbind option_bind]. replace (Z.min b (zlen c - 1)) with (zlen c - 1) by lia.
    apply (keep_range s t w c free); [done|lia|lia|lia|]. intros Hm. apply andb_false_iff in Hm as [Hm|Hm];
      apply negb_false_iff, Z.eqb_eq in Hm; auto.
  - cbn [mbind option_bind]. replace (Z.min b (zlen c - 1)) with b by lia.
    apply (keep_range s t w c free); [done|lia|lia|lia|]. intros Hm. apply andb_false_iff in Hm as [Hm|Hm];
      apply negb_false_iff, Z.eqb_eq in Hm; auto.
Qed.

(** ** Changing every character *)
Lemma map_loop_ok f t w rest : ∀ s front free,
  sds_at s t w (front ++ rest) free →
  ∃ s', map_loop f (length rest) s (zlen front) = Some s' ∧ sds_at s' t w (front ++ map f rest) free.
Proof.
  induction rest as [|x rest IH]; intros s front free Hs; cbn [length map_loop map]; [by exists s|].
  rewrite (peek1_ok s t w front x rest free Hs). cbn [mbind option_bind]. destruct Hs as [Hs Hf].
  destruct (shape_poke s t w _ _ _ Hs front [x] [f x] (rest ++ [0] ++ free) (zlen front)) as (s1 & -> & Hs1);
    [by rewrite <-app_assoc|done|done|]. cbn [mbind option_bind].
  destruct (IH s1 (front ++ [f x]) free) as (s2 & Hr & Hs2).
  - assert (zlen ((front ++ [f x]) ++ rest) = zlen (front ++ x :: rest)) as Hz by zl.
    split; rewrite Hz; [|done]. by rewrite <-!app_assoc.
  - rewrite zlen_app in Hr. change (zlen [f x]) with 1 in Hr. exists s2. split; [done|]. by rewrite <-app_assoc in Hs2.
Qed.

Lemma tolower_ok s c : sds_rep s c → zlen c < 2 ^ 31 → ∃ s', sdstolower s = Some s' ∧ sds_rep s' (map tolower c).
Proof.
  intros (t & w & free & Hs) Hc. unfold sdstolower. rewrite (len_ok s t w c free Hs). cbn [mbind option_bind]. zlen_pos.
  rewrite swrap_id by (lia || unfold in_s; change (2 ^ (32 - 1)) with (2 ^ 31); lia).
  unfold zlen. rewrite Nat2Z.id. destruct (map_loop_ok tolower t w c s [] free Hs) as (s' & Hr & Hs').
  exists s'. split; [done|]. by exists t, w, free.
Qed.

Lemma mapchars_ok s c from to n f g :
  sds_rep s c → load from 0 n = Some f → load to 0 n = Some g →
  ∃ s', sdsmapchars s from to n = Some s' ∧ sds_rep s' (map (mapchar f g) c).
Proof.
  intros (t & w & free & Hs) Hf Hg. unfold sdsmapchars. rewrite (len_ok s t w c free Hs), Hf, Hg. cbn [mbind option_bind].
  unfold zlen. rewrite Nat2Z.id. destruct (map_loop_ok (mapchar f g) t w c s [] free Hs) as (s' & Hr & Hs').
  exists s'. split; [done|]. by exists t, w, free.
Qed.
End Sds.
