(* ===== verification/SdsRefine.v ===== *)
(** * What sds.c promises

    Sessions of operations on a string, numbers, comparison, and appending in
    place with [sdsMakeRoomFor] and [sdsIncrLen]. *)

From Stdlib Require Import String.
From stdpp Require Import list.
From S2P Require Import Prelude.
From S2P Require Import Mem.
From S2P Require Import Util.
From S2P Require Import Sds.
From S2P Require Import SdsSpec.
Import Sds.

(** ** Numbers *)
Lemma rev_digits_ok v : ∀ fuel,
  in_u 64 v → (length (Util.dec v) ≤ fuel)%nat → rev_digits fuel v = Some (reverse (Util.dec v)).
Proof.
  intros fuel. revert v. induction fuel as [|fuel IH]; intros v Hv Hf.
  { pose proof (Util.dec_len_u64 v Hv). unfold zlen in *. lia. }
  cbn [rev_digits]. unfold in_u in Hv. destruct (Z.lt_ge_cases v 10) as [Hlt|Hge].
  - rewrite Util.dec_small, Z.div_small, Z.mod_small by lia. done.
  - assert (1 ≤ v / 10) by (apply Z.div_le_lower_bound; lia).
    assert (v / 10 < v) by (apply Z.div_lt; lia).
    rewrite Util.dec_step, length_app in Hf by done. simpl in Hf.
    rewrite (proj2 (Z.eqb_neq (v / 10) 0)) by lia. rewrite IH by (unfold in_u; lia).
    cbn [mbind option_bind]. by rewrite (Util.dec_step v), reverse_app by done.
Qed.

Lemma swap_loop_ok n : ∀ (P M S : bytes) fuel,
  (length M ≤ n)%nat → (length M < 2 * fuel)%nat →
  swap_loop fuel (P ++ M ++ S) (zlen P) (zlen P + zlen M - 1) = Some (P ++ reverse M ++ S).
Proof.
  induction n as [|n IH]; intros P M S fuel Hn Hf; (destruct fuel as [|fuel]; [lia|]); cbn [swap_loop].
  { destruct M; [|simpl in Hn; lia]. change (zlen []) with 0. by rewrite (proj2 (Z.ltb_ge _ _)) by lia. }
  destruct M as [|x M]; [change (zlen []) with 0; by rewrite (proj2 (Z.ltb_ge _ _)) by lia|].
  destruct M as [|y M _] using rev_ind; [change (zlen [x]) with 1; by rewrite (proj2 (Z.ltb_ge _ _)) by lia|].
  simpl in Hn, Hf. rewrite length_app in Hn, Hf. simpl in Hn, Hf.
  assert (zlen (x :: M ++ [y]) = zlen M + 2) as Hz by zl. rewrite Hz. zlen_pos.
  rewrite (proj2 (Z.ltb_lt _ _)) by lia.
  rewrite (load1_at (P ++ (x :: M ++ [y]) ++ S) P ((M ++ [y]) ++ S) x (zlen P)) by done. cbn [mbind option_bind].
  rewrite (load1_at (P ++ (x :: M ++ [y]) ++ S) (P ++ x :: M) S y) by (zl || app_norm; reflexivity). cbn [mbind option_bind].
  rewrite (store_at (P ++ (x :: M ++ [y]) ++ S) P [x] [y] ((M ++ [y]) ++ S)) by done. cbn [mbind option_bind].
  rewrite (store_at _ (P ++ y :: M) [y] [x] S); [|by rewrite <-!app_assoc|zl|done]. cbn [mbind option_bind].
  specialize (IH (P ++ [y]) M ([x] ++ S) fuel ltac:(lia) ltac:(lia)).
  assert (zlen (P ++ [y]) = zlen P + 1) as HP by zl. rewrite HP in IH.
  replace (zlen P + (zlen M + 2) - 1 - 1) with (zlen P + 1 + zlen M - 1) by lia.
  replace ((P ++ y :: M) ++ [x] ++ S) with ((P ++ [y]) ++ M ++ [x] ++ S) by (rewrite <-!app_assoc; done).
  rewrite IH. f_equal. rewrite reverse_cons, reverse_app. simpl. by rewrite <-!app_assoc.
Qed.

Lemma finish_ll_ok buf ds :
  (0 < length ds)%nat → zlen ds + 1 ≤ zlen buf →
  ∃ rest, finish_ll buf ds = Some (reverse ds ++ 0 :: rest, zlen ds).
Proof.
  intros Hd Hz. unfold finish_ll.
  destruct (list_split3 buf (zlen ds) 1) as (B & y & rest & -> & HB & Hy & _); [zl|lia|lia|].
  rewrite (store_at _ [] B ds (y ++ rest)); [|done|done|lia]. cbn [mbind option_bind app].
  rewrite (store_at _ ds y [0] rest); [|done|done|done]. cbn [mbind option_bind].
  pose proof (swap_loop_ok (length ds) [] ds ([0] ++ rest) (length ds) ltac:(lia) ltac:(lia)) as Hsw.
  change (zlen []) with 0 in Hsw. rewrite Z.add_0_l in Hsw. cbn [app] in Hsw. cbn [app]. rewrite Hsw.
  cbn [mbind option_bind]. by exists rest.
Qed.

Lemma ll2str_ok buf v :
  in_s 64 v → SDS_LLSTR_SIZE ≤ zlen buf →
  ∃ rest, sdsll2str buf v = Some (Util.print v ++ 0 :: rest, zlen (Util.print v)).
Proof.
  intros Hv Hz. unfold sdsll2str, SDS_LLSTR_SIZE in *. unfold in_s in Hv. change (2 ^ (64 - 1)) with 9223372036854775808 in Hv.
  assert (in_u 64 (Z.abs v)) as Hu by (unfold in_u; change (2 ^ 64) with 18446744073709551616; lia).
  pose proof (Util.dec_len_u64 _ Hu) as Hl.
  assert ((if v <? 0 then uwrap 64 (- v) else v) = Z.abs v) as ->.
  { destruct (Z.ltb_spec v 0); [|lia]. rewrite uwrap_id; [lia|]. unfold in_u in *. lia. }
  rewrite rev_digits_ok by (done || unfold zlen in Hl; lia). cbn [mbind option_bind]. rewrite Util.print_split.
  set (ds := if v <? 0 then _ else _).
  assert (zlen (Util.dec (Z.abs v)) < 20 ∨ 0 ≤ v) as Hneg.
  { destruct (Z.lt_ge_cases v 0); [left|by right].
    enough (zlen (Util.dec (Z.abs v)) ≤ 19) by lia. apply (Util.dec_len_le 18). cbn. lia. }
  assert (reverse ds = (if v <? 0 then [Util.ch_minus] else []) ++ Util.dec (Z.abs v)) as Hrev.
  { unfold ds. destruct (v <? 0); [rewrite reverse_app|]; by rewrite reverse_involutive. }
  destruct (finish_ll_ok buf ds) as (rest & Hf).
  - rewrite <-(reverse_involutive ds), length_reverse, Hrev, length_app. unfold zlen in Hl. lia.
  - assert (zlen ds = zlen (reverse ds)) as -> by (unfold zlen; by rewrite length_reverse).
    rewrite Hrev, zlen_app. destruct (Z.ltb_spec v 0); change (zlen [Util.ch_minus]) with 1; change (zlen []) with 0; lia.
  - exists rest. rewrite Hf, Hrev. do 2 f_equal. unfold zlen. by rewrite <-Hrev, length_reverse.
Qed.

Section Refine.
Context `{Alloc}.

(** What the caller sees of a string: its length, its bytes and the NUL. *)
Lemma rep_view s c :
  sds_rep s c → sdslen s = Some (zlen c) ∧ peek s 0 (zlen c) = Some c ∧ peek1 s (zlen c) = Some 0.
Proof.
  intros (t & w & free & Hs). split; [by eapply len_ok|]. destruct Hs as [Hs _]. split.
  - by apply (shape_peek s t w _ _ _ Hs [] c ([0] ++ free)).
  - unfold peek1. pose proof (shape_peek s t w _ _ _ Hs c [0] free (zlen c) 1) as Hp. unfold peek in Hp.
    destruct Hs as (Ht & Hb & Hpt). set (h := header _ _ _ _) in Hb.
    assert (zlen h = 2 * w + 1) as Hh by (by apply zlen_header).
    apply (load1_at _ (h ++ c) free); [|rewrite zlen_app; lia]. rewrite Hb. by rewrite <-app_assoc.
Qed.

Lemma from_ptr_load s c : sds_rep s c → load (from_ptr s) 0 (zlen c) = Some c.
Proof.
  intros (t & w & free & [(Ht & Hb & Hp) _]). unfold from_ptr. rewrite Hb, Hp.
  rewrite drop_app_length' by (pose proof (zlen_header t w (zlen c) (zlen c + zlen free) Ht); unfold zlen in *; lia).
  by apply (load_at _ [] c ([0] ++ free)).
Qed.

Lemma catsds_ok s t c u :
  sds_rep s c → sds_rep t u → zlen c + zlen u < 2 ^ 62 →
  ∃ s', sdscatsds s t = Some s' ∧ sds_rep s' (c ++ u).
Proof.
  intros Hs Ht Hl. unfold sdscatsds. destruct (rep_view t u Ht) as (-> & _). cbn [mbind option_bind].
  by apply catlen_ok; [|apply from_ptr_load|].
Qed.

(** ** Sessions *)
Inductive sop :=
  | SCat (t : bytes) | SCpy (t : bytes) | SGrow (n : Z) | SClear | STrim (cset : bytes)
  | SRange (start stop : Z) | SLower | SReserve (n : Z) | SShrink | SDup.

Definition run_sop (o : sop) (s : sds) : option sds :=
  match o with
  | SCat t => sdscatlen s t (zlen t)
  | SCpy t => sdscpylen s t (zlen t)
  | SGrow n => sdsgrowzero s n
  | SClear => sdsclear s
  | STrim cset => sdstrim s (cset ++ [0])
  | SRange start stop => sdsrange s start stop
  | SLower => sdstolower s
  | SReserve n => sdsMakeRoomFor s n
  | SShrink => sdsRemoveFreeSpace s
  | SDup => sdsdup s
  end.

Definition in_set (cset : bytes) (c : Z) : bool := bool_decide (c ∈ cset).

(** The part without the characters of a set at its ends. *)
Definition trim_spec (cset c : bytes) : bytes := drop_while_end (in_set cset) (drop_while (in_set cset) c).

Definition spec_sop (o : sop) (c : bytes) : bytes :=
  match o with
  | SCat t => c ++ t
  | SCpy t => t
  | SGrow n => c ++ replicate (Z.to_nat (n - zlen c)) 0
  | SClear => []
  | STrim cset => trim_spec cset c
  | SRange start stop => range_spec c start stop
  | SLower => map tolower c
  | SReserve _ | SShrink | SDup => c
  end.

(** What an operation may add to the length, and its arguments in range. *)
Definition sop_cost (o : sop) : Z :=
  match o with
  | SCat t | SCpy t => zlen t
  | SGrow n | SReserve n => n
  | _ => 0
  end.

(** The set of a trim is a C string, and what is left of the string neither starts nor
    ends with a NUL byte; the last position of a range is below INT_MAX. *)
Definition sop_ok (o : sop) (c : bytes) : Prop :=
  match o with
  | SGrow n | SReserve n => 0 ≤ n
  | SRange start stop => in_s 32 start ∧ in_s 32 stop ∧ stop < 2 ^ 31 - 1
  | STrim cset => 0 ∉ cset ∧ head (trim_spec cset c) ≠ Some 0 ∧ last (trim_spec cset c) ≠ Some 0
  | _ => True
  end.

Fixpoint sops_ok (os : list sop) (c : bytes) : Prop :=
  match os with [] => True | o :: os => sop_ok o c ∧ sops_ok os (spec_sop o c) end.

(** A second test that also holds for other bytes stops at the same place if that byte
    is not one of them. *)
Lemma drop_while_weaken (P Q : Z → bool) l :
  (∀ x, P x = true → Q x = true) → (∀ x r, drop_while P l = x :: r → Q x = false) → drop_while Q l = drop_while P l.
Proof.
  intros HPQ. induction l as [|x l IH]; [done|]. cbn [drop_while]. destruct (P x) eqn:E.
  - rewrite HPQ by done. apply IH.
  - intros Hst. by rewrite (Hst x l).
Qed.

Lemma found_in_set cset x : found cset x = in_set cset x || (x =? 0).
Proof. done. Qed.

Lemma trim_spec_found cset c :
  head (trim_spec cset c) ≠ Some 0 → last (trim_spec cset c) ≠ Some 0 →
  drop_while_end (found cset) (drop_while (found cset) c) = trim_spec cset c.
Proof.
  intros Hh Hl. assert (∀ x, in_set cset x = true → found cset x = true) as Hw by (intros x Hx; by rewrite found_in_set, Hx).
  assert (∀ x, x ≠ 0 → in_set cset x = false → found cset x = false) as Hf
    by (intros x Hx Hi; rewrite found_in_set, Hi; by apply Z.eqb_neq).
  unfold trim_spec in *. rewrite (drop_while_weaken (in_set cset) (found cset) c Hw).
  - unfold drop_while_end in *. f_equal. apply drop_while_weaken; [done|]. intros x r Hd. apply Hf; [|by eapply drop_while_head].
    intros ->. apply Hl. rewrite Hd, reverse_cons, last_snoc. done.
  - intros x r Hd. pose proof (drop_while_head _ _ _ _ Hd) as Hx. apply Hf; [|done]. intros ->. apply Hh. rewrite Hd.
    destruct (drop_while_end_prefix (in_set cset) (0 :: r)) as [B HB].
    destruct (drop_while_end (in_set cset) (0 :: r)) as [|y u] eqn:E.
    + exfalso. clear -E Hx. unfold drop_while_end in E. apply (f_equal reverse) in E. rewrite reverse_involutive, reverse_cons in E.
      induction (reverse r) as [|z l IH]; simpl in E; [by rewrite Hx in E|]. destruct (in_set cset z); [by apply IH|done].
    + injection HB as <- _. done.
Qed.

Lemma load_all (t : bytes) : load t 0 (zlen t) = Some t.
Proof. apply (load_at _ [] t []); [by rewrite app_nil_r|done|done]. Qed.

Lemma run_sop_ok o s c :
  sds_rep s c → sop_ok o c → zlen c + sop_cost o < 2 ^ 31 →
  ∃ s', run_sop o s = Some s' ∧ sds_rep s' (spec_sop o c).
Proof.
  intros Hs Ho Hc. zlen_pos. destruct o as [t|t|n| |cset|start stop| |n| |]; simpl in *.
  - apply catlen_ok; [done|apply load_all|lia].
  - zlen_pos. by apply (cpylen_ok s c); [|apply load_all|lia|lia].
  - apply growzero_ok; [done|lia|lia].
  - destruct Hs as (t & w & free & Hs). destruct (clear_ok s t w c free Hs) as (s' & F & Hr & Hs' & _).
    exists s'. split; [done|]. by exists t, w, F.
  - destruct Ho as (Hn & Hh & Hl). rewrite <-trim_spec_found by done. apply trim_ok; [done|]. split; [done|by exists []].
  - destruct Ho as (? & ? & ?). apply range_ok; [done|lia|done..].
  - apply tolower_ok; [done|lia].
  - destruct Hs as (t & w & free & Hs). destruct (makeroom_ok s t w c free n Hs) as (s' & t' & w' & F & Hr & Hs' & _); [done|lia|].
    exists s'. split; [done|]. by exists t', w', F.
  - destruct (removefree_ok s c Hs) as (s' & t' & w' & Hr & Hs'); [lia|]. exists s'. split; [done|]. by exists t', w', [].
  - unfold sdsdup. destruct (rep_view s c Hs) as (-> & _). cbn [mbind option_bind].
    apply (newlen_ok (Some (from_ptr s)) (zlen c) c); [lia|done|by apply from_ptr_load].
Qed.

Lemma spec_sop_len o c : sop_ok o c → zlen (spec_sop o c) ≤ zlen c + sop_cost o.
Proof.
  intros Ho. zlen_pos. destruct o as [t|t|n| |cset|start stop| |n| |]; simpl in *; try lia.
  - zl.
  - rewrite zlen_app, zlen_replicate. lia.
  - change (zlen []) with 0. lia.
  - unfold trim_spec. destruct (drop_while_suffix (in_set cset) c) as [A HA]. set (M := drop_while _ c) in *.
    destruct (drop_while_end_prefix (in_set cset) M) as [B HB].
    apply (f_equal zlen) in HA, HB. rewrite zlen_app in HA, HB. zlen_pos. lia.
  - unfold range_spec. destruct (_ || _); [change (zlen []) with 0; lia|]. unfold zlen.
    rewrite length_take, length_drop. lia.
  - rewrite zlen_map. lia.
Qed.

Fixpoint run_sops (os : list sop) (s : sds) : option sds :=
  match os with [] => Some s | o :: os => s ← run_sop o s; run_sops os s end.

Definition spec_sops (os : list sop) (c : bytes) : bytes := foldl (λ c o, spec_sop o c) c os.

Definition total_cost (os : list sop) : Z := foldr (λ o n, sop_cost o + n) 0 os.

(** C14: any sequence of appends, copies, growths, trims, ranges, reservations,
    shrinks and duplications on a fresh string runs inside its blocks and leaves
    a well formed string with the bytes of the same operations on lists, NUL
    terminated and with its length, whatever header types it goes through.  The
    conditions: the string stays below 2^31 bytes, the end of a range is below INT_MAX,
    and what a trim leaves neither starts nor ends with a NUL byte. *)
Theorem sds_refines_bytes os init :
  sops_ok os init → Forall (λ o, 0 ≤ sop_cost o) os → zlen init + total_cost os < 2 ^ 31 →
  ∃ s0 s, sdsnewlen (Some init) (zlen init) = Some s0 ∧ run_sops os s0 = Some s ∧
    sds_rep s (spec_sops os init) ∧
    sdslen s = Some (zlen (spec_sops os init)) ∧
    peek s 0 (zlen (spec_sops os init)) = Some (spec_sops os init) ∧
    peek1 s (zlen (spec_sops os init)) = Some 0.
Proof.
  intros Hok Hcost Hlen.
  assert (∀ s c, sds_rep s c → sops_ok os c → zlen c + total_cost os < 2 ^ 31 →
    ∃ s', run_sops os s = Some s' ∧ sds_rep s' (spec_sops os c)) as Hrun.
  { clear Hok Hlen init. induction os as [|o os IH]; intros s c Hs Hok Hlen; [by exists s|].
    destruct Hok as [Ho Hok]. apply Forall_cons in Hcost as [Hc Hcost]. simpl in Hlen.
    assert (0 ≤ total_cost os) by (clear -Hcost; induction Hcost; simpl; lia).
    destruct (run_sop_ok o s c Hs Ho) as (s' & Hr & Hs'); [lia|]. cbn [run_sops]. rewrite Hr. cbn [mbind option_bind].
    apply IH; [done|done|done|]. pose proof (spec_sop_len o c Ho). lia. }
  assert (0 ≤ total_cost os) by (clear -Hcost; induction Hcost; simpl; lia). zlen_pos.
  destruct (newlen_ok (Some init) (zlen init) init) as (s0 & Hnew & Hs0); [lia|done|apply load_all|].
  destruct (Hrun s0 init Hs0 Hok Hlen) as (s & Hr & Hs). exists s0, s. split; [done|]. split; [done|]. split; [done|].
  by apply rep_view.
Qed.

(** On a string that starts with a NUL byte the code trims that byte too, whatever the
    set is: strchr finds the terminator of the set. *)
Theorem sdstrim_nul s (c cset : bytes) :
  sds_rep s (0 :: c) → 0 ∉ cset → head c ≠ Some 0 → last c ≠ Some 0 → trim_spec cset c = c →
  ∃ s', sdstrim s (cset ++ [0]) = Some s' ∧ sds_rep s' c ∧ trim_spec cset (0 :: c) ≠ c.
Proof.
  intros Hs Hn Hh Hl Hc. destruct (trim_ok s (0 :: c) (cset ++ [0]) cset Hs) as (s' & Hr & Hs'); [split; [done|by exists []]|].
  exists s'. split; [done|]. split.
  - cbn [drop_while] in Hs'. rewrite found_in_set in Hs'. rewrite orb_true_r in Hs'.
    rewrite trim_spec_found, Hc in Hs' by (by rewrite Hc). done.
  - unfold trim_spec. cbn [drop_while]. assert (in_set cset 0 = false) as Hi by (by apply bool_decide_eq_false). rewrite Hi.
    destruct (drop_while_end_prefix (in_set cset) (0 :: c)) as [B HB]. intros Heq. rewrite Heq in HB.
    destruct c as [|x c]; [|injection HB as <- _; by apply Hh].
    change [0] with (([] : bytes) ++ [0]) in Heq. rewrite drop_while_end_snoc, Hi in Heq. done.
Qed.

(** The sum for the new length overflows for a range from the first character to INT_MAX. *)
Theorem sdsrange_overflow s c : sds_rep s c → c ≠ [] → sdsrange s 0 (2 ^ 31 - 1) = None.
Proof.
  intros Hs Hc. unfold sdsrange. destruct (rep_view s c Hs) as (-> & _). cbn [mbind option_bind].
  destruct (Z.eqb_spec (zlen c) 0) as [?%zlen_0_nil|]; done.
Qed.

(** ** Appending in place *)
Lemma incrlen_ok s t w (c free u F : bytes) :
  shape s t w (zlen c) (zlen c + zlen free) (c ++ u ++ F) → fits t w (zlen c) (zlen c + zlen free) →
  t ≠ SDS_TYPE_5 → zlen u + zlen F = 1 + zlen free → zlen u ≤ zlen free → zlen u < 2 ^ 31 →
  ∃ s', sdsIncrLen s (zlen u) = Some s' ∧ sds_rep s' (c ++ u).
Proof.
  intros Hs Hf Hne HF Hroom Hu. zlen_pos. unfold sdsIncrLen. rewrite (flags_shape _ _ _ _ _ _ Hs). cbn [mbind option_bind].
  pose proof Hs as (Ht & _ & _). rewrite (flag_type t w) by done.
  rewrite (proj2 (Z.eqb_neq t SDS_TYPE_5) Hne). destruct (typed_width t w Ht Hne) as [-> Hw].
  destruct (fits_u _ _ _ _ Hf Hne) as [Hl Ha]. destruct (width_64 t w Ht) as [Hw8 Hw4].
  rewrite (shape_hdr_len s t w _ _ _ Hs Hne Hl). cbn [mbind option_bind].
  rewrite (shape_hdr_alloc s t w _ _ _ Hs Hne Ha). cbn [mbind option_bind].
  replace (zlen c + zlen free - zlen c) with (zlen free) by lia.
  assert (2 ^ (8 * w) ≤ 2 ^ 64) as Hpow by (apply Z.pow_le_mono_r; lia). unfold in_u in Hl, Ha.
  assert ((if w =? 4 then uwrap 32 (zlen free) else if w =? 8 then uwrap 64 (zlen free) else zlen free) = zlen free) as ->.
  { destruct (Z.eqb_spec w 4) as [Hw'|]; [apply uwrap_id; unfold in_u; rewrite (Hw4 Hw') in Ha; lia|].
    destruct (w =? 8); [apply uwrap_id; unfold in_u; lia|done]. }
  rewrite (proj2 (Z.leb_le 0 (zlen u))), (proj2 (Z.leb_le (zlen u) (zlen free))) by lia. cbn [andb orb].
  rewrite (uwrap_id (8 * w)) by (unfold in_u; lia).
  destruct (shape_set_hdr_len s t w _ _ _ Hs (zlen c + zlen u) Hne) as (s1 & -> & Hs1). cbn [mbind option_bind].
  destruct F as [|y F]; [change (zlen []) with 0 in HF; lia|]. rewrite zlen_cons in HF.
  destruct (shape_poke s1 t w _ _ _ Hs1 (c ++ u) [y] [0] F (zlen c + zlen u)) as (s2 & -> & Hs2);
    [by rewrite <-app_assoc|zl|done|]. exists s2. split; [done|]. exists t, w, F. unfold sds_at. rewrite zlen_app.
  replace (zlen c + zlen u + zlen F) with (zlen c + zlen free) by lia. split; [done|].
  apply (fits_len t w _ _ _ Hf); [lia|done].
Qed.

(** The idiom of the header comment: reserve [n] bytes, let the caller write
    up to [n] bytes after the end, fix the length with [sdsIncrLen]; the result is
    the string with those bytes appended, and no write leaves the block. *)
Theorem sdsIncrLen_append s (c u : bytes) n :
  sds_rep s c → 0 < n → zlen u ≤ n → zlen u < 2 ^ 31 → zlen c + n < 2 ^ 62 →
  ∃ s1 s2 s3, sdsMakeRoomFor s n = Some s1 ∧ poke s1 (zlen c) u = Some s2 ∧
    sdsIncrLen s2 (zlen u) = Some s3 ∧ sds_rep s3 (c ++ u).
Proof.
  intros (t & w & free & Hs) Hn Hu Hu31 Hlt.
  destruct (makeroom_ok s t w c free n Hs) as (s1 & t1 & w1 & F1 & Hr1 & [Hs1 Hf1] & Hroom & H5); [lia|lia|].
  assert (t1 ≠ SDS_TYPE_5) as Hne by (intros ?%H5; lia). zlen_pos.
  destruct (list_split ([0] ++ F1) (zlen u)) as (Y & F2 & HY & HzY & HzF); [zl|].
  destruct (shape_poke s1 t1 w1 _ _ _ Hs1 c Y u F2 (zlen c)) as (s2 & Hr2 & Hs2); [by rewrite HY|done|done|].
  destruct (incrlen_ok s2 t1 w1 c F1 u F2 Hs2 Hf1 Hne) as (s3 & Hr3 & Hs3); [|lia|done|].
  { rewrite HzF, zlen_app. change (zlen [0]) with 1. lia. }
  exists s1, s2, s3. done.
Qed.

(** ** Comparing *)
(** The lexicographic order of byte strings, as a sign. *)
Fixpoint lex (a b : bytes) : Z :=
  match a, b with
  | [], [] => 0
  | [], _ :: _ => -1
  | _ :: _, [] => 1
  | x :: a, y :: b => if x =? y then lex a b else Z.sgn (x - y)
  end.

Lemma lex_0 a : ∀ b, lex a b = 0 ↔ a = b.
Proof.
  induction a as [|x a IH]; intros [|y b]; simpl; try done.
  destruct (Z.eqb_spec x y) as [->|Hne].
  - rewrite IH. naive_solver.
  - rewrite Z.sgn_null_iff. split; [lia|]. by intros [= -> _].
Qed.

Lemma lex_memcmp (a : bytes) : ∀ b : bytes,
  let n := Nat.min (length a) (length b) in
  lex a b = if memcmp (take n a) (take n b) =? 0 then Z.sgn (zlen a - zlen b)
            else Z.sgn (memcmp (take n a) (take n b)).
Proof.
  induction a as [|x a IH]; intros [|y b]; cbn [lex length Nat.min take memcmp Z.eqb].
  - done.
  - change (zlen []) with 0. rewrite zlen_cons. pose proof (zlen_nonneg b). by rewrite Z.sgn_neg by lia.
  - change (zlen []) with 0. rewrite zlen_cons. pose proof (zlen_nonneg a). by rewrite Z.sgn_pos by lia.
  - destruct (Z.eqb_spec x y) as [->|Hne].
    + rewrite IH. replace (zlen (y :: a) - zlen (y :: b)) with (zlen a - zlen b) by (rewrite !zlen_cons; lia). done.
    + by rewrite (proj2 (Z.eqb_neq (x - y) 0)) by lia.
Qed.

Lemma peek_prefix s c n : sds_rep s c → 0 ≤ n ≤ zlen c → peek s 0 n = Some (take (Z.to_nat n) c).
Proof.
  intros (t & w & free & [Hs _]) Hn. destruct (list_split c n) as (a & b & -> & Ha & _); [done|].
  rewrite (shape_peek s t w _ _ _ Hs [] a (b ++ [0] ++ free)); [|by rewrite <-app_assoc|done|done].
  f_equal. rewrite <-Ha. unfold zlen. by rewrite Nat2Z.id, take_app_length.
Qed.

(** What [sdscmp] computes of the contents. *)
Definition cmp_bytes (c1 c2 : bytes) : Z :=
  let n := Nat.min (length c1) (length c2) in
  let r := memcmp (take n c1) (take n c2) in
  if r =? 0 then swrap 32 (zlen c1 - zlen c2) else r.

Lemma cmp_ok s1 s2 c1 c2 :
  sds_rep s1 c1 → sds_rep s2 c2 → sdscmp s1 s2 = Some (cmp_bytes c1 c2).
Proof.
  intros Hc1 Hc2. unfold sdscmp, cmp_bytes. destruct (rep_view s1 c1 Hc1) as (-> & _), (rep_view s2 c2 Hc2) as (-> & _).
  cbn [mbind option_bind]. set (m := if _ <? _ then _ else _).
  assert (m = Z.of_nat (Nat.min (length c1) (length c2))) as ->.
  { unfold m, zlen. destruct (Z.ltb_spec (Z.of_nat (length c1)) (Z.of_nat (length c2))); lia. }
  rewrite (peek_prefix s1 c1), (peek_prefix s2 c2) by (done || unfold zlen; lia). cbn [mbind option_bind].
  by rewrite Nat2Z.id.
Qed.

Lemma cmp_bytes_lex c1 c2 :
  zlen c1 < 2 ^ 31 → zlen c2 < 2 ^ 31 →
  Z.sgn (cmp_bytes c1 c2) = lex c1 c2 ∧ (cmp_bytes c1 c2 = 0 ↔ c1 = c2).
Proof.
  intros Hl1 Hl2. zlen_pos. unfold cmp_bytes.
  rewrite swrap_id by (lia || unfold in_s; change (2 ^ (32 - 1)) with (2 ^ 31); lia).
  rewrite <-lex_0, lex_memcmp. set (r := memcmp _ _). destruct (Z.eqb_spec r 0); (split; [done|]); by rewrite Z.sgn_null_iff.
Qed.

(** For strings shorter than 2^31 bytes the sign of [sdscmp] is the
    lexicographic order, with the shorter string first; 0 means equal. *)
Theorem sdscmp_order s1 s2 c1 c2 :
  sds_rep s1 c1 → sds_rep s2 c2 → zlen c1 < 2 ^ 31 → zlen c2 < 2 ^ 31 →
  ∃ r, sdscmp s1 s2 = Some r ∧ Z.sgn r = lex c1 c2 ∧ (r = 0 ↔ c1 = c2).
Proof.
  intros Hc1 Hc2 Hl1 Hl2. eexists. split; [by apply cmp_ok|]. by apply cmp_bytes_lex.
Qed.

(** The difference of the lengths is truncated to an [int]: a string of 2^32
    zero bytes compares equal to the empty string. *)
Theorem sdscmp_wraps :
  ∃ s1 s2 c1 c2, sds_rep s1 c1 ∧ sds_rep s2 c2 ∧ c1 ≠ c2 ∧ sdscmp s1 s2 = Some 0.
Proof.
  assert (∃ k : nat, Z.of_nat k = 2 ^ 32) as [k Hk] by (exists (Z.to_nat (2 ^ 32)); apply Z2Nat.id; lia).
  destruct (newlen_ok None (Z.of_nat k) (replicate k 0)) as (s1 & _ & Hc1);
    [rewrite Hk; lia|by rewrite zlen_replicate|by rewrite Nat2Z.id|].
  destruct (newlen_ok None 0 []) as (s2 & _ & Hc2); [lia|done|done|].
  exists s1, s2, (replicate k 0), []. split; [exact Hc1|]. split; [exact Hc2|]. split.
  - intros Heq. apply (f_equal zlen) in Heq. rewrite zlen_replicate in Heq. change (zlen []) with 0 in Heq. lia.
  - rewrite (cmp_ok _ _ _ _ Hc1 Hc2). unfold cmp_bytes. rewrite Nat.min_0_r. cbn [take memcmp Z.eqb]. f_equal.
    rewrite zlen_replicate, Hk. reflexivity.
Qed.

(** ** Joining and numbers *)
Fixpoint join_spec (cs : list bytes) (sep : bytes) : bytes :=
  match cs with
  | [] => []
  | c :: rest => c ++ match rest with [] => [] | _ => sep end ++ join_spec rest sep
  end.

Lemma join_loop_ok sep argv : ∀ cs j c,
  sds_rep j c → Forall2 sds_rep argv cs → zlen c + zlen (join_spec cs sep) < 2 ^ 62 →
  ∃ s, join_loop j argv sep = Some s ∧ sds_rep s (c ++ join_spec cs sep).
Proof.
  induction argv as [|a argv IH]; intros cs j c Hj Hall Hlen.
  - apply Forall2_nil_inv_l in Hall as ->. simpl. rewrite app_nil_r. eauto.
  - apply Forall2_cons_inv_l in Hall as (u & us & Ha & Hall & ->). cbn [join_loop join_spec] in *.
    rewrite !zlen_app in Hlen. zlen_pos.
    destruct (catsds_ok j a c u Hj Ha) as (j1 & -> & Hj1); [lia|]. cbn [mbind option_bind].
    assert (∃ j2, match argv with [] => Some j1 | _ => sdscatlen j1 sep (zlen sep) end = Some j2 ∧
      sds_rep j2 (c ++ u ++ match us with [] => [] | _ => sep end)) as (j2 & -> & Hj2).
    { destruct Hall as [|b v argv us Hb Hall].
      - exists j1. rewrite app_nil_r. done.
      - destruct (catlen_ok j1 (c ++ u) sep (zlen sep) sep Hj1) as (j2 & Hr & Hj2); [apply load_all|zl|].
        exists j2. by rewrite <-app_assoc in Hj2. }
    cbn [mbind option_bind]. destruct (IH us j2 _ Hj2 Hall) as (s & Hr & Hs); [rewrite !zlen_app; lia|].
    exists s. split; [done|]. by rewrite <-!app_assoc in Hs.
Qed.

(** [sdsjoinsds] concatenates the strings with the separator between them. *)
Theorem sdsjoinsds_correct argv cs sep :
  Forall2 sds_rep argv cs → zlen (join_spec cs sep) < 2 ^ 62 →
  ∃ s, sdsjoinsds argv sep = Some s ∧ sds_rep s (join_spec cs sep).
Proof.
  intros Hall Hlen. unfold sdsjoinsds, sdsempty.
  destruct (newlen_ok (Some [0]) 0 []) as (j & -> & Hj); [lia|done|by apply (load_at _ [] [] [0])|]. cbn [mbind option_bind].
  apply (join_loop_ok sep argv cs j [] Hj Hall). done.
Qed.

Lemma fromlonglong_ok v :
  in_s 64 v → ∃ s, sdsfromlonglong v = Some s ∧ sds_rep s (Util.print v).
Proof.
  intros Hv. unfold sdsfromlonglong.
  destruct (ll2str_ok (zmalloc SDS_LLSTR_SIZE) v Hv) as (rest & ->).
  { unfold zmalloc. rewrite zlen_fresh. done. }
  cbn [mbind option_bind].
  destruct (newlen_ok (Some (Util.print v ++ 0 :: rest)) (zlen (Util.print v)) (Util.print v)) as (s & Hr & Hs).
  - unfold in_s in Hv. change (2 ^ (64 - 1)) with 9223372036854775808 in Hv.
    assert (in_u 64 (Z.abs v)) as Hu by (unfold in_u; change (2 ^ 64) with 18446744073709551616; lia).
    pose proof (Util.dec_len_u64 _ Hu). rewrite Util.print_split, zlen_app. destruct (v <? 0); zl.
  - done.
  - by apply (load_at _ [] (Util.print v) (0 :: rest)).
  - by exists s.
Qed.

(** [sdsfromlonglong] gives the decimal text of every 64-bit integer, which
    [string2ll] reads back. *)
Theorem sdsfromlonglong_roundtrip v :
  in_s 64 v → ∃ s, sdsfromlonglong v = Some s ∧ sds_rep s (Util.print v) ∧ Util.string2ll (Util.print v) = Some v.
Proof.
  intros Hv. destruct (fromlonglong_ok v Hv) as (s & Hrun & Hs). exists s.
  split; [done|]. split; [done|]. by apply Util.string2ll_complete.
Qed.
End Refine.

(** ** Witnesses *)
#[local] Existing Instance junk0.

Definition demo_sops : list sop :=
  [SCat (bytes_of "Hello World  "%string); SLower; STrim (bytes_of " "%string); SRange 1 (-1); SReserve 300; SGrow 12; SShrink; SDup].

Lemma sds_refines_bytes_witness :
  spec_sops demo_sops (bytes_of "  "%string) = bytes_of "ello world"%string ++ [0; 0] ∧
  ∃ s0 s, sdsnewlen (Some (bytes_of "  "%string)) 2 = Some s0 ∧ run_sops demo_sops s0 = Some s ∧
    sdslen s = Some 12 ∧ peek s 0 12 = Some (bytes_of "ello world"%string ++ [0; 0]).
Proof.
  split; [by vm_compute|].
  destruct (sds_refines_bytes demo_sops (bytes_of "  "%string)) as (s0 & s & H0 & H1 & _ & H2 & H3 & _).
  - cbn [sops_ok demo_sops]. repeat split; try (vm_compute; done).
    apply (bool_decide_unpack _). vm_compute. exact I.
  - repeat constructor; vm_compute; done.
  - by vm_compute.
  - exists s0, s. split; [exact H0|]. split; [exact H1|].
    replace (spec_sops demo_sops (bytes_of "  "%string)) with (bytes_of "ello world"%string ++ [0; 0]) in H2, H3 by (by vm_compute).
    split; [exact H2|exact H3].
Defined.

(** A string and its representation, made by [sdsnewlen]. *)
Definition mk (c : bytes) : sds := default (Sds [] 0) (sdsnewlen (Some c) (zlen c)).

Lemma mk_rep c : zlen c < 2 ^ 62 → sds_rep (mk c) c.
Proof.
  intros Hc. zlen_pos. destruct (newlen_ok (Some c) (zlen c) c) as (s & Hr & Hs); [lia|done|apply load_all|].
  unfold mk. by rewrite Hr.
Qed.

Lemma sdsIncrLen_append_witness :
  ∃ s1 s2 s3, sdsMakeRoomFor (mk (bytes_of "abc"%string)) 40 = Some s1 ∧ poke s1 3 (bytes_of "def"%string) = Some s2 ∧
    sdsIncrLen s2 3 = Some s3 ∧ sds_rep s3 (bytes_of "abcdef"%string).
Proof.
  apply (sdsIncrLen_append (mk (bytes_of "abc"%string)) (bytes_of "abc"%string) (bytes_of "def"%string) 40);
    [by apply mk_rep; vm_compute|by vm_compute..].
Defined.

Lemma sdscmp_order_witness :
  ∃ r, sdscmp (mk (bytes_of "ab"%string)) (mk (bytes_of "abc"%string)) = Some r ∧ Z.sgn r = -1.
Proof.
  destruct (sdscmp_order (mk (bytes_of "ab"%string)) (mk (bytes_of "abc"%string)) (bytes_of "ab"%string) (bytes_of "abc"%string)) as (r & Hr & Hs & _);
    [by apply mk_rep; vm_compute|by apply mk_rep; vm_compute|by vm_compute|by vm_compute|].
  exists r. split; [exact Hr|exact Hs].
Defined.

Lemma sdsjoinsds_correct_witness :
  ∃ s, sdsjoinsds [mk (bytes_of "a"%string); mk (bytes_of "b"%string); mk (bytes_of "c"%string)] (bytes_of ", "%string) = Some s ∧
    sds_rep s (bytes_of "a, b, c"%string).
Proof.
  apply (sdsjoinsds_correct [mk (bytes_of "a"%string); mk (bytes_of "b"%string); mk (bytes_of "c"%string)]
    [bytes_of "a"%string; bytes_of "b"%string; bytes_of "c"%string] (bytes_of ", "%string)); [|by vm_compute].
  repeat constructor; by apply mk_rep; vm_compute.
Defined.

Lemma sdsfromlonglong_roundtrip_witness :
  ∃ s, sdsfromlonglong (-9223372036854775808) = Some s ∧ sds_rep s (bytes_of "-9223372036854775808"%string).
Proof.
  destruct (sdsfromlonglong_roundtrip (-9223372036854775808)) as (s & Hr & Hs & _); [by vm_compute|].
  exists s. split; [exact Hr|exact Hs].
Defined.
