(* ===== verification/Object.v ===== *)
(** * object.c: string objects

    A string object is a string of its own ([OBJ_ENCODING_RAW]), a string in the
    same allocation as the object ([OBJ_ENCODING_EMBSTR]) or an integer in the
    place of the pointer ([OBJ_ENCODING_INT]).  Objects are in a heap with their
    reference counts; the string of an object is freed with it.  The other types
    of objects, the LRU field and replies to clients are not modelled here. *)

From Stdlib Require Import String.
From S2P Require Import Prelude.
From S2P Require Import Mem.
From S2P Require Import Util.
From S2P Require Import Sds.
From S2P Require Import SdsSpec.
From S2P Require Import SdsRefine.

Module Object.

Definition C_OK : Z := 0.
Definition C_ERR : Z := -1.
Definition OBJ_SHARED_INTEGERS : Z := 10000.
Definition OBJ_SHARED_REFCOUNT : Z := 2147483647.
Definition OBJ_ENCODING_EMBSTR_SIZE_LIMIT : Z := 44.
Definition MAXMEMORY_FLAG_NO_SHARED_INTEGERS : Z := 3.
Definition REDIS_COMPARE_BINARY : Z := 1.
Definition REDIS_COMPARE_COLL : Z := 2.

Inductive encodings := OBJ_ENCODING_RAW | OBJ_ENCODING_INT | OBJ_ENCODING_EMBSTR.

(** What [ptr] is: a string, or a [long] cast to a pointer. *)
Inductive pointer := PSds (s : Sds.sds) | PLong (n : Z).

Record robj := Robj { encoding : encodings; refcount : Z; ptr : pointer }.

Notation addr := positive.
Notation heap := (gmap addr robj).

Definition set_refcount (r : robj) (n : Z) : robj := Robj (encoding r) (swrap 32 n) (ptr r).

Definition sdsEncodedObject (r : robj) : bool :=
  match encoding r with OBJ_ENCODING_INT => false | _ => true end.

(** [o->ptr] used as a string, and as a number. *)
Definition as_sds (r : robj) : option Sds.sds := match ptr r with PSds s => Some s | PLong _ => None end.
Definition as_long (r : robj) : option Z := match ptr r with PLong n => Some n | PSds _ => None end.

(** The bytes of a string. *)
Definition sds_contents (s : Sds.sds) : option bytes :=
  n ← Sds.sdslen s; Sds.peek s 0 n.

Section Object.
Context `{Alloc}.

(** [shared.integers], [server.maxmemory] and [server.maxmemory_policy]. *)
Context (shared_integers : Z → addr) (maxmemory maxmemory_policy : Z).
Implicit Types (h : heap) (o : addr).

(** ** Creation *)
Definition createObject h (p : pointer) : heap * addr :=
  let o := fresh (dom h) in (<[o := Robj OBJ_ENCODING_RAW 1 p]> h, o).

Definition makeObjectShared h o : option heap :=
  r ← h !! o;
  if refcount r =? 1 then Some (<[o := set_refcount r OBJ_SHARED_REFCOUNT]> h) else None.

(** [p] is [None] for NULL. *)
Definition createRawStringObject h (p : option bytes) (len : Z) : option (heap * addr) :=
  s ← Sds.sdsnewlen p len; Some (createObject h (PSds s)).

(** The string is laid out behind the object with the header [sdshdr8]. *)
Definition createEmbeddedStringObject h (p : option bytes) (len : Z) : option (heap * addr) :=
  buf ← (match p with
         | Some p => c ← load p 0 len; Some (c ++ [0])
         | None => Some (replicate (Z.to_nat (len + 1)) 0)
         end);
  let sh := [uwrap 8 len; uwrap 8 len; Sds.SDS_TYPE_8] in
  let o := fresh (dom h) in
  Some (<[o := Robj OBJ_ENCODING_EMBSTR 1 (PSds (Sds.Sds (sh ++ buf) 3))]> h, o).

Definition createStringObject h (p : option bytes) (len : Z) : option (heap * addr) :=
  if len <=? OBJ_ENCODING_EMBSTR_SIZE_LIMIT then createEmbeddedStringObject h p len
  else createRawStringObject h p len.

Definition incrRefCount h o : option heap :=
  r ← h !! o;
  Some (if negb (refcount r =? OBJ_SHARED_REFCOUNT) then <[o := set_refcount r (refcount r + 1)]> h else h).

(** [freeStringObject] and [zfree] together take the object out of the heap. *)
Definition decrRefCount h o : option heap :=
  r ← h !! o;
  if refcount r =? 1 then Some (delete o h)
  else if refcount r <=? 0 then None
  else Some (if negb (refcount r =? OBJ_SHARED_REFCOUNT) then <[o := set_refcount r (refcount r - 1)]> h else h).

Definition resetRefCount h o : option heap :=
  r ← h !! o; Some (<[o := set_refcount r 0]> h).

(** A [long] and a [long long] have the same 64 bits. *)
Definition createStringObjectFromLongLong h (value : Z) : option (heap * addr) :=
  if (0 <=? value) && (value <? OBJ_SHARED_INTEGERS) then
    h ← incrRefCount h (shared_integers value); Some (h, shared_integers value)
  else if (Util.LONG_MIN <=? value) && (value <=? Util.LONG_MAX) then
    let o := fresh (dom h) in Some (<[o := Robj OBJ_ENCODING_INT 1 (PLong value)]> h, o)
  else s ← Sds.sdsfromlonglong value; Some (createObject h (PSds s)).

Definition dupStringObject h o : option (heap * addr) :=
  r ← h !! o;
  match encoding r with
  | OBJ_ENCODING_RAW => s ← as_sds r; n ← Sds.sdslen s; createRawStringObject h (Some (Sds.from_ptr s)) n
  | OBJ_ENCODING_EMBSTR => s ← as_sds r; n ← Sds.sdslen s; createEmbeddedStringObject h (Some (Sds.from_ptr s)) n
  | OBJ_ENCODING_INT => let d := fresh (dom h) in Some (<[d := Robj OBJ_ENCODING_INT 1 (ptr r)]> h, d)
  end.

(** ** Encoding *)
(** On the contents of the string; [None] is C_ERR. *)
Definition isSdsRepresentableAsLongLong (s : bytes) : option Z := Util.string2ll s.

Definition isObjectRepresentableAsLongLong h o : option (option Z) :=
  r ← h !! o;
  match encoding r with
  | OBJ_ENCODING_INT => n ← as_long r; Some (Some n)
  | _ => s ← as_sds r; c ← sds_contents s; Some (isSdsRepresentableAsLongLong c)
  end.

(** The object as an integer: shared, or in place. *)
Definition encode_long h o (r : robj) (value : Z) : option (heap * addr) :=
  if ((maxmemory =? 0) || (Z.land maxmemory_policy MAXMEMORY_FLAG_NO_SHARED_INTEGERS =? 0)) &&
     (0 <=? value) && (value <? OBJ_SHARED_INTEGERS) then
    h ← decrRefCount h o;
    h ← incrRefCount h (shared_integers value);
    Some (h, shared_integers value)
  else Some (<[o := Robj OBJ_ENCODING_INT (refcount r) (PLong value)]> h, o).

Definition tryObjectEncoding h o : option (heap * addr) :=
  r ← h !! o;
  if negb (sdsEncodedObject r) then Some (h, o)
  else if 1 <? refcount r then Some (h, o)
  else
    s ← as_sds r;
    len ← Sds.sdslen s;
    c ← Sds.peek s 0 len;
    match (if len <=? 20 then Util.string2l c else None) with
    | Some value => encode_long h o r value
    | None =>
        if len <=? OBJ_ENCODING_EMBSTR_SIZE_LIMIT then
          match encoding r with
          | OBJ_ENCODING_EMBSTR => Some (h, o)
          | _ =>
              '(h, emb) ← createEmbeddedStringObject h (Some (Sds.from_ptr s)) len;
              h ← decrRefCount h o;
              Some (h, emb)
          end
        else
          match encoding r with
          | OBJ_ENCODING_RAW =>
              avail ← Sds.sdsavail s;
              if len / 10 <? avail then
                s ← Sds.sdsRemoveFreeSpace s;
                Some (<[o := Robj (encoding r) (refcount r) (PSds s)]> h, o)
              else Some (h, o)
          | _ => Some (h, o)
          end
    end.

Definition getDecodedObject h o : option (heap * addr) :=
  r ← h !! o;
  if sdsEncodedObject r then h ← incrRefCount h o; Some (h, o)
  else
    n ← as_long r;
    '(buf, _) ← Util.ll2string (zmalloc 32) 32 n;
    len ← Sds.strlen buf;
    createStringObject h (Some buf) len.

(** ** Comparison *)
(** [astr] and [alen] of an object: its string, or the text of its number. *)
Definition object_chars (r : robj) : option bytes :=
  if sdsEncodedObject r then s ← as_sds r; sds_contents s
  else
    n ← as_long r;
    '(buf, len) ← Util.ll2string (zmalloc 128) 128 n;
    load buf 0 len.

(** A C string ends at the first NUL. *)
Fixpoint c_string (t : bytes) : bytes :=
  match t with [] => [] | c :: t => if c =? 0 then [] else c :: c_string t end.

Context (strcoll : bytes → bytes → Z).

Definition compareStringObjectsWithFlags h (a b : addr) (flags : Z) : option Z :=
  ra ← h !! a;
  rb ← h !! b;
  if decide (a = b) then Some 0
  else
    astr ← object_chars ra;
    bstr ← object_chars rb;
    if negb (Z.land flags REDIS_COMPARE_COLL =? 0) then Some (strcoll (c_string astr) (c_string bstr))
    else
      let minlen := if zlen astr <? zlen bstr then zlen astr else zlen bstr in
      let cmp := Sds.memcmp (take (Z.to_nat minlen) astr) (take (Z.to_nat minlen) bstr) in
      Some (if cmp =? 0 then swrap 32 (zlen astr - zlen bstr) else cmp).

Definition compareStringObjects h (a b : addr) : option Z :=
  compareStringObjectsWithFlags h a b REDIS_COMPARE_BINARY.

Definition collateStringObjects h (a b : addr) : option Z :=
  compareStringObjectsWithFlags h a b REDIS_COMPARE_COLL.

Definition equalStringObjects h (a b : addr) : option bool :=
  ra ← h !! a;
  rb ← h !! b;
  match encoding ra, encoding rb with
  | OBJ_ENCODING_INT, OBJ_ENCODING_INT => m ← as_long ra; n ← as_long rb; Some (m =? n)
  | _, _ => c ← compareStringObjects h a b; Some (c =? 0)
  end.

Definition stringObjectLen h o : option Z :=
  r ← h !! o;
  if sdsEncodedObject r then s ← as_sds r; Sds.sdslen s
  else n ← as_long r; Util.sdigits10 n.

(** [o] is [None] for NULL; the inner [None] is C_ERR. *)
Definition getLongLongFromObject h (o : option addr) : option (option Z) :=
  match o with
  | None => Some (Some 0)
  | Some o =>
      r ← h !! o;
      if sdsEncodedObject r then s ← as_sds r; c ← sds_contents s; Some (Util.string2ll c)
      else n ← as_long r; Some (Some n)
  end.
End Object.
End Object.
