(* ===== verification/ObjectSpec.v ===== *)
(** * The encodings of string objects are transparent

    An object stands for a text, whatever its encoding.  Encoding, decoding,
    copying and comparing objects respect the texts, and touch no other object
    of the heap. *)

From Stdlib Require Import String.
From S2P Require Import Prelude.
From S2P Require Import Mem.
From S2P Require Import Util.
From S2P Require Import Sds.
From S2P Require Import SdsSpec.
From S2P Require Import SdsRefine.
From S2P Require Import Object.
Import Object.

(** ** Texts *)
Lemma dec_rec_digits fuel : ∀ v, 0 ≤ v → Forall (λ c, 48 ≤ c ≤ 57) (Util.dec_rec fuel v).
Proof.
  induction fuel as [|fuel IH]; intros v Hv; cbn [Util.dec_rec]; [constructor|].
  apply Forall_app. split; [destruct (v <? 10); [constructor|apply IH, Z.div_pos; lia]|].
  constructor; [|constructor]. unfold Util.ch_0. pose proof (Z.mod_pos_bound v 10). lia.
Qed.

Lemma print_chars v : Forall (λ c, c ≠ 0) (Util.print v).
Proof.
  rewrite Util.print_split. apply Forall_app. split.
  - destruct (v <? 0); repeat constructor. done.
  - eapply Forall_impl; [apply dec_rec_digits; lia|]. simpl. lia.
Qed.

Lemma strlen_chars c rest : Forall (λ x, x ≠ 0) c → Sds.strlen (c ++ 0 :: rest) = Some (zlen c).
Proof.
  induction 1 as [|x c Hx Hc IH]; [done|]. cbn [app Sds.strlen]. rewrite (proj2 (Z.eqb_neq x 0) Hx), IH.
  cbn [mbind option_bind]. f_equal. zl.
Qed.

Lemma print_length v : in_s 64 v → 1 ≤ zlen (Util.print v) ≤ 20.
Proof.
  intros Hv. destruct (Util.magnitude_eq v Hv) as [_ Hu]. pose proof (Util.dec_len_u64 _ Hu).
  rewrite Util.print_split, zlen_app. unfold in_s in Hv. change (2 ^ (64 - 1)) with 9223372036854775808 in Hv.
  pose proof (Util.dec_len_le 18 (Z.abs v) ltac:(cbn; lia)).
  destruct (v <? 0); rewrite ?zlen_cons; change (zlen []) with 0; lia.
Qed.

Lemma sdigits10_ok v : in_s 64 v → Util.sdigits10 v = Some (zlen (Util.print v)).
Proof.
  intros Hv. destruct (Util.magnitude_eq v Hv) as [Hm Hu]. unfold Util.sdigits10. rewrite Util.print_split.
  destruct (v <? 0) eqn:E.
  - assert ((if negb (v =? Util.LLONG_MIN) then uwrap 64 (- v) else uwrap 64 (Util.LLONG_MAX + 1)) = Z.abs v) as ->.
    { destruct (negb _); by injection Hm. }
    rewrite Util.digits10_eq by done. cbn [mbind option_bind]. f_equal. zl.
  - injection Hm as Hm. rewrite <-Hm in Hu |- *. by rewrite Util.digits10_eq.
Qed.

Lemma print_injective v w : in_s 64 v → in_s 64 w → Util.print v = Util.print w → v = w.
Proof.
  intros Hv Hw Heq. pose proof (Util.string2ll_complete v Hv) as Hs. rewrite Heq, Util.string2ll_complete in Hs by done.
  by injection Hs.
Qed.

(** ** Objects *)
Definition obj_text (r : robj) (t : bytes) : Prop :=
  match encoding r, ptr r with
  | OBJ_ENCODING_RAW, PSds s => sds_rep s t
  | OBJ_ENCODING_EMBSTR, PSds s => sds_rep s t ∧ zlen t ≤ OBJ_ENCODING_EMBSTR_SIZE_LIMIT
  | OBJ_ENCODING_INT, PLong n => in_s 64 n ∧ t = Util.print n
  | _, _ => False
  end.

Lemma embedded_rep c :
  zlen c ≤ OBJ_ENCODING_EMBSTR_SIZE_LIMIT →
  sds_rep (Sds.Sds ([uwrap 8 (zlen c); uwrap 8 (zlen c); Sds.SDS_TYPE_8] ++ c ++ [0]) 3) c.
Proof.
  intros Hc. unfold OBJ_ENCODING_EMBSTR_SIZE_LIMIT in Hc. zlen_pos.
  exists Sds.SDS_TYPE_8, 1, []. unfold sds_at. change (zlen []) with 0. rewrite Z.add_0_r. split; [|split; [lia|]].
  - split; [apply typed_intro; unfold Sds.SDS_TYPE_8; lia|]. split; [|done]. cbn. done.
  - cbn. change (2 ^ 8) with 256. lia.
Qed.

Lemma obj_sds r t :
  obj_text r t → sdsEncodedObject r = true →
  ∃ s, as_sds r = Some s ∧ sds_rep s t ∧ Sds.sdslen s = Some (zlen t) ∧ Sds.peek s 0 (zlen t) = Some t ∧
    load (Sds.from_ptr s) 0 (zlen t) = Some t.
Proof.
  intros Ht He. assert (∃ s, as_sds r = Some s ∧ sds_rep s t) as (s & Hs & Hr).
  { unfold obj_text, sdsEncodedObject, as_sds in *. destruct (encoding r), (ptr r); naive_solver. }
  destruct (rep_view s t Hr) as (Hl & Hp & _). exists s. split_and!; [done..|]. by apply from_ptr_load.
Qed.

Lemma obj_long r t :
  obj_text r t → sdsEncodedObject r = false →
  ∃ n, encoding r = OBJ_ENCODING_INT ∧ as_long r = Some n ∧ in_s 64 n ∧ t = Util.print n.
Proof.
  unfold obj_text, sdsEncodedObject, as_long. destruct (encoding r), (ptr r); naive_solver.
Qed.

Section Objects.
Context `{Alloc}.
Implicit Types (h : heap) (o a : addr) (t : bytes).

(** Nothing but [o] changes among the objects of [h]. *)
Definition keeps h o h' : Prop := ∀ a, a ≠ o → is_Some (h !! a) → h' !! a = h !! a.

Lemma fresh_addr h : h !! fresh (dom h) = None.
Proof. apply not_elem_of_dom, is_fresh. Qed.

Lemma new_object_ok h r :
  let o := fresh (dom h) in
  (<[o := r]> h) !! o = Some r ∧ h !! o = None ∧ ∀ a, is_Some (h !! a) → (<[o := r]> h) !! a = h !! a.
Proof.
  split; [apply lookup_insert_eq|]. split; [apply fresh_addr|]. intros a [x Ha]. apply lookup_insert_ne. intros <-.
  by rewrite fresh_addr in Ha.
Qed.

Lemma insert_keeps h o (r : robj) : h !! o = None → ∀ a, is_Some (h !! a) → (<[o := r]> h) !! a = h !! a.
Proof. intros Ho a [x Ha]. apply lookup_insert_ne. congruence. Qed.

Lemma embedded_ok h p t :
  load p 0 (zlen t) = Some t → zlen t ≤ OBJ_ENCODING_EMBSTR_SIZE_LIMIT →
  ∃ h' o r, createEmbeddedStringObject h (Some p) (zlen t) = Some (h', o) ∧ h' !! o = Some r ∧
    obj_text r t ∧ encoding r = OBJ_ENCODING_EMBSTR ∧ refcount r = 1 ∧ h !! o = None ∧ h' = <[o := r]> h.
Proof.
  intros Hp Hl. unfold createEmbeddedStringObject. rewrite Hp. cbn [mbind option_bind]. set (r := Robj _ _ _).
  destruct (new_object_ok h r) as (Hr1 & Hr2 & Hr3). eexists _, _, r. split_and!; [done|done| |done|done|done|done].
  split; [|done]. by apply embedded_rep.
Qed.

Lemma string_object_ok h p t :
  load p 0 (zlen t) = Some t → zlen t < 2 ^ 62 →
  ∃ h' o r, createStringObject h (Some p) (zlen t) = Some (h', o) ∧ h' !! o = Some r ∧ obj_text r t ∧
    sdsEncodedObject r = true ∧ refcount r = 1 ∧ h !! o = None ∧ h' = <[o := r]> h.
Proof.
  intros Hp Hl. zlen_pos. unfold createStringObject. destruct (Z.leb_spec (zlen t) OBJ_ENCODING_EMBSTR_SIZE_LIMIT).
  - destruct (embedded_ok h p t Hp) as (h' & o & r & -> & Hr & Ht & He & H'); [done|]. exists h', o, r.
    split_and!; try done; [|naive_solver..]. unfold sdsEncodedObject. by rewrite He.
  - unfold createRawStringObject, createObject. destruct (newlen_ok (Some p) (zlen t) t) as (s & -> & Hs); [lia|done|done|].
    cbn [mbind option_bind]. set (r := Robj _ _ _). destruct (new_object_ok h r) as (Hr1 & Hr2 & Hr3).
    eexists _, _, r. by split_and!.
Qed.

(** ** Decoding and comparing *)
Lemma number_text n v :
  in_s 64 v → 21 < n → ∃ rest, Util.ll2string (zmalloc n) n v = Some (Util.print v ++ 0 :: rest, zlen (Util.print v)).
Proof.
  intros Hv Hn. pose proof (print_length v Hv). rewrite Util.ll2string_eq; [|done|unfold zmalloc; rewrite zlen_fresh; lia].
  rewrite (proj2 (Z.leb_gt n _)) by lia. eauto.
Qed.

Lemma load_prefix (c rest : bytes) : load (c ++ rest) 0 (zlen c) = Some c.
Proof. by apply (load_at _ [] c rest). Qed.

Lemma chars_ok r t : obj_text r t → object_chars r = Some t.
Proof.
  intros Ht. unfold object_chars. destruct (sdsEncodedObject r) eqn:E.
  - destruct (obj_sds r t Ht E) as (s & -> & _ & Hl & Hp & _). cbn [mbind option_bind]. unfold sds_contents.
    rewrite Hl. cbn [mbind option_bind]. done.
  - destruct (obj_long r t Ht E) as (n & _ & -> & Hn & ->). cbn [mbind option_bind].
    destruct (number_text 128 n Hn ltac:(lia)) as (rest & ->). cbn [mbind option_bind]. apply load_prefix.
Qed.

Lemma obj_text_inj r t1 t2 : obj_text r t1 → obj_text r t2 → t1 = t2.
Proof. intros H1%chars_ok H2%chars_ok. rewrite H1 in H2. by injection H2. Qed.

(** The comparison is the one of [sdscmp]. *)
Lemma compare_min (a b : bytes) :
  (let minlen := if zlen a <? zlen b then zlen a else zlen b in
   let cmp := Sds.memcmp (take (Z.to_nat minlen) a) (take (Z.to_nat minlen) b) in
   if cmp =? 0 then swrap 32 (zlen a - zlen b) else cmp) = cmp_bytes a b.
Proof.
  unfold cmp_bytes. assert (Z.to_nat (if zlen a <? zlen b then zlen a else zlen b) = Nat.min (length a) (length b)) as Hm.
  { unfold zlen. destruct (Z.ltb_spec (Z.of_nat (length a)) (Z.of_nat (length b))); lia. }
  cbv zeta. by rewrite Hm.
Qed.

(** The decoded object: the object itself with one more reference, or a new
    string. *)
Lemma decoded_ok h o r t :
  h !! o = Some r → obj_text r t → 1 ≤ refcount r ≤ OBJ_SHARED_REFCOUNT → zlen t < 2 ^ 62 →
  ∃ h' o' r', getDecodedObject h o = Some (h', o') ∧ h' !! o' = Some r' ∧ obj_text r' t ∧
    sdsEncodedObject r' = true ∧ keeps h o h' ∧
    if sdsEncodedObject r then o' = o ∧ refcount r' = Z.min OBJ_SHARED_REFCOUNT (refcount r + 1)
    else refcount r' = 1 ∧ h' !! o = h !! o.
Proof.
  intros Ho Ht Hc Hl. unfold getDecodedObject. rewrite Ho. cbn [mbind option_bind].
  unfold OBJ_SHARED_REFCOUNT in *. destruct (sdsEncodedObject r) eqn:E.
  - unfold incrRefCount. rewrite Ho. cbn [mbind option_bind]. unfold OBJ_SHARED_REFCOUNT.
    destruct (Z.eqb_spec (refcount r) 2147483647) as [Hmax|Hne]; cbn [negb].
    + exists h, o, r. split_and!; try done. lia.
    + eexists _, o, (set_refcount r (refcount r + 1)). split_and!; [done|apply lookup_insert_eq|done|done| |done|].
      * intros a Ha _. by apply lookup_insert_ne.
      * unfold set_refcount. simpl. rewrite swrap_id; [lia|lia|]. unfold in_s. change (2 ^ (32 - 1)) with 2147483648. lia.
  - destruct (obj_long r t Ht E) as (n & _ & -> & Hn & ->). cbn [mbind option_bind].
    destruct (number_text 32 n Hn ltac:(lia)) as (rest & ->). cbn [mbind option_bind].
    rewrite strlen_chars by apply print_chars. cbn [mbind option_bind].
    destruct (string_object_ok h (Util.print n ++ 0 :: rest) (Util.print n)) as (h' & o' & r' & -> & Hr' & Ht' & He' & Hc' & Hf' & Hk%eq_sym);
      [apply load_prefix|done|]. pose proof (insert_keeps h o' r' Hf') as Hk'. rewrite Hk in Hk'. clear Hk. rename Hk' into Hk.
    exists h', o', r'. split_and!; try done; [intros a _ Ha; by apply Hk|by rewrite Hk, Ho by eauto].
Qed.

(** C29: comparison, equality, length and conversion of objects depend on their
    texts only, not on how they are encoded: the sign of a comparison is the
    lexicographic order, and an object converts to an integer exactly when its
    text is that of a 64-bit integer. *)
Theorem object_encoding_transparent strcoll h a b ra rb ta tb :
  h !! a = Some ra → h !! b = Some rb → obj_text ra ta → obj_text rb tb →
  zlen ta < 2 ^ 31 → zlen tb < 2 ^ 31 →
  (∃ c, compareStringObjects strcoll h a b = Some c ∧ Z.sgn c = lex ta tb) ∧
  equalStringObjects strcoll h a b = Some (bool_decide (ta = tb)) ∧
  stringObjectLen h a = Some (zlen ta) ∧
  getLongLongFromObject h (Some a) = Some (Util.string2ll ta) ∧
  isObjectRepresentableAsLongLong h a = Some (Util.string2ll ta).
Proof.
  intros Ha Hb Hta Htb Hla Hlb.
  assert (∃ c, compareStringObjects strcoll h a b = Some c ∧ Z.sgn c = lex ta tb ∧ (c = 0 ↔ ta = tb)) as (c & Hc & Hsgn & Hz).
  { unfold compareStringObjects, compareStringObjectsWithFlags. rewrite Ha, Hb. cbn [mbind option_bind].
    destruct (decide (a = b)) as [->|Hne].
    - exists 0. assert (ta = tb) as -> by (rewrite Ha in Hb; injection Hb as ->; by eapply obj_text_inj).
      split; [done|]. split; [symmetry; by apply lex_0|done].
    - rewrite (chars_ok ra ta Hta), (chars_ok rb tb Htb). cbn [mbind option_bind]. eexists. split; [done|].
      rewrite compare_min. by apply cmp_bytes_lex. }
  split; [eauto|]. split.
  - unfold equalStringObjects. rewrite Ha, Hb. cbn [mbind option_bind]. rewrite Hc. cbn [mbind option_bind].
    assert (Some (c =? 0) = Some (bool_decide (ta = tb))) as Hcmp.
    { f_equal. destruct (Z.eqb_spec c 0); [by rewrite bool_decide_eq_true_2 by tauto|by rewrite bool_decide_eq_false_2 by tauto]. }
    destruct (encoding ra) eqn:Ea; [exact Hcmp| |exact Hcmp]. destruct (encoding rb) eqn:Eb; [exact Hcmp| |exact Hcmp].
    destruct (obj_long ra ta Hta) as (m & _ & -> & Hm & ->); [unfold sdsEncodedObject; by rewrite Ea|].
    destruct (obj_long rb tb Htb) as (n & _ & -> & Hn & ->); [unfold sdsEncodedObject; by rewrite Eb|].
    cbn [mbind option_bind]. f_equal. destruct (Z.eqb_spec m n) as [->|Hne]; [by rewrite bool_decide_eq_true_2|].
    rewrite bool_decide_eq_false_2; [done|]. intros Heq. apply Hne. by apply print_injective.
  - unfold stringObjectLen, getLongLongFromObject, isObjectRepresentableAsLongLong. rewrite Ha. cbn [mbind option_bind].
    destruct (sdsEncodedObject ra) eqn:E.
    + destruct (obj_sds ra ta Hta E) as (s & -> & _ & Hl & Hp & _). unfold sds_contents. cbn [mbind option_bind].
      rewrite Hl. cbn [mbind option_bind]. rewrite Hp. cbn [mbind option_bind]. split; [done|]. split; [done|].
      unfold sdsEncodedObject in E. by destruct (encoding ra).
    + destruct (obj_long ra ta Hta E) as (n & -> & -> & Hn & ->). cbn [mbind option_bind].
      rewrite Util.string2ll_complete by done. split; [by apply sdigits10_ok|done].
Qed.
End Objects.

(** ** Encoding *)
Section Encode.
Context `{Alloc} (shared_integers : Z → addr) (maxmemory maxmemory_policy : Z).
Implicit Types (h : heap) (o a : addr) (t : bytes).

Definition shared_ok h : Prop :=
  ∀ n, 0 ≤ n < OBJ_SHARED_INTEGERS →
    h !! shared_integers n = Some (Robj OBJ_ENCODING_INT OBJ_SHARED_REFCOUNT (PLong n)).

Lemma incr_shared h n : shared_ok h → 0 ≤ n < OBJ_SHARED_INTEGERS → incrRefCount h (shared_integers n) = Some h.
Proof. intros Hs Hn. unfold incrRefCount. rewrite (Hs n Hn). done. Qed.

(** An object that is not shared is not one of the shared integers. *)
Lemma not_shared h o r n : shared_ok h → h !! o = Some r → refcount r ≠ OBJ_SHARED_REFCOUNT →
  0 ≤ n < OBJ_SHARED_INTEGERS → shared_integers n ≠ o.
Proof. intros Hs Ho Hr Hn <-. rewrite (Hs n Hn) in Ho. by injection Ho as <-. Qed.

Lemma shared_keep h h' o r : shared_ok h → h !! o = Some r → refcount r ≠ OBJ_SHARED_REFCOUNT →
  keeps h o h' → shared_ok h'.
Proof. intros Hs Ho Hr Hk n Hn. rewrite Hk; [by apply Hs|by eapply not_shared|rewrite (Hs n Hn); eauto]. Qed.

(** The encoding chosen for an unshared string. *)
Definition best_encoding (t : bytes) (e : encodings) : encodings :=
  if Util.string2ll t then OBJ_ENCODING_INT
  else if zlen t <=? OBJ_ENCODING_EMBSTR_SIZE_LIMIT then OBJ_ENCODING_EMBSTR else e.

(** What the outcome of an encoding is of an object [o] with one reference: an object
    with the same text in its place, and [o] is kept with its count or released. *)
Definition encoded h o (r : robj) t (e : encodings) (res : option (heap * addr)) : Prop :=
  ∃ h' o' r', res = Some (h', o') ∧ h' !! o' = Some r' ∧ obj_text r' t ∧ encoding r' = e ∧
    (∀ a, a ≠ o → a ≠ o' → h' !! a = h !! a) ∧
    if decide (o' = o) then refcount r' = refcount r
    else h' !! o = None ∧
      (refcount r' = 1 ∧ h !! o' = None ∨ refcount r' = OBJ_SHARED_REFCOUNT ∧ h !! o' = Some r').

Lemma encoded_same h o r t : h !! o = Some r → obj_text r t → encoded h o r t (encoding r) (Some (h, o)).
Proof. intros Ho Ht. exists h, o, r. split_and!; try done. by rewrite decide_True. Qed.

Lemma encoded_update h o r r' t :
  obj_text r' t → refcount r' = refcount r → encoded h o r t (encoding r') (Some (<[o := r']> h, o)).
Proof.
  intros Ht Hc. eexists _, _, r'. split_and!; [done|apply lookup_insert_eq|done|done| |by rewrite decide_True].
  intros a Ha _. by apply lookup_insert_ne.
Qed.

Lemma encode_long_ok h o r v :
  h !! o = Some r → refcount r = 1 → shared_ok h → in_s 64 v →
  encoded h o r (Util.print v) OBJ_ENCODING_INT (encode_long shared_integers maxmemory maxmemory_policy h o r v).
Proof.
  intros Ho Hr Hs Hv. unfold encode_long. destruct (_ && _ && _) eqn:E; [|by apply encoded_update].
  apply andb_true_iff in E as [[_ E1]%andb_true_iff E2]. apply Z.leb_le in E1. apply Z.ltb_lt in E2.
  assert (refcount r ≠ OBJ_SHARED_REFCOUNT) as Hne by (by rewrite Hr).
  pose proof (not_shared h o r v Hs Ho Hne ltac:(lia)) as Hva.
  unfold decrRefCount. rewrite Ho. cbn [mbind option_bind]. rewrite Hr, Z.eqb_refl. cbn [mbind option_bind].
  assert (keeps h o (delete o h)) as Hk by (intros a Ha _; by apply lookup_delete_ne).
  rewrite incr_shared; [|by eapply shared_keep|lia]. cbn [mbind option_bind]. eexists _, _, _. split; [done|].
  rewrite lookup_delete_ne by done. split; [by apply Hs; lia|]. split_and!; try done.
  - intros a Ha _. by apply lookup_delete_ne.
  - rewrite decide_False by done. split; [apply lookup_delete_eq|]. right. split; [done|]. by apply Hs; lia.
Qed.

Lemma embed_ok h o r s t :
  h !! o = Some r → refcount r = 1 → load (Sds.from_ptr s) 0 (zlen t) = Some t →
  zlen t ≤ OBJ_ENCODING_EMBSTR_SIZE_LIMIT →
  encoded h o r t OBJ_ENCODING_EMBSTR
    ('(h, emb) ← createEmbeddedStringObject h (Some (Sds.from_ptr s)) (zlen t); h ← decrRefCount h o; Some (h, emb)).
Proof.
  intros Ho Hr Hload Hle.
  destruct (embedded_ok h (Sds.from_ptr s) t Hload Hle) as (h' & e & r' & -> & He & Ht & Henc & Hone & Hfree & Hk').
  pose proof (insert_keeps h e r' Hfree) as Hk. rewrite <-Hk' in Hk.
  cbn [mbind option_bind]. assert (e ≠ o) as Hne by (intros ->; congruence).
  unfold decrRefCount. rewrite (Hk o) by eauto. rewrite Ho. cbn [mbind option_bind]. rewrite Hr, Z.eqb_refl. cbn [mbind option_bind].
  eexists _, _, r'. split; [done|]. rewrite lookup_delete_ne by done. split_and!; try done.
  - intros a Ha Hae. rewrite lookup_delete_ne, Hk', lookup_insert_ne by done. done.
  - rewrite decide_False by done. split; [apply lookup_delete_eq|auto].
Qed.

Lemma try_ok h o r t :
  h !! o = Some r → obj_text r t → 1 ≤ refcount r → zlen t < 2 ^ 62 → shared_ok h →
  encoded h o r t
    (if sdsEncodedObject r && (refcount r =? 1) then best_encoding t (encoding r) else encoding r)
    (tryObjectEncoding shared_integers maxmemory maxmemory_policy h o).
Proof.
  intros Ho Ht Hc Hl Hs. unfold tryObjectEncoding. rewrite Ho. cbn [mbind option_bind].
  destruct (sdsEncodedObject r) eqn:Ee; cbn [negb]; [|by apply encoded_same].
  destruct (Z.ltb_spec 1 (refcount r)); [rewrite (proj2 (Z.eqb_neq _ 1)) by lia; by apply encoded_same|].
  assert (refcount r = 1) as Hr by lia. rewrite Hr, Z.eqb_refl. cbn [andb].
  destruct (obj_sds r t Ht Ee) as (s & -> & Hrep & Hlen & Hpeek & Hload). cbn [mbind option_bind].
  rewrite Hlen. cbn [mbind option_bind]. rewrite Hpeek. cbn [mbind option_bind]. unfold best_encoding.
  assert ((if zlen t <=? 20 then Util.string2l t else None) = Util.string2ll t) as ->.
  { destruct (Util.string2ll t) as [v|] eqn:Ev; unfold Util.string2l; rewrite Ev; [|by destruct (_ <=? _)].
    apply Util.string2ll_sound in Ev as [Hv ->]. pose proof (print_length v Hv).
    rewrite (proj2 (Z.leb_le _ 20)) by lia. cbn [mbind option_bind]. unfold in_s in Hv.
    change (2 ^ (64 - 1)) with 9223372036854775808 in Hv. unfold Util.LONG_MIN, Util.LONG_MAX.
    by rewrite (proj2 (Z.ltb_ge v _)), (proj2 (Z.ltb_ge _ v)) by (unfold Util.LLONG_MIN, Util.LLONG_MAX; lia). }
  destruct (Util.string2ll t) as [v|] eqn:Ev.
  { apply Util.string2ll_sound in Ev as [Hv ->]. by apply encode_long_ok. }
  destruct (Z.leb_spec (zlen t) OBJ_ENCODING_EMBSTR_SIZE_LIMIT) as [Hle|Hgt].
  - assert (encoded h o r t OBJ_ENCODING_EMBSTR
      ('(h, emb) ← createEmbeddedStringObject h (Some (Sds.from_ptr s)) (zlen t); h ← decrRefCount h o; Some (h, emb)))
      as Hemb by (by apply embed_ok).
    destruct (encoding r) eqn:Eenc; [exact Hemb|exact Hemb|]. rewrite <-Eenc. by apply encoded_same.
  - destruct (encoding r) eqn:Eenc; [|rewrite <-Eenc; by apply encoded_same..].
    destruct Hrep as (ty & w & free & Hsds). rewrite (avail_ok s ty w t free Hsds). cbn [mbind option_bind].
    destruct (_ <? _); [|rewrite <-Eenc; by apply encoded_same].
    destruct (removefree_ok s t ltac:(by exists ty, w, free) Hl) as (s' & t' & w' & -> & Hs'). cbn [mbind option_bind].
    apply (encoded_update h o r (Robj OBJ_ENCODING_RAW _ (PSds s'))); [|done]. by exists t', w', [].
Qed.

Lemma try_shared h o r :
  h !! o = Some r → 1 ≤ refcount r → sdsEncodedObject r && (refcount r =? 1) = false →
  tryObjectEncoding shared_integers maxmemory maxmemory_policy h o = Some (h, o).
Proof.
  intros Ho Hc He. unfold tryObjectEncoding. rewrite Ho. cbn [mbind option_bind].
  destruct (sdsEncodedObject r); [|done]. cbn [negb andb] in *. apply Z.eqb_neq in He.
  by rewrite (proj2 (Z.ltb_lt 1 (refcount r))) by lia.
Qed.

(** C18: [tryObjectEncoding] of a string with one reference gives an object with the same
    text: an integer when the text is that of a 64-bit integer, an embedded string when
    it has at most 44 bytes, and otherwise the string itself; the original is kept with
    its reference count or released, and every other object is left as it was.  An
    object with more references, or one that is an integer already, is returned itself
    and the heap is exactly as before.  The text is below 2^62 bytes. *)
Theorem tryObjectEncoding_correct h o r t :
  h !! o = Some r → obj_text r t → 1 ≤ refcount r → zlen t < 2 ^ 62 → shared_ok h →
  let res := tryObjectEncoding shared_integers maxmemory maxmemory_policy h o in
  if sdsEncodedObject r && (refcount r =? 1) then encoded h o r t (best_encoding t (encoding r)) res
  else res = Some (h, o).
Proof.
  intros Ho Ht Hc Hl Hs res. subst res. destruct (_ && _) eqn:E; [|by eapply try_shared].
  pose proof (try_ok h o r t Ho Ht Hc Hl Hs) as Htry. by rewrite E in Htry.
Qed.

(** A string that is made an object, encoded and decoded again is the same
    string, for every length and whether or not it is the text of a number. *)
Theorem object_roundtrip h p t :
  load p 0 (zlen t) = Some t → zlen t < 2 ^ 62 → shared_ok h →
  ∃ h1 o1 h2 o2 h3 o3 r3 s, createStringObject h (Some p) (zlen t) = Some (h1, o1) ∧
    tryObjectEncoding shared_integers maxmemory maxmemory_policy h1 o1 = Some (h2, o2) ∧
    getDecodedObject h2 o2 = Some (h3, o3) ∧
    h3 !! o3 = Some r3 ∧ as_sds r3 = Some s ∧ sds_contents s = Some t.
Proof.
  intros Hp Hl Hs. destruct (string_object_ok h p t Hp Hl) as (h1 & o1 & r1 & Hrun1 & Hr1 & Ht1 & He1 & Hc1 & Hf1 & Hk1').
  pose proof (insert_keeps h o1 r1 Hf1) as Hk1. rewrite <-Hk1' in Hk1.
  assert (shared_ok h1) as Hs1 by (intros n Hn; rewrite Hk1 by (rewrite (Hs n Hn); eauto); by apply Hs).
  destruct (try_ok h1 o1 r1 t Hr1 Ht1 ltac:(lia) Hl Hs1) as (h2 & o2 & r2 & Hrun2 & Hr2 & Ht2 & _ & Hk2 & Hc2).
  assert (1 ≤ refcount r2 ≤ OBJ_SHARED_REFCOUNT) as Hb.
  { destruct (decide (o2 = o1)) as [->|Hne]; [rewrite Hc2, Hc1; by unfold OBJ_SHARED_REFCOUNT|].
    destruct Hc2 as [_ [[-> _]|[-> _]]]; unfold OBJ_SHARED_REFCOUNT; lia. }
  destruct (decoded_ok h2 o2 r2 t Hr2 Ht2 Hb Hl) as (h3 & o3 & r3 & Hrun3 & Hr3 & Ht3 & He3 & _).
  destruct (obj_sds r3 t Ht3 He3) as (s & Hs3 & _ & Hl3 & Hp3 & _).
  exists h1, o1, h2, o2, h3, o3, r3, s. split_and!; try done. unfold sds_contents. rewrite Hl3. cbn [mbind option_bind]. done.
Qed.
End Encode.

(** ** Witnesses: a heap with the shared integers and two strings *)
#[local] Existing Instance junk0.

Definition demo_shared (n : Z) : addr := Z.to_pos (n + 1).

Definition demo_shared_heap : heap :=
  list_to_map ((λ n, (demo_shared n, Robj OBJ_ENCODING_INT OBJ_SHARED_REFCOUNT (PLong n))) <$> seqZ 0 OBJ_SHARED_INTEGERS).

Lemma demo_shared_ok : shared_ok demo_shared demo_shared_heap.
Proof.
  intros n Hn. apply elem_of_list_to_map_1.
  - rewrite <-list_fmap_compose. apply NoDup_fmap_2_strong; [|apply NoDup_seqZ].
    intros a b Ha%elem_of_seqZ Hb%elem_of_seqZ. unfold demo_shared. simpl. lia.
  - apply list_elem_of_fmap. exists n. split; [done|]. apply elem_of_seqZ. unfold OBJ_SHARED_INTEGERS in *. lia.
Qed.

Definition demo_string (e : encodings) (c : bytes) : robj :=
  Robj e 1 (PSds (Sds.Sds ([uwrap 8 (zlen c); uwrap 8 (zlen c); Sds.SDS_TYPE_8] ++ c ++ [0]) 3)).

Definition demo_objects : heap :=
  <[20001%positive := demo_string OBJ_ENCODING_RAW (bytes_of "12"%string)]> demo_shared_heap.

Lemma demo_objects_ok : shared_ok demo_shared demo_objects.
Proof.
  intros n Hn. unfold demo_objects. rewrite lookup_insert_ne; [by apply demo_shared_ok|].
  unfold demo_shared, OBJ_SHARED_INTEGERS in *. lia.
Qed.

(** An unshared string becomes a shared integer; a shared integer stays as it is. *)
Lemma tryObjectEncoding_correct_witness :
  encoded demo_objects 20001 (demo_string OBJ_ENCODING_RAW (bytes_of "12"%string)) (bytes_of "12"%string) OBJ_ENCODING_INT
    (tryObjectEncoding demo_shared 0 0 demo_objects 20001) ∧
  tryObjectEncoding demo_shared 0 0 demo_objects (demo_shared 12) = Some (demo_objects, demo_shared 12).
Proof.
  split.
  - apply (tryObjectEncoding_correct demo_shared 0 0 demo_objects 20001
      (demo_string OBJ_ENCODING_RAW (bytes_of "12"%string)) (bytes_of "12"%string)).
    + apply lookup_insert_eq.
    + apply (embedded_rep (bytes_of "12"%string)). by vm_compute.
    + done.
    + by vm_compute.
    + exact demo_objects_ok.
  - apply (tryObjectEncoding_correct demo_shared 0 0 demo_objects (demo_shared 12)
      (Robj OBJ_ENCODING_INT OBJ_SHARED_REFCOUNT (PLong 12)) (bytes_of "12"%string)).
    + by apply (demo_objects_ok 12).
    + split; [done|by vm_compute].
    + done.
    + by vm_compute.
    + exact demo_objects_ok.
Defined.

Lemma object_roundtrip_witness :
  ∃ h1 o1 h2 o2 h3 o3 r3 s,
    createStringObject demo_shared_heap (Some (bytes_of "-450x"%string)) 4 = Some (h1, o1) ∧
    tryObjectEncoding demo_shared 1000 1 h1 o1 = Some (h2, o2) ∧ getDecodedObject h2 o2 = Some (h3, o3) ∧
    h3 !! o3 = Some r3 ∧ as_sds r3 = Some s ∧ sds_contents s = Some (bytes_of "-450"%string).
Proof.
  apply (object_roundtrip demo_shared 1000 1 demo_shared_heap (bytes_of "-450x"%string) (bytes_of "-450"%string)).
  - by vm_compute.
  - by vm_compute.
  - exact demo_shared_ok.
Defined.

Lemma object_encoding_transparent_witness :
  equalStringObjects (λ _ _, 0) demo_objects 20001 (demo_shared 12) = Some true ∧
  getLongLongFromObject demo_objects (Some 20001%positive) = Some (Some 12).
Proof.
  destruct (object_encoding_transparent (λ _ _, 0) demo_objects 20001 (demo_shared 12)
    (demo_string OBJ_ENCODING_RAW (bytes_of "12"%string)) (Robj OBJ_ENCODING_INT OBJ_SHARED_REFCOUNT (PLong 12))
    (bytes_of "12"%string) (bytes_of "12"%string)) as (_ & H1 & _ & H2 & _).
  - apply lookup_insert_eq.
  - by apply (demo_objects_ok 12).
  - apply (embedded_rep (bytes_of "12"%string)). by vm_compute.
  - split; [done|by vm_compute].
  - by vm_compute.
  - by vm_compute.
  - rewrite H1, H2. split; [reflexivity|reflexivity].
Defined.
