(* ===== verification/KvTable.v ===== *)
(** * The interface of a hash table to its clients

    [Table] is what sets and sorted sets call of dict.c: finding, adding,
    deleting and unlinking a key, reading or overwriting the value of an entry
    that was found, and shrinking the table.  [TableOk] is what the clients rely on; [DictTable] at the end shows
    that dict.c provides it. *)

From S2P Require Import Prelude.
From S2P Require Import Mem.
From S2P Require Import Dict.
From S2P Require Import DictSpec.
From S2P Require Import DictRefine.
Import Dict.

Module KvTable.

(** [D] is the table with the memory of its entries, [E] a pointer to an entry.
    [table_new] is a new table in the same memory; [table_release] frees a table
    and leaves the memory, in the form of a new one.
    A result of [None] is a failed assertion or a wild access. *)
Class Table (D E K V : Type) := {
  table_find : D → K → option (D * option E);
  table_val : D → E → option V;
  table_set_val : D → E → V → option D;
  table_add : D → K → V → option (D * Z);
  table_delete : D → K → option (D * Z);
  table_unlink : D → K → option (D * option E);
  table_free_unlinked : D → option E → option D;
  table_size : D → Z;
  table_slots : D → Z;
  table_resize : D → option (D * Z);
  table_new : D → D;
  table_release : D → option D;
  table_expand : D → Z → option (D * Z) }.

(** [table_rep d m]: the table holds the map [m]; [entry_of d e k]: [e] is the
    entry of key [k].  The bound is the largest number of keys. *)
Class TableOk (D E K V : Type) `{Countable K} `{!Table D E K V} := {
  table_rep : D → gmap K V → Prop;
  entry_of : D → E → K → Prop;
  table_find_ok d m k :
    table_rep d m →
    ∃ d' r, table_find d k = Some (d', r) ∧ table_rep d' m ∧
      match r with
      | Some e => is_Some (m !! k) ∧ entry_of d' e k
      | None => m !! k = None
      end;
  table_val_ok d m e k :
    table_rep d m → entry_of d e k → table_val d e = m !! k;
  table_set_ok d m e k v :
    table_rep d m → entry_of d e k →
    ∃ d', table_set_val d e v = Some d' ∧ table_rep d' (<[k := v]> m);
  table_add_ok d m k v :
    table_rep d m → Z.of_nat (base.size m) ≤ 2 ^ 30 → m !! k = None →
    ∃ d', table_add d k v = Some (d', DICT_OK) ∧ table_rep d' (<[k := v]> m);
  table_add_present_ok d m k v :
    table_rep d m → Z.of_nat (base.size m) ≤ 2 ^ 30 → is_Some (m !! k) →
    ∃ d', table_add d k v = Some (d', DICT_ERR) ∧ table_rep d' m;
  table_delete_ok d m k :
    table_rep d m →
    ∃ d', table_delete d k =
        Some (d', if decide (is_Some (m !! k)) then DICT_OK else DICT_ERR) ∧
      table_rep d' (delete k m);
  table_unlink_ok d m k :
    table_rep d m →
    ∃ d' r, table_unlink d k = Some (d', r) ∧
      match r with
      | Some e => is_Some (m !! k) ∧ table_val d' e = m !! k ∧
          ∃ d'', table_free_unlinked d' (Some e) = Some d'' ∧ table_rep d'' (delete k m)
      | None => m !! k = None ∧ table_rep d' m
      end;
  table_size_ok d m : table_rep d m → table_size d = Z.of_nat (base.size m);
  table_resize_ok d m :
    table_rep d m → Z.of_nat (base.size m) ≤ 2 ^ 30 →
    ∃ d' r, table_resize d = Some (d', r) ∧ table_rep d' m;
  table_new_ok d m : table_rep d m → table_rep (table_new d) ∅;
  table_release_ok d m : table_rep d m → ∃ d', table_release d = Some d' ∧ table_rep d' ∅;
  table_expand_ok d m n :
    table_rep d m → 0 ≤ n ≤ 2 ^ 31 → ∃ d' r, table_expand d n = Some (d', r) ∧ table_rep d' m }.

(** [htNeedsResize] of server.c.  The quotient is of [long long]s; it is only
    taken of a positive size. *)
Definition HASHTABLE_MIN_FILL : Z := 10.

Definition htNeedsResize `{Table D E K V} (d : D) : bool :=
  let size := table_slots d in
  let used := table_size d in
  (DICT_HT_INITIAL_SIZE <? size) && (Z.quot (swrap 64 (used * 100)) size <? HASHTABLE_MIN_FILL).

(** The table after [if (htNeedsResize(d)) dictResize(d)]. *)
Lemma shrink_ok `{Countable K} {D E V} `{!Table D E K V} `{!TableOk D E K V} (d : D) (m : gmap K V) :
  table_rep d m → Z.of_nat (base.size m) ≤ 2 ^ 30 →
  ∃ d', (if htNeedsResize d then fst <$> table_resize d else Some d) = Some d' ∧ table_rep d' m.
Proof.
  intros Hd Hs. destruct (htNeedsResize d); [|eauto]. destruct (table_resize_ok d m Hd Hs) as (d' & r & -> & Hd'). eauto.
Qed.

(** ** dict.c as such a table *)
Section DictTable.
Context {K V : Type} `{Countable K}.
Implicit Types (st : store K V) (m : gmap K V).

(** [dictGetVal(de)] and [dictGetVal(de) = v]. *)
Definition entry_val (d : store K V * dict K V) (p : ptr) : option V :=
  e ← entries d.1 !! p; val e.

Definition set_entry_val (d : store K V * dict K V) (p : ptr) (v : V) : option (store K V * dict K V) :=
  e ← entries d.1 !! p; Some (set_entry d.1 p (DictEntry (key e) (Some v)), d.2).

#[export] Instance dict_table : Table (store K V * dict K V) ptr K V := {|
  table_find := λ d k, '(d', r) ← dictFind d.1 d.2 k; Some (d.1, d', r);
  table_val := entry_val;
  table_set_val := set_entry_val;
  table_add := λ d k v, dictAdd d.1 d.2 k v;
  table_delete := λ d k, dictDelete d.1 d.2 k;
  table_unlink := λ d k, '(st, d', r) ← dictUnlink d.1 d.2 k; Some (st, d', r);
  table_free_unlinked := λ d r, st ← dictFreeUnlinkedEntry d.1 d.2 r; Some (st, d.2);
  table_size := λ d, dictSize d.2;
  table_slots := λ d, dictSlots d.2;
  table_resize := λ d, '(d', r) ← dictResize d.1 d.2; Some (d.1, d', r);
  table_new := λ d, (d.1, dictCreate (type d.2));
  table_release := λ d, st ← dictRelease d.1 d.2; Some (st, dictCreate (type d.2));
  table_expand := λ d n, '(d', r) ← dictExpand d.2 n; Some (d.1, d', r) |}.

Definition dict_rep (ty : dictType K V) (d : store K V * dict K V) (m : gmap K V) : Prop :=
  dict_ok d.1 d.2 m ∧ type d.2 = ty.

Definition dict_entry_of (d : store K V * dict K V) (p : ptr) (k : K) : Prop :=
  p ∈ ptrs d.2 ∧ has_key d.1 p k.

Lemma entry_val_ok st (d : dict K V) m p k :
  dict_ok st d m → p ∈ ptrs d → has_key st p k →
  entries st !! p = Some (DictEntry k (m !! k)) ∧ is_Some (m !! k).
Proof.
  intros (_ & _ & (_ & Hp & _) & _) Hin [v He]. destruct (Hp p Hin) as (k' & v' & He' & Hm).
  rewrite He in He'. injection He' as -> ->. rewrite Hm. eauto.
Qed.

(** An entry outside the tables can be freed. *)
Lemma dict_ok_forget st (d : dict K V) m p ks vs :
  dict_ok st d m → p ∉ ptrs d →
  dict_ok (Store (delete p (entries st)) ks vs (dict_can_resize st)) d m.
Proof.
  intros (Hok0 & Hok1 & Hh & Hlen & Hst) Hp. set (st' := Store _ _ _ _).
  assert (∀ q, q ∈ ptrs d → entries st' !! q = entries st !! q) as Hq.
  { intros q Hq. simpl. apply lookup_delete_ne. by intros ->. }
  assert (∀ t, (∀ q, q ∈ slots t → q ∈ ptrs d) → ht_ok (type d) st t → ht_ok (type d) st' t) as Hext.
  { intros t Hin. apply ht_ok_ext. intros q e Hqt He. exists e. by rewrite Hq by auto. }
  unfold ptrs in Hext. split_and!; [apply Hext; set_solver|apply Hext; set_solver| |done|done].
  destruct Hh as (N & H1 & H2 & H3). split_and!; [done|..].
  - intros q Hin. destruct (H1 q Hin) as (k & v & He & Hm). exists k, v. by rewrite Hq.
  - intros k v Hm. destruct (H2 k v Hm) as (q & Hin & He). exists q. by rewrite Hq.
  - intros q1 q2 k v w Hin1 Hin2. rewrite !Hq by done. by apply H3.
Qed.

Lemma dict_size_ok st (d : dict K V) m : dict_ok st d m → dictSize d = Z.of_nat (base.size m).
Proof.
  intros Hd. unfold dictSize. destruct (ok_used st d m Hd) as [-> ->]. pose proof (ok_size st d m Hd) as Hsz.
  pose proof Hd as (_ & _ & _ & Hlen & _). unfold ptrs in *. rewrite zlen_app in *. zlen_pos.
  rewrite uwrap_id by (unfold in_u; lia). lia.
Qed.

(** [dictRelease] frees what [dictEmpty] does. *)
Lemma release_empty st (d : dict K V) st' d' : dictEmpty st d = Some (st', d') → dictRelease st d = Some st'.
Proof.
  unfold dictEmpty, dictRelease. destruct (_dictClear d st (ht0 d)) as [[st1 t0]|]; [|done]. cbn [mbind option_bind].
  destruct (_dictClear d st1 (ht1 d)) as [[st2 t1]|]; [|done]. cbn [mbind option_bind]. by intros [= <- _].
Qed.

(** A dictionary whose type copies no values is a table. *)
Lemma dict_table_ok (ty : dictType K V) `{!DictTypeOk ty} :
  valDup ty = None → TableOk (store K V * dict K V) ptr K V.
Proof.
  intros Hdup. refine {| table_rep := dict_rep ty; entry_of := dict_entry_of |}.
  - intros [st d] m k [Hd Hty]. simpl in *.
    assert (DictTypeOk (type d)) by (by rewrite Hty).
    destruct (find_ok st d m k Hd) as (d' & r & -> & Hd' & [Hty' _] & Hr). cbn [mbind option_bind].
    eexists _, r. split; [done|]. split; [split; [done|by rewrite <-Hty]|].
    destruct r as [p|]; [|done]. destruct Hr as (Hp & He & Hs). split; [done|]. split; [done|by eexists].
  - intros [st d] m p k [Hd _] [Hp Hk]. simpl in *. unfold entry_val. simpl.
    destruct (entry_val_ok st d m p k Hd Hp Hk) as [-> _]. done.
  - intros [st d] m p k v [Hd Hty] [Hp Hk]. simpl in *. unfold set_entry_val. simpl.
    destruct (entry_val_ok st d m p k Hd Hp Hk) as [He [w Hw]]. rewrite He. cbn [mbind option_bind key].
    eexists. split; [done|]. split; [|done]. simpl. rewrite Hw in He.
    by apply (dict_ok_update st d m p k _ _ Hd Hp He).
  - intros [st d] m k v [Hd Hty] Hs Hk. simpl in *.
    assert (DictTypeOk (type d)) by (by rewrite Hty).
    destruct (add_ok st d m k v Hd Hs) as (st' & d' & [Hty' _] & Hrun & Hd').
    rewrite decide_False in Hrun by (rewrite Hk; by intros [? ?]).
    rewrite decide_False in Hd' by (rewrite Hk; by intros [? ?]).
    exists (st', d'). split; [done|]. split; simpl; [|by rewrite Hty'].
    unfold dup_val in Hd'. by rewrite Hty, Hdup in Hd'.
  - intros [st d] m k v [Hd Hty] Hs Hk. simpl in *.
    assert (DictTypeOk (type d)) by (by rewrite Hty).
    destruct (add_ok st d m k v Hd Hs) as (st' & d' & [Hty' _] & Hrun & Hd').
    rewrite decide_True in Hrun by done. rewrite decide_True in Hd' by done.
    exists (st', d'). split; [done|]. split; simpl; [done|by rewrite Hty'].
  - intros [st d] m k [Hd Hty]. simpl in *.
    assert (DictTypeOk (type d)) by (by rewrite Hty).
    destruct (genericDelete_ok st d m k false Hd) as (st' & d' & r & Hrun & [Hty' _] & Hr).
    unfold dictDelete. rewrite Hrun. cbn [mbind option_bind]. exists (st', d').
    destruct r as [p|].
    + destruct Hr as (v & Hv & _ & _ & _ & Hd'). rewrite decide_True by (by rewrite Hv).
      split; [done|]. split; [done|]. simpl. by rewrite Hty'.
    + destruct Hr as (-> & Hk & Hd'). rewrite decide_False by (rewrite Hk; by intros [? ?]).
      split; [done|]. split; [|simpl; by rewrite Hty']. simpl. by rewrite delete_id by done.
  - intros [st d] m k [Hd Hty]. simpl in *.
    assert (DictTypeOk (type d)) by (by rewrite Hty).
    destruct (genericDelete_ok st d m k true Hd) as (st' & d' & r & Hrun & [Hty' _] & Hr).
    unfold dictUnlink. rewrite Hrun. cbn [mbind option_bind]. eexists _, _. split; [done|].
    destruct r as [p|]; [|destruct Hr as (-> & Hk & Hd'); split; [done|]; split; [done|]; simpl; by rewrite Hty'].
    destruct Hr as (v & Hv & He & -> & Hp & Hd'). rewrite Hv. split; [done|]. unfold entry_val. simpl in *. rewrite He.
    split; [done|]. rewrite (free_entry_ok d' st p _ He). cbn [mbind option_bind]. eexists. split; [done|].
    split; [|simpl; by rewrite Hty']. simpl. by apply (dict_ok_forget st d' (delete k m) p).
  - intros [st d] m [Hd _]. apply (dict_size_ok st d m Hd).
  - intros [st d] m [Hd Hty] Hs. simpl in *. destruct (resize_ok st d m Hd Hs) as (d' & r & -> & Hd' & [Hty' _]).
    cbn [mbind option_bind]. eexists _, _. split; [done|]. split; [done|]. simpl. by rewrite Hty'.
  - intros [st d] m [Hd Hty]. split; simpl; [apply create_ok|done].
  - intros [st d] m [Hd Hty]. simpl in *. destruct (dict_empty_ok st d m Hd) as (st' & kvs & Hrun & _).
    rewrite (release_empty st d st' _ Hrun). eexists. split; [done|]. split; simpl; [apply create_ok|done].
  - intros [st d] m n [Hd Hty] Hn. simpl in *. destruct (expand_ok st d m n Hd Hn) as (d' & r & -> & Hd' & [Hty' _] & _).
    cbn [mbind option_bind]. eexists _, _. split; [done|]. split; [done|]. simpl. by rewrite Hty'.
Defined.
End DictTable.

(** [dictSdsKeyCompare] on the contents of strings; its lengths are [int]s in
    the C code, so this is for strings of less than 2^31 bytes. *)
Definition sds_equal (k1 k2 : bytes) : bool := bool_decide (k1 = k2).

(** A hash function for examples. *)
Definition demo_hash (k : bytes) : Z := uwrap 64 (foldr (λ b a, b + 31 * a) 7 k).
End KvTable.
