(* ===== verification/KvIter.v ===== *)
(** * Iterating over a hash table

    [TableIter] is what the iterators of sets and hashes call of dict.c, with
    its laws [TableIterOk]; dict.c provides them. *)

From S2P Require Import Prelude.
From S2P Require Import Dict.
From S2P Require Import DictSpec.
From S2P Require Import DictRefine.
From S2P Require Import DictIter.
From S2P Require Import KvTable.
Import Dict.
Import KvTable.

Module KvIter.

(** [I] is an iterator that is not safe: the table must not change while it is
    used, and releasing it checks that. *)
Class TableIter (D E I K : Type) := {
  iter_new : I;
  iter_next : D → I → option (D * I * option E);
  iter_release : D → I → option D;
  entry_key : D → E → option K }.

(** [iter_rest d it ks]: the keys [ks] are still to be returned. *)
Class TableIterOk (D E I K V : Type) `{Countable K} `{!Table D E K V} `{!TableOk D E K V}
    `{!TableIter D E I K} := {
  iter_rest : D → I → list K → Prop;
  iter_new_ok d m :
    table_rep d m → ∃ ks, iter_rest d iter_new ks ∧ NoDup ks ∧ ∀ k, k ∈ ks ↔ is_Some (m !! k);
  iter_next_ok d m it ks :
    table_rep d m → iter_rest d it ks →
    ∃ d' it' r, iter_next d it = Some (d', it', r) ∧ table_rep d' m ∧
      match r with
      | Some e => ∃ k ks', ks = k :: ks' ∧ entry_of d' e k ∧ entry_key d' e = Some k ∧ iter_rest d' it' ks'
      | None => ks = [] ∧ ∃ d'', iter_release d' it' = Some d'' ∧ table_rep d'' m
      end;
  iter_release_ok d m it ks :
    table_rep d m → iter_rest d it ks → ∃ d', iter_release d it = Some d' ∧ table_rep d' m }.

(** ** The iterators of dict.c *)
Section DictIterTable.
Context {K V : Type} `{Countable K} (table_addr : dictht → Z).
Implicit Types (st : store K V) (m : gmap K V).

(** [dictGetKey(de)] *)
Definition get_key (d : store K V * dict K V) (p : ptr) : option K :=
  e ← entries d.1 !! p; Some (key e).

#[export] Instance dict_iter : TableIter (store K V * dict K V) ptr dictIterator K := {|
  iter_new := dictGetIterator;
  iter_next := λ d it, '(r, it, d') ← dictNext table_addr it d.2; Some (d.1, d', it, r);
  iter_release := λ d it, d' ← dictReleaseIterator table_addr it d.2; Some (d.1, d');
  entry_key := get_key |}.

(** Not started, or at an entry with the rest of its chain and the later
    buckets still to come. *)
Definition dict_iter_rest (d : store K V * dict K V) (it : dictIterator) (ks : list K) : Prop :=
  (it = dictGetIterator ∧ Forall2 (has_key d.1) (ptrs d.2) ks) ∨
  (safe it = false ∧ fingerprint it = dictFingerprint table_addr d.2 ∧
   ∃ p rest, points d.2 it p rest ∧ Forall2 (has_key d.1) (rest ++ later d.2 it) ks).

Lemma keys_of_ptrs st (d : dict K V) m :
  dict_ok st d m →
  ∃ ks, Forall2 (has_key st) (ptrs d) ks ∧ NoDup ks ∧ ∀ k, k ∈ ks ↔ is_Some (m !! k).
Proof.
  intros (_ & _ & (Hnd & H1 & H2 & H3) & _).
  assert (∀ ps, (∀ p, p ∈ ps → p ∈ ptrs d) → NoDup ps →
    ∃ ks, Forall2 (has_key st) ps ks ∧ NoDup ks ∧ ∀ k, k ∈ ks ↔ ∃ p, p ∈ ps ∧ has_key st p k) as Hgen.
  { induction ps as [|p ps IH]; intros Hin Hps.
    - exists []. split_and!; [constructor|constructor|]. set_solver.
    - apply NoDup_cons in Hps as [Hp Hps]. destruct IH as (ks & Hks & Hndk & Hk); [set_solver|done|].
      destruct (H1 p) as (k & v & He & _); [set_solver|]. assert (has_key st p k) as Hpk by (by eexists).
      exists (k :: ks). split_and!; [by constructor| |].
      + constructor; [|done]. rewrite Hk. intros (q & Hq & w & Hqk). apply Hp.
        by rewrite (H3 p q k (Some v) w) by set_solver.
      + intros k'. rewrite elem_of_cons, Hk. split.
        * intros [->|(q & Hq & Hqk)]; [exists p|exists q]; set_solver.
        * intros (q & [->|Hq]%elem_of_cons & [w Hqk]); [left; congruence|right]. exists q. split; [done|by eexists]. }
  destruct (Hgen (ptrs d)) as (ks & Hks & Hndk & Hk); [done|done|]. exists ks. split_and!; [done..|].
  intros k. rewrite Hk. split.
  - intros (p & Hp & w & He). destruct (H1 p Hp) as (k' & v & He' & Hm). rewrite He in He'. injection He' as -> ->. eauto.
  - intros [v Hv]. destruct (H2 k v Hv) as (p & Hp & He). exists p. split; [done|by eexists].
Qed.

Lemma points_in (d : dict K V) it p rest : points d it p rest → p ∈ ptrs d.
Proof.
  intros (_ & _ & _ & _ & pre & Hb). rewrite <-tables_ptrs. apply elem_of_concat. eexists _, (pre ++ p :: rest). split; [done|set_solver].
Qed.

(** What a call returns, for the interface. *)
Lemma returns_rest st (d : dict K V) m (ty : dictType K V) it l ks res :
  dict_ok st d m → type d = ty → safe it = false → fingerprint it = dictFingerprint table_addr d →
  returns d it l res → Forall2 (has_key st) l ks →
  ∃ d' it' r, ('(r, it, d') ← res; Some (st, d', it, r)) = Some (d', it', r) ∧ dict_rep ty d' m ∧
    match r with
    | Some e => ∃ k ks', ks = k :: ks' ∧ dict_entry_of d' e k ∧ get_key d' e = Some k ∧ dict_iter_rest d' it' ks'
    | None => ks = [] ∧ ∃ d'', (d1 ← dictReleaseIterator table_addr it' d'.2; Some (d'.1, d1)) = Some d'' ∧ dict_rep ty d'' m
    end.
Proof.
  intros Hd Hty Hs Hf (r & it' & -> & Hst & Hs' & Hf' & Hr) Hks. cbn [mbind option_bind].
  exists (st, d), it', r. split; [done|]. split; [done|]. rewrite Hs in Hs'. rewrite Hf in Hf'. destruct r as [p|].
  - destruct Hr as (rest & Hp & ->). apply Forall2_cons_inv_l in Hks as (k & ks' & Hk & Hks & ->).
    exists k, ks'. split; [done|]. split; [split; [by eapply points_in|done]|].
    split; [unfold get_key; destruct Hk as [v Hk]; simpl; by rewrite Hk|]. right. split_and!; [done|done|]. by exists p, rest.
  - subst l. apply Forall2_nil_inv_l in Hks as ->. split; [done|]. exists (st, d). split; [|done].
    unfold dictReleaseIterator. fold (started it'). by rewrite Hst, Hs', Hf', Z.eqb_refl.
Qed.

Lemma dict_iter_ok (ty : dictType K V) `{!DictTypeOk ty} (Hdup : valDup ty = None) :
  @TableIterOk (store K V * dict K V) ptr dictIterator K V _ _ dict_table (dict_table_ok ty Hdup) dict_iter.
Proof.
  refine {| iter_rest := dict_iter_rest : _ → _ → list K → Prop |}.
  - intros [st d] m [Hd Hty]. destruct (keys_of_ptrs st d m Hd) as (ks & Hks & Hnd & Hk). exists ks.
    split; [by left|done].
  - intros [st d] m it ks [Hd Hty] Hr. simpl in *. destruct Hr as [[-> Hks]|(Hs & Hf & p & rest & Hp & Hks)].
    + destruct (start table_addr dictGetIterator d) as [it1 d1] eqn:Hst. pose proof Hst as Hst1.
      unfold start, started in Hst1. simpl in Hst1. injection Hst1 as <- <-.
      destruct (tables_len st d m Hd) as (_ & _ & Hs0 & _).
      set (it1 := DictIterator _ _ _ _ _ _) in Hst.
      assert (later d it1 = ptrs d) as Hl by (unfold later, pos; simpl; by rewrite drop_0, tables_ptrs).
      apply (returns_rest st d m ty it1 (ptrs d)); [done|done|done|done| |done]. rewrite <-Hl.
      apply (next_first table_addr st d m dictGetIterator d); [done|left; simpl; lia|done|done].
    + eapply (returns_rest st d m ty); [done|done|done|done|by eapply next_again|done].
  - intros [st d] m it ks [Hd Hty] Hr. simpl in *. exists (st, d). split; [|done]. unfold dictReleaseIterator.
    destruct Hr as [[-> Hks]|(Hs & Hf & p & rest & (_ & Hst & _) & _)]; [done|].
    fold (started it). by rewrite Hst, Hs, Hf, Z.eqb_refl.
Defined.
End DictIterTable.
End KvIter.
