(* ===== verification/Skiplist.v ===== *)
(** * t_zset.c: the skip list of a sorted set

    Nodes live in a heap, a finite map from pointers to nodes.  A node owns its
    string: [ele] is its contents ([None] for NULL), compared by [cmp_bytes],
    which is what [sdscmp] returns on two strings with these contents
    ([SdsRefine.cmp_ok]).  Scores are IEEE doubles, [spec_float] with its
    comparisons.  [None] is a failed assertion, a dereference of NULL or of a
    freed node, or an access outside the levels of a node. *)

From Stdlib Require Import SpecFloat String.
From S2P Require Import Prelude.
From S2P Require Import Mem.
From S2P Require Import SdsRefine.
From S2P Require Import KvTable.
Import KvTable.

Module Skiplist.

Notation ptr := positive.
Definition ZSKIPLIST_MAXLEVEL : nat := 32.

Record zskiplistLevel := Level { forward : option ptr; span : Z }.

Record zskiplistNode := Node {
  ele : option bytes; score : spec_float; backward : option ptr; level : list zskiplistLevel }.

Record zskiplist := Zskiplist {
  header : ptr; tail : option ptr; length : Z; zlevel : nat }.

Notation heap := (gmap ptr zskiplistNode).

(** What [zmalloc] leaves in the fields that are not set. *)
Class Uninit := { junk_level : nat → zskiplistLevel; junk_backward : option ptr }.

(** Comparisons of doubles. *)
Definition dlt (a b : spec_float) : bool := SFltb a b.
Definition dle (a b : spec_float) : bool := SFleb a b.
Definition deq (a b : spec_float) : bool := SFeqb a b.
Definition isnan (a : spec_float) : bool := match a with S754_nan => true | _ => false end.

(** ** Memory *)
Definition get_level (h : heap) (x : ptr) (i : nat) : option zskiplistLevel :=
  n ← h !! x; level n !! i.

Definition set_level (h : heap) (x : ptr) (i : nat) (l : zskiplistLevel) : option heap :=
  n ← h !! x;
  _ ← level n !! i;
  Some (<[x := Node (ele n) (score n) (backward n) (<[i := l]> (level n))]> h).

(** [x->level[i].forward = f] and [x->level[i].span = s]; the span is an
    [unsigned int]. *)
Definition set_forward (h : heap) (x : ptr) (i : nat) (f : option ptr) : option heap :=
  l ← get_level h x i; set_level h x i (Level f (span l)).

Definition set_span (h : heap) (x : ptr) (i : nat) (s : Z) : option heap :=
  l ← get_level h x i; set_level h x i (Level (forward l) (uwrap 32 s)).

Definition set_backward (h : heap) (x : ptr) (b : option ptr) : option heap :=
  n ← h !! x; Some (<[x := Node (ele n) (score n) b (level n)]> h).

Definition set_tail (z : zskiplist) (t : option ptr) : zskiplist :=
  Zskiplist (header z) t (length z) (zlevel z).
Definition set_length (z : zskiplist) (n : Z) : zskiplist :=
  Zskiplist (header z) (tail z) (uwrap 64 n) (zlevel z).
Definition set_zlevel (z : zskiplist) (n : nat) : zskiplist :=
  Zskiplist (header z) (tail z) (length z) n.

(** [for (j = i; j < i+n; j++) body(j)] *)
Fixpoint for_levels (body : nat → heap → option heap) (i n : nat) (h : heap) : option heap :=
  match n with
  | O => Some h
  | S n => h ← body i h; for_levels body (S i) n h
  end.

Section Operations.
Context `{Uninit}.

(** ** Creation and release *)
Definition zslCreateNode (h : heap) (lv : nat) (sc : spec_float) (e : option bytes) : heap * ptr :=
  let zn := fresh (dom h) in
  (<[zn := Node e sc junk_backward (junk_level <$> seq 0 lv)]> h, zn).

Definition init_level (x : ptr) (j : nat) (h : heap) : option heap :=
  h ← set_forward h x j None;
  set_span h x j 0.

Definition zslCreate (h : heap) : option (heap * zskiplist) :=
  let '(h, hd) := zslCreateNode h ZSKIPLIST_MAXLEVEL (S754_zero false) None in
  h ← for_levels (init_level hd) 0 ZSKIPLIST_MAXLEVEL h;
  h ← set_backward h hd None;
  Some (h, Zskiplist hd None 0 1).

(** Frees the string and the node. *)
Definition zslFreeNode (h : heap) (x : ptr) : option heap :=
  _ ← h !! x; Some (delete x h).

Definition free_body (s : heap * option ptr) : option (heap * option ptr + heap) :=
  let '(h, node) := s in
  match node with
  | None => Some (inr h)
  | Some x =>
      l ← get_level h x 0;
      let next := forward l in
      h ← zslFreeNode h x;
      Some (inl (h, next))
  end.

Definition zslFree (h : heap) (z : zskiplist) : option heap :=
  l ← get_level h (header z) 0;
  let node := forward l in
  h ← zslFreeNode h (header z);
  loop (S (Z.to_nat (length z))) free_body (h, node).

(** [ZSKIPLIST_P * 0xFFFF] is 16383.75.  The list holds what the next calls of
    [random()] return. *)
Fixpoint random_loop (rs : list Z) (lv : nat) : option (nat * list Z) :=
  match rs with
  | [] => None
  | r :: rs => if Z.land r 65535 <? 16384 then random_loop rs (S lv) else Some (lv, rs)
  end.

Definition zslRandomLevel (rs : list Z) : option (nat * list Z) :=
  '(lv, rs) ← random_loop rs 1;
  Some (if (lv <? ZSKIPLIST_MAXLEVEL)%nat then lv else ZSKIPLIST_MAXLEVEL, rs).

(** ** Searching

    Every search goes down the levels; at each one it moves forward while
    [cond] holds of the next node and of the number of nodes passed when it is
    reached, a counter of [w] bits that some of the functions do not use. *)
Definition walk_body (h : heap) (w : Z) (cond : zskiplistNode → Z → option bool) (i : nat)
    (s : ptr * Z) : option (ptr * Z + ptr * Z) :=
  let '(x, rank) := s in
  l ← get_level h x i;
  match forward l with
  | None => Some (inr (x, rank))
  | Some y =>
      ny ← h !! y;
      let rank' := uwrap w (rank + span l) in
      b ← cond ny rank';
      Some (if b : bool then inl (y, rank') else inr (x, rank))
  end.

(** A level has at most [length] nodes. *)
Definition walk (h : heap) (z : zskiplist) (w : Z) (cond : zskiplistNode → Z → option bool) (i : nat)
    (x : ptr) (rank : Z) : option (ptr * Z) :=
  loop (S (Z.to_nat (length z))) (walk_body h w cond i) (x, rank).

(** [for (i = zsl->level-1; i >= 0; i--) { ...; update[i] = x; }]: the arrays
    [update] and [rank], from index 0. *)
Fixpoint descend (h : heap) (z : zskiplist) (w : Z) (cond : zskiplistNode → Z → option bool) (n : nat)
    (x : ptr) (rank : Z) : option (list (ptr * Z)) :=
  match n with
  | O => Some []
  | S i =>
      '(x, rank) ← walk h z w cond i x rank;
      us ← descend h z w cond i x rank;
      Some (us ++ [(x, rank)])
  end.

(** [node->score < score || (node->score == score && sdscmp(node->ele,ele) < 0)] *)
Definition node_before (sc : spec_float) (e : bytes) (n : zskiplistNode) (_ : Z) : option bool :=
  if dlt (score n) sc then Some true
  else if deq (score n) sc then e' ← ele n; Some (cmp_bytes e' e <? 0)
  else Some false.

(** ** Insertion *)
(** The levels above the present ones start at the header, with rank 0. *)
Definition raise_levels (h : heap) (z : zskiplist) (us : list (ptr * Z)) (lv : nat) :
    option (heap * list (ptr * Z)) :=
  h ← for_levels (λ i h, set_span h (header z) i (length z)) (zlevel z) (lv - zlevel z) h;
  Some (h, us ++ replicate (lv - zlevel z) (header z, 0)).

Definition link_level (x : ptr) (us : list (ptr * Z)) (rank0 : Z) (i : nat) (h : heap) : option heap :=
  '(u, rank) ← us !! i;
  lu ← get_level h u i;
  h ← set_forward h x i (forward lu);
  h ← set_forward h u i (Some x);
  lu ← get_level h u i;
  h ← set_span h x i (span lu - uwrap 32 (rank0 - rank));
  set_span h u i (uwrap 32 (rank0 - rank) + 1).

(** [update[i]->level[i].span++] *)
Definition incr_span (us : list (ptr * Z)) (i : nat) (h : heap) : option heap :=
  '(u, _) ← us !! i;
  lu ← get_level h u i;
  set_span h u i (span lu + 1).

(** [rs] is the future of [random()]. *)
Definition zslInsert (h : heap) (z : zskiplist) (rs : list Z) (sc : spec_float) (e : bytes) :
    option (heap * zskiplist * ptr * list Z) :=
  if isnan sc then None
  else
    us ← descend h z 32 (node_before sc e) (zlevel z) (header z) 0;
    '(lv, rs) ← zslRandomLevel rs;
    '(h, z, us) ←
      (if (zlevel z <? lv)%nat then
         '(h, us) ← raise_levels h z us lv;
         Some (h, set_zlevel z lv, us)
       else Some (h, z, us));
    let '(h, x) := zslCreateNode h lv sc (Some e) in
    '(u0, rank0) ← us !! 0%nat;
    h ← for_levels (link_level x us rank0) 0 lv h;
    h ← for_levels (incr_span us) lv (zlevel z - lv) h;
    h ← set_backward h x (if decide (u0 = header z) then None else Some u0);
    l0 ← get_level h x 0;
    '(h, z) ← match forward l0 with
              | Some y => h ← set_backward h y (Some x); Some (h, z)
              | None => Some (h, set_tail z (Some x))
              end;
    Some (h, set_length z (length z + 1), x, rs).

(** ** Deletion *)
Definition unlink_level (x : ptr) (us : list ptr) (i : nat) (h : heap) : option heap :=
  u ← us !! i;
  lu ← get_level h u i;
  if decide (forward lu = Some x) then
    lx ← get_level h x i;
    h ← set_span h u i (span lu + (span lx - 1));
    set_forward h u i (forward lx)
  else set_span h u i (span lu - 1).

(** [while(zsl->level > 1 && zsl->header->level[zsl->level-1].forward == NULL) zsl->level--;] *)
Fixpoint lower_level (h : heap) (hd : ptr) (n : nat) : option nat :=
  match n with
  | O => Some O
  | S i =>
      if (1 <? n)%nat then
        l ← get_level h hd i;
        match forward l with None => lower_level h hd i | Some _ => Some n end
      else Some n
  end.

Definition zslDeleteNode (h : heap) (z : zskiplist) (x : ptr) (us : list ptr) :
    option (heap * zskiplist) :=
  h ← for_levels (unlink_level x us) 0 (zlevel z) h;
  n ← h !! x;
  l0 ← get_level h x 0;
  '(h, z) ← match forward l0 with
            | Some y => h ← set_backward h y (backward n); Some (h, z)
            | None => Some (h, set_tail z (backward n))
            end;
  lv ← lower_level h (header z) (zlevel z);
  let z := set_zlevel z lv in
  Some (h, set_length z (length z - 1)).

(** [keep] is [true] when the caller passes [node]: the node is then unlinked
    and returned, not freed. *)
Definition zslDelete (h : heap) (z : zskiplist) (sc : spec_float) (e : bytes) (keep : bool) :
    option (heap * zskiplist * option ptr) :=
  us ← descend h z 64 (node_before sc e) (zlevel z) (header z) 0;
  '(u0, _) ← us !! 0%nat;
  l0 ← get_level h u0 0;
  match forward l0 with
  | None => Some (h, z, None)
  | Some x =>
      n ← h !! x;
      eq ← (if deq sc (score n) then e' ← ele n; Some (cmp_bytes e' e =? 0) else Some false);
      if eq : bool then
        '(h, z) ← zslDeleteNode h z x us.*1;
        h ← (if keep : bool then Some h else zslFreeNode h x);
        Some (h, z, Some x)
      else Some (h, z, None)
  end.

(** ** Ranges of scores *)
Record zrangespec := Zrangespec {
  rmin : spec_float; rmax : spec_float; minex : bool; maxex : bool }.

Definition zslValueGteMin (value : spec_float) (spec : zrangespec) : bool :=
  if minex spec then dlt (rmin spec) value else dle (rmin spec) value.

Definition zslValueLteMax (value : spec_float) (spec : zrangespec) : bool :=
  if maxex spec then dlt value (rmax spec) else dle value (rmax spec).

Definition score_gte (range : zrangespec) (n : zskiplistNode) : option bool :=
  Some (zslValueGteMin (score n) range).
Definition score_lte (range : zrangespec) (n : zskiplistNode) : option bool :=
  Some (zslValueLteMax (score n) range).

(** The end of [zslIsInRange] and of [zslIsInLexRange]. *)
Definition ends_in_range (h : heap) (z : zskiplist) (gte lte : zskiplistNode → option bool) : option bool :=
  match tail z with
  | None => Some false
  | Some x =>
      n ← h !! x;
      b ← gte n;
      if negb b then Some false
      else
        l ← get_level h (header z) 0;
        match forward l with
        | None => Some false
        | Some x => n ← h !! x; lte n
        end
  end.

Definition zslIsInRange (h : heap) (z : zskiplist) (range : zrangespec) : option bool :=
  if dlt (rmax range) (rmin range) ||
     (deq (rmin range) (rmax range) && (minex range || maxex range)) then Some false
  else ends_in_range h z (score_gte range) (score_lte range).

(** What [zslFirstInRange] and [zslFirstInLexRange] do after the test of the
    range, and the same for the last node. *)
Definition first_in (h : heap) (z : zskiplist) (gte lte : zskiplistNode → option bool) : option (option ptr) :=
  us ← descend h z 64 (λ n _, negb <$> gte n) (zlevel z) (header z) 0;
  '(u0, _) ← us !! 0%nat;
  l0 ← get_level h u0 0;
  x ← forward l0;
  n ← h !! x;
  b ← lte n;
  Some (if b : bool then Some x else None).

Definition last_in (h : heap) (z : zskiplist) (gte lte : zskiplistNode → option bool) : option (option ptr) :=
  us ← descend h z 64 (λ n _, lte n) (zlevel z) (header z) 0;
  '(x, _) ← us !! 0%nat;
  n ← h !! x;
  b ← gte n;
  Some (if b : bool then Some x else None).

Definition zslFirstInRange (h : heap) (z : zskiplist) (range : zrangespec) : option (option ptr) :=
  b ← zslIsInRange h z range;
  if negb b then Some None
  else first_in h z (score_gte range) (score_lte range).

Definition zslLastInRange (h : heap) (z : zskiplist) (range : zrangespec) : option (option ptr) :=
  b ← zslIsInRange h z range;
  if negb b then Some None
  else last_in h z (score_gte range) (score_lte range).

(** ** Ranks *)
(** [node->score < score || (node->score == score && sdscmp(node->ele,ele) <= 0)] *)
Definition node_upto (sc : spec_float) (e : bytes) (n : zskiplistNode) (_ : Z) : option bool :=
  if dlt (score n) sc then Some true
  else if deq (score n) sc then e' ← ele n; Some (cmp_bytes e' e <=? 0)
  else Some false.

(** A search that can return at the end of each level. *)
Fixpoint levels_until {R} (h : heap) (z : zskiplist) (cond : zskiplistNode → Z → option bool)
    (test : ptr → Z → option (option R)) (n : nat) (x : ptr) (rank : Z) : option (option R) :=
  match n with
  | O => Some None
  | S i =>
      '(x, rank) ← walk h z 64 cond i x rank;
      r ← test x rank;
      match r with
      | Some r => Some (Some r)
      | None => levels_until h z cond test i x rank
      end
  end.

(** [if (x->ele && sdscmp(x->ele,ele) == 0) return rank;] *)
Definition rank_test (h : heap) (e : bytes) (x : ptr) (rank : Z) : option (option Z) :=
  n ← h !! x;
  Some (match ele n with
        | Some e' => if cmp_bytes e' e =? 0 then Some rank else None
        | None => None
        end).

Definition zslGetRank (h : heap) (z : zskiplist) (sc : spec_float) (e : bytes) : option Z :=
  r ← levels_until h z (node_upto sc e) (rank_test h e) (zlevel z) (header z) 0;
  Some (default 0 r).

Definition zslGetElementByRank (h : heap) (z : zskiplist) (rank : Z) : option (option ptr) :=
  levels_until h z (λ _ traversed, Some (traversed <=? rank))
    (λ x traversed, Some (if traversed =? rank then Some x else None)) (zlevel z) (header z) 0.

(** ** Ranges of strings *)
(** A bound is a string or one of the shared objects, known by their address. *)
Inductive lexstr := minstring | maxstring | lexsds (s : bytes).

Definition lex_contents (a : lexstr) : bytes :=
  match a with
  | minstring => bytes_of "minstring"%string
  | maxstring => bytes_of "maxstring"%string
  | lexsds s => s
  end.

Record zlexrangespec := Zlexrangespec {
  lmin : lexstr; lmax : lexstr; lminex : bool; lmaxex : bool }.

(** The bytes of the item; the outer option is a read past its end.  The C
    string ends with a NUL that is not part of the contents. *)
Definition zslParseLexRangeItem (item : bytes) : option (option (lexstr * bool)) :=
  let c i := (item ++ [0]) !! i in
  c0 ← c 0%nat;
  if c0 =? 43 then
    c1 ← c 1%nat; Some (if negb (c1 =? 0) then None else Some (maxstring, false))
  else if c0 =? 45 then
    c1 ← c 1%nat; Some (if negb (c1 =? 0) then None else Some (minstring, false))
  else if c0 =? 40 then Some (Some (lexsds (drop 1 item), true))
  else if c0 =? 91 then Some (Some (lexsds (drop 1 item), false))
  else Some None.

(** Both objects hold strings: for an integer encoded one the function returns
    C_ERR first. *)
Definition zslParseLexRange (min max : bytes) : option (option zlexrangespec) :=
  a ← zslParseLexRangeItem min;
  match a with
  | None => Some None
  | Some (mn, mnex) =>
      b ← zslParseLexRangeItem max;
      Some (match b with
            | None => None
            | Some (mx, mxex) => Some (Zlexrangespec mn mx mnex mxex)
            end)
  end.

Definition sdscmplex (a b : lexstr) : Z :=
  match a, b with
  | minstring, minstring | maxstring, maxstring => 0
  | minstring, _ | _, maxstring => -1
  | maxstring, _ | _, minstring => 1
  | lexsds a, lexsds b => cmp_bytes a b
  end.

Definition zslLexValueGteMin (value : bytes) (spec : zlexrangespec) : bool :=
  if lminex spec then 0 <? sdscmplex (lexsds value) (lmin spec)
  else 0 <=? sdscmplex (lexsds value) (lmin spec).

Definition zslLexValueLteMax (value : bytes) (spec : zlexrangespec) : bool :=
  if lmaxex spec then sdscmplex (lexsds value) (lmax spec) <? 0
  else sdscmplex (lexsds value) (lmax spec) <=? 0.

Definition lex_gte (range : zlexrangespec) (n : zskiplistNode) : option bool :=
  e ← ele n; Some (zslLexValueGteMin e range).
Definition lex_lte (range : zlexrangespec) (n : zskiplistNode) : option bool :=
  e ← ele n; Some (zslLexValueLteMax e range).

Definition zslIsInLexRange (h : heap) (z : zskiplist) (range : zlexrangespec) : option bool :=
  if (1 <? sdscmplex (lmin range) (lmax range)) ||
     ((cmp_bytes (lex_contents (lmin range)) (lex_contents (lmax range)) =? 0) &&
      (lminex range || lmaxex range)) then Some false
  else ends_in_range h z (lex_gte range) (lex_lte range).

Definition zslFirstInLexRange (h : heap) (z : zskiplist) (range : zlexrangespec) : option (option ptr) :=
  b ← zslIsInLexRange h z range;
  if negb b then Some None else first_in h z (lex_gte range) (lex_lte range).

Definition zslLastInLexRange (h : heap) (z : zskiplist) (range : zlexrangespec) : option (option ptr) :=
  b ← zslIsInLexRange h z range;
  if negb b then Some None else last_in h z (lex_gte range) (lex_lte range).

(** ** Deleting ranges, from the dictionary of the sorted set too *)
Section Ranges.
Context {D E : Type} `{!Table D E bytes ptr}.

(** [while (x && cond) { ...; removed++; traversed++; x = next; }] *)
Definition delete_body (us : list ptr) (cond : zskiplistNode → Z → option bool)
    (s : heap * zskiplist * D * option ptr * Z * Z) :
    option (heap * zskiplist * D * option ptr * Z * Z + heap * zskiplist * D * Z) :=
  let '(h, z, d, x, traversed, removed) := s in
  match x with
  | None => Some (inr (h, z, d, removed))
  | Some x =>
      n ← h !! x;
      b ← cond n traversed;
      if b : bool then
        l ← get_level h x 0;
        let next := forward l in
        '(h, z) ← zslDeleteNode h z x us;
        e ← ele n;
        '(d, _) ← table_delete d e;
        h ← zslFreeNode h x;
        Some (inl (h, z, d, next, uwrap 64 (traversed + 1), uwrap 64 (removed + 1)))
      else Some (inr (h, z, d, removed))
  end.

(** The search for the first node, then the deletions: what the three
    functions below share. *)
Definition delete_range (h : heap) (z : zskiplist) (d : D)
    (before while_ : zskiplistNode → Z → option bool) : option (heap * zskiplist * D * Z) :=
  us ← descend h z 64 before (zlevel z) (header z) 0;
  '(u0, traversed) ← us !! 0%nat;
  l0 ← get_level h u0 0;
  loop (S (Z.to_nat (length z))) (delete_body us.*1 while_)
    (h, z, d, forward l0, uwrap 64 (traversed + 1), 0).

Definition zslDeleteRangeByScore (h : heap) (z : zskiplist) (range : zrangespec) (d : D) :
    option (heap * zskiplist * D * Z) :=
  delete_range h z d
    (λ n _, Some (if minex range then dle (score n) (rmin range) else dlt (score n) (rmin range)))
    (λ n _, Some (if maxex range then dlt (score n) (rmax range) else dle (score n) (rmax range))).

Definition zslDeleteRangeByLex (h : heap) (z : zskiplist) (range : zlexrangespec) (d : D) :
    option (heap * zskiplist * D * Z) :=
  delete_range h z d (λ n _, negb <$> lex_gte range n) (λ n _, lex_lte range n).

Definition zslDeleteRangeByRank (h : heap) (z : zskiplist) (start stop : Z) (d : D) :
    option (heap * zskiplist * D * Z) :=
  delete_range h z d (λ _ t, Some (t <? start)) (λ _ t, Some (t <=? stop)).
End Ranges.
End Operations.
End Skiplist.
