(* ===== verification/SkiplistRepr.v ===== *)
(** * What a skip list in memory represents

    The nodes of a list, the header included, are described by a sequence of
    items; [next i b] is what level [i] of a node must hold when the items [b]
    follow it: the first of them that is high enough and its distance.  The
    lemmas show what a search finds and what [set_level] and its like change. *)

From Stdlib Require Import SpecFloat.
From S2P Require Import Prelude.
From S2P Require Import Mem.
From S2P Require Import SdsRefine.
From S2P Require Import Skiplist.
Import Skiplist.

(** ** The order of doubles *)
Definition fkey (a : spec_float) : Z * Z * Z :=
  match a with
  | S754_nan => (3, 0, 0)
  | S754_infinity s => if s then (-2, 0, 0) else (2, 0, 0)
  | S754_zero _ => (0, 0, 0)
  | S754_finite s m e => if s then (-1, -e, Z.neg m) else (1, e, Z.pos m)
  end.

Definition flt (a b : spec_float) : Prop :=
  let '(a1, a2, a3) := fkey a in
  let '(b1, b2, b3) := fkey b in
  a1 < b1 ∨ (a1 = b1 ∧ (a2 < b2 ∨ (a2 = b2 ∧ a3 < b3))).

Definition feq (a b : spec_float) : Prop := fkey a = fkey b.

Lemma SFcompare_fkey a b :
  isnan a = false → isnan b = false →
  match SFcompare a b with
  | Some Lt => flt a b
  | Some Eq => feq a b
  | Some Gt => flt b a
  | None => False
  end.
Proof.
  unfold flt, feq. intros Ha Hb.
  destruct a as [sa|sa| |sa ma ea], b as [sb|sb| |sb mb eb]; try done;
    destruct sa, sb; simpl; try (reflexivity || lia).
  all: destruct (Z.compare_spec ea eb); simpl; try lia; subst.
  all: change (PosDef.Pos.compare_cont Eq ma mb) with (ma ?= mb)%positive.
  all: destruct (Pos.compare_spec ma mb); simpl; try lia; by subst.
Qed.

Lemma flt_irrefl a : ¬ flt a a.
Proof. unfold flt. destruct (fkey a) as [[? ?] ?]. lia. Qed.

Lemma flt_trans a b c : flt a b → flt b c → flt a c.
Proof. unfold flt. destruct (fkey a) as [[? ?] ?], (fkey b) as [[? ?] ?], (fkey c) as [[? ?] ?]. lia. Qed.

Lemma flt_feq a b c : flt a b → feq b c → flt a c.
Proof. unfold flt, feq. by intros ? <-. Qed.

Lemma feq_flt a b c : feq a b → flt b c → flt a c.
Proof. unfold flt, feq. by intros ->. Qed.

Lemma float_trichotomy a b : flt a b ∨ feq a b ∨ flt b a.
Proof.
  unfold flt, feq. destruct (fkey a) as [[? ?] ?], (fkey b) as [[? ?] ?].
  assert (∀ x y z x' y' z' : Z, (x, y, z) = (x', y', z') ↔ x = x' ∧ y = y' ∧ z = z') as ->
    by (intros; split; [by intros [= -> -> ->]|by intros (-> & -> & ->)]). lia.
Qed.

#[export] Instance flt_dec a b : Decision (flt a b).
Proof. unfold flt. destruct (fkey a) as [[? ?] ?], (fkey b) as [[? ?] ?]. apply _. Defined.

#[export] Instance feq_dec a b : Decision (feq a b).
Proof. unfold feq. apply _. Defined.

Section Comparisons.
Context (a b : spec_float) (Ha : isnan a = false) (Hb : isnan b = false).

Lemma dlt_spec : dlt a b = bool_decide (flt a b).
Proof using All.
  unfold dlt, SFltb. pose proof (SFcompare_fkey a b Ha Hb) as Hc.
  destruct (SFcompare a b) as [[]|]; [..|done]; case_bool_decide as Hf; try done; exfalso.
  - unfold feq in Hc. unfold flt in Hf. rewrite Hc in Hf. destruct (fkey b) as [[? ?] ?]. lia.
  - exact (flt_irrefl a (flt_trans _ _ _ Hf Hc)).
Qed.

Lemma deq_spec : deq a b = bool_decide (feq a b).
Proof using All.
  unfold deq, SFeqb. pose proof (SFcompare_fkey a b Ha Hb) as Hc.
  destruct (SFcompare a b) as [[]|]; [..|done]; case_bool_decide as Hf; try done; exfalso.
  - apply (flt_irrefl a), (flt_feq _ _ _ Hc). by symmetry.
  - apply (flt_irrefl b), (flt_feq _ _ _ Hc Hf).
Qed.

Lemma dle_spec : dle a b = bool_decide (¬ flt b a).
Proof using All.
  unfold dle, SFleb. pose proof (SFcompare_fkey a b Ha Hb) as Hc.
  destruct (SFcompare a b) as [[]|]; [..|done]; case_bool_decide as Hf; try done; exfalso.
  - apply (flt_irrefl b), (flt_feq _ _ _ Hf Hc).
  - exact (flt_irrefl a (flt_trans _ _ _ Hc Hf)).
Qed.
End Comparisons.

(** ** The order of strings *)
Lemma lex_opp a : ∀ b, lex b a = - lex a b.
Proof.
  induction a as [|x a IH]; intros [|y b]; cbn [lex]; [done..|].
  destruct (Z.eqb_spec x y) as [->|]; [by rewrite Z.eqb_refl|].
  destruct (Z.eqb_spec y x); [lia|]. rewrite <-Z.sgn_opp. f_equal. lia.
Qed.

Lemma lex_range a b : lex a b = -1 ∨ lex a b = 0 ∨ lex a b = 1.
Proof.
  revert b. induction a as [|x a IH]; intros [|y b]; cbn [lex]; auto.
  destruct (x =? y); [done|]. destruct (Z.sgn_spec (x - y)) as [[_ ->]|[[_ ->]|[_ ->]]]; auto.
Qed.

Lemma lex_trans a : ∀ b c, lex a b = -1 → lex b c = -1 → lex a c = -1.
Proof.
  induction a as [|x a IH]; intros [|y b] [|z c]; cbn [lex]; try done.
  destruct (Z.eqb_spec x y), (Z.eqb_spec y z), (Z.eqb_spec x z); subst; try done; [apply IH|..];
    rewrite ?Z.sgn_neg_iff, ?Z.sgn_pos_iff; intros; try lia.
Qed.

Lemma cmp_lt e1 e2 : zlen e1 < 2 ^ 31 → zlen e2 < 2 ^ 31 → (cmp_bytes e1 e2 <? 0) = bool_decide (lex e1 e2 = -1).
Proof.
  intros H1 H2. destruct (cmp_bytes_lex e1 e2 H1 H2) as [<- _].
  destruct (Z.ltb_spec (cmp_bytes e1 e2) 0); symmetry; [apply bool_decide_eq_true|apply bool_decide_eq_false]; lia.
Qed.

Lemma cmp_le e1 e2 : zlen e1 < 2 ^ 31 → zlen e2 < 2 ^ 31 → (cmp_bytes e1 e2 <=? 0) = negb (bool_decide (lex e2 e1 = -1)).
Proof.
  intros H1 H2. rewrite lex_opp. destruct (cmp_bytes_lex e1 e2 H1 H2) as [<- _].
  destruct (Z.leb_spec (cmp_bytes e1 e2) 0); symmetry; rewrite ?negb_true_iff, ?negb_false_iff;
    [apply bool_decide_eq_false|apply bool_decide_eq_true]; lia.
Qed.

Lemma cmp_eq e1 e2 : zlen e1 < 2 ^ 31 → zlen e2 < 2 ^ 31 → (cmp_bytes e1 e2 =? 0) = bool_decide (e1 = e2).
Proof.
  intros H1 H2. destruct (cmp_bytes_lex e1 e2 H1 H2) as [_ Hz].
  destruct (Z.eqb_spec (cmp_bytes e1 e2) 0); symmetry; [apply bool_decide_eq_true|apply bool_decide_eq_false]; tauto.
Qed.

(** ** Items *)
Record item := Item { addr : ptr; ht : nat; sc : spec_float; el : option bytes }.

Definition low (i : nat) (l : list item) : Prop := Forall (λ it, (ht it ≤ i)%nat) l.

Fixpoint next (i : nat) (l : list item) : zskiplistLevel :=
  match l with
  | [] => Level None 0
  | it :: l =>
      if (i <? ht it)%nat then Level (Some (addr it)) 1
      else Level (forward (next i l)) (1 + span (next i l))
  end.

Lemma next_skip i b l : low i b → next i (b ++ l) = Level (forward (next i l)) (zlen b + span (next i l)).
Proof.
  induction 1 as [|it b Hit _ IH]; cbn [app next]; [by destruct (next i l)|].
  destruct (Nat.ltb_spec i (ht it)); [lia|]. rewrite IH. simpl. f_equal. rewrite zlen_cons. lia.
Qed.

Lemma next_hit i b it l : low i b → (i < ht it)%nat → next i (b ++ it :: l) = Level (Some (addr it)) (zlen b + 1).
Proof.
  intros Hb Hit. rewrite next_skip by done. simpl. by destruct (Nat.ltb_spec i (ht it)); [|lia].
Qed.

Lemma next_none i l : low i l → next i l = Level None (zlen l).
Proof. intros Hl. rewrite <-(app_nil_r l) at 1. rewrite next_skip by done. simpl. f_equal. lia. Qed.

(** Either no item is high enough or there is a first one. *)
Lemma low_or_split i l :
  low i l ∨ ∃ b it c, l = b ++ it :: c ∧ low i b ∧ (i < ht it)%nat.
Proof.
  induction l as [|it l IH]; [left; constructor|].
  destruct (decide (i < ht it)%nat) as [Hi|Hi].
  { right. exists [], it, l. split; [done|]. split; [constructor|done]. }
  destruct IH as [Hl|(b & it' & c & -> & Hb & Hit')].
  - left. constructor; [lia|done].
  - right. exists (it :: b), it', c. split; [done|]. split; [constructor; [lia|done]|done].
Qed.

Lemma next_bound i l : 0 ≤ span (next i l) ≤ zlen l.
Proof.
  destruct (low_or_split i l) as [Hl|(b & it & c & -> & Hb & Hit)].
  - rewrite next_none by done. simpl. zl.
  - rewrite next_hit by done. simpl. zl.
Qed.

Lemma low_app i a b : low i (a ++ b) ↔ low i a ∧ low i b.
Proof. apply Forall_app. Qed.

(** The last item of [l] above level [i] splits it. *)
Definition last_above (i : nat) (l a : list item) (it : item) (b : list item) : Prop :=
  l = a ++ it :: b ∧ (i < ht it)%nat ∧ low i b.

Lemma last_above_unique i l a it b a' it' b' :
  last_above i l a it b → last_above i l a' it' b' → a = a' ∧ it = it' ∧ b = b'.
Proof.
  intros (-> & Hit & Hb) (Heq & Hit' & Hb'). revert a' Heq.
  induction a as [|x a IH]; intros [|x' a'] [= -> Heq].
  - by rewrite Heq.
  - rewrite Heq in Hb. apply Forall_app in Hb as [_ Hb]. inversion Hb; subst. simpl in *. lia.
  - rewrite <-Heq in Hb'. apply Forall_app in Hb' as [_ Hb']. inversion Hb'; subst. simpl in *. lia.
  - by destruct (IH a' Heq) as (-> & -> & ->).
Qed.

(** ** Nodes in memory *)
Definition fields (h : heap) (x : ptr) : option (option bytes * spec_float * option ptr * nat) :=
  (λ n, (ele n, score n, backward n, Datatypes.length (level n))) <$> h !! x.

(** The back pointer of the item after [a]: the header and the first node have
    none. *)
Definition bwd (a : list item) : option ptr :=
  match a with [] => None | _ :: r => addr <$> last r end.

Record nodes_ok (h : heap) (lv : nat) (ys : list item) : Prop := {
  nodes_fields a it b :
    ys = a ++ it :: b → fields h (addr it) = Some (el it, sc it, bwd a, ht it);
  nodes_level a it b i :
    ys = a ++ it :: b → (i < ht it)%nat → (i < lv)%nat → get_level h (addr it) i = Some (next i b);
  nodes_nodup : NoDup (addr <$> ys);
  nodes_len : zlen ys ≤ 2 ^ 32 }.

Lemma fields_node h x e s b n :
  fields h x = Some (e, s, b, n) →
  ∃ nd, h !! x = Some nd ∧ ele nd = e ∧ score nd = s ∧ backward nd = b ∧ Datatypes.length (level nd) = n.
Proof. unfold fields. destruct (h !! x) as [nd|]; [|done]. simpl. intros [= <- <- <- <-]. by exists nd. Qed.

(** Two splits at the same address are the same. *)
Lemma split_unique (ys a b a' b' : list item) it it' :
  NoDup (addr <$> ys) → ys = a ++ it :: b → ys = a' ++ it' :: b' → addr it = addr it' →
  a = a' ∧ it = it' ∧ b = b'.
Proof.
  intros Hnd -> Heq Ha.
  assert ((addr <$> (a ++ it :: b)) !! Datatypes.length a = Some (addr it)) as H1
    by (rewrite list_lookup_fmap, list_lookup_middle by done; done).
  assert ((addr <$> (a ++ it :: b)) !! Datatypes.length a' = Some (addr it)) as H2
    by (rewrite Heq, list_lookup_fmap, list_lookup_middle by done; by rewrite Ha).
  pose proof (NoDup_lookup _ _ _ _ Hnd H1 H2) as Hl.
  apply app_inj_1 in Heq as [-> [= -> ->]]; done.
Qed.

(** ** Searches *)
(** [cond] holds of the items of [l1] after the first and of none of [l2], with
    the rank of each. *)
Definition decides (cond : zskiplistNode → Z → option bool) (l1 l2 : list item) : Prop :=
  (∀ a it b n, l1 = a ++ it :: b → a ≠ [] → ele n = el it → score n = sc it → cond n (zlen a) = Some true) ∧
  (∀ a it b n, l2 = a ++ it :: b → ele n = el it → score n = sc it → cond n (zlen l1 + zlen a) = Some false).

Section Search.
Context (h : heap) (lv : nat) (ys l1 l2 : list item) (w : Z) (cond : zskiplistNode → Z → option bool).
Context (Hok : nodes_ok h lv ys) (Hys : ys = l1 ++ l2) (Hw : 32 ≤ w) (Hc : decides cond l1 l2).

Lemma rank_id (a : list item) it b : ys = a ++ it :: b → uwrap w (zlen a) = zlen a.
Proof using Hok Hw.
  intros Heq. apply uwrap_id. pose proof (nodes_len _ _ _ Hok) as Hl. rewrite Heq in Hl.
  pose proof (Z.pow_le_mono_r 2 32 w ltac:(lia) Hw). unfold in_u. zl.
Qed.

Lemma walk_ok i (d : list item) : ∀ c it fuel,
  (i < lv)%nat → l1 = c ++ it :: d → (i < ht it)%nat → (Datatypes.length d < fuel)%nat →
  ∃ a it' b, last_above i l1 a it' b ∧
    loop fuel (walk_body h w cond i) (addr it, zlen c) = Some (addr it', zlen a).
Proof using All.
  remember (Datatypes.length d) as m eqn:Hm. revert d Hm.
  induction (lt_wf m) as [m _ IH]. intros d -> c it fuel Hi Hl1 Hit Hfuel.
  destruct fuel as [|fuel]; [lia|]. rewrite loop_S. unfold walk_body at 2.
  assert (ys = c ++ it :: d ++ l2) as Hsplit by (rewrite Hys, Hl1, <-app_assoc; done).
  rewrite (nodes_level _ _ _ Hok c it (d ++ l2) i Hsplit Hit Hi). cbn [mbind option_bind].
  destruct (low_or_split i d) as [Hd|(d1 & y & d2 & -> & Hd1 & Hy)].
  - exists c, it, d. split; [done|]. destruct (low_or_split i l2) as [Hl2|(b & y & b2 & Hl2 & Hb & Hy)].
    + rewrite next_none by (by apply low_app). done.
    + rewrite Hl2, app_assoc, next_hit by (done || by apply low_app). cbn [forward span].
      assert (ys = (c ++ it :: d ++ b) ++ y :: b2) as Hsy by (by rewrite Hsplit, Hl2; app_norm).
      destruct (fields_node _ _ _ _ _ _ (nodes_fields _ _ _ Hok _ _ _ Hsy)) as (n & -> & He & Hs & _).
      cbn [mbind option_bind].
      replace (zlen c + (zlen (d ++ b) + 1)) with (zlen (c ++ it :: d ++ b)) by (zl).
      rewrite (rank_id _ _ _ Hsy).
      replace (zlen (c ++ it :: d ++ b)) with (zlen l1 + zlen b) by (rewrite Hl1; zl).
      rewrite (proj2 Hc _ _ _ n Hl2 He Hs). done.
  - rewrite <-app_assoc. cbn [app]. rewrite next_hit by done. cbn [forward span].
    assert (ys = (c ++ it :: d1) ++ y :: d2 ++ l2) as Hsy by (by rewrite Hsplit; app_norm).
    assert (l1 = (c ++ it :: d1) ++ y :: d2) as Hl1' by (by rewrite Hl1; app_norm).
    destruct (fields_node _ _ _ _ _ _ (nodes_fields _ _ _ Hok _ _ _ Hsy)) as (n & -> & He & Hs & _).
    cbn [mbind option_bind].
    replace (zlen c + (zlen d1 + 1)) with (zlen (c ++ it :: d1)) by zl.
    rewrite (rank_id _ _ _ Hsy), (proj1 Hc _ _ _ n Hl1') by (done || by destruct c).
    cbn [mbind option_bind]. rewrite length_app in *. simpl in *.
    apply (IH (Datatypes.length d2)) with (d := d2); done || lia.
Qed.

Lemma descend_ok z : ∀ n c it d,
  (n ≤ lv)%nat → l1 = c ++ it :: d → (n ≤ ht it)%nat → (length z = zlen ys - 1) →
  ∃ us, descend h z w cond n (addr it) (zlen c) = Some us ∧ Datatypes.length us = n ∧
    ∀ i, (i < n)%nat → ∃ a it' b, last_above i l1 a it' b ∧ us !! i = Some (addr it', zlen a).
Proof using All.
  induction n as [|n IH]; intros c it d Hn Hl1 Hit Hz; cbn [descend].
  - exists []. split; [done|]. split; [done|]. lia.
  - destruct (walk_ok n d c it (S (Z.to_nat (length z)))) as (a & it' & b & Hab & Hrun);
      [lia|done|lia| |].
    { rewrite Hz, Hys, Hl1. unfold zlen. rewrite !length_app. simpl. lia. }
    unfold walk. rewrite Hrun. cbn [mbind option_bind]. pose proof Hab as (Hl & Hit' & _).
    destruct (IH a it' b ltac:(lia) Hl ltac:(lia) Hz) as (us & -> & Hlen & Hus). cbn [mbind option_bind].
    eexists. split; [done|]. split; [rewrite length_app; simpl; lia|].
    intros i Hi. destruct (decide (i = n)) as [->|Hne].
    + exists a, it', b. split; [done|]. rewrite lookup_app_r by lia. by rewrite Hlen, Nat.sub_diag.
    + destruct (Hus i ltac:(lia)) as (a1 & it1 & b1 & H1 & H2). exists a1, it1, b1. split; [done|].
      by apply lookup_app_l_Some.
Qed.
End Search.
