(* ===== verification/SkiplistOps.v ===== *)
(** * Insertion and deletion in a skip list

    What the loops over the levels do to the nodes, and that the result
    represents the sequence with the item added or removed. *)

From Stdlib Require Import SpecFloat.
From S2P Require Import Prelude.
From S2P Require Import Mem.
From S2P Require Import SdsRefine.
From S2P Require Import Skiplist.
From S2P Require Import SkiplistRepr.
Import Skiplist.

(** ** Writing fields *)
Definition agree (h h' : heap) : Prop := ∀ a, fields h' a = fields h a.

Lemma agree_trans h1 h2 h3 : agree h1 h2 → agree h2 h3 → agree h1 h3.
Proof. intros H1 H2 a. by rewrite H2, H1. Qed.

Lemma set_level_ok h x i l l0 :
  get_level h x i = Some l0 →
  ∃ h', set_level h x i l = Some h' ∧ agree h h' ∧
    ∀ a j, get_level h' a j = if decide (a = x ∧ j = i) then Some l else get_level h a j.
Proof.
  unfold get_level, set_level. destruct (h !! x) as [n|] eqn:Hx; [|done]. cbn [mbind option_bind].
  intros Hi. rewrite Hi. cbn [mbind option_bind]. eexists. split; [done|]. split.
  - intros a. unfold fields. destruct (decide (a = x)) as [->|Hne].
    + rewrite lookup_insert_eq, Hx. simpl. by rewrite length_insert.
    + by rewrite lookup_insert_ne by done.
  - intros a j. destruct (decide (a = x)) as [->|Hne].
    + rewrite lookup_insert_eq, Hx. cbn [mbind option_bind level]. destruct (decide (j = i)) as [->|Hj].
      * rewrite decide_True by done. apply list_lookup_insert_eq. by eapply lookup_lt_Some.
      * rewrite decide_False by (by intros [_ ?]). by apply list_lookup_insert_ne.
    + rewrite lookup_insert_ne, decide_False by (done || by intros [? _]). done.
Qed.

Lemma set_forward_ok h x i f l :
  get_level h x i = Some l →
  ∃ h', set_forward h x i f = Some h' ∧ agree h h' ∧
    ∀ a j, get_level h' a j = if decide (a = x ∧ j = i) then Some (Level f (span l)) else get_level h a j.
Proof. intros Hl. unfold set_forward. rewrite Hl. by apply (set_level_ok _ _ _ _ l). Qed.

Lemma set_span_ok h x i s l :
  get_level h x i = Some l →
  ∃ h', set_span h x i s = Some h' ∧ agree h h' ∧
    ∀ a j, get_level h' a j =
      if decide (a = x ∧ j = i) then Some (Level (forward l) (uwrap 32 s)) else get_level h a j.
Proof. intros Hl. unfold set_span. rewrite Hl. by apply (set_level_ok _ _ _ _ l). Qed.

Lemma set_backward_ok h x b e s b0 n :
  fields h x = Some (e, s, b0, n) →
  ∃ h', set_backward h x b = Some h' ∧
    (∀ a, fields h' a = if decide (a = x) then Some (e, s, b, n) else fields h a) ∧
    ∀ a j, get_level h' a j = get_level h a j.
Proof.
  intros Hf. destruct (fields_node _ _ _ _ _ _ Hf) as (nd & Hx & <- & <- & <- & <-).
  unfold set_backward. rewrite Hx. cbn [mbind option_bind]. eexists. split; [done|]. split.
  - intros a. unfold fields. destruct (decide (a = x)) as [->|Hne].
    + by rewrite lookup_insert_eq.
    + by rewrite lookup_insert_ne by done.
  - intros a j. unfold get_level. destruct (decide (a = x)) as [->|Hne].
    + by rewrite lookup_insert_eq, Hx.
    + by rewrite lookup_insert_ne by done.
Qed.

(** Equal fields and levels make equal nodes. *)
Lemma node_ext h h' a :
  fields h' a = fields h a → (∀ j, get_level h' a j = get_level h a j) → h' !! a = h !! a.
Proof.
  unfold fields, get_level. destruct (h' !! a) as [n'|], (h !! a) as [n|]; simpl; try done.
  intros [= He Hs Hb _] Hl. destruct n', n. simpl in *. subst. repeat f_equal. by apply list_eq.
Qed.

(** A loop whose round [i] changes level [i] only, to [G i]. *)
Lemma for_levels_ok (body : nat → heap → option heap) (G : nat → ptr → option zskiplistLevel) n : ∀ i h,
  (∀ k h1, (i ≤ k < i + n)%nat → agree h h1 → (∀ a, get_level h1 a k = get_level h a k) →
    ∃ h2, body k h1 = Some h2 ∧ agree h1 h2 ∧
      ∀ a j, get_level h2 a j = if decide (j = k) then G k a else get_level h1 a j) →
  ∃ h', for_levels body i n h = Some h' ∧ agree h h' ∧
    ∀ a j, get_level h' a j = if decide (i ≤ j < i + n)%nat then G j a else get_level h a j.
Proof.
  induction n as [|n IH]; intros i h Hbody; cbn [for_levels].
  - exists h. split; [done|]. split; [done|]. intros a j. by rewrite decide_False by lia.
  - destruct (Hbody i h) as (h1 & -> & Ha1 & Hl1); [lia|done..|]. cbn [mbind option_bind].
    destruct (IH (S i) h1) as (h' & -> & Ha' & Hl').
    { intros k h2 Hk Ha2 Hl2. apply Hbody; [lia|by eapply agree_trans|].
      intros a. rewrite Hl2, Hl1. by rewrite decide_False by lia. }
    exists h'. split; [done|]. split; [by eapply agree_trans|].
    intros a j. rewrite Hl', Hl1. destruct (decide (j = i)) as [->|Hne].
    + by rewrite decide_False, decide_True by lia.
    + destruct (decide (S i ≤ j < S i + n)%nat); [by rewrite decide_True by lia|by rewrite decide_False by lia].
Qed.

(** ** The whole list *)
Definition hd_item (x : ptr) : item := Item x ZSKIPLIST_MAXLEVEL (S754_zero false) None.

Record zsl_ok (h : heap) (z : zskiplist) (xs : list item) : Prop := {
  ok_nodes : nodes_ok h (zlevel z) (hd_item (header z) :: xs);
  ok_above i : (zlevel z ≤ i < ZSKIPLIST_MAXLEVEL)%nat →
    ∃ s, get_level h (header z) i = Some (Level None s);
  ok_level : (1 ≤ zlevel z ≤ ZSKIPLIST_MAXLEVEL)%nat;
  ok_heights : Forall (λ it, (1 ≤ ht it ≤ zlevel z)%nat) xs;
  ok_tight : zlevel z = 1%nat ∨ Exists (λ it, ht it = zlevel z) xs;
  ok_tail : tail z = addr <$> last xs;
  ok_length : length z = zlen xs }.

(** The array [update] (with the ranks) of a search that stopped after [l1]. *)
Definition update_ok (lv : nat) (l1 : list item) (us : list (ptr * Z)) : Prop :=
  ∀ i, (i < lv)%nat → ∃ a it b, last_above i l1 a it b ∧ us !! i = Some (addr it, zlen a).

Lemma zlen_items h z xs : zsl_ok h z xs → zlen xs < 2 ^ 32.
Proof. intros Hz. pose proof (nodes_len _ _ _ (ok_nodes _ _ _ Hz)) as Hl. rewrite zlen_cons in Hl. lia. Qed.

Lemma skiplist_search h z xs l1 l2 w cond :
  zsl_ok h z xs → xs = l1 ++ l2 → 32 ≤ w → decides cond (hd_item (header z) :: l1) l2 →
  ∃ us, descend h z w cond (zlevel z) (header z) 0 = Some us ∧ Datatypes.length us = zlevel z ∧
    update_ok (zlevel z) (hd_item (header z) :: l1) us.
Proof.
  intros Hz Hxs Hw Hc. pose proof (ok_level _ _ _ Hz).
  apply (descend_ok h (zlevel z) (hd_item (header z) :: xs) (hd_item (header z) :: l1) l2 w cond)
    with (c := []) (it := hd_item (header z)) (d := l1); try done.
  - apply (ok_nodes _ _ _ Hz).
  - by rewrite Hxs.
  - simpl. lia.
  - rewrite (ok_length _ _ _ Hz), zlen_cons. lia.
Qed.

(** The last item above level 0 is the last item. *)
Lemma last_above_0 l a it b :
  Forall (λ it, (1 ≤ ht it)%nat) l → last_above 0 l a it b → b = [] ∧ l = a ++ [it].
Proof.
  intros Hall (-> & _ & Hb). apply Forall_app in Hall as [_ Hall]. inversion Hall as [|?? _ Hall']; subst.
  destruct b as [|y b]; [done|]. inversion Hb; inversion Hall'; subst. simpl in *. lia.
Qed.

Lemma ok_positive h z xs : zsl_ok h z xs → Forall (λ it, (1 ≤ ht it)%nat) (hd_item (header z) :: xs).
Proof.
  intros Hz. constructor; [simpl; unfold ZSKIPLIST_MAXLEVEL; lia|].
  eapply Forall_impl; [apply (ok_heights _ _ _ Hz)|]. simpl. lia.
Qed.

(** The items of a list are allocated. *)
Lemma nodes_dom h lv ys it : nodes_ok h lv ys → it ∈ ys → addr it ∈ dom h.
Proof.
  intros Hok (a & b & ->)%list_elem_of_split.
  destruct (fields_node _ _ _ _ _ _ (nodes_fields _ _ _ Hok a it b eq_refl)) as (n & Hn & _).
  apply elem_of_dom. eauto.
Qed.

(** Splits of a list with one more element. *)
Lemma split_insert (l1 l2 a b : list item) x it :
  l1 ++ x :: l2 = a ++ it :: b →
  (∃ d, l1 = a ++ it :: d ∧ b = d ++ x :: l2) ∨ (a = l1 ∧ it = x ∧ b = l2) ∨
  (∃ c, a = l1 ++ x :: c ∧ l2 = c ++ it :: b).
Proof.
  revert a. induction l1 as [|y l1 IH]; intros a Heq.
  - destruct a as [|y a]; simplify_eq/=; [by right; left|]. right; right. by exists a.
  - destruct a as [|y' a]; injection Heq as <- Heq; [left; exists l1; by rewrite Heq|].
    destruct (IH a Heq) as [(d & -> & ->)|[(-> & -> & ->)|(c & -> & ->)]]; [left; by exists d|by right; left|].
    right; right. by exists c.
Qed.

Lemma split_app (l1 l2 a b : list item) it :
  l1 ++ l2 = a ++ it :: b →
  (∃ d, l1 = a ++ it :: d ∧ b = d ++ l2) ∨ (∃ c, a = l1 ++ c ∧ l2 = c ++ it :: b).
Proof.
  revert a. induction l1 as [|y l1 IH]; intros a Heq.
  - right. by exists a.
  - destruct a as [|y' a]; injection Heq as <- Heq; [left; exists l1; by rewrite Heq|].
    destruct (IH a Heq) as [(d & -> & ->)|(c & -> & ->)]; [left; by exists d|right; by exists c].
Qed.

(** ** The levels after an insertion *)
Section Insert.
Context (lv : nat) (l1 l2 : list item) (xi : item).
Notation ys := (l1 ++ l2).

(** What the levels of the nodes before the new one become. *)
Definition after_insert (us : list (ptr * Z)) (h : heap) (i : nat) (a : ptr) : option zskiplistLevel :=
  if decide (a = addr xi) then Some (next i l2)
  else match us !! i with
       | Some (u, r) =>
           if decide (a = u) then Some (next i (drop (S (Z.to_nat r)) l1 ++ xi :: l2)) else get_level h a i
       | None => None
       end.

Lemma drop_last_above i a it b : last_above i l1 a it b → drop (S (Z.to_nat (zlen a))) l1 = b.
Proof using.
  intros (-> & _ & _). unfold zlen. rewrite Nat2Z.id.
  change (it :: b) with ([it] ++ b). rewrite app_assoc.
  replace (S (Datatypes.length a)) with (Datatypes.length (a ++ [it])) by (rewrite length_app; simpl; lia).
  apply drop_app_length.
Qed.

Lemma insert_nodes h h' us :
  nodes_ok h lv ys → update_ok lv l1 us → addr xi ∉ addr <$> ys → zlen ys < 2 ^ 32 → (ht xi ≤ lv)%nat →
  (∀ a it b, l1 ++ xi :: l2 = a ++ it :: b → fields h' (addr it) = Some (el it, sc it, bwd a, ht it)) →
  (∀ a i, (i < lv)%nat → a ≠ addr xi ∨ (i < ht xi)%nat → get_level h' a i = after_insert us h i a) →
  nodes_ok h' lv (l1 ++ xi :: l2).
Proof using.
  intros Hok Hus Hfresh Hlen Hht Hf Hl. pose proof (nodes_nodup _ _ _ Hok) as Hnd.
  assert (∀ it, it ∈ ys → addr it ≠ addr xi) as Hne.
  { intros it Hin Heq. apply Hfresh. rewrite <-Heq. by apply list_elem_of_fmap_2. }
  split; [exact Hf| | |].
  - intros a it b i Heq Hit Hi. destruct (Hus i Hi) as (ai & iti & bi & Hlast & Hu).
    pose proof Hlast as (Hl1 & Hhi & Hlow).
    destruct (split_insert _ _ _ _ _ _ Heq) as [(d & Hd & ->)|[(-> & -> & ->)|(c & -> & Hc)]].
    + assert (it ∈ ys) as Hin by (rewrite Hd; set_solver).
      rewrite Hl by (auto using Hne). unfold after_insert. rewrite decide_False by auto. rewrite Hu.
      destruct (low_or_split i d) as [Hdl|(d1 & y & d2 & -> & Hd1 & Hy)].
      * destruct (last_above_unique i l1 a it d _ _ _ ltac:(done) Hlast) as (<- & <- & <-).
        rewrite decide_True by done. by rewrite (drop_last_above i a it d Hlast).
      * rewrite decide_False.
        -- rewrite (nodes_level _ _ _ Hok a it ((d1 ++ y :: d2) ++ l2) i) by (done || rewrite Hd; by app_norm).
           rewrite <-!app_assoc. cbn [app]. by rewrite !next_hit by done.
        -- intros Ha. destruct (split_unique ys a ((d1 ++ y :: d2) ++ l2) ai (bi ++ l2) it iti Hnd) as (_ & _ & Hb);
             [rewrite Hd; by app_norm|rewrite Hl1; by app_norm|done|].
           apply app_inv_tail in Hb. rewrite <-Hb in Hlow. apply low_app in Hlow as [_ Hlow].
           inversion Hlow; subst. simpl in *. lia.
    + rewrite Hl by auto. unfold after_insert. by rewrite decide_True.
    + assert (ys = (l1 ++ c) ++ it :: b) as Hys by (rewrite Hc; by app_norm).
      assert (it ∈ ys) as Hin by (rewrite Hys; set_solver).
      rewrite Hl by (auto using Hne). unfold after_insert. rewrite decide_False by auto. rewrite Hu.
      rewrite decide_False; [by apply (nodes_level _ _ _ Hok _ _ _ i Hys)|].
      intros Ha. destruct (split_unique ys (l1 ++ c) b ai (bi ++ l2) it iti Hnd) as (Hb & _ & _);
        [done|rewrite Hl1; by app_norm|done|].
      apply (f_equal zlen) in Hb. rewrite Hl1 in Hb. zl.
  - rewrite fmap_app in *. cbn [fmap list_fmap]. apply NoDup_app in Hnd as (N1 & N2 & N3).
    rewrite elem_of_app in Hfresh. apply NoDup_app. split_and!; [done| |].
    + intros y Hy [->|Hy']%elem_of_cons; [tauto|]. by apply (N2 y).
    + apply NoDup_cons. tauto.
  - rewrite zlen_app in *. rewrite zlen_cons. lia.
Qed.
End Insert.

(** ** The steps of [zslInsert] *)
Lemma raise_ok h z xs us lv :
  zsl_ok h z xs → (zlevel z < lv ≤ ZSKIPLIST_MAXLEVEL)%nat →
  Datatypes.length us = zlevel z →
  ∃ h', raise_levels h z us lv = Some (h', us ++ replicate (lv - zlevel z) (header z, 0)) ∧ agree h h' ∧
    nodes_ok h' lv (hd_item (header z) :: xs) ∧
    (∀ i, (lv ≤ i < ZSKIPLIST_MAXLEVEL)%nat → ∃ s, get_level h' (header z) i = Some (Level None s)) ∧
    (∀ a, a ≠ header z → h' !! a = h !! a).
Proof.
  intros Hz Hlv Hus. pose proof (ok_nodes _ _ _ Hz) as Hok. pose proof (zlen_items _ _ _ Hz).
  unfold raise_levels.
  destruct (for_levels_ok (λ i h, set_span h (header z) i (length z))
    (λ i a, if decide (a = header z) then Some (Level None (zlen xs)) else get_level h a i)
    (lv - zlevel z) (zlevel z) h) as (h' & -> & Ha & Hl).
  { intros k h1 Hk Ha Hl. destruct (ok_above _ _ _ Hz k ltac:(lia)) as [s Hs]. rewrite <-Hl in Hs.
    destruct (set_span_ok h1 (header z) k (length z) _ Hs) as (h2 & -> & Ha2 & Hl2).
    exists h2. split; [done|]. split; [done|]. intros a j. rewrite Hl2, (ok_length _ _ _ Hz).
    destruct (decide (j = k)) as [->|]; [|by rewrite decide_False by (by intros [_ ?])].
    destruct (decide (a = header z)) as [->|]; [|by rewrite decide_False by (by intros [? _])].
    rewrite decide_True by done. cbn [forward]. zlen_pos. by rewrite uwrap_id by (unfold in_u; lia). }
  cbn [mbind option_bind]. exists h'. split; [done|]. split; [done|]. split; [|split].
  - split; [|intros a it b i Heq Hit Hi|apply (nodes_nodup _ _ _ Hok)|apply (nodes_len _ _ _ Hok)].
    + intros a it b Heq. rewrite Ha. by apply (nodes_fields _ _ _ Hok a it b).
    + rewrite Hl. destruct (decide (zlevel z ≤ i < zlevel z + (lv - zlevel z))%nat) as [Hr|Hr].
      * assert (low i xs) as Hlow.
        { eapply Forall_impl; [apply (ok_heights _ _ _ Hz)|]. simpl. lia. }
        destruct a as [|a0 a]; injection Heq as <- ->.
        -- rewrite decide_True by done. by rewrite next_none.
        -- apply low_app in Hlow as [_ Hlow]. inversion Hlow; subst. simpl in *. lia.
      * apply (nodes_level _ _ _ Hok a it b i Heq Hit). lia.
  - intros i Hi. rewrite Hl, decide_False by lia. apply (ok_above _ _ _ Hz). lia.
  - intros a Hne. apply node_ext; [apply Ha|]. intros j. rewrite Hl.
    destruct (decide _); [by rewrite decide_False|done].
Qed.

Section InsertSteps.
Context (l1 l2 : list item) (xi : item) (lv : nat) (us : list (ptr * Z)) (h : heap).
Notation ys := (l1 ++ l2).
Context (Hok : nodes_ok h lv ys) (Hus : update_ok lv l1 us) (Hfresh : addr xi ∉ addr <$> ys).
Context (Hlen : zlen ys < 2 ^ 32) (Hht : (1 ≤ ht xi ≤ lv)%nat).

Lemma update_level i a it b :
  (i < lv)%nat → last_above i l1 a it b → us !! i = Some (addr it, zlen a) →
  get_level h (addr it) i = Some (Level (forward (next i l2)) (zlen b + span (next i l2))) ∧
  addr it ≠ addr xi ∧ zlen a + 1 + zlen b = zlen l1 ∧ 0 ≤ span (next i l2) ∧
  zlen b + span (next i l2) < 2 ^ 32.
Proof using All.
  intros Hi (Hl1 & Hit & Hlow) Hu. split_and!.
  - rewrite <-next_skip by done. apply (nodes_level _ _ _ Hok a); [by rewrite Hl1; app_norm|done..].
  - intros Heq. apply Hfresh. rewrite <-Heq. apply list_elem_of_fmap_2. rewrite Hl1. set_solver.
  - rewrite Hl1. zl.
  - apply next_bound.
  - pose proof (next_bound i l2). rewrite Hl1 in Hlen. zl.
Qed.

Lemma link_ok :
  (∀ i, (i < ht xi)%nat → is_Some (get_level h (addr xi) i)) →
  ∃ h', for_levels (link_level (addr xi) us (zlen l1 - 1)) 0 (ht xi) h = Some h' ∧ agree h h' ∧
    ∀ a j, get_level h' a j =
      if decide (0 ≤ j < 0 + ht xi)%nat then after_insert l1 l2 xi us h j a else get_level h a j.
Proof using All.
  intros Hx. apply for_levels_ok. intros i h1 Hi Ha1 Hl1. unfold link_level.
  destruct (Hus i ltac:(lia)) as (ai & it & bi & Hlast & Hu). rewrite Hu. cbn [mbind option_bind].
  destruct (update_level i ai it bi ltac:(lia) Hlast Hu) as (Hlu & Hne & Hl & Hs0 & Hs). zlen_pos.
  rewrite Hl1, Hlu. cbn [mbind option_bind forward].
  destruct (Hx i ltac:(lia)) as [lx Hlx]. rewrite <-Hl1 in Hlx.
  destruct (set_forward_ok h1 (addr xi) i (forward (next i l2)) lx Hlx) as (h2 & -> & Ha2 & Hl2).
  cbn [mbind option_bind].
  assert (get_level h2 (addr it) i = Some (Level (forward (next i l2)) (zlen bi + span (next i l2)))) as Hlu2
    by (rewrite Hl2, decide_False, Hl1 by (by intros [? _]); done).
  destruct (set_forward_ok h2 (addr it) i (Some (addr xi)) _ Hlu2) as (h3 & -> & Ha3 & Hl3).
  cbn [mbind option_bind]. rewrite Hl3, decide_True by done. cbn [mbind option_bind span].
  assert (get_level h3 (addr xi) i = Some (Level (forward (next i l2)) (span lx))) as Hlx3
    by (rewrite Hl3, decide_False, Hl2, decide_True by (done || by intros [? _]); done).
  replace (zlen l1 - 1 - zlen ai) with (zlen bi) by lia. rewrite (uwrap_id 32 (zlen bi)) by (unfold in_u; lia).
  destruct (set_span_ok h3 (addr xi) i (zlen bi + span (next i l2) - zlen bi) _ Hlx3) as (h4 & -> & Ha4 & Hl4).
  cbn [mbind option_bind].
  assert (get_level h4 (addr it) i = Some (Level (Some (addr xi)) (zlen bi + span (next i l2)))) as Hlu4
    by (rewrite Hl4, decide_False, Hl3, decide_True by (done || by intros [? _]); done).
  destruct (set_span_ok h4 (addr it) i (zlen bi + 1) _ Hlu4) as (h5 & -> & Ha5 & Hl5).
  exists h5. split; [done|]. split; [by repeat (eapply agree_trans; [eassumption|])|].
  intros a j. rewrite Hl5, Hl4, Hl3, Hl2. destruct (decide (j = i)) as [->|Hj].
  2:{ by rewrite !decide_False by (by intros [_ ?]). }
  unfold after_insert. rewrite Hu. destruct (decide (a = addr xi)) as [->|Hax].
  - rewrite decide_False, decide_True by (done || by intros [? _]). cbn [forward].
    replace (zlen bi + span (next i l2) - zlen bi) with (span (next i l2)) by lia.
    rewrite uwrap_id by (unfold in_u; lia). by destruct (next i l2).
  - destruct (decide (a = addr it)) as [->|Hau].
    + rewrite decide_True by done. cbn [forward]. rewrite (drop_last_above l1 i ai it bi Hlast).
      destruct Hlast as (-> & _ & Hlow). rewrite next_hit by (done || lia). do 2 f_equal.
      apply uwrap_id. unfold in_u. zl.
    + rewrite !decide_False by (by intros [? _]). apply Hl1.
Qed.

Lemma incr_ok h1 :
  (∀ a j, get_level h1 a j =
      if decide (0 ≤ j < 0 + ht xi)%nat then after_insert l1 l2 xi us h j a else get_level h a j) →
  ∃ h', for_levels (incr_span us) (ht xi) (lv - ht xi) h1 = Some h' ∧ agree h1 h' ∧
    (∀ a j, (j < lv)%nat → a ≠ addr xi ∨ (j < ht xi)%nat → get_level h' a j = after_insert l1 l2 xi us h j a) ∧
    (∀ a j, (lv ≤ j)%nat → get_level h' a j = get_level h a j).
Proof using All.
  intros Hh1.
  destruct (for_levels_ok (incr_span us)
    (λ i a, if decide (a = addr xi) then get_level h1 a i else after_insert l1 l2 xi us h i a)
    (lv - ht xi) (ht xi) h1) as (h' & -> & Ha & Hl).
  { intros i h2 Hi Ha2 Hl2. unfold incr_span.
    destruct (Hus i ltac:(lia)) as (ai & it & bi & Hlast & Hu). rewrite Hu. cbn [mbind option_bind].
    destruct (update_level i ai it bi ltac:(lia) Hlast Hu) as (Hlu & Hne & Hl & Hs0 & Hs). zlen_pos.
    assert (get_level h2 (addr it) i = Some (Level (forward (next i l2)) (zlen bi + span (next i l2)))) as Hlu2
      by (rewrite Hl2, Hh1, decide_False by lia; done).
    rewrite Hlu2. cbn [mbind option_bind span].
    destruct (set_span_ok h2 (addr it) i (zlen bi + span (next i l2) + 1) _ Hlu2) as (h3 & -> & Ha3 & Hl3).
    exists h3. split; [done|]. split; [done|]. intros a j. rewrite Hl3. cbn [forward].
    destruct (decide (j = i)) as [->|Hj]; [|by rewrite decide_False by (by intros [_ ?])].
    destruct (decide (a = addr xi)) as [->|Hax].
    { by rewrite decide_False, Hl2 by (by intros [? _]). }
    unfold after_insert. rewrite (decide_False (P := a = addr xi)), Hu by done. destruct (decide (a = addr it)) as [->|Hau].
    - rewrite decide_True by done. rewrite (drop_last_above l1 i ai it bi Hlast). destruct Hlast as (Hl1 & _ & Hlow).
      rewrite next_skip by done. cbn [next]. destruct (Nat.ltb_spec i (ht xi)); [lia|]. cbn [forward span].
      do 2 f_equal. rewrite uwrap_id; [lia|]. unfold in_u. split; [lia|].
      pose proof (next_bound i l2). rewrite Hl1 in Hlen. rewrite !zlen_app, zlen_cons in Hlen. zlen_pos. lia.
    - rewrite !decide_False by (by intros [? _]). by rewrite Hl2, Hh1, decide_False by lia. }
  exists h'. split; [done|]. split; [done|].
  split; intros a j Hj; [intros Hor|]; rewrite Hl, Hh1; [|by rewrite !decide_False by lia].
  destruct (decide (ht xi ≤ j < ht xi + (lv - ht xi))%nat) as [Hr|Hr].
  - rewrite decide_False; [done|]. intros ->. destruct Hor; [done|lia].
  - by rewrite decide_True by lia.
Qed.
End InsertSteps.

Lemma bwd_snoc a x : a ≠ [] → bwd (a ++ [x]) = Some (addr x).
Proof. destruct a as [|y a]; [done|]. intros _. simpl. by rewrite last_snoc. Qed.

Lemma bwd_app a b x : a ≠ [] → bwd (a ++ b ++ [x]) = Some (addr x).
Proof. intros Ha. rewrite app_assoc. apply bwd_snoc. by destruct a. Qed.

(** The back pointers after an insertion. *)
Lemma insert_fields (l1 l2 : list item) (xi : item) (h h' : heap) :
  l1 ≠ [] → NoDup (addr <$> (l1 ++ l2)) → addr xi ∉ addr <$> (l1 ++ l2) →
  (∀ a it b, l1 ++ l2 = a ++ it :: b → fields h (addr it) = Some (el it, sc it, bwd a, ht it)) →
  fields h' (addr xi) = Some (el xi, sc xi, bwd l1, ht xi) →
  (∀ y l, l2 = y :: l → fields h' (addr y) = Some (el y, sc y, Some (addr xi), ht y)) →
  (∀ a, a ≠ addr xi → (∀ y l, l2 = y :: l → a ≠ addr y) → fields h' a = fields h a) →
  ∀ a it b, l1 ++ xi :: l2 = a ++ it :: b → fields h' (addr it) = Some (el it, sc it, bwd a, ht it).
Proof.
  intros Hne Hnd Hfresh Hf Hx Hy Hrest a it b Heq.
  assert (∀ it, it ∈ l1 ++ l2 → addr it ≠ addr xi) as Hfr.
  { intros u Hin Hu. apply Hfresh. rewrite <-Hu. by apply list_elem_of_fmap_2. }
  destruct (split_insert _ _ _ _ _ _ Heq) as [(d & -> & ->)|[(-> & -> & ->)|(c & -> & ->)]]; [|done|].
  - rewrite Hrest; [apply (Hf a it (d ++ l2)); by app_norm|apply Hfr; set_solver|].
    intros y l -> Hxy. rewrite fmap_app in Hnd. apply NoDup_app in Hnd as (_ & Hnd & _).
    apply (Hnd (addr it)); [apply list_elem_of_fmap_2; set_solver|]. rewrite Hxy. apply list_elem_of_fmap_2. set_solver.
  - destruct c as [|y c].
    + rewrite bwd_snoc by done. by apply (Hy it b).
    + rewrite Hrest.
      * rewrite (Hf (l1 ++ y :: c) it b) by (by rewrite <-app_assoc). do 3 f_equal.
        destruct (exists_last (l := y :: c) ltac:(done)) as (c' & u & ->). rewrite bwd_app by done.
        change (xi :: c' ++ [u]) with ((xi :: c') ++ [u]). by rewrite bwd_app by done.
      * apply Hfr. set_solver.
      * intros y' l [= <- _] Hxy. rewrite fmap_app in Hnd. apply NoDup_app in Hnd as (_ & _ & Hnd).
        cbn in Hnd. apply NoDup_cons in Hnd as [Hnd _]. apply Hnd. rewrite <-Hxy. apply list_elem_of_fmap_2. set_solver.
Qed.

Lemma random_level_bound rs lv rs' :
  zslRandomLevel rs = Some (lv, rs') → (1 ≤ lv ≤ ZSKIPLIST_MAXLEVEL)%nat.
Proof.
  unfold zslRandomLevel.
  assert (∀ rs n m rs', random_loop rs n = Some (m, rs') → (n ≤ m)%nat) as Hloop.
  { clear. induction rs as [|r rs IH]; intros n m rs'; cbn [random_loop]; [done|].
    destruct (_ <? _); [|by intros [= -> _]]. intros Hr%IH. lia. }
  destruct (random_loop rs 1) as [[m rs1]|] eqn:E; [|done]. apply Hloop in E. cbn [mbind option_bind].
  intros [= <- _]. unfold ZSKIPLIST_MAXLEVEL. destruct (Nat.ltb_spec m 32); lia.
Qed.

Section Insertion.
Context `{Uninit} (h : heap) (z : zskiplist) (xs l1 l2 : list item).
Context (Hz : zsl_ok h z xs) (Hxs : xs = l1 ++ l2).
Notation hd := (hd_item (header z)).

(** The arrays and the memory when the new node is linked. *)
Lemma prepare_ok us lv :
  (1 ≤ lv ≤ ZSKIPLIST_MAXLEVEL)%nat → Datatypes.length us = zlevel z → update_ok (zlevel z) (hd :: l1) us →
  ∃ h' us', (if (zlevel z <? lv)%nat then
         '(h, us) ← raise_levels h z us lv; Some (h, set_zlevel z lv, us)
       else Some (h, z, us)) = Some (h', set_zlevel z (Nat.max (zlevel z) lv), us') ∧ agree h h' ∧
    nodes_ok h' (Nat.max (zlevel z) lv) (hd :: xs) ∧ update_ok (Nat.max (zlevel z) lv) (hd :: l1) us' ∧
    (∀ i, (Nat.max (zlevel z) lv ≤ i < ZSKIPLIST_MAXLEVEL)%nat → ∃ s, get_level h' (header z) i = Some (Level None s)) ∧
    (∀ a, a ≠ header z → h' !! a = h !! a).
Proof using Hz Hxs.
  intros Hlv Hlen Hus. destruct (Nat.ltb_spec (zlevel z) lv).
  - destruct (raise_ok h z xs us lv Hz ltac:(lia) Hlen) as (h' & -> & Ha & Hok & Hab & Hfr). cbn [mbind option_bind].
    rewrite Nat.max_r by lia. eexists h', _. split_and!; try done.
    intros i Hi. destruct (decide (i < zlevel z)%nat) as [Hlt|Hge].
    + destruct (Hus i Hlt) as (a & it & b & Hl & Hu). exists a, it, b. split; [done|]. by apply lookup_app_l_Some.
    + exists [], hd, l1. split.
      * split; [done|]. split; [simpl; lia|]. pose proof (ok_heights _ _ _ Hz) as Hh. rewrite Hxs in Hh.
        apply Forall_app in Hh as [Hh _]. eapply Forall_impl; [done|]. simpl. lia.
      * rewrite lookup_app_r by lia. rewrite Hlen. apply lookup_replicate. split; [done|lia].
  - rewrite Nat.max_l by lia. exists h, us. split; [by destruct z|]. split_and!; try done;
      [apply (ok_nodes _ _ _ Hz)|apply (ok_above _ _ _ Hz)].
Qed.

Lemma first_back us u0 r0 :
  update_ok (zlevel z) (hd :: l1) us → us !! 0%nat = Some (u0, r0) →
  (if decide (u0 = header z) then None else Some u0) = bwd (hd :: l1) ∧ r0 = zlen (hd :: l1) - 1.
Proof using Hz Hxs.
  intros Hus Hu. destruct (Hus 0%nat) as (a & it & b & Hlast & Hu'); [pose proof (ok_level _ _ _ Hz); lia|].
  rewrite Hu in Hu'. injection Hu' as -> ->.
  destruct (last_above_0 (hd :: l1) a it b) as [-> Hl]; [|done|].
  { pose proof (ok_positive _ _ _ Hz) as Hp. rewrite Hxs in Hp. by apply (Forall_app _ (hd :: l1) l2) in Hp as [? _]. }
  rewrite Hl. split; [|zl]. destruct a as [|a0 a].
  - injection Hl as <- ->. by rewrite decide_True.
  - rewrite bwd_snoc by done. rewrite decide_False; [done|]. intros Heq.
    pose proof (nodes_nodup _ _ _ (ok_nodes _ _ _ Hz)) as Hnd. rewrite Hxs in Hnd.
    change (hd :: l1 ++ l2) with ((hd :: l1) ++ l2) in Hnd. rewrite Hl in Hnd. injection Hl as <- _.
    rewrite <-!app_assoc in Hnd. cbn in Hnd. apply NoDup_cons in Hnd as [Hnd _]. apply Hnd.
    rewrite <-Heq, fmap_app. set_solver.
Qed.
End Insertion.

Lemma lookup_fields h h' a : h' !! a = h !! a → fields h' a = fields h a.
Proof. unfold fields. by intros ->. Qed.

Lemma lookup_level h h' a j : h' !! a = h !! a → get_level h' a j = get_level h a j.
Proof. unfold get_level. by intros ->. Qed.

Lemma nodes_ok_fresh h lv ys x n : nodes_ok h lv ys → x ∉ dom h → nodes_ok (<[x := n]> h) lv ys.
Proof.
  intros Hok Hx.
  assert (∀ it, it ∈ ys → (<[x := n]> h) !! addr it = h !! addr it) as Hsame.
  { intros it Hin. apply lookup_insert_ne. intros ->. apply Hx. by eapply nodes_dom. }
  split; [| |apply (nodes_nodup _ _ _ Hok)|apply (nodes_len _ _ _ Hok)].
  - intros a it b Heq. rewrite (lookup_fields h) by (apply Hsame; rewrite Heq; set_solver).
    by apply (nodes_fields _ _ _ Hok a it b).
  - intros a it b i Heq Hit Hi. rewrite (lookup_level h) by (apply Hsame; rewrite Heq; set_solver).
    by apply (nodes_level _ _ _ Hok a it b).
Qed.

(** The end of [zslInsert]: the back pointers and the tail. *)
Lemma finish_insert h4 z1 (l1 l2 : list item) xi bx :
  NoDup (addr <$> (l1 ++ xi :: l2)) →
  fields h4 (addr xi) = Some (el xi, sc xi, bx, ht xi) →
  get_level h4 (addr xi) 0 = Some (next 0 l2) → Forall (λ it, (1 ≤ ht it)%nat) l2 →
  (∀ y l, l2 = y :: l → ∃ b, fields h4 (addr y) = Some (el y, sc y, b, ht y)) →
  ∃ h6, (h ← set_backward h4 (addr xi) (bwd l1);
         l0 ← get_level h (addr xi) 0;
         match forward l0 with
         | Some y => h ← set_backward h y (Some (addr xi)); Some (h, z1)
         | None => Some (h, set_tail z1 (Some (addr xi)))
         end) = Some (h6, match l2 with [] => set_tail z1 (Some (addr xi)) | _ => z1 end) ∧
    fields h6 (addr xi) = Some (el xi, sc xi, bwd l1, ht xi) ∧
    (∀ y l, l2 = y :: l → fields h6 (addr y) = Some (el y, sc y, Some (addr xi), ht y)) ∧
    (∀ a, a ≠ addr xi → (∀ y l, l2 = y :: l → a ≠ addr y) → fields h6 a = fields h4 a) ∧
    (∀ a j, get_level h6 a j = get_level h4 a j).
Proof.
  intros Hnd Hf Hl Hpos Hy.
  destruct (set_backward_ok h4 (addr xi) (bwd l1) _ _ _ _ Hf) as (h5 & -> & Hf5 & Hl5).
  cbn [mbind option_bind]. rewrite Hl5, Hl. cbn [mbind option_bind].
  destruct l2 as [|y l2]; cbn [next forward].
  - exists h5. split; [done|]. split; [by rewrite Hf5, decide_True|]. split; [done|]. split; [|done].
    intros a Ha _. by rewrite Hf5, decide_False.
  - apply Forall_cons in Hpos as [Hp _]. destruct (Nat.ltb_spec 0 (ht y)); [|lia]. cbn [forward].
    assert (addr y ≠ addr xi) as Hne.
    { rewrite fmap_app in Hnd. apply NoDup_app in Hnd as (_ & _ & Hnd). cbn in Hnd.
      apply NoDup_cons in Hnd as [Hnd _]. intros Heq. apply Hnd. rewrite Heq. set_solver. }
    destruct (Hy y l2 eq_refl) as [b Hb].
    destruct (set_backward_ok h5 (addr y) (Some (addr xi)) (el y) (sc y) b (ht y)) as (h6 & -> & Hf6 & Hl6);
      [by rewrite Hf5, decide_False|].
    exists h6. split; [done|]. split; [by rewrite Hf6, decide_False, Hf5, decide_True|].
    split; [|split; [|intros; by rewrite Hl6, Hl5]].
    + intros y' l [= <- _]. by rewrite Hf6, decide_True.
    + intros a Ha Hay. rewrite Hf6, decide_False by (by eapply Hay). by rewrite Hf5, decide_False.
Qed.

(** The list record after an insertion. *)
Lemma insert_zsl h h' z xs l1 l2 xi :
  zsl_ok h z xs → xs = l1 ++ l2 → zlen xs + 1 < 2 ^ 32 → (1 ≤ ht xi ≤ ZSKIPLIST_MAXLEVEL)%nat →
  let m := Nat.max (zlevel z) (ht xi) in
  let z1 := set_zlevel z m in
  let z' := match l2 with [] => set_tail z1 (Some (addr xi)) | _ => z1 end in
  nodes_ok h' m (hd_item (header z) :: l1 ++ xi :: l2) →
  (∀ i, (m ≤ i < ZSKIPLIST_MAXLEVEL)%nat → ∃ s, get_level h' (header z) i = Some (Level None s)) →
  header z' = header z ∧ zsl_ok h' (set_length z' (length z' + 1)) (l1 ++ xi :: l2).
Proof.
  intros Hz Hxs Hlen Hlv m z1 z' Hok Hab.
  assert (header z' = header z ∧ zlevel z' = m ∧ length z' = zlen xs) as (Eh & El & En)
    by (rewrite <-(ok_length _ _ _ Hz); unfold z', z1; by destruct l2).
  pose proof (ok_level _ _ _ Hz). split; [done|].
  split; cbn [zlevel header tail length set_length]; rewrite ?Eh, ?El, ?En; try done.
  - lia.
  - pose proof (ok_heights _ _ _ Hz) as Hh. rewrite Hxs in Hh.
    apply (Forall_impl _ (λ it, (1 ≤ ht it ≤ m)%nat)) in Hh; [|simpl; lia].
    apply Forall_app in Hh as [Hh1 Hh2]. apply Forall_app. split; [done|]. constructor; [simpl; lia|done].
  - rewrite Exists_app, Exists_cons. destruct (decide (zlevel z ≤ ht xi)%nat); [right; right; left; lia|].
    replace m with (zlevel z) by lia. destruct (ok_tight _ _ _ Hz) as [?|Ht]; [by left|].
    rewrite Hxs, Exists_app in Ht. tauto.
  - unfold z', z1. destruct l2 as [|y l2]; [by rewrite last_snoc|]. simpl. rewrite (ok_tail _ _ _ Hz), Hxs.
    destruct (exists_last (l := y :: l2) ltac:(done)) as (c & u & ->).
    change (xi :: c ++ [u]) with ((xi :: c) ++ [u]). by rewrite !app_assoc, !last_snoc.
  - rewrite zlen_app, zlen_cons. rewrite Hxs, zlen_app in *. zlen_pos. rewrite uwrap_id by (unfold in_u; lia). lia.
Qed.

Lemma zsl_insert_ok `{Uninit} h z xs l1 l2 rs rs' lv s e :
  zsl_ok h z xs → xs = l1 ++ l2 → zlen xs + 1 < 2 ^ 32 → isnan s = false →
  decides (node_before s e) (hd_item (header z) :: l1) l2 →
  zslRandomLevel rs = Some (lv, rs') →
  ∃ h' z' x, zslInsert h z rs s e = Some (h', z', x, rs') ∧ x ∉ dom h ∧ header z' = header z ∧
    zsl_ok h' z' (l1 ++ Item x lv s (Some e) :: l2) ∧
    ∀ a, a ∉ header z :: (addr <$> xs) → a ≠ x → h' !! a = h !! a.
Proof.
  intros Hz Hxs Hlen Hnan Hdec Hr. pose proof (random_level_bound _ _ _ Hr) as Hlv.
  unfold zslInsert. rewrite Hnan.
  destruct (skiplist_search h z xs l1 l2 32 _ Hz Hxs ltac:(lia) Hdec) as (us & -> & Hul & Hus).
  cbn [mbind option_bind]. rewrite Hr. cbn [mbind option_bind].
  destruct (prepare_ok h z xs l1 l2 Hz Hxs us lv Hlv Hul Hus) as (h1 & us1 & -> & Ha1 & Hok1 & Hus1 & Hab1 & Hfr1).
  cbn [mbind option_bind]. unfold zslCreateNode. cbn [zlevel set_zlevel header].
  set (m := Nat.max (zlevel z) lv) in *. set (x := fresh (dom h1)).
  assert (x ∉ dom h1) as Hx by apply is_fresh. set (xi := Item x lv s (Some e)).
  set (nd := Node (Some e) s junk_backward (junk_level <$> seq 0 lv)). set (h2 := <[x := nd]> h1).
  pose proof (nodes_ok_fresh h1 m _ x nd Hok1 Hx) as Hok2. fold h2 in Hok2.
  rewrite Hxs in Hok2. change (hd_item (header z) :: l1 ++ l2) with ((hd_item (header z) :: l1) ++ l2) in Hok2.
  set (L := hd_item (header z) :: l1) in *.
  assert (∀ it, it ∈ L ++ l2 → addr it ∈ dom h1) as Hdom.
  { intros it Hin. apply (nodes_dom h1 m _ it Hok1). by rewrite Hxs. }
  assert (addr xi ∉ addr <$> (L ++ l2)) as Hfresh.
  { intros (it & Heq & Hin)%list_elem_of_fmap. apply Hx. change x with (addr xi). rewrite Heq. by apply Hdom. }
  assert (zlen (L ++ l2) < 2 ^ 32) as Hlen2 by (unfold L; rewrite Hxs in Hlen; zl).
  destruct (Hus1 0%nat ltac:(lia)) as (a0 & it0 & b0 & _ & Hu0). rewrite Hu0. cbn [mbind option_bind].
  assert (update_ok (zlevel z) L us1) as Husz by (intros i Hi; apply Hus1; lia).
  destruct (first_back h z xs l1 l2 Hz Hxs us1 _ _ Husz Hu0) as [-> ->]. fold L.
  destruct (link_ok L l2 xi m us1 h2 Hok2 Hus1 Hfresh Hlen2 ltac:(simpl; lia)) as (h3 & Hrun3 & Ha3 & Hl3).
  { intros i Hi. unfold get_level, h2. change (addr xi) with x. rewrite lookup_insert_eq. cbn [mbind option_bind].
    unfold nd. cbn [level]. rewrite list_lookup_fmap. rewrite lookup_seq_lt by done. by eexists. }
  simpl addr in Hrun3. simpl ht in Hrun3. rewrite Hrun3. cbn [mbind option_bind].
  destruct (incr_ok L l2 xi m us1 h2 Hok2 Hus1 Hfresh Hlen2 ltac:(simpl; lia) h3 Hl3) as (h4 & Hrun4 & Ha4 & Hl4 & Hl5).
  simpl ht in Hrun4. rewrite Hrun4. cbn [mbind option_bind].
  assert (agree h2 h4) as Ha24 by (by eapply agree_trans).
  assert (fields h2 x = Some (Some e, s, junk_backward, lv)) as Hfx.
  { unfold fields, h2. rewrite lookup_insert_eq.
    change (Some (Some e, s, junk_backward, Datatypes.length (junk_level <$> seq 0 lv)) =
      Some (Some e, s, junk_backward, lv)). by rewrite length_fmap, length_seq. }
  assert (NoDup (addr <$> (L ++ xi :: l2))) as Hnd.
  { pose proof (nodes_nodup _ _ _ Hok2) as Hnd. rewrite fmap_app in *. cbn [fmap list_fmap].
    rewrite elem_of_app in Hfresh. apply NoDup_app in Hnd as (N1 & N2 & N3). apply NoDup_app. split_and!; [done| |].
    - intros y Hy [->|Hy']%elem_of_cons; [tauto|]. by apply (N2 y).
    - apply NoDup_cons. tauto. }
  pose proof (ok_positive _ _ _ Hz) as Hpos. rewrite Hxs in Hpos. apply (Forall_app _ L l2) in Hpos as [_ Hpos].
  destruct (finish_insert h4 (set_zlevel z m) L l2 xi junk_backward Hnd) as (h6 & Hfin & Hfx6 & Hfy6 & Hf6 & Hl6).
  { by rewrite Ha24. }
  { rewrite Hl4 by (simpl; lia). unfold after_insert. by rewrite decide_True. }
  { done. }
  { intros y l ->. exists (bwd L). rewrite Ha24. by apply (nodes_fields _ _ _ Hok2 L y l). }
  rewrite (bind_prefix _ _ _ _ _ Hfin). eexists h6, _, x. split; [done|].
  assert (x ∉ dom h) as Hxh.
  { intros Hin. apply Hx. apply elem_of_dom. apply elem_of_dom in Hin as [n Hn].
    specialize (Ha1 x). unfold fields in Ha1. rewrite Hn in Ha1. by destruct (h1 !! x). }
  split; [done|].
  assert (nodes_ok h6 m (L ++ xi :: l2)) as Hok6.
  { apply (insert_nodes m L l2 xi h2 h6 us1 Hok2 Hus1 Hfresh Hlen2); [simpl; lia| |].
    - apply (insert_fields L l2 xi h2 h6); try done; [apply (nodes_nodup _ _ _ Hok2)|apply (nodes_fields _ _ _ Hok2)|].
      intros a Hax Hay. by rewrite Hf6, Ha24.
    - intros a i Hi Hor. rewrite Hl6. by apply Hl4. }
  assert (∀ a, a ≠ x → h2 !! a = h1 !! a) as Hfr2 by (intros a Ha; by apply lookup_insert_ne).
  destruct (insert_zsl h h6 z xs l1 l2 xi Hz Hxs Hlen Hlv Hok6) as [Hhd Hzok].
  { intros i Hi. rewrite Hl6, Hl5 by (simpl in Hi; lia). rewrite (lookup_level h1); [by apply Hab1|].
    apply Hfr2. intros Heq. apply Hx. rewrite <-Heq. apply (Hdom (hd_item (header z))). set_solver. }
  split; [done|]. split; [done|]. intros a Ha Hax.
  rewrite <-(Hfr1 a), <-(Hfr2 a) by set_solver. apply node_ext.
  - rewrite Hf6; [by apply Ha24|done|]. intros y l -> ->. apply Ha. rewrite Hxs, fmap_app. set_solver.
  - intros j. rewrite Hl6. destruct (decide (j < m)%nat); [|by apply Hl5; lia].
    rewrite Hl4 by (by auto). unfold after_insert. rewrite decide_False by done.
    destruct (Hus1 j ltac:(lia)) as (aj & itj & bj & (HL & _) & ->). rewrite decide_False; [done|].
    intros ->. apply Ha. change (header z :: (addr <$> xs)) with (addr <$> (hd_item (header z) :: xs)).
    apply list_elem_of_fmap_2. rewrite Hxs. change (hd_item (header z) :: l1 ++ l2) with (L ++ l2). rewrite HL. set_solver.
Qed.
