(* ===== verification/SkiplistDelete.v ===== *)
(** * Deletion in a skip list

    [zslDeleteNode] with the array of a search, [zslDelete] and the deletion of
    ranges of nodes. *)

From Stdlib Require Import SpecFloat.
From S2P Require Import Prelude.
From S2P Require Import Mem.
From S2P Require Import SdsRefine.
From S2P Require Import Skiplist.
From S2P Require Import SkiplistRepr.
From S2P Require Import SkiplistOps.
Import Skiplist.

Definition update_ptrs (lv : nat) (l1 : list item) (us : list ptr) : Prop :=
  ∀ i, (i < lv)%nat → ∃ a it b, last_above i l1 a it b ∧ us !! i = Some (addr it).

Lemma update_ok_ptrs lv l1 us : update_ok lv l1 us → update_ptrs lv l1 us.*1.
Proof.
  intros Hus i Hi. destruct (Hus i Hi) as (a & it & b & Hl & Hu). exists a, it, b. split; [done|].
  by rewrite list_lookup_fmap, Hu.
Qed.

Lemma forward_in i l a : forward (next i l) = Some a → a ∈ addr <$> l.
Proof.
  destruct (low_or_split i l) as [Hl|(b & it & c & -> & Hb & Hit)].
  - by rewrite next_none.
  - rewrite next_hit by done. intros [= <-]. apply list_elem_of_fmap_2. set_solver.
Qed.

Lemma forward_none_low i l : forward (next i l) = None → low i l.
Proof.
  destruct (low_or_split i l) as [Hl|(b & it & c & -> & Hb & Hit)]; [done|]. by rewrite next_hit.
Qed.

Lemma addr_nodup_mid (l1 l2 : list item) xi :
  NoDup (addr <$> (l1 ++ xi :: l2)) →
  NoDup (addr <$> (l1 ++ l2)) ∧ addr xi ∉ addr <$> (l1 ++ l2).
Proof.
  rewrite !fmap_app. cbn [fmap list_fmap]. rewrite elem_of_app, !NoDup_app, NoDup_cons.
  intros (N1 & N2 & N3 & N4). split_and!; [done|set_solver|done|set_solver].
Qed.

(** The items after the last one above level [i]. *)
Fixpoint tail_above (i : nat) (l : list item) : list item :=
  match l with
  | [] => []
  | _ :: l => if existsb (λ it, i <? ht it)%nat l then tail_above i l else l
  end.

Lemma tail_above_spec i l a it b : last_above i l a it b → tail_above i l = b.
Proof.
  intros (-> & Hit & Hlow). induction a as [|y a IH]; cbn [app tail_above].
  - destruct (existsb _ b) eqn:E; [|done]. apply existsb_exists in E as (u & Hu & Hlt%Nat.ltb_lt).
    rewrite <-list_elem_of_In in Hu. unfold low in Hlow. rewrite Forall_forall in Hlow. specialize (Hlow u Hu). simpl in *. lia.
  - replace (existsb _ (a ++ it :: b)) with true; [done|]. symmetry. apply existsb_exists. exists it.
    split; [apply in_or_app; right; by left|by apply Nat.ltb_lt].
Qed.

(** ** The levels after a deletion *)
Section Delete.
Context (h : heap) (lv : nat) (l1 l2 : list item) (xi : item) (us : list ptr).
Context (Hok : nodes_ok h lv (l1 ++ xi :: l2)) (Hus : update_ptrs lv l1 us).

Definition after_delete (i : nat) (a : ptr) : option zskiplistLevel :=
  match us !! i with
  | Some u => if decide (a = u) then Some (next i (tail_above i l1 ++ l2)) else get_level h a i
  | None => None
  end.

Lemma unlink_ok :
  ∃ h', for_levels (unlink_level (addr xi) us) 0 lv h = Some h' ∧ agree h h' ∧
    ∀ a j, get_level h' a j = if decide (0 ≤ j < 0 + lv)%nat then after_delete j a else get_level h a j.
Proof using All.
  destruct (addr_nodup_mid _ _ _ (nodes_nodup _ _ _ Hok)) as [Hnd Hfresh].
  apply for_levels_ok. intros i h1 Hi Ha1 Hl1. unfold unlink_level, after_delete.
  destruct (Hus i ltac:(lia)) as (ai & it & bi & Hlast & Hu). rewrite Hu. cbn [mbind option_bind].
  rewrite (tail_above_spec _ _ _ _ _ Hlast). destruct Hlast as (Hl & Hit & Hlow).
  assert (addr it ≠ addr xi) as Hne.
  { intros Heq. apply Hfresh. rewrite <-Heq. apply list_elem_of_fmap_2. rewrite Hl. set_solver. }
  assert (get_level h (addr it) i = Some (next i (bi ++ xi :: l2))) as Hlu
    by (apply (nodes_level _ _ _ Hok ai); [by rewrite Hl; app_norm|done|lia]).
  rewrite <-Hl1 in Hlu. rewrite Hlu. cbn [mbind option_bind].
  pose proof (next_bound i l2) as Hb. pose proof (nodes_len _ _ _ Hok) as Hlen.
  assert (0 ≤ zlen bi + span (next i l2) < 2 ^ 32) as Hr by (rewrite Hl in Hlen; zl).
  destruct (decide (i < ht xi)%nat) as [Hx|Hx].
  - rewrite next_hit in * by done. rewrite decide_True by done. cbn [span].
    assert (get_level h1 (addr xi) i = Some (next i l2)) as ->
      by (rewrite Hl1; apply (nodes_level _ _ _ Hok l1); done || lia).
    cbn [mbind option_bind].
    destruct (set_span_ok h1 (addr it) i (zlen bi + 1 + (span (next i l2) - 1)) _ Hlu) as (h2 & -> & Ha2 & Hl2).
    cbn [mbind option_bind].
    destruct (set_forward_ok h2 (addr it) i (forward (next i l2)) _ ltac:(by rewrite Hl2, decide_True)) as (h3 & -> & Ha3 & Hl3).
    exists h3. split; [done|]. split; [by eapply agree_trans|]. intros a j. rewrite Hl3, Hl2. cbn [span].
    destruct (decide (j = i)) as [->|]; [|by rewrite !decide_False by (by intros [_ ?])].
    destruct (decide (a = addr it)) as [->|]; [|by rewrite !decide_False, Hl1 by (by intros [? _])].
    rewrite decide_True, next_skip by done. do 2 f_equal. rewrite uwrap_id; unfold in_u; lia.
  - assert (next i (bi ++ xi :: l2) = Level (forward (next i l2)) (zlen bi + span (next i l2) + 1)) as Hn.
    { rewrite next_skip by done. cbn [next]. destruct (Nat.ltb_spec i (ht xi)); [lia|]. simpl. f_equal. lia. }
    rewrite Hn in Hlu |- *. rewrite decide_False.
    2:{ simpl. intros Hf%forward_in. apply Hfresh. rewrite fmap_app. set_solver. }
    cbn [span].
    destruct (set_span_ok h1 (addr it) i (zlen bi + span (next i l2) + 1 - 1) _ Hlu) as (h2 & -> & Ha2 & Hl2).
    exists h2. split; [done|]. split; [done|]. intros a j. rewrite Hl2. cbn [forward].
    destruct (decide (j = i)) as [->|]; [|by rewrite decide_False by (by intros [_ ?])].
    destruct (decide (a = addr it)) as [->|]; [|by rewrite decide_False, Hl1 by (by intros [? _])].
    rewrite decide_True, next_skip by done. do 2 f_equal. rewrite uwrap_id; unfold in_u; lia.
Qed.

Lemma delete_nodes h' :
  (∀ a it b, l1 ++ l2 = a ++ it :: b → fields h' (addr it) = Some (el it, sc it, bwd a, ht it)) →
  (∀ a i, (i < lv)%nat → get_level h' a i = after_delete i a) →
  nodes_ok h' lv (l1 ++ l2).
Proof using All.
  intros Hf Hl. destruct (addr_nodup_mid _ _ _ (nodes_nodup _ _ _ Hok)) as [Hnd Hfresh].
  split; [exact Hf| |done|].
  - intros a it b i Heq Hit Hi. destruct (Hus i Hi) as (ai & iti & bi & Hlast & Hu).
    pose proof Hlast as (Hl1 & Hhi & Hlow). rewrite Hl by done. unfold after_delete. rewrite Hu, (tail_above_spec _ _ _ _ _ Hlast).
    destruct (split_app _ _ _ _ _ Heq) as [(d & Hd & ->)|(c & -> & Hc)].
    + destruct (low_or_split i d) as [Hdl|(d1 & y & d2 & -> & Hd1 & Hy)].
      * destruct (last_above_unique i l1 a it d _ _ _ ltac:(done) Hlast) as (<- & <- & <-). by rewrite decide_True.
      * rewrite decide_False.
        -- rewrite (nodes_level _ _ _ Hok a it ((d1 ++ y :: d2) ++ xi :: l2) i) by (done || rewrite Hd; by app_norm).
           rewrite <-!app_assoc. cbn [app]. by rewrite !next_hit by done.
        -- intros Ha. destruct (split_unique (l1 ++ l2) a ((d1 ++ y :: d2) ++ l2) ai (bi ++ l2) it iti Hnd) as (_ & _ & Hb);
             [rewrite Hd; by app_norm|rewrite Hl1; by app_norm|done|].
           apply app_inv_tail in Hb. rewrite <-Hb in Hlow. apply low_app in Hlow as [_ Hlow].
           inversion Hlow; subst. simpl in *. lia.
    + rewrite decide_False.
      * apply (nodes_level _ _ _ Hok (l1 ++ xi :: c)); [rewrite Hc; by app_norm|done..].
      * intros Ha. destruct (split_unique (l1 ++ l2) (l1 ++ c) b ai (bi ++ l2) it iti Hnd) as (Hb & _ & _);
          [rewrite Hc; by app_norm|rewrite Hl1; by app_norm|done|].
        apply (f_equal zlen) in Hb. rewrite Hl1 in Hb. zl.
  - pose proof (nodes_len _ _ _ Hok) as Hlen. rewrite zlen_app, zlen_cons in Hlen. rewrite zlen_app. lia.
Qed.
End Delete.

(** The back pointers after a deletion. *)
Lemma delete_fields (l1 l2 : list item) (xi : item) (h h' : heap) :
  l1 ≠ [] → NoDup (addr <$> (l1 ++ l2)) →
  (∀ a it b, l1 ++ xi :: l2 = a ++ it :: b → fields h (addr it) = Some (el it, sc it, bwd a, ht it)) →
  (∀ y l, l2 = y :: l → fields h' (addr y) = Some (el y, sc y, bwd l1, ht y)) →
  (∀ a, (∀ y l, l2 = y :: l → a ≠ addr y) → fields h' a = fields h a) →
  ∀ a it b, l1 ++ l2 = a ++ it :: b → fields h' (addr it) = Some (el it, sc it, bwd a, ht it).
Proof.
  intros Hne Hnd Hf Hy Hrest a it b Heq. rewrite fmap_app in Hnd. apply NoDup_app in Hnd as (_ & N2 & N3).
  destruct (split_app _ _ _ _ _ Heq) as [(d & -> & ->)|(c & -> & ->)].
  - rewrite Hrest; [apply (Hf a it (d ++ xi :: l2)); by app_norm|].
    intros y l -> Hxy. apply (N2 (addr it)); [|rewrite Hxy]; apply list_elem_of_fmap_2; set_solver.
  - destruct c as [|y c].
    + rewrite app_nil_r. by apply (Hy it b).
    + rewrite Hrest.
      * rewrite (Hf (l1 ++ xi :: y :: c) it b) by (by rewrite <-app_assoc). do 3 f_equal.
        destruct (exists_last (l := y :: c) ltac:(done)) as (c' & u & ->). rewrite bwd_app by done.
        change (xi :: c' ++ [u]) with ((xi :: c') ++ [u]). by rewrite bwd_app by done.
      * intros y' l [= <- _] Hxy. cbn in N3. apply NoDup_cons in N3 as [N3 _]. apply N3. rewrite <-Hxy.
        apply list_elem_of_fmap_2. set_solver.
Qed.

Lemma lower_ok h hd xs n :
  (1 ≤ n)%nat → (∀ i, (i < n)%nat → get_level h hd i = Some (next i xs)) →
  ∃ m, lower_level h hd n = Some m ∧ (1 ≤ m ≤ n)%nat ∧
    (∀ i, (m ≤ i < n)%nat → low i xs) ∧ (m = 1%nat ∨ forward (next (m - 1) xs) ≠ None).
Proof.
  induction n as [|n IH]; intros Hn Hl; [lia|]. cbn [lower_level].
  destruct (Nat.ltb_spec 1 (S n)) as [H1|H1].
  - rewrite Hl by lia. cbn [mbind option_bind]. destruct (forward (next n xs)) as [y|] eqn:Hf.
    + exists (S n). split; [done|]. split; [lia|]. split; [lia|]. right. simpl. rewrite Nat.sub_0_r. by rewrite Hf.
    + destruct IH as (m & Hm & Hb & Hlow & Ht); [lia|intros i Hi; apply Hl; lia|].
      exists m. split; [done|]. split; [lia|]. split; [|done]. intros i Hi.
      destruct (decide (i = n)) as [->|]; [by apply forward_none_low|apply Hlow; lia].
  - exists (S n). split; [done|]. split; [lia|]. split; [lia|]. left. lia.
Qed.

(** The nodes of the list alone matter. *)
Lemma zsl_ok_frame h h' z xs :
  zsl_ok h z xs → (∀ a, a ∈ header z :: (addr <$> xs) → h' !! a = h !! a) → zsl_ok h' z xs.
Proof.
  intros Hz Hfr. pose proof (ok_nodes _ _ _ Hz) as Hok.
  assert (∀ a it b, hd_item (header z) :: xs = a ++ it :: b → h' !! addr it = h !! addr it) as Hsame.
  { intros a it b Heq. apply Hfr. change (header z :: (addr <$> xs)) with (addr <$> (hd_item (header z) :: xs)).
    apply list_elem_of_fmap_2. rewrite Heq. set_solver. }
  split; try apply Hz.
  - split; [| |apply (nodes_nodup _ _ _ Hok)|apply (nodes_len _ _ _ Hok)].
    + intros a it b Heq. rewrite (lookup_fields h) by (by eapply Hsame). by apply (nodes_fields _ _ _ Hok a it b).
    + intros a it b i Heq Hit Hi. rewrite (lookup_level h) by (by eapply Hsame). by apply (nodes_level _ _ _ Hok a it b).
  - intros i Hi. rewrite (lookup_level h) by (apply Hfr; set_solver). by apply (ok_above _ _ _ Hz).
Qed.

(** The list record after a deletion. *)
Lemma delete_zsl h h' z xs l1 l2 xi lv :
  zsl_ok h z xs → xs = l1 ++ xi :: l2 → (1 ≤ lv ≤ zlevel z)%nat →
  (∀ i, (lv ≤ i < zlevel z)%nat → low i (l1 ++ l2)) →
  lv = 1%nat ∨ forward (next (lv - 1) (l1 ++ l2)) ≠ None →
  let z1 := match l2 with [] => set_tail z (bwd (hd_item (header z) :: l1)) | _ => z end in
  nodes_ok h' (zlevel z) (hd_item (header z) :: l1 ++ l2) →
  (∀ i, (zlevel z ≤ i)%nat → get_level h' (header z) i = get_level h (header z) i) →
  zsl_ok h' (set_length (set_zlevel z1 lv) (length z1 - 1)) (l1 ++ l2).
Proof.
  intros Hz Hxs Hlv Hlow Ht z1 Hok Hab.
  assert (header z1 = header z ∧ length z1 = zlen xs) as (Eh & En)
    by (rewrite <-(ok_length _ _ _ Hz); unfold z1; by destruct l2).
  pose proof (ok_level _ _ _ Hz). pose proof (zlen_items _ _ _ Hz) as Hlen.
  assert (Forall (λ it, (1 ≤ ht it ≤ lv)%nat) (l1 ++ l2)) as Hh.
  { pose proof (ok_heights _ _ _ Hz) as Hh. rewrite Hxs in Hh. apply Forall_app in Hh as [H1 H2].
    apply Forall_cons in H2 as [_ H2]. pose proof (Forall_app_2 _ _ _ H1 H2) as H3.
    destruct (decide (lv = zlevel z)) as [->|]; [done|]. specialize (Hlow lv ltac:(lia)). unfold low in Hlow.
    rewrite Forall_forall in *. intros it Hin. specialize (Hlow it Hin). specialize (H3 it Hin). simpl in *. lia. }
  split; cbn [zlevel header tail length set_length set_zlevel]; rewrite ?Eh, ?En; try done.
  - destruct Hok as [F L N M]. split; try done. intros a it b i Heq Hit Hi. apply (L a it b i); done || lia.
  - intros i Hi. destruct (decide (i < zlevel z)%nat) as [Hlt|Hge].
    + assert (get_level h' (header z) i = Some (next i (l1 ++ l2))) as ->
        by (apply (nodes_level _ _ _ Hok [] (hd_item (header z))); done || simpl; lia).
      rewrite next_none by (apply Hlow; lia). by eexists.
    + rewrite Hab by lia. apply (ok_above _ _ _ Hz). lia.
  - lia.
  - destruct Ht as [->|Ht]; [by left|]. right.
    destruct (low_or_split (lv - 1) (l1 ++ l2)) as [Hl|(b & it & c & Heq & _ & Hit)]; [by rewrite next_none in Ht|].
    apply Exists_exists. exists it. rewrite Heq in Hh |- *. split; [set_solver|].
    apply Forall_app in Hh as [_ Hh]. apply Forall_cons in Hh as [Hh _]. simpl in Hh. lia.
  - unfold z1. destruct l2 as [|y l2]; simpl; [by rewrite app_nil_r|]. rewrite (ok_tail _ _ _ Hz), Hxs.
    destruct (exists_last (l := y :: l2) ltac:(done)) as (c & u & ->).
    change (xi :: c ++ [u]) with ((xi :: c) ++ [u]). by rewrite !app_assoc, !last_snoc.
  - rewrite Hxs, zlen_app, zlen_cons in *. rewrite zlen_app. zlen_pos. rewrite uwrap_id by (unfold in_u; lia). lia.
Qed.

(** The middle of [zslDeleteNode]: the back pointer of the next node, or the
    tail. *)
Lemma relink_back (h : heap) z (l1 l2 : list item) xi :
  fields h (addr xi) = Some (el xi, sc xi, bwd l1, ht xi) → get_level h (addr xi) 0 = Some (next 0 l2) →
  Forall (λ it, (1 ≤ ht it)%nat) l2 →
  (∀ y l, l2 = y :: l → ∃ b, fields h (addr y) = Some (el y, sc y, b, ht y)) →
  ∃ h', (n ← h !! addr xi;
         l0 ← get_level h (addr xi) 0;
         match forward l0 with
         | Some y => h ← set_backward h y (backward n); Some (h, z)
         | None => Some (h, set_tail z (backward n))
         end) = Some (h', match l2 with [] => set_tail z (bwd l1) | _ => z end) ∧
    (∀ y l, l2 = y :: l → fields h' (addr y) = Some (el y, sc y, bwd l1, ht y)) ∧
    (∀ a, (∀ y l, l2 = y :: l → a ≠ addr y) → fields h' a = fields h a) ∧
    (∀ a j, get_level h' a j = get_level h a j).
Proof.
  intros Hf Hl Hpos Hy. destruct (fields_node _ _ _ _ _ _ Hf) as (n & Hn & _ & _ & Hb & _). rewrite Hn.
  cbn [mbind option_bind]. rewrite Hl. cbn [mbind option_bind]. destruct l2 as [|y l2]; cbn [next forward].
  - exists h. rewrite Hb. done.
  - apply Forall_cons in Hpos as [Hp _]. destruct (Nat.ltb_spec 0 (ht y)); [|lia]. cbn [forward].
    destruct (Hy y l2 eq_refl) as [b Hfy]. rewrite Hb.
    destruct (set_backward_ok h (addr y) (bwd l1) _ _ _ _ Hfy) as (h' & -> & Hf' & Hl').
    exists h'. split; [done|]. split; [|split; [|done]].
    + intros y' l [= <- _]. by rewrite Hf', decide_True.
    + intros a Ha. rewrite Hf', decide_False; [done|]. by eapply Ha.
Qed.

Lemma deleteNode_ok h z xs l1 l2 xi us :
  zsl_ok h z xs → xs = l1 ++ xi :: l2 → update_ptrs (zlevel z) (hd_item (header z) :: l1) us →
  ∃ h' z', zslDeleteNode h z (addr xi) us = Some (h', z') ∧ header z' = header z ∧
    (zlevel z' ≤ zlevel z)%nat ∧ zsl_ok h' z' (l1 ++ l2) ∧ h' !! addr xi = h !! addr xi ∧
    ∀ a, a ∉ header z :: (addr <$> xs) → h' !! a = h !! a.
Proof.
  intros Hz Hxs Hus. unfold zslDeleteNode. pose proof (ok_nodes _ _ _ Hz) as Hok. rewrite Hxs in Hok.
  set (L := hd_item (header z) :: l1) in *. change (hd_item (header z) :: l1 ++ xi :: l2) with (L ++ xi :: l2) in Hok.
  destruct (addr_nodup_mid _ _ _ (nodes_nodup _ _ _ Hok)) as [Hnd Hfresh].
  destruct (unlink_ok h (zlevel z) L l2 xi us Hok Hus) as (h1 & -> & Ha1 & Hl1). cbn [mbind option_bind].
  assert (∀ a j, a ∉ addr <$> L → get_level h1 a j = get_level h a j) as Hkeep.
  { intros a j Ha. rewrite Hl1. destruct (decide _) as [Hj|]; [|done]. unfold after_delete.
    destruct (Hus j ltac:(lia)) as (aj & itj & bj & (HL & _) & ->). rewrite decide_False; [done|].
    intros ->. apply Ha, list_elem_of_fmap_2. rewrite HL. set_solver. }
  assert (addr xi ∉ addr <$> L) as HxL by (intros Hin; apply Hfresh; rewrite fmap_app; set_solver).
  pose proof (ok_heights _ _ _ Hz) as Hh. rewrite Hxs in Hh. apply Forall_app in Hh as [_ Hh].
  apply Forall_cons in Hh as [Hhx Hh2]. pose proof (ok_level _ _ _ Hz) as Hlev.
  destruct (relink_back h1 z L l2 xi) as (h2 & Hrun & Hfy & Hf & Hl).
  { rewrite Ha1. by apply (nodes_fields _ _ _ Hok L xi l2). }
  { rewrite Hkeep by done. apply (nodes_level _ _ _ Hok L xi l2); simpl in *; done || lia. }
  { eapply Forall_impl; [exact Hh2|]. simpl. lia. }
  { intros y l ->. rewrite Ha1. exists (bwd (L ++ [xi])). apply (nodes_fields _ _ _ Hok (L ++ [xi]) y l). by app_norm. }
  rewrite (bind_prefix _ _ _ _ _ Hrun). clear Hrun.
  assert (nodes_ok h2 (zlevel z) (L ++ l2)) as Hok2.
  { apply (delete_nodes h (zlevel z) L l2 xi us Hok Hus).
    - apply (delete_fields L l2 xi h h2); try done; [apply (nodes_fields _ _ _ Hok)|]. intros a Ha. by rewrite Hf, Ha1.
    - intros a i Hi. by rewrite Hl, Hl1, decide_True by lia. }
  assert (header (match l2 with [] => set_tail z (bwd L) | _ => z end) = header z ∧
    zlevel (match l2 with [] => set_tail z (bwd L) | _ => z end) = zlevel z) as [-> ->] by (by destruct l2).
  destruct (lower_ok h2 (header z) (l1 ++ l2) (zlevel z)) as (lv & -> & Hlv & Hlow & Ht); [lia| |].
  { intros i Hi. apply (nodes_level _ _ _ Hok2 [] (hd_item (header z)) (l1 ++ l2) i); [done|simpl; lia|done]. }
  cbn [mbind option_bind]. eexists _, _. split; [done|]. split; [by destruct l2|]. split; [simpl; lia|].
  split; [apply (delete_zsl h h2 z xs l1 l2 xi lv); try done|].
  - intros i Hi. rewrite Hl, Hl1. by rewrite decide_False by lia.
  - assert (∀ a, a ∉ addr <$> L → (∀ y l, l2 = y :: l → a ≠ addr y) → h2 !! a = h !! a) as Hfr.
    { intros a HaL Hay. apply node_ext; [by rewrite Hf, Ha1|]. intros j. by rewrite Hl, Hkeep. }
    split.
    + apply Hfr; [done|]. intros y l -> Heq. apply Hfresh. rewrite fmap_app, Heq. set_solver.
    + intros a Ha. change (header z :: (addr <$> xs)) with (addr <$> (hd_item (header z) :: xs)) in Ha.
      rewrite Hxs in Ha. change (hd_item (header z) :: l1 ++ xi :: l2) with (L ++ xi :: l2) in Ha.
      rewrite fmap_app in Ha. apply Hfr; [set_solver|]. intros y l -> ->. apply Ha. set_solver.
Qed.
