(* ===== verification/SkiplistSpec.v ===== *)
(** * The skip list as an ordered sequence

    Items are ordered by score and, for equal scores, by their strings.  The
    theorems give insertion, deletion, ranks and ranges on the ordered
    sequence. *)

From Stdlib Require Import SpecFloat.
From S2P Require Import Prelude.
From S2P Require Import Mem.
From S2P Require Import SdsRefine.
From S2P Require Import Skiplist.
From S2P Require Import SkiplistRepr.
From S2P Require Import SkiplistOps.
From S2P Require Import SkiplistDelete.
Import Skiplist.

(** ** The order *)
Notation key := (spec_float * bytes)%type.

Definition klt (a b : key) : Prop := flt a.1 b.1 ∨ (feq a.1 b.1 ∧ lex a.2 b.2 = -1).
#[export] Instance klt_dec a b : Decision (klt a b).
Proof. unfold klt. apply _. Defined.

Definition keq (a b : key) : Prop := feq a.1 b.1 ∧ a.2 = b.2.

Lemma klt_irrefl a : ¬ klt a a.
Proof.
  intros [Hf|[_ Hl]]; [by apply flt_irrefl in Hf|]. assert (lex a.2 a.2 = 0) by (by apply lex_0). lia.
Qed.

Lemma feq_trans a b c : feq a b → feq b c → feq a c.
Proof. unfold feq. congruence. Qed.

Lemma klt_trans a b c : klt a b → klt b c → klt a c.
Proof.
  intros [H1|[H1 L1]] [H2|[H2 L2]].
  - left. by eapply flt_trans.
  - left. by eapply flt_feq.
  - left. by eapply feq_flt.
  - right. split; [by eapply feq_trans|by eapply lex_trans].
Qed.

Lemma klt_trichotomy a b : klt a b ∨ keq a b ∨ klt b a.
Proof.
  unfold klt, keq. destruct (float_trichotomy a.1 b.1) as [?|[Hq|?]]; [by auto| |by auto].
  assert (feq b.1 a.1) by (by symmetry). pose proof (lex_opp a.2 b.2).
  destruct (lex_range a.2 b.2) as [?|[Hz%lex_0|?]]; [by auto|by auto|]. right; right; right. split; [done|lia].
Qed.

Lemma klt_keq_l a b c : klt a b → keq a c → klt c b.
Proof.
  unfold klt, keq. intros [Hf|[Hq Hl]] [Hac <-].
  - left. apply (feq_flt _ a.1); [by symmetry|done].
  - right. split; [|done]. apply (feq_trans _ a.1); [by symmetry|done].
Qed.

Lemma keq_sym a b : keq a b → keq b a.
Proof. intros [? ?]. by split. Qed.

Definition ikey (it : item) : key := (sc it, default [] (el it)).

Definition good (it : item) : Prop :=
  isnan (sc it) = false ∧ ∃ e, el it = Some e ∧ zlen e < 2 ^ 31.

Definition ilt (a b : item) : Prop := klt (ikey a) (ikey b).

(** A skip list in memory, in order. *)
Record zsl_rep (h : heap) (z : zskiplist) (xs : list item) : Prop := {
  rep_ok : zsl_ok h z xs;
  rep_sorted : StronglySorted ilt xs;
  rep_good : Forall good xs }.

Lemma good_ele it : good it → el it = Some (ikey it).2.
Proof. intros (_ & e & He & _). unfold ikey. by rewrite He. Qed.

Lemma good_len it : good it → zlen (ikey it).2 < 2 ^ 31.
Proof. intros (_ & e & He & Hl). unfold ikey. by rewrite He. Qed.

(** ** Searches in an ordered list *)
(** A property that holds of an initial part splits the list. *)
Lemma sorted_split (P : item → Prop) `{∀ it, Decision (P it)} xs :
  StronglySorted ilt xs → (∀ a b, a ∈ xs → b ∈ xs → ilt a b → P b → P a) →
  xs = filter P xs ++ filter (λ it, ¬ P it) xs.
Proof.
  induction 1 as [|x xs _ IH Hx]; intros HP; [done|]. rewrite !filter_cons.
  assert (xs = filter P xs ++ filter (λ it, ¬ P it) xs) as IH'.
  { apply IH. intros a b Ha Hb. apply HP; by right. }
  clear IH. rename IH' into IH.
  destruct (decide (P x)) as [Hp|Hp].
  - rewrite decide_False by tauto. cbn [app]. by f_equal.
  - rewrite decide_True by done. assert (filter P xs = []) as Hnil.
    { destruct (filter P xs) as [|y l] eqn:E; [done|]. assert (y ∈ filter P xs) as Hy by (rewrite E; set_solver).
      apply list_elem_of_filter in Hy as [Hy1 Hy2]. rewrite Forall_forall in Hx. exfalso.
      apply Hp, (HP x y); [by left|by right|by apply Hx|done]. }
    rewrite Hnil in IH |- *. cbn [app] in *. by f_equal.
Qed.

(** Conditions that look at the next node only. *)
Lemma decides_of (P : item → Prop) cond hd (l1 l2 : list item) :
  Forall good (l1 ++ l2) → Forall P l1 → Forall (λ it, ¬ P it) l2 →
  (∀ it n r, good it → ele n = el it → score n = sc it → ∃ b, cond n r = Some b ∧ (b = true ↔ P it)) →
  decides cond (hd :: l1) l2.
Proof.
  intros [Hg1 Hg2]%Forall_app H1 H2 Hc. rewrite Forall_forall in *. split.
  - intros a it b n Heq Hne He Hs. destruct a as [|a0 a]; [done|]. injection Heq as <- ->.
    assert (it ∈ a ++ it :: b) as Hin by set_solver.
    destruct (Hc it n (zlen (hd :: a)) (Hg1 _ Hin) He Hs) as (c & -> & Hb). f_equal. apply Hb. by apply H1.
  - intros a it b n -> He Hs. assert (it ∈ a ++ it :: b) as Hin by set_solver.
    destruct (Hc it n (zlen (hd :: l1) + zlen a) (Hg2 _ Hin) He Hs) as ([] & -> & Hb); [|done].
    exfalso. by apply (H2 _ Hin), Hb.
Qed.

(** A search by a property of the items. *)
Lemma search_by (P : item → Prop) `{∀ it, Decision (P it)} cond h z xs w :
  zsl_rep h z xs → 32 ≤ w → (∀ a b, a ∈ xs → b ∈ xs → ilt a b → P b → P a) →
  (∀ it n r, good it → ele n = el it → score n = sc it → ∃ b, cond n r = Some b ∧ (b = true ↔ P it)) →
  let l1 := filter P xs in let l2 := filter (λ it, ¬ P it) xs in
  xs = l1 ++ l2 ∧ decides cond (hd_item (header z) :: l1) l2.
Proof.
  intros Hz Hw HP Hc l1 l2. pose proof (sorted_split P xs (rep_sorted _ _ _ Hz) HP) as Hxs. split; [done|].
  apply (decides_of P); [|apply Forall_forall..|done].
  - unfold l1, l2. rewrite <-Hxs. apply (rep_good _ _ _ Hz).
  - by intros it [? _]%list_elem_of_filter.
  - by intros it [? _]%list_elem_of_filter.
Qed.

Lemma before_spec s e it n r :
  isnan s = false → zlen e < 2 ^ 31 → good it → ele n = el it → score n = sc it →
  ∃ b, node_before s e n r = Some b ∧ (b = true ↔ klt (ikey it) (s, e)).
Proof.
  intros Hs He Hg Hel Hsc. unfold node_before. rewrite Hel, Hsc, (good_ele _ Hg).
  rewrite dlt_spec, deq_spec by (apply Hg || done). unfold klt. simpl.
  case_bool_decide as H1; [eexists; split; [done|]; tauto|].
  case_bool_decide as H2; cbn [mbind option_bind].
  - rewrite cmp_lt by (done || by apply good_len). eexists. split; [done|]. rewrite bool_decide_eq_true. tauto.
  - eexists. split; [done|]. split; [done|]. tauto.
Qed.

Lemma upto_spec s e it n r :
  isnan s = false → zlen e < 2 ^ 31 → good it → ele n = el it → score n = sc it →
  ∃ b, node_upto s e n r = Some b ∧ (b = true ↔ ¬ klt (s, e) (ikey it)).
Proof.
  intros Hs He Hg Hel Hsc. unfold node_upto. rewrite Hel, Hsc, (good_ele _ Hg).
  rewrite dlt_spec, deq_spec by (apply Hg || done). unfold klt. simpl.
  pose proof (flt_irrefl s) as Hir.
  case_bool_decide as H1.
  { eexists. split; [done|]. split; [|done]. intros _ [H2|[H2 _]].
    - by apply Hir, (flt_trans _ (sc it)).
    - by apply Hir, (feq_flt _ (sc it)). }
  case_bool_decide as H2; cbn [mbind option_bind].
  - rewrite cmp_le by (done || by apply good_len). eexists. split; [done|].
    rewrite negb_true_iff, bool_decide_eq_false. assert (feq s (sc it)) by (by symmetry). split; [|tauto].
    intros Hn [H3|[_ H3]]; [|done]. by apply Hir, (flt_feq _ (sc it)).
  - eexists. split; [done|]. split; [done|]. intros Hn. exfalso. apply Hn. left.
    destruct (float_trichotomy (sc it) s) as [?|[?|?]]; done.
Qed.

(** ** Insertion and deletion *)
Definition smaller (k : key) (it : item) : Prop := klt (ikey it) k.
#[export] Instance smaller_dec k it : Decision (smaller k it).
Proof. unfold smaller. apply _. Defined.

Lemma smaller_down k a b : ilt a b → smaller k b → smaller k a.
Proof. apply klt_trans. Qed.

Lemma not_smaller k it : ¬ smaller k it → ¬ keq (ikey it) k → klt k (ikey it).
Proof. unfold smaller. destruct (klt_trichotomy (ikey it) k) as [?|[?|?]]; tauto. Qed.

Lemma sorted_filter_insert (xs : list item) xi :
  StronglySorted ilt xs → Forall (λ it, ¬ keq (ikey it) (ikey xi)) xs →
  StronglySorted ilt (filter (smaller (ikey xi)) xs ++ xi :: filter (λ it, ¬ smaller (ikey xi) it) xs).
Proof.
  intros Hs Hne. pose proof (sorted_split (smaller (ikey xi)) xs Hs (λ a b _ _, smaller_down _ a b)) as Hxs.
  rewrite Hxs in Hs. apply StronglySorted_app_iff in Hs as (S1 & S2 & S12).
  rewrite Forall_forall in Hne. apply StronglySorted_mid. split_and!; try done.
  - by intros y [? _]%list_elem_of_filter.
  - intros y [Hy Hin]%list_elem_of_filter. apply not_smaller; [done|by apply Hne].
Qed.

Lemma insert_rep `{Uninit} h z xs rs rs' lv s e :
  zsl_rep h z xs → isnan s = false → zlen e < 2 ^ 31 → zlen xs + 1 < 2 ^ 32 →
  Forall (λ it, ¬ keq (ikey it) (s, e)) xs → zslRandomLevel rs = Some (lv, rs') →
  ∃ h' z' x, zslInsert h z rs s e = Some (h', z', x, rs') ∧ x ∉ dom h ∧ header z' = header z ∧
    zsl_rep h' z' (filter (smaller (s, e)) xs ++ Item x lv s (Some e) ::
                   filter (λ it, ¬ smaller (s, e) it) xs) ∧
    ∀ a, a ∉ header z :: (addr <$> xs) → a ≠ x → h' !! a = h !! a.
Proof.
  intros Hz Hnan He Hlen Hne Hr.
  destruct (search_by (smaller (s, e)) (node_before s e) h z xs 32 Hz ltac:(lia) (λ a b _ _, smaller_down _ a b)) as [Hxs Hdec].
  { intros it n r Hg Hel Hsc. by apply before_spec. }
  destruct (zsl_insert_ok h z xs _ _ rs rs' lv s e (rep_ok _ _ _ Hz) Hxs Hlen Hnan Hdec Hr)
    as (h' & z' & x & Hrun & Hx & Hhd & Hok & Hfr).
  exists h', z', x. split_and!; try done. split; [done| |].
  - apply (sorted_filter_insert xs (Item x lv s (Some e))); [apply (rep_sorted _ _ _ Hz)|done].
  - pose proof (rep_good _ _ _ Hz) as Hg. rewrite Hxs in Hg. apply Forall_app in Hg as [G1 G2].
    apply Forall_app. split; [done|]. constructor; [|done]. split; [done|]. by exists e.
Qed.

(** The items smaller than one that is in the list are those before it. *)
Lemma filter_smaller_at (l1 l2 : list item) xi k :
  StronglySorted ilt (l1 ++ xi :: l2) → keq (ikey xi) k →
  filter (smaller k) (l1 ++ xi :: l2) = l1 ∧ filter (λ it, ¬ smaller k it) (l1 ++ xi :: l2) = xi :: l2.
Proof.
  intros (S1 & S2 & S3 & S4 & S5)%StronglySorted_mid Hk.
  assert (∀ y, y ∈ l1 → smaller k y) as H1.
  { intros y Hy. unfold smaller. destruct (S3 y Hy) as [?|[? Hl]]; destruct Hk as [Hf He].
    - left. simpl. by eapply flt_feq.
    - right. split; [by eapply feq_trans|by rewrite <-He]. }
  assert (∀ y, y ∈ xi :: l2 → ¬ smaller k y) as H2.
  { intros y Hy Hsm. assert (klt (ikey xi) k) as Hlt.
    { apply elem_of_cons in Hy as [->|Hy]; [done|]. by apply (klt_trans _ (ikey y)); [apply S4|]. }
    apply (klt_irrefl k). by apply (klt_keq_l (ikey xi)). }
  rewrite !filter_app. split.
  - rewrite (filter_none _ (xi :: l2)), filter_all by done. apply app_nil_r.
  - rewrite (filter_none _ l1), filter_all by (done || intros y Hy Hn; by apply Hn, H1). done.
Qed.

(** The node after the search: the first item that is not before. *)
Lemma first_after h z xs l1 l2 us :
  zsl_ok h z xs → xs = l1 ++ l2 → update_ok (zlevel z) (hd_item (header z) :: l1) us →
  ∃ u, us !! 0%nat = Some (u, zlen l1) ∧ get_level h u 0 = Some (next 0 l2) ∧
    u = addr (List.last l1 (hd_item (header z))) ∧ forward (next 0 l2) = addr <$> head l2.
Proof.
  intros Hz Hxs Hus. pose proof (ok_level _ _ _ Hz) as Hlev.
  destruct (Hus 0%nat ltac:(lia)) as (a & it & b & Hlast & Hu).
  pose proof (ok_positive _ _ _ Hz) as Hp. rewrite Hxs in Hp.
  destruct (last_above_0 (hd_item (header z) :: l1) a it b) as [-> Hl]; [|done|].
  { by apply (Forall_app _ (_ :: l1) l2) in Hp as [? _]. }
  assert (zlen a = zlen l1) as Ha by (apply (f_equal zlen) in Hl; zl).
  exists (addr it). rewrite <-Ha. split; [done|]. split; [|split].
  - apply (nodes_level _ _ _ (ok_nodes _ _ _ Hz) a); [|apply Hlast|lia].
    rewrite Hxs. change (hd_item (header z) :: l1 ++ l2) with ((hd_item (header z) :: l1) ++ l2). rewrite Hl. by app_norm.
  - f_equal. assert (List.last (hd_item (header z) :: l1) (hd_item (header z)) = it) as <-
      by (rewrite Hl; apply List.last_last). by destruct l1.
  - destruct l2 as [|y l2]; [done|]. apply (Forall_app _ (_ :: l1) (y :: l2)) in Hp as [_ Hp].
    apply Forall_cons in Hp as [Hp _]. simpl. destruct (Nat.ltb_spec 0 (ht y)); [done|lia].
Qed.

Lemma node_at h z xs l1 it l2 :
  zsl_ok h z xs → xs = l1 ++ it :: l2 →
  ∃ n, h !! addr it = Some n ∧ ele n = el it ∧ score n = sc it.
Proof.
  intros Hz ->. destruct (fields_node _ _ _ _ _ _ (nodes_fields _ _ _ (ok_nodes _ _ _ Hz) (_ :: l1) it l2 eq_refl))
    as (n & ? & ? & ? & _). by exists n.
Qed.

(** What deleting [xi] leaves. *)
Definition deleted (h h' : heap) (z z' : zskiplist) (xs : list item) (xi : item) (rest : list item) (keep : bool) : Prop :=
  header z' = header z ∧ zsl_rep h' z' rest ∧
  h' !! addr xi = (if keep then h !! addr xi else None) ∧
  ∀ a, a ∉ header z :: (addr <$> xs) → h' !! a = h !! a.

Lemma rep_delete h z l1 xi l2 h' z' :
  zsl_rep h z (l1 ++ xi :: l2) → zsl_ok h' z' (l1 ++ l2) → zsl_rep h' z' (l1 ++ l2).
Proof.
  intros Hz Hok. split; [done| |].
  - pose proof (rep_sorted _ _ _ Hz) as Hs. apply StronglySorted_mid in Hs as (S1 & S2 & _ & _ & S3).
    by apply StronglySorted_app_iff.
  - pose proof (rep_good _ _ _ Hz) as Hg. apply Forall_app in Hg as [G1 [_ G2]%Forall_cons]. by apply Forall_app.
Qed.

Lemma delete_node_rep h z l1 xi l2 us (keep : bool) :
  zsl_rep h z (l1 ++ xi :: l2) → update_ptrs (zlevel z) (hd_item (header z) :: l1) us →
  ∃ h1 z' h', zslDeleteNode h z (addr xi) us = Some (h1, z') ∧
    (if keep then Some h1 else zslFreeNode h1 (addr xi)) = Some h' ∧
    (zlevel z' ≤ zlevel z)%nat ∧ deleted h h' z z' (l1 ++ xi :: l2) xi (l1 ++ l2) keep.
Proof.
  intros Hz Hus.
  destruct (deleteNode_ok h z _ l1 l2 xi us (rep_ok _ _ _ Hz) eq_refl Hus) as (h1 & z' & -> & Hhd & Hlv & Hok & Hx & Hfr).
  destruct (node_at h z _ l1 xi l2 (rep_ok _ _ _ Hz) eq_refl) as (n & Hn & _).
  pose proof (nodes_nodup _ _ _ (ok_nodes _ _ _ (rep_ok _ _ _ Hz))) as Hnd.
  change (hd_item (header z) :: l1 ++ xi :: l2) with ((hd_item (header z) :: l1) ++ xi :: l2) in Hnd.
  apply addr_nodup_mid in Hnd as [_ Hnd].
  destruct keep.
  - exists h1, z', h1. split_and!; try done. split_and!; try done. by apply (rep_delete h z l1 xi l2).
  - exists h1, z', (delete (addr xi) h1). unfold zslFreeNode. rewrite Hx, Hn. cbn [mbind option_bind].
    split_and!; try done. split_and!; [done| |apply lookup_delete_eq|].
    + apply (rep_delete h z l1 xi l2); [done|]. apply (zsl_ok_frame h1); [done|]. intros a Ha.
      apply lookup_delete_ne. intros <-. apply Hnd. by rewrite Hhd in Ha.
    + intros a Ha. rewrite lookup_delete_ne; [by apply Hfr|]. intros <-. apply Ha. rewrite fmap_app. set_solver.
Qed.

(** The end of [zslDelete], when the comparison of the first candidate [y] is
    known. *)
Lemma delete_finish h z xs l1 y l2 us k (keep b : bool) :
  zsl_rep h z xs → xs = l1 ++ y :: l2 → update_ok (zlevel z) (hd_item (header z) :: l1) us →
  (∀ it, it ∈ xs → keq (ikey it) k → it = y) → (b = true ↔ keq (ikey y) k) →
  ∃ h' z' r,
    (if b then '(h, z) ← zslDeleteNode h z (addr y) us.*1;
        h ← (if keep : bool then Some h else zslFreeNode h (addr y));
        Some (h, z, Some (addr y)) else Some (h, z, None)) = Some (h', z', r) ∧
    match r with
    | Some x => ∃ l1 xi l2, xs = l1 ++ xi :: l2 ∧ addr xi = x ∧ keq (ikey xi) k ∧
        deleted h h' z z' xs xi (l1 ++ l2) keep
    | None => Forall (λ it, ¬ keq (ikey it) k) xs ∧ h' = h ∧ z' = z
    end.
Proof.
  intros Hz Hxs Hus Hfirst Hb. destruct b.
  - rewrite Hxs in Hz. destruct (delete_node_rep h z l1 y l2 us.*1 keep Hz (update_ok_ptrs _ _ _ Hus))
      as (h1 & z' & h' & -> & Hfree & _ & Hd). cbn [mbind option_bind]. rewrite Hfree. cbn [mbind option_bind].
    eexists _, _, _. split; [done|]. exists l1, y, l2. split_and!; [done|done|by apply Hb|by rewrite Hxs].
  - eexists _, _, _. split; [done|]. split; [|done]. apply Forall_forall. intros it Hit Hk.
    pose proof (Hfirst it Hit Hk) as ->. by apply Hb in Hk.
Qed.

Lemma delete_rep h z xs s e (keep : bool) :
  zsl_rep h z xs → isnan s = false → zlen e < 2 ^ 31 →
  ∃ h' z' r, zslDelete h z s e keep = Some (h', z', r) ∧
  match r with
  | Some x => ∃ l1 xi l2, xs = l1 ++ xi :: l2 ∧ addr xi = x ∧ keq (ikey xi) (s, e) ∧
      deleted h h' z z' xs xi (l1 ++ l2) keep
  | None => Forall (λ it, ¬ keq (ikey it) (s, e)) xs ∧ h' = h ∧ z' = z
  end.
Proof.
  intros Hz Hnan He. unfold zslDelete.
  destruct (search_by (smaller (s, e)) (node_before s e) h z xs 64 Hz ltac:(lia) (λ a b _ _, smaller_down _ a b)) as [Hxs Hdec].
  { intros it n r Hg Hel Hsc. by apply before_spec. }
  destruct (skiplist_search h z xs _ _ 64 _ (rep_ok _ _ _ Hz) Hxs ltac:(lia) Hdec) as (us & -> & _ & Hus).
  cbn [mbind option_bind].
  destruct (first_after h z xs _ _ us (rep_ok _ _ _ Hz) Hxs Hus) as (u & -> & Hl0 & _ & Hfw).
  cbn [mbind option_bind]. rewrite Hl0. cbn [mbind option_bind]. rewrite Hfw.
  set (l1 := filter (smaller (s, e)) xs) in *. set (l2 := filter (λ it, ¬ smaller (s, e) it) xs) in *.
  assert (∀ it, it ∈ xs → keq (ikey it) (s, e) → head l2 = Some it) as Hfirst.
  { intros it (p & q & ->)%list_elem_of_split Hk.
    unfold l2. by rewrite (proj2 (filter_smaller_at p q it _ (rep_sorted _ _ _ Hz) Hk)). }
  destruct l2 as [|y l2'] eqn:E; simpl.
  { exists h, z, None. split; [done|]. split; [|done]. apply Forall_forall. intros it Hit Hk. by specialize (Hfirst it Hit Hk). }
  destruct (node_at h z xs l1 y l2' (rep_ok _ _ _ Hz) Hxs) as (n & -> & Hel & Hsc). cbn [mbind option_bind].
  assert (good y) as Hg by (eapply (proj1 (Forall_forall _ _)); [apply (rep_good _ _ _ Hz)|rewrite Hxs; set_solver]).
  rewrite Hsc, Hel, (good_ele _ Hg), deq_spec by (done || apply Hg).
  assert (∀ it, it ∈ xs → keq (ikey it) (s, e) → it = y) as Huniq
    by (intros it Hit Hk; by injection (Hfirst it Hit Hk)).
  case_bool_decide as Hq; cbn [mbind option_bind].
  - apply (delete_finish h z xs l1 y l2'); try done. rewrite cmp_eq, bool_decide_eq_true by (done || by apply good_len).
    unfold keq. simpl. assert (feq (sc y) s) by (by symmetry). tauto.
  - apply (delete_finish h z xs l1 y l2' us (s, e) keep false); try done. split; [done|]. intros [Hq' _]. exfalso. apply Hq. by symmetry.
Qed.
