(* ===== verification/SkiplistRange.v ===== *)
(** * Ranks and ranges of a skip list

    [zslGetRank] and [zslGetElementByRank] against the position in the
    sequence, the first and last node of a range, and the deletion of ranges
    together with the dictionary of the sorted set. *)

From Stdlib Require Import SpecFloat.
From S2P Require Import Prelude.
From S2P Require Import Mem.
From S2P Require Import SdsRefine.
From S2P Require Import KvTable.
From S2P Require Import Skiplist.
From S2P Require Import SkiplistRepr.
From S2P Require Import SkiplistOps.
From S2P Require Import SkiplistDelete.
From S2P Require Import SkiplistSpec.
Import Skiplist.
Import KvTable.

(** ** Ranks *)
(** One level of a search. *)
Lemma level_step h z xs l1 l2 w cond i c it d :
  zsl_ok h z xs → hd_item (header z) :: xs = l1 ++ l2 → 32 ≤ w → decides cond l1 l2 → (i < zlevel z)%nat →
  l1 = c ++ it :: d → (i < ht it)%nat →
  ∃ a it' b, last_above i l1 a it' b ∧ walk h z w cond i (addr it) (zlen c) = Some (addr it', zlen a).
Proof.
  intros Hz Hys Hw Hc Hi Hl1 Hit.
  apply (walk_ok h (zlevel z) (hd_item (header z) :: xs) l1 l2 w cond (ok_nodes _ _ _ Hz) Hys Hw Hc i d); try done.
  rewrite (ok_length _ _ _ Hz). apply (f_equal zlen) in Hys. rewrite Hl1 in Hys.
  rewrite zlen_cons, !zlen_app, zlen_cons in Hys. unfold zlen in *. lia.
Qed.

Lemma item_node h z xs l1 l2 i a it b :
  zsl_ok h z xs → hd_item (header z) :: xs = l1 ++ l2 → last_above i l1 a it b →
  ∃ n, h !! addr it = Some n ∧ ele n = el it.
Proof.
  intros Hz Hys (Hl & _ & _).
  destruct (fields_node _ _ _ _ _ _ (nodes_fields _ _ _ (ok_nodes _ _ _ Hz) a it (b ++ l2) ltac:(rewrite Hys, Hl; by app_norm)))
    as (n & ? & ? & _). by exists n.
Qed.

Section Ranks.
Context (h : heap) (z : zskiplist) (xs l1 l2 : list item).
Context (Hz : zsl_ok h z xs) (Hys : hd_item (header z) :: xs = l1 ++ l2).

(** The search returns at the highest level whose last item passes the test. *)
Lemma levels_until_ok {R} cond (test : ptr → Z → option (option R)) (T : list item → item → option R) n :
  decides cond l1 l2 →
  (∀ i a it b, last_above i l1 a it b → test (addr it) (zlen a) = Some (T a it)) → ∀ c it d,
  (n ≤ zlevel z)%nat → l1 = c ++ it :: d → (n ≤ ht it)%nat →
  ∃ r, levels_until h z cond test n (addr it) (zlen c) = Some r ∧
  match r with
  | Some v => ∃ i a it' b, (i < n)%nat ∧ last_above i l1 a it' b ∧ T a it' = Some v
  | None => ∀ i a it' b, (i < n)%nat → last_above i l1 a it' b → T a it' = None
  end.
Proof using Hz Hys.
  intros Hc Htest. induction n as [|n IH]; intros c it d Hn Hl1 Hit; cbn [levels_until].
  - exists None. split; [done|]. lia.
  - destruct (level_step h z xs l1 l2 64 _ n c it d Hz Hys ltac:(lia) Hc ltac:(lia) Hl1 ltac:(lia)) as (a & it' & b & Hlast & ->).
    cbn [mbind option_bind]. rewrite (Htest _ _ _ _ Hlast). cbn [mbind option_bind].
    destruct (T a it') as [v|] eqn:ET.
    + exists (Some v). split; [done|]. exists n, a, it', b. split_and!; [lia|done..].
    + pose proof Hlast as (Hl & Hh & _). destruct (IH a it' b ltac:(lia) Hl ltac:(lia)) as (r & Hr & Hor).
      exists r. split; [done|]. destruct r as [v|].
      * destruct Hor as (i & a1 & it1 & b1 & Hi & Hrest). exists i, a1, it1, b1. split; [lia|done].
      * intros i a1 it1 b1 Hi Hla. destruct (decide (i = n)) as [->|]; [|apply (Hor i a1 it1 b1); done || lia].
        by destruct (last_above_unique _ _ _ _ _ _ _ _ Hlast Hla) as (<- & <- & _).
Qed.

(** With at least one item after the header the search ends at the last item of
    [l1]. *)
Lemma last_item a it : l1 = a ++ [it] → last_above 0 l1 a it [].
Proof using Hz Hys.
  intros ->. split; [done|]. split; [|constructor]. pose proof (ok_positive _ _ _ Hz) as Hp. rewrite Hys in Hp.
  apply Forall_app in Hp as [[_ Hp]%Forall_app _]. apply Forall_cons in Hp as [Hp _]. simpl in Hp. lia.
Qed.
End Ranks.

(** ** [zslGetRank] *)
Definition not_after (k : key) (it : item) : Prop := ¬ klt k (ikey it).
#[export] Instance not_after_dec k it : Decision (not_after k it).
Proof. unfold not_after. apply _. Defined.

Lemma not_after_down k a b : ilt a b → not_after k b → not_after k a.
Proof. unfold not_after, ilt. intros Hab Hb Ha. by apply Hb, (klt_trans _ (ikey a)). Qed.

Lemma filter_not_after_at (l1 l2 : list item) xi k :
  StronglySorted ilt (l1 ++ xi :: l2) → keq (ikey xi) k → filter (not_after k) (l1 ++ xi :: l2) = l1 ++ [xi].
Proof.
  intros (S1 & S2 & S3 & S4 & S5)%StronglySorted_mid Hk. unfold not_after.
  rewrite filter_app, filter_cons, filter_all, decide_True, filter_none; [done|..].
  - intros y Hy Hn. apply Hn. by apply (klt_keq_l (ikey xi)); [apply S4|].
  - intros Hlt. apply (klt_irrefl (ikey xi)). by apply (klt_keq_l k); [|apply keq_sym].
  - intros y Hy Hlt. apply (klt_irrefl k). apply (klt_trans _ (ikey y)); [done|].
    destruct (S3 y Hy) as [?|[? Hl]]; destruct Hk as [Hf He].
    + left. by eapply flt_feq.
    + right. split; [by eapply feq_trans|by rewrite <-He].
Qed.

Lemma get_rank h z xs s e :
  zsl_rep h z xs → isnan s = false → zlen e < 2 ^ 31 →
  ∃ r, zslGetRank h z s e = Some r ∧
    (r = 0 ∨ ∃ p xi q, xs = p ++ xi :: q ∧ (ikey xi).2 = e ∧ not_after (s, e) xi ∧ r = zlen p + 1) ∧
    (r = 0 → Forall (λ it, ¬ keq (ikey it) (s, e)) xs).
Proof.
  intros Hz Hnan He. pose proof (rep_ok _ _ _ Hz) as Hok. pose proof (ok_level _ _ _ Hok) as Hlev.
  destruct (search_by (not_after (s, e)) (node_upto s e) h z xs 64 Hz ltac:(lia) (λ a b _ _, not_after_down _ a b)) as [Hxs Hdec].
  { intros it n r Hg Hel Hsc. by apply upto_spec. }
  set (l1 := filter (not_after (s, e)) xs) in *. set (l2 := filter (λ it, ¬ not_after (s, e) it) xs) in *.
  assert (hd_item (header z) :: xs = (hd_item (header z) :: l1) ++ l2) as Hys by (by rewrite Hxs at 1).
  set (T := λ (a : list item) (it : item), match el it with Some e' => if cmp_bytes e' e =? 0 then Some (zlen a) else None | None => None end).
  destruct (levels_until_ok h z xs _ l2 Hok Hys (node_upto s e) (rank_test h e) T (zlevel z) Hdec) with
    (c := @nil item) (it := hd_item (header z)) (d := l1) as (r & Hrun & Hr); [|done..|simpl; lia|].
  { intros i a it b Hlast. unfold rank_test. destruct (item_node h z xs _ l2 i a it b Hok Hys Hlast) as (n & -> & Hel).
    cbn [mbind option_bind]. by rewrite Hel. }
  unfold zslGetRank. change (zlen (@nil item)) with 0 in Hrun. simpl addr in Hrun. rewrite Hrun. cbn [mbind option_bind].
  assert (∀ it, it ∈ xs → good it) as Hgood by (apply Forall_forall, (rep_good _ _ _ Hz)).
  exists (default 0 r). split; [done|]. split.
  - destruct r as [v|]; [|by left]. right. destruct Hr as (i & a & it & b & _ & (Hl & _) & HT).
    unfold T in HT. destruct a as [|a0 a]; injection Hl as <- Hl; [done|].
    assert (it ∈ l1) as [Hna Hin]%list_elem_of_filter by (rewrite Hl; set_solver).
    rewrite (good_ele _ (Hgood _ Hin)), cmp_eq in HT by (done || by apply good_len, Hgood).
    case_bool_decide as Hq; [|done]. injection HT as <-.
    exists a, it, (b ++ l2). split_and!; [rewrite Hxs, Hl; by app_norm|done|done|]. simpl. zl.
  - intros Hz0. apply Forall_forall. intros it Hin Hk. destruct r as [v|].
    + destruct Hr as (i & a & it' & b & _ & (Hl & _) & HT). unfold T in HT. simpl in Hz0. subst v.
      destruct a as [|a0 a]; injection Hl as <- Hl; [done|]. destruct (el it') as [e'|]; [|done].
      destruct (cmp_bytes e' e =? 0); [|done]. injection HT as HT. rewrite zlen_cons in HT. zlen_pos. lia.
    + apply list_elem_of_split in Hin as (p & q & Hpq).
      assert (l1 = p ++ [it]) as Hl1.
      { unfold l1. rewrite Hpq. apply filter_not_after_at; [rewrite <-Hpq; apply (rep_sorted _ _ _ Hz)|done]. }
      assert (hd_item (header z) :: l1 = (hd_item (header z) :: p) ++ [it]) as Hl1' by (by rewrite Hl1).
      specialize (Hr 0%nat _ _ _ ltac:(lia) (last_item h z xs _ l2 Hok Hys _ it Hl1')). unfold T in Hr.
      assert (good it) as Hg by (apply Hgood; rewrite Hpq; set_solver).
      rewrite (good_ele _ Hg), cmp_eq, bool_decide_eq_true_2 in Hr; [done|apply Hk|by apply good_len|done].
Qed.

(** ** [zslGetElementByRank] *)
Lemma get_element h z xs rank :
  zsl_ok h z xs → 0 ≤ rank →
  zslGetElementByRank h z rank = Some (addr <$> (hd_item (header z) :: xs) !! Z.to_nat rank).
Proof.
  intros Hz Hr0. pose proof (ok_level _ _ _ Hz) as Hlev. set (ys := hd_item (header z) :: xs).
  set (n := Z.to_nat rank). set (l1 := take (S n) ys). set (l2 := drop (S n) ys).
  assert (ys = l1 ++ l2) as Hys by (unfold l1, l2; by rewrite take_drop).
  assert (l1 = hd_item (header z) :: take n xs) as Hl1 by done.
  assert (zlen l1 = Z.min (rank + 1) (zlen ys)) as Hlen.
  { unfold l1, zlen, n. rewrite length_take. lia. }
  assert (decides (λ _ t, Some (t <=? rank)) l1 l2) as Hdec.
  { split.
    - intros a it b nd Heq _ _ _. f_equal. apply Z.leb_le. rewrite Heq in Hlen. zl.
    - intros a it b nd Heq _ _. f_equal. apply Z.leb_gt.
      assert (zlen ys = zlen l1 + zlen l2) by (rewrite Hys; zl). rewrite Heq in *. zl. }
  destruct (levels_until_ok h z xs l1 l2 Hz Hys _ (λ x t, Some (if t =? rank then Some x else None))
    (λ a it, if zlen a =? rank then Some (addr it) else None) (zlevel z) Hdec) with
    (c := @nil item) (it := hd_item (header z)) (d := take n xs) as (r & Hrun & Hr); [done|done|done|simpl; lia|].
  unfold zslGetElementByRank. etransitivity; [exact Hrun|]. f_equal. destruct r as [v|].
  - destruct Hr as (i & a & it & b & _ & (Hl & _) & HT). destruct (Z.eqb_spec (zlen a) rank) as [Ha|]; [|done].
    injection HT as <-. rewrite Hys, Hl, <-app_assoc. cbn [app]. rewrite (lookup_mid a); [done|]. unfold n, zlen in *. lia.
  - destruct (decide (n < Datatypes.length ys)%nat) as [Hlt|Hge]; [|by rewrite lookup_ge_None_2 by lia].
    exfalso. destruct (exists_last (l := l1) ltac:(by rewrite Hl1)) as (a & it & Ha).
    specialize (Hr 0%nat a it [] ltac:(lia) (last_item h z xs l1 l2 Hz Hys a it Ha)). simpl in Hr.
    assert (zlen a = rank) as Har by (rewrite Ha in Hlen; rewrite zlen_app in Hlen; change (zlen [it]) with 1 in Hlen; unfold n, zlen in *; lia).
    by rewrite Har, Z.eqb_refl in Hr.
Qed.

(** ** The ends of a range *)
Section Ends.
Context (h : heap) (z : zskiplist) (xs : list item) (Hz : zsl_rep h z xs).
Context (G L : item → Prop) `{∀ it, Decision (G it), ∀ it, Decision (L it)}.
Context (gte lte : zskiplistNode → option bool).
Context (HG : ∀ a b, a ∈ xs → b ∈ xs → ilt a b → G a → G b).
Context (HL : ∀ a b, a ∈ xs → b ∈ xs → ilt a b → L b → L a).
Context (Hgte : ∀ it n, good it → ele n = el it → score n = sc it → ∃ b, gte n = Some b ∧ (b = true ↔ G it)).
Context (Hlte : ∀ it n, good it → ele n = el it → score n = sc it → ∃ b, lte n = Some b ∧ (b = true ↔ L it)).

Definition within : list item := filter (λ it, G it ∧ L it) xs.

Lemma good_in it : it ∈ xs → good it.
Proof using Hz. apply Forall_forall, (rep_good _ _ _ Hz). Qed.

Lemma last_bounds (l : list item) y it : xs = l ++ [y] → it ∈ xs → G it → G y.
Proof using All.
  intros Hl Hin Hg. pose proof Hin as Hin'. rewrite Hl in Hin'.
  apply elem_of_app in Hin' as [Hin'|Hin']; [|by apply list_elem_of_singleton in Hin' as ->].
  pose proof (rep_sorted _ _ _ Hz) as Hs. rewrite Hl in Hs. apply StronglySorted_app_iff in Hs as (_ & _ & Hs).
  apply (HG it y); [done|rewrite Hl; set_solver| |done]. apply Hs; set_solver.
Qed.

Lemma head_bounds (l : list item) y it : xs = y :: l → it ∈ xs → L it → L y.
Proof using All.
  intros Hl Hin HLi. pose proof Hin as Hin'. rewrite Hl in Hin'. apply elem_of_cons in Hin' as [->|Hin']; [done|].
  pose proof (rep_sorted _ _ _ Hz) as Hs. rewrite Hl in Hs. apply StronglySorted_cons in Hs as [Hs _].
  rewrite Forall_forall in Hs. apply (HL y it); [rewrite Hl; set_solver|done|by apply Hs|done].
Qed.

Lemma ends_ok :
  ∃ b, ends_in_range h z gte lte = Some b ∧
    if b then (∃ l y, xs = l ++ [y] ∧ G y) ∧ (∃ y l, xs = y :: l ∧ L y) else within = [].
Proof using All.
  pose proof (rep_ok _ _ _ Hz) as Hok. pose proof (ok_level _ _ _ Hok). unfold ends_in_range, within.
  rewrite (ok_tail _ _ _ Hok). destruct (last xs) as [y|] eqn:Elast; simpl.
  2:{ apply last_None in Elast. exists false. split; [done|]. by rewrite Elast. }
  apply last_Some in Elast as [l Hl].
  destruct (node_at h z xs l y [] Hok Hl) as (n & -> & Hel & Hsc). cbn [mbind option_bind].
  destruct (Hgte y n (good_in y ltac:(rewrite Hl; set_solver)) Hel Hsc) as (b & -> & Hb). cbn [mbind option_bind].
  destruct b; simpl.
  2:{ exists false. split; [done|]. apply filter_none. intros it Hin [Hg _].
      assert (false = true) as [=] by (apply Hb; by apply (last_bounds l y it)). }
  assert (get_level h (header z) 0 = Some (next 0 xs)) as ->
    by (apply (nodes_level _ _ _ (ok_nodes _ _ _ Hok) [] (hd_item (header z)) xs); [done|simpl; unfold ZSKIPLIST_MAXLEVEL; lia|lia]).
  cbn [mbind option_bind].
  assert (∃ y0 l0, xs = y0 :: l0) as (y0 & l0 & Exs) by (rewrite Hl; destruct l; by eexists _, _).
  assert (forward (next 0 xs) = Some (addr y0)) as ->.
  { rewrite Exs. pose proof (ok_positive _ _ _ Hok) as Hp. rewrite Exs in Hp. apply Forall_cons in Hp as [_ Hp].
    apply Forall_cons in Hp as [Hp _]. simpl. destruct (Nat.ltb_spec 0 (ht y0)); [done|lia]. }
  destruct (node_at h z xs [] y0 l0 Hok Exs) as (n0 & -> & Hel0 & Hsc0). cbn [mbind option_bind].
  destruct (Hlte y0 n0 (good_in y0 ltac:(rewrite Exs; set_solver)) Hel0 Hsc0) as (b & -> & Hb0). exists b. split; [done|].
  destruct b.
  - split; [exists l, y; split; [done|by apply Hb]|]. exists y0, l0. split; [done|by apply Hb0].
  - apply filter_none. intros it Hin [_ Hlt].
    assert (false = true) as [=] by (apply Hb0; by apply (head_bounds l0 y0 it)).
Qed.

Lemma search_node P `{∀ it, Decision (P it)} cond :
  (∀ a b, a ∈ xs → b ∈ xs → ilt a b → P b → P a) →
  (∀ it n (r : Z), good it → ele n = el it → score n = sc it → ∃ b, cond n r = Some b ∧ (b = true ↔ P it)) →
  let l1 := filter P xs in let l2 := filter (λ it, ¬ P it) xs in
  xs = l1 ++ l2 ∧ ∃ us u, descend h z 64 cond (zlevel z) (header z) 0 = Some us ∧
    us !! 0%nat = Some (u, zlen l1) ∧ get_level h u 0 = Some (next 0 l2) ∧
    u = addr (List.last l1 (hd_item (header z))) ∧ forward (next 0 l2) = addr <$> head l2 ∧
    update_ok (zlevel z) (hd_item (header z) :: l1) us.
Proof using Hz.
  intros HP Hc l1 l2. destruct (search_by P cond h z xs 64 Hz ltac:(lia) HP Hc) as [Hxs Hdec]. split; [done|].
  destruct (skiplist_search h z xs _ _ 64 _ (rep_ok _ _ _ Hz) Hxs ltac:(lia) Hdec) as (us & Hrun & _ & Hus).
  destruct (first_after h z xs _ _ us (rep_ok _ _ _ Hz) Hxs Hus) as (u & Hu & Hl0 & Hlast & Hfw). by exists us, u.
Qed.

Lemma first_in_ok l y : xs = l ++ [y] → G y → first_in h z gte lte = Some (addr <$> head within).
Proof using All.
  intros Hl Hy. unfold first_in.
  destruct (search_node (λ it, ¬ G it) (λ n _, negb <$> gte n)) as [Hxs (us & u & -> & Hu & Hl0 & _ & Hfw & _)].
  { intros a b Hina Hinb Hab Hb Ha. by apply Hb, (HG a). }
  { intros it n r Hg Hel Hsc. destruct (Hgte it n Hg Hel Hsc) as (b & -> & Hb). exists (negb b). split; [done|].
    rewrite negb_true_iff, <-not_true_iff_false, Hb. done. }
  cbn [mbind option_bind]. rewrite Hu. cbn [mbind option_bind]. rewrite Hl0. cbn [mbind option_bind]. rewrite Hfw.
  set (l1 := filter (λ it, ¬ G it) xs) in *. set (l2 := filter (λ it, ¬ ¬ G it) xs) in *.
  assert (within = filter L l2) as ->.
  { unfold within. rewrite Hxs, filter_app, filter_none; [cbn [app]|].
    - apply filter_same. intros it [Hg _]%list_elem_of_filter. apply dec_stable in Hg. tauto.
    - intros it [Hg _]%list_elem_of_filter. tauto. }
  destruct l2 as [|y0 l2'] eqn:E.
  { exfalso. assert (y ∈ l1) as [Hn _]%list_elem_of_filter; [|done]. rewrite app_nil_r in Hxs. rewrite <-Hxs, Hl. set_solver. }
  simpl. destruct (node_at h z xs l1 y0 l2' (rep_ok _ _ _ Hz) Hxs) as (n & -> & Hel & Hsc). cbn [mbind option_bind].
  destruct (Hlte y0 n (good_in y0 ltac:(rewrite Hxs; set_solver)) Hel Hsc) as (b & -> & Hb). cbn [mbind option_bind].
  rewrite filter_cons. destruct b.
  - rewrite decide_True by (by apply Hb). done.
  - rewrite decide_False by (intros HLy; by apply Hb in HLy). rewrite filter_none; [done|].
    intros it Hin HLi. assert (false = true) as [=]. apply Hb. apply (HL y0 it); [rewrite Hxs; set_solver..| |done].
    pose proof (rep_sorted _ _ _ Hz) as Hs. rewrite Hxs in Hs. apply StronglySorted_mid in Hs as (_ & _ & _ & Hs & _). by apply Hs.
Qed.

Lemma last_in_ok y l : xs = y :: l → L y → last_in h z gte lte = Some (addr <$> last within).
Proof using All.
  intros Hl Hy. unfold last_in.
  destruct (search_node L (λ n _, lte n)) as [Hxs (us & u & -> & Hu & _ & Hlast & _)]; [done| |].
  { intros it n r Hg Hel Hsc. by apply Hlte. }
  cbn [mbind option_bind]. rewrite Hu. cbn [mbind option_bind].
  set (l1 := filter L xs) in *. set (l2 := filter (λ it, ¬ L it) xs) in *.
  assert (within = filter G l1) as ->.
  { unfold within. rewrite Hxs, filter_app, (filter_none _ l2); [rewrite app_nil_r|].
    - apply filter_same. intros it [Hg _]%list_elem_of_filter. tauto.
    - intros it [Hg _]%list_elem_of_filter. tauto. }
  assert (l1 ≠ []) as Hne.
  { intros Hnil. assert (y ∈ l1) as Hin by (apply list_elem_of_filter; split; [done|rewrite Hl; set_solver]).
    rewrite Hnil in Hin. by apply not_elem_of_nil in Hin. }
  destruct (exists_last Hne) as (l1' & y0 & E). rewrite E in Hlast. rewrite List.last_last in Hlast. rewrite E in *. subst u.
  destruct (node_at h z xs l1' y0 l2 (rep_ok _ _ _ Hz)) as (n & -> & Hel & Hsc); [rewrite Hxs; by app_norm|].
  cbn [mbind option_bind].
  destruct (Hgte y0 n (good_in y0 ltac:(rewrite Hxs; set_solver)) Hel Hsc) as (b & -> & Hb). cbn [mbind option_bind].
  rewrite filter_app, filter_cons, filter_nil. destruct b.
  - rewrite decide_True by (by apply Hb). by rewrite last_snoc.
  - rewrite decide_False by (intros HGy; by apply Hb in HGy). rewrite app_nil_r, filter_none; [done|].
    intros it Hin HGi. assert (false = true) as [=]. apply Hb. apply (HG it y0); [rewrite Hxs; set_solver..| |done].
    pose proof (rep_sorted _ _ _ Hz) as Hs. rewrite Hxs, <-app_assoc in Hs. apply StronglySorted_mid in Hs as (_ & _ & Hs & _). by apply Hs.
Qed.
End Ends.

(** An ordered list is what comes before a range, the range, and what comes
    after it. *)
Lemma within_split xs (G L : item → Prop) `{∀ it, Decision (G it), ∀ it, Decision (L it)} :
  StronglySorted ilt xs →
  (∀ a b, a ∈ xs → b ∈ xs → ilt a b → G a → G b) → (∀ a b, a ∈ xs → b ∈ xs → ilt a b → L b → L a) →
  let l1 := filter (λ it, ¬ G it) xs in let r := filter (λ it, G it ∧ ¬ L it) xs in
  xs = l1 ++ within xs G L ++ r ∧ l1 ++ r = filter (λ it, ¬ (G it ∧ L it)) xs.
Proof.
  intros Hs HG HL l1 r.
  assert (xs = l1 ++ filter (λ it, ¬ ¬ G it) xs) as Hxs.
  { apply sorted_split; [done|]. intros a b Ha Hb Hab Hnb Hga. by apply Hnb, (HG a). }
  set (l2 := filter (λ it, ¬ ¬ G it) xs) in *.
  assert (∀ it, it ∈ l2 → it ∈ xs ∧ G it) as Hl2.
  { intros it [Hg Hin]%list_elem_of_filter. apply dec_stable in Hg. done. }
  pose proof Hs as Hs'. rewrite Hxs in Hs'. apply StronglySorted_app_iff in Hs' as (_ & Hs2 & _).
  pose proof (sorted_split L l2 Hs2 ltac:(intros a b Ha Hb; apply HL; by apply Hl2)) as Hsp.
  assert (filter L l2 = within xs G L) as Hm.
  { unfold within. rewrite Hxs at 1. rewrite filter_app, (filter_none _ l1); [cbn [app]|].
    - apply filter_same. intros it Hin. destruct (Hl2 it Hin). tauto.
    - intros it [Hg _]%list_elem_of_filter. tauto. }
  assert (filter (λ it, ¬ L it) l2 = r) as Hr.
  { unfold r. rewrite Hxs at 1. rewrite filter_app, (filter_none _ l1); [cbn [app]|].
    - apply filter_same. intros it Hin. destruct (Hl2 it Hin). tauto.
    - intros it [Hg _]%list_elem_of_filter. tauto. }
  rewrite Hm, Hr in Hsp. assert (xs = l1 ++ within xs G L ++ r) as Hsplit by (by rewrite Hxs at 1; rewrite Hsp).
  split; [done|]. rewrite Hsplit at 1. rewrite !filter_app, (filter_none _ (within xs G L)), (filter_all _ l1), (filter_all _ r); [done|..].
  - intros it [Hn _]%list_elem_of_filter. tauto.
  - intros it [Hn _]%list_elem_of_filter. tauto.
  - unfold within. intros it [Hn _]%list_elem_of_filter. tauto.
Qed.

(** ** Deleting ranges *)
Definition strings (l : list item) : list bytes := (λ it, (ikey it).2) <$> l.

Definition remove_keys {V} (m : gmap bytes V) (ks : list bytes) : gmap bytes V := foldl (λ m k, delete k m) m ks.

Lemma lookup_remove_keys {V} (ks : list bytes) : ∀ (m : gmap bytes V) k,
  remove_keys m ks !! k = if decide (k ∈ ks) then None else m !! k.
Proof.
  unfold remove_keys. induction ks as [|k0 ks IH]; intros m k; cbn [foldl].
  - by rewrite decide_False by set_solver.
  - rewrite IH. destruct (decide (k ∈ ks)); [by rewrite decide_True by set_solver|].
    destruct (decide (k = k0)) as [->|].
    + rewrite decide_True by set_solver. apply lookup_delete_eq.
    + rewrite decide_False by set_solver. by apply lookup_delete_ne.
Qed.

Section DeleteRange.
Context {D E : Type} `{!Table D E bytes ptr} `{!TableOk D E bytes ptr}.
Implicit Types (d : D) (dm : gmap bytes ptr).

(** The items [m] are gone, the others are as before. *)
Record range_deleted (h h' : heap) (z z' : zskiplist) d' dm (l1 m r : list item) : Prop := {
  deleted_header : header z' = header z;
  deleted_rep : zsl_rep h' z' (l1 ++ r);
  deleted_table : table_rep d' (remove_keys dm (strings m));
  deleted_freed it : it ∈ m → h' !! addr it = None;
  deleted_frame a : a ∉ header z :: (addr <$> (l1 ++ m ++ r)) → h' !! a = h !! a }.

Lemma head_forward h z l1 x l :
  zsl_rep h z (l1 ++ x :: l) → get_level h (addr x) 0 = Some (next 0 l) ∧ forward (next 0 l) = addr <$> head l.
Proof.
  intros Hz. pose proof (ok_positive _ _ _ (rep_ok _ _ _ Hz)) as Hp. pose proof (ok_level _ _ _ (rep_ok _ _ _ Hz)).
  apply Forall_cons in Hp as [_ Hp]. apply Forall_app in Hp as [_ Hp]. apply Forall_cons in Hp as [Hx Hp]. simpl in Hx. split.
  - apply (nodes_level _ _ _ (ok_nodes _ _ _ (rep_ok _ _ _ Hz)) (hd_item (header z) :: l1)); [done|lia|lia].
  - destruct l as [|y l]; [done|]. apply Forall_cons in Hp as [Hy _]. simpl in *. destruct (Nat.ltb_spec 0 (ht y)); [done|lia].
Qed.

Lemma delete_loop_ok cond us (l1 r m : list item) : ∀ h z d dm t removed fuel,
  zsl_rep h z (l1 ++ m ++ r) → update_ptrs (zlevel z) (hd_item (header z) :: l1) us → table_rep d dm →
  (∀ a it b n, m = a ++ it :: b → ele n = el it → score n = sc it → cond n (t + zlen a) = Some true) →
  (∀ it r' n, r = it :: r' → ele n = el it → score n = sc it → cond n (t + zlen m) = Some false) →
  0 ≤ t → t + zlen m < 2 ^ 63 → 0 ≤ removed → removed + zlen m < 2 ^ 63 → (Datatypes.length m < fuel)%nat →
  ∃ h' z' d', loop fuel (delete_body us cond) (h, z, d, addr <$> head (m ++ r), t, removed) =
      Some (h', z', d', removed + zlen m) ∧ range_deleted h h' z z' d' dm l1 m r.
Proof.
  induction m as [|x m IH]; intros h z d dm t removed fuel Hz Hus Hd Hm Hr Ht0 Ht Hr0 Hrem Hfuel.
  - destruct fuel as [|fuel]; [lia|]. rewrite loop_S. unfold delete_body at 2. cbn [app].
    change (zlen []) with 0 in *. rewrite Z.add_0_r in *.
    assert (range_deleted h h z z d dm l1 [] r) as Hdone by (split; try done; by intros it ?%not_elem_of_nil).
    destruct r as [|y r]; simpl; [by exists h, z, d|].
    destruct (node_at h z _ l1 y r (rep_ok _ _ _ Hz) eq_refl) as (n & -> & Hel & Hsc). cbn [mbind option_bind].
    rewrite (Hr y r n eq_refl Hel Hsc). by exists h, z, d.
  - destruct fuel as [|fuel]; [lia|]. rewrite loop_S. unfold delete_body at 2. cbn [app head fmap option_fmap option_map].
    cbn [app] in Hz. rewrite zlen_cons in *. zlen_pos.
    destruct (node_at h z _ l1 x (m ++ r) (rep_ok _ _ _ Hz) eq_refl) as (n & Hn & Hel & Hsc). rewrite Hn. cbn [mbind option_bind].
    pose proof (Hm [] x m n eq_refl Hel Hsc) as Hc. change (zlen []) with 0 in Hc. rewrite Z.add_0_r in Hc. rewrite Hc.
    cbn [mbind option_bind]. destruct (head_forward h z l1 x (m ++ r) Hz) as [-> Hfw]. cbn [mbind option_bind]. rewrite Hfw.
    destruct (delete_node_rep h z l1 x (m ++ r) us false Hz Hus) as (h1 & z1 & h2 & -> & Hfree & Hlv & Hhd & Hz1 & Hx & Hfr).
    cbn [mbind option_bind]. rewrite Hel.
    assert (good x) as Hg by (eapply (proj1 (Forall_forall _ _)); [apply (rep_good _ _ _ Hz)|set_solver]).
    rewrite (good_ele _ Hg). cbn [mbind option_bind].
    destruct (table_delete_ok d dm (ikey x).2 Hd) as (d1 & -> & Hd1). cbn [mbind option_bind].
    rewrite Hfree. cbn [mbind option_bind]. rewrite !uwrap_id by (unfold in_u; lia).
    destruct (IH h2 z1 d1 (delete (ikey x).2 dm) (t + 1) (removed + 1) fuel) as (h' & z' & d' & Hrun & Hdel); try done || lia.
    { intros i Hi. rewrite Hhd. apply Hus. lia. }
    { intros a it b nd -> Hel' Hsc'. specialize (Hm (x :: a) it b nd eq_refl Hel' Hsc'). rewrite zlen_cons in Hm.
      rewrite <-Hm. f_equal. lia. }
    { intros it r' nd -> Hel' Hsc'. specialize (Hr it r' nd eq_refl Hel' Hsc'). rewrite <-Hr. f_equal. lia. }
    { simpl in Hfuel. lia. }
    exists h', z', d'. split; [rewrite Hrun; do 2 f_equal; lia|]. destruct Hdel as [Hh Hrep Htab Hfreed Hframe]. split.
    + by rewrite Hh.
    + done.
    + done.
    + intros it [->|Hin]%elem_of_cons; [|by apply Hfreed]. rewrite Hframe; [done|].
      pose proof (nodes_nodup _ _ _ (ok_nodes _ _ _ (rep_ok _ _ _ Hz))) as Hnd. rewrite Hhd.
      by apply (addr_nodup_mid (hd_item (header z) :: l1) (m ++ r) x) in Hnd as [_ Hnd].
    + intros a Ha. cbn [app] in Ha. rewrite Hframe; [by apply Hfr|]. rewrite Hhd. rewrite fmap_app in Ha |- *. set_solver.
Qed.
End DeleteRange.

Section DeleteRanges.
Context {D E : Type} `{!Table D E bytes ptr} `{!TableOk D E bytes ptr}.
Implicit Types (d : D) (dm : gmap bytes ptr).

Lemma delete_range_ok h z xs d dm (l1 m r : list item) before while_ :
  zsl_rep h z xs → xs = l1 ++ m ++ r → table_rep d dm →
  decides before (hd_item (header z) :: l1) (m ++ r) →
  (∀ a it b n, m = a ++ it :: b → ele n = el it → score n = sc it →
    while_ n (zlen l1 + 1 + zlen a) = Some true) →
  (∀ it r' n, r = it :: r' → ele n = el it → score n = sc it → while_ n (zlen l1 + 1 + zlen m) = Some false) →
  ∃ h' z' d', delete_range h z d before while_ = Some (h', z', d', zlen m) ∧
    range_deleted h h' z z' d' dm l1 m r.
Proof.
  intros Hz Hxs Hd Hdec Hm Hr. pose proof (rep_ok _ _ _ Hz) as Hok. unfold delete_range.
  destruct (skiplist_search h z xs l1 (m ++ r) 64 _ Hok Hxs ltac:(lia) Hdec) as (us & -> & _ & Hus). cbn [mbind option_bind].
  destruct (first_after h z xs l1 (m ++ r) us Hok Hxs Hus) as (u & -> & Hl0 & _ & Hfw). cbn [mbind option_bind].
  rewrite Hl0. cbn [mbind option_bind]. rewrite Hfw.
  pose proof (zlen_items _ _ _ Hok) as Hlen. rewrite Hxs, !zlen_app in Hlen. zlen_pos.
  rewrite uwrap_id by (unfold in_u; lia). rewrite Hxs in Hz.
  apply (delete_loop_ok while_ us.*1 l1 r m h z d dm (zlen l1 + 1) 0); try done || lia.
  - by apply update_ok_ptrs.
  - rewrite (ok_length _ _ _ Hok), Hxs, !zlen_app. unfold zlen in *. lia.
Qed.

(** Ranges given by a property closed upwards and one closed downwards. *)
Lemma delete_within h z xs d dm (G L : item → Prop) `{∀ it, Decision (G it), ∀ it, Decision (L it)} before while_ :
  zsl_rep h z xs → table_rep d dm →
  (∀ a b, a ∈ xs → b ∈ xs → ilt a b → G a → G b) → (∀ a b, a ∈ xs → b ∈ xs → ilt a b → L b → L a) →
  (∀ it n r, good it → ele n = el it → score n = sc it → ∃ b, before n r = Some b ∧ (b = true ↔ ¬ G it)) →
  (∀ it n r, good it → ele n = el it → score n = sc it → ∃ b, while_ n r = Some b ∧ (b = true ↔ L it)) →
  let m := within xs G L in
  ∃ h' z' d' l1 r, delete_range h z d before while_ = Some (h', z', d', zlen m) ∧
    xs = l1 ++ m ++ r ∧ l1 ++ r = filter (λ it, ¬ (G it ∧ L it)) xs ∧
    range_deleted h h' z z' d' dm l1 m r.
Proof.
  intros Hz Hd HG HL Hb Hw m.
  destruct (search_by (λ it, ¬ G it) before h z xs 64 Hz ltac:(lia)) as [Hxs Hdec]; [|done|].
  { intros a b Ha Hb' Hab Hnb Hga. by apply Hnb, (HG a). }
  destruct (within_split xs G L (rep_sorted _ _ _ Hz) HG HL) as [Hsplit Hkeep]. fold m in Hsplit.
  set (l1 := filter (λ it, ¬ G it) xs) in *. set (r := filter (λ it, G it ∧ ¬ L it) xs) in *.
  assert (filter (λ it, ¬ ¬ G it) xs = m ++ r) as Hl2 by (apply (app_inv_head l1); by rewrite <-Hxs).
  assert (∀ it, it ∈ xs → good it) as Hgood by (apply Forall_forall, (rep_good _ _ _ Hz)).
  destruct (delete_range_ok h z xs d dm l1 m r before while_ Hz Hsplit Hd) as (h' & z' & d' & Hrun & Hdel).
  { by rewrite <-Hl2. }
  { intros a it b n Heq Hel Hsc. assert (it ∈ m) as Hin by (rewrite Heq; set_solver).
    unfold m, within in Hin. apply list_elem_of_filter in Hin as [[_ Hlt] Hin].
    destruct (Hw it n (zlen l1 + 1 + zlen a) (Hgood _ Hin) Hel Hsc) as (c & -> & Hc). f_equal. by apply Hc. }
  { intros it r' n Heq Hel Hsc. assert (it ∈ r) as Hin by (rewrite Heq; set_solver).
    apply list_elem_of_filter in Hin as [[_ Hn] Hin].
    destruct (Hw it n (zlen l1 + 1 + zlen m) (Hgood _ Hin) Hel Hsc) as ([] & -> & Hc); [|done]. exfalso. by apply Hn, Hc. }
  by exists h', z', d', l1, r.
Qed.
End DeleteRanges.

(** ** Ranges of scores *)
Definition above_min (range : zrangespec) (it : item) : Prop :=
  if minex range then flt (rmin range) (sc it) else ¬ flt (sc it) (rmin range).
Definition below_max (range : zrangespec) (it : item) : Prop :=
  if maxex range then flt (sc it) (rmax range) else ¬ flt (rmax range) (sc it).
#[export] Instance above_min_dec range it : Decision (above_min range it).
Proof. unfold above_min. destruct (minex range); apply _. Defined.
#[export] Instance below_max_dec range it : Decision (below_max range it).
Proof. unfold below_max. destruct (maxex range); apply _. Defined.

Lemma ilt_score a b c : ilt a b → (flt c (sc a) → flt c (sc b)) ∧ (flt (sc b) c → flt (sc a) c).
Proof.
  intros [Hf|[Hf _]]; simpl in Hf; split; intros Hc.
  - by eapply flt_trans.
  - by eapply flt_trans.
  - by eapply flt_feq.
  - by eapply feq_flt.
Qed.

Section ScoreRange.
Context (range : zrangespec) (Hmin : isnan (rmin range) = false) (Hmax : isnan (rmax range) = false).

Lemma above_min_up a b : ilt a b → above_min range a → above_min range b.
Proof using.
  intros Hab. unfold above_min. pose proof (ilt_score a b (rmin range) Hab). destruct (minex range); tauto.
Qed.

Lemma below_max_down a b : ilt a b → below_max range b → below_max range a.
Proof using.
  intros Hab. unfold below_max. pose proof (ilt_score a b (rmax range) Hab). destruct (maxex range); tauto.
Qed.

Lemma gte_spec it n : good it → score n = sc it →
  ∃ b, score_gte range n = Some b ∧ (b = true ↔ above_min range it).
Proof using Hmin.
  intros [Hn _] Hsc. eexists. split; [done|]. unfold zslValueGteMin, above_min. rewrite Hsc.
  destruct (minex range); rewrite ?dlt_spec, ?dle_spec, bool_decide_eq_true by done; done.
Qed.

Lemma lte_spec it n : good it → score n = sc it →
  ∃ b, score_lte range n = Some b ∧ (b = true ↔ below_max range it).
Proof using Hmax.
  intros [Hn _] Hsc. eexists. split; [done|]. unfold zslValueLteMax, below_max. rewrite Hsc.
  destruct (maxex range); rewrite ?dlt_spec, ?dle_spec, bool_decide_eq_true by done; done.
Qed.

(** A range that is empty by itself. *)
Lemma empty_range xs :
  dlt (rmax range) (rmin range) || (deq (rmin range) (rmax range) && (minex range || maxex range)) = true →
  within xs (above_min range) (below_max range) = [].
Proof using Hmin Hmax.
  rewrite dlt_spec, deq_spec, orb_true_iff, andb_true_iff, orb_true_iff, !bool_decide_eq_true by done.
  intros Hr. apply filter_none. intros it _ [Ha Hb]. unfold above_min, below_max in *.
  pose proof (flt_irrefl (sc it)). pose proof (float_trichotomy (sc it) (rmin range)). pose proof (float_trichotomy (sc it) (rmax range)).
  unfold flt, feq in *. destruct (fkey (sc it)) as [[a1 a2] a3], (fkey (rmin range)) as [[b1 b2] b3], (fkey (rmax range)) as [[c1 c2] c3].
  destruct Hr as [Hr|[Hq Hx]].
  - destruct (minex range), (maxex range); lia.
  - injection Hq as -> -> ->. destruct (minex range), (maxex range); lia.
Qed.
End ScoreRange.
