(* ===== verification/SkiplistCorrect.v ===== *)
(** * The skip list of a sorted set: theorems

    Sessions of insertions and deletions against an ordered list, ranks,
    ranges of scores and of strings, the deletion of ranges, and two places
    where the code does not do what its comments say. *)

From Stdlib Require Import SpecFloat String.
From S2P Require Import Prelude.
From S2P Require Import Mem.
From S2P Require Import SdsRefine.
From S2P Require Import KvTable.
From S2P Require Import Dict.
From S2P Require Import DictSpec.
From S2P Require Import DictRefine.
From S2P Require Import Skiplist.
From S2P Require Import SkiplistRepr.
From S2P Require Import SkiplistOps.
From S2P Require Import SkiplistDelete.
From S2P Require Import SkiplistSpec.
From S2P Require Import SkiplistRange.
Import Skiplist.
Import KvTable.

(** ** Creation *)
Lemma create_rep `{Uninit} h :
  ∃ h' z, zslCreate h = Some (h', z) ∧ zsl_rep h' z [] ∧ header z ∉ dom h ∧ ∀ a, a ≠ header z → h' !! a = h !! a.
Proof.
  unfold zslCreate, zslCreateNode. set (hd := fresh (dom h)). assert (hd ∉ dom h) as Hfresh by apply is_fresh.
  set (nd := Node _ _ _ _). set (h1 := <[hd := nd]> h).
  assert (fields h1 hd = Some (None, S754_zero false, junk_backward, ZSKIPLIST_MAXLEVEL)) as Hf1.
  { unfold fields, h1. rewrite lookup_insert_eq.
    change (Some (@None bytes, S754_zero false, junk_backward, Datatypes.length (junk_level <$> seq 0 ZSKIPLIST_MAXLEVEL)) =
      Some (None, S754_zero false, junk_backward, ZSKIPLIST_MAXLEVEL)). by rewrite length_fmap, length_seq. }
  destruct (for_levels_ok (init_level hd) (λ j a, if decide (a = hd) then Some (Level None 0) else get_level h1 a j)
    ZSKIPLIST_MAXLEVEL 0 h1) as (h2 & -> & Ha2 & Hl2).
  { intros k h2 Hk Ha Hl. unfold init_level.
    assert (∃ l, get_level h2 hd k = Some l) as [l Hl0].
    { rewrite Hl. unfold get_level, h1. rewrite lookup_insert_eq. cbn [mbind option_bind]. unfold nd. cbn [level].
      rewrite list_lookup_fmap, lookup_seq_lt by lia. by eexists. }
    destruct (set_forward_ok h2 hd k None l Hl0) as (h3 & -> & Ha3 & Hl3). cbn [mbind option_bind].
    destruct (set_span_ok h3 hd k 0 (Level None (span l)) ltac:(by rewrite Hl3, decide_True)) as (h4 & -> & Ha4 & Hl4).
    exists h4. split; [done|]. split; [by eapply agree_trans|]. intros a j. rewrite Hl4, Hl3.
    destruct (decide (j = k)) as [->|]; [|by rewrite !decide_False by (by intros [_ ?])].
    destruct (decide (a = hd)) as [->|]; [by rewrite decide_True|]. rewrite !decide_False by (by intros [? _]). apply Hl. }
  cbn [mbind option_bind].
  destruct (set_backward_ok h2 hd None None (S754_zero false) junk_backward ZSKIPLIST_MAXLEVEL) as (h3 & -> & Hf3 & Hl3);
    [by rewrite Ha2|]. cbn [mbind option_bind]. eexists _, _. split; [done|].
  assert (∀ i, (i < ZSKIPLIST_MAXLEVEL)%nat → get_level h3 hd i = Some (Level None 0)) as Hlev
    by (intros i Hi; rewrite Hl3, Hl2; by rewrite !decide_True by lia).
  split; [split; [split|constructor|constructor]|split; [done|]]; simpl; try done.
  - split; [..|done].
    + intros a it b Heq. destruct a as [|? a]; injection Heq as <- Heq; [|by destruct a].
      simpl. by rewrite Hf3, decide_True.
    + intros a it b i Heq Hit Hi. destruct a as [|? a]; injection Heq as <- Heq; [|by destruct a].
      subst b. by apply Hlev.
    + simpl. apply NoDup_singleton.
  - intros i Hi. eexists. apply Hlev. lia.
  - unfold ZSKIPLIST_MAXLEVEL. lia.
  - by left.
  - intros a Ha. transitivity (h1 !! a); [|by apply lookup_insert_ne].
    apply node_ext; [by rewrite Hf3, decide_False|]. intros j. rewrite Hl3, Hl2.
    destruct (decide _); [by rewrite decide_False|done].
Qed.

(** ** Sessions *)
(** The operations, with what [random()] returns during an insertion. *)
Inductive zop := ZInsert (rs : list Z) (s : spec_float) (e : bytes) | ZDelete (s : spec_float) (e : bytes).

Definition run_zop `{Uninit} (o : zop) (st : heap * zskiplist) : option (heap * zskiplist * bool) :=
  let '(h, z) := st in
  match o with
  | ZInsert rs s e => '(h, z, _, _) ← zslInsert h z rs s e; Some (h, z, true)
  | ZDelete s e => '(h, z, r) ← zslDelete h z s e false; Some (h, z, bool_decide (is_Some r))
  end.

#[export] Instance keq_dec a b : Decision (keq a b).
Proof. unfold keq. apply _. Defined.

Definition spec_zop (o : zop) (l : list key) : list key * bool :=
  match o with
  | ZInsert _ s e => (filter (λ k, klt k (s, e)) l ++ (s, e) :: filter (λ k, ¬ klt k (s, e)) l, true)
  | ZDelete s e => (filter (λ k, ¬ keq k (s, e)) l, bool_decide (Exists (λ k, keq k (s, e)) l))
  end.

(** What the caller guarantees: no NaN, strings of less than 2^31 bytes, no
    element twice, and a call of [random()] that ends the choice of a level. *)
Definition zop_ok (o : zop) (l : list key) : Prop :=
  match o with
  | ZInsert rs s e => isnan s = false ∧ zlen e < 2 ^ 31 ∧ Forall (λ k, ¬ keq k (s, e)) l ∧
      Exists (λ r, 16384 ≤ Z.land r 65535) rs
  | ZDelete s e => isnan s = false ∧ zlen e < 2 ^ 31
  end.

Fixpoint run_zops `{Uninit} (os : list zop) (st : heap * zskiplist) : option (heap * zskiplist * list bool) :=
  match os with
  | [] => Some (st, [])
  | o :: os =>
      '(st, b) ← run_zop o st;
      '(st, bs) ← run_zops os st;
      Some (st, b :: bs)
  end.

Fixpoint spec_zops (os : list zop) (l : list key) : list key * list bool :=
  match os with
  | [] => (l, [])
  | o :: os =>
      let '(l, b) := spec_zop o l in
      let '(l, bs) := spec_zops os l in (l, b :: bs)
  end.

Fixpoint zops_ok (os : list zop) (l : list key) : Prop :=
  match os with
  | [] => True
  | o :: os => zop_ok o l ∧ zops_ok os (spec_zop o l).1
  end.

#[export] Instance zop_ok_dec o l : Decision (zop_ok o l).
Proof. destruct o; simpl; apply _. Defined.
#[export] Instance zops_ok_dec os l : Decision (zops_ok os l).
Proof. revert l. induction os as [|o os IH]; intros l; simpl; apply _. Defined.

Lemma random_ends rs : Exists (λ r, 16384 ≤ Z.land r 65535) rs → ∃ lv rs', zslRandomLevel rs = Some (lv, rs').
Proof.
  intros Hex. unfold zslRandomLevel.
  assert (∀ n, ∃ m rs', random_loop rs n = Some (m, rs')) as Hloop.
  { induction Hex as [r rs Hr|r rs _ IH]; intros n; cbn [random_loop].
    - destruct (Z.ltb_spec (Z.land r 65535) 16384); [lia|eauto].
    - destruct (_ <? _); eauto. }
  destruct (Hloop 1%nat) as (m & rs' & ->). cbn [mbind option_bind]. eauto.
Qed.

Lemma filter_fmap_key (P : key → Prop) `{∀ k, Decision (P k)} (xs : list item) :
  filter P (ikey <$> xs) = ikey <$> filter (λ it, P (ikey it)) xs.
Proof.
  induction xs as [|x xs IH]; [done|]. rewrite fmap_cons, !filter_cons, IH. by destruct (decide (P (ikey x))).
Qed.

Lemma keq_only (l1 l2 : list item) xi k :
  StronglySorted ilt (l1 ++ xi :: l2) → keq (ikey xi) k →
  filter (λ it, ¬ keq (ikey it) k) (l1 ++ xi :: l2) = l1 ++ l2.
Proof.
  intros (S1 & S2 & S3 & S4 & S5)%StronglySorted_mid Hk.
  assert (∀ y, keq (ikey y) k → keq (ikey y) (ikey xi)) as Htr.
  { intros y [Hf He]. destruct Hk as [Hf' He']. split; [eapply feq_trans; [done|by symmetry]|congruence]. }
  rewrite filter_app, filter_cons, decide_False, !filter_all; [done|..|tauto].
  - intros y Hy Hq%Htr. apply (klt_irrefl (ikey y)). by apply (klt_keq_l (ikey xi)); [apply S4|apply keq_sym].
  - intros y Hy Hq%Htr. apply (klt_irrefl (ikey xi)). by apply (klt_keq_l (ikey y)); [apply S3|].
Qed.

Lemma zop_refines `{Uninit} o h z xs :
  zsl_rep h z xs → zop_ok o (ikey <$> xs) → zlen xs + 1 < 2 ^ 32 →
  ∃ h' z' xs', run_zop o (h, z) = Some (h', z', (spec_zop o (ikey <$> xs)).2) ∧ zsl_rep h' z' xs' ∧
    ikey <$> xs' = (spec_zop o (ikey <$> xs)).1 ∧ zlen xs' ≤ zlen xs + 1.
Proof.
  intros Hz Hok Hlen. destruct o as [rs s e|s e]; cbn [run_zop spec_zop zop_ok fst snd] in *.
  - destruct Hok as (Hnan & He & Hne & (lv & rs' & Hr)%random_ends). rewrite Forall_fmap in Hne.
    destruct (insert_rep h z xs rs rs' lv s e Hz Hnan He Hlen Hne Hr) as (h' & z' & x & -> & _ & _ & Hz' & _).
    cbn [mbind option_bind]. eexists _, _, _. split; [done|]. split; [exact Hz'|]. split.
    + rewrite fmap_app, fmap_cons, !filter_fmap_key. done.
    + pose proof (sorted_split (smaller (s, e)) xs (rep_sorted _ _ _ Hz) (λ a b _ _, smaller_down _ a b)) as Hxs.
      apply (f_equal zlen) in Hxs. rewrite zlen_app in *. rewrite zlen_cons. lia.
  - destruct Hok as [Hnan He]. destruct (delete_rep h z xs s e false Hz Hnan He) as (h' & z' & r & -> & Hr).
    cbn [mbind option_bind]. eexists _, _. rewrite filter_fmap_key. destruct r as [x|].
    + destruct Hr as (l1 & xi & l2 & -> & <- & Hk & _ & Hz' & _). exists (l1 ++ l2).
      rewrite keq_only by (done || apply (rep_sorted _ _ _ Hz)). split_and!; [|done|done|zl].
      rewrite !bool_decide_eq_true_2; [done| |done]. rewrite fmap_app, Exists_app, fmap_cons, Exists_cons. auto.
    + destruct Hr as (Hno & -> & ->). exists xs. rewrite filter_all by (by apply Forall_forall).
      split_and!; [|done|done|lia]. rewrite !bool_decide_eq_false_2; [done| |by intros [? ?]].
      rewrite Exists_fmap, Exists_exists. intros (it & Hin & Hk). rewrite Forall_forall in Hno. by apply (Hno it).
Qed.

Lemma zops_refine `{Uninit} os : ∀ h z xs,
  zsl_rep h z xs → zops_ok os (ikey <$> xs) → zlen xs + zlen os < 2 ^ 32 →
  ∃ h' z' xs', run_zops os (h, z) = Some (h', z', (spec_zops os (ikey <$> xs)).2) ∧ zsl_rep h' z' xs' ∧
    ikey <$> xs' = (spec_zops os (ikey <$> xs)).1.
Proof.
  induction os as [|o os IH]; intros h z xs Hz Hok Hlen; [by exists h, z, xs|].
  cbn [run_zops spec_zops zops_ok] in *. destruct Hok as [Ho Hos]. rewrite zlen_cons in Hlen. zlen_pos.
  destruct (zop_refines o h z xs Hz Ho ltac:(lia)) as (h1 & z1 & xs1 & -> & Hz1 & Hk1 & Hl1). cbn [mbind option_bind].
  destruct (spec_zop o (ikey <$> xs)) as [l b] eqn:E. simpl in *. subst l.
  destruct (IH h1 z1 xs1 Hz1 Hos ltac:(lia)) as (h' & z' & xs' & -> & Hz' & Hk'). cbn [mbind option_bind].
  exists h', z', xs'. destruct (spec_zops os (ikey <$> xs1)) as [l' bs]. done.
Qed.

(** C12: any sequence of insertions and deletions on a new skip list runs
    without a fault, answers as the same operations on a list ordered by score
    and string, and leaves a well formed list (every level, span, back pointer,
    the tail and the length) that holds exactly these keys in this order. *)
Theorem zskiplist_refines_sorted_list `{Uninit} h os :
  zops_ok os [] → zlen os < 2 ^ 32 →
  ∃ h0 z0 h' z' xs, zslCreate h = Some (h0, z0) ∧
    run_zops os (h0, z0) = Some (h', z', (spec_zops os []).2) ∧ zsl_rep h' z' xs ∧
    ikey <$> xs = (spec_zops os []).1.
Proof.
  intros Hok Hlen. destruct (create_rep h) as (h0 & z0 & Hc & Hz0 & _).
  destruct (zops_refine os h0 z0 [] Hz0 Hok ltac:(done)) as (h' & z' & xs & Hrun & Hz & Hk).
  by exists h0, z0, h', z', xs.
Qed.

(** C17: an insertion keeps the invariant of the list: with a level from
    [zslRandomLevel], between 1 and 32, the new node is linked at its place in
    every level, spans count the nodes they skip and no other list or node is
    touched. *)
Theorem zslInsert_invariant `{Uninit} h z xs rs rs' lv s e :
  zsl_rep h z xs → isnan s = false → zlen e < 2 ^ 31 → zlen xs + 1 < 2 ^ 32 →
  Forall (λ it, ¬ keq (ikey it) (s, e)) xs → zslRandomLevel rs = Some (lv, rs') →
  (1 ≤ lv ≤ ZSKIPLIST_MAXLEVEL)%nat ∧
  ∃ h' z' x l1 l2, zslInsert h z rs s e = Some (h', z', x, rs') ∧ xs = l1 ++ l2 ∧ x ∉ dom h ∧
    zsl_rep h' z' (l1 ++ Item x lv s (Some e) :: l2) ∧
    (∀ a, a ∉ header z :: (addr <$> xs) → a ≠ x → h' !! a = h !! a).
Proof.
  intros Hz Hnan He Hlen Hne Hr. split; [by eapply random_level_bound|].
  destruct (insert_rep h z xs rs rs' lv s e Hz Hnan He Hlen Hne Hr) as (h' & z' & x & Hrun & Hx & _ & Hz' & Hfr).
  exists h', z', x. eexists _, _. split; [exact Hrun|]. split; [|by split_and!].
  apply (sorted_split (smaller (s, e))); [apply (rep_sorted _ _ _ Hz)|]. intros a b _ _. apply smaller_down.
Qed.

(** A deletion unlinks the node with this score and string, frees it or
    hands it over, and leaves every other node of the memory; without such a
    node nothing changes. *)
Theorem zslDelete_correct h z xs s e (keep : bool) :
  zsl_rep h z xs → isnan s = false → zlen e < 2 ^ 31 →
  ∃ h' z' r, zslDelete h z s e keep = Some (h', z', r) ∧
  match r with
  | Some x => ∃ l1 xi l2, xs = l1 ++ xi :: l2 ∧ addr xi = x ∧ keq (ikey xi) (s, e) ∧
      zsl_rep h' z' (l1 ++ l2) ∧ h' !! x = (if keep then h !! x else None) ∧
      ∀ a, a ∉ header z :: (addr <$> xs) → h' !! a = h !! a
  | None => Forall (λ it, ¬ keq (ikey it) (s, e)) xs ∧ h' = h ∧ z' = z
  end.
Proof.
  intros Hz Hnan He. destruct (delete_rep h z xs s e keep Hz Hnan He) as (h' & z' & r & Hrun & Hr).
  exists h', z', r. split; [done|]. destruct r as [x|]; [|done].
  destruct Hr as (l1 & xi & l2 & Hxs & <- & Hk & _ & Hz' & Hx & Hfr). exists l1, xi, l2. by split_and!.
Qed.

(** When the strings of the list are all different, the rank of a pair that
    is in the list is its position counted from 1, the element of that rank is
    its node, and a string that is not in the list has rank 0. *)
Theorem zslGetRank_correct h z xs s e :
  zsl_rep h z xs → isnan s = false → zlen e < 2 ^ 31 → NoDup (strings xs) →
  (∀ p xi q, xs = p ++ xi :: q → keq (ikey xi) (s, e) →
     zslGetRank h z s e = Some (zlen p + 1) ∧ zslGetElementByRank h z (zlen p + 1) = Some (Some (addr xi))) ∧
  (e ∉ strings xs → zslGetRank h z s e = Some 0) ∧
  (∀ rank, zlen xs < rank → zslGetElementByRank h z rank = Some None).
Proof.
  intros Hz Hnan He Hnd. destruct (get_rank h z xs s e Hz Hnan He) as (r & -> & Hor & Hno). split_and!.
  - intros p xi q Hxs Hk. split.
    + destruct Hor as [->|(p' & xi' & q' & Hxs' & Hq & _ & ->)].
      { specialize (Hno eq_refl). rewrite Hxs in Hno. apply Forall_app in Hno as [_ [Hno _]%Forall_cons]. done. }
      do 2 f_equal. unfold zlen. f_equal. apply (NoDup_lookup _ _ _ e Hnd); unfold strings.
      * rewrite Hxs', list_lookup_fmap, list_lookup_middle by done. simpl. by rewrite <-Hq.
      * rewrite Hxs, list_lookup_fmap, list_lookup_middle by done. destruct Hk as [_ Hk2]. cbn in Hk2 |- *. by rewrite Hk2.
    + pose proof (zlen_nonneg p). rewrite (get_element h z xs) by (apply Hz || lia). do 2 f_equal.
      replace (Z.to_nat (zlen p + 1)) with (S (Datatypes.length p)) by (unfold zlen; lia).
      rewrite lookup_cons_ne_0 by done. cbn [Nat.pred]. rewrite Hxs. by rewrite list_lookup_middle.
  - intros Hnin. f_equal. destruct Hor as [->|(p & xi & q & -> & Hq & _)]; [done|]. exfalso. apply Hnin.
    unfold strings. rewrite <-Hq. apply (list_elem_of_fmap_2 (λ it, (ikey it).2)). set_solver.
  - intros rank Hrank. zlen_pos. rewrite (get_element h z xs) by (apply Hz || lia).
    rewrite lookup_ge_None_2; [done|]. unfold zlen in *. simpl. lia.
Qed.

(** [zslFirstInRange] and [zslLastInRange] return the first and the last
    node whose score is in the range (bounds included or not), and NULL exactly
    when no score is. *)
Theorem zslInRange_correct h z xs range :
  zsl_rep h z xs → isnan (rmin range) = false → isnan (rmax range) = false →
  let inside := within xs (above_min range) (below_max range) in
  zslFirstInRange h z range = Some (addr <$> head inside) ∧
  zslLastInRange h z range = Some (addr <$> last inside).
Proof.
  intros Hz Hmin Hmax inside. unfold zslFirstInRange, zslLastInRange, zslIsInRange.
  destruct (_ || _) eqn:Hempty; cbn [mbind option_bind negb].
  { unfold inside. by rewrite empty_range. }
  destruct (ends_ok h z xs Hz (above_min range) (below_max range) (score_gte range) (score_lte range)) as (b & -> & Hb);
    eauto using above_min_up, below_max_down, gte_spec, lte_spec.
  cbn [mbind option_bind]. destruct b; cbn [negb].
  - destruct Hb as [(l & y & Hl & Hy) (y' & l' & Hl' & Hy')].
    rewrite (first_in_ok h z xs Hz (above_min range) (below_max range)) with (l := l) (y := y);
      eauto using above_min_up, below_max_down, gte_spec, lte_spec.
    rewrite (last_in_ok h z xs Hz (above_min range) (below_max range)) with (l := l') (y := y');
      eauto using above_min_up, below_max_down, gte_spec, lte_spec.
  - unfold inside. by rewrite Hb.
Qed.

Section DeleteTheorems.
Context {D E : Type} `{!Table D E bytes ptr} `{!TableOk D E bytes ptr}.
Implicit Types (h : heap) (z : zskiplist) (xs : list item) (d : D) (dm : gmap bytes ptr).

(** What the three functions that delete a range of nodes do: the nodes of
    [gone] are freed and their strings leave the dictionary, the others stay. *)
Definition purged (h : heap) (z : zskiplist) (xs gone kept : list item) (dm : gmap bytes ptr)
    (res : option (heap * zskiplist * D * Z)) : Prop :=
  ∃ h' z' d', res = Some (h', z', d', zlen gone) ∧ zsl_rep h' z' kept ∧
    (∃ dm', table_rep d' dm' ∧ ∀ k, dm' !! k = if decide (k ∈ strings gone) then None else dm !! k) ∧
    (∀ it, it ∈ gone → h' !! addr it = None) ∧
    (∀ a, a ∉ header z :: (addr <$> xs) → h' !! a = h !! a).

Lemma purged_intro h z (xs : list item) (d' : D) (dm : gmap bytes ptr) l1 m r h' z' res :
  res = Some (h', z', d', zlen m) → xs = l1 ++ m ++ r →
  range_deleted h h' z z' d' dm l1 m r → purged h z xs m (l1 ++ r) dm res.
Proof.
  intros Hres Hxs [_ Hrep Htab Hfreed Hframe]. exists h', z', d'. split; [done|]. split; [done|].
  split; [|split; [done|by rewrite Hxs]]. eexists. split; [exact Htab|]. intros k. apply lookup_remove_keys.
Qed.

(** [zslDeleteRangeByScore] removes exactly the nodes with a score in the
    range, from the list and from the dictionary, and returns their number. *)
Theorem zslDeleteRangeByScore_correct h z xs (d : D) dm range :
  zsl_rep h z xs → table_rep d dm → isnan (rmin range) = false → isnan (rmax range) = false →
  purged h z xs (within xs (above_min range) (below_max range))
    (filter (λ it, ¬ (above_min range it ∧ below_max range it)) xs) dm
    (zslDeleteRangeByScore h z range d).
Proof.
  intros Hz Hd Hmin Hmax. unfold zslDeleteRangeByScore.
  edestruct (delete_within h z xs d dm (above_min range) (below_max range)) as (h' & z' & d' & l1 & r & Hrun & Hxs & Hk & Hdel);
    [done|done|eauto using above_min_up|eauto using below_max_down| | |rewrite <-Hk; by eapply purged_intro].
  - intros it n r [Hn _] _ Hsc. eexists. split; [done|]. unfold above_min. rewrite Hsc.
    destruct (minex range); rewrite ?dlt_spec, ?dle_spec, bool_decide_eq_true by done; [done|].
    split; [tauto|apply dec_stable].
  - intros it n r [Hn _] _ Hsc. eexists. split; [done|]. unfold below_max. rewrite Hsc.
    destruct (maxex range); rewrite ?dlt_spec, ?dle_spec, bool_decide_eq_true by done; done.
Qed.

(** [zslDeleteRangeByRank] removes exactly the nodes whose 1-based rank is
    between [start] and [stop] and returns their number. *)
Theorem zslDeleteRangeByRank_correct h z xs (d : D) dm start stop :
  zsl_rep h z xs → table_rep d dm → 1 ≤ start ≤ stop → stop < 2 ^ 32 →
  let l1 := take (Z.to_nat (start - 1)) xs in
  let rest := drop (Z.to_nat (start - 1)) xs in
  let n := Z.to_nat (stop - start + 1) in
  purged h z xs (take n rest) (l1 ++ drop n rest) dm (zslDeleteRangeByRank h z start stop d).
Proof.
  intros Hz Hd Hs Hstop l1 rest n. unfold zslDeleteRangeByRank.
  assert (xs = l1 ++ take n rest ++ drop n rest) as Hxs by (unfold l1, rest; by rewrite !take_drop).
  assert (zlen l1 = Z.min (start - 1) (zlen xs)) as Hl1 by (unfold l1; rewrite zlen_take; lia).
  assert (zlen rest = Z.max 0 (zlen xs - (start - 1))) as Hlr by (unfold rest; rewrite zlen_drop; lia).
  assert (zlen (take n rest) = Z.min (stop - start + 1) (zlen rest)) as Hln.
  { unfold zlen, n. rewrite length_take. lia. }
  destruct (delete_range_ok h z xs d dm l1 (take n rest) (drop n rest) (λ _ t, Some (t <? start)) (λ _ t, Some (t <=? stop)))
    as (h' & z' & d' & Hrun & Hdel); [done|done|done| | | |by eapply purged_intro].
  - rewrite take_drop. split.
    + intros a it b nd Heq Hne _ _. f_equal. apply Z.ltb_lt. apply (f_equal zlen) in Heq. rewrite zlen_cons in Heq. zl.
    + intros a it b nd Heq _ _. f_equal. apply Z.ltb_ge. rewrite zlen_cons. rewrite Heq in Hlr. zl.
  - intros a it b nd Heq _ _. f_equal. apply Z.leb_le. rewrite Heq in Hln. zl.
  - intros it r' nd Heq _ _. f_equal. apply Z.leb_gt.
    assert (zlen rest = zlen (take n rest) + zlen (drop n rest)) as Hsum by (rewrite <-zlen_app, take_drop; done).
    rewrite Heq in Hsum. rewrite zlen_cons in Hsum. zlen_pos. lia.
Qed.
End DeleteTheorems.

(** ** Ranges of strings *)
Definition bound_len (a : lexstr) : Prop := zlen (lex_contents a) < 2 ^ 31.

Definition above_lmin (range : zlexrangespec) (it : item) : Prop := zslLexValueGteMin (ikey it).2 range = true.
Definition below_lmax (range : zlexrangespec) (it : item) : Prop := zslLexValueLteMax (ikey it).2 range = true.
#[export] Instance above_lmin_dec range it : Decision (above_lmin range it).
Proof. unfold above_lmin. apply _. Defined.
#[export] Instance below_lmax_dec range it : Decision (below_lmax range it).
Proof. unfold below_lmax. apply _. Defined.

Section LexRange.
Context (range : zlexrangespec) (Hmin : bound_len (lmin range)) (Hmax : bound_len (lmax range)).
Context (xs : list item) (Hgood : Forall good xs) (Hsame : ∀ a b, a ∈ xs → b ∈ xs → feq (sc a) (sc b)).

Lemma lex_order a b : a ∈ xs → b ∈ xs → ilt a b →
  lex (ikey a).2 (ikey b).2 = -1 ∧ zlen (ikey a).2 < 2 ^ 31 ∧ zlen (ikey b).2 < 2 ^ 31.
Proof using Hgood Hsame.
  intros Ha Hb Hab. rewrite Forall_forall in Hgood. split_and!; [|by apply good_len, Hgood..].
  destruct Hab as [Hf|[_ ?]]; [|done]. exfalso. apply (flt_irrefl (sc a)). eapply flt_feq; [exact Hf|]. by apply Hsame.
Qed.

(** The comparison with a bound respects the order. *)
Lemma cmplex_mono a b c : lex a b = -1 → zlen a < 2 ^ 31 → zlen b < 2 ^ 31 → bound_len c →
  (0 ≤ sdscmplex (lexsds a) c → 0 < sdscmplex (lexsds b) c ∨ c = minstring) ∧
  (sdscmplex (lexsds b) c ≤ 0 → sdscmplex (lexsds a) c < 0 ∨ c = maxstring).
Proof using.
  intros Hab Ha Hb Hc. destruct c as [| |c]; simpl; [by auto with lia|by auto with lia|]. unfold bound_len in Hc. simpl in Hc.
  destruct (cmp_bytes_lex a c Ha Hc) as [E1 _], (cmp_bytes_lex b c Hb Hc) as [E2 _].
  pose proof (lex_opp a b) as O1. pose proof (lex_opp a c) as O2. pose proof (lex_opp b c) as O3.
  destruct (lex_range a c) as [L1|[L1|L1]], (lex_range b c) as [L2|[L2|L2]]; split; intros Hx; left; try lia; exfalso.
  all: first [ apply lex_0 in L1; subst; lia | apply lex_0 in L2; subst; lia
             | pose proof (lex_trans c a b ltac:(lia) Hab); lia | pose proof (lex_trans a b c Hab L2); lia ].
Qed.

Lemma above_lmin_up a b : a ∈ xs → b ∈ xs → ilt a b → above_lmin range a → above_lmin range b.
Proof using Hmin Hgood Hsame.
  intros Ha Hb Hab. destruct (lex_order a b Ha Hb Hab) as (Hl & La & Lb).
  destruct (cmplex_mono _ _ _ Hl La Lb Hmin) as [Hm _]. unfold above_lmin, zslLexValueGteMin.
  destruct (lminex range); rewrite ?Z.ltb_lt, ?Z.leb_le; intros Hx;
    (destruct (Hm ltac:(lia)) as [?|Hc]; [lia|rewrite Hc; simpl; lia]).
Qed.

Lemma below_lmax_down a b : a ∈ xs → b ∈ xs → ilt a b → below_lmax range b → below_lmax range a.
Proof using Hmax Hgood Hsame.
  intros Ha Hb Hab. destruct (lex_order a b Ha Hb Hab) as (Hl & La & Lb).
  destruct (cmplex_mono _ _ _ Hl La Lb Hmax) as [_ Hm]. unfold below_lmax, zslLexValueLteMax.
  destruct (lmaxex range); rewrite ?Z.ltb_lt, ?Z.leb_le; intros Hx;
    (destruct (Hm ltac:(lia)) as [?|Hc]; [lia|rewrite Hc; simpl; lia]).
Qed.

Lemma lex_gte_spec it n : good it → ele n = el it →
  ∃ b, lex_gte range n = Some b ∧ (b = true ↔ above_lmin range it).
Proof using. intros Hg Hel. unfold lex_gte. rewrite Hel, (good_ele _ Hg). by eexists. Qed.

Lemma lex_lte_spec it n : good it → ele n = el it →
  ∃ b, lex_lte range n = Some b ∧ (b = true ↔ below_lmax range it).
Proof using. intros Hg Hel. unfold lex_lte. rewrite Hel, (good_ele _ Hg). by eexists. Qed.

(** The bounds have the same contents only when they are the same bound. *)
Definition distinct_bounds : Prop :=
  lex_contents (lmin range) = lex_contents (lmax range) → lmin range = lmax range.

Lemma empty_lex_range :
  distinct_bounds →
  (1 <? sdscmplex (lmin range) (lmax range)) ||
    ((cmp_bytes (lex_contents (lmin range)) (lex_contents (lmax range)) =? 0) && (lminex range || lmaxex range)) = true →
  within xs (above_lmin range) (below_lmax range) = [].
Proof using Hmin Hmax Hgood.
  intros Hd Hr. apply filter_none. intros it Hin [Ha Hb]. rewrite Forall_forall in Hgood.
  pose proof (good_len it (Hgood it Hin)) as Hlen. unfold above_lmin, below_lmax, zslLexValueGteMin, zslLexValueLteMax in *.
  set (v := (ikey it).2) in *. apply orb_true_iff in Hr as [Hr%Z.ltb_lt|[Hr Hx]%andb_true_iff].
  - destruct (lmin range) as [| |a] eqn:Ea, (lmax range) as [| |b] eqn:Eb; simpl in Hr; try lia.
    unfold bound_len in *. simpl in Hmin, Hmax. destruct (cmp_bytes_lex a b Hmin Hmax) as [E _].
    assert (lex b a = -1) as Hba by (rewrite lex_opp; lia).
    destruct (cmplex_mono b a (lexsds v) Hba Hmax Hmin Hlen) as [M1 M2]. simpl in *.
    destruct (cmp_bytes_lex v a Hlen Hmin) as [V1 _], (cmp_bytes_lex v b Hlen Hmax) as [V2 _].
    destruct (cmp_bytes_lex b v Hmax Hlen) as [V3 _], (cmp_bytes_lex a v Hmin Hlen) as [V4 _].
    pose proof (lex_opp v a). pose proof (lex_opp v b).
    assert (0 ≤ cmp_bytes v a) by (destruct (lminex range); lia). assert (cmp_bytes v b ≤ 0) by (destruct (lmaxex range); lia).
    destruct M1; [lia|lia|done].
  - rewrite cmp_eq, bool_decide_eq_true in Hr by done. rewrite (Hd Hr) in *.
    destruct (lmax range) as [| |b] eqn:Eb; simpl in *; [destruct (lmaxex range); lia|destruct (lminex range); lia|].
    destruct (lminex range), (lmaxex range); simpl in Hx; lia.
Qed.
End LexRange.

(** When all scores are equal, and the bounds do not have the same contents
    by accident, [zslFirstInLexRange] and [zslLastInLexRange] return the first
    and the last node whose string is in the range, or NULL when there is
    none. *)
Theorem zslInLexRange_correct h z xs range :
  zsl_rep h z xs → (∀ a b, a ∈ xs → b ∈ xs → feq (sc a) (sc b)) →
  bound_len (lmin range) → bound_len (lmax range) → distinct_bounds range →
  let inside := within xs (above_lmin range) (below_lmax range) in
  zslFirstInLexRange h z range = Some (addr <$> head inside) ∧
  zslLastInLexRange h z range = Some (addr <$> last inside).
Proof.
  intros Hz Hsame Hmin Hmax Hd inside. pose proof (rep_good _ _ _ Hz) as Hg.
  unfold zslFirstInLexRange, zslLastInLexRange, zslIsInLexRange.
  destruct (_ || _) eqn:Hempty; cbn [mbind option_bind negb].
  { unfold inside. by rewrite empty_lex_range. }
  destruct (ends_ok h z xs Hz (above_lmin range) (below_lmax range) (lex_gte range) (lex_lte range)) as (b & -> & Hb);
    eauto using above_lmin_up, below_lmax_down, lex_gte_spec, lex_lte_spec.
  cbn [mbind option_bind]. destruct b; cbn [negb].
  - destruct Hb as [(l & y & Hl & Hy) (y' & l' & Hl' & Hy')].
    rewrite (first_in_ok h z xs Hz (above_lmin range) (below_lmax range)) with (l := l) (y := y);
      eauto using above_lmin_up, below_lmax_down, lex_gte_spec, lex_lte_spec.
    rewrite (last_in_ok h z xs Hz (above_lmin range) (below_lmax range)) with (l := l') (y := y');
      eauto using above_lmin_up, below_lmax_down, lex_gte_spec, lex_lte_spec.
  - unfold inside. by rewrite Hb.
Qed.

Section DeleteLex.
Context {D E : Type} `{!Table D E bytes ptr} `{!TableOk D E bytes ptr}.
Implicit Types (h : heap) (z : zskiplist) (xs : list item) (d : D) (dm : gmap bytes ptr).

(** [zslDeleteRangeByLex] removes exactly the nodes with a string in the range
    when all scores are equal. *)
Lemma zslDeleteRangeByLex_ok h z xs d dm range :
  zsl_rep h z xs → table_rep d dm → (∀ a b, a ∈ xs → b ∈ xs → feq (sc a) (sc b)) →
  bound_len (lmin range) → bound_len (lmax range) →
  purged h z xs (within xs (above_lmin range) (below_lmax range))
    (filter (λ it, ¬ (above_lmin range it ∧ below_lmax range it)) xs) dm
    (zslDeleteRangeByLex h z range d).
Proof.
  intros Hz Hd Hsame Hmin Hmax. unfold zslDeleteRangeByLex. pose proof (rep_good _ _ _ Hz) as Hg.
  edestruct (delete_within h z xs d dm (above_lmin range) (below_lmax range)) as (h' & z' & d' & l1 & r & Hrun & Hxs & Hk & Hdel);
    [done|done|eauto using above_lmin_up|eauto using below_lmax_down| | |rewrite <-Hk; by eapply purged_intro].
  - intros it n r Hgi Hel _. destruct (lex_gte_spec range it n Hgi Hel) as (b & -> & Hb). exists (negb b). split; [done|].
    rewrite negb_true_iff, <-not_true_iff_false, Hb. done.
  - intros it n r Hgi Hel _. by apply lex_lte_spec.
Qed.
End DeleteLex.

(** ** Examples *)
#[export] Instance zeros : Uninit := {| junk_level := λ _, Level None 0; junk_backward := None |}.

(** The double nearest to [n]. *)
Definition dbl (n : positive) : spec_float := binary_normalize 53 1024 (Z.pos n) 0 false.
Definition str (s : string) : bytes := bytes_of s.

Definition demo_zops : list zop :=
  [ZInsert [1; 2; 65535] (dbl 7) (str "seven"); ZInsert [65535] (dbl 3) (str "three");
   ZInsert [1; 1; 1; 65535] (dbl 5) (str "five"); ZInsert [65535] (dbl 5) (str "cinq");
   ZDelete (dbl 3) (str "three"); ZDelete (dbl 4) (str "seven")].

(** The list after a session in an empty memory. *)
Definition session (os : list zop) : heap * zskiplist :=
  default (∅, Zskiplist 1 None 0 1) (st ← zslCreate ∅; fst <$> run_zops os st).

Lemma session_rep os :
  bool_decide (zops_ok os []) = true → zlen os < 2 ^ 32 →
  ∃ xs, zsl_rep (session os).1 (session os).2 xs ∧ ikey <$> xs = (spec_zops os []).1.
Proof.
  intros Hok%bool_decide_eq_true Hlen. destruct (create_rep ∅) as (h0 & z0 & Hc & Hz0 & _).
  destruct (zops_refine os h0 z0 [] Hz0 Hok Hlen) as (h & z & xs & Hrun & Hz & Hk).
  exists xs. split; [|exact Hk]. unfold session. rewrite Hc. cbn [mbind option_bind]. rewrite Hrun. exact Hz.
Qed.

Definition demo_zsl : heap * zskiplist := session demo_zops.

(** The comment of [zslGetRank] asks for the rank of the pair of a score and
    a string and 0 when it is not found; the last test compares the string only,
    so for a higher score than that of the element the function returns the
    rank of the element all the same. *)
Theorem zslGetRank_ignores_score :
  ∃ h z xi, zsl_rep h z [xi] ∧ ¬ keq (ikey xi) (dbl 9, str "seven") ∧
    zslGetRank h z (dbl 9) (str "seven") = Some 1.
Proof.
  destruct (session_rep [ZInsert [65535] (dbl 7) (str "seven")]) as (xs & Hz & Hk); [by vm_compute..|].
  destruct xs as [|xi [|? ?]]; [discriminate Hk| |discriminate Hk]. cbn in Hk. injection Hk as Hs He.
  eexists _, _, xi. split; [exact Hz|]. split; [|by vm_compute].
  unfold keq, ikey, feq. simpl. rewrite Hs. by intros [[=] _].
Qed.

(** [zslIsInLexRange] compares the contents of the bounds with [sdscmp], the
    shared object for "-" (whose contents are "minstring") included: the range
    from "-" to "(minstring" is taken for an empty one, although "apple" is
    between its bounds. *)
Theorem zslInLexRange_minstring :
  ∃ h z xi range, zsl_rep h z [xi] ∧
    zslParseLexRange (str "-") (str "(minstring") = Some (Some range) ∧
    above_lmin range xi ∧ below_lmax range xi ∧ zslFirstInLexRange h z range = Some None.
Proof.
  destruct (session_rep [ZInsert [65535] (dbl 1) (str "apple")]) as (xs & Hz & Hk); [by vm_compute..|].
  destruct xs as [|xi [|? ?]]; [discriminate Hk| |discriminate Hk]. cbn in Hk. injection Hk as Hs He.
  eexists _, _, xi, _. split; [exact Hz|]. split; [reflexivity|]. unfold above_lmin, below_lmax. simpl. rewrite He.
  split_and!; by vm_compute.
Qed.

(** ** Witnesses *)
Lemma demo_rep :
  ∃ a b c, zsl_rep demo_zsl.1 demo_zsl.2 [a; b; c] ∧ ikey a = (dbl 5, str "cinq") ∧
    ikey b = (dbl 5, str "five") ∧ ikey c = (dbl 7, str "seven").
Proof.
  destruct (session_rep demo_zops) as (xs & Hz & Hk); [by vm_compute..|].
  replace (spec_zops demo_zops []).1 with [(dbl 5, str "cinq"); (dbl 5, str "five"); (dbl 7, str "seven")] in Hk by reflexivity.
  destruct xs as [|a [|b [|c [|? ?]]]]; [discriminate Hk..| |discriminate Hk].
  exists a, b, c. split; [exact Hz|]. unfold ikey in Hk |- *. cbn [fmap list_fmap] in Hk.
  injection Hk as A1 A2 B1 B2 C1 C2. by rewrite A1, A2, B1, B2, C1, C2.
Qed.

Lemma zskiplist_refines_sorted_list_witness :
  ∃ h0 z0 h' z' xs, zslCreate ∅ = Some (h0, z0) ∧
    run_zops demo_zops (h0, z0) = Some (h', z', [true; true; true; true; true; false]) ∧ zsl_rep h' z' xs ∧
    ikey <$> xs = [(dbl 5, str "cinq"); (dbl 5, str "five"); (dbl 7, str "seven")].
Proof.
  destruct (zskiplist_refines_sorted_list ∅ demo_zops) as (h0 & z0 & h' & z' & xs & H1 & H2 & H3 & H4);
    [apply (bool_decide_unpack _); by vm_compute|by vm_compute|].
  exists h0, z0, h', z', xs. split; [exact H1|]. split; [rewrite H2; reflexivity|]. split; [exact H3|].
  rewrite H4. reflexivity.
Defined.

Lemma zslInsert_invariant_witness :
  ∃ h' z' x xs, zslInsert demo_zsl.1 demo_zsl.2 [65535] (dbl 6) (str "six") = Some (h', z', x, []) ∧ zsl_rep h' z' xs.
Proof.
  destruct demo_rep as (a & b & c & Hz & Ka & Kb & Kc).
  destruct (zslInsert_invariant demo_zsl.1 demo_zsl.2 [a; b; c] [65535] [] 1 (dbl 6) (str "six") Hz)
    as (_ & h' & z' & x & l1 & l2 & Hrun & _ & _ & Hz' & _); [done|by vm_compute|by vm_compute| |by vm_compute|].
  - repeat constructor; rewrite ?Ka, ?Kb, ?Kc; apply (bool_decide_unpack _); by vm_compute.
  - exists h', z', x. eexists. split; [exact Hrun|exact Hz'].
Defined.

Lemma zslDelete_correct_witness :
  ∃ h' z' xs, zslDelete demo_zsl.1 demo_zsl.2 (dbl 7) (str "seven") false = Some (h', z', Some 2%positive) ∧
    zsl_rep h' z' xs ∧ h' !! 2%positive = None.
Proof.
  destruct demo_rep as (a & b & c & Hz & Ka & Kb & Kc).
  destruct (zslDelete_correct demo_zsl.1 demo_zsl.2 [a; b; c] (dbl 7) (str "seven") false Hz) as (h' & z' & r & Hrun & Hr);
    [done|by vm_compute|].
  assert (r = Some 2%positive) as ->.
  { assert (snd <$> zslDelete demo_zsl.1 demo_zsl.2 (dbl 7) (str "seven") false = Some r) as Hs by (rewrite Hrun; reflexivity).
    vm_compute in Hs. by injection Hs as <-. }
  destruct Hr as (l1 & xi & l2 & _ & _ & _ & Hz' & Hx & _). exists h', z', (l1 ++ l2). split; [exact Hrun|]. split; [exact Hz'|exact Hx].
Defined.

Lemma zslGetRank_correct_witness :
  zslGetRank demo_zsl.1 demo_zsl.2 (dbl 5) (str "five") = Some 2.
Proof.
  destruct demo_rep as (a & b & c & Hz & Ka & Kb & Kc).
  refine (proj1 (proj1 (zslGetRank_correct demo_zsl.1 demo_zsl.2 [a; b; c] (dbl 5) (str "five") Hz _ _ _) [a] b [c] _ _)).
  - reflexivity.
  - by vm_compute.
  - unfold strings. cbn [fmap list_fmap]. rewrite Ka, Kb, Kc. apply (bool_decide_unpack _). by vm_compute.
  - reflexivity.
  - rewrite Kb. split; reflexivity.
Defined.

Definition demo_range : zrangespec := Zrangespec (dbl 5) (dbl 7) true false.

Lemma demo_within a b c : ikey a = (dbl 5, str "cinq") → ikey b = (dbl 5, str "five") → ikey c = (dbl 7, str "seven") →
  within [a; b; c] (above_min demo_range) (below_max demo_range) = [c].
Proof.
  destruct a, b, c. unfold ikey. simpl. intros [= -> _] [= -> _] [= -> _]. reflexivity.
Qed.

Lemma zslInRange_correct_witness :
  ∃ x, zslFirstInRange demo_zsl.1 demo_zsl.2 demo_range = Some (Some x) ∧ zslLastInRange demo_zsl.1 demo_zsl.2 demo_range = Some (Some x).
Proof.
  destruct demo_rep as (a & b & c & Hz & Ka & Kb & Kc). exists (addr c).
  pose proof (zslInRange_correct demo_zsl.1 demo_zsl.2 [a; b; c] demo_range Hz eq_refl eq_refl) as Hin.
  cbv zeta in Hin. rewrite (demo_within a b c Ka Kb Kc) in Hin. exact Hin.
Defined.

(** A dictionary type for strings. *)
Definition demo_type : Dict.dictType bytes ptr := Dict.DictType (λ k, uwrap 64 (zlen k)) None None None false false.
#[export] Instance demo_type_ok : DictTypeOk demo_type.
Proof. split; [|done..]. intros k. simpl. by apply uwrap_bound. Qed.
#[export] Instance demo_table_ok : TableOk (Dict.store bytes ptr * Dict.dict bytes ptr) ptr bytes ptr :=
  dict_table_ok demo_type eq_refl.

(** The dictionary that goes with the example. *)
Definition demo_dict : Dict.store bytes ptr * Dict.dict bytes ptr :=
  default (Dict.Store ∅ [] [] true, Dict.dictCreate demo_type)
    (d ← table_add (Dict.Store ∅ [] [] true, Dict.dictCreate demo_type) (str "seven") 2%positive; Some d.1).

Lemma demo_dict_rep : table_rep demo_dict (<[str "seven" := 2%positive]> ∅).
Proof.
  destruct (table_add_ok (Dict.Store ∅ [] [] true, Dict.dictCreate demo_type) ∅ (str "seven") 2%positive) as (d & Hrun & Hd);
    [split; [apply DictRefine.create_ok|done]|by vm_compute|done|].
  unfold demo_dict. rewrite Hrun. exact Hd.
Qed.

Lemma zslDeleteRangeByScore_correct_witness :
  ∃ a b c, purged demo_zsl.1 demo_zsl.2 [a; b; c] [c] [a; b] (<[str "seven" := 2%positive]> ∅)
    (zslDeleteRangeByScore demo_zsl.1 demo_zsl.2 demo_range demo_dict).
Proof.
  destruct demo_rep as (a & b & c & Hz & Ka & Kb & Kc). exists a, b, c.
  pose proof (zslDeleteRangeByScore_correct demo_zsl.1 demo_zsl.2 [a; b; c] demo_dict _ demo_range Hz demo_dict_rep eq_refl eq_refl) as Hp.
  rewrite (demo_within a b c Ka Kb Kc) in Hp. revert Hp Ka Kb Kc. clear Hz.
  destruct a, b, c. unfold ikey. simpl. intros Hp [= -> _] [= -> _] [= -> _]. exact Hp.
Defined.

Lemma zslDeleteRangeByRank_correct_witness :
  ∃ a b c, purged demo_zsl.1 demo_zsl.2 [a; b; c] [b; c] [a] (<[str "seven" := 2%positive]> ∅)
    (zslDeleteRangeByRank demo_zsl.1 demo_zsl.2 2 5 demo_dict).
Proof.
  destruct demo_rep as (a & b & c & Hz & _). exists a, b, c.
  refine (zslDeleteRangeByRank_correct demo_zsl.1 demo_zsl.2 [a; b; c] demo_dict _ 2 5 Hz demo_dict_rep _ _); by vm_compute.
Defined.

(** All scores equal: "a", "b" and "d", and the range from "[b" to "(d". *)
Definition lex_zops : list zop :=
  [ZInsert [65535] (dbl 1) (str "d"); ZInsert [1; 65535] (dbl 1) (str "b"); ZInsert [65535] (dbl 1) (str "a")].
Definition lex_range_bd : zlexrangespec := Zlexrangespec (lexsds (str "b")) (lexsds (str "d")) false true.

Lemma zslInLexRange_correct_witness :
  zslParseLexRange (str "[b") (str "(d") = Some (Some lex_range_bd) ∧
  ∃ x, zslFirstInLexRange (session lex_zops).1 (session lex_zops).2 lex_range_bd = Some (Some x) ∧
       zslLastInLexRange (session lex_zops).1 (session lex_zops).2 lex_range_bd = Some (Some x).
Proof.
  split; [reflexivity|]. destruct (session_rep lex_zops) as (xs & Hz & Hk); [by vm_compute..|].
  replace (spec_zops lex_zops []).1 with [(dbl 1, str "a"); (dbl 1, str "b"); (dbl 1, str "d")] in Hk by reflexivity.
  destruct xs as [|a [|b [|c [|? ?]]]]; [discriminate Hk..| |discriminate Hk].
  unfold ikey in Hk. cbn [fmap list_fmap] in Hk. injection Hk as A1 A2 B1 B2 C1 C2. exists (addr b).
  pose proof (zslInLexRange_correct _ _ [a; b; c] lex_range_bd Hz) as Hin. cbv zeta in Hin.
  assert (within [a; b; c] (above_lmin lex_range_bd) (below_lmax lex_range_bd) = [b]) as Hw.
  { clear -A2 B2 C2. destruct a as [? ? ? ea], b as [? ? ? eb], c as [? ? ? ec]. simpl in *.
    destruct ea, eb, ec; simpl in *; try discriminate. subst. reflexivity. }
  rewrite Hw in Hin. apply Hin; [|by vm_compute|by vm_compute|].
  - intros x y Hx Hy. unfold feq. assert (∀ u, u ∈ [a; b; c] → sc u = dbl 1) as Hall.
    { apply Forall_forall. repeat constructor; [exact A1|exact B1|exact C1]. }
    rewrite (Hall x Hx), (Hall y Hy). reflexivity.
  - unfold distinct_bounds. simpl. discriminate.
Defined.
