(* ===== verification/Zset.v ===== *)
(** * t_zset.c: sorted sets as a dictionary and a skip list

    A sorted set in the encoding [OBJ_ENCODING_SKIPLIST]: the dictionary maps
    each string to the node of the skip list that holds its score (the C code
    keeps a pointer to the score inside the node).  The functions below are
    these cases of [zsetLength], [zsetScore], [zsetAdd], [zsetDel] and
    [zsetRank], over any table with the interface of [KvTable]. *)

From Stdlib Require Import SpecFloat.
From S2P Require Import Prelude.
From S2P Require Import Mem.
From S2P Require Import SdsRefine.
From S2P Require Import KvTable.
From S2P Require Import Dict.
From S2P Require Import Skiplist.
Import KvTable.
Import Skiplist.

Module Zset.

Definition ZADD_INCR : Z := 1.
Definition ZADD_NX : Z := 2.
Definition ZADD_XX : Z := 4.
Definition ZADD_NOP : Z := 8.
Definition ZADD_NAN : Z := 16.
Definition ZADD_ADDED : Z := 32.
Definition ZADD_UPDATED : Z := 64.

(** [a + b] on doubles. *)
Definition dadd (a b : spec_float) : spec_float := SFadd 53 1024 a b.

(** [node->ele = e] *)
Definition set_ele (h : heap) (x : ptr) (e : option bytes) : option heap :=
  n ← h !! x; Some (<[x := Node e (score n) (backward n) (level n)]> h).

Section Zset.
Context {D E : Type} `{!Table D E bytes ptr} `{Uninit}.

Record zset := MkZset { zdict : D; zsl : zskiplist }.

(** The length passes through an [int]. *)
Definition zsetLength (zs : zset) : Z := uwrap 32 (swrap 32 (length (zsl zs))).

(** The value of an entry points to the score of a node. *)
Definition entry_score (h : heap) (d : D) (de : E) : option spec_float :=
  x ← table_val d de; n ← h !! x; Some (score n).

(** [None] inside: C_ERR. *)
Definition zsetScore (h : heap) (zs : zset) (member : bytes) : option (zset * option spec_float) :=
  '(d, de) ← table_find (zdict zs) member;
  match de with
  | None => Some (MkZset d (zsl zs), None)
  | Some de => s ← entry_score h d de; Some (MkZset d (zsl zs), Some s)
  end.

(** Moving an element to a new score: the lines that delete its node and insert
    another one with the same string. *)
Definition move_node (h : heap) (zs : zset) (d : D) (de : E) (rs : list Z) (curscore sc : spec_float)
    (e : bytes) : option (heap * zset * list Z) :=
  '(h, z, node) ← zslDelete h (zsl zs) curscore e true;
  node ← node;
  n ← h !! node;
  nele ← ele n;
  '(h, z, znode, rs) ← zslInsert h z rs sc nele;
  h ← set_ele h node None;
  h ← zslFreeNode h node;
  d ← table_set_val d de znode;
  Some (h, MkZset d z, rs).

(** The result: the return value, the flags and what is stored in [newscore]. *)
Definition zsetAdd (h : heap) (zs : zset) (rs : list Z) (sc : spec_float) (e : bytes) (flags : Z) :
    option (heap * zset * list Z * (Z * Z * option spec_float)) :=
  let incr := negb (Z.land flags ZADD_INCR =? 0) in
  let nx := negb (Z.land flags ZADD_NX =? 0) in
  let xx := negb (Z.land flags ZADD_XX =? 0) in
  if isnan sc then Some (h, zs, rs, (0, ZADD_NAN, None))
  else
    '(d, de) ← table_find (zdict zs) e;
    let zs := MkZset d (zsl zs) in
    match de with
    | Some de =>
        if nx then Some (h, zs, rs, (1, ZADD_NOP, None))
        else
          curscore ← entry_score h d de;
          let sc := if incr then dadd sc curscore else sc in
          if incr && isnan sc then Some (h, zs, rs, (0, ZADD_NAN, None))
          else
            let newscore := if incr then Some sc else None in
            if negb (deq sc curscore) then
              '(h, zs, rs) ← move_node h zs d de rs curscore sc e;
              Some (h, zs, rs, (1, ZADD_UPDATED, newscore))
            else Some (h, zs, rs, (1, 0, newscore))
    | None =>
        if negb xx then
          '(h, z, znode, rs) ← zslInsert h (zsl zs) rs sc e;
          '(d, r) ← table_add d e znode;
          if r =? Dict.DICT_OK then Some (h, MkZset d z, rs, (1, ZADD_ADDED, Some sc)) else None
        else Some (h, zs, rs, (1, ZADD_NOP, None))
    end.

Definition zsetDel (h : heap) (zs : zset) (e : bytes) : option (heap * zset * Z) :=
  '(d, de) ← table_unlink (zdict zs) e;
  match de with
  | None => Some (h, MkZset d (zsl zs), 0)
  | Some de =>
      sc ← entry_score h d de;
      d ← table_free_unlinked d (Some de);
      '(h, z, retval) ← zslDelete h (zsl zs) sc e false;
      _ ← retval;
      d ← (if htNeedsResize d then fst <$> table_resize d else Some d);
      Some (h, MkZset d z, 1)
  end.

Definition zsetRank (h : heap) (zs : zset) (e : bytes) (reverse : bool) : option (zset * Z) :=
  let llen := zsetLength zs in
  '(d, de) ← table_find (zdict zs) e;
  match de with
  | None => Some (MkZset d (zsl zs), -1)
  | Some de =>
      sc ← entry_score h d de;
      rank ← zslGetRank h (zsl zs) sc e;
      if rank =? 0 then None
      else Some (MkZset d (zsl zs), swrap 64 (if reverse then llen - rank else rank - 1))
  end.
End Zset.
Arguments zset : clear implicits.
End Zset.
