(* ===== verification/ZsetSpec.v ===== *)
(** * Sorted sets refine a finite map from strings to scores

    The dictionary and the skip list of a sorted set hold the same elements; a
    session of the operations of [Zset] answers as a map with its keys ordered by
    score and string. *)

From Stdlib Require Import SpecFloat String.
From S2P Require Import Prelude.
From S2P Require Import Mem.
From S2P Require Import SdsRefine.
From S2P Require Import KvTable.
From S2P Require Import Dict.
From S2P Require Import DictSpec.
From S2P Require Import Skiplist.
From S2P Require Import SkiplistRepr.
From S2P Require Import SkiplistOps.
From S2P Require Import SkiplistDelete.
From S2P Require Import SkiplistSpec.
From S2P Require Import SkiplistRange.
From S2P Require Import SkiplistCorrect.
From S2P Require Import Zset.
Import KvTable.
Import Skiplist.
Import Zset.

(** ** Maps indexed by the strings of a list *)
Definition index {A} (f : item → A) (xs : list item) : gmap bytes A :=
  list_to_map ((λ it, ((ikey it).2, f it)) <$> xs).

Lemma strings_mid (l1 l2 : list item) it :
  NoDup (strings (l1 ++ it :: l2)) ↔ NoDup (strings (l1 ++ l2)) ∧ (ikey it).2 ∉ strings (l1 ++ l2).
Proof.
  unfold strings. rewrite !fmap_app, fmap_cons. rewrite <-Permutation_middle, NoDup_cons. tauto.
Qed.

Section Index.
Context {A : Type} (f : item → A).
Implicit Types (xs l : list item).

Lemma index_fst xs : ((λ it, ((ikey it).2, f it)) <$> xs).*1 = strings xs.
Proof using. unfold strings. by rewrite <-list_fmap_compose. Qed.

Lemma index_lookup xs e v :
  NoDup (strings xs) → index f xs !! e = Some v ↔ ∃ it, it ∈ xs ∧ (ikey it).2 = e ∧ f it = v.
Proof using.
  intros Hnd. unfold index. rewrite <-elem_of_list_to_map by (by rewrite index_fst).
  rewrite list_elem_of_fmap. split; [intros (it & [= -> ->] & Hin)|intros (it & Hin & <- & <-)]; eauto.
Qed.

Lemma index_none xs e : index f xs !! e = None ↔ e ∉ strings xs.
Proof using. unfold index. rewrite <-not_elem_of_list_to_map, index_fst. done. Qed.

Lemma index_insert l1 it l2 :
  NoDup (strings (l1 ++ it :: l2)) → index f (l1 ++ it :: l2) = <[(ikey it).2 := f it]> (index f (l1 ++ l2)).
Proof using.
  intros Hnd. unfold index. rewrite !fmap_app, fmap_cons.
  rewrite (list_to_map_proper _ (((ikey it).2, f it) :: ((λ it, ((ikey it).2, f it)) <$> l1) ++ ((λ it, ((ikey it).2, f it)) <$> l2))).
  - done.
  - rewrite <-index_fst, fmap_app, fmap_cons in Hnd. done.
  - by rewrite <-Permutation_middle.
Qed.

Lemma index_delete l1 it l2 :
  NoDup (strings (l1 ++ it :: l2)) → index f (l1 ++ l2) = delete (ikey it).2 (index f (l1 ++ it :: l2)).
Proof using.
  intros Hnd. rewrite index_insert by done. rewrite delete_insert_id; [done|]. apply index_none. by apply strings_mid.
Qed.

Lemma index_size xs : NoDup (strings xs) → Z.of_nat (base.size (index f xs)) = zlen xs.
Proof using.
  induction xs as [|it xs IH]; [done|]. intros Hnd. pose proof Hnd as [Hn Hni]%(strings_mid [] xs it).
  pose proof (index_insert [] it xs Hnd) as Hi. cbn [app] in Hi, Hn, Hni.
  rewrite Hi, map_size_insert_None by (by apply index_none). rewrite zlen_cons, <-IH by done. lia.
Qed.

Lemma index_filter (P : bytes * A → Prop) `{∀ x, Decision (P x)} xs :
  NoDup (strings xs) → filter P (index f xs) = index f (filter (λ it, P ((ikey it).2, f it)) xs).
Proof using.
  intros Hnd. apply map_eq. intros e. apply option_eq. intros v.
  rewrite map_lookup_filter_Some, (index_lookup xs), index_lookup; [| |done].
  - setoid_rewrite list_elem_of_filter. split.
    + intros [(it & Hin & <- & <-) HP]. by exists it.
    + intros (it & [HP Hin] & <- & <-). split; [by exists it|done].
  - clear -Hnd. unfold strings in *. induction xs as [|it xs IH]; [done|]. rewrite fmap_cons in Hnd. apply NoDup_cons in Hnd as [N1 N2].
    rewrite filter_cons. destruct (decide _); [|by apply IH]. rewrite fmap_cons. apply NoDup_cons. split; [|by apply IH].
    rewrite list_elem_of_fmap. intros (y & Hy & [_ Hin]%list_elem_of_filter). apply N1. rewrite Hy.
    by apply (list_elem_of_fmap_2 (λ it, (ikey it).2)).
Qed.
End Index.

(** ** The invariant *)
Section ZsetSpec.
Context {D E : Type} `{!Table D E bytes ptr} `{!TableOk D E bytes ptr} `{!Uninit}.
Implicit Types (h : heap) (z : zskiplist) (xs : list item) (zs : zset D) (m : gmap bytes spec_float) (d : D).

(** The list and the dictionary hold the same elements, and [m] their scores. *)
Record zset_rep h zs m xs : Prop := {
  zr_list : zsl_rep h (zsl zs) xs;
  zr_nodup : NoDup (strings xs);
  zr_dict : table_rep (zdict zs) (index addr xs);
  zr_map : m = index sc xs }.

Lemma zset_entry h zs m xs e x :
  zset_rep h zs m xs → index addr xs !! e = Some x →
  ∃ it l1 l2, xs = l1 ++ it :: l2 ∧ addr it = x ∧ (ikey it).2 = e ∧ m !! e = Some (sc it) ∧ good it ∧
    ∃ n, h !! x = Some n ∧ score n = sc it.
Proof.
  intros Hz (it & Hin & He & Ha)%index_lookup; [|apply Hz]. pose proof (zr_list _ _ _ _ Hz) as Hl.
  assert (good it) as Hg by (eapply (proj1 (Forall_forall _ _)); [apply (rep_good _ _ _ Hl)|done]).
  apply list_elem_of_split in Hin as (l1 & l2 & Hxs). exists it, l1, l2. split_and!; try done.
  - rewrite (zr_map _ _ _ _ Hz). apply index_lookup; [apply Hz|]. exists it. split_and!; try done. rewrite Hxs. set_solver.
  - subst x. destruct (node_at h _ xs l1 it l2 (rep_ok _ _ _ Hl) Hxs) as (n & ? & _ & ?). eauto.
Qed.

Lemma no_entry h zs m xs e : zset_rep h zs m xs → index addr xs !! e = None → m !! e = None ∧ e ∉ strings xs.
Proof. intros Hz Hn%index_none. split; [|done]. rewrite (zr_map _ _ _ _ Hz). by apply index_none. Qed.

Lemma find_entry h zs m xs e :
  zset_rep h zs m xs →
  ∃ d r, table_find (zdict zs) e = Some (d, r) ∧ zset_rep h (MkZset d (zsl zs)) m xs ∧
  match r with
  | Some de => entry_of d de e ∧ ∃ it l1 l2, xs = l1 ++ it :: l2 ∧ (ikey it).2 = e ∧ m !! e = Some (sc it) ∧
      good it ∧ table_val d de = Some (addr it) ∧ entry_score h d de = Some (sc it)
  | None => m !! e = None ∧ e ∉ strings xs
  end.
Proof.
  intros Hz. destruct (table_find_ok (zdict zs) (index addr xs) e (zr_dict _ _ _ _ Hz)) as (d & r & Hrun & Hd & Hr).
  exists d, r. split; [done|]. split; [split; apply Hz || done|]. destruct r as [de|]; [|by eapply no_entry].
  destruct Hr as [[x Hx] Hof]. split; [done|].
  destruct (zset_entry h zs m xs e x Hz Hx) as (it & l1 & l2 & Hxs & <- & He & Hm & Hg & n & Hn & Hs).
  assert (table_val d de = Some (addr it)) as Hv by (by rewrite (table_val_ok _ _ _ _ Hd Hof)).
  exists it, l1, l2. split_and!; try done. unfold entry_score. rewrite Hv. cbn [mbind option_bind]. rewrite Hn. cbn. by rewrite Hs.
Qed.

Lemma score_ok h zs m xs e :
  zset_rep h zs m xs → ∃ zs', zsetScore h zs e = Some (zs', m !! e) ∧ zset_rep h zs' m xs.
Proof.
  intros Hz. unfold zsetScore. destruct (find_entry h zs m xs e Hz) as (d & r & -> & Hz' & Hr). cbn [mbind option_bind].
  destruct r as [de|].
  - destruct Hr as (_ & it & l1 & l2 & _ & _ & -> & _ & _ & ->). cbn [mbind option_bind]. eauto.
  - destruct Hr as [-> _]. eauto.
Qed.

Lemma fresh_key (xs : list item) s e : e ∉ strings xs → Forall (λ it, ¬ keq (ikey it) (s, e)) xs.
Proof.
  intros Hn. apply Forall_forall. intros it Hin [_ He]. apply Hn. simpl in He. unfold strings.
  rewrite <-He. by apply (list_elem_of_fmap_2 (λ it, (ikey it).2)).
Qed.

(** An insertion into the list, seen through the index. *)
Lemma insert_indexed h z xs rs lv rs' s e :
  zsl_rep h z xs → NoDup (strings xs) → e ∉ strings xs → isnan s = false → zlen e < 2 ^ 31 → zlen xs + 1 < 2 ^ 32 →
  zslRandomLevel rs = Some (lv, rs') →
  ∃ h' z' x xs', zslInsert h z rs s e = Some (h', z', x, rs') ∧ x ∉ dom h ∧ header z' = header z ∧ zsl_rep h' z' xs' ∧
    NoDup (strings xs') ∧ zlen xs' = zlen xs + 1 ∧
    index addr xs' = <[e := x]> (index addr xs) ∧ index sc xs' = <[e := s]> (index sc xs) ∧
    (∀ a, a ∉ header z :: (addr <$> xs) → a ≠ x → h' !! a = h !! a) ∧ addr <$> xs' ≡ₚ x :: (addr <$> xs).
Proof.
  intros Hz Hnd Hfresh Hs He Hlen Hr.
  destruct (insert_rep h z xs rs rs' lv s e Hz Hs He Hlen (fresh_key xs s e Hfresh) Hr)
    as (h' & z' & x & Hrun & Hx & Hhd & Hz' & Hfr).
  pose proof (sorted_split (smaller (s, e)) xs (rep_sorted _ _ _ Hz) (λ a b _ _, smaller_down _ a b)) as Hxs.
  set (l1 := filter (smaller (s, e)) xs) in *. set (l2 := filter (λ it, ¬ smaller (s, e) it) xs) in *.
  assert (NoDup (strings (l1 ++ Item x lv s (Some e) :: l2))) as Hnd'.
  { apply strings_mid. rewrite <-Hxs. done. }
  exists h', z', x, (l1 ++ Item x lv s (Some e) :: l2). split_and!; try done.
  - rewrite Hxs. zl.
  - rewrite index_insert by done. rewrite <-Hxs. done.
  - rewrite index_insert by done. rewrite <-Hxs. done.
  - rewrite Hxs, !fmap_app, fmap_cons. by rewrite <-Permutation_middle.
Qed.

(** ** Adding *)
Definition spec_add m (s : spec_float) (e : bytes) (flags : Z) : gmap bytes spec_float * (Z * Z * option spec_float) :=
  let incr := negb (Z.land flags ZADD_INCR =? 0) in
  let nx := negb (Z.land flags ZADD_NX =? 0) in
  let xx := negb (Z.land flags ZADD_XX =? 0) in
  if isnan s then (m, (0, ZADD_NAN, None))
  else match m !! e with
       | Some cur =>
           let s' := if incr then dadd s cur else s in
           if nx then (m, (1, ZADD_NOP, None))
           else if incr && isnan s' then (m, (0, ZADD_NAN, None))
           else if deq s' cur then (m, (1, 0, if incr then Some s' else None))
           else (<[e := s']> m, (1, ZADD_UPDATED, if incr then Some s' else None))
       | None => if xx then (m, (1, ZADD_NOP, None)) else (<[e := s]> m, (1, ZADD_ADDED, Some s))
       end.

Lemma zset_size h zs m xs : zset_rep h zs m xs → Z.of_nat (base.size m) = zlen xs ∧ Z.of_nat (base.size (index addr xs)) = zlen xs.
Proof. intros Hz. rewrite (zr_map _ _ _ _ Hz), !index_size by apply Hz. done. Qed.

Lemma set_ele_ok h x e n : h !! x = Some n → ∃ h', set_ele h x e = Some h' ∧ is_Some (h' !! x) ∧ ∀ a, a ≠ x → h' !! a = h !! a.
Proof.
  intros Hx. unfold set_ele. rewrite Hx. cbn [mbind option_bind]. eexists. split; [done|]. rewrite lookup_insert_eq. split; [done|].
  intros a Ha. by apply lookup_insert_ne.
Qed.

Lemma zsl_rep_frame h h' z xs :
  zsl_rep h z xs → (∀ a, a ∈ header z :: (addr <$> xs) → h' !! a = h !! a) → zsl_rep h' z xs.
Proof. intros [Hok Hs Hg] Hfr. split; [by eapply zsl_ok_frame|done|done]. Qed.

Lemma keq_refl k : keq k k.
Proof. done. Qed.

Lemma zset_move_ok h d z m l1 it l2 de rs lv rs' s e :
  zset_rep h (MkZset d z) m (l1 ++ it :: l2) → entry_of d de e → (ikey it).2 = e → isnan s = false → zlen e < 2 ^ 31 →
  zlen (l1 ++ it :: l2) < 2 ^ 31 → zslRandomLevel rs = Some (lv, rs') →
  ∃ h' zs' xs', move_node h (MkZset d z) d de rs (sc it) s e = Some (h', zs', rs') ∧ zset_rep h' zs' (<[e := s]> m) xs'.
Proof.
  intros Hz Hof He Hs Hel Hlen Hr. unfold move_node. cbn [zsl zdict].
  pose proof (zr_list _ _ _ _ Hz) as Hl. cbn [zsl] in Hl. pose proof (zr_nodup _ _ _ _ Hz) as Hnd.
  assert (good it) as Hg by (eapply (proj1 (Forall_forall _ _)); [apply (rep_good _ _ _ Hl)|set_solver]).
  assert (keq (ikey it) (sc it, e)) as Hk by (by split).
  destruct (delete_rep h z _ (sc it) e true Hl ltac:(apply Hg) Hel) as (h1 & z1 & r & -> & Hdel). cbn [mbind option_bind].
  destruct r as [x|]; [|destruct Hdel as [Hno _]; apply Forall_app in Hno as [_ [Hno _]%Forall_cons]; done].
  destruct Hdel as (k1 & it' & k2 & Hsplit & <- & Hk' & Hhd & Hz1 & Hx & _). cbn [mbind option_bind].
  pose proof Hnd as Hnd0. rewrite Hsplit in Hnd, Hz. pose proof Hnd as [Hnd1 Hfresh]%strings_mid.
  assert ((ikey it').2 = e) as He' by apply Hk'. rewrite He' in Hfresh.
  rewrite Hsplit in Hl. destruct (node_at h z _ k1 it' k2 (rep_ok _ _ _ Hl) eq_refl) as (n & Hn & Hne & _).
  rewrite Hx, Hn. cbn [mbind option_bind]. rewrite Hne, (good_ele it'), He'; [cbn [mbind option_bind]|].
  2:{ eapply (proj1 (Forall_forall _ _)); [apply (rep_good _ _ _ Hl)|set_solver]. }
  assert (zlen (k1 ++ it' :: k2) = zlen (k1 ++ k2) + 1) as Hlk by zl. rewrite Hsplit in Hlen.
  destruct (insert_indexed h1 z1 (k1 ++ k2) rs lv rs' s e Hz1 Hnd1 Hfresh Hs Hel ltac:(lia) Hr)
    as (h2 & z2 & x & xs' & -> & Hx2 & Hhd2 & Hz2 & Hnd2 & _ & Hia & His & Hfr2 & Hperm). cbn [mbind option_bind].
  pose proof (nodes_nodup _ _ _ (ok_nodes _ _ _ (rep_ok _ _ _ Hl))) as Hna.
  apply (addr_nodup_mid (hd_item (header z) :: k1) k2 it') in Hna as [_ Hna].
  assert (addr it' ∉ header z1 :: (addr <$> (k1 ++ k2))) as Hnin by (by rewrite Hhd).
  assert (addr it' ≠ x) as Hne2 by (intros Heq; apply Hx2; rewrite <-Heq; apply elem_of_dom; rewrite Hx, Hn; by eexists).
  assert (h2 !! addr it' = Some n) as Hn2 by (by rewrite Hfr2, Hx).
  destruct (set_ele_ok h2 (addr it') None n Hn2) as (h3 & -> & [n3 Hn3] & Hfr3). cbn [mbind option_bind].
  unfold zslFreeNode. rewrite Hn3. cbn [mbind option_bind].
  destruct (table_set_ok d (index addr (k1 ++ it' :: k2)) de e x (zr_dict _ _ _ _ Hz) Hof) as (d' & -> & Hd'). cbn [mbind option_bind].
  eexists _, _, xs'. split; [done|]. split; cbn [zsl zdict]; [|done|..].
  - apply (zsl_rep_frame h2); [done|]. intros a Ha.
    assert (a ≠ addr it') as Hane by (intros ->; apply Hnin; rewrite Hperm, Hhd2 in Ha; set_solver).
    rewrite lookup_delete_ne by done. by apply Hfr3.
  - rewrite Hia, (index_delete addr k1 it' k2 Hnd), He', insert_delete_eq. done.
  - rewrite (zr_map _ _ _ _ Hz), His, (index_delete sc k1 it' k2 Hnd), He', insert_delete_eq. done.
Qed.

Lemma zadd_ok h zs m xs rs s e flags :
  zset_rep h zs m xs → zlen e < 2 ^ 31 → zlen xs < 2 ^ 30 → Exists (λ r, 16384 ≤ Z.land r 65535) rs →
  ∃ h' zs' rs' xs', zsetAdd h zs rs s e flags = Some (h', zs', rs', (spec_add m s e flags).2) ∧
    zset_rep h' zs' (spec_add m s e flags).1 xs'.
Proof.
  intros Hz He Hlen (lv & rs' & Hr)%random_ends. unfold zsetAdd, spec_add.
  destruct (isnan s) eqn:Hs; [by exists h, zs, rs, xs|].
  destruct (find_entry h zs m xs e Hz) as (d & r & -> & Hz1 & Hfind). cbn [mbind option_bind].
  destruct (zset_size _ _ _ _ Hz1) as [_ Hsz].
  destruct r as [de|].
  - destruct Hfind as (Hof & it & l1 & l2 & Hxs & Hk & -> & Hg & _ & ->).
    destruct (negb (Z.land flags ZADD_NX =? 0)); [by eexists _, _, _, xs|]. cbn [mbind option_bind].
    set (s' := if negb (Z.land flags ZADD_INCR =? 0) then dadd s (sc it) else s).
    destruct (negb (Z.land flags ZADD_INCR =? 0) && isnan s') eqn:Hn; [by eexists _, _, _, xs|].
    assert (isnan s' = false) as Hs' by (unfold s' in *; by destruct (negb (Z.land flags ZADD_INCR =? 0))).
    destruct (deq s' (sc it)); cbn [negb]; [by eexists _, _, _, xs|].
    rewrite Hxs in Hz1, Hlen. destruct (zset_move_ok h d (zsl zs) m l1 it l2 de rs lv rs' s' e Hz1 Hof Hk Hs' He ltac:(lia) Hr)
      as (h' & zs' & xs' & -> & Hz'). cbn [mbind option_bind]. by eexists _, _, _, xs'.
  - destruct Hfind as [-> Hfresh]. destruct (negb (Z.land flags ZADD_XX =? 0)); cbn [negb]; [by eexists _, _, _, xs|].
    cbn [zsl]. destruct (insert_indexed h (zsl zs) xs rs lv rs' s e (zr_list _ _ _ _ Hz) (zr_nodup _ _ _ _ Hz) Hfresh Hs He ltac:(lia) Hr)
      as (h2 & z2 & x & xs' & -> & _ & _ & Hz2 & Hnd2 & _ & Hia & His & _). cbn [mbind option_bind].
    destruct (table_add_ok d (index addr xs) e x (zr_dict _ _ _ _ Hz1) ltac:(lia)) as (d' & -> & Hd'); [by apply index_none|].
    cbn [mbind option_bind]. rewrite Z.eqb_refl. eexists _, _, _, xs'. split; [done|]. simpl.
    split; cbn [zsl zdict]; [done|done|by rewrite Hia|by rewrite His, (zr_map _ _ _ _ Hz)].
Qed.

(** ** Deleting *)
Lemma zdel_ok h zs m xs e :
  zset_rep h zs m xs → zlen e < 2 ^ 31 → zlen xs ≤ 2 ^ 30 →
  ∃ h' zs' xs', zsetDel h zs e = Some (h', zs', if decide (is_Some (m !! e)) then 1 else 0) ∧ zset_rep h' zs' (delete e m) xs'.
Proof.
  intros Hz He Hlen. unfold zsetDel. pose proof (zr_list _ _ _ _ Hz) as Hl. pose proof (zr_nodup _ _ _ _ Hz) as Hnd.
  destruct (table_unlink_ok (zdict zs) (index addr xs) e (zr_dict _ _ _ _ Hz)) as (d & r & -> & Hr). cbn [mbind option_bind].
  destruct r as [de|].
  2:{ destruct Hr as [Hn Hd]. destruct (no_entry h zs m xs e Hz Hn) as [Hm _]. exists h, (MkZset d (zsl zs)), xs.
      rewrite decide_False by (rewrite Hm; by intros [? ?]). split; [done|]. rewrite delete_id by done. split; apply Hz || done. }
  destruct Hr as ([x Hx] & Hv & d1 & Hfree & Hd1).
  destruct (zset_entry h zs m xs e x Hz Hx) as (it & l1 & l2 & Hxs & <- & Hk & Hm & Hg & n & Hn & Hsc).
  rewrite decide_True by (by rewrite Hm).
  assert (entry_score h d de = Some (sc it)) as -> by (unfold entry_score; rewrite Hv, Hx; cbn [mbind option_bind]; rewrite Hn; cbn; by rewrite Hsc).
  cbn [mbind option_bind]. rewrite Hfree. cbn [mbind option_bind].
  destruct (delete_rep h (zsl zs) xs (sc it) e false Hl ltac:(apply Hg) He) as (h1 & z1 & r & -> & Hdel). cbn [mbind option_bind].
  destruct r as [y|]; [|destruct Hdel as [Hno _]; rewrite Hxs in Hno; apply Forall_app in Hno as [_ [Hno _]%Forall_cons]; by destruct Hno].
  destruct Hdel as (k1 & it' & k2 & Hsplit & _ & Hk' & _ & Hz1 & _). cbn [mbind option_bind].
  rewrite Hsplit in Hnd, Hd1, Hlen. assert ((ikey it').2 = e) as He' by apply Hk'.
  pose proof Hnd as [Hnd1 _]%strings_mid. rewrite <-He', <-index_delete in Hd1 by done.
  pose proof (index_size addr (k1 ++ k2) Hnd1) as Hsz.
  destruct (shrink_ok d1 _ Hd1 ltac:(zl)) as (d2 & -> & Hd2).
  cbn [mbind option_bind]. eexists _, _, (k1 ++ k2). split; [done|]. split; cbn [zsl zdict]; try done.
  rewrite (zr_map _ _ _ _ Hz), Hsplit, <-He'. by rewrite <-index_delete.
Qed.

(** ** Ranks and lengths *)
Definition spec_rank m (e : bytes) (reverse : bool) : Z :=
  match m !! e with
  | None => -1
  | Some s =>
      let below := Z.of_nat (base.size (filter (λ p : bytes * spec_float, klt (p.2, p.1) (s, e)) m)) in
      if reverse then Z.of_nat (base.size m) - 1 - below else below
  end.

(** The elements below one are those before it. *)
Lemma below_count (l1 l2 : list item) it :
  StronglySorted ilt (l1 ++ it :: l2) → NoDup (strings (l1 ++ it :: l2)) →
  Z.of_nat (base.size (filter (λ p : bytes * spec_float, klt (p.2, p.1) (sc it, (ikey it).2)) (index sc (l1 ++ it :: l2)))) = zlen l1.
Proof using.
  intros Hs Hnd. rewrite index_filter by done.
  assert (filter (λ it0, klt (sc it0, (ikey it0).2) (sc it, (ikey it).2)) (l1 ++ it :: l2) = l1) as Hf.
  { by apply (filter_smaller_at l1 l2 it). }
  transitivity (Z.of_nat (base.size (index sc l1))); [exact (f_equal (λ l, Z.of_nat (base.size (index sc l))) Hf)|].
  apply index_size. unfold strings in *. rewrite fmap_app in Hnd. by apply NoDup_app in Hnd as [? _].
Qed.

Lemma length_ok h zs m xs : zset_rep h zs m xs → zlen xs ≤ 2 ^ 30 → zsetLength zs = Z.of_nat (base.size m).
Proof.
  intros Hz Hlen. destruct (zset_size _ _ _ _ Hz) as [-> _]. unfold zsetLength.
  rewrite (ok_length _ _ _ (rep_ok _ _ _ (zr_list _ _ _ _ Hz))). zlen_pos.
  rewrite swrap_id, uwrap_id; unfold in_u, in_s; lia.
Qed.

Lemma zrank_ok h zs m xs e reverse :
  zset_rep h zs m xs → zlen e < 2 ^ 31 → zlen xs ≤ 2 ^ 30 →
  ∃ zs', zsetRank h zs e reverse = Some (zs', spec_rank m e reverse) ∧ zset_rep h zs' m xs.
Proof.
  intros Hz He Hlen. unfold zsetRank, spec_rank. rewrite (length_ok h zs m xs Hz Hlen).
  destruct (find_entry h zs m xs e Hz) as (d & r & -> & Hz' & Hr). cbn [mbind option_bind].
  destruct r as [de|]; [|destruct Hr as [-> _]; eauto].
  destruct Hr as (_ & it & l1 & l2 & Hxs & Hk & -> & Hg & _ & ->). cbn [mbind option_bind].
  pose proof (zr_list _ _ _ _ Hz) as Hl.
  destruct (get_rank h (zsl zs) xs (sc it) e Hl ltac:(apply Hg) He) as (r & -> & Hor & Hno). cbn [mbind option_bind].
  assert (keq (ikey it) (sc it, e)) as Hkq by (by split).
  destruct Hor as [->|(p & xi & q & Hxs' & Hq & _ & ->)].
  { specialize (Hno eq_refl). rewrite Hxs in Hno. apply Forall_app in Hno as [_ [Hno _]%Forall_cons]. by destruct Hno. }
  zlen_pos. destruct (Z.eqb_spec (zlen p + 1) 0); [lia|]. eexists. split; [|exact Hz'].
  assert (zlen p = zlen l1) as Hp.
  { unfold zlen. f_equal. apply (NoDup_lookup _ _ _ e (zr_nodup _ _ _ _ Hz)); unfold strings.
    - rewrite Hxs', list_lookup_fmap, list_lookup_middle by done. cbn. f_equal. exact Hq.
    - rewrite Hxs, list_lookup_fmap, list_lookup_middle by done. cbn. f_equal. exact Hk. }
  destruct (zset_size _ _ _ _ Hz) as [-> _].
  assert (Z.of_nat (base.size (filter (λ p : bytes * spec_float, klt (p.2, p.1) (sc it, e)) m)) = zlen l1) as ->.
  { rewrite (zr_map _ _ _ _ Hz), Hxs, <-Hk. apply below_count; rewrite <-Hxs; [apply (rep_sorted _ _ _ Hl)|apply Hz]. }
  do 2 f_equal. rewrite Hp, swrap_id; [destruct reverse; lia|lia|]. unfold in_s. rewrite Hxs, zlen_app, zlen_cons in *. zlen_pos. destruct reverse; lia.
Qed.

(** ** Sessions *)
Inductive zset_op :=
  | OAdd (rs : list Z) (s : spec_float) (e : bytes) (flags : Z) | ODel (e : bytes)
  | OScore (e : bytes) | ORank (e : bytes) (reverse : bool) | OLength.

Inductive zset_answer :=
  | AAdd (r : Z * Z * option spec_float) | ADel (n : Z) | AScore (s : option spec_float) | ARank (n : Z) | ALength (n : Z).

Definition run_zset_op (o : zset_op) (st : heap * zset D) : option (heap * zset D * zset_answer) :=
  let '(h, zs) := st in
  match o with
  | OAdd rs s e flags => '(h, zs, _, r) ← zsetAdd h zs rs s e flags; Some (h, zs, AAdd r)
  | ODel e => '(h, zs, n) ← zsetDel h zs e; Some (h, zs, ADel n)
  | OScore e => '(zs, s) ← zsetScore h zs e; Some (h, zs, AScore s)
  | ORank e reverse => '(zs, n) ← zsetRank h zs e reverse; Some (h, zs, ARank n)
  | OLength => Some (h, zs, ALength (zsetLength zs))
  end.

Definition spec_zset_op (o : zset_op) m : gmap bytes spec_float * zset_answer :=
  match o with
  | OAdd _ s e flags => ((spec_add m s e flags).1, AAdd (spec_add m s e flags).2)
  | ODel e => (delete e m, ADel (if decide (is_Some (m !! e)) then 1 else 0))
  | OScore e => (m, AScore (m !! e))
  | ORank e reverse => (m, ARank (spec_rank m e reverse))
  | OLength => (m, ALength (Z.of_nat (base.size m)))
  end.

Definition zset_op_ok (o : zset_op) : Prop :=
  match o with
  | OAdd rs _ e _ => zlen e < 2 ^ 31 ∧ Exists (λ r, 16384 ≤ Z.land r 65535) rs
  | ODel e | OScore e | ORank e _ => zlen e < 2 ^ 31
  | OLength => True
  end.

Fixpoint run_zset_ops (os : list zset_op) (st : heap * zset D) : option (heap * zset D * list zset_answer) :=
  match os with
  | [] => Some (st, [])
  | o :: os => '(st, a) ← run_zset_op o st; '(st, l) ← run_zset_ops os st; Some (st, a :: l)
  end.

Fixpoint spec_zset_ops (os : list zset_op) m : gmap bytes spec_float * list zset_answer :=
  match os with
  | [] => (m, [])
  | o :: os => let '(m, a) := spec_zset_op o m in let '(m, l) := spec_zset_ops os m in (m, a :: l)
  end.

Lemma zset_op_refines o h zs m xs :
  zset_rep h zs m xs → zset_op_ok o → zlen xs < 2 ^ 30 →
  ∃ h' zs' xs', run_zset_op o (h, zs) = Some (h', zs', (spec_zset_op o m).2) ∧ zset_rep h' zs' (spec_zset_op o m).1 xs'.
Proof.
  intros Hz Ho Hlen. destruct o as [rs s e flags|e|e|e rv|]; cbn [run_zset_op spec_zset_op zset_op_ok fst snd] in *.
  - destruct Ho as [He Hr]. destruct (zadd_ok h zs m xs rs s e flags Hz He Hlen Hr) as (h' & zs' & rs' & xs' & -> & Hz').
    cbn [mbind option_bind]. eauto.
  - destruct (zdel_ok h zs m xs e Hz Ho ltac:(lia)) as (h' & zs' & xs' & -> & Hz'). cbn [mbind option_bind]. eauto.
  - destruct (score_ok h zs m xs e Hz) as (zs' & -> & Hz'). cbn [mbind option_bind]. eauto.
  - destruct (zrank_ok h zs m xs e rv Hz Ho ltac:(lia)) as (zs' & -> & Hz'). cbn [mbind option_bind]. eauto.
  - rewrite (length_ok h zs m xs Hz) by lia. eauto.
Qed.

Lemma spec_zset_size o m : (base.size (spec_zset_op o m).1 ≤ S (base.size m))%nat.
Proof.
  destruct o as [rs s e flags|e|e|e rv|]; simpl; try lia.
  - unfold spec_add. assert (∀ v, (base.size (<[e := v]> m) ≤ S (base.size m))%nat) as Hi.
    { intros v. rewrite map_size_insert. destruct (m !! e); simpl; lia. }
    repeat case_match; simpl; try lia; apply Hi.
  - rewrite map_size_delete. destruct (m !! e); simpl; lia.
Qed.

Lemma zset_ops_refine os : ∀ h zs m xs,
  zset_rep h zs m xs → Forall zset_op_ok os → Z.of_nat (base.size m) + zlen os ≤ 2 ^ 30 →
  ∃ h' zs' xs', run_zset_ops os (h, zs) = Some (h', zs', (spec_zset_ops os m).2) ∧ zset_rep h' zs' (spec_zset_ops os m).1 xs'.
Proof.
  induction os as [|o os IH]; intros h zs m xs Hz Hok Hlen; [by exists h, zs, xs|].
  apply Forall_cons in Hok as [Ho Hok]. rewrite zlen_cons in Hlen. zlen_pos. cbn [run_zset_ops spec_zset_ops].
  destruct (zset_size _ _ _ _ Hz) as [Hsz _]. pose proof (spec_zset_size o m).
  destruct (zset_op_refines o h zs m xs Hz Ho ltac:(lia)) as (h1 & zs1 & xs1 & -> & Hz1). cbn [mbind option_bind].
  destruct (spec_zset_op o m) as [m1 a]. simpl in *.
  destruct (IH h1 zs1 m1 xs1 Hz1 Hok ltac:(lia)) as (h' & zs' & xs' & -> & Hz'). cbn [mbind option_bind].
  exists h', zs', xs'. by destruct (spec_zset_ops os m1).
Qed.

(** From a new skip list and an empty dictionary, any sequence of additions
    (with the flags INCR, NX and XX), deletions, score and rank queries runs
    without a failed assertion and answers as a map from strings to scores
    ordered by score and string; at the end the dictionary and the skip list
    hold exactly the same elements. *)
Theorem zset_session_refines h d os :
  table_rep d ∅ → Forall zset_op_ok os → zlen os ≤ 2 ^ 30 →
  ∃ h0 z0 h' zs' xs, zslCreate h = Some (h0, z0) ∧
    run_zset_ops os (h0, MkZset d z0) = Some (h', zs', (spec_zset_ops os ∅).2) ∧
    zset_rep h' zs' (spec_zset_ops os ∅).1 xs.
Proof.
  intros Hd Hok Hlen. destruct (create_rep h) as (h0 & z0 & Hc & Hz0 & _).
  assert (zset_rep h0 (MkZset d z0) ∅ []) as Hz by (split; [done|constructor|done|done]).
  destruct (zset_ops_refine os h0 (MkZset d z0) ∅ [] Hz Hok) as (h' & zs' & xs & Hrun & Hz'); [rewrite map_size_empty; lia|].
  by exists h0, z0, h', zs', xs.
Qed.
End ZsetSpec.

(** ** Witness: the dictionary of dict.c *)
Definition zsetDictType (hash : bytes → Z) : Dict.dictType bytes ptr :=
  Dict.DictType hash None None (Some sds_equal) false false.

Lemma zsetDictType_ok hash : (∀ k, in_u 64 (hash k)) → DictTypeOk (zsetDictType hash).
Proof. intros Hh. split; simpl; [done|done|]. intros f k1 k2 [= <-]. apply bool_decide_eq_true. Qed.

#[local] Instance demo_zset_type_ok : DictTypeOk (zsetDictType demo_hash).
Proof. apply zsetDictType_ok. intros k. by apply uwrap_bound. Qed.

#[local] Instance demo_zset_table : TableOk (Dict.store bytes ptr * Dict.dict bytes ptr) ptr bytes ptr :=
  dict_table_ok (zsetDictType demo_hash) eq_refl.

Definition demo_zset_ops : list zset_op :=
  [OAdd [65535] (dbl 3) (str "a") 0; OAdd [1; 65535] (dbl 1) (str "b") 0; ORank (str "a") false;
   OAdd [65535] (dbl 5) (str "b") ZADD_INCR; OAdd [65535] (dbl 9) (str "a") ZADD_NX; ORank (str "a") false;
   ORank (str "a") true; ODel (str "a"); OScore (str "a"); OScore (str "b"); OLength].

Lemma zset_session_refines_witness :
  ∃ h0 z0 h' zs' xs, zslCreate ∅ = Some (h0, z0) ∧
    run_zset_ops demo_zset_ops (h0, MkZset (Dict.Store ∅ [] [] true, Dict.dictCreate (zsetDictType demo_hash)) z0) =
      Some (h', zs', [AAdd (1, ZADD_ADDED, Some (dbl 3)); AAdd (1, ZADD_ADDED, Some (dbl 1)); ARank 1;
                      AAdd (1, ZADD_UPDATED, Some (dbl 6)); AAdd (1, ZADD_NOP, None);
                      ARank 0; ARank 1; ADel 1; AScore None;
                      AScore (Some (dbl 6)); ALength 1]) ∧
    zset_rep h' zs' (spec_zset_ops demo_zset_ops ∅).1 xs.
Proof.
  destruct (zset_session_refines ∅ (Dict.Store ∅ [] [] true, Dict.dictCreate (zsetDictType demo_hash)) demo_zset_ops)
    as (h0 & z0 & h' & zs' & xs & H1 & H2 & H3).
  - split; [apply DictRefine.create_ok|reflexivity].
  - repeat constructor; try (by vm_compute); apply (bool_decide_unpack _); by vm_compute.
  - by vm_compute.
  - exists h0, z0, h', zs', xs. split; [exact H1|]. split; [|exact H3]. rewrite H2.
    replace (spec_zset_ops demo_zset_ops ∅).2 with
      [AAdd (1, ZADD_ADDED, Some (dbl 3)); AAdd (1, ZADD_ADDED, Some (dbl 1)); ARank 1;
       AAdd (1, ZADD_UPDATED, Some (dbl 6)); AAdd (1, ZADD_NOP, None);
       ARank 0; ARank 1; ADel 1; AScore None;
       AScore (Some (dbl 6)); ALength 1] by (vm_compute; reflexivity). reflexivity.
Defined.
