(* ===== verification/Score.v ===== *)
(** * Scores as text

    [d2string] of util.c writes a double into a buffer and [strtod] reads it
    back; sorted sets in the ziplist encoding keep their scores in this form.
    The C library's "%.17g" and [strtod] are parameters, the class [Libc], with
    what t_zset.c relies on in [LibcOk].  The file shows that every score
    survives, also when the ziplist stores its text as an integer, and that
    adding two doubles gives a double. *)

From Stdlib Require Import SpecFloat String.
From S2P Require Import Prelude.
From S2P Require Import Mem.
From S2P Require Import Util.
From S2P Require Import Ziplist.
From S2P Require Import ZiplistRepr.
From S2P Require Import ZiplistOps.
From S2P Require Import SdsRefine.
From S2P Require Import Skiplist.
From S2P Require Import SkiplistRepr.
From S2P Require Import Object.
From S2P Require Import ObjectSpec.
Import Skiplist(dlt, deq, isnan).
Import Ziplist(zval, ZStr, ZInt).

Module Score.

(** What "%.17g" prints, and the number at the start of a C string. *)
Class Libc := { print_17g : spec_float → bytes; strtod : bytes → spec_float }.

(** [snprintf] of a text into [len] bytes. *)
Definition snprintf (buf : bytes) (len : Z) (text : bytes) : option (bytes * Z) :=
  buf ← (if len =? 0 then Some buf else store buf 0 (take (Z.to_nat (len - 1)) text ++ [0]));
  Some (buf, zlen text).

(** [(double)n] and [(long long)value]. *)
Definition of_ll (n : Z) : spec_float := binary_normalize 53 1024 n 0 false.

Definition to_ll (value : spec_float) : Z :=
  match value with
  | S754_finite s m e =>
      let n := if 0 <=? e then Z.pos m * 2 ^ e else Z.pos m / 2 ^ (- e) in
      if s then - n else n
  | _ => 0
  end.

Definition isinf (value : spec_float) : bool := match value with S754_infinity _ => true | _ => false end.

Section Score.
Context `{Libc}.

Definition d2string (buf : bytes) (len : Z) (value : spec_float) : option (bytes * Z) :=
  let zero := S754_zero false in
  if isnan value then snprintf buf len (bytes_of "nan"%string)
  else if isinf value then
    if dlt value zero then snprintf buf len (bytes_of "-inf"%string)
    else snprintf buf len (bytes_of "inf"%string)
  else if deq value zero then
    if dlt (SFdiv 53 1024 (of_ll 1) value) zero then snprintf buf len (bytes_of "-0"%string)
    else snprintf buf len (bytes_of "0"%string)
  else
    let min := of_ll (-4503599627370495) in
    let max := of_ll 4503599627370496 in
    if dlt min value && dlt value max && deq value (of_ll (to_ll value))
    then Util.ll2string buf len (to_ll value)
    else snprintf buf len (print_17g value).
End Score.
End Score.
Import Score.

(** ** Doubles *)
Definition valid (d : spec_float) : Prop := valid_binary 53 1024 d = true.

#[export] Instance valid_dec d : Decision (valid d).
Proof. unfold valid. apply _. Defined.

(** 17 significant digits identify a double, [strtod] converts decimal integers
    exactly as a conversion of the number does, and knows infinities and the
    negative zero. *)
Class LibcOk `{Libc} : Prop := {
  strtod_17g s m e : valid (S754_finite s m e) → strtod (print_17g (S754_finite s m e)) = S754_finite s m e;
  length_17g s m e : valid (S754_finite s m e) → 1 ≤ zlen (print_17g (S754_finite s m e)) ≤ 24;
  chars_17g s m e : valid (S754_finite s m e) → Forall (λ c, c ≠ 0) (print_17g (S754_finite s m e));
  strtod_int n : in_s 64 n → strtod (Util.print n) = of_ll n;
  strtod_inf : strtod (bytes_of "inf"%string) = S754_infinity false;
  strtod_minf : strtod (bytes_of "-inf"%string) = S754_infinity true;
  strtod_m0 : strtod (bytes_of "-0"%string) = S754_zero true }.

(** *** Rounding gives a double *)
Lemma digits_bound m : Z.pos m < 2 ^ Z.pos (digits2_pos m).
Proof.
  induction m as [m IH|m IH|]; cbn [digits2_pos]; [..|done]; rewrite Pos2Z.inj_succ, Z.pow_succ_r by lia; [rewrite Pos2Z.inj_xI|rewrite Pos2Z.inj_xO]; lia.
Qed.

Lemma digits_succ m : Zdigits2 (Z.pos m) ≤ Zdigits2 (Z.pos (Pos.succ m)) ≤ Zdigits2 (Z.pos m) + 1.
Proof.
  induction m as [m IH|m IH|]; [change (Pos.succ m~1) with (Pos.succ m)~0%positive|change (Pos.succ m~0) with m~1%positive|done];
    cbn [Zdigits2 digits2_pos] in *; rewrite ?Pos2Z.inj_succ; lia.
Qed.

Lemma digits_round m l :
  0 ≤ m → let m' := round_nearest_even m l in
  0 ≤ m' ∧ Zdigits2 m ≤ Zdigits2 m' ≤ Zdigits2 m + 1.
Proof.
  intros Hm. assert (m + 1 = m + 1 ∧ 0 ≤ m + 1 ∧ Zdigits2 m ≤ Zdigits2 (m + 1) ≤ Zdigits2 m + 1) as (_ & H1 & H2).
  { split; [done|]. split; [lia|]. destruct m as [|m|m]; [simpl; lia| |lia].
    replace (Z.pos m + 1) with (Z.pos (Pos.succ m)) by lia. apply digits_succ. }
  destruct l as [|[]]; simpl; [lia| |lia|done]. destruct (Z.even m); [lia|done].
Qed.

Lemma shr_1_digits r :
  0 ≤ shr_m r → 0 ≤ shr_m (shr_1 r) ∧ Zdigits2 (shr_m (shr_1 r)) = Z.max 0 (Zdigits2 (shr_m r) - 1).
Proof.
  destruct r as [[|[m|m|]|m] b1 b2]; cbn [shr_m shr_1 Zdigits2 digits2_pos]; rewrite ?Pos2Z.inj_succ; lia.
Qed.

Lemma iter_digits n : ∀ r,
  0 ≤ shr_m r →
  0 ≤ shr_m (SpecFloat.iter_pos shr_1 n r) ∧ Zdigits2 (shr_m (SpecFloat.iter_pos shr_1 n r)) = Z.max 0 (Zdigits2 (shr_m r) - Z.pos n).
Proof.
  induction n as [n IH|n IH|]; intros r Hr; cbn [SpecFloat.iter_pos].
  - destruct (shr_1_digits r Hr) as [H1 D1]. destruct (IH _ H1) as [H2 D2]. destruct (IH _ H2) as [H3 D3].
    split; [done|]. rewrite D3, D2, D1. lia.
  - destruct (IH _ Hr) as [H2 D2]. destruct (IH _ H2) as [H3 D3]. split; [done|]. rewrite D3, D2. lia.
  - by apply shr_1_digits.
Qed.

(** A shift to the exponent of the format. *)
Lemma shr_fexp_digits m e l r e' :
  0 ≤ m → e ≤ fexp 53 1024 (Zdigits2 m + e) → shr_fexp 53 1024 m e l = (r, e') →
  e' = fexp 53 1024 (Zdigits2 m + e) ∧ 0 ≤ shr_m r ∧ Zdigits2 (shr_m r) = Z.max 0 (Zdigits2 m - (e' - e)).
Proof.
  intros Hm He. unfold shr_fexp, shr. assert (shr_m (shr_record_of_loc m l) = m) as Hl by (by destruct l as [|[]]).
  assert (0 ≤ Zdigits2 m) as Hd by (by destruct m).
  destruct (fexp 53 1024 (Zdigits2 m + e) - e) as [|n|n] eqn:En; intros [= <- <-]; [rewrite Hl; lia| |lia].
  destruct (iter_digits n (shr_record_of_loc m l)) as [H1 H2]; [lia|]. rewrite Hl in H2. rewrite H2. lia.
Qed.

Lemma round_aux_valid s m e :
  0 ≤ m → e ≤ fexp 53 1024 (Zdigits2 m + e) → valid (binary_round_aux 53 1024 s m e loc_Exact).
Proof.
  intros Hm He. unfold binary_round_aux.
  destruct (shr_fexp 53 1024 m e loc_Exact) as [r1 e1] eqn:E1.
  destruct (shr_fexp_digits m e _ r1 e1 Hm He E1) as (He1 & Hr1 & Hd1).
  destruct (digits_round (shr_m r1) (loc_of_shr_record r1) Hr1) as (Hm2 & Hd2).
  set (m2 := round_nearest_even _ _) in *.
  assert (fexp 53 1024 (Zdigits2 (shr_m r1) + e1) = e1) as Hf1.
  { unfold fexp, emin in *. assert (0 ≤ Zdigits2 m) by (by destruct m). lia. }
  assert (e1 ≤ fexp 53 1024 (Zdigits2 m2 + e1)) as Hle by (unfold fexp, emin in *; lia).
  destruct (shr_fexp 53 1024 m2 e1 loc_Exact) as [r2 e2] eqn:E2.
  destruct (shr_fexp_digits m2 e1 _ r2 e2 Hm2 Hle E2) as (He2 & Hr2 & Hd3).
  destruct (shr_m r2) as [|m3|m3] eqn:Em; [done| |done].
  destruct (Z.leb_spec e2 (1024 - 53)); [|done]. unfold valid, valid_binary, bounded. apply andb_true_iff.
  split; [|by apply Z.leb_le]. unfold canonical_mantissa. apply Z.eqb_eq.
  change (Z.pos (digits2_pos m3)) with (Zdigits2 (Z.pos m3)). rewrite Hd3.
  assert (1 ≤ Zdigits2 (Z.pos m3)) by (simpl; lia). rewrite Hd3 in H0.
  rewrite Z.max_r by lia. replace (Zdigits2 m2 - (e2 - e1) + e2) with (Zdigits2 m2 + e1) by lia. done.
Qed.

Lemma iter_xO_digits d : ∀ m, Z.pos (digits2_pos (Pos.iter xO m d)) = Z.pos (digits2_pos m) + Z.pos d.
Proof.
  induction d as [|d IH] using Pos.peano_ind; intros m; [simpl; lia|].
  rewrite Pos.iter_succ. cbn [digits2_pos]. rewrite !Pos2Z.inj_succ, IH. lia.
Qed.

Lemma binary_round_valid s m e : valid (binary_round 53 1024 s m e).
Proof.
  unfold binary_round, shl_align. set (e' := fexp 53 1024 (Z.pos (digits2_pos m) + e)).
  destruct (e' - e) as [|d|d] eqn:Ed; apply round_aux_valid; try lia.
  - cbn [Zdigits2]. fold e'. lia.
  - cbn [Zdigits2]. fold e'. lia.
  - cbn [Zdigits2]. rewrite iter_xO_digits. replace (Z.pos (digits2_pos m) + Z.pos d + e') with (Z.pos (digits2_pos m) + e) by lia.
    fold e'. lia.
Qed.

Lemma of_ll_valid n : valid (of_ll n).
Proof. destruct n; [done|apply binary_round_valid..]. Qed.

Lemma add_valid a b : valid a → valid b → valid (SFadd 53 1024 a b).
Proof.
  intros Ha Hb. destruct a as [sa|sa| |sa ma ea], b as [sb|sb| |sb mb eb]; simpl; try done;
    try (destruct sa, sb; done).
  unfold binary_normalize. destruct (_ + _); [done|apply binary_round_valid..].
Qed.

(** ** The text of a score *)
Section Text.
Context `{Libc}.

Definition score_text (d : spec_float) : bytes :=
  match d with
  | S754_nan => bytes_of "nan"%string
  | S754_infinity s => if s then bytes_of "-inf"%string else bytes_of "inf"%string
  | S754_zero s => if s then bytes_of "-0"%string else bytes_of "0"%string
  | S754_finite _ _ _ =>
      if dlt (of_ll (-4503599627370495)) d && dlt d (of_ll 4503599627370496) && deq d (of_ll (to_ll d))
      then Util.print (to_ll d) else print_17g d
  end.

(** Small exponents make small integers. *)
Lemma to_ll_bound s m e : valid (S754_finite s m e) → e ≤ 0 → in_s 64 (to_ll (S754_finite s m e)).
Proof.
  intros Hv He. unfold valid, valid_binary, bounded in Hv. apply andb_true_iff in Hv as [Hc%Z.eqb_eq _].
  unfold fexp, emin in Hc. pose proof (digits_bound m) as Hd.
  assert (Z.pos m < 2 ^ 53).
  { eapply Z.lt_le_trans; [exact Hd|]. apply Z.pow_le_mono_r; lia. }
  unfold to_ll, in_s. change (2 ^ (64 - 1)) with 9223372036854775808. change (2 ^ 53) with 9007199254740992 in *.
  assert (0 ≤ (if 0 <=? e then Z.pos m * 2 ^ e else Z.pos m / 2 ^ (- e)) ≤ Z.pos m); [|destruct s; lia].
  destruct (Z.leb_spec 0 e) as [Hle|Hlt]; [replace e with 0 by lia; lia|].
  assert (0 < 2 ^ (- e)) by (apply Z.pow_pos_nonneg; lia). split; [apply Z.div_pos; lia|]. apply Z.div_le_upper_bound; nia.
Qed.

Lemma int_score s m e :
  let d := S754_finite s m e in
  valid d → dlt (of_ll (-4503599627370495)) d && dlt d (of_ll 4503599627370496) = true → in_s 64 (to_ll d).
Proof.
  intros d Hv [H1 H2]%andb_true_iff. apply to_ll_bound; [done|].
  rewrite dlt_spec in H1, H2 by done. apply bool_decide_eq_true in H1, H2.
  change (of_ll (-4503599627370495)) with (S754_finite true 9007199254740990 (-1)) in H1.
  change (of_ll 4503599627370496) with (S754_finite false 4503599627370496 0) in H2.
  unfold flt, d in H1, H2. cbn [fkey] in *. destruct s; simpl in *; lia.
Qed.

Lemma feq_finite s m e d : feq (S754_finite s m e) d → d = S754_finite s m e.
Proof.
  unfold feq. destruct d as [s'|s'| |s' m' e']; destruct s; try destruct s'; simpl; try done; intros [= E1 E2]; f_equal; lia.
Qed.

(** A text stored by [snprintf] in a large enough buffer. *)
Lemma snprintf_ok buf text :
  zlen text < 128 → zlen buf = 128 →
  ∃ buf', snprintf buf 128 text = Some (buf', zlen text) ∧ load buf' 0 (zlen text) = Some text.
Proof.
  intros Ht Hb. unfold snprintf. cbn [Z.eqb]. pose proof (zlen_nonneg text) as Hn.
  rewrite take_ge by (unfold zlen in *; lia).
  set (k := Z.to_nat (zlen text + 1)).
  rewrite (store_at buf [] (take k buf) (text ++ [0]) (drop k buf) 0).
  - cbn [mbind option_bind]. eexists. split; [done|]. rewrite app_nil_l, <-app_assoc. by eapply (load_at _ [] text).
  - by rewrite app_nil_l, take_drop.
  - done.
  - unfold zlen. rewrite length_take, length_app. unfold k, zlen in *. simpl. lia.
Qed.

Lemma d2string_ok `{!LibcOk} buf d :
  valid d → isnan d = false → zlen buf = 128 →
  ∃ buf', d2string buf 128 d = Some (buf', zlen (score_text d)) ∧ load buf' 0 (zlen (score_text d)) = Some (score_text d).
Proof.
  intros Hv Hn Hb. unfold d2string. rewrite Hn. destruct d as [s|s| |s m e]; [..|done|].
  - cbn [isinf]. destruct s; (apply snprintf_ok; [done|done]).
  - cbn [isinf]. destruct s; (apply snprintf_ok; [done|done]).
  - cbn [isinf]. set (d := S754_finite s m e) in *.
    assert (deq d (S754_zero false) = false) as -> by (destruct s; done). unfold score_text. fold d.
    destruct (dlt (of_ll (-4503599627370495)) d && dlt d (of_ll 4503599627370496)) eqn:Hr; cbn [andb].
    + destruct (deq d (of_ll (to_ll d))); [|apply snprintf_ok; [pose proof (length_17g s m e Hv); unfold d; lia|done]].
      pose proof (int_score s m e Hv Hr) as Hi. pose proof (print_length _ Hi) as Hl.
      rewrite Util.ll2string_eq by (done || lia). fold d in Hl |- *.
      rewrite (proj2 (Z.leb_gt 128 (zlen (Util.print (to_ll d))))) by lia. eexists. split; [done|]. by eapply (load_at _ [] _).
    + apply snprintf_ok; [pose proof (length_17g s m e Hv); unfold d; lia|done].
Qed.

Lemma text_length `{!LibcOk} d : valid d → 1 ≤ zlen (score_text d) ≤ 24.
Proof.
  intros Hv. destruct d as [s|s| |s m e]; [destruct s; by vm_compute..|by vm_compute|].
  unfold score_text. destruct (_ && _) eqn:Hr; [|by apply length_17g].
  apply andb_true_iff in Hr as [Hr _]. pose proof (print_length _ (int_score s m e Hv Hr)). lia.
Qed.

Lemma text_chars `{!LibcOk} d : valid d → Forall (λ c, c ≠ 0) (score_text d).
Proof.
  intros Hv. destruct d as [s|s| |s m e]; [destruct s; by repeat constructor..|by repeat constructor|].
  unfold score_text. destruct (_ && _); [apply print_chars|by apply chars_17g].
Qed.

Lemma text_strtod `{!LibcOk} d : valid d → isnan d = false → strtod (score_text d) = d.
Proof.
  intros Hv Hn. destruct d as [s|s| |s m e]; [..|done|].
  - destruct s; [apply strtod_m0|]. by apply (strtod_int 0).
  - destruct s; [apply strtod_minf|apply strtod_inf].
  - unfold score_text. destruct (_ && _) eqn:Hr; [|by apply strtod_17g].
    apply andb_true_iff in Hr as [Hr Heq]. rewrite strtod_int by (by apply int_score).
    set (d := S754_finite s m e) in *. pose proof (of_ll_valid (to_ll d)) as Hv'.
    destruct (isnan (of_ll (to_ll d))) eqn:Hn'; [by destruct (of_ll (to_ll d)); destruct s|].
    rewrite deq_spec in Heq by done. apply bool_decide_eq_true in Heq. by apply feq_finite in Heq.
Qed.

(** What a ziplist makes of the text still has the value of the text. *)
Lemma text_value `{!LibcOk} t n : zval_of t = ZInt n → of_ll n = strtod t.
Proof.
  intros Hz. unfold zval_of in Hz. destruct (Ziplist.zipTryEncoding t) as [[v enc]|] eqn:Ez; [|done]. injection Hz as ->.
  apply zipTryEncoding_inv in Ez as [Hs _]. apply Util.string2ll_sound in Hs as [Hi ->]. symmetry. by apply strtod_int.
Qed.

Lemma c_string_text t r : Forall (λ c, c ≠ 0) t → Object.c_string (t ++ 0 :: r) = t.
Proof.
  induction 1 as [|c t Hc _ IH]; [done|]. cbn [app Object.c_string]. rewrite (proj2 (Z.eqb_neq c 0)) by done. by rewrite IH.
Qed.
End Text.

(** C31: the text [d2string] writes fits the 128 bytes of the callers, has no
    NUL byte, and [strtod] reads the same double back from it: signed zeroes,
    infinities, integers, which are printed without an exponent, and all
    others. *)
Theorem d2string_strtod `{Libc} `{!LibcOk} buf d :
  valid d → isnan d = false → zlen buf = 128 →
  ∃ buf' n t, d2string buf 128 d = Some (buf', n) ∧ 1 ≤ n ≤ 24 ∧ load buf' 0 n = Some t ∧
    Forall (λ c, c ≠ 0) t ∧ strtod t = d.
Proof.
  intros Hv Hn Hb. destruct (d2string_ok buf d Hv Hn Hb) as (buf' & Hrun & Hl).
  exists buf', (zlen (score_text d)), (score_text d). split_and!; try done.
  1, 2: pose proof (text_length d Hv); lia.
  - by apply text_chars.
  - by apply text_strtod.
Qed.

(** ** Witness
    A C library that prints mantissa and exponent. *)
Fixpoint split_p (t : bytes) : option (bytes * bytes) :=
  match t with
  | [] => None
  | c :: t => if c =? 112 then Some ([], t) else '(a, b) ← split_p t; Some (c :: a, b)
  end.

#[local] Instance demo_libc : Libc := {|
  print_17g := λ d, match d with
    | S754_finite s m e => Util.print (if s then Z.neg m else Z.pos m) ++ 112 :: Util.print e
    | _ => []
    end;
  strtod := λ t,
    match split_p t with
    | Some (a, b) =>
        match Util.string2ll a, Util.string2ll b with
        | Some (Z.pos m), Some e => S754_finite false m e
        | Some (Z.neg m), Some e => S754_finite true m e
        | _, _ => S754_nan
        end
    | None =>
        match Util.string2ll t with
        | Some n => of_ll n
        | None =>
            if bool_decide (t = bytes_of "inf"%string) then S754_infinity false
            else if bool_decide (t = bytes_of "-inf"%string) then S754_infinity true
            else if bool_decide (t = bytes_of "-0"%string) then S754_zero true
            else S754_nan
        end
    end |}.

Lemma print_no_p n : Forall (λ c, c ≠ 112) (Util.print n).
Proof.
  rewrite Util.print_split. apply Forall_app. split.
  - destruct (n <? 0); repeat constructor. done.
  - eapply Forall_impl; [apply dec_rec_digits; lia|]. simpl. lia.
Qed.

Lemma split_p_none t : Forall (λ c, c ≠ 112) t → split_p t = None.
Proof.
  induction 1 as [|c t Hc _ IH]; [done|]. cbn [split_p]. rewrite (proj2 (Z.eqb_neq c 112)) by done. by rewrite IH.
Qed.

Lemma split_p_some a b : Forall (λ c, c ≠ 112) a → split_p (a ++ 112 :: b) = Some (a, b).
Proof.
  induction 1 as [|c t Hc _ IH]; [done|]. cbn [app split_p]. rewrite (proj2 (Z.eqb_neq c 112)) by done. by rewrite IH.
Qed.

Lemma valid_bounds s m e : valid (S754_finite s m e) → Z.pos m < 2 ^ 53 ∧ -1074 ≤ e ≤ 971.
Proof.
  unfold valid, valid_binary, bounded. intros [Hc%Z.eqb_eq He%Z.leb_le]%andb_true_iff.
  unfold fexp, emin in Hc. pose proof (digits_bound m) as Hd. split; [|lia].
  eapply Z.lt_le_trans; [exact Hd|]. apply Z.pow_le_mono_r; lia.
Qed.

#[local] Instance demo_libc_ok : LibcOk.
Proof.
  split; simpl.
  - intros s m e [Hm He]%valid_bounds. rewrite split_p_some by apply print_no_p.
    change (2 ^ 53) with 9007199254740992 in Hm.
    rewrite !Util.string2ll_complete by (unfold in_s; change (2 ^ (64 - 1)) with 9223372036854775808; destruct s; lia).
    by destruct s.
  - intros s m e [Hm He]%valid_bounds. change (2 ^ 53) with 9007199254740992 in Hm.
    rewrite zlen_app, zlen_cons, !Util.print_split, !zlen_app.
    pose proof (Util.dec_len_le 15 (Z.abs (if s then Z.neg m else Z.pos m)) ltac:(change (10 ^ Z.of_nat 16) with 10000000000000000; destruct s; lia)).
    pose proof (Util.dec_len_le 3 (Z.abs e) ltac:(change (10 ^ Z.of_nat 4) with 10000; lia)).
    zlen_pos. destruct (_ <? 0), (e <? 0); zl.
  - intros s m e _. apply Forall_app. split; [apply print_chars|]. constructor; [done|apply print_chars].
  - intros n Hn. by rewrite split_p_none, Util.string2ll_complete by (done || apply print_no_p).
  - done.
  - done.
  - done.
Qed.

Lemma d2string_strtod_witness :
  ∃ buf' n t, d2string (replicate 128 7) 128 (S754_finite true 6755399441055744 (-52)) = Some (buf', n) ∧
    load buf' 0 n = Some t ∧ strtod t = S754_finite true 6755399441055744 (-52).
Proof.
  destruct (d2string_strtod (replicate 128 7) (S754_finite true 6755399441055744 (-52))) as (buf' & n & t & H1 & _ & H2 & _ & H3).
  - by vm_compute.
  - done.
  - done.
  - by exists buf', n, t.
Defined.
