(* ===== verification/SetType.v ===== *)
(** * t_set.c: sets as integer sets or hash tables

    A set object is an intset while all its members are integers in decimal
    form and there are few of them, and a hash table with the members as keys
    otherwise.  Members are the contents of their strings.  The file ends with
    the refinement of a finite set of strings, across the conversion. *)

From Stdlib Require Import String.
From S2P Require Import Prelude.
From S2P Require Import Mem.
From S2P Require Import Intset.
From S2P Require Import Util.
From S2P Require Import Dict.
From S2P Require Import DictSpec.
From S2P Require Import DictRefine.
From S2P Require Import Sds.
From S2P Require Import SdsSpec.
From S2P Require Import SdsRefine.
From S2P Require Import KvTable.
From S2P Require Import KvIter.
From S2P Require Import Object.
From S2P Require Import ObjectSpec.
Import KvTable.
Import KvIter.
Import Object(sds_contents, isSdsRepresentableAsLongLong).

Module SetType.

Section SetType.
Context {D E I : Type} `{!Table D E bytes unit} `{!TableIter D E I bytes} `{!Alloc}.

(** [server.set_max_intset_entries] *)
Context (set_max_intset_entries : Z).

(** The encoding with [ptr]; for an intset [mem] is the memory in which a table
    can be created. *)
Inductive setobj := OBJ_ENCODING_INTSET (ptr : Intset.intset) (mem : D) | OBJ_ENCODING_HT (ptr : D).

Definition createIntsetObject (mem : D) : setobj := OBJ_ENCODING_INTSET Intset.intsetNew mem.
Definition createSetObject (mem : D) : setobj := OBJ_ENCODING_HT (table_new mem).

Definition setTypeCreate (mem : D) (value : bytes) : setobj :=
  match isSdsRepresentableAsLongLong value with
  | Some _ => createIntsetObject mem
  | None => createSetObject mem
  end.

(** ** Iterators
    [di] is not set for an intset.  The subject of the iterator is passed to
    each operation. *)
Record setTypeIterator := SetTypeIterator { ii : Z; di : option I }.

Definition setTypeInitIterator (subject : setobj) : setTypeIterator :=
  match subject with
  | OBJ_ENCODING_HT _ => SetTypeIterator 0 (Some iter_new)
  | OBJ_ENCODING_INTSET _ _ => SetTypeIterator 0 None
  end.

Definition setTypeReleaseIterator (subject : setobj) (si : setTypeIterator) : option setobj :=
  match subject with
  | OBJ_ENCODING_HT d => it ← di si; d ← iter_release d it; Some (OBJ_ENCODING_HT d)
  | OBJ_ENCODING_INTSET _ _ => Some subject
  end.

(** What [sdsele] or [llele] is set to; [None] inside is the return value -1.
    [ii] is an [int], the position of an intset 32 bits without a sign. *)
Definition setTypeNext (subject : setobj) (si : setTypeIterator) :
    option (setobj * setTypeIterator * option (bytes + Z)) :=
  match subject with
  | OBJ_ENCODING_HT d =>
      it ← di si;
      '(d, it, de) ← iter_next d it;
      let si := SetTypeIterator (ii si) (Some it) in
      match de with
      | None => Some (OBJ_ENCODING_HT d, si, None)
      | Some de => k ← entry_key d de; Some (OBJ_ENCODING_HT d, si, Some (inl k))
      end
  | OBJ_ENCODING_INTSET ist _ =>
      v ← Intset.intsetGet ist (uwrap 32 (ii si));
      let si := SetTypeIterator (swrap 32 (ii si + 1)) (di si) in
      match v with
      | None => Some (subject, si, None)
      | Some llele => Some (subject, si, Some (inr llele))
      end
  end.

(** A new string, with its contents. *)
Definition setTypeNextObject (subject : setobj) (si : setTypeIterator) :
    option (setobj * setTypeIterator * option bytes) :=
  '(subject, si, r) ← setTypeNext subject si;
  match r with
  | None => Some (subject, si, None)
  | Some (inr intele) => s ← Sds.sdsfromlonglong intele; c ← sds_contents s; Some (subject, si, Some c)
  | Some (inl sdsele) => Some (subject, si, Some sdsele)
  end.

(** ** Conversion *)
(** One round of the loop, with the iterator and the new dictionary. *)
Definition convert_body (o : setobj) (s : setTypeIterator * D) :
    option (setTypeIterator * D + setTypeIterator * D) :=
  let '(si, d) := s in
  '(_, si, r) ← setTypeNext o si;
  match r with
  | None => Some (inr (si, d))
  | Some (inr intele) =>
      element ← Sds.sdsfromlonglong intele;
      k ← sds_contents element;
      '(d, r) ← table_add d k tt;
      if r =? Dict.DICT_OK then Some (inl (si, d)) else None
  | Some (inl _) => None
  end.

(** To [OBJ_ENCODING_HT]; another encoding of the set is a failed assertion. *)
Definition setTypeConvert (o : setobj) : option setobj :=
  match o with
  | OBJ_ENCODING_HT _ => None
  | OBJ_ENCODING_INTSET ist mem =>
      let d := table_new mem in
      '(d, _) ← table_expand d (Intset.intsetLen ist);
      let si := setTypeInitIterator o in
      '(si, d) ← loop (S (Z.to_nat (Intset.intsetLen ist))) (convert_body o) (si, d);
      _ ← setTypeReleaseIterator o si;
      Some (OBJ_ENCODING_HT d)
  end.

(** ** Members *)
(** [dictAddRaw] followed by [dictSetKey] with a copy of the string and
    [dictSetVal] with NULL is [table_add]. *)
Definition setTypeAdd (o : setobj) (value : bytes) : option (setobj * Z) :=
  match o with
  | OBJ_ENCODING_HT ht =>
      '(ht, r) ← table_add ht value tt;
      Some (OBJ_ENCODING_HT ht, if r =? Dict.DICT_OK then 1 else 0)
  | OBJ_ENCODING_INTSET ist mem =>
      match isSdsRepresentableAsLongLong value with
      | Some llval =>
          '(ist, success) ← Intset.intsetAdd ist llval;
          if success : bool then
            o ← (if set_max_intset_entries <? Intset.intsetLen ist
                 then setTypeConvert (OBJ_ENCODING_INTSET ist mem)
                 else Some (OBJ_ENCODING_INTSET ist mem));
            Some (o, 1)
          else Some (OBJ_ENCODING_INTSET ist mem, 0)
      | None =>
          o ← setTypeConvert (OBJ_ENCODING_INTSET ist mem);
          match o with
          | OBJ_ENCODING_HT d =>
              '(d, r) ← table_add d value tt;
              if r =? Dict.DICT_OK then Some (OBJ_ENCODING_HT d, 1) else None
          | _ => None
          end
      end
  end.

Definition setTypeRemove (o : setobj) (value : bytes) : option (setobj * Z) :=
  match o with
  | OBJ_ENCODING_HT ht =>
      '(ht, r) ← table_delete ht value;
      if r =? Dict.DICT_OK then
        ht ← (if htNeedsResize ht then fst <$> table_resize ht else Some ht);
        Some (OBJ_ENCODING_HT ht, 1)
      else Some (OBJ_ENCODING_HT ht, 0)
  | OBJ_ENCODING_INTSET ist mem =>
      match isSdsRepresentableAsLongLong value with
      | Some llval =>
          '(ist, success) ← Intset.intsetRemove ist llval;
          Some (OBJ_ENCODING_INTSET ist mem, if success : bool then 1 else 0)
      | None => Some (OBJ_ENCODING_INTSET ist mem, 0)
      end
  end.

Definition setTypeIsMember (o : setobj) (value : bytes) : option (setobj * Z) :=
  match o with
  | OBJ_ENCODING_HT ht =>
      '(ht, de) ← table_find ht value;
      Some (OBJ_ENCODING_HT ht, match de with Some _ => 1 | None => 0 end)
  | OBJ_ENCODING_INTSET ist mem =>
      match isSdsRepresentableAsLongLong value with
      | Some llval => b ← Intset.intsetFind ist llval; Some (o, if b : bool then 1 else 0)
      | None => Some (o, 0)
      end
  end.

Definition setTypeSize (o : setobj) : Z :=
  match o with
  | OBJ_ENCODING_HT ht => table_size ht
  | OBJ_ENCODING_INTSET ist _ => Intset.intsetLen ist
  end.
End SetType.
Arguments setobj : clear implicits.
End SetType.
Import SetType.

(** ** The representation *)
Section Spec.
Context {D E I : Type} `{!Table D E bytes unit} `{!TableOk D E bytes unit} `{!TableIter D E I bytes} `{!Alloc}.
Context (max_entries : Z).
Implicit Types (d mem : D) (o : setobj D) (X : gset bytes) (ist : Intset.intset) (vs : list Z).

(** The decimal texts of the members of an intset. *)
Definition texts vs : gset bytes := list_to_set (Util.print <$> vs).

Definition set_rep o X : Prop :=
  match o with
  | OBJ_ENCODING_INTSET ist mem =>
      ∃ vs m, Intset.repr ist vs ∧ table_rep mem m ∧ X = texts vs ∧ zlen vs ≤ Z.max 0 max_entries
  | OBJ_ENCODING_HT d => ∃ m, table_rep d m ∧ dom m = X
  end.

Lemma texts_elem vs v : Forall (in_s 64) vs → in_s 64 v → Util.print v ∈ texts vs ↔ v ∈ vs.
Proof.
  intros Hvs Hv. unfold texts. rewrite elem_of_list_to_set, list_elem_of_fmap. split.
  - intros (w & Heq & Hin). rewrite Forall_forall in Hvs. by rewrite (print_injective v w) by auto.
  - eauto.
Qed.

Lemma repr_range64 ist vs : Intset.repr ist vs → Forall (in_s 64) vs.
Proof.
  intros Hr. eapply Forall_impl; [apply Hr|]. intros v. simpl. change 64 with (8 * 8). apply Intset.in_s_mono; [apply Hr|by right; right|].
  pose proof (Intset.enc_ok_pos _ (Intset.repr_enc _ _ Hr)). lia.
Qed.

Lemma texts_app a v : texts (a ++ [v]) = {[Util.print v]} ∪ texts a.
Proof. unfold texts. rewrite fmap_app, list_to_set_app_L. cbn. set_solver. Qed.

Lemma size_list_le (l : list bytes) : (base.size (list_to_set l : gset bytes) ≤ Datatypes.length l)%nat.
Proof.
  induction l as [|x l IH]; cbn [list_to_set foldr]; [by rewrite size_empty|].
  rewrite size_union_alt, size_singleton. simpl.
  pose proof (subseteq_size (list_to_set l ∖ {[x]} : gset bytes) (list_to_set l) ltac:(set_solver)). lia.
Qed.

Lemma size_le_of_dom (m : gmap bytes unit) vs : dom m = texts vs → Z.of_nat (base.size m) ≤ zlen vs.
Proof.
  intros Hd. rewrite <-size_dom, Hd. unfold texts, zlen. rewrite <-(length_fmap Util.print vs).
  pose proof (size_list_le (Util.print <$> vs)). lia.
Qed.

(** ** Conversion *)
(** The next element of an intset. *)
Lemma intset_next ist mem vs a b it :
  Intset.repr ist vs → vs = a ++ b →
  setTypeNext (OBJ_ENCODING_INTSET ist mem : setobj D) (SetTypeIterator (zlen a) it) =
  Some (OBJ_ENCODING_INTSET ist mem, SetTypeIterator (zlen a + 1) it, inr <$> head b).
Proof.
  intros Hr Hvs. unfold setTypeNext, Intset.intsetGet. cbn [ii di].
  pose proof (Intset.repr_bound _ _ Hr) as Hb. unfold Intset.MAXLEN in Hb.
  assert (zlen vs = zlen a + zlen b) as Hl by (rewrite Hvs; zl). zlen_pos.
  rewrite uwrap_id by (unfold in_u; lia).
  rewrite swrap_id; [|lia|unfold in_s; change (2 ^ (32 - 1)) with (2 ^ 31); lia].
  rewrite (Intset.repr_len _ _ Hr). destruct b as [|x b].
  - rewrite app_nil_r in Hvs. by rewrite Hvs, Z.ltb_irrefl.
  - rewrite zlen_cons in Hl. pose proof (zlen_nonneg b). destruct (Z.ltb_spec (zlen a) (zlen vs)); [|lia].
    rewrite (Intset.get_repr ist vs a x b Hr Hvs). done.
Qed.

Lemma text_contents v : in_s 64 v → (s ← Sds.sdsfromlonglong v; sds_contents s) = Some (Util.print v).
Proof.
  intros Hv. destruct (fromlonglong_ok v Hv) as (s & -> & Hs). cbn [mbind option_bind]. unfold sds_contents.
  destruct (rep_view s _ Hs) as (-> & Hp & _). done.
Qed.

Lemma convert_loop_ok ist mem vs b : ∀ a d m it fuel,
  Intset.repr ist vs → vs = a ++ b → table_rep d m → dom m = texts a → (Datatypes.length b < fuel)%nat →
  ∃ si d' m', loop fuel (convert_body (OBJ_ENCODING_INTSET ist mem)) (SetTypeIterator (zlen a) it, d) = Some (si, d') ∧
    table_rep d' m' ∧ dom m' = texts vs.
Proof.
  induction b as [|x b IH]; intros a d m it fuel Hr Hvs Hd Hm Hfuel; (destruct fuel as [|fuel]; [lia|]);
    rewrite loop_S; unfold convert_body at 2; rewrite (intset_next ist mem vs a _ it Hr Hvs); cbn [mbind option_bind head fmap option_fmap option_map].
  - rewrite app_nil_r in Hvs. rewrite Hvs. by eexists _, d, m.
  - pose proof (repr_range64 ist vs Hr) as Hrange. pose proof (Intset.repr_bound _ _ Hr) as Hb. unfold Intset.MAXLEN in Hb.
    assert (zlen vs = zlen a + 1 + zlen b) as Hl by (rewrite Hvs; zl). zlen_pos.
    assert (in_s 64 x) as Hx by (eapply (proj1 (Forall_forall _ _)); [done|rewrite Hvs; set_solver]).
    assert (m !! Util.print x = None) as Hfresh.
    { apply not_elem_of_dom. rewrite Hm, texts_elem; [|rewrite Hvs in Hrange; by apply Forall_app in Hrange as [? _]|done].
      pose proof (Intset.sorted_nodup _ (Intset.repr_sorted _ _ Hr)) as Hnd. rewrite Hvs in Hnd.
      apply NoDup_app in Hnd as (_ & Hnd & _). intros Hin. apply (Hnd x Hin). set_solver. }
    pose proof (size_le_of_dom m a Hm).
    destruct (table_add_ok d m (Util.print x) tt Hd ltac:(lia) Hfresh) as (d1 & Hadd & Hd1).
    pose proof (text_contents x Hx) as Htx. destruct (Sds.sdsfromlonglong x) as [s|]; [|done]. cbn [mbind option_bind] in Htx |- *.
    rewrite Htx. cbn [mbind option_bind]. rewrite Hadd. cbn [mbind option_bind].
    rewrite Z.eqb_refl. replace (zlen a + 1) with (zlen (a ++ [x])) by zl.
    apply (IH (a ++ [x]) d1 (<[Util.print x := tt]> m)); [done|rewrite Hvs; by app_norm|done| |simpl in Hfuel; lia].
    by rewrite dom_insert_L, Hm, texts_app.
Qed.

Lemma convert_ok ist mem vs m :
  Intset.repr ist vs → table_rep mem m →
  ∃ d' m', setTypeConvert (OBJ_ENCODING_INTSET ist mem) = Some (OBJ_ENCODING_HT d') ∧ table_rep d' m' ∧ dom m' = texts vs.
Proof.
  intros Hr Hm. unfold setTypeConvert, Intset.intsetLen. rewrite (Intset.repr_len _ _ Hr).
  pose proof (Intset.repr_bound _ _ Hr) as Hb. unfold Intset.MAXLEN in Hb. zlen_pos.
  destruct (table_expand_ok (table_new mem) ∅ (zlen vs) (table_new_ok mem m Hm) ltac:(lia)) as (d1 & r & -> & Hd1).
  cbn [mbind option_bind setTypeInitIterator].
  destruct (convert_loop_ok ist mem vs vs [] d1 ∅ None (S (Z.to_nat (zlen vs))) Hr eq_refl Hd1) as (si & d' & m' & Hrun & Hd' & Hm');
    [by rewrite dom_empty_L|unfold zlen; lia|].
  change (zlen []) with 0 in Hrun. rewrite Hrun. cbn [mbind option_bind setTypeReleaseIterator]. eauto.
Qed.

(** ** Operations *)
Lemma not_text value vs : Util.string2ll value = None → Forall (in_s 64) vs → value ∉ texts vs.
Proof.
  intros Hn Hvs. unfold texts. rewrite elem_of_list_to_set, list_elem_of_fmap. intros (v & -> & Hin).
  rewrite Forall_forall in Hvs. by rewrite Util.string2ll_complete in Hn by auto.
Qed.

Lemma texts_elems vs value : value ∈ texts vs ↔ ∃ v, value = Util.print v ∧ v ∈ Intset.elems vs.
Proof. unfold texts, Intset.elems. rewrite elem_of_list_to_set, list_elem_of_fmap. by setoid_rewrite elem_of_list_to_set. Qed.

Lemma texts_add vs vs' v : Intset.elems vs' = {[v]} ∪ Intset.elems vs → texts vs' = {[Util.print v]} ∪ texts vs.
Proof.
  intros He. apply set_eq. intros value. rewrite elem_of_union, elem_of_singleton, !texts_elems, He.
  setoid_rewrite elem_of_union. setoid_rewrite elem_of_singleton. naive_solver.
Qed.

Lemma texts_remove vs vs' v : Forall (in_s 64) vs → in_s 64 v →
  Intset.elems vs' = Intset.elems vs ∖ {[v]} → texts vs' = texts vs ∖ {[Util.print v]}.
Proof.
  intros Hvs Hv He. apply set_eq. intros value. rewrite elem_of_difference, elem_of_singleton, !texts_elems, He.
  setoid_rewrite elem_of_difference. setoid_rewrite elem_of_singleton. split.
  - intros (w & -> & Hw & Hne). split; [eauto|]. intros Heq. apply Hne. apply print_injective; [|done|done].
    rewrite Forall_forall in Hvs. apply Hvs. unfold Intset.elems in Hw. by apply elem_of_list_to_set in Hw.
  - intros [(w & -> & Hw) Hne]. exists w. split; [done|]. split; [done|]. by intros ->.
Qed.

(** The members as the elements of the set, for each operation. *)
Inductive set_op := SAdd (value : bytes) | SRem (value : bytes) | SMember (value : bytes) | SSize.

Definition run_set_op (c : set_op) o : option (setobj D * Z) :=
  match c with
  | SAdd value => setTypeAdd max_entries o value
  | SRem value => setTypeRemove o value
  | SMember value => setTypeIsMember o value
  | SSize => Some (o, setTypeSize o)
  end.

Definition spec_set_op (c : set_op) X : gset bytes * Z :=
  match c with
  | SAdd value => ({[value]} ∪ X, if decide (value ∈ X) then 0 else 1)
  | SRem value => (X ∖ {[value]}, if decide (value ∈ X) then 1 else 0)
  | SMember value => (X, if decide (value ∈ X) then 1 else 0)
  | SSize => (X, Z.of_nat (base.size X))
  end.

Lemma set_op_ht (c : set_op) d (m : gmap bytes unit) :
  table_rep d m → Z.of_nat (base.size m) < 2 ^ 29 - 1 →
  ∃ d' m', run_set_op c (OBJ_ENCODING_HT d) = Some (OBJ_ENCODING_HT d', (spec_set_op c (dom m)).2) ∧
    table_rep d' m' ∧ dom m' = (spec_set_op c (dom m)).1.
Proof.
  intros Hd Hs. destruct c as [value|value|value|]; cbn [run_set_op spec_set_op setTypeAdd setTypeRemove setTypeIsMember setTypeSize fst snd].
  - destruct (decide (value ∈ dom m)) as [Hin|Hin].
    + destruct (table_add_present_ok d m value tt Hd ltac:(lia)) as (d' & -> & Hd'); [by apply elem_of_dom|].
      cbn [mbind option_bind]. exists d', m. split; [done|]. split; [done|]. set_solver.
    + destruct (table_add_ok d m value tt Hd ltac:(lia)) as (d' & -> & Hd'); [by apply not_elem_of_dom|].
      cbn [mbind option_bind]. rewrite Z.eqb_refl. exists d', (<[value := tt]> m). split; [done|]. split; [done|]. apply dom_insert_L.
  - destruct (table_delete_ok d m value Hd) as (d1 & -> & Hd1). cbn [mbind option_bind].
    destruct (decide (is_Some (m !! value))) as [Hin|Hin]; cbn [Z.eqb].
    + change (Dict.DICT_OK =? Dict.DICT_OK) with true. cbv iota. rewrite decide_True by (by apply elem_of_dom).
      destruct (shrink_ok d1 _ Hd1) as (d2 & -> & Hd2); [rewrite map_size_delete; destruct (m !! value); simpl; lia|].
      cbn [mbind option_bind]. exists d2, (delete value m). split; [done|]. split; [done|]. apply dom_delete_L.
    + change (Dict.DICT_ERR =? Dict.DICT_OK) with false. cbv iota. rewrite decide_False by (by rewrite elem_of_dom).
      exists d1, (delete value m). split; [done|]. split; [done|]. apply dom_delete_L.
  - destruct (table_find_ok d m value Hd) as (d' & r & -> & Hd' & Hr). cbn [mbind option_bind]. exists d', m.
    split; [|done]. destruct r as [e|].
    + destruct Hr as [Hr _]. by rewrite decide_True by (by apply elem_of_dom).
    + rewrite decide_False by (by apply not_elem_of_dom). done.
  - exists d, m. split; [|done]. by rewrite (table_size_ok d m Hd), size_dom.
Qed.

Lemma elems_size ist vs : Intset.repr ist vs → base.size (texts vs) = Datatypes.length vs.
Proof.
  intros Hr. unfold texts. rewrite size_list_to_set, length_fmap; [done|].
  apply NoDup_fmap_2_strong; [|apply Intset.sorted_nodup, Hr]. pose proof (repr_range64 ist vs Hr) as Hrange.
  rewrite Forall_forall in Hrange. intros v w Hv Hw. apply print_injective; auto.
Qed.

Lemma set_op_intset (c : set_op) ist mem vs (m : gmap bytes unit) :
  Intset.repr ist vs → table_rep mem m → zlen vs ≤ Z.max 0 max_entries → zlen vs < 2 ^ 29 - 1 →
  ∃ o', run_set_op c (OBJ_ENCODING_INTSET ist mem) = Some (o', (spec_set_op c (texts vs)).2) ∧
    set_rep o' (spec_set_op c (texts vs)).1.
Proof.
  intros Hr Hm Hmax Hlen. pose proof (repr_range64 ist vs Hr) as Hrange.
  assert (set_rep (OBJ_ENCODING_INTSET ist mem) (texts vs)) as Hsame by (by exists vs, m).
  destruct c as [value|value|value|]; cbn [run_set_op spec_set_op setTypeAdd setTypeRemove setTypeIsMember setTypeSize fst snd];
    unfold isSdsRepresentableAsLongLong.
  - destruct (Util.string2ll value) as [v|] eqn:Ev.
    + apply Util.string2ll_sound in Ev as [Hv ->].
      destruct (wp_inv _ _ (Intset.step_refines (Intset.Add v) ist vs Hr Hv Hlen)) as ([ist1 b] & Hrun & vs1 & Hr1 & Hstep & _ & Hl1).
      cbn in Hrun, Hr1, Hl1. rewrite Hrun. cbn [mbind option_bind]. injection Hstep as He Hb. symmetry in He.
      pose proof (texts_add vs vs1 v He) as Ht. assert (v ∈ Intset.elems vs ↔ Util.print v ∈ texts vs) as Hmem.
      { rewrite texts_elem by done. unfold Intset.elems. apply elem_of_list_to_set. }
      destruct (decide (Util.print v ∈ texts vs)) as [Hin|Hin].
      * rewrite bool_decide_eq_false_2 in Hb by tauto. subst b. exists (OBJ_ENCODING_INTSET ist1 mem). split; [done|].
        exists vs1, m. split_and!; try done. assert (zlen vs1 = zlen vs); [|lia]. unfold zlen.
        rewrite <-(elems_size ist1 vs1 Hr1), <-(elems_size ist vs Hr), Ht. do 2 f_equal. set_solver.
      * rewrite bool_decide_eq_true_2 in Hb by tauto. subst b. unfold Intset.intsetLen. rewrite (Intset.repr_len _ _ Hr1).
        destruct (Z.ltb_spec max_entries (zlen vs1)).
        -- destruct (convert_ok ist1 mem vs1 m Hr1 Hm) as (d' & m' & -> & Hd' & Hdom). cbn [mbind option_bind].
           eexists. split; [done|]. exists m'. split; [done|]. by rewrite Hdom.
        -- cbn [mbind option_bind]. eexists. split; [done|]. exists vs1, m. split_and!; try done. lia.
    + pose proof (not_text value vs Ev Hrange) as Hnin. rewrite decide_False by done.
      destruct (convert_ok ist mem vs m Hr Hm) as (d' & m' & -> & Hd' & Hdom). cbn [mbind option_bind].
      destruct (table_add_ok d' m' value tt Hd') as (d2 & -> & Hd2);
        [pose proof (size_le_of_dom m' vs Hdom); lia|apply not_elem_of_dom; by rewrite Hdom|].
      cbn [mbind option_bind]. rewrite Z.eqb_refl. eexists. split; [done|]. exists (<[value := tt]> m'). split; [done|].
      by rewrite dom_insert_L, Hdom.
  - destruct (Util.string2ll value) as [v|] eqn:Ev.
    + apply Util.string2ll_sound in Ev as [Hv ->].
      destruct (wp_inv _ _ (Intset.step_refines (Intset.Remove v) ist vs Hr Hv Hlen)) as ([ist1 b] & Hrun & vs1 & Hr1 & Hstep & _ & Hl1).
      cbn in Hrun, Hr1, Hl1. rewrite Hrun. cbn [mbind option_bind]. injection Hstep as He Hb. symmetry in He.
      pose proof (texts_remove vs vs1 v Hrange Hv He) as Ht. eexists. split.
      * do 2 f_equal. assert (v ∈ Intset.elems vs ↔ Util.print v ∈ texts vs) as Hmem.
        { rewrite texts_elem by done. unfold Intset.elems. apply elem_of_list_to_set. }
        rewrite <-Hb. by destruct (decide (Util.print v ∈ texts vs)); case_bool_decide; tauto.
      * exists vs1, m. split_and!; try done. assert (zlen vs1 ≤ zlen vs); [|lia]. unfold zlen.
        rewrite <-(elems_size ist1 vs1 Hr1), <-(elems_size ist vs Hr), Ht.
        pose proof (subseteq_size (texts vs ∖ {[Util.print v]}) (texts vs) ltac:(set_solver)). lia.
    + pose proof (not_text value vs Ev Hrange) as Hnin. rewrite decide_False by done. eexists. split; [done|].
      exists vs, m. split_and!; try done. set_solver.
  - destruct (Util.string2ll value) as [v|] eqn:Ev.
    + apply Util.string2ll_sound in Ev as [Hv ->]. rewrite (Intset.find_eq ist vs v Hr Hv). cbn [mbind option_bind].
      eexists. split; [|exact Hsame]. do 2 f_equal. pose proof (texts_elem vs v Hrange Hv).
      by destruct (decide (Util.print v ∈ texts vs)); case_bool_decide; tauto.
    + pose proof (not_text value vs Ev Hrange) as Hnin. rewrite decide_False by done. eauto.
  - eexists. split; [|exact Hsame]. unfold Intset.intsetLen. rewrite (Intset.repr_len _ _ Hr), (elems_size ist vs Hr). done.
Qed.

Lemma set_op_refines (c : set_op) o X :
  set_rep o X → Z.of_nat (base.size X) < 2 ^ 29 - 1 →
  ∃ o', run_set_op c o = Some (o', (spec_set_op c X).2) ∧ set_rep o' (spec_set_op c X).1.
Proof.
  intros Ho Hs. destruct o as [ist mem|d]; cbn [set_rep] in Ho.
  - destruct Ho as (vs & m & Hr & Hm & -> & Hmax). apply (set_op_intset c ist mem vs m); try done.
    rewrite (elems_size ist vs Hr) in Hs. exact Hs.
  - destruct Ho as (m & Hm & <-). rewrite size_dom in Hs.
    destruct (set_op_ht c d m Hm Hs) as (d' & m' & -> & Hd' & Hdom). eexists. split; [done|]. by exists m'.
Qed.

Fixpoint run_set_ops (cs : list set_op) o : option (setobj D * list Z) :=
  match cs with
  | [] => Some (o, [])
  | c :: cs => '(o, r) ← run_set_op c o; '(o, rs) ← run_set_ops cs o; Some (o, r :: rs)
  end.

Fixpoint spec_set_ops (cs : list set_op) X : gset bytes * list Z :=
  match cs with
  | [] => (X, [])
  | c :: cs => let '(X, r) := spec_set_op c X in let '(X, rs) := spec_set_ops cs X in (X, r :: rs)
  end.

Lemma spec_set_size (c : set_op) X : (base.size (spec_set_op c X).1 ≤ S (base.size X))%nat.
Proof.
  destruct c as [value|value|value|]; simpl; try lia.
  - rewrite size_union_alt, size_singleton. pose proof (subseteq_size (X ∖ {[value]}) X ltac:(set_solver)). lia.
  - pose proof (subseteq_size (X ∖ {[value]}) X ltac:(set_solver)). lia.
Qed.

Lemma set_ops_refine (cs : list set_op) : ∀ o X,
  set_rep o X → Z.of_nat (base.size X) + zlen cs ≤ 2 ^ 29 - 1 →
  ∃ o', run_set_ops cs o = Some (o', (spec_set_ops cs X).2) ∧ set_rep o' (spec_set_ops cs X).1.
Proof.
  induction cs as [|c cs IH]; intros o X Ho Hs; [by exists o|]. rewrite zlen_cons in Hs. zlen_pos.
  cbn [run_set_ops spec_set_ops]. pose proof (spec_set_size c X).
  destruct (set_op_refines c o X Ho ltac:(lia)) as (o1 & -> & Ho1). cbn [mbind option_bind].
  destruct (spec_set_op c X) as [X1 r]. simpl in *. destruct (IH o1 X1 Ho1 ltac:(lia)) as (o' & -> & Ho'). cbn [mbind option_bind].
  exists o'. by destruct (spec_set_ops cs X1).
Qed.

(** C10: a set object created for its first value behaves as a finite set of
    strings under any sequence of additions, removals, membership tests and
    size queries, also when it turns from an intset into a hash table, and it
    stays an intset only while it has at most [set_max_intset_entries]
    members. *)
Theorem set_session_refines (mem : D) (m : gmap bytes unit) (value : bytes) (cs : list set_op) :
  table_rep mem m → zlen cs ≤ 2 ^ 29 - 1 →
  ∃ o', run_set_ops cs (setTypeCreate mem value) = Some (o', (spec_set_ops cs ∅).2) ∧
    set_rep o' (spec_set_ops cs ∅).1 ∧
    match o' with
    | OBJ_ENCODING_INTSET _ _ => setTypeSize o' ≤ Z.max 0 max_entries
    | OBJ_ENCODING_HT _ => True
    end.
Proof.
  intros Hm Hlen. assert (set_rep (setTypeCreate mem value) ∅) as Ho.
  { unfold setTypeCreate. destruct (isSdsRepresentableAsLongLong value).
    - exists [], m. split_and!; [apply Intset.repr_new|done|done|]. change (zlen []) with 0. lia.
    - exists ∅. split; [by apply (table_new_ok mem m)|apply dom_empty_L]. }
  destruct (set_ops_refine cs _ ∅ Ho) as (o' & Hrun & Ho'); [rewrite size_empty; lia|].
  exists o'. split; [done|]. split; [done|]. destruct o' as [ist mem'|]; [|done].
  destruct Ho' as (vs & m' & Hr & _ & _ & Hmax). simpl. unfold Intset.intsetLen. by rewrite (Intset.repr_len _ _ Hr).
Qed.

(** ** Iteration *)
Context `{!TableIterOk D E I bytes unit}.

(** The iterator is at the members [rest]. *)
Definition set_iter_at o X (si : setTypeIterator) (rest : list bytes) : Prop :=
  set_rep o X ∧
  match o with
  | OBJ_ENCODING_INTSET ist _ =>
      ∃ a b, Intset.repr ist (a ++ b) ∧ si = SetTypeIterator (zlen a) None ∧ rest = Util.print <$> b
  | OBJ_ENCODING_HT d => ∃ it, di si = Some it ∧ iter_rest d it rest
  end.

Lemma set_iter_init o X :
  set_rep o X → ∃ l, set_iter_at o X (setTypeInitIterator o) l ∧ NoDup l ∧ list_to_set l = X.
Proof.
  intros Ho. destruct o as [ist mem|d].
  - pose proof Ho as (vs & m & Hr & _ & -> & _). exists (Util.print <$> vs). split; [split; [done|]|].
    + by exists [], vs.
    + split; [|done]. apply NoDup_fmap_2_strong; [|apply Intset.sorted_nodup, Hr].
      pose proof (repr_range64 ist vs Hr) as Hrange. rewrite Forall_forall in Hrange.
      intros v w Hv Hw. apply print_injective; auto.
  - pose proof Ho as (m & Hd & <-). destruct (iter_new_ok d m Hd) as (ks & Hks & Hnd & Hin). exists ks.
    split; [split; [done|by exists iter_new]|]. split; [done|]. apply set_eq. intros k.
    by rewrite elem_of_list_to_set, elem_of_dom.
Qed.

Lemma set_iter_next o X si rest :
  set_iter_at o X si rest →
  ∃ o' si', setTypeNextObject o si = Some (o', si', head rest) ∧
    match rest with
    | [] => ∃ o'', setTypeReleaseIterator o' si' = Some o'' ∧ set_rep o'' X
    | _ :: rest => set_iter_at o' X si' rest
    end.
Proof.
  intros [Ho Hsi]. unfold setTypeNextObject. destruct o as [ist mem|d].
  - destruct Hsi as (a & b & Hr & -> & ->). rewrite (intset_next ist mem _ a b None Hr eq_refl). cbn [mbind option_bind].
    exists (OBJ_ENCODING_INTSET ist mem), (SetTypeIterator (zlen a + 1) None). destruct b as [|x b]; [split; [done|]; by exists (OBJ_ENCODING_INTSET ist mem)|].
    cbn [head fmap option_fmap option_map list_fmap].
    assert (in_s 64 x) as Hx.
    { pose proof (repr_range64 ist _ Hr) as Hrange. apply Forall_app in Hrange as [_ Hrange]. by inversion Hrange. }
    pose proof (text_contents x Hx) as Htx. destruct (Sds.sdsfromlonglong x) as [s|]; [|done]. cbn [mbind option_bind] in Htx |- *.
    rewrite Htx. split; [done|]. split; [done|]. exists (a ++ [x]), b. rewrite <-app_assoc. split_and!; [done|f_equal; zl|done].
  - destruct Hsi as (it & Hit & Hrest). pose proof Ho as (m & Hd & <-). cbn [setTypeNext]. rewrite Hit. cbn [mbind option_bind].
    destruct (iter_next_ok d m it rest Hd Hrest) as (d' & it' & r & -> & Hd' & Hr). cbn [mbind option_bind].
    exists (OBJ_ENCODING_HT d'), (SetTypeIterator (ii si) (Some it')). destruct r as [e|].
    + destruct Hr as (k & ks & -> & _ & -> & Hks). cbn [mbind option_bind]. split; [done|]. split; [by exists m|]. by exists it'.
    + destruct Hr as (-> & d'' & Hrel & Hd''). split; [done|]. cbn [setTypeReleaseIterator di mbind option_bind].
      rewrite Hrel. cbn [mbind option_bind]. eexists. split; [done|]. by exists m.
Qed.

(** [while ((ele = setTypeNextObject(si)) != NULL) ...], then the release. *)
Fixpoint set_elements (fuel : nat) o (si : setTypeIterator) : option (list bytes * setobj D) :=
  match fuel with
  | O => None
  | S fuel =>
      '(o, si, r) ← setTypeNextObject o si;
      match r with
      | None => o ← setTypeReleaseIterator o si; Some ([], o)
      | Some k => '(l, o) ← set_elements fuel o si; Some (k :: l, o)
      end
  end.

Lemma set_elements_ok rest : ∀ o X si fuel,
  set_iter_at o X si rest → (Datatypes.length rest < fuel)%nat →
  ∃ o', set_elements fuel o si = Some (rest, o') ∧ set_rep o' X.
Proof.
  induction rest as [|k rest IH]; intros o X si fuel Hsi Hfuel; (destruct fuel as [|fuel]; [lia|]); cbn [set_elements];
    destruct (set_iter_next o X si _ Hsi) as (o1 & si1 & -> & Hnext); cbn [mbind option_bind head].
  - destruct Hnext as (o2 & -> & Ho2). cbn [mbind option_bind]. eauto.
  - destruct (IH o1 X si1 fuel Hnext) as (o' & -> & Ho'); [simpl in Hfuel; lia|]. cbn [mbind option_bind]. eauto.
Qed.

(** Iterating over a set, in either encoding, returns every member exactly
    once, ends, can be released and leaves the set as it was. *)
Theorem setTypeNext_complete o X :
  set_rep o X →
  ∃ l o', set_elements (S (base.size X)) o (setTypeInitIterator o) = Some (l, o') ∧
    NoDup l ∧ list_to_set l = X ∧ set_rep o' X.
Proof.
  intros Ho. destruct (set_iter_init o X Ho) as (l & Hsi & Hnd & Hl).
  destruct (set_elements_ok l o X _ (S (base.size X)) Hsi) as (o' & Hrun & Ho').
  - rewrite <-Hl, size_list_to_set by done. lia.
  - by exists l, o'.
Qed.
End Spec.

(** ** Witness: the dictionary of dict.c *)
Definition setDictType (hash : bytes → Z) : Dict.dictType bytes unit :=
  Dict.DictType hash None None (Some sds_equal) true false.

Lemma setDictType_ok hash : (∀ k, in_u 64 (hash k)) → DictTypeOk (setDictType hash).
Proof. intros Hh. split; simpl; [done|done|]. intros f k1 k2 [= <-]. apply bool_decide_eq_true. Qed.

#[local] Instance demo_set_type_ok : DictTypeOk (setDictType demo_hash).
Proof. apply setDictType_ok. intros k. by apply uwrap_bound. Qed.

#[local] Instance demo_set_table : TableOk (Dict.store bytes unit * Dict.dict bytes unit) Dict.ptr bytes unit :=
  dict_table_ok (setDictType demo_hash) eq_refl.

#[local] Instance demo_set_iter : TableIter (Dict.store bytes unit * Dict.dict bytes unit) Dict.ptr Dict.dictIterator bytes :=
  dict_iter Dict.size.

#[local] Instance demo_set_iter_ok : TableIterOk (Dict.store bytes unit * Dict.dict bytes unit) Dict.ptr Dict.dictIterator bytes unit :=
  dict_iter_ok Dict.size (setDictType demo_hash) eq_refl.

Definition demo_mem : Dict.store bytes unit * Dict.dict bytes unit :=
  (Dict.Store ∅ [] [] true, Dict.dictCreate (setDictType demo_hash)).

Lemma demo_mem_ok : table_rep demo_mem (∅ : gmap bytes unit).
Proof. split; [apply DictRefine.create_ok|reflexivity]. Qed.

#[local] Instance demo_set_alloc : Alloc := junk0.

Definition demo_set_ops : list set_op :=
  [SAdd (bytes_of "12"); SAdd (bytes_of "-7"); SAdd (bytes_of "12"); SSize; SMember (bytes_of "-7");
   SAdd (bytes_of "007"); SMember (bytes_of "12"); SRem (bytes_of "-7"); SRem (bytes_of "x"); SSize].

Lemma set_session_refines_witness :
  ∃ o', run_set_ops 512 demo_set_ops (setTypeCreate demo_mem (bytes_of "12")) = Some (o', [1; 1; 0; 2; 1; 1; 1; 1; 0; 2]) ∧
    set_rep 512 o' (spec_set_ops demo_set_ops ∅).1.
Proof.
  destruct (set_session_refines 512 demo_mem ∅ (bytes_of "12") demo_set_ops) as (o' & H1 & H2 & _).
  - exact demo_mem_ok.
  - by vm_compute.
  - exists o'. split; [|exact H2]. rewrite H1.
    replace (spec_set_ops demo_set_ops ∅).2 with [1; 1; 0; 2; 1; 1; 1; 1; 0; 2] by (vm_compute; reflexivity). reflexivity.
Defined.

(** A set that has become a hash table. *)
Definition demo_set : setobj (Dict.store bytes unit * Dict.dict bytes unit) :=
  match run_set_ops 512 demo_set_ops (setTypeCreate demo_mem (bytes_of "12")) with Some (o, _) => o | None => OBJ_ENCODING_HT demo_mem end.

Lemma demo_set_ok : set_rep 512 demo_set (spec_set_ops demo_set_ops ∅).1.
Proof.
  assert (set_rep 512 (setTypeCreate demo_mem (bytes_of "12")) ∅) as Ho.
  { exists [], ∅. split_and!; [apply Intset.repr_new|exact demo_mem_ok|done|done]. }
  destruct (set_ops_refine 512 demo_set_ops _ ∅ Ho) as (o' & Hrun & Ho'); [by vm_compute|].
  unfold demo_set. rewrite Hrun. exact Ho'.
Qed.

Lemma setTypeNext_complete_witness :
  ∃ l o', set_elements 3 demo_set (setTypeInitIterator demo_set) = Some (l, o') ∧ NoDup l ∧
    list_to_set l = (spec_set_ops demo_set_ops ∅).1 ∧ set_rep 512 o' (spec_set_ops demo_set_ops ∅).1.
Proof.
  destruct (setTypeNext_complete 512 demo_set (spec_set_ops demo_set_ops ∅).1 demo_set_ok) as (l & o' & H1 & H2 & H3 & H4).
  exists l, o'. split; [|by split_and!]. rewrite <-H1. done.
Defined.
