(* ===== verification/PackedPairs.v ===== *)
(** * Pairs of strings in a packed list

    Hashes and sorted sets keep two strings per element in a packed list.
    [flat] is that layout; the lemmas say where the strings of a pair are and
    what reading, deleting and inserting a pair does. *)

From S2P Require Import Prelude.
From S2P Require Import Mem.
From S2P Require Import Util.
From S2P Require Import Ziplist.
From S2P Require Import ZiplistRepr.
From S2P Require Import ZiplistOps.
From S2P Require Import ZiplistWalk.
From S2P Require Import ZiplistSpec.
From S2P Require Import Packed.
From S2P Require Import Sds.
From S2P Require Import SdsSpec.
From S2P Require Import SdsRefine.
From S2P Require Import Object.
From S2P Require Import ObjectSpec.
Import Packed.
Import Ziplist(zval, ZStr, ZInt, where_, ZIPLIST_HEAD, ZIPLIST_TAIL).
Import Object(sds_contents).

(** ** Pairs laid out as a list of strings *)
Fixpoint flat (kvs : list (bytes * bytes)) : list bytes :=
  match kvs with [] => [] | (k, v) :: kvs => k :: v :: flat kvs end.

Lemma flat_app a b : flat (a ++ b) = flat a ++ flat b.
Proof. induction a as [|[k v] a IH]; simpl; [done|]. by rewrite IH. Qed.

Lemma flat_length kvs : length (flat kvs) = (2 * length kvs)%nat.
Proof. induction kvs as [|[k v] kvs IH]; simpl; lia. Qed.

Lemma flat_zlen kvs : zlen (flat kvs) = 2 * zlen kvs.
Proof. unfold zlen. rewrite flat_length. lia. Qed.

Lemma flat_key kvs i : flat kvs !! (2 * i)%nat = fst <$> kvs !! i.
Proof.
  revert i. induction kvs as [|[k v] kvs IH]; intros [|i]; [done..|].
  replace (2 * S i)%nat with (S (S (2 * i))) by lia. apply IH.
Qed.

Lemma flat_val kvs i : flat kvs !! S (2 * i)%nat = snd <$> kvs !! i.
Proof.
  revert i. induction kvs as [|[k v] kvs IH]; intros [|i]; [done..|].
  replace (S (2 * S i))%nat with (S (S (S (2 * i)))) by lia. apply IH.
Qed.

(** Cutting after a key or after a pair. *)
Lemma flat_take a b : take (2 * length a) (flat (a ++ b)) = flat a.
Proof. rewrite flat_app. apply take_app_length'. by rewrite flat_length. Qed.

Lemma flat_drop a b : drop (2 * length a) (flat (a ++ b)) = flat b.
Proof. rewrite flat_app. apply drop_app_length'. by rewrite flat_length. Qed.

Lemma flat_take_key a k v b : take (S (2 * length a)) (flat (a ++ (k, v) :: b)) = flat a ++ [k].
Proof.
  rewrite flat_app. cbn [flat]. rewrite (cons_middle k (flat a)), app_assoc. apply take_app_length'.
  rewrite length_app, flat_length. simpl. lia.
Qed.

Lemma flat_drop_key a k v b : drop (S (2 * length a)) (flat (a ++ (k, v) :: b)) = v :: flat b.
Proof.
  rewrite flat_app. cbn [flat]. rewrite (cons_middle k (flat a)), app_assoc. apply drop_app_length'.
  rewrite length_app, flat_length. simpl. lia.
Qed.

(** ** Values of a packed list *)
Definition zval_ok (v : zval) : Prop := match v with ZStr s => zlen s < 2 ^ 62 | ZInt n => in_s 64 n end.

Lemma zval_text_ok s : zlen s < 2 ^ 62 → zval_ok (zval_of s).
Proof.
  intros Hs. unfold zval_of. destruct (Ziplist.zipTryEncoding s) as [[n enc]|] eqn:Ez; [|done].
  apply zipTryEncoding_inv in Ez as [Hn _]. by apply Util.string2ll_sound in Hn as [? _].
Qed.

Lemma contents_rep s c : sds_rep s c → sds_contents s = Some c.
Proof. intros Hs. unfold sds_contents. destruct (rep_view s c Hs) as (-> & Hp & _). done. Qed.

(** A new string with the text of a value. *)
Lemma new_text `{Alloc} v :
  zval_ok v →
  (s ← (match v with
        | ZStr vstr => Sds.sdsnewlen (Some vstr) (zlen vstr)
        | ZInt vll => Sds.sdsfromlonglong vll
        end); sds_contents s) = Some (text v).
Proof.
  destruct v as [s|n]; intros Hv.
  - pose proof (zlen_nonneg s). destruct (newlen_ok (Some s) (zlen s) s) as (x & -> & Hx);
      [simpl in Hv; lia|done|rewrite <-(app_nil_r s) at 1; apply load_prefix|].
    cbn [mbind option_bind]. by apply contents_rep.
  - destruct (fromlonglong_ok n Hv) as (x & -> & Hx). cbn [mbind option_bind]. by apply contents_rep.
Qed.

(** ** Budgets *)
Lemma pair_budget kvs k v : (k, v) ∈ kvs → zlen k + zlen v + 34 ≤ budget (flat kvs).
Proof.
  induction kvs as [|[k' v'] kvs IH]; intros Hin; [set_solver|]. simpl. pose proof (budget_nonneg (flat kvs)). zlen_pos.
  apply elem_of_cons in Hin as [[= -> ->]|Hin]; [lia|]. specialize (IH Hin). lia.
Qed.

Lemma pairs_budget kvs : 34 * zlen kvs ≤ budget (flat kvs).
Proof. pose proof (budget_nonneg (flat kvs)). rewrite flat_zlen in *. lia. Qed.

(** ** Positions *)
Section Pairs.
Context {L P : Type} `{!Packed L P} `{!PackedOk L P}.
Implicit Types (l : L) (kvs a b : list (bytes * bytes)).

Lemma index_head l ss :
  packed_rep l ss →
  match ss with
  | [] => packed_index l 0 = Some None
  | _ => ∃ p, packed_index l 0 = Some (Some p) ∧ packed_at l ss 0 p
  end.
Proof.
  intros Hl. pose proof (packed_index_ok l ss 0 Hl) as Hi. unfold norm in Hi. cbn [Z.ltb Z.leb Z.compare andb] in Hi.
  destruct ss as [|s ss]; [done|]. rewrite zlen_cons in Hi. pose proof (zlen_nonneg ss).
  by rewrite (proj2 (Z.ltb_lt 0 (1 + zlen ss))) in Hi by lia.
Qed.

(** From a pair to its second string, and to the next pair. *)
Lemma next_value l kvs a k v b p :
  kvs = a ++ (k, v) :: b → packed_at l (flat kvs) (2 * length a) p →
  ∃ q, packed_next l p = Some (Some q) ∧ packed_at l (flat kvs) (S (2 * length a)) q.
Proof.
  intros Hk Hp. assert (S (2 * length a) < length (flat kvs))%nat as Hlt.
  { rewrite flat_length, Hk, length_app. simpl. lia. }
  pose proof (packed_next_ok l (flat kvs) _ p Hp) as Hn. by rewrite decide_True in Hn by done.
Qed.

Lemma next_key l kvs a k v b q :
  kvs = a ++ (k, v) :: b → packed_at l (flat kvs) (S (2 * length a)) q →
  match b with
  | [] => packed_next l q = Some None
  | _ => ∃ p, packed_next l q = Some (Some p) ∧ packed_at l (flat kvs) (2 * length (a ++ [(k, v)])) p
  end.
Proof.
  intros Hk Hq. pose proof (packed_next_ok l (flat kvs) _ q Hq) as Hn.
  rewrite flat_length, Hk, !length_app in *. simpl length in *.
  destruct b as [|x b]; simpl length in *.
  - by rewrite decide_False in Hn by lia.
  - rewrite decide_True in Hn by lia. destruct Hn as (p & Hp & Hat). exists p. split; [done|].
    by replace (2 * (length a + 1))%nat with (S (S (2 * length a))) by lia.
Qed.

Lemma get_pair l kvs a k v b p q :
  kvs = a ++ (k, v) :: b → packed_at l (flat kvs) (2 * length a) p → packed_at l (flat kvs) (S (2 * length a)) q →
  packed_get l p = Some (Some (zval_of k)) ∧ packed_get l q = Some (Some (zval_of v)).
Proof.
  intros Hk Hp Hq. rewrite (packed_get_ok _ _ _ _ Hp), (packed_get_ok _ _ _ _ Hq), flat_key, flat_val, Hk.
  by rewrite list_lookup_middle.
Qed.

(** Deleting a pair leaves the pointer at the pair after it. *)
Lemma delete_pair_at l kvs a k v b p :
  kvs = a ++ (k, v) :: b → packed_at l (flat kvs) (2 * length a) p → room (flat kvs) →
  ∃ l1 l2, packed_delete l p = Some (l1, p) ∧ packed_delete l1 p = Some (l2, p) ∧
    packed_at l2 (flat (a ++ b)) (2 * length a) p.
Proof.
  intros Hk Hp Hroom. assert (budget (flat kvs) = budget (flat a) + budget (flat b) + zlen k + zlen v + 34) as Hb.
  { rewrite Hk, flat_app, budget_app. simpl. lia. }
  destruct (packed_delete_ok l (flat kvs) _ p Hp) as (l1 & Hd1 & Hl1); [rewrite flat_length, Hk, length_app; simpl; lia|done|].
  rewrite Hk, flat_drop_key, flat_take in Hl1. zlen_pos.
  destruct (packed_delete_ok l1 _ _ p Hl1) as (l2 & Hd2 & Hl2).
  { rewrite length_app, flat_length. simpl. lia. }
  { unfold room in *. rewrite budget_app. simpl. lia. }
  exists l1, l2. split; [done|]. split; [done|].
  rewrite take_app_length' in Hl2 by (by rewrite flat_length). rewrite flat_app.
  replace (drop (S (2 * length a)) (flat a ++ v :: flat b)) with (flat b) in Hl2; [done|].
  rewrite cons_middle, app_assoc, drop_app_length'; [done|]. rewrite length_app, flat_length. simpl. lia.
Qed.

Lemma delete_pair l kvs a k v b p :
  kvs = a ++ (k, v) :: b → packed_at l (flat kvs) (2 * length a) p → room (flat kvs) →
  ∃ l', ('(l, p) ← packed_delete l p; '(l, _) ← packed_delete l p; Some l) = Some l' ∧ packed_rep l' (flat (a ++ b)).
Proof.
  intros Hk Hp Hroom. destruct (delete_pair_at l kvs a k v b p Hk Hp Hroom) as (l1 & l2 & -> & H2 & Hat).
  cbn [mbind option_bind]. rewrite H2. cbn [mbind option_bind]. exists l2. split; [done|]. by eapply packed_at_rep.
Qed.

(** Inserting a pair before another one, and at the end. *)
Lemma insert_pair l a k v b p :
  b ≠ [] → packed_at l (flat (a ++ b)) (2 * length a) p → room (flat (a ++ (k, v) :: b)) →
  ∃ l1 l2 q, packed_insert l p k = Some l1 ∧ packed_next l1 p = Some (Some q) ∧ packed_insert l1 q v = Some l2 ∧
    packed_rep l2 (flat (a ++ (k, v) :: b)).
Proof.
  intros Hb Hp Hroom. assert (budget (flat (a ++ (k, v) :: b)) = budget (flat (a ++ b)) + zlen k + zlen v + 34) as Hbud.
  { rewrite !flat_app, !budget_app. simpl. lia. }
  zlen_pos. destruct (packed_insert_ok l _ _ p k Hp) as (l1 & H1 & Hat1); [unfold room in *; simpl; lia|].
  rewrite flat_take, flat_drop in Hat1. pose proof (packed_next_ok _ _ _ _ Hat1) as Hn.
  assert (length (flat a ++ k :: flat b) = (2 * length a + S (2 * length b))%nat) as Hlen.
  { rewrite length_app. simpl. rewrite !flat_length. done. }
  rewrite Hlen, decide_True in Hn by (destruct b; [done|simpl; lia]). destruct Hn as (q & Hq & Hat2).
  destruct (packed_insert_ok l1 _ _ q v Hat2) as (l2 & H2 & Hat3).
  { unfold room in *. simpl. rewrite budget_app. simpl. rewrite !flat_app, !budget_app in Hroom. simpl in Hroom. lia. }
  exists l1, l2, q. split_and!; try done. apply packed_at_rep in Hat3.
  rewrite (cons_middle k (flat a) (flat b)), app_assoc in Hat3.
  rewrite take_app_length', drop_app_length' in Hat3 by (rewrite length_app, flat_length; simpl; lia).
  rewrite flat_app. cbn [flat]. by rewrite <-app_assoc in Hat3.
Qed.

Lemma push_pair l a k v :
  packed_rep l (flat a) → room (flat (a ++ [(k, v)])) →
  ∃ l1 l2, packed_push l k ZIPLIST_TAIL = Some l1 ∧ packed_push l1 v ZIPLIST_TAIL = Some l2 ∧
    packed_rep l2 (flat (a ++ [(k, v)])).
Proof.
  intros Hl Hroom. rewrite flat_app in *. unfold room in *. rewrite budget_app in Hroom. simpl in Hroom. zlen_pos.
  destruct (packed_push_ok l _ k ZIPLIST_TAIL Hl) as (l1 & H1 & Hl1); [unfold room; simpl; lia|].
  destruct (packed_push_ok l1 _ v ZIPLIST_TAIL Hl1) as (l2 & H2 & Hl2); [unfold room; simpl; rewrite budget_app; simpl; lia|].
  exists l1, l2. split_and!; try done. by rewrite <-app_assoc in Hl2.
Qed.
End Pairs.
