(* ===== verification/HashType.v ===== *)
(** * t_hash.c: hashes as packed lists or hash tables

    A hash object is a ziplist of fields and values in turn while it is small,
    and a hash table otherwise.  Fields and values are the contents of strings.
    The commands, which look objects up in the keyspace and reply, are not
    modelled. *)

From Stdlib Require Import String.
From S2P Require Import Prelude.
From S2P Require Import Mem.
From S2P Require Import Util.
From S2P Require Import Ziplist.
From S2P Require Import ZiplistRepr.
From S2P Require Import Packed.
From S2P Require Import Dict.
From S2P Require Import Sds.
From S2P Require Import Object.
From S2P Require Import KvTable.
From S2P Require Import KvIter.
Import KvTable.
Import KvIter.
Import Packed.
Import Ziplist(zval, ZStr, ZInt, where_, ZIPLIST_HEAD, ZIPLIST_TAIL).
Import Object(C_OK, C_ERR, sds_contents, sdsEncodedObject, robj, as_sds).

Module HashType.

Definition HASH_SET_TAKE_FIELD : Z := 1.
Definition HASH_SET_TAKE_VALUE : Z := 2.
Definition HASH_SET_COPY : Z := 0.
Definition OBJ_HASH_KEY : Z := 1.
Definition OBJ_HASH_VALUE : Z := 2.

(** The argument [enc] of a conversion. *)
Inductive encodings := ENC_ZIPLIST | ENC_HT.

Section HashType.
Context {L P : Type} `{!Packed L P}.
Context {D E I : Type} `{!Table D E bytes bytes} `{!TableIter D E I bytes} `{!Alloc}.

(** [server.hash_max_ziplist_entries] and [server.hash_max_ziplist_value] *)
Context (hash_max_ziplist_entries hash_max_ziplist_value : Z).

(** The encoding with [ptr]; for a ziplist [mem] is the memory in which a table
    can be created. *)
Inductive hashobj := OBJ_ENCODING_ZIPLIST (ptr : L) (mem : D) | OBJ_ENCODING_HT (ptr : D).

Definition createHashObject (mem : D) : option hashobj :=
  zl ← packed_new; Some (OBJ_ENCODING_ZIPLIST zl mem).

(** ** Reading *)
(** [fptr = ziplistIndex(zl, ZIPLIST_HEAD); if (fptr != NULL) fptr =
    ziplistFind(fptr, field, sdslen(field), 1);] *)
Definition find_field (zl : L) (field : bytes) : option (option P) :=
  fptr ← packed_index zl 0;
  match fptr with Some fptr => packed_find zl fptr field 1 | None => Some None end.

(** [vptr = ziplistNext(zl, fptr); serverAssert(vptr != NULL);] *)
Definition value_of (zl : L) (fptr : P) : option P :=
  vptr ← packed_next zl fptr; vptr.

(** The value; [None] inside is the return value -1. *)
Definition hashTypeGetFromZiplist (o : hashobj) (field : bytes) : option (option zval) :=
  match o with
  | OBJ_ENCODING_ZIPLIST zl _ =>
      fptr ← find_field zl field;
      match fptr with
      | Some fptr =>
          vptr ← value_of zl fptr;
          ret ← packed_get zl vptr;
          v ← ret;
          Some (Some v)
      | None => Some None
      end
  | OBJ_ENCODING_HT _ => None
  end.

Definition hashTypeGetFromHashTable (o : hashobj) (field : bytes) : option (hashobj * option bytes) :=
  match o with
  | OBJ_ENCODING_HT d =>
      '(d, de) ← table_find d field;
      match de with
      | None => Some (OBJ_ENCODING_HT d, None)
      | Some de => v ← table_val d de; Some (OBJ_ENCODING_HT d, Some v)
      end
  | OBJ_ENCODING_ZIPLIST _ _ => None
  end.

(** [vstr] with [vlen], or [vll]; [None] inside is C_ERR. *)
Definition hashTypeGetValue (o : hashobj) (field : bytes) : option (hashobj * option zval) :=
  match o with
  | OBJ_ENCODING_ZIPLIST _ _ => v ← hashTypeGetFromZiplist o field; Some (o, v)
  | OBJ_ENCODING_HT _ =>
      '(o, value) ← hashTypeGetFromHashTable o field;
      Some (o, match value with Some value => Some (ZStr value) | None => None end)
  end.

(** The new object is made in the heap [h] of string objects. *)
Definition hashTypeGetValueObject (shared_integers : Z → positive) (h : gmap positive robj) (o : hashobj)
    (field : bytes) : option (hashobj * gmap positive robj * option positive) :=
  '(o, v) ← hashTypeGetValue o field;
  match v with
  | None => Some (o, h, None)
  | Some (ZStr vstr) => '(h, v) ← Object.createStringObject h (Some vstr) (zlen vstr); Some (o, h, Some v)
  | Some (ZInt vll) => '(h, v) ← Object.createStringObjectFromLongLong shared_integers h vll; Some (o, h, Some v)
  end.

Definition hashTypeGetValueLength (o : hashobj) (field : bytes) : option (hashobj * Z) :=
  match o with
  | OBJ_ENCODING_ZIPLIST _ _ =>
      v ← hashTypeGetFromZiplist o field;
      len ← (match v with
             | None => Some 0
             | Some (ZStr vstr) => Some (zlen vstr)
             | Some (ZInt vll) => Util.sdigits10 vll
             end);
      Some (o, len)
  | OBJ_ENCODING_HT _ =>
      '(o, aux) ← hashTypeGetFromHashTable o field;
      Some (o, match aux with Some aux => zlen aux | None => 0 end)
  end.

Definition hashTypeExists (o : hashobj) (field : bytes) : option (hashobj * Z) :=
  match o with
  | OBJ_ENCODING_ZIPLIST _ _ =>
      v ← hashTypeGetFromZiplist o field;
      Some (o, match v with Some _ => 1 | None => 0 end)
  | OBJ_ENCODING_HT _ =>
      '(o, v) ← hashTypeGetFromHashTable o field;
      Some (o, match v with Some _ => 1 | None => 0 end)
  end.

(** [ziplistLen] can store the count in the header. *)
Definition hashTypeLength (o : hashobj) : option (hashobj * Z) :=
  match o with
  | OBJ_ENCODING_ZIPLIST zl mem =>
      '(zl, n) ← packed_len zl;
      Some (OBJ_ENCODING_ZIPLIST zl mem, n / 2)
  | OBJ_ENCODING_HT d => Some (o, table_size d)
  end.

(** ** Iterators
    The subject is passed to each operation. *)
Record hashTypeIterator := HashTypeIterator {
  fptr : option P; vptr : option P; di : option I; de : option E }.

Definition hashTypeInitIterator (subject : hashobj) : hashTypeIterator :=
  match subject with
  | OBJ_ENCODING_ZIPLIST _ _ => HashTypeIterator None None None None
  | OBJ_ENCODING_HT _ => HashTypeIterator None None (Some iter_new) None
  end.

Definition hashTypeReleaseIterator (subject : hashobj) (hi : hashTypeIterator) : option hashobj :=
  match subject with
  | OBJ_ENCODING_HT d => it ← di hi; d ← iter_release d it; Some (OBJ_ENCODING_HT d)
  | OBJ_ENCODING_ZIPLIST _ _ => Some subject
  end.

Definition hashTypeNext (subject : hashobj) (hi : hashTypeIterator) :
    option (hashobj * hashTypeIterator * Z) :=
  match subject with
  | OBJ_ENCODING_ZIPLIST zl _ =>
      f ← (match fptr hi, vptr hi with
           | None, None => packed_index zl 0
           | Some _, Some v => packed_next zl v
           | _, _ => None
           end);
      match f with
      | None => Some (subject, hi, C_ERR)
      | Some f =>
          v ← value_of zl f;
          Some (subject, HashTypeIterator (Some f) (Some v) (di hi) (de hi), C_OK)
      end
  | OBJ_ENCODING_HT d =>
      it ← di hi;
      '(d, it, e) ← iter_next d it;
      Some (OBJ_ENCODING_HT d, HashTypeIterator (fptr hi) (vptr hi) (Some it) e,
            match e with None => C_ERR | Some _ => C_OK end)
  end.

Definition hashTypeCurrentFromZiplist (subject : hashobj) (hi : hashTypeIterator) (what : Z) : option zval :=
  match subject with
  | OBJ_ENCODING_ZIPLIST zl _ =>
      p ← (if negb (Z.land what OBJ_HASH_KEY =? 0) then fptr hi else vptr hi);
      ret ← packed_get zl p;
      ret
  | OBJ_ENCODING_HT _ => None
  end.

Definition hashTypeCurrentFromHashTable (subject : hashobj) (hi : hashTypeIterator) (what : Z) : option bytes :=
  match subject with
  | OBJ_ENCODING_HT d =>
      e ← de hi;
      if negb (Z.land what OBJ_HASH_KEY =? 0) then entry_key d e else table_val d e
  | OBJ_ENCODING_ZIPLIST _ _ => None
  end.

Definition hashTypeCurrentObject (subject : hashobj) (hi : hashTypeIterator) (what : Z) : option zval :=
  match subject with
  | OBJ_ENCODING_ZIPLIST _ _ => hashTypeCurrentFromZiplist subject hi what
  | OBJ_ENCODING_HT _ => ele ← hashTypeCurrentFromHashTable subject hi what; Some (ZStr ele)
  end.

(** The contents of the new string. *)
Definition hashTypeCurrentObjectNewSds (subject : hashobj) (hi : hashTypeIterator) (what : Z) : option bytes :=
  v ← hashTypeCurrentObject subject hi what;
  s ← (match v with
       | ZStr vstr => Sds.sdsnewlen (Some vstr) (zlen vstr)
       | ZInt vll => Sds.sdsfromlonglong vll
       end);
  sds_contents s.

(** ** Conversion *)
Definition convert_body (o : hashobj) (s : hashTypeIterator * D) :
    option (hashTypeIterator * D + hashTypeIterator * D) :=
  let '(hi, dict) := s in
  '(o, hi, r) ← hashTypeNext o hi;
  if r =? C_ERR then Some (inr (hi, dict))
  else
    key ← hashTypeCurrentObjectNewSds o hi OBJ_HASH_KEY;
    value ← hashTypeCurrentObjectNewSds o hi OBJ_HASH_VALUE;
    '(dict, ret) ← table_add dict key value;
    if ret =? Dict.DICT_OK then Some (inl (hi, dict)) else None.

(** The loop ends after as many rounds as there are pairs. *)
Definition hashTypeConvertZiplist (o : hashobj) (enc : encodings) : option hashobj :=
  match o with
  | OBJ_ENCODING_HT _ => None
  | OBJ_ENCODING_ZIPLIST zl mem =>
      match enc with
      | ENC_ZIPLIST => Some o
      | ENC_HT =>
          let hi := hashTypeInitIterator o in
          let dict := table_new mem in
          '(_, n) ← packed_len zl;
          '(hi, dict) ← loop (S (Z.to_nat n)) (convert_body o) (hi, dict);
          _ ← hashTypeReleaseIterator o hi;
          Some (OBJ_ENCODING_HT dict)
      end
  end.

Definition hashTypeConvert (o : hashobj) (enc : encodings) : option hashobj :=
  match o with
  | OBJ_ENCODING_ZIPLIST _ _ => hashTypeConvertZiplist o enc
  | OBJ_ENCODING_HT _ => None
  end.

(** [for (i = start; i <= end; i++) ...] over the arguments of a command. *)
Fixpoint try_loop (o : hashobj) (argv : list robj) (i : Z) (n : nat) : option hashobj :=
  match n with
  | O => Some o
  | S n =>
      a ← argv !! Z.to_nat i;
      big ← (if sdsEncodedObject a then
               s ← as_sds a; len ← Sds.sdslen s; Some (hash_max_ziplist_value <? len)
             else Some false);
      if big : bool then hashTypeConvert o ENC_HT else try_loop o argv (i + 1) n
  end.

Definition hashTypeTryConversion (o : hashobj) (argv : list robj) (start end_ : Z) : option hashobj :=
  match o with
  | OBJ_ENCODING_HT _ => Some o
  | OBJ_ENCODING_ZIPLIST _ _ => try_loop o argv start (Z.to_nat (end_ - start + 1))
  end.

(** ** Writing *)
(** The new value of a field of a ziplist. *)
Definition set_in_ziplist (zl : L) (field value : bytes) : option (L * Z) :=
  fptr ← find_field zl field;
  match fptr with
  | Some fptr =>
      vptr ← value_of zl fptr;
      '(zl, vptr) ← packed_delete zl vptr;
      zl ← packed_insert zl vptr value;
      Some (zl, 1)
  | None =>
      zl ← packed_push zl field ZIPLIST_TAIL;
      zl ← packed_push zl value ZIPLIST_TAIL;
      Some (zl, 0)
  end.

(** The result has the strings that were passed and are given to [sdsfree] at
    the end: [field] and [value] are set to NULL when the hash table takes
    them. *)
Definition hashTypeSet (o : hashobj) (field value : bytes) (flags : Z) :
    option (hashobj * Z * list bytes) :=
  let take_field := negb (Z.land flags HASH_SET_TAKE_FIELD =? 0) in
  let take_value := negb (Z.land flags HASH_SET_TAKE_VALUE =? 0) in
  '(o, update, field_left, value_left) ←
    (match o with
     | OBJ_ENCODING_ZIPLIST zl mem =>
         '(zl, update) ← set_in_ziplist zl field value;
         '(o, n) ← hashTypeLength (OBJ_ENCODING_ZIPLIST zl mem);
         o ← (if hash_max_ziplist_entries <? n then hashTypeConvert o ENC_HT else Some o);
         Some (o, update, true, true)
     | OBJ_ENCODING_HT d =>
         '(d, de) ← table_find d field;
         match de with
         | Some de =>
             d ← table_set_val d de value;
             Some (OBJ_ENCODING_HT d, 1, true, negb take_value)
         | None =>
             '(d, _) ← table_add d field value;
             Some (OBJ_ENCODING_HT d, 0, negb take_field, negb take_value)
         end
     end);
  Some (o, update, (if take_field && field_left then [field] else []) ++
                   (if take_value && value_left then [value] else [])).

Definition hashTypeDelete (o : hashobj) (field : bytes) : option (hashobj * Z) :=
  match o with
  | OBJ_ENCODING_ZIPLIST zl mem =>
      fptr ← find_field zl field;
      match fptr with
      | Some fptr =>
          '(zl, fptr) ← packed_delete zl fptr;
          '(zl, fptr) ← packed_delete zl fptr;
          Some (OBJ_ENCODING_ZIPLIST zl mem, 1)
      | None => Some (o, 0)
      end
  | OBJ_ENCODING_HT d =>
      '(d, r) ← table_delete d field;
      if r =? C_OK then
        d ← (if htNeedsResize d then fst <$> table_resize d else Some d);
        Some (OBJ_ENCODING_HT d, 1)
      else Some (OBJ_ENCODING_HT d, 0)
  end.
End HashType.
Arguments hashobj : clear implicits.
End HashType.
