(* ===== verification/HashSpec.v ===== *)
(** * Hashes refine a finite map from fields to values

    In both encodings, and across the conversion from the ziplist to the hash
    table, a session of the operations of [HashType] answers as a map of strings
    does; an iteration returns every pair once. *)

From Stdlib Require Import String.
From S2P Require Import Prelude.
From S2P Require Import Mem.
From S2P Require Import Util.
From S2P Require Import Ziplist.
From S2P Require Import ZiplistRepr.
From S2P Require Import ZiplistOps.
From S2P Require Import ZiplistWalk.
From S2P Require Import ZiplistSpec.
From S2P Require Import Packed.
From S2P Require Import PackedPairs.
From S2P Require Import Dict.
From S2P Require Import DictSpec.
From S2P Require Import DictRefine.
From S2P Require Import Sds.
From S2P Require Import SdsSpec.
From S2P Require Import SdsRefine.
From S2P Require Import Object.
From S2P Require Import ObjectSpec.
From S2P Require Import KvTable.
From S2P Require Import KvIter.
From S2P Require Import HashType.
Import KvTable.
Import KvIter.
Import Packed.
Import Ziplist(zval, ZStr, ZInt, where_, ZIPLIST_HEAD, ZIPLIST_TAIL).
Import Object(C_OK, C_ERR, sds_contents).
Import HashType.

(** ** Maps of pairs *)
Lemma pairs_mid (a b : list (bytes * bytes)) k v :
  NoDup (a ++ (k, v) :: b).*1 ↔ NoDup (a ++ b).*1 ∧ k ∉ (a ++ b).*1.
Proof.
  rewrite !fmap_app, fmap_cons. simpl. rewrite <-Permutation_middle, NoDup_cons. tauto.
Qed.

Lemma map_mid (a b : list (bytes * bytes)) k v :
  NoDup (a ++ (k, v) :: b).*1 →
  (list_to_map (a ++ (k, v) :: b) : gmap bytes bytes) = <[k := v]> (list_to_map (a ++ b)).
Proof.
  intros Hnd. rewrite (list_to_map_proper _ ((k, v) :: a ++ b)); [done|done|by rewrite <-Permutation_middle].
Qed.

Lemma map_absent (kvs : list (bytes * bytes)) k :
  k ∉ kvs.*1 ↔ (list_to_map kvs : gmap bytes bytes) !! k = None.
Proof. apply not_elem_of_list_to_map. Qed.

Lemma map_present (kvs : list (bytes * bytes)) a k v b :
  NoDup kvs.*1 → kvs = a ++ (k, v) :: b → (list_to_map kvs : gmap bytes bytes) !! k = Some v.
Proof. intros Hnd ->. rewrite map_mid by done. apply lookup_insert_eq. Qed.

Lemma pairs_size (kvs : list (bytes * bytes)) :
  NoDup kvs.*1 → Z.of_nat (base.size (list_to_map kvs : gmap bytes bytes)) = zlen kvs.
Proof.
  induction kvs as [|[k v] kvs IH]; intros Hnd; [done|]. rewrite fmap_cons in Hnd. apply NoDup_cons in Hnd as [Hk Hnd].
  cbn [list_to_map foldr]. rewrite zlen_cons, map_size_insert_None by (by apply map_absent). rewrite <-IH by done. simpl. lia.
Qed.

(** ** The ziplist encoding *)
Section Pairs.
Context {L P : Type} `{!Packed L P} `{!PackedOk L P}.
Implicit Types (l : L) (kvs a b : list (bytes * bytes)).

Lemma visited_even i : visited 0 1 i ↔ ∃ k, i = (2 * k)%nat.
Proof.
  unfold visited. rewrite Z.sub_0_r. change (1 + 1) with 2. split.
  - intros [_ Hm]. exists (Z.to_nat (Z.of_nat i / 2)). pose proof (Z.div_mod (Z.of_nat i) 2). pose proof (Z.div_pos (Z.of_nat i) 2). lia.
  - intros [k ->]. split; [lia|]. rewrite Nat2Z.inj_mul, Z.mul_comm. apply Z_mod_mult.
Qed.

Lemma find_field_ok l kvs field :
  packed_rep l (flat kvs) →
  ∃ r, find_field l field = Some r ∧
  match r with
  | Some p => ∃ a v b, kvs = a ++ (field, v) :: b ∧ packed_at l (flat kvs) (2 * length a) p
  | None => field ∉ kvs.*1
  end.
Proof.
  intros Hl. unfold find_field. pose proof (index_head l (flat kvs) Hl) as Hi.
  destruct kvs as [|[k0 v0] kvs0] eqn:Ek.
  { simpl in Hi. rewrite Hi. cbn [mbind option_bind]. eexists. split; [done|]. set_solver. }
  rewrite <-Ek in *. destruct (flat kvs) eqn:Ef; [by rewrite Ek in Ef|]. rewrite <-Ef in *.
  destruct Hi as (p & -> & Hp). cbn [mbind option_bind].
  destruct (packed_find_ok l (flat kvs) 0 p field 1 Hp ltac:(lia)) as (r & Hrun & Hr). exists r. split; [done|].
  destruct r as [q|].
  - destruct Hr as (i & Hi & Hq & [k ->]%visited_even & _). change (0 + 2 * k)%nat with (2 * k)%nat in *. rewrite flat_key in Hi.
    apply fmap_Some in Hi as ([f v] & Hkv & Hf). simpl in Hf. subst f. exists (take k kvs), v, (drop (S k) kvs).
    rewrite (take_drop_middle kvs k (field, v) Hkv). split; [done|]. apply lookup_lt_Some in Hkv.
    by rewrite length_take, Nat.min_l by lia.
  - intros ([f v] & -> & [i Hi]%list_elem_of_lookup_1)%list_elem_of_fmap.
    apply (Hr (2 * i)%nat); [apply visited_even; eauto|]. change (0 + 2 * i)%nat with (2 * i)%nat. by rewrite flat_key, Hi.
Qed.

Lemma value_of_ok l kvs a k v b p :
  kvs = a ++ (k, v) :: b → packed_at l (flat kvs) (2 * length a) p →
  ∃ q, value_of l p = Some q ∧ packed_at l (flat kvs) (S (2 * length a)) q.
Proof.
  intros Hk Hp. unfold value_of. destruct (next_value l kvs a k v b p Hk Hp) as (q & -> & Hq). eauto.
Qed.

(** ** Changing a pair *)
Lemma set_pair l kvs field value :
  packed_rep l (flat kvs) → 40 + budget (flat kvs) + zlen field + zlen value + 34 < 2 ^ 32 →
  ∃ l' r kvs', set_in_ziplist l field value = Some (l', r) ∧ packed_rep l' (flat kvs') ∧
    budget (flat kvs') ≤ budget (flat kvs) + zlen field + zlen value + 34 ∧
    ((r = 1 ∧ ∃ a v b, kvs = a ++ (field, v) :: b ∧ kvs' = a ++ (field, value) :: b) ∨
     (r = 0 ∧ field ∉ kvs.*1 ∧ kvs' = kvs ++ [(field, value)])).
Proof.
  intros Hl Hroom. unfold set_in_ziplist. destruct (find_field_ok l kvs field Hl) as (r & -> & Hr). cbn [mbind option_bind].
  pose proof (budget_nonneg (flat kvs)). zlen_pos. destruct r as [p|].
  - destruct Hr as (a & v & b & Hk & Hp). destruct (value_of_ok l kvs a field v b p Hk Hp) as (q & -> & Hq). cbn [mbind option_bind].
    assert (budget (flat kvs) = budget (flat a) + budget (flat b) + zlen field + zlen v + 34) as Hb.
    { rewrite Hk, flat_app, budget_app. simpl. lia. }
    destruct (packed_delete_ok l (flat kvs) _ q Hq) as (l1 & -> & Hl1);
      [rewrite flat_length, Hk, length_app; simpl; lia|unfold room; lia|]. cbn [mbind option_bind].
    assert (take (S (2 * length a)) (flat kvs) ++ drop (S (S (2 * length a))) (flat kvs) = flat a ++ [field] ++ flat b) as Hss.
    { replace (S (S (2 * length a))) with (S (2 * length a) + 1)%nat by lia. rewrite <-drop_drop, Hk, flat_take_key, flat_drop_key.
      by rewrite <-app_assoc. }
    rewrite Hss in Hl1. pose proof (zlen_nonneg v).
    destruct (packed_insert_ok l1 _ _ q value Hl1) as (l2 & -> & Hl2).
    { unfold room. simpl. rewrite budget_app. simpl. lia. }
    cbn [mbind option_bind]. apply packed_at_rep in Hl2. eexists l2, 1, (a ++ (field, value) :: b). split; [done|].
    rewrite (app_assoc (flat a)), take_app_length', drop_app_length' in Hl2 by (rewrite length_app, flat_length; simpl; lia).
    rewrite <-(app_assoc (flat a)) in Hl2. simpl in Hl2. rewrite flat_app. cbn [flat]. split; [done|]. split.
    + rewrite budget_app. simpl. lia.
    + left. split; [done|]. eauto.
  - destruct (packed_push_ok l (flat kvs) field ZIPLIST_TAIL Hl) as (l1 & -> & Hl1); [unfold room; simpl; lia|]. cbn [mbind option_bind].
    destruct (packed_push_ok l1 _ value ZIPLIST_TAIL Hl1) as (l2 & -> & Hl2); [unfold room; simpl; rewrite budget_app; simpl; lia|].
    cbn [mbind option_bind]. exists l2, 0, (kvs ++ [(field, value)]). split; [done|].
    rewrite flat_app. cbn [flat]. rewrite <-app_assoc in Hl2. split; [done|]. split; [rewrite budget_app; simpl; lia|].
    by right.
Qed.

End Pairs.

(** ** Representation *)
Section Hash.
Context {L P : Type} `{!Packed L P} `{!PackedOk L P}.
Context {D E I : Type} `{!Table D E bytes bytes} `{!TableOk D E bytes bytes}.
Context `{!TableIter D E I bytes} `{!TableIterOk D E I bytes bytes} `{!Alloc}.
Context (max_entries max_value : Z).
Implicit Types (d mem : D) (l : L) (o : hashobj L D) (m : gmap bytes bytes) (kvs : list (bytes * bytes)).
Implicit Types (hi : hashTypeIterator (P := P) (E := E) (I := I)).

(** [c] bounds the bytes the pairs would need in a ziplist. *)
Definition hash_rep o m (c : Z) : Prop :=
  match o with
  | OBJ_ENCODING_ZIPLIST l mem =>
      ∃ kvs m0, packed_rep l (flat kvs) ∧ NoDup kvs.*1 ∧ m = list_to_map kvs ∧
        budget (flat kvs) ≤ c ∧ table_rep mem m0 ∧ zlen kvs ≤ Z.max 0 max_entries
  | OBJ_ENCODING_HT d =>
      table_rep d m ∧ 34 * Z.of_nat (base.size m) ≤ c ∧
      ∀ k v, m !! k = Some v → zlen k + zlen v ≤ c
  end.

Lemma budget_in (ss : list bytes) s : s ∈ ss → zlen s ≤ budget ss.
Proof.
  induction 1 as [s ss|s t ss _ IH]; simpl; pose proof (budget_nonneg ss); zlen_pos; lia.
Qed.

(** A map given by pairs has the bounds of the hash table encoding. *)
Lemma pairs_bounds kvs c :
  NoDup kvs.*1 → budget (flat kvs) ≤ c →
  34 * Z.of_nat (base.size (list_to_map kvs : gmap bytes bytes)) ≤ c ∧
  ∀ k v, (list_to_map kvs : gmap bytes bytes) !! k = Some v → zlen k + zlen v ≤ c.
Proof.
  intros Hnd Hc. rewrite pairs_size by done. pose proof (pairs_budget kvs). split; [lia|].
  intros k v Hk. apply elem_of_list_to_map_2 in Hk. pose proof (pair_budget kvs k v Hk). lia.
Qed.

(** ** Iteration *)
(** The iterator of a ziplist after [n] pairs. *)
Definition zl_cursor l kvs (n : nat) hi : Prop :=
  match n with
  | O => fptr hi = None ∧ vptr hi = None
  | S i => ∃ f v, fptr hi = Some f ∧ vptr hi = Some v ∧
      packed_at l (flat kvs) (2 * i) f ∧ packed_at l (flat kvs) (S (2 * i)) v
  end.

Lemma zl_next l mem kvs n hi :
  packed_rep l (flat kvs) → zl_cursor l kvs n hi → (n ≤ length kvs)%nat →
  ∃ hi', hashTypeNext (OBJ_ENCODING_ZIPLIST l mem) hi =
      Some (OBJ_ENCODING_ZIPLIST l mem, hi', if decide (n < length kvs)%nat then C_OK else C_ERR) ∧
    ((n < length kvs)%nat → zl_cursor l kvs (S n) hi').
Proof.
  intros Hl Hcur Hn. cbn [hashTypeNext].
  assert (∃ f, (match fptr hi, vptr hi with
           | None, None => packed_index l 0
           | Some _, Some v => packed_next l v
           | _, _ => None
           end) = Some f ∧
    if decide (n < length kvs)%nat then ∃ p, f = Some p ∧ packed_at l (flat kvs) (2 * n) p else f = None) as (f & -> & Hf).
  { destruct n as [|i].
    - destruct Hcur as [-> ->]. pose proof (index_head l (flat kvs) Hl) as Hi. destruct kvs as [|[k v] kvs]; [by exists None|].
      destruct Hi as (p & Hp & Hat). exists (Some p). split; [done|]. rewrite decide_True by (simpl; lia). eauto.
    - destruct Hcur as (f & v & -> & -> & _ & Hv). pose proof (packed_next_ok l (flat kvs) _ v Hv) as Hnext.
      rewrite flat_length in Hnext. destruct (decide (S i < length kvs)%nat).
      + rewrite decide_True in Hnext by lia. destruct Hnext as (q & -> & Hq). eexists. split; [done|].
        exists q. split; [done|]. by replace (2 * S i)%nat with (S (S (2 * i))) by lia.
      + rewrite decide_False in Hnext by lia. rewrite Hnext. eauto. }
  cbn [mbind option_bind]. destruct (decide (n < length kvs)%nat) as [Hlt|Hge].
  - destruct Hf as (p & -> & Hp). destruct (lookup_lt_is_Some_2 kvs n Hlt) as [[k v] Hkv].
    pose proof (take_drop_middle kvs n (k, v) Hkv) as Hmid. symmetry in Hmid.
    assert (length (take n kvs) = n) as Htk by (rewrite length_take; lia).
    destruct (value_of_ok l kvs (take n kvs) k v (drop (S n) kvs) p Hmid) as (q & -> & Hq); [by rewrite Htk|].
    cbn [mbind option_bind]. eexists. split; [done|]. intros _. rewrite Htk in Hq. exists p, q. done.
  - subst f. eexists. split; [done|]. lia.
Qed.

Lemma zl_current l mem kvs n hi k v :
  zl_cursor l kvs (S n) hi → kvs !! n = Some (k, v) → budget (flat kvs) < 2 ^ 62 →
  hashTypeCurrentObjectNewSds (OBJ_ENCODING_ZIPLIST l mem) hi OBJ_HASH_KEY = Some k ∧
  hashTypeCurrentObjectNewSds (OBJ_ENCODING_ZIPLIST l mem) hi OBJ_HASH_VALUE = Some v.
Proof.
  intros (f & q & Hf & Hq & Hfa & Hqa) Hkv Hb. pose proof (take_drop_middle kvs n (k, v) Hkv) as Hmid. symmetry in Hmid.
  assert (length (take n kvs) = n) as Htk by (apply lookup_lt_Some in Hkv; rewrite length_take; lia).
  rewrite <-Htk in Hfa, Hqa. destruct (get_pair l kvs _ k v _ f q Hmid Hfa Hqa) as [Hk Hv].
  pose proof (pair_budget kvs k v (list_elem_of_lookup_2 _ _ _ Hkv)) as Hkvb. zlen_pos.
  unfold hashTypeCurrentObjectNewSds, hashTypeCurrentObject, hashTypeCurrentFromZiplist. cbn [Z.land negb Z.eqb].
  change (Z.land OBJ_HASH_KEY OBJ_HASH_KEY) with 1. change (Z.land OBJ_HASH_VALUE OBJ_HASH_KEY) with 0. cbn [Z.eqb negb].
  rewrite Hf, Hq. cbn [mbind option_bind]. rewrite Hk, Hv. cbn [mbind option_bind].
  split.
  - rewrite <-(text_zval_of k) at 2. apply new_text, zval_text_ok. lia.
  - rewrite <-(text_zval_of v) at 2. apply new_text, zval_text_ok. lia.
Qed.

(** ** Conversion *)
Lemma hash_convert_loop l mem kvs b : ∀ a d hi fuel,
  packed_rep l (flat kvs) → NoDup kvs.*1 → budget (flat kvs) < 2 ^ 32 → kvs = a ++ b →
  zl_cursor l kvs (length a) hi → table_rep d (list_to_map a) → (length b < fuel)%nat →
  ∃ hi' d', loop fuel (convert_body (OBJ_ENCODING_ZIPLIST l mem)) (hi, d) = Some (hi', d') ∧
    table_rep d' (list_to_map kvs).
Proof.
  induction b as [|[k v] b IH]; intros a d hi fuel Hl Hnd Hb Hk Hcur Hd Hfuel; (destruct fuel as [|fuel]; [lia|]);
    rewrite loop_S; unfold convert_body at 2;
    destruct (zl_next l mem kvs (length a) hi Hl Hcur ltac:(rewrite Hk, length_app; lia)) as (hi' & -> & Hcur');
    cbn [mbind option_bind].
  - rewrite app_nil_r in Hk. rewrite decide_False by (rewrite Hk; lia). change (C_ERR =? C_ERR) with true. cbv iota.
    rewrite Hk. eauto.
  - assert (length a < length kvs)%nat as Hlt by (rewrite Hk, length_app; simpl; lia). rewrite decide_True by done.
    change (C_OK =? C_ERR) with false. cbv iota. specialize (Hcur' Hlt).
    assert (kvs !! length a = Some (k, v)) as Hkv by (rewrite Hk; by apply list_lookup_middle).
    destruct (zl_current l mem kvs (length a) hi' k v Hcur' Hkv ltac:(lia)) as [-> ->]. cbn [mbind option_bind].
    assert (k ∉ a.*1) as Hka.
    { rewrite Hk in Hnd. apply pairs_mid in Hnd as [_ Hnk]. rewrite fmap_app in Hnk. set_solver. }
    assert (NoDup a.*1) as Hnda by (rewrite Hk, fmap_app in Hnd; by apply NoDup_app in Hnd as [? _]).
    pose proof (pairs_budget kvs) as Hpb. assert (zlen a ≤ zlen kvs) by (rewrite Hk; zl).
    destruct (table_add_ok d _ k v Hd) as (d1 & -> & Hd1); [rewrite pairs_size by done; lia|by apply map_absent|].
    cbn [mbind option_bind]. rewrite Z.eqb_refl.
    apply (IH (a ++ [(k, v)]) d1 hi'); try done; [by rewrite <-app_assoc| | |simpl in Hfuel; lia].
    + rewrite length_app. simpl. by rewrite Nat.add_1_r.
    + rewrite map_mid, app_nil_r; [done|]. apply pairs_mid. by rewrite app_nil_r.
Qed.

Lemma hash_convert_ok l mem kvs m0 :
  packed_rep l (flat kvs) → NoDup kvs.*1 → budget (flat kvs) < 2 ^ 32 → table_rep mem m0 →
  ∃ d, hashTypeConvert (OBJ_ENCODING_ZIPLIST l mem) ENC_HT = Some (OBJ_ENCODING_HT d) ∧ table_rep d (list_to_map kvs).
Proof.
  intros Hl Hnd Hb Hm. unfold hashTypeConvert, hashTypeConvertZiplist.
  destruct (packed_len_ok l (flat kvs) Hl) as (l' & -> & _). cbn [mbind option_bind hashTypeInitIterator].
  destruct (hash_convert_loop l mem kvs kvs [] (table_new mem) (HashTypeIterator None None None None)
    (S (Z.to_nat (zlen (flat kvs))))) as (hi' & d' & -> & Hd'); try done.
  - by apply (table_new_ok mem m0).
  - rewrite flat_zlen. unfold zlen. lia.
  - cbn [mbind option_bind hashTypeReleaseIterator]. eauto.
Qed.

(** A converted ziplist represents the same map. *)
Lemma hash_rep_convert l mem m c :
  hash_rep (OBJ_ENCODING_ZIPLIST l mem) m c → c < 2 ^ 32 →
  ∃ o', hashTypeConvert (OBJ_ENCODING_ZIPLIST l mem) ENC_HT = Some o' ∧ hash_rep o' m c.
Proof.
  intros (kvs & m0 & Hl & Hnd & -> & Hb & Hm & _) Hc.
  destruct (hash_convert_ok l mem kvs m0 Hl Hnd ltac:(lia) Hm) as (d & -> & Hd). eexists. split; [done|].
  split; [done|]. by apply pairs_bounds.
Qed.

(** ** Reading *)
Lemma hash_get_zl l mem kvs field :
  packed_rep l (flat kvs) → NoDup kvs.*1 →
  hashTypeGetFromZiplist (OBJ_ENCODING_ZIPLIST l mem) field =
  Some (zval_of <$> (list_to_map kvs : gmap bytes bytes) !! field).
Proof.
  intros Hl Hnd. unfold hashTypeGetFromZiplist. destruct (find_field_ok l kvs field Hl) as (r & -> & Hr). cbn [mbind option_bind].
  destruct r as [p|].
  - destruct Hr as (a & v & b & Hk & Hp). destruct (value_of_ok l kvs a field v b p Hk Hp) as (q & -> & Hq). cbn [mbind option_bind].
    destruct (get_pair l kvs a field v b p q Hk Hp Hq) as [_ ->]. cbn [mbind option_bind].
    by rewrite (map_present kvs a field v b).
  - apply map_absent in Hr. by rewrite Hr.
Qed.

Lemma hash_get_ht d m field :
  table_rep d m →
  ∃ d', hashTypeGetFromHashTable (OBJ_ENCODING_HT d : hashobj L D) field = Some (OBJ_ENCODING_HT d', m !! field) ∧ table_rep d' m.
Proof.
  intros Hd. unfold hashTypeGetFromHashTable. destruct (table_find_ok d m field Hd) as (d' & r & -> & Hd' & Hr).
  cbn [mbind option_bind]. destruct r as [e|]; [|rewrite Hr; eauto]. destruct Hr as [[v Hv] He].
  rewrite (table_val_ok d' m e field Hd' He), Hv. cbn [mbind option_bind]. eauto.
Qed.

Lemma hash_rep_ht d d' m c :
  hash_rep (OBJ_ENCODING_HT d) m c → table_rep d' m → hash_rep (OBJ_ENCODING_HT d') m c.
Proof. by intros (_ & ? & ?) Hd'. Qed.

(** ** Writing *)
Lemma hash_set_ok o m c field value flags :
  hash_rep o m c → 40 + c + (zlen field + zlen value + 34) < 2 ^ 32 →
  ∃ o' freed, hashTypeSet max_entries o field value flags = Some (o', if decide (is_Some (m !! field)) then 1 else 0, freed) ∧
    hash_rep o' (<[field := value]> m) (c + (zlen field + zlen value + 34)).
Proof.
  intros Ho Hc. unfold hashTypeSet. zlen_pos. destruct o as [l mem|d].
  - destruct Ho as (kvs & m0 & Hl & Hnd & -> & Hb & Hm & Hmax).
    destruct (set_pair l kvs field value Hl ltac:(lia)) as (l1 & r & kvs1 & -> & Hl1 & Hb1 & Hcase). cbn [mbind option_bind].
    assert (NoDup kvs1.*1 ∧ <[field := value]> (list_to_map kvs : gmap bytes bytes) = list_to_map kvs1 ∧
      r = if decide (is_Some ((list_to_map kvs : gmap bytes bytes) !! field)) then 1 else 0) as (Hnd1 & Hmap & Hret).
    { destruct Hcase as [(-> & a & v & b & Hk & ->)|(-> & Hnin & ->)].
      - rewrite (map_present kvs a field v b Hnd Hk). rewrite decide_True by eauto. rewrite Hk in Hnd |- *.
        assert (NoDup (a ++ (field, value) :: b).*1) as Hnd1 by (apply pairs_mid; by apply pairs_mid in Hnd).
        rewrite !map_mid by done. by rewrite insert_insert_eq.
      - assert (NoDup (kvs ++ [(field, value)]).*1) as Hnd1 by (apply pairs_mid; by rewrite app_nil_r).
        rewrite map_mid, app_nil_r by done. apply map_absent in Hnin. rewrite Hnin. by rewrite decide_False by (by intros [? ?]). }
    rewrite Hret, Hmap. unfold hashTypeLength. destruct (packed_len_ok l1 (flat kvs1) Hl1) as (l2 & -> & Hl2). cbn [mbind option_bind].
    rewrite flat_zlen, Z.mul_comm, Z_div_mult by done. set (c' := c + _).
    destruct (Z.ltb_spec max_entries (zlen kvs1)).
    + destruct (hash_convert_ok l2 mem kvs1 m0 Hl2 Hnd1 ltac:(lia) Hm) as (d & -> & Hd). cbn [mbind option_bind].
      eexists _, _. split; [done|]. split; [done|]. apply pairs_bounds; [done|lia].
    + cbn [mbind option_bind]. eexists _, _. split; [done|]. exists kvs1, m0. split_and!; try done; lia.
  - destruct Ho as (Hd & Hsz & Hlen). destruct (table_find_ok d m field Hd) as (d1 & r & -> & Hd1 & Hr). cbn [mbind option_bind].
    assert (34 * Z.of_nat (base.size (<[field := value]> m)) ≤ c + (zlen field + zlen value + 34) ∧
      ∀ k v, <[field := value]> m !! k = Some v → zlen k + zlen v ≤ c + (zlen field + zlen value + 34)) as Hbounds.
    { split; [rewrite map_size_insert; destruct (m !! field); simpl; lia|]. intros k v [[-> ->]|[_ Hk]]%lookup_insert_Some; [lia|].
      specialize (Hlen k v Hk). lia. }
    destruct r as [e|].
    + destruct Hr as [Hin He]. destruct (table_set_ok d1 m e field value Hd1 He) as (d2 & -> & Hd2). cbn [mbind option_bind].
      rewrite decide_True by done. eexists _, _. split; [done|]. by split.
    + destruct (table_add_ok d1 m field value Hd1 ltac:(lia) Hr) as (d2 & -> & Hd2). cbn [mbind option_bind].
      rewrite decide_False by (rewrite Hr; by intros [? ?]). eexists _, _. split; [done|]. by split.
Qed.

Lemma hash_delete_ok o m c field :
  hash_rep o m c → 40 + c < 2 ^ 32 →
  ∃ o', hashTypeDelete o field = Some (o', if decide (is_Some (m !! field)) then 1 else 0) ∧
    hash_rep o' (delete field m) c.
Proof.
  intros Ho Hc. unfold hashTypeDelete. destruct o as [l mem|d].
  - destruct Ho as (kvs & m0 & Hl & Hnd & -> & Hb & Hm & Hmax).
    destruct (find_field_ok l kvs field Hl) as (r & -> & Hr). cbn [mbind option_bind]. destruct r as [p|].
    + destruct Hr as (a & v & b & Hk & Hp).
      destruct (delete_pair l kvs a field v b p Hk Hp ltac:(unfold room; lia)) as (l2 & Hrun & Hl2).
      destruct (packed_delete l p) as [[l1 p1]|]; [|done]. cbn [mbind option_bind] in *.
      destruct (packed_delete l1 p1) as [[l2' p2]|]; [|done]. cbn [mbind option_bind] in *. injection Hrun as ->.
      rewrite (map_present kvs a field v b Hnd Hk), decide_True by eauto. eexists. split; [done|].
      rewrite Hk in Hnd, Hb, Hmax |- *. rewrite map_mid by done. apply pairs_mid in Hnd as [Hnd Hnin].
      exists (a ++ b), m0. split_and!; try done.
      * rewrite delete_insert_id; [done|]. by apply map_absent.
      * revert Hb. rewrite !flat_app, !budget_app. simpl. zlen_pos. lia.
      * revert Hmax. zl.
    + apply map_absent in Hr. rewrite Hr, decide_False by (by intros [? ?]). eexists. split; [done|]. rewrite delete_id by done.
      by exists kvs, m0.
  - destruct Ho as (Hd & Hsz & Hlen). destruct (table_delete_ok d m field Hd) as (d1 & -> & Hd1). cbn [mbind option_bind].
    assert (34 * Z.of_nat (base.size (delete field m)) ≤ c ∧ ∀ k v, delete field m !! k = Some v → zlen k + zlen v ≤ c) as Hbounds.
    { split; [rewrite map_size_delete; destruct (m !! field); simpl; lia|]. intros k v [_ Hk]%lookup_delete_Some. by apply Hlen. }
    destruct (decide (is_Some (m !! field))).
    + change (Dict.DICT_OK =? C_OK) with true. cbv iota.
      destruct (shrink_ok d1 _ Hd1 ltac:(lia)) as (d2 & -> & Hd2).
      cbn [mbind option_bind]. eexists. split; [done|]. by split.
    + change (Dict.DICT_ERR =? C_OK) with false. cbv iota. eexists. split; [done|]. by split.
Qed.

(** [hashTypeTryConversion] keeps the map. *)
Lemma hash_try_ok argv ts : ∀ n i o m c,
  hash_rep o m c → c < 2 ^ 32 → Forall2 obj_text argv ts → 0 ≤ i → i + Z.of_nat n ≤ zlen argv →
  match o with OBJ_ENCODING_ZIPLIST _ _ => True | OBJ_ENCODING_HT _ => False end →
  ∃ o', try_loop max_value o argv i n = Some o' ∧ hash_rep o' m c.
Proof.
  induction n as [|n IH]; intros i o m c Ho Hc Hargs Hi Hn Henc; cbn [try_loop]; [eauto|].
  destruct (lookup_lt_is_Some_2 argv (Z.to_nat i)) as [a Ha]; [unfold zlen in Hn; lia|]. rewrite Ha. cbn [mbind option_bind].
  destruct (Forall2_lookup_l _ _ _ _ _ Hargs Ha) as (t & _ & Ht).
  assert (∃ big : bool, (if Object.sdsEncodedObject a then
      s ← Object.as_sds a; len ← Sds.sdslen s; Some (max_value <? len) else Some false) = Some big) as (big & ->).
  { destruct (Object.sdsEncodedObject a) eqn:Ee; [|eauto]. destruct (obj_sds a t Ht Ee) as (s & -> & _ & Hlen & _).
    cbn [mbind option_bind]. rewrite Hlen. cbn [mbind option_bind]. eauto. }
  cbn [mbind option_bind]. destruct big; [|apply IH; done || lia].
  destruct o as [l mem|d]; [|done]. by apply hash_rep_convert.
Qed.

(** ** Sessions *)
Inductive hash_op :=
| HSet (field value : bytes) (flags : Z)
| HGet (field : bytes)
| HGetLength (field : bytes)
| HExists (field : bytes)
| HDel (field : bytes)
| HLen
| HTryConversion (argv : list Object.robj) (start end_ : Z).

Inductive hash_ans := HInt (n : Z) | HValue (v : option bytes) | HUnit.

Definition run_hash_op (c : hash_op) o : option (hashobj L D * hash_ans) :=
  match c with
  | HSet field value flags => '(o, r, _) ← hashTypeSet max_entries o field value flags; Some (o, HInt r)
  | HGet field => '(o, v) ← hashTypeGetValue o field; Some (o, HValue (option_map text v))
  | HGetLength field => '(o, n) ← hashTypeGetValueLength o field; Some (o, HInt n)
  | HExists field => '(o, r) ← hashTypeExists o field; Some (o, HInt r)
  | HDel field => '(o, r) ← hashTypeDelete o field; Some (o, HInt r)
  | HLen => '(o, n) ← hashTypeLength o; Some (o, HInt n)
  | HTryConversion argv start end_ => o ← hashTypeTryConversion max_value o argv start end_; Some (o, HUnit)
  end.

Definition spec_hash_op (c : hash_op) m : gmap bytes bytes * hash_ans :=
  match c with
  | HSet field value _ => (<[field := value]> m, HInt (if decide (is_Some (m !! field)) then 1 else 0))
  | HGet field => (m, HValue (m !! field))
  | HGetLength field => (m, HInt (match m !! field with Some v => zlen v | None => 0 end))
  | HExists field => (m, HInt (if decide (is_Some (m !! field)) then 1 else 0))
  | HDel field => (delete field m, HInt (if decide (is_Some (m !! field)) then 1 else 0))
  | HLen => (m, HInt (Z.of_nat (base.size m)))
  | HTryConversion _ _ _ => (m, HUnit)
  end.

(** The arguments of a command are objects, and the positions are among them. *)
Definition hash_op_ok (c : hash_op) : Prop :=
  match c with
  | HTryConversion argv start end_ =>
      0 ≤ start ∧ start ≤ end_ + 1 ∧ end_ < zlen argv ∧ ∃ ts, Forall2 obj_text argv ts
  | _ => True
  end.

Definition hash_op_cost (c : hash_op) : Z :=
  match c with HSet field value _ => zlen field + zlen value + 34 | _ => 0 end.

Lemma option_text v : option_map text (zval_of <$> v) = v.
Proof. destruct v; simpl; [|done]. by rewrite text_zval_of. Qed.

Lemma zval_length v :
  zlen v < 2 ^ 62 →
  (match zval_of v with ZStr s => Some (zlen s) | ZInt n => Util.sdigits10 n end) = Some (zlen v).
Proof.
  intros Hv. pose proof (text_zval_of v) as Ht. pose proof (zval_text_ok v Hv) as Hok. destruct (zval_of v) as [s|n]; simpl in *.
  - by rewrite Ht.
  - by rewrite <-Ht, sdigits10_ok.
Qed.

Lemma hash_length_ok o m c :
  hash_rep o m c → ∃ o', hashTypeLength o = Some (o', Z.of_nat (base.size m)) ∧ hash_rep o' m c.
Proof.
  destruct o as [l mem|d].
  - intros (kvs & m0 & Hl & Hnd & -> & Hrest). unfold hashTypeLength.
    destruct (packed_len_ok l (flat kvs) Hl) as (l' & -> & Hl'). cbn [mbind option_bind].
    rewrite flat_zlen, Z.mul_comm, Z_div_mult, pairs_size by done. eexists. split; [done|]. by exists kvs, m0.
  - intros Ho. pose proof Ho as (Hd & _). cbn [hashTypeLength]. rewrite (table_size_ok d m Hd). eauto.
Qed.

(** The reading operations. *)
Lemma hash_read_ok o m c field :
  hash_rep o m c → c < 2 ^ 62 →
  (∃ o', run_hash_op (HGet field) o = Some (o', HValue (m !! field)) ∧ hash_rep o' m c) ∧
  (∃ o', run_hash_op (HGetLength field) o = Some (o', HInt (match m !! field with Some v => zlen v | None => 0 end)) ∧ hash_rep o' m c) ∧
  (∃ o', run_hash_op (HExists field) o = Some (o', HInt (if decide (is_Some (m !! field)) then 1 else 0)) ∧ hash_rep o' m c).
Proof.
  intros Ho Hc. cbn [run_hash_op]. unfold hashTypeGetValue, hashTypeGetValueLength, hashTypeExists.
  assert (∀ n, match m !! field with Some _ => 1 | None => 0 end = n → n = if decide (is_Some (m !! field)) then 1 else 0) as Hdec.
  { intros n <-. destruct (m !! field); [by rewrite decide_True by eauto|by rewrite decide_False by (by intros [? ?])]. }
  destruct o as [l mem|d].
  - pose proof Ho as (kvs & m0 & Hl & Hnd & Hmap & Hb & _). rewrite (hash_get_zl l mem kvs field Hl Hnd), <-Hmap. cbn [mbind option_bind].
    split_and!; (eexists; split; [|exact Ho]).
    + by rewrite option_text.
    + destruct (m !! field) as [v|] eqn:Ev; cbn [fmap option_fmap option_map]; [|done].
      rewrite Hmap in Ev. apply elem_of_list_to_map_2 in Ev. pose proof (pair_budget kvs field v Ev). zlen_pos.
      rewrite zval_length by lia. done.
    + do 3 f_equal. apply Hdec. by destruct (m !! field).
  - pose proof Ho as (Hd & _). destruct (hash_get_ht d m field Hd) as (d' & -> & Hd'). cbn [mbind option_bind].
    split_and!; (eexists; split; [|by apply (hash_rep_ht d)]); [by destruct (m !! field)|by destruct (m !! field)|].
    do 3 f_equal. apply Hdec. by destruct (m !! field).
Qed.

Lemma hash_op_refines (c : hash_op) o m n :
  hash_rep o m n → hash_op_ok c → 40 + n + hash_op_cost c < 2 ^ 32 →
  ∃ o', run_hash_op c o = Some (o', (spec_hash_op c m).2) ∧ hash_rep o' (spec_hash_op c m).1 (n + hash_op_cost c).
Proof.
  intros Ho Hok Hn. destruct c as [field value flags|field|field|field|field| |argv start end_];
    cbn [spec_hash_op hash_op_cost fst snd] in *; rewrite ?Z.add_0_r in *.
  - destruct (hash_set_ok o m n field value flags Ho ltac:(lia)) as (o' & freed & Hrun & Ho'). exists o'. cbn [run_hash_op].
    rewrite Hrun. done.
  - apply (hash_read_ok o m n field); [done|lia].
  - apply (hash_read_ok o m n field); [done|lia].
  - apply (hash_read_ok o m n field); [done|lia].
  - destruct (hash_delete_ok o m n field Ho ltac:(lia)) as (o' & Hrun & Ho'). exists o'. cbn [run_hash_op]. by rewrite Hrun.
  - destruct (hash_length_ok o m n Ho) as (o' & Hrun & Ho'). exists o'. cbn [run_hash_op]. by rewrite Hrun.
  - destruct Hok as (Hs & Hse & He & ts & Hargs). cbn [run_hash_op]. unfold hashTypeTryConversion. destruct o as [l mem|d].
    + destruct (hash_try_ok argv ts (Z.to_nat (end_ - start + 1)) start _ m n Ho ltac:(lia) Hargs Hs ltac:(lia) Logic.I) as (o' & -> & Ho').
      cbn [mbind option_bind]. eauto.
    + cbn [mbind option_bind]. eauto.
Qed.

Fixpoint run_hash_ops (cs : list hash_op) o : option (hashobj L D * list hash_ans) :=
  match cs with
  | [] => Some (o, [])
  | c :: cs => '(o, r) ← run_hash_op c o; '(o, rs) ← run_hash_ops cs o; Some (o, r :: rs)
  end.

Fixpoint spec_hash_ops (cs : list hash_op) m : gmap bytes bytes * list hash_ans :=
  match cs with
  | [] => (m, [])
  | c :: cs => let '(m, r) := spec_hash_op c m in let '(m, rs) := spec_hash_ops cs m in (m, r :: rs)
  end.

Definition hash_cost (cs : list hash_op) : Z := foldr (λ c n, hash_op_cost c + n) 0 cs.

Lemma hash_cost_nonneg (cs : list hash_op) : 0 ≤ hash_cost cs.
Proof. induction cs as [|[] cs IH]; simpl; zlen_pos; lia. Qed.

Lemma hash_ops_refine (cs : list hash_op) : ∀ o m n,
  hash_rep o m n → Forall hash_op_ok cs → 40 + n + hash_cost cs < 2 ^ 32 →
  ∃ o', run_hash_ops cs o = Some (o', (spec_hash_ops cs m).2) ∧ hash_rep o' (spec_hash_ops cs m).1 (n + hash_cost cs).
Proof.
  induction cs as [|c cs IH]; intros o m n Ho Hok Hn; [exists o; by rewrite Z.add_0_r|].
  inversion Hok as [|? ? Hc Hcs]; subst. cbn [run_hash_ops spec_hash_ops]. cbn [hash_cost foldr] in *. fold (hash_cost cs) in *.
  pose proof (hash_cost_nonneg cs). destruct (hash_op_refines c o m n Ho Hc ltac:(lia)) as (o1 & -> & Ho1). cbn [mbind option_bind].
  destruct (spec_hash_op c m) as [m1 r]. simpl in *.
  destruct (IH o1 m1 _ Ho1 Hcs ltac:(lia)) as (o' & -> & Ho'). cbn [mbind option_bind]. exists o'.
  destruct (spec_hash_ops cs m1). simpl in *. split; [done|]. by rewrite Z.add_assoc.
Qed.

(** C9: a new hash behaves as a finite map from fields to values under any
    sequence of assignments, lookups, length and existence queries, deletions
    and size queries, and of attempts to convert it for the arguments of a
    command: it answers as the map does also when it turns from a ziplist into a
    hash table, and it stays a ziplist only while it has at most
    [hash_max_ziplist_entries] fields.  The bound keeps the ziplist below 4 GB. *)
Theorem hash_session_refines (mem : D) (m0 : gmap bytes bytes) (cs : list hash_op) :
  table_rep mem m0 → Forall hash_op_ok cs → 40 + hash_cost cs < 2 ^ 32 →
  ∃ o o' n, createHashObject mem = Some o ∧
    run_hash_ops cs o = Some (o', (spec_hash_ops cs ∅).2) ∧ hash_rep o' (spec_hash_ops cs ∅).1 n ∧
    match o' with
    | OBJ_ENCODING_ZIPLIST _ _ => Z.of_nat (base.size (spec_hash_ops cs ∅).1) ≤ Z.max 0 max_entries
    | OBJ_ENCODING_HT _ => True
    end.
Proof.
  intros Hm Hok Hn. unfold createHashObject. destruct packed_new_ok as (l & -> & Hl). cbn [mbind option_bind].
  assert (hash_rep (OBJ_ENCODING_ZIPLIST l mem) ∅ 0) as Ho.
  { exists [], m0. change (zlen []) with 0. split_and!; done || constructor || lia. }
  destruct (hash_ops_refine cs _ ∅ 0 Ho Hok ltac:(lia)) as (o' & Hrun & Ho').
  eexists _, o', _. split; [done|]. split; [done|]. split; [done|]. destruct o' as [l' mem'|]; [|done].
  destruct Ho' as (kvs & m1 & _ & Hnd & -> & _ & _ & Hmax). by rewrite pairs_size.
Qed.

(** ** Iteration in both encodings *)
Definition hash_iter_at o m (c : Z) hi (rest : list (bytes * bytes)) : Prop :=
  hash_rep o m c ∧
  match o with
  | OBJ_ENCODING_ZIPLIST l mem =>
      ∃ a, packed_rep l (flat (a ++ rest)) ∧ budget (flat (a ++ rest)) ≤ c ∧ zl_cursor l (a ++ rest) (length a) hi
  | OBJ_ENCODING_HT d =>
      ∃ it, di hi = Some it ∧ iter_rest d it rest.*1 ∧ Forall (λ kv, m !! kv.1 = Some kv.2) rest
  end.

(** One round of an iteration: the pair under the iterator, or the end. *)
Definition next_pair o hi : option (hashobj L D * hashTypeIterator (P := P) (E := E) (I := I) * option (bytes * bytes)) :=
  '(o, hi, r) ← hashTypeNext o hi;
  if r =? C_ERR then Some (o, hi, None)
  else
    k ← hashTypeCurrentObjectNewSds o hi OBJ_HASH_KEY;
    v ← hashTypeCurrentObjectNewSds o hi OBJ_HASH_VALUE;
    Some (o, hi, Some (k, v)).

Lemma next_pair_ok o m c hi rest :
  hash_iter_at o m c hi rest → c < 2 ^ 62 →
  ∃ o' hi', next_pair o hi = Some (o', hi', head rest) ∧
    match rest with
    | [] => ∃ o'', hashTypeReleaseIterator o' hi' = Some o'' ∧ hash_rep o'' m c
    | _ :: rest => hash_iter_at o' m c hi' rest
    end.
Proof.
  intros [Ho Hi] Hc. unfold next_pair. destruct o as [l mem|d].
  - destruct Hi as (a & Hl & Hb & Hcur).
    destruct (zl_next l mem (a ++ rest) (length a) hi Hl Hcur ltac:(rewrite length_app; lia)) as (hi' & -> & Hcur'). cbn [mbind option_bind].
    eexists _, hi'. destruct rest as [|[k v] rest].
    + rewrite app_nil_r, decide_False by lia. change (C_ERR =? C_ERR) with true. cbv iota. split; [done|]. cbn. eauto.
    + rewrite decide_True by (rewrite length_app; simpl; lia). change (C_OK =? C_ERR) with false. cbv iota.
      specialize (Hcur' ltac:(rewrite length_app; simpl; lia)).
      destruct (zl_current l mem (a ++ (k, v) :: rest) (length a) hi' k v Hcur') as [-> ->]; [by apply list_lookup_middle|lia|].
      cbn [mbind option_bind]. split; [done|]. split; [done|]. exists (a ++ [(k, v)]). rewrite <-app_assoc. split_and!; [done|done|].
      rewrite length_app. simpl. by rewrite Nat.add_1_r.
  - destruct Hi as (it & Hit & Hrest & Hvals). pose proof Ho as (Hd & Hsz & Hlen). cbn [hashTypeNext]. rewrite Hit. cbn [mbind option_bind].
    destruct (iter_next_ok d m it _ Hd Hrest) as (d' & it' & r & -> & Hd' & Hr). cbn [mbind option_bind].
    assert (hash_rep (OBJ_ENCODING_HT d') m c) as Ho' by (by apply (hash_rep_ht d)).
    eexists _, _. destruct r as [e|].
    + change (C_OK =? C_ERR) with false. cbv iota. destruct Hr as (k' & ks & Hks & He & Hkey & Hit').
      destruct rest as [|[k v] rest]; [done|]. injection Hks as <- <-. inversion Hvals as [|? ? Hv Hvals']; subst. simpl in Hv.
      pose proof (table_val_ok d' m e k Hd' He) as Hval. rewrite Hv in Hval.
      specialize (Hlen k v Hv). zlen_pos.
      assert (∀ what x, hashTypeCurrentFromHashTable (OBJ_ENCODING_HT d' : hashobj L D) (HashTypeIterator (fptr hi) (vptr hi) (Some it') (Some e)) what = Some x →
        zlen x < 2 ^ 62 →
        hashTypeCurrentObjectNewSds (OBJ_ENCODING_HT d' : hashobj L D) (HashTypeIterator (fptr hi) (vptr hi) (Some it') (Some e)) what = Some x) as Hnew.
      { intros what x Hx Hl. unfold hashTypeCurrentObjectNewSds, hashTypeCurrentObject. rewrite Hx. cbn [mbind option_bind].
        by rewrite (new_text (ZStr x)). }
      rewrite (Hnew OBJ_HASH_KEY k) by (done || lia). cbn [mbind option_bind].
      rewrite (Hnew OBJ_HASH_VALUE v) by (done || lia). cbn [mbind option_bind]. split; [done|]. split; [done|]. by exists it'.
    + change (C_ERR =? C_ERR) with true. cbv iota. destruct Hr as (Hnil & d'' & Hrel & Hd'').
      apply fmap_nil_inv in Hnil as ->. split; [done|]. cbn [hashTypeReleaseIterator di mbind option_bind].
      rewrite Hrel. cbn [mbind option_bind]. eexists. split; [done|]. by apply (hash_rep_ht d').
Qed.

Lemma hash_iter_init o m c :
  hash_rep o m c →
  ∃ kvs, hash_iter_at o m c (hashTypeInitIterator o) kvs ∧ NoDup kvs.*1 ∧ list_to_map kvs = m.
Proof.
  intros Ho. destruct o as [l mem|d].
  - pose proof Ho as (kvs & m0 & Hl & Hnd & -> & Hb & _). exists kvs. split; [|done]. split; [done|]. by exists [].
  - pose proof Ho as (Hd & _). destruct (iter_new_ok d m Hd) as (ks & Hks & Hnd & Hin).
    assert (∃ kvs : list (bytes * bytes), kvs.*1 = ks ∧ Forall (λ kv, m !! kv.1 = Some kv.2) kvs) as (kvs & <- & Hvals).
    { exists ((λ k, (k, default [] (m !! k))) <$> ks). split; [rewrite <-list_fmap_compose; apply list_fmap_id|].
      apply Forall_fmap, Forall_forall. intros k [v Hv]%Hin. simpl. by rewrite Hv. }
    exists kvs. split; [split; [done|by exists iter_new]|]. split; [done|]. apply map_eq. intros k.
    destruct (m !! k) as [v|] eqn:Ev.
    + assert (k ∈ kvs.*1) as ([k' v'] & -> & Hkv)%list_elem_of_fmap by (apply Hin; eauto).
      apply elem_of_list_to_map_1; [done|]. rewrite Forall_forall in Hvals. specialize (Hvals _ Hkv). simpl in *. congruence.
    + apply map_absent. rewrite Hin, Ev. by intros [? ?].
Qed.

(** [while (hashTypeNext(hi) != C_ERR) ...] with the key and the value of each
    round, then the release. *)
Fixpoint hash_pairs (fuel : nat) o hi : option (list (bytes * bytes) * hashobj L D) :=
  match fuel with
  | O => None
  | S fuel =>
      '(o, hi, r) ← next_pair o hi;
      match r with
      | None => o ← hashTypeReleaseIterator o hi; Some ([], o)
      | Some kv => '(kvs, o) ← hash_pairs fuel o hi; Some (kv :: kvs, o)
      end
  end.

Lemma hash_pairs_ok rest : ∀ o m c hi fuel,
  hash_iter_at o m c hi rest → c < 2 ^ 62 → (length rest < fuel)%nat →
  ∃ o', hash_pairs fuel o hi = Some (rest, o') ∧ hash_rep o' m c.
Proof.
  induction rest as [|kv rest IH]; intros o m c hi fuel Hi Hc Hfuel; (destruct fuel as [|fuel]; [lia|]); cbn [hash_pairs];
    destruct (next_pair_ok o m c hi _ Hi Hc) as (o1 & hi1 & -> & Hnext); cbn [mbind option_bind head].
  - destruct Hnext as (o2 & -> & Ho2). cbn [mbind option_bind]. eauto.
  - destruct (IH o1 m c hi1 fuel Hnext Hc) as (o' & -> & Ho'); [simpl in Hfuel; lia|]. cbn [mbind option_bind]. eauto.
Qed.

(** Iterating over a hash, in either encoding, returns every field exactly
    once, with its value, ends, can be released and leaves the hash as it was. *)
Theorem hashTypeNext_complete o m c :
  hash_rep o m c → c < 2 ^ 62 →
  ∃ kvs o', hash_pairs (S (base.size m)) o (hashTypeInitIterator o) = Some (kvs, o') ∧
    NoDup kvs.*1 ∧ list_to_map kvs = m ∧ hash_rep o' m c.
Proof.
  intros Ho Hc. destruct (hash_iter_init o m c Ho) as (kvs & Hi & Hnd & Hm).
  destruct (hash_pairs_ok kvs o m c _ (S (base.size m)) Hi Hc) as (o' & Hrun & Ho').
  - pose proof (pairs_size kvs Hnd) as Hsz. rewrite Hm in Hsz. unfold zlen in Hsz. lia.
  - by exists kvs, o'.
Qed.
End Hash.

(** ** Witnesses: ziplist.c and dict.c *)
Definition hashDictType (hash : bytes → Z) : Dict.dictType bytes bytes :=
  Dict.DictType hash None None (Some sds_equal) true true.

Lemma hashDictType_ok hash : (∀ k, in_u 64 (hash k)) → DictTypeOk (hashDictType hash).
Proof. intros Hh. split; simpl; [done|done|]. intros f k1 k2 [= <-]. apply bool_decide_eq_true. Qed.

#[local] Instance demo_hash_type_ok : DictTypeOk (hashDictType demo_hash).
Proof. apply hashDictType_ok. intros k. by apply uwrap_bound. Qed.

#[local] Instance demo_hash_table : TableOk (Dict.store bytes bytes * Dict.dict bytes bytes) Dict.ptr bytes bytes :=
  dict_table_ok (hashDictType demo_hash) eq_refl.

#[local] Instance demo_hash_iter : TableIter (Dict.store bytes bytes * Dict.dict bytes bytes) Dict.ptr Dict.dictIterator bytes :=
  dict_iter Dict.size.

#[local] Instance demo_hash_iter_ok : TableIterOk (Dict.store bytes bytes * Dict.dict bytes bytes) Dict.ptr Dict.dictIterator bytes bytes :=
  dict_iter_ok Dict.size (hashDictType demo_hash) eq_refl.

#[local] Existing Instance junk0.

Definition demo_hmem : Dict.store bytes bytes * Dict.dict bytes bytes :=
  (Dict.Store ∅ [] [] true, Dict.dictCreate (hashDictType demo_hash)).

Lemma demo_hmem_ok : table_rep demo_hmem (∅ : gmap bytes bytes).
Proof. split; [apply DictRefine.create_ok|reflexivity]. Qed.

Definition demo_hash_ops : list hash_op :=
  [HSet (bytes_of "a") (bytes_of "1") 0; HSet (bytes_of "12") (bytes_of "xyz") 3; HGet (bytes_of "a"); HLen;
   HSet (bytes_of "a") (bytes_of "-305") 0; HGetLength (bytes_of "a"); HSet (bytes_of "q") [] 1;
   HLen; HGet (bytes_of "12"); HDel (bytes_of "12"); HExists (bytes_of "12")].

Definition demo_hash_answers : list hash_ans :=
  [HInt 0; HInt 0; HValue (Some (bytes_of "1")); HInt 2; HInt 1; HInt 4; HInt 0; HInt 3;
   HValue (Some (bytes_of "xyz")); HInt 1; HInt 0].

(** With room for two fields in the ziplist. *)
Lemma hash_session_refines_witness :
  ∃ (o o' : hashobj bytes (Dict.store bytes bytes * Dict.dict bytes bytes)) n, createHashObject demo_hmem = Some o ∧
    run_hash_ops 2 64 demo_hash_ops o = Some (o', demo_hash_answers) ∧
    hash_rep 2 o' (spec_hash_ops demo_hash_ops ∅).1 n.
Proof.
  destruct (hash_session_refines 2 64 demo_hmem ∅ demo_hash_ops) as (o & o' & n & H1 & H2 & H3 & _).
  - exact demo_hmem_ok.
  - by repeat constructor.
  - by vm_compute.
  - exists o, o', n. split; [exact H1|]. split; [|exact H3]. rewrite H2.
    replace (spec_hash_ops demo_hash_ops ∅).2 with demo_hash_answers by (vm_compute; reflexivity). reflexivity.
Defined.

(** A hash that has become a hash table. *)
Definition demo_hobj : hashobj bytes (Dict.store bytes bytes * Dict.dict bytes bytes) :=
  match (o ← createHashObject demo_hmem; run_hash_ops 2 64 demo_hash_ops o) with
  | Some (o, _) => o
  | None => OBJ_ENCODING_HT demo_hmem
  end.

Lemma demo_hobj_ok : hash_rep 2 demo_hobj (spec_hash_ops demo_hash_ops ∅).1 (hash_cost demo_hash_ops).
Proof.
  unfold demo_hobj, createHashObject. destruct (packed_new_ok (L := bytes) (P := Z)) as (l & Hnew & Hl). rewrite Hnew.
  cbn [mbind option_bind].
  assert (hash_rep 2 (OBJ_ENCODING_ZIPLIST l demo_hmem) ∅ 0) as Ho.
  { exists [], ∅. split_and!; [exact Hl|constructor|done|done|exact demo_hmem_ok|done]. }
  destruct (hash_ops_refine 2 64 demo_hash_ops _ ∅ 0 Ho) as (o' & Hrun & Ho'); [by repeat constructor|by vm_compute|].
  rewrite Hrun. exact Ho'.
Qed.

Lemma hashTypeNext_complete_witness :
  ∃ kvs o', hash_pairs 3 demo_hobj (hashTypeInitIterator demo_hobj) = Some (kvs, o') ∧ NoDup kvs.*1 ∧
    list_to_map kvs = (spec_hash_ops demo_hash_ops ∅).1.
Proof.
  destruct (hashTypeNext_complete 2 demo_hobj (spec_hash_ops demo_hash_ops ∅).1 (hash_cost demo_hash_ops) demo_hobj_ok)
    as (kvs & o' & H1 & H2 & H3 & _); [by vm_compute|].
  exists kvs, o'. split; [|split; [exact H2|exact H3]]. rewrite <-H1. reflexivity.
Defined.
