(* ===== verification/Zzl.v ===== *)
(** * t_zset.c: sorted sets in a ziplist

    The elements are pairs of entries, the string and the text of its score,
    ordered by score and string.  The functions are those of the part
    "Ziplist-backed sorted set API" of t_zset.c, over any packed list with the
    interface of [Packed] and any C library with the interface of [Score.Libc].
    A loop over the elements ends after as many rounds as the list has entries,
    which is its fuel. *)

From Stdlib Require Import SpecFloat.
From S2P Require Import Prelude.
From S2P Require Import Mem.
From S2P Require Import Util.
From S2P Require Import Ziplist.
From S2P Require Import Packed.
From S2P Require Import Sds.
From S2P Require Import SdsRefine.
From S2P Require Import Object.
From S2P Require Import Skiplist.
From S2P Require Import Score.
Import Packed.
Import Score.
Import Ziplist(zval, ZStr, ZInt, where_, ZIPLIST_HEAD, ZIPLIST_TAIL).
Import Object(sds_contents, c_string).
Import Skiplist.

Module Zzl.

Section Zzl.
Context {L P : Type} `{!Packed L P} `{Alloc} `{!Libc}.

Definition rounds (zl : L) : option nat := '(_, n) ← packed_len zl; Some (S (Z.to_nat n)).

(** ** Entries *)
Definition zzlGetScore (zl : L) (sptr : P) : option spec_float :=
  ret ← packed_get zl sptr;
  v ← ret;
  match v with
  | ZStr vstr =>
      buf ← store (zmalloc 128) 0 vstr;
      buf ← store buf (zlen vstr) [0];
      Some (strtod (c_string buf))
  | ZInt vlong => Some (of_ll vlong)
  end.

Definition ziplistGetObject (zl : L) (sptr : P) : option bytes :=
  ret ← packed_get zl sptr;
  v ← ret;
  s ← (match v with
       | ZStr vstr => Sds.sdsnewlen (Some vstr) (zlen vstr)
       | ZInt vlong => Sds.sdsfromlonglong vlong
       end);
  sds_contents s.

Definition zzlCompareElements (zl : L) (eptr : P) (cstr : bytes) : option Z :=
  ret ← packed_get zl eptr;
  v ← ret;
  vstr ← (match v with
          | ZStr vstr => Some vstr
          | ZInt vlong => '(vbuf, vlen) ← Util.ll2string (zmalloc 32) 32 vlong; load vbuf 0 vlen
          end);
  let minlen := swrap 32 (if zlen vstr <? zlen cstr then zlen vstr else zlen cstr) in
  a ← load vstr 0 minlen;
  b ← load cstr 0 minlen;
  let cmp := Sds.memcmp a b in
  Some (if cmp =? 0 then swrap 32 (zlen vstr - zlen cstr) else cmp).

Definition zzlLength (zl : L) : option (L * Z) :=
  '(zl, n) ← packed_len zl; Some (zl, n / 2).

Definition zzlNext (zl : L) (eptr sptr : option P) : option (option P * option P) :=
  _ ← eptr;
  sptr ← sptr;
  _eptr ← packed_next zl sptr;
  match _eptr with
  | Some e => _sptr ← packed_next zl e; s ← _sptr; Some (Some e, Some s)
  | None => Some (None, None)
  end.

Definition zzlPrev (zl : L) (eptr sptr : option P) : option (option P * option P) :=
  eptr ← eptr;
  _ ← sptr;
  _sptr ← packed_prev zl eptr;
  match _sptr with
  | Some s => _eptr ← packed_prev zl s; e ← _eptr; Some (Some e, Some s)
  | None => Some (None, None)
  end.

(** The step back of the searches for the last element. *)
Definition prev_element (zl : L) (eptr : P) : option (option P) :=
  sptr ← packed_prev zl eptr;
  match sptr with
  | Some sptr => eptr ← packed_prev zl sptr; eptr ← eptr; Some (Some eptr)
  | None => Some None
  end.

(** ** Ranges of scores *)
Definition zzlIsInRange (zl : L) (range : zrangespec) : option bool :=
  if dlt (rmax range) (rmin range) ||
     (deq (rmin range) (rmax range) && (minex range || maxex range)) then Some false
  else
    p ← packed_index zl (-1);
    match p with
    | None => Some false
    | Some p =>
        score ← zzlGetScore zl p;
        if negb (zslValueGteMin score range) then Some false
        else
          p ← packed_index zl 1;
          p ← p;
          score ← zzlGetScore zl p;
          Some (zslValueLteMax score range)
    end.

Definition first_body (zl : L) (range : zrangespec) (eptr : option P) : option (option P + option P) :=
  match eptr with
  | None => Some (inr None)
  | Some eptr =>
      sptr ← packed_next zl eptr;
      sptr ← sptr;
      score ← zzlGetScore zl sptr;
      if zslValueGteMin score range then Some (inr (if zslValueLteMax score range then Some eptr else None))
      else eptr ← packed_next zl sptr; Some (inl eptr)
  end.

Definition zzlFirstInRange (zl : L) (range : zrangespec) : option (option P) :=
  eptr ← packed_index zl 0;
  b ← zzlIsInRange zl range;
  if negb b then Some None
  else fuel ← rounds zl; loop fuel (first_body zl range) eptr.

Definition last_body (zl : L) (range : zrangespec) (eptr : option P) : option (option P + option P) :=
  match eptr with
  | None => Some (inr None)
  | Some eptr =>
      sptr ← packed_next zl eptr;
      sptr ← sptr;
      score ← zzlGetScore zl sptr;
      if zslValueLteMax score range then Some (inr (if zslValueGteMin score range then Some eptr else None))
      else eptr ← prev_element zl eptr; Some (inl eptr)
  end.

Definition zzlLastInRange (zl : L) (range : zrangespec) : option (option P) :=
  eptr ← packed_index zl (-2);
  b ← zzlIsInRange zl range;
  if negb b then Some None
  else fuel ← rounds zl; loop fuel (last_body zl range) eptr.

(** ** Ranges of strings *)
Definition zzlLexValueGteMin (zl : L) (p : P) (spec : zlexrangespec) : option bool :=
  value ← ziplistGetObject zl p; Some (zslLexValueGteMin value spec).

Definition zzlLexValueLteMax (zl : L) (p : P) (spec : zlexrangespec) : option bool :=
  value ← ziplistGetObject zl p; Some (zslLexValueLteMax value spec).

Definition zzlIsInLexRange (zl : L) (range : zlexrangespec) : option bool :=
  if (1 <? sdscmplex (lmin range) (lmax range)) ||
     ((cmp_bytes (lex_contents (lmin range)) (lex_contents (lmax range)) =? 0) &&
      (lminex range || lmaxex range)) then Some false
  else
    p ← packed_index zl (-2);
    match p with
    | None => Some false
    | Some p =>
        b ← zzlLexValueGteMin zl p range;
        if negb b then Some false
        else
          p ← packed_index zl 0;
          p ← p;
          zzlLexValueLteMax zl p range
    end.

Definition first_lex_body (zl : L) (range : zlexrangespec) (eptr : option P) : option (option P + option P) :=
  match eptr with
  | None => Some (inr None)
  | Some eptr =>
      g ← zzlLexValueGteMin zl eptr range;
      if (g : bool) then
        l ← zzlLexValueLteMax zl eptr range;
        Some (inr (if (l : bool) then Some eptr else None))
      else
        sptr ← packed_next zl eptr;
        sptr ← sptr;
        eptr ← packed_next zl sptr;
        Some (inl eptr)
  end.

Definition zzlFirstInLexRange (zl : L) (range : zlexrangespec) : option (option P) :=
  eptr ← packed_index zl 0;
  b ← zzlIsInLexRange zl range;
  if negb b then Some None
  else fuel ← rounds zl; loop fuel (first_lex_body zl range) eptr.

Definition last_lex_body (zl : L) (range : zlexrangespec) (eptr : option P) : option (option P + option P) :=
  match eptr with
  | None => Some (inr None)
  | Some eptr =>
      l ← zzlLexValueLteMax zl eptr range;
      if (l : bool) then
        g ← zzlLexValueGteMin zl eptr range;
        Some (inr (if (g : bool) then Some eptr else None))
      else eptr ← prev_element zl eptr; Some (inl eptr)
  end.

Definition zzlLastInLexRange (zl : L) (range : zlexrangespec) : option (option P) :=
  eptr ← packed_index zl (-2);
  b ← zzlIsInLexRange zl range;
  if negb b then Some None
  else fuel ← rounds zl; loop fuel (last_lex_body zl range) eptr.

(** ** Single elements *)
(** [want]: the argument [score] is not NULL. *)
Definition zfind_body (zl : L) (ele : bytes) (want : bool) (eptr : option P) :
    option (option P + option (P * option spec_float)) :=
  match eptr with
  | None => Some (inr None)
  | Some eptr =>
      sptr ← packed_next zl eptr;
      sptr ← sptr;
      b ← packed_compare zl eptr ele;
      if (b : bool) then
        sc ← (if want then s ← zzlGetScore zl sptr; Some (Some s) else Some None);
        Some (inr (Some (eptr, sc)))
      else eptr ← packed_next zl sptr; Some (inl eptr)
  end.

Definition zzlFind (zl : L) (ele : bytes) (want : bool) : option (option (P * option spec_float)) :=
  eptr ← packed_index zl 0;
  fuel ← rounds zl;
  loop fuel (zfind_body zl ele want) eptr.

Definition zzlDelete (zl : L) (eptr : P) : option L :=
  '(zl, p) ← packed_delete zl eptr;
  '(zl, _) ← packed_delete zl p;
  Some zl.

Definition zzlInsertAt (zl : L) (eptr : option P) (ele : bytes) (score : spec_float) : option L :=
  '(scorebuf, scorelen) ← d2string (zmalloc 128) 128 score;
  text ← load scorebuf 0 scorelen;
  match eptr with
  | None =>
      zl ← packed_push zl ele ZIPLIST_TAIL;
      packed_push zl text ZIPLIST_TAIL
  | Some eptr =>
      zl ← packed_insert zl eptr ele;
      sptr ← packed_next zl eptr;
      sptr ← sptr;
      packed_insert zl sptr text
  end.

(** The loop leaves with the list and [eptr]. *)
Definition zinsert_body (zl : L) (ele : bytes) (score : spec_float) (eptr : option P) :
    option (option P + L * option P) :=
  match eptr with
  | None => Some (inr (zl, None))
  | Some eptr =>
      sptr ← packed_next zl eptr;
      sptr ← sptr;
      s ← zzlGetScore zl sptr;
      here ← (if dlt score s then Some true
              else if deq s score then c ← zzlCompareElements zl eptr ele; Some (0 <? c)
              else Some false);
      if (here : bool) then zl ← zzlInsertAt zl (Some eptr) ele score; Some (inr (zl, Some eptr))
      else eptr ← packed_next zl sptr; Some (inl eptr)
  end.

Definition zzlInsert (zl : L) (ele : bytes) (score : spec_float) : option L :=
  eptr ← packed_index zl 0;
  fuel ← rounds zl;
  '(zl, eptr) ← loop fuel (zinsert_body zl ele score) eptr;
  match eptr with
  | None => zzlInsertAt zl None ele score
  | Some _ => Some zl
  end.

(** ** Deleting ranges
    The loops delete the pair at [eptr] as long as [lte] holds of it; at the end
    of the list [ziplistNext] returns NULL. *)
Definition zdelete_body (lte : L → P → P → option bool) (s : L * P * Z) : option (L * P * Z + L * Z) :=
  let '(zl, eptr, num) := s in
  sptr ← packed_next zl eptr;
  match sptr with
  | None => Some (inr (zl, num))
  | Some sptr =>
      b ← lte zl eptr sptr;
      if (b : bool) then
        '(zl, eptr) ← packed_delete zl eptr;
        '(zl, eptr) ← packed_delete zl eptr;
        Some (inl (zl, eptr, uwrap 64 (num + 1)))
      else Some (inr (zl, num))
  end.

Definition zzlDeleteRangeByScore (zl : L) (range : zrangespec) : option (L * Z) :=
  eptr ← zzlFirstInRange zl range;
  match eptr with
  | None => Some (zl, 0)
  | Some eptr =>
      fuel ← rounds zl;
      loop fuel (zdelete_body (λ zl _ sptr,
        score ← zzlGetScore zl sptr; Some (zslValueLteMax score range))) (zl, eptr, 0)
  end.

Definition zzlDeleteRangeByLex (zl : L) (range : zlexrangespec) : option (L * Z) :=
  eptr ← zzlFirstInLexRange zl range;
  match eptr with
  | None => Some (zl, 0)
  | Some eptr =>
      fuel ← rounds zl;
      loop fuel (zdelete_body (λ zl eptr _, zzlLexValueLteMax zl eptr range)) (zl, eptr, 0)
  end.

(** The arguments are [unsigned int]; the index of [ziplistDeleteRange] is an
    [int]. *)
Definition zzlDeleteRangeByRank (zl : L) (start end_ : Z) : option (L * Z) :=
  let num := uwrap 32 (uwrap 32 (end_ - start) + 1) in
  zl ← packed_delete_range zl (swrap 32 (uwrap 32 (2 * (start - 1)))) (uwrap 32 (2 * num));
  Some (zl, num).
End Zzl.
End Zzl.
