(* ===== verification/ZzlSpec.v ===== *)
(** * Sorted sets in a ziplist: elements

    The list holds the strings and the texts of the scores of an ordered list of
    items (those of the skip list, whose addresses do not matter here).  The
    lemmas say what finding, deleting and inserting an element do. *)

From Stdlib Require Import SpecFloat.
From S2P Require Import Prelude.
From S2P Require Import Mem.
From S2P Require Import Util.
From S2P Require Import Ziplist.
From S2P Require Import ZiplistOps.
From S2P Require Import ZiplistSpec.
From S2P Require Import Packed.
From S2P Require Import PackedPairs.
From S2P Require Import Sds.
From S2P Require Import SdsRefine.
From S2P Require Import Object.
From S2P Require Import ObjectSpec.
From S2P Require Import Skiplist.
From S2P Require Import SkiplistRepr.
From S2P Require Import SkiplistSpec.
From S2P Require Import SkiplistRange.
From S2P Require Import Score.
From S2P Require Import Zzl.
Import Packed.
Import Score.
Import Ziplist(zval, ZStr, ZInt, where_, ZIPLIST_HEAD, ZIPLIST_TAIL).
Import Skiplist.
Import Zzl.

#[local] Notation length := Datatypes.length.

Section ZzlSpec.
Context {L P : Type} `{!Packed L P} `{!PackedOk L P} `{!Alloc} `{!Libc} `{!LibcOk}.
Implicit Types (l : L) (xs a b : list item) (it : item) (p q : P).

(** ** Layout *)
Definition pair_of it : bytes * bytes := ((ikey it).2, score_text (sc it)).
Definition entries xs : list bytes := flat (pair_of <$> xs).

Definition item_ok it : Prop := good it ∧ valid (sc it).

Record zzl_rep l xs : Prop := {
  zz_list : packed_rep l (entries xs);
  zz_sorted : StronglySorted ilt xs;
  zz_items : Forall item_ok xs }.

(** What the elements need at most in a ziplist. *)
Fixpoint weight xs : Z :=
  match xs with [] => 0 | it :: xs => zlen (ikey it).2 + 58 + weight xs end.

Lemma weight_app a b : weight (a ++ b) = weight a + weight b.
Proof. induction a; simpl; lia. Qed.

Lemma weight_perm a b : a ≡ₚ b → weight a = weight b.
Proof. induction 1; simpl; lia. Qed.

Lemma weight_len xs : 58 * zlen xs ≤ weight xs.
Proof. induction xs as [|it xs IH]; [done|]. cbn [weight]. zl. Qed.

Lemma weight_budget xs : Forall item_ok xs → 0 ≤ budget (entries xs) ≤ weight xs.
Proof.
  induction 1 as [|it xs [_ Hv] _ IH]; [done|].
  change (entries (it :: xs)) with ((ikey it).2 :: score_text (sc it) :: entries xs). cbn [budget weight].
  pose proof (text_length (sc it) Hv). pose proof (zlen_nonneg (ikey it).2). lia.
Qed.

Lemma weight_room xs : Forall item_ok xs → 40 + weight xs < 2 ^ 32 → room (entries xs).
Proof. intros Hx Hw. unfold room. pose proof (weight_budget xs Hx). lia. Qed.

Lemma entries_app a b : entries (a ++ b) = entries a ++ entries b.
Proof. unfold entries. by rewrite fmap_app, flat_app. Qed.

Lemma entries_zlen xs : zlen (entries xs) = 2 * zlen xs.
Proof. unfold entries. rewrite flat_zlen. unfold zlen. by rewrite length_fmap. Qed.

Lemma item_pairs_mid a it b : pair_of <$> (a ++ it :: b) = (pair_of <$> a) ++ pair_of it :: (pair_of <$> b).
Proof. by rewrite fmap_app. Qed.

(** ** Reading an entry *)
Definition at_item l xs a p : Prop := packed_at l (entries xs) (2 * length a) p.
Definition at_score l xs a q : Prop := packed_at l (entries xs) (S (2 * length a)) q.

Lemma get_at_item l xs a it b p :
  xs = a ++ it :: b → at_item l xs a p → packed_get l p = Some (Some (zval_of (ikey it).2)).
Proof.
  intros -> Hp. rewrite (packed_get_ok _ _ _ _ Hp). unfold entries. rewrite flat_key, item_pairs_mid.
  rewrite <-(length_fmap pair_of a), list_lookup_middle by done. done.
Qed.

Lemma get_at_score l xs a it b q :
  xs = a ++ it :: b → at_score l xs a q → packed_get l q = Some (Some (zval_of (score_text (sc it)))).
Proof.
  intros -> Hp. rewrite (packed_get_ok _ _ _ _ Hp). unfold entries. rewrite flat_val, item_pairs_mid.
  rewrite <-(length_fmap pair_of a), list_lookup_middle by done. done.
Qed.

Lemma score_at l xs a it b q :
  xs = a ++ it :: b → item_ok it → at_score l xs a q → zzlGetScore l q = Some (sc it).
Proof.
  intros Hxs [[Hn _] Hv] Hq. unfold zzlGetScore. rewrite (get_at_score l xs a it b q Hxs Hq). cbn [mbind option_bind].
  pose proof (text_zval_of (score_text (sc it))) as Ht. pose proof (text_strtod (sc it) Hv Hn) as Hs.
  destruct (zval_of (score_text (sc it))) as [u|n] eqn:Ez; [|by rewrite (text_value _ _ Ez), Hs].
  simpl in Ht. subst u. set (t := score_text (sc it)) in *. pose proof (text_length (sc it) Hv) as Hl. fold t in Hl.
  assert (zlen (zmalloc 128) = 128) as Hz by (unfold zmalloc; by rewrite zlen_fresh).
  set (k := Z.to_nat (zlen t)).
  rewrite (store_at (zmalloc 128) [] (take k (zmalloc 128)) t (drop k (zmalloc 128)) 0); cycle 1.
  { by rewrite app_nil_l, take_drop. }
  { done. }
  { unfold k. rewrite zlen_take by lia. lia. }
  cbn [mbind option_bind app].
  destruct (drop k (zmalloc 128)) as [|c r] eqn:Ed.
  { apply (f_equal zlen) in Ed. unfold k in Ed. rewrite zlen_drop in Ed by lia. change (zlen []) with 0 in Ed. lia. }
  rewrite (store_at _ t [c] [0] r (zlen t)) by done. cbn [mbind option_bind].
  f_equal. rewrite <-Hs. f_equal. apply c_string_text. by apply text_chars.
Qed.

Lemma object_at l xs a it b p :
  xs = a ++ it :: b → item_ok it → at_item l xs a p → ziplistGetObject l p = Some (ikey it).2.
Proof.
  intros Hxs [Hg _] Hp. unfold ziplistGetObject. rewrite (get_at_item l xs a it b p Hxs Hp). cbn [mbind option_bind].
  pose proof (good_len it Hg). rewrite <-(text_zval_of (ikey it).2) at 2. apply new_text, zval_text_ok. lia.
Qed.

Lemma compare_item l xs a it b p c :
  xs = a ++ it :: b → item_ok it → at_item l xs a p → zlen c < 2 ^ 31 →
  zzlCompareElements l p c = Some (cmp_bytes (ikey it).2 c).
Proof.
  intros Hxs [Hg _] Hp Hc. unfold zzlCompareElements. rewrite (get_at_item l xs a it b p Hxs Hp). cbn [mbind option_bind].
  pose proof (good_len it Hg) as He. set (e := (ikey it).2) in *.
  assert ((match zval_of e with
           | ZStr vstr => Some vstr
           | ZInt vlong => '(vbuf, vlen) ← Util.ll2string (zmalloc 32) 32 vlong; load vbuf 0 vlen
           end) = Some e) as ->.
  { pose proof (text_zval_of e) as Ht. pose proof (zval_text_ok e ltac:(lia)) as Hok.
    destruct (zval_of e) as [u|n]; simpl in Ht, Hok; [by rewrite Ht|].
    pose proof (print_length n Hok) as Hl. rewrite Util.ll2string_eq; [|done|unfold zmalloc; rewrite zlen_fresh; lia].
    rewrite (proj2 (Z.leb_gt 32 (zlen (Util.print n)))) by lia. cbn [mbind option_bind]. rewrite <-Ht. by eapply (load_at _ [] _). }
  cbn [mbind option_bind]. cbv zeta. zlen_pos.
  set (n := Nat.min (length e) (length c)).
  assert ((if zlen e <? zlen c then zlen e else zlen c) = Z.of_nat n) as ->.
  { unfold n, zlen. destruct (Z.ltb_spec (Z.of_nat (length e)) (Z.of_nat (length c))); lia. }
  rewrite (swrap_id 32 (Z.of_nat n)); [|lia|unfold in_s; change (2 ^ (32 - 1)) with (2 ^ 31); unfold n, zlen in *; lia].
  assert (∀ s, (n ≤ length s)%nat → load s 0 (Z.of_nat n) = Some (take n s)) as Hld.
  { intros s Hs. rewrite (load_at s [] (take n s) (drop n s)); [done|by rewrite app_nil_l, take_drop|done|].
    unfold zlen. rewrite length_take. lia. }
  rewrite !Hld by (unfold n; lia). done.
Qed.

(** ** Cursors
    [eptr] of a loop over the elements: [a] are those behind it. *)
Definition cursor l xs a b (eptr : option P) : Prop :=
  xs = a ++ b ∧ match b with [] => eptr = None | _ => ∃ p, eptr = Some p ∧ at_item l xs a p end.

Lemma head_cursor l xs : packed_rep l (entries xs) → ∃ eptr, packed_index l 0 = Some eptr ∧ cursor l xs [] xs eptr.
Proof.
  intros Hl. pose proof (index_head l (entries xs) Hl) as Hi. destruct xs as [|it xs]; [by exists None|].
  destruct Hi as (p & Hp & Hat). exists (Some p). split; [done|]. split; [done|]. by exists p.
Qed.

Lemma pair_step l xs a it b p :
  xs = a ++ it :: b → item_ok it → at_item l xs a p →
  ∃ q, packed_next l p = Some (Some q) ∧ at_score l xs a q ∧ zzlGetScore l q = Some (sc it) ∧
    ∃ eptr, packed_next l q = Some eptr ∧ cursor l xs (a ++ [it]) b eptr.
Proof.
  intros Hxs Hok Hp. unfold at_item, entries in Hp. rewrite Hxs, item_pairs_mid in Hp.
  rewrite <-(length_fmap pair_of a) in Hp.
  destruct (next_value l _ (pair_of <$> a) (pair_of it).1 (pair_of it).2 (pair_of <$> b) p eq_refl Hp) as (q & Hq & Hat).
  pose proof (next_key l _ (pair_of <$> a) (pair_of it).1 (pair_of it).2 (pair_of <$> b) q eq_refl Hat) as Hk.
  assert (at_score l xs a q) as Hs.
  { unfold at_score, entries. rewrite Hxs, item_pairs_mid, <-(length_fmap pair_of a). exact Hat. }
  exists q. split; [done|]. split; [done|]. split; [by eapply score_at|].
  destruct b as [|it' b]; simpl in Hk.
  - exists None. split; [done|]. split; [by rewrite Hxs, app_nil_r|done].
  - destruct Hk as (p' & Hp' & Hat'). exists (Some p'). split; [done|]. split; [by rewrite Hxs, <-app_assoc|].
    exists p'. split; [done|]. unfold at_item, entries. rewrite Hxs, item_pairs_mid, length_app in *.
    rewrite length_fmap in Hat'. exact Hat'.
Qed.

Lemma rounds_ok l xs : packed_rep l (entries xs) → rounds l = Some (S (2 * length xs)).
Proof.
  intros Hl. unfold rounds. destruct (packed_len_ok l _ Hl) as (l' & -> & _). cbn [mbind option_bind].
  rewrite entries_zlen. unfold zlen. do 2 f_equal. lia.
Qed.

Lemma length_at l xs : packed_rep l (entries xs) → ∃ l', zzlLength l = Some (l', zlen xs) ∧ packed_rep l' (entries xs).
Proof.
  intros Hl. unfold zzlLength. destruct (packed_len_ok l _ Hl) as (l' & -> & Hl'). cbn [mbind option_bind].
  rewrite entries_zlen, Z.mul_comm, Z.div_mul by lia. eauto.
Qed.

(** ** Finding *)
Lemma zfind_loop l xs e (want : bool) : ∀ b a eptr fuel,
  Forall item_ok xs → cursor l xs a b eptr → (length b < fuel)%nat →
  ∃ r, loop fuel (zfind_body l e want) eptr = Some r ∧
    match r with
    | Some (p, s) => ∃ b1 it b2, b = b1 ++ it :: b2 ∧ (ikey it).2 = e ∧ at_item l xs (a ++ b1) p ∧
        s = (if want then Some (sc it) else None)
    | None => e ∉ strings b
    end.
Proof.
  induction b as [|it b IH]; intros a eptr fuel Hok [Hxs Hc] Hf; (destruct fuel as [|fuel]; [simpl in Hf; lia|]); rewrite loop_S.
  - rewrite Hc. exists None. split; [done|]. apply not_elem_of_nil.
  - destruct Hc as (p & -> & Hp). assert (item_ok it) as Hit by (eapply (proj1 (Forall_forall _ _) Hok); set_solver).
    cbn [zfind_body]. destruct (pair_step l xs a it b p Hxs Hit Hp) as (q & -> & Hq & Hs & eptr & Hn & Hcur). cbn [mbind option_bind].
    assert (entries xs !! (2 * length a)%nat = Some (ikey it).2) as Hkey.
    { unfold entries. rewrite flat_key, Hxs, item_pairs_mid, <-(length_fmap pair_of a), list_lookup_middle by done. done. }
    rewrite (packed_compare_ok l _ _ p _ e Hp Hkey). cbn [mbind option_bind].
    case_bool_decide as He.
    + assert ((if want then s ← zzlGetScore l q; Some (Some s) else Some None) = Some (if want then Some (sc it) else None)) as ->
        by (destruct want; [by rewrite Hs|done]).
      cbn [mbind option_bind]. eexists. split; [done|]. exists [], it, b. rewrite app_nil_r. by split_and!.
    + rewrite Hn. cbn [mbind option_bind]. destruct (IH (a ++ [it]) eptr fuel Hok Hcur ltac:(simpl in Hf; lia)) as (r & Hrun & Hr).
      exists r. split; [done|]. destruct r as [[p' s]|].
      * destruct Hr as (b1 & it' & b2 & -> & He' & Hat & ->). exists (it :: b1), it', b2. rewrite <-app_assoc in Hat. by split_and!.
      * unfold strings in *. rewrite fmap_cons. apply not_elem_of_cons. split; [|done]. by intros ->.
Qed.

Lemma find_in l xs e want :
  packed_rep l (entries xs) → Forall item_ok xs →
  ∃ r, zzlFind l e want = Some r ∧
    match r with
    | Some (p, s) => ∃ a it b, xs = a ++ it :: b ∧ (ikey it).2 = e ∧ at_item l xs a p ∧ s = (if want then Some (sc it) else None)
    | None => e ∉ strings xs
    end.
Proof.
  intros Hl Hok. unfold zzlFind. destruct (head_cursor l xs Hl) as (eptr & -> & Hc). cbn [mbind option_bind].
  rewrite (rounds_ok l xs Hl). cbn [mbind option_bind].
  destruct (zfind_loop l xs e want xs [] eptr (S (2 * length xs)) Hok Hc ltac:(lia)) as (r & Hrun & Hr).
  exists r. split; [done|]. destruct r as [[p s]|]; done.
Qed.

(** ** Deleting *)
Lemma delete_item_at l xs a it b p :
  xs = a ++ it :: b → at_item l xs a p → room (entries xs) →
  ∃ l1 l2, packed_delete l p = Some (l1, p) ∧ packed_delete l1 p = Some (l2, p) ∧ at_item l2 (a ++ b) a p.
Proof.
  intros Hxs Hp Hroom. unfold at_item, entries in *. rewrite Hxs, item_pairs_mid in *. rewrite fmap_app, <-(length_fmap pair_of a) in *.
  by eapply (delete_pair_at l _ (pair_of <$> a) (pair_of it).1 (pair_of it).2 (pair_of <$> b) p).
Qed.

Lemma sorted_del a it b : StronglySorted ilt (a ++ it :: b) → StronglySorted ilt (a ++ b).
Proof.
  intros (S1 & S2 & S3 & S4 & S5)%StronglySorted_mid. apply StronglySorted_app_iff. split_and!; try done.
Qed.

Lemma delete_element l xs a it b p :
  zzl_rep l xs → xs = a ++ it :: b → at_item l xs a p → 40 + weight xs < 2 ^ 32 →
  ∃ l', zzlDelete l p = Some l' ∧ zzl_rep l' (a ++ b).
Proof.
  intros [Hl Hs Hok] Hxs Hp Hw. unfold zzlDelete.
  destruct (delete_item_at l xs a it b p Hxs Hp (weight_room xs Hok Hw)) as (l1 & l2 & -> & H2 & Hat). cbn [mbind option_bind].
  rewrite H2. cbn [mbind option_bind]. exists l2. split; [done|]. split; [by eapply packed_at_rep| |].
  - rewrite Hxs in Hs. by eapply sorted_del.
  - rewrite Hxs in Hok. apply Forall_app in Hok as [? [_ ?]%Forall_cons]. by apply Forall_app.
Qed.

(** ** Inserting *)
Definition new_item (s : spec_float) (e : bytes) : item := Item 1 0 s (Some e).

Lemma insert_at l a b e s eptr :
  valid s → isnan s = false → cursor l (a ++ b) a b eptr → packed_rep l (entries (a ++ b)) →
  room (entries (a ++ new_item s e :: b)) →
  ∃ l', zzlInsertAt l eptr e s = Some l' ∧ packed_rep l' (entries (a ++ new_item s e :: b)).
Proof.
  intros Hv Hn [_ Hc] Hl Hroom. unfold zzlInsertAt.
  destruct (d2string_ok (zmalloc 128) s Hv Hn) as (buf & -> & Hbuf); [unfold zmalloc; by rewrite zlen_fresh|].
  cbn [mbind option_bind]. rewrite Hbuf. cbn [mbind option_bind].
  unfold at_item, entries in *. rewrite item_pairs_mid in *. change (pair_of (new_item s e)) with (e, score_text s) in *.
  destruct b as [|it b].
  - subst eptr. rewrite app_nil_r in Hl. destruct (push_pair l _ e (score_text s) Hl Hroom) as (l1 & l2 & -> & H2 & Hl2).
    cbn [mbind option_bind]. eauto.
  - destruct Hc as (p & -> & Hp). rewrite fmap_app, <-(length_fmap pair_of a) in Hp.
    destruct (insert_pair l (pair_of <$> a) e (score_text s) (pair_of <$> it :: b) p ltac:(by rewrite fmap_cons) Hp Hroom) as (l1 & l2 & q & -> & H2 & H3 & Hl2).
    cbn [mbind option_bind]. rewrite H2. cbn [mbind option_bind]. eauto.
Qed.

(** The test of the loop: the element goes before this one. *)
Lemma here_ok l xs a it b p e s :
  xs = a ++ it :: b → item_ok it → at_item l xs a p → isnan s = false → zlen e < 2 ^ 31 → (ikey it).2 ≠ e →
  (if dlt s (sc it) then Some true
   else if deq (sc it) s then c ← zzlCompareElements l p e; Some (0 <? c) else Some false) =
  Some (bool_decide (¬ smaller (s, e) it)).
Proof.
  intros Hxs Hit Hp Hs He Hne. pose proof Hit as [[Hn Hg] Hv]. rewrite dlt_spec, deq_spec by done.
  unfold smaller, klt. cbn [fst snd]. change (ikey it).1 with (sc it).
  case_bool_decide as Hlt.
  { rewrite bool_decide_eq_true_2; [done|]. intros [Hfe|[Hfe _]].
    - exact (flt_irrefl _ (flt_trans _ _ _ Hlt Hfe)).
    - exact (flt_irrefl _ (flt_feq _ _ _ Hlt Hfe)). }
  case_bool_decide as Hfe.
  - rewrite (compare_item l xs a it b p e Hxs Hit Hp He). cbn [mbind option_bind]. f_equal.
    assert (zlen (ikey it).2 < 2 ^ 31) as Hl by (apply good_len; by split).
    destruct (cmp_bytes_lex (ikey it).2 e Hl He) as [Hsg Hz]. apply Bool.eq_iff_eq_true.
    rewrite Z.ltb_lt, bool_decide_eq_true. split.
    + intros Hc [Hf|[_ Hlx]]; [|lia]. exact (flt_irrefl _ (flt_feq _ _ _ Hf ltac:(by symmetry))).
    + intros Hnot. destruct (Z.lt_trichotomy (cmp_bytes (ikey it).2 e) 0) as [Hc|[Hc|Hc]]; [|tauto|done].
      exfalso. apply Hnot. right. split; [done|]. lia.
  - f_equal. symmetry. apply bool_decide_eq_false_2. intros Hnot. apply Hnot. left.
    destruct (float_trichotomy (sc it) s) as [?|[?|?]]; tauto.
Qed.

Lemma insert_loop l xs e s : ∀ b a eptr fuel,
  zzl_rep l xs → valid s → isnan s = false → zlen e < 2 ^ 31 → e ∉ strings xs →
  40 + weight xs + zlen e + 58 < 2 ^ 32 →
  cursor l xs a b eptr → Forall (smaller (s, e)) a → (length b < fuel)%nat →
  ∃ l' r, loop fuel (zinsert_body l e s) eptr = Some (l', r) ∧
    match r with
    | Some _ => ∃ a1 b1, xs = a1 ++ b1 ∧ Forall (smaller (s, e)) a1 ∧ Forall (λ it, ¬ smaller (s, e) it) b1 ∧
        packed_rep l' (entries (a1 ++ new_item s e :: b1))
    | None => l' = l ∧ Forall (smaller (s, e)) xs
    end.
Proof.
  induction b as [|it b IH]; intros a eptr fuel Hl Hv Hn He Hfresh Hw [Hxs Hc] Hsm Hf;
    (destruct fuel as [|fuel]; [simpl in Hf; lia|]); rewrite loop_S.
  - rewrite Hc. cbn [zinsert_body mbind option_bind]. exists l, None. split; [done|]. split; [done|]. rewrite Hxs. by rewrite app_nil_r.
  - pose proof Hl as [Hrep Hsort Hok]. destruct Hc as (p & -> & Hp).
    assert (item_ok it) as Hit by (eapply (proj1 (Forall_forall _ _) Hok); set_solver).
    cbn [zinsert_body]. destruct (pair_step l xs a it b p Hxs Hit Hp) as (q & -> & _ & Hs & eptr & Hnx & Hcur). cbn [mbind option_bind].
    rewrite Hs. cbn [mbind option_bind]. rewrite (here_ok l xs a it b p e s Hxs Hit Hp Hn He); cycle 1.
    { intros <-. apply Hfresh. rewrite Hxs. unfold strings. rewrite fmap_app, fmap_cons. set_solver. }
    cbn [mbind option_bind]. case_bool_decide as Hns.
    + assert (item_ok (new_item s e)) as Hnew by (split; [split; [done|]; by exists e|done]).
      destruct (insert_at l a (it :: b) e s (Some p) Hv Hn) as (l' & -> & Hl').
      { split; [done|]. exists p. by rewrite Hxs in Hp. }
      { by rewrite Hxs in Hrep. }
      { apply weight_room; [|rewrite Hxs, weight_app in Hw; rewrite weight_app; cbn [weight new_item ikey] in *; simpl in *; lia].
        rewrite Hxs in Hok. apply Forall_app in Hok as [? ?]. apply Forall_app. split; [done|]. by constructor. }
      cbn [mbind option_bind]. exists l', (Some p). split; [done|]. exists a, (it :: b). split_and!; try done.
      constructor; [done|]. rewrite Hxs in Hsort. apply StronglySorted_mid in Hsort as (_ & _ & _ & Hs4 & _).
      apply Forall_forall. intros y Hy Hys. apply Hns. eapply smaller_down; [by apply Hs4|done].
    + rewrite Hnx. cbn [mbind option_bind]. apply (IH (a ++ [it]) eptr fuel); try done; [|simpl in Hf; lia].
      apply Forall_app. split; [done|]. constructor; [|done]. exact Hns.
Qed.

Lemma insert_element l xs e s :
  zzl_rep l xs → valid s → isnan s = false → zlen e < 2 ^ 31 → e ∉ strings xs →
  40 + weight xs + zlen e + 58 < 2 ^ 32 →
  ∃ l' a1 b1, zzlInsert l e s = Some l' ∧ xs = a1 ++ b1 ∧ zzl_rep l' (a1 ++ new_item s e :: b1).
Proof.
  intros Hl Hv Hn He Hfresh Hw. pose proof Hl as [Hrep Hsort Hok].
  assert (item_ok (new_item s e)) as Hnew by (split; [split; [done|]; by exists e|done]).
  assert (∀ a1 b1, xs = a1 ++ b1 → Forall (smaller (s, e)) a1 → Forall (λ it, ¬ smaller (s, e) it) b1 →
    StronglySorted ilt (a1 ++ new_item s e :: b1) ∧ Forall item_ok (a1 ++ new_item s e :: b1)) as Hfin.
  { intros a1 b1 Hxs Hsm Hns. split.
    - rewrite Forall_forall in Hsm, Hns. rewrite Hxs in Hsort, Hfresh. apply StronglySorted_app_iff in Hsort as (S1 & S2 & S3).
      apply StronglySorted_mid. split_and!; try done. intros y Hy. apply not_smaller; [by apply Hns|].
      intros [_ Hk]. apply Hfresh. unfold strings. rewrite fmap_app. apply elem_of_app. right.
      simpl in Hk. rewrite <-Hk. by apply (list_elem_of_fmap_2 (λ it, (ikey it).2)).
    - rewrite Hxs in Hok. apply Forall_app in Hok as [? ?]. apply Forall_app. split; [done|]. by constructor. }
  unfold zzlInsert. destruct (head_cursor l xs Hrep) as (eptr & -> & Hc). cbn [mbind option_bind].
  rewrite (rounds_ok l xs Hrep). cbn [mbind option_bind].
  destruct (insert_loop l xs e s xs [] eptr (S (2 * length xs)) Hl Hv Hn He Hfresh Hw Hc ltac:(done) ltac:(lia)) as (l' & r & -> & Hr).
  cbn [mbind option_bind]. destruct r as [p|].
  - destruct Hr as (a1 & b1 & Hxs & Hsm & Hns & Hl'). exists l', a1, b1. split; [done|]. split; [done|].
    destruct (Hfin a1 b1 Hxs Hsm Hns). by split.
  - destruct Hr as [-> Hall]. destruct (Hfin xs [] ltac:(by rewrite app_nil_r) Hall ltac:(done)) as [Hs' Hok'].
    destruct (insert_at l xs [] e s None Hv Hn) as (l' & -> & Hl'); [split; [done|done]|by rewrite app_nil_r|..].
    { apply weight_room; [done|]. rewrite weight_app. cbn [weight new_item ikey]. simpl. lia. }
    exists l', xs, []. split; [done|]. split; [by rewrite app_nil_r|]. by split.
Qed.
End ZzlSpec.
