(* ===== verification/ZzlRange.v ===== *)
(** * Sorted sets in a ziplist: ranges

    The first and the last element of a range, and the deletion of a range, by
    score, by string and by rank.  The loops are treated once for any range
    given by a property closed upwards and one closed downwards, with the same
    properties as for the skip list. *)

From Stdlib Require Import SpecFloat String.
From S2P Require Import Prelude.
From S2P Require Import Mem.
From S2P Require Import Ziplist.
From S2P Require Import ZiplistOps.
From S2P Require Import ZiplistSpec.
From S2P Require Import Packed.
From S2P Require Import PackedPairs.
From S2P Require Import SdsRefine.
From S2P Require Import Skiplist.
From S2P Require Import SkiplistRepr.
From S2P Require Import SkiplistSpec.
From S2P Require Import SkiplistRange.
From S2P Require Import SkiplistCorrect.
From S2P Require Import Score.
From S2P Require Import Zzl.
From S2P Require Import ZzlSpec.
Import Packed.
Import Score.
Import Skiplist.
Import Zzl.

#[local] Notation length := Datatypes.length.

Section ZzlRange.
Context {L P : Type} `{!Packed L P} `{!PackedOk L P} `{!Alloc} `{!Libc} `{!LibcOk}.
Implicit Types (l : L) (xs a b : list item) (it : item) (p q : P).

(** ** Walking backwards *)
Definition back_cursor l xs a b (eptr : option P) : Prop :=
  xs = a ++ b ∧ (a = [] ∧ eptr = None ∨ ∃ a' it p, a = a' ++ [it] ∧ eptr = Some p ∧ at_item l xs a' p).

Lemma snoc_case xs : xs = [] ∨ ∃ a it, xs = a ++ [it].
Proof. destruct xs as [|it xs _] using rev_ind; eauto. Qed.

Lemma index_entry l xs i j :
  packed_rep l (entries xs) → norm (entries xs) i = Some j →
  ∃ p, packed_index l i = Some (Some p) ∧ packed_at l (entries xs) j p.
Proof. intros Hl Hn. pose proof (packed_index_ok l _ i Hl) as Hi. by rewrite Hn in Hi. Qed.

Lemma index_none_entry l i : packed_rep l (entries []) → packed_index l i = Some None.
Proof.
  intros Hl. pose proof (packed_index_ok l _ i Hl) as Hi. unfold norm in Hi. change (zlen (entries [])) with 0 in Hi.
  destruct (_ && _) eqn:E; [|done]. apply andb_true_iff in E as [?%Z.leb_le ?%Z.ltb_lt]. lia.
Qed.

Lemma norm_back xs a it i k :
  xs = a ++ [it] → 0 ≤ k < 2 → i = k - 2 → norm (entries xs) i = Some (Z.to_nat k + 2 * length a)%nat.
Proof.
  intros -> Hk ->. unfold norm. rewrite entries_zlen, zlen_app. change (zlen [it]) with 1. zlen_pos.
  rewrite (proj2 (Z.ltb_lt (k - 2) 0)) by lia. rewrite (proj2 (Z.leb_le _ _)), (proj2 (Z.ltb_lt _ _)) by lia. simpl andb.
  f_equal. unfold zlen. lia.
Qed.

Lemma last_cursor l xs : packed_rep l (entries xs) → ∃ eptr, packed_index l (-2) = Some eptr ∧ back_cursor l xs xs [] eptr.
Proof.
  intros Hl. destruct xs as [|it xs _] using rev_ind.
  - exists None. split; [by apply index_none_entry|]. split; [done|]. by left.
  - destruct (index_entry l _ (-2) _ Hl (norm_back _ xs it (-2) 0 eq_refl ltac:(lia) ltac:(lia))) as (p & -> & Hp).
    exists (Some p). split; [done|]. split; [by rewrite app_nil_r|]. right. by exists xs, it, p.
Qed.

Lemma prev_step l xs a it b p :
  xs = a ++ it :: b → at_item l xs a p → ∃ eptr, prev_element l p = Some eptr ∧ back_cursor l xs a (it :: b) eptr.
Proof.
  intros Hxs Hp. unfold prev_element.
  assert (length (entries xs) = (2 * length xs)%nat) as Hlen by (unfold entries; rewrite flat_length, length_fmap; done).
  assert (length xs = (length a + S (length b))%nat) as Hx by (by rewrite Hxs, length_app).
  pose proof (packed_prev_ok l _ _ p Hp ltac:(lia)) as Hprev. destruct a as [|y a _] using rev_ind.
  - rewrite Hprev. exists None. split; [done|]. split; [done|]. by left.
  - rewrite length_app in Hprev, Hx. simpl length in *. replace (2 * (length a + 1))%nat with (S (S (2 * length a))) in Hprev by lia.
    destruct Hprev as (q & -> & Hq). cbn [mbind option_bind].
    destruct (packed_prev_ok l _ _ q Hq ltac:(lia)) as (p' & -> & Hp'). cbn [mbind option_bind].
    exists (Some p'). split; [done|]. split; [done|]. right. by exists a, y, p'.
Qed.

(** ** The ends of a range *)
(** The pointer of the element that is [o]. *)
Definition points l xs (o : option item) (r : option P) : Prop :=
  match o with
  | Some it => ∃ a b p, r = Some p ∧ xs = a ++ it :: b ∧ at_item l xs a p
  | None => r = None
  end.

Section Ends.
Context (l : L) (xs : list item) (Hl : zzl_rep l xs).
Context (G U : item → Prop) `{∀ it, Decision (G it), ∀ it, Decision (U it)}.
Context (HG : ∀ x y, x ∈ xs → y ∈ xs → ilt x y → G x → G y).
Context (HU : ∀ x y, x ∈ xs → y ∈ xs → ilt x y → U y → U x).

Notation inside := (within xs G U).

Lemma last_outside a y : xs = a ++ [y] → ¬ G y → inside = [].
Proof using Hl HG.
  intros Hxs Hy. apply filter_none. intros it Hin [Hg _]. apply Hy. pose proof (zz_sorted _ _ Hl) as Hs. rewrite Hxs in Hs.
  apply StronglySorted_app_iff in Hs as (_ & _ & Hs). pose proof Hin as Hin'. rewrite Hxs in Hin'.
  apply elem_of_app in Hin' as [Hin'|Hin']; [|by apply list_elem_of_singleton in Hin' as <-].
  apply (HG it y); [done|rewrite Hxs; apply elem_of_app; right; by apply list_elem_of_singleton| |done].
  apply Hs; [done|by apply list_elem_of_singleton].
Qed.

Lemma head_outside b y : xs = y :: b → ¬ U y → inside = [].
Proof using Hl HU.
  intros Hxs Hy. apply filter_none. intros it Hin [_ Hu]. apply Hy. pose proof (zz_sorted _ _ Hl) as Hs. rewrite Hxs in Hs.
  apply StronglySorted_cons in Hs as [Hs _]. rewrite Forall_forall in Hs. pose proof Hin as Hin'. rewrite Hxs in Hin'.
  apply elem_of_cons in Hin' as [<-|Hin']; [done|]. apply (HU y it); [rewrite Hxs; by left|done|by apply Hs|done].
Qed.

(** Loops that look for the first element. *)
Context (first last_ : option P → option (option P + option P)).
Context (Hfirst0 : first None = Some (inr None)).
Context (Hfirst : ∀ a it b p, xs = a ++ it :: b → at_item l xs a p → ∃ eptr, cursor l xs (a ++ [it]) b eptr ∧
  first (Some p) = Some (if bool_decide (G it) then inr (if bool_decide (U it) then Some p else None) else inl eptr)).
Context (Hlast0 : last_ None = Some (inr None)).
Context (Hlast : ∀ a it b p, xs = a ++ it :: b → at_item l xs a p → ∃ eptr, back_cursor l xs a (it :: b) eptr ∧
  last_ (Some p) = Some (if bool_decide (U it) then inr (if bool_decide (G it) then Some p else None) else inl eptr)).

Lemma first_loop m r : ∀ pre a eptr fuel,
  cursor l xs a (pre ++ m ++ r) eptr → Forall (λ it, ¬ G it) pre → Forall (λ it, G it ∧ U it) m →
  Forall (λ it, G it ∧ ¬ U it) r → (length pre < fuel)%nat →
  ∃ res, loop fuel first eptr = Some res ∧ points l xs (head m) res.
Proof using Hfirst0 Hfirst.
  induction pre as [|y pre IH]; intros a eptr fuel [Hxs Hc] Hpre Hm Hr Hf;
    (destruct fuel as [|fuel]; [simpl in Hf; lia|]); rewrite loop_S; cbn [app] in Hxs, Hc.
  - destruct m as [|it m]; cbn [app head] in *.
    + destruct r as [|it r]; [rewrite Hc, Hfirst0; by exists None|]. destruct Hc as (p & -> & Hp).
      destruct (Hfirst a it r p Hxs Hp) as (eptr & _ & ->). apply Forall_cons in Hr as [[Hg Hu] _].
      rewrite (bool_decide_eq_true_2 (G it)), (bool_decide_eq_false_2 (U it)) by done. by exists None.
    + destruct Hc as (p & -> & Hp). destruct (Hfirst a it (m ++ r) p Hxs Hp) as (eptr & _ & ->).
      apply Forall_cons in Hm as [[Hg Hu] _]. rewrite (bool_decide_eq_true_2 (G it)), (bool_decide_eq_true_2 (U it)) by done.
      exists (Some p). split; [done|]. by exists a, (m ++ r), p.
  - destruct Hc as (p & -> & Hp). apply Forall_cons in Hpre as [Hy Hpre].
    destruct (Hfirst a y _ p Hxs Hp) as (eptr & Hcur & ->). rewrite (bool_decide_eq_false_2 (G y)) by done. cbn [mbind option_bind].
    apply (IH (a ++ [y]) eptr fuel); try done. simpl in Hf. lia.
Qed.

Lemma last_loop u : ∀ r b eptr fuel,
  back_cursor l xs (u ++ r) b eptr → Forall U u → Forall (λ it, ¬ U it) r → (length r < fuel)%nat →
  ∃ res, loop fuel last_ eptr = Some res ∧
    points l xs (it ← last u; if bool_decide (G it) then Some it else None) res.
Proof using Hlast0 Hlast.
  induction r as [|y r IH] using rev_ind; intros b eptr fuel [Hxs Hc] Hu Hr Hf;
    (destruct fuel as [|fuel]; [rewrite ?length_app in Hf; simpl in Hf; lia|]); rewrite loop_S.
  - rewrite app_nil_r in *. destruct Hc as [[-> ->]|(a & it & p & -> & -> & Hp)].
    + rewrite Hlast0. by exists None.
    + rewrite <-app_assoc in Hxs. destruct (Hlast a it b p Hxs Hp) as (eptr & _ & ->).
      apply Forall_app in Hu as [_ [Hu _]%Forall_cons]. rewrite (bool_decide_eq_true_2 (U it)) by done. cbn [mbind option_bind].
      rewrite last_snoc. cbn [mbind option_bind]. eexists. split; [done|]. destruct (bool_decide (G it)); [|done]. by exists a, b, p.
  - rewrite app_assoc in Hc, Hxs. apply Forall_app in Hr as [Hr [Hy _]%Forall_cons]. rewrite length_app in Hf. simpl in Hf.
    destruct Hc as [[Hnil _]|(a & it & p & Ha & -> & Hp)]; [by apply app_nil in Hnil as [_ ?]|].
    apply app_inj_tail in Ha as [<- <-]. rewrite <-app_assoc in Hxs.
    destruct (Hlast _ y b p Hxs Hp) as (eptr & Hcur & ->). rewrite (bool_decide_eq_false_2 (U y)) by done. cbn [mbind option_bind].
    apply (IH (y :: b) eptr fuel); try done. lia.
Qed.

Lemma last_within : last inside = (it ← last (filter U xs); if bool_decide (G it) then Some it else None).
Proof using All.
  assert (inside = filter G (filter U xs)) as -> by (rewrite list_filter_filter; unfold within; apply filter_same; done).
  remember (filter U xs) as w eqn:E. symmetry in E. destruct w as [|it u _] using rev_ind; [done|]. rewrite last_snoc, filter_app, filter_cons, filter_nil. cbn [mbind option_bind].
  destruct (decide (G it)) as [Hg|Hg]; [by rewrite last_snoc, bool_decide_eq_true_2|]. rewrite bool_decide_eq_false_2 by done. rewrite app_nil_r, filter_none; [done|].
  intros y Hy HGy. apply Hg.
  assert (∀ z, z ∈ u ++ [it] → z ∈ xs) as Hin by (intros z Hz; rewrite <-E in Hz; by apply list_elem_of_filter in Hz as [_ ?]).
  apply (HG y it); [apply Hin; set_solver..| |done].
  pose proof (zz_sorted _ _ Hl) as Hs. pose proof (sorted_split U xs Hs HU) as Hsp. rewrite E, <-app_assoc in Hsp. rewrite Hsp in Hs.
  apply StronglySorted_mid in Hs as (_ & _ & Hs & _). by apply Hs.
Qed.

Lemma ends_found :
  ∃ e1 e2 r1 r2, packed_index l 0 = Some e1 ∧ packed_index l (-2) = Some e2 ∧
    loop (S (2 * length xs)) first e1 = Some r1 ∧ loop (S (2 * length xs)) last_ e2 = Some r2 ∧
    points l xs (head inside) r1 ∧ points l xs (last inside) r2.
Proof using All.
  pose proof Hl as [Hrep Hsort Hok].
  destruct (head_cursor l xs Hrep) as (e1 & He1 & Hc1), (last_cursor l xs Hrep) as (e2 & He2 & Hc2).
  destruct (within_split xs G U Hsort HG HU) as [Hsplit _].
  pose proof (sorted_split U xs Hsort HU) as Hsu.
  destruct (first_loop inside (filter (λ it, G it ∧ ¬ U it) xs) (filter (λ it, ¬ G it) xs) [] e1 (S (2 * length xs))) as (r1 & H4 & H5).
  { by rewrite <-Hsplit. }
  { apply Forall_forall. by intros it [? _]%list_elem_of_filter. }
  { apply Forall_forall. unfold within. by intros it [? _]%list_elem_of_filter. }
  { apply Forall_forall. by intros it [? _]%list_elem_of_filter. }
  { apply (f_equal length) in Hsplit. rewrite length_app in Hsplit. lia. }
  destruct (last_loop (filter U xs) (filter (λ it, ¬ U it) xs) [] e2 (S (2 * length xs))) as (r2 & H6 & H7).
  { by rewrite <-Hsu. }
  { apply Forall_forall. by intros it [? _]%list_elem_of_filter. }
  { apply Forall_forall. by intros it [? _]%list_elem_of_filter. }
  { apply (f_equal length) in Hsu. rewrite length_app in Hsu. lia. }
  exists e1, e2, r1, r2. rewrite last_within. by split_and!.
Qed.
End Ends.

(** ** Ranges of scores *)
Section ScoreRange.
Context (range : zrangespec) (Hmin : isnan (rmin range) = false) (Hmax : isnan (rmax range) = false).
Context (l : L) (xs : list item) (Hl : zzl_rep l xs).

Notation G := (above_min range).
Notation U := (below_max range).

Lemma value_gte it : item_ok it → zslValueGteMin (sc it) range = bool_decide (G it).
Proof using Hmin.
  intros [[Hn _] _]. apply Bool.eq_iff_eq_true. rewrite bool_decide_eq_true. unfold zslValueGteMin, above_min.
  destruct (minex range); rewrite ?dlt_spec, ?dle_spec, bool_decide_eq_true by done; done.
Qed.

Lemma value_lte it : item_ok it → zslValueLteMax (sc it) range = bool_decide (U it).
Proof using Hmax.
  intros [[Hn _] _]. apply Bool.eq_iff_eq_true. rewrite bool_decide_eq_true. unfold zslValueLteMax, below_max.
  destruct (maxex range); rewrite ?dlt_spec, ?dle_spec, bool_decide_eq_true by done; done.
Qed.

Lemma ok_in a it b : xs = a ++ it :: b → item_ok it.
Proof using Hl. intros ->. pose proof (zz_items _ _ Hl) as Hok. by apply Forall_app in Hok as [_ [? _]%Forall_cons]. Qed.

Lemma in_range_ok : ∃ r, zzlIsInRange l range = Some r ∧ (r = false → within xs G U = []).
Proof using All.
  unfold zzlIsInRange. destruct (_ || _) eqn:Hempty.
  { exists false. split; [done|]. intros _. by apply empty_range. }
  pose proof Hl as [Hrep _ _]. destruct (snoc_case xs) as [Exs|(a & it & Exs)].
  { rewrite (index_none_entry l (-1)) by (by rewrite Exs in Hrep). exists false. split; [done|]. by rewrite Exs. }
  destruct (index_entry l _ (-1) _ Hrep (norm_back _ a it (-1) 1 Exs ltac:(lia) ltac:(lia))) as (q & -> & Hq). cbn [mbind option_bind].
  assert (item_ok it) as Hit by (by eapply ok_in).
  rewrite (score_at l xs a it [] q Exs Hit Hq). cbn [mbind option_bind]. rewrite value_gte by done.
  case_bool_decide as Hg; cbn [negb].
  2:{ exists false. split; [done|]. intros _. eapply (last_outside l xs Hl G U); eauto using above_min_up. }
  assert (∃ y b, xs = y :: b) as (y & b & Ey) by (rewrite Exs; destruct a; by eexists _, _).
  assert (norm (entries xs) 1 = Some 1%nat) as Hone.
  { unfold norm. cbn [Z.ltb Z.leb Z.compare andb]. rewrite entries_zlen, Ey, zlen_cons. zlen_pos. pose proof (zlen_nonneg b).
    rewrite (proj2 (Z.ltb_lt 1 _)) by lia. done. }
  destruct (index_entry l _ 1 _ Hrep Hone) as (q' & -> & Hq'). cbn [mbind option_bind].
  assert (item_ok y) as Hy by (by eapply (ok_in [])).
  rewrite (score_at l xs [] y b q' Ey Hy Hq'). cbn [mbind option_bind]. rewrite value_lte by done.
  eexists. split; [done|]. intros Hu%bool_decide_eq_false. eapply (head_outside l xs Hl G U); eauto using below_max_down.
Qed.

Lemma score_ends :
  ∃ r1 r2, zzlFirstInRange l range = Some r1 ∧ zzlLastInRange l range = Some r2 ∧
    points l xs (head (within xs G U)) r1 ∧ points l xs (last (within xs G U)) r2.
Proof using All.
  unfold zzlFirstInRange, zzlLastInRange. destruct in_range_ok as (r & -> & Hr).
  destruct (ends_found l xs Hl G U ltac:(eauto using above_min_up) ltac:(eauto using below_max_down) (first_body l range) (last_body l range))
    as (e1 & e2 & r1 & r2 & -> & -> & H3 & H4 & H5 & H6).
  - done.
  - intros a it b p Hxs Hp. cbn [first_body]. pose proof (ok_in a it b Hxs) as Hit.
    destruct (pair_step l xs a it b p Hxs Hit Hp) as (q & -> & _ & Hs & eptr & Hn & Hc). cbn [mbind option_bind].
    exists eptr. split; [done|]. rewrite Hs. cbn [mbind option_bind]. rewrite value_gte, value_lte by done. rewrite Hn.
    by destruct (bool_decide (G it)), (bool_decide (U it)).
  - done.
  - intros a it b p Hxs Hp. cbn [last_body]. pose proof (ok_in a it b Hxs) as Hit.
    destruct (pair_step l xs a it b p Hxs Hit Hp) as (q & -> & _ & Hs & _). cbn [mbind option_bind].
    destruct (prev_step l xs a it b p Hxs Hp) as (eptr & Hn & Hc). exists eptr. split; [done|]. rewrite Hs. cbn [mbind option_bind].
    rewrite value_gte, value_lte by done. rewrite Hn. by destruct (bool_decide (G it)), (bool_decide (U it)).
  - cbn [mbind option_bind]. destruct r; cbn [negb].
    + rewrite (rounds_ok l xs (zz_list _ _ Hl)). cbn [mbind option_bind]. by exists r1, r2.
    + rewrite (Hr eq_refl). by exists None, None.
Qed.
End ScoreRange.

(** ** Ranges of strings
    They are meant for sets whose scores are all equal. *)
Section LexRange.
Context (range : zlexrangespec) (Hmin : bound_len (lmin range)) (Hmax : bound_len (lmax range)) (Hd : distinct_bounds range).
Context (l : L) (xs : list item) (Hl : zzl_rep l xs).
Context (Hsame : ∀ x y, x ∈ xs → y ∈ xs → feq (sc x) (sc y)).

Notation G := (above_lmin range).
Notation U := (below_lmax range).

Lemma items_good : Forall good xs.
Proof using Hl. eapply Forall_impl; [apply (zz_items _ _ Hl)|]. by intros it [? _]. Qed.

Lemma lex_gte_at a it b p : xs = a ++ it :: b → at_item l xs a p → zzlLexValueGteMin l p range = Some (bool_decide (G it)).
Proof using Hl.
  intros Hxs Hp. unfold zzlLexValueGteMin. rewrite (object_at l xs a it b p Hxs (ok_in l xs Hl a it b Hxs) Hp).
  cbn [mbind option_bind]. f_equal. apply Bool.eq_iff_eq_true. by rewrite bool_decide_eq_true.
Qed.

Lemma lex_lte_at a it b p : xs = a ++ it :: b → at_item l xs a p → zzlLexValueLteMax l p range = Some (bool_decide (U it)).
Proof using Hl.
  intros Hxs Hp. unfold zzlLexValueLteMax. rewrite (object_at l xs a it b p Hxs (ok_in l xs Hl a it b Hxs) Hp).
  cbn [mbind option_bind]. f_equal. apply Bool.eq_iff_eq_true. by rewrite bool_decide_eq_true.
Qed.

Lemma in_lex_range_ok : ∃ r, zzlIsInLexRange l range = Some r ∧ (r = false → within xs G U = []).
Proof using All.
  pose proof items_good as Hg. unfold zzlIsInLexRange. destruct (_ || _) eqn:Hempty.
  { exists false. split; [done|]. intros _. by apply empty_lex_range. }
  pose proof Hl as [Hrep _ _]. destruct (snoc_case xs) as [Exs|(a & it & Exs)].
  { rewrite (index_none_entry l (-2)) by (by rewrite Exs in Hrep). exists false. split; [done|]. by rewrite Exs. }
  destruct (index_entry l _ (-2) _ Hrep (norm_back _ a it (-2) 0 Exs ltac:(lia) ltac:(lia))) as (q & -> & Hq). cbn [mbind option_bind].
  rewrite (lex_gte_at a it [] q Exs Hq). cbn [mbind option_bind]. case_bool_decide as Hgt; cbn [negb].
  2:{ exists false. split; [done|]. intros _. eapply (last_outside l xs Hl G U); eauto using above_lmin_up. }
  assert (∃ y b, xs = y :: b) as (y & b & Ey) by (rewrite Exs; destruct a; by eexists _, _).
  destruct (head_cursor l xs Hrep) as (eptr & -> & _ & Hc). cbn [mbind option_bind]. rewrite Ey in Hc. destruct Hc as (p & -> & Hp).
  cbn [mbind option_bind]. rewrite <-Ey in Hp. rewrite (lex_lte_at [] y b p Ey Hp). eexists. split; [done|].
  intros Hu%bool_decide_eq_false. eapply (head_outside l xs Hl G U); eauto using below_lmax_down.
Qed.

Lemma lex_ends :
  ∃ r1 r2, zzlFirstInLexRange l range = Some r1 ∧ zzlLastInLexRange l range = Some r2 ∧
    points l xs (head (within xs G U)) r1 ∧ points l xs (last (within xs G U)) r2.
Proof using All.
  pose proof items_good as Hg. unfold zzlFirstInLexRange, zzlLastInLexRange. destruct in_lex_range_ok as (r & -> & Hr).
  destruct (ends_found l xs Hl G U ltac:(eauto using above_lmin_up) ltac:(eauto using below_lmax_down) (first_lex_body l range) (last_lex_body l range))
    as (e1 & e2 & r1 & r2 & -> & -> & H3 & H4 & H5 & H6).
  - done.
  - intros a it b p Hxs Hp. cbn [first_lex_body]. rewrite (lex_gte_at a it b p Hxs Hp), (lex_lte_at a it b p Hxs Hp). cbn [mbind option_bind].
    destruct (pair_step l xs a it b p Hxs (ok_in l xs Hl a it b Hxs) Hp) as (q & -> & _ & _ & eptr & Hn & Hc). cbn [mbind option_bind].
    exists eptr. split; [done|]. rewrite Hn. by destruct (bool_decide (G it)), (bool_decide (U it)).
  - done.
  - intros a it b p Hxs Hp. cbn [last_lex_body]. rewrite (lex_gte_at a it b p Hxs Hp), (lex_lte_at a it b p Hxs Hp). cbn [mbind option_bind].
    destruct (prev_step l xs a it b p Hxs Hp) as (eptr & Hn & Hc). exists eptr. split; [done|].
    rewrite Hn. by destruct (bool_decide (G it)), (bool_decide (U it)).
  - cbn [mbind option_bind]. destruct r; cbn [negb].
    + rewrite (rounds_ok l xs (zz_list _ _ Hl)). cbn [mbind option_bind]. by exists r1, r2.
    + rewrite (Hr eq_refl). by exists None, None.
Qed.
End LexRange.

(** ** Deleting ranges *)
(** The loop deletes the elements [m] after [a]. *)
Lemma delete_loop (U : item → Prop) `{∀ it, Decision (U it)} lte a r :
  (∀ l xs b1 it b2 p q, xs = b1 ++ it :: b2 → Forall item_ok xs → at_item l xs b1 p → at_score l xs b1 q →
    lte l p q = Some (bool_decide (U it))) →
  ∀ m l p num fuel,
  Forall item_ok (a ++ m ++ r) → at_item l (a ++ m ++ r) a p → Forall U m → Forall (λ it, ¬ U it) r →
  40 + weight (a ++ m ++ r) < 2 ^ 32 → 0 ≤ num → num + zlen m < 2 ^ 64 → (length m < fuel)%nat →
  ∃ l', loop fuel (zdelete_body lte) (l, p, num) = Some (l', num + zlen m) ∧ packed_rep l' (entries (a ++ r)).
Proof.
  intros Hlte. induction m as [|it m IH]; intros l p num fuel Hok Hp Hm Hr Hw Hnum Hlim Hf;
    (destruct fuel as [|fuel]; [simpl in Hf; lia|]); rewrite loop_S; cbn [app] in Hp, Hok, Hw.
  - unfold zdelete_body at 2. change (zlen []) with 0. rewrite Z.add_0_r. destruct r as [|it r].
    + pose proof (packed_next_ok _ _ _ _ Hp) as Hn. rewrite decide_False in Hn.
      2:{ unfold entries. rewrite flat_length, length_fmap, app_nil_r. lia. }
      rewrite Hn. cbn [mbind option_bind]. exists l. split; [done|]. by eapply packed_at_rep.
    + assert (item_ok it) as Hit by (by apply Forall_app in Hok as [_ [? _]%Forall_cons]).
      destruct (pair_step l _ a it r p eq_refl Hit Hp) as (q & -> & Hq & _). cbn [mbind option_bind].
      rewrite (Hlte l _ a it r p q eq_refl Hok Hp Hq). cbn [mbind option_bind]. apply Forall_cons in Hr as [Hu _].
      rewrite bool_decide_eq_false_2 by done. exists l. split; [done|]. by eapply packed_at_rep.
  - apply Forall_cons in Hm as [Hu Hm]. unfold zdelete_body at 2.
    assert (item_ok it) as Hit by (by apply Forall_app in Hok as [_ [? _]%Forall_cons]).
    destruct (pair_step l _ a it (m ++ r) p eq_refl Hit Hp) as (q & -> & Hq & _). cbn [mbind option_bind].
    rewrite (Hlte l _ a it (m ++ r) p q eq_refl Hok Hp Hq). cbn [mbind option_bind]. rewrite bool_decide_eq_true_2 by done.
    destruct (delete_item_at l _ a it (m ++ r) p eq_refl Hp (weight_room _ Hok Hw)) as (l1 & l2 & -> & Hd2 & Hat). cbn [mbind option_bind].
    rewrite Hd2. cbn [mbind option_bind]. rewrite zlen_cons in *. zlen_pos.
    rewrite uwrap_id by (unfold in_u; lia).
    assert (Forall item_ok (a ++ m ++ r)) as Hok' by (apply Forall_app in Hok as [? [_ ?]%Forall_cons]; by apply Forall_app).
    assert (weight (a ++ it :: m ++ r) = weight (a ++ m ++ r) + zlen (ikey it).2 + 58) as Hwt
      by (rewrite !weight_app; cbn [weight]; rewrite weight_app; lia).
    pose proof (zlen_nonneg (ikey it).2).
    destruct (IH l2 p (num + 1) fuel Hok' Hat Hm Hr ltac:(lia) ltac:(lia) ltac:(lia) ltac:(simpl in Hf; lia)) as (l' & -> & Hl').
    exists l'. split; [do 2 f_equal; lia|done].
Qed.

Lemma items_nodup xs : StronglySorted ilt xs → NoDup xs.
Proof.
  induction 1 as [|it xs _ IH Hx]; constructor; [|done]. intros Hin. rewrite Forall_forall in Hx. exact (klt_irrefl _ (Hx it Hin)).
Qed.

Lemma sorted_position a it b a' b' : StronglySorted ilt (a ++ it :: b) → a ++ it :: b = a' ++ it :: b' → a = a' ∧ b = b'.
Proof.
  intros Hs Heq. apply items_nodup in Hs.
  assert (length a = length a') as Hlen.
  { apply (NoDup_lookup _ _ _ it Hs); [by apply list_lookup_middle|]. rewrite Heq. by apply list_lookup_middle. }
  apply app_inj_1 in Heq as [-> [= ->]]; done.
Qed.

Lemma sorted_outer a m r : StronglySorted ilt (a ++ m ++ r) → StronglySorted ilt (a ++ r).
Proof.
  intros (S1 & (_ & S2 & _)%StronglySorted_app_iff & S3)%StronglySorted_app_iff. apply StronglySorted_app_iff. split_and!; try done.
  intros x y Hx Hy. apply S3; set_solver.
Qed.

Lemma entries_take k xs : (k ≤ length xs)%nat → take (2 * k) (entries xs) = entries (take k xs).
Proof.
  intros Hk. unfold entries. rewrite <-(take_drop k xs) at 1. rewrite fmap_app.
  replace k with (length (pair_of <$> take k xs)) at 1 by (rewrite length_fmap, length_take; lia). apply flat_take.
Qed.

Lemma entries_drop k xs : (k ≤ length xs)%nat → drop (2 * k) (entries xs) = entries (drop k xs).
Proof.
  intros Hk. unfold entries. rewrite <-(take_drop k xs) at 1. rewrite fmap_app.
  replace k with (length (pair_of <$> take k xs)) at 1 by (rewrite length_fmap, length_take; lia). apply flat_drop.
Qed.

(** The result of deleting a range. *)
Definition zpurged (gone kept : list item) (res : option (L * Z)) : Prop :=
  ∃ l', res = Some (l', zlen gone) ∧ zzl_rep l' kept.

Lemma delete_from (G U : item → Prop) `{∀ it, Decision (G it), ∀ it, Decision (U it)} lte l xs eptr :
  zzl_rep l xs → 40 + weight xs < 2 ^ 32 →
  (∀ x y, x ∈ xs → y ∈ xs → ilt x y → G x → G y) → (∀ x y, x ∈ xs → y ∈ xs → ilt x y → U y → U x) →
  (∀ l xs b1 it b2 p q, xs = b1 ++ it :: b2 → Forall item_ok xs → at_item l xs b1 p → at_score l xs b1 q →
    lte l p q = Some (bool_decide (U it))) →
  points l xs (head (within xs G U)) eptr →
  zpurged (within xs G U) (filter (λ it, ¬ (G it ∧ U it)) xs)
    (match eptr with None => Some (l, 0) | Some eptr => fuel ← rounds l; loop fuel (zdelete_body lte) (l, eptr, 0) end).
Proof.
  intros [Hrep Hs Hok] Hw HG HU Hlte Hpt. destruct (within_split xs G U Hs HG HU) as [Hsplit Hkeep].
  set (a := filter (λ it, ¬ G it) xs) in *. set (r := filter (λ it, G it ∧ ¬ U it) xs) in *.
  unfold zpurged. rewrite <-Hkeep.
  assert (∀ l', packed_rep l' (entries (a ++ r)) → zzl_rep l' (a ++ r)) as Hfin.
  { intros l' Hl'. split; [done|rewrite Hsplit in Hs; by eapply sorted_outer|].
    rewrite Hsplit in Hok. apply Forall_app in Hok as [? [_ ?]%Forall_app]. by apply Forall_app. }
  destruct (within xs G U) as [|it m] eqn:Em; cbn [head points] in Hpt.
  - rewrite Hpt. exists l. split; [done|]. apply Hfin. cbn [app] in Hsplit. by rewrite <-Hsplit.
  - destruct Hpt as (a' & b' & p & -> & Hxs & Hp). rewrite (rounds_ok l xs Hrep). cbn [mbind option_bind].
    pose proof Hs as Hs'. rewrite Hxs in Hs'. destruct (sorted_position a' it b' a (m ++ r) Hs') as [-> ->]; [by rewrite <-Hxs, Hsplit|].
    assert (length (it :: m) ≤ length xs)%nat as Hlen by (rewrite Hsplit, !length_app; lia).
    pose proof (weight_len xs). rewrite Hsplit in Hok, Hp, Hw.
    destruct (delete_loop U lte a r Hlte (it :: m) l p 0 (S (2 * length xs)) Hok Hp) as (l' & -> & Hl').
    + apply Forall_forall. intros y Hy. rewrite <-Em in Hy. by apply list_elem_of_filter in Hy as [[_ ?] _].
    + apply Forall_forall. by intros y [[_ ?] _]%list_elem_of_filter.
    + done.
    + done.
    + unfold zlen in *. rewrite <-Hsplit in Hw. lia.
    + lia.
    + exists l'. split; [done|]. by apply Hfin.
Qed.
End ZzlRange.

(** ** Theorems *)
Section ZzlTheorems.
Context {L P : Type} `{!Packed L P} `{!PackedOk L P} `{!Alloc} `{!Libc} `{!LibcOk}.
Implicit Types (l : L) (xs : list item).

(** In the ziplist encoding [zzlFirstInRange] and [zzlLastInRange] return
    the first and the last element whose score is in the range, and NULL exactly
    when no score is. *)
Theorem zzlInRange_correct l xs range :
  zzl_rep l xs → isnan (rmin range) = false → isnan (rmax range) = false →
  let inside := within xs (above_min range) (below_max range) in
  ∃ r1 r2, zzlFirstInRange l range = Some r1 ∧ zzlLastInRange l range = Some r2 ∧
    points l xs (head inside) r1 ∧ points l xs (last inside) r2.
Proof. intros Hl Hmin Hmax inside. by apply score_ends. Qed.

(** When all scores are equal [zzlFirstInLexRange] and [zzlLastInLexRange]
    return the first and the last element whose string is in the range. *)
Theorem zzlInLexRange_correct l xs range :
  zzl_rep l xs → (∀ x y, x ∈ xs → y ∈ xs → feq (sc x) (sc y)) →
  bound_len (lmin range) → bound_len (lmax range) → distinct_bounds range →
  let inside := within xs (above_lmin range) (below_lmax range) in
  ∃ r1 r2, zzlFirstInLexRange l range = Some r1 ∧ zzlLastInLexRange l range = Some r2 ∧
    points l xs (head inside) r1 ∧ points l xs (last inside) r2.
Proof. intros Hl Hsame Hmin Hmax Hd inside. by apply lex_ends. Qed.

(** C30: deleting a range of scores that are numbers; a range of strings, when all scores
    are equal and the two bounds have the same contents only if they are the same bound;
    or a range of ranks with 1 <= start <= end <= length; from a ziplist below 2^32 bytes
    removes exactly these elements, also at the end of the list, and returns their
    number. *)
Theorem zzlDeleteRange_correct l xs :
  zzl_rep l xs → 40 + weight xs < 2 ^ 32 →
  (∀ range, isnan (rmin range) = false → isnan (rmax range) = false →
    zpurged (within xs (above_min range) (below_max range))
      (filter (λ it, ¬ (above_min range it ∧ below_max range it)) xs) (zzlDeleteRangeByScore l range)) ∧
  (∀ range, (∀ x y, x ∈ xs → y ∈ xs → feq (sc x) (sc y)) →
    bound_len (lmin range) → bound_len (lmax range) → distinct_bounds range →
    zpurged (within xs (above_lmin range) (below_lmax range))
      (filter (λ it, ¬ (above_lmin range it ∧ below_lmax range it)) xs) (zzlDeleteRangeByLex l range)) ∧
  (∀ start stop, 1 ≤ start ≤ stop → stop ≤ zlen xs →
    let rest := drop (Z.to_nat (start - 1)) xs in
    let n := Z.to_nat (stop - start + 1) in
    zpurged (take n rest) (take (Z.to_nat (start - 1)) xs ++ drop n rest) (zzlDeleteRangeByRank l start stop)).
Proof.
  intros Hl Hw. split; [|split].
  - intros range Hmin Hmax. destruct (score_ends range Hmin Hmax l xs Hl) as (r1 & _ & Hr1 & _ & Hp & _).
    unfold zzlDeleteRangeByScore. rewrite Hr1. cbn [mbind option_bind].
    apply delete_from; eauto using above_min_up, below_max_down.
    intros l' xs' b1 it b2 p q Hxs Hok Hp' Hq. assert (item_ok it) as Hit by (rewrite Hxs in Hok; by apply Forall_app in Hok as [_ [? _]%Forall_cons]).
    rewrite (score_at l' xs' b1 it b2 q Hxs Hit Hq). cbn [mbind option_bind]. by rewrite value_lte.
  - intros range Hsame Hmin Hmax Hd. destruct (lex_ends range Hmin Hmax Hd l xs Hl Hsame) as (r1 & _ & Hr1 & _ & Hp & _).
    unfold zzlDeleteRangeByLex. rewrite Hr1. cbn [mbind option_bind]. pose proof (items_good l xs Hl) as Hg.
    apply delete_from; eauto using above_lmin_up, below_lmax_down.
    intros l' xs' b1 it b2 p q Hxs Hok Hp' _. assert (item_ok it) as Hit by (rewrite Hxs in Hok; by apply Forall_app in Hok as [_ [? _]%Forall_cons]).
    unfold zzlLexValueLteMax. rewrite (object_at l' xs' b1 it b2 p Hxs Hit Hp'). cbn [mbind option_bind]. f_equal.
    apply Bool.eq_iff_eq_true. by rewrite bool_decide_eq_true.
  - intros start stop Hs Hstop rest n. pose proof Hl as [Hrep Hsort Hok]. pose proof (weight_len xs) as Hwl.
    unfold zzlDeleteRangeByRank. rewrite (uwrap_id 32 (stop - start)), (uwrap_id 32 (stop - start + 1)), (uwrap_id 32 (2 * (start - 1))), (uwrap_id 32 (2 * (stop - start + 1))) by (unfold in_u; lia).
    rewrite swrap_id by (lia || unfold in_s; change (2 ^ (32 - 1)) with (2 ^ 31); lia).
    destruct (packed_delete_range_ok l _ (2 * (start - 1)) (2 * (stop - start + 1)) Hrep (weight_room xs Hok Hw)) as (l' & -> & Hl').
    cbn [mbind option_bind]. unfold norm in Hl'. rewrite entries_zlen in Hl'.
    rewrite (proj2 (Z.ltb_ge (2 * (start - 1)) 0)), (proj2 (Z.leb_le 0 _)), (proj2 (Z.ltb_lt _ (2 * zlen xs))) in Hl' by lia.
    simpl andb in Hl'. cbv iota in Hl'.
    set (k := Z.to_nat (start - 1)) in *. assert (Z.to_nat (2 * (start - 1)) = 2 * k)%nat as Hk by (unfold k; lia).
    assert (Z.to_nat (2 * (stop - start + 1)) = 2 * n)%nat as Hn by (unfold n; lia). rewrite Hk, Hn in Hl'.
    assert (length (take k xs) = k) as Htk by (rewrite length_take; unfold k, zlen in *; lia).
    assert (length (take n rest) = n) as Htn by (unfold rest; rewrite length_take, length_drop; unfold k, n, zlen in *; lia).
    assert (xs = take k xs ++ take n rest ++ drop n rest) as Hxs by (unfold rest; by rewrite !take_drop).
    exists l'. split; [do 3 f_equal; unfold zlen; lia|]. rewrite Hxs in Hsort, Hok. split.
    + rewrite entries_take, entries_drop, entries_drop, <-entries_app in Hl'; [done|..]; unfold rest; rewrite ?length_drop; unfold k, n, zlen in *; lia.
    + by eapply sorted_outer.
    + apply Forall_app in Hok as [? [_ ?]%Forall_app]. by apply Forall_app.
Qed.
End ZzlTheorems.

(** ** Witnesses: ziplist.c and the C library of [Score] *)
#[local] Existing Instances demo_libc demo_libc_ok.
#[local] Instance demo_zzl_alloc : Alloc := junk0.

Fixpoint pushed (l : bytes) (ss : list bytes) : option bytes :=
  match ss with [] => Some l | s :: ss => l ← packed_push l s Ziplist.ZIPLIST_TAIL; pushed l ss end.

Lemma pushed_ok ss : ∀ (l : bytes) ss0,
  packed_rep l ss0 → room (ss0 ++ ss) → ∃ l', pushed l ss = Some l' ∧ packed_rep l' (ss0 ++ ss).
Proof.
  induction ss as [|s ss IH]; intros l ss0 Hl Hr; [exists l; by rewrite app_nil_r|]. cbn [pushed].
  destruct (packed_push_ok l ss0 s Ziplist.ZIPLIST_TAIL Hl) as (l1 & -> & Hl1).
  { unfold room in *. rewrite budget_app in Hr. simpl in *. pose proof (budget_nonneg ss). pose proof (zlen_nonneg ss). lia. }
  cbn [mbind option_bind]. rewrite (cons_middle s ss0 ss), app_assoc in *. by apply IH.
Qed.

Definition build (xs : list item) : option bytes := l ← packed_new; pushed l (entries xs).

Definition demo_items : list item :=
  [new_item (dbl 1) (str "one"); new_item (dbl 5) (str "5"); new_item (dbl 5) (str "five"); new_item (dbl 7) (str "seven")].

Lemma built xs :
  room (entries xs) → StronglySorted ilt xs → Forall item_ok xs → ∃ l, build xs = Some l ∧ zzl_rep l xs.
Proof.
  intros Hr Hsort Hok. unfold build. destruct packed_new_ok as (l0 & -> & Hl0). cbn [mbind option_bind].
  destruct (pushed_ok (entries xs) l0 [] Hl0 Hr) as (l & Hrun & Hl). by exists l.
Qed.

Lemma demo_built : ∃ l, build demo_items = Some l ∧ zzl_rep l demo_items.
Proof.
  apply built; [by vm_compute| |].
  - unfold demo_items. repeat (apply SSorted_cons; [|unfold ilt; apply (bool_decide_unpack _); by vm_compute]). constructor.
  - repeat (apply Forall_cons; split; [split; [split; [done|eexists; split; [done|by vm_compute]]|by vm_compute]|]). constructor.
Qed.

(** Elements with one score, and the range of strings from [b to (d. *)
Definition demo_lex_items : list item :=
  [new_item (dbl 1) (str "a"); new_item (dbl 1) (str "b"); new_item (dbl 1) (str "c"); new_item (dbl 1) (str "d")].

Definition demo_lex_range : zlexrangespec := Zlexrangespec (lexsds (str "b")) (lexsds (str "d")) false true.

Lemma demo_lex_built : ∃ l, build demo_lex_items = Some l ∧ zzl_rep l demo_lex_items.
Proof.
  apply built; [by vm_compute| |].
  - unfold demo_lex_items. repeat (apply SSorted_cons; [|unfold ilt; apply (bool_decide_unpack _); by vm_compute]). constructor.
  - repeat (apply Forall_cons; split; [split; [split; [done|eexists; split; [done|by vm_compute]]|by vm_compute]|]). constructor.
Qed.

Definition demo_zrange : zrangespec := Zrangespec (dbl 5) (dbl 7) false true.

Lemma zzlInRange_correct_witness :
  ∃ l r1 r2, build demo_items = Some l ∧ zzlFirstInRange l demo_zrange = Some r1 ∧ zzlLastInRange l demo_zrange = Some r2 ∧
    points l demo_items (Some (new_item (dbl 5) (str "5"))) r1 ∧ points l demo_items (Some (new_item (dbl 5) (str "five"))) r2.
Proof.
  destruct demo_built as (l & Hl & Hrep).
  destruct (zzlInRange_correct l demo_items demo_zrange Hrep eq_refl eq_refl) as (r1 & r2 & H1 & H2 & H3 & H4).
  exists l, r1, r2. split; [exact Hl|]. split; [exact H1|]. split; [exact H2|]. split; [exact H3|exact H4].
Defined.

Lemma zzlDeleteRange_correct_witness :
  (∃ l, build demo_items = Some l ∧
    zpurged [new_item (dbl 5) (str "5"); new_item (dbl 5) (str "five")]
      [new_item (dbl 1) (str "one"); new_item (dbl 7) (str "seven")] (zzlDeleteRangeByScore l demo_zrange) ∧
    zpurged [new_item (dbl 5) (str "five"); new_item (dbl 7) (str "seven")]
      [new_item (dbl 1) (str "one"); new_item (dbl 5) (str "5")] (zzlDeleteRangeByRank l 3 4)) ∧
  (∃ l, build demo_lex_items = Some l ∧
    zpurged [new_item (dbl 1) (str "b"); new_item (dbl 1) (str "c")]
      [new_item (dbl 1) (str "a"); new_item (dbl 1) (str "d")] (zzlDeleteRangeByLex l demo_lex_range)).
Proof.
  split.
  - destruct demo_built as (l & Hl & Hrep). exists l. split; [exact Hl|].
    destruct (zzlDeleteRange_correct l demo_items Hrep ltac:(by vm_compute)) as (H1 & _ & H3). split.
    + exact (H1 demo_zrange eq_refl eq_refl).
    + exact (H3 3 4 ltac:(lia) ltac:(by vm_compute)).
  - destruct demo_lex_built as (l & Hl & Hrep). exists l. split; [exact Hl|].
    destruct (zzlDeleteRange_correct l demo_lex_items Hrep ltac:(by vm_compute)) as (_ & H2 & _).
    apply (H2 demo_lex_range); [|by vm_compute|by vm_compute|discriminate].
    intros x y Hx Hy. unfold feq. assert (∀ u, u ∈ demo_lex_items → sc u = dbl 1) as Hall.
    { apply Forall_forall. repeat (apply Forall_cons; split; [reflexivity|]). constructor. }
    rewrite (Hall x Hx), (Hall y Hy). reflexivity.
Defined.
