(* ===== verification/ZsetObj.v ===== *)
(** * t_zset.c: sorted sets in either encoding

    A sorted set object is a ziplist ([Zzl]) or a dictionary with a skip list
    ([Zset]); an addition turns a ziplist that has grown too large into the
    other encoding, and [zsetConvertToZiplistIfNeeded] turns small sets back.
    The operations are those of the part "Common sorted set API" of t_zset.c;
    the case [OBJ_ENCODING_SKIPLIST] of each is the function of the same name of
    [Zset].  The heap of the nodes is passed along. *)

From Stdlib Require Import SpecFloat.
From S2P Require Import Prelude.
From S2P Require Import Mem.
From S2P Require Import Dict.
From S2P Require Import KvTable.
From S2P Require Import Packed.
From S2P Require Import Skiplist.
From S2P Require Import Zset.
From S2P Require Import Score.
From S2P Require Import Zzl.
Import KvTable.
Import Packed.
Import Skiplist.
Import Score.
Import Zzl.
Import Zset(zset, MkZset, zdict, zsl, dadd, ZADD_INCR, ZADD_NX, ZADD_XX, ZADD_NOP, ZADD_NAN, ZADD_ADDED, ZADD_UPDATED).

Module ZsetObj.

Inductive encodings := ENC_ZIPLIST | ENC_SKIPLIST.

Section ZsetObj.
Context {L P D E : Type} `{!Packed L P} `{!Table D E bytes ptr} `{!Alloc} `{!Libc} `{!Uninit}.

(** [server.zset_max_ziplist_entries] and [server.zset_max_ziplist_value] *)
Context (zset_max_ziplist_entries zset_max_ziplist_value : Z).

(** [mem] is the memory in which a dictionary is made. *)
Inductive zobj := OBJ_ENCODING_ZIPLIST (ptr : L) (mem : D) | OBJ_ENCODING_SKIPLIST (ptr : zset D).

Definition createZsetObject (h : heap) (mem : D) : option (heap * zobj) :=
  let d := table_new mem in
  '(h, z) ← zslCreate h;
  Some (h, OBJ_ENCODING_SKIPLIST (MkZset d z)).

Definition createZsetZiplistObject (mem : D) : option zobj :=
  zl ← packed_new; Some (OBJ_ENCODING_ZIPLIST zl mem).

Definition zsetLength (o : zobj) : option (zobj * Z) :=
  match o with
  | OBJ_ENCODING_ZIPLIST zl mem =>
      '(zl, n) ← zzlLength zl;
      Some (OBJ_ENCODING_ZIPLIST zl mem, uwrap 32 (swrap 32 n))
  | OBJ_ENCODING_SKIPLIST zs => Some (o, Zset.zsetLength zs)
  end.

(** ** Conversion *)
Record convert_state := ConvertState {
  c_eptr : option P; c_sptr : option P; c_heap : heap; c_dict : D; c_zsl : zskiplist; c_rs : list Z }.

(** A round of the loop that fills the dictionary and the skip list. *)
Definition to_skiplist_body (zl : L) (s : convert_state) : option (convert_state + heap * zset D * list Z) :=
  match c_eptr s with
  | None => Some (inr (c_heap s, MkZset (c_dict s) (c_zsl s), c_rs s))
  | Some eptr =>
      sptr ← c_sptr s;
      score ← zzlGetScore zl sptr;
      ele ← ziplistGetObject zl eptr;
      '(h, z, node, rs) ← zslInsert (c_heap s) (c_zsl s) (c_rs s) score ele;
      '(d, r) ← table_add (c_dict s) ele node;
      if r =? Dict.DICT_OK then
        '(eptr, sptr) ← zzlNext zl (c_eptr s) (c_sptr s);
        Some (inl (ConvertState eptr sptr h d z rs))
      else None
  end.

(** A round of the loop that appends the nodes to the ziplist and frees them. *)
Definition to_ziplist_body (s : L * heap * option ptr) : option (L * heap * option ptr + L * heap) :=
  let '(zl, h, node) := s in
  match node with
  | None => Some (inr (zl, h))
  | Some x =>
      n ← h !! x;
      e ← ele n;
      zl ← zzlInsertAt zl None e (score n);
      l ← get_level h x 0;
      let next := forward l in
      h ← zslFreeNode h x;
      Some (inl (zl, h, next))
  end.

Definition zsetConvert (h : heap) (o : zobj) (rs : list Z) (encoding : encodings) : option (heap * zobj * list Z) :=
  match o, encoding with
  | OBJ_ENCODING_ZIPLIST _ _, ENC_ZIPLIST | OBJ_ENCODING_SKIPLIST _, ENC_SKIPLIST => Some (h, o, rs)
  | OBJ_ENCODING_ZIPLIST zl mem, ENC_SKIPLIST =>
      let d := table_new mem in
      '(h, z) ← zslCreate h;
      eptr ← packed_index zl 0;
      e ← eptr;
      sptr ← packed_next zl e;
      _ ← sptr;
      fuel ← rounds zl;
      '(h, zs, rs) ← loop fuel (to_skiplist_body zl) (ConvertState eptr sptr h d z rs);
      Some (h, OBJ_ENCODING_SKIPLIST zs, rs)
  | OBJ_ENCODING_SKIPLIST zs, ENC_ZIPLIST =>
      zl ← packed_new;
      mem ← table_release (zdict zs);
      l ← get_level h (header (zsl zs)) 0;
      let node := forward l in
      h ← zslFreeNode h (header (zsl zs));
      '(zl, h) ← loop (S (Z.to_nat (length (zsl zs)))) to_ziplist_body (zl, h, node);
      Some (h, OBJ_ENCODING_ZIPLIST zl mem, rs)
  end.

Definition zsetConvertToZiplistIfNeeded (h : heap) (o : zobj) (rs : list Z) (maxelelen : Z) :
    option (heap * zobj * list Z) :=
  match o with
  | OBJ_ENCODING_ZIPLIST _ _ => Some (h, o, rs)
  | OBJ_ENCODING_SKIPLIST zs =>
      if (length (zsl zs) <=? zset_max_ziplist_entries) && (maxelelen <=? zset_max_ziplist_value)
      then zsetConvert h o rs ENC_ZIPLIST
      else Some (h, o, rs)
  end.

(** ** Elements *)
(** [None] inside: C_ERR. *)
Definition zsetScore (h : heap) (o : zobj) (member : bytes) : option (zobj * option spec_float) :=
  match o with
  | OBJ_ENCODING_ZIPLIST zl mem =>
      r ← zzlFind zl member true;
      match r with
      | None => Some (o, None)
      | Some (_, s) => s ← s; Some (o, Some s)
      end
  | OBJ_ENCODING_SKIPLIST zs =>
      '(zs, s) ← Zset.zsetScore h zs member; Some (OBJ_ENCODING_SKIPLIST zs, s)
  end.

(** The result: the return value, the flags and what is stored in [newscore]. *)
Definition zsetAdd (h : heap) (o : zobj) (rs : list Z) (sc : spec_float) (e : bytes) (flags : Z) :
    option (heap * zobj * list Z * (Z * Z * option spec_float)) :=
  let incr := negb (Z.land flags ZADD_INCR =? 0) in
  let nx := negb (Z.land flags ZADD_NX =? 0) in
  let xx := negb (Z.land flags ZADD_XX =? 0) in
  if isnan sc then Some (h, o, rs, (0, ZADD_NAN, None))
  else
    match o with
    | OBJ_ENCODING_ZIPLIST zl mem =>
        r ← zzlFind zl e true;
        match r with
        | Some (eptr, curscore) =>
            if nx then Some (h, o, rs, (1, ZADD_NOP, None))
            else
              curscore ← curscore;
              let sc := if incr then dadd sc curscore else sc in
              if incr && isnan sc then Some (h, o, rs, (0, ZADD_NAN, None))
              else
                let newscore := if incr then Some sc else None in
                if negb (deq sc curscore) then
                  zl ← zzlDelete zl eptr;
                  zl ← zzlInsert zl e sc;
                  Some (h, OBJ_ENCODING_ZIPLIST zl mem, rs, (1, ZADD_UPDATED, newscore))
                else Some (h, o, rs, (1, 0, newscore))
        | None =>
            if negb xx then
              zl ← zzlInsert zl e sc;
              '(zl, n) ← zzlLength zl;
              let o := OBJ_ENCODING_ZIPLIST zl mem in
              '(h, o, rs) ← (if zset_max_ziplist_entries <? n then zsetConvert h o rs ENC_SKIPLIST else Some (h, o, rs));
              '(h, o, rs) ← (if zset_max_ziplist_value <? zlen e then zsetConvert h o rs ENC_SKIPLIST else Some (h, o, rs));
              Some (h, o, rs, (1, ZADD_ADDED, Some sc))
            else Some (h, o, rs, (1, ZADD_NOP, None))
        end
    | OBJ_ENCODING_SKIPLIST zs =>
        '(h, zs, rs, r) ← Zset.zsetAdd h zs rs sc e flags; Some (h, OBJ_ENCODING_SKIPLIST zs, rs, r)
    end.

Definition zsetDel (h : heap) (o : zobj) (e : bytes) : option (heap * zobj * Z) :=
  match o with
  | OBJ_ENCODING_ZIPLIST zl mem =>
      r ← zzlFind zl e false;
      match r with
      | Some (eptr, _) => zl ← zzlDelete zl eptr; Some (h, OBJ_ENCODING_ZIPLIST zl mem, 1)
      | None => Some (h, o, 0)
      end
  | OBJ_ENCODING_SKIPLIST zs =>
      '(h, zs, r) ← Zset.zsetDel h zs e; Some (h, OBJ_ENCODING_SKIPLIST zs, r)
  end.

(** The loop leaves with [eptr] and the rank. *)
Definition rank_body (zl : L) (e : bytes) (s : option P * option P * Z) :
    option (option P * option P * Z + option P * Z) :=
  let '(eptr, sptr, rank) := s in
  match eptr with
  | None => Some (inr (None, rank))
  | Some p =>
      b ← packed_compare zl p e;
      if (b : bool) then Some (inr (eptr, rank))
      else
        '(eptr, sptr) ← zzlNext zl eptr sptr;
        Some (inl (eptr, sptr, uwrap 64 (rank + 1)))
  end.

Definition zsetRank (h : heap) (o : zobj) (e : bytes) (reverse : bool) : option (zobj * Z) :=
  '(o, llen) ← zsetLength o;
  match o with
  | OBJ_ENCODING_ZIPLIST zl mem =>
      eptr ← packed_index zl 0;
      p ← eptr;
      sptr ← packed_next zl p;
      _ ← sptr;
      fuel ← rounds zl;
      '(eptr, rank) ← loop fuel (rank_body zl e) (eptr, sptr, 1);
      Some (o, match eptr with
               | Some _ => swrap 64 (if reverse then llen - rank else rank - 1)
               | None => -1
               end)
  | OBJ_ENCODING_SKIPLIST zs =>
      '(zs, r) ← Zset.zsetRank h zs e reverse; Some (OBJ_ENCODING_SKIPLIST zs, r)
  end.
End ZsetObj.
Arguments zobj : clear implicits.
End ZsetObj.
