(* ===== verification/ZsetObjSpec.v ===== *)
(** * Sorted sets in either encoding refine a finite map

    A session on a sorted set object answers as the map of [ZsetSpec], whichever
    encoding the object has and when it changes it. *)

From Stdlib Require Import SpecFloat String.
From S2P Require Import Prelude.
From S2P Require Import Mem.
From S2P Require Import SdsRefine.
From S2P Require Import KvTable.
From S2P Require Import Dict.
From S2P Require Import DictSpec.
From S2P Require Import Packed.
From S2P Require Import PackedPairs.
From S2P Require Import Skiplist.
From S2P Require Import SkiplistRepr.
From S2P Require Import SkiplistOps.
From S2P Require Import SkiplistDelete.
From S2P Require Import SkiplistSpec.
From S2P Require Import SkiplistRange.
From S2P Require Import SkiplistCorrect.
From S2P Require Import Zset.
From S2P Require Import ZsetSpec.
From S2P Require Import Score.
From S2P Require Import Zzl.
From S2P Require Import ZzlSpec.
From S2P Require Import ZzlRange.
From S2P Require Import ZsetObj.
Import KvTable.
Import Packed.
Import Skiplist.
Import Score.
Import Zzl.
Import Zset(zset, MkZset, zdict, zsl, dadd, ZADD_INCR, ZADD_NX, ZADD_XX, ZADD_NOP, ZADD_NAN, ZADD_ADDED, ZADD_UPDATED).
Import ZsetObj.

#[local] Notation length := Datatypes.length.

(** ** Weights of maps *)
Definition mweight (m : gmap bytes spec_float) : Z :=
  foldr (λ p w, zlen p.1 + 58 + w) 0 (map_to_list m).

Lemma fold_weight_perm (l l' : list (bytes * spec_float)) :
  l ≡ₚ l' → foldr (λ p w, zlen p.1 + 58 + w) 0 l = foldr (λ p w, zlen p.1 + 58 + w) 0 l'.
Proof. induction 1; simpl; lia. Qed.

Lemma mweight_insert m e s : m !! e = None → mweight (<[e := s]> m) = zlen e + 58 + mweight m.
Proof. intros He. unfold mweight. by rewrite (fold_weight_perm _ _ (map_to_list_insert m e s He)). Qed.

Lemma mweight_delete m e s : m !! e = Some s → mweight m = zlen e + 58 + mweight (delete e m).
Proof. intros He. rewrite <-(insert_delete_id m e s He) at 1. apply mweight_insert, lookup_delete_eq. Qed.

Lemma mweight_index (xs : list item) : NoDup (strings xs) → mweight (index sc xs) = weight xs.
Proof.
  induction xs as [|it xs IH]; intros Hnd; [done|]. pose proof Hnd as [Hn Hni]%(strings_mid [] xs it). cbn [app] in *.
  pose proof (index_insert sc [] it xs Hnd) as Hi. cbn [app] in Hi. rewrite Hi, mweight_insert by (by apply index_none).
  rewrite IH by done. done.
Qed.

Lemma mweight_size m : 58 * Z.of_nat (base.size m) ≤ mweight m.
Proof.
  unfold mweight. rewrite <-length_map_to_list. induction (map_to_list m) as [|[e s] l IH]; [done|]. simpl foldr. simpl length.
  pose proof (zlen_nonneg e). lia.
Qed.

(** ** Random levels *)
Definition ends (r : Z) : Prop := 16384 ≤ Z.land r 65535.
#[local] Instance ends_dec r : Decision (ends r).
Proof. unfold ends. apply _. Defined.

(** How many levels the numbers are enough for. *)
Definition levels (rs : list Z) : nat := length (filter ends rs).

Lemma random_next n rs : (S n ≤ levels rs)%nat → ∃ lv rs', zslRandomLevel rs = Some (lv, rs') ∧ (n ≤ levels rs')%nat.
Proof.
  unfold zslRandomLevel. generalize 1%nat as k. induction rs as [|r rs IH]; intros k Hn; [unfold levels in Hn; simpl in Hn; lia|].
  cbn [random_loop]. unfold levels in Hn. rewrite filter_cons in Hn.
  destruct (Z.ltb_spec (Z.land r 65535) 16384) as [Hlt|Hge].
  - rewrite decide_False in Hn by (unfold ends; lia). destruct (IH (S k) Hn) as (lv & rs' & Hr & Hl). eauto.
  - rewrite decide_True in Hn by (unfold ends; lia). simpl length in Hn.
    cbn [mbind option_bind]. eexists _, rs. split; [done|]. unfold levels. lia.
Qed.

Lemma levels_exists rs : (1 ≤ levels rs)%nat → Exists (λ r, 16384 ≤ Z.land r 65535) rs.
Proof.
  unfold levels. intros Hn. destruct (filter ends rs) as [|r l] eqn:E; [simpl in Hn; lia|].
  assert (r ∈ filter ends rs) as [Hr Hin]%list_elem_of_filter by (rewrite E; set_solver). apply Exists_exists. eauto.
Qed.

Section ZsetObjSpec.
Context {L P D E : Type} `{!Packed L P} `{!PackedOk L P} `{!Table D E bytes ptr} `{!TableOk D E bytes ptr}.
Context `{!Alloc} `{!Libc} `{!LibcOk} `{!Uninit}.
Context (max_entries max_value : Z).
Implicit Types (l : L) (h : heap) (m : gmap bytes spec_float) (xs ys a b : list item) (o : zobj L D) (d mem : D).

(** ** The invariant *)
Definition zobj_rep h o m : Prop :=
  map_Forall (λ _, valid) m ∧
  match o with
  | OBJ_ENCODING_ZIPLIST l mem =>
      (∃ xs, zzl_rep l xs ∧ NoDup (strings xs) ∧ m = index sc xs) ∧ (∃ m0 : gmap bytes ptr, table_rep mem m0) ∧
      Z.of_nat (base.size m) ≤ Z.max 0 max_entries
  | OBJ_ENCODING_SKIPLIST zs => ∃ xs, zset_rep h zs m xs
  end.

(** ** From the ziplist to the skip list *)
Definition pair_cursor l xs a b (eptr sptr : option P) : Prop :=
  cursor l xs a b eptr ∧ match b with [] => True | _ => ∃ q, sptr = Some q ∧ at_score l xs a q end.

Lemma next_pair l xs a it b p q :
  xs = a ++ it :: b → Forall item_ok xs → at_item l xs a p → at_score l xs a q →
  ∃ eptr sptr, zzlNext l (Some p) (Some q) = Some (eptr, sptr) ∧ pair_cursor l xs (a ++ [it]) b eptr sptr.
Proof.
  intros Hxs Hok Hp Hq. assert (item_ok it) as Hit by (rewrite Hxs in Hok; by apply Forall_app in Hok as [_ [? _]%Forall_cons]).
  unfold zzlNext. cbn [mbind option_bind].
  assert (∃ eptr, packed_next l q = Some eptr ∧ cursor l xs (a ++ [it]) b eptr) as (eptr & -> & Hc).
  { unfold at_score, entries in Hq. rewrite Hxs, item_pairs_mid, <-(length_fmap pair_of a) in Hq.
    pose proof (next_key l _ (pair_of <$> a) (pair_of it).1 (pair_of it).2 (pair_of <$> b) q eq_refl Hq) as Hk.
    destruct b as [|it' b]; simpl in Hk.
    - exists None. split; [done|]. split; [by rewrite Hxs, app_nil_r|done].
    - destruct Hk as (p' & Hp' & Hat'). exists (Some p'). split; [done|]. split; [by rewrite Hxs, <-app_assoc|].
      exists p'. split; [done|]. unfold at_item, entries. rewrite Hxs, item_pairs_mid, length_app in *. rewrite length_fmap in Hat'. exact Hat'. }
  cbn [mbind option_bind]. pose proof Hc as [Hxs' Hc']. destruct b as [|it' b].
  - rewrite Hc' in *. exists None, None. by split.
  - destruct Hc' as (p' & -> & Hp').
    assert (item_ok it') as Hit' by (rewrite Hxs' in Hok; by apply Forall_app in Hok as [_ [? _]%Forall_cons]).
    destruct (pair_step l xs (a ++ [it]) it' b p' Hxs' Hit' Hp') as (q' & -> & Hq' & _). cbn [mbind option_bind].
    exists (Some p'), (Some q'). split; [done|]. split; [done|]. by exists q'.
Qed.

(** The pointers with which a loop over the pairs starts. *)
Lemma head_pair l xs :
  packed_rep l (entries xs) → Forall item_ok xs → xs ≠ [] →
  ∃ p q, packed_index l 0 = Some (Some p) ∧ packed_next l p = Some (Some q) ∧ pair_cursor l xs [] xs (Some p) (Some q).
Proof.
  intros Hrep Hok Hne. destruct (head_cursor l xs Hrep) as (eptr & -> & Hc). destruct xs as [|it xs]; [done|].
  pose proof Hc as [_ (p & -> & Hp)]. pose proof Hok as [Hit _]%Forall_cons.
  destruct (pair_step l _ [] it xs p eq_refl Hit Hp) as (q & Hn & Hq & _). exists p, q. split_and!; try done. split; [done|]. by exists q.
Qed.

Lemma index_snoc {A} (f : item → A) a it b :
  NoDup (strings (a ++ it :: b)) → index f (a ++ [it]) = <[(ikey it).2 := f it]> (index f a) ∧ (ikey it).2 ∉ strings a.
Proof.
  intros Hnd. assert (NoDup (strings (a ++ [it]))) as Hnd'.
  { unfold strings in *. rewrite (cons_middle it a b), app_assoc, fmap_app in Hnd. by apply NoDup_app in Hnd as [? _]. }
  split; [by rewrite index_insert, app_nil_r by done|]. apply strings_mid in Hnd' as [_ Hn]. by rewrite app_nil_r in Hn.
Qed.

(** One element more in the dictionary and the skip list. *)
Lemma grow_ok h d z m ys rs n s e :
  zset_rep h (MkZset d z) m ys → m !! e = None → isnan s = false → zlen e < 2 ^ 31 → zlen ys < 2 ^ 30 → (S n ≤ levels rs)%nat →
  ∃ h' z' x rs' d' ys', zslInsert h z rs s e = Some (h', z', x, rs') ∧ table_add d e x = Some (d', Dict.DICT_OK) ∧
    zset_rep h' (MkZset d' z') (<[e := s]> m) ys' ∧ zlen ys' = zlen ys + 1 ∧ (n ≤ levels rs')%nat.
Proof.
  intros Hz Hfresh Hs He Hlen (lv & rs' & Hr & Hn)%random_next.
  assert (e ∉ strings ys) as Hnew by (rewrite (zr_map _ _ _ _ Hz) in Hfresh; by apply index_none in Hfresh).
  destruct (insert_indexed h z ys rs lv rs' s e (zr_list _ _ _ _ Hz) (zr_nodup _ _ _ _ Hz) Hnew Hs He ltac:(lia) Hr)
    as (h2 & z2 & x & ys' & Hrun & _ & _ & Hz2 & Hnd2 & Hlen2 & Hia & His & _).
  destruct (zset_size _ _ _ _ Hz) as [_ Hsz].
  destruct (table_add_ok d (index addr ys) e x (zr_dict _ _ _ _ Hz) ltac:(lia)) as (d' & Hadd & Hd'); [by apply index_none|].
  exists h2, z2, x, rs', d', ys'. split_and!; try done. split; cbn [zsl zdict]; [done|done|by rewrite Hia|].
  by rewrite His, (zr_map _ _ _ _ Hz).
Qed.

Lemma to_skiplist_loop l xs : ∀ b a (s : convert_state) ys fuel,
  Forall item_ok xs → NoDup (strings xs) → zlen xs < 2 ^ 30 →
  pair_cursor l xs a b (c_eptr s) (c_sptr s) →
  zset_rep (c_heap s) (MkZset (c_dict s) (c_zsl s)) (index sc a) ys →
  (length b ≤ levels (c_rs s))%nat → (length b < fuel)%nat →
  ∃ h' zs' rs' ys', loop fuel (to_skiplist_body l) s = Some (h', zs', rs') ∧ zset_rep h' zs' (index sc xs) ys'.
Proof.
  induction b as [|it b IH]; intros a [eptr sptr h d z rs] ys fuel Hok Hnd Hlen [[Hxs Hc] Hc2] Hz Hlev Hf;
    (destruct fuel as [|fuel]; [simpl in Hf; lia|]); rewrite loop_S; cbn [c_eptr c_sptr c_heap c_dict c_zsl c_rs] in *.
  - rewrite Hc. unfold to_skiplist_body at 2. cbn [c_eptr mbind option_bind]. eexists _, _, _, ys. split; [done|].
    rewrite Hxs, app_nil_r. exact Hz.
  - destruct Hc as (p & -> & Hp), Hc2 as (q & -> & Hq).
    assert (item_ok it) as Hit by (rewrite Hxs in Hok; by apply Forall_app in Hok as [_ [? _]%Forall_cons]).
    unfold to_skiplist_body at 2. cbn [c_eptr c_sptr c_heap c_dict c_zsl c_rs mbind option_bind].
    rewrite (score_at l xs a it b q Hxs Hit Hq). cbn [mbind option_bind].
    rewrite (object_at l xs a it b p Hxs Hit Hp). cbn [mbind option_bind].
    pose proof Hnd as Hnd0. rewrite Hxs in Hnd0. destruct (index_snoc sc a it b Hnd0) as [Hi Hni].
    destruct (zset_size _ _ _ _ Hz) as [Hsz _].
    assert (zlen ys = zlen a) as Hla.
    { rewrite <-Hsz. apply index_size. unfold strings in *. rewrite fmap_app in Hnd0. by apply NoDup_app in Hnd0 as [? _]. }
    assert (zlen a < zlen xs) as Hlt by (rewrite Hxs, zlen_app, zlen_cons; zlen_pos; lia).
    pose proof Hit as [Hg _]. destruct (grow_ok h d z (index sc a) ys rs (length b) (sc it) (ikey it).2 Hz) as
      (h2 & z2 & x & rs2 & d2 & ys2 & -> & Hadd & Hz2 & _ & Hlev2).
    { by apply index_none. } { apply Hg. } { by apply good_len. } { lia. } { done. }
    cbn [mbind option_bind]. rewrite Hadd. cbn [mbind option_bind]. rewrite Z.eqb_refl.
    destruct (next_pair l xs a it b p q Hxs Hok Hp Hq) as (eptr & sptr & -> & Hpc). cbn [mbind option_bind].
    apply (IH (a ++ [it]) (ConvertState eptr sptr h2 d2 z2 rs2) ys2 fuel); try done; cbn [c_eptr c_sptr c_heap c_dict c_zsl c_rs].
    + by rewrite Hi.
    + simpl in Hf. lia.
Qed.

Lemma to_skiplist h l mem xs (m0 : gmap bytes ptr) rs :
  zzl_rep l xs → NoDup (strings xs) → xs ≠ [] → table_rep mem m0 → zlen xs < 2 ^ 30 → (length xs ≤ levels rs)%nat →
  ∃ h' zs' rs' ys, zsetConvert h (OBJ_ENCODING_ZIPLIST l mem) rs ENC_SKIPLIST = Some (h', OBJ_ENCODING_SKIPLIST zs', rs') ∧
    zset_rep h' zs' (index sc xs) ys.
Proof.
  intros [Hrep Hs Hok] Hnd Hne Hmem Hlen Hlev. cbn [zsetConvert].
  destruct (create_rep h) as (h0 & z0 & -> & Hz0 & _). cbn [mbind option_bind].
  destruct (head_pair l xs Hrep Hok Hne) as (p & q & -> & Hn & Hpc). cbn [mbind option_bind]. rewrite Hn. cbn [mbind option_bind].
  rewrite (rounds_ok l _ Hrep). cbn [mbind option_bind].
  destruct (to_skiplist_loop l xs xs [] (ConvertState (Some p) (Some q) h0 (table_new mem) z0 rs) []
    (S (2 * length xs))) as (h' & zs' & rs' & ys & -> & Hz); try done; cbn [c_eptr c_sptr c_heap c_dict c_zsl c_rs].
  - split; cbn [zsl zdict]; [done|constructor| |done]. by eapply table_new_ok.
  - lia.
  - cbn [mbind option_bind]. eexists _, _, _, ys. split; [done|done].
Qed.

(** ** From the skip list to the ziplist *)
Lemma entries_new a it : entries (a ++ [new_item (sc it) (ikey it).2]) = entries (a ++ [it]).
Proof. unfold entries. by rewrite !fmap_app. Qed.

Lemma to_ziplist_loop h0 z xs : ∀ b a l h fuel,
  zsl_rep h0 z xs → Forall item_ok xs → 40 + weight xs < 2 ^ 32 → xs = a ++ b → packed_rep l (entries a) →
  (∀ it, it ∈ b → h !! addr it = h0 !! addr it) → (length b < fuel)%nat →
  ∃ l' h', loop fuel to_ziplist_body (l, h, addr <$> head b) = Some (l', h') ∧ packed_rep l' (entries xs).
Proof.
  induction b as [|it b IH]; intros a l h fuel Hz Hok Hw Hxs Hl Hh Hf; (destruct fuel as [|fuel]; [simpl in Hf; lia|]);
    rewrite loop_S; unfold to_ziplist_body at 2; cbn [head fmap option_fmap option_map].
  - exists l, h. split; [done|]. by rewrite Hxs, app_nil_r.
  - pose proof Hok as Hok'. rewrite Hxs in Hok'. apply Forall_app in Hok' as [Hoka [Hit _]%Forall_cons].
    destruct (node_at h0 z xs a it b (rep_ok _ _ _ Hz) Hxs) as (n & Hn & Hel & Hsc).
    pose proof Hit as [Hg Hv]. rewrite <-(Hh it ltac:(set_solver)) in Hn. rewrite Hn. cbn [mbind option_bind].
    rewrite Hel, (good_ele it Hg), Hsc. cbn [mbind option_bind].
    assert (Forall item_ok (a ++ [it])) as Hok1 by (apply Forall_app; split; [done|by constructor]).
    destruct (insert_at l a [] (ikey it).2 (sc it) None Hv ltac:(apply Hg)) as (l1 & -> & Hl1).
    { by split. }
    { by rewrite app_nil_r. }
    { rewrite entries_new. apply weight_room; [done|]. rewrite Hxs in Hw. rewrite !weight_app in *. cbn [weight] in *.
      pose proof (weight_len b). zlen_pos. lia. }
    rewrite entries_new in Hl1. cbn [mbind option_bind].
    pose proof Hz as Hz'. rewrite Hxs in Hz'. destruct (head_forward h0 z a it b Hz') as [Hlev Hfw].
    assert (get_level h (addr it) 0 = Some (next 0 b)) as ->.
    { rewrite <-Hlev. unfold get_level. by rewrite Hh by set_solver. }
    cbn [mbind option_bind]. unfold zslFreeNode. rewrite Hn. cbn [mbind option_bind]. rewrite Hfw.
    apply (IH (a ++ [it])); try done.
    + by rewrite Hxs, <-app_assoc.
    + intros y Hy. rewrite lookup_delete_ne; [apply Hh; set_solver|].
      pose proof (nodes_nodup _ _ _ (ok_nodes _ _ _ (rep_ok _ _ _ Hz'))) as Hna.
      apply (addr_nodup_mid (hd_item (header z) :: a) b it) in Hna as [_ Hna]. intros Heq. apply Hna.
      apply (list_elem_of_fmap_2' addr) with (x := y); [|done]. set_solver.
    + simpl in Hf. lia.
Qed.

Lemma to_ziplist h zs m xs rs :
  zset_rep h zs m xs → map_Forall (λ _, valid) m → 40 + mweight m < 2 ^ 32 →
  ∃ h' l mem (m0 : gmap bytes ptr), zsetConvert h (OBJ_ENCODING_SKIPLIST zs) rs ENC_ZIPLIST = Some (h', OBJ_ENCODING_ZIPLIST l mem, rs) ∧
    zzl_rep l xs ∧ table_rep mem m0.
Proof.
  intros Hz Hv Hw. pose proof (zr_list _ _ _ _ Hz) as Hl. pose proof (rep_ok _ _ _ Hl) as Hok. pose proof (ok_level _ _ _ Hok).
  assert (Forall item_ok xs) as Hitems.
  { apply Forall_forall. intros it Hin. pose proof (proj1 (Forall_forall _ _) (rep_good _ _ _ Hl) it Hin) as Hg.
    split; [done|]. apply (Hv (ikey it).2). rewrite (zr_map _ _ _ _ Hz). apply index_lookup; [apply Hz|]. by exists it. }
  rewrite (zr_map _ _ _ _ Hz), mweight_index in Hw by apply Hz.
  cbn [zsetConvert]. destruct packed_new_ok as (l0 & -> & Hl0). cbn [mbind option_bind].
  destruct (table_release_ok (zdict zs) _ (zr_dict _ _ _ _ Hz)) as (mem & -> & Hmem). cbn [mbind option_bind].
  assert (get_level h (header (zsl zs)) 0 = Some (next 0 xs)) as ->
    by (apply (nodes_level _ _ _ (ok_nodes _ _ _ Hok) [] (hd_item (header (zsl zs))) xs); [done|simpl; unfold ZSKIPLIST_MAXLEVEL; lia|lia]).
  cbn [mbind option_bind].
  assert (forward (next 0 xs) = addr <$> head xs) as ->.
  { destruct xs as [|y ys]; [done|]. pose proof (ok_positive _ _ _ Hok) as Hp. apply Forall_cons in Hp as [_ [Hy _]%Forall_cons].
    simpl in *. destruct (Nat.ltb_spec 0 (ht y)); [done|lia]. }
  destruct (fields_node _ _ _ _ _ _ (nodes_fields _ _ _ (ok_nodes _ _ _ Hok) [] (hd_item (header (zsl zs))) xs eq_refl)) as (nd & Hnd & _).
  unfold zslFreeNode. cbn [hd_item addr] in Hnd. rewrite Hnd. cbn [mbind option_bind].
  rewrite (ok_length _ _ _ Hok).
  destruct (to_ziplist_loop h (zsl zs) xs xs [] l0 (delete (header (zsl zs)) h) (S (Z.to_nat (zlen xs))) Hl Hitems Hw eq_refl Hl0) as (l & h' & -> & Hl').
  - intros it Hin. rewrite lookup_delete_ne; [done|]. pose proof (nodes_nodup _ _ _ (ok_nodes _ _ _ Hok)) as Hna.
    rewrite fmap_cons in Hna. apply NoDup_cons in Hna as [Hna _]. intros Heq. apply Hna. cbn [hd_item addr]. rewrite Heq.
    by apply (list_elem_of_fmap_2 addr).
  - unfold zlen. lia.
  - cbn [mbind option_bind]. exists h', l, mem, ∅. split; [done|]. split; [|done]. split; [done|apply (rep_sorted _ _ _ Hl)|done].
Qed.

(** ** Elements *)
Lemma index_here a it b : NoDup (strings (a ++ it :: b)) → index sc (a ++ it :: b) !! (ikey it).2 = Some (sc it).
Proof. intros Hnd. apply index_lookup; [done|]. exists it. split_and!; [set_solver|done|done]. Qed.

Lemma insert_mapped l xs e s :
  zzl_rep l xs → NoDup (strings xs) → valid s → isnan s = false → zlen e < 2 ^ 31 → e ∉ strings xs →
  40 + weight xs + zlen e + 58 < 2 ^ 32 →
  ∃ l' ys, zzlInsert l e s = Some l' ∧ zzl_rep l' ys ∧ NoDup (strings ys) ∧ index sc ys = <[e := s]> (index sc xs) ∧
    zlen ys = zlen xs + 1.
Proof.
  intros Hl Hnd Hv Hn He Hfresh Hw. destruct (insert_element l xs e s Hl Hv Hn He Hfresh Hw) as (l' & a & b & Hrun & -> & Hl').
  exists l', (a ++ new_item s e :: b). assert (NoDup (strings (a ++ new_item s e :: b))) as Hnd' by (apply strings_mid; done).
  split_and!; try done; [by rewrite index_insert by done|]. rewrite !zlen_app, zlen_cons. lia.
Qed.

Lemma spec_add_valid m s e flags :
  map_Forall (λ _, valid) m → valid s → map_Forall (λ _, valid) (spec_add m s e flags).1.
Proof using.
  intros Hm Hs. unfold spec_add. destruct (isnan s); [done|]. destruct (m !! e) as [cur|] eqn:Ecur.
  - assert (valid (if negb (Z.land flags ZADD_INCR =? 0) then dadd s cur else s)) as Hs'.
    { destruct (negb _); [|done]. apply add_valid; [done|]. by apply (Hm e). }
    destruct (negb (Z.land flags ZADD_NX =? 0)); [done|]. destruct (_ && _); [done|].
    destruct (deq _ _); [done|]. by apply map_Forall_insert_2.
  - destruct (negb (Z.land flags ZADD_XX =? 0)); [done|]. by apply map_Forall_insert_2.
Qed.

(** What an addition does to the ziplist before it is converted. *)
Lemma convert_after h l mem ys (m0 : gmap bytes ptr) (rs : list Z) (large : bool) :
  zzl_rep l ys → NoDup (strings ys) → ys ≠ [] → table_rep mem m0 → zlen ys < 2 ^ 30 → (length ys ≤ levels rs)%nat →
  map_Forall (λ _, valid) (index sc ys) →
  ∃ h' o' rs', ('(h, o, rs) ← (if max_entries <? zlen ys then zsetConvert h (OBJ_ENCODING_ZIPLIST l mem) rs ENC_SKIPLIST
                               else Some (h, OBJ_ENCODING_ZIPLIST l mem, rs));
                (if large then zsetConvert h o rs ENC_SKIPLIST else Some (h, o, rs))) = Some (h', o', rs') ∧
    zobj_rep h' o' (index sc ys).
Proof.
  intros Hl Hnd Hne Hm Hlen Hlev Hv. destruct (to_skiplist h l mem ys m0 rs Hl Hnd Hne Hm Hlen Hlev) as (h' & zs & rs' & xs & Hc & Hz).
  assert (zobj_rep h' (OBJ_ENCODING_SKIPLIST zs) (index sc ys)) as Hskip by (split; [done|]; by exists xs).
  destruct (Z.ltb_spec max_entries (zlen ys)) as [Hlt|Hge].
  - rewrite Hc. cbn [mbind option_bind]. destruct large; by eexists _, _, _.
  - cbn [mbind option_bind]. destruct large; [rewrite Hc; by eexists _, _, _|]. eexists _, _, _. split; [done|]. split; [done|].
    split; [by exists ys|]. split; [by exists m0|]. rewrite index_size by done. lia.
Qed.

Lemma obj_add_ok h o m rs s e flags :
  zobj_rep h o m → valid s → zlen e < 2 ^ 31 → 40 + mweight m + zlen e + 58 < 2 ^ 32 → (S (base.size m) ≤ levels rs)%nat →
  ∃ h' o' rs', zsetAdd max_entries max_value h o rs s e flags = Some (h', o', rs', (spec_add m s e flags).2) ∧
    zobj_rep h' o' (spec_add m s e flags).1.
Proof.
  intros Ho Hv He Hw Hlev. pose proof (spec_add_valid m s e flags (proj1 Ho) Hv) as Hvalid. unfold zsetAdd.
  destruct (isnan s) eqn:Hs; [unfold spec_add; rewrite Hs; by eexists _, _, _|].
  destruct o as [l mem|zs].
  2:{ destruct Ho as [Hm (xs & Hz)]. destruct (zset_size _ _ _ _ Hz) as [Hsz _]. pose proof (mweight_size m). zlen_pos.
      destruct (zadd_ok h zs m xs rs s e flags Hz He ltac:(lia) (levels_exists rs ltac:(lia))) as (h' & zs' & rs' & xs' & -> & Hz').
      cbn [mbind option_bind]. eexists _, _, _. split; [done|]. split; [done|]. by exists xs'. }
  pose proof Ho as [Hm ((xs & Hl & Hnd & ->) & (m0 & Hmem) & Hmax)]. pose proof Hl as [Hrep Hsort Hok].
  rewrite mweight_index in Hw by done. pose proof (weight_len xs) as Hwl. pose proof (index_size sc xs Hnd) as Hsz. zlen_pos.
  destruct (find_in l xs e true Hrep Hok) as (r & -> & Hr). cbn [mbind option_bind]. unfold spec_add in *. rewrite Hs in *.
  destruct r as [[p cur]|].
  - destruct Hr as (a & it & b & Hxs & He' & Hp & ->). assert (index sc xs !! e = Some (sc it)) as Hcur by (rewrite Hxs, <-He'; apply index_here; by rewrite <-Hxs).
    rewrite Hcur in *. destruct (negb (Z.land flags ZADD_NX =? 0)); [by eexists _, _, _|]. cbn [mbind option_bind].
    set (s' := if negb (Z.land flags ZADD_INCR =? 0) then dadd s (sc it) else s) in *.
    destruct (negb (Z.land flags ZADD_INCR =? 0) && isnan s') eqn:Hnan; [by eexists _, _, _|].
    destruct (deq s' (sc it)) eqn:Hq; cbn [negb]; [by eexists _, _, _|].
    assert (isnan s' = false) as Hs' by (unfold s' in *; by destruct (negb (Z.land flags ZADD_INCR =? 0))).
    assert (valid s') as Hv' by (apply (Hvalid e); apply lookup_insert_eq).
    destruct (delete_element l xs a it b p Hl Hxs Hp ltac:(lia)) as (l1 & -> & Hl1). cbn [mbind option_bind].
    rewrite Hxs in Hnd. pose proof Hnd as [Hnd1 Hfresh]%strings_mid. rewrite He' in Hfresh.
    assert (weight xs = weight (a ++ b) + zlen e + 58) as Hwt by (rewrite Hxs, !weight_app; cbn [weight]; rewrite He'; lia).
    destruct (insert_mapped l1 (a ++ b) e s' Hl1 Hnd1 Hv' Hs' He Hfresh ltac:(lia)) as (l2 & ys & -> & Hl2 & Hnd2 & Hi & Hlen2).
    cbn [mbind option_bind]. eexists _, _, _. split; [done|]. cbn [fst].
    assert (<[e := s']> (index sc xs) = index sc ys) as Heq by (rewrite Hi, Hxs, (index_delete sc a it b Hnd), He', insert_delete_eq; done).
    split; [done|]. split; [by exists ys|]. split; [by exists m0|]. rewrite Heq, index_size, Hlen2 by done.
    assert (zlen xs = zlen (a ++ b) + 1) as Hlen by (rewrite Hxs, !zlen_app, zlen_cons; lia). lia.
  - assert (index sc xs !! e = None) as Hnone by (by apply index_none). rewrite Hnone in *.
    destruct (negb (Z.land flags ZADD_XX =? 0)); cbn [negb]; [by eexists _, _, _|].
    destruct (insert_mapped l xs e s Hl Hnd Hv Hs He Hr ltac:(lia)) as (l1 & ys & -> & [Hrep1 Hs1 Hok1] & Hnd1 & Hi & Hlen1). cbn [mbind option_bind].
    destruct (length_at l1 ys Hrep1) as (l2 & -> & Hrep2). cbn [mbind option_bind fst snd] in *. rewrite <-Hi in *.
    destruct (convert_after h l2 mem ys m0 rs (max_value <? zlen e)) as (h' & o' & rs' & Hrun & Ho'); try done;
      [intros ->; change (zlen []) with 0 in Hlen1; lia|lia| |].
    { unfold zlen in *. lia. }
    destruct (if max_entries <? zlen ys then _ else _) as [[[h1 o1] rs1]|]; [|done]. cbn [mbind option_bind] in *. rewrite Hrun.
    cbn [mbind option_bind]. by eexists _, _, _.
Qed.

Lemma obj_score_ok h o m e : zobj_rep h o m → ∃ o', zsetScore h o e = Some (o', m !! e) ∧ zobj_rep h o' m.
Proof.
  intros Ho. destruct o as [l mem|zs]; cbn [zsetScore].
  - pose proof Ho as [Hm ((xs & [Hrep Hsort Hok] & Hnd & ->) & _)].
    destruct (find_in l xs e true Hrep Hok) as (r & -> & Hr). cbn [mbind option_bind]. destruct r as [[p cur]|].
    + destruct Hr as (a & it & b & -> & <- & _ & ->). cbn [mbind option_bind]. rewrite index_here by done. eauto.
    + apply (index_none sc) in Hr as ->. eauto.
  - destruct Ho as [Hm (xs & Hz)]. destruct (score_ok h zs m xs e Hz) as (zs' & -> & Hz'). cbn [mbind option_bind].
    eexists. split; [done|]. split; [done|]. by exists xs.
Qed.

Lemma obj_del_ok h o m e :
  zobj_rep h o m → zlen e < 2 ^ 31 → 40 + mweight m < 2 ^ 32 →
  ∃ h' o', zsetDel h o e = Some (h', o', if decide (is_Some (m !! e)) then 1 else 0) ∧ zobj_rep h' o' (delete e m).
Proof.
  intros Ho He Hw. assert (map_Forall (λ _, valid) (delete e m)) as Hv by (apply map_Forall_delete, Ho).
  pose proof (mweight_size m) as Hms. destruct o as [l mem|zs]; cbn [zsetDel].
  - pose proof Ho as [_ ((xs & Hl & Hnd & ->) & (m0 & Hmem) & Hmax)]. pose proof Hl as [Hrep Hsort Hok].
    rewrite mweight_index in Hw by done.
    destruct (find_in l xs e false Hrep Hok) as (r & -> & Hr). cbn [mbind option_bind]. destruct r as [[p cur]|].
    + destruct Hr as (a & it & b & Hxs & He' & Hp & _). destruct (delete_element l xs a it b p Hl Hxs Hp Hw) as (l' & -> & Hl').
      cbn [mbind option_bind]. assert (index sc xs !! e = Some (sc it)) as Hcur by (rewrite Hxs, <-He'; apply index_here; by rewrite <-Hxs).
      rewrite decide_True by (by rewrite Hcur). eexists _, _. split; [done|]. split; [done|].
      rewrite Hxs in Hnd. pose proof Hnd as [Hnd1 _]%strings_mid.
      split; [exists (a ++ b); split_and!; [done|done|]; by rewrite Hxs, <-He', <-index_delete|]. split; [by exists m0|].
      rewrite map_size_delete, Hcur. lia.
    + apply (index_none sc) in Hr as Hn. rewrite decide_False by (rewrite Hn; by intros [? ?]). rewrite delete_id by done. eauto.
  - destruct Ho as [_ (xs & Hz)]. destruct (zset_size _ _ _ _ Hz) as [Hsz _].
    destruct (zdel_ok h zs m xs e Hz He ltac:(lia)) as (h' & zs' & xs' & -> & Hz'). cbn [mbind option_bind].
    eexists _, _. split; [done|]. split; [done|]. by exists xs'.
Qed.

Lemma obj_length_ok h o m :
  zobj_rep h o m → 40 + mweight m < 2 ^ 32 →
  ∃ o', zsetLength o = Some (o', Z.of_nat (base.size m)) ∧ zobj_rep h o' m ∧
    match o, o' with
    | OBJ_ENCODING_ZIPLIST _ _, OBJ_ENCODING_ZIPLIST _ _ => True
    | _, _ => o' = o
    end.
Proof.
  intros Ho Hw. pose proof (mweight_size m) as Hms. destruct o as [l mem|zs]; cbn [zsetLength].
  - pose proof Ho as [Hv ((xs & [Hrep Hsort Hok] & Hnd & ->) & Hmem)]. pose proof (index_size sc xs Hnd) as Hsz.
    destruct (length_at l xs Hrep) as (l' & -> & Hrep'). cbn [mbind option_bind]. zlen_pos.
    rewrite swrap_id, uwrap_id by (unfold in_u, in_s; lia). eexists. split; [by rewrite Hsz|]. split; [|done].
    split; [done|]. split; [by exists xs|done].
  - pose proof Ho as [Hv (xs & Hz)]. destruct (zset_size _ _ _ _ Hz) as [Hsz _]. rewrite (length_ok h zs m xs Hz) by lia. eauto.
Qed.

Lemma rank_loop l xs e : ∀ b a eptr sptr fuel,
  Forall item_ok xs → zlen xs < 2 ^ 30 → pair_cursor l xs a b eptr sptr → (length b < fuel)%nat →
  ∃ r rank, loop fuel (rank_body l e) (eptr, sptr, zlen a + 1) = Some (r, rank) ∧
    match r with
    | Some _ => ∃ b1 it b2, b = b1 ++ it :: b2 ∧ (ikey it).2 = e ∧ rank = zlen (a ++ b1) + 1
    | None => e ∉ strings b
    end.
Proof.
  induction b as [|it b IH]; intros a eptr sptr fuel Hok Hlen [[Hxs Hc] Hc2] Hf;
    (destruct fuel as [|fuel]; [simpl in Hf; lia|]); rewrite loop_S; unfold rank_body at 2.
  - rewrite Hc. exists None, (zlen a + 1). split; [done|]. apply not_elem_of_nil.
  - destruct Hc as (p & -> & Hp), Hc2 as (q & -> & Hq).
    assert (entries xs !! (2 * length a)%nat = Some (ikey it).2) as Hkey.
    { unfold entries. rewrite flat_key, Hxs, item_pairs_mid, <-(length_fmap pair_of a), list_lookup_middle by done. done. }
    rewrite (packed_compare_ok l _ _ p _ e Hp Hkey). cbn [mbind option_bind]. case_bool_decide as He.
    + eexists _, _. split; [done|]. exists [], it, b. rewrite app_nil_r. by split_and!.
    + destruct (next_pair l xs a it b p q Hxs Hok Hp Hq) as (eptr & sptr & -> & Hpc). cbn [mbind option_bind].
      assert (zlen xs = zlen a + 1 + zlen b) as Hl by (rewrite Hxs, zlen_app, zlen_cons; lia). zlen_pos.
      rewrite uwrap_id by (unfold in_u; lia).
      replace (zlen a + 1 + 1) with (zlen (a ++ [it]) + 1) by (rewrite zlen_app; change (zlen [it]) with 1; lia).
      destruct (IH (a ++ [it]) eptr sptr fuel Hok Hlen Hpc ltac:(simpl in Hf; lia)) as (r & rank & -> & Hr).
      exists r, rank. split; [done|]. destruct r as [p'|].
      * destruct Hr as (b1 & it' & b2 & -> & He' & ->). exists (it :: b1), it', b2. rewrite <-app_assoc. by split_and!.
      * unfold strings in *. rewrite fmap_cons. apply not_elem_of_cons. split; [|done]. by intros ->.
Qed.

Lemma obj_rank_ok h o m e reverse :
  zobj_rep h o m → zlen e < 2 ^ 31 → 40 + mweight m < 2 ^ 32 → m ≠ ∅ →
  ∃ o', zsetRank h o e reverse = Some (o', spec_rank m e reverse) ∧ zobj_rep h o' m.
Proof.
  intros Ho He Hw Hne. pose proof (mweight_size m) as Hms. unfold zsetRank.
  destruct (obj_length_ok h o m Ho Hw) as (o' & -> & Ho' & Henc). cbn [mbind option_bind]. destruct o' as [l mem|zs].
  2:{ destruct Ho' as [Hv (xs & Hz)]. destruct (zset_size _ _ _ _ Hz) as [Hsz _].
      destruct (zrank_ok h zs m xs e reverse Hz He ltac:(lia)) as (zs' & -> & Hz'). cbn [mbind option_bind].
      eexists. split; [done|]. split; [done|]. by exists xs. }
  exists (OBJ_ENCODING_ZIPLIST l mem). split; [|done].
  destruct Ho' as [Hv ((xs & [Hrep Hsort Hok] & Hnd & ->) & Hmem)]. pose proof (index_size sc xs Hnd) as Hsz.
  destruct (head_pair l xs Hrep Hok ltac:(by intros ->)) as (p & q & -> & Hn & Hpc). cbn [mbind option_bind]. rewrite Hn. cbn [mbind option_bind].
  rewrite (rounds_ok l xs Hrep). cbn [mbind option_bind].
  destruct (rank_loop l xs e xs [] (Some p) (Some q) (S (2 * length xs)) Hok ltac:(lia) Hpc ltac:(lia)) as (r & rank & Hrun & Hr).
  change (zlen [] + 1) with 1 in Hrun. rewrite Hrun. cbn [mbind option_bind]. unfold spec_rank. do 2 f_equal.
  destruct r as [p'|]; [|by rewrite (proj2 (index_none sc xs e) Hr)].
  destruct Hr as (b1 & it & b2 & Hxs & <- & ->). cbn [app].
  rewrite Hxs in Hsort, Hnd, Hsz |- *. rewrite index_here, below_count, Hsz by done.
  rewrite Hxs in *. rewrite zlen_app, zlen_cons in *. zlen_pos. rewrite swrap_id; [destruct reverse; lia|lia|].
  unfold in_s. change (2 ^ (64 - 1)) with 9223372036854775808. destruct reverse; lia.
Qed.

Lemma obj_shrink_ok h o m rs n :
  zobj_rep h o m → 40 + mweight m < 2 ^ 32 →
  ∃ h' o', zsetConvertToZiplistIfNeeded max_entries max_value h o rs n = Some (h', o', rs) ∧ zobj_rep h' o' m.
Proof.
  intros Ho Hw. destruct o as [l mem|zs]; cbn [zsetConvertToZiplistIfNeeded]; [eauto|].
  destruct (_ && _) eqn:Hc; [|eauto]. apply andb_true_iff in Hc as [Hc%Z.leb_le _]. destruct Ho as [Hv (xs & Hz)].
  destruct (to_ziplist h zs m xs rs Hz Hv Hw) as (h' & l & mem & m0 & -> & Hl & Hmem).
  eexists _, _. split; [done|]. split; [done|]. split; [exists xs; split_and!; [done|apply Hz|apply Hz]|]. split; [by exists m0|].
  destruct (zset_size _ _ _ _ Hz) as [-> _]. rewrite (ok_length _ _ _ (rep_ok _ _ _ (zr_list _ _ _ _ Hz))) in Hc. lia.
Qed.

(** ** Sessions *)
Inductive zobj_op := ZOp (c : zset_op) | ZShrink (maxelelen : Z).

Definition run_zobj_op (c : zobj_op) (st : heap * zobj L D) : option (heap * zobj L D * list zset_answer) :=
  let '(h, o) := st in
  match c with
  | ZOp (OAdd rs s e flags) => '(h, o, _, r) ← zsetAdd max_entries max_value h o rs s e flags; Some (h, o, [AAdd r])
  | ZOp (ODel e) => '(h, o, n) ← zsetDel h o e; Some (h, o, [ADel n])
  | ZOp (OScore e) => '(o, s) ← zsetScore h o e; Some (h, o, [AScore s])
  | ZOp (ORank e reverse) => '(o, n) ← zsetRank h o e reverse; Some (h, o, [ARank n])
  | ZOp OLength => '(o, n) ← zsetLength o; Some (h, o, [ALength n])
  | ZShrink n => '(h, o, _) ← zsetConvertToZiplistIfNeeded max_entries max_value h o [] n; Some (h, o, [])
  end.

Definition spec_zobj_op (c : zobj_op) m : gmap bytes spec_float * list zset_answer :=
  match c with ZOp c => ((spec_zset_op c m).1, [(spec_zset_op c m).2]) | ZShrink _ => (m, []) end.

(** Enough random numbers for a conversion; ranks are asked of non-empty sets. *)
Definition zobj_op_ok (c : zobj_op) m : Prop :=
  match c with
  | ZOp (OAdd rs s e _) => valid s ∧ zlen e < 2 ^ 31 ∧ (S (base.size m) ≤ levels rs)%nat
  | ZOp (ORank e _) => zlen e < 2 ^ 31 ∧ m ≠ ∅
  | ZOp (ODel e) | ZOp (OScore e) => zlen e < 2 ^ 31
  | ZOp OLength | ZShrink _ => True
  end.

Definition zobj_cost (c : zobj_op) : Z := match c with ZOp (OAdd _ _ e _) => zlen e + 58 | _ => 0 end.

Fixpoint run_zobj_ops (cs : list zobj_op) (st : heap * zobj L D) : option (heap * zobj L D * list zset_answer) :=
  match cs with
  | [] => Some (st, [])
  | c :: cs => '(st, a) ← run_zobj_op c st; '(st, l) ← run_zobj_ops cs st; Some (st, a ++ l)
  end.

Fixpoint spec_zobj_ops (cs : list zobj_op) m : gmap bytes spec_float * list zset_answer :=
  match cs with
  | [] => (m, [])
  | c :: cs => let '(m, a) := spec_zobj_op c m in let '(m, l) := spec_zobj_ops cs m in (m, a ++ l)
  end.

Fixpoint zobj_ops_ok (cs : list zobj_op) m : Prop :=
  match cs with [] => True | c :: cs => zobj_op_ok c m ∧ zobj_ops_ok cs (spec_zobj_op c m).1 end.

Fixpoint zobj_ops_cost (cs : list zobj_op) : Z := match cs with [] => 0 | c :: cs => zobj_cost c + zobj_ops_cost cs end.

Lemma cost_nonneg cs : 0 ≤ zobj_ops_cost cs.
Proof. induction cs as [|c cs IH]; [done|]. simpl. destruct c as [[]|]; simpl; zlen_pos; lia. Qed.

Lemma mweight_add m e s : mweight (<[e := s]> m) ≤ mweight m + zlen e + 58.
Proof.
  destruct (m !! e) as [s'|] eqn:E1; [|rewrite mweight_insert by done; lia].
  rewrite <-insert_delete_eq, mweight_insert by apply lookup_delete_eq. rewrite (mweight_delete m e s' E1). pose proof (zlen_nonneg e). lia.
Qed.

Lemma spec_weight c m : mweight (spec_zobj_op c m).1 ≤ mweight m + zobj_cost c.
Proof.
  destruct c as [[rs s e flags|e|e|e rv|]|n]; simpl; try lia.
  - pose proof (zlen_nonneg e). unfold spec_add. repeat case_match; simpl; try lia;
      match goal with |- mweight (<[_ := ?v]> _) ≤ _ => pose proof (mweight_add m e v) end; lia.
  - destruct (m !! e) as [s|] eqn:E1; [|rewrite delete_id by done; lia]. rewrite (mweight_delete m e s E1). pose proof (zlen_nonneg e). lia.
Qed.

Lemma zobj_op_refines c h o m :
  zobj_rep h o m → zobj_op_ok c m → 40 + mweight m + zobj_cost c < 2 ^ 32 →
  ∃ h' o', run_zobj_op c (h, o) = Some (h', o', (spec_zobj_op c m).2) ∧ zobj_rep h' o' (spec_zobj_op c m).1.
Proof.
  intros Ho Hc Hw. destruct c as [[rs s e flags|e|e|e rv|]|n]; cbn [run_zobj_op spec_zobj_op spec_zset_op zobj_op_ok zobj_cost fst snd] in *.
  - destruct Hc as (Hv & He & Hl). destruct (obj_add_ok h o m rs s e flags Ho Hv He ltac:(lia) Hl) as (h' & o' & rs' & -> & Ho'). eauto.
  - destruct (obj_del_ok h o m e Ho Hc ltac:(lia)) as (h' & o' & -> & Ho'). eauto.
  - destruct (obj_score_ok h o m e Ho) as (o' & -> & Ho'). eauto.
  - destruct Hc as [He Hne]. destruct (obj_rank_ok h o m e rv Ho He ltac:(lia) Hne) as (o' & -> & Ho'). eauto.
  - destruct (obj_length_ok h o m Ho ltac:(lia)) as (o' & -> & Ho' & _). eauto.
  - destruct (obj_shrink_ok h o m [] n Ho ltac:(lia)) as (h' & o' & -> & Ho'). eauto.
Qed.

Lemma zobj_ops_refine cs : ∀ h o m,
  zobj_rep h o m → zobj_ops_ok cs m → 40 + mweight m + zobj_ops_cost cs < 2 ^ 32 →
  ∃ h' o', run_zobj_ops cs (h, o) = Some (h', o', (spec_zobj_ops cs m).2) ∧ zobj_rep h' o' (spec_zobj_ops cs m).1.
Proof.
  induction cs as [|c cs IH]; intros h o m Ho Hok Hw; [by exists h, o|]. destruct Hok as [Hc Hok].
  cbn [run_zobj_ops spec_zobj_ops zobj_ops_cost] in *. pose proof (cost_nonneg cs). pose proof (spec_weight c m).
  destruct (zobj_op_refines c h o m Ho Hc ltac:(lia)) as (h1 & o1 & -> & Ho1). cbn [mbind option_bind].
  destruct (spec_zobj_op c m) as [m1 a]. cbn [fst snd] in *.
  destruct (IH h1 o1 m1 Ho1 Hok ltac:(lia)) as (h' & o' & -> & Ho'). cbn [mbind option_bind].
  exists h', o'. by destruct (spec_zobj_ops cs m1).
Qed.

(** A rank query of a new object fails the assertion that there is an element. *)
Theorem zsetRank_new_asserts h (mem : D) e rv :
  ∃ o, createZsetZiplistObject mem = Some o ∧ zsetRank h o e rv = None.
Proof.
  unfold createZsetZiplistObject. destruct packed_new_ok as (l & -> & Hl). cbn [mbind option_bind]. eexists. split; [done|].
  unfold zsetRank, zsetLength, zzlLength. destruct (packed_len_ok l [] Hl) as (l' & -> & Hl'). cbn [mbind option_bind].
  rewrite (index_none_entry l' 0 Hl'). done.
Qed.

(** C4: a new sorted set object answers any sequence of additions of scores that are
    numbers, deletions, score and length queries, rank queries while it is not empty,
    and conversions as a map from strings to scores ordered by score and string,
    whether it is a ziplist or a skip list and also across the conversions in both
    directions; a ziplist never has more elements than configured.  The strings take
    less than 2^32 bytes in all. *)
Theorem zobj_session_refines h (mem : D) (m0 : gmap bytes ptr) cs :
  table_rep mem m0 → zobj_ops_ok cs ∅ → 40 + zobj_ops_cost cs < 2 ^ 32 →
  ∃ o h' o', createZsetZiplistObject mem = Some o ∧
    run_zobj_ops cs (h, o) = Some (h', o', (spec_zobj_ops cs ∅).2) ∧ zobj_rep h' o' (spec_zobj_ops cs ∅).1.
Proof.
  intros Hm Hok Hw. unfold createZsetZiplistObject. destruct packed_new_ok as (l & -> & Hl). cbn [mbind option_bind].
  destruct (zobj_ops_refine cs h (OBJ_ENCODING_ZIPLIST l mem) ∅) as (h' & o' & Hrun & Ho'); [|done|done|by eexists _, h', o'].
  split; [by intros e s Hs; rewrite lookup_empty in Hs|]. split; [|split; [by exists m0|rewrite map_size_empty; lia]].
  exists []. split_and!; [|constructor|done]. split; [done|constructor|constructor].
Qed.
End ZsetObjSpec.

(** ** Witnesses: ziplist.c, dict.c and the C library of [Score] *)
#[local] Existing Instances demo_libc demo_libc_ok.
#[local] Existing Instances demo_zset_type_ok demo_zset_table.
#[local] Instance demo_zobj_alloc : Alloc := junk0.

Notation demo_mem := (Dict.store bytes ptr * Dict.dict bytes ptr)%type.
Definition demo_zmem : demo_mem := (Dict.Store ∅ [] [] true, Dict.dictCreate (zsetDictType demo_hash)).

Definition demo_zobj_ops : list zobj_op :=
  [ZOp (OAdd [65535] (dbl 3) (str "a") 0); ZOp (OAdd [65535; 65535] (S754_zero true) (str "b") 0); ZOp (ORank (str "a") false);
   ZOp (OAdd [65535; 65535; 1; 65535] (dbl 2) (str "17") 0); ZOp (OAdd [65535; 65535; 65535; 65535] (dbl 5) (str "b") ZADD_INCR);
   ZOp (ORank (str "b") true); ZOp (ODel (str "a")); ZShrink 2; ZOp (OScore (str "17")); ZOp (OScore (str "b")); ZOp OLength].

Lemma zobj_session_refines_witness :
  ∃ (o : zobj bytes demo_mem) h' (o' : zobj bytes demo_mem), createZsetZiplistObject demo_zmem = Some o ∧
    run_zobj_ops 2 64 demo_zobj_ops (∅, o) =
      Some (h', o', [AAdd (1, ZADD_ADDED, Some (dbl 3)); AAdd (1, ZADD_ADDED, Some (S754_zero true)); ARank 1;
                     AAdd (1, ZADD_ADDED, Some (dbl 2)); AAdd (1, ZADD_UPDATED, Some (dbl 5)); ARank 0; ADel 1;
                     AScore (Some (dbl 2)); AScore (Some (dbl 5)); ALength 2]) ∧
    zobj_rep 2 h' o' (spec_zobj_ops demo_zobj_ops ∅).1.
Proof.
  destruct (zobj_session_refines 2 64 ∅ demo_zmem ∅ demo_zobj_ops) as (o & h' & o' & H1 & H2 & H3).
  - split; [apply DictRefine.create_ok|reflexivity].
  - cbn [zobj_ops_ok demo_zobj_ops zobj_op_ok]. split_and!; try done; try (by vm_compute).
  - by vm_compute.
  - exists o, h', o'. split; [exact H1|]. split; [|exact H3]. rewrite H2.
    replace (spec_zobj_ops demo_zobj_ops ∅).2 with
      [AAdd (1, ZADD_ADDED, Some (dbl 3)); AAdd (1, ZADD_ADDED, Some (S754_zero true)); ARank 1;
       AAdd (1, ZADD_ADDED, Some (dbl 2)); AAdd (1, ZADD_UPDATED, Some (dbl 5)); ARank 0; ADel 1;
       AScore (Some (dbl 2)); AScore (Some (dbl 5)); ALength 2] by (vm_compute; reflexivity). reflexivity.
Defined.
