(* ===== verification/Lzf.v ===== *)
(** * lzf_c.c and lzf_d.c: the LZF compressor

    The operations of lzf_c.c and lzf_d.c with the configuration of lzfP.h on a
    64 bit host: [VERY_FAST], [HLOG] 16, hash slots that hold 32 bit offsets
    from the start of the input, [CHECK_INPUT], no alignment needed.  The hash
    table of the compressor is an uninitialised array on the stack: its contents
    are an argument.  Input and output are blocks of bytes and every access is
    checked, those of the hash table too.  The theorems are in [LzfSpec]. *)

From S2P Require Import Prelude Mem.

(** ** lzfP.h and the macros of lzf_c.c *)
Definition HLOG : Z := 16.
Definition HSIZE : Z := Z.shiftl 1 HLOG.
Definition MAX_LIT : Z := Z.shiftl 1 5.
Definition MAX_OFF : Z := Z.shiftl 1 13.
Definition MAX_REF : Z := Z.shiftl 1 8 + Z.shiftl 1 3.

(** [LZF_STATE]: the slots by index. *)
Definition LZF_STATE : Type := Z → Z.

Definition FRST (data : bytes) (p : Z) : option Z :=
  a ← load1 data p; b ← load1 data (p + 1);
  Some (Z.lor (Z.shiftl a 8) b).

Definition NEXT (v : Z) (data : bytes) (p : Z) : option Z :=
  c ← load1 data (p + 2);
  Some (Z.lor (uwrap 32 (Z.shiftl v 8)) c).

Definition IDX (h : Z) : Z :=
  Z.land (uwrap 32 (Z.shiftr h (3 * 8 - HLOG) - uwrap 32 (h * 5))) (HSIZE - 1).

(** [*hslot] and [*hslot = v] for [hslot = htab + i]. *)
Definition htab_get (htab : LZF_STATE) (i : Z) : option Z :=
  if (0 <=? i) && (i <? HSIZE) then Some (uwrap 32 (htab i)) else None.

Definition htab_set (htab : LZF_STATE) (i v : Z) : option LZF_STATE :=
  if (0 <=? i) && (i <? HSIZE)
  then Some (λ j, if j =? i then uwrap 32 v else htab j) else None.

(** A store of one [u8]. *)
Definition store8 (m : bytes) (i v : Z) : option bytes := store m i [uwrap 8 v].

(** ** lzf_compress

    [ip], [op], the pending literal run, the rolling hash, its table and the
    output.  Pointers are offsets from [in_data] and [out_data]. *)
Record cstate := CState {
  c_ip : Z; c_op : Z; c_lit : Z; c_hval : Z; c_htab : LZF_STATE; c_out : bytes }.

(** The test for a match at [ref]. *)
Definition match_found (data : bytes) (ref ip off : Z) : option bool :=
  if (off <? MAX_OFF) && (ref >? 0) then
    a ← load1 data (ref + 2); b ← load1 data (ip + 2);
    if a =? b then
      x ← load data ref 2; y ← load data ip 2;
      Some (bool_decide (x = y))
    else Some false
  else Some false.

(** The unrolled part of the matching loop: [n] steps, [true] when one of them
    left with [break]. *)
Fixpoint match_unrolled (n : nat) (data : bytes) (ref ip len : Z) : option (Z * bool) :=
  match n with
  | O => Some (len, false)
  | S n =>
      let len := uwrap 32 (len + 1) in
      a ← load1 data (ref + len); b ← load1 data (ip + len);
      if a =? b then match_unrolled n data ref ip len else Some (len, true)
  end.

(** [do len++; while (len < maxlen && ref[len] == ip[len]);] *)
Definition match_rest_body (data : bytes) (ref ip maxlen len : Z) : option (Z + Z) :=
  let len := uwrap 32 (len + 1) in
  if len <? maxlen then
    a ← load1 data (ref + len); b ← load1 data (ip + len);
    Some (if a =? b then inl len else inr len)
  else Some (inr len).

Definition match_rest (data : bytes) (ref ip maxlen len : Z) : option Z :=
  loop (S (Z.to_nat MAX_REF)) (match_rest_body data ref ip maxlen) len.

(** The whole [for (;;)] loop from [len = 2]. *)
Definition match_len (data : bytes) (ref ip maxlen : Z) : option Z :=
  if maxlen >? 16 then
    '(len, stop) ← match_unrolled 16 data ref ip 2;
    if stop : bool then Some len else match_rest data ref ip maxlen len
  else match_rest data ref ip maxlen 2.

(** [op [- lit - 1] = lit - 1] *)
Definition stop_run (out : bytes) (op lit : Z) : option bytes :=
  store8 out (op - lit - 1) (lit - 1).

(** [!lit] *)
Definition neg (lit : Z) : Z := if lit =? 0 then 1 else 0.

(** The code of a back reference: [off] and [len], the number of octets less
    two. *)
Definition put_ref (out : bytes) (op off len : Z) : option (bytes * Z) :=
  '(out, op) ←
    (if len <? 7 then
       out ← store8 out op (Z.shiftr off 8 + Z.shiftl len 5); Some (out, op + 1)
     else
       out ← store8 out op (Z.shiftr off 8 + Z.shiftl 7 5);
       out ← store8 out (op + 1) (len - 7); Some (out, op + 2));
  out ← store8 out op off;
  Some (out, op + 1).

(** [lit++; *op++ = *ip++;] and the end of a run of [MAX_LIT]. *)
Definition put_lit (data : bytes) (s : cstate) : option cstate :=
  let lit := c_lit s + 1 in
  b ← load1 data (c_ip s);
  out ← store8 (c_out s) (c_op s) b;
  let op := c_op s + 1 in let ip := c_ip s + 1 in
  if lit =? MAX_LIT then
    out ← stop_run out op lit;
    Some (CState ip (op + 1) 0 (c_hval s) (c_htab s) out)
  else Some (CState ip op lit (c_hval s) (c_htab s) out).

(** Where the main loop goes: around, out of the loop, or out of the
    function with 0. *)
Inductive exit := Leave (s : cstate) | Return0 (out : bytes).

(** The branch of a match. *)
Definition compress_match (data : bytes) (in_end out_end : Z) (ref off : Z) (s : cstate)
    : option (cstate + exit) :=
  let '(CState ip op lit hval htab out) := s in
  let maxlen := uwrap 32 (in_end - ip - 2) in
  let maxlen := if maxlen >? MAX_REF then MAX_REF else maxlen in
  if (op + 3 + 1 >=? out_end) && (op - neg lit + 3 + 1 >=? out_end)
  then Some (inr (Return0 out)) else
  out ← stop_run out op lit;
  let op := op - neg lit in
  len ← match_len data ref ip maxlen;
  let len := uwrap 32 (len - 2) in
  let ip := ip + 1 in
  '(out, op) ← put_ref out op off len;
  let op := op + 1 in
  let ip := ip + len + 1 in
  if ip >=? in_end - 2 then Some (inr (Leave (CState ip op 0 hval htab out))) else
  let ip := ip - 2 in
  hval ← FRST data ip;
  hval ← NEXT hval data ip;
  htab ← htab_set htab (IDX hval) ip;
  let ip := ip + 1 in
  hval ← NEXT hval data ip;
  htab ← htab_set htab (IDX hval) ip;
  let ip := ip + 1 in
  Some (inl (CState ip op 0 hval htab out)).

Definition compress_body (data : bytes) (in_end out_end : Z) (s : cstate)
    : option (cstate + exit) :=
  let ip := c_ip s in
  if ip <? in_end - 2 then
    hval ← NEXT (c_hval s) data ip;
    ref ← htab_get (c_htab s) (IDX hval);
    htab ← htab_set (c_htab s) (IDX hval) ip;
    let off := uwrap 64 (ip - ref - 1) in
    found ← match_found data ref ip off;
    let s := CState ip (c_op s) (c_lit s) hval htab (c_out s) in
    if found : bool then compress_match data in_end out_end ref off s
    else if c_op s >=? out_end then Some (inr (Return0 (c_out s)))
    else s ← put_lit data s; Some (inl s)
  else Some (inr (Leave s)).

(** The last [while] loop. *)
Definition flush_body (data : bytes) (in_end : Z) (s : cstate) : option (cstate + cstate) :=
  if c_ip s <? in_end then s ← put_lit data s; Some (inl s) else Some (inr s).

(** What the function returns, with the output block as it leaves it. *)
Definition lzf_compress (htab : LZF_STATE) (data : bytes) (out : bytes) : option (Z * bytes) :=
  let in_len := zlen data in let out_len := zlen out in
  if (in_len =? 0) || (out_len =? 0) then Some (0, out) else
  hval ← FRST data 0;
  e ← loop (S (length data)) (compress_body data in_len out_len) (CState 0 1 0 hval htab out);
  match e with
  | Return0 out => Some (0, out)
  | Leave s =>
      if c_op s + 3 >? out_len then Some (0, c_out s) else
      s ← loop (S (length data)) (flush_body data in_len) s;
      out ← stop_run (c_out s) (c_op s) (c_lit s);
      Some (c_op s - neg (c_lit s), out)
  end.

(** ** lzf_decompress *)
Inductive errno := E2BIG | EINVAL.

(** [*op++ = *ref++], [n] times. *)
Fixpoint copy_octets (n : nat) (out : bytes) (op ref : Z) : option bytes :=
  match n with
  | O => Some out
  | S n => b ← load1 out ref; out ← store8 out op b; copy_octets n out (op + 1) (ref + 1)
  end.

(** The [switch] of a literal run: falls through from [n] to 1. *)
Fixpoint copy_literal (n : nat) (data out : bytes) (ip op : Z) : option bytes :=
  match n with
  | O => Some out
  | S n => b ← load1 data ip; out ← store8 out op b; copy_literal n data out (ip + 1) (op + 1)
  end.

Record dstate := DState { d_ip : Z; d_op : Z; d_out : bytes }.

(** A literal run of [ctrl + 1] octets. *)
Definition decompress_lit (data : bytes) (in_end out_end ctrl : Z) (s : dstate)
    : option (dstate + errno) :=
  let '(DState ip op out) := s in
  let ctrl := uwrap 32 (ctrl + 1) in
  if op + ctrl >? out_end then Some (inr E2BIG) else
  if ip + ctrl >? in_end then Some (inr EINVAL) else
  out ← copy_literal (Z.to_nat ctrl) data out ip op;
  Some (inl (DState (ip + ctrl) (op + ctrl) out)).

(** The second [switch]: copy [len + 2] octets from [ref]. *)
Definition copy_ref (out : bytes) (op ref len : Z) : option (bytes * Z) :=
  if len <=? 9 then
    out ← copy_octets (Z.to_nat (len + 2)) out op ref; Some (out, op + (len + 2))
  else
    let len := uwrap 32 (len + 2) in
    if op >=? ref + len then
      b ← load out ref len; out ← store out op b; Some (out, op + len)
    else
      out ← copy_octets (Z.to_nat len) out op ref; Some (out, op + len).

Definition decompress_ref (data : bytes) (in_end out_end ctrl : Z) (s : dstate)
    : option (dstate + errno) :=
  let '(DState ip op out) := s in
  let len := Z.shiftr ctrl 5 in
  let ref := op - Z.shiftl (Z.land ctrl 31) 8 - 1 in
  if ip >=? in_end then Some (inr EINVAL) else
  '(len, ip, bad) ←
    (if len =? 7 then
       b ← load1 data ip;
       Some (uwrap 32 (len + b), ip + 1, ip + 1 >=? in_end)
     else Some (len, ip, false));
  if bad : bool then Some (inr EINVAL) else
  b ← load1 data ip;
  let ref := ref - b in
  let ip := ip + 1 in
  if op + len + 2 >? out_end then Some (inr E2BIG) else
  if ref <? 0 then Some (inr EINVAL) else
  '(out, op) ← copy_ref out op ref len;
  Some (inl (DState ip op out)).

(** One round of [do ... while (ip < in_end)]; an error leaves with the output
    as it is. *)
Definition decompress_body (data : bytes) (in_end out_end : Z) (s : dstate)
    : option (dstate + (dstate + errno * bytes)) :=
  ctrl ← load1 data (d_ip s);
  let s := DState (d_ip s + 1) (d_op s) (d_out s) in
  r ← (if ctrl <? Z.shiftl 1 5 then decompress_lit data in_end out_end ctrl s
       else decompress_ref data in_end out_end ctrl s);
  Some match r with
       | inr e => inr (inr (e, d_out s))
       | inl s => if d_ip s <? in_end then inl s else inr (inl s)
       end.

(** The result, [errno] when it is set, and the output block. *)
Definition lzf_decompress (data out : bytes) : option (Z * option errno * bytes) :=
  r ← loop (S (length data)) (decompress_body data (zlen data) (zlen out)) (DState 0 0 out);
  Some match r with
       | inl s => (d_op s, None, d_out s)
       | inr (e, out) => (0, Some e, out)
       end.
