(* ===== verification/LzfSpec.v ===== *)
(** * Correctness of lzf_compress and lzf_decompress

    The compressed format is given a meaning of its own: a stream is a list of
    tokens (a run of literals, or a copy of bytes already produced), [encode]
    is its text and [expand] what it stands for.  The decompressor is shown to
    compute [expand], the compressor to write the encoding of tokens that expand
    to its input, and the round trip follows. *)

From S2P Require Import Prelude Mem Lzf.

(** ** The format *)
Inductive token :=
  | Lit (run : bytes)
  | Ref (off len : Z).

(** [off] and [len] as in the code: the distance less one, and the number of
    octets. *)
Definition token_ok (t : token) : Prop :=
  match t with
  | Lit run => 1 ≤ zlen run ≤ MAX_LIT ∧ wf_bytes run
  | Ref off len => 0 ≤ off < MAX_OFF ∧ 3 ≤ len ≤ MAX_REF
  end.

Definition encode1 (t : token) : bytes :=
  match t with
  | Lit run => (zlen run - 1) :: run
  | Ref off len =>
      if len - 2 <? 7 then [off / 256 + 32 * (len - 2); off mod 256]
      else [off / 256 + 224; len - 9; off mod 256]
  end.

Definition encode (ts : list token) : bytes := concat (map encode1 ts).

(** Copying may read what it has just written. *)
Fixpoint copy (n : nat) (off : Z) (h : bytes) : option bytes :=
  match n with
  | O => Some h
  | S n => b ← load1 h (zlen h - off - 1); copy n off (h ++ [b])
  end.

Definition expand1 (h : bytes) (t : token) : option bytes :=
  match t with
  | Lit run => Some (h ++ run)
  | Ref off len => copy (Z.to_nat len) off h
  end.

Fixpoint expand (ts : list token) (h : bytes) : option bytes :=
  match ts with
  | [] => Some h
  | t :: ts => h ← expand1 h t; expand ts h
  end.

Lemma expand_app ts us h : expand (ts ++ us) h = expand ts h ≫= expand us.
Proof.
  revert h. induction ts as [|t ts IH]; intros h; simpl; [done|].
  destruct (expand1 h t); simpl; auto.
Qed.

Lemma encode_app ts us : encode (ts ++ us) = encode ts ++ encode us.
Proof. unfold encode. by rewrite map_app, concat_app. Qed.

Lemma encode_cons t ts : encode (t :: ts) = encode1 t ++ encode ts.
Proof. done. Qed.

Lemma encode1_pos t : 1 ≤ zlen (encode1 t).
Proof. destruct t; simpl; [zl|]. destruct (_ <? _); zl. Qed.

(** ** Bytes of a block *)
Lemma load1_ok (m : bytes) i : 0 ≤ i < zlen m → ∃ b, load1 m i = Some b.
Proof.
  intros Hi. destruct (list_split_elem m i Hi) as (a & x & c & -> & Ha).
  exists x. by apply (load1_at _ a c).
Qed.

Lemma load1_lookup (m : bytes) i b : load1 m i = Some b ↔ 0 ≤ i ∧ m !! Z.to_nat i = Some b.
Proof.
  destruct (decide (0 ≤ i < zlen m)) as [Hi|Hi].
  - destruct (list_split_elem m i Hi) as (a & x & c & -> & Ha).
    rewrite (load1_at _ a c x i) by done.
    rewrite (lookup_mid a c x) by (unfold zlen in Ha; lia). naive_solver lia.
  - split.
    + change (load1 m i) with (load m i 1 ≫= head). intros H. destruct (load m i 1) as [l|] eqn:E; [|done].
      apply load_inv in E as (a & c & -> & Ha & Hl). zl.
    + intros [H0 Hl]. apply lookup_lt_Some in Hl. unfold zlen in Hi. lia.
Qed.

Lemma wf_load1 (m : bytes) i b : wf_bytes m → load1 m i = Some b → is_byte b.
Proof.
  intros Hm [_ Hl]%load1_lookup. eapply (Forall_lookup_1 is_byte m); eauto.
Qed.

Lemma wf_snoc (m : bytes) b : wf_bytes m → is_byte b → wf_bytes (m ++ [b]).
Proof. intros. apply wf_bytes_app. split; [done|]. by apply Forall_singleton. Qed.

Lemma store8_at (a c : bytes) x i v :
  i = zlen a → store8 (a ++ x :: c) i v = Some (a ++ uwrap 8 v :: c).
Proof. intros ->. apply (store_at _ a [x] [uwrap 8 v] c); done. Qed.

Lemma uwrap8_byte b : is_byte b → uwrap 8 b = b.
Proof. intros. by apply uwrap_id. Qed.

(** ** The decompressor *)
Lemma copy_length n off h h' : copy n off h = Some h' → zlen h' = zlen h + Z.of_nat n.
Proof.
  revert h. induction n as [|n IH]; intros h; simpl; intros H; [simplify_eq; lia|].
  destruct (load1 _ _); simpl in H; [|done]. apply IH in H. zl.
Qed.

Lemma copy_wf n off h h' : wf_bytes h → copy n off h = Some h' → wf_bytes h'.
Proof.
  revert h. induction n as [|n IH]; intros h Hh; simpl; intros H; [by simplify_eq|].
  destruct (load1 _ _) as [b|] eqn:Eb; simpl in H; [|done].
  apply IH in H; [done|]. apply wf_snoc; [done|]. by eapply wf_load1.
Qed.

Lemma copy_total n off h : 0 ≤ off < zlen h → ∃ h', copy n off h = Some h'.
Proof.
  revert h. induction n as [|n IH]; intros h Hoff; simpl; [eauto|].
  destruct (load1_ok h (zlen h - off - 1)) as [b ->]; [lia|]. simpl.
  apply IH. zl.
Qed.

(** A copy that does not overlap is one [memcpy]. *)
Lemma copy_disjoint n off a b c :
  zlen (b ++ c) = off + 1 → Z.of_nat n = zlen b →
  copy n off (a ++ b ++ c) = Some (a ++ b ++ c ++ b).
Proof.
  intros Hoff Hn. assert (∀ d e, b = d ++ e →
    copy (length e) off (a ++ b ++ c ++ d) = Some (a ++ b ++ c ++ b)) as H.
  { intros d e. revert d. induction e as [|x e IH]; intros d Hb; simpl.
    - rewrite Hb, app_nil_r. done.
    - rewrite (load1_at _ (a ++ d) (e ++ c ++ d) x).
      + simpl. rewrite <-!app_assoc. apply IH. by rewrite Hb, <-app_assoc.
      + rewrite Hb. by rewrite <-!app_assoc.
      + subst b. zl. }
  specialize (H [] b eq_refl). rewrite app_nil_r in H.
  by replace n with (length b) by (unfold zlen in Hn; lia).
Qed.

(** [copy_octets] is [copy], in place. *)
Lemma copy_octets_ok n off h h' w rest :
  wf_bytes h → copy n off h = Some h' → zlen w = Z.of_nat n →
  copy_octets n (h ++ w ++ rest) (zlen h) (zlen h - off - 1) = Some (h' ++ rest).
Proof.
  revert h w. induction n as [|n IH]; intros h w Hh Hc Hw; cbn [copy copy_octets] in *.
  - simplify_eq. by rewrite (zlen_0_nil w) by lia.
  - destruct w as [|x w]; [zl|].
    destruct (load1 h _) as [b|] eqn:Eb; cbn [mbind option_bind] in Hc; [|done].
    assert (load1 (h ++ (x :: w) ++ rest) (zlen h - off - 1) = Some b) as ->.
    { apply load1_lookup in Eb as [H0 Hl]. apply load1_lookup. split; [done|].
      by apply lookup_app_l_Some. }
    assert (is_byte b) by (by eapply wf_load1).
    cbn [mbind option_bind app]. rewrite store8_at by done. cbn [mbind option_bind].
    rewrite uwrap8_byte by done.
    replace (h ++ b :: w ++ rest) with ((h ++ [b]) ++ w ++ rest) by (by rewrite <-app_assoc).
    rewrite <-(IH (h ++ [b]) w); [f_equal; zl| |done|zl].
    by apply wf_snoc.
Qed.

Lemma copy_ref_ok off len h h' w rest :
  wf_bytes h → 0 ≤ off < zlen h → 1 ≤ len ≤ 262 → copy (Z.to_nat (len + 2)) off h = Some h' →
  zlen w = len + 2 →
  copy_ref (h ++ w ++ rest) (zlen h) (zlen h - off - 1) len = Some (h' ++ rest, zlen h').
Proof.
  intros Hh Hoff Hlen Hc Hw. pose proof (copy_length _ _ _ _ Hc) as Hl.
  unfold copy_ref. rewrite (uwrap_id 32 (len + 2)) by (unfold in_u; lia). zbool.
  { rewrite (copy_octets_ok _ off h h') by (done || lia). cbn [mbind option_bind].
    do 2 f_equal. lia. }
  2:{ rewrite (copy_octets_ok _ off h h') by (done || lia). cbn [mbind option_bind].
      do 2 f_equal. lia. }
  destruct (list_split3 h (zlen h - off - 1) (len + 2)) as (a & b & c & Hm & Ha & Hb & Hcz); [lia..|].
  rewrite Hm in Hc at 1. rewrite copy_disjoint in Hc by zl. simplify_eq.
  rewrite (load_at _ a b (c ++ w ++ rest)) by (by rewrite <-?app_assoc || lia).
  cbn [mbind option_bind].
  rewrite (store_at _ (a ++ b ++ c) w b rest) by (done || lia). cbn [mbind option_bind].
  rewrite <-!app_assoc. do 2 f_equal. zl.
Qed.

Lemma copy_literal_ok run data pre post h w rest :
  wf_bytes run → data = pre ++ run ++ post → zlen w = zlen run →
  copy_literal (length run) data (h ++ w ++ rest) (zlen pre) (zlen h) = Some (h ++ run ++ rest).
Proof.
  intros Hr. revert pre h w. induction Hr as [|x run Hx Hr IH]; intros pre h w Hd Hw; simpl.
  - by rewrite (zlen_0_nil w) by zl.
  - destruct w as [|y w]; [zl|]. rewrite (load1_at data pre (run ++ post) x) by done.
    cbn [mbind option_bind app]. rewrite store8_at by done. cbn [mbind option_bind].
    rewrite uwrap8_byte by done.
    replace (h ++ x :: w ++ rest) with ((h ++ [x]) ++ w ++ rest) by (by rewrite <-app_assoc).
    replace (h ++ x :: run ++ rest) with ((h ++ [x]) ++ run ++ rest) by (by rewrite <-app_assoc).
    rewrite <-(IH (pre ++ [x]) (h ++ [x]) w); [f_equal; zl| |zl].
    by rewrite Hd, <-app_assoc.
Qed.

(** The control octet of a back reference. *)
Lemma ctrl_len q n : 0 ≤ q < 32 → 0 ≤ n → Z.shiftr (q + 32 * n) 5 = n.
Proof.
  intros. rewrite Z.shiftr_div_pow2 by lia. change (2 ^ 5) with 32.
  rewrite Z.mul_comm, Z.div_add, Z.div_small by lia. lia.
Qed.

Lemma ctrl_off q n : 0 ≤ q < 32 → Z.shiftl (Z.land (q + 32 * n) 31) 8 = 256 * q.
Proof.
  intros. change 31 with (Z.ones 5). rewrite Z.land_ones, Z.shiftl_mul_pow2 by lia.
  change (2 ^ 5) with 32. rewrite (Z.mul_comm 32), Z.mod_add, Z.mod_small by lia. lia.
Qed.

Lemma copy_reach n off h h' : (0 < n)%nat → 0 ≤ off → copy n off h = Some h' → 0 ≤ off < zlen h.
Proof.
  intros Hn Hoff. destruct n as [|n]; [lia|]. simpl. intros H.
  destruct (load1 h _) as [b|] eqn:E; simpl in H; [|done].
  apply load1_lookup in E as [? _]. lia.
Qed.

Lemma decompress_lit_ok run data pre post h w rest :
  wf_bytes run → 1 ≤ zlen run ≤ MAX_LIT → data = pre ++ run ++ post → zlen w = zlen run →
  decompress_lit data (zlen data) (zlen (h ++ w ++ rest)) (zlen run - 1)
    (DState (zlen pre) (zlen h) (h ++ w ++ rest)) =
  Some (inl (DState (zlen pre + zlen run) (zlen (h ++ run)) ((h ++ run) ++ rest))).
Proof.
  intros Hr Hlen Hd Hw. change MAX_LIT with 32 in Hlen. unfold decompress_lit.
  rewrite uwrap_id by (unfold in_u; lia). rewrite Z.sub_add.
  destruct (Z.gtb_spec (zlen h + zlen run) (zlen (h ++ w ++ rest))); [zl|].
  destruct (Z.gtb_spec (zlen pre + zlen run) (zlen data)); [subst; zl|].
  change (Z.to_nat (zlen run)) with (Z.to_nat (Z.of_nat (length run))).
  rewrite Nat2Z.id, (copy_literal_ok run data pre post) by done.
  cbn [mbind option_bind]. by rewrite <-app_assoc, zlen_app.
Qed.

(** What the octets after the control octet say. *)
Lemma decompress_ref_ok off len data pre code post h h' w rest :
  token_ok (Ref off len) → wf_bytes h → copy (Z.to_nat len) off h = Some h' →
  zlen w = len → encode1 (Ref off len) = hd 0 (encode1 (Ref off len)) :: code →
  data = pre ++ code ++ post →
  decompress_ref data (zlen data) (zlen (h ++ w ++ rest)) (hd 0 (encode1 (Ref off len)))
    (DState (zlen pre) (zlen h) (h ++ w ++ rest)) =
  Some (inl (DState (zlen pre + zlen code) (zlen h') (h' ++ rest))).
Proof.
  intros [Hoff Hlen] Hh Hc Hw He Hd. change MAX_OFF with 8192 in Hoff. change MAX_REF with 264 in Hlen.
  assert (0 ≤ off < zlen h) as Hr by (eapply (copy_reach (Z.to_nat len)); [lia..|done]).
  assert (0 ≤ off / 256 < 32) as Hq by (split; [apply Z.div_pos; lia|apply Z.div_lt_upper_bound; lia]).
  pose proof (Z.div_mod off 256 ltac:(lia)) as Hdm.
  pose proof (copy_ref_ok off (len - 2) h h' w rest) as Hcr.
  rewrite Z.sub_add in Hcr. specialize (Hcr Hh Hr ltac:(lia) Hc ltac:(lia)).
  unfold decompress_ref. simpl encode1 in *.
  destruct (Z.ltb_spec (len - 2) 7); cbn [hd] in *; injection He as <-.
  - rewrite ctrl_len, ctrl_off by lia.
    destruct (Z.geb_spec (zlen pre) (zlen data)); [subst; zl|].
    destruct (Z.eqb_spec (len - 2) 7); [lia|]. cbn [mbind option_bind].
    rewrite (load1_at data pre post (off mod 256)) by done. cbn [mbind option_bind].
    destruct (Z.gtb_spec (zlen h + (len - 2) + 2) (zlen (h ++ w ++ rest))); [zl|].
    replace (zlen h - 256 * (off / 256) - 1 - off mod 256) with (zlen h - off - 1) by lia.
    destruct (Z.ltb_spec (zlen h - off - 1) 0); [lia|]. by rewrite Hcr.
  - change 224 with (32 * 7). rewrite ctrl_len, ctrl_off by lia.
    destruct (Z.geb_spec (zlen pre) (zlen data)); [subst; zl|].
    destruct (Z.eqb_spec 7 7); [|done].
    rewrite (load1_at data pre ((off mod 256) :: post) (len - 9)) by done. cbn [mbind option_bind].
    destruct (Z.geb_spec (zlen pre + 1) (zlen data)); [subst; zl|].
    rewrite (load1_at data (pre ++ [len - 9]) post (off mod 256)) by (subst; by rewrite <-?app_assoc || zl).
    cbn [mbind option_bind]. rewrite uwrap_id by (unfold in_u; lia).
    replace (7 + (len - 9)) with (len - 2) by lia.
    destruct (Z.gtb_spec (zlen h + (len - 2) + 2) (zlen (h ++ w ++ rest))); [zl|].
    replace (zlen h - 256 * (off / 256) - 1 - off mod 256) with (zlen h - off - 1) by lia.
    destruct (Z.ltb_spec (zlen h - off - 1) 0); [lia|]. rewrite Hcr. cbn [mbind option_bind].
    do 3 f_equal. zl.
Qed.

(** One round of the loop reads one token. *)
Definition after (data : bytes) (s : dstate) : dstate + (dstate + errno * bytes) :=
  if d_ip s <? zlen data then inl s else inr (inl s).

Definition dst (pre h out : bytes) : dstate :=
  DState (zlen pre) (zlen h) (h ++ drop (length h) out).

Lemma expand1_grows t h h' :
  token_ok t → expand1 h t = Some h' → ∃ w : bytes, zlen w = zlen h' - zlen h ∧ 1 ≤ zlen w ∧
  match t with Lit run => zlen w = zlen run | Ref _ len => zlen w = len end.
Proof.
  intros Ht He. exists (replicate (Z.to_nat (zlen h' - zlen h)) 0).
  destruct t as [run|off len]; simpl in *; [simplify_eq; zl|].
  change MAX_REF with 264 in Ht. apply copy_length in He. zl.
Qed.

Lemma drop_split (out h : bytes) n :
  0 ≤ n → zlen h + n ≤ zlen out →
  ∃ w : bytes, zlen w = n ∧ drop (length h) out = w ++ drop (length h + Z.to_nat n) out.
Proof.
  intros Hn Hl. exists (take (Z.to_nat n) (drop (length h) out)). split.
  - unfold zlen in *. rewrite length_take, length_drop. lia.
  - rewrite <-drop_drop. by rewrite take_drop.
Qed.

Lemma body_token t data pre post h h' out :
  token_ok t → data = pre ++ encode1 t ++ post → wf_bytes h → expand1 h t = Some h' →
  zlen h' ≤ zlen out →
  decompress_body data (zlen data) (zlen out) (dst pre h out) =
  Some (after data (dst (pre ++ encode1 t) h' out)).
Proof.
  intros Ht Hd Hh He Hl. destruct (expand1_grows t h h' Ht He) as (w0 & Hw0 & H1 & Hw0').
  destruct (drop_split out h (zlen w0)) as (w & Hw & Hout); [lia..|].
  replace (length h + Z.to_nat (zlen w0))%nat with (length h') in Hout by (unfold zlen in *; lia).
  assert (zlen out = zlen (h ++ w ++ drop (length h') out)) as Hzo.
  { rewrite !zlen_app, Hw. unfold zlen in *. rewrite length_drop. lia. }
  unfold decompress_body, dst. cbn [d_ip d_op d_out]. rewrite Hout, Hzo.
  destruct t as [run|off len]; cbn [expand1] in He.
  - destruct Ht as [Hrun Hwr]. change MAX_LIT with 32 in Hrun. simplify_eq. cbn [encode1].
    rewrite (load1_at _ pre (run ++ post) (zlen run - 1)) by done. cbn [mbind option_bind].
    change (Z.shiftl 1 5) with 32. destruct (Z.ltb_spec (zlen run - 1) 32); [|lia].
    replace (zlen pre + 1) with (zlen (pre ++ [zlen run - 1])) by zl.
    rewrite (decompress_lit_ok run _ (pre ++ [zlen run - 1]) post)
      by (done || by rewrite <-app_assoc || lia).
    cbn [mbind option_bind]. unfold after. cbn [d_ip].
    by replace (zlen (pre ++ [zlen run - 1]) + zlen run) with (zlen (pre ++ (zlen run - 1) :: run)) by zl.
  - destruct (encode1 (Ref off len)) as [|c code] eqn:Ec; [simpl in Ec; by destruct (_ <? 7)|].
    rewrite (load1_at data pre (code ++ post) c) by (by rewrite ?Hd, ?Ec). cbn [mbind option_bind].
    assert (c = hd 0 (encode1 (Ref off len))) as Hc by (by rewrite Ec).
    change (Z.shiftl 1 5) with 32. destruct (Z.ltb_spec c 32) as [Hlt|_].
    { exfalso. simpl in Ec. destruct Ht as [Ho Hn].
      assert (0 ≤ off / 256) by (apply Z.div_pos; lia). destruct (_ <? 7); simplify_eq; lia. }
    replace (zlen pre + 1) with (zlen (pre ++ [c])) by zl.
    pose proof (decompress_ref_ok off len data (pre ++ [c]) code post h h' w) as Hstep.
    rewrite <-Hc in Hstep. rewrite Hstep by (done || lia || (by rewrite Hd, ?Ec, <-app_assoc)).
    cbn [mbind option_bind]. unfold after. cbn [d_ip].
    by replace (zlen (pre ++ [c]) + zlen code) with (zlen (pre ++ c :: code)) by zl.
Qed.

Lemma expand1_wf t h h' : token_ok t → wf_bytes h → expand1 h t = Some h' → wf_bytes h'.
Proof.
  destruct t; simpl; intros Ht Hh He; [|by eapply copy_wf].
  simplify_eq. apply wf_bytes_app. naive_solver.
Qed.

Lemma expand_mono ts h s : Forall token_ok ts → expand ts h = Some s → zlen h ≤ zlen s.
Proof.
  intros Hts. revert h. induction Hts as [|t ts Ht _ IH]; intros h; simpl; intros He.
  - by simplify_eq.
  - destruct (expand1 h t) as [h'|] eqn:E; simpl in He; [|done].
    destruct (expand1_grows t h h' Ht E) as (w & ? & ? & _). apply IH in He. lia.
Qed.

Lemma decompress_run ts data out fuel pre h s :
  ts ≠ [] → Forall token_ok ts → data = pre ++ encode ts → wf_bytes h →
  expand ts h = Some s → zlen s ≤ zlen out → (length ts ≤ fuel)%nat →
  loop fuel (decompress_body data (zlen data) (zlen out)) (dst pre h out) =
  Some (inl (dst data s out)).
Proof.
  revert fuel pre h. induction ts as [|t ts IH]; intros fuel pre h Hne Hts Hd Hh He Hl Hf; [done|].
  apply Forall_cons in Hts as [Ht Hts]. cbn [expand] in He.
  destruct (expand1 h t) as [h'|] eqn:E; simpl in He; [|done].
  pose proof (expand_mono ts h' s Hts He). destruct fuel as [|fuel]; [simpl in Hf; lia|].
  rewrite encode_cons in Hd.
  rewrite loop_S, (body_token t data pre (encode ts) h h') by (done || lia).
  cbn [mbind option_bind]. unfold after, dst at 1. cbn [d_ip].
  destruct ts as [|u ts].
  - simpl in He, Hd. simplify_eq. rewrite app_nil_r. rewrite Z.ltb_irrefl. done.
  - assert (0 < zlen (encode (u :: ts))) as Hp.
    { rewrite encode_cons. pose proof (encode1_pos u). zl. }
    destruct (Z.ltb_spec (zlen (pre ++ encode1 t)) (zlen data)); [|subst data; zl].
    apply IH; try done; [by rewrite Hd, <-app_assoc|by eapply expand1_wf|simpl in *; lia].
Qed.

Lemma length_encode ts : (length ts ≤ length (encode ts))%nat.
Proof.
  induction ts as [|t ts IH]; [done|]. rewrite encode_cons, length_app.
  pose proof (encode1_pos t). unfold zlen in *. simpl. lia.
Qed.

(** The decompressor computes [expand] and leaves the rest of the block. *)
Lemma decompress_expand ts out s :
  ts ≠ [] → Forall token_ok ts → expand ts [] = Some s → zlen s ≤ zlen out →
  lzf_decompress (encode ts) out = Some (zlen s, None, s ++ drop (length s) out).
Proof.
  intros Hne Hts He Hl. unfold lzf_decompress.
  change (DState 0 0 out) with (dst [] [] out).
  rewrite (decompress_run ts (encode ts) out _ [] [] s); try done.
  - constructor.
  - pose proof (length_encode ts). lia.
Qed.

(** Any other input is refused: a round that does not fail has read a token. *)
Definition body_fails (data pre h out : bytes) : Prop :=
  ∃ e, decompress_body data (zlen data) (zlen out) (dst pre h out) =
       Some (inr (inr (e, h ++ drop (length h) out))).

Definition body_reads (post h out : bytes) : Prop :=
  ∃ t post' h', token_ok t ∧ post = encode1 t ++ post' ∧ expand1 h t = Some h' ∧ zlen h' ≤ zlen out.

Lemma body_lit_cases data pre c more h out :
  wf_bytes (c :: more) → data = pre ++ c :: more → c < 32 → zlen h ≤ zlen out →
  body_fails data pre h out ∨ body_reads (c :: more) h out.
Proof.
  intros [Hc Hm]%Forall_cons Hd H32 Hl. unfold is_byte in Hc.
  destruct (decide (zlen h + (c + 1) ≤ zlen out ∧ c + 1 ≤ zlen more)) as [[H1 H2]|Hbad].
  - right. destruct (list_split more (c + 1)) as (run & post' & -> & Hr & _); [lia|].
    apply wf_bytes_app in Hm as [Hrun _].
    exists (Lit run), post', (h ++ run). simpl. change MAX_LIT with 32.
    split_and!; [lia|lia|done| |done|zl]. f_equal; lia.
  - left. unfold body_fails, decompress_body, dst. cbn [d_ip d_op d_out].
    rewrite (load1_at data pre more c) by done. cbn [mbind option_bind].
    change (Z.shiftl 1 5) with 32. destruct (Z.ltb_spec c 32); [|lia].
    unfold decompress_lit. rewrite uwrap_id by (unfold in_u; lia).
    destruct (Z.gtb_spec (zlen h + (c + 1)) (zlen out)); [by eexists|].
    destruct (Z.gtb_spec (zlen pre + 1 + (c + 1)) (zlen data)); [by eexists|]. subst data. zl.
Qed.

Lemma ctrl_split c : 0 ≤ c → c = c mod 32 + 32 * Z.shiftr c 5.
Proof.
  intros. rewrite Z.shiftr_div_pow2 by lia. change (2 ^ 5) with 32.
  pose proof (Z.div_mod c 32). lia.
Qed.

Lemma ref_reads c n low code post' h out :
  code = (if n <? 7 then [c; low] else [c; n - 7; low]) →
  32 ≤ c < 256 → is_byte low → 1 ≤ n ≤ 262 → Z.shiftr c 5 = Z.min n 7 →
  zlen h + n + 2 ≤ zlen out → 0 ≤ zlen h - 256 * (c mod 32) - 1 - low →
  wf_bytes h → body_reads (code ++ post') h out.
Proof.
  intros Hcode Hc Hlow Hn Hlen Ho Hr Hh. unfold is_byte in Hlow.
  pose proof (Z.mod_pos_bound c 32 ltac:(lia)) as Hq.
  set (off := 256 * (c mod 32) + low).
  assert (off / 256 = c mod 32) as Hdiv.
  { unfold off. rewrite Z.add_comm, Z.mul_comm, Z.div_add, Z.div_small by lia. lia. }
  assert (off mod 256 = low) as Hmod.
  { unfold off. rewrite Z.add_comm, Z.mul_comm, Z.mod_add, Z.mod_small by lia. lia. }
  destruct (copy_total (Z.to_nat (n + 2)) off h) as [h' Hc']; [unfold off; lia|].
  exists (Ref off (n + 2)), post', h'. pose proof (copy_length _ _ _ _ Hc').
  pose proof (ctrl_split c ltac:(lia)) as Hs. rewrite Hlen in Hs.
  simpl. rewrite Z.add_simpl_r. change MAX_OFF with 8192. change MAX_REF with 264.
  split_and!; try lia; [..|done]; [unfold off; lia..|].
  rewrite Hcode, Hdiv, Hmod. destruct (Z.ltb_spec n 7); do 2 f_equal; [lia..|].
  f_equal. lia.
Qed.

Lemma body_ref_cases data pre c more h out :
  wf_bytes (c :: more) → data = pre ++ c :: more → 32 ≤ c → wf_bytes h →
  body_fails data pre h out ∨ body_reads (c :: more) h out.
Proof.
  intros [Hc Hm]%Forall_cons Hd H32 Hh. unfold is_byte in Hc.
  pose proof (ctrl_split c ltac:(lia)) as Hs. pose proof (Z.mod_pos_bound c 32 ltac:(lia)) as Hq.
  assert (Z.shiftl (Z.land c 31) 8 = 256 * (c mod 32)) as Hsh.
  { rewrite Hs at 1. apply ctrl_off. lia. }
  unfold body_fails, decompress_body, dst. cbn [d_ip d_op d_out].
  rewrite (load1_at data pre more c) by done. cbn [mbind option_bind].
  change (Z.shiftl 1 5) with 32. destruct (Z.ltb_spec c 32); [lia|].
  unfold decompress_ref. rewrite Hsh.
  destruct (Z.geb_spec (zlen pre + 1) (zlen data)) as [|Hin]; [left; by eexists|].
  destruct more as [|b more]; [subst data; zl|]. apply Forall_cons in Hm as [Hb Hm].
  destruct (Z.eqb_spec (Z.shiftr c 5) 7) as [E7|E7].
  - rewrite (load1_at data (pre ++ [c]) more b) by (subst; by rewrite <-?app_assoc || zl).
    cbn [mbind option_bind]. unfold is_byte in Hb. rewrite uwrap_id by (unfold in_u; lia).
    destruct (Z.geb_spec (zlen pre + 1 + 1) (zlen data)) as [|Hin2]; [left; by eexists|].
    destruct more as [|low more]; [subst data; zl|]. apply Forall_cons in Hm as [Hlow Hm].
    rewrite (load1_at data (pre ++ [c; b]) more low) by (subst; by rewrite <-?app_assoc || zl).
    cbn [mbind option_bind]. rewrite E7.
    destruct (Z.gtb_spec (zlen h + (7 + b) + 2) (zlen out)); [left; by eexists|].
    destruct (Z.ltb_spec (zlen h - 256 * (c mod 32) - 1 - low) 0); [left; by eexists|].
    right. apply (ref_reads c (7 + b) low [c; b; low]); try (done || lia).
    destruct (Z.ltb_spec (7 + b) 7); [lia|]. do 2 f_equal. lia.
  - cbn [mbind option_bind].
    rewrite (load1_at data (pre ++ [c]) more b) by (subst; by rewrite <-?app_assoc || zl).
    cbn [mbind option_bind].
    destruct (Z.gtb_spec (zlen h + Z.shiftr c 5 + 2) (zlen out)); [left; by eexists|].
    destruct (Z.ltb_spec (zlen h - 256 * (c mod 32) - 1 - b) 0); [left; by eexists|].
    right. apply (ref_reads c (Z.shiftr c 5) b [c; b]); try (done || lia).
    destruct (Z.ltb_spec (Z.shiftr c 5) 7); [done|lia].
Qed.

Lemma body_cases data pre post h out :
  wf_bytes post → data = pre ++ post → post ≠ [] → wf_bytes h → zlen h ≤ zlen out →
  body_fails data pre h out ∨ body_reads post h out.
Proof.
  intros Hp Hd Hne Hh Hl. destruct post as [|c more]; [done|].
  destruct (Z.lt_ge_cases c 32); [by apply body_lit_cases|by apply body_ref_cases].
Qed.

(** The streams the decompressor takes, and what it does with any input: it
    succeeds on the encodings whose expansion fits, and on nothing else; whatever
    the input it returns, and writes inside its block only. *)
Definition decodes (data : bytes) (s : bytes) : Prop :=
  ∃ ts, Forall token_ok ts ∧ data = encode ts ∧ expand ts [] = Some s.

Definition dinv (data out : bytes) (s : dstate) : Prop :=
  ∃ ts post h, Forall token_ok ts ∧ data = encode ts ++ post ∧ post ≠ [] ∧ wf_bytes h ∧
    expand ts [] = Some h ∧ zlen h ≤ zlen out ∧ s = dst (encode ts) h out.

Definition dpost (data out : bytes) (r : dstate + errno * bytes) : Prop :=
  match r with
  | inl s => ∃ t, decodes data t ∧ zlen t ≤ zlen out ∧ s = dst data t out
  | inr (_, out') => zlen out' = zlen out
  end.

Lemma decompress_inv data out :
  wf_bytes data → data ≠ [] →
  wp (loop (S (length data)) (decompress_body data (zlen data) (zlen out)) (DState 0 0 out))
     (dpost data out).
Proof.
  intros Hw Hne. apply (loop_wp (dinv data out) (λ s, Z.to_nat (zlen data - d_ip s))).
  - intros s (ts & post & h & Hts & Hd & Hp & Hh & He & Hl & ->).
    assert (wf_bytes post) as Hwp by (subst data; by apply wf_bytes_app in Hw as [_ ?]).
    destruct (body_cases data (encode ts) post h out) as [[e ->]|Hr]; [done..| |].
    + simpl. rewrite zlen_app. unfold zlen in *. rewrite length_drop. lia.
    + destruct Hr as (t & post' & h' & Ht & Hpe & He' & Hl'). subst post.
      rewrite (body_token t data (encode ts) post' h h') by done. simpl.
      assert (Forall token_ok (ts ++ [t])) as Hts' by (apply Forall_app; by repeat constructor).
      assert (encode (ts ++ [t]) = encode ts ++ encode1 t) as Hen.
      { rewrite encode_app, encode_cons. simpl. by rewrite app_nil_r. }
      assert (expand (ts ++ [t]) [] = Some h') as Hex.
      { rewrite expand_app, He. simpl. by rewrite He'. }
      unfold after. simpl d_ip. rewrite <-Hen. destruct (Z.ltb_spec (zlen (encode (ts ++ [t]))) (zlen data)) as [Hlt|Hge].
      * split; [|pose proof (encode1_pos t); rewrite Hen in *; simpl; zl].
        exists (ts ++ [t]), post', h'. split_and!; try done.
        -- by rewrite Hen, <-app_assoc.
        -- intros ->. subst data. rewrite Hen in Hlt. zl.
        -- by apply (expand1_wf t h).
      * rewrite Hen in Hge. assert (post' = []) as -> by (apply zlen_0_nil; subst data; zl).
        rewrite app_nil_r in Hd. rewrite <-Hen in Hd. exists h'. split_and!; [by eexists|done|].
        by rewrite <-Hd.
  - exists [], data, []. split_and!; try done; [apply Forall_nil_2|]. zl.
  - simpl. unfold zlen. lia.
Qed.

(** An empty input is read past its end: the loop tests for the end after its first
    round. *)
Theorem lzf_decompress_empty out : lzf_decompress [] out = None.
Proof. reflexivity. Qed.

(** C34: Decompression of at least one octet never reads or writes outside of its
    blocks: it accepts exactly the streams that are an encoding of some text that fits
    the output block and writes that text; on every other stream it returns 0 and an
    error. *)
Theorem lzf_decompress_correct (data out : bytes) :
  wf_bytes data → data ≠ [] →
  wp (lzf_decompress data out) (λ '(n, e, out'),
    match e with
    | None => ∃ s, decodes data s ∧ n = zlen s ∧ n ≤ zlen out ∧ out' = s ++ drop (length s) out
    | Some _ => n = 0 ∧ zlen out' = zlen out ∧ ¬ ∃ s, decodes data s ∧ zlen s ≤ zlen out
    end).
Proof.
  intros Hw Hne. destruct (wp_inv _ _ (decompress_inv data out Hw Hne)) as (r & Hr & HP).
  unfold lzf_decompress. rewrite Hr. simpl. destruct r as [s|[e out']]; simpl in HP.
  - destruct HP as (t & Hdec & Hl & ->). exists t. done.
  - split_and!; [done|done|]. intros (s & (ts & Hts & -> & He) & Hl).
    assert (ts ≠ []) by (by intros ->).
    pose proof (decompress_expand ts out s) as Hx. unfold lzf_decompress in Hx.
    rewrite Hr in Hx. specialize (Hx ltac:(done) Hts He Hl). done.
Qed.

(** Three literal octets and a reference to them; the second stream ends inside its
    literal run. *)
Lemma lzf_decompress_correct_witness :
  (∃ s, decodes [2; 97; 98; 99; 32; 2] s ∧ zlen s = 6) ∧
  (¬ ∃ s, decodes [2; 97; 98] s ∧ zlen s ≤ 8).
Proof.
  split.
  - destruct (wp_inv _ _ (lzf_decompress_correct [2; 97; 98; 99; 32; 2] (replicate 8 0)
      ltac:(repeat constructor; by vm_compute) ltac:(done))) as (((n & e) & out') & Hrun & HP).
    vm_compute in Hrun. injection Hrun as <- <- <-. destruct HP as (s & Hs & Hn & _). exists s. split; [exact Hs|congruence].
  - destruct (wp_inv _ _ (lzf_decompress_correct [2; 97; 98] (replicate 8 0)
      ltac:(repeat constructor; by vm_compute) ltac:(done))) as (((n & e) & out') & Hrun & HP).
    vm_compute in Hrun. injection Hrun as <- <- <-. destruct HP as (_ & _ & HP). exact HP.
Defined.
