(* ===== verification/LzfCompress.v ===== *)
(** * lzf_compress writes a stream that expands to its input

    The main loop keeps a list of tokens that is already written and a pending
    run of literals; [running] says how the output block holds both.  The
    contents of the hash table do not matter: every candidate is compared with
    the input before it is used. *)

From Stdlib Require Import String.
From S2P Require Import Prelude Mem Lzf LzfSpec.
#[local] Notation length := Datatypes.length.

(** ** Matches *)
Definition agree (data : bytes) (ref ip n : Z) : Prop :=
  ∀ i, 0 ≤ i < n → ∃ b, load1 data (ref + i) = Some b ∧ load1 data (ip + i) = Some b.

Lemma agree_snoc data ref ip n b :
  agree data ref ip n → load1 data (ref + n) = Some b → load1 data (ip + n) = Some b →
  agree data ref ip (n + 1).
Proof.
  intros H Hr Hi i ?. destruct (decide (i = n)) as [->|]; [eauto|]. apply H. lia.
Qed.

Lemma agree_weaken data ref ip n k : agree data ref ip n → k ≤ n → agree data ref ip k.
Proof. intros H ? i ?. apply H. lia. Qed.

(** One comparison [ref[len] == ip[len]]. *)
Lemma compare_ok data ref ip len :
  0 ≤ ref ≤ ip → 0 ≤ len → ip + len < zlen data →
  ∃ a b, load1 data (ref + len) = Some a ∧ load1 data (ip + len) = Some b.
Proof.
  intros. destruct (load1_ok data (ref + len)) as [a Ha]; [lia|].
  destruct (load1_ok data (ip + len)) as [b Hb]; [lia|]. eauto.
Qed.

Lemma match_unrolled_ok data ref ip n len :
  0 ≤ ref ≤ ip → 0 ≤ len → ip + len + Z.of_nat n < zlen data < 2 ^ 32 →
  agree data ref ip (len + 1) →
  wp (match_unrolled n data ref ip len) (λ '(l, stop),
    if stop : bool then len < l ≤ len + Z.of_nat n ∧ agree data ref ip l
    else l = len + Z.of_nat n ∧ agree data ref ip (l + 1)).
Proof.
  intros Hr. revert len. induction n as [|n IH]; intros len Hlen Hin Ha.
  - simpl. split; [lia|done].
  - cbn [match_unrolled]. rewrite uwrap_id by (unfold in_u; lia).
    destruct (compare_ok data ref ip (len + 1)) as (a & b & Hla & Hlb); [lia..|].
    rewrite Hla, Hlb. cbn [mbind option_bind]. destruct (Z.eqb_spec a b) as [->|].
    + eapply wp_mono; [apply IH; [lia|lia|by eapply agree_snoc]|].
      intros [l [|]]; intros [? ?]; (split; [lia|done]).
    + simpl. split; [lia|done].
Qed.

Lemma match_rest_ok data ref ip maxlen len :
  0 ≤ ref ≤ ip → 0 ≤ len → ip + maxlen ≤ zlen data < 2 ^ 32 → maxlen ≤ MAX_REF →
  len < MAX_REF → agree data ref ip (len + 1) →
  wp (match_rest data ref ip maxlen len) (λ l, len < l ≤ Z.max (len + 1) maxlen ∧ agree data ref ip l).
Proof.
  change MAX_REF with 264. intros Hr Hlen Hin Hmax Hlr Ha. unfold match_rest.
  apply (loop_wp (λ l, len ≤ l < 264 ∧ (l < Z.max (len + 1) maxlen) ∧ agree data ref ip (l + 1))
           (λ l, Z.to_nat (264 - l))).
  - intros l (Hl & Hm & Hal). unfold match_rest_body. rewrite uwrap_id by (unfold in_u; lia).
    destruct (Z.ltb_spec (l + 1) maxlen) as [Hlt|Hge]; [|simpl; split; [lia|done]].
    destruct (compare_ok data ref ip (l + 1)) as (a & b & Hla & Hlb); [lia..|].
    rewrite Hla, Hlb. simpl. destruct (Z.eqb_spec a b) as [->|]; simpl.
    + split; [|lia]. split_and!; [lia..|]. by eapply agree_snoc.
    + split; [lia|done].
  - split_and!; [lia..|done].
  - change (Z.to_nat MAX_REF) with 264%nat. lia.
Qed.

(** The length found is that of a common stretch inside the input. *)
Lemma match_len_ok data ref ip maxlen :
  0 ≤ ref ≤ ip → ip + maxlen + 2 ≤ zlen data < 2 ^ 32 → 1 ≤ maxlen ≤ MAX_REF →
  agree data ref ip 3 →
  wp (match_len data ref ip maxlen) (λ l,
    3 ≤ l ≤ MAX_REF ∧ ip + l ≤ zlen data ∧ agree data ref ip l).
Proof.
  intros Hr Hin Hmax Ha. unfold match_len.
  assert (∀ len, 2 ≤ len ≤ 18 → (2 < len → 16 < maxlen) → agree data ref ip (len + 1) →
    wp (match_rest data ref ip maxlen len) (λ l,
      3 ≤ l ≤ MAX_REF ∧ ip + l ≤ zlen data ∧ agree data ref ip l)) as Hrest.
  { change MAX_REF with 264 in *. intros len Hlen Hlm Hal.
    eapply wp_mono; [apply match_rest_ok; try done; change MAX_REF with 264; lia|].
    intros l [? ?]. split_and!; [lia..|done]. }
  destruct (Z.gtb_spec maxlen 16); [|by apply Hrest].
  apply wp_bind. eapply wp_mono; [apply (match_unrolled_ok data ref ip 16 2); done || lia|].
  intros [l [|]]; simpl; intros [Hl Hal]; [|subst l; by apply Hrest].
  change MAX_REF with 264. split_and!; [lia..|done].
Qed.

(** A back reference over a common stretch produces the input. *)
Lemma agree_copy data off n h rest :
  data = h ++ rest → Z.of_nat n ≤ zlen rest →
  agree data (zlen h - off - 1) (zlen h) (Z.of_nat n) → 0 ≤ off < zlen h →
  copy n off h = Some (take (length h + n) data).
Proof.
  revert h rest. induction n as [|n IH]; intros h rest Hd Hn Ha Hoff.
  - simpl. rewrite Hd, Nat.add_0_r, take_app_length. done.
  - destruct rest as [|x rest]; [zl|]. destruct (Ha 0) as (b & Hb1 & Hb2); [lia|].
    rewrite !Z.add_0_r in *. rewrite (load1_at data h rest x) in Hb2 by done. simplify_eq.
    cbn [copy]. assert (load1 h (zlen h - off - 1) = Some b) as ->.
    { apply load1_lookup in Hb1 as [H0 Hl]. apply load1_lookup. split; [done|].
      rewrite lookup_app_l in Hl; [done|]. unfold zlen in *. lia. }
    cbn [mbind option_bind]. rewrite (IH (h ++ [b]) rest).
    + do 2 f_equal. rewrite length_app. simpl. lia.
    + by rewrite <-app_assoc.
    + zl.
    + intros i Hi. destruct (Ha (i + 1)) as (c & Hc1 & Hc2); [lia|].
      exists c. rewrite <-Hc1 at 1. rewrite <-Hc2. split; f_equal; zl.
    + zl.
Qed.

Lemma match_found_ok data ref ip :
  0 ≤ ref < 2 ^ 32 → 0 ≤ ip → ip + 2 < zlen data < 2 ^ 32 →
  wp (match_found data ref ip (uwrap 64 (ip - ref - 1))) (λ f, f = true →
    0 < ref < ip ∧ uwrap 64 (ip - ref - 1) = ip - ref - 1 ∧ ip - ref - 1 < MAX_OFF ∧
    agree data ref ip 3).
Proof.
  intros Hr Hip Hin. unfold match_found. change MAX_OFF with 8192.
  destruct (Z.ltb_spec (uwrap 64 (ip - ref - 1)) 8192) as [Hoff|]; [|done].
  destruct (Z.gtb_spec ref 0) as [Hpos|]; [|done]. cbn [andb].
  assert (ref < ip) as Hlt.
  { destruct (Z.lt_ge_cases ref ip) as [|Hge]; [done|]. exfalso.
    unfold uwrap in Hoff. replace (ip - ref - 1) with (2 ^ 64 - (ref + 1 - ip) + (-1) * 2 ^ 64) in Hoff by lia.
    rewrite Z.mod_add, Z.mod_small in Hoff by lia. lia. }
  rewrite uwrap_id in * by (unfold in_u; lia).
  destruct (compare_ok data ref ip 2) as (a & b & Ha & Hb); [lia..|]. rewrite Ha, Hb.
  cbn [mbind option_bind]. destruct (Z.eqb_spec a b) as [->|]; [|done].
  apply wp_bind, load_wp; [lia..|]. intros p x q Hx Hp Hxl.
  apply wp_bind, load_wp; [lia..|]. intros p' y q' Hy Hp' Hyl. simpl. intros ->%bool_decide_eq_true.
  split_and!; [lia..|]. destruct y as [|y0 [|y1 y]]; [zl|zl|].
  assert (y = []) as -> by (apply zlen_0_nil; zl).
  replace 3 with (0 + 1 + 1 + 1) by lia. eapply agree_snoc; [|exact Ha|exact Hb].
  eapply (agree_snoc _ _ _ 1 y1); [eapply (agree_snoc _ _ _ 0 y0)| |].
  - intros i ?; lia.
  - apply (load1_at _ p (y1 :: q)); [by rewrite Hx|lia].
  - apply (load1_at _ p' (y1 :: q')); [by rewrite Hy|lia].
  - apply (load1_at _ (p ++ [y0]) q); [by rewrite Hx, <-app_assoc|zl].
  - apply (load1_at _ (p' ++ [y0]) q'); [by rewrite Hy, <-app_assoc|zl].
Qed.

(** ** The hash of three octets *)
Lemma FRST_ok data p : 0 ≤ p → p + 1 < zlen data → ∃ v, FRST data p = Some v.
Proof.
  intros. unfold FRST. destruct (load1_ok data p) as [a ->]; [lia|].
  destruct (load1_ok data (p + 1)) as [b ->]; [lia|]. simpl. eauto.
Qed.

Lemma NEXT_ok data p v : 0 ≤ p → p + 2 < zlen data → ∃ v', NEXT v data p = Some v'.
Proof.
  intros. unfold NEXT. destruct (load1_ok data (p + 2)) as [a ->]; [lia|]. simpl. eauto.
Qed.

Lemma IDX_bound h : (0 <=? IDX h) && (IDX h <? HSIZE) = true.
Proof.
  unfold IDX. change (HSIZE - 1) with (Z.ones 16). rewrite Z.land_ones by lia.
  change HSIZE with (2 ^ 16). rewrite andb_true_iff, Z.leb_le, Z.ltb_lt.
  apply Z.mod_pos_bound. lia.
Qed.

Lemma htab_get_ok htab h : ∃ v, htab_get htab (IDX h) = Some v ∧ 0 ≤ v < 2 ^ 32.
Proof.
  unfold htab_get. rewrite IDX_bound. eexists. split; [done|]. by apply uwrap_bound.
Qed.

Lemma htab_set_ok htab h v : ∃ htab', htab_set htab (IDX h) v = Some htab'.
Proof. unfold htab_set. rewrite IDX_bound. eauto. Qed.

(** ** The invariant of the main loop *)

(** Tokens [ts] for the input [h] are written, at a cost of at most 33 octets for
    32. *)
Record written (ts : list token) (h : bytes) : Prop := {
  w_ok : Forall token_ok ts;
  w_expand : expand ts [] = Some h;
  w_cost : 32 * zlen (encode ts) ≤ 33 * zlen h }.

Lemma written_nil : written [] [].
Proof. split; [constructor|done|done]. Qed.

Lemma written_snoc ts h t h' :
  written ts h → token_ok t → expand1 h t = Some h' →
  32 * (zlen (encode ts) + zlen (encode1 t)) ≤ 33 * zlen h' → written (ts ++ [t]) h'.
Proof.
  intros [Hok He Hc] Ht Ht' Hcost. split.
  - apply Forall_app. by repeat constructor.
  - rewrite expand_app, He. simpl. by rewrite Ht'.
  - rewrite encode_app, encode_cons. zl.
Qed.

(** [pend] is the pending run, [post] the input that is left; the octet before
    the run is reserved, and may lie behind the block while the run is empty. *)
Record running (data : bytes) (out_len : Z) (s : cstate) (ts : list token) (h pend post : bytes) : Prop := {
  r_data : data = h ++ pend ++ post;
  r_written : written ts h;
  r_lit : c_lit s = zlen pend;
  r_max : zlen pend < MAX_LIT;
  r_ip : c_ip s = zlen h + zlen pend;
  r_op : c_op s = zlen (encode ts) + 1 + zlen pend;
  r_len : zlen (c_out s) = out_len;
  r_room : c_op s ≤ out_len + 1;
  r_out : ∃ T, c_out s = encode ts ++ T ∧ (pend ≠ [] → ∃ x rest, T = x :: pend ++ rest) }.

Definition Running (data : bytes) (out_len : Z) (s : cstate) : Prop :=
  ∃ ts h pend post, running data out_len s ts h pend post.

(** Ending a run: the reserved octet gets the length, an empty run vanishes. *)
Lemma stop_run_ok data out_len s ts h pend post :
  wf_bytes data → running data out_len s ts h pend post → c_op s ≤ out_len →
  ∃ ts' out' T, stop_run (c_out s) (c_op s) (c_lit s) = Some out' ∧
    out' = encode ts' ++ T ∧ zlen out' = out_len ∧
    zlen (encode ts') = c_op s - neg (c_lit s) ∧
    Forall token_ok ts' ∧ expand ts' [] = Some (h ++ pend) ∧
    32 * zlen (encode ts') ≤ 33 * zlen h + 32 * (zlen pend + 1 - neg (c_lit s)).
Proof.
  intros Hw [Hd Hwr Hlit Hmax Hip Hop Hlen Hroom (T & Hout & HT)] Hin.
  destruct Hwr as [Hok He Hcost]. unfold stop_run. rewrite Hout in *. rewrite Hlit, Hop in *.
  replace (zlen (encode ts) + 1 + zlen pend - zlen pend - 1) with (zlen (encode ts)) by lia.
  destruct pend as [|p pend].
  - destruct T as [|x T]; [zl|]. rewrite store8_at by done.
    change (neg (zlen [])) with 1. exists ts. do 2 eexists.
    split_and!; try done; [zl|zl|by rewrite app_nil_r|zl].
  - destruct HT as (x & rest & ->); [done|]. rewrite store8_at by done.
    set (run := p :: pend) in *. change MAX_LIT with 32 in Hmax.
    assert (1 ≤ zlen run) by (subst run; zl).
    rewrite uwrap_id by (unfold in_u; lia).
    assert (token_ok (Lit run)) as Ht.
    { simpl. change MAX_LIT with 32. split; [lia|]. subst data.
      apply wf_bytes_app in Hw as [_ [Hr _]%wf_bytes_app]. done. }
    assert (neg (zlen run) = 0) as -> by (unfold neg; zbool; lia).
    exists (ts ++ [Lit run]). do 2 eexists.
    assert (encode (ts ++ [Lit run]) = encode ts ++ (zlen run - 1) :: run) as Hen.
    { rewrite encode_app, encode_cons. simpl. by rewrite app_nil_r. }
    split_and!; [done|by rewrite Hen, <-app_assoc|zl|rewrite Hen; zl| | |rewrite Hen; zl].
    + apply Forall_app. split; [done|]. by apply Forall_singleton.
    + rewrite expand_app, He. done.
Qed.

(** One literal. *)
Lemma put_lit_ok data out_len s ts h pend x post :
  wf_bytes data → running data out_len s ts h pend (x :: post) → c_op s < out_len →
  ∃ s', put_lit data s = Some s' ∧ Running data out_len s' ∧
    c_ip s' = c_ip s + 1 ∧ c_hval s' = c_hval s ∧
    (c_op s' = c_op s + 1 ∨ c_op s' = c_op s + 2 ∧ c_lit s' = 0 ∧ c_lit s = 31).
Proof.
  intros Hw Hrun Hin. pose proof Hrun as [Hd Hwr Hlit Hmax Hip Hop Hlen Hroom (T & Hout & HT)].
  assert (is_byte x) as Hx.
  { subst data. apply wf_bytes_app in Hw as [_ [_ Hw]%wf_bytes_app]. by apply Forall_cons in Hw as [? _]. }
  unfold put_lit. rewrite (load1_at data (h ++ pend) post x)
    by (rewrite ?Hd, <-?app_assoc; done || (rewrite Hip; zl)).
  cbn [mbind option_bind].
  assert (∃ y rest, store8 (c_out s) (c_op s) x = Some (encode ts ++ y :: (pend ++ [x]) ++ rest) ∧
            zlen (encode ts ++ y :: (pend ++ [x]) ++ rest) = out_len) as (y & rest & -> & Hlen').
  { assert (∃ y z rest, c_out s = (encode ts ++ y :: pend) ++ z :: rest) as (y & z & rest & E).
    { rewrite Hout in *. destruct pend as [|p pend].
      - destruct T as [|y [|z T]]; [zl|zl|]. exists y, z, T. by rewrite <-app_assoc.
      - destruct HT as (y & rest & ->); [done|]. destruct rest as [|z rest]; [zl|].
        exists y, z, rest. by rewrite <-app_assoc. }
    rewrite E in *. rewrite store8_at by zl. rewrite uwrap8_byte by done.
    exists y, rest. rewrite <-!app_assoc. simpl. rewrite <-?app_assoc. split; [done|].
    rewrite <-Hlen. zl. }
  cbn [mbind option_bind]. rewrite Hlit. change MAX_LIT with 32 in *.
  set (s1 := CState (c_ip s + 1) (c_op s + 1) (zlen pend + 1) (c_hval s) (c_htab s)
               (encode ts ++ y :: (pend ++ [x]) ++ rest)).
  destruct (Z.eqb_spec (zlen pend + 1) 32) as [E32|E32].
  - unfold stop_run. replace (c_op s + 1 - (zlen pend + 1) - 1) with (zlen (encode ts)) by lia.
    rewrite store8_at by done. cbn [mbind option_bind].
    eexists. split; [done|]. split; [|split_and!; [done|done|]; right; simpl; lia].
    exists (ts ++ [Lit (pend ++ [x])]), (h ++ pend ++ [x]), [], post.
    assert (encode (ts ++ [Lit (pend ++ [x])]) = encode ts ++ (zlen pend) :: (pend ++ [x])) as Hen.
    { rewrite encode_app, encode_cons. simpl. rewrite app_nil_r. do 2 f_equal. zl. }
    split; cbn [c_ip c_op c_lit c_out]; change MAX_LIT with 32; try (rewrite ?Hen; zl).
    + by rewrite Hd, <-!app_assoc.
    + apply (written_snoc ts h); [done| | |].
      * simpl. change MAX_LIT with 32. split; [zl|]. apply wf_snoc; [|done].
        subst data. by apply wf_bytes_app in Hw as [_ [? _]%wf_bytes_app].
      * done.
      * destruct Hwr. simpl. zl.
    + exists rest. split; [|done]. rewrite uwrap_id, Z.add_simpl_r by (unfold in_u; lia).
      by rewrite Hen, <-!app_assoc; simpl; rewrite <-?app_assoc.
  - exists s1. split; [done|]. split; [|split_and!; [done|done|]; by left].
    exists ts, h, (pend ++ [x]), post. split; cbn [c_ip c_op c_lit c_out s1]; change MAX_LIT with 32; try zl.
    + by rewrite Hd, <-!app_assoc.
    + done.
    + exists (y :: (pend ++ [x]) ++ rest). split; [done|]. eauto.
Qed.

(** A back reference. *)
Lemma put_ref_ok E T off len :
  0 ≤ off < MAX_OFF → 1 ≤ len ≤ 262 → 3 ≤ zlen T →
  ∃ T', put_ref (E ++ T) (zlen E) off len =
        Some (E ++ encode1 (Ref off (len + 2)) ++ T', zlen (E ++ encode1 (Ref off (len + 2)))) ∧
        zlen T' = zlen T - zlen (encode1 (Ref off (len + 2))).
Proof.
  change MAX_OFF with 8192. intros Hoff Hlen HT.
  destruct T as [|t0 [|t1 [|t2 T]]]; [zl|zl|zl|].
  assert (0 ≤ off / 256 < 32) as Hq by (split; [apply Z.div_pos; lia|apply Z.div_lt_upper_bound; lia]).
  unfold put_ref. simpl encode1. rewrite Z.add_simpl_r, Z.shiftr_div_pow2 by lia.
  change (2 ^ 8) with 256. change (Z.shiftl 7 5) with 224. rewrite Z.shiftl_mul_pow2 by lia.
  change (2 ^ 5) with 32.
  destruct (Z.ltb_spec len 7).
  - rewrite store8_at by done. cbn [mbind option_bind]. rewrite uwrap_id by (unfold in_u; lia).
    replace (E ++ (off / 256 + len * 32) :: t1 :: t2 :: T)
      with ((E ++ [off / 256 + 32 * len]) ++ t1 :: t2 :: T) by (rewrite <-app_assoc; simpl; do 2 f_equal; lia).
    rewrite store8_at by zl. cbn [mbind option_bind]. exists (t2 :: T). split; [|zl].
    rewrite <-!app_assoc. do 2 f_equal. zl.
  - rewrite store8_at by done. cbn [mbind option_bind]. rewrite !uwrap_id by (unfold in_u; lia).
    replace (E ++ (off / 256 + 224) :: t1 :: t2 :: T)
      with ((E ++ [off / 256 + 224]) ++ t1 :: t2 :: T) by (by rewrite <-app_assoc).
    rewrite store8_at by zl. cbn [mbind option_bind]. rewrite uwrap_id by (unfold in_u; lia).
    replace ((E ++ [off / 256 + 224]) ++ (len - 7) :: t2 :: T)
      with ((E ++ [off / 256 + 224; len - 7]) ++ t2 :: T) by (by rewrite <-!app_assoc).
    rewrite store8_at by zl. cbn [mbind option_bind]. exists T. split; [|zl].
    rewrite <-!app_assoc. simpl. replace (len + 2 - 9) with (len - 7) by lia. do 2 f_equal. zl.
Qed.

(** ** The main loop *)

(** The function gives up only when the output block is small. *)
Definition small (data : bytes) (out_len : Z) : Prop := 32 * out_len ≤ 33 * zlen data + 160.

Definition step_post (data : bytes) (out_len ip : Z) (r : cstate + exit) : Prop :=
  match r with
  | inl s => Running data out_len s ∧ ip < c_ip s
  | inr (Leave s) => Running data out_len s ∧ zlen data - 2 ≤ c_ip s
  | inr (Return0 out) => zlen out = out_len ∧ small data out_len
  end.

Lemma running_cost data out_len s ts h pend post :
  running data out_len s ts h pend post → 32 * c_op s ≤ 33 * zlen data + 32.
Proof. intros [-> [] ? ? ? -> ? ? ?]. zl. Qed.

(** The tokens after a match of [l] octets. *)
Lemma written_ref ts h pend off l m rest data lit :
  Forall token_ok ts → expand ts [] = Some (h ++ pend) →
  32 * zlen (encode ts) ≤ 33 * zlen h + 32 * (zlen pend + 1 - neg lit) →
  data = (h ++ pend) ++ m ++ rest → zlen m = l → 3 ≤ l ≤ MAX_REF → 0 ≤ off < MAX_OFF →
  off < zlen (h ++ pend) →
  agree data (zlen (h ++ pend) - off - 1) (zlen (h ++ pend)) l →
  written (ts ++ [Ref off l]) (h ++ pend ++ m).
Proof.
  intros Hok He Hcost Hd Hm Hl Hoff Hin Ha.
  assert (expand1 (h ++ pend) (Ref off l) = Some (h ++ pend ++ m)) as Hx.
  { simpl. rewrite (agree_copy data off (Z.to_nat l) (h ++ pend) (m ++ rest)); [|done|zl| |lia].
    - replace (length (h ++ pend) + Z.to_nat l)%nat with (length ((h ++ pend) ++ m)).
      + by rewrite Hd, (app_assoc _ m rest), take_app_length, <-app_assoc.
      + rewrite (length_app (h ++ pend) m). unfold zlen in *. lia.
    - by rewrite Z2Nat.id by lia. }
  assert (0 ≤ neg lit) by (unfold neg; zbool; lia). split.
  - apply Forall_app. split; [done|]. by apply Forall_singleton.
  - rewrite expand_app, He. simpl in *. by rewrite Hx.
  - rewrite encode_app, encode_cons. simpl. zbool; zl.
Qed.

(** The state after a match, whatever the hash and its table. *)
Lemma running_ref data out_len ts h pend off l m rest lit T hval htab :
  Forall token_ok ts → expand ts [] = Some (h ++ pend) →
  32 * zlen (encode ts) ≤ 33 * zlen h + 32 * (zlen pend + 1 - neg lit) →
  data = (h ++ pend) ++ m ++ rest → zlen m = l → 3 ≤ l ≤ MAX_REF → 0 ≤ off < MAX_OFF →
  off < zlen (h ++ pend) →
  agree data (zlen (h ++ pend) - off - 1) (zlen (h ++ pend)) l →
  zlen (encode ts ++ encode1 (Ref off l) ++ T) = out_len →
  Running data out_len
    (CState (zlen (h ++ pend) + l) (zlen (encode ts ++ encode1 (Ref off l)) + 1) 0 hval htab
       (encode ts ++ encode1 (Ref off l) ++ T)).
Proof.
  intros Hok He Hcost Hd Hm Hl Hoff Hin Ha Hlen.
  assert (encode (ts ++ [Ref off l]) = encode ts ++ encode1 (Ref off l)) as Hen.
  { by rewrite encode_app, encode_cons, app_nil_r. }
  exists (ts ++ [Ref off l]), (h ++ pend ++ m), [], rest.
  split; cbn [c_ip c_op c_lit c_out]; rewrite ?Hen; try done; try zl.
  - by rewrite Hd, <-!app_assoc.
  - by eapply written_ref.
  - exists T. split; [|done]. by rewrite <-app_assoc.
Qed.

Lemma compress_match_ok data out_len ref s ts h pend post :
  wf_bytes data → zlen data < 2 ^ 32 → running data out_len s ts h pend post →
  c_ip s < zlen data - 2 → 0 < ref < c_ip s → c_ip s - ref - 1 < MAX_OFF →
  agree data ref (c_ip s) 3 →
  wp (compress_match data (zlen data) out_len ref (c_ip s - ref - 1) s)
     (step_post data out_len (c_ip s)).
Proof.
  intros Hw H32 Hrun Hip Href Hoff Ha. pose proof (running_cost _ _ _ _ _ _ _ Hrun) as Hcost.
  pose proof (r_len _ _ _ _ _ _ _ Hrun) as Hlen. pose proof (r_data _ _ _ _ _ _ _ Hrun) as Hd.
  pose proof (r_ip _ _ _ _ _ _ _ Hrun) as Hipe. rewrite <-zlen_app in Hipe.
  pose proof (stop_run_ok data out_len s ts h pend post Hw Hrun) as Hstop.
  destruct s as [ip op lit hval htab out]. unfold compress_match. cbn [c_ip c_op c_lit c_out] in *.
  set (maxlen := if uwrap 32 (zlen data - ip - 2) >? MAX_REF then _ else _).
  assert (1 ≤ maxlen ≤ MAX_REF ∧ ip + maxlen + 2 ≤ zlen data) as [Hmax Hmax2].
  { unfold maxlen. change MAX_REF with 264. rewrite uwrap_id by (unfold in_u; zl).
    destruct (Z.gtb_spec (zlen data - ip - 2) 264); lia. }
  assert (0 ≤ neg lit ≤ 1) as Hneg by (unfold neg; zbool; lia).
  destruct (_ && _) eqn:Eroom.
  { apply andb_true_iff in Eroom as [?%Z.geb_le _]. split; [done|]. unfold small. lia. }
  assert (op - neg lit + 4 < out_len) as Hroom.
  { apply andb_false_iff in Eroom. rewrite !Z.geb_leb, !Z.leb_gt in Eroom. lia. }
  destruct Hstop as (ts' & out' & T & -> & -> & Hlen' & Hzen & Hok & Hex & Hc'); [lia|].
  cbn [mbind option_bind]. apply wp_bind. eapply wp_mono; [by apply match_len_ok; try lia|].
  intros l (Hl & Hin & Hal). assert (3 ≤ l ≤ 264) as Hl' by done.
  rewrite (uwrap_id 32 (l - 2)) by (unfold in_u; lia). rewrite <-Hzen.
  destruct (put_ref_ok (encode ts') T (ip - ref - 1) (l - 2)) as (T' & -> & HT'); [lia|lia|zl|].
  cbn [mbind option_bind]. rewrite Z.sub_add in *.
  destruct (list_split post l) as (m & post' & -> & Hm & Hp'); [subst data; zl|].
  rewrite app_assoc in Hd.
  assert (∀ hval htab, Running data out_len (CState (ip + l)
    (zlen (encode ts' ++ encode1 (Ref (ip - ref - 1) l)) + 1) 0 hval htab
    (encode ts' ++ encode1 (Ref (ip - ref - 1) l) ++ T'))) as Hrun'.
  { intros hv ht. subst ip. eapply running_ref; try done; [lia|lia| |zl].
    by replace (zlen (h ++ pend) - (zlen (h ++ pend) - ref - 1) - 1) with ref by lia. }
  replace (ip + 1 + (l - 2) + 1) with (ip + l) by lia.
  destruct (Z.geb_spec (ip + l) (zlen data - 2)) as [Hend|Hmore]; [split; [done|simpl; lia]|].
  destruct (FRST_ok data (ip + l - 2)) as [v ->]; [lia..|]. cbn [mbind option_bind].
  destruct (NEXT_ok data (ip + l - 2) v) as [v1 ->]; [lia..|]. cbn [mbind option_bind].
  destruct (htab_set_ok htab v1 (ip + l - 2)) as [ht1 ->]. cbn [mbind option_bind].
  destruct (NEXT_ok data (ip + l - 2 + 1) v1) as [v2 ->]; [lia..|]. cbn [mbind option_bind].
  destruct (htab_set_ok ht1 v2 (ip + l - 2 + 1)) as [ht2 ->].
  replace (ip + l - 2 + 1 + 1) with (ip + l) by lia. split; [apply Hrun'|simpl; lia].
Qed.

Lemma compress_body_ok data out_len s :
  wf_bytes data → zlen data < 2 ^ 32 → Running data out_len s →
  wp (compress_body data (zlen data) out_len s) (step_post data out_len (c_ip s)).
Proof.
  intros Hw H32 (ts & h & pend & post & Hrun). unfold compress_body.
  destruct (Z.ltb_spec (c_ip s) (zlen data - 2)) as [Hip|Hend].
  2:{ split; [by exists ts, h, pend, post|lia]. }
  pose proof (r_ip _ _ _ _ _ _ _ Hrun) as Hipe.
  destruct (NEXT_ok data (c_ip s) (c_hval s)) as [v ->]; [zl|lia|]. cbn [mbind option_bind].
  destruct (htab_get_ok (c_htab s) v) as (ref & -> & Href). cbn [mbind option_bind].
  destruct (htab_set_ok (c_htab s) v (c_ip s)) as [ht ->]. cbn [mbind option_bind].
  apply wp_bind. eapply wp_mono; [apply match_found_ok; [done|zl|lia]|].
  set (s1 := CState (c_ip s) (c_op s) (c_lit s) v ht (c_out s)).
  assert (running data out_len s1 ts h pend post) as Hrun1 by (by destruct Hrun).
  intros [|] Hf.
  - destruct Hf as (Hlt & -> & Hoff & Ha); [done|]. by apply (compress_match_ok _ _ _ s1 ts h pend post).
  - destruct (Z.geb_spec (c_op s1) out_len) as [Hfull|Hfree].
    + split; [by destruct Hrun|]. cbn [c_op s1] in Hfull. pose proof (running_cost _ _ _ _ _ _ _ Hrun). unfold small. lia.
    + destruct post as [|x post]; [pose proof (r_data _ _ _ _ _ _ _ Hrun); subst data; zl|].
      destruct (put_lit_ok data out_len s1 ts h pend x post) as (s' & -> & Hr & Hi & _); [done..|].
      simpl. split; [done|]. rewrite Hi. simpl. lia.
Qed.

(** ** The end of the input *)
Lemma flush_ok data out_len s :
  wf_bytes data → Running data out_len s → c_op s + 3 ≤ out_len → zlen data - 2 ≤ c_ip s →
  wp (loop (S (length data)) (flush_body data (zlen data)) s) (λ s',
    Running data out_len s' ∧ c_ip s' = zlen data ∧ c_op s' ≤ out_len).
Proof.
  intros Hw Hrun Hroom Hip.
  apply (loop_wp (λ s, Running data out_len s ∧ zlen data - 2 ≤ c_ip s ≤ zlen data ∧
           (c_op s + 3 ≤ out_len ∨ zlen data - 1 ≤ c_ip s ∧ c_op s + 2 ≤ out_len ∨
            zlen data - 1 ≤ c_ip s ∧ c_op s + 1 ≤ out_len ∧ c_lit s = 0 ∨
            zlen data ≤ c_ip s ∧ c_op s ≤ out_len))
           (λ s, Z.to_nat (zlen data - c_ip s))).
  - intros s0 (Hr & Hi & Hb). unfold flush_body.
    destruct (Z.ltb_spec (c_ip s0) (zlen data)); [|split_and!; [done|lia|lia]].
    destruct Hr as (ts & h & pend & post & Hr).
    destruct post as [|x post]; [pose proof (r_data _ _ _ _ _ _ _ Hr);
      pose proof (r_ip _ _ _ _ _ _ _ Hr); subst data; zl|].
    destruct (put_lit_ok data out_len s0 ts h pend x post) as (s' & -> & Hr' & Hi' & _ & Ho);
      [done|done|lia|].
    simpl. split; [|lia]. split_and!; [done|lia|lia|]. lia.
  - destruct Hrun as (ts & h & pend & post & Hr). pose proof (r_ip _ _ _ _ _ _ _ Hr).
    pose proof (r_data _ _ _ _ _ _ _ Hr). split_and!; [by exists ts, h, pend, post|lia|subst data; zl|]. by left.
  - destruct Hrun as (ts & h & pend & post & Hr). pose proof (r_ip _ _ _ _ _ _ _ Hr). unfold zlen in *. lia.
Qed.

(** Whatever the hash table holds at the start, the code stays inside its blocks
    and writes a stream that stands for the input, or gives up. *)
Lemma compress_stream (htab : LZF_STATE) (data out : bytes) :
  wf_bytes data → 2 ≤ zlen data < 2 ^ 32 →
  wp (lzf_compress htab data out) (λ '(n, out'),
    zlen out' = zlen out ∧
    (n = 0 ∧ 32 * zlen out ≤ 33 * zlen data + 160 ∨
     0 < n ≤ zlen out ∧ decodes (take (Z.to_nat n) out') data)).
Proof.
  intros Hw Hlen. unfold lzf_compress. destruct (Z.eqb_spec (zlen data) 0); [lia|].
  destruct (Z.eqb_spec (zlen out) 0) as [E0|E0]; [split; [done|left; split; [done|lia]]|].
  destruct (FRST_ok data 0) as [v ->]; [lia..|]. cbn [orb mbind option_bind].
  apply wp_bind. eapply wp_mono.
  { apply (loop_wp (Running data (zlen out)) (λ s, Z.to_nat (zlen data - c_ip s)) (step_post data (zlen out) 0 ∘ inr)).
    - intros s Hs. eapply wp_mono; [apply compress_body_ok; [done|lia|done]|].
      destruct Hs as (ts & h & pend & post & Hr). pose proof (r_ip _ _ _ _ _ _ _ Hr).
      intros [s'|e]; [|done]. intros [Hs' Hlt]. split; [done|].
      destruct Hs' as (ts' & h' & pend' & post' & Hr'). pose proof (r_ip _ _ _ _ _ _ _ Hr').
      pose proof (r_data _ _ _ _ _ _ _ Hr'). subst data. zl.
    - exists [], [], [], data. split; try done; [simpl; zl|]. by exists out.
    - simpl. unfold zlen. lia. }
  intros [s|out']; cbn [compose step_post]; [|intros [? ?]; split; [done|by left]].
  intros [Hs Hip]. destruct (Z.gtb_spec (c_op s + 3) (zlen out)) as [Hfull|Hroom].
  - destruct Hs as (ts & h & pend & post & Hr). pose proof (running_cost _ _ _ _ _ _ _ Hr).
    destruct Hr. split; [done|]. left. split; [done|]. lia.
  - apply wp_bind. eapply wp_mono; [by apply flush_ok|].
    intros s' ((ts & h & pend & post & Hr) & Hip' & Hop').
    destruct (stop_run_ok data (zlen out) s' ts h pend post) as (ts' & out' & T & -> & -> & Hl' & Hz & Hok & Hex & _); [done..|].
    assert (post = []) as ->.
    { destruct Hr. apply zlen_0_nil. subst data. zl. }
    assert (h ++ pend = data) as Hd by (destruct Hr; by rewrite app_nil_r in r_data0). rewrite Hd in Hex.
    simpl. split; [done|]. right. split.
    + assert (ts' ≠ []) as Hne by (intros ->; injection Hex as Hex; rewrite <-Hex in Hlen; change (zlen []) with 0 in Hlen; lia).
      destruct ts' as [|t ts']; [done|]. rewrite <-Hz. rewrite encode_cons in *.
      pose proof (encode1_pos t). zl.
    + exists ts'. split_and!; [done| |done]. rewrite <-Hz. unfold zlen.
      by rewrite Nat2Z.id, take_app_length.
Qed.

(** C6: Compressing an input of at least two octets (and below 2^32) returns, and reads
    and writes inside its blocks; it gives up only when the
    block is not larger than the input by more than one part in 32 and five
    octets; otherwise decompressing what was written gives the input back, in
    any block that can hold it. *)
Theorem lzf_roundtrip (htab : LZF_STATE) (data out buf : bytes) :
  wf_bytes data → 2 ≤ zlen data < 2 ^ 32 → zlen data ≤ zlen buf →
  wp (lzf_compress htab data out) (λ '(n, out'), zlen out' = zlen out ∧
    (n = 0 ∧ 32 * zlen out ≤ 33 * zlen data + 160 ∨
     0 < n ≤ zlen out ∧
     lzf_decompress (take (Z.to_nat n) out') buf =
     Some (zlen data, None, data ++ drop (length data) buf))).
Proof.
  intros Hw Hlen Hbuf. eapply wp_mono; [by apply (compress_stream htab data out)|].
  intros [n out'] [Hl [Hs|[Hn (ts & Hok & -> & He)]]]; (split; [done|]); [by left|right].
  split; [done|]. apply decompress_expand; try done. intros ->. simpl in He. simplify_eq. zl.
Qed.

Lemma lzf_roundtrip_witness :
  ∃ n out', lzf_compress (λ i, i) (bytes_of "to be or not to be, to be or not"%string) (replicate 40 0) = Some (n, out') ∧
    n = 26 ∧
    lzf_decompress (take 26 out') (replicate 32 9) = Some (32, None, bytes_of "to be or not to be, to be or not"%string).
Proof.
  pose proof (lzf_roundtrip (λ i, i) (bytes_of "to be or not to be, to be or not"%string) (replicate 40 0) (replicate 32 9)) as H.
  destruct (wp_inv _ _ (H ltac:(apply (bool_decide_unpack _); vm_compute; exact I)
    ltac:(vm_compute; split; congruence) ltac:(vm_compute; congruence))) as ((n & out') & E & Hl & Hn).
  exists n, out'. split; [exact E|].
  assert (n = 26) as -> by (revert E; vm_compute; congruence). split; [done|].
  destruct Hn as [[? _]|[_ Hd]]; [done|]. exact Hd.
Defined.

(** A single octet: [FRST] reads the one behind the input. *)
Theorem lzf_compress_reads_past (htab : LZF_STATE) (b : Z) (out : bytes) :
  out ≠ [] → lzf_compress htab [b] out = None.
Proof.
  intros Ho. unfold lzf_compress. destruct out as [|o out]; [done|].
  destruct (Z.eqb_spec (zlen (o :: out)) 0); [zl|]. done.
Qed.
