(* ===== verification/Quicklist.v ===== *)
(** * quicklist.c: the lists of Redis, a linked list of packed lists

    A quicklist is a doubly linked list of nodes, each of which owns a ziplist,
    kept as it is or compressed.  The links of a [quicklistNode] are those of
    the nodes of [Adlist], in the same kind of heap; the rest of the node is the
    record [qnode].  [zl] points to a ziplist or to a [quicklistLZF]: using one
    for the other is an error ([None]).  The compressor is the interface
    [Compressor], with its law in [CompressorOk]; [lzf_compressor] is lzf_c.c and
    lzf_d.c.  Debug printing is left out. *)

From S2P Require Import Prelude.
From S2P Require Import Mem.
From S2P Require Import Util.
From S2P Require Import Ziplist.
From S2P Require Import Adlist.
From S2P Require Import Lzf.
Import Ziplist Adlist.

(** ** The compressor

    The size of the output block is an argument; an inner [None] is a return
    value of 0. *)
Class Compressor := {
  lz_compress : bytes → Z → option (option bytes);
  lz_decompress : bytes → Z → option (option bytes) }.

Definition lzf_compressor `{Alloc} (htab : LZF_STATE) : Compressor := {|
  lz_compress data out_len :=
    '(n, out) ← lzf_compress htab data (zmalloc out_len);
    Some (if n =? 0 then None else Some (take (Z.to_nat n) out));
  lz_decompress data out_len :=
    '(n, _, out) ← lzf_decompress data (zmalloc out_len);
    Some (if n =? 0 then None else Some out) |}.

Module Quicklist.

Definition QUICKLIST_NODE_ENCODING_RAW : Z := 1.
Definition QUICKLIST_NODE_ENCODING_LZF : Z := 2.
Definition SIZE_SAFETY_LIMIT : Z := 8192.
Definition MIN_COMPRESS_BYTES : Z := 48.
Definition MIN_COMPRESS_IMPROVE : Z := 8.
Definition COMPRESS_MAX : Z := Z.shiftl 1 16.
Definition FILL_MAX : Z := Z.shiftl 1 15.
Definition optimization_level : list Z := [4096; 8192; 16384; 32768; 65536].

Inductive where_to := QUICKLIST_HEAD | QUICKLIST_TAIL.

(** What [node->zl] points to. *)
Inductive zlptr := ZNull | Zl (b : bytes) | ZLzf (compressed : bytes).

(** The fields of a [quicklistNode] but for the links. *)
Record qnode := QNode {
  zl : zlptr; sz : Z; count : Z; encoding : Z; recompress : bool }.

Notation qheap := (heap qnode).

Record quicklist := Quicklist {
  head : option ptr; tail : option ptr; qcount : Z; len : Z; fill : Z; compress : Z }.

Record quicklistIter := QuicklistIter {
  current : option ptr; zi : option Z; offset : Z; direction : Adlist.direction }.

(** [value], [sz] and [longval] are one value. *)
Record quicklistEntry := QuicklistEntry {
  e_node : option ptr; e_zi : option Z; e_value : option zval; e_offset : Z }.

Section Quicklist.
Context `{Alloc} `{Compressor}.

(** ** Memory *)
Definition zlof (d : qnode) : option bytes := match zl d with Zl b => Some b | _ => None end.

Definition node_at (h : qheap) (p : ptr) : option qnode := value <$> nodes h !! p.

(** Change the fields of the node at [p]. *)
Definition updM (h : qheap) (p : ptr) (f : qnode → option qnode) : option qheap :=
  n ← nodes h !! p; d ← f (value n);
  Some (set_node h p (ListNode (prev n) (next n) d)).

Definition set_zl (d : qnode) (b : bytes) : qnode :=
  QNode (Zl b) (sz d) (count d) (encoding d) (recompress d).
Definition set_sz (d : qnode) (v : Z) : qnode :=
  QNode (zl d) v (count d) (encoding d) (recompress d).
Definition set_count (d : qnode) (v : Z) : qnode :=
  QNode (zl d) (sz d) (uwrap 16 v) (encoding d) (recompress d).
Definition set_recompress (d : qnode) : qnode :=
  QNode (zl d) (sz d) (count d) (encoding d) true.

Definition set_head (q : quicklist) (p : option ptr) : quicklist :=
  Quicklist p (tail q) (qcount q) (len q) (fill q) (compress q).
Definition set_tail (q : quicklist) (p : option ptr) : quicklist :=
  Quicklist (head q) p (qcount q) (len q) (fill q) (compress q).
Definition set_qcount (q : quicklist) (v : Z) : quicklist :=
  Quicklist (head q) (tail q) (uwrap 64 v) (len q) (fill q) (compress q).
Definition set_len (q : quicklist) (v : Z) : quicklist :=
  Quicklist (head q) (tail q) (qcount q) (uwrap 64 v) (fill q) (compress q).

(** ** Creation *)
Definition quicklistCreate : quicklist := Quicklist None None 0 0 (-2) 0.

(** The fields are bit fields of 16 bits, [fill] signed. *)
Definition quicklistSetCompressDepth (q : quicklist) (c : Z) : quicklist :=
  let c := if c >? COMPRESS_MAX then COMPRESS_MAX else if c <? 0 then 0 else c in
  Quicklist (head q) (tail q) (qcount q) (len q) (fill q) (uwrap 16 c).

Definition quicklistSetFill (q : quicklist) (f : Z) : quicklist :=
  let f := if f >? FILL_MAX then FILL_MAX else if f <? -5 then -5 else f in
  Quicklist (head q) (tail q) (qcount q) (len q) (swrap 16 f) (compress q).

Definition quicklistSetOptions (q : quicklist) (f depth : Z) : quicklist :=
  quicklistSetCompressDepth (quicklistSetFill q f) depth.

Definition quicklistNew (f c : Z) : quicklist := quicklistSetOptions quicklistCreate f c.

Definition quicklistCreateNode : qnode := QNode ZNull 0 0 QUICKLIST_NODE_ENCODING_RAW false.

Definition quicklistCount (q : quicklist) : Z := qcount q.

Fixpoint quicklistRelease_loop (n : nat) (q : quicklist) (h : qheap) (cur : option ptr) :
    option (quicklist * qheap) :=
  match n with
  | O => Some (q, h)
  | S n =>
      p ← cur; c ← nodes h !! p;
      let q := set_qcount q (qcount q - count (value c)) in
      h ← zfree_node h p;
      quicklistRelease_loop n (set_len q (len q - 1)) h (next c)
  end.

Definition quicklistRelease (q : quicklist) (h : qheap) : option qheap :=
  '(_, h) ← quicklistRelease_loop (Z.to_nat (len q)) q h (head q); Some h.

(** ** Compression of one node *)
Definition __quicklistCompressNode (d : qnode) : option (qnode * bool) :=
  if sz d <? MIN_COMPRESS_BYTES then Some (d, false) else
  b ← zlof d; data ← load b 0 (sz d);
  r ← lz_compress data (sz d);
  match r with
  | None => Some (d, false)
  | Some c =>
      if uwrap 32 (zlen c + MIN_COMPRESS_IMPROVE) >=? sz d then Some (d, false)
      else Some (QNode (ZLzf c) (sz d) (count d) QUICKLIST_NODE_ENCODING_LZF false, true)
  end.

Definition __quicklistDecompressNode (d : qnode) : option (qnode * bool) :=
  match zl d with
  | ZLzf c =>
      r ← lz_decompress c (sz d);
      match r with
      | None => Some (d, false)
      | Some b => Some (QNode (Zl b) (sz d) (count d) QUICKLIST_NODE_ENCODING_RAW (recompress d), true)
      end
  | _ => None
  end.

(** The three macros on a pointer that may be NULL. *)
Definition compress_node (d : qnode) : option qnode :=
  if encoding d =? QUICKLIST_NODE_ENCODING_RAW then fst <$> __quicklistCompressNode d else Some d.
Definition decompress_node (d : qnode) : option qnode :=
  if encoding d =? QUICKLIST_NODE_ENCODING_LZF then fst <$> __quicklistDecompressNode d else Some d.
Definition decompress_for_use (d : qnode) : option qnode :=
  if encoding d =? QUICKLIST_NODE_ENCODING_LZF
  then d ← fst <$> __quicklistDecompressNode d; Some (set_recompress d) else Some d.

Definition opt_upd (h : qheap) (p : option ptr) (f : qnode → option qnode) : option qheap :=
  match p with Some p => updM h p f | None => Some h end.

Definition quicklistCompressNode (h : qheap) (p : option ptr) : option qheap :=
  opt_upd h p compress_node.
Definition quicklistDecompressNode (h : qheap) (p : option ptr) : option qheap :=
  opt_upd h p decompress_node.
Definition quicklistDecompressNodeForUse (h : qheap) (p : option ptr) : option qheap :=
  opt_upd h p decompress_for_use.

(** The raw LZF data of a node. *)
Definition quicklistGetLzf (d : qnode) : option (bytes * Z) :=
  match zl d with ZLzf c => Some (c, zlen c) | _ => None end.

(** ** Compression to the depth asked for *)
Definition quicklistAllowsCompression (q : quicklist) : bool := negb (compress q =? 0).

(** [while (depth++ < quicklist->compress)]: [n] iterations are left.  [None] in
    the result is the [return] inside the loop. *)
Fixpoint compress_ends (n : nat) (h : qheap) (node forward reverse : option ptr) (in_depth : bool) :
    option (qheap * option (option ptr * option ptr * bool)) :=
  match n with
  | O => Some (h, Some (forward, reverse, in_depth))
  | S n =>
      h ← quicklistDecompressNode h forward;
      h ← quicklistDecompressNode h reverse;
      let in_depth := bool_decide (forward = node) || bool_decide (reverse = node) || in_depth in
      if bool_decide (forward = reverse) then Some (h, None) else
      f ← deref h forward; r ← deref h reverse;
      compress_ends n h node (next f) (prev r) in_depth
  end.

Definition __quicklistCompress (q : quicklist) (h : qheap) (node : option ptr) : option qheap :=
  if negb (quicklistAllowsCompression q) || (len q <? uwrap 32 (compress q * 2)) then Some h else
  '(h, r) ← compress_ends (Z.to_nat (compress q)) h node (head q) (tail q) false;
  match r with
  | None => Some h
  | Some (forward, reverse, in_depth) =>
      h ← (if in_depth : bool then Some h else quicklistCompressNode h node);
      (* [depth] is one more than the number of iterations *)
      if compress q + 1 >? 2 then
        h ← quicklistCompressNode h forward; quicklistCompressNode h reverse
      else Some h
  end.

Definition quicklistCompress (q : quicklist) (h : qheap) (p : ptr) : option qheap :=
  d ← node_at h p;
  if recompress d then quicklistCompressNode h (Some p) else __quicklistCompress q h (Some p).

Definition quicklistRecompressOnly (h : qheap) (p : ptr) : option qheap :=
  d ← node_at h p;
  if recompress d then quicklistCompressNode h (Some p) else Some h.

(** ** Nodes in the list *)

(** The links and ends when [new_node] is put next to [old_node]. *)
Definition insert_links (q : quicklist) (h : qheap) (old_node : option ptr) (new_node : ptr)
    (after : bool) : option (quicklist * qheap) :=
  '(q, h) ←
    (if after then
       h ← set_prev h (Some new_node) old_node;
       h ← match old_node with
           | Some _ =>
               o ← deref h old_node;
               h ← set_next h (Some new_node) (next o);
               h ← match next o with Some _ => set_prev h (next o) (Some new_node) | None => Some h end;
               set_next h old_node (Some new_node)
           | None => Some h
           end;
       Some (if bool_decide (tail q = old_node) then set_tail q (Some new_node) else q, h)
     else
       h ← set_next h (Some new_node) old_node;
       h ← match old_node with
           | Some _ =>
               o ← deref h old_node;
               h ← set_prev h (Some new_node) (prev o);
               h ← match prev o with Some _ => set_next h (prev o) (Some new_node) | None => Some h end;
               set_prev h old_node (Some new_node)
           | None => Some h
           end;
       Some (if bool_decide (head q = old_node) then set_head q (Some new_node) else q, h));
  Some (if len q =? 0 then set_tail (set_head q (Some new_node)) (Some new_node) else q, h).

Definition __quicklistInsertNode (q : quicklist) (h : qheap) (old_node : option ptr) (new_node : ptr)
    (after : bool) : option (quicklist * qheap) :=
  '(q, h) ← insert_links q h old_node new_node after;
  h ← match old_node with Some p => quicklistCompress q h p | None => Some h end;
  Some (set_len q (len q + 1), h).

Definition _quicklistNodeSizeMeetsOptimizationRequirement (s f : Z) : bool :=
  if f >=? 0 then false else
  let offset := uwrap 64 (- f - 1) in
  if offset <? zlen optimization_level then
    match optimization_level !! Z.to_nat offset with
    | Some level => s <=? level
    | None => false
    end
  else false.

Definition sizeMeetsSafetyLimit (s : Z) : bool := s <=? SIZE_SAFETY_LIMIT.

Definition _quicklistNodeAllowInsert (node : option qnode) (f s : Z) : bool :=
  match node with
  | None => false
  | Some d =>
      let ziplist_overhead := if s <? 254 then 1 else 5 in
      let ziplist_overhead :=
        ziplist_overhead + (if s <? 64 then 1 else if s <? 16384 then 2 else 5) in
      let new_sz := uwrap 32 (sz d + s + ziplist_overhead) in
      if _quicklistNodeSizeMeetsOptimizationRequirement new_sz f then true
      else if negb (sizeMeetsSafetyLimit new_sz) then false
      else count d <? f
  end.

Definition _quicklistNodeAllowMerge (a b : option qnode) (f : Z) : bool :=
  match a, b with
  | Some a, Some b =>
      let merge_sz := uwrap 32 (sz a + sz b - 11) in
      if _quicklistNodeSizeMeetsOptimizationRequirement merge_sz f then true
      else if negb (sizeMeetsSafetyLimit merge_sz) then false
      else count a + count b <=? f
  | _, _ => false
  end.

(** A pointer that may be NULL, and the fields behind it. *)
Definition fields (h : qheap) (p : option ptr) : option (option qnode) :=
  match p with Some p => Some <$> node_at h p | None => Some None end.

Definition quicklistNodeUpdateSz (d : qnode) : option qnode :=
  b ← zlof d; s ← ziplistBlobLen b; Some (set_sz d s).

(** [node->zl = f(node->zl)] and [quicklistNodeUpdateSz]. *)
Definition change_zl (f : bytes → option bytes) (d : qnode) : option qnode :=
  b ← zlof d; b ← f b; quicklistNodeUpdateSz (set_zl d b).

(** [node->count += n] *)
Definition add_count (n : Z) (d : qnode) : option qnode := Some (set_count d (count d + n)).

(** A new node with the ziplist [b], not yet in the list. *)
Definition new_node (h : qheap) (b : bytes) : option (qheap * ptr) :=
  let p := zmalloc_node h in
  d ← quicklistNodeUpdateSz (set_zl quicklistCreateNode b);
  Some (set_node h p (ListNode None None d), p).

Definition quicklistPushHead (q : quicklist) (h : qheap) (s : bytes) : option (quicklist * qheap * bool) :=
  let orig_head := head q in
  d ← fields h (head q);
  '(q, h) ←
    (if _quicklistNodeAllowInsert d (fill q) (zlen s) then
       p ← head q;
       h ← updM h p (change_zl (λ b, ziplistPush b s ZIPLIST_HEAD)); Some (q, h)
     else
       b ← ziplistNew; b ← ziplistPush b s ZIPLIST_HEAD;
       '(h, node) ← new_node h b;
       __quicklistInsertNode q h (head q) node false);
  let q := set_qcount q (qcount q + 1) in
  p ← head q;
  h ← updM h p (add_count 1);
  Some (q, h, bool_decide (orig_head ≠ head q)).

Definition quicklistPushTail (q : quicklist) (h : qheap) (s : bytes) : option (quicklist * qheap * bool) :=
  let orig_tail := tail q in
  d ← fields h (tail q);
  '(q, h) ←
    (if _quicklistNodeAllowInsert d (fill q) (zlen s) then
       p ← tail q;
       h ← updM h p (change_zl (λ b, ziplistPush b s ZIPLIST_TAIL)); Some (q, h)
     else
       b ← ziplistNew; b ← ziplistPush b s ZIPLIST_TAIL;
       '(h, node) ← new_node h b;
       __quicklistInsertNode q h (tail q) node true);
  let q := set_qcount q (qcount q + 1) in
  p ← tail q;
  h ← updM h p (add_count 1);
  Some (q, h, bool_decide (orig_tail ≠ tail q)).

Definition quicklistPush (q : quicklist) (h : qheap) (s : bytes) (w : where_to) :
    option (quicklist * qheap) :=
  '(q, h, _) ← match w with
               | QUICKLIST_HEAD => quicklistPushHead q h s
               | QUICKLIST_TAIL => quicklistPushTail q h s
               end;
  Some (q, h).

(** [node->count = ziplistLen(node->zl)]; counting may fix the header. *)
Definition update_count (d : qnode) : option qnode :=
  b ← zlof d; '(b, n) ← ziplistLen b; Some (set_count (set_zl d b) n).

Definition quicklistAppendZiplist (q : quicklist) (h : qheap) (b : bytes) : option (quicklist * qheap) :=
  let p := zmalloc_node h in
  d ← update_count (set_zl quicklistCreateNode b);
  d ← quicklistNodeUpdateSz d;
  let h := set_node h p (ListNode None None d) in
  '(q, h) ← __quicklistInsertNode q h (tail q) p true;
  d ← node_at h p;
  Some (set_qcount q (qcount q + count d), h).

(** The text that is stored for a value: [ll2string] of an integer. *)
Definition value_text (v : zval) : option bytes :=
  match v with
  | ZStr s => Some s
  | ZInt n => '(longstr, n) ← Util.ll2string (replicate 32 0) 32 n; load longstr 0 n
  end.

Definition append_values_body (b : bytes) (s : quicklist * qheap * option Z)
    : option (quicklist * qheap * option Z + quicklist * qheap) :=
  let '(q, h, p) := s in
  v ← match p with Some p => ziplistGet b p | None => Some None end;
  match v, p with
  | Some v, Some p =>
      t ← value_text v;
      '(q, h, _) ← quicklistPushTail q h t;
      p ← ziplistNext b p;
      Some (inl (q, h, p))
  | _, _ => Some (inr (q, h))
  end.

Definition quicklistAppendValuesFromZiplist (q : quicklist) (h : qheap) (b : bytes) :
    option (quicklist * qheap) :=
  p ← ziplistIndex b 0;
  loop (S (length b)) (append_values_body b) (q, h, p).

Definition quicklistCreateFromZiplist (f c : Z) (h : qheap) (b : bytes) : option (quicklist * qheap) :=
  quicklistAppendValuesFromZiplist (quicklistNew f c) h b.

(** ** Deletion *)
Definition __quicklistDelNode (q : quicklist) (h : qheap) (node : ptr) : option (quicklist * qheap) :=
  n ← nodes h !! node;
  h ← match next n with Some _ => set_prev h (next n) (prev n) | None => Some h end;
  h ← match prev n with Some _ => set_next h (prev n) (next n) | None => Some h end;
  let q := if bool_decide (Some node = tail q) then set_tail q (prev n) else q in
  let q := if bool_decide (Some node = head q) then set_head q (next n) else q in
  h ← __quicklistCompress q h None;
  d ← node_at h node;
  let q := set_qcount q (qcount q - count d) in
  h ← zfree_node h node;
  Some (set_len q (len q - 1), h).

(** The entry at [p] of the node; [true] when the node went with it. *)
Definition quicklistDelIndex (q : quicklist) (h : qheap) (node : ptr) (p : Z) :
    option (quicklist * qheap * bool) :=
  h ← updM h node (λ d, b ← zlof d; '(b, _) ← ziplistDelete b p; add_count (-1) (set_zl d b));
  d ← node_at h node;
  '(q, h, gone) ←
    (if count d =? 0 then '(q, h) ← __quicklistDelNode q h node; Some (q, h, true)
     else h ← updM h node quicklistNodeUpdateSz; Some (q, h, false));
  Some (set_qcount q (qcount q - 1), h, gone).

Definition quicklistDelEntry (q : quicklist) (h : qheap) (iter : quicklistIter) (entry : quicklistEntry) :
    option (quicklist * qheap * quicklistIter) :=
  node ← e_node entry; n ← nodes h !! node; p ← e_zi entry;
  '(q, h, deleted_node) ← quicklistDelIndex q h node p;
  Some (q, h,
    if deleted_node : bool then
      match direction iter with
      | AL_START_HEAD => QuicklistIter (next n) None 0 AL_START_HEAD
      | AL_START_TAIL => QuicklistIter (prev n) None (-1) AL_START_TAIL
      end
    else QuicklistIter (current iter) None (offset iter) (direction iter)).

(** ** Access by index *)
Definition initEntry : quicklistEntry := QuicklistEntry None None None 123456789.

(** The node that holds the element, and the number of elements skipped. *)
Definition index_body (h : qheap) (forward : bool) (index : Z) (s : option ptr * Z)
    : option (option ptr * Z + option ptr * Z) :=
  let '(n, accum) := s in
  match n with
  | None => Some (inr (None, accum))
  | Some p =>
      c ← nodes h !! p;
      if uwrap 64 (accum + count (value c)) >? index then Some (inr (Some p, accum))
      else Some (inl (if forward then next c else prev c, uwrap 64 (accum + count (value c))))
  end.

Definition quicklistIndex (q : quicklist) (h : qheap) (idx : Z) : option (qheap * quicklistEntry * bool) :=
  let forward := negb (idx <? 0) in
  let index := uwrap 64 (if forward then idx else - idx - 1) in
  let n := if forward then head q else tail q in
  if index >=? qcount q then Some (h, initEntry, false) else
  '(n, accum) ← loop (S (S (Z.to_nat (len q)))) (index_body h forward index) (n, 0);
  match n with
  | None => Some (h, initEntry, false)
  | Some p =>
      let off := swrap 32 (if forward then index - accum else - index - 1 + accum) in
      h ← quicklistDecompressNodeForUse h (Some p);
      d ← node_at h p; b ← zlof d;
      z ← ziplistIndex b off;
      v ← match z with Some z => ziplistGet b z | None => Some None end;
      Some (h, QuicklistEntry (Some p) z v off, true)
  end.

Definition quicklistReplaceAtIndex (q : quicklist) (h : qheap) (index : Z) (data : bytes) :
    option (qheap * bool) :=
  '(h, entry, found) ← quicklistIndex q h index;
  if found : bool then
    p ← e_node entry; z ← e_zi entry;
    h ← updM h p (change_zl (λ b, '(b, z) ← ziplistDelete b z; ziplistInsert b z data));
    h ← quicklistCompress q h p;
    Some (h, true)
  else Some (h, false).

(** ** Merging nodes *)

(** [ziplistMerge(&a->zl, &b->zl)] on the pointers: the block with more entries
    is kept, the other one is freed and its pointer set to NULL. *)
Definition merge_ptrs (a b : bytes) : option (zlptr * zlptr) :=
  la ← ZIPLIST_LENGTH a; lb ← ZIPLIST_LENGTH b;
  m ← ziplistMerge a b;
  Some (if lb <=? la then (Zl m, ZNull) else (ZNull, Zl m)).

Definition set_ptr (z : zlptr) (d : qnode) : option qnode :=
  Some (QNode z (sz d) (count d) (encoding d) (recompress d)).

Definition _quicklistZiplistMerge (q : quicklist) (h : qheap) (a b : ptr) :
    option (quicklist * qheap * option ptr) :=
  h ← quicklistDecompressNode h (Some a);
  h ← quicklistDecompressNode h (Some b);
  if bool_decide (a = b) then Some (q, h, None) else
  da ← node_at h a; db ← node_at h b;
  za ← zlof da; zb ← zlof db;
  '(za, zb) ← merge_ptrs za zb;
  h ← updM h a (set_ptr za); h ← updM h b (set_ptr zb);
  let '(keep, nokeep) := match za with ZNull => (b, a) | _ => (a, b) end in
  h ← updM h keep (λ d, d ← update_count d; quicklistNodeUpdateSz d);
  h ← updM h nokeep (λ d, Some (set_count d 0));
  '(q, h) ← __quicklistDelNode q h nokeep;
  h ← quicklistCompress q h keep;
  Some (q, h, Some keep).

(** [_quicklistNodeAllowMerge] on pointers, and the merge when it is allowed. *)
Definition try_merge (q : quicklist) (h : qheap) (a b : option ptr) :
    option (option (quicklist * qheap * option ptr)) :=
  da ← fields h a; db ← fields h b;
  if _quicklistNodeAllowMerge da db (fill q) then
    a ← a; b ← b; r ← _quicklistZiplistMerge q h a b; Some (Some r)
  else Some None.

Definition _quicklistMergeNodes (q : quicklist) (h : qheap) (center : ptr) : option (quicklist * qheap) :=
  c ← nodes h !! center;
  prev_prev ← match prev c with Some p => n ← nodes h !! p; Some (prev n) | None => Some None end;
  next_next ← match next c with Some p => n ← nodes h !! p; Some (next n) | None => Some None end;
  r ← try_merge q h prev_prev (prev c);
  let '(q, h) := match r with Some (q, h, _) => (q, h) | None => (q, h) end in
  r ← try_merge q h (next c) next_next;
  let '(q, h) := match r with Some (q, h, _) => (q, h) | None => (q, h) end in
  c ← nodes h !! center;
  r ← try_merge q h (prev c) (Some center);
  let '(q, h, target) := match r with Some r => r | None => (q, h, Some center) end in
  t ← deref h target;
  r ← try_merge q h target (next t);
  Some (match r with Some (q, h, _) => (q, h) | None => (q, h) end).

(** ** Insertion next to an entry *)

(** The new node with its part of the ziplist. *)
Definition _quicklistSplitNode (h : qheap) (node : ptr) (off : Z) (after : bool) :
    option (qheap * ptr) :=
  d ← node_at h node; b ← zlof d;
  data ← load b 0 (sz d);
  let p := zmalloc_node h in
  let orig_start := if after then off + 1 else 0 in
  let orig_extent := if after then -1 else off in
  let new_start := if after then 0 else off in
  let new_extent := if after then off + 1 else -1 in
  h ← updM h node (λ d, b ← zlof d; b ← ziplistDeleteRange b orig_start (uwrap 32 orig_extent);
                        d ← update_count (set_zl d b); quicklistNodeUpdateSz d);
  nb ← ziplistDeleteRange data new_start (uwrap 32 new_extent);
  nd ← update_count (set_zl quicklistCreateNode nb);
  nd ← quicklistNodeUpdateSz nd;
  Some (set_node h p (ListNode None None nd), p).

(** Use a node that may be compressed: change its ziplist, count one more, and
    compress it again if it was. *)
Definition insert_in_node (h : qheap) (node : ptr) (f : bytes → option bytes) : option qheap :=
  h ← quicklistDecompressNodeForUse h (Some node);
  h ← updM h node (λ d, d ← change_zl f d; add_count 1 d);
  quicklistRecompressOnly h node.

Definition _quicklistInsert (q : quicklist) (h : qheap) (entry : quicklistEntry) (s : bytes) (after : bool) :
    option (quicklist * qheap) :=
  match e_node entry with
  | None =>
      b ← ziplistNew; b ← ziplistPush b s ZIPLIST_HEAD;
      let p := zmalloc_node h in
      let h := set_node h p (ListNode None None (set_zl quicklistCreateNode b)) in
      '(q, h) ← __quicklistInsertNode q h None p after;
      h ← updM h p (add_count 1);
      Some (set_qcount q (qcount q + 1), h)
  | Some node =>
      n ← nodes h !! node;
      dn ← fields h (next n); dp ← fields h (prev n);
      let f := fill q in
      let full := negb (_quicklistNodeAllowInsert (Some (value n)) f (zlen s)) in
      let at_tail := after && (e_offset entry =? count (value n)) in
      let full_next := at_tail && negb (_quicklistNodeAllowInsert dn f (zlen s)) in
      let at_head := negb after && (e_offset entry =? 0) in
      let full_prev := at_head && negb (_quicklistNodeAllowInsert dp f (zlen s)) in
      let has_next := bool_decide (next n ≠ None) in
      let has_prev := bool_decide (prev n ≠ None) in
      '(q, h) ←
        (if negb full && after then
           z ← e_zi entry;
           h ← insert_in_node h node (λ b,
                 nx ← ziplistNext b z;
                 match nx with
                 | None => ziplistPush b s ZIPLIST_TAIL
                 | Some nx => ziplistInsert b nx s
                 end);
           Some (q, h)
         else if negb full && negb after then
           z ← e_zi entry;
           h ← insert_in_node h node (λ b, ziplistInsert b z s); Some (q, h)
         else if full && at_tail && has_next && negb full_next && after then
           p ← next n;
           h ← insert_in_node h p (λ b, ziplistPush b s ZIPLIST_HEAD); Some (q, h)
         else if full && at_head && has_prev && negb full_prev && negb after then
           p ← prev n;
           h ← insert_in_node h p (λ b, ziplistPush b s ZIPLIST_TAIL); Some (q, h)
         else if full && ((at_tail && has_next && full_next && after) ||
                          (at_head && has_prev && full_prev && negb after)) then
           b ← ziplistNew; b ← ziplistPush b s ZIPLIST_HEAD;
           '(h, p) ← new_node h b;
           h ← updM h p (add_count 1);
           __quicklistInsertNode q h (Some node) p after
         else
           h ← quicklistDecompressNodeForUse h (Some node);
           '(h, p) ← _quicklistSplitNode h node (e_offset entry) after;
           h ← updM h p (λ d, d ← change_zl (λ b, ziplistPush b s (if after then ZIPLIST_HEAD else ZIPLIST_TAIL)) d;
                              add_count 1 d);
           '(q, h) ← __quicklistInsertNode q h (Some node) p after;
           _quicklistMergeNodes q h node);
      Some (set_qcount q (qcount q + 1), h)
  end.

Definition quicklistInsertBefore (q : quicklist) (h : qheap) (entry : quicklistEntry) (s : bytes) :
    option (quicklist * qheap) := _quicklistInsert q h entry s false.

Definition quicklistInsertAfter (q : quicklist) (h : qheap) (entry : quicklistEntry) (s : bytes) :
    option (quicklist * qheap) := _quicklistInsert q h entry s true.

(** ** Deletion of a range *)
Definition del_range_body (s : quicklist * qheap * option ptr * Z * Z)
    : option (quicklist * qheap * option ptr * Z * Z + quicklist * qheap) :=
  let '(q, h, node, off, extent) := s in
  if extent =? 0 then Some (inr (q, h)) else
  p ← node; n ← nodes h !! p;
  let c := count (value n) in
  let '(delete_entire_node, del) :=
    if (off =? 0) && (extent >=? c) then (true, c)
    else if (off >=? 0) && (extent >=? c) then (false, uwrap 64 (c - off))
    else if off <? 0 then (false, if uwrap 64 (- off) >? extent then extent else uwrap 64 (- off))
    else (false, extent) in
  '(q, h) ←
    (if delete_entire_node : bool then __quicklistDelNode q h p
     else
       h ← quicklistDecompressNodeForUse h (Some p);
       h ← updM h p (λ d, d ← change_zl (λ b, ziplistDeleteRange b off (uwrap 32 del)) d; add_count (- del) d);
       let q := set_qcount q (qcount q - del) in
       d ← node_at h p;
       if count d =? 0 then __quicklistDelNode q h p
       else h ← quicklistRecompressOnly h p; Some (q, h));
  Some (inl (q, h, next n, 0, uwrap 64 (extent - del))).

Definition quicklistDelRange (q : quicklist) (h : qheap) (start cnt : Z) : option (quicklist * qheap * bool) :=
  if cnt <=? 0 then Some (q, h, false) else
  let extent := cnt in
  let extent :=
    if (start >=? 0) && (extent >? uwrap 64 (qcount q - start)) then uwrap 64 (qcount q - start)
    else if (start <? 0) && (extent >? uwrap 64 (- start)) then uwrap 64 (- start)
    else extent in
  '(h, entry, found) ← quicklistIndex q h start;
  if found : bool then
    '(q, h) ← loop (S (S (Z.to_nat (len q)))) del_range_body (q, h, e_node entry, e_offset entry, extent);
    Some (q, h, true)
  else Some (q, h, false).

Definition quicklistCompare (b : bytes) (p1 : Z) (p2 : bytes) : option bool := ziplistCompare b p1 p2.

(** ** Iterators *)
Definition quicklistGetIterator (q : quicklist) (d : Adlist.direction) : quicklistIter :=
  match d with
  | AL_START_HEAD => QuicklistIter (head q) None 0 d
  | AL_START_TAIL => QuicklistIter (tail q) None (-1) d
  end.

Definition quicklistGetIteratorAtIdx (q : quicklist) (h : qheap) (d : Adlist.direction) (idx : Z) :
    option (qheap * option quicklistIter) :=
  '(h, entry, found) ← quicklistIndex q h idx;
  Some (h, if found : bool then Some (QuicklistIter (e_node entry) None (e_offset entry) d) else None).

Definition quicklistReleaseIterator (q : quicklist) (h : qheap) (iter : quicklistIter) : option qheap :=
  match current iter with Some p => quicklistCompress q h p | None => Some h end.

(** One call; [inl] is the recursive call on the next node. *)
Definition next_body (q : quicklist) (s : qheap * quicklistIter)
    : option (qheap * quicklistIter + qheap * quicklistIter * quicklistEntry * bool) :=
  let '(h, iter) := s in
  match current iter with
  | None => Some (inr (h, iter, initEntry, false))
  | Some p =>
      '(h, z, off) ←
        (match zi iter with
         | None =>
             h ← quicklistDecompressNodeForUse h (Some p);
             d ← node_at h p; b ← zlof d;
             z ← ziplistIndex b (offset iter); Some (h, z, offset iter)
         | Some z =>
             d ← node_at h p; b ← zlof d;
             z ← match direction iter with
                 | AL_START_HEAD => ziplistNext b z
                 | AL_START_TAIL => ziplistPrev b z
                 end;
             Some (h, z, offset iter + match direction iter with AL_START_HEAD => 1 | AL_START_TAIL => -1 end)
         end);
      match z with
      | Some z' =>
          d ← node_at h p; b ← zlof d; v ← ziplistGet b z';
          Some (inr (h, QuicklistIter (Some p) z off (direction iter),
                     QuicklistEntry (Some p) z v (swrap 32 off), true))
      | None =>
          h ← quicklistCompress q h p;
          n ← nodes h !! p;
          Some (inl (h, match direction iter with
                        | AL_START_HEAD => QuicklistIter (next n) None 0 AL_START_HEAD
                        | AL_START_TAIL => QuicklistIter (prev n) None (-1) AL_START_TAIL
                        end))
      end
  end.

Definition quicklistNext (q : quicklist) (h : qheap) (iter : quicklistIter) :
    option (qheap * quicklistIter * quicklistEntry * bool) :=
  loop (S (S (Z.to_nat (len q)))) (next_body q) (h, iter).

(** ** Duplication *)
Definition dup_body (s : quicklist * qheap * option ptr) :
    option (quicklist * qheap * option ptr + quicklist * qheap) :=
  let '(copy, h, cur) := s in
  match cur with
  | None => Some (inr (copy, h))
  | Some p =>
      c ← nodes h !! p;
      let d := value c in
      z ← (if encoding d =? QUICKLIST_NODE_ENCODING_LZF then
             match zl d with ZLzf c => Some (ZLzf c) | _ => None end
           else b ← zlof d; b ← load b 0 (sz d); Some (Zl b));
      let node := zmalloc_node h in
      let h := set_node h node (ListNode None None (QNode z (sz d) (count d) (encoding d) false)) in
      let copy := set_qcount copy (qcount copy + count d) in
      '(copy, h) ← __quicklistInsertNode copy h (tail copy) node true;
      Some (inl (copy, h, next c))
  end.

Definition quicklistDup (orig : quicklist) (h : qheap) : option (quicklist * qheap) :=
  loop (S (S (Z.to_nat (len orig)))) dup_body (quicklistNew (fill orig) (compress orig), h, head orig).

(** ** Both ends *)

(** The value and its length, or the integer. *)
Definition quicklistPopCustom (q : quicklist) (h : qheap) (w : where_to) :
    option (quicklist * qheap * option zval) :=
  let pos := match w with QUICKLIST_HEAD => 0 | QUICKLIST_TAIL => -1 end in
  if qcount q =? 0 then Some (q, h, None) else
  match (match w with QUICKLIST_HEAD => head q | QUICKLIST_TAIL => tail q end) with
  | None => Some (q, h, None)
  | Some node =>
      d ← node_at h node; b ← zlof d;
      p ← ziplistIndex b pos;
      v ← match p with Some p => ziplistGet b p | None => Some None end;
      match v, p with
      | Some v, Some p =>
          '(q, h, _) ← quicklistDelIndex q h node p;
          Some (q, h, Some v)
      | _, _ => Some (q, h, None)
      end
  end.

Definition quicklistPop (q : quicklist) (h : qheap) (w : where_to) :
    option (quicklist * qheap * option zval) :=
  if qcount q =? 0 then Some (q, h, None) else quicklistPopCustom q h w.

(** The pushed string is a pointer into the ziplist of the tail: when the head
    is the same node, pushing reallocates the block it points to. *)
Definition quicklistRotate (q : quicklist) (h : qheap) : option (quicklist * qheap) :=
  if qcount q <=? 1 then Some (q, h) else
  t ← tail q; d ← node_at h t; b ← zlof d;
  p ← ziplistIndex b (-1); p ← p;
  v ← ziplistGet b p; v ← v;
  hd ← fields h (head q);
  s ← value_text v;
  let dangling := match v with
    | ZStr _ => bool_decide (head q = tail q) && _quicklistNodeAllowInsert hd (fill q) (zlen s)
    | ZInt _ => false
    end in
  if dangling then None else
  '(q, h, _) ← quicklistPushHead q h s;
  p ← (if len q =? 1 then
         t ← tail q; d ← node_at h t; b ← zlof d; z ← ziplistIndex b (-1); z
       else Some p);
  t ← tail q;
  '(q, h, _) ← quicklistDelIndex q h t p;
  Some (q, h).

End Quicklist.
End Quicklist.
