(* ===== verification/QuicklistRepr.v ===== *)
(** * The representation of a quicklist

    [qrep h q xs sss]: in the heap [h] the quicklist [q] consists of the nodes
    [xs], and these hold the strings [sss], node by node, compressed or not.  The
    file has the lemmas on one node (compression keeps its strings), on the
    heap, and on the pass that compresses the list to the configured depth. *)

From S2P Require Import Prelude.
From S2P Require Import Mem.
From S2P Require Import Util.
From S2P Require Import Ziplist.
From S2P Require Import ZiplistRepr.
From S2P Require Import ZiplistOps.
From S2P Require Import ZiplistSpec.
From S2P Require Import Adlist.
From S2P Require Import AdlistSpec.
From S2P Require Import Lzf.
From S2P Require Import LzfSpec.
From S2P Require Import LzfCompress.
From S2P Require Import Quicklist.
Import Ziplist Quicklist.
Import Adlist(ptr, ListNode, nodes, prev, next, value, heap, Heap, set_node, zmalloc_node, deref,
  set_next, set_prev, zfree_node).

(** ** The law of the compressor

    What it compresses comes back, when the decompressor is given a block of the
    right size. *)
Class CompressorOk `{Compressor} := {
  lz_compress_total data n :
    wf_bytes data → 2 ≤ zlen data < 2 ^ 32 → is_Some (lz_compress data n);
  lz_roundtrip data n c :
    wf_bytes data → 2 ≤ zlen data < 2 ^ 32 → lz_compress data n = Some (Some c) →
    lz_decompress c (zlen data) = Some (Some data) }.

Lemma zlen_zmalloc `{Alloc} n : 0 ≤ n → zlen (zmalloc n) = n.
Proof. intros. unfold zmalloc. rewrite zlen_fresh. lia. Qed.

#[export] Instance lzf_compressor_ok `{Alloc} (htab : LZF_STATE) : @CompressorOk (lzf_compressor htab).
Proof.
  split.
  - intros data n Hw Hlen. simpl.
    destruct (wp_inv _ _ (compress_stream htab data (zmalloc n) Hw Hlen)) as ([k out] & -> & _). by eexists.
  - intros data n c Hw Hlen. simpl.
    destruct (wp_inv _ _ (compress_stream htab data (zmalloc n) Hw Hlen)) as ([k out] & -> & _ & Hk).
    simpl. destruct Hk as [[-> _]|[Hk (ts & Hok & Hc & He)]]; [done|].
    destruct (Z.eqb_spec k 0); [lia|]. intros [= <-]. rewrite Hc.
    assert (ts ≠ []) as Hne by (intros ->; simpl in He; simplify_eq; zl).
    rewrite (decompress_expand ts _ data Hne Hok He) by (rewrite zlen_zmalloc; lia). simpl.
    destruct (Z.eqb_spec (zlen data) 0); [lia|]. do 2 f_equal.
    rewrite drop_ge, app_nil_r; [done|].
    pose proof (zlen_zmalloc (zlen data)) as Hz. unfold zlen in *. lia.
Qed.

(** ** The ziplist of a node *)
Definition zrep (b : bytes) (ss : list bytes) : Prop := ∃ es, zlist b es ss.

Lemma zrep_size b ss : zrep b ss → 11 + 2 * zlen ss ≤ zlen b < 2 ^ 32 ∧ zlen b ≤ 11 + budget ss.
Proof.
  intros (es & Hr & Hes). pose proof (zlist_len es ss Hes) as Hl. pose proof (zlist_budget es ss Hes).
  pose proof Hr as (c & _ & _ & Hlim & _). rewrite (zrepr_zlen _ _ Hr).
  assert (2 * zlen es ≤ total es); [|zlen_pos; lia].
  clear. induction es as [|e es IH]; [done|]. rewrite zlen_cons. simpl. pose proof (esize_pos e). lia.
Qed.

Lemma zrep_blob b ss : zrep b ss → ziplistBlobLen b = Some (zlen b).
Proof.
  intros (es & Hr & _). rewrite (zrepr_zlen _ _ Hr). destruct Hr as (c & -> & _ & Hlim & _).
  by apply zblock_bytes.
Qed.

Lemma wf_zhead v : val_ok v → wf_bytes (zhead v).
Proof.
  assert (∀ x, is_byte (Z.land x 255)) as H255.
  { intros x. rewrite land_255. apply Z.mod_pos_bound. lia. }
  intros Hv. destruct v as [s|n]; simpl.
  - unfold zipEntryEncoding_buf. change (ZIP_IS_STR 0) with true. cbv iota. zlen_pos.
    destruct (Z.leb_spec (zlen s) 63); [|destruct (Z.leb_spec (zlen s) 16383)].
    + constructor; [|constructor]. change ZIP_STR_06B with (Z.shiftl 0 6).
      rewrite lor_shiftl by lia. unfold is_byte. lia.
    + constructor; [|constructor; [apply H255|constructor]]. change ZIP_STR_14B with (Z.shiftl 1 6).
      rewrite land_63. pose proof (Z.mod_pos_bound (Z.shiftr (zlen s) 8) 64 ltac:(lia)).
      rewrite lor_shiftl by lia. unfold is_byte. lia.
    + constructor; [by unfold is_byte; change ZIP_STR_32B with 128; lia|].
      repeat (constructor; [apply H255|]). constructor.
  - constructor; [|constructor]. pose proof (zipIntEncoding_range n). unfold is_byte. lia.
Qed.

Lemma wf_zdata s : wf_bytes s → wf_bytes (zdata (zval_of s)).
Proof.
  intros Hs. unfold zval_of. destruct (zipTryEncoding s) as [[n e]|]; simpl; [apply wf_le_split|done].
Qed.

Lemma wf_lay es : ∀ ss q, Forall wf_bytes ss → es.*2 = zval_of <$> ss → wf_es q es → wf_bytes (lay q es).
Proof.
  induction es as [|e es IH]; intros ss q Hss Hes Hwf; [constructor|].
  destruct ss as [|s ss]; [done|]. rewrite !fmap_cons in Hes. injection Hes as Hv Hes.
  apply Forall_cons in Hss as [Hs Hss]. simpl in Hwf. destruct Hwf as ([Hq Hb] & Hval & _ & Hwf).
  simpl. unfold ebytes, zbody. rewrite Hv in *. rewrite !wf_bytes_app. split_and!; [|by apply wf_zhead|by apply wf_zdata|].
  - unfold enc_prevlen. destruct e.1; [constructor; [by unfold is_byte; lia|apply wf_le_split]|].
    constructor; [|constructor]. specialize (Hb eq_refl). unfold is_byte. lia.
  - by eapply IH.
Qed.

Lemma zrep_wf b ss : Forall wf_bytes ss → zrep b ss → wf_bytes b.
Proof.
  intros Hss (es & (c & -> & Hwf & _) & Hes). unfold zblock, hdr. rewrite !wf_bytes_app.
  split_and!; try apply wf_le_split; [by eapply wf_lay|]. constructor; [|constructor].
  unfold is_byte. change ZIP_END with 255. lia.
Qed.

(** ** One node *)
Section Nodes.
Context `{Alloc} `{CompressorOk}.

Notation RAW := QUICKLIST_NODE_ENCODING_RAW.
Notation LZF := QUICKLIST_NODE_ENCODING_LZF.

(** The block of a node, behind its compression. *)
Definition holds (d : qnode) (b : bytes) : Prop :=
  encoding d = RAW ∧ zl d = Zl b ∨
  encoding d = LZF ∧ ∃ c, zl d = ZLzf c ∧ lz_decompress c (sz d) = Some (Some b).

(** The ziplist, its size and its strings; the count is a separate matter, since
    the code sets it later. *)
Record node_ok (d : qnode) (ss : list bytes) : Prop := {
  n_max : zlen ss < 2 ^ 16;
  n_wf : Forall wf_bytes ss;
  n_block : ∃ b, zrep b ss ∧ sz d = zlen b ∧ holds d b }.

Definition raw (d : qnode) : Prop := encoding d = RAW.

Lemma raw_block d ss : node_ok d ss → raw d → ∃ b, zl d = Zl b ∧ zrep b ss ∧ sz d = zlen b.
Proof.
  intros [_ _ (b & Hb & Hs & [[_ Hz]|[He _]])] Hr; [by exists b|].
  unfold raw in Hr. rewrite He in Hr. done.
Qed.

Lemma decompress_both d ss :
  node_ok d ss → encoding d = LZF → ∃ b, __quicklistDecompressNode d =
    Some (QNode (Zl b) (sz d) (count d) RAW (recompress d), true) ∧ zrep b ss ∧ sz d = zlen b.
Proof.
  intros [_ _ (b & Hb & Hs & [[He' _]|(_ & c & Hz & Hd)])] He; [by rewrite He in He'|].
  exists b. unfold __quicklistDecompressNode. rewrite Hz, Hd. done.
Qed.

(** Neither compressing nor decompressing changes the strings. *)
Lemma decompress_node_ok d ss :
  node_ok d ss → ∃ d', decompress_node d = Some d' ∧ node_ok d' ss ∧ raw d' ∧
    recompress d' = recompress d ∧ count d' = count d.
Proof.
  intros Hok. unfold decompress_node. destruct (Z.eqb_spec (encoding d) LZF) as [He|He].
  - destruct (decompress_both d ss Hok He) as (b & -> & Hb & Hs). eexists. split; [done|].
    destruct Hok as [Hm Hw _]. split; [|done]. split; try done.
    exists b. split_and!; try done. by left.
  - exists d. split; [done|]. split; [done|]. split; [|done].
    destruct Hok as [_ _ (b & _ & _ & [[Hr _]|[Hl _]])]; [done|contradiction].
Qed.

Lemma for_use_ok d ss :
  node_ok d ss → ∃ d', decompress_for_use d = Some d' ∧ node_ok d' ss ∧ raw d' ∧
    (raw d → d' = d) ∧ (count d' = count d ∧ sz d' = sz d).
Proof.
  intros Hok. unfold decompress_for_use. destruct (Z.eqb_spec (encoding d) LZF) as [He|He].
  - destruct (decompress_both d ss Hok He) as (b & -> & Hb & Hs). eexists. split; [done|].
    destruct Hok as [Hm Hw _]. split_and!; try done; [|by unfold raw; rewrite He].
    split; try done. exists b. split_and!; try done. by left.
  - exists d. split; [done|]. split_and!; try done.
    destruct Hok as [_ _ (b & _ & _ & [[Hr _]|[Hl _]])]; [done|contradiction].
Qed.

Lemma compress_node_ok d ss :
  node_ok d ss → ∃ d', compress_node d = Some d' ∧ node_ok d' ss ∧
    (recompress d' = true → recompress d = true) ∧ (count d' = count d ∧ sz d' = sz d).
Proof.
  intros Hok. unfold compress_node. destruct (Z.eqb_spec (encoding d) RAW) as [He|He].
  2:{ exists d. split_and!; done. }
  destruct (raw_block d ss Hok He) as (b & Hz & Hb & Hs).
  pose proof (zrep_size b ss Hb) as [Hsz _]. zlen_pos.
  unfold __quicklistCompressNode. destruct (Z.ltb_spec (sz d) MIN_COMPRESS_BYTES) as [|Hmin].
  { eexists. split; [done|]. split_and!; done. }
  assert (wf_bytes b) as Hw by (eapply zrep_wf; [by destruct Hok|done]).
  unfold zlof. rewrite Hz. cbn [mbind option_bind]. rewrite Hs.
  rewrite (load_at b [] b []) by (by rewrite ?app_nil_r). cbn [mbind option_bind].
  destruct (lz_compress_total b (zlen b) Hw ltac:(lia)) as [[c|] Hc]; rewrite Hc; simpl.
  2:{ exists d. split_and!; done. }
  destruct (Z.geb_spec (uwrap 32 (zlen c + MIN_COMPRESS_IMPROVE)) (zlen b)).
  { exists d. split_and!; done. }
  eexists. split; [done|]. destruct Hok as [Hm Hws _]. split_and!; try done.
  split; try done. exists b. split_and!; try done. right. split; [done|]. exists c. split; [done|]. simpl.
  by apply (lz_roundtrip b (zlen b)); [|lia|].
Qed.

(** Changing the ziplist of a node that is not compressed. *)
Lemma change_zl_ok d ss f b' ss' :
  node_ok d ss → raw d → (∀ b, zl d = Zl b → zrep b ss → f b = Some b') → zrep b' ss' →
  change_zl f d = Some (QNode (Zl b') (zlen b') (count d) (encoding d) (recompress d)).
Proof.
  intros Hok Hr Hf Hb'. destruct (raw_block d ss Hok Hr) as (b & Hz & Hb & Hs).
  unfold change_zl, zlof. rewrite Hz. cbn [mbind option_bind]. rewrite (Hf b Hz Hb). cbn [mbind option_bind].
  unfold quicklistNodeUpdateSz, zlof. simpl. by rewrite (zrep_blob b' ss' Hb').
Qed.

Lemma raw_node_ok b ss n e r :
  zrep b ss → zlen ss < 2 ^ 16 → Forall wf_bytes ss → e = RAW →
  node_ok (QNode (Zl b) (zlen b) n e r) ss.
Proof. intros. split; try done. exists b. split_and!; try done. by left. Qed.
End Nodes.

(** ** Nodes in the heap *)
Notation cells := (list (ptr * qnode)).

Definition before (xs : cells) (i : nat) : option ptr :=
  match i with O => None | S j => fst <$> xs !! j end.

Lemma lastp_take (xs : cells) i pv :
  (i ≤ length xs)%nat → lastp (take i xs) pv = match i with O => pv | S j => fst <$> xs !! j end.
Proof.
  intros Hi. destruct i as [|j]; [done|].
  destruct (lookup_lt_is_Some_2 xs j ltac:(lia)) as [[p d] Hp].
  rewrite (take_S_r xs j (p, d)) by done. by rewrite lastp_snoc, Hp.
Qed.

Lemma first_lookup (xs : cells) : first xs None = fst <$> xs !! 0%nat.
Proof. by destruct xs as [|[]]. Qed.

Lemma lastp_lookup (xs : cells) : lastp xs None = before xs (length xs).
Proof. rewrite <-(take_ge xs (length xs)) at 1 by lia. by rewrite lastp_take. Qed.

Lemma first_drop (xs : cells) i : first (drop i xs) None = fst <$> xs !! i.
Proof. rewrite first_lookup, lookup_drop. by rewrite Nat.add_0_r. Qed.

Lemma seg_lookup m (xs : cells) i p d :
  seg m None xs None → xs !! i = Some (p, d) →
  m !! p = Some (ListNode (before xs i) (fst <$> xs !! S i) d).
Proof.
  intros Hs Hi. pose proof (lookup_lt_Some _ _ _ Hi). rewrite <-(take_drop_middle xs i _ Hi) in Hs.
  apply seg_mid in Hs as (_ & -> & _). rewrite first_drop, lastp_take by lia. by destruct i.
Qed.

Lemma updM_at (h : heap qnode) (xs : cells) i p d f d' :
  seg (nodes h) None xs None → NoDup xs.*1 → xs !! i = Some (p, d) → f d = Some d' →
  ∃ h', updM h p f = Some h' ∧ seg (nodes h') None (<[i := (p, d')]> xs) None ∧
    dom (nodes h') = dom (nodes h) ∧ (∀ r, r ≠ p → nodes h' !! r = nodes h !! r).
Proof.
  intros Hs Hnd Hi Hf. unfold updM. rewrite (seg_lookup _ _ _ _ _ Hs Hi). simpl. rewrite Hf.
  eexists. split; [done|]. simpl. split_and!.
  - pose proof (lookup_lt_Some _ _ _ Hi).
    rewrite insert_take_drop by done. rewrite <-(take_drop_middle xs i _ Hi) in Hs, Hnd.
    apply seg_mid in Hs as (Ha & Hp & Hb). apply NoDup_mid in Hnd as (_ & Hpa & Hpb).
    apply seg_mid. split_and!; [by apply seg_insert| |by apply seg_insert].
    rewrite lookup_insert_eq, first_drop, lastp_take by lia. by destruct i.
  - rewrite dom_insert_lookup_L; [done|]. rewrite (seg_lookup _ _ _ _ _ Hs Hi). by eexists.
  - intros r Hr. by apply lookup_insert_ne.
Qed.

Lemma insert_fst (xs : cells) i p d d' : xs !! i = Some (p, d) → (<[i := (p, d')]> xs).*1 = xs.*1.
Proof. intros Hi. rewrite list_fmap_insert. apply list_insert_id. by rewrite list_lookup_fmap, Hi. Qed.

Lemma ptr_index (xs : cells) i j p d e :
  NoDup xs.*1 → xs !! i = Some (p, d) → xs !! j = Some (p, e) → i = j.
Proof.
  intros Hnd Hi Hj. eapply NoDup_lookup; [done|..]; rewrite list_lookup_fmap;
    [by rewrite Hi|by rewrite Hj].
Qed.

Lemma fst_lookup (xs : cells) i p : fst <$> xs !! i = Some p → ∃ d, xs !! i = Some (p, d).
Proof. destruct (xs !! i) as [[q d]|]; simpl; [|done]. intros [= ->]. eauto. Qed.

Section Pass.
Context `{Alloc} `{CompressorOk}.

Definition nodes_ok (xs : cells) (sss : list (list bytes)) : Prop :=
  Forall2 (λ c ss, node_ok c.2 ss) xs sss.

(** Two stages of the list that differ in the encoding of the nodes. *)
Record stage (h : heap qnode) (xs : cells) (sss : list (list bytes)) (h' : heap qnode) (xs' : cells) : Prop := {
  st_seg : seg (nodes h') None xs' None;
  st_fst : xs'.*1 = xs.*1;
  st_ok : nodes_ok xs' sss;
  st_dom : dom (nodes h') = dom (nodes h);
  st_frame : ∀ p, p ∉ xs.*1 → nodes h' !! p = nodes h !! p;
  st_calm : ∀ i c c', xs !! i = Some c → xs' !! i = Some c' → recompress c'.2 = true → recompress c.2 = true;
  st_count : ∀ i c c', xs !! i = Some c → xs' !! i = Some c' → count c'.2 = count c.2 }.

Definition raw_at (xs : cells) (i : nat) : Prop := ∀ c, xs !! i = Some c → raw c.2.

Lemma stage_refl h xs sss : seg (nodes h) None xs None → nodes_ok xs sss → stage h xs sss h xs.
Proof. intros Hs Hok. split; try done; by intros i c c' -> [= ->]. Qed.

Lemma stage_trans h xs sss h1 xs1 h2 xs2 :
  stage h xs sss h1 xs1 → stage h1 xs1 sss h2 xs2 → stage h xs sss h2 xs2.
Proof.
  intros [Hs1 Hf1 Hk1 Hd1 Hr1 Hc1 Hn1] [Hs2 Hf2 Hk2 Hd2 Hr2 Hc2 Hn2].
  assert (∀ i c, xs !! i = Some c → is_Some (xs1 !! i)) as Hsome.
  { intros i c Hi. apply lookup_lt_is_Some. rewrite <-(length_fmap fst xs1), Hf1, length_fmap. by eapply lookup_lt_Some. }
  split; [done|congruence|done|congruence|intros p Hp; rewrite Hr2 by (by rewrite Hf1); by apply Hr1|..];
    intros i c c' Hi Hi'; destruct (Hsome i c Hi) as [c1 Hi1]; [by eauto|].
  rewrite (Hn2 i c1 c' Hi1 Hi'). by eapply Hn1.
Qed.

Lemma nodes_ok_lookup xs sss i p d :
  nodes_ok xs sss → xs !! i = Some (p, d) → ∃ ss, sss !! i = Some ss ∧ node_ok d ss.
Proof. intros Hok Hi. destruct (Forall2_lookup_l _ _ _ _ _ Hok Hi) as (ss & ? & ?). eauto. Qed.

Lemma nodes_ok_insert xs sss i p d ss :
  nodes_ok xs sss → sss !! i = Some ss → node_ok d ss → nodes_ok (<[i := (p, d)]> xs) sss.
Proof.
  intros Hok Hi Hd. rewrite <-(list_insert_id sss i ss Hi). by apply Forall2_insert.
Qed.

(** A change of one node that keeps its strings. *)
Lemma stage_upd h xs sss p f (Q : qnode → qnode → Prop) :
  seg (nodes h) None xs None → NoDup xs.*1 → nodes_ok xs sss → p ∈ xs.*1 →
  (∀ d ss, node_ok d ss → ∃ d', f d = Some d' ∧ node_ok d' ss ∧
     (recompress d' = true → recompress d = true) ∧ count d' = count d ∧ Q d d') →
  ∃ h' i d d', updM h p f = Some h' ∧ xs !! i = Some (p, d) ∧ Q d d' ∧
    stage h xs sss h' (<[i := (p, d')]> xs).
Proof.
  intros Hs Hnd Hok Hp Hf.
  apply list_elem_of_lookup in Hp as [i Hi]. rewrite list_lookup_fmap in Hi.
  apply fst_lookup in Hi as [d Hi].
  destruct (nodes_ok_lookup xs sss i p d Hok Hi) as (ss & Hss & Hd).
  destruct (Hf d ss Hd) as (d' & Hfd & Hd' & Hre & Hcn & HQ).
  destruct (updM_at h xs i p d f d' Hs Hnd Hi Hfd) as (h' & Hu & Hs' & Hdom & Hfr).
  exists h', i, d, d'. split_and!; try done. split; try done.
  - by eapply insert_fst.
  - by eapply nodes_ok_insert.
  - intros r Hr. apply Hfr. intros ->. apply Hr, list_elem_of_lookup. exists i. by rewrite list_lookup_fmap, Hi.
  - intros j c c' Hj Hj'. destruct (decide (i = j)) as [<-|Hne].
    + rewrite list_lookup_insert_eq in Hj' by (by eapply lookup_lt_Some). by simplify_eq.
    + rewrite list_lookup_insert_ne in Hj' by done. by simplify_eq.
  - intros j c c' Hj Hj'. destruct (decide (i = j)) as [<-|Hne].
    + rewrite list_lookup_insert_eq in Hj' by (by eapply lookup_lt_Some). by simplify_eq.
    + rewrite list_lookup_insert_ne in Hj' by done. by simplify_eq.
Qed.

(** The macros on a pointer into the list. *)
Lemma decompress_at h xs sss i p d :
  seg (nodes h) None xs None → NoDup xs.*1 → nodes_ok xs sss → xs !! i = Some (p, d) →
  ∃ h' xs', quicklistDecompressNode h (Some p) = Some h' ∧ stage h xs sss h' xs' ∧
    raw_at xs' i ∧ (∀ j, raw_at xs j → raw_at xs' j).
Proof.
  intros Hs Hnd Hok Hi.
  destruct (stage_upd h xs sss p decompress_node (λ _ d', raw d') Hs Hnd Hok) as (h' & i' & d0 & d' & Hu & Hi' & Hr & Hst).
  { apply list_elem_of_lookup. exists i. by rewrite list_lookup_fmap, Hi. }
  { intros d0 ss Hd0. destruct (decompress_node_ok d0 ss Hd0) as (d' & ? & ? & ? & Hre & ?).
    exists d'. rewrite Hre. split_and!; done. }
  pose proof (ptr_index _ _ _ _ _ _ Hnd Hi Hi') as <-.
  exists h', (<[i := (p, d')]> xs). split_and!; try done.
  - intros c. rewrite list_lookup_insert_eq by (by eapply lookup_lt_Some). by intros [= <-].
  - intros j Hj c. destruct (decide (i = j)) as [<-|Hne].
    + rewrite list_lookup_insert_eq by (by eapply lookup_lt_Some). by intros [= <-].
    + rewrite list_lookup_insert_ne by done. apply Hj.
Qed.

Lemma compress_at h xs sss p :
  seg (nodes h) None xs None → NoDup xs.*1 → nodes_ok xs sss → (∀ q, p = Some q → q ∈ xs.*1) →
  ∃ h' xs', quicklistCompressNode h p = Some h' ∧ stage h xs sss h' xs' ∧
    (∀ j, fst <$> xs !! j ≠ p → raw_at xs j → raw_at xs' j).
Proof.
  intros Hs Hnd Hok Hp. destruct p as [p|].
  2:{ exists h, xs. split_and!; [done|by apply stage_refl|done]. }
  destruct (stage_upd h xs sss p compress_node (λ _ _, True) Hs Hnd Hok) as (h' & i & d & d' & Hu & Hi & _ & Hst).
  { by apply Hp. }
  { intros d ss Hd. destruct (compress_node_ok d ss Hd) as (d' & ? & ? & ? & ? & _). exists d'. split_and!; done. }
  exists h', (<[i := (p, d')]> xs). split_and!; [done|done|].
  intros j Hj Hr c. destruct (decide (i = j)) as [<-|Hne]; [by rewrite Hi in Hj|].
  rewrite list_lookup_insert_ne by done. apply Hr.
Qed.

Lemma stage_lookup h xs sss h' xs' i p d :
  stage h xs sss h' xs' → xs !! i = Some (p, d) → ∃ d', xs' !! i = Some (p, d').
Proof.
  intros Hst Hi. apply fst_lookup. rewrite <-list_lookup_fmap, (st_fst _ _ _ _ _ Hst).
  by rewrite list_lookup_fmap, Hi.
Qed.

Lemma stage_ptr h xs sss h' xs' i : stage h xs sss h' xs' → fst <$> xs' !! i = fst <$> xs !! i.
Proof. intros Hst. by rewrite <-!list_lookup_fmap, (st_fst _ _ _ _ _ Hst). Qed.

Lemma stage_before h xs sss h' xs' i : stage h xs sss h' xs' → before xs' i = before xs i.
Proof. intros Hst. destruct i as [|j]; [done|]. by eapply stage_ptr. Qed.

Lemma stage_length h xs sss h' xs' : stage h xs sss h' xs' → length xs' = length xs.
Proof. intros Hst. by rewrite <-(length_fmap fst xs'), (st_fst _ _ _ _ _ Hst), length_fmap. Qed.

Lemma stage_nodup h xs sss h' xs' : stage h xs sss h' xs' → NoDup xs.*1 → NoDup xs'.*1.
Proof. intros Hst. by rewrite (st_fst _ _ _ _ _ Hst). Qed.

(** The indices the loop visits in [n] rounds from round [i]. *)
Definition covered (N i n j : nat) : Prop := (i ≤ j < i + n ∨ N - (i + n) ≤ j < N - i)%nat.

(** One round: both ends are decompressed. *)
Lemma ends_round h xs sss i (N := length xs) :
  seg (nodes h) None xs None → NoDup xs.*1 → nodes_ok xs sss → (2 * i < N)%nat →
  ∃ h1 h2 xs2, quicklistDecompressNode h (fst <$> xs !! i) = Some h1 ∧
    quicklistDecompressNode h1 (before xs (N - i)) = Some h2 ∧
    stage h xs sss h2 xs2 ∧ raw_at xs2 i ∧ raw_at xs2 (N - 1 - i) ∧
    (∀ j, raw_at xs j → raw_at xs2 j).
Proof.
  intros Hs Hnd Hok Hi.
  destruct (lookup_lt_is_Some_2 xs i ltac:(lia)) as [[p d] Hp].
  destruct (lookup_lt_is_Some_2 xs (N - 1 - i) ltac:(lia)) as [[p' d'] Hp'].
  destruct (decompress_at h xs sss i p d Hs Hnd Hok Hp) as (h1 & xs1 & Hu1 & Hst1 & Hr1 & Hm1).
  destruct (stage_lookup _ _ _ _ _ _ _ _ Hst1 Hp') as [d1' Hp1'].
  destruct (decompress_at h1 xs1 sss (N - 1 - i) p' d1') as (h2 & xs2 & Hu2 & Hst2 & Hr2 & Hm2);
    [by destruct Hst1|by eapply stage_nodup|by destruct Hst1|done|].
  exists h1, h2, xs2. rewrite Hp. simpl. split; [done|].
  replace (N - i)%nat with (S (N - 1 - i)) by lia. simpl. rewrite Hp'. simpl.
  split_and!; auto. by eapply stage_trans.
Qed.

Lemma compress_ends_ok n : ∀ i h xs sss node ind (N := length xs),
  seg (nodes h) None xs None → NoDup xs.*1 → nodes_ok xs sss → (2 * i ≤ N ∧ 2 * (i + n) ≤ N + 1)%nat →
  ∃ h' xs' r, compress_ends n h node (fst <$> xs !! i) (before xs (N - i)) ind = Some (h', r) ∧
    stage h xs sss h' xs' ∧ (∀ j, raw_at xs j → raw_at xs' j) ∧
    (∀ j, covered N i n j → raw_at xs' j) ∧
    match r with
    | None => (2 * (i + n) = N + 1)%nat
    | Some (f, rv, ind') => (2 * (i + n) ≤ N)%nat ∧ f = fst <$> xs !! (i + n)%nat ∧
        rv = before xs (N - (i + n)) ∧
        (ind' = false → ind = false ∧ ∀ j, covered N i n j → fst <$> xs !! j ≠ node)
    end.
Proof.
  induction n as [|n IH]; intros i h xs sss node ind N Hs Hnd Hok Hi.
  { exists h, xs. eexists. split; [done|]. rewrite Nat.add_0_r. unfold covered.
    split_and!; try done; [by apply stage_refl|intros; lia|lia|]. intros ->. split; [done|]. intros; lia. }
  destruct (ends_round h xs sss i Hs Hnd Hok) as (h1 & h2 & xs2 & Hu1 & Hu2 & Hst & Hri & Hrr & Hm); [fold N; lia|].
  fold N in Hu2, Hrr. cbn [compress_ends]. rewrite Hu1. cbn [mbind option_bind]. rewrite Hu2.
  cbn [mbind option_bind].
  destruct (lookup_lt_is_Some_2 xs i ltac:(fold N; lia)) as [[p d] Hp].
  destruct (lookup_lt_is_Some_2 xs (N - 1 - i) ltac:(fold N; lia)) as [[p' d'] Hp'].
  replace (before xs (N - i)) with (Some p')
    by (replace (N - i)%nat with (S (N - 1 - i)) by lia; simpl; by rewrite Hp').
  rewrite Hp. simpl fmap. destruct (bool_decide_reflect (Some p = Some p')) as [[= <-]|Hne].
  - pose proof (ptr_index _ _ _ _ _ _ Hnd Hp Hp') as Heq.
    exists h2, xs2, None. split_and!; [done|done|done| |lia].
    intros j Hj. unfold covered in Hj. replace j with i by lia. done.
  - assert (i ≠ (N - 1 - i)%nat) as Hii by (intros Heq; rewrite <-Heq, Hp in Hp'; congruence).
    destruct (stage_lookup _ _ _ _ _ _ _ _ Hst Hp) as [d2 Hp2].
    destruct (stage_lookup _ _ _ _ _ _ _ _ Hst Hp') as [d2' Hp2'].
    unfold deref. simpl. rewrite (seg_lookup _ _ _ _ _ (st_seg _ _ _ _ _ Hst) Hp2).
    cbn [mbind option_bind]. rewrite (seg_lookup _ _ _ _ _ (st_seg _ _ _ _ _ Hst) Hp2').
    cbn [mbind option_bind next prev].
    set (ind1 := bool_decide (Some p = node) || bool_decide (Some p' = node) || ind).
    pose proof (stage_length _ _ _ _ _ Hst) as Hlen.
    specialize (IH (S i) h2 xs2 sss node ind1 (st_seg _ _ _ _ _ Hst) (stage_nodup _ _ _ _ _ Hst Hnd) (st_ok _ _ _ _ _ Hst)).
    rewrite Hlen in IH. fold N in IH. replace (N - S i)%nat with (N - 1 - i)%nat in IH by lia.
    assert (∀ j, covered N i 1 j → raw_at xs2 j) as Hc1.
    { intros j Hj. unfold covered in Hj. destruct (decide (j = i)) as [->|]; [done|].
      by replace j with (N - 1 - i)%nat by lia. }
    assert (ind1 = false → ind = false ∧ ∀ j, covered N i 1 j → fst <$> xs !! j ≠ node) as Hind.
    { unfold ind1. intros [[Hq1%bool_decide_eq_false Hq2%bool_decide_eq_false]%orb_false_iff Hi3]%orb_false_iff.
      split; [done|]. intros j Hj. unfold covered in Hj. destruct (decide (j = i)) as [->|]; [by rewrite Hp|].
      replace j with (N - 1 - i)%nat by lia. by rewrite Hp'. }
    destruct IH as (h' & xs' & r & Hrun & Hst' & Hm' & Hcov & Hr); [lia|].
    exists h', xs', r. split; [done|]. split; [by eapply stage_trans|]. split; [by auto|]. split.
    { intros j Hj. unfold covered in *. destruct (decide (j = i ∨ j = N - 1 - i)%nat); [apply Hm', Hc1; lia|apply Hcov; lia]. }
    destruct r as [[[f rv] ind']|]; [|lia]. destruct Hr as (Hle & -> & -> & Hi').
    split_and!; [lia| | |].
    + rewrite (stage_ptr _ _ _ _ _ _ Hst). do 2 f_equal. lia.
    + rewrite (stage_before _ _ _ _ _ _ Hst). f_equal. lia.
    + intros Hf. destruct (Hi' Hf) as [Hf1 Hj1]. destruct (Hind Hf1) as [Hf0 Hj0]. split; [done|].
      intros j Hj. unfold covered in *.
      destruct (decide (j = i ∨ j = N - 1 - i)%nat); [apply Hj0; lia|].
      rewrite <-(stage_ptr _ _ _ _ _ _ Hst). apply Hj1. lia.
Qed.

Lemma ptr_ne (xs : cells) i j : NoDup xs.*1 → (i < length xs)%nat → i ≠ j → fst <$> xs !! i ≠ fst <$> xs !! j.
Proof.
  intros Hnd Hi Hne Heq. destruct (lookup_lt_is_Some_2 xs i Hi) as [[p d] Hp]. rewrite Hp in Heq. simpl in Heq.
  symmetry in Heq. apply fst_lookup in Heq as [e He]. apply Hne. by eapply ptr_index.
Qed.

Lemma before_in (xs : cells) i p : before xs i = Some p → p ∈ xs.*1.
Proof.
  destruct i as [|i]; [done|]. simpl. intros [d Hd]%fst_lookup.
  apply list_elem_of_lookup. exists i. by rewrite list_lookup_fmap, Hd.
Qed.

Lemma lookup_in (xs : cells) i p : fst <$> xs !! i = Some p → p ∈ xs.*1.
Proof. apply (before_in xs (S i)). Qed.

(** Where the pass has done its work: both ends are not compressed, and in a
    list that is too short for the depth nothing is. *)
Definition passed (q : quicklist) (xs xs' : cells) : Prop :=
  (compress q = 0 ∨ len q < 2 * compress q) ∧ xs' = xs ∨
  0 < compress q ∧ 2 * compress q ≤ len q ∧ raw_at xs' 0 ∧ raw_at xs' (length xs - 1) ∧
  (zlen xs < 2 * compress q → ∀ j, raw_at xs' j).

Lemma compress_three h xs sss (c : nat) (node : option ptr) (ind deep : bool) (N := length xs) :
  seg (nodes h) None xs None → NoDup xs.*1 → nodes_ok xs sss → (0 < c)%nat → (2 * c ≤ N)%nat →
  (∀ p, node = Some p → p ∈ xs.*1) → (deep = true → (2 ≤ c)%nat) →
  (ind = false → fst <$> xs !! 0%nat ≠ node ∧ fst <$> xs !! (N - 1)%nat ≠ node) →
  raw_at xs 0 → raw_at xs (N - 1) →
  ∃ h' xs', (h ← (if ind then Some h else quicklistCompressNode h node);
             if deep then h ← quicklistCompressNode h (fst <$> xs !! c); quicklistCompressNode h (before xs (N - c))
             else Some h) = Some h' ∧
    stage h xs sss h' xs' ∧ raw_at xs' 0 ∧ raw_at xs' (N - 1).
Proof.
  intros Hs Hnd Hok Hc HN Hnode Hdeep Hind Hraw0 Hraw1.
  assert (∃ h1 xs1, (if ind then Some h else quicklistCompressNode h node) = Some h1 ∧
    stage h xs sss h1 xs1 ∧ raw_at xs1 0 ∧ raw_at xs1 (N - 1)) as (h1 & xs1 & -> & Hst1 & Hr0 & Hr1).
  { destruct ind; [exists h, xs; split_and!; [done|by apply stage_refl|done|done]|].
    destruct (Hind eq_refl) as [Hn0 Hn1].
    destruct (compress_at h xs sss node Hs Hnd Hok Hnode) as (h1 & xs1 & -> & Hst & Hk).
    exists h1, xs1. split_and!; auto. }
  cbn [mbind option_bind]. destruct deep; [|by exists h1, xs1]. specialize (Hdeep eq_refl).
  assert (NoDup xs1.*1) as Hnd1 by (by eapply stage_nodup).
  pose proof (stage_length _ _ _ _ _ Hst1) as Hl1. fold N in Hl1.
  rewrite <-(stage_ptr _ _ _ _ _ c Hst1).
  destruct (compress_at h1 xs1 sss (fst <$> xs1 !! c) (st_seg _ _ _ _ _ Hst1) Hnd1 (st_ok _ _ _ _ _ Hst1))
    as (h2 & xs2 & -> & Hst2 & Hk2); [intros p; apply lookup_in|].
  cbn [mbind option_bind].
  assert (NoDup xs2.*1) as Hnd2 by (by eapply stage_nodup).
  pose proof (stage_length _ _ _ _ _ Hst2) as Hl2. rewrite Hl1 in Hl2.
  rewrite <-(stage_before _ _ _ _ _ (N - c) Hst1), <-(stage_before _ _ _ _ _ (N - c) Hst2).
  destruct (compress_at h2 xs2 sss (before xs2 (N - c)) (st_seg _ _ _ _ _ Hst2) Hnd2 (st_ok _ _ _ _ _ Hst2))
    as (h3 & xs3 & -> & Hst3 & Hk3); [intros p; apply before_in|].
  exists h3, xs3. split; [done|]. split; [by eapply stage_trans, stage_trans|].
  replace (N - c)%nat with (S (N - 1 - c)) in Hk3 by lia. cbn [before] in Hk3.
  split; (apply Hk3; [apply ptr_ne; [done|lia|lia]|apply Hk2; [apply ptr_ne; [done|lia|lia]|done]]).
Qed.

Lemma compress_pass q h xs sss node :
  seg (nodes h) None xs None → NoDup xs.*1 → nodes_ok xs sss →
  head q = first xs None → tail q = lastp xs None →
  0 ≤ compress q < 2 ^ 16 → len q ≤ zlen xs + 1 → (∀ p, node = Some p → p ∈ xs.*1) →
  ∃ h' xs', __quicklistCompress q h node = Some h' ∧ stage h xs sss h' xs' ∧ passed q xs xs'.
Proof.
  intros Hs Hnd Hok Hh Ht Hc Hlen Hnode. unfold __quicklistCompress, quicklistAllowsCompression.
  rewrite negb_involutive. rewrite uwrap_id by (unfold in_u; lia).
  destruct (Z.eqb_spec (compress q) 0) as [E0|E0].
  { exists h, xs. split; [done|]. split; [by apply stage_refl|]. left. split; [by left|done]. }
  destruct (Z.ltb_spec (len q) (compress q * 2)) as [Hl|Hl]; cbn [orb].
  { exists h, xs. split; [done|]. split; [by apply stage_refl|]. left. split; [right; lia|done]. }
  set (c := Z.to_nat (compress q)). assert (Z.of_nat c = compress q) as Hcz by (unfold c; lia).
  assert (2 * c ≤ length xs + 1)%nat as HN by (unfold zlen in *; lia).
  rewrite Hh, Ht, first_lookup, lastp_lookup.
  pose proof (compress_ends_ok c 0 h xs sss node false Hs Hnd Hok) as Hends. rewrite Nat.sub_0_r in Hends.
  destruct Hends as (h1 & xs1 & r & -> & Hst & _ & Hcov & Hr); [lia|].
  cbn [mbind option_bind]. pose proof (stage_length _ _ _ _ _ Hst) as Hl1. destruct r as [[[f rv] ind]|].
  - destruct Hr as (Hle & -> & -> & Hind). rewrite !Nat.add_0_l in *.
    rewrite <-(stage_ptr _ _ _ _ _ c Hst), <-(stage_before _ _ _ _ _ (length xs - c) Hst). rewrite <-Hl1 in *.
    destruct (compress_three h1 xs1 sss c node ind (compress q + 1 >? 2)) as (h2 & xs2 & Hrun & Hst2 & Hr0 & Hr1);
      [by destruct Hst|by eapply stage_nodup|by destruct Hst|lia|lia| | | | | |].
    + intros p Hp. rewrite (st_fst _ _ _ _ _ Hst). auto.
    + intros ?%Z.gtb_lt. lia.
    + intros Hf. destruct (Hind Hf) as [_ Hj]. rewrite !(stage_ptr _ _ _ _ _ _ Hst).
      split; apply Hj; unfold covered; lia.
    + apply Hcov. unfold covered. lia.
    + apply Hcov. unfold covered. lia.
    + exists h2, xs2. split; [exact Hrun|]. split; [by eapply stage_trans|]. right.
      unfold zlen in *. rewrite Hl1 in *. split_and!; [lia|lia|done|done|lia].
  - exists h1, xs1. split; [done|]. split; [done|]. right.
    assert (∀ j, raw_at xs1 j) as Hall.
    { intros j. destruct (decide (j < length xs)%nat) as [Hj|Hj]; [apply Hcov; unfold covered; lia|].
      intros d Hd%lookup_lt_Some. lia. }
    unfold zlen in *. split_and!; [lia|lia|apply Hall|apply Hall|by auto].
Qed.
End Pass.
