(* ===== verification/QuicklistLinks.v ===== *)
(** * Nodes enter and leave a quicklist

    [__quicklistInsertNode] and [__quicklistDelNode]: the links, the ends, and
    the compression pass they end with.  The strings of the other nodes stay
    what they are, whatever is compressed on the way. *)

From S2P Require Import Prelude.
From S2P Require Import Mem.
From S2P Require Import Util.
From S2P Require Import Ziplist.
From S2P Require Import ZiplistSpec.
From S2P Require Import Adlist.
From S2P Require Import AdlistSpec.
From S2P Require Import Quicklist.
From S2P Require Import QuicklistRepr.
Import Ziplist Quicklist.
Import Adlist(ptr, ListNode, nodes, prev, next, value, heap, Heap, set_node, zmalloc_node, deref,
  set_next, set_prev, zfree_node, freed).

Lemma bind_then {A B C} (m : option A) (f : A → option B) (k : B → option C) r :
  (m ≫= f) = Some r → (m ≫= λ a, f a ≫= k) = k r.
Proof. destruct m; simpl; [|done]. by intros ->. Qed.

(** ** The links *)
Definition same_fields (q q' : quicklist) : Prop :=
  qcount q' = qcount q ∧ len q' = len q ∧ fill q' = fill q ∧ compress q' = compress q.

Lemma links_new (h : heap qnode) p d a b :
  nodes h !! p = Some (ListNode a b d) →
  ∀ x, set_prev h (Some p) x = Some (set_node h p (ListNode x b d)) ∧
       set_next h (Some p) x = Some (set_node h p (ListNode a x d)).
Proof. intros Hp x. split; [by rewrite (set_prev_at h p _ x Hp)|by rewrite (set_next_at h p _ x Hp)]. Qed.

Lemma set_node_twice (h : heap qnode) p n n' : set_node (set_node h p n) p n' = set_node h p n'.
Proof. unfold set_node. simpl. by rewrite insert_insert_eq. Qed.

(** Between its neighbours. *)
Lemma qinsert_mid (h : heap qnode) (A B : cells) p d (after : bool) o :
  seg (nodes h) None (A ++ B) None → NoDup (A ++ B).*1 → p ∉ (A ++ B).*1 →
  nodes h !! p = Some (ListNode None None d) →
  Some o = (if after then lastp A None else first B None) →
  ∃ h', (if after then
           h ← set_prev h (Some p) (Some o);
           n ← deref h (Some o);
           h ← set_next h (Some p) (next n);
           h ← match next n with Some _ => set_prev h (next n) (Some p) | None => Some h end;
           set_next h (Some o) (Some p)
         else
           h ← set_next h (Some p) (Some o);
           n ← deref h (Some o);
           h ← set_prev h (Some p) (prev n);
           h ← match prev n with Some _ => set_next h (prev n) (Some p) | None => Some h end;
           set_prev h (Some o) (Some p)) = Some h' ∧
    seg (nodes h') None (A ++ (p, d) :: B) None ∧
    (∀ r, r ∉ (A ++ B).*1 → r ≠ p → nodes h' !! r = nodes h !! r) ∧ dom (nodes h') = dom (nodes h).
Proof.
  intros Hs Hnd Hp Hpd Ho.
  pose proof (seg_new_mid (nodes h) A B p d Hs Hnd Hp) as Hnew.
  set (m := link_prev (link_next (<[p := ListNode (lastp A None) (first B None) d]> (nodes h))
              (lastp A None) (Some p)) (first B None) (Some p)) in Hnew.
  assert (dom m = dom (nodes h)) as Hdom.
  { unfold m. rewrite dom_link_prev, dom_link_next. apply dom_insert_lookup_L. by rewrite Hpd. }
  assert (∀ r, r ∉ (A ++ B).*1 → r ≠ p → m !! r = nodes h !! r) as Hfr.
  { intros r Hr Hrp. rewrite fmap_app in Hr. unfold m.
    rewrite lookup_link_prev_ne by (intros ?%first_in; set_solver).
    rewrite lookup_link_next_ne by (intros ?%lastp_in; set_solver). by apply lookup_insert_ne. }
  assert (o ∈ (A ++ B).*1 ∧ nodes h !! o ≠ None) as [Hoin Hon].
  { assert (o ∈ (A ++ B).*1) as Hin.
    { rewrite fmap_app. destruct after; [symmetry in Ho; apply lastp_in in Ho|symmetry in Ho; apply first_in in Ho]; set_solver. }
    split; [done|]. apply (seg_dom _ _ _ _ _ Hs), elem_of_dom in Hin. by destruct Hin as [? ->]. }
  assert (o ≠ p) as Hop by (intros ->; done).
  exists (Heap m (freed h)). split; [|done].
  assert (∀ q v, (∀ r, q = Some r → r ∈ (A ++ B).*1) → ∀ n,
    match q with Some _ => set_prev (set_node h p n) q v | None => Some (set_node h p n) end =
    Some (Heap (link_prev (<[p := n]> (nodes h)) q v) (freed h))) as Hop1.
  { intros q v Hq n. rewrite opt_set_prev; [done|]. intros r Hr. simpl. rewrite dom_insert. apply elem_of_union_r.
    eapply seg_dom; [done|]. by apply Hq. }
  assert (∀ q v, (∀ r, q = Some r → r ∈ (A ++ B).*1) → ∀ n,
    match q with Some _ => set_next (set_node h p n) q v | None => Some (set_node h p n) end =
    Some (Heap (link_next (<[p := n]> (nodes h)) q v) (freed h))) as Hop2.
  { intros q v Hq n. rewrite opt_set_next; [done|]. intros r Hr. simpl. rewrite dom_insert. apply elem_of_union_r.
    eapply seg_dom; [done|]. by apply Hq. }
  assert (∀ n, deref (set_node h p n) (Some o) = nodes h !! o) as Hde.
  { intros n. unfold deref. simpl. by apply lookup_insert_ne. }
  destruct after.
  - rewrite (proj1 (links_new h p d None None Hpd (Some o))). cbn [mbind option_bind]. rewrite Hde.
    destruct (lastp_cases A) as [[-> HA]|(A' & o' & od & -> & HA)]; [by rewrite HA in Ho|].
    rewrite HA in Ho. injection Ho as <-. rewrite <-app_assoc in Hs. simpl in Hs.
    pose proof Hs as (_ & Hod & _)%seg_mid. rewrite Hod. cbn [mbind option_bind next].
    rewrite (proj2 (links_new (set_node h p (ListNode (Some o) None d)) p d (Some o) None (lookup_insert_eq _ _ _) (first B None))).
    cbn [mbind option_bind]. rewrite set_node_twice.
    rewrite Hop1 by (intros r Hr%first_in; rewrite fmap_app; set_solver). cbn [mbind option_bind].
    rewrite set_next_link by (simpl; rewrite dom_link_prev, dom_insert; apply elem_of_union_r, elem_of_dom; rewrite Hod; eauto).
    do 2 f_equal. simpl nodes. unfold m. rewrite HA. apply link_comm.
  - rewrite (proj2 (links_new h p d None None Hpd (Some o))). cbn [mbind option_bind]. rewrite Hde.
    destruct B as [|[o' od] B]; [done|]. simpl in Ho. injection Ho as <-.
    pose proof Hs as (_ & Hod & _)%seg_mid. rewrite Hod. cbn [mbind option_bind prev].
    rewrite (proj1 (links_new (set_node h p (ListNode None (Some o) d)) p d None (Some o) (lookup_insert_eq _ _ _) (lastp A None))).
    cbn [mbind option_bind]. rewrite set_node_twice.
    rewrite Hop2 by (intros r Hr%lastp_in; rewrite fmap_app; set_solver). cbn [mbind option_bind].
    rewrite set_prev_link by (simpl; rewrite dom_link_next, dom_insert; apply elem_of_union_r, elem_of_dom; rewrite Hod; eauto).
    done.
Qed.

(** The list in the heap, with the ends of the record. *)
Record linked (h : heap qnode) (q : quicklist) (xs : cells) : Prop := {
  l_seg : seg (nodes h) None xs None;
  l_nodup : NoDup xs.*1;
  l_head : head q = first xs None;
  l_tail : tail q = lastp xs None }.

Lemma linked_tail_is h q (A B : cells) :
  linked h q (A ++ B) → A ≠ [] → bool_decide (tail q = lastp A None) = bool_decide (B = []).
Proof.
  intros [_ Hnd _ Ht] HA. rewrite Ht, lastp_app. apply bool_decide_ext.
  destruct (lastp_cases B) as [[-> HB]|(B' & r & w & -> & HB)]; [done|].
  destruct (lastp_cases A) as [[-> _]|(A' & o & od & -> & HA')]; [done|].
  rewrite lastp_snoc, HA'. split; [|by destruct B']. intros [= <-].
  rewrite !fmap_app in Hnd. apply NoDup_app in Hnd as (_ & Hd & _). exfalso. apply (Hd r); set_solver.
Qed.

Lemma linked_head_is h q (A B : cells) :
  linked h q (A ++ B) → B ≠ [] → bool_decide (head q = first B None) = bool_decide (A = []).
Proof.
  intros [_ Hnd Hh _] HB. rewrite Hh, first_app. apply bool_decide_ext.
  destruct A as [|[a ad] A]; [done|]. destruct B as [|[b bd] B]; [done|]. simpl.
  split; [|done]. intros [= ->]. rewrite fmap_app in Hnd. simpl in Hnd.
  apply NoDup_cons in Hnd as [Hd _]. exfalso. apply Hd. set_solver.
Qed.

Lemma insert_links_ok h q (A B : cells) p d (after : bool) :
  linked h q (A ++ B) → (len q =? 0) = bool_decide (A ++ B = []) → p ∉ (A ++ B).*1 →
  nodes h !! p = Some (ListNode None None d) → (if after then B ≠ [] → A ≠ [] else A ≠ [] → B ≠ []) →
  ∃ q' h', insert_links q h (if after then lastp A None else first B None) p after = Some (q', h') ∧
    linked h' q' (A ++ (p, d) :: B) ∧ same_fields q q' ∧
    (∀ r, r ∉ (A ++ B).*1 → r ≠ p → nodes h' !! r = nodes h !! r) ∧ dom (nodes h') = dom (nodes h).
Proof.
  intros Hl Hlen Hp Hpd Hside. pose proof Hl as [Hs Hnd Hh Ht]. unfold insert_links.
  destruct (decide (A ++ B = [])) as [E|E].
  - apply app_eq_nil in E as [-> ->]. cbn [app first] in *. change (lastp [] None) with (@None ptr) in *.
    destruct (links_new h p d None None Hpd None) as [H1 H2].
    assert (set_node h p (ListNode None None d) = h) as Hid
      by (destruct h; unfold set_node; simpl in *; by rewrite insert_id).
    exists (Quicklist (Some p) (Some p) (qcount q) (len q) (fill q) (compress q)), h. rewrite Hid in *.
    destruct after; rewrite ?H1, ?H2; cbn [mbind option_bind].
    + rewrite Ht.
      rewrite bool_decide_eq_true_2 by done. cbn [mbind option_bind set_tail len]. rewrite Hlen. split; [done|].
      split_and!; try done. split; try done. apply NoDup_singleton.
    + rewrite Hh. rewrite bool_decide_eq_true_2 by done. cbn [mbind option_bind set_head len]. rewrite Hlen. split; [done|].
      split_and!; try done. split; try done. apply NoDup_singleton.
  - rewrite bool_decide_eq_false_2 in Hlen by done.
    assert (∃ o, Some o = if after then lastp A None else first B None) as [o Ho].
    { destruct after.
      - destruct (lastp_cases A) as [[-> _]|(A' & o & od & -> & ->)]; [|by exists o].
        exfalso. destruct B; [done|]. by apply Hside.
      - destruct B as [|[o od] B]; [|by exists o]. exfalso. destruct A; [done|]. by apply Hside. }
    destruct (qinsert_mid h A B p d after o Hs Hnd Hp Hpd Ho) as (h' & Hrun & Hs' & Hfr & Hdom).
    assert (NoDup (A ++ (p, d) :: B).*1) as Hnd'.
    { apply NoDup_mid. rewrite fmap_app in Hp. set_solver. }
    assert (linked h' (if after then if bool_decide (B = []) then set_tail q (Some p) else q
                       else if bool_decide (A = []) then set_head q (Some p) else q) (A ++ (p, d) :: B)) as Hl'.
    { split; try done.
      - destruct after; [|destruct A as [|[] A]; [done|rewrite bool_decide_eq_false_2 by done; by rewrite Hh]].
        assert (A ≠ []) by (intros ->; destruct B; [done|]; by apply Hside). destruct A as [|[] A]; [done|].
        destruct (bool_decide _); exact Hh.
      - rewrite lastp_app, lastp_cons. rewrite lastp_app in Ht. destruct after.
        + destruct (lastp_cases B) as [[-> _]|(B' & r & w & -> & HB)]; [done|].
          rewrite bool_decide_eq_false_2 by (by destruct B'). by rewrite Ht, !lastp_snoc.
        + assert (B ≠ []) by (intros ->; rewrite app_nil_r in E; by apply Hside).
          destruct (lastp_cases B) as [[-> _]|(B' & r & w & -> & HB)]; [done|].
          rewrite lastp_snoc in *. by destruct (bool_decide _). }
    destruct after; rewrite <-Ho.
    + rewrite (bind_then _ _ (λ h, Some (if bool_decide (tail q = Some o) then set_tail q (Some p) else q, h)) _ Hrun).
      cbn [mbind option_bind].
      rewrite Ho, (linked_tail_is h q A B Hl) by (intros ->; destruct B; [done|]; by apply Hside).
      do 2 eexists. split; [done|]. split_and!; try done; destruct (bool_decide (B = [])); simpl; rewrite ?Hlen; done.
    + rewrite (bind_then _ _ (λ h, Some (if bool_decide (head q = Some o) then set_head q (Some p) else q, h)) _ Hrun).
      cbn [mbind option_bind].
      rewrite Ho, (linked_head_is h q A B Hl) by (intros ->; rewrite app_nil_r in E; by apply Hside).
      do 2 eexists. split; [done|]. split_and!; try done; destruct (bool_decide (A = [])); simpl; rewrite ?Hlen; done.
Qed.

(** ** With the compression pass *)
Section Links.
Context `{Alloc} `{CompressorOk}.

Definition calm (xs : cells) : Prop := Forall (λ c, recompress c.2 = false) xs.

(** What the operations on both ends rely on: no node is marked as in use, the
    ends are not compressed, and nothing is in a list shorter than the depth. *)
Record ends (q : quicklist) (xs : cells) : Prop := {
  e_calm : calm xs;
  e_first : raw_at xs 0;
  e_last : raw_at xs (length xs - 1);
  e_short : compress q = 0 ∨ zlen xs < 2 * compress q → ∀ j, raw_at xs j }.

Lemma stage_calm h xs sss h' xs' : stage h xs sss h' xs' → calm xs → calm xs'.
Proof.
  intros Hst Hc. apply Forall_lookup. intros i c' Hi'.
  assert (is_Some (xs !! i)) as [c Hi].
  { apply lookup_lt_is_Some. rewrite <-(stage_length _ _ _ _ _ Hst). by eapply lookup_lt_Some. }
  destruct (recompress c'.2) eqn:E; [|done].
  pose proof (st_calm _ _ _ _ _ Hst i c c' Hi Hi' E) as Hr.
  pose proof (Forall_lookup_1 _ _ _ _ Hc Hi) as Hr'. simpl in Hr'. congruence.
Qed.

Definition counts (xs : cells) : list Z := (λ c, count c.2) <$> xs.

Lemma stage_counts h xs sss h' xs' : stage h xs sss h' xs' → counts xs' = counts xs.
Proof.
  intros Hst. apply list_eq. intros i. unfold counts. rewrite !list_lookup_fmap.
  pose proof (stage_length _ _ _ _ _ Hst) as Hl.
  destruct (xs !! i) as [c|] eqn:E.
  - destruct (lookup_lt_is_Some_2 xs' i) as [c' E']; [rewrite Hl; by eapply lookup_lt_Some|].
    rewrite E'. simpl. f_equal. by eapply (st_count _ _ _ _ _ Hst).
  - apply lookup_ge_None in E. by rewrite lookup_ge_None_2 by lia.
Qed.

Lemma stage_linked h q xs sss h' xs' : linked h q xs → stage h xs sss h' xs' → linked h' q xs'.
Proof.
  intros [Hs Hnd Hh Ht] Hst. split.
  - by destruct Hst.
  - by eapply stage_nodup.
  - by rewrite Hh, !first_lookup, (stage_ptr _ _ _ _ _ _ Hst).
  - by rewrite Ht, !lastp_lookup, (stage_length _ _ _ _ _ Hst), (stage_before _ _ _ _ _ _ Hst).
Qed.

Lemma quicklistCompress_ok h q xs sss p i d :
  linked h q xs → nodes_ok xs sss → 0 ≤ compress q < 2 ^ 16 → len q ≤ zlen xs + 1 →
  xs !! i = Some (p, d) →
  ∃ h' xs', quicklistCompress q h p = Some h' ∧ stage h xs sss h' xs' ∧
    (recompress d = false → passed q xs xs').
Proof.
  intros [Hs Hnd Hh Ht] Hok Hc Hlen Hi. unfold quicklistCompress, node_at.
  rewrite (seg_lookup _ _ _ _ _ Hs Hi). cbn [fmap option_fmap option_map mbind option_bind value].
  assert (p ∈ xs.*1) as Hin by (apply (lookup_in xs i); by rewrite Hi).
  destruct (recompress d).
  - destruct (compress_at h xs sss (Some p) Hs Hnd Hok) as (h' & xs' & -> & Hst & _); [by intros r [= <-]|].
    exists h', xs'. done.
  - destruct (compress_pass q h xs sss (Some p) Hs Hnd Hok Hh Ht Hc Hlen) as (h' & xs' & -> & Hst & Hp);
      [by intros r [= <-]|]. exists h', xs'. done.
Qed.

Lemma recompressOnly_ok h q xs sss p i d :
  linked h q xs → nodes_ok xs sss → xs !! i = Some (p, d) →
  ∃ h' xs', quicklistRecompressOnly h p = Some h' ∧ stage h xs sss h' xs' ∧ (recompress d = false → h' = h ∧ xs' = xs).
Proof.
  intros [Hs Hnd Hh Ht] Hok Hi. unfold quicklistRecompressOnly, node_at.
  rewrite (seg_lookup _ _ _ _ _ Hs Hi). cbn [fmap option_fmap option_map mbind option_bind value].
  destruct (recompress d); [|exists h, xs; split_and!; [done|by apply stage_refl|done]].
  destruct (compress_at h xs sss (Some p) Hs Hnd Hok) as (h' & xs' & -> & Hst & _).
  { intros r [= <-]. apply (lookup_in xs i). by rewrite Hi. }
  exists h', xs'. done.
Qed.

(** The ends after a pass. *)
Lemma passed_ends (q q' : quicklist) h xs sss h' xs' :
  stage h xs sss h' xs' → passed q xs xs' → calm xs → compress q' = compress q →
  (compress q = 0 ∨ len q < 2 * compress q → ∀ j, raw_at xs j) → ends q' xs'.
Proof.
  intros Hst Hp Hc Hq Hall. pose proof (stage_length _ _ _ _ _ Hst) as Hl.
  pose proof (stage_calm _ _ _ _ _ Hst Hc) as Hc'. destruct Hp as [[Hs ->]|(H0c & H2c & Hr0 & Hr1 & Hsh)].
  - pose proof (Hall Hs). split; auto.
  - split; [done|done|by rewrite Hl|]. rewrite Hq. unfold zlen in *. rewrite Hl. intros [?|?]; [lia|auto].
Qed.

Lemma nodes_ok_app A B sa sb : nodes_ok A sa → nodes_ok B sb → nodes_ok (A ++ B) (sa ++ sb).
Proof. apply Forall2_app. Qed.

Lemma insertNode_ok h q (A B : cells) sa sb p d s (after : bool) :
  linked h q (A ++ B) → nodes_ok A sa → nodes_ok B sb → node_ok d s →
  len q = zlen (A ++ B) → zlen (A ++ B) < 2 ^ 32 → 0 ≤ compress q < 2 ^ 16 →
  p ∉ (A ++ B).*1 → nodes h !! p = Some (ListNode None None d) →
  (if after then B ≠ [] → A ≠ [] else A ≠ [] → B ≠ []) →
  ∃ q' h' xs', __quicklistInsertNode q h (if after then lastp A None else first B None) p after = Some (q', h') ∧
    linked h' q' xs' ∧ nodes_ok xs' (sa ++ s :: sb) ∧ xs'.*1 = (A ++ (p, d) :: B).*1 ∧
    counts xs' = counts (A ++ (p, d) :: B) ∧ len q' = len q + 1 ∧ qcount q' = qcount q ∧ fill q' = fill q ∧ compress q' = compress q ∧
    (ends q (A ++ B) → raw d → recompress d = false → ends q' xs').
Proof.
  intros Hl HA HB Hd Hlen H32 Hc Hp Hpd Hside. unfold __quicklistInsertNode.
  destruct (insert_links_ok h q A B p d after Hl) as (q1 & h1 & -> & Hl1 & (Hq1 & Hq2 & Hq3 & Hq4) & _); try done.
  { rewrite Hlen. apply zlen_cells_0. }
  cbn [mbind option_bind]. set (xs1 := A ++ (p, d) :: B) in *.
  assert (nodes_ok xs1 (sa ++ s :: sb)) as Hok1 by (apply nodes_ok_app; [done|by constructor]).
  assert (∀ h' xs', linked h' q1 xs' → linked h' (set_len q1 (len q1 + 1)) xs') as Hsl by (by intros h' xs' []).
  assert (len (set_len q1 (len q1 + 1)) = len q + 1) as Hlen1.
  { simpl. rewrite Hq2. apply uwrap_id. unfold in_u. zlen_pos. lia. }
  destruct (if after then lastp A None else first B None) as [o|] eqn:Eo.
  - assert (∃ i od, xs1 !! i = Some (o, od) ∧ od ∈ (A ++ B).*2) as (i & od & Hi & Hin).
    { destruct after.
      - destruct (lastp_cases A) as [[-> E]|(A' & o' & od & -> & E)]; [by rewrite E in Eo|].
        rewrite E in Eo. injection Eo as <-. exists (length A'), od. unfold xs1. rewrite <-!app_assoc. simpl.
        rewrite list_lookup_middle by done. split; [done|]. rewrite fmap_app. set_solver.
      - destruct B as [|[o' od] B]; [done|]. injection Eo as <-. exists (S (length A)), od.
        unfold xs1. rewrite lookup_app_r by lia. replace (S (length A) - length A)%nat with 1%nat by lia.
        split; [done|]. rewrite fmap_app. set_solver. }
    destruct (quicklistCompress_ok h1 q1 xs1 (sa ++ s :: sb) o i od Hl1 Hok1) as (h2 & xs2 & -> & Hst & Hpass);
      [by rewrite Hq4|rewrite Hq2, Hlen; unfold xs1; zl|done|].
    cbn [mbind option_bind]. do 3 eexists. split; [done|]. rewrite Hlen1.
    split; [apply Hsl; by eapply stage_linked|]. split_and!; try done.
    { by destruct Hst. } { by destruct Hst. } { by eapply stage_counts. }
    intros He Hr Hre. pose proof (e_calm _ _ He) as Hcalm.
    assert (calm xs1) as Hcalm1.
    { unfold calm, xs1 in *. apply Forall_app in Hcalm as [??]. apply Forall_app. split; [done|]. by constructor. }
    apply (passed_ends q1 _ h1 xs1 (sa ++ s :: sb) h2 xs2); try done.
    + apply Hpass. apply list_elem_of_fmap in Hin as ([r od'] & -> & Hin).
      by apply (Forall_forall (λ c, recompress c.2 = false) (A ++ B)) in Hin.
    + rewrite Hq2, Hq4, Hlen. intros Hs0. pose proof (e_short _ _ He Hs0) as Hs. intros j c Hj.
      unfold xs1 in Hj. apply list_elem_of_lookup_2 in Hj.
      assert (c ∈ A ++ B ∨ c = (p, d)) as [Hin'| ->] by set_solver; [|done].
      apply list_elem_of_lookup in Hin' as [k Hk]. by apply (Hs k).
  - assert (A = [] ∧ B = []) as [-> ->].
    { destruct after.
      - destruct (lastp_cases A) as [[-> _]|(A' & o' & od & -> & E)]; [|by rewrite E in Eo].
        split; [done|]. destruct B; [done|]. exfalso. by apply Hside.
      - destruct B as [|[]]; [|done]. split; [|done]. destruct A; [done|]. exfalso. by apply Hside. }
    cbn [mbind option_bind]. do 3 eexists. split; [done|]. rewrite Hlen1. split; [by apply Hsl|].
    split_and!; try done. intros He Hr Hre.
    assert (∀ j, raw_at [(p, d)] j) as Hraw by (intros [|j] c; [by intros [= <-]|done]).
    split; try apply Hraw; [by constructor|done].
Qed.

(** Taking a node out of the links. *)
Lemma qunlink_ok h q (A B : cells) p d :
  linked h q (A ++ (p, d) :: B) →
  ∃ h1 h2, match first B None with Some _ => set_prev h (first B None) (lastp A None) | None => Some h end = Some h1 ∧
    match lastp A None with Some _ => set_next h1 (lastp A None) (first B None) | None => Some h1 end = Some h2 ∧
    linked h2 (let q := if bool_decide (Some p = tail q) then set_tail q (lastp A None) else q in
               if bool_decide (Some p = head q) then set_head q (first B None) else q) (A ++ B) ∧
    nodes h2 !! p = Some (ListNode (lastp A None) (first B None) d).
Proof.
  intros Hl. pose proof Hl as [Hs Hnd Hh Ht]. pose proof Hs as (HA & Hp & HB)%seg_mid.
  pose proof Hnd as (Hnd' & HpA & HpB)%NoDup_mid.
  rewrite opt_set_prev by (intros r Hr%first_in; exact (seg_dom _ _ _ _ _ HB Hr)). eexists _, _. split; [done|].
  rewrite opt_set_next by (intros r Hr%lastp_in; simpl; rewrite dom_link_prev; exact (seg_dom _ _ _ _ _ HA Hr)).
  split; [done|]. cbn [nodes].
  assert (bool_decide (Some p = tail q) = bool_decide (B = [])) as Etl.
  { rewrite (cons_middle (p, d) A B), app_assoc in Hl.
    rewrite <-(linked_tail_is h q (A ++ [(p, d)]) B Hl) by (by destruct A). rewrite lastp_snoc.
    apply bool_decide_ext. naive_solver. }
  assert (bool_decide (Some p = head q) = bool_decide (A = [])) as Ehd.
  { rewrite <-(linked_head_is h q A ((p, d) :: B) Hl) by done. apply bool_decide_ext. simpl. naive_solver. }
  split.
  - split.
    + rewrite link_comm. by eapply seg_join.
    + done.
    + assert (head (if bool_decide (Some p = tail q) then set_tail q (lastp A None) else q) = head q) as Hq0
        by (by destruct (bool_decide _)).
      cbv zeta. rewrite Hq0, Ehd. destruct A as [|[a ad] A]; [done|].
      rewrite bool_decide_eq_false_2 by done. by rewrite Hq0, Hh.
    + cbv zeta. set (q0 := if bool_decide (Some p = tail q) then _ else _).
      assert (tail (if bool_decide (Some p = head q0) then set_head q0 (first B None) else q0) = tail q0) as ->
        by (by destruct (bool_decide (Some p = head q0))).
      unfold q0. rewrite Etl. rewrite lastp_app. rewrite lastp_app, lastp_cons in Ht.
      destruct (lastp_cases B) as [[-> _]|(B' & r & w & -> & _)]; [done|].
      rewrite bool_decide_eq_false_2 by (by destruct B'). by rewrite Ht, !lastp_snoc.
  - rewrite lookup_link_next_ne by (by intros ?%lastp_in).
    by rewrite lookup_link_prev_ne by (by intros ?%first_in).
Qed.

Lemma delNode_ok h q (A B : cells) sa sb p d :
  linked h q (A ++ (p, d) :: B) → nodes_ok A sa → nodes_ok B sb →
  len q = zlen (A ++ (p, d) :: B) → len q < 2 ^ 32 → 0 ≤ compress q < 2 ^ 16 →
  ∃ q' h' xs', __quicklistDelNode q h p = Some (q', h') ∧
    linked h' q' xs' ∧ nodes_ok xs' (sa ++ sb) ∧ xs'.*1 = (A ++ B).*1 ∧
    counts xs' = counts (A ++ B) ∧ len q' = len q - 1 ∧ qcount q' = uwrap 64 (qcount q - count d) ∧ fill q' = fill q ∧ compress q' = compress q ∧
    (ends q (A ++ (p, d) :: B) → ends q' xs').
Proof.
  intros Hl HA HB Hlen H32 Hc. unfold __quicklistDelNode.
  pose proof Hl as [Hs Hnd _ _]. pose proof Hs as (_ & Hp & _)%seg_mid. rewrite Hp. cbn [mbind option_bind next prev].
  destruct (qunlink_ok h q A B p d Hl) as (h1 & h2 & -> & Hu2 & Hl2 & Hp2). cbn [mbind option_bind].
  rewrite Hu2. cbn [mbind option_bind].
  set (q1 := if bool_decide (Some p = head _) then _ else _) in *.
  assert (same_fields q q1) as (Hq1 & Hq2 & Hq3 & Hq4).
  { unfold q1. destruct (bool_decide (Some p = tail q)), (bool_decide _); done. }
  pose proof Hl2 as [Hs2 Hnd2 Hh2 Ht2].
  destruct (compress_pass q1 h2 (A ++ B) (sa ++ sb) None) as (h3 & xs3 & -> & Hst & Hpass);
    [done|done|by apply nodes_ok_app|done|done|by rewrite Hq4|rewrite Hq2, Hlen; zl|done|].
  cbn [mbind option_bind]. pose proof Hnd as (_ & HpA & HpB)%NoDup_mid.
  assert (p ∉ (A ++ B).*1) as Hpn by (rewrite fmap_app; set_solver).
  unfold node_at. rewrite (st_frame _ _ _ _ _ Hst) by done. rewrite Hp2.
  cbn [fmap option_fmap option_map mbind option_bind value]. unfold zfree_node.
  rewrite (st_frame _ _ _ _ _ Hst), Hp2 by done. cbn [mbind option_bind].
  do 3 eexists. split; [done|]. cbn [len qcount fill compress set_len set_qcount].
  rewrite Hq1, Hq2, uwrap_id by (unfold in_u; rewrite Hlen; zl).
  pose proof (stage_linked _ _ _ _ _ _ Hl2 Hst) as [Hs3 Hnd3 Hh3 Ht3].
  split; [split; try done; simpl; apply seg_delete; [by rewrite (st_fst _ _ _ _ _ Hst)|done]|].
  split_and!; try done; [by destruct Hst|by destruct Hst|by eapply stage_counts|].
  intros [Hcalm Hr0 Hr1 Hsh]. apply (passed_ends q1 _ h2 (A ++ B) (sa ++ sb) h3 xs3); try done.
  - unfold calm in *. apply Forall_app in Hcalm as [? [_ ?]%Forall_cons]. by apply Forall_app.
  - rewrite Hq2, Hq4, Hlen. intros Hs0. pose proof (Hsh Hs0) as Hs'. intros j c Hj%list_elem_of_lookup_2.
    assert (c ∈ A ++ (p, d) :: B) as Hin by set_solver.
    apply list_elem_of_lookup in Hin as [k Hk]. by apply (Hs' k).
Qed.
End Links.
