(* ===== verification/QuicklistSpec.v ===== *)
(** * A quicklist is a double ended queue

    Pushing and popping at both ends, for every fill factor and every
    compression depth: the nodes hold the strings of the list in order, the
    counts and sizes are right, and the node at either end is never found
    compressed. *)

From S2P Require Import Prelude.
From S2P Require Import Mem.
From S2P Require Import Util.
From S2P Require Import Ziplist.
From S2P Require Import ZiplistOps.
From S2P Require Import ZiplistSpec.
From S2P Require Import Packed.
From S2P Require Import Adlist.
From S2P Require Import AdlistSpec.
From S2P Require Import Lzf.
From S2P Require Import Quicklist.
From S2P Require Import QuicklistRepr.
From S2P Require Import QuicklistLinks.
Import Ziplist Quicklist Packed.
Import Adlist(ptr, ListNode, nodes, prev, next, value, heap, Heap, set_node, zmalloc_node, deref,
  set_next, set_prev, zfree_node, freed).

(** ** Lists of lists *)
Lemma concat_insert {A} (l : list (list A)) i x :
  (i < length l)%nat → concat (<[i := x]> l) = concat (take i l) ++ x ++ concat (drop (S i) l).
Proof.
  intros Hi. rewrite insert_take_drop by done. by rewrite concat_app.
Qed.

Lemma qconcat_split {A} (l : list (list A)) i x :
  l !! i = Some x → concat l = concat (take i l) ++ x ++ concat (drop (S i) l).
Proof. intros Hi. rewrite <-(take_drop_middle l i x Hi) at 1. by rewrite concat_app. Qed.

Lemma concat_ne_length {A} (l : list (list A)) : Forall (λ x, x ≠ []) l → (length l ≤ length (concat l))%nat.
Proof.
  induction 1 as [|x l Hx _ IH]; simpl; [done|]. rewrite length_app. destruct x; [done|simpl; lia].
Qed.

Lemma budget_sub a b c : budget b ≤ budget (a ++ b ++ c).
Proof. rewrite !budget_app. pose proof (budget_nonneg a). pose proof (budget_nonneg c). zlen_pos. lia. Qed.

Lemma room_sub a b c : room (a ++ b ++ c) → room b.
Proof. unfold room. pose proof (budget_sub a b c). lia. Qed.

Section Spec.
Context `{Alloc} `{CompressorOk}.

(** ** The representation *)
Record qrep (h : heap qnode) (q : quicklist) (xs : cells) (sss : list (list bytes)) : Prop := {
  q_linked : linked h q xs;
  q_ok : nodes_ok xs sss;
  q_counts : counts xs = zlen <$> sss;
  q_len : len q = zlen xs;
  q_count : qcount q = zlen (concat sss);
  q_ne : Forall (λ ss, ss ≠ []) sss;
  q_room : room (concat sss);
  q_opts : 0 ≤ compress q < 2 ^ 16 ∧ fill q < 2 ^ 15 }.

Lemma qrep_length h q xs sss : qrep h q xs sss → length xs = length sss.
Proof. intros Hq. by apply (Forall2_length _ _ _ (q_ok _ _ _ _ Hq)). Qed.

Lemma room_small ss : room ss → zlen ss < 2 ^ 28.
Proof. unfold room. pose proof (budget_nonneg ss). zlen_pos. lia. Qed.

Lemma qrep_small h q xs sss : qrep h q xs sss → zlen xs ≤ zlen (concat sss) < 2 ^ 28.
Proof.
  intros Hq. pose proof (room_small _ (q_room _ _ _ _ Hq)). pose proof (concat_ne_length sss (q_ne _ _ _ _ Hq)).
  pose proof (qrep_length _ _ _ _ Hq). unfold zlen in *. lia.
Qed.

Lemma qrep_node h q xs sss i p d :
  qrep h q xs sss → xs !! i = Some (p, d) →
  ∃ ss, sss !! i = Some ss ∧ node_ok d ss ∧ count d = zlen ss ∧ ss ≠ [] ∧ room ss.
Proof.
  intros Hq Hi. destruct (nodes_ok_lookup xs sss i p d (q_ok _ _ _ _ Hq) Hi) as (ss & Hss & Hd).
  exists ss. split_and!; try done.
  - pose proof (q_counts _ _ _ _ Hq) as Hc. apply (f_equal (lookup i)) in Hc. unfold counts in Hc.
    rewrite !list_lookup_fmap, Hi, Hss in Hc. by injection Hc.
  - by apply (Forall_lookup_1 _ _ _ _ (q_ne _ _ _ _ Hq) Hss).
  - pose proof (q_room _ _ _ _ Hq) as Hr. rewrite (qconcat_split sss i ss Hss) in Hr. by eapply room_sub.
Qed.

(** A node gets other strings. *)
Lemma qrep_set h q xs sss i p d d' ss' h' :
  qrep h q xs sss → xs !! i = Some (p, d) → seg (nodes h') None (<[i := (p, d')]> xs) None →
  node_ok d' ss' → count d' = zlen ss' → ss' ≠ [] → room (concat (<[i := ss']> sss)) →
  qrep h' (set_qcount q (zlen (concat (<[i := ss']> sss)))) (<[i := (p, d')]> xs) (<[i := ss']> sss).
Proof.
  intros Hq Hi Hs Hd Hc Hne Hroom. pose proof (insert_fst xs i p d d' Hi) as Hfst.
  pose proof (room_small _ Hroom). pose proof Hq as [[_ Hnd Hh Ht] Hok Hcs Hlen _ Hnes _ Hop]. split.
  - split; [done|by rewrite Hfst| |].
    + rewrite first_lookup, <-list_lookup_fmap, Hfst, list_lookup_fmap, <-first_lookup. done.
    + rewrite lastp_lookup, length_insert. cbn [tail set_qcount]. rewrite Ht, lastp_lookup.
      unfold before. destruct (length xs) as [|k]; [done|].
      by rewrite <-!list_lookup_fmap, Hfst.
  - by apply Forall2_insert.
  - unfold counts in *. by rewrite !list_fmap_insert, Hcs, <-Hc.
  - simpl. by rewrite zlen_insert.
  - simpl. apply uwrap_id. unfold in_u. zlen_pos. lia.
  - by apply Forall_insert.
  - done.
  - done.
Qed.

Lemma ends_insert q xs i p d d' :
  ends q xs → xs !! i = Some (p, d) → raw d' → recompress d' = recompress d →
  ends q (<[i := (p, d')]> xs).
Proof.
  intros [Hc H0' H1' Hs] Hi Hr Hre. rewrite <-(length_insert xs i (p, d')) in H1'.
  assert (∀ j, raw_at xs j → raw_at (<[i := (p, d')]> xs) j) as Hmono.
  { intros j Hj c. destruct (decide (i = j)) as [<-|Hne].
    - rewrite list_lookup_insert_eq by (by eapply lookup_lt_Some). by intros [= <-].
    - rewrite list_lookup_insert_ne by done. apply Hj. }
  split; auto.
  - unfold calm in *. apply Forall_insert; [done|]. simpl. rewrite Hre.
    by apply (Forall_lookup_1 _ _ _ _ Hc Hi).
  - rewrite zlen_insert. auto.
Qed.

(** ** Room in a node *)
Lemma allow_insert_bound d f ss s :
  _quicklistNodeAllowInsert (Some d) f (zlen s) = true → node_ok d ss → count d = zlen ss →
  f < 2 ^ 15 → room (s :: ss) → zlen ss + 1 < 2 ^ 16.
Proof.
  intros Hal [_ _ (b & Hb & Hsz & _)] Hc Hf Hroom. pose proof (zrep_size b ss Hb) as [Hlo Hhi].
  unfold room in Hroom. simpl in Hroom. unfold _quicklistNodeAllowInsert in Hal.
  set (o := (if zlen s <? 254 then 1 else 5) + _) in Hal.
  assert (0 ≤ o ≤ 10) as Ho by (unfold o; zbool; lia). zlen_pos.
  rewrite uwrap_id in Hal by (unfold in_u; lia).
  unfold _quicklistNodeSizeMeetsOptimizationRequirement in Hal.
  assert (∀ x : bool, (if negb x then false else count d <? f) = true → zlen ss + 1 < 2 ^ 16) as Hend.
  { intros [|]; [|done]. intros ?%Z.ltb_lt. lia. }
  destruct (f >=? 0); [by eapply Hend|]. destruct (_ <? zlen optimization_level); [|by eapply Hend].
  destruct (optimization_level !! _) as [lv|] eqn:El; [|by eapply Hend].
  assert (lv ≤ 65536) as Hlv.
  { apply list_elem_of_lookup_2 in El. unfold optimization_level in El. set_unfold. lia. }
  destruct (Z.leb_spec (sz d + zlen s + o) lv); [lia|by eapply Hend].
Qed.

(** ** Pushing *)
Lemma zpush_ok b ss s w :
  zrep b ss → room (s :: ss) →
  ∃ b', ziplistPush b s w = Some b' ∧ zrep b' (match w with ZIPLIST_HEAD => s :: ss | ZIPLIST_TAIL => ss ++ [s] end).
Proof. exact (@packed_push_ok bytes Z _ ziplist_packed_ok b ss s w). Qed.

(** A ziplist of one string. *)
Lemma znew_push s w :
  zlen s + 57 < 2 ^ 32 → ∃ b0 b, ziplistNew = Some b0 ∧ ziplistPush b0 s w = Some b ∧ zrep b [s].
Proof.
  intros Hs. destruct (@packed_new_ok bytes Z _ ziplist_packed_ok) as (b0 & Hn & Hb0).
  destruct (zpush_ok b0 [] s w Hb0) as (b & Hp & Hb); [unfold room; simpl; lia|].
  exists b0, b. split_and!; [done|done|by destruct w].
Qed.

Lemma new_node_ok h b s :
  zrep b [s] → wf_bytes s →
  ∃ h' d, new_node h b = Some (h', zmalloc_node h) ∧ h' = set_node h (zmalloc_node h) (ListNode None None d) ∧
    node_ok d [s] ∧ raw d ∧ recompress d = false ∧ count d = 0.
Proof.
  intros Hb Hs. unfold new_node, quicklistNodeUpdateSz, zlof. simpl. rewrite (zrep_blob b [s] Hb). simpl.
  do 2 eexists. split; [done|]. split; [done|]. split; [|done].
  apply raw_node_ok; [done|done|by constructor|done].
Qed.

(** A list that gained a fresh node. *)
Lemma linked_fresh h q xs d :
  linked h q xs →
  linked (set_node h (zmalloc_node h) (ListNode None None d)) q xs ∧ zmalloc_node h ∉ xs.*1.
Proof.
  intros [Hs Hnd Hh Ht]. assert (zmalloc_node h ∉ xs.*1) as Hf by (by eapply fresh_notin_seg).
  split; [|done]. split; try done. by apply seg_insert.
Qed.

(** The count of the node at index [i] goes up by one. *)
Lemma add_count_at h q xs i p d n :
  linked h q xs → xs !! i = Some (p, d) →
  ∃ h', updM h p (add_count n) = Some h' ∧
    linked h' q (<[i := (p, set_count d (count d + n))]> xs).
Proof.
  intros [Hs Hnd Hh Ht] Hi.
  destruct (updM_at h xs i p d (add_count n) (set_count d (count d + n)) Hs Hnd Hi) as (h' & Hu & Hs' & _); [done|].
  exists h'. split; [done|]. pose proof (insert_fst xs i p d (set_count d (count d + n)) Hi) as Hfst.
  split; [done|by rewrite Hfst| |].
  - by rewrite Hh, !first_lookup, <-!list_lookup_fmap, Hfst.
  - rewrite Ht, !lastp_lookup, length_insert. unfold before. destruct (length xs); [done|].
    by rewrite <-!list_lookup_fmap, Hfst.
Qed.

Lemma node_ok_count d ss n : node_ok d ss → node_ok (set_count d n) ss.
Proof. intros [Hm Hw (b & ? & ? & Hh)]. split; try done. by exists b. Qed.

Definition pushed (w : where_) (s : bytes) (ss : list bytes) : list bytes :=
  match w with ZIPLIST_HEAD => s :: ss | ZIPLIST_TAIL => ss ++ [s] end.

Lemma pushed_length w s ss : zlen (pushed w s ss) = zlen ss + 1.
Proof. destruct w; simpl; zl. Qed.

Lemma pushed_budget w s ss : budget (pushed w s ss) = zlen s + 17 + budget ss.
Proof. destruct w; simpl; rewrite ?budget_app; simpl; lia. Qed.

Lemma concat_pushed_budget sss i ss w s :
  sss !! i = Some ss → budget (concat (<[i := pushed w s ss]> sss)) = zlen s + 17 + budget (concat sss).
Proof.
  intros Hi. rewrite concat_insert by (by eapply lookup_lt_Some). rewrite (qconcat_split sss i ss Hi).
  rewrite !budget_app, pushed_budget. lia.
Qed.

Lemma concat_pushed_length sss i ss w s :
  sss !! i = Some ss → zlen (concat (<[i := pushed w s ss]> sss)) = zlen (concat sss) + 1.
Proof.
  intros Hi. rewrite concat_insert by (by eapply lookup_lt_Some). rewrite (qconcat_split sss i ss Hi).
  rewrite !zlen_app, pushed_length. lia.
Qed.

Lemma fields_at h q xs i p d : linked h q xs → xs !! i = Some (p, d) → fields h (Some p) = Some (Some d).
Proof. intros [Hs _ _ _] Hi. unfold fields, node_at. by rewrite (seg_lookup _ _ _ _ _ Hs Hi). Qed.

Lemma push_existing h q xs sss i p d ss s w :
  qrep h q xs sss → xs !! i = Some (p, d) → raw d → sss !! i = Some ss → wf_bytes s →
  _quicklistNodeAllowInsert (Some d) (fill q) (zlen s) = true → room (s :: concat sss) →
  ∃ h1 h2 d2, updM h p (change_zl (λ b, ziplistPush b s w)) = Some h1 ∧
    updM h1 p (add_count 1) = Some h2 ∧ raw d2 ∧ recompress d2 = recompress d ∧
    qrep h2 (set_qcount q (qcount q + 1)) (<[i := (p, d2)]> xs) (<[i := pushed w s ss]> sss).
Proof.
  intros Hq Hi Hr Hss Hs Hal Hroom.
  destruct (qrep_node _ _ _ _ _ _ _ Hq Hi) as (ss0 & Hss0 & Hd & Hc & Hne & Hrm). simplify_eq.
  assert (room (s :: ss)) as Hrs.
  { unfold room in *. simpl in *. rewrite (qconcat_split sss i ss Hss) in Hroom.
    pose proof (budget_sub (concat (take i sss)) ss (concat (drop (S i) sss))). lia. }
  pose proof (allow_insert_bound d (fill q) ss s Hal Hd Hc (proj2 (q_opts _ _ _ _ Hq)) Hrs) as Hmax.
  destruct (raw_block d ss Hd Hr) as (b & Hz & Hb & Hsz).
  destruct (zpush_ok b ss s w Hb Hrs) as (b' & Hp & Hb'). fold (pushed w s ss) in Hb'.
  assert (change_zl (λ b, ziplistPush b s w) d = Some (QNode (Zl b') (zlen b') (count d) (encoding d) (recompress d))) as Hch.
  { eapply change_zl_ok; [done|done| |done]. intros b0 Hz0 _. congruence. }
  pose proof (q_linked _ _ _ _ Hq) as [Hsg Hnd _ _].
  destruct (updM_at h xs i p d _ _ Hsg Hnd Hi Hch) as (h1 & Hu1 & Hs1 & _).
  set (d1 := QNode (Zl b') (zlen b') (count d) (encoding d) (recompress d)) in *.
  destruct (updM_at h1 (<[i := (p, d1)]> xs) i p d1 (add_count 1) (set_count d1 (count d1 + 1)) Hs1) as (h2 & Hu2 & Hs2 & _).
  { by rewrite (insert_fst xs i p d). } { apply list_lookup_insert_eq. by eapply lookup_lt_Some. } { done. }
  rewrite list_insert_insert_eq in Hs2.
  exists h1, h2, (set_count d1 (count d1 + 1)). split_and!; [done..|].
  replace (qcount q + 1) with (zlen (concat (<[i := pushed w s ss]> sss)))
    by (rewrite (concat_pushed_length _ _ _ _ _ Hss); by rewrite (q_count _ _ _ _ Hq)).
  eapply qrep_set; [done|done|done| | | |].
  - apply node_ok_count, raw_node_ok; [done|rewrite pushed_length; lia| |done].
    destruct Hd as [_ Hw _]. destruct w; simpl; [by constructor|]. apply Forall_app. by split; [|constructor].
  - simpl. rewrite pushed_length, Hc. apply uwrap_id. unfold in_u. zlen_pos. lia.
  - destruct w; simpl; [done|]. by destruct ss.
  - unfold room in *. simpl in Hroom. rewrite (concat_pushed_budget _ _ _ _ _ Hss). lia.
Qed.

Lemma counts_mid (A B : cells) p d : counts (A ++ (p, d) :: B) = counts A ++ count d :: counts B.
Proof. unfold counts. by rewrite fmap_app. Qed.

Lemma counts_insert (xs : cells) i p d : counts (<[i := (p, d)]> xs) = <[i := count d]> (counts xs).
Proof. unfold counts. by rewrite list_fmap_insert. Qed.

(** A fresh node of one string at the front or at the back. *)
Lemma push_fresh h q xs sss s (after : bool) w :
  qrep h q xs sss → wf_bytes s → room (s :: concat sss) →
  ∃ b0 b h1 p q2 h2 h3 xs', ziplistNew = Some b0 ∧ ziplistPush b0 s w = Some b ∧
    new_node h b = Some (h1, p) ∧
    __quicklistInsertNode q h1 (if after then tail q else head q) p after = Some (q2, h2) ∧
    (if after then tail q2 else head q2) = Some p ∧
    updM h2 p (add_count 1) = Some h3 ∧
    qrep h3 (set_qcount q2 (qcount q2 + 1)) xs' (if after then sss ++ [[s]] else [s] :: sss) ∧
    fill q2 = fill q ∧ compress q2 = compress q ∧ (ends q xs → ends q2 xs').
Proof.
  intros Hq Hs Hroom. pose proof (qrep_small _ _ _ _ Hq) as Hsm.
  pose proof Hq as [Hl Hok Hcs Hlen Hcnt Hne Hrm [Hcomp Hf]].
  assert (zlen s + 57 < 2 ^ 32) as Hzs.
  { unfold room in Hroom. simpl in Hroom. pose proof (budget_nonneg (concat sss)). zlen_pos. lia. }
  destruct (znew_push s w Hzs) as (b0 & b & Hn & Hp & Hb).
  destruct (new_node_ok h b s Hb Hs) as (h1 & d & Hnew & -> & Hd & Hrw & Hre & Hc0).
  set (p := zmalloc_node h) in *. destruct (linked_fresh h q xs d Hl) as [Hl1 Hpf]. fold p in Hl1, Hpf.
  set (A := if after then xs else []). set (B := if after then [] else xs).
  set (sa := if after then sss else []). set (sb := if after then [] else sss).
  assert (A ++ B = xs) as HAB by (unfold A, B; destruct after; by rewrite ?app_nil_r).
  destruct (insertNode_ok (set_node h p (ListNode None None d)) q A B sa sb p d [s] after)
    as (q2 & h2 & xs2 & Hins & Hl2 & Hok2 & Hf2 & Hc2 & Hlen2 & Hqc2 & Hfi2 & Hco2 & He2); try (by rewrite HAB).
  { unfold A, sa. destruct after; [done|constructor]. } { unfold B, sb. destruct after; [constructor|done]. } { done. }
  { rewrite HAB. lia. } { done. } { simpl. apply lookup_insert_eq. } { unfold A, B. by destruct after. }
  assert ((if after then lastp A None else first B None) = if after then tail q else head q) as Hold.
  { unfold A, B. destruct Hl as [_ _ -> ->]. by destruct after. }
  rewrite Hold in Hins. set (i := length A).
  assert (∃ d2, xs2 !! i = Some (p, d2) ∧ count d2 = 0) as (d2 & Hi & Hd2).
  { assert (fst <$> xs2 !! i = Some p) as Hi.
    { rewrite <-list_lookup_fmap, Hf2, list_lookup_fmap. unfold i. by rewrite list_lookup_middle. }
    apply fst_lookup in Hi as [d2 Hi]. exists d2. split; [done|].
    apply (f_equal (lookup i)) in Hc2. unfold counts in Hc2. rewrite !list_lookup_fmap, Hi in Hc2.
    unfold i in Hc2. rewrite list_lookup_middle in Hc2 by done. injection Hc2. by rewrite Hc0. }
  destruct (add_count_at h2 q2 xs2 i p d2 1 Hl2 Hi) as (h3 & Hu & Hl3).
  exists b0, b, (set_node h p (ListNode None None d)), p, q2, h2, h3. eexists. split_and!; try done.
  - destruct Hl2 as [_ _ Hh2 Ht2]. rewrite Hh2, Ht2, first_lookup, lastp_lookup.
    rewrite <-(length_fmap fst xs2), Hf2, length_fmap, length_app. simpl.
    assert (i = if after then length xs else 0%nat) as Ei by (unfold i, A; by destruct after).
    destruct after; [|rewrite <-Ei; by rewrite Hi]. unfold before, A, B. simpl.
    replace (length xs + 1)%nat with (S i) by lia. by rewrite Hi.
  - assert (sa ++ [s] :: sb = if after then sss ++ [[s]] else [s] :: sss) as Hsss
      by (unfold sa, sb; by destruct after).
    rewrite <-Hsss in *. assert (budget (concat (sa ++ [s] :: sb)) = zlen s + 17 + budget (concat sss)) as Hbud.
    { unfold sa, sb. destruct after; simpl; rewrite ?concat_app, ?budget_app; simpl; lia. }
    assert (zlen (concat (sa ++ [s] :: sb)) = zlen (concat sss) + 1) as Hzc.
    { unfold sa, sb. destruct after; simpl; rewrite ?concat_app; simpl; zl. }
    split.
    + destruct Hl3. by split.
    + destruct (nodes_ok_lookup _ _ _ _ _ Hok2 Hi) as (ss2 & Hss2 & Hd2ok).
      eapply nodes_ok_insert; [done|exact Hss2|]. by apply node_ok_count.
    + assert (counts A = zlen <$> sa) as HcA by (unfold A, sa; by destruct after).
      assert (counts B = zlen <$> sb) as HcB by (unfold B, sb; by destruct after).
      rewrite counts_insert, Hc2, counts_mid, HcA, HcB, fmap_app.
      replace i with (length (zlen <$> sa)) by (rewrite <-HcA; unfold counts; by rewrite length_fmap).
      rewrite insert_app_r_alt, Nat.sub_diag by lia. cbn [count set_count]. rewrite Hd2. done.
    + simpl. rewrite Hlen2, Hlen. rewrite zlen_insert. unfold zlen. rewrite <-(length_fmap fst xs2), Hf2, length_fmap.
      rewrite <-HAB, !length_app. simpl. lia.
    + simpl. rewrite Hqc2, Hcnt, Hzc. apply uwrap_id. unfold in_u. zlen_pos. lia.
    + unfold sa, sb. destruct after; [apply Forall_app; by split; [|constructor]|by constructor].
    + unfold room in *. simpl in Hroom. rewrite Hbud. lia.
    + simpl. rewrite Hco2, Hfi2. done.
  - intros He. specialize (He2 ltac:(by rewrite HAB) Hrw Hre). eapply ends_insert; [done|done| |done].
    change (raw (set_count d2 (count d2 + 1))) with (raw (p, d2).2).
    destruct after.
    + apply (e_last _ _ He2). rewrite <-Hi. f_equal.
      rewrite <-(length_fmap fst xs2), Hf2, length_fmap, length_app. simpl. unfold i. lia.
    + apply (e_first _ _ He2). by rewrite <-Hi.
Qed.

Definition same_opts (q q' : quicklist) : Prop := fill q' = fill q ∧ compress q' = compress q.

Lemma ends_fields q q' xs : compress q' = compress q → ends q xs → ends q' xs.
Proof. intros Hc [? ? ? Hs]. split; try done. by rewrite Hc. Qed.

Lemma qrep_empty_or h q xs sss : qrep h q xs sss → xs = [] ∧ sss = [] ∨ xs ≠ [] ∧ sss ≠ [].
Proof.
  intros Hq. pose proof (qrep_length _ _ _ _ Hq). destruct xs, sss; simpl in *; try lia; [by left|by right].
Qed.

Lemma pushHead_ok h q xs sss s :
  qrep h q xs sss → ends q xs → wf_bytes s → room (s :: concat sss) →
  ∃ q' h' new xs' sss', quicklistPushHead q h s = Some (q', h', new) ∧ qrep h' q' xs' sss' ∧
    concat sss' = s :: concat sss ∧ ends q' xs' ∧ same_opts q q'.
Proof.
  intros Hq He Hs Hroom. unfold quicklistPushHead. pose proof (q_linked _ _ _ _ Hq) as Hl.
  pose proof (l_head _ _ _ Hl) as Hh.
  assert (∃ od, fields h (head q) = Some od ∧ match od with Some d => ∃ p, head q = Some p ∧ xs !! 0%nat = Some (p, d) | None => True end)
    as (od & -> & Hod).
  { rewrite Hh. destruct xs as [|[p d] xs]; [by exists None|]. exists (Some d). split; [|by exists p].
    by apply (fields_at h q ((p, d) :: xs) 0). }
  cbn [mbind option_bind]. destruct (_quicklistNodeAllowInsert od (fill q) (zlen s)) eqn:Hal.
  - destruct od as [d|]; [|done]. destruct Hod as (p & Hp & Hi).
    destruct (qrep_node _ _ _ _ _ _ _ Hq Hi) as (ss & Hss & _).
    destruct (push_existing h q xs sss 0 p d ss s ZIPLIST_HEAD Hq Hi (e_first _ _ He _ Hi) Hss Hs Hal Hroom)
      as (h1 & h2 & d2 & Hu1 & Hu2 & Hr & Hre & Hq').
    rewrite Hp. cbn [mbind option_bind]. rewrite Hu1. cbn [mbind option_bind]. cbn [head set_qcount]. rewrite Hp.
    cbn [mbind option_bind]. rewrite Hu2. cbn [mbind option_bind].
    do 5 eexists. split; [done|]. split; [done|]. split_and!; try done.
    + by destruct sss; simplify_eq/=.
    + eapply (ends_fields q); [done|]. by eapply ends_insert.
  - destruct (push_fresh h q xs sss s false ZIPLIST_HEAD Hq Hs Hroom)
      as (b0 & b & h1 & p & q2 & h2 & h3 & xs' & -> & Hp & Hn & Hins & Hhd & Hu & Hq' & Hf & Hc & Hends).
    cbn [mbind option_bind]. rewrite Hp. cbn [mbind option_bind]. rewrite Hn. cbn [mbind option_bind].
    rewrite Hins. cbn [mbind option_bind]. cbn [head set_qcount]. rewrite Hhd. cbn [mbind option_bind].
    rewrite Hu. cbn [mbind option_bind]. do 5 eexists. split; [done|]. split; [done|]. split_and!; try done.
    eapply (ends_fields q2); [done|]. by apply Hends.
Qed.

Lemma pushTail_ok h q xs sss s :
  qrep h q xs sss → ends q xs → wf_bytes s → room (s :: concat sss) →
  ∃ q' h' new xs' sss', quicklistPushTail q h s = Some (q', h', new) ∧ qrep h' q' xs' sss' ∧
    concat sss' = concat sss ++ [s] ∧ ends q' xs' ∧ same_opts q q'.
Proof.
  intros Hq He Hs Hroom. unfold quicklistPushTail. pose proof (q_linked _ _ _ _ Hq) as Hl.
  pose proof (l_tail _ _ _ Hl) as Ht. pose proof (qrep_length _ _ _ _ Hq) as Hlen.
  assert (∃ od, fields h (tail q) = Some od ∧
    match od with Some d => ∃ p, tail q = Some p ∧ xs !! (length xs - 1)%nat = Some (p, d) | None => True end)
    as (od & -> & Hod).
  { rewrite Ht. destruct (lastp_cases xs) as [[-> E]|(xs' & p & d & -> & E)]; rewrite E; [by exists None|].
    assert ((xs' ++ [(p, d)]) !! (length (xs' ++ [(p, d)]) - 1)%nat = Some (p, d)) as Hi.
    { rewrite length_app. simpl. rewrite Nat.add_sub. by apply list_lookup_middle. }
    exists (Some d). split; [|by exists p]. by eapply fields_at. }
  cbn [mbind option_bind]. destruct (_quicklistNodeAllowInsert od (fill q) (zlen s)) eqn:Hal.
  - destruct od as [d|]; [|done]. destruct Hod as (p & Hp & Hi).
    destruct (qrep_node _ _ _ _ _ _ _ Hq Hi) as (ss & Hss & _).
    destruct (push_existing h q xs sss _ p d ss s ZIPLIST_TAIL Hq Hi (e_last _ _ He _ Hi) Hss Hs Hal Hroom)
      as (h1 & h2 & d2 & Hu1 & Hu2 & Hr & Hre & Hq').
    rewrite Hp. cbn [mbind option_bind]. rewrite Hu1. cbn [mbind option_bind]. cbn [tail set_qcount]. rewrite Hp.
    cbn [mbind option_bind]. rewrite Hu2. cbn [mbind option_bind].
    do 5 eexists. split; [done|]. split; [done|]. split_and!; try done.
    + pose proof (lookup_lt_Some _ _ _ Hss). rewrite concat_insert by done.
      rewrite (qconcat_split _ _ _ Hss), (drop_ge sss) by lia. simpl. by rewrite !app_nil_r, app_assoc.
    + eapply (ends_fields q); [done|]. by eapply ends_insert.
  - destruct (push_fresh h q xs sss s true ZIPLIST_TAIL Hq Hs Hroom)
      as (b0 & b & h1 & p & q2 & h2 & h3 & xs' & -> & Hp & Hn & Hins & Htl & Hu & Hq' & Hf & Hc & Hends).
    cbn [mbind option_bind]. rewrite Hp. cbn [mbind option_bind]. rewrite Hn. cbn [mbind option_bind].
    rewrite Hins. cbn [mbind option_bind]. cbn [tail set_qcount]. rewrite Htl. cbn [mbind option_bind].
    rewrite Hu. cbn [mbind option_bind]. do 5 eexists. split; [done|]. split; [done|]. split_and!; try done.
    + by rewrite concat_app.
    + eapply (ends_fields q2); [done|]. by apply Hends.
Qed.

(** ** Deleting an entry *)
Definition zat (b : bytes) (ss : list bytes) (j : nat) (z : Z) : Prop := zl_at b ss j z.

Lemma zdelete_ok b ss j z :
  zat b ss j z → (j < length ss)%nat → room ss →
  ∃ b', ziplistDelete b z = Some (b', z) ∧ zat b' (take j ss ++ drop (S j) ss) j z.
Proof. exact (@packed_delete_ok bytes Z _ ziplist_packed_ok b ss j z). Qed.

Lemma zat_rep b ss j z : zat b ss j z → zrep b ss.
Proof. exact (@packed_at_rep bytes Z _ ziplist_packed_ok b ss j z). Qed.

(** The strings without the [j]-th one. *)
Definition without (j : nat) (ss : list bytes) : list bytes := take j ss ++ drop (S j) ss.

Lemma without_length j ss : (j < length ss)%nat → zlen (without j ss) = zlen ss - 1.
Proof. intros Hj. unfold without, zlen. rewrite length_app, length_take, length_drop. lia. Qed.

Lemma without_budget j ss s : ss !! j = Some s → budget ss = zlen s + 17 + budget (without j ss).
Proof.
  intros Hj. rewrite <-(take_drop_middle ss j s Hj) at 1. unfold without. rewrite !budget_app. simpl. lia.
Qed.

Definition del_nodes (i j : nat) (ss : list bytes) (sss : list (list bytes)) : list (list bytes) :=
  if bool_decide (length ss = 1%nat) then take i sss ++ drop (S i) sss else <[i := without j ss]> sss.

Lemma del_nodes_concat i j ss sss :
  sss !! i = Some ss → (j < length ss)%nat →
  concat (del_nodes i j ss sss) = concat (take i sss) ++ without j ss ++ concat (drop (S i) sss).
Proof.
  intros Hi Hj. unfold del_nodes. destruct (bool_decide_reflect (length ss = 1%nat)) as [E|E].
  - destruct ss as [|s [|]]; try done. destruct j; [|simpl in *; lia]. by rewrite concat_app.
  - apply concat_insert. by eapply lookup_lt_Some.
Qed.

Lemma linked_set h q xs i p d d' h' :
  linked h q xs → xs !! i = Some (p, d) → seg (nodes h') None (<[i := (p, d')]> xs) None →
  linked h' q (<[i := (p, d')]> xs).
Proof.
  intros [Hs Hnd Hh Ht] Hi Hs'. pose proof (insert_fst xs i p d d' Hi) as Hfst.
  split; [done|by rewrite Hfst| |].
  - by rewrite Hh, !first_lookup, <-!list_lookup_fmap, Hfst.
  - rewrite Ht, !lastp_lookup, length_insert. unfold before. destruct (length xs); [done|].
    by rewrite <-!list_lookup_fmap, Hfst.
Qed.

Lemma qrep_halves h q xs sss i p d :
  qrep h q xs sss → xs !! i = Some (p, d) →
  nodes_ok (take i xs) (take i sss) ∧ nodes_ok (drop (S i) xs) (drop (S i) sss).
Proof. intros Hq Hi. split; [by apply Forall2_take, Hq|by apply Forall2_drop, Hq]. Qed.

(** A node leaves the list, whatever has become of its ziplist. *)
Lemma qrep_del h q xs sss i p d d1 ss h1 n :
  qrep h q xs sss → xs !! i = Some (p, d) → sss !! i = Some ss →
  linked h1 q (<[i := (p, d1)]> xs) → qcount q - count d1 - n = zlen (concat sss) - zlen ss → 0 ≤ n →
  0 ≤ count d1 →
  ∃ q' h' xs', __quicklistDelNode q h1 p = Some (q', h') ∧
    qrep h' (set_qcount q' (qcount q' - n)) xs' (take i sss ++ drop (S i) sss) ∧
    xs'.*1 = (take i xs ++ drop (S i) xs).*1 ∧ same_opts q q' ∧
    (ends q (<[i := (p, d1)]> xs) → ends q' xs').
Proof.
  intros Hq Hi Hss Hl1 Hn Hn0 Hc0. pose proof (lookup_lt_Some _ _ _ Hi) as Hlt.
  destruct (qrep_halves _ _ _ _ _ _ _ Hq Hi) as [HA HB]. pose proof (qrep_small _ _ _ _ Hq) as Hsm.
  rewrite insert_take_drop in * by done.
  assert (zlen (take i xs ++ (p, d1) :: drop (S i) xs) = zlen xs) as Hz.
  { unfold zlen. rewrite length_app. simpl. rewrite length_take, length_drop. lia. }
  destruct (delNode_ok h1 q (take i xs) (drop (S i) xs) (take i sss) (drop (S i) sss) p d1 Hl1 HA HB)
    as (q' & h' & xs' & Hrun & Hl' & Hok' & Hf' & Hc' & Hlen' & Hqc' & Hfi' & Hco' & He').
  { rewrite Hz. apply Hq. } { rewrite (q_len _ _ _ _ Hq). lia. } { apply Hq. }
  assert (zlen (concat (take i sss ++ drop (S i) sss)) = zlen (concat sss) - zlen ss) as Hzc.
  { rewrite (qconcat_split sss i ss Hss), concat_app. zl. }
  exists q', h', xs'. split; [done|]. split; [|done]. split.
  - destruct Hl'. by split.
  - done.
  - rewrite Hc'. unfold counts. rewrite !fmap_app, !fmap_take, !fmap_drop. pose proof (q_counts _ _ _ _ Hq) as Hcs.
    unfold counts in Hcs. by rewrite Hcs.
  - simpl. rewrite Hlen', (q_len _ _ _ _ Hq). unfold zlen. rewrite <-(length_fmap fst xs'), Hf', length_fmap.
    rewrite length_app, length_take, length_drop. lia.
  - simpl. rewrite Hqc', Hzc, <-Hn. pose proof (q_count _ _ _ _ Hq).
    assert (zlen ss ≤ zlen (concat sss)) by (rewrite (qconcat_split sss i ss Hss); zl). zlen_pos.
    rewrite (uwrap_id 64 (qcount q - count d1)) by (unfold in_u; lia). apply uwrap_id. unfold in_u. lia.
  - pose proof (q_ne _ _ _ _ Hq) as Hne. apply Forall_app. split; [by apply Forall_take|by apply Forall_drop].
  - pose proof (q_room _ _ _ _ Hq) as Hr. unfold room in *. rewrite (qconcat_split sss i ss Hss) in Hr.
    rewrite concat_app, !budget_app in *. pose proof (budget_nonneg ss). zlen_pos. lia.
  - simpl. rewrite Hfi', Hco'. apply Hq.
Qed.

Lemma delIndex_ok h q xs sss i p d ss b j z :
  qrep h q xs sss → xs !! i = Some (p, d) → raw d → sss !! i = Some ss → zl d = Zl b →
  zat b ss j z → (j < length ss)%nat →
  ∃ q' h' xs', quicklistDelIndex q h p z = Some (q', h', bool_decide (length ss = 1%nat)) ∧
    qrep h' q' xs' (del_nodes i j ss sss) ∧ same_opts q q' ∧ (ends q xs → ends q' xs') ∧
    (if bool_decide (length ss = 1%nat) then xs'.*1 = (take i xs ++ drop (S i) xs).*1
     else ∃ b' d', xs' = <[i := (p, d')]> xs ∧ raw d' ∧ zl d' = Zl b' ∧ zat b' (without j ss) j z).
Proof.
  intros Hq Hi Hr Hss Hz Hat Hj. destruct (qrep_node _ _ _ _ _ _ _ Hq Hi) as (ss0 & ? & Hd & Hc & Hne & Hrm). simplify_eq.
  destruct (zdelete_ok b ss j z Hat Hj Hrm) as (b' & Hdel & Hat'). fold (without j ss) in Hat'.
  pose proof (zat_rep _ _ _ _ Hat') as Hb'. pose proof (q_linked _ _ _ _ Hq) as Hl.
  pose proof (q_count _ _ _ _ Hq) as Hqc. pose proof (qrep_small _ _ _ _ Hq) as Hsm.
  set (d1 := set_count (set_zl d b') (count d + -1)).
  destruct (updM_at h xs i p d (λ d, b ← zlof d; '(b, _) ← ziplistDelete b z; add_count (-1) (set_zl d b)) d1 (l_seg _ _ _ Hl) (l_nodup _ _ _ Hl) Hi)
    as (h1 & Hu1 & Hs1 & _).
  { unfold zlof. rewrite Hz. simpl. by rewrite Hdel. }
  pose proof (linked_set h q xs i p d d1 h1 Hl Hi Hs1) as Hl1.
  assert ((<[i:=(p, d1)]> xs) !! i = Some (p, d1)) as Hi1 by (apply list_lookup_insert_eq; by eapply lookup_lt_Some).
  assert (count d1 = zlen ss - 1) as Hc1.
  { simpl. rewrite Hc. apply uwrap_id. unfold in_u. destruct Hd as [Hmax _ _]. unfold zlen in *. lia. }
  unfold quicklistDelIndex. rewrite Hu1. cbn [mbind option_bind]. unfold node_at.
  rewrite (seg_lookup _ _ _ _ _ Hs1 Hi1). cbn [fmap option_fmap option_map mbind option_bind value].
  assert (zlen ss ≤ zlen (concat sss)) as Hsub by (rewrite (qconcat_split sss i ss Hss); zl).
  destruct (bool_decide_reflect (length ss = 1%nat)) as [E1|E1].
  - destruct (Z.eqb_spec (count d1) 0) as [_|Hn]; [|unfold zlen in *; lia].
    destruct (qrep_del h q xs sss i p d d1 ss h1 1 Hq Hi Hss Hl1) as (q' & h' & xs' & -> & Hq' & Hf' & Ho' & He');
      [unfold zlen in *; lia|lia|unfold zlen in *; lia|].
    cbn [mbind option_bind]. do 3 eexists. split; [done|].
    split; [unfold del_nodes; by rewrite bool_decide_eq_true_2|]. split_and!; [exact Ho'| |done].
    intros He. eapply (ends_fields q'); [done|]. apply He'. by eapply ends_insert.
  - destruct (Z.eqb_spec (count d1) 0) as [Hn|_]; [unfold zlen in *; lia|].
    set (d2 := set_sz d1 (zlen b')).
    destruct (updM_at h1 (<[i := (p, d1)]> xs) i p d1 quicklistNodeUpdateSz d2 Hs1 (l_nodup _ _ _ Hl1) Hi1) as (h2 & -> & Hs2 & _).
    { unfold quicklistNodeUpdateSz, zlof. simpl. by rewrite (zrep_blob b' _ Hb'). }
    cbn [mbind option_bind]. rewrite list_insert_insert_eq in Hs2. do 3 eexists. split; [done|].
    pose proof (without_length j ss Hj) as Hwl.
    assert (zlen (concat (<[i := without j ss]> sss)) = qcount q - 1) as Hzc.
    { rewrite concat_insert by (by eapply lookup_lt_Some). rewrite Hqc, (qconcat_split sss i ss Hss). zl. }
    split; [|split_and!; try done].
    + unfold del_nodes. rewrite bool_decide_eq_false_2 by done. rewrite <-Hzc.
      eapply qrep_set; [done|done|done| | | |].
      * split; [|destruct Hd as [_ Hw _]|].
        -- destruct Hd as [Hmax _ _]. lia.
        -- apply Forall_app. split; [by apply Forall_take|by apply Forall_drop].
        -- exists b'. split_and!; try done. left. by split.
      * rewrite Hwl. exact Hc1.
      * intros Hw. rewrite Hw in Hwl. unfold zlen in Hwl. simpl in Hwl. lia.
      * pose proof (q_room _ _ _ _ Hq) as Hroom. unfold room in *. rewrite concat_insert by (by eapply lookup_lt_Some).
        rewrite (qconcat_split sss i ss Hss) in Hroom. rewrite !budget_app in *.
        destruct (lookup_lt_is_Some_2 ss j Hj) as [x Hx]. pose proof (without_budget j ss x Hx). zlen_pos. lia.
    + intros He. eapply (ends_fields q); [done|]. by eapply ends_insert.
    + exists b', d2. done.
Qed.

(** ** Popping *)
Lemma zindex_ok b ss i :
  zrep b ss → match norm ss i with
              | Some j => ∃ z, ziplistIndex b i = Some (Some z) ∧ zat b ss j z
              | None => ziplistIndex b i = Some None
              end.
Proof. exact (@packed_index_ok bytes Z _ ziplist_packed_ok b ss i). Qed.

Lemma zget_ok b ss j z : zat b ss j z → ziplistGet b z = Some (zval_of <$> ss !! j).
Proof. exact (@packed_get_ok bytes Z _ ziplist_packed_ok b ss j z). Qed.

Lemma popNode_ok h q xs sss i p d ss pos j s :
  qrep h q xs sss → xs !! i = Some (p, d) → raw d → sss !! i = Some ss →
  norm ss pos = Some j → ss !! j = Some s →
  ∃ b z q' h' xs', node_at h p = Some d ∧ zlof d = Some b ∧ ziplistIndex b pos = Some (Some z) ∧
    ziplistGet b z = Some (Some (zval_of s)) ∧
    quicklistDelIndex q h p z = Some (q', h', bool_decide (length ss = 1%nat)) ∧
    qrep h' q' xs' (del_nodes i j ss sss) ∧ same_opts q q' ∧ (ends q xs → ends q' xs').
Proof.
  intros Hq Hi Hr Hss Hn Hj. destruct (qrep_node _ _ _ _ _ _ _ Hq Hi) as (ss0 & ? & Hd & _). simplify_eq.
  destruct (raw_block d ss Hd Hr) as (b & Hz & Hb & _). pose proof (zindex_ok b ss pos Hb) as Hix. rewrite Hn in Hix.
  destruct Hix as (z & Hix & Hat).
  destruct (delIndex_ok h q xs sss i p d ss b j z Hq Hi Hr Hss Hz Hat) as (q' & h' & xs' & Hdel & Hq' & Ho & He & _);
    [by eapply lookup_lt_Some|].
  exists b, z, q', h', xs'. split_and!; try done.
  - unfold node_at. by rewrite (seg_lookup _ _ _ _ _ (l_seg _ _ _ (q_linked _ _ _ _ Hq)) Hi).
  - unfold zlof. by rewrite Hz.
  - by rewrite (zget_ok b ss j z Hat), Hj.
Qed.

(** The queue after a pop, and the string. *)
Definition popped (w : where_to) (l : list bytes) : option (bytes * list bytes) :=
  match w with
  | QUICKLIST_HEAD => match l with [] => None | s :: l => Some (s, l) end
  | QUICKLIST_TAIL => match reverse l with [] => None | s :: l => Some (s, reverse l) end
  end.

Lemma pop_ok h q xs sss w :
  qrep h q xs sss → ends q xs →
  ∃ q' h' r xs' sss', quicklistPop q h w = Some (q', h', r) ∧ qrep h' q' xs' sss' ∧ ends q' xs' ∧ same_opts q q' ∧
    match popped w (concat sss) with
    | Some (s, l) => r = Some (zval_of s) ∧ concat sss' = l
    | None => r = None ∧ concat sss' = []
    end.
Proof.
  intros Hq He. unfold quicklistPop, quicklistPopCustom. rewrite (q_count _ _ _ _ Hq).
  destruct (qrep_empty_or _ _ _ _ Hq) as [[-> ->]|[Hxs Hsss]].
  { do 5 eexists. split; [done|]. split_and!; try done. by destruct w. }
  pose proof (q_ne _ _ _ _ Hq) as Hne. pose proof (qrep_length _ _ _ _ Hq) as Hlen.
  assert (concat sss ≠ []) as Hcne.
  { destruct sss as [|ss sss]; [done|]. apply Forall_cons in Hne as [? _]. by destruct ss. }
  destruct (Z.eqb_spec (zlen (concat sss)) 0) as [E|_]; [by apply zlen_0_nil in E|].
  pose proof (q_linked _ _ _ _ Hq) as [_ _ Hh Ht]. destruct w.
  - destruct xs as [|[p d] xs]; [done|]. rewrite Hh. simpl first. cbv iota.
    destruct sss as [|ss sss]; [done|]. apply Forall_cons in Hne as [Hsne _].
    destruct ss as [|s ss]; [done|].
    destruct (popNode_ok h q ((p, d) :: xs) ((s :: ss) :: sss) 0 p d (s :: ss) 0 0 s)
      as (b & z & q' & h' & xs' & -> & Hz & Hix & Hg & Hdel & Hq' & Ho & He'); try done.
    { by apply (e_first _ _ He (p, d)). }
    cbn [mbind option_bind]. rewrite Hz. cbn [mbind option_bind]. rewrite Hix. cbn [mbind option_bind]. rewrite Hg.
    cbn [mbind option_bind]. rewrite Hdel. cbn [mbind option_bind]. do 5 eexists. split; [done|]. split; [done|].
    split_and!; [by auto|done|]. simpl. split; [done|]. rewrite del_nodes_concat; simpl; [done|done|lia].
  - destruct (exists_last Hxs) as (xs0 & [p d] & ->). destruct (exists_last Hsss) as (sss0 & ss & ->).
    rewrite !length_app in Hlen. simpl in Hlen.
    rewrite Ht, lastp_snoc. apply Forall_app in Hne as [_ [Hsne _]%Forall_cons].
    destruct (exists_last Hsne) as (ss0 & s & ->).
    destruct (popNode_ok h q (xs0 ++ [(p, d)]) (sss0 ++ [ss0 ++ [s]]) (length xs0) p d (ss0 ++ [s]) (-1) (length ss0) s)
      as (b & z & q' & h' & xs' & -> & Hz & Hix & Hg & Hdel & Hq' & Ho & He'); try done.
    { by apply list_lookup_middle. }
    { apply (e_last _ _ He (p, d)). rewrite length_app. simpl. rewrite Nat.add_sub. by apply list_lookup_middle. }
    { apply list_lookup_middle. lia. }
    { unfold norm. change (-1 <? 0) with true. cbv iota. destruct (Z.leb_spec 0 (zlen (ss0 ++ [s]) + -1)); [|zl].
      destruct (Z.ltb_spec (zlen (ss0 ++ [s]) + -1) (zlen (ss0 ++ [s]))); [|zl]. simpl. f_equal.
      rewrite zlen_app. unfold zlen. simpl. lia. }
    { by apply list_lookup_middle. }
    cbn [mbind option_bind]. rewrite Hz. cbn [mbind option_bind]. rewrite Hix. cbn [mbind option_bind]. rewrite Hg.
    cbn [mbind option_bind]. rewrite Hdel. cbn [mbind option_bind]. do 5 eexists. split; [done|]. split; [done|].
    split_and!; [by auto|done|]. unfold popped. rewrite concat_app. simpl. rewrite app_nil_r, app_assoc.
    rewrite reverse_snoc. split; [done|]. rewrite reverse_involutive.
    rewrite del_nodes_concat; [|apply list_lookup_middle; lia|rewrite length_app; simpl; lia].
    rewrite take_app_length' by lia. rewrite (drop_ge (sss0 ++ _)) by (rewrite length_app; simpl; lia).
    unfold without. rewrite take_app_length. rewrite (drop_ge (ss0 ++ [s])) by (rewrite length_app; simpl; lia).
    simpl. by rewrite !app_nil_r.
Qed.

(** ** Sessions at both ends *)
Inductive dop := DPush (w : where_to) (s : bytes) | DPop (w : where_to).

Definition dop_wf (op : dop) : Prop := match op with DPush _ s => wf_bytes s | DPop _ => True end.
Definition dop_cost (op : dop) : Z := match op with DPush _ s => zlen s + 17 | DPop _ => 0 end.
Definition dops_cost (ops : list dop) : Z := foldr (λ op n, dop_cost op + n) 0 ops.

(** The code: a pop answers the value it found, or nothing. *)
Fixpoint deque_run (ops : list dop) (q : quicklist) (h : heap qnode) :
    option (quicklist * heap qnode * list (option zval)) :=
  match ops with
  | [] => Some (q, h, [])
  | DPush w s :: ops => '(q, h) ← quicklistPush q h s w; deque_run ops q h
  | DPop w :: ops =>
      '(q, h, r) ← quicklistPop q h w;
      '(q, h, rs) ← deque_run ops q h; Some (q, h, r :: rs)
  end.

Fixpoint deque_spec (ops : list dop) (l : list bytes) : list bytes * list (option bytes) :=
  match ops with
  | [] => (l, [])
  | DPush QUICKLIST_HEAD s :: ops => deque_spec ops (s :: l)
  | DPush QUICKLIST_TAIL s :: ops => deque_spec ops (l ++ [s])
  | DPop w :: ops =>
      match popped w l with
      | Some (s, l') => let '(r, rs) := deque_spec ops l' in (r, Some s :: rs)
      | None => let '(r, rs) := deque_spec ops l in (r, None :: rs)
      end
  end.

Lemma push_ok h q xs sss s w :
  qrep h q xs sss → ends q xs → wf_bytes s → room (s :: concat sss) →
  ∃ q' h' xs' sss', quicklistPush q h s w = Some (q', h') ∧ qrep h' q' xs' sss' ∧ ends q' xs' ∧ same_opts q q' ∧
    concat sss' = match w with QUICKLIST_HEAD => s :: concat sss | QUICKLIST_TAIL => concat sss ++ [s] end.
Proof.
  intros Hq He Hs Hr. destruct w.
  - destruct (pushHead_ok h q xs sss s Hq He Hs Hr) as (q' & h' & n & xs' & sss' & Hrun & ? & ? & ? & ?).
    exists q', h', xs', sss'. unfold quicklistPush. by rewrite Hrun.
  - destruct (pushTail_ok h q xs sss s Hq He Hs Hr) as (q' & h' & n & xs' & sss' & Hrun & ? & ? & ? & ?).
    exists q', h', xs', sss'. unfold quicklistPush. by rewrite Hrun.
Qed.

Lemma popped_budget w l s l' : popped w l = Some (s, l') → budget l' ≤ budget l.
Proof.
  unfold popped. zlen_pos. destruct w.
  - destruct l; [done|]. intros [= <- <-]. simpl. zlen_pos. lia.
  - destruct l as [|x l _] using rev_ind; [done|]. rewrite reverse_snoc. intros [= <- <-].
    rewrite reverse_involutive, budget_app. simpl. zlen_pos. lia.
Qed.

Lemma dops_cost_nonneg ops : 0 ≤ dops_cost ops.
Proof. induction ops as [|op ops IH]; [done|]. simpl. destruct op; simpl; zlen_pos; lia. Qed.

Lemma deque_ok ops : ∀ q h xs sss,
  qrep h q xs sss → ends q xs → Forall dop_wf ops → 40 + budget (concat sss) + dops_cost ops < 2 ^ 32 →
  ∃ q' h' rs xs' sss', deque_run ops q h = Some (q', h', rs) ∧ qrep h' q' xs' sss' ∧ ends q' xs' ∧
    concat sss' = (deque_spec ops (concat sss)).1 ∧
    rs = map (option_map zval_of) (deque_spec ops (concat sss)).2.
Proof.
  induction ops as [|op ops IH]; intros q h xs sss Hq He Hw Hc.
  { do 5 eexists. by split_and!. }
  apply Forall_cons in Hw as [Hop Hw]. simpl in Hc. pose proof (dops_cost_nonneg ops). destruct op as [w s|w].
  - destruct (push_ok h q xs sss s w Hq He Hop) as (q1 & h1 & xs1 & sss1 & Hrun & Hq1 & He1 & _ & Hcat).
    { unfold room. simpl in *. lia. }
    destruct (IH q1 h1 xs1 sss1 Hq1 He1 Hw) as (q2 & h2 & rs & xs2 & sss2 & Hrun2 & Hq2 & He2 & Hcat2 & Hrs).
    { rewrite Hcat. destruct w; rewrite ?budget_app; simpl in *; lia. }
    exists q2, h2, rs, xs2, sss2. simpl. rewrite Hrun. simpl. rewrite Hcat in *. destruct w; by split_and!.
  - destruct (pop_ok h q xs sss w Hq He) as (q1 & h1 & r & xs1 & sss1 & Hrun & Hq1 & He1 & _ & Hcat).
    assert (budget (concat sss1) ≤ budget (concat sss)) as Hb.
    { destruct (popped w (concat sss)) as [[s l]|] eqn:E; destruct Hcat as [_ ->]; [by eapply popped_budget|].
      simpl. pose proof (budget_nonneg (concat sss)). zlen_pos. lia. }
    destruct (IH q1 h1 xs1 sss1 Hq1 He1 Hw) as (q2 & h2 & rs & xs2 & sss2 & Hrun2 & Hq2 & He2 & Hcat2 & Hrs).
    { simpl in Hc. lia. }
    exists q2, h2, (r :: rs), xs2, sss2. simpl. rewrite Hrun. simpl. rewrite Hrun2. simpl.
    split_and!; try done.
    + destruct (popped w (concat sss)) as [[s l]|] eqn:E; destruct Hcat as [-> Hc']; rewrite Hc' in *.
      * by destruct (deque_spec ops l).
      * assert (concat sss = []) as ->.
        { destruct w; simpl in E; [by destruct (concat sss)|]. destruct (reverse (concat sss)) eqn:Er; [|done].
          by rewrite <-(reverse_involutive (concat sss)), Er. }
        by destruct (deque_spec ops []).
    + destruct (popped w (concat sss)) as [[s l]|] eqn:E; destruct Hcat as [-> Hc']; rewrite Hc' in *.
      * by destruct (deque_spec ops l); simplify_eq/=.
      * assert (concat sss = []) as ->.
        { destruct w; simpl in E; [by destruct (concat sss)|]. destruct (reverse (concat sss)) eqn:Er; [|done].
          by rewrite <-(reverse_involutive (concat sss)), Er. }
        by destruct (deque_spec ops []); simplify_eq/=.
Qed.

Lemma qrep_new h f c : qrep h (quicklistNew f c) [] [] ∧ ends (quicklistNew f c) [].
Proof.
  split; [split; try done; try (by constructor)|].
  - split; try done. constructor.
  - split; cbn [compress fill quicklistNew quicklistSetOptions quicklistSetCompressDepth quicklistSetFill].
    + apply (uwrap_bound 16). lia.
    + apply (swrap_bound 16). lia.
  - split; try done. constructor.
Qed.

(** C5: Pushes and pops at both ends, for every fill factor and every compression
    depth, answer as those of a list of strings, from any heap; at the end the
    nodes hold the list and both ends are uncompressed. *)
Theorem quicklist_deque_refines (ops : list dop) (f c : Z) (h : heap qnode) :
  Forall dop_wf ops → 40 + dops_cost ops < 2 ^ 32 →
  ∃ q' h' rs xs sss, deque_run ops (quicklistNew f c) h = Some (q', h', rs) ∧
    qrep h' q' xs sss ∧ ends q' xs ∧ concat sss = (deque_spec ops []).1 ∧
    rs = map (option_map zval_of) (deque_spec ops []).2.
Proof.
  intros Hw Hc. destruct (qrep_new h f c) as [Hq He].
  apply (deque_ok ops (quicklistNew f c) h [] [] Hq He Hw). simpl. lia.
Qed.
End Spec.

Section Witness.
#[local] Existing Instance junk0.
#[local] Instance demo_lzf : Compressor := lzf_compressor (λ i, i).

Definition demo_dops : list dop :=
  [DPush QUICKLIST_TAIL [97]; DPush QUICKLIST_HEAD [98]; DPop QUICKLIST_TAIL; DPush QUICKLIST_TAIL [49; 50]; DPop QUICKLIST_TAIL;
   DPop QUICKLIST_TAIL; DPop QUICKLIST_HEAD].

Lemma quicklist_deque_refines_witness :
  ∃ q' h', deque_run demo_dops (quicklistNew 1 1) (Heap ∅ []) =
    Some (q', h', [Some (ZStr [97]); Some (ZInt 12); Some (ZStr [98]); None]).
Proof.
  destruct (quicklist_deque_refines demo_dops 1 1 (Heap ∅ [])) as (q' & h' & rs & xs & sss & Hrun & _ & _ & _ & Hrs).
  - assert (∀ l, Forall is_byte l → wf_bytes l) as Hw by done.
    repeat (constructor; [first [exact I|apply Hw; repeat constructor; by vm_compute]|]). constructor.
  - by vm_compute.
  - exists q', h'. rewrite Hrs in Hrun. exact Hrun.
Defined.
End Witness.
