(* ===== verification/QuicklistIndex.v ===== *)
(** * Access by index

    [quicklistIndex] finds the string at an index, counted from either end,
    [quicklistReplaceAtIndex] replaces it.  A compressed node is decompressed for
    use on the way; the strings are the same. *)

From S2P Require Import Prelude.
From S2P Require Import Mem.
From S2P Require Import Util.
From S2P Require Import Ziplist.
From S2P Require Import ZiplistOps.
From S2P Require Import ZiplistSpec.
From S2P Require Import Packed.
From S2P Require Import Adlist.
From S2P Require Import AdlistSpec.
From S2P Require Import Quicklist.
From S2P Require Import QuicklistRepr.
From S2P Require Import QuicklistLinks.
From S2P Require Import QuicklistSpec.
Import Ziplist Quicklist Packed.
Import Adlist(ptr, ListNode, nodes, prev, next, value, heap, Heap, set_node, zmalloc_node, deref,
  set_next, set_prev, zfree_node, freed).

Section Index.
Context `{Alloc} `{CompressorOk}.

(** The strings before node [i]. *)
Definition upto (i : nat) (sss : list (list bytes)) : Z := zlen (concat (take i sss)).

Lemma upto_S sss i ss : sss !! i = Some ss → upto (S i) sss = upto i sss + zlen ss.
Proof. intros Hi. unfold upto. rewrite (take_S_r sss i ss Hi), concat_app. simpl. rewrite app_nil_r. zl. Qed.

Lemma upto_all sss i : (length sss ≤ i)%nat → upto i sss = zlen (concat sss).
Proof. intros Hi. unfold upto. by rewrite take_ge. Qed.

Lemma upto_le sss i : 0 ≤ upto i sss ≤ zlen (concat sss).
Proof.
  unfold upto. rewrite <-(take_drop i sss) at 3. rewrite concat_app. zl.
Qed.

Lemma count_at h q xs sss i p d ss :
  qrep h q xs sss → xs !! i = Some (p, d) → sss !! i = Some ss →
  nodes h !! p = Some (ListNode (before xs i) (fst <$> xs !! S i) d) ∧ count d = zlen ss.
Proof.
  intros Hq Hi Hss. split; [by apply seg_lookup; [apply Hq|]|].
  destruct (qrep_node _ _ _ _ _ _ _ Hq Hi) as (ss' & ? & _ & ? & _). by simplify_eq.
Qed.

(** One node of either walk. *)
Lemma index_step h q xs sss i p d ss fwd index accum :
  qrep h q xs sss → xs !! i = Some (p, d) → sss !! i = Some ss → 0 ≤ accum → accum + zlen ss ≤ zlen (concat sss) →
  index_body h fwd index (Some p, accum) =
  Some (if accum + zlen ss >? index then inr (Some p, accum)
        else inl (if fwd then fst <$> xs !! S i else before xs i, accum + zlen ss)).
Proof.
  intros Hq Hi Hss Ha Hle. pose proof (qrep_small _ _ _ _ Hq).
  destruct (count_at _ _ _ _ _ _ _ _ Hq Hi Hss) as [Hn Hc]. unfold index_body. rewrite Hn. cbn [mbind option_bind value].
  rewrite Hc, !uwrap_id by (unfold in_u; zlen_pos; lia). by destruct (_ >? _), fwd.
Qed.

(** The walk from the head. *)
Lemma index_forward h q xs sss index fuel : ∀ i,
  qrep h q xs sss → upto i sss ≤ index < zlen (concat sss) → (length xs - i < fuel)%nat →
  ∃ i' p d ss, loop fuel (index_body h true index) (fst <$> xs !! i, upto i sss) = Some (Some p, upto i' sss) ∧
    xs !! i' = Some (p, d) ∧ sss !! i' = Some ss ∧ upto i' sss ≤ index < upto i' sss + zlen ss.
Proof.
  induction fuel as [|fuel IH]; intros i Hq Hix Hf; [lia|]. pose proof (qrep_length _ _ _ _ Hq) as Hlen.
  destruct (xs !! i) as [[p d]|] eqn:E.
  2:{ apply lookup_ge_None in E. rewrite upto_all in Hix by lia. lia. }
  destruct (lookup_lt_is_Some_2 sss i) as [ss Hss]; [rewrite <-Hlen; by eapply lookup_lt_Some|].
  pose proof (upto_le sss (S i)) as Hu. rewrite (upto_S _ _ _ Hss) in Hu. pose proof (upto_le sss i).
  rewrite loop_S. simpl fmap. rewrite (index_step h q xs sss i p d ss true index (upto i sss)) by (done || lia).
  cbn [mbind option_bind]. destruct (Z.gtb_spec (upto i sss + zlen ss) index) as [Hgt|Hgt].
  - exists i, p, d, ss. split_and!; try done. lia.
  - rewrite <-(upto_S _ _ _ Hss). apply IH; [done|rewrite (upto_S _ _ _ Hss); lia|].
    apply lookup_lt_Some in E. lia.
Qed.

(** The walk from the tail: [n] nodes are left. *)
Lemma index_backward h q xs sss index fuel : ∀ n,
  qrep h q xs sss → (n ≤ length xs)%nat → zlen (concat sss) - upto n sss ≤ index < zlen (concat sss) → (n < fuel)%nat →
  ∃ i p d ss, loop fuel (index_body h false index) (before xs n, zlen (concat sss) - upto n sss) =
      Some (Some p, zlen (concat sss) - upto (S i) sss) ∧
    xs !! i = Some (p, d) ∧ sss !! i = Some ss ∧
    zlen (concat sss) - upto (S i) sss ≤ index < zlen (concat sss) - upto i sss.
Proof.
  induction fuel as [|fuel IH]; intros n Hq Hn Hix Hf; [lia|]. pose proof (qrep_length _ _ _ _ Hq) as Hlen.
  destruct n as [|i]; [unfold upto in Hix; simpl in Hix; change (zlen []) with 0 in Hix; lia|].
  destruct (lookup_lt_is_Some_2 xs i ltac:(lia)) as [[p d] E].
  destruct (lookup_lt_is_Some_2 sss i ltac:(lia)) as [ss Hss].
  pose proof (upto_S _ _ _ Hss) as HuS. pose proof (upto_le sss i). pose proof (upto_le sss (S i)).
  simpl before. rewrite E. simpl fmap. rewrite loop_S.
  rewrite (index_step h q xs sss i p d ss false index) by (done || lia).
  cbn [mbind option_bind]. destruct (Z.gtb_spec (zlen (concat sss) - upto (S i) sss + zlen ss) index) as [Hgt|Hgt].
  - exists i, p, d, ss. split_and!; try done; lia.
  - replace (zlen (concat sss) - upto (S i) sss + zlen ss) with (zlen (concat sss) - upto i sss) by lia.
    apply IH; [done|lia|lia|lia].
Qed.

(** What an entry points to: string [k] of node [i], in a node that is not
    compressed. *)
Record entry_at (xs : cells) (sss : list (list bytes)) (e : quicklistEntry) (i k : nat) : Prop := {
  at_node : ∃ p d b z ss s, xs !! i = Some (p, d) ∧ raw d ∧ zl d = Zl b ∧ sss !! i = Some ss ∧ ss !! k = Some s ∧
    zat b ss k z ∧ e_node e = Some p ∧ e_zi e = Some z ∧ e_value e = Some (zval_of s) }.

(** A node is decompressed for use. *)
Lemma for_use_at h q xs sss i p d :
  qrep h q xs sss → xs !! i = Some (p, d) →
  ∃ h' d', quicklistDecompressNodeForUse h (Some p) = Some h' ∧ raw d' ∧
    qrep h' q (<[i := (p, d')]> xs) sss ∧ (raw d → <[i := (p, d')]> xs = xs) ∧
    (count d' = count d ∧ sz d' = sz d).
Proof.
  intros Hq Hi. destruct (qrep_node _ _ _ _ _ _ _ Hq Hi) as (ss & Hss & Hd & Hc & Hne & _).
  destruct (for_use_ok d ss Hd) as (d' & Hf & Hd' & Hr & Hid & Hsame).
  pose proof (q_linked _ _ _ _ Hq) as Hl.
  destruct (updM_at h xs i p d decompress_for_use d' (l_seg _ _ _ Hl) (l_nodup _ _ _ Hl) Hi Hf) as (h' & Hu & Hs' & _).
  exists h', d'. split; [done|]. split; [done|]. split.
  - pose proof Hq as [_ Hok Hcs Hlen Hcnt Hnes Hroom Hop]. split; try done.
    + by eapply linked_set.
    + by eapply nodes_ok_insert.
    + rewrite counts_insert, (proj1 Hsame), Hc, Hcs. apply list_insert_id. by rewrite list_lookup_fmap, Hss.
    + by rewrite zlen_insert.
  - split; [|done]. intros Hraw. rewrite (Hid Hraw). by apply list_insert_id.
Qed.

(** The entry of a string in a node. *)
Lemma entry_ok h q xs sss i p d ss k s off :
  qrep h q xs sss → xs !! i = Some (p, d) → sss !! i = Some ss → norm ss off = Some k → ss !! k = Some s →
  ∃ h' xs' e,
    (h ← quicklistDecompressNodeForUse h (Some p);
     d ← node_at h p; b ← zlof d;
     z ← ziplistIndex b off;
     v ← match z with Some z => ziplistGet b z | None => Some None end;
     Some (h, QuicklistEntry (Some p) z v off, true)) = Some (h', e, true) ∧
    qrep h' q xs' sss ∧ (compress q = 0 → ends q xs → xs' = xs) ∧ entry_at xs' sss e i k ∧ e_offset e = off.
Proof.
  intros Hq Hi Hss Hn Hs. destruct (for_use_at h q xs sss i p d Hq Hi) as (h' & d' & -> & Hr & Hq' & Hid & _).
  cbn [mbind option_bind].
  assert ((<[i := (p, d')]> xs) !! i = Some (p, d')) as Hi' by (apply list_lookup_insert_eq; by eapply lookup_lt_Some).
  destruct (qrep_node _ _ _ _ _ _ _ Hq' Hi') as (ss' & ? & Hd' & _). simplify_eq.
  destruct (raw_block d' ss Hd' Hr) as (b & Hz & Hb & _).
  unfold node_at. rewrite (seg_lookup _ _ _ _ _ (l_seg _ _ _ (q_linked _ _ _ _ Hq')) Hi').
  cbn [fmap option_fmap option_map mbind option_bind value]. unfold zlof. rewrite Hz. cbn [mbind option_bind].
  pose proof (zindex_ok b ss off Hb) as Hix. rewrite Hn in Hix. destruct Hix as (z & -> & Hat).
  cbn [mbind option_bind]. rewrite (zget_ok b ss k z Hat), Hs. cbn [mbind option_bind].
  exists h', (<[i := (p, d')]> xs). eexists. split; [done|]. split; [done|]. split; [|split; [|done]].
  - intros Hc He. apply Hid. by apply (e_short _ _ He (or_introl Hc) i (p, d)).
  - split. by exists p, d', b, z, ss, s.
Qed.

Lemma concat_lookup sss i k (ss : list bytes) s j :
  sss !! i = Some ss → ss !! k = Some s → Z.of_nat j = upto i sss + Z.of_nat k → concat sss !! j = Some s.
Proof.
  intros Hi Hk Hj. rewrite (qconcat_split sss i ss Hi). unfold upto, zlen in Hj.
  rewrite lookup_app_r by lia. replace (j - _)%nat with k by lia. by apply lookup_app_l_Some.
Qed.

(** [quicklistIndex] at an index of the list: the entry, with an offset counted
    as the index is. *)
Lemma qindex_ok h q xs sss idx :
  qrep h q xs sss → - 2 ^ 63 ≤ idx < 2 ^ 63 →
  match norm (concat sss) idx with
  | Some j => ∃ h' xs' e i k ss s, quicklistIndex q h idx = Some (h', e, true) ∧
      qrep h' q xs' sss ∧ (compress q = 0 → ends q xs → xs' = xs) ∧ entry_at xs' sss e i k ∧
      sss !! i = Some ss ∧ ss !! k = Some s ∧ Z.of_nat j = upto i sss + Z.of_nat k ∧
      e_offset e = (if idx <? 0 then Z.of_nat k - zlen ss else Z.of_nat k) ∧
      concat sss !! j = Some s
  | None => quicklistIndex q h idx = Some (h, initEntry, false)
  end.
Proof.
  intros Hq Hidx. pose proof (qrep_small _ _ _ _ Hq) as Hsm. pose proof (qrep_length _ _ _ _ Hq) as Hlen.
  unfold quicklistIndex. rewrite (q_count _ _ _ _ Hq), (q_len _ _ _ _ Hq).
  set (index := uwrap 64 (if negb (idx <? 0) then idx else - idx - 1)).
  assert (index = if idx <? 0 then - idx - 1 else idx) as Hindex.
  { unfold index. destruct (Z.ltb_spec idx 0); simpl; apply uwrap_id; unfold in_u; lia. }
  unfold norm. rewrite Hindex. zlen_pos.
  destruct (Z.ltb_spec idx 0) as [Hneg|Hpos]; cbn [negb].
  - destruct (Z.geb_spec (- idx - 1) (zlen (concat sss))) as [Hge|Hlt].
    { destruct (Z.leb_spec 0 (zlen (concat sss) + idx)); [lia|]. done. }
    destruct (Z.leb_spec 0 (zlen (concat sss) + idx)); [|lia].
    destruct (Z.ltb_spec (zlen (concat sss) + idx) (zlen (concat sss))); [|lia]. cbn [andb].
    destruct (index_backward h q xs sss (- idx - 1) (S (S (Z.to_nat (zlen xs)))) (length xs) Hq) as (i & p & d & ss & Hrun & Hi & Hss & Hr).
    { lia. } { rewrite upto_all by lia. lia. } { unfold zlen. lia. }
    rewrite upto_all, Z.sub_diag, <-lastp_lookup, <-(l_tail _ _ _ (q_linked _ _ _ _ Hq)) in Hrun by lia.
    rewrite Hrun. cbn [mbind option_bind]. pose proof (upto_S _ _ _ Hss) as HuS.
    pose proof (upto_le sss i). pose proof (upto_le sss (S i)).
    set (k := Z.to_nat (zlen (concat sss) + idx - upto i sss)).
    assert (Z.of_nat k = zlen (concat sss) + idx - upto i sss) as Hk by (unfold k; lia).
    assert (k < length ss)%nat as Hkl by (unfold zlen in *; lia).
    replace (- (- idx - 1) - 1 + (zlen (concat sss) - upto (S i) sss)) with (Z.of_nat k - zlen ss) by lia.
    rewrite (swrap_id 32) by (unfold in_s; lia).
    assert (norm ss (Z.of_nat k - zlen ss) = Some k) as Hnorm.
    { unfold norm. destruct (Z.ltb_spec (Z.of_nat k - zlen ss) 0); [|unfold zlen in *; lia].
      replace (zlen ss + (Z.of_nat k - zlen ss)) with (Z.of_nat k) by lia.
      destruct (Z.leb_spec 0 (Z.of_nat k)); [|lia]. destruct (Z.ltb_spec (Z.of_nat k) (zlen ss)); [|unfold zlen in *; lia].
      simpl. by rewrite Nat2Z.id. }
    destruct (lookup_lt_is_Some_2 ss k Hkl) as [s Hs].
    destruct (entry_ok h q xs sss i p d ss k s _ Hq Hi Hss Hnorm Hs) as (h' & xs' & e & Hrun' & Hq' & Hid & Hat & Hoff).
    exists h', xs', e, i, k, ss, s. split_and!; try done; [lia|]. eapply concat_lookup; [done|done|lia].
  - destruct (Z.geb_spec idx (zlen (concat sss))) as [Hge|Hlt].
    { destruct (Z.leb_spec 0 idx); [|lia]. destruct (Z.ltb_spec idx (zlen (concat sss))); [lia|]. done. }
    destruct (Z.leb_spec 0 idx); [|lia]. destruct (Z.ltb_spec idx (zlen (concat sss))); [|lia]. cbn [andb].
    destruct (index_forward h q xs sss idx (S (S (Z.to_nat (zlen xs)))) 0 Hq) as (i & p & d & ss & Hrun & Hi & Hss & Hr).
    { unfold upto. simpl. change (zlen []) with 0. lia. } { unfold zlen. lia. }
    rewrite <-first_lookup, <-(l_head _ _ _ (q_linked _ _ _ _ Hq)) in Hrun. change (upto 0 sss) with 0 in Hrun.
    rewrite Hrun. cbn [mbind option_bind]. pose proof (upto_S _ _ _ Hss) as HuS.
    pose proof (upto_le sss i). pose proof (upto_le sss (S i)).
    set (k := Z.to_nat (idx - upto i sss)). assert (Z.of_nat k = idx - upto i sss) as Hk by (unfold k; lia).
    assert (k < length ss)%nat as Hkl by (unfold zlen in *; lia). rewrite <-Hk.
    rewrite (swrap_id 32) by (unfold in_s; lia).
    assert (norm ss (Z.of_nat k) = Some k) as Hnorm.
    { unfold norm. destruct (Z.ltb_spec (Z.of_nat k) 0); [lia|].
      destruct (Z.leb_spec 0 (Z.of_nat k)); [|lia]. destruct (Z.ltb_spec (Z.of_nat k) (zlen ss)); [|unfold zlen in *; lia].
      simpl. by rewrite Nat2Z.id. }
    destruct (lookup_lt_is_Some_2 ss k Hkl) as [s Hs].
    destruct (entry_ok h q xs sss i p d ss k s _ Hq Hi Hss Hnorm Hs) as (h' & xs' & e & Hrun' & Hq' & Hid & Hat & Hoff).
    exists h', xs', e, i, k, ss, s. split_and!; try done; [lia|]. eapply concat_lookup; [done|done|lia].
Qed.

(** ** Changing the ziplist of a node *)
Lemma qrep_stage h q xs sss h' xs' : qrep h q xs sss → stage h xs sss h' xs' → qrep h' q xs' sss.
Proof.
  intros [Hl Hok Hc Hlen Hcnt Hne Hr Ho] Hst. split; try done.
  - by eapply stage_linked.
  - by destruct Hst.
  - by rewrite (stage_counts _ _ _ _ _ Hst).
  - unfold zlen. by rewrite (stage_length _ _ _ _ _ Hst).
Qed.

Definition changed (d : qnode) (b' : bytes) (n : Z) : qnode :=
  QNode (Zl b') (zlen b') n (encoding d) (recompress d).

Lemma changed_ok d b' n ss' :
  raw d → zrep b' ss' → zlen ss' < 2 ^ 16 → Forall wf_bytes ss' → node_ok (changed d b' n) ss'.
Proof. intros Hr Hb Hm Hw. by apply raw_node_ok. Qed.

(** The node at index [i] gets the strings [ss'] and [n] more of them. *)
Lemma change_at h q xs sss i p d ss b f b' ss' n g :
  qrep h q xs sss → xs !! i = Some (p, d) → raw d → sss !! i = Some ss → zl d = Zl b →
  f b = Some b' → zrep b' ss' → zlen ss' < 2 ^ 16 → Forall wf_bytes ss' → ss' ≠ [] →
  zlen ss' = zlen ss + n → room (concat (<[i := ss']> sss)) →
  (g = (λ d, d ← change_zl f d; add_count n d) ∨ n = 0 ∧ g = change_zl f) →
  ∃ h', updM h p g = Some h' ∧
    qrep h' (set_qcount q (qcount q + n)) (<[i := (p, changed d b' (zlen ss'))]> xs) (<[i := ss']> sss).
Proof.
  intros Hq Hi Hr Hss Hz Hf Hb' Hmax Hw Hne Hn Hroom Hg.
  destruct (qrep_node _ _ _ _ _ _ _ Hq Hi) as (ss0 & ? & Hd & Hc & _ & _). simplify_eq.
  assert (change_zl f d = Some (changed d b' (count d))) as Hch.
  { eapply change_zl_ok; [done|done| |done]. intros b0 Hz0 _. congruence. }
  assert (g d = Some (changed d b' (zlen ss'))) as Hgd.
  { destruct Hg as [-> |[-> ->]].
    - rewrite Hch. simpl. unfold add_count, set_count, changed. simpl. do 2 f_equal.
      rewrite Hc, <-Hn. apply uwrap_id. unfold in_u. zlen_pos. lia.
    - rewrite Hch, Hc. do 2 f_equal. lia. }
  pose proof (q_linked _ _ _ _ Hq) as Hl.
  destruct (updM_at h xs i p d g _ (l_seg _ _ _ Hl) (l_nodup _ _ _ Hl) Hi Hgd) as (h' & Hu & Hs' & _).
  exists h'. split; [done|].
  replace (qcount q + n) with (zlen (concat (<[i := ss']> sss))).
  - eapply qrep_set; [done|done|done|by apply changed_ok|done|done|done].
  - rewrite concat_insert by (by eapply lookup_lt_Some). rewrite (q_count _ _ _ _ Hq), (qconcat_split sss i ss Hss). zl.
Qed.

Lemma zinsert_ok b ss j z s :
  zat b ss j z → room (s :: ss) →
  ∃ b', ziplistInsert b z s = Some b' ∧ zat b' (take j ss ++ s :: drop j ss) j z.
Proof. exact (@packed_insert_ok bytes Z _ ziplist_packed_ok b ss j z s). Qed.

Lemma without_insert j ss (s : bytes) : (j < length ss)%nat →
  take j (without j ss) ++ s :: drop j (without j ss) = <[j := s]> ss.
Proof.
  intros Hj. unfold without. rewrite take_app_length', drop_app_length' by (rewrite length_take; lia).
  by rewrite insert_take_drop.
Qed.

Lemma concat_insert_at sss i k j (ss : list bytes) s :
  sss !! i = Some ss → (k < length ss)%nat → Z.of_nat j = upto i sss + Z.of_nat k →
  concat (<[i := <[k := s]> ss]> sss) = <[j := s]> (concat sss).
Proof.
  intros Hi Hk Hj. rewrite concat_insert by (by eapply lookup_lt_Some). rewrite (qconcat_split sss i ss Hi).
  unfold upto, zlen in Hj. rewrite insert_app_r_alt by lia. replace (j - _)%nat with k by lia.
  by rewrite insert_app_l.
Qed.

Lemma budget_insert l : ∀ j s, budget (<[j := s]> l) ≤ zlen s + 17 + budget l.
Proof.
  induction l as [|x l IH]; intros j s; [simpl; zlen_pos; lia|].
  destruct j as [|j]; simpl; [|pose proof (IH j s)]; zlen_pos; lia.
Qed.

Lemma qreplace_ok h q xs sss idx s :
  qrep h q xs sss → - 2 ^ 63 ≤ idx < 2 ^ 63 → wf_bytes s → room (s :: concat sss) →
  match norm (concat sss) idx with
  | Some j => ∃ h' xs' sss', quicklistReplaceAtIndex q h idx s = Some (h', true) ∧
      qrep h' q xs' sss' ∧ concat sss' = <[j := s]> (concat sss) ∧ (compress q = 0 → ends q xs → ends q xs')
  | None => quicklistReplaceAtIndex q h idx s = Some (h, false)
  end.
Proof.
  intros Hq Hidx Hs Hroom. pose proof (qindex_ok h q xs sss idx Hq Hidx) as Hix. unfold quicklistReplaceAtIndex.
  destruct (norm (concat sss) idx) as [j|]; [|by rewrite Hix].
  destruct Hix as (h1 & xs1 & e & i & k & ss & s0 & -> & Hq1 & Hid & [Hat] & Hss & Hs0 & Hj & _ & _).
  destruct Hat as (p & d & b & z & ss' & s' & Hi & Hr & Hz & Hss' & _ & Hat & Hen & Hez & _).
  rewrite Hss in Hss'. injection Hss' as <-.
  cbn [mbind option_bind]. rewrite Hen, Hez. cbn [mbind option_bind].
  pose proof (lookup_lt_Some _ _ _ Hs0) as Hk.
  destruct (qrep_node _ _ _ _ _ _ _ Hq1 Hi) as (ss' & Hss' & Hd & _ & _ & Hrm). rewrite Hss in Hss'. injection Hss' as <-.
  destruct (zdelete_ok b ss k z Hat Hk Hrm) as (b1 & Hdel & Hat1). fold (without k ss) in Hat1.
  pose proof (without_budget k ss s0 Hs0) as Hwb.
  assert (budget ss ≤ budget (concat sss)) as Hsub by (rewrite (qconcat_split sss i ss Hss); apply budget_sub).
  destruct (zinsert_ok b1 (without k ss) k z s Hat1) as (b2 & Hins & Hat2).
  { unfold room in *. simpl in *. zlen_pos. lia. }
  rewrite without_insert in Hat2 by done. pose proof (zat_rep _ _ _ _ Hat2) as Hb2. pose proof Hd as [Hmax Hw _].
  destruct (change_at h1 q xs1 sss i p d ss b (λ b, '(b, z) ← ziplistDelete b z; ziplistInsert b z s) b2 (<[k := s]> ss) 0
    (change_zl (λ b, '(b, z) ← ziplistDelete b z; ziplistInsert b z s))) as (h2 & -> & Hq2); try done.
  { by rewrite Hdel. } { by rewrite zlen_insert. } { by apply Forall_insert. }
  { destruct ss; [done|]. by destruct k. } { rewrite zlen_insert. lia. }
  { rewrite (concat_insert_at sss i k j ss s Hss Hk Hj). unfold room in *. simpl in Hroom.
    pose proof (budget_insert (concat sss) j s). lia. }
  { by right. }
  cbn [mbind option_bind]. rewrite Z.add_0_r in Hq2.
  assert (set_qcount q (qcount q) = q) as Hqq.
  { destruct q. unfold set_qcount. simpl. f_equal. pose proof (q_count _ _ _ _ Hq) as Hcc. simpl in Hcc. rewrite Hcc.
    apply uwrap_id. pose proof (qrep_small _ _ _ _ Hq). unfold in_u. zlen_pos. lia. }
  rewrite Hqq in Hq2.
  set (xs2 := <[i := _]> xs1) in *. set (sss2 := <[i := _]> sss) in *.
  assert (xs2 !! i = Some (p, changed d b2 (zlen (<[k := s]> ss)))) as Hi2
    by (apply list_lookup_insert_eq; by eapply lookup_lt_Some).
  destruct (quicklistCompress_ok h2 q xs2 sss2 p i _ (q_linked _ _ _ _ Hq2) (q_ok _ _ _ _ Hq2) (proj1 (q_opts _ _ _ _ Hq2))
    ltac:(rewrite (q_len _ _ _ _ Hq2); lia) Hi2) as (h3 & xs3 & -> & Hst & Hpass).
  exists h3, xs3, sss2. split; [done|]. split; [by eapply qrep_stage|]. split; [by apply concat_insert_at|].
  intros Hc He. specialize (Hid Hc He) as ->.
  assert (ends q xs2) as He2 by (by eapply ends_insert).
  eapply (passed_ends q); [done| |by destruct He2|done|].
  - apply Hpass. by apply (Forall_lookup_1 _ _ _ _ (e_calm _ _ He2) Hi2).
  - intros _. by apply (e_short _ _ He2 (or_introl Hc)).
Qed.
End Index.
