(* ===== verification/QuicklistMerge.v ===== *)
(** * Merging the nodes of a quicklist

    [_quicklistZiplistMerge] puts the strings of two neighbours into one node,
    [_quicklistMergeNodes] tries this around a node.  The list of strings stays
    the same.  [qbody] is [qrep] without the total count, which an insertion
    brings up to date last. *)

From S2P Require Import Prelude.
From S2P Require Import Mem.
From S2P Require Import Util.
From S2P Require Import Ziplist.
From S2P Require Import ZiplistRepr.
From S2P Require Import ZiplistOps.
From S2P Require Import ZiplistWalk.
From S2P Require Import ZiplistMerge.
From S2P Require Import ZiplistSpec.
From S2P Require Import Packed.
From S2P Require Import Adlist.
From S2P Require Import AdlistSpec.
From S2P Require Import Quicklist.
From S2P Require Import QuicklistRepr.
From S2P Require Import QuicklistLinks.
From S2P Require Import QuicklistSpec.
From S2P Require Import QuicklistIndex.
Import Ziplist Quicklist Packed.
Import Adlist(ptr, ListNode, nodes, prev, next, value, heap, Heap, set_node, zmalloc_node, deref,
  set_next, set_prev, zfree_node, freed).

Section Merge.
Context `{Alloc} `{CompressorOk}.

Record qbody (h : heap qnode) (q : quicklist) (xs : cells) (sss : list (list bytes)) : Prop := {
  b_linked : linked h q xs;
  b_ok : nodes_ok xs sss;
  b_counts : counts xs = zlen <$> sss;
  b_len : len q = zlen xs;
  b_ne : Forall (λ ss, ss ≠ []) sss;
  b_room : room (concat sss);
  b_opts : 0 ≤ compress q < 2 ^ 16 ∧ fill q < 2 ^ 15 }.

Lemma qrep_body h q xs sss : qrep h q xs sss ↔ qbody h q xs sss ∧ qcount q = zlen (concat sss).
Proof. split; [by intros []|]. by intros [[] ?]. Qed.

(** The same list with the right total. *)
Lemma body_rep h q xs sss : qbody h q xs sss → qrep h (set_qcount q (zlen (concat sss))) xs sss.
Proof.
  intros Hb. pose proof (room_small _ (b_room _ _ _ _ Hb)). destruct Hb as [[] ? ? ? ? ? ?]. split; try done.
  simpl. apply uwrap_id. unfold in_u. zlen_pos. lia.
Qed.

Lemma body_stage h q xs sss h' xs' : qbody h q xs sss → stage h xs sss h' xs' → qbody h' q xs' sss.
Proof.
  intros [Hl Hok Hc Hlen Hne Hr Ho] Hst. split; try done.
  - by eapply stage_linked.
  - by destruct Hst.
  - by rewrite (stage_counts _ _ _ _ _ Hst).
  - unfold zlen. by rewrite (stage_length _ _ _ _ _ Hst).
Qed.

(** ** Two blocks *)
Lemma merge_ptrs_ok za zb ssa ssb :
  zrep za ssa → zrep zb ssb → ssb ≠ [] → room (ssa ++ ssb) →
  ∃ m, zrep m (ssa ++ ssb) ∧
    (merge_ptrs za zb = Some (Zl m, ZNull) ∨ merge_ptrs za zb = Some (ZNull, Zl m)).
Proof.
  intros Ha Hb Hne Hroom. pose proof (zrep_size _ _ Ha) as [_ Hsa]. pose proof (zrep_size _ _ Hb) as [_ Hsb].
  destruct Ha as (ea & Hra & Hea). destruct Hb as (eb & Hrb & Heb).
  pose proof (zlist_len eb ssb Heb) as Hlb. pose proof (budget_nonneg ssb) as Hbb.
  assert (eb ≠ []) as Hnb by (intros ->; by destruct ssb).
  unfold room in Hroom. rewrite budget_app in Hroom.
  destruct Hra as (ca & -> & Hwa & Hla & Hca). destruct Hrb as (cb & -> & Hwb & Hlb' & Hcb).
  rewrite !zlen_zblock in *.
  pose proof (zlist_budget ea ssa Hea) as Hba. pose proof (zlist_budget eb ssb Heb) as Hbb'. zlen_pos.
  destruct (wp_inv _ _ (merge_wp ca cb ea eb Hnb Hwa Hwb ltac:(lia) Hca Hcb)) as (m & Hm & eb' & Hrm & Hv).
  exists m. split.
  - exists (ea ++ eb'). split; [done|]. by rewrite fmap_app, Hv, Hea, Heb, fmap_app.
  - unfold merge_ptrs. rewrite (zblock_length ca ea _ Hca), (zblock_length cb eb _ Hcb). cbn [mbind option_bind].
    rewrite Hm. cbn [mbind option_bind]. destruct (_ <=? _); [by left|by right].
Qed.

Lemma update_count_ok d b ss :
  zl d = Zl b → zrep b ss → zlen ss < 2 ^ 16 →
  ∃ b', zrep b' ss ∧ (d ← update_count d; quicklistNodeUpdateSz d) = Some (changed d b' (zlen ss)).
Proof.
  intros Hz Hb Hm. destruct (@packed_len_ok bytes Z _ ziplist_packed_ok b ss Hb) as (b' & Hrun & Hb').
  change (packed_len b) with (ziplistLen b) in Hrun. exists b'. split; [done|].
  unfold update_count, zlof. rewrite Hz. cbn [mbind option_bind]. rewrite Hrun. cbn [mbind option_bind].
  unfold quicklistNodeUpdateSz, zlof, set_count, set_zl. cbn [zl mbind option_bind].
  rewrite (zrep_blob b' ss Hb'). cbn [mbind option_bind]. unfold set_sz, changed. simpl. do 2 f_equal.
  apply uwrap_id. unfold in_u. zlen_pos. lia.
Qed.

(** ** Updates in the middle of the list *)
Lemma linked_upd h q (A B : cells) p d f d' :
  linked h q (A ++ (p, d) :: B) → f d = Some d' →
  ∃ h', updM h p f = Some h' ∧ linked h' q (A ++ (p, d') :: B).
Proof.
  intros Hl Hf. assert ((A ++ (p, d) :: B) !! length A = Some (p, d)) as Hi by (by apply list_lookup_middle).
  destruct (updM_at h _ _ p d f d' (l_seg _ _ _ Hl) (l_nodup _ _ _ Hl) Hi Hf) as (h' & Hu & Hs' & _).
  exists h'. split; [done|]. pose proof (linked_set _ _ _ _ _ _ d' _ Hl Hi Hs') as Hl'.
  by rewrite insert_app_r_alt, Nat.sub_diag in Hl' by lia.
Qed.

Lemma linked_upd2 h q (A B : cells) x p d f d' :
  linked h q (A ++ x :: (p, d) :: B) → f d = Some d' →
  ∃ h', updM h p f = Some h' ∧ linked h' q (A ++ x :: (p, d') :: B).
Proof.
  intros Hl Hf. rewrite (cons_middle x A), app_assoc in Hl.
  destruct (linked_upd h q (A ++ [x]) B p d f d' Hl Hf) as (h' & Hu & Hl'). exists h'. split; [done|].
  by rewrite <-app_assoc in Hl'.
Qed.

Lemma linked_node h q (A B : cells) p d : linked h q (A ++ (p, d) :: B) → node_at h p = Some d.
Proof.
  intros Hl. unfold node_at. pose proof (l_seg _ _ _ Hl) as (_ & -> & _)%seg_mid. done.
Qed.

(** ** One merge *)

(** The four updates: the kept node has all strings, the other one none. *)
Lemma merge_updates h q (A B : cells) a b da db ssa ssb :
  linked h q (A ++ (a, da) :: (b, db) :: B) → node_ok da ssa → node_ok db ssb → raw da → raw db →
  ssb ≠ [] → room (ssa ++ ssb) → zlen (ssa ++ ssb) < 2 ^ 16 →
  ∃ za zb za' zb' h1 h2 h3 h4 da' db' (keep nokeep : ptr), zlof da = Some za ∧ zlof db = Some zb ∧
    merge_ptrs za zb = Some (za', zb') ∧
    updM h a (set_ptr za') = Some h1 ∧ updM h1 b (set_ptr zb') = Some h2 ∧
    match za' with ZNull => (b, a) | _ => (a, b) end = (keep, nokeep) ∧
    updM h2 keep (λ d, d ← update_count d; quicklistNodeUpdateSz d) = Some h3 ∧
    updM h3 nokeep (λ d, Some (set_count d 0)) = Some h4 ∧
    linked h4 q (A ++ (a, da') :: (b, db') :: B) ∧
    (raw da' ∧ recompress da' = recompress da) ∧ (raw db' ∧ recompress db' = recompress db) ∧
    (keep = a ∧ nokeep = b ∧ node_ok da' (ssa ++ ssb) ∧ count da' = zlen (ssa ++ ssb) ∧ count db' = 0 ∨
     keep = b ∧ nokeep = a ∧ node_ok db' (ssa ++ ssb) ∧ count db' = zlen (ssa ++ ssb) ∧ count da' = 0).
Proof.
  intros Hl Hda Hdb Hra Hrb Hne Hroom Hmax.
  destruct (raw_block da ssa Hda Hra) as (za & Hza & Hba & _). destruct (raw_block db ssb Hdb Hrb) as (zb & Hzb & Hbb & _).
  assert (Forall wf_bytes (ssa ++ ssb)) as Hw by (apply Forall_app; split; [apply Hda|apply Hdb]).
  destruct (merge_ptrs_ok za zb ssa ssb Hba Hbb Hne Hroom) as (m & Hm & [Hmp|Hmp]).
  - destruct (linked_upd h q A _ a da (set_ptr (Zl m)) _ Hl eq_refl) as (h1 & Hu1 & Hl1).
    destruct (linked_upd2 h1 q A B _ b db (set_ptr ZNull) _ Hl1 eq_refl) as (h2 & Hu2 & Hl2).
    destruct (update_count_ok (QNode (Zl m) (sz da) (count da) (encoding da) (recompress da)) m _ eq_refl Hm Hmax) as (m' & Hm' & Huc).
    destruct (linked_upd h2 q A _ a _ (λ d, d ← update_count d; quicklistNodeUpdateSz d) _ Hl2 Huc) as (h3 & Hu3 & Hl3).
    destruct (linked_upd2 h3 q A B _ b _ (λ d, Some (set_count d 0)) _ Hl3 eq_refl) as (h4 & Hu4 & Hl4).
    exists za, zb, (Zl m), ZNull, h1, h2, h3, h4. do 4 eexists. unfold zlof. rewrite Hza, Hzb.
    split_and!; try done. left. split_and!; try done. by apply changed_ok.
  - destruct (linked_upd h q A _ a da (set_ptr ZNull) _ Hl eq_refl) as (h1 & Hu1 & Hl1).
    destruct (linked_upd2 h1 q A B _ b db (set_ptr (Zl m)) _ Hl1 eq_refl) as (h2 & Hu2 & Hl2).
    destruct (update_count_ok (QNode (Zl m) (sz db) (count db) (encoding db) (recompress db)) m _ eq_refl Hm Hmax) as (m' & Hm' & Huc).
    destruct (linked_upd2 h2 q A B _ b _ (λ d, d ← update_count d; quicklistNodeUpdateSz d) _ Hl2 Huc) as (h3 & Hu3 & Hl3).
    destruct (linked_upd h3 q A _ a _ (λ d, Some (set_count d 0)) _ Hl3 eq_refl) as (h4 & Hu4 & Hl4).
    exists za, zb, ZNull, (Zl m), h1, h2, h3, h4. do 4 eexists. unfold zlof. rewrite Hza, Hzb.
    split_and!; try done. right. split_and!; try done. by apply changed_ok.
Qed.

(** Nothing is compressed in a list with compression switched off. *)
Definition plain (xs : cells) : Prop := Forall (λ c, raw c.2 ∧ recompress c.2 = false) xs.

Lemma plain_ends q xs : compress q = 0 → ends q xs ↔ plain xs.
Proof.
  intros Hc. split.
  - intros [Hcalm _ _ Hs]. apply Forall_lookup. intros i c Hi. split; [by eapply Hs; [left|]|].
    by apply (Forall_lookup_1 _ _ _ _ Hcalm Hi).
  - intros Hp. assert (∀ j, raw_at xs j) as Hr by (intros j c Hj; by apply (Forall_lookup_1 _ _ _ _ Hp Hj)).
    split; try apply Hr; [|done]. eapply Forall_impl; [done|]. by intros c [_ ?].
Qed.

Lemma fst_mid (xs A B : cells) p d :
  xs.*1 = (A ++ (p, d) :: B).*1 → ∃ A' d' B', xs = A' ++ (p, d') :: B' ∧ A'.*1 = A.*1 ∧ B'.*1 = B.*1.
Proof.
  rewrite fmap_app, fmap_cons. intros Hx. simpl in Hx.
  exists (take (length A) xs). destruct (drop (length A) xs) as [|[p' d'] B'] eqn:E.
  - exfalso. apply (f_equal length) in Hx. rewrite length_app, !length_fmap in Hx. simpl in Hx.
    apply (f_equal length) in E. rewrite length_drop in E. simpl in E. lia.
  - pose proof (take_drop (length A) xs) as Htd. rewrite E in Htd.
    rewrite <-Htd, fmap_app, fmap_cons in Hx. simpl in Hx.
    assert (length (take (length A) xs) = length A) as HlA.
    { rewrite length_take. apply (f_equal length) in E. rewrite length_drop in E. simpl in E. lia. }
    apply app_inj_1 in Hx as [HA [= -> HB]]; [|by rewrite !length_fmap].
    exists d', B'. by rewrite Htd.
Qed.

Lemma nodes_ok_mid (A B : cells) p d sss sa ss sb :
  nodes_ok (A ++ (p, d) :: B) sss → sss = sa ++ ss :: sb → length A = length sa →
  nodes_ok A sa ∧ node_ok d ss ∧ nodes_ok B sb.
Proof.
  intros Hok -> Hlen. apply Forall2_app_inv in Hok as [HA HB]; [|done]. by apply Forall2_cons in HB as [? ?].
Qed.

Lemma plain_stage h xs sss h' xs' :
  stage h xs sss h' xs' → (∀ j, raw_at xs j → raw_at xs' j) → plain xs → plain xs'.
Proof.
  intros Hst Hm Hp. apply Forall_lookup. intros i c' Hi'.
  destruct (lookup_lt_is_Some_2 xs i) as [c Hi]; [rewrite <-(stage_length _ _ _ _ _ Hst); by eapply lookup_lt_Some|].
  pose proof (Forall_lookup_1 _ _ _ _ Hp Hi) as [Hr Hc]. split.
  - apply (Hm i); [|done]. intros c0 Hc0. simplify_eq. done.
  - destruct (recompress c'.2) eqn:E; [|done]. pose proof (st_calm _ _ _ _ _ Hst _ _ _ Hi Hi' E). congruence.
Qed.

(** Both nodes decompressed. *)
Lemma decompress_two h q (A B : cells) a b da db sss :
  linked h q (A ++ (a, da) :: (b, db) :: B) → nodes_ok (A ++ (a, da) :: (b, db) :: B) sss →
  ∃ h1 h2 A' B' da' db', quicklistDecompressNode h (Some a) = Some h1 ∧ quicklistDecompressNode h1 (Some b) = Some h2 ∧
    stage h (A ++ (a, da) :: (b, db) :: B) sss h2 (A' ++ (a, da') :: (b, db') :: B') ∧
    A'.*1 = A.*1 ∧ B'.*1 = B.*1 ∧ raw da' ∧ raw db' ∧
    (plain (A ++ (a, da) :: (b, db) :: B) → plain (A' ++ (a, da') :: (b, db') :: B')).
Proof.
  intros Hl Hok. set (xs := A ++ _) in *.
  assert (xs !! length A = Some (a, da)) as Ha by (by apply list_lookup_middle).
  assert (xs !! S (length A) = Some (b, db)) as Hb.
  { unfold xs. rewrite lookup_app_r by lia. by replace (S (length A) - length A)%nat with 1%nat by lia. }
  destruct (decompress_at h xs sss _ a da (l_seg _ _ _ Hl) (l_nodup _ _ _ Hl) Hok Ha) as (h1 & xs1 & Hu1 & Hst1 & Hr1 & Hm1).
  destruct (stage_lookup _ _ _ _ _ _ _ _ Hst1 Hb) as [db1 Hb1].
  pose proof (stage_linked _ _ _ _ _ _ Hl Hst1) as Hl1.
  destruct (decompress_at h1 xs1 sss _ b db1 (l_seg _ _ _ Hl1) (l_nodup _ _ _ Hl1) (st_ok _ _ _ _ _ Hst1) Hb1)
    as (h2 & xs2 & Hu2 & Hst2 & Hr2 & Hm2).
  pose proof (stage_trans _ _ _ _ _ _ _ Hst1 Hst2) as Hst. pose proof (st_fst _ _ _ _ _ Hst) as Hf.
  apply fst_mid in Hf as (A' & da' & B1 & -> & HA' & HB1).
  apply (fst_mid B1 [] B b db) in HB1 as (A0 & db' & B' & -> & HA0 & HB'). destruct A0; [|done]. simpl app in *.
  assert (length A' = length A) as HlA by (by rewrite <-(length_fmap fst A'), HA', length_fmap).
  exists h1, h2, A', B', da', db'. split_and!; try done.
  - apply (Hm2 _ Hr1 (a, da')). rewrite <-HlA. by apply list_lookup_middle.
  - apply (Hr2 (b, db')). rewrite <-HlA, lookup_app_r by lia. by replace (S (length A') - length A')%nat with 1%nat by lia.
  - intros Hp. eapply plain_stage; [exact Hst|auto|done].
Qed.

(** A node without strings leaves the list. *)
Lemma drop_node h q (A B : cells) p d sa sb :
  linked h q (A ++ (p, d) :: B) → nodes_ok A sa → nodes_ok B sb → counts (A ++ B) = zlen <$> (sa ++ sb) →
  count d = 0 → len q = zlen (A ++ (p, d) :: B) → len q < 2 ^ 32 → Forall (λ ss, ss ≠ []) (sa ++ sb) →
  room (concat (sa ++ sb)) → 0 ≤ compress q < 2 ^ 16 ∧ fill q < 2 ^ 15 → in_u 64 (qcount q) →
  ∃ q' h' xs', __quicklistDelNode q h p = Some (q', h') ∧ qbody h' q' xs' (sa ++ sb) ∧
    qcount q' = qcount q ∧ same_opts q q' ∧ xs'.*1 = (A ++ B).*1 ∧
    (compress q = 0 → plain (A ++ (p, d) :: B) → plain xs').
Proof.
  intros Hl HA HB Hcs Hc0 Hlen H32 Hne Hroom [Hco Hfi] Hqc.
  destruct (delNode_ok h q A B sa sb p d Hl HA HB Hlen H32 Hco)
    as (q' & h' & xs' & Hrun & Hl' & Hok' & Hf' & Hc' & Hlen' & Hqc' & Hfi' & Hco' & He').
  exists q', h', xs'. split; [done|]. split_and!; try done.
  - split; try done; [by rewrite Hc'| |by rewrite Hfi', Hco'].
    rewrite Hlen', Hlen. unfold zlen. rewrite <-(length_fmap fst xs'), Hf', length_fmap, !length_app. simpl. lia.
  - rewrite Hqc', Hc0, Z.sub_0_r. by apply uwrap_id.
  - intros Hz Hp. apply (plain_ends q'); [by rewrite Hco'|]. apply He'. by apply plain_ends.
Qed.

Lemma merge_ok h q (A B : cells) a b da db sa sb ssa ssb :
  qbody h q (A ++ (a, da) :: (b, db) :: B) (sa ++ ssa :: ssb :: sb) → length A = length sa →
  zlen (ssa ++ ssb) < 2 ^ 16 → in_u 64 (qcount q) →
  ∃ q' h' keep xs', _quicklistZiplistMerge q h a b = Some (q', h', Some keep) ∧
    qbody h' q' xs' (sa ++ (ssa ++ ssb) :: sb) ∧ qcount q' = qcount q ∧ same_opts q q' ∧
    xs'.*1 = A.*1 ++ keep :: B.*1 ∧ (keep = a ∨ keep = b) ∧
    (compress q = 0 → plain (A ++ (a, da) :: (b, db) :: B) → plain xs').
Proof.
  intros Hbd Hlen Hmax Hqc. pose proof Hbd as [Hl Hok Hcs Hln Hne Hroom [Hco Hfi]].
  destruct (decompress_two h q A B a b da db _ Hl Hok) as (h1 & h2 & A' & B' & da' & db' & Hu1 & Hu2 & Hst & HA & HB & Hra & Hrb & Hpl).
  pose proof (body_stage _ _ _ _ _ _ Hbd Hst) as [Hl2 Hok2 Hcs2 Hln2 _ _ _].
  assert (length A' = length sa) as HlA by (by rewrite <-Hlen, <-(length_fmap fst A'), HA, length_fmap).
  destruct (nodes_ok_mid _ _ _ _ _ _ _ _ Hok2 eq_refl HlA) as (HokA & Hda & HokB).
  apply Forall2_cons in HokB as [Hdb HokB]. simpl in Hdb.
  pose proof Hne as [HneA [Hna [Hnb HneB]%Forall_cons]%Forall_cons]%Forall_app.
  assert (concat (sa ++ ssa :: ssb :: sb) = concat (sa ++ (ssa ++ ssb) :: sb)) as Hcat.
  { rewrite !concat_app. simpl. by rewrite !app_assoc. }
  assert (room (ssa ++ ssb)) as Hrm.
  { rewrite Hcat, concat_app in Hroom. simpl in Hroom. by eapply room_sub. }
  destruct (merge_updates h2 q A' B' a b da' db' ssa ssb Hl2 Hda Hdb Hra Hrb Hnb Hrm Hmax)
    as (za & zb & za' & zb' & h3 & h4 & h5 & h6 & da2 & db2 & keep & nokeep & Hza & Hzb & Hmp & Hv1 & Hv2 & Hk & Hv3 & Hv4 & Hl6 & Hra2 & Hrb2 & Hcase).
  unfold _quicklistZiplistMerge. rewrite Hu1. cbn [mbind option_bind]. rewrite Hu2. cbn [mbind option_bind].
  assert (a ≠ b) as Hab.
  { intros ->. pose proof (l_nodup _ _ _ Hl) as (_ & _ & Hn)%NoDup_mid. set_solver. }
  rewrite bool_decide_eq_false_2 by done.
  rewrite (linked_node _ _ _ _ _ _ Hl2). cbn [mbind option_bind].
  pose proof Hl2 as Hl2'. rewrite (cons_middle (a, da') A'), app_assoc in Hl2'.
  rewrite (linked_node _ _ _ _ _ _ Hl2'). cbn [mbind option_bind]. rewrite Hza, Hzb. cbn [mbind option_bind].
  rewrite Hmp. cbn [mbind option_bind]. rewrite Hv1. cbn [mbind option_bind]. rewrite Hv2. cbn [mbind option_bind].
  rewrite Hk, Hv3. cbn [mbind option_bind]. rewrite Hv4. cbn [mbind option_bind].
  (* the node that goes *)
  assert (∃ q7 h7 xs7 i dk, __quicklistDelNode q h6 nokeep = Some (q7, h7) ∧ qbody h7 q7 xs7 (sa ++ (ssa ++ ssb) :: sb) ∧
    qcount q7 = qcount q ∧ same_opts q q7 ∧ xs7.*1 = A.*1 ++ keep :: B.*1 ∧ xs7 !! i = Some (keep, dk) ∧
    (compress q = 0 → plain (A ++ (a, da) :: (b, db) :: B) → plain xs7)) as (q7 & h7 & xs7 & i & dk & Hdel & Hb7 & Hqc7 & Ho7 & Hf7 & Hi7 & Hp7).
  { assert (counts A' = zlen <$> sa ∧ counts B' = zlen <$> sb) as [HcA HcB].
    { rewrite counts_mid, fmap_app in Hcs2. apply app_inj_1 in Hcs2 as [? Hcs3]; [|unfold counts; by rewrite !length_fmap].
      split; [done|]. unfold counts in *. rewrite !fmap_cons in Hcs3. by injection Hcs3. }
    assert (Forall (λ ss, ss ≠ []) (sa ++ (ssa ++ ssb) :: sb)) as Hne7.
    { apply Forall_app. split; [done|]. constructor; [|done]. by destruct ssa. }
    rewrite Hcat in Hroom.
    assert (∀ da3 db3, len q = zlen (A' ++ (a, da3) :: (b, db3) :: B')) as Hln7.
    { intros. rewrite Hln2. unfold zlen. rewrite !length_app. done. }
    assert (len q < 2 ^ 32) as H32.
    { rewrite Hln. pose proof (body_rep _ _ _ _ Hbd) as Hq. pose proof (qrep_small _ _ _ _ Hq). lia. }
    assert (compress q = 0 → plain (A ++ (a, da) :: (b, db) :: B) → plain (A' ++ (a, da2) :: (b, db2) :: B')) as Hpl2.
    { intros _ Hp. specialize (Hpl Hp). unfold plain in *. apply Forall_app in Hpl as [? [[_ Hq1] [[_ Hq2] ?]%Forall_cons]%Forall_cons].
      apply Forall_app. split; [done|]. simpl in *.
      constructor; [simpl; rewrite (proj2 Hra2); split; [apply Hra2|done]|].
      constructor; [simpl; rewrite (proj2 Hrb2); split; [apply Hrb2|done]|done]. }
    destruct Hcase as [(-> & -> & Hokk & Hck & Hc0)|(-> & -> & Hokk & Hck & Hc0)].
    - rewrite (cons_middle (a, da2) A'), app_assoc in Hl6.
      destruct (drop_node h6 q (A' ++ [(a, da2)]) B' b db2 (sa ++ [ssa ++ ssb]) sb Hl6) as (q7 & h7 & xs7 & Hdel & Hb7 & ? & ? & Hf7 & Hp7).
      { apply nodes_ok_app; [done|]. by constructor. } { done. }
      { rewrite <-!app_assoc. simpl. by rewrite counts_mid, HcA, HcB, Hck, fmap_app. } { done. }
      { rewrite <-app_assoc. apply Hln7. } { done. } { by rewrite <-app_assoc. } { by rewrite <-app_assoc. } { done. } { done. }
      rewrite <-!app_assoc in *. simpl in Hb7, Hf7. rewrite fmap_app, fmap_cons, HA, HB in Hf7.
      assert (∃ dk, xs7 !! length A = Some (a, dk)) as [dk Hdk].
      { apply fst_lookup. rewrite <-list_lookup_fmap, Hf7. apply list_lookup_middle. by rewrite length_fmap. }
      exists q7, h7, xs7, (length A), dk. split_and!; try done. intros Hz Hp. apply Hp7; [done|]. simpl. auto.
    - destruct (drop_node h6 q A' ((b, db2) :: B') a da2 sa ((ssa ++ ssb) :: sb) Hl6) as (q7 & h7 & xs7 & Hdel & Hb7 & ? & ? & Hf7 & Hp7); try done.
      { by constructor. } { by rewrite counts_mid, HcA, HcB, Hck, fmap_app. }
      rewrite fmap_app, fmap_cons, HA, HB in Hf7.
      assert (∃ dk, xs7 !! length A = Some (b, dk)) as [dk Hdk].
      { apply fst_lookup. rewrite <-list_lookup_fmap, Hf7. apply list_lookup_middle. by rewrite length_fmap. }
      exists q7, h7, xs7, (length A), dk. split_and!; try done. intros Hz Hp. apply Hp7; [done|]. auto. }
  rewrite Hdel. cbn [mbind option_bind].
  destruct (quicklistCompress_ok h7 q7 xs7 _ keep i dk (b_linked _ _ _ _ Hb7) (b_ok _ _ _ _ Hb7) (proj1 (b_opts _ _ _ _ Hb7))
    ltac:(rewrite (b_len _ _ _ _ Hb7); lia) Hi7) as (h8 & xs8 & -> & Hst8 & Hpass).
  cbn [mbind option_bind]. exists q7, h8, keep, xs8. split; [done|]. split; [by eapply body_stage|].
  split_and!; try done.
  - by rewrite (st_fst _ _ _ _ _ Hst8).
  - destruct Hcase as [(-> & _)|(-> & _)]; [by left|by right].
  - intros Hc Hp. specialize (Hp7 Hc Hp). assert (recompress dk = false) as Hre by (by apply (Forall_lookup_1 _ _ _ _ Hp7 Hi7)).
    destruct (Hpass Hre) as [[_ ->]|(Hc' & _)]; [done|]. rewrite (proj2 Ho7) in Hc'. lia.
Qed.

(** ** Merging around a node *)
Lemma allow_merge_bound da db f ssa ssb :
  _quicklistNodeAllowMerge (Some da) (Some db) f = true → node_ok da ssa → node_ok db ssb →
  count da = zlen ssa → count db = zlen ssb → f < 2 ^ 15 → room (ssa ++ ssb) → zlen (ssa ++ ssb) < 2 ^ 16.
Proof.
  intros Hal [_ _ (ba & Hba & Hsa & _)] [_ _ (bb & Hbb & Hsb & _)] Hca Hcb Hf Hroom.
  pose proof (zrep_size _ _ Hba) as [Hloa Hhia]. pose proof (zrep_size _ _ Hbb) as [Hlob Hhib].
  unfold room in Hroom. rewrite budget_app in Hroom. rewrite zlen_app. zlen_pos.
  unfold _quicklistNodeAllowMerge in Hal. rewrite uwrap_id in Hal by (unfold in_u; lia).
  unfold _quicklistNodeSizeMeetsOptimizationRequirement in Hal.
  assert (∀ x : bool, (if negb x then false else count da + count db <=? f) = true → zlen ssa + zlen ssb < 2 ^ 16) as Hend.
  { intros [|]; [|done]. intros ?%Z.leb_le. lia. }
  destruct (f >=? 0); [by eapply Hend|]. destruct (_ <? zlen optimization_level); [|by eapply Hend].
  destruct (optimization_level !! _) as [lv|] eqn:El; [|by eapply Hend].
  assert (lv ≤ 65536) as Hlv.
  { apply list_elem_of_lookup_2 in El. unfold optimization_level in El. set_unfold. lia. }
  destruct (Z.leb_spec (sz da + sz db - 11) lv); [lia|by eapply Hend].
Qed.

Lemma try_merge_null h q a b : a = None ∨ b = None →
  (∀ p, a = Some p ∨ b = Some p → is_Some (nodes h !! p)) → try_merge q h a b = Some None.
Proof.
  intros Hn Hin. unfold try_merge, fields, node_at.
  destruct a as [a|]; [destruct (Hin a (or_introl eq_refl)) as [na ->]|];
    (destruct b as [b|]; [destruct (Hin b (or_intror eq_refl)) as [nb ->]|]); simpl; try done; by destruct Hn.
Qed.

Definition merged_at (q : quicklist) (xs : cells) (sss : list (list bytes)) (i : nat)
    (r : quicklist * heap qnode * option ptr) : Prop :=
  let '(q', h', t) := r in ∃ keep xs' sss', t = Some keep ∧ qbody h' q' xs' sss' ∧ concat sss' = concat sss ∧
    qcount q' = qcount q ∧ same_opts q q' ∧ (S i < length xs)%nat ∧
    xs'.*1 = take i xs.*1 ++ keep :: drop (S (S i)) xs.*1 ∧ (compress q = 0 → plain xs → plain xs').

Lemma try_merge_ok h q xs sss i :
  qbody h q xs sss → in_u 64 (qcount q) →
  ∃ r, try_merge q h (fst <$> xs !! i) (fst <$> xs !! S i) = Some r ∧
    match r with None => True | Some r => merged_at q xs sss i r end.
Proof.
  intros Hb Hqc. pose proof (b_linked _ _ _ _ Hb) as Hl.
  destruct (xs !! S i) as [[b db]|] eqn:Eb.
  2:{ exists None. split; [|done]. apply try_merge_null; [by right|]. intros p [Hp|Hp]; [|done].
      apply fst_lookup in Hp as [d Hd]. rewrite (seg_lookup _ _ _ _ _ (l_seg _ _ _ Hl) Hd). by eexists. }
  destruct (lookup_lt_is_Some_2 xs i) as [[a da] Ea]; [apply lookup_lt_Some in Eb; lia|]. rewrite Ea. simpl fmap.
  unfold try_merge. rewrite (fields_at _ _ _ _ _ _ Hl Ea). cbn [mbind option_bind].
  rewrite (fields_at _ _ _ _ _ _ Hl Eb). cbn [mbind option_bind].
  destruct (_quicklistNodeAllowMerge (Some da) (Some db) (fill q)) eqn:Hal; [|by exists None].
  cbn [mbind option_bind].
  pose proof (body_rep _ _ _ _ Hb) as Hq. pose proof (qrep_length _ _ _ _ Hq) as Hlen.
  destruct (qrep_node _ _ _ _ _ _ _ Hq Ea) as (ssa & Hsa & Hda & Hca & Hna & _).
  destruct (qrep_node _ _ _ _ _ _ _ Hq Eb) as (ssb & Hsb & Hdb & Hcb & Hnb & _).
  pose proof (lookup_lt_Some _ _ _ Eb) as Hlt.
  assert (∀ {T} (l : list T) x y, l !! i = Some x → l !! S i = Some y → l = take i l ++ x :: y :: drop (S (S i)) l) as Hsplit.
  { intros T l x y Hx Hy. rewrite <-(take_drop_middle l i x Hx) at 1. do 2 f_equal. by rewrite (drop_S l y (S i) Hy). }
  pose proof (Hsplit _ xs _ _ Ea Eb) as Hxs. pose proof (Hsplit _ sss _ _ Hsa Hsb) as Hss.
  assert (room (ssa ++ ssb)) as Hrm.
  { pose proof (b_room _ _ _ _ Hb) as Hr. rewrite Hss, concat_app in Hr. simpl in Hr. rewrite (app_assoc ssa) in Hr.
    by eapply room_sub. }
  pose proof (allow_merge_bound da db (fill q) ssa ssb Hal Hda Hdb Hca Hcb (proj2 (b_opts _ _ _ _ Hb)) Hrm) as Hmax.
  pose proof Hb as Hb'. rewrite Hxs, Hss in Hb'.
  destruct (merge_ok h q (take i xs) (drop (S (S i)) xs) a b da db (take i sss) (drop (S (S i)) sss) ssa ssb Hb')
    as (q' & h' & keep & xs' & -> & Hb1 & Hqc1 & Ho1 & Hf1 & _ & Hp1); [rewrite !length_take; lia|done|done|].
  eexists. split; [done|]. exists keep, xs'. eexists. split; [done|]. split; [done|]. split_and!; try done.
  - rewrite Hss at 3. rewrite !concat_app. simpl. by rewrite !app_assoc.
  - by rewrite <-fmap_take, <-fmap_drop.
  - intros Hz Hp. apply Hp1; [done|]. by rewrite <-Hxs.
Qed.

(** What the whole operation keeps. *)
Definition kept (q : quicklist) (xs : cells) (sss : list (list bytes)) (q' : quicklist) (h' : heap qnode)
    (xs' : cells) (sss' : list (list bytes)) : Prop :=
  qbody h' q' xs' sss' ∧ concat sss' = concat sss ∧ qcount q' = qcount q ∧ same_opts q q' ∧
  (compress q = 0 → plain xs → plain xs').

Lemma kept_refl h q xs sss : qbody h q xs sss → kept q xs sss q h xs sss.
Proof. done. Qed.

Lemma kept_trans q xs sss q1 h1 xs1 sss1 q2 h2 xs2 sss2 :
  kept q xs sss q1 h1 xs1 sss1 → kept q1 xs1 sss1 q2 h2 xs2 sss2 → kept q xs sss q2 h2 xs2 sss2.
Proof.
  intros (? & Hc1 & Hq1 & [Hf1 Ho1] & Hp1) (? & Hc2 & Hq2 & [Hf2 Ho2] & Hp2).
  split_and!; [done|congruence|congruence|split; congruence|]. intros Hz Hp. apply Hp2; [congruence|auto].
Qed.

Lemma drop_ptr (xs ys : cells) i j k : drop i xs.*1 = drop j ys.*1 → fst <$> xs !! (i + k)%nat = fst <$> ys !! (j + k)%nat.
Proof.
  intros Hd. rewrite <-!list_lookup_fmap. apply (f_equal (lookup k)) in Hd. by rewrite !lookup_drop in Hd.
Qed.

Lemma merge_front h q xs sss i :
  qbody h q xs sss → in_u 64 (qcount q) → (i < length xs)%nat →
  let a := match before xs i with Some _ => before xs (pred i) | None => None end in
  ∃ r q' h' xs' sss' i', try_merge q h a (before xs i) = Some r ∧
    (match r with Some (q, h, _) => (q, h) | None => (q, h) end) = (q', h') ∧
    kept q xs sss q' h' xs' sss' ∧ drop i' xs'.*1 = drop i xs.*1.
Proof.
  intros Hb Hqc Hi a. destruct i as [|[|i]].
  - exists None, q, h, xs, sss, 0%nat. split; [by apply try_merge_null; [left|intros p []]|]. done.
  - exists None, q, h, xs, sss, 1%nat. split; [|done]. apply try_merge_null.
    + left. unfold a. simpl. by destruct (fst <$> xs !! 0%nat).
    + intros p [Hp|Hp]; [unfold a in Hp; simpl in Hp; by destruct (fst <$> xs !! 0%nat)|].
      simpl in Hp. apply fst_lookup in Hp as [d Hd].
      rewrite (seg_lookup _ _ _ _ _ (l_seg _ _ _ (b_linked _ _ _ _ Hb)) Hd). by eexists.
  - assert (a = fst <$> xs !! i) as ->.
    { unfold a. simpl. destruct (lookup_lt_is_Some_2 xs (S i) ltac:(lia)) as [[p d] ->]. done. }
    destruct (try_merge_ok h q xs sss i Hb Hqc) as (r & Hrun & Hr). simpl before. rewrite Hrun.
    destruct r as [[[q1 h1] t]|]; [|exists None, q, h, xs, sss, (S (S i)); done].
    destruct Hr as (keep & xs1 & sss1 & -> & Hb1 & Hc & Hqc1 & Ho & Hlt & Hf & Hp).
    exists (Some (q1, h1, Some keep)), q1, h1, xs1, sss1, (S i). split_and!; try done.
    rewrite Hf. rewrite <-(take_drop 0 (keep :: _)). simpl.
    rewrite (cons_middle keep), app_assoc, drop_app_length'; [done|].
    rewrite length_app, length_take, length_fmap. simpl. lia.
Qed.

Lemma node_links h q xs sss i p d :
  qbody h q xs sss → xs !! i = Some (p, d) → nodes h !! p = Some (ListNode (before xs i) (fst <$> xs !! S i) d).
Proof. intros Hb Hi. by apply seg_lookup; [apply Hb|]. Qed.

Lemma mergeNodes_ok h q xs sss i center d :
  qbody h q xs sss → in_u 64 (qcount q) → xs !! i = Some (center, d) →
  ∃ q' h' xs' sss', _quicklistMergeNodes q h center = Some (q', h') ∧ kept q xs sss q' h' xs' sss'.
Proof.
  intros Hb Hqc Hi. unfold _quicklistMergeNodes. rewrite (node_links _ _ _ _ _ _ _ Hb Hi). cbn [mbind option_bind prev next].
  (* the pointers taken at the start *)
  assert (match before xs i with Some p => n ← nodes h !! p; Some (prev n) | None => Some None end =
          Some (match before xs i with Some _ => before xs (pred i) | None => None end)) as ->.
  { destruct i as [|j]; [done|]. simpl. destruct (xs !! j) as [[p e]|] eqn:E; [|done]. simpl.
    by rewrite (node_links _ _ _ _ _ _ _ Hb E). }
  cbn [mbind option_bind].
  assert (match fst <$> xs !! S i with Some p => n ← nodes h !! p; Some (next n) | None => Some None end =
          Some (fst <$> xs !! S (S i))) as ->.
  { destruct (xs !! S i) as [[p e]|] eqn:E; simpl; [by rewrite (node_links _ _ _ _ _ _ _ Hb E)|].
    apply lookup_ge_None in E. by rewrite lookup_ge_None_2 by lia. }
  cbn [mbind option_bind].
  destruct (merge_front h q xs sss i Hb Hqc) as (r1 & q1 & h1 & xs1 & sss1 & i1 & Hrun1 & Hr1 & Hk1 & Hd1); [by eapply lookup_lt_Some|].
  cbv zeta in Hrun1. rewrite Hrun1. cbn [mbind option_bind]. rewrite Hr1.
  pose proof Hk1 as (Hb1 & _ & Hqc1 & _).
  (* the two nodes behind *)
  replace (S i) with (i + 1)%nat by lia. replace (S (i + 1)) with (i + 2)%nat by lia.
  rewrite <-(drop_ptr xs1 xs i1 i 1 Hd1), <-(drop_ptr xs1 xs i1 i 2 Hd1).
  replace (i1 + 2)%nat with (S (i1 + 1)) by lia.
  destruct (try_merge_ok h1 q1 xs1 sss1 (i1 + 1) Hb1) as (r2 & Hrun2 & Hr2); [by rewrite Hqc1|].
  rewrite Hrun2. cbn [mbind option_bind].
  assert (fst <$> xs1 !! i1 = Some center) as Hc1.
  { pose proof (drop_ptr xs1 xs i1 i 0 Hd1) as Hdp. rewrite !Nat.add_0_r, Hi in Hdp. done. }
  assert (∃ q2 h2 xs2 sss2, (match r2 with Some (q, h, _) => (q, h) | None => (q1, h1) end) = (q2, h2) ∧
    kept q xs sss q2 h2 xs2 sss2 ∧ fst <$> xs2 !! i1 = Some center) as (q2 & h2 & xs2 & sss2 & -> & Hk2 & Hc2).
  { destruct r2 as [[[q2 h2] t]|]; [|by exists q1, h1, xs1, sss1].
    destruct Hr2 as (keep & xs2 & sss2 & -> & Hb2 & Hcat & Hqc2 & Ho & Hlt & Hf & Hp).
    exists q2, h2, xs2, sss2. split; [done|]. split; [by eapply kept_trans|].
    rewrite <-list_lookup_fmap, Hf, lookup_app_l by (rewrite length_take, length_fmap; lia).
    rewrite lookup_take_lt by lia. rewrite list_lookup_fmap. exact Hc1. }
  (* the center and the node before *)
  apply fst_lookup in Hc2 as [d2 Hi2]. pose proof Hk2 as (Hb2 & _ & Hqc2 & _).
  rewrite (node_links _ _ _ _ _ _ _ Hb2 Hi2). cbn [mbind option_bind prev].
  assert (∃ r3 q3 h3 xs3 sss3 t i3, try_merge q2 h2 (before xs2 i1) (Some center) = Some r3 ∧
    (match r3 with Some r => r | None => (q2, h2, Some center) end) = (q3, h3, Some t) ∧
    kept q xs sss q3 h3 xs3 sss3 ∧ fst <$> xs3 !! i3 = Some t) as (r3 & q3 & h3 & xs3 & sss3 & t & i3 & -> & Hr3 & Hk3 & Hc3).
  { destruct i1 as [|j].
    - exists None, q2, h2, xs2, sss2, center, 0%nat. split; [|by rewrite Hi2].
      apply try_merge_null; [by left|]. intros p [Hp|Hp]; [done|]. injection Hp as <-. rewrite (node_links _ _ _ _ _ _ _ Hb2 Hi2). by eexists.
    - destruct (try_merge_ok h2 q2 xs2 sss2 j Hb2) as (r3 & Hrun3 & Hr3); [by rewrite Hqc2|].
      rewrite Hi2 in Hrun3. simpl in Hrun3 |- *. rewrite Hrun3.
      destruct r3 as [[[q3 h3] t]|]; [|exists None, q2, h2, xs2, sss2, center, (S j); by rewrite Hi2].
      destruct Hr3 as (keep & xs3 & sss3 & -> & Hb3 & Hcat & Hqc3 & Ho & Hlt & Hf & Hp).
      exists (Some (q3, h3, Some keep)), q3, h3, xs3, sss3, keep, j. split_and!; try done.
      + by eapply kept_trans.
      + rewrite <-list_lookup_fmap, Hf. apply list_lookup_middle. rewrite length_take, length_fmap. lia. }
  cbn [mbind option_bind]. rewrite Hr3. pose proof Hk3 as (Hb3 & _ & Hqc3 & _).
  apply fst_lookup in Hc3 as [d3 Hi3]. unfold deref. cbn [mbind option_bind].
  rewrite (node_links _ _ _ _ _ _ _ Hb3 Hi3). cbn [mbind option_bind next].
  destruct (try_merge_ok h3 q3 xs3 sss3 i3 Hb3) as (r4 & Hrun4 & Hr4); [by rewrite Hqc3|].
  rewrite Hi3 in Hrun4. simpl fmap in Hrun4. rewrite Hrun4. cbn [mbind option_bind].
  destruct r4 as [[[q4 h4] t4]|]; [|by exists q3, h3, xs3, sss3].
  destruct Hr4 as (keep & xs4 & sss4 & -> & Hb4 & Hcat & Hqc4 & Ho & Hlt & Hf & Hp).
  exists q4, h4, xs4, sss4. split; [done|]. by eapply kept_trans.
Qed.
End Merge.
