(* ===== verification/QuicklistInsert.v ===== *)
(** * Insertion at an entry

    [_quicklistInsert] puts a string before or after an entry: into the node of
    the entry, into its neighbour, into a node of its own, or into one half of the
    node, which is split for it and whose parts are then merged with their
    neighbours where they fit. *)

From S2P Require Import Prelude.
From S2P Require Import Mem.
From S2P Require Import Util.
From S2P Require Import Ziplist.
From S2P Require Import ZiplistOps.
From S2P Require Import ZiplistSpec.
From S2P Require Import Packed.
From S2P Require Import Adlist.
From S2P Require Import AdlistSpec.
From S2P Require Import Quicklist.
From S2P Require Import QuicklistRepr.
From S2P Require Import QuicklistLinks.
From S2P Require Import QuicklistSpec.
From S2P Require Import QuicklistIndex.
From S2P Require Import QuicklistMerge.
Import Ziplist Quicklist Packed.
Import Adlist(ptr, ListNode, nodes, prev, next, value, heap, Heap, set_node, zmalloc_node, deref,
  set_next, set_prev, zfree_node, freed).

(** [s] before the [j]-th string. *)
Definition ins_at {A} (j : nat) (s : A) (l : list A) : list A := take j l ++ s :: drop j l.

Lemma ins_at_app_r {A} (a b : list A) k s : a ++ ins_at k s b = ins_at (length a + k) s (a ++ b).
Proof. unfold ins_at. rewrite take_app_add, drop_app_add. by rewrite app_assoc. Qed.

Lemma ins_at_app_l {A} (a b : list A) k s : (k ≤ length a)%nat → ins_at k s a ++ b = ins_at k s (a ++ b).
Proof.
  intros Hk. unfold ins_at. rewrite take_app_le, drop_app_le by done. by rewrite <-app_assoc.
Qed.

Lemma ins_at_length (s : bytes) j l : zlen (ins_at j s l) = zlen l + 1.
Proof. unfold ins_at. rewrite <-(take_drop j l) at 3. zl. Qed.

Lemma ins_at_budget s j l : budget (ins_at j s l) = zlen s + 17 + budget l.
Proof. unfold ins_at. rewrite <-(take_drop j l) at 3. rewrite !budget_app. simpl. lia. Qed.

Lemma ins_at_wf s j l : wf_bytes s → Forall wf_bytes l → Forall wf_bytes (ins_at j s l).
Proof. intros Hs Hl. apply Forall_app. split; [by apply Forall_take|]. constructor; [done|by apply Forall_drop]. Qed.

Lemma ins_at_pushed w s (l : list bytes) :
  pushed w s l = ins_at (match w with ZIPLIST_HEAD => 0%nat | ZIPLIST_TAIL => length l end) s l.
Proof. destruct w; unfold ins_at; simpl; [done|]. by rewrite take_ge, drop_ge by lia. Qed.

Lemma concat_ins_at {A} (sss : list (list A)) i (ss : list A) k s :
  sss !! i = Some ss → (k ≤ length ss)%nat →
  concat (<[i := ins_at k s ss]> sss) = ins_at (length (concat (take i sss)) + k) s (concat sss).
Proof.
  intros Hi Hk. rewrite concat_insert by (by eapply lookup_lt_Some). rewrite (qconcat_split sss i ss Hi).
  rewrite <-ins_at_app_r. by rewrite ins_at_app_l.
Qed.

Section Insert.
Context `{Alloc} `{CompressorOk}.

(** ** Into an existing node *)
Lemma for_use_raw (d d' : qnode) (xs : cells) i p :
  xs !! i = Some (p, d) → <[i := (p, d')]> xs = xs → d' = d.
Proof.
  intros Hi He. assert ((<[i := (p, d')]> xs) !! i = Some (p, d')) as Hd'
    by (apply list_lookup_insert_eq; by eapply lookup_lt_Some).
  rewrite He, Hi in Hd'. by injection Hd'.
Qed.

Lemma plain_lookup (xs : cells) i p d : plain xs → xs !! i = Some (p, d) → raw d ∧ recompress d = false.
Proof. intros Hp Hi. exact (Forall_lookup_1 _ _ _ _ Hp Hi). Qed.

Lemma insert_in_ok h q xs sss i p d ss f j s :
  qrep h q xs sss → xs !! i = Some (p, d) → sss !! i = Some ss → wf_bytes s → room (s :: concat sss) →
  _quicklistNodeAllowInsert (Some d) (fill q) (zlen s) = true →
  (∀ b, zrep b ss → (raw d → zl d = Zl b) → ∃ b', f b = Some b' ∧ zrep b' (ins_at j s ss)) →
  ∃ h' xs', insert_in_node h p f = Some h' ∧
    qrep h' (set_qcount q (qcount q + 1)) xs' (<[i := ins_at j s ss]> sss) ∧ (plain xs → plain xs').
Proof.
  intros Hq Hi Hss Hs Hroom Hal Hf. unfold insert_in_node.
  destruct (qrep_node _ _ _ _ _ _ _ Hq Hi) as (ss0 & Hss0 & Hd & Hc & _ & _). rewrite Hss in Hss0. injection Hss0 as <-.
  assert (budget ss ≤ budget (concat sss)) as Hsub by (rewrite (qconcat_split sss i ss Hss); apply budget_sub).
  assert (room (s :: ss)) as Hrs by (unfold room in *; simpl in *; lia).
  pose proof (allow_insert_bound d (fill q) ss s Hal Hd Hc (proj2 (q_opts _ _ _ _ Hq)) Hrs) as Hmax.
  destruct (for_use_at h q xs sss i p d Hq Hi) as (h1 & d1 & -> & Hr & Hq1 & Hid & _). cbn [mbind option_bind].
  set (xs1 := <[i := (p, d1)]> xs) in *.
  assert (xs1 !! i = Some (p, d1)) as Hi1 by (apply list_lookup_insert_eq; by eapply lookup_lt_Some).
  destruct (qrep_node _ _ _ _ _ _ _ Hq1 Hi1) as (ss0 & Hss0 & Hd1 & _). rewrite Hss in Hss0. injection Hss0 as <-.
  destruct (raw_block d1 ss Hd1 Hr) as (b & Hz & Hb & _).
  destruct (Hf b Hb) as (b' & Hfb & Hb').
  { intros Hraw. by rewrite <-(for_use_raw d d1 xs i p Hi (Hid Hraw)). }
  destruct (change_at h1 q xs1 sss i p d1 ss b f b' (ins_at j s ss) 1 (λ d, d ← change_zl f d; add_count 1 d))
    as (h2 & -> & Hq2); try done.
  { by rewrite ins_at_length. } { apply ins_at_wf; [done|by destruct Hd]. }
  { unfold ins_at. by destruct (take j ss). } { by rewrite ins_at_length. }
  { unfold room in *. rewrite concat_insert by (by eapply lookup_lt_Some). rewrite (qconcat_split sss i ss Hss) in Hroom.
    simpl in Hroom. rewrite !budget_app in *. rewrite ins_at_budget. lia. }
  { by left. }
  cbn [mbind option_bind]. set (xs2 := <[i := _]> xs1) in *.
  assert (xs2 !! i = Some (p, changed d1 b' (zlen (ins_at j s ss)))) as Hi2
    by (apply list_lookup_insert_eq; by eapply lookup_lt_Some).
  destruct (recompressOnly_ok h2 _ xs2 _ p i _ (q_linked _ _ _ _ Hq2) (q_ok _ _ _ _ Hq2) Hi2) as (h3 & xs3 & -> & Hst & Hno).
  exists h3, xs3. split; [done|]. split; [by eapply qrep_stage|].
  intros Hp. destruct (plain_lookup _ _ _ _ Hp Hi) as [Hraw Hrec].
  pose proof (for_use_raw d d1 xs i p Hi (Hid Hraw)) as ->. destruct Hno as [_ ->]; [done|].
  unfold xs2, xs1, plain. rewrite !list_insert_insert_eq. by apply Forall_insert.
Qed.

(** ** A new node next to the node of the entry *)
Lemma place_ok h q xs sss i p d pn dn ssn (after : bool) (j := if after then S i else i) :
  qbody h q xs sss → xs !! i = Some (p, d) → pn ∉ xs.*1 → nodes h !! pn = Some (ListNode None None dn) →
  node_ok dn ssn → raw dn → recompress dn = false → count dn = zlen ssn → ssn ≠ [] →
  room (concat (take j sss ++ ssn :: drop j sss)) →
  ∃ q' h' xs', __quicklistInsertNode q h (Some p) pn after = Some (q', h') ∧
    qbody h' q' xs' (take j sss ++ ssn :: drop j sss) ∧ qcount q' = qcount q ∧ same_opts q q' ∧
    xs'.*1 = take j xs.*1 ++ pn :: drop j xs.*1 ∧ (compress q = 0 → plain xs → plain xs').
Proof.
  intros Hb Hi Hfr Hpn Hdn Hraw Hrec Hcn Hne Hroom. pose proof Hb as [Hl Hok Hcs Hlen Hnes Hrm [Hco Hfi]].
  pose proof (lookup_lt_Some _ _ _ Hi) as Hilt. pose proof (room_small _ Hrm) as Hsm.
  pose proof (concat_ne_length sss Hnes) as Hnl. pose proof (Forall2_length _ _ _ Hok) as Hlen2.
  assert (zlen xs < 2 ^ 32) as H32 by (unfold zlen in *; lia).
  destruct (insertNode_ok h q (take j xs) (drop j xs) (take j sss) (drop j sss) pn dn ssn after)
    as (q' & h' & xs' & Hrun & Hl' & Hok' & Hf' & Hc' & Hlen' & Hqc' & Hfi' & Hco' & He');
    try (by rewrite ?take_drop); [by apply Forall2_take|by apply Forall2_drop|..].
  { destruct after; unfold j; intros _ E; apply (f_equal length) in E; [rewrite length_take in E|rewrite length_drop in E];
      rewrite length_nil in E; lia. }
  assert ((if after then lastp (take j xs) None else first (drop j xs) None) = Some p) as Hold.
  { unfold j. destruct after; [rewrite lastp_take by lia|rewrite first_drop]; by rewrite Hi. }
  rewrite Hold in Hrun. exists q', h', xs'. split; [done|]. split_and!; try done.
  - split; try done.
    + rewrite Hc', counts_mid. unfold counts in Hcs |- *. rewrite fmap_app, fmap_cons, fmap_take, fmap_drop, Hcs, Hcn.
      by rewrite <-fmap_take, <-fmap_drop.
    + rewrite Hlen', Hlen. unfold zlen. rewrite <-(length_fmap fst xs'), Hf', length_fmap, length_app. simpl.
      rewrite length_take, length_drop. unfold j. destruct after; lia.
    + apply Forall_app. split; [by apply Forall_take|]. constructor; [done|by apply Forall_drop].
    + by rewrite Hfi', Hco'.
  - rewrite Hf', fmap_app, fmap_cons. by rewrite fmap_take, fmap_drop.
  - intros Hz Hp. apply (plain_ends q'); [by rewrite Hco'|]. apply He'; [|done|done]. rewrite take_drop.
    by apply plain_ends.
Qed.

(** ** Splitting a node *)
Lemma zdelete_range_ok b ss i n :
  zrep b ss → room ss →
  ∃ b', ziplistDeleteRange b i n = Some b' ∧
    zrep b' (match norm ss i with Some j => take j ss ++ drop (Z.to_nat n) (drop j ss) | None => ss end).
Proof. exact (@packed_delete_range_ok bytes Z _ ziplist_packed_ok b ss i n). Qed.

Lemma norm_of_nat (ss : list bytes) k : norm ss (Z.of_nat k) = if decide (k < length ss)%nat then Some k else None.
Proof.
  unfold norm. destruct (Z.ltb_spec (Z.of_nat k) 0); [lia|]. destruct (Z.leb_spec 0 (Z.of_nat k)); [|lia].
  unfold zlen. destruct (Z.ltb_spec (Z.of_nat k) (Z.of_nat (length ss))); simpl; case_decide; try lia; [|done].
  by rewrite Nat2Z.id.
Qed.

(** An offset from either end. *)
Lemma norm_either (ss : list bytes) off k :
  (k < length ss)%nat → off = Z.of_nat k ∨ off = Z.of_nat k - zlen ss → norm ss off = Some k.
Proof.
  intros Hk [-> | ->]; [by rewrite norm_of_nat, decide_True|]. unfold norm, zlen.
  destruct (Z.ltb_spec (Z.of_nat k - Z.of_nat (length ss)) 0); [|lia].
  replace (Z.of_nat (length ss) + (Z.of_nat k - Z.of_nat (length ss))) with (Z.of_nat k) by lia.
  destruct (Z.leb_spec 0 (Z.of_nat k)); [|lia]. destruct (Z.ltb_spec (Z.of_nat k) (Z.of_nat (length ss))); [|lia].
  simpl. by rewrite Nat2Z.id.
Qed.

(** From position [k] on, and up to position [k]. *)
Lemma delete_from_ok b ss k :
  zrep b ss → room ss → ∃ b', ziplistDeleteRange b (Z.of_nat k) (uwrap 32 (-1)) = Some b' ∧ zrep b' (take k ss).
Proof.
  intros Hb Hr. destruct (zdelete_range_ok b ss (Z.of_nat k) (uwrap 32 (-1)) Hb Hr) as (b' & -> & Hb').
  exists b'. split; [done|]. pose proof (room_small _ Hr) as Hsm. rewrite norm_of_nat in Hb'. case_decide.
  - rewrite drop_ge, app_nil_r in Hb'; [done|]. rewrite length_drop. change (uwrap 32 (-1)) with (2 ^ 32 - 1).
    unfold zlen in Hsm. lia.
  - by rewrite take_ge by lia.
Qed.

Lemma delete_upto_ok b ss k n :
  zrep b ss → room ss → ss ≠ [] → n = Z.of_nat k → (k ≤ length ss)%nat →
  ∃ b', ziplistDeleteRange b 0 (uwrap 32 n) = Some b' ∧ zrep b' (drop k ss).
Proof.
  intros Hb Hr Hne -> Hk. destruct (zdelete_range_ok b ss 0 (uwrap 32 (Z.of_nat k)) Hb Hr) as (b' & -> & Hb').
  exists b'. split; [done|]. pose proof (room_small _ Hr) as Hsm. unfold zlen in Hsm.
  rewrite uwrap_id in Hb' by (unfold in_u; lia). rewrite Nat2Z.id in Hb'.
  change 0 with (Z.of_nat 0) in Hb'. rewrite norm_of_nat in Hb'. rewrite decide_True in Hb' by (destruct ss; [done|simpl; lia]).
  by rewrite drop_0 in Hb'.
Qed.

(** The strings of the node, and those of the new one. *)
Definition orig_part (after : bool) (k : nat) (ss : list bytes) : list bytes :=
  if after then take (S k) ss else drop k ss.
Definition new_part (after : bool) (k : nat) (ss : list bytes) : list bytes :=
  if after then drop (S k) ss else take k ss.

Lemma split_blocks b ss k (after : bool) :
  zrep b ss → room ss → (k < length ss)%nat →
  ∃ b1 b2, ziplistDeleteRange b (if after then Z.of_nat k + 1 else 0) (uwrap 32 (if after then -1 else Z.of_nat k)) = Some b1 ∧
    ziplistDeleteRange b (if after then 0 else Z.of_nat k) (uwrap 32 (if after then Z.of_nat k + 1 else -1)) = Some b2 ∧
    zrep b1 (orig_part after k ss) ∧ zrep b2 (new_part after k ss).
Proof.
  intros Hb Hr Hk. assert (ss ≠ []) as Hne by (intros ->; simpl in Hk; lia).
  replace (Z.of_nat k + 1) with (Z.of_nat (S k)) by lia. destruct after; simpl.
  - destruct (delete_from_ok b ss (S k) Hb Hr) as (b1 & ? & ?).
    destruct (delete_upto_ok b ss (S k) _ Hb Hr Hne eq_refl) as (b2 & ? & ?); [lia|]. by exists b1, b2.
  - destruct (delete_upto_ok b ss k _ Hb Hr Hne eq_refl) as (b1 & ? & ?); [lia|].
    destruct (delete_from_ok b ss k Hb Hr) as (b2 & ? & ?). by exists b1, b2.
Qed.

(** The count and the size of a node that got another block. *)
Lemma refresh_ok d b ss :
  zrep b ss → zlen ss < 2 ^ 16 →
  ∃ b', zrep b' ss ∧ (d ← update_count (set_zl d b); quicklistNodeUpdateSz d) = Some (changed d b' (zlen ss)).
Proof. intros Hb Hm. by apply (update_count_ok (set_zl d b) b ss). Qed.

Lemma split_ok h q xs i p d b ss k (after : bool) (pn := zmalloc_node h) :
  linked h q xs → xs !! i = Some (p, d) → zl d = Zl b → sz d = zlen b → zrep b ss → zlen ss < 2 ^ 16 →
  room ss → (k < length ss)%nat →
  ∃ b1 b2 h', _quicklistSplitNode h p (Z.of_nat k) after = Some (h', pn) ∧
    zrep b1 (orig_part after k ss) ∧ zrep b2 (new_part after k ss) ∧
    linked h' q (<[i := (p, changed d b1 (zlen (orig_part after k ss)))]> xs) ∧ pn ∉ xs.*1 ∧
    nodes h' !! pn = Some (ListNode None None (changed quicklistCreateNode b2 (zlen (new_part after k ss)))).
Proof.
  intros Hl Hi Hz Hsz Hb Hm Hr Hk.
  destruct (split_blocks b ss k after Hb Hr Hk) as (b1 & b2 & Hd1 & Hd2 & Hb1 & Hb2).
  assert (zlen (orig_part after k ss) < 2 ^ 16 ∧ zlen (new_part after k ss) < 2 ^ 16) as [Hm1 Hm2].
  { unfold orig_part, new_part, zlen in *. destruct after; rewrite length_take, length_drop; lia. }
  destruct (refresh_ok d b1 _ Hb1 Hm1) as (b1' & Hb1' & Hr1).
  destruct (refresh_ok quicklistCreateNode b2 _ Hb2 Hm2) as (b2' & Hb2' & Hr2).
  assert (zlof d = Some b) as Hzo by (unfold zlof; by rewrite Hz).
  unfold _quicklistSplitNode, node_at. rewrite (seg_lookup _ _ _ _ _ (l_seg _ _ _ Hl) Hi).
  cbn [fmap option_fmap option_map mbind option_bind value]. rewrite Hzo. cbn [mbind option_bind].
  rewrite Hsz, (load_at b [] b []) by (by rewrite ?app_nil_r). cbn [mbind option_bind].
  destruct (updM_at h xs i p d (λ d, b ← zlof d;
      b ← ziplistDeleteRange b (if after then Z.of_nat k + 1 else 0) (uwrap 32 (if after then -1 else Z.of_nat k));
      d ← update_count (set_zl d b); quicklistNodeUpdateSz d)
    (changed d b1' (zlen (orig_part after k ss))) (l_seg _ _ _ Hl) (l_nodup _ _ _ Hl) Hi) as (h1 & -> & Hs1 & Hdom & _).
  { rewrite Hzo. cbn [mbind option_bind]. rewrite Hd1. exact Hr1. }
  cbn [mbind option_bind]. rewrite Hd2. cbn [mbind option_bind].
  cbv zeta. fold pn.
  rewrite (bind_then _ _ (λ nd, Some (set_node h1 pn (ListNode None None nd), pn)) _ Hr2).
  destruct (linked_fresh h q xs d Hl) as [_ Hpf]. fold pn in Hpf.
  exists b1', b2', (set_node h1 pn (ListNode None None (changed quicklistCreateNode b2' (zlen (new_part after k ss))))).
  split; [done|]. split; [done|]. split; [done|]. split; [|split; [done|apply lookup_insert_eq]].
  pose proof (linked_set _ _ _ _ _ _ _ _ Hl Hi Hs1) as [Hs2 Hnd2 Hh2 Ht2]. split; try done.
  apply seg_insert; [by rewrite (insert_fst xs i p d)|done].
Qed.

(** A node outside of the list. *)
Lemma updM_free h q xs pn dn dn' f :
  linked h q xs → pn ∉ xs.*1 → nodes h !! pn = Some (ListNode None None dn) → f dn = Some dn' →
  ∃ h', updM h pn f = Some h' ∧ linked h' q xs ∧ nodes h' !! pn = Some (ListNode None None dn').
Proof.
  intros [Hs Hnd Hh Ht] Hpn Hn Hf. unfold updM. rewrite Hn. cbn [mbind option_bind value prev next]. rewrite Hf.
  eexists. split; [done|]. split; [|apply lookup_insert_eq]. split; try done. by apply seg_insert.
Qed.

(** The strings of the list once the node is split and the new string is in. *)
Lemma split_concat (sss : list (list bytes)) i ss k s (after : bool)
    (j := if after then S i else i) (k' := if after then S k else k)
    (w := if after then ZIPLIST_HEAD else ZIPLIST_TAIL) (sss1 := <[i := orig_part after k ss]> sss) :
  sss !! i = Some ss → (k < length ss)%nat →
  concat (take j sss1 ++ pushed w s (new_part after k ss) :: drop j sss1) =
  ins_at (length (concat (take i sss)) + k') s (concat sss).
Proof.
  intros Hi Hk. pose proof (lookup_lt_Some _ _ _ Hi) as Hlt. rewrite <-(concat_ins_at sss i ss k' s Hi) by (unfold k'; destruct after; lia).
  rewrite concat_insert by done. unfold sss1, j. rewrite insert_take_drop by done.
  assert (length (take i sss) = i) as Hti by (rewrite length_take; lia).
  unfold k', w, ins_at, orig_part, new_part, pushed. destruct after.
  - rewrite (cons_middle (take (S k) ss)), app_assoc, take_app_length', drop_app_length' by (rewrite length_app; simpl; lia).
    rewrite !concat_app. simpl. rewrite app_nil_r, <-!app_assoc. done.
  - rewrite take_app_length', drop_app_length' by done. rewrite !concat_app. simpl. rewrite <-!app_assoc. done.
Qed.

Lemma orig_part_ne after k ss : (k < length ss)%nat → orig_part after k ss ≠ [].
Proof.
  intros Hk E. apply (f_equal length) in E. unfold orig_part in E.
  destruct after; rewrite ?length_take, ?length_drop, length_nil in E; lia.
Qed.

Lemma parts_length after k (ss : list bytes) :
  (k < length ss)%nat → zlen (orig_part after k ss) + zlen (new_part after k ss) = zlen ss.
Proof. intros Hk. unfold orig_part, new_part, zlen. destruct after; rewrite length_take, length_drop; lia. Qed.

Lemma parts_budget after k (ss : list bytes) :
  budget (orig_part after k ss) + budget (new_part after k ss) = budget ss.
Proof.
  unfold orig_part, new_part. destruct after; [rewrite <-(take_drop (S k) ss) at 3|rewrite <-(take_drop k ss) at 3];
    rewrite budget_app; lia.
Qed.

Lemma parts_wf after k (ss : list bytes) :
  Forall wf_bytes ss → Forall wf_bytes (orig_part after k ss) ∧ Forall wf_bytes (new_part after k ss).
Proof. intros Hw. unfold orig_part, new_part. destruct after; split; by first [apply Forall_take|apply Forall_drop]. Qed.

(** The node at index [i] holds [ss'] instead. *)
Lemma body_set h q xs sss i p d ss d' ss' h' :
  qbody h q xs sss → xs !! i = Some (p, d) → sss !! i = Some ss → linked h' q (<[i := (p, d')]> xs) →
  node_ok d' ss' → count d' = zlen ss' → ss' ≠ [] → room (concat (<[i := ss']> sss)) →
  qbody h' q (<[i := (p, d')]> xs) (<[i := ss']> sss).
Proof.
  intros [Hl Hok Hcs Hlen Hne Hr Ho] Hi Hss Hl' Hd' Hc' Hne' Hroom. split; try done.
  - by apply Forall2_insert.
  - by rewrite counts_insert, Hc', Hcs, list_fmap_insert.
  - by rewrite zlen_insert.
  - by apply Forall_insert.
Qed.

(** The node is split, and the new part gets the string. *)
Lemma split_push h q xs sss i p d b ss k s (after : bool)
    (o := orig_part after k ss) (n := new_part after k ss) (w := if after then ZIPLIST_HEAD else ZIPLIST_TAIL) :
  qbody h q xs sss → xs !! i = Some (p, d) → raw d → zl d = Zl b → node_ok d ss → sss !! i = Some ss →
  (k < length ss)%nat → wf_bytes s → room (s :: concat sss) →
  ∃ h1 h2 pn d' dn, _quicklistSplitNode h p (Z.of_nat k) after = Some (h1, pn) ∧
    updM h1 pn (λ d, d ← change_zl (λ b, ziplistPush b s w) d; add_count 1 d) = Some h2 ∧
    qbody h2 q (<[i := (p, d')]> xs) (<[i := o]> sss) ∧ encoding d' = encoding d ∧ recompress d' = recompress d ∧
    pn ∉ xs.*1 ∧ nodes h2 !! pn = Some (ListNode None None dn) ∧ node_ok dn (pushed w s n) ∧ raw dn ∧
    recompress dn = false ∧ count dn = zlen (pushed w s n).
Proof.
  intros Hq Hi Hraw Hz Hd Hss Hk Hs Hroom.
  destruct (raw_block d ss Hd Hraw) as (b0 & Hz0 & Hb & Hsz). rewrite Hz in Hz0. injection Hz0 as <-.
  pose proof Hd as [Hmax Hwf _].
  pose proof (parts_length after k ss Hk) as Hpl. pose proof (parts_budget after k ss) as Hpb.
  pose proof (parts_wf after k ss Hwf) as [Hwo Hwn]. pose proof (orig_part_ne after k ss Hk) as Hne.
  fold o n in Hpl, Hpb, Hwo, Hwn, Hne. zlen_pos. pose proof (budget_nonneg o). pose proof (budget_nonneg n).
  assert (zlen o ≠ 0) as Hno by (unfold zlen; destruct o; [done|simpl; lia]).
  assert (budget ss ≤ budget (concat sss)) as Hsub by (rewrite (qconcat_split sss i ss Hss); apply budget_sub).
  destruct (split_ok h q xs i p d b ss k after (b_linked _ _ _ _ Hq) Hi Hz Hsz Hb Hmax) as
    (b1 & b2 & h1 & Hrun & Hbo & Hbn & Hl1 & Hfr & Hpn); [unfold room in *; simpl in *; zlen_pos; lia|done|].
  fold o n in Hbo, Hbn, Hl1, Hpn. set (pn := zmalloc_node h) in *.
  destruct (zpush_ok b2 n s w Hbn) as (b3 & Hpush & Hb3); [unfold room in *; simpl in *; zlen_pos; lia|].
  set (dn := changed quicklistCreateNode b2 (zlen n)) in *. fold (pushed w s n) in Hb3.
  assert (node_ok dn n) as Hdn by (apply changed_ok; [done|done|lia|done]).
  pose proof (pushed_length w s n) as Hlp.
  destruct (updM_free h1 q _ pn dn (changed dn b3 (zlen (pushed w s n)))
    (λ d, d ← change_zl (λ b, ziplistPush b s w) d; add_count 1 d) Hl1) as (h2 & Hu & Hl2 & Hpn2);
    [by rewrite (insert_fst xs i p d)|done| |].
  { rewrite (change_zl_ok dn n _ b3 (pushed w s n) Hdn); [|done|by intros ? [= <-]|done]. simpl.
    unfold add_count, set_count, changed. simpl. rewrite Hlp, uwrap_id by (unfold in_u; lia). done. }
  exists h1, h2, pn, (changed d b1 (zlen o)), (changed dn b3 (zlen (pushed w s n))). split; [done|]. split; [done|]. split_and!; try done.
  - eapply body_set; [exact Hq|done|done|exact Hl2|by apply changed_ok; [done|done|lia|done]|done|done|].
    unfold room in *. rewrite concat_insert by (by eapply lookup_lt_Some). rewrite (qconcat_split sss i ss Hss) in Hroom.
    simpl in Hroom. rewrite !budget_app in *. zlen_pos. lia.
  - apply changed_ok; [done|done|lia|]. unfold w, pushed. destruct after; [by constructor|].
    apply Forall_app. by rewrite Forall_singleton.
Qed.

Lemma split_case h q xs sss i p d b ss k s (after : bool) :
  qrep h q xs sss → xs !! i = Some (p, d) → raw d → zl d = Zl b → sss !! i = Some ss → (k < length ss)%nat →
  wf_bytes s → room (s :: concat sss) →
  ∃ q' h' xs' sss',
    (h ← quicklistDecompressNodeForUse h (Some p);
     '(h, pn) ← _quicklistSplitNode h p (Z.of_nat k) after;
     h ← updM h pn (λ d, d ← change_zl (λ b, ziplistPush b s (if after then ZIPLIST_HEAD else ZIPLIST_TAIL)) d;
                        add_count 1 d);
     '(q, h) ← __quicklistInsertNode q h (Some p) pn after;
     _quicklistMergeNodes q h p) = Some (q', h') ∧
    qbody h' q' xs' sss' ∧ qcount q' = qcount q ∧ same_opts q q' ∧
    concat sss' = ins_at (length (concat (take i sss)) + if after then S k else k) s (concat sss) ∧
    (compress q = 0 → plain xs → plain xs').
Proof.
  intros Hq Hi Hraw Hz Hss Hk Hs Hroom.
  destruct (for_use_at h q xs sss i p d Hq Hi) as (h1 & d1 & -> & _ & Hq1 & Hid & _). cbn [mbind option_bind].
  rewrite (Hid Hraw) in Hq1. clear Hid d1. apply qrep_body in Hq1 as [Hb1 Hqc].
  destruct (qrep_node _ _ _ _ _ _ _ Hq Hi) as (ss0 & Hss0 & Hd & _). rewrite Hss in Hss0. injection Hss0 as <-.
  destruct (split_push h1 q xs sss i p d b ss k s after Hb1 Hi Hraw Hz Hd Hss Hk Hs Hroom)
    as (h2 & h3 & pn & d' & dn & -> & Hu & Hb2 & Hen & Hre & Hfr & Hpn & Hdn & Hrn & Hcn & Hzn).
  cbn [mbind option_bind]. rewrite Hu. cbn [mbind option_bind].
  pose proof (split_concat sss i ss k s after Hss Hk) as Hcat. cbv zeta in Hcat.
  set (n := new_part after k ss) in *. set (w := if after then ZIPLIST_HEAD else ZIPLIST_TAIL) in *.
  set (xs2 := <[i := _]> xs) in *. set (sss2 := <[i := orig_part _ _ _]> sss) in *.
  assert (xs2.*1 = xs.*1) as Hf2 by (by apply (insert_fst xs i p d)).
  assert (xs2 !! i = Some (p, d')) as Hi2 by (apply list_lookup_insert_eq; by eapply lookup_lt_Some).
  destruct (place_ok h3 q xs2 sss2 i p _ pn dn (pushed w s n) after Hb2 Hi2)
    as (q4 & h4 & xs4 & -> & Hb4 & Hqc4 & [Hfi4 Hco4] & Hf4 & Hp4); try done; [by rewrite Hf2| | |].
  { unfold w, pushed. destruct after; [done|]. by destruct n. }
  { rewrite Hcat. unfold room in *. rewrite ins_at_budget. simpl in Hroom. lia. }
  cbn [mbind option_bind].
  assert (∃ d4, xs4 !! (if after then i else S i) = Some (p, d4)) as [d4 Hi4].
  { apply fst_lookup. rewrite <-list_lookup_fmap, Hf4, Hf2.
    assert (xs.*1 !! i = Some p) as Hip by (by rewrite list_lookup_fmap, Hi). pose proof (lookup_lt_Some _ _ _ Hip).
    destruct after.
    - rewrite lookup_app_l by (rewrite length_take; lia). by rewrite lookup_take_lt by lia.
    - rewrite lookup_app_r by (rewrite length_take; lia). rewrite length_take.
      replace (S i - i `min` length xs.*1)%nat with 1%nat by lia. simpl. by rewrite lookup_drop, Nat.add_0_r. }
  destruct (mergeNodes_ok h4 q4 xs4 _ (if after then i else S i) p d4 Hb4)
    as (q5 & h5 & xs5 & sss5 & -> & Hb5 & Hcat5 & Hqc5 & [Hf5 Ho5] & Hp5); [|done|].
  { rewrite Hqc4, Hqc. pose proof (qrep_small _ _ _ _ Hq). unfold in_u. zlen_pos. lia. }
  exists q5, h5, xs5, sss5. split; [done|]. split; [done|]. split; [congruence|]. split; [split; congruence|].
  split; [by rewrite Hcat5|]. intros Hz0 Hp. apply Hp5; [congruence|]. apply Hp4; [done|].
  destruct (plain_lookup _ _ _ _ Hp Hi) as [Hr' Hc']. unfold xs2, plain. apply Forall_insert; [done|].
  simpl. unfold raw. by rewrite Hen, Hre.
Qed.

(** ** In a node of its own *)
Lemma own_case h q xs sss i p d s (after : bool) (j := if after then S i else i) :
  qrep h q xs sss → xs !! i = Some (p, d) → wf_bytes s → room (s :: concat sss) →
  ∃ q' h' xs',
    (b ← ziplistNew; b ← ziplistPush b s ZIPLIST_HEAD;
     '(h, pn) ← new_node h b;
     h ← updM h pn (add_count 1);
     __quicklistInsertNode q h (Some p) pn after) = Some (q', h') ∧
    qbody h' q' xs' (take j sss ++ [s] :: drop j sss) ∧ qcount q' = qcount q ∧ same_opts q q' ∧
    (compress q = 0 → plain xs → plain xs').
Proof.
  intros Hq Hi Hs Hroom. pose proof Hroom as Hr. unfold room in Hr. simpl in Hr.
  pose proof (budget_nonneg (concat sss)). zlen_pos.
  destruct (znew_push s ZIPLIST_HEAD ltac:(lia)) as (b0 & b & -> & Hp & Hb). cbn [mbind option_bind]. rewrite Hp. cbn [mbind option_bind].
  destruct (new_node_ok h b s Hb Hs) as (h1 & dn & -> & -> & Hdn & Hrw & Hre & Hc0). cbn [mbind option_bind].
  set (pn := zmalloc_node h). pose proof (q_linked _ _ _ _ Hq) as Hl.
  destruct (linked_fresh h q xs dn Hl) as [Hl1 Hfr]. fold pn in Hl1, Hfr.
  destruct (updM_free _ q xs pn dn (set_count dn (count dn + 1)) (add_count 1) Hl1 Hfr (lookup_insert_eq _ _ _) eq_refl)
    as (h2 & -> & Hl2 & Hpn). cbn [mbind option_bind].
  assert (qbody h2 q xs sss) as Hb2 by (by apply qrep_body in Hq as [[] ?]).
  destruct (place_ok h2 q xs sss i p d pn (set_count dn (count dn + 1)) [s] after Hb2 Hi Hfr Hpn)
    as (q' & h' & xs' & -> & Hb' & Hqc & Ho & _ & Hpl); try done.
  - by apply node_ok_count.
  - simpl. by rewrite Hc0.
  - unfold room. rewrite concat_app. simpl. rewrite budget_app. simpl.
    rewrite <-(take_drop (if after then S i else i) sss), concat_app, budget_app in Hr. lia.
  - by exists q', h', xs'.
Qed.

Lemma own_concat (sss : list (list bytes)) i (s : bytes) :
  concat (take i sss ++ [s] :: drop i sss) = ins_at (length (concat (take i sss)) + 0) s (concat sss).
Proof.
  rewrite <-(take_drop i sss) at 4. rewrite (concat_app (take i sss) (drop i sss)), <-ins_at_app_r, concat_app.
  done.
Qed.

(** ** The whole insertion *)
Lemma znext_ok b ss j z :
  zat b ss j z →
  if decide (S j < length ss)%nat then ∃ z', ziplistNext b z = Some (Some z') ∧ zat b ss (S j) z'
  else ziplistNext b z = Some None.
Proof. exact (@packed_next_ok bytes Z _ ziplist_packed_ok b ss j z). Qed.

(** The two ways into the node of the entry. *)
Lemma insert_here_ok b ss k z s (after : bool) :
  zat b ss k z → (k < length ss)%nat → room (s :: ss) →
  ∃ b', (if after then
           nx ← ziplistNext b z;
           match nx with None => ziplistPush b s ZIPLIST_TAIL | Some nx => ziplistInsert b nx s end
         else ziplistInsert b z s) = Some b' ∧ zrep b' (ins_at (if after then S k else k) s ss).
Proof.
  intros Hat Hk Hr. destruct after.
  - pose proof (znext_ok b ss k z Hat) as Hn. case_decide.
    + destruct Hn as (z' & -> & Hat'). simpl. destruct (zinsert_ok b ss (S k) z' s Hat' Hr) as (b' & ? & Hb').
      exists b'. split; [done|]. by apply zat_rep in Hb'.
    + rewrite Hn. simpl. destruct (zpush_ok b ss s ZIPLIST_TAIL (zat_rep _ _ _ _ Hat) Hr) as (b' & ? & Hb').
      exists b'. split; [done|]. unfold ins_at. by rewrite take_ge, drop_ge by lia.
  - destruct (zinsert_ok b ss k z s Hat Hr) as (b' & ? & Hb'). exists b'. split; [done|]. by apply zat_rep in Hb'.
Qed.

(** What an insertion at position [j] does to the list. *)
Definition inserted (q : quicklist) (xs : cells) (sss : list (list bytes)) (j : nat) (s : bytes)
    (r : option (quicklist * heap qnode)) : Prop :=
  ∃ q' h' xs' sss', r = Some (q', h') ∧ qrep h' q' xs' sss' ∧ concat sss' = ins_at j s (concat sss) ∧
    same_opts q q' ∧ (compress q = 0 → plain xs → plain xs').

Lemma body_inserted q xs sss j s q' h' xs' sss' h :
  qrep h q xs sss → qbody h' q' xs' sss' → qcount q' = qcount q → same_opts q q' →
  concat sss' = ins_at j s (concat sss) → (compress q = 0 → plain xs → plain xs') →
  inserted q xs sss j s (Some (set_qcount q' (qcount q' + 1), h')).
Proof.
  intros Hq Hb Hqc Ho Hcat Hp. exists (set_qcount q' (qcount q' + 1)), h', xs', sss'. split_and!; try done; try apply Ho.
  rewrite Hqc, (q_count _ _ _ _ Hq), <-(ins_at_length s j (concat sss)), <-Hcat. by apply body_rep.
Qed.

Lemma insert_in_case h q xs sss i p d ss f k s :
  qrep h q xs sss → xs !! i = Some (p, d) → sss !! i = Some ss → wf_bytes s → room (s :: concat sss) →
  (k ≤ length ss)%nat → _quicklistNodeAllowInsert (Some d) (fill q) (zlen s) = true →
  (∀ b, zrep b ss → (raw d → zl d = Zl b) → ∃ b', f b = Some b' ∧ zrep b' (ins_at k s ss)) →
  inserted q xs sss (length (concat (take i sss)) + k) s
    ('(q, h) ← (h ← insert_in_node h p f; Some (q, h)); Some (set_qcount q (qcount q + 1), h)).
Proof.
  intros Hq Hi Hss Hs Hroom Hk Hal Hf.
  destruct (insert_in_ok h q xs sss i p d ss f k s Hq Hi Hss Hs Hroom Hal Hf) as (h' & xs' & -> & Hq' & Hp).
  cbn [mbind option_bind]. do 4 eexists. split; [done|]. split; [done|]. split_and!; try done. by apply concat_ins_at.
Qed.

Lemma insert_entry_ok h q xs sss e i k ss s (after : bool) :
  qrep h q xs sss → entry_at xs sss e i k → sss !! i = Some ss → e_offset e = Z.of_nat k →
  wf_bytes s → room (s :: concat sss) →
  inserted q xs sss (length (concat (take i sss)) + if after then S k else k) s (_quicklistInsert q h e s after).
Proof.
  intros Hq [(p & d & b & z & ss0 & s0 & Hi & Hraw & Hz & Hss0 & Hs0 & Hat & Hen & Hez & _)] Hss Hoff Hs Hroom.
  rewrite Hss in Hss0. injection Hss0 as <-. pose proof (lookup_lt_Some _ _ _ Hs0) as Hk.
  pose proof (count_at h q xs sss i p d ss Hq Hi Hss) as [Hn Hc].
  assert (budget ss ≤ budget (concat sss)) as Hsub by (rewrite (qconcat_split sss i ss Hss); apply budget_sub).
  assert (room (s :: ss)) as Hrs by (unfold room in *; simpl in *; lia).
  unfold _quicklistInsert. rewrite Hen, Hn. cbn [mbind option_bind prev next value].
  assert (∃ dn, fields h (fst <$> xs !! S i) = Some dn) as [dn ->].
  { destruct (xs !! S i) as [[pn dn]|] eqn:E; [|by eexists]. exists (Some dn).
    exact (fields_at h q xs (S i) pn dn (q_linked _ _ _ _ Hq) E). }
  assert (fields h (before xs i) = Some (match i with O => None | S i' => snd <$> xs !! i' end)) as ->.
  { destruct i as [|i']; [done|]. simpl. destruct (xs !! i') as [[pv dv]|] eqn:E; [|done].
    exact (fields_at h q xs i' pv dv (q_linked _ _ _ _ Hq) E). }
  cbn [mbind option_bind]. rewrite Hoff, Hez, Hc.
  destruct (Z.eqb_spec (Z.of_nat k) (zlen ss)) as [E|_]; [unfold zlen in E; lia|].
  rewrite !andb_false_r. cbn [andb negb].
  destruct (_quicklistNodeAllowInsert (Some d) (fill q) (zlen s)) eqn:Hal; cbn [negb andb].
  { destruct after; cbn [negb andb]; (eapply insert_in_case; [done|done|done|done|done|lia|done|]);
      intros b' _ Hb'; specialize (Hb' Hraw); rewrite Hz in Hb'; injection Hb' as <-.
    - by apply (insert_here_ok b ss k z s true).
    - by apply (insert_here_ok b ss k z s false). }
  assert (inserted q xs sss (length (concat (take i sss)) + if after then S k else k) s
    ('(q, h) ← (h ← quicklistDecompressNodeForUse h (Some p);
       '(h, pn) ← _quicklistSplitNode h p (Z.of_nat k) after;
       h ← updM h pn (λ d, d ← change_zl (λ b, ziplistPush b s (if after then ZIPLIST_HEAD else ZIPLIST_TAIL)) d; add_count 1 d);
       '(q, h) ← __quicklistInsertNode q h (Some p) pn after; _quicklistMergeNodes q h p);
     Some (set_qcount q (qcount q + 1), h))) as Hsplit.
  { destruct (split_case h q xs sss i p d b ss k s after Hq Hi Hraw Hz Hss Hk Hs Hroom)
      as (q' & h' & xs' & sss' & -> & Hb' & Hqc & Ho & Hcat & Hp). by eapply body_inserted. }
  destruct after; cbn [negb andb orb]; [exact Hsplit|].
  destruct (Z.eqb_spec (Z.of_nat k) 0) as [Hk0|]; cbn [negb andb orb]; [|exact Hsplit].
  destruct i as [|i']; [exact Hsplit|]. assert (k = 0%nat) as -> by lia.
  destruct (lookup_lt_is_Some_2 xs i') as [[pv dv] Hv]; [apply lookup_lt_Some in Hi; lia|].
  simpl before. rewrite Hv. simpl fmap. rewrite bool_decide_eq_true_2 by done. cbn [negb andb orb].
  destruct (_quicklistNodeAllowInsert (Some dv) (fill q) (zlen s)) eqn:Halv; cbn [negb andb orb].
  - destruct (qrep_node _ _ _ _ _ _ _ Hq Hv) as (ssv & Hssv & _).
    replace (length (concat (take (S i') sss)) + 0)%nat with (length (concat (take i' sss)) + length ssv)%nat.
    2:{ rewrite (take_S_r sss i' ssv Hssv), concat_app, length_app. simpl. rewrite app_nil_r. lia. }
    eapply insert_in_case; [done|done|done|done|done|done|done|]. intros bv Hbv _.
    assert (budget ssv ≤ budget (concat sss)) as Hsubv by (rewrite (qconcat_split sss i' ssv Hssv); apply budget_sub).
    destruct (zpush_ok bv ssv s ZIPLIST_TAIL Hbv) as (b' & ? & Hb'); [unfold room in *; simpl in *; lia|].
    exists b'. split; [done|]. unfold ins_at. by rewrite take_ge, drop_ge by lia.
  - destruct (own_case h q xs sss (S i') p d s false Hq Hi Hs Hroom) as (q' & h' & xs' & -> & Hb' & Hqc & Ho & Hp).
    eapply body_inserted; [done|done|done|done|apply own_concat|done].
Qed.

(** C32: Looking up an index that is counted from the head and inserting a string before
    or after the entry puts the string at that place of the list, for every fill factor
    and every compression depth and whichever branch the insertion takes, the split of
    a full node and the merges of its halves with their neighbours included.  An index
    that is not in the list gives no entry.  The list stays below 2^32 bytes; an index
    counted from the tail is not covered. *)
Theorem quicklistInsert_correct h q xs sss idx s (after : bool) :
  qrep h q xs sss → 0 ≤ idx < 2 ^ 63 → wf_bytes s → room (s :: concat sss) →
  match norm (concat sss) idx with
  | Some j => ∃ h1 e q' h' xs' sss', quicklistIndex q h idx = Some (h1, e, true) ∧
      (if after then quicklistInsertAfter q h1 e s else quicklistInsertBefore q h1 e s) = Some (q', h') ∧
      qrep h' q' xs' sss' ∧ concat sss' = ins_at (if after then S j else j) s (concat sss)
  | None => quicklistIndex q h idx = Some (h, initEntry, false)
  end.
Proof.
  intros Hq Hidx Hs Hr. pose proof (qindex_ok h q xs sss idx Hq ltac:(lia)) as Hix.
  destruct (norm (concat sss) idx) as [j|]; [|done].
  destruct Hix as (h1 & xs1 & e & i & k & ss & s0 & Hrun & Hq1 & _ & Hat & Hss & _ & Hj & Hoff & _).
  destruct (Z.ltb_spec idx 0); [lia|].
  destruct (insert_entry_ok h1 q xs1 sss e i k ss s after Hq1 Hat Hss Hoff Hs Hr) as (q' & h' & xs' & sss' & Hins & Hq' & Hcat & _).
  exists h1, e, q', h', xs', sss'. split; [done|]. split; [by destruct after|]. split; [done|].
  rewrite Hcat. f_equal. unfold upto, zlen in Hj. destruct after; lia.
Qed.
End Insert.

Section Witness.
#[local] Existing Instance junk0.
#[local] Existing Instance demo_lzf.

(** Three strings in nodes of at most two, with compression; the string after the
    first one goes through a split. *)
Definition demo_pushes : list dop := DPush QUICKLIST_TAIL <$> [[97]; [98]; [99]].

Lemma demo_pushes_wf : Forall dop_wf demo_pushes.
Proof.
  assert (∀ c, is_byte c → wf_bytes [c]) as Hw by (intros c Hc; by constructor).
  repeat (constructor; [apply Hw; by vm_compute|]). constructor.
Qed.

Lemma demo_pushed :
  ∃ q h xs sss, deque_run demo_pushes (quicklistNew 2 1) (Heap ∅ []) = Some (q, h, []) ∧ qrep h q xs sss ∧
    concat sss = [[97]; [98]; [99]].
Proof.
  destruct (qrep_new (Heap ∅ []) 2 1) as [Hq He].
  destruct (deque_ok demo_pushes _ _ _ _ Hq He) as (q & h & rs & xs & sss & Hrun & Hq1 & _ & Hcat & Hrs);
    [exact demo_pushes_wf|by vm_compute|].
  assert (concat sss = [[97]; [98]; [99]]) as Hl by (rewrite Hcat; vm_compute; reflexivity). vm_compute in Hrs. subst rs.
  exists q, h, xs, sss. exact (conj Hrun (conj Hq1 Hl)).
Qed.

Lemma quicklistInsert_correct_witness :
  ∃ q h h1 e q' h' xs' sss', deque_run demo_pushes (quicklistNew 2 1) (Heap ∅ []) = Some (q, h, []) ∧
    quicklistIndex q h 0 = Some (h1, e, true) ∧ quicklistInsertAfter q h1 e [100] = Some (q', h') ∧
    qrep h' q' xs' sss' ∧ concat sss' = [[97]; [100]; [98]; [99]].
Proof.
  destruct demo_pushed as (q & h & xs & sss & Hrun & Hq1 & Hl).
  pose proof (quicklistInsert_correct h q xs sss 0 [100] true Hq1) as Hx. rewrite Hl in Hx.
  destruct Hx as (h1 & e & q' & h' & xs' & sss' & Hi & Hins & Hq2 & Hc);
    [lia|apply (bool_decide_unpack _); vm_compute; exact I|by vm_compute|].
  exists q, h, h1, e, q', h', xs', sss'. exact (conj Hrun (conj Hi (conj Hins (conj Hq2 Hc)))).
Defined.
End Witness.
