(* ===== verification/QuicklistRange.v ===== *)
(** * Deletion of a range

    [quicklistDelRange] takes the strings from an index on out of the list, node
    by node: whole nodes where it can, a part of the ziplist otherwise. *)

From S2P Require Import Prelude.
From S2P Require Import Mem.
From S2P Require Import Util.
From S2P Require Import Ziplist.
From S2P Require Import ZiplistOps.
From S2P Require Import ZiplistSpec.
From S2P Require Import Packed.
From S2P Require Import Adlist.
From S2P Require Import AdlistSpec.
From S2P Require Import Quicklist.
From S2P Require Import QuicklistRepr.
From S2P Require Import QuicklistLinks.
From S2P Require Import QuicklistSpec.
From S2P Require Import QuicklistIndex.
From S2P Require Import QuicklistMerge.
From S2P Require Import QuicklistInsert.
Import Ziplist Quicklist Packed.
Import Adlist(ptr, ListNode, nodes, prev, next, value, heap, Heap, set_node, zmalloc_node, deref,
  set_next, set_prev, zfree_node, freed).

(** [m] elements from position [k] on are gone. *)
Definition cut {A} (k m : nat) (l : list A) : list A := take k l ++ drop (k + m) l.

Lemma cut_budget k m l : budget (cut k m l) ≤ budget l.
Proof.
  unfold cut. rewrite <-drop_drop. pose proof (take_drop k l) as Hk. pose proof (take_drop m (drop k l)) as Hm.
  rewrite <-Hk at 3. rewrite <-Hm at 2. rewrite !budget_app.
  pose proof (budget_nonneg (take m (drop k l))). zlen_pos. lia.
Qed.

Lemma cut_length {A} k m (l : list A) : (k + m ≤ length l)%nat → zlen (cut k m l) = zlen l - Z.of_nat m.
Proof. intros Hm. unfold cut, zlen. rewrite length_app, length_take, length_drop. lia. Qed.

Lemma cut_wf k m l : Forall wf_bytes l → Forall wf_bytes (cut k m l).
Proof. intros Hl. apply Forall_app. split; [by apply Forall_take|by apply Forall_drop]. Qed.

Section Range.
Context `{Alloc} `{CompressorOk}.

(** A node leaves the list, whatever has become of its ziplist. *)
Lemma remove_node h0 q0 h q xs sss i p d d1 ss :
  qrep h0 q0 xs sss → xs !! i = Some (p, d) → sss !! i = Some ss → linked h q (<[i := (p, d1)]> xs) →
  len q = len q0 → same_opts q0 q →
  ∃ q' h' xs', __quicklistDelNode q h p = Some (q', h') ∧
    qbody h' q' xs' (take i sss ++ drop (S i) sss) ∧ qcount q' = uwrap 64 (qcount q - count d1) ∧ same_opts q q' ∧
    xs'.*1 = take i xs.*1 ++ drop (S i) xs.*1 ∧ (compress q = 0 → plain (<[i := (p, d1)]> xs) → plain xs').
Proof.
  intros Hq Hi Hss Hl Hlen [Hfi Hco]. pose proof (lookup_lt_Some _ _ _ Hi) as Hlt.
  destruct (qrep_halves _ _ _ _ _ _ _ Hq Hi) as [HA HB]. pose proof (qrep_small _ _ _ _ Hq) as Hsm.
  pose proof Hq as [_ _ Hcs Hlen0 _ Hne Hroom Hop]. rewrite insert_take_drop in * by done.
  assert (zlen (take i xs ++ (p, d1) :: drop (S i) xs) = zlen xs) as Hz.
  { unfold zlen. rewrite length_app. simpl. rewrite length_take, length_drop. lia. }
  destruct (delNode_ok h q (take i xs) (drop (S i) xs) (take i sss) (drop (S i) sss) p d1 Hl HA HB)
    as (q' & h' & xs' & Hrun & Hl' & Hok' & Hf' & Hc' & Hlen' & Hqc' & Hfi' & Hco' & He').
  { by rewrite Hz, Hlen. } { rewrite Hlen, Hlen0. lia. } { rewrite Hco. apply Hop. }
  exists q', h', xs'. split; [done|]. split_and!; try done.
  - split; try done.
    + rewrite Hc'. unfold counts in *. by rewrite !fmap_app, !fmap_take, !fmap_drop, Hcs.
    + rewrite Hlen', Hlen, Hlen0. unfold zlen. rewrite <-(length_fmap fst xs'), Hf', length_fmap.
      rewrite length_app, length_take, length_drop. lia.
    + apply Forall_app. split; [by apply Forall_take|by apply Forall_drop].
    + unfold room in *. rewrite (qconcat_split sss i ss Hss) in Hroom.
      rewrite concat_app, !budget_app in *. pose proof (budget_nonneg ss). zlen_pos. lia.
    + by rewrite Hfi', Hco', Hfi, Hco.
  - by rewrite Hf', fmap_app, fmap_take, fmap_drop.
  - intros Hc0 Hp. apply (plain_ends q'); [by rewrite Hco'|]. apply He'. by apply plain_ends.
Qed.

Lemma without_concat (sss : list (list bytes)) i ss :
  sss !! i = Some ss → zlen (concat (take i sss ++ drop (S i) sss)) = zlen (concat sss) - zlen ss.
Proof. intros Hi. rewrite (qconcat_split sss i ss Hi), concat_app. zl. Qed.

(** What is left after one node: the nodes from [j] on are those behind it. *)
Record trimmed (xs : cells) (sss : list (list bytes)) (i : nat) (q q' : quicklist) (h' : heap qnode)
    (xs' : cells) (sss' : list (list bytes)) (j : nat) (ss' : list bytes) : Prop := {
  t_rep : qrep h' q' xs' sss';
  t_ptrs : drop j xs'.*1 = drop (S i) xs.*1;
  t_front : take j sss' = take i sss ++ (if bool_decide (ss' = []) then [] else [ss']);
  t_back : drop j sss' = drop (S i) sss;
  t_short : (length xs' - j = length xs - S i)%nat;
  t_opts : same_opts q q';
  t_plain : compress q = 0 → plain xs → plain xs' }.

Lemma rep_count h q xs sss : qbody h q xs sss → qcount q = zlen (concat sss) → qrep h q xs sss.
Proof. intros Hb Hc. by apply qrep_body. Qed.

(** The whole node. *)
Lemma del_whole h q xs sss i p d ss :
  qrep h q xs sss → xs !! i = Some (p, d) → sss !! i = Some ss →
  ∃ q' h' xs' sss', __quicklistDelNode q h p = Some (q', h') ∧ trimmed xs sss i q q' h' xs' sss' i [].
Proof.
  intros Hq Hi Hss. pose proof (q_linked _ _ _ _ Hq) as Hl. pose proof (lookup_lt_Some _ _ _ Hi) as Hlt.
  pose proof (qrep_length _ _ _ _ Hq) as Hlen. destruct (count_at _ _ _ _ _ _ _ _ Hq Hi Hss) as [_ Hc].
  rewrite <-(list_insert_id xs i _ Hi) in Hl.
  destruct (remove_node h q h q xs sss i p d d ss Hq Hi Hss Hl) as (q' & h' & xs' & Hrun & Hb & Hqc & Ho & Hf & Hp); [done|done|].
  rewrite (list_insert_id xs i _ Hi) in Hp. pose proof (without_concat sss i ss Hss) as Hwc.
  exists q', h', xs', (take i sss ++ drop (S i) sss). split; [done|]. split; try done.
  - apply rep_count; [done|]. rewrite Hqc, Hwc, Hc, (q_count _ _ _ _ Hq). apply uwrap_id.
    pose proof (qrep_small _ _ _ _ Hq). zlen_pos. unfold in_u. lia.
  - rewrite Hf. apply drop_app_length'. rewrite length_take, length_fmap. lia.
  - rewrite take_app_length' by (rewrite length_take; lia). by rewrite app_nil_r.
  - apply drop_app_length'. rewrite length_take. lia.
  - rewrite <-(length_fmap fst xs'), Hf, length_app, length_take, length_drop, length_fmap. lia.
Qed.

(** A part of the node: the strings at [k, .., k + m - 1]. *)
Lemma del_part_upd h q xs sss i p d ss off k (m : nat) :
  qrep h q xs sss → xs !! i = Some (p, d) → sss !! i = Some ss → norm ss off = Some k →
  (0 < m)%nat → (k + m ≤ length ss)%nat →
  ∃ h1 h2 d2, quicklistDecompressNodeForUse h (Some p) = Some h1 ∧
    updM h1 p (λ d, d ← change_zl (λ b, ziplistDeleteRange b off (uwrap 32 (Z.of_nat m))) d; add_count (- Z.of_nat m) d) = Some h2 ∧
    node_ok d2 (cut k m ss) ∧ count d2 = zlen (cut k m ss) ∧ linked h2 q (<[i := (p, d2)]> xs) ∧
    (plain xs → raw d2 ∧ recompress d2 = false).
Proof.
  intros Hq Hi Hss Hn Hm Hkm. pose proof (lookup_lt_Some _ _ _ Hi) as Hlt.
  destruct (qrep_node _ _ _ _ _ _ _ Hq Hi) as (ss0 & Hss0 & Hd & Hc & _ & Hrs). rewrite Hss in Hss0. injection Hss0 as <-.
  destruct (for_use_at h q xs sss i p d Hq Hi) as (h1 & d1 & Hu1 & Hr & Hq1 & Hid & Hc1 & _).
  set (xs1 := <[i := (p, d1)]> xs) in *.
  assert (xs1 !! i = Some (p, d1)) as Hi1 by (by apply list_lookup_insert_eq).
  destruct (qrep_node _ _ _ _ _ _ _ Hq1 Hi1) as (ss0 & Hss0 & Hd1 & _). rewrite Hss in Hss0. injection Hss0 as <-.
  destruct (raw_block d1 ss Hd1 Hr) as (b & Hz & Hb & _). pose proof (room_small _ Hrs) as Hsm.
  destruct (zdelete_range_ok b ss off (uwrap 32 (Z.of_nat m)) Hb Hrs) as (b' & Hdel & Hb').
  rewrite Hn, uwrap_id, Nat2Z.id, drop_drop in Hb' by (unfold in_u, zlen in *; lia). fold (cut k m ss) in Hb'.
  pose proof (cut_length k m ss Hkm) as Hcl. destruct Hd as [Hmax Hwf _].
  set (d2 := changed d1 b' (zlen (cut k m ss))).
  pose proof (q_linked _ _ _ _ Hq1) as Hl1.
  destruct (updM_at h1 xs1 i p d1 (λ d, d ← change_zl (λ b, ziplistDeleteRange b off (uwrap 32 (Z.of_nat m))) d;
    add_count (- Z.of_nat m) d) d2 (l_seg _ _ _ Hl1) (l_nodup _ _ _ Hl1) Hi1) as (h2 & Hu2 & Hs2 & _).
  { rewrite (change_zl_ok d1 ss _ b' (cut k m ss) Hd1 Hr); [|by intros ? [= <-]%(eq_trans (eq_sym Hz))|done]. simpl.
    unfold add_count, set_count, d2, changed. simpl. do 2 f_equal. rewrite Hc1, Hc, Hcl.
    rewrite uwrap_id; [lia|]. unfold in_u, zlen in *. lia. }
  exists h1, h2, d2. split; [done|]. split; [done|]. split; [|split; [done|split]].
  - apply changed_ok; [done|done|lia|by apply cut_wf].
  - pose proof (linked_set _ _ _ _ _ _ _ _ Hl1 Hi1 Hs2) as Hl2. unfold xs1 in Hl2. by rewrite list_insert_insert_eq in Hl2.
  - intros Hp. destruct (plain_lookup _ _ _ _ Hp Hi) as [Hraw Hrec]. split; [done|]. simpl.
    by rewrite (for_use_raw d d1 xs i p Hi (Hid Hraw)).
Qed.

(** Its last string included: the node goes. *)
Lemma del_part_all h h2 q xs sss i p d d2 ss (m : nat) :
  qrep h q xs sss → xs !! i = Some (p, d) → sss !! i = Some ss → linked h2 q (<[i := (p, d2)]> xs) →
  count d2 = 0 → Z.of_nat m = zlen ss → (plain xs → raw d2 ∧ recompress d2 = false) →
  ∃ q' h' xs' sss', __quicklistDelNode (set_qcount q (qcount q - Z.of_nat m)) h2 p = Some (q', h') ∧
    trimmed xs sss i q q' h' xs' sss' i [].
Proof.
  intros Hq Hi Hss Hl2 Hc2 Hm Hpl. pose proof (lookup_lt_Some _ _ _ Hi) as Hlt. pose proof (qrep_length _ _ _ _ Hq) as Hlen.
  destruct (remove_node h q h2 (set_qcount q (qcount q - Z.of_nat m)) xs sss i p d d2 ss Hq Hi Hss)
    as (q' & h' & xs' & Hrun & Hb3 & Hqc3 & Ho & Hf & Hp); [by destruct Hl2|done|done|].
  pose proof (without_concat sss i ss Hss) as Hwc.
  exists q', h', xs', (take i sss ++ drop (S i) sss). split; [done|]. split; try done.
  - apply rep_count; [done|]. pose proof (qrep_small _ _ _ _ Hq). rewrite Hqc3, Hwc, Hc2, Z.sub_0_r. simpl.
    rewrite (q_count _ _ _ _ Hq), Hm, <-Hwc. zlen_pos. rewrite !uwrap_id; [done|unfold in_u; lia|].
    rewrite uwrap_id; unfold in_u; lia.
  - rewrite Hf. apply drop_app_length'. rewrite length_take, length_fmap. lia.
  - rewrite take_app_length' by (rewrite length_take; lia). by rewrite app_nil_r.
  - apply drop_app_length'. rewrite length_take. lia.
  - rewrite <-(length_fmap fst xs'), Hf, length_app, length_take, length_drop, length_fmap. lia.
  - intros Hc0 Hp0. apply Hp; [done|]. apply Forall_insert; [done|]. by apply Hpl.
Qed.

Lemma del_part h q xs sss i p d ss off k (m : nat) :
  qrep h q xs sss → xs !! i = Some (p, d) → sss !! i = Some ss → norm ss off = Some k →
  (0 < m)%nat → (k + m ≤ length ss)%nat →
  ∃ q' h' xs' sss' j,
    (h ← quicklistDecompressNodeForUse h (Some p);
     h ← updM h p (λ d, d ← change_zl (λ b, ziplistDeleteRange b off (uwrap 32 (Z.of_nat m))) d; add_count (- Z.of_nat m) d);
     d ← node_at h p;
     if count d =? 0 then __quicklistDelNode (set_qcount q (qcount q - Z.of_nat m)) h p
     else h ← quicklistRecompressOnly h p; Some (set_qcount q (qcount q - Z.of_nat m), h)) = Some (q', h') ∧
    trimmed xs sss i q q' h' xs' sss' j (cut k m ss).
Proof.
  intros Hq Hi Hss Hn Hm Hkm. pose proof (lookup_lt_Some _ _ _ Hi) as Hlt.
  destruct (del_part_upd h q xs sss i p d ss off k m Hq Hi Hss Hn Hm Hkm) as (h1 & h2 & d2 & -> & Hu & Hd2 & Hc2 & Hl2 & Hpl).
  cbn [mbind option_bind]. rewrite Hu. cbn [mbind option_bind]. cbv zeta. unfold node_at.
  assert ((<[i := (p, d2)]> xs) !! i = Some (p, d2)) as Hi2 by (by apply list_lookup_insert_eq).
  rewrite (seg_lookup _ _ _ _ _ (l_seg _ _ _ Hl2) Hi2). cbn [fmap option_fmap option_map mbind option_bind value].
  pose proof (cut_length k m ss Hkm) as Hcl. pose proof (qrep_length _ _ _ _ Hq) as Hlen.
  destruct (Z.eqb_spec (count d2) 0) as [E|E].
  { rewrite Hc2 in E. assert (cut k m ss = []) as -> by (destruct (cut k m ss); [done|unfold zlen in E; simpl in E; lia]).
    destruct (del_part_all h h2 q xs sss i p d d2 ss m Hq Hi Hss Hl2) as (q' & h' & xs' & sss' & ? & ?); [lia|lia|done|].
    by exists q', h', xs', sss', i. }
  rewrite Hc2 in E. assert (cut k m ss ≠ []) as Hne by (intros Hn0; rewrite Hn0 in E; done).
  assert (zlen (concat (<[i := cut k m ss]> sss)) = qcount q - Z.of_nat m) as Hzc.
  { rewrite concat_insert by lia. rewrite (q_count _ _ _ _ Hq), (qconcat_split sss i ss Hss). zl. }
  assert (qrep h2 (set_qcount q (qcount q - Z.of_nat m)) (<[i := (p, d2)]> xs) (<[i := cut k m ss]> sss)) as Hq2.
  { rewrite <-Hzc. eapply qrep_set; [exact Hq|exact Hi|by destruct Hl2|done|done|done|].
    pose proof (q_room _ _ _ _ Hq) as Hroom. unfold room in *. rewrite concat_insert by lia.
    rewrite (qconcat_split sss i ss Hss) in Hroom. rewrite !budget_app in *. pose proof (cut_budget k m ss). lia. }
  destruct (recompressOnly_ok h2 _ _ _ p i d2 (q_linked _ _ _ _ Hq2) (q_ok _ _ _ _ Hq2) Hi2) as (h3 & xs3 & -> & Hst & Hno).
  cbn [mbind option_bind]. exists (set_qcount q (qcount q - Z.of_nat m)), h3, xs3, (<[i := cut k m ss]> sss), (S i).
  split; [done|]. rewrite insert_take_drop by lia. split; try done.
  - rewrite <-insert_take_drop by lia. by eapply qrep_stage.
  - rewrite (st_fst _ _ _ _ _ Hst). by rewrite (insert_fst xs i p d).
  - rewrite bool_decide_eq_false_2 by done. rewrite (cons_middle (cut k m ss)), app_assoc.
    apply take_app_length'. rewrite length_app, length_take. simpl. lia.
  - rewrite (cons_middle (cut k m ss)), app_assoc. apply drop_app_length'. rewrite length_app, length_take. simpl. lia.
  - rewrite (stage_length _ _ _ _ _ Hst), length_insert. lia.
  - intros Hc0 Hp. destruct (Hpl Hp) as [??]. destruct Hno as [_ ->]; [done|]. by apply Forall_insert.
Qed.

(** ** The loop *)
Lemma trimmed_concat xs sss i q q' h' xs' sss' j ss' :
  trimmed xs sss i q q' h' xs' sss' j ss' → concat (take j sss') = concat (take i sss) ++ ss'.
Proof.
  intros [_ _ -> _ _ _ _]. rewrite concat_app. f_equal. destruct (bool_decide_reflect (ss' = [])) as [-> |]; [done|].
  simpl. by rewrite app_nil_r.
Qed.

(** What one round takes from a node of [c] strings. *)
Definition round (c off extent : Z) : bool * Z :=
  if (off =? 0) && (extent >=? c) then (true, c)
  else if (off >=? 0) && (extent >=? c) then (false, uwrap 64 (c - off))
  else if off <? 0 then (false, if uwrap 64 (- off) >? extent then extent else uwrap 64 (- off))
  else (false, extent).

Lemma step_whole h q xs sss i p d ss off E :
  qrep h q xs sss → xs !! i = Some (p, d) → sss !! i = Some ss → E ≠ 0 → round (zlen ss) off E = (true, zlen ss) →
  ∃ q' h' xs' sss', del_range_body (q, h, Some p, off, E) =
      Some (inl (q', h', fst <$> xs' !! i, 0, uwrap 64 (E - zlen ss))) ∧
    trimmed xs sss i q q' h' xs' sss' i [].
Proof.
  intros Hq Hi Hss HE Hround. destruct (count_at _ _ _ _ _ _ _ _ Hq Hi Hss) as [Hn Hc].
  unfold del_range_body. rewrite (proj2 (Z.eqb_neq E 0) HE). cbn [mbind option_bind]. rewrite Hn. cbn [mbind option_bind value next].
  fold (round (count d) off E). rewrite Hc, Hround.
  destruct (del_whole h q xs sss i p d ss Hq Hi Hss) as (q' & h' & xs' & sss' & -> & Ht). cbn [mbind option_bind].
  exists q', h', xs', sss'. split; [|done]. pose proof (drop_ptr xs' xs i (S i) 0 (t_ptrs _ _ _ _ _ _ _ _ _ _ Ht)) as Hptr.
  rewrite !Nat.add_0_r in Hptr. by rewrite Hptr.
Qed.

Lemma step_part h q xs sss i p d ss off E k (m : nat) :
  qrep h q xs sss → xs !! i = Some (p, d) → sss !! i = Some ss → E ≠ 0 →
  round (zlen ss) off E = (false, Z.of_nat m) → norm ss off = Some k → (0 < m)%nat → (k + m ≤ length ss)%nat →
  ∃ q' h' xs' sss' j, del_range_body (q, h, Some p, off, E) =
      Some (inl (q', h', fst <$> xs' !! j, 0, uwrap 64 (E - Z.of_nat m))) ∧
    trimmed xs sss i q q' h' xs' sss' j (cut k m ss).
Proof.
  intros Hq Hi Hss HE Hround Hk Hm Hkm. destruct (count_at _ _ _ _ _ _ _ _ Hq Hi Hss) as [Hn Hc].
  unfold del_range_body. rewrite (proj2 (Z.eqb_neq E 0) HE). cbn [mbind option_bind]. rewrite Hn. cbn [mbind option_bind value next].
  fold (round (count d) off E). rewrite Hc, Hround.
  destruct (del_part h q xs sss i p d ss off k m Hq Hi Hss Hk Hm Hkm) as (q' & h' & xs' & sss' & j & -> & Ht).
  cbn [mbind option_bind]. exists q', h', xs', sss', j. split; [|done].
  pose proof (drop_ptr xs' xs j (S i) 0 (t_ptrs _ _ _ _ _ _ _ _ _ _ Ht)) as Hptr.
  rewrite !Nat.add_0_r in Hptr. by rewrite Hptr.
Qed.

Lemma loop_done q h node off fuel : loop (S fuel) del_range_body (q, h, node, off, 0) = Some (q, h).
Proof. done. Qed.

(** The rest of the loop, at the start of a node. *)
Lemma del_rest fuel : ∀ q h xs sss i (E : nat),
  qrep h q xs sss → (E ≤ length (concat (drop i sss)))%nat → (length xs - i < fuel)%nat →
  ∃ q' h' xs' sss', loop fuel del_range_body (q, h, fst <$> xs !! i, 0, Z.of_nat E) = Some (q', h') ∧
    qrep h' q' xs' sss' ∧ concat sss' = concat (take i sss) ++ drop E (concat (drop i sss)) ∧
    same_opts q q' ∧ (compress q = 0 → plain xs → plain xs').
Proof.
  induction fuel as [|fuel IH]; intros q h xs sss i E Hq HE Hf; [lia|].
  destruct (decide (E = 0%nat)) as [-> |HE0].
  { rewrite loop_done. exists q, h, xs, sss. split_and!; try done. by rewrite drop_0, <-concat_app, take_drop. }
  pose proof (qrep_length _ _ _ _ Hq) as Hlen. destruct (lookup_lt_is_Some_2 sss i) as [ss Hss].
  { destruct (decide (i < length sss)%nat); [done|]. rewrite drop_ge in HE by lia. simpl in HE. lia. }
  destruct (lookup_lt_is_Some_2 xs i) as [[p d] Hi]; [apply lookup_lt_Some in Hss; lia|].
  pose proof (lookup_lt_Some _ _ _ Hi) as Hlt. pose proof (qrep_small _ _ _ _ Hq) as Hsm.
  rewrite (qconcat_split sss i ss Hss) in Hsm. unfold zlen in Hsm. rewrite !length_app in Hsm.
  rewrite (drop_S sss ss i Hss) in HE |- *. simpl concat in HE |- *. rewrite length_app in HE. rewrite loop_S, Hi. simpl fmap.
  destruct (Z.geb_spec (Z.of_nat E) (zlen ss)) as [Hge|Hge]; unfold zlen in Hge.
  - destruct (step_whole h q xs sss i p d ss 0 (Z.of_nat E) Hq Hi Hss) as (q1 & h1 & xs1 & sss1 & -> & Ht).
    { lia. } { unfold round, zlen. simpl. destruct (Z.geb_spec (Z.of_nat E) (Z.of_nat (length ss))); [done|lia]. }
    cbn [mbind option_bind]. pose proof (trimmed_concat _ _ _ _ _ _ _ _ _ _ Ht) as Hcat.
    destruct Ht as [Hq1 _ _ Hb1 Hs1 [Hfi Hco] Hpl1].
    assert (uwrap 64 (Z.of_nat E - zlen ss) = Z.of_nat (E - length ss)) as ->.
    { rewrite uwrap_id; unfold in_u, zlen; lia. }
    destruct (IH q1 h1 xs1 sss1 i (E - length ss)%nat Hq1) as (q' & h' & xs' & sss' & Hrun & Hq' & Hcat' & [Hfi' Hco'] & Hpl');
      [rewrite Hb1; lia|lia|].
    exists q', h', xs', sss'. split; [done|]. split; [done|]. split; [|split].
    + rewrite Hcat', Hcat, Hb1, app_nil_r. by rewrite drop_app_ge by lia.
    + split; congruence.
    + intros Hc0 Hp. apply Hpl'; [congruence|auto].
  - destruct (step_part h q xs sss i p d ss 0 (Z.of_nat E) 0 E Hq Hi Hss) as (q1 & h1 & xs1 & sss1 & j & -> & Ht).
    { lia. } { unfold round, zlen. simpl. destruct (Z.geb_spec (Z.of_nat E) (Z.of_nat (length ss))); [lia|done]. }
    { change 0 with (Z.of_nat 0). by rewrite norm_of_nat, decide_True by lia. } { lia. } { lia. }
    cbn [mbind option_bind]. rewrite Z.sub_diag. destruct fuel as [|fuel]; [lia|]. change (uwrap 64 0) with 0. rewrite loop_done.
    pose proof (trimmed_concat _ _ _ _ _ _ _ _ _ _ Ht) as Hcat. destruct Ht as [Hq1 _ _ Hb1 _ Ho Hpl].
    exists q1, h1, xs1, sss1. split_and!; try done; try apply Ho.
    rewrite <-(take_drop j sss1), concat_app, Hcat, Hb1. unfold cut. simpl.
    rewrite (drop_app_le ss) by lia. by rewrite <-app_assoc.
Qed.

(** The first round, from string [k] of node [i]: it takes what the range has in
    this node.  For an offset above 0 this is only so if the range ends in the
    node or has at least as many strings as the node. *)
Definition safe_offset (c off E : Z) : Prop := off ≤ 0 ∨ c ≤ E ∨ off + E ≤ c.

Lemma round_takes c off E k :
  0 < E → 0 ≤ k < c → c < 2 ^ 28 → (off = k ∨ off = k - c) → safe_offset c off E →
  round c off E = (true, c) ∧ k = 0 ∧ c ≤ E ∨ round c off E = (false, Z.min E (c - k)).
Proof.
  intros HE Hk Hc Hoff Hsafe. unfold round, safe_offset in *.
  destruct (Z.eqb_spec off 0), (Z.geb_spec E c), (Z.geb_spec off 0), (Z.ltb_spec off 0); cbn [andb]; try lia;
    try (left; split; [done|lia]); right; f_equal; rewrite ?uwrap_id by (unfold in_u; lia); try lia.
  all: destruct (Z.gtb_spec (- off) E); lia.
Qed.

Lemma del_loop_ok h q xs sss i p d ss off k (E : nat) :
  qrep h q xs sss → xs !! i = Some (p, d) → sss !! i = Some ss → (k < length ss)%nat → (0 < E)%nat →
  (E ≤ length (drop k ss) + length (concat (drop (S i) sss)))%nat →
  (off = Z.of_nat k ∨ off = Z.of_nat k - zlen ss) → safe_offset (zlen ss) off (Z.of_nat E) →
  ∃ q' h' xs' sss', loop (S (S (length xs))) del_range_body (q, h, Some p, off, Z.of_nat E) = Some (q', h') ∧
    qrep h' q' xs' sss' ∧
    concat sss' = concat (take i sss) ++ take k ss ++ drop E (drop k ss ++ concat (drop (S i) sss)) ∧
    same_opts q q' ∧ (compress q = 0 → plain xs → plain xs').
Proof.
  intros Hq Hi Hss Hk HE0 HE Hoff Hsafe. pose proof (qrep_small _ _ _ _ Hq) as Hsm.
  assert (zlen ss ≤ zlen (concat sss)) as Hsub by (rewrite (qconcat_split sss i ss Hss); zl).
  pose proof (lookup_lt_Some _ _ _ Hi) as Hlt. rewrite length_drop in HE.
  destruct (round_takes (zlen ss) off (Z.of_nat E) (Z.of_nat k)) as [(Hr & Hk0 & Hge)|Hr];
    [lia|unfold zlen; lia|lia|done|done|..].
  - (* the whole node *)
    assert (k = 0%nat) as -> by lia. rewrite (loop_S (S (length xs))).
    destruct (step_whole h q xs sss i p d ss off (Z.of_nat E) Hq Hi Hss) as (q1 & h1 & xs1 & sss1 & -> & Ht); [lia|done|].
    cbn [mbind option_bind]. pose proof (trimmed_concat _ _ _ _ _ _ _ _ _ _ Ht) as Hcat.
    destruct Ht as [Hq1 _ _ Hb1 Hs1 [Hfi Hco] Hpl1]. unfold zlen in Hge.
    assert (uwrap 64 (Z.of_nat E - zlen ss) = Z.of_nat (E - length ss)) as ->.
    { rewrite uwrap_id; unfold in_u, zlen in *; [lia|]. rewrite (qconcat_split sss i ss Hss), !length_app in Hsm. lia. }
    destruct (del_rest (S (length xs)) q1 h1 xs1 sss1 i (E - length ss) Hq1)
      as (q' & h' & xs' & sss' & Hrun & Hq' & Hcat' & [Hfi' Hco'] & Hpl'); [rewrite Hb1; lia|lia|].
    exists q', h', xs', sss'. split; [done|]. split; [done|]. split; [|split; [split; congruence|]].
    + rewrite Hcat', Hcat, Hb1, app_nil_r, take_0, drop_0, drop_app_ge by lia. done.
    + intros Hc0 Hp. apply Hpl'; [congruence|auto].
  - (* a part of it *)
    set (m := (E `min` (length ss - k))%nat). assert (Z.min (Z.of_nat E) (zlen ss - Z.of_nat k) = Z.of_nat m) as Hm
      by (unfold m, zlen; lia). rewrite Hm in Hr. rewrite (loop_S (S (length xs))).
    pose proof (norm_either ss off k Hk Hoff) as Hn.
    destruct (step_part h q xs sss i p d ss off (Z.of_nat E) k m Hq Hi Hss) as (q1 & h1 & xs1 & sss1 & j & -> & Ht);
      [lia|done|done|unfold m; lia|unfold m; lia|].
    cbn [mbind option_bind]. pose proof (trimmed_concat _ _ _ _ _ _ _ _ _ _ Ht) as Hcat.
    destruct Ht as [Hq1 _ _ Hb1 Hs1 [Hfi Hco] Hpl1].
    assert (uwrap 64 (Z.of_nat E - Z.of_nat m) = Z.of_nat (E - m)) as ->.
    { rewrite uwrap_id; unfold in_u, zlen in *; [lia|]. rewrite (qconcat_split sss i ss Hss), !length_app in Hsm. lia. }
    destruct (del_rest (S (length xs)) q1 h1 xs1 sss1 j (E - m) Hq1)
      as (q' & h' & xs' & sss' & Hrun & Hq' & Hcat' & [Hfi' Hco'] & Hpl'); [rewrite Hb1; unfold m; lia|lia|].
    exists q', h', xs', sss'. split; [done|]. split; [done|]. split; [|split; [split; congruence|]].
    + rewrite Hcat', Hcat, Hb1. unfold cut. rewrite <-!app_assoc, <-drop_drop. do 2 f_equal.
      rewrite drop_app. rewrite length_drop. destruct (decide (E ≤ length ss - k)%nat).
      * replace m with E by (unfold m; lia). rewrite Nat.sub_diag, drop_0.
        by replace (E - (length ss - k))%nat with 0%nat by lia.
      * replace m with (length ss - k)%nat by (unfold m; lia).
        rewrite !(drop_ge (drop k ss)) by (rewrite length_drop; lia). done.
    + intros Hc0 Hp. apply Hpl'; [congruence|auto].
Qed.

Lemma extent_ok n start cnt j :
  0 < cnt < 2 ^ 63 → - 2 ^ 63 ≤ start < 2 ^ 63 → 0 ≤ n < 2 ^ 28 → 0 ≤ j < n →
  (j = start ∨ start < 0 ∧ j = n + start) →
  (if (start >=? 0) && (cnt >? uwrap 64 (n - start)) then uwrap 64 (n - start)
   else if (start <? 0) && (cnt >? uwrap 64 (- start)) then uwrap 64 (- start) else cnt) = Z.min cnt (n - j).
Proof.
  intros Hc Hs Hn Hj Hjs. destruct (Z.geb_spec start 0), (Z.ltb_spec start 0); cbn [andb]; try lia;
    rewrite !uwrap_id by (unfold in_u; lia);
    [destruct (Z.gtb_spec cnt (n - start))|destruct (Z.gtb_spec cnt (- start))]; lia.
Qed.

Lemma norm_cases (l : list bytes) i j :
  norm l i = Some j → (j < length l)%nat ∧ (Z.of_nat j = i ∨ i < 0 ∧ Z.of_nat j = zlen l + i).
Proof.
  unfold norm, zlen. destruct (Z.ltb_spec i 0).
  - destruct (Z.leb_spec 0 (Z.of_nat (length l) + i)); [|done].
    destruct (Z.ltb_spec (Z.of_nat (length l) + i) (Z.of_nat (length l))); [|done]. simpl. intros [= <-]. lia.
  - destruct (Z.leb_spec 0 i); [|done]. destruct (Z.ltb_spec i (Z.of_nat (length l))); [|done]. simpl. intros [= <-]. lia.
Qed.

Lemma range_concat (sss : list (list bytes)) i (ss : list bytes) k j E :
  sss !! i = Some ss → (k ≤ length ss)%nat → Z.of_nat j = upto i sss + Z.of_nat k →
  concat (take i sss) ++ take k ss ++ drop E (drop k ss ++ concat (drop (S i) sss)) = cut j E (concat sss).
Proof.
  intros Hi Hk Hj. unfold upto, zlen in Hj. assert (j = length (concat (take i sss)) + k)%nat as -> by lia.
  rewrite (qconcat_split sss i ss Hi). unfold cut. rewrite <-drop_drop, take_app_add, drop_app_add.
  by rewrite take_app_le, (drop_app_le ss), app_assoc by lia.
Qed.

Lemma cut_min {A} (l : list A) j (n : Z) :
  0 ≤ n → cut j (Z.to_nat (Z.min n (zlen l - Z.of_nat j))) l = cut j (Z.to_nat n) l.
Proof.
  intros Hn. unfold cut, zlen. f_equal. destruct (decide (Z.to_nat n ≤ length l - j)%nat).
  - do 2 f_equal. lia.
  - by rewrite !drop_ge by lia.
Qed.

Lemma delRange_ok h q xs sss start cnt :
  qrep h q xs sss → - 2 ^ 63 ≤ start ≤ 0 → 0 < cnt < 2 ^ 63 →
  match norm (concat sss) start with
  | Some j => ∃ q' h' xs' sss', quicklistDelRange q h start cnt = Some (q', h', true) ∧ qrep h' q' xs' sss' ∧
      concat sss' = cut j (Z.to_nat cnt) (concat sss) ∧ same_opts q q' ∧ (compress q = 0 → plain xs → plain xs')
  | None => quicklistDelRange q h start cnt = Some (q, h, false)
  end.
Proof.
  intros Hq Hs Hc. unfold quicklistDelRange. destruct (Z.leb_spec cnt 0); [lia|].
  pose proof (qindex_ok h q xs sss start Hq ltac:(lia)) as Hix. pose proof (qrep_small _ _ _ _ Hq) as Hsm.
  destruct (norm (concat sss) start) as [j|] eqn:Hn; [|by rewrite Hix].
  apply norm_cases in Hn as [Hj Hjs]. rewrite (q_count _ _ _ _ Hq). zlen_pos.
  rewrite (extent_ok (zlen (concat sss)) start cnt (Z.of_nat j)); [|lia|lia|lia|unfold zlen; lia|done].
  destruct Hix as (h1 & xs1 & e & i & k & ss & s & -> & Hq1 & Hid & [Hat] & Hss & Hs0 & Hjk & Hoff & _).
  destruct Hat as (p & d & b & z & ss' & s' & Hi & _ & _ & _ & _ & _ & Hen & _ & _).
  pose proof (lookup_lt_Some _ _ _ Hs0) as Hk. cbn [mbind option_bind]. rewrite Hen, (q_len _ _ _ _ Hq).
  pose proof (qrep_length _ _ _ _ Hq1). pose proof (qrep_length _ _ _ _ Hq).
  replace (Z.to_nat (zlen xs)) with (length xs1) by (unfold zlen; lia).
  set (E := Z.to_nat (Z.min cnt (zlen (concat sss) - Z.of_nat j))).
  replace (Z.min cnt (zlen (concat sss) - Z.of_nat j)) with (Z.of_nat E) by (unfold E, zlen in *; lia).
  pose proof (qconcat_split sss i ss Hss) as Hcs. unfold upto, zlen in Hjk. pose proof (f_equal length Hcs) as Hcl.
  rewrite !length_app in Hcl.
  destruct (del_loop_ok h1 q xs1 sss i p d ss (e_offset e) k E Hq1 Hi Hss Hk) as (q' & h' & xs' & sss' & -> & Hq' & Hcat & Ho & Hp).
  { unfold E, zlen in *. lia. } { rewrite length_drop. unfold E, zlen in *. lia. }
  { rewrite Hoff. destruct (start <? 0); [by right|by left]. }
  { left. rewrite Hoff. destruct (Z.ltb_spec start 0); unfold zlen; lia. }
  cbn [mbind option_bind]. exists q', h', xs', sss'. split; [done|]. split; [done|]. split; [|split; [done|]].
  - rewrite Hcat, (range_concat sss i ss k j E Hss) by (unfold upto, zlen; lia). unfold E. apply cut_min. lia.
  - intros Hz Hpl. apply Hp; [done|]. by rewrite (Hid Hz) by (by apply plain_ends).
Qed.

(** C33: Deleting a range that starts at the head or at an index from the tail, as LTRIM
    does, removes exactly the strings of the range, over as many nodes as it
    spans, for every fill factor and compression depth; a start outside of the list
    changes nothing. *)
Theorem quicklistDelRange_correct h q xs sss start cnt :
  qrep h q xs sss → - 2 ^ 63 ≤ start ≤ 0 → 0 < cnt < 2 ^ 63 →
  match norm (concat sss) start with
  | Some j => ∃ q' h' xs' sss', quicklistDelRange q h start cnt = Some (q', h', true) ∧ qrep h' q' xs' sss' ∧
      concat sss' = cut j (Z.to_nat cnt) (concat sss)
  | None => quicklistDelRange q h start cnt = Some (q, h, false)
  end.
Proof.
  intros Hq Hs Hc. pose proof (delRange_ok h q xs sss start cnt Hq Hs Hc) as Hx.
  destruct (norm (concat sss) start); [|done]. destruct Hx as (q' & h' & xs' & sss' & ? & ? & ? & _).
  by exists q', h', xs', sss'.
Qed.
End Range.

Section Witness.
#[local] Existing Instance junk0.
#[local] Existing Instance demo_lzf.

Lemma quicklistDelRange_correct_witness :
  ∃ q h q' h' xs' sss', deque_run demo_pushes (quicklistNew 2 1) (Heap ∅ []) = Some (q, h, []) ∧
    quicklistDelRange q h (-2) 7 = Some (q', h', true) ∧ qrep h' q' xs' sss' ∧ concat sss' = [[97]].
Proof.
  destruct demo_pushed as (q & h & xs & sss & Hrun & Hq & Hl).
  pose proof (quicklistDelRange_correct h q xs sss (-2) 7 Hq) as Hx. rewrite Hl in Hx.
  destruct Hx as (q' & h' & xs' & sss' & Hdel & Hq' & Hc); [lia|lia|].
  exists q, h, q', h', xs', sss'. exact (conj Hrun (conj Hdel (conj Hq' Hc))).
Defined.
End Witness.
