(* ===== verification/QuicklistIter.v ===== *)
(** * Iteration

    [quicklistNext] visits the strings from either end.  A node is decompressed
    when the iterator enters it and compressed again when it leaves it; the strings
    stay the same. *)

From S2P Require Import Prelude.
From S2P Require Import Mem.
From S2P Require Import Util.
From S2P Require Import Ziplist.
From S2P Require Import ZiplistOps.
From S2P Require Import ZiplistSpec.
From S2P Require Import Packed.
From S2P Require Import Adlist.
From S2P Require Import AdlistSpec.
From S2P Require Import Quicklist.
From S2P Require Import QuicklistRepr.
From S2P Require Import QuicklistLinks.
From S2P Require Import QuicklistSpec.
From S2P Require Import QuicklistIndex.
From S2P Require Import QuicklistMerge.
From S2P Require Import QuicklistInsert.
From S2P Require Import QuicklistRange.
Import Ziplist Quicklist Packed.
Import Adlist(ptr, ListNode, nodes, prev, next, value, heap, Heap, set_node, zmalloc_node, deref,
  set_next, set_prev, zfree_node, freed, AL_START_HEAD, AL_START_TAIL).

Section Iter.
Context `{Alloc} `{CompressorOk}.

(** The strings in the order of a direction, and the place of string [k] of node
    [i] in it. *)
Definition in_order (dir : Adlist.direction) (l : list bytes) : list bytes :=
  match dir with AL_START_HEAD => l | AL_START_TAIL => reverse l end.

Definition place (dir : Adlist.direction) (sss : list (list bytes)) (i k : nat) : nat :=
  let j := (length (concat (take i sss)) + k)%nat in
  match dir with AL_START_HEAD => j | AL_START_TAIL => length (concat sss) - 1 - j end.

(** The place behind the strings of node [i]. *)
Definition past (dir : Adlist.direction) (sss : list (list bytes)) (i : nat) : nat :=
  match dir with
  | AL_START_HEAD => length (concat (take (S i) sss))
  | AL_START_TAIL => length (concat sss) - length (concat (take i sss))
  end.

Lemma flat_lookup (sss : list (list bytes)) i ss k :
  sss !! i = Some ss → (k < length ss)%nat →
  concat sss !! (length (concat (take i sss)) + k)%nat = ss !! k ∧
  (length (concat (take i sss)) + k < length (concat sss))%nat.
Proof.
  intros Hi Hk. rewrite (qconcat_split sss i ss Hi). split.
  - rewrite lookup_app_r by lia. rewrite Nat.add_comm, Nat.add_sub. by rewrite lookup_app_l.
  - rewrite !length_app. lia.
Qed.

Lemma place_lookup dir (sss : list (list bytes)) i ss k :
  sss !! i = Some ss → (k < length ss)%nat → in_order dir (concat sss) !! place dir sss i k = ss !! k.
Proof.
  intros Hi Hk. destruct (flat_lookup sss i ss k Hi Hk) as [<- Hlt]. unfold in_order, place. destruct dir; [done|].
  rewrite reverse_lookup by lia. f_equal. lia.
Qed.

(** Where an iterator is: the next string is the [t]-th one in its order. *)
Inductive iter_at (xs : cells) (sss : list (list bytes)) (iter : quicklistIter) : nat → Prop :=
  | at_end : current iter = None → iter_at xs sss iter (length (concat sss))
  | at_fresh i p d ss k : xs !! i = Some (p, d) → sss !! i = Some ss → (k < length ss)%nat →
      current iter = Some p → zi iter = None → norm ss (offset iter) = Some k →
      iter_at xs sss iter (place (direction iter) sss i k)
  | at_moved i p d b ss k z : xs !! i = Some (p, d) → sss !! i = Some ss → (k < length ss)%nat →
      current iter = Some p → raw d → zl d = Zl b → zi iter = Some z → zat b ss k z → norm ss (offset iter) = Some k →
      iter_at xs sss iter (S (place (direction iter) sss i k))
  | at_past i p d ss : xs !! i = Some (p, d) → sss !! i = Some ss → current iter = Some p → zi iter = None →
      norm ss (offset iter) = None → iter_at xs sss iter (past (direction iter) sss i).

(** The offset counts from the end the iterator started at. *)
Definition signed (iter : quicklistIter) : Prop :=
  match direction iter with AL_START_HEAD => 0 ≤ offset iter | AL_START_TAIL => offset iter < 0 end.

(** What a call gives: the [t]-th string, or nothing at the end. *)
Definition next_gives (q : quicklist) (xs : cells) (sss : list (list bytes)) (iter : quicklistIter) (t : nat)
    (r : option (heap qnode * quicklistIter * quicklistEntry * bool)) : Prop :=
  match in_order (direction iter) (concat sss) !! t with
  | Some s => ∃ h' xs' iter' e i k ss, r = Some (h', iter', e, true) ∧ qrep h' q xs' sss ∧
      iter_at xs' sss iter' (S t) ∧ direction iter' = direction iter ∧ (signed iter → signed iter') ∧
      entry_at xs' sss e i k ∧ t = place (direction iter) sss i k ∧ e_value e = Some (zval_of s) ∧
      sss !! i = Some ss ∧ ss !! k = Some s ∧ current iter' = e_node e ∧ norm ss (offset iter') = Some k ∧ e_offset e = offset iter' ∧
      (compress q = 0 → plain xs → plain xs')
  | None => ∃ h' xs' iter' e, r = Some (h', iter', e, false) ∧ qrep h' q xs' sss ∧ current iter' = None ∧
      (compress q = 0 → plain xs → plain xs')
  end.

Lemma next_gives_from q xs xs1 sss iter iter1 t r :
  direction iter1 = direction iter → signed iter1 → (compress q = 0 → plain xs → plain xs1) →
  next_gives q xs1 sss iter1 t r → next_gives q xs sss iter t r.
Proof.
  intros Hd Hs Hp Hg. unfold next_gives in *. rewrite Hd in Hg. destruct (in_order _ _ !! t) as [s|].
  - destruct Hg as (h' & xs' & iter' & e & i & k & ss & Hg). exists h', xs', iter', e, i, k, ss. naive_solver.
  - destruct Hg as (h' & xs' & iter' & e & Hg). exists h', xs', iter', e. naive_solver.
Qed.

Lemma in_order_length dir l : length (in_order dir l) = length l.
Proof. destruct dir; [done|]. apply length_reverse. Qed.

(** The end of the list. *)
Lemma qnext_none h q xs0 xs sss iter0 iter t fuel :
  qrep h q xs sss → (compress q = 0 → plain xs0 → plain xs) → current iter = None → t = length (concat sss) →
  next_gives q xs0 sss iter0 t (loop (S fuel) (next_body q) (h, iter)).
Proof.
  intros Hq Hp Hc ->. unfold next_gives. rewrite lookup_ge_None_2 by (rewrite in_order_length; lia).
  rewrite loop_S. simpl. rewrite Hc. simpl. by exists h, xs, iter, initEntry.
Qed.

(** A string of the current node is found. *)
Lemma next_found h q xs0 xs sss iter off i p d b ss k z :
  qrep h q xs sss → xs !! i = Some (p, d) → raw d → zl d = Zl b → sss !! i = Some ss → (k < length ss)%nat →
  zat b ss k z → norm ss off = Some k → in_s 32 off →
  (signed iter → match direction iter with AL_START_HEAD => 0 ≤ off | AL_START_TAIL => off < 0 end) →
  (compress q = 0 → plain xs0 → plain xs) →
  ∃ v, node_at h p = Some d ∧ zlof d = Some b ∧ ziplistGet b z = Some v ∧
    next_gives q xs0 sss iter (place (direction iter) sss i k)
      (Some (h, QuicklistIter (Some p) (Some z) off (direction iter), QuicklistEntry (Some p) (Some z) v (swrap 32 off), true)).
Proof.
  intros Hq Hi Hr Hz Hss Hk Hat Hn Hoff Hsg Hp. destruct (lookup_lt_is_Some_2 ss k Hk) as [s Hs].
  exists (Some (zval_of s)). split_and!.
  - unfold node_at. by rewrite (seg_lookup _ _ _ _ _ (l_seg _ _ _ (q_linked _ _ _ _ Hq)) Hi).
  - unfold zlof. by rewrite Hz.
  - by rewrite (zget_ok b ss k z Hat), Hs.
  - unfold next_gives. rewrite (place_lookup _ _ _ _ _ Hss Hk), Hs.
    exists h, xs, (QuicklistIter (Some p) (Some z) off (direction iter)). do 4 eexists. split; [done|].
    split; [done|]. split; [by eapply (at_moved xs sss (QuicklistIter (Some p) (Some z) off (direction iter)) i p d b ss k z)|].
    split; [done|]. split; [exact Hsg|]. split; [split; by exists p, d, b, z, ss, s|]. split_and!; try done.
    by apply swrap_id.
Qed.

(** The first call in a node. *)
Lemma next_fresh h q xs sss iter i p d ss k fuel :
  qrep h q xs sss → xs !! i = Some (p, d) → sss !! i = Some ss → (k < length ss)%nat →
  current iter = Some p → zi iter = None → norm ss (offset iter) = Some k →
  next_gives q xs sss iter (place (direction iter) sss i k) (loop (S fuel) (next_body q) (h, iter)).
Proof.
  intros Hq Hi Hss Hk Hc Hz Hn. rewrite loop_S.
  enough (∃ r, next_body q (h, iter) = Some (inr r) ∧
    next_gives q xs sss iter (place (direction iter) sss i k) (Some r)) as (r & -> & Hg) by exact Hg.
  unfold next_body. rewrite Hc, Hz.
  destruct (for_use_at h q xs sss i p d Hq Hi) as (h1 & d1 & -> & Hr & Hq1 & Hid & _). cbn [mbind option_bind].
  assert ((<[i := (p, d1)]> xs) !! i = Some (p, d1)) as Hi1 by (apply list_lookup_insert_eq; by eapply lookup_lt_Some).
  destruct (qrep_node _ _ _ _ _ _ _ Hq1 Hi1) as (ss0 & Hss0 & Hd1 & _ & _ & Hroom). rewrite Hss in Hss0. injection Hss0 as <-.
  destruct (raw_block d1 ss Hd1 Hr) as (b & Hzl & Hb & _). pose proof (room_small _ Hroom) as Hsm.
  pose proof (zindex_ok b ss (offset iter) Hb) as Hix. rewrite Hn in Hix. destruct Hix as (z & Hix & Hat).
  assert (in_s 32 (offset iter)) as Hoff.
  { destruct (norm_cases _ _ _ Hn) as [? ?]. unfold in_s, zlen in *. lia. }
  destruct (next_found h1 q xs _ sss iter (offset iter) i p d1 b ss k z Hq1 Hi1 Hr Hzl Hss Hk Hat Hn Hoff)
    as (v & Hnode & Hzo & Hget & Hgives); [done| |].
  { intros _ Hp. destruct (plain_lookup _ _ _ _ Hp Hi) as [Hraw _]. by rewrite (Hid Hraw). }
  rewrite Hnode. cbn [mbind option_bind]. rewrite Hzo. cbn [mbind option_bind]. rewrite Hix. cbn [mbind option_bind].
  rewrite Hnode. cbn [mbind option_bind]. rewrite Hzo. cbn [mbind option_bind]. rewrite Hget. cbn [mbind option_bind].
  eexists. split; [done|exact Hgives].
Qed.

(** The string after one in its node, or the first string of the node after. *)
Definition step_in (dir : Adlist.direction) (ss : list bytes) (k : nat) : option nat :=
  match dir with
  | AL_START_HEAD => if decide (S k < length ss)%nat then Some (S k) else None
  | AL_START_TAIL => match k with O => None | S k' => Some k' end
  end.

Definition step_out (dir : Adlist.direction) (i : nat) : option nat :=
  match dir with AL_START_HEAD => Some (S i) | AL_START_TAIL => match i with O => None | S i' => Some i' end end.

Definition enter (dir : Adlist.direction) (ss : list bytes) : nat :=
  match dir with AL_START_HEAD => 0%nat | AL_START_TAIL => pred (length ss) end.

Lemma enter_norm dir ss :
  (0 < length ss)%nat → norm ss (match dir with AL_START_HEAD => 0 | AL_START_TAIL => -1 end) = Some (enter dir ss).
Proof. intros Hs. apply norm_either; unfold enter, zlen; destruct dir; lia. Qed.

Lemma place_step_in dir sss i ss k k' :
  sss !! i = Some ss → (k < length ss)%nat → step_in dir ss k = Some k' →
  (k' < length ss)%nat ∧ place dir sss i k' = S (place dir sss i k).
Proof.
  intros Hi Hk Hs. destruct (flat_lookup sss i ss k Hi Hk) as [_ Hlt]. unfold step_in, place in *. destruct dir.
  - case_decide; simplify_eq. lia.
  - destruct k; simplify_eq. lia.
Qed.

Lemma take_S_length (sss : list (list bytes)) i ss :
  sss !! i = Some ss → length (concat (take (S i) sss)) = (length (concat (take i sss)) + length ss)%nat.
Proof. intros Hi. rewrite (take_S_r sss i ss Hi), concat_app, length_app. simpl. by rewrite app_nil_r. Qed.

Lemma place_past dir sss i ss k :
  sss !! i = Some ss → (k < length ss)%nat → step_in dir ss k = None → S (place dir sss i k) = past dir sss i.
Proof.
  intros Hi Hk Hs. destruct (flat_lookup sss i ss k Hi Hk) as [_ Hlt]. unfold step_in, past, place in *. destruct dir.
  - case_decide; [done|]. rewrite (take_S_length sss i ss Hi). lia.
  - destruct k; [|done]. lia.
Qed.

Lemma past_step_out dir sss i ss :
  sss !! i = Some ss → Forall (λ ss, ss ≠ []) sss →
  match step_out dir i ≫= λ i', (i',.) <$> sss !! i' with
  | Some (i', ss') => (enter dir ss' < length ss')%nat ∧ place dir sss i' (enter dir ss') = past dir sss i
  | None => past dir sss i = length (concat sss)
  end.
Proof.
  intros Hi Hne.
  assert (∀ i' ss', sss !! i' = Some ss' → (0 < length ss')%nat) as Hpos.
  { intros i' ss' Hi'. pose proof (Forall_lookup_1 _ _ _ _ Hne Hi'). destruct ss'; [done|simpl; lia]. }
  pose proof (Hpos _ _ Hi) as Hss. destruct (flat_lookup sss i ss 0 Hi Hss) as [_ Hlt].
  unfold step_out, past, place, enter in *. destruct dir; cbn [mbind option_bind].
  - destruct (sss !! S i) as [ss'|] eqn:E; simpl fmap; cbv iota.
    + pose proof (Hpos _ _ E). lia.
    + apply lookup_ge_None in E. by rewrite take_ge by lia.
  - destruct i as [|i]; cbn [mbind option_bind]; [simpl; lia|].
    destruct (lookup_lt_is_Some_2 sss i) as [ss' Hi']; [apply lookup_lt_Some in Hi; lia|]. rewrite Hi'. simpl fmap. cbv iota.
    pose proof (Hpos _ _ Hi'). rewrite (take_S_length sss i ss' Hi') in *. lia.
Qed.

(** A node is left: it is compressed again, and its neighbour is next. *)
Lemma leave_node h q xs sss i p d :
  qrep h q xs sss → xs !! i = Some (p, d) →
  ∃ h' xs' n, quicklistCompress q h p = Some h' ∧ qrep h' q xs' sss ∧ nodes h' !! p = Some n ∧
    (∀ dir, match dir with AL_START_HEAD => next n | AL_START_TAIL => prev n end =
      (step_out dir i ≫= λ i', fst <$> xs' !! i')) ∧ (compress q = 0 → plain xs → plain xs').
Proof.
  intros Hq Hi. destruct (quicklistCompress_ok h q xs sss p i d (q_linked _ _ _ _ Hq) (q_ok _ _ _ _ Hq)
    (proj1 (q_opts _ _ _ _ Hq)) ltac:(rewrite (q_len _ _ _ _ Hq); lia) Hi) as (h' & xs' & Hrun & Hst & Hpass).
  pose proof (qrep_stage _ _ _ _ _ _ Hq Hst) as Hq'. destruct (stage_lookup _ _ _ _ _ _ _ _ Hst Hi) as [d' Hi'].
  do 3 eexists. split; [done|]. split; [exact Hq'|].
  split; [apply (seg_lookup _ _ _ _ _ (l_seg _ _ _ (q_linked _ _ _ _ Hq')) Hi')|].
  split; [intros dir; simpl; destruct dir; [done|]; by destruct i|].
  intros Hz Hp. destruct (plain_lookup _ _ _ _ Hp Hi) as [_ Hre].
  destruct (Hpass Hre) as [[_ ->]|[? _]]; [done|lia].
Qed.

Lemma norm_step ss off k dir k' :
  norm ss off = Some k → (k < length ss)%nat → step_in dir ss k = Some k' →
  norm ss (off + match dir with AL_START_HEAD => 1 | AL_START_TAIL => -1 end) = Some k'.
Proof.
  intros Hn Hk Hs.
  apply norm_cases in Hn as [_ Hn]. unfold step_in in Hs. destruct dir.
  - case_decide; [|done]. injection Hs as <-. apply norm_either; [done|]. lia.
  - destruct k; [done|]. injection Hs as <-. apply norm_either; [lia|]. lia.
Qed.

Lemma zprev_ok b ss j z :
  zat b ss j z → (j < length ss)%nat →
  match j with
  | O => ziplistPrev b z = Some None
  | S i => ∃ z', ziplistPrev b z = Some (Some z') ∧ zat b ss i z'
  end.
Proof. exact (@packed_prev_ok bytes Z _ ziplist_packed_ok b ss j z). Qed.

Lemma zmove_ok b ss k z dir :
  zat b ss k z → (k < length ss)%nat →
  ∃ r, match dir with AL_START_HEAD => ziplistNext b z | AL_START_TAIL => ziplistPrev b z end = Some r ∧
    match step_in dir ss k with Some k' => ∃ z', r = Some z' ∧ zat b ss k' z' | None => r = None end.
Proof.
  intros Hat Hk. destruct dir; simpl.
  - pose proof (znext_ok b ss k z Hat) as Hn. case_decide; [destruct Hn as (z' & -> & ?)|rewrite Hn]; eauto.
  - pose proof (zprev_ok b ss k z Hat Hk) as Hn. destruct k; [rewrite Hn|destruct Hn as (z' & -> & ?)]; eauto.
Qed.

(** The node is left. *)
Lemma next_out h0 h q xs0 xs sss iter i p d ss fuel :
  qrep h q xs sss → xs !! i = Some (p, d) → sss !! i = Some ss → (compress q = 0 → plain xs0 → plain xs) →
  next_body q (h0, iter) =
    (h ← quicklistCompress q h p; n ← nodes h !! p;
     Some (inl (h, match direction iter with
                   | AL_START_HEAD => QuicklistIter (next n) None 0 AL_START_HEAD
                   | AL_START_TAIL => QuicklistIter (prev n) None (-1) AL_START_TAIL
                   end))) →
  next_gives q xs0 sss iter (past (direction iter) sss i) (loop (S (S fuel)) (next_body q) (h0, iter)).
Proof.
  intros Hq Hi Hss Hp0 Hbody. rewrite loop_S, Hbody.
  destruct (leave_node h q xs sss i p d Hq Hi) as (h1 & xs1 & n & -> & Hq1 & Hn1 & Hnext & Hpl). cbn [mbind option_bind].
  rewrite Hn1. cbn [mbind option_bind]. set (iter1 := match direction iter with AL_START_HEAD => _ | AL_START_TAIL => _ end).
  assert (iter1 = QuicklistIter (step_out (direction iter) i ≫= λ i', fst <$> xs1 !! i') None
      (match direction iter with AL_START_HEAD => 0 | AL_START_TAIL => -1 end) (direction iter)) as ->.
  { unfold iter1. rewrite <-Hnext. by destruct (direction iter). }
  set (iter1 := QuicklistIter _ _ _ _). pose proof (past_step_out (direction iter) _ _ _ Hss (q_ne _ _ _ _ Hq)) as Hout.
  pose proof (qrep_length _ _ _ _ Hq1) as Hlen1.
  destruct (step_out (direction iter) i) as [i'|]; cbn [mbind option_bind] in Hout.
  - destruct (sss !! i') as [ss'|] eqn:Hss'; simpl in Hout.
    + destruct Hout as [Hk' <-]. destruct (lookup_lt_is_Some_2 xs1 i') as [[p' d'] Hi']; [apply lookup_lt_Some in Hss'; lia|].
      apply (next_gives_from q xs0 xs1 sss iter iter1); [done|by unfold signed; simpl; destruct (direction iter)|by auto|].
      apply (next_fresh h1 q xs1 sss iter1 i' p' d' ss' _ fuel Hq1 Hi' Hss' Hk'); [simpl; by rewrite Hi'|done|].
      apply enter_norm. lia.
    + eapply qnext_none; [done|by auto| |done]. simpl. by rewrite lookup_ge_None_2 by (apply lookup_ge_None in Hss'; lia).
  - eapply qnext_none; [done|by auto|done|done].
Qed.

(** A later call in a node. *)
Lemma next_moved h q xs sss iter i p d b ss k z fuel :
  qrep h q xs sss → xs !! i = Some (p, d) → sss !! i = Some ss → (k < length ss)%nat →
  current iter = Some p → raw d → zl d = Zl b → zi iter = Some z → zat b ss k z → norm ss (offset iter) = Some k →
  next_gives q xs sss iter (S (place (direction iter) sss i k)) (loop (S (S fuel)) (next_body q) (h, iter)).
Proof.
  intros Hq Hi Hss Hk Hc Hr Hzl Hz Hat Hn.
  assert (node_at h p = Some d) as Hnode.
  { unfold node_at. by rewrite (seg_lookup _ _ _ _ _ (l_seg _ _ _ (q_linked _ _ _ _ Hq)) Hi). }
  assert (zlof d = Some b) as Hzo by (unfold zlof; by rewrite Hzl).
  destruct (zmove_ok b ss k z (direction iter) Hat Hk) as (r & Hmove & Hr').
  destruct (step_in (direction iter) ss k) as [k'|] eqn:Hst.
  - destruct Hr' as (z' & -> & Hat'). destruct (place_step_in _ _ _ _ _ _ Hss Hk Hst) as [Hk' <-].
    pose proof (norm_step _ _ _ _ _ Hn Hk Hst) as Hn'.
    set (off := offset iter + match direction iter with AL_START_HEAD => 1 | AL_START_TAIL => -1 end) in *.
    assert (in_s 32 off) as Hoff.
    { destruct (norm_cases _ _ _ Hn') as [? ?]. destruct (qrep_node _ _ _ _ _ _ _ Hq Hi) as (ss0 & Hss0 & _ & _ & _ & Hroom).
      rewrite Hss in Hss0. injection Hss0 as <-. pose proof (room_small _ Hroom). unfold in_s, zlen in *. lia. }
    destruct (next_found h q xs xs sss iter off i p d b ss k' z' Hq Hi Hr Hzl Hss Hk' Hat' Hn' Hoff) as (v & _ & _ & Hget & Hg);
      [unfold signed, off; destruct (direction iter); lia|done|].
    rewrite loop_S. assert (next_body q (h, iter) = Some (inr (h, QuicklistIter (Some p) (Some z') off (direction iter),
      QuicklistEntry (Some p) (Some z') v (swrap 32 off), true))) as ->; [|exact Hg].
    unfold next_body. rewrite Hc, Hz, Hnode. cbn [mbind option_bind]. rewrite Hzo. cbn [mbind option_bind].
    rewrite Hmove. cbn [mbind option_bind]. rewrite Hnode. cbn [mbind option_bind]. rewrite Hzo. cbn [mbind option_bind].
    rewrite Hget. by cbn [mbind option_bind].
  - subst r. rewrite (place_past _ _ _ _ _ Hss Hk Hst). eapply next_out; [done|done|done|done|].
    unfold next_body. rewrite Hc, Hz, Hnode. cbn [mbind option_bind]. rewrite Hzo. cbn [mbind option_bind].
    rewrite Hmove. done.
Qed.

(** The call after the last string of a node was deleted. *)
Lemma next_past h q xs sss iter i p d ss fuel :
  qrep h q xs sss → xs !! i = Some (p, d) → sss !! i = Some ss →
  current iter = Some p → zi iter = None → norm ss (offset iter) = None →
  next_gives q xs sss iter (past (direction iter) sss i) (loop (S (S fuel)) (next_body q) (h, iter)).
Proof.
  intros Hq Hi Hss Hc Hz Hn.
  destruct (for_use_at h q xs sss i p d Hq Hi) as (h1 & d1 & Hu & Hr & Hq1 & Hid & _).
  assert ((<[i := (p, d1)]> xs) !! i = Some (p, d1)) as Hi1 by (apply list_lookup_insert_eq; by eapply lookup_lt_Some).
  destruct (qrep_node _ _ _ _ _ _ _ Hq1 Hi1) as (ss0 & Hss0 & Hd1 & _). rewrite Hss in Hss0. injection Hss0 as <-.
  destruct (raw_block d1 ss Hd1 Hr) as (b & Hzl & Hb & _).
  pose proof (zindex_ok b ss (offset iter) Hb) as Hix. rewrite Hn in Hix.
  apply (next_out h h1 q xs _ sss iter i p d1 ss fuel Hq1 Hi1 Hss).
  { intros _ Hp. destruct (plain_lookup _ _ _ _ Hp Hi) as [Hraw _]. by rewrite (Hid Hraw). }
  assert (node_at h1 p = Some d1) as Hnode.
  { unfold node_at. by rewrite (seg_lookup _ _ _ _ _ (l_seg _ _ _ (q_linked _ _ _ _ Hq1)) Hi1). }
  assert (zlof d1 = Some b) as Hzo by (unfold zlof; by rewrite Hzl).
  unfold next_body. rewrite Hc, Hz, Hu. cbn [mbind option_bind]. rewrite Hnode. cbn [mbind option_bind]. rewrite Hzo.
  cbn [mbind option_bind]. rewrite Hix. done.
Qed.

Lemma qnext_ok h q xs sss iter t :
  qrep h q xs sss → iter_at xs sss iter t → next_gives q xs sss iter t (quicklistNext q h iter).
Proof.
  intros Hq Hit. unfold quicklistNext. destruct Hit as [Hc|i p d ss k Hi Hss Hk Hc Hz Hn|i p d b ss k z Hi Hss Hk Hc Hr Hzl Hz Hat Hn|i p d ss Hi Hss Hc Hz Hn].
  - by eapply qnext_none.
  - by eapply next_fresh.
  - by eapply next_moved.
  - by eapply next_past.
Qed.

(** ** The start of an iteration *)
Lemma place_first dir sss i ss k :
  sss !! i = Some ss → (k < length ss)%nat →
  match dir with
  | AL_START_HEAD => i = 0%nat ∧ k = 0%nat
  | AL_START_TAIL => S i = length sss ∧ S k = length ss
  end → place dir sss i k = 0%nat.
Proof.
  intros Hi Hk. destruct (flat_lookup sss i ss k Hi Hk) as [_ Hlt]. unfold place. destruct dir; intros [Ei Ek].
  - by subst.
  - pose proof (take_S_length sss i ss Hi) as Ht. rewrite take_ge in Ht by lia. lia.
Qed.

Lemma start_ok h q xs sss dir :
  qrep h q xs sss → iter_at xs sss (quicklistGetIterator q dir) 0 ∧
    direction (quicklistGetIterator q dir) = dir ∧ signed (quicklistGetIterator q dir).
Proof.
  intros Hq. split; [|by destruct dir]. pose proof (q_linked _ _ _ _ Hq) as [_ _ Hh Ht].
  pose proof (qrep_length _ _ _ _ Hq) as Hlen. pose proof (q_ne _ _ _ _ Hq) as Hne.
  destruct (qrep_empty_or _ _ _ _ Hq) as [[-> ->]|[Hxs Hsss]].
  { apply (at_end [] [] (quicklistGetIterator q dir)). destruct dir; simpl; [by rewrite Hh|by rewrite Ht]. }
  set (i := match dir with AL_START_HEAD => 0%nat | AL_START_TAIL => pred (length xs) end).
  assert (i < length xs)%nat as Hil by (unfold i; destruct xs; [done|]; destruct dir; simpl; lia).
  destruct (lookup_lt_is_Some_2 xs i Hil) as [[p d] Hi].
  destruct (lookup_lt_is_Some_2 sss i ltac:(lia)) as [ss Hss].
  pose proof (Forall_lookup_1 _ _ _ _ Hne Hss) as Hsne. simpl in Hsne.
  assert (0 < length ss)%nat as Hpos by (destruct ss; [done|simpl; lia]).
  assert (enter dir ss < length ss)%nat as Hk by (unfold enter; destruct dir; lia).
  assert (place dir sss i (enter dir ss) = 0%nat) as Hpl.
  { eapply place_first; [done|done|]. unfold i, enter. destruct dir; lia. }
  rewrite <-Hpl. replace dir with (direction (quicklistGetIterator q dir)) at 2 by (by destruct dir).
  eapply at_fresh; [done|done|done| |by destruct dir|].
  - destruct dir; simpl; [rewrite Hh, first_lookup|rewrite Ht, lastp_lookup, <-(Nat.succ_pred_pos (length xs)) by lia; simpl before];
      fold i; by rewrite Hi.
  - pose proof (enter_norm dir ss Hpos). by destruct dir.
Qed.

(** ** All strings *)

(** [while (quicklistNext(iter, &entry))] with the values of the entries. *)
Fixpoint visit (n : nat) (q : quicklist) (h : heap qnode) (iter : quicklistIter) :
    option (heap qnode * list (option zval)) :=
  match n with
  | O => None
  | S n =>
      '(h, iter, e, found) ← quicklistNext q h iter;
      if found : bool then '(h, vs) ← visit n q h iter; Some (h, e_value e :: vs) else Some (h, [])
  end.

Lemma visit_ok n : ∀ h q xs sss iter t,
  qrep h q xs sss → iter_at xs sss iter t → (length (concat sss) - t < n)%nat →
  ∃ h' xs', visit n q h iter = Some (h', (λ s, Some (zval_of s)) <$> drop t (in_order (direction iter) (concat sss))) ∧
    qrep h' q xs' sss ∧ (compress q = 0 → plain xs → plain xs').
Proof.
  induction n as [|n IH]; intros h q xs sss iter t Hq Hit Hn; [lia|]. pose proof (qnext_ok h q xs sss iter t Hq Hit) as Hg.
  unfold next_gives in Hg. simpl. destruct (in_order (direction iter) (concat sss) !! t) as [s|] eqn:E.
  - destruct Hg as (h1 & xs1 & iter1 & e & i & k & ss & -> & Hq1 & Hit1 & Hd1 & _ & _ & _ & Hv & _ & _ & _ & _ & _ & Hp1).
    cbn [mbind option_bind]. pose proof (lookup_lt_Some _ _ _ E) as Hlt. rewrite in_order_length in Hlt.
    destruct (IH h1 q xs1 sss iter1 (S t) Hq1 Hit1) as (h2 & xs2 & -> & Hq2 & Hp2); [lia|]. cbn [mbind option_bind].
    exists h2, xs2. rewrite Hv, Hd1, (drop_S _ s t E). split; [done|]. split; [done|]. intros Hz Hp. auto.
  - destruct Hg as (h1 & xs1 & iter1 & e & -> & Hq1 & _ & Hp1). cbn [mbind option_bind]. exists h1, xs1.
    apply lookup_ge_None in E. by rewrite drop_ge.
Qed.

(** ** Deletion on the way *)

(** A list of strings without its [t]-th one. *)
Lemma in_order_del dir (l : list bytes) j t :
  (j < length l)%nat → t = match dir with AL_START_HEAD => j | AL_START_TAIL => length l - 1 - j end%nat →
  in_order dir (without j l) = without t (in_order dir l).
Proof.
  intros Hj ->. destruct dir; [done|]. unfold without. simpl. rewrite reverse_app.
  destruct (lookup_lt_is_Some_2 l j Hj) as [x Hx].
  assert (reverse (take j l ++ x :: drop (S j) l) = reverse (drop (S j) l) ++ x :: reverse (take j l)) as Hrev.
  { rewrite reverse_app, reverse_cons, <-app_assoc. done. }
  rewrite (take_drop_middle l j x Hx) in Hrev. rewrite Hrev.
  assert (length (reverse (drop (S j) l)) = (length l - 1 - j)%nat) as Hr by (rewrite length_reverse, length_drop; lia).
  rewrite take_app_length' by done. f_equal. rewrite (cons_middle x), app_assoc. rewrite drop_app_length'; [done|].
  rewrite length_app. simpl. lia.
Qed.

Lemma del_nodes_flat sss i k (ss : list bytes) :
  sss !! i = Some ss → (k < length ss)%nat →
  concat (del_nodes i k ss sss) = without (length (concat (take i sss)) + k) (concat sss).
Proof.
  intros Hi Hk. rewrite (del_nodes_concat i k ss sss Hi Hk), (qconcat_split sss i ss Hi). unfold without.
  rewrite take_app_add, <-Nat.add_succ_r, drop_app_add, take_app_le, drop_app_le by lia. by rewrite <-!app_assoc.
Qed.

Lemma without_flat_length sss i k (ss : list bytes) :
  sss !! i = Some ss → (k < length ss)%nat →
  length (concat (del_nodes i k ss sss)) = (length (concat sss) - 1)%nat ∧ (0 < length (concat sss))%nat.
Proof.
  intros Hi Hk. destruct (flat_lookup sss i ss k Hi Hk) as [_ Hlt]. rewrite (del_nodes_flat sss i k ss Hi Hk).
  unfold without. rewrite length_app, length_take, length_drop. lia.
Qed.

Lemma del_nodes_take sss i k (ss : list bytes) j :
  (i < length sss)%nat → (j ≤ i)%nat → take j (del_nodes i k ss sss) = take j sss.
Proof.
  intros Hi Hj. unfold del_nodes. destruct (bool_decide (length ss = 1%nat)).
  - rewrite take_app_le by (rewrite length_take; lia). rewrite take_take. by rewrite Nat.min_l.
  - by rewrite take_insert_ge.
Qed.

(** The node stays: the iterator looks again at its offset. *)
Lemma del_stays xs sss i p d k ss iter :
  xs !! i = Some (p, d) → sss !! i = Some ss → (k < length ss)%nat → length ss ≠ 1%nat →
  current iter = Some p → zi iter = None → signed iter → norm ss (offset iter) = Some k →
  iter_at xs (del_nodes i k ss sss) iter (place (direction iter) sss i k).
Proof.
  intros Hi Hss Hk H1' Hc Hz Hs Hn. pose proof (lookup_lt_Some _ _ _ Hss) as Hlt.
  destruct (without_flat_length sss i k ss Hss Hk) as [Hl Hl0]. destruct (flat_lookup sss i ss k Hss Hk) as [_ Hfl].
  pose proof (del_nodes_take sss i k ss i Hlt (le_n _)) as Ht.
  assert (del_nodes i k ss sss !! i = Some (without k ss)) as Hi'.
  { unfold del_nodes. rewrite bool_decide_eq_false_2 by done. by apply list_lookup_insert_eq. }
  pose proof (take_S_length _ _ _ Hi') as HtS. rewrite Ht in HtS.
  assert (length (without k ss) = length ss - 1)%nat as Hwl by (unfold without; rewrite length_app, length_take, length_drop; lia).
  apply norm_cases in Hn as [_ Hn]. unfold signed in Hs. destruct (direction iter) eqn:Hd.
  - assert (offset iter = Z.of_nat k) as Ho by (unfold zlen in *; lia).
    destruct (decide (S k < length ss)%nat).
    + assert (place AL_START_HEAD sss i k = place (direction iter) (del_nodes i k ss sss) i k) as ->
        by (unfold place; by rewrite Hd, Ht).
      eapply at_fresh; [done|done|lia|done|done|]. by rewrite Ho, norm_of_nat, decide_True by lia.
    + assert (place AL_START_HEAD sss i k = past (direction iter) (del_nodes i k ss sss) i) as ->
        by (unfold place, past; rewrite Hd; lia).
      eapply at_past; [done|done|done|done|]. by rewrite Ho, norm_of_nat, decide_False by lia.
  - assert (offset iter = Z.of_nat k - zlen ss) as Ho by (unfold zlen in *; lia).
    assert (norm (without k ss) (offset iter) = match k with O => None | S k' => Some k' end) as Hn'.
    { unfold norm, zlen in *. rewrite Hwl, Ho. destruct (Z.ltb_spec (Z.of_nat k - Z.of_nat (length ss)) 0); [|lia].
      destruct (Z.ltb_spec (Z.of_nat (length ss - 1) + (Z.of_nat k - Z.of_nat (length ss))) (Z.of_nat (length ss - 1))); [|lia].
      destruct (Z.leb_spec 0 (Z.of_nat (length ss - 1) + (Z.of_nat k - Z.of_nat (length ss)))); destruct k; try lia; [|done].
      simpl. f_equal. lia. }
    destruct k as [|k'].
    + assert (place AL_START_TAIL sss i 0 = past (direction iter) (del_nodes i 0 ss sss) i) as ->
        by (unfold place, past; rewrite Hd, Hl, Ht; lia).
      by eapply at_past.
    + assert (place AL_START_TAIL sss i (S k') = place (direction iter) (del_nodes i (S k') ss sss) i k') as ->
        by (unfold place; rewrite Hd, Hl, Ht; lia).
      eapply at_fresh; [done|done|lia|done|done|done].
Qed.

(** The node is gone: the iterator enters its neighbour. *)
Lemma del_goes (xs xs' : cells) sss i ss iter dir :
  length xs = length sss → length xs' = length (take i sss ++ drop (S i) sss) →
  sss !! i = Some ss → length ss = 1%nat → Forall (λ ss, ss ≠ []) sss →
  xs'.*1 = (take i xs ++ drop (S i) xs).*1 →
  iter = QuicklistIter (match dir with AL_START_HEAD => fst <$> xs !! S i | AL_START_TAIL => before xs i end) None
    (match dir with AL_START_HEAD => 0 | AL_START_TAIL => -1 end) dir →
  iter_at xs' (del_nodes i 0 ss sss) iter (place dir sss i 0).
Proof.
  intros Hlen Hlen' Hss H1' Hne Hf Hiter. pose proof (lookup_lt_Some _ _ _ Hss) as Hlt.
  destruct (without_flat_length sss i 0 ss Hss ltac:(lia)) as [Hl Hl0].
  destruct (flat_lookup sss i ss 0 Hss ltac:(lia)) as [_ Hfl].
  assert (del_nodes i 0 ss sss = take i sss ++ drop (S i) sss) as Hdel by (unfold del_nodes; by rewrite bool_decide_eq_true_2).
  assert (∀ j s, sss !! j = Some s → (0 < length s)%nat) as Hpos.
  { intros j s Hj. pose proof (Forall_lookup_1 _ _ _ _ Hne Hj). destruct s; [done|simpl; lia]. }
  destruct dir.
  - destruct (sss !! S i) as [s|] eqn:E.
    + pose proof (Hpos _ _ E) as Hsp. destruct (lookup_lt_is_Some_2 xs (S i)) as [[p d] Hp]; [apply lookup_lt_Some in E; lia|].
      assert (fst <$> xs' !! i = Some p) as Hi'.
      { rewrite <-list_lookup_fmap, Hf, fmap_app, lookup_app_r by (rewrite length_fmap, length_take; lia).
        rewrite length_fmap, length_take, Nat.min_l, Nat.sub_diag by lia.
        by rewrite list_lookup_fmap, lookup_drop, Nat.add_0_r, Hp. }
      apply fst_lookup in Hi' as [d' Hi'].
      assert (del_nodes i 0 ss sss !! i = Some s) as Hs'.
      { rewrite Hdel, lookup_app_r by (rewrite length_take; lia). rewrite length_take, Nat.min_l, Nat.sub_diag by lia.
        by rewrite lookup_drop, Nat.add_0_r. }
      assert (place AL_START_HEAD sss i 0 = place (direction iter) (del_nodes i 0 ss sss) i 0) as ->
        by (unfold place; rewrite Hiter; simpl; by rewrite del_nodes_take).
      eapply at_fresh; [done|done|done|rewrite Hiter; simpl; by rewrite Hp|by rewrite Hiter|].
      rewrite Hiter. simpl. change 0 with (Z.of_nat 0). by rewrite norm_of_nat, decide_True.
    + apply lookup_ge_None in E. pose proof (take_S_length sss i ss Hss) as HtS. rewrite take_ge in HtS by lia.
      assert (place AL_START_HEAD sss i 0 = length (concat (del_nodes i 0 ss sss))) as -> by (unfold place; lia).
      apply at_end. rewrite Hiter. simpl. by rewrite lookup_ge_None_2 by lia.
  - destruct i as [|i].
    + assert (place AL_START_TAIL sss 0 0 = length (concat (del_nodes 0 0 ss sss))) as -> by (rewrite Hl; unfold place; simpl; lia).
      apply at_end. by rewrite Hiter.
    + destruct (lookup_lt_is_Some_2 sss i ltac:(lia)) as [s Hs]. pose proof (Hpos _ _ Hs) as Hsp.
      destruct (lookup_lt_is_Some_2 xs i ltac:(lia)) as [[p d] Hp].
      assert (fst <$> xs' !! i = Some p) as Hi'.
      { rewrite <-list_lookup_fmap, Hf, fmap_app, lookup_app_l by (rewrite length_fmap, length_take; lia).
        by rewrite list_lookup_fmap, lookup_take_lt, Hp by lia. }
      apply fst_lookup in Hi' as [d' Hi'].
      assert (del_nodes (S i) 0 ss sss !! i = Some s) as Hs'.
      { rewrite Hdel, lookup_app_l by (rewrite length_take; lia). by rewrite lookup_take_lt by lia. }
      pose proof (take_S_length sss i s Hs) as HtS.
      assert (place AL_START_TAIL sss (S i) 0 = place (direction iter) (del_nodes (S i) 0 ss sss) i (pred (length s))) as ->.
      { unfold place. rewrite Hiter, Hl. simpl direction. cbv iota. rewrite (del_nodes_take sss (S i) 0 ss i) by lia. lia. }
      eapply at_fresh; [done|done|lia|rewrite Hiter; simpl; by rewrite Hp|by rewrite Hiter|].
      rewrite Hiter. apply (enter_norm AL_START_TAIL s Hsp).
Qed.

Lemma delEntry_ok h q xs sss iter e i k ss :
  qrep h q xs sss → entry_at xs sss e i k → sss !! i = Some ss → current iter = e_node e → signed iter →
  norm ss (offset iter) = Some k →
  ∃ q' h' iter' xs', quicklistDelEntry q h iter e = Some (q', h', iter') ∧ qrep h' q' xs' (del_nodes i k ss sss) ∧
    iter_at xs' (del_nodes i k ss sss) iter' (place (direction iter) sss i k) ∧
    direction iter' = direction iter ∧ signed iter' ∧ same_opts q q' ∧ (compress q = 0 → plain xs → plain xs').
Proof.
  intros Hq [(p & d & b & z & ss0 & s & Hi & Hr & Hz & Hss0 & Hs & Hat & Hen & Hez & _)] Hss Hc Hsg Hn.
  rewrite Hss in Hss0. injection Hss0 as <-. pose proof (lookup_lt_Some _ _ _ Hs) as Hk. rewrite Hen in Hc.
  unfold quicklistDelEntry. rewrite Hen, Hez. cbn [mbind option_bind].
  rewrite (seg_lookup _ _ _ _ _ (l_seg _ _ _ (q_linked _ _ _ _ Hq)) Hi). cbn [mbind option_bind prev next].
  destruct (delIndex_ok h q xs sss i p d ss b k z Hq Hi Hr Hss Hz Hat Hk) as (q' & h' & xs' & -> & Hq' & [Hfi Hco] & He & Hcase).
  cbn [mbind option_bind].
  assert (compress q = 0 → plain xs → plain xs') as Hpl.
  { intros Hc0 Hp. apply (plain_ends q'); [by rewrite Hco|]. apply He. by apply plain_ends. }
  destruct (bool_decide_reflect (length ss = 1%nat)) as [E|E].
  - assert (k = 0%nat) as -> by lia. do 4 eexists. split; [done|]. split; [exact Hq'|].
    split_and!; [|by destruct (direction iter)|by unfold signed; destruct (direction iter)|done|done].
    pose proof (qrep_length _ _ _ _ Hq') as Hl'. unfold del_nodes in Hl'. rewrite bool_decide_eq_true_2 in Hl' by done.
    eapply (del_goes xs xs' sss i ss _ (direction iter) (qrep_length _ _ _ _ Hq) Hl' Hss E (q_ne _ _ _ _ Hq) Hcase).
    by destruct (direction iter).
  - destruct Hcase as (b' & d' & -> & _). do 4 eexists. split; [done|]. split; [exact Hq'|].
    split_and!; [|done|done|done|done].
    apply (del_stays _ sss i p d' k ss (QuicklistIter (current iter) None (offset iter) (direction iter))); try done.
    apply list_lookup_insert_eq. by eapply lookup_lt_Some.
Qed.

(** An iteration that starts at an index. *)
Lemma at_idx_ok h q xs sss dir idx :
  qrep h q xs sss → - 2 ^ 63 ≤ idx < 2 ^ 63 →
  match norm (concat sss) idx with
  | Some j => ∃ h' xs' iter, quicklistGetIteratorAtIdx q h dir idx = Some (h', Some iter) ∧ qrep h' q xs' sss ∧
      iter_at xs' sss iter (match dir with AL_START_HEAD => j | AL_START_TAIL => length (concat sss) - 1 - j end) ∧
      direction iter = dir ∧ (match dir with AL_START_HEAD => 0 ≤ idx | AL_START_TAIL => idx < 0 end → signed iter) ∧
      (compress q = 0 → plain xs → plain xs')
  | None => quicklistGetIteratorAtIdx q h dir idx = Some (h, None)
  end.
Proof.
  intros Hq Hidx. pose proof (qindex_ok h q xs sss idx Hq Hidx) as Hix. unfold quicklistGetIteratorAtIdx.
  destruct (norm (concat sss) idx) as [j|]; [|by rewrite Hix].
  destruct Hix as (h' & xs' & e & i & k & ss & s & -> & Hq' & Hid & [Hat] & Hss & Hs & Hj & Hoff & _).
  destruct Hat as (p & d & b & z & ss' & s' & Hi & _ & _ & _ & _ & _ & Hen & _ & _).
  cbn [mbind option_bind]. pose proof (lookup_lt_Some _ _ _ Hs) as Hk. rewrite Hen.
  eexists h', xs', _. split; [done|]. split; [done|]. split; [|split; [done|split]].
  - assert ((match dir with AL_START_HEAD => j | AL_START_TAIL => length (concat sss) - 1 - j end)%nat =
      place (direction (QuicklistIter (Some p) None (e_offset e) dir)) sss i k) as ->.
    { unfold place, upto, zlen in *. simpl. destruct dir; lia. }
    eapply at_fresh; [done|done|done|done|done|]. simpl. rewrite Hoff. apply norm_either; [done|]. destruct (idx <? 0); auto.
  - unfold signed. simpl. rewrite Hoff. unfold zlen. destruct dir; destruct (Z.ltb_spec idx 0); lia.
  - intros Hc Hp. rewrite (Hid Hc); [done|]. by apply plain_ends.
Qed.

(** An iteration from either end visits every string once, in order, and stops;
    the list holds the same strings after it, for every compression depth. *)
Theorem quicklistNext_complete h q xs sss dir :
  qrep h q xs sss →
  ∃ h' xs', visit (S (length (concat sss))) q h (quicklistGetIterator q dir) =
      Some (h', (λ s, Some (zval_of s)) <$> in_order dir (concat sss)) ∧ qrep h' q xs' sss.
Proof.
  intros Hq. destruct (start_ok h q xs sss dir Hq) as (Hit & Hd & _).
  destruct (visit_ok (S (length (concat sss))) h q xs sss _ 0 Hq Hit) as (h' & xs' & Hrun & Hq' & _); [lia|].
  rewrite Hd in Hrun. by exists h', xs'.
Qed.
End Iter.

Section Witness.
#[local] Existing Instance junk0.
#[local] Existing Instance demo_lzf.

Lemma quicklistNext_complete_witness :
  ∃ q h h', deque_run demo_pushes (quicklistNew 2 1) (Heap ∅ []) = Some (q, h, []) ∧
    visit 4 q h (quicklistGetIterator q AL_START_TAIL) = Some (h', (λ s, Some (zval_of s)) <$> [[99]; [98]; [97]]).
Proof.
  destruct demo_pushed as (q & h & xs & sss & Hrun & Hq & Hl).
  destruct (quicklistNext_complete h q xs sss AL_START_TAIL Hq) as (h' & xs' & Hv & _). rewrite Hl in Hv.
  exists q, h, h'. exact (conj Hrun Hv).
Defined.
End Witness.
