(* ===== verification/ListType.v ===== *)
(** * t_list.c: lists and the commands on one key

    A list object is a quicklist.  The first part is the list API of the source,
    the second one its commands: the value of the key, the nodes, [server.dirty] and
    the events are a state, the reply is a value.  The objects of the arguments are
    looked up in [os]; a command takes and gives back their reference counts, and
    what it makes for its reply it releases, so that [os] stays as it is.  The
    blocking commands and RPOPLPUSH are not modelled. *)

From Stdlib Require Import String.
From S2P Require Import Prelude.
From S2P Require Import Mem.
From S2P Require Import Util.
From S2P Require Import Ziplist.
From S2P Require Import Adlist.
From S2P Require Import Sds.
From S2P Require Import Object.
From S2P Require Import Quicklist.
Import Ziplist(zval, ZStr, ZInt).
Import Object(sds_contents, sdsEncodedObject, robj, as_sds, as_long, c_string, getLongLongFromObject).
Import Quicklist.
Import Adlist(ptr, nodes, heap, AL_START_HEAD, AL_START_TAIL).

Module ListType.

#[local] Notation addr := positive.

Inductive list_where := LIST_HEAD | LIST_TAIL.

(** The encoding with [ptr]; a ziplist is only seen by the conversion. *)
Inductive listobj := OBJ_ENCODING_QUICKLIST (ptr : quicklist) | OBJ_ENCODING_ZIPLIST (ptr : bytes).

(** [li->direction] and [li->iter]; the subject is passed along. *)
Record listTypeIterator := ListTypeIterator { li_direction : list_where; li_iter : option quicklistIter }.

Section ListType.
Context `{Alloc} `{Compressor}.

(** The string objects, [server.list_max_ziplist_size] and
    [server.list_compress_depth]. *)
Context (os : gmap addr robj) (list_max_ziplist_size list_compress_depth : Z).

Implicit Types (h : qheap) (subject : listobj).

Definition createQuicklistObject : listobj := OBJ_ENCODING_QUICKLIST quicklistCreate.

(** The string of [getDecodedObject(value)]. *)
Definition decoded (value : addr) : option bytes :=
  r ← os !! value;
  if sdsEncodedObject r then s ← as_sds r; sds_contents s
  else n ← as_long r; '(buf, _) ← Util.ll2string (zmalloc 32) 32 n; len ← Sds.strlen buf; load buf 0 len.

(** The string [o->ptr] with its [sdslen]. *)
Definition ptr_text (o : addr) : option bytes := r ← os !! o; s ← as_sds r; sds_contents s.

(** ** List API *)
Definition listTypePush subject h (value : addr) (w : list_where) : option (listobj * qheap) :=
  match subject with
  | OBJ_ENCODING_QUICKLIST q =>
      let pos := match w with LIST_HEAD => QUICKLIST_HEAD | LIST_TAIL => QUICKLIST_TAIL end in
      s ← decoded value;
      '(q, h) ← quicklistPush q h s pos;
      Some (OBJ_ENCODING_QUICKLIST q, h)
  | OBJ_ENCODING_ZIPLIST _ => None
  end.

(** The popped value: the bytes or the number its object is made from. *)
Definition listTypePop subject h (w : list_where) : option (listobj * qheap * option zval) :=
  let ql_where := match w with LIST_HEAD => QUICKLIST_HEAD | LIST_TAIL => QUICKLIST_TAIL end in
  match subject with
  | OBJ_ENCODING_QUICKLIST q =>
      '(q, h, value) ← quicklistPopCustom q h ql_where;
      Some (OBJ_ENCODING_QUICKLIST q, h, value)
  | OBJ_ENCODING_ZIPLIST _ => None
  end.

Definition listTypeLength subject : option Z :=
  match subject with
  | OBJ_ENCODING_QUICKLIST q => Some (quicklistCount q)
  | OBJ_ENCODING_ZIPLIST _ => None
  end.

(** Towards the head the iteration starts at the tail. *)
Definition listTypeInitIterator subject h (index : Z) (dir : list_where) : option (qheap * listTypeIterator) :=
  let iter_direction := match dir with LIST_HEAD => AL_START_TAIL | LIST_TAIL => AL_START_HEAD end in
  match subject with
  | OBJ_ENCODING_QUICKLIST q =>
      '(h, it) ← quicklistGetIteratorAtIdx q h iter_direction index;
      Some (h, ListTypeIterator dir it)
  | OBJ_ENCODING_ZIPLIST _ => None
  end.

(** The memory of the iterator is freed, and nothing else is done. *)
Definition listTypeReleaseIterator h (li : listTypeIterator) : qheap := h.

Definition listTypeNext subject h (li : listTypeIterator) :
    option (qheap * listTypeIterator * quicklistEntry * bool) :=
  match subject with
  | OBJ_ENCODING_QUICKLIST q =>
      match li_iter li with
      | None => Some (h, li, initEntry, false)
      | Some it =>
          '(h, it, entry, found) ← quicklistNext q h it;
          Some (h, ListTypeIterator (li_direction li) (Some it), entry, found)
      end
  | OBJ_ENCODING_ZIPLIST _ => None
  end.

(** The bytes or the number the object is made from. *)
Definition listTypeGet (entry : quicklistEntry) : option zval := e_value entry.

Definition listTypeInsert subject h (entry : quicklistEntry) (value : addr) (w : list_where) : option (listobj * qheap) :=
  match subject with
  | OBJ_ENCODING_QUICKLIST q =>
      str ← decoded value;
      '(q, h) ← match w with
                | LIST_TAIL => quicklistInsertAfter q h entry str
                | LIST_HEAD => quicklistInsertBefore q h entry str
                end;
      Some (OBJ_ENCODING_QUICKLIST q, h)
  | OBJ_ENCODING_ZIPLIST _ => None
  end.

(** [entry.zi] points into the ziplist of [entry.node]. *)
Definition listTypeEqual subject h (entry : quicklistEntry) (o : addr) : option bool :=
  match subject with
  | OBJ_ENCODING_QUICKLIST _ =>
      r ← os !! o;
      if sdsEncodedObject r then
        s ← ptr_text o;
        p ← e_node entry; d ← node_at h p; b ← zlof d; z ← e_zi entry;
        quicklistCompare b z s
      else None
  | OBJ_ENCODING_ZIPLIST _ => None
  end.

Definition listTypeDelete subject h (li : listTypeIterator) (entry : quicklistEntry) :
    option (listobj * qheap * listTypeIterator) :=
  match subject with
  | OBJ_ENCODING_QUICKLIST q =>
      it ← li_iter li;
      '(q, h, it) ← quicklistDelEntry q h it entry;
      Some (OBJ_ENCODING_QUICKLIST q, h, ListTypeIterator (li_direction li) (Some it))
  | OBJ_ENCODING_ZIPLIST _ => None
  end.

(** To a quicklist; a list that is not a ziplist fails the assertion. *)
Definition listTypeConvert subject h : option (listobj * qheap) :=
  match subject with
  | OBJ_ENCODING_ZIPLIST b =>
      '(q, h) ← quicklistCreateFromZiplist list_max_ziplist_size list_compress_depth h b;
      Some (OBJ_ENCODING_QUICKLIST q, h)
  | OBJ_ENCODING_QUICKLIST _ => None
  end.

(** ** Commands *)

(** The value of the key: a list or a value of another type. *)
Inductive kvalue := KList (l : listobj) | KOther.

Inductive notify_class := NOTIFY_LIST | NOTIFY_GENERIC.
Inductive event := SignalModifiedKey | NotifyKeyspaceEvent (c : notify_class) (name : string).

Record cstate := CState { key : option kvalue; qnodes : qheap; dirty : Z; events : list event }.

Inductive reply :=
  | ReplyInt (n : Z) | ReplyBulk (v : option zval) | ReplyMulti (vs : list (option zval)) | ReplyOk
  | ReplyNull | ReplyEmptyMulti | ReplyNegOne
  | WrongTypeErr | SyntaxErr | OutOfRangeErr | NoKeyErr | NotIntegerErr.

Implicit Types (st : cstate).

Definition set_list st (l : listobj) h : cstate := CState (Some (KList l)) h (dirty st) (events st).
Definition dbDelete st : cstate := CState None (qnodes st) (dirty st) (events st).
Definition emit st (es : list event) : cstate := CState (key st) (qnodes st) (dirty st) (events st ++ es).
Definition add_dirty st (n : Z) : cstate := CState (key st) (qnodes st) (dirty st + n) (events st).

(** [lookupKey..OrReply] and [checkType]: [inl] is the reply the command ends with. *)
Definition list_or_reply st (missing : reply) : reply + listobj :=
  match key st with
  | None => inl missing
  | Some KOther => inl WrongTypeErr
  | Some (KList l) => inr l
  end.

(** [inl] is the error reply.  A [long] has the width of a [long long]. *)
Definition getLongFromObjectOrReply (o : addr) : option (reply + Z) :=
  v ← getLongLongFromObject os (Some o);
  Some (match v with Some n => inr n | None => inl NotIntegerErr end).

(** [for (j = 2; j < c->argc; j++) ...] *)
Fixpoint push_args (lobj : option listobj) h (argv : list addr) (w : list_where) : option (option listobj * qheap) :=
  match argv with
  | [] => Some (lobj, h)
  | a :: argv =>
      let l := match lobj with
               | Some l => l
               | None => OBJ_ENCODING_QUICKLIST (quicklistSetOptions quicklistCreate list_max_ziplist_size list_compress_depth)
               end in
      '(l, h) ← listTypePush l h a w;
      push_args (Some l) h argv w
  end.

Definition push_event (w : list_where) : list event :=
  [SignalModifiedKey; NotifyKeyspaceEvent NOTIFY_LIST (match w with LIST_HEAD => "lpush" | LIST_TAIL => "rpush" end)].

Definition pushGenericCommand st (argv : list addr) (w : list_where) : option (cstate * reply) :=
  match key st with
  | Some KOther => Some (st, WrongTypeErr)
  | _ =>
      let lobj := match key st with Some (KList l) => Some l | _ => None end in
      '(lobj, h) ← push_args lobj (qnodes st) argv w;
      n ← match lobj with Some l => listTypeLength l | None => Some 0 end;
      let st := match lobj with Some l => set_list st l h | None => st end in
      let st := if bool_decide (argv = []) then st else emit st (push_event w) in
      Some (add_dirty st (zlen argv), ReplyInt n)
  end.

Definition pushxGenericCommand st (argv : list addr) (w : list_where) : option (cstate * reply) :=
  match list_or_reply st (ReplyInt 0) with
  | inl r => Some (st, r)
  | inr subject =>
      '(lobj, h) ← push_args (Some subject) (qnodes st) argv w;
      subject ← lobj;
      n ← listTypeLength subject;
      let st := set_list st subject h in
      let st := if bool_decide (argv = []) then st else emit st (push_event w) in
      Some (add_dirty st (zlen argv), ReplyInt n)
  end.

Definition tolower (c : Z) : Z := if (65 <=? c) && (c <=? 90) then c + 32 else c.
Definition strcaseeq (a b : bytes) : bool := bool_decide (map tolower (c_string a) = map tolower (c_string b)).

(** The search for the pivot: [inl] is the next round. *)
Definition linsert_body (pivot value : addr) (w : list_where) (s : listobj * qheap * listTypeIterator)
    : option (listobj * qheap * listTypeIterator + listobj * qheap * bool) :=
  let '(subject, h, iter) := s in
  '(h, iter, entry, found) ← listTypeNext subject h iter;
  if found : bool then
    eq ← listTypeEqual subject h entry pivot;
    if eq : bool then
      '(subject, h) ← listTypeInsert subject h entry value w;
      Some (inr (subject, listTypeReleaseIterator h iter, true))
    else Some (inl (subject, h, iter))
  else Some (inr (subject, listTypeReleaseIterator h iter, false)).

Definition linsertCommand st (pos pivot value : addr) : option (cstate * reply) :=
  t ← ptr_text pos;
  match (if strcaseeq t (bytes_of "after") then Some LIST_TAIL
         else if strcaseeq t (bytes_of "before") then Some LIST_HEAD else None) with
  | None => Some (st, SyntaxErr)
  | Some w =>
      match list_or_reply st (ReplyInt 0) with
      | inl r => Some (st, r)
      | inr subject =>
          n ← listTypeLength subject;
          '(h, iter) ← listTypeInitIterator subject (qnodes st) 0 LIST_TAIL;
          '(subject, h, inserted) ← loop (S (S (Z.to_nat n))) (linsert_body pivot value w) (subject, h, iter);
          let st := set_list st subject h in
          if inserted : bool then
            let st := add_dirty (emit st [SignalModifiedKey; NotifyKeyspaceEvent NOTIFY_LIST "linsert"]) 1 in
            n ← listTypeLength subject; Some (st, ReplyInt n)
          else Some (st, ReplyNegOne)
      end
  end.

Definition llenCommand st : option (cstate * reply) :=
  match list_or_reply st (ReplyInt 0) with
  | inl r => Some (st, r)
  | inr o => n ← listTypeLength o; Some (st, ReplyInt n)
  end.

Definition lindexCommand st (index : addr) : option (cstate * reply) :=
  match list_or_reply st ReplyNull with
  | inl r => Some (st, r)
  | inr o =>
      i ← getLongFromObjectOrReply index;
      match i, o with
      | inl r, _ => Some (st, r)
      | inr i, OBJ_ENCODING_QUICKLIST q =>
          '(h, entry, found) ← quicklistIndex q (qnodes st) i;
          let st := set_list st o h in
          Some (st, if found : bool then ReplyBulk (e_value entry) else ReplyNull)
      | inr _, OBJ_ENCODING_ZIPLIST _ => None
      end
  end.

Definition lsetCommand st (index value : addr) : option (cstate * reply) :=
  match list_or_reply st NoKeyErr with
  | inl r => Some (st, r)
  | inr o =>
      i ← getLongFromObjectOrReply index;
      match i, o with
      | inl r, _ => Some (st, r)
      | inr i, OBJ_ENCODING_QUICKLIST q =>
          s ← ptr_text value;
          '(h, replaced) ← quicklistReplaceAtIndex q (qnodes st) i s;
          let st := set_list st o h in
          if replaced : bool then
            Some (add_dirty (emit st [SignalModifiedKey; NotifyKeyspaceEvent NOTIFY_LIST "lset"]) 1, ReplyOk)
          else Some (st, OutOfRangeErr)
      | inr _, OBJ_ENCODING_ZIPLIST _ => None
      end
  end.

Definition popGenericCommand st (w : list_where) : option (cstate * reply) :=
  match list_or_reply st ReplyNull with
  | inl r => Some (st, r)
  | inr o =>
      '(o, h, value) ← listTypePop o (qnodes st) w;
      let st := set_list st o h in
      match value with
      | None => Some (st, ReplyNull)
      | Some _ =>
          let st := emit st [NotifyKeyspaceEvent NOTIFY_LIST (match w with LIST_HEAD => "lpop" | LIST_TAIL => "rpop" end)] in
          n ← listTypeLength o;
          let st := if n =? 0 then dbDelete (emit st [NotifyKeyspaceEvent NOTIFY_GENERIC "del"]) else st in
          Some (add_dirty (emit st [SignalModifiedKey]) 1, ReplyBulk value)
      end
  end.

(** [while(rangelen--) ...]; whether there is an entry is not looked at. *)
Fixpoint lrange_loop (rangelen : nat) subject h (iter : listTypeIterator) : option (qheap * list (option zval)) :=
  match rangelen with
  | O => Some (listTypeReleaseIterator h iter, [])
  | S rangelen =>
      '(h, iter, entry, _) ← listTypeNext subject h iter;
      '(h, vs) ← lrange_loop rangelen subject h iter;
      Some (h, e_value entry :: vs)
  end.

Definition lrangeCommand st (start end_ : addr) : option (cstate * reply) :=
  s ← getLongFromObjectOrReply start;
  match s with
  | inl r => Some (st, r)
  | inr start =>
      e ← getLongFromObjectOrReply end_;
      match e, list_or_reply st ReplyEmptyMulti with
      | inl r, _ | _, inl r => Some (st, r)
      | inr end_, inr o =>
          llen ← listTypeLength o;
          let start := if start <? 0 then llen + start else start in
          let end_ := if end_ <? 0 then llen + end_ else end_ in
          let start := if start <? 0 then 0 else start in
          if (start >? end_) || (start >=? llen) then Some (st, ReplyEmptyMulti)
          else
            let end_ := if end_ >=? llen then llen - 1 else end_ in
            let rangelen := end_ - start + 1 in
            '(h, iter) ← listTypeInitIterator o (qnodes st) start LIST_TAIL;
            '(h, vs) ← lrange_loop (Z.to_nat rangelen) o h iter;
            Some (set_list st o h, ReplyMulti vs)
      end
  end.

Definition ltrimCommand st (start end_ : addr) : option (cstate * reply) :=
  s ← getLongFromObjectOrReply start;
  match s with
  | inl r => Some (st, r)
  | inr start =>
      e ← getLongFromObjectOrReply end_;
      match e, list_or_reply st ReplyOk with
      | inl r, _ | _, inl r => Some (st, r)
      | inr end_, inr o =>
          llen ← listTypeLength o;
          let start := if start <? 0 then llen + start else start in
          let end_ := if end_ <? 0 then llen + end_ else end_ in
          let start := if start <? 0 then 0 else start in
          let '(ltrim, rtrim) :=
            if (start >? end_) || (start >=? llen) then (llen, 0)
            else let end_ := if end_ >=? llen then llen - 1 else end_ in (start, llen - end_ - 1) in
          match o with
          | OBJ_ENCODING_QUICKLIST q =>
              '(q, h, _) ← quicklistDelRange q (qnodes st) 0 ltrim;
              '(q, h, _) ← quicklistDelRange q h (- rtrim) rtrim;
              let o := OBJ_ENCODING_QUICKLIST q in
              let st := emit (set_list st o h) [NotifyKeyspaceEvent NOTIFY_LIST "ltrim"] in
              n ← listTypeLength o;
              let st := if n =? 0 then emit (dbDelete st) [NotifyKeyspaceEvent NOTIFY_GENERIC "del"] else st in
              Some (add_dirty (emit st [SignalModifiedKey]) 1, ReplyOk)
          | OBJ_ENCODING_ZIPLIST _ => None
          end
      end
  end.

(** One round of the removal; the number is [removed]. *)
Definition lrem_body (obj : addr) (toremove : Z) (s : listobj * qheap * listTypeIterator * Z)
    : option (listobj * qheap * listTypeIterator * Z + listobj * qheap * Z) :=
  let '(subject, h, li, removed) := s in
  '(h, li, entry, found) ← listTypeNext subject h li;
  if found : bool then
    eq ← listTypeEqual subject h entry obj;
    if eq : bool then
      '(subject, h, li) ← listTypeDelete subject h li entry;
      let removed := removed + 1 in
      if negb (toremove =? 0) && (removed =? toremove)
      then Some (inr (subject, listTypeReleaseIterator h li, removed))
      else Some (inl (subject, h, li, removed))
    else Some (inl (subject, h, li, removed))
  else Some (inr (subject, listTypeReleaseIterator h li, removed)).

Definition lremCommand st (count obj : addr) : option (cstate * reply) :=
  t ← getLongFromObjectOrReply count;
  match t, list_or_reply st (ReplyInt 0) with
  | inl r, _ | _, inl r => Some (st, r)
  | inr toremove, inr subject =>
      n ← listTypeLength subject;
      '(h, li) ← (if toremove <? 0 then listTypeInitIterator subject (qnodes st) (-1) LIST_HEAD
                  else listTypeInitIterator subject (qnodes st) 0 LIST_TAIL);
      let toremove := if toremove <? 0 then swrap 64 (- toremove) else toremove in
      '(subject, h, removed) ← loop (S (Z.to_nat n)) (lrem_body obj toremove) (subject, h, li, 0);
      let st := add_dirty (set_list st subject h) removed in
      let st := if removed =? 0 then st
                else emit st [SignalModifiedKey; NotifyKeyspaceEvent NOTIFY_GENERIC "lrem"] in
      n ← listTypeLength subject;
      let st := if n =? 0 then emit (dbDelete st) [NotifyKeyspaceEvent NOTIFY_GENERIC "del"] else st in
      Some (st, ReplyInt removed)
  end.
End ListType.
End ListType.
