(* ===== verification/ListSpec.v ===== *)
(** * The list API on a list of strings

    Lists whose nodes are never compressed ([list_compress_depth] 0, the default):
    [lrep] relates the quicklist of an object to a list of strings, [lit] an
    iterator on it to a position, [lentry] an entry to the string it stands for. *)

From S2P Require Import Prelude.
From S2P Require Import Mem.
From S2P Require Import Util.
From S2P Require Import Ziplist.
From S2P Require Import ZiplistOps.
From S2P Require Import ZiplistSpec.
From S2P Require Import Packed.
From S2P Require Import Adlist.
From S2P Require Import AdlistSpec.
From S2P Require Import Sds.
From S2P Require Import SdsSpec.
From S2P Require Import Object.
From S2P Require Import ObjectSpec.
From S2P Require Import Quicklist.
From S2P Require Import QuicklistRepr.
From S2P Require Import QuicklistLinks.
From S2P Require Import QuicklistSpec.
From S2P Require Import QuicklistIndex.
From S2P Require Import QuicklistMerge.
From S2P Require Import QuicklistInsert.
From S2P Require Import QuicklistRange.
From S2P Require Import QuicklistIter.
From S2P Require Import ListType.
Import Ziplist Quicklist Packed ListType.
Import Adlist(ptr, ListNode, nodes, prev, next, value, heap, AL_START_HEAD, AL_START_TAIL).
Import Object(sds_contents, sdsEncodedObject, robj, as_sds, as_long, getLongLongFromObject).

Section ListSpec.
Context `{Alloc} `{CompressorOk}.
Context (os : gmap positive robj).

(** ** Arguments *)
Definition text (a : positive) (t : bytes) : Prop :=
  wf_bytes t ∧ ∃ r, os !! a = Some r ∧ obj_text r t ∧ sdsEncodedObject r = true.

Lemma text_ptr a t : text a t → ptr_text os a = Some t.
Proof.
  intros (_ & r & Hr & Ht & He). destruct (obj_sds r t Ht He) as (s & Hs & _ & Hl & Hp & _). unfold ptr_text, sds_contents.
  rewrite Hr. cbn [mbind option_bind]. rewrite Hs. cbn [mbind option_bind]. rewrite Hl. exact Hp.
Qed.

Lemma text_decoded a t : text a t → decoded os a = Some t.
Proof.
  intros Ht. pose proof (text_ptr a t Ht) as Hp. destruct Ht as (_ & r & Hr & _ & He). unfold decoded, ptr_text in *.
  rewrite Hr in *. cbn [mbind option_bind] in *. by rewrite He.
Qed.

Lemma text_long a t :
  text a t → getLongFromObjectOrReply os a =
    Some (match Util.string2ll t with Some n => inr n | None => inl NotIntegerErr end).
Proof.
  intros Ht. pose proof (text_ptr a t Ht) as Hp. destruct Ht as (_ & r & Hr & _ & He).
  unfold getLongFromObjectOrReply, getLongLongFromObject, ptr_text in *. rewrite Hr in *. cbn [mbind option_bind] in *.
  rewrite He. destruct (as_sds r) as [s|]; [|done]. cbn [mbind option_bind] in *. by rewrite Hp.
Qed.

(** ** The quicklist of an object *)
Definition lrep (h : heap qnode) (q : quicklist) (l : list bytes) : Prop :=
  ∃ xs sss, qrep h q xs sss ∧ plain xs ∧ compress q = 0 ∧ concat sss = l.

Lemma lrep_count h q l : lrep h q l → qcount q = zlen l ∧ zlen l < 2 ^ 28.
Proof.
  intros (xs & sss & Hq & _ & _ & <-). split; [apply Hq|]. pose proof (qrep_small _ _ _ _ Hq). lia.
Qed.

Lemma lrep_push h q l s w :
  lrep h q l → wf_bytes s → room (s :: l) →
  ∃ q' h', quicklistPush q h s w = Some (q', h') ∧
    lrep h' q' (match w with QUICKLIST_HEAD => s :: l | QUICKLIST_TAIL => l ++ [s] end).
Proof.
  intros (xs & sss & Hq & Hp & Hc & <-) Hs Hr.
  destruct (push_ok h q xs sss s w Hq) as (q' & h' & xs' & sss' & ? & ? & He & [_ Ho] & ?); [by apply plain_ends|done|done|].
  exists q', h'. split; [done|]. exists xs', sss'. rewrite Ho. split_and!; try done. apply (plain_ends q'); [congruence|done].
Qed.

Lemma lrep_pop h q l w :
  lrep h q l → l ≠ [] →
  ∃ q' h' s l', quicklistPopCustom q h w = Some (q', h', Some (zval_of s)) ∧ popped w l = Some (s, l') ∧ lrep h' q' l'.
Proof.
  intros (xs & sss & Hq & Hp & Hc & <-) Hne.
  destruct (pop_ok h q xs sss w Hq) as (q' & h' & r & xs' & sss' & Hrun & Hq' & He & [_ Ho] & Hcase); [by apply plain_ends|].
  assert (quicklistPopCustom q h w = Some (q', h', r)) as ->.
  { rewrite <-Hrun. unfold quicklistPop, quicklistPopCustom. by destruct (qcount q =? 0). }
  destruct (popped w (concat sss)) as [[s l']|] eqn:E.
  - destruct Hcase as [-> Hl]. exists q', h', s, l'. split; [done|]. split; [done|]. exists xs', sss'. rewrite Ho.
    split_and!; try done. apply (plain_ends q'); [congruence|done].
  - destruct w; simpl in E; [by destruct (concat sss)|]. destruct (reverse (concat sss)) eqn:Er; [|done].
    destruct Hne. by rewrite <-(reverse_involutive (concat sss)), Er.
Qed.

Lemma lrep_index h q l i :
  lrep h q l → - 2 ^ 63 ≤ i < 2 ^ 63 →
  match norm l i with
  | Some j => ∃ h' e s, l !! j = Some s ∧ quicklistIndex q h i = Some (h', e, true) ∧
      e_value e = Some (zval_of s) ∧ lrep h' q l
  | None => quicklistIndex q h i = Some (h, initEntry, false)
  end.
Proof.
  intros (xs & sss & Hq & Hp & Hc & <-) Hi. pose proof (qindex_ok h q xs sss i Hq Hi) as Hix.
  destruct (norm (concat sss) i) as [j|]; [|done].
  destruct Hix as (h' & xs' & e & i' & k & ss & s & Hrun & Hq' & Hid & [Hat] & Hss & Hs & _ & _ & Hl).
  destruct Hat as (p & d & b & z & ss' & s' & _ & _ & _ & Hss' & Hs' & _ & _ & _ & Hv).
  rewrite Hss in Hss'. injection Hss' as <-. rewrite Hs in Hs'. injection Hs' as <-.
  exists h', e, s. split_and!; try done. exists xs', sss. split_and!; try done.
  by rewrite (Hid Hc) by (by apply plain_ends).
Qed.

Lemma lrep_replace h q l i s :
  lrep h q l → - 2 ^ 63 ≤ i < 2 ^ 63 → wf_bytes s → room (s :: l) →
  match norm l i with
  | Some j => ∃ h', quicklistReplaceAtIndex q h i s = Some (h', true) ∧ lrep h' q (<[j := s]> l)
  | None => quicklistReplaceAtIndex q h i s = Some (h, false)
  end.
Proof.
  intros (xs & sss & Hq & Hp & Hc & <-) Hi Hs Hr. pose proof (qreplace_ok h q xs sss i s Hq Hi Hs Hr) as Hx.
  destruct (norm (concat sss) i) as [j|]; [|done]. destruct Hx as (h' & xs' & sss' & Hrun & Hq' & Hcat & He).
  exists h'. split; [done|]. exists xs', sss'. split_and!; try done. apply (plain_ends q); [done|].
  apply He; [done|]. by apply plain_ends.
Qed.

Lemma lrep_range h q l start cnt :
  lrep h q l → - 2 ^ 63 ≤ start ≤ 0 → cnt < 2 ^ 63 →
  ∃ q' h' b, quicklistDelRange q h start cnt = Some (q', h', b) ∧
    lrep h' q' (match norm l start with Some j => cut j (Z.to_nat cnt) l | None => l end).
Proof.
  intros (xs & sss & Hq & Hp & Hc & <-) Hs Hn. destruct (decide (cnt ≤ 0)).
  - exists q, h, false. unfold quicklistDelRange. destruct (Z.leb_spec cnt 0); [|lia]. split; [done|].
    exists xs, sss. split_and!; try done. destruct (norm (concat sss) start); [|done].
    unfold cut. by rewrite Z2Nat.nonpos, Nat.add_0_r, take_drop by lia.
  - pose proof (delRange_ok h q xs sss start cnt Hq Hs ltac:(lia)) as Hx.
    destruct (norm (concat sss) start) as [j|].
    + destruct Hx as (q' & h' & xs' & sss' & Hrun & Hq' & Hcat & [_ Ho] & Hp'). exists q', h', true. split; [done|].
      exists xs', sss'. rewrite Ho. split_and!; auto.
    + exists q, h, false. split; [done|]. by exists xs, sss.
Qed.

(** ** Iterators *)
Definition lit (h : heap qnode) (q : quicklist) (l : list bytes) (iter : quicklistIter) (t : nat) : Prop :=
  ∃ xs sss, qrep h q xs sss ∧ plain xs ∧ compress q = 0 ∧ concat sss = l ∧ iter_at xs sss iter t ∧ signed iter.

Definition lentry (h : heap qnode) (q : quicklist) (l : list bytes) (iter : quicklistIter) (e : quicklistEntry)
    (t : nat) (s : bytes) : Prop :=
  ∃ xs sss i k ss, qrep h q xs sss ∧ plain xs ∧ compress q = 0 ∧ concat sss = l ∧ iter_at xs sss iter (S t) ∧
    signed iter ∧ entry_at xs sss e i k ∧ t = place (direction iter) sss i k ∧ sss !! i = Some ss ∧ ss !! k = Some s ∧
    current iter = e_node e ∧ norm ss (offset iter) = Some k ∧ e_offset e = offset iter.

Lemma lit_rep h q l iter t : lit h q l iter t → lrep h q l.
Proof. intros (xs & sss & ? & ? & ? & ? & _). by exists xs, sss. Qed.

Lemma lentry_lit h q l iter e t s : lentry h q l iter e t s → lit h q l iter (S t).
Proof. intros (xs & sss & i & k & ss & ? & ? & ? & ? & ? & ? & _). by exists xs, sss. Qed.

Lemma lit_next h q l iter t :
  lit h q l iter t →
  match in_order (direction iter) l !! t with
  | Some s => ∃ h' iter' e, quicklistNext q h iter = Some (h', iter', e, true) ∧ lentry h' q l iter' e t s ∧
      direction iter' = direction iter ∧ e_value e = Some (zval_of s)
  | None => ∃ h' iter' e, quicklistNext q h iter = Some (h', iter', e, false) ∧ lrep h' q l
  end.
Proof.
  intros (xs & sss & Hq & Hp & Hc & <- & Hit & Hs). pose proof (qnext_ok h q xs sss iter t Hq Hit) as Hg. unfold next_gives in Hg.
  destruct (in_order (direction iter) (concat sss) !! t) as [s|].
  - destruct Hg as (h' & xs' & iter' & e & i & k & ss & Hrun & Hq' & Hit' & Hd & Hs' & Hat & Ht & Hv & Hss & Hk & Hcur & Hn & Ho & Hp').
    exists h', iter', e. split; [done|]. split; [|done]. exists xs', sss, i, k, ss. rewrite Hd. split_and!; auto.
  - destruct Hg as (h' & xs' & iter' & e & Hrun & Hq' & _ & Hp'). exists h', iter', e. split; [done|].
    exists xs', sss. split_and!; auto.
Qed.

Lemma lentry_equal h q l iter e t s a s' :
  lentry h q l iter e t s → text a s' →
  listTypeEqual os (OBJ_ENCODING_QUICKLIST q) h e a = Some (bool_decide (s = s')).
Proof.
  intros (xs & sss & i & k & ss & Hq & _ & _ & _ & _ & _ & [Hat] & _ & Hss & Hs & _) Ht.
  destruct Hat as (p & d & b & z & ss' & s0 & Hi & Hr & Hz & Hss' & _ & Hzat & Hen & Hez & _).
  rewrite Hss in Hss'. injection Hss' as <-. pose proof (text_ptr a s' Ht) as Hptr. destruct Ht as (_ & r & Hr' & _ & He).
  unfold listTypeEqual. rewrite Hr'. cbn [mbind option_bind]. rewrite He, Hptr, Hen. cbn [mbind option_bind].
  unfold node_at. rewrite (seg_lookup _ _ _ _ _ (l_seg _ _ _ (q_linked _ _ _ _ Hq)) Hi).
  cbn [fmap option_fmap option_map mbind option_bind value]. unfold zlof. rewrite Hz. cbn [mbind option_bind]. rewrite Hez.
  cbn [mbind option_bind]. exact (@packed_compare_ok bytes Z _ ziplist_packed_ok b ss k z s s' Hzat Hs).
Qed.

Lemma lentry_delete h q l iter e t s :
  lentry h q l iter e t s →
  ∃ q' h' iter' l', quicklistDelEntry q h iter e = Some (q', h', iter') ∧ lit h' q' l' iter' t ∧
    direction iter' = direction iter ∧ in_order (direction iter) l' = without t (in_order (direction iter) l).
Proof.
  intros (xs & sss & i & k & ss & Hq & Hp & Hc & <- & _ & Hsg & Hat & -> & Hss & Hs & Hcur & Hn & _).
  destruct (delEntry_ok h q xs sss iter e i k ss Hq Hat Hss Hcur Hsg Hn) as (q' & h' & iter' & xs' & Hrun & Hq' & Hit & Hd & Hsg' & [_ Ho] & Hp').
  pose proof (lookup_lt_Some _ _ _ Hs) as Hk. destruct (flat_lookup sss i ss k Hss Hk) as [_ Hlt].
  exists q', h', iter', (concat (del_nodes i k ss sss)). split; [done|]. split; [|split; [done|]].
  - exists xs', (del_nodes i k ss sss). rewrite Ho. split_and!; auto.
  - rewrite (del_nodes_flat sss i k ss Hss Hk). apply in_order_del; [done|]. unfold place. by destruct (direction iter).
Qed.

Lemma lentry_insert h q l iter e t s s' (after : bool) :
  lentry h q l iter e t s → direction iter = AL_START_HEAD → wf_bytes s' → room (s' :: l) →
  ∃ q' h', _quicklistInsert q h e s' after = Some (q', h') ∧ lrep h' q' (ins_at (if after then S t else t) s' l).
Proof.
  intros (xs & sss & i & k & ss & Hq & Hp & Hc & <- & _ & Hsg & Hat & -> & Hss & Hs & _ & Hn & Ho) Hd Hw Hr.
  assert (e_offset e = Z.of_nat k) as Hoff.
  { rewrite Ho. apply norm_cases in Hn as [_ Hn]. unfold signed in Hsg. rewrite Hd in Hsg. lia. }
  destruct (insert_entry_ok h q xs sss e i k ss s' after Hq Hat Hss Hoff Hw Hr) as (q' & h' & xs' & sss' & Hrun & Hq' & Hcat & [_ Hco] & Hp').
  exists q', h'. split; [done|]. exists xs', sss'. rewrite Hco. split_and!; auto. rewrite Hcat. unfold place. rewrite Hd.
  f_equal. destruct after; lia.
Qed.

Lemma lit_start h q l idx dir :
  lrep h q l → - 2 ^ 63 ≤ idx < 2 ^ 63 → match dir with AL_START_HEAD => 0 ≤ idx | AL_START_TAIL => idx < 0 end →
  match norm l idx with
  | Some j => ∃ h' iter, quicklistGetIteratorAtIdx q h dir idx = Some (h', Some iter) ∧ direction iter = dir ∧
      lit h' q l iter (match dir with AL_START_HEAD => j | AL_START_TAIL => length l - 1 - j end)
  | None => quicklistGetIteratorAtIdx q h dir idx = Some (h, None)
  end.
Proof.
  intros (xs & sss & Hq & Hp & Hc & <-) Hi Hd. pose proof (at_idx_ok h q xs sss dir idx Hq Hi) as Hx.
  destruct (norm (concat sss) idx) as [j|]; [|done].
  destruct Hx as (h' & xs' & iter & Hrun & Hq' & Hit & Hdir & Hs & Hp'). exists h', iter. split_and!; try done.
  exists xs', sss. split_and!; auto.
Qed.
End ListSpec.
