(* ===== verification/ListCommands.v ===== *)
(** * The list commands on a key

    A session of list commands on one key, with the nodes of its list not
    compressed, answers as the commands on a list of strings: [run_cmds] runs the
    model of t_list.c, [spec_cmds] the specification. *)

From Stdlib Require Import String.
From S2P Require Import Prelude.
From S2P Require Import Mem.
From S2P Require Import Util.
From S2P Require Import Ziplist.
From S2P Require Import ZiplistOps.
From S2P Require Import ZiplistSpec.
From S2P Require Import Packed.
From S2P Require Import Adlist.
From S2P Require Import Sds.
From S2P Require Import SdsSpec.
From S2P Require Import Object.
From S2P Require Import ObjectSpec.
From S2P Require Import Quicklist.
From S2P Require Import QuicklistRepr.
From S2P Require Import QuicklistSpec.
From S2P Require Import QuicklistMerge.
From S2P Require Import QuicklistInsert.
From S2P Require Import QuicklistRange.
From S2P Require Import QuicklistIter.
From S2P Require Import ListType.
From S2P Require Import ListSpec.
Import Ziplist Quicklist Packed ListType.
Import Adlist(AL_START_HEAD, AL_START_TAIL).
Import Object(robj).

#[local] Notation length := Datatypes.length.

(** ** Specification *)

(** The value of the key. *)
Inductive aval := ANone | AOther | AList (l : list bytes).

Inductive lcmd :=
  | LPUSH (w : list_where) (argv : list positive)
  | LPUSHX (w : list_where) (argv : list positive)
  | LINSERT (pos pivot value : positive)
  | LLEN
  | LINDEX (index : positive)
  | LSET (index value : positive)
  | LPOP (w : list_where)
  | LRANGE (start stop : positive)
  | LTRIM (start stop : positive)
  | LREM (count obj : positive).

Definition pushes (w : list_where) (ts l : list bytes) : list bytes :=
  match w with LIST_HEAD => reverse ts ++ l | LIST_TAIL => l ++ ts end.

(** A list that became empty is no list any more. *)
Definition norm_val (l : list bytes) : aval := if bool_decide (l = []) then ANone else AList l.

(** Before or after the first string that equals the pivot. *)
Fixpoint insert_spec (w : list_where) (pivot value : bytes) (l : list bytes) : option (list bytes) :=
  match l with
  | [] => None
  | x :: l =>
      if bool_decide (x = pivot) then Some (match w with LIST_HEAD => value :: x :: l | LIST_TAIL => x :: value :: l end)
      else cons x <$> insert_spec w pivot value l
  end.

(** The range of two indices, as a start and a length. *)
Definition range_of (llen start stop : Z) : option (nat * nat) :=
  let start := Z.max 0 (if start <? 0 then llen + start else start) in
  let stop := Z.min (llen - 1) (if stop <? 0 then llen + stop else stop) in
  if start <=? stop then Some (Z.to_nat start, Z.to_nat (stop - start + 1)) else None.

(** Without the first [n] occurrences of [s], or without all of them if [n] is 0;
    [r] have been removed before. *)
Fixpoint remove_spec (n r : Z) (s : bytes) (l : list bytes) : list bytes * Z :=
  match l with
  | [] => ([], r)
  | x :: l =>
      if bool_decide (x = s) then
        if negb (n =? 0) && (r + 1 =? n) then (l, r + 1) else remove_spec n (r + 1) s l
      else let '(l', r') := remove_spec n r s l in (x :: l', r')
  end.

Section Spec.
Variable T : positive → bytes.

Definition after_before (t : bytes) : option list_where :=
  if strcaseeq t (bytes_of "after") then Some LIST_TAIL
  else if strcaseeq t (bytes_of "before") then Some LIST_HEAD else None.

(** A command that needs a list. *)
Definition on_list (v : aval) (missing : reply) (f : list bytes → aval * reply) : aval * reply :=
  match v with ANone => (v, missing) | AOther => (v, WrongTypeErr) | AList l => f l end.

Definition spec_cmd (c : lcmd) (v : aval) : aval * reply :=
  match c with
  | LPUSH w argv =>
      match v with
      | AOther => (v, WrongTypeErr)
      | _ => let l := pushes w (T <$> argv) (match v with AList l => l | _ => [] end) in
             (norm_val l, ReplyInt (zlen l))
      end
  | LPUSHX w argv =>
      on_list v (ReplyInt 0) (λ l, (AList (pushes w (T <$> argv) l), ReplyInt (zlen (pushes w (T <$> argv) l))))
  | LINSERT pos pivot value =>
      match after_before (T pos) with
      | None => (v, SyntaxErr)
      | Some w =>
          on_list v (ReplyInt 0) (λ l,
            match insert_spec w (T pivot) (T value) l with
            | Some l' => (AList l', ReplyInt (zlen l'))
            | None => (v, ReplyNegOne)
            end)
      end
  | LLEN => on_list v (ReplyInt 0) (λ l, (v, ReplyInt (zlen l)))
  | LINDEX index =>
      on_list v ReplyNull (λ l,
        match Util.string2ll (T index) with
        | None => (v, NotIntegerErr)
        | Some i => (v, match norm l i ≫= (l !!.) with Some s => ReplyBulk (Some (zval_of s)) | None => ReplyNull end)
        end)
  | LSET index value =>
      on_list v NoKeyErr (λ l,
        match Util.string2ll (T index) with
        | None => (v, NotIntegerErr)
        | Some i => match norm l i with Some j => (AList (<[j := T value]> l), ReplyOk) | None => (v, OutOfRangeErr) end
        end)
  | LPOP w =>
      on_list v ReplyNull (λ l,
        match popped (match w with LIST_HEAD => QUICKLIST_HEAD | LIST_TAIL => QUICKLIST_TAIL end) l with
        | Some (s, l') => (norm_val l', ReplyBulk (Some (zval_of s)))
        | None => (v, ReplyNull)
        end)
  | LRANGE start stop =>
      match Util.string2ll (T start), Util.string2ll (T stop) with
      | Some a, Some b =>
          on_list v ReplyEmptyMulti (λ l,
            (v, match range_of (zlen l) a b with
                | Some (i, n) => ReplyMulti ((λ s, Some (zval_of s)) <$> take n (drop i l))
                | None => ReplyEmptyMulti
                end))
      | _, _ => (v, NotIntegerErr)
      end
  | LTRIM start stop =>
      match Util.string2ll (T start), Util.string2ll (T stop) with
      | Some a, Some b =>
          on_list v ReplyOk (λ l,
            (match range_of (zlen l) a b with Some (i, n) => norm_val (take n (drop i l)) | None => ANone end, ReplyOk))
      | _, _ => (v, NotIntegerErr)
      end
  | LREM count obj =>
      match Util.string2ll (T count) with
      | None => (v, NotIntegerErr)
      | Some n =>
          on_list v (ReplyInt 0) (λ l,
            let '(l', r) := if n <? 0 then remove_spec (swrap 64 (- n)) 0 (T obj) (reverse l) else remove_spec n 0 (T obj) l in
            (norm_val (if n <? 0 then reverse l' else l'), ReplyInt r))
      end
  end.

(** What a command can add to the strings. *)
Definition cmd_cost (c : lcmd) : Z :=
  match c with
  | LPUSH _ argv | LPUSHX _ argv => budget (T <$> argv)
  | LINSERT _ _ value | LSET _ value => zlen (T value) + 17
  | _ => 0
  end.
End Spec.

(** The arguments of a command. *)
Definition cmd_args (c : lcmd) : list positive :=
  match c with
  | LPUSH _ argv | LPUSHX _ argv => argv
  | LINSERT pos pivot value => [pos; pivot; value]
  | LLEN | LPOP _ => []
  | LINDEX index => [index]
  | LSET a b | LRANGE a b | LTRIM a b | LREM a b => [a; b]
  end.

(** The commands with the settings of the server: the fill factor and the depth of
    compression. *)
Section Run.
Context `{Alloc} `{Compressor}.
Context (os : gmap positive robj) (list_max_ziplist_size list_compress_depth : Z).

Definition run_cmd (c : lcmd) (st : cstate) : option (cstate * reply) :=
  match c with
  | LPUSH w argv => pushGenericCommand os list_max_ziplist_size list_compress_depth st argv w
  | LPUSHX w argv => pushxGenericCommand os list_max_ziplist_size list_compress_depth st argv w
  | LINSERT pos pivot value => linsertCommand os st pos pivot value
  | LLEN => llenCommand st
  | LINDEX index => lindexCommand os st index
  | LSET index value => lsetCommand os st index value
  | LPOP w => popGenericCommand st w
  | LRANGE start stop => lrangeCommand os st start stop
  | LTRIM start stop => ltrimCommand os st start stop
  | LREM count obj => lremCommand os st count obj
  end.

Fixpoint run_cmds (cs : list lcmd) (st : cstate) : option (cstate * list reply) :=
  match cs with
  | [] => Some (st, [])
  | c :: cs => '(st, r) ← run_cmd c st; '(st, rs) ← run_cmds cs st; Some (st, r :: rs)
  end.

End Run.

(** From here on the depth of compression is 0, its default: no node is compressed. *)
Section Commands.
Context `{Alloc} `{CompressorOk}.
Context (os : gmap positive robj) (list_max_ziplist_size : Z) (T : positive → bytes).

(** The key holds the value. *)
Definition krep (st : cstate) (v : aval) : Prop :=
  match v with
  | ANone => key st = None
  | AOther => key st = Some KOther
  | AList l => ∃ q, key st = Some (KList (OBJ_ENCODING_QUICKLIST q)) ∧ lrep (qnodes st) q l ∧ l ≠ []
  end.

(** A command does what the specification says. *)
Definition refines (c : lcmd) (st : cstate) (v : aval) : Prop :=
  ∃ st' r, run_cmd os list_max_ziplist_size 0 c st = Some (st', r) ∧ krep st' (spec_cmd T c v).1 ∧ r = (spec_cmd T c v).2.

Definition args_ok (c : lcmd) : Prop := Forall (λ a, text os a (T a)) (cmd_args c).

Lemma on_list_cases st v missing :
  krep st v →
  match v with
  | ANone => list_or_reply st missing = inl missing
  | AOther => list_or_reply st missing = inl WrongTypeErr
  | AList l => ∃ q, list_or_reply st missing = inr (OBJ_ENCODING_QUICKLIST q) ∧ key st = Some (KList (OBJ_ENCODING_QUICKLIST q)) ∧
      lrep (qnodes st) q l ∧ l ≠ []
  end.
Proof.
  unfold list_or_reply. destruct v as [| |l]; simpl; [by intros ->|by intros ->|]. intros (q & -> & ? & ?). by exists q.
Qed.

(** The commands that only read. *)
Lemma llen_refines st v : krep st v → refines LLEN st v.
Proof.
  intros Hv. unfold refines. simpl. unfold llenCommand. pose proof (on_list_cases st v (ReplyInt 0) Hv) as Hl.
  destruct v as [| |l]; simpl; [rewrite Hl; eauto..|]. destruct Hl as (q & -> & Hk & Hq & Hne). cbn [mbind option_bind listTypeLength].
  exists st. eexists. split; [done|]. split; [by exists q|]. simpl. unfold quicklistCount.
  by rewrite (proj1 (lrep_count _ _ _ Hq)).
Qed.

Lemma string2ll_long t n : Util.string2ll t = Some n → - 2 ^ 63 ≤ n < 2 ^ 63.
Proof. intros [Hn _]%Util.string2ll_sound. exact Hn. Qed.

Lemma lindex_refines st v i : krep st v → args_ok (LINDEX i) → refines (LINDEX i) st v.
Proof.
  intros Hv Ha. apply Forall_cons in Ha as [Ht _]. unfold refines. simpl. unfold lindexCommand.
  pose proof (on_list_cases st v ReplyNull Hv) as Hl. destruct v as [| |l]; simpl; [rewrite Hl; eauto..|].
  destruct Hl as (q & -> & Hk & Hq & Hne). rewrite (text_long os i _ Ht). cbn [mbind option_bind].
  destruct (Util.string2ll (T i)) as [n|] eqn:E; [|exists st; eexists; split; [done|]; split; [by exists q|done]].
  pose proof (lrep_index _ _ _ n Hq (string2ll_long _ _ E)) as Hix. destruct (norm l n) as [j|]; cbn [mbind option_bind].
  - destruct Hix as (h' & e & s & Hs & -> & Hv' & Hq'). cbn [mbind option_bind]. do 2 eexists. split; [done|].
    split; [by exists q|]. by rewrite Hs, Hv'.
  - rewrite Hix. cbn [mbind option_bind]. do 2 eexists. split; [done|]. split; [by exists q|done].
Qed.

(** ** Replacing and popping *)
Lemma lset_refines st v i a :
  krep st v → args_ok (LSET i a) → (∀ l, v = AList l → 40 + budget l + cmd_cost T (LSET i a) < 2 ^ 32) → refines (LSET i a) st v.
Proof.
  intros Hv Ha Hroom. apply Forall_cons in Ha as [Ht [Hta _]%Forall_cons]. unfold refines. simpl. unfold lsetCommand.
  pose proof (on_list_cases st v NoKeyErr Hv) as Hl. destruct v as [| |l]; simpl; [rewrite Hl; eauto..|].
  destruct Hl as (q & -> & Hk & Hq & Hne). rewrite (text_long os i _ Ht). cbn [mbind option_bind].
  destruct (Util.string2ll (T i)) as [n|] eqn:E; [|exists st; eexists; split; [done|]; split; [by exists q|done]].
  rewrite (text_ptr os a _ Hta). cbn [mbind option_bind].
  pose proof (lrep_replace _ _ _ n (T a) Hq (string2ll_long _ _ E) (proj1 Hta)) as Hix.
  destruct (norm l n) as [j|]; cbn [mbind option_bind].
  - destruct Hix as (h' & -> & Hq').
    { specialize (Hroom l eq_refl). unfold room. simpl in *. lia. }
    cbn [mbind option_bind]. do 2 eexists. split; [done|]. split; [|done]. exists q. split_and!; try done.
    intros Hn. apply Hne. apply (f_equal length) in Hn. rewrite length_insert in Hn. by destruct l.
  - rewrite Hix; [|specialize (Hroom l eq_refl); unfold room; simpl in *; lia]. cbn [mbind option_bind].
    do 2 eexists. split; [done|]. split; [by exists q|done].
Qed.

Lemma norm_val_rep q h l d es :
  lrep h q l → l ≠ [] → krep (CState (Some (KList (OBJ_ENCODING_QUICKLIST q))) h d es) (norm_val l).
Proof. intros Hq Hne. unfold norm_val. rewrite bool_decide_eq_false_2 by done. by exists q. Qed.

Lemma lrep_empty h q l : lrep h q l → (qcount q =? 0) = bool_decide (l = []).
Proof.
  intros Hq. rewrite (proj1 (lrep_count _ _ _ Hq)). unfold zlen. by destruct l.
Qed.

Lemma pop_refines st v w : krep st v → refines (LPOP w) st v.
Proof.
  intros Hv. unfold refines. simpl. unfold popGenericCommand.
  pose proof (on_list_cases st v ReplyNull Hv) as Hl. destruct v as [| |l]; simpl; [rewrite Hl; eauto..|].
  destruct Hl as (q & -> & Hk & Hq & Hne). unfold listTypePop.
  set (w' := match w with LIST_HEAD => QUICKLIST_HEAD | LIST_TAIL => QUICKLIST_TAIL end).
  destruct (lrep_pop _ _ _ w' Hq Hne) as (q' & h' & s & l' & -> & -> & Hq'). cbn [mbind option_bind listTypeLength].
  unfold quicklistCount. rewrite (lrep_empty _ _ _ Hq'). do 2 eexists. split; [done|]. split; [|done]. unfold norm_val. simpl.
  destruct (bool_decide_reflect (l' = [])) as [-> |Hl']; [done|]. by exists q'.
Qed.

(** ** Pushing *)
Lemma budget_room ts s l : 40 + budget (s :: ts) + budget l < 2 ^ 32 → room (s :: l) ∧ 40 + budget ts + (zlen s + 17 + budget l) < 2 ^ 32.
Proof. unfold room. simpl. pose proof (budget_nonneg ts). zlen_pos. lia. Qed.

Lemma push_args_ok w argv : ∀ (lobj : option listobj) h q l,
  (lobj = Some (OBJ_ENCODING_QUICKLIST q) ∨ lobj = None ∧ q = quicklistSetOptions quicklistCreate list_max_ziplist_size 0) →
  lrep h q l → Forall (λ a, text os a (T a)) argv → 40 + budget (T <$> argv) + budget l < 2 ^ 32 →
  ∃ h' q', push_args os list_max_ziplist_size 0 lobj h argv w =
      Some (if bool_decide (argv = []) then lobj else Some (OBJ_ENCODING_QUICKLIST q'), h') ∧
    lrep h' q' (pushes w (T <$> argv) l) ∧ (argv = [] → q' = q).
Proof.
  induction argv as [|a argv IH]; intros lobj h q l Hlobj Hq Ha Hc.
  { exists h, q. split; [done|]. split; [|done]. unfold pushes. destruct w; [done|]. by rewrite app_nil_r. }
  apply Forall_cons in Ha as [Ht Ha]. rewrite fmap_cons in Hc. destruct (budget_room _ _ _ Hc) as [Hr Hc'].
  set (w' := match w with LIST_HEAD => QUICKLIST_HEAD | LIST_TAIL => QUICKLIST_TAIL end).
  destruct (lrep_push _ _ _ (T a) w' Hq (proj1 Ht) Hr) as (q1 & h1 & Hrun & Hq1).
  destruct (IH (Some (OBJ_ENCODING_QUICKLIST q1)) h1 q1 _ (or_introl eq_refl) Hq1 Ha) as (h2 & q2 & Hrun2 & Hq2 & Hid).
  { unfold w'. destruct w; [simpl|rewrite budget_app; simpl]; lia. }
  exists h2, q2. split; [|split; [|done]].
  - simpl. replace (match lobj with Some l0 => l0 | None => _ end) with (OBJ_ENCODING_QUICKLIST q)
      by (destruct Hlobj as [-> |[-> ->]]; done).
    unfold listTypePush. rewrite (text_decoded os a _ Ht). cbn [mbind option_bind]. fold w'. rewrite Hrun. cbn [mbind option_bind].
    rewrite Hrun2. destruct argv; [|done]. by rewrite (Hid eq_refl).
  - rewrite fmap_cons. unfold w' in Hq2. destruct w; unfold pushes in *.
    + by rewrite reverse_cons, <-app_assoc.
    + by rewrite <-app_assoc in Hq2.
Qed.

Lemma lrep_new h : lrep h (quicklistSetOptions quicklistCreate list_max_ziplist_size 0) [].
Proof.
  destruct (qrep_new h list_max_ziplist_size 0) as [Hq _]. exists [], []. split; [exact Hq|]. split; [constructor|done].
Qed.

Lemma pushes_ne w argv l : argv ≠ [] ∨ l ≠ [] → pushes w (T <$> argv) l ≠ [].
Proof.
  intros Hne Hn. apply (f_equal length) in Hn. unfold pushes in Hn.
  destruct w; rewrite length_app, ?length_reverse, length_fmap, length_nil in Hn; destruct argv, l; simpl in *; try lia; tauto.
Qed.

Lemma push_refines st v w argv :
  krep st v → args_ok (LPUSH w argv) → argv ≠ [] →
  40 + cmd_cost T (LPUSH w argv) + budget (match v with AList l => l | _ => [] end) < 2 ^ 32 → refines (LPUSH w argv) st v.
Proof.
  intros Hv Ha Hne Hc. unfold refines. cbn [run_cmd spec_cmd]. unfold pushGenericCommand.
  assert (∀ (lobj : option listobj) q l,
    (lobj = Some (OBJ_ENCODING_QUICKLIST q) ∨ lobj = None ∧ q = quicklistSetOptions quicklistCreate list_max_ziplist_size 0) →
    lrep (qnodes st) q l → 40 + budget (T <$> argv) + budget l < 2 ^ 32 →
    ∃ st' r, ('(lobj, h) ← push_args os list_max_ziplist_size 0 lobj (qnodes st) argv w;
      n ← match lobj with Some l => listTypeLength l | None => Some 0 end;
      let st := match lobj with Some l => set_list st l h | None => st end in
      let st := if bool_decide (argv = []) then st else emit st (push_event w) in
      Some (add_dirty st (zlen argv), ReplyInt n)) = Some (st', r) ∧
      krep st' (norm_val (pushes w (T <$> argv) l)) ∧ r = ReplyInt (zlen (pushes w (T <$> argv) l))) as Hmain.
  { intros lobj q l Hl Hq Hcl. destruct (push_args_ok w argv lobj (qnodes st) q l Hl Hq Ha Hcl) as (h' & q' & -> & Hq' & _).
    rewrite bool_decide_eq_false_2 by done. cbn [mbind option_bind listTypeLength]. do 2 eexists. split; [done|].
    split; [apply norm_val_rep; [done|by apply pushes_ne; left]|]. unfold quicklistCount. by rewrite (proj1 (lrep_count _ _ _ Hq')). }
  destruct v as [| |l]; simpl in Hv.
  - rewrite Hv. eapply (Hmain None); [by right|apply lrep_new|done].
  - rewrite Hv. do 2 eexists. split; [done|]. by split.
  - destruct Hv as (q & -> & Hq & Hl). apply (Hmain (Some (OBJ_ENCODING_QUICKLIST q)) q l); [by left|done|done].
Qed.

Lemma pushx_refines st v w argv :
  krep st v → args_ok (LPUSHX w argv) →
  40 + cmd_cost T (LPUSHX w argv) + budget (match v with AList l => l | _ => [] end) < 2 ^ 32 → refines (LPUSHX w argv) st v.
Proof.
  intros Hv Ha Hc. unfold refines. cbn [run_cmd spec_cmd]. unfold pushxGenericCommand, on_list.
  pose proof (on_list_cases st v (ReplyInt 0) Hv) as Hl. destruct v as [| |l]; [rewrite Hl; eauto..|].
  destruct Hl as (q & -> & Hk & Hq & Hne).
  destruct (push_args_ok w argv (Some (OBJ_ENCODING_QUICKLIST q)) (qnodes st) q l (or_introl eq_refl) Hq Ha Hc) as (h' & q' & -> & Hq' & Hid).
  cbn [mbind option_bind]. assert ((if bool_decide (argv = []) then Some (OBJ_ENCODING_QUICKLIST q) else Some (OBJ_ENCODING_QUICKLIST q'))
    = Some (OBJ_ENCODING_QUICKLIST q')) as ->.
  { destruct (bool_decide_reflect (argv = [])) as [E|]; [by rewrite (Hid E)|done]. }
  cbn [mbind option_bind listTypeLength]. do 2 eexists. split; [done|]. unfold quicklistCount. rewrite (proj1 (lrep_count _ _ _ Hq')).
  split; [|done]. exists q'. destruct (bool_decide (argv = [])); split_and!; try done; apply pushes_ne; by right.
Qed.

(** ** Ranges *)

(** The indices as the code computes them. *)
Lemma range_code {A} llen a b (none : A) (some : Z → Z → A) :
  0 ≤ llen →
  (let start := if a <? 0 then llen + a else a in
   let stop := if b <? 0 then llen + b else b in
   let start := if start <? 0 then 0 else start in
   if (start >? stop) || (start >=? llen) then none
   else some start (if stop >=? llen then llen - 1 else stop)) =
  match range_of llen a b with
  | Some (i, n) => some (Z.of_nat i) (Z.of_nat i + Z.of_nat n - 1)
  | None => none
  end.
Proof.
  intros Hl. cbv zeta. unfold range_of. set (a' := if a <? 0 then llen + a else a). set (b' := if b <? 0 then llen + b else b).
  replace (if a' <? 0 then 0 else a') with (Z.max 0 a') by (destruct (Z.ltb_spec a' 0); lia).
  destruct (Z.gtb_spec (Z.max 0 a') b'), (Z.geb_spec (Z.max 0 a') llen); cbn [orb];
    destruct (Z.leb_spec (Z.max 0 a') (Z.min (llen - 1) b')); try lia; try done.
  f_equal; [lia|]. destruct (Z.geb_spec b' llen); lia.
Qed.

Lemma range_of_bounds llen a b i n : range_of llen a b = Some (i, n) → (0 < n)%nat ∧ Z.of_nat i + Z.of_nat n ≤ llen.
Proof.
  unfold range_of. destruct (Z.leb_spec (Z.max 0 (if a <? 0 then llen + a else a)) (Z.min (llen - 1) (if b <? 0 then llen + b else b)));
    [|done]. intros [= <- <-]. lia.
Qed.

Lemma norm_nat (l : list bytes) i : (i < length l)%nat → norm l (Z.of_nat i) = Some i.
Proof. intros Hi. apply norm_either; [done|by left]. Qed.

Lemma lrange_loop_ok n : ∀ h q l li iter t,
  li_iter li = Some iter → direction iter = AL_START_HEAD → lit h q l iter t → (t + n ≤ length l)%nat →
  ∃ h', lrange_loop n (OBJ_ENCODING_QUICKLIST q) h li = Some (h', (λ s, Some (zval_of s)) <$> take n (drop t l)) ∧ lrep h' q l.
Proof.
  induction n as [|n IH]; intros h q l li iter t Hli Hd Hit Hn.
  { exists h. split; [done|]. by eapply lit_rep. }
  pose proof (lit_next h q l iter t Hit) as Hx. rewrite Hd in Hx. simpl in Hx.
  destruct (lookup_lt_is_Some_2 l t ltac:(lia)) as [s Hs]. rewrite Hs in Hx.
  destruct Hx as (h1 & iter1 & e & Hrun & Hent & Hd1 & Hv).
  simpl. rewrite Hli, Hrun. cbn [mbind option_bind].
  destruct (IH h1 q l (ListTypeIterator (li_direction li) (Some iter1)) iter1 (S t)) as (h2 & -> & Hq2);
    [done|done|by eapply lentry_lit|lia|].
  cbn [mbind option_bind]. exists h2. rewrite Hv, (drop_S l s t Hs). done.
Qed.

Lemma lrange_refines st v a b : krep st v → args_ok (LRANGE a b) → refines (LRANGE a b) st v.
Proof.
  intros Hv Ha. apply Forall_cons in Ha as [Hta [Htb _]%Forall_cons]. unfold refines. cbn [run_cmd spec_cmd].
  unfold lrangeCommand. rewrite (text_long os a _ Hta), (text_long os b _ Htb). cbn [mbind option_bind].
  destruct (Util.string2ll (T a)) as [x|] eqn:Ea; [|eauto]. cbn [mbind option_bind].
  destruct (Util.string2ll (T b)) as [y|] eqn:Eb; [|eauto].
  pose proof (on_list_cases st v ReplyEmptyMulti Hv) as Hl. unfold on_list. destruct v as [| |l]; [rewrite Hl; eauto..|].
  destruct Hl as (q & -> & Hk & Hq & Hne). cbn [mbind option_bind listTypeLength]. destruct (lrep_count _ _ _ Hq) as [Hqc Hsm].
  unfold quicklistCount. rewrite Hqc. zlen_pos.
  set (run := λ s e : Z, '(h, iter) ← listTypeInitIterator (OBJ_ENCODING_QUICKLIST q) (qnodes st) s LIST_TAIL;
    '(h, vs) ← lrange_loop (Z.to_nat (e - s + 1)) (OBJ_ENCODING_QUICKLIST q) h iter;
    Some (set_list st (OBJ_ENCODING_QUICKLIST q) h, ReplyMulti vs)).
  pose proof (range_code (zlen l) x y (Some (st, ReplyEmptyMulti)) run ltac:(lia)) as Hrange. cbv zeta in Hrange.
  unfold run in Hrange at 1. cbv beta in Hrange. rewrite Hrange. clear Hrange.
  destruct (range_of (zlen l) x y) as [[i n]|] eqn:Er; [|exists st; eexists; split; [done|]; split; [by exists q|done]].
  apply range_of_bounds in Er as [Hn Hin]. unfold zlen in Hin, Hsm. unfold run, listTypeInitIterator.
  pose proof (lit_start _ _ _ (Z.of_nat i) AL_START_HEAD Hq ltac:(lia) (Zle_0_nat i)) as Hst. rewrite norm_nat in Hst by lia.
  destruct Hst as (h1 & iter & -> & Hd & Hit). cbn [mbind option_bind].
  replace (Z.to_nat (Z.of_nat i + Z.of_nat n - 1 - Z.of_nat i + 1)) with n by lia.
  destruct (lrange_loop_ok n h1 q l (ListTypeIterator LIST_TAIL (Some iter)) iter i eq_refl Hd Hit ltac:(lia)) as (h2 & -> & Hq2).
  cbn [mbind option_bind]. do 2 eexists. split; [done|]. split; [by exists q|done].
Qed.

Lemma norm_zero (l : list bytes) : l ≠ [] → norm l 0 = Some 0%nat.
Proof. intros Hl. apply (norm_nat l 0). destruct l; [done|simpl; lia]. Qed.

(** The two deletions of a trim. *)
Lemma ltrim_ok h q l (i m r : nat) :
  lrep h q l → l ≠ [] → (i + m + r = length l)%nat → (0 < m)%nat →
  ∃ q1 h1 b1 q2 h2 b2, quicklistDelRange q h 0 (Z.of_nat i) = Some (q1, h1, b1) ∧
    quicklistDelRange q1 h1 (- Z.of_nat r) (Z.of_nat r) = Some (q2, h2, b2) ∧ lrep h2 q2 (take m (drop i l)).
Proof.
  intros Hq Hne Hl Hm. pose proof (proj2 (lrep_count _ _ _ Hq)) as Hsm. unfold zlen in Hsm.
  destruct (lrep_range h q l 0 (Z.of_nat i) Hq ltac:(lia) ltac:(lia)) as (q1 & h1 & b1 & Hrun1 & Hq1).
  rewrite norm_zero in Hq1 by done. unfold cut in Hq1. rewrite Nat2Z.id in Hq1. simpl in Hq1.
  destruct (lrep_range h1 q1 (drop i l) (- Z.of_nat r) (Z.of_nat r) Hq1 ltac:(lia) ltac:(lia)) as (q2 & h2 & b2 & Hrun2 & Hq2).
  exists q1, h1, b1, q2, h2, b2. split; [done|]. split; [done|].
  assert (length (drop i l) = (m + r)%nat) as Hdl by (rewrite length_drop; lia).
  destruct r as [|r].
  - rewrite (take_ge (drop i l)) by lia. destruct (norm (drop i l) _); [|done]. unfold cut in Hq2.
    by rewrite Nat.add_0_r, take_drop in Hq2.
  - rewrite (norm_either (drop i l) _ m) in Hq2; [|lia|right; unfold zlen; lia]. unfold cut in Hq2.
    rewrite (drop_ge (drop i l)), app_nil_r in Hq2; [done|]. rewrite Nat2Z.id. lia.
Qed.

Lemma trim_all h q l :
  lrep h q l → l ≠ [] →
  ∃ q1 h1 b1 q2 h2 b2, quicklistDelRange q h 0 (zlen l) = Some (q1, h1, b1) ∧
    quicklistDelRange q1 h1 (- 0) 0 = Some (q2, h2, b2) ∧ lrep h2 q2 [].
Proof.
  intros Hq Hne. pose proof (proj2 (lrep_count _ _ _ Hq)) as Hsm.
  destruct (lrep_range h q l 0 (zlen l) Hq ltac:(lia) ltac:(lia)) as (q1 & h1 & b1 & Hrun1 & Hq1).
  rewrite norm_zero in Hq1 by done. unfold cut in Hq1. rewrite drop_ge in Hq1 by (unfold zlen; lia). simpl in Hq1.
  by exists q1, h1, b1, q1, h1, false.
Qed.

Lemma ltrim_refines st v a b : krep st v → args_ok (LTRIM a b) → refines (LTRIM a b) st v.
Proof.
  intros Hv Ha. apply Forall_cons in Ha as [Hta [Htb _]%Forall_cons]. unfold refines. cbn [run_cmd spec_cmd].
  unfold ltrimCommand. rewrite (text_long os a _ Hta), (text_long os b _ Htb). cbn [mbind option_bind].
  destruct (Util.string2ll (T a)) as [x|] eqn:Ea; [|eauto]. cbn [mbind option_bind].
  destruct (Util.string2ll (T b)) as [y|] eqn:Eb; [|eauto].
  pose proof (on_list_cases st v ReplyOk Hv) as Hl. unfold on_list. destruct v as [| |l]; [rewrite Hl; eauto..|].
  destruct Hl as (q & -> & Hk & Hq & Hne). cbn [mbind option_bind listTypeLength]. destruct (lrep_count _ _ _ Hq) as [Hqc Hsm].
  unfold quicklistCount. rewrite Hqc. zlen_pos. unfold zlen in Hsm.
  pose proof (range_code (zlen l) x y (zlen l, 0) (λ s e, (s, zlen l - e - 1)) ltac:(lia)) as Hrange. cbv zeta beta in Hrange.
  rewrite Hrange. clear Hrange.
  set (l' := match range_of (zlen l) x y with Some (i, n) => take n (drop i l) | None => [] end).
  assert (∃ lt rt q1 h1 b1 q2 h2 b2, match range_of (zlen l) x y with
      | Some (i, n) => (Z.of_nat i, zlen l - (Z.of_nat i + Z.of_nat n - 1) - 1) | None => (zlen l, 0) end = (lt, rt) ∧
    quicklistDelRange q (qnodes st) 0 lt = Some (q1, h1, b1) ∧ quicklistDelRange q1 h1 (- rt) rt = Some (q2, h2, b2) ∧
    lrep h2 q2 l') as (lt & rt & q1 & h1 & b1 & q2 & h2 & b2 & -> & Hrun1 & Hrun2 & Hq2).
  { unfold l'. destruct (range_of (zlen l) x y) as [[i n]|] eqn:Er.
    - apply range_of_bounds in Er as [Hn Hin]. unfold zlen in Hin.
      destruct (ltrim_ok _ _ _ i n (length l - i - n) Hq Hne ltac:(lia) Hn) as (q1 & h1 & b1 & q2 & h2 & b2 & ? & ? & ?).
      exists (Z.of_nat i), (Z.of_nat (length l - i - n)), q1, h1, b1, q2, h2, b2. split_and!; try done. f_equal. unfold zlen. lia.
    - destruct (trim_all _ _ _ Hq Hne) as (q1 & h1 & b1 & q2 & h2 & b2 & ? & ? & ?).
      by exists (zlen l), 0, q1, h1, b1, q2, h2, b2. }
  rewrite Hrun1. cbn [mbind option_bind]. rewrite Hrun2. cbn [mbind option_bind]. rewrite (lrep_empty _ _ _ Hq2).
  assert (match range_of (zlen l) x y with Some (i, n) => norm_val (take n (drop i l)) | None => ANone end = norm_val l') as ->
    by (unfold l'; by destruct (range_of (zlen l) x y) as [[i n]|]).
  do 2 eexists. split; [done|]. split; [|done]. simpl. unfold norm_val.
  destruct (bool_decide_reflect (l' = [])) as [E|E]; [done|]. by exists q2.
Qed.

(** ** Insertion at a pivot *)
Lemma linsert_loop_ok pivot value w fuel : ∀ h q l li iter t,
  li_iter li = Some iter → direction iter = AL_START_HEAD → lit h q l iter t → text os pivot (T pivot) →
  text os value (T value) → room (T value :: l) → (length l - t < fuel)%nat →
  ∃ q' h' found, loop fuel (linsert_body os pivot value w) (OBJ_ENCODING_QUICKLIST q, h, li) =
      Some (OBJ_ENCODING_QUICKLIST q', h', found) ∧
    match insert_spec w (T pivot) (T value) (drop t l) with
    | Some r => found = true ∧ lrep h' q' (take t l ++ r)
    | None => found = false ∧ lrep h' q' l
    end.
Proof.
  induction fuel as [|fuel IH]; intros h q l li iter t Hli Hd Hit Hp Hv Hr Hf; [lia|].
  pose proof (lit_next h q l iter t Hit) as Hx. rewrite Hd in Hx. simpl in Hx. rewrite loop_S.
  set (next := loop fuel _). unfold linsert_body, listTypeNext. rewrite Hli. destruct (l !! t) as [s|] eqn:Hs.
  - destruct Hx as (h1 & iter1 & e & -> & Hent & Hd1 & _). cbn [mbind option_bind].
    rewrite (lentry_equal os h1 q l iter1 e t s pivot (T pivot) Hent Hp). cbn [mbind option_bind].
    rewrite (drop_S l s t Hs). simpl insert_spec. destruct (bool_decide (s = T pivot)).
    + unfold listTypeInsert, quicklistInsertAfter, quicklistInsertBefore. rewrite (text_decoded os value _ Hv). cbn [mbind option_bind].
      destruct (lentry_insert h1 q l iter1 e t s (T value) (match w with LIST_TAIL => true | LIST_HEAD => false end) Hent
        ltac:(congruence) (proj1 Hv) Hr) as (q2 & h2 & Hins & Hq2).
      assert (match w with LIST_HEAD => _quicklistInsert q h1 e (T value) false | LIST_TAIL => _quicklistInsert q h1 e (T value) true end
        = Some (q2, h2)) as -> by (by destruct w).
      cbn [mbind option_bind]. do 3 eexists. split; [done|]. split; [done|]. unfold ins_at in Hq2.
      destruct w; [by rewrite (drop_S l s t Hs) in Hq2|]. rewrite (take_S_r l t s Hs), <-app_assoc in Hq2. exact Hq2.
    + destruct (IH h1 q l (ListTypeIterator (li_direction li) (Some iter1)) iter1 (S t)) as (q2 & h2 & found & Hrun & Hres);
        [done|congruence|by eapply lentry_lit|done|done|done|apply lookup_lt_Some in Hs; lia|].
      exists q2, h2, found. split; [exact Hrun|]. destruct (insert_spec w (T pivot) (T value) (drop (S t) l)); [|done].
      simpl. by rewrite (take_S_r l t s Hs), <-app_assoc in Hres.
  - destruct Hx as (h1 & iter1 & e & -> & Hq1). cbn [mbind option_bind]. do 3 eexists. split; [done|].
    apply lookup_ge_None in Hs. rewrite drop_ge by lia. done.
Qed.

Lemma insert_spec_ne w p v l r : insert_spec w p v l = Some r → r ≠ [].
Proof.
  destruct l as [|x l]; [done|]. simpl. destruct (bool_decide _); [by destruct w; intros [= <-]|].
  intros (l' & _ & ->)%fmap_Some. done.
Qed.

Lemma linsert_refines st v pos pivot value :
  krep st v → args_ok (LINSERT pos pivot value) →
  (∀ l, v = AList l → 40 + budget l + cmd_cost T (LINSERT pos pivot value) < 2 ^ 32) → refines (LINSERT pos pivot value) st v.
Proof.
  intros Hv Ha Hroom. apply Forall_cons in Ha as [Hpos [Hpiv [Hval _]%Forall_cons]%Forall_cons]. unfold refines. cbn [run_cmd spec_cmd].
  unfold linsertCommand. rewrite (text_ptr os pos _ Hpos). cbn [mbind option_bind]. fold (after_before (T pos)).
  destruct (after_before (T pos)) as [w|]; [|eauto].
  pose proof (on_list_cases st v (ReplyInt 0) Hv) as Hl. unfold on_list. destruct v as [| |l]; [rewrite Hl; eauto..|].
  destruct Hl as (q & -> & Hk & Hq & Hne). cbn [mbind option_bind listTypeLength]. destruct (lrep_count _ _ _ Hq) as [Hqc Hsm].
  unfold quicklistCount. rewrite Hqc. unfold listTypeInitIterator.
  pose proof (lit_start _ _ _ 0 AL_START_HEAD Hq ltac:(lia) (Z.le_refl 0)) as Hst. rewrite norm_zero in Hst by done.
  destruct Hst as (h1 & iter & -> & Hd & Hit). cbn [mbind option_bind].
  destruct (linsert_loop_ok pivot value w (S (S (Z.to_nat (zlen l)))) h1 q l (ListTypeIterator LIST_TAIL (Some iter)) iter 0)
    as (q2 & h2 & found & -> & Hres); try done.
  { specialize (Hroom l eq_refl). unfold room. simpl in *. lia. } { unfold zlen. lia. }
  cbn [mbind option_bind]. rewrite drop_0 in Hres. simpl in Hres.
  destruct (insert_spec w (T pivot) (T value) l) as [l'|] eqn:E; destruct Hres as [-> Hq2].
  - do 2 eexists. split; [done|]. simpl. unfold quicklistCount.
    rewrite (proj1 (lrep_count _ _ _ Hq2)). split; [|done]. exists q2. split_and!; try done.
    by eapply insert_spec_ne.
  - do 2 eexists. split; [done|]. split; [|done]. by exists q2.
Qed.

(** ** Removal *)
Lemma lrem_loop_ok obj n fuel : ∀ h q l li iter t r (dir := direction iter),
  li_iter li = Some iter → lit h q l iter t → text os obj (T obj) → (length l - t < fuel)%nat →
  ∃ q' h' l', loop fuel (lrem_body os obj n) (OBJ_ENCODING_QUICKLIST q, h, li, r) =
      Some (OBJ_ENCODING_QUICKLIST q', h', (remove_spec n r (T obj) (drop t (in_order dir l))).2) ∧ lrep h' q' l' ∧
    in_order dir l' = take t (in_order dir l) ++ (remove_spec n r (T obj) (drop t (in_order dir l))).1.
Proof.
  induction fuel as [|fuel IH]; intros h q l li iter t r dir Hli Hit Ho Hf; [lia|].
  pose proof (lit_next h q l iter t Hit) as Hx. fold dir in Hx. rewrite loop_S. set (next := loop fuel _).
  unfold lrem_body, listTypeNext. rewrite Hli.
  destruct (in_order dir l !! t) as [s|] eqn:Hs.
  - destruct Hx as (h1 & iter1 & e & -> & Hent & Hd1 & _). cbn [mbind option_bind].
    rewrite (lentry_equal os h1 q l iter1 e t s obj (T obj) Hent Ho). cbn [mbind option_bind].
    rewrite (drop_S _ s t Hs). simpl remove_spec. pose proof (lookup_lt_Some _ _ _ Hs) as Hlt. rewrite in_order_length in Hlt.
    destruct (bool_decide (s = T obj)).
    + unfold listTypeDelete. cbn [li_iter mbind option_bind].
      destruct (lentry_delete h1 q l iter1 e t s Hent) as (q2 & h2 & iter2 & l2 & -> & Hit2 & Hd2 & Hl2).
      cbn [mbind option_bind]. rewrite Hd1 in Hl2. fold dir in Hl2.
      destruct (negb (n =? 0) && (r + 1 =? n)).
      * exists q2, h2, l2. split; [done|]. split; [by eapply lit_rep|]. exact Hl2.
      * assert (direction iter2 = dir) as Hd2' by congruence.
        assert (length l2 = (length l - 1)%nat) as Hll.
        { rewrite <-(in_order_length dir l2), Hl2. unfold without. rewrite length_app, length_take, length_drop, in_order_length. lia. }
        destruct (IH h2 q2 l2 (ListTypeIterator (li_direction li) (Some iter2)) iter2 t (r + 1) eq_refl Hit2 Ho ltac:(lia))
          as (q3 & h3 & l3 & Hrun & Hq3 & Hl3). rewrite Hd2' in Hrun, Hl3.
        assert (length (take t (in_order dir l)) = t) as Htl by (rewrite length_take, in_order_length; lia).
        rewrite Hl2 in Hrun, Hl3. unfold without in Hrun, Hl3.
        rewrite drop_app_length' in Hrun, Hl3 by done. rewrite take_app_length' in Hl3 by done.
        exists q3, h3, l3. by split_and!.
    + destruct (IH h1 q l (ListTypeIterator (li_direction li) (Some iter1)) iter1 (S t) r eq_refl (lentry_lit _ _ _ _ _ _ _ Hent) Ho ltac:(lia))
        as (q3 & h3 & l3 & Hrun & Hq3 & Hl3). rewrite Hd1 in Hrun, Hl3. fold dir in Hrun, Hl3.
      exists q3, h3, l3. rewrite (take_S_r _ t s Hs), <-app_assoc in Hl3.
      destruct (remove_spec n r (T obj) (drop (S t) (in_order dir l))) as [lr rr]. by split_and!.
  - destruct Hx as (h1 & iter1 & e & -> & Hq1). cbn [mbind option_bind]. exists q, h1, l.
    apply lookup_ge_None in Hs. rewrite drop_ge, take_ge by done. simpl. by rewrite app_nil_r.
Qed.

Lemma lrem_refines st v count obj : krep st v → args_ok (LREM count obj) → refines (LREM count obj) st v.
Proof.
  intros Hv Ha. apply Forall_cons in Ha as [Hc [Ho _]%Forall_cons]. unfold refines. cbn [run_cmd spec_cmd].
  unfold lremCommand. rewrite (text_long os count _ Hc). cbn [mbind option_bind].
  destruct (Util.string2ll (T count)) as [n|]; [|eauto].
  pose proof (on_list_cases st v (ReplyInt 0) Hv) as Hl. unfold on_list. destruct v as [| |l]; [rewrite Hl; eauto..|].
  destruct Hl as (q & -> & Hk & Hq & Hne). cbn [mbind option_bind listTypeLength]. destruct (lrep_count _ _ _ Hq) as [Hqc Hsm].
  unfold quicklistCount. rewrite Hqc. unfold listTypeInitIterator.
  set (dir := if n <? 0 then AL_START_TAIL else AL_START_HEAD). set (m := if n <? 0 then swrap 64 (- n) else n).
  assert (∃ h1 li iter, (if n <? 0 then '(h, it) ← quicklistGetIteratorAtIdx q (qnodes st) AL_START_TAIL (-1); Some (h, ListTypeIterator LIST_HEAD it)
    else '(h, it) ← quicklistGetIteratorAtIdx q (qnodes st) AL_START_HEAD 0; Some (h, ListTypeIterator LIST_TAIL it)) = Some (h1, li) ∧
    li_iter li = Some iter ∧ direction iter = dir ∧ lit h1 q l iter 0) as (h1 & li & iter & -> & Hli & Hd & Hit).
  { unfold dir. assert (0 < length l)%nat by (destruct l; [done|simpl; lia]). destruct (n <? 0).
    - pose proof (lit_start _ _ _ (-1) AL_START_TAIL Hq ltac:(lia) ltac:(done)) as Hst.
      rewrite (norm_either l (-1) (length l - 1)) in Hst; [|lia|right; unfold zlen; lia].
      destruct Hst as (h1 & iter & -> & Hd & Hit). rewrite Nat.sub_diag in Hit. cbn [mbind option_bind]. eauto 8.
    - pose proof (lit_start _ _ _ 0 AL_START_HEAD Hq ltac:(lia) (Z.le_refl 0)) as Hst. rewrite norm_zero in Hst by done.
      destruct Hst as (h1 & iter & -> & Hd & Hit). cbn [mbind option_bind]. eauto 8. }
  cbn [mbind option_bind]. destruct (lrem_loop_ok obj m (S (Z.to_nat (zlen l))) h1 q l li iter 0 0 Hli Hit Ho) as (q2 & h2 & l2 & -> & Hq2 & Hl2);
    [unfold zlen; lia|].
  rewrite drop_0, Hd in *. simpl in Hl2. cbn [mbind option_bind listTypeLength]. unfold quicklistCount. rewrite (lrep_empty _ _ _ Hq2).
  assert ((if n <? 0 then remove_spec (swrap 64 (- n)) 0 (T obj) (reverse l) else remove_spec n 0 (T obj) l) =
    remove_spec m 0 (T obj) (in_order dir l)) as -> by (unfold m, dir; by destruct (n <? 0)).
  destruct (remove_spec m 0 (T obj) (in_order dir l)) as [lr rr]. simpl in Hl2 |- *.
  assert ((if n <? 0 then reverse lr else lr) = l2) as ->.
  { unfold dir in Hl2. destruct (n <? 0); simpl in Hl2; [rewrite <-Hl2; apply reverse_involutive|done]. }
  do 2 eexists. split; [done|]. split; [|done]. unfold norm_val.
  destruct (bool_decide_reflect (l2 = [])) as [E|E]; [done|]. exists q2. by destruct (rr =? 0).
Qed.

(** ** What the strings take *)
Definition vbudget (v : aval) : Z := match v with AList l => budget l | _ => 0 end.

Lemma budget_sublist (l l' : list bytes) : l `sublist_of` l' → budget l ≤ budget l'.
Proof. induction 1; simpl; zlen_pos; lia. Qed.

Lemma budget_reverse (l : list bytes) : budget (reverse l) = budget l.
Proof. induction l as [|x l IH]; [done|]. rewrite reverse_cons, budget_app. simpl. lia. Qed.

Lemma remove_sublist s l : ∀ n r, (remove_spec n r s l).1 `sublist_of` l.
Proof.
  induction l as [|x l IH]; intros n r; [done|]. simpl. destruct (bool_decide (x = s)).
  - destruct (negb (n =? 0) && (r + 1 =? n)); [by apply sublist_cons|]. apply sublist_cons, IH.
  - specialize (IH n r). destruct (remove_spec n r s l). by apply sublist_skip.
Qed.

Lemma insert_spec_budget w p v l : ∀ r, insert_spec w p v l = Some r → budget r = zlen v + 17 + budget l.
Proof.
  induction l as [|x l IH]; intros r; [done|]. simpl. destruct (bool_decide (x = p)).
  - destruct w; intros [= <-]; simpl; lia.
  - intros (l' & Hl & ->)%fmap_Some. simpl. rewrite (IH l' Hl). lia.
Qed.

Lemma norm_val_budget l : vbudget (norm_val l) = budget l.
Proof. unfold norm_val. destruct (bool_decide_reflect (l = [])) as [-> |]; done. Qed.

Lemma spec_budget c v : vbudget (spec_cmd T c v).1 ≤ vbudget v + cmd_cost T c.
Proof.
  assert (∀ w argv l, budget (pushes w (T <$> argv) l) = budget (T <$> argv) + budget l) as Hpush.
  { intros w argv l. unfold pushes. destruct w; rewrite budget_app, ?budget_reverse; lia. }
  assert (0 ≤ cmd_cost T c) as Hc.
  { destruct c; simpl; try (pose proof (budget_nonneg (T <$> argv))); zlen_pos; lia. }
  assert (0 ≤ vbudget v) as Hv by (destruct v as [| |l]; simpl; try lia; pose proof (budget_nonneg l); zlen_pos; lia).
  destruct c; simpl in *.
  - destruct v as [| |l]; simpl in *; [|lia|]; rewrite norm_val_budget, Hpush; simpl; lia.
  - destruct v as [| |l]; simpl in *; [lia|lia|]. rewrite Hpush. lia.
  - destruct (after_before _) as [w|]; [|simpl; lia]. destruct v as [| |l]; simpl in *; [lia|lia|].
    destruct (insert_spec _ _ _ l) as [r|] eqn:E; simpl; [|lia]. rewrite (insert_spec_budget _ _ _ _ _ E). lia.
  - destruct v; simpl in *; lia.
  - destruct v; simpl in *; try lia. destruct (Util.string2ll _); simpl; lia.
  - destruct v as [| |l]; simpl in *; try lia. destruct (Util.string2ll _); simpl; [|lia]. destruct (norm l _) as [j|]; simpl; [|lia].
    pose proof (QuicklistIndex.budget_insert l j (T value)). lia.
  - destruct v as [| |l]; simpl in *; try lia. destruct (popped _ l) as [[s l']|] eqn:E; simpl; [|lia].
    rewrite norm_val_budget. pose proof (popped_budget _ _ _ _ E). lia.
  - destruct (Util.string2ll _); [destruct (Util.string2ll _)|]; simpl; try lia. destruct v; simpl in *; lia.
  - destruct (Util.string2ll _); [destruct (Util.string2ll _)|]; simpl; try lia. destruct v as [| |l]; simpl in *; try lia.
    destruct (range_of _ _ _) as [[i n]|]; simpl; [|lia]. rewrite norm_val_budget.
    assert (budget (take n (drop i l)) ≤ budget l); [|lia]. apply budget_sublist.
    etrans; [apply sublist_take|apply sublist_drop].
  - destruct (Util.string2ll _) as [n|]; simpl; [|lia]. destruct v as [| |l]; simpl in *; try lia.
    destruct (n <? 0).
    + pose proof (budget_sublist _ _ (remove_sublist (T obj) (reverse l) (swrap 64 (- n)) 0)) as Hb. rewrite budget_reverse in Hb.
      destruct (remove_spec _ _ _ _) as [l' r]. simpl in *. rewrite norm_val_budget, budget_reverse. lia.
    + pose proof (budget_sublist _ _ (remove_sublist (T obj) l n 0)) as Hb. destruct (remove_spec _ _ _ _) as [l' r].
      simpl in *. rewrite norm_val_budget. lia.
Qed.

(** ** Sessions *)
Fixpoint spec_cmds (cs : list lcmd) (v : aval) : aval * list reply :=
  match cs with
  | [] => (v, [])
  | c :: cs => let '(v, r) := spec_cmd T c v in let '(v, rs) := spec_cmds cs v in (v, r :: rs)
  end.

(** The arguments are strings; LPUSH and RPUSH have at least one. *)
Definition cmd_ok (c : lcmd) : Prop := args_ok c ∧ match c with LPUSH _ argv => argv ≠ [] | _ => True end.

Definition cmds_cost (cs : list lcmd) : Z := foldr (λ c n, cmd_cost T c + n) 0 cs.

Lemma cmd_refines c st v : krep st v → cmd_ok c → 40 + vbudget v + cmd_cost T c < 2 ^ 32 → refines c st v.
Proof.
  intros Hv [Ha Hne] Hc. assert (∀ l, v = AList l → 40 + budget l + cmd_cost T c < 2 ^ 32) as Hc' by (by intros l ->).
  assert (vbudget v = budget (match v with AList l => l | _ => [] end)) as Hb by (by destruct v).
  destruct c; [apply push_refines|apply pushx_refines|apply linsert_refines|apply llen_refines|apply lindex_refines|apply lset_refines
    |apply pop_refines|apply lrange_refines|apply ltrim_refines|apply lrem_refines]; auto; lia.
Qed.

Lemma cmds_cost_nonneg cs : 0 ≤ cmds_cost cs.
Proof.
  induction cs as [|c cs IH]; [done|]. simpl. assert (0 ≤ cmd_cost T c); [|lia].
  destruct c; simpl; try (pose proof (budget_nonneg (T <$> argv))); zlen_pos; lia.
Qed.

Lemma cmds_refine cs : ∀ st v,
  krep st v → Forall cmd_ok cs → 40 + vbudget v + cmds_cost cs < 2 ^ 32 →
  ∃ st' rs, run_cmds os list_max_ziplist_size 0 cs st = Some (st', rs) ∧ krep st' (spec_cmds cs v).1 ∧ rs = (spec_cmds cs v).2.
Proof.
  induction cs as [|c cs IH]; intros st v Hv Hok Hc; [by exists st, []|].
  apply Forall_cons in Hok as [Hcok Hok]. simpl in Hc. pose proof (cmds_cost_nonneg cs).
  destruct (cmd_refines c st v Hv Hcok ltac:(lia)) as (st1 & r & Hrun & Hv1 & Hr). pose proof (spec_budget c v) as Hb.
  simpl. rewrite Hrun. cbn [mbind option_bind]. destruct (spec_cmd T c v) as [v1 r1]. simpl in *. subst r1.
  destruct (IH st1 v1 Hv1 Hok ltac:(lia)) as (st2 & rs & -> & Hv2 & Hrs). cbn [mbind option_bind].
  destruct (spec_cmds cs v1) as [v2 rs2]. simpl in *. exists st2, (r :: rs). by subst.
Qed.

(** C2: With list_compress_depth 0, the default, and any list_max_ziplist_size, any
    session of list commands on one key (pushes, pops, LINSERT, LSET, LREM, LTRIM,
    LINDEX, LRANGE, LLEN) whose strings take less than 2^32 bytes in all, from an absent
    key, a key of another type or a list, runs without fault and replies as the commands on a list of strings; the
    key then holds that list, and no key is left for an empty one. *)
Theorem list_session_refines cs st v :
  krep st v → Forall cmd_ok cs → 40 + vbudget v + cmds_cost cs < 2 ^ 32 →
  ∃ st' rs, run_cmds os list_max_ziplist_size 0 cs st = Some (st', rs) ∧ krep st' (spec_cmds cs v).1 ∧ rs = (spec_cmds cs v).2.
Proof. apply cmds_refine. Qed.
End Commands.

Section Witness.
#[local] Existing Instance junk0.
#[local] Existing Instance demo_lzf.

(** Arguments 1 to 6, and a session that ends without the key. *)
Definition demo_args : list bytes := bytes_of <$> ["a"; "b"; "AFTER"; "1"; "-1"; "0"]%string.

Definition demo_T (a : positive) : bytes := default [] (demo_args !! pred (Pos.to_nat a)).

Definition demo_os : gmap positive robj :=
  list_to_map ((λ a, (a, demo_string Object.OBJ_ENCODING_RAW (demo_T a))) <$> [1; 2; 3; 4; 5; 6]%positive).

Definition demo_session : list lcmd :=
  [LPUSH LIST_TAIL [1; 2; 1]; LINSERT 3 2 1; LRANGE 6 5; LREM 5 1; LSET 4 4; LINDEX 5; LTRIM 4 4; LPOP LIST_HEAD; LLEN;
   LPUSHX LIST_HEAD [1]]%positive.

Lemma demo_text a : a ∈ [1; 2; 3; 4; 5; 6]%positive → text demo_os a (demo_T a).
Proof.
  intros Ha. assert (∀ t, bool_decide (Forall is_byte t) = true → bool_decide (zlen t ≤ 44) = true →
    wf_bytes t ∧ obj_text (demo_string Object.OBJ_ENCODING_RAW t) t) as Ht.
  { intros t Hw%bool_decide_eq_true_1 Hl%bool_decide_eq_true_1. split; [done|]. by apply embedded_rep. }
  split.
  - apply Ht; repeat (apply elem_of_cons in Ha as [-> |Ha]; [vm_compute; reflexivity|]); by apply not_elem_of_nil in Ha.
  - exists (demo_string Object.OBJ_ENCODING_RAW (demo_T a)). split; [|split; [|done]].
    + repeat (apply elem_of_cons in Ha as [-> |Ha]; [vm_compute; reflexivity|]). by apply not_elem_of_nil in Ha.
    + apply Ht; repeat (apply elem_of_cons in Ha as [-> |Ha]; [vm_compute; reflexivity|]); by apply not_elem_of_nil in Ha.
Qed.

Lemma demo_session_ok : Forall (cmd_ok demo_os demo_T) demo_session.
Proof.
  repeat (constructor; [split; [repeat (constructor; [apply demo_text; set_solver|]); constructor|done]|]). constructor.
Qed.

Lemma list_session_refines_witness :
  ∃ st', run_cmds demo_os (-2) 0 demo_session (CState None (Adlist.Heap ∅ []) 0 []) =
    Some (st', [ReplyInt 3; ReplyInt 4; ReplyMulti (Some ∘ ZStr ∘ bytes_of <$> ["a"; "b"; "a"; "a"]%string); ReplyInt 1; ReplyOk;
                ReplyBulk (Some (ZStr (bytes_of "a"))); ReplyOk; ReplyBulk (Some (ZInt 1)); ReplyInt 0; ReplyInt 0]) ∧
    key st' = None.
Proof.
  destruct (list_session_refines demo_os (-2) demo_T demo_session (CState None (Adlist.Heap ∅ []) 0 []) ANone)
    as (st' & rs & Hrun & Hk & Hrs); [done|exact demo_session_ok|by vm_compute|].
  exists st'. rewrite Hrs in Hrun. split; [exact Hrun|exact Hk].
Defined.
End Witness.
