(* ===== verification/QuicklistFindings.v ===== *)
(** * Behaviour outside of the proved cases

    Concrete lists on which quicklist.c does not do what its comments say, or what
    the rest of it relies on: each theorem evaluates the model. *)

From Stdlib Require Import String.
From S2P Require Import Prelude.
From S2P Require Import Mem.
From S2P Require Import Ziplist.
From S2P Require Import Adlist.
From S2P Require Import Lzf.
From S2P Require Import Quicklist.
From S2P Require Import QuicklistIter.
From S2P Require Import ListType.
Import Ziplist(zval, ZStr, ZInt).
Import Quicklist.
Import Adlist(ptr, nodes, heap, Heap, AL_START_HEAD, AL_START_TAIL).

#[local] Notation length := Datatypes.length.
#[local] Notation RAW := QUICKLIST_NODE_ENCODING_RAW.
#[local] Notation LZF := QUICKLIST_NODE_ENCODING_LZF.

Section Findings.
#[local] Existing Instance junk0.
#[local] Instance demo_compressor : Compressor := lzf_compressor (λ i, i).

Definition no_nodes : heap qnode := Heap ∅ [].

Fixpoint push_all (q : quicklist) (h : heap qnode) (ss : list bytes) : option (quicklist * heap qnode) :=
  match ss with [] => Some (q, h) | s :: ss => '(q, h) ← quicklistPush q h s QUICKLIST_TAIL; push_all q h ss end.

(** The strings an iteration sees. *)
Definition strings (q : quicklist) (h : heap qnode) : option (list (option zval)) :=
  snd <$> visit 20 q h (quicklistGetIterator q AL_START_HEAD).

Definition letters (s : string) : list bytes := (λ c, [c]) <$> bytes_of s.

Definition texts (s : string) : list (option zval) := (λ c, Some (ZStr [c])) <$> bytes_of s.

(** A full node of three strings, an entry from a negative index: the node is
    split at the negative offset. *)
Definition insert_at (after : bool) (idx : Z) : option (list (option zval)) :=
  '(q, h) ← push_all (quicklistNew 3 0) no_nodes (letters "abcdefg");
  '(h, e, _) ← quicklistIndex q h idx;
  '(q, h) ← (if after then quicklistInsertAfter else quicklistInsertBefore) q h e (bytes_of "X");
  strings q h.

(** The entry at index -5 is "c".  An insertion after it comes out in front of
    "a"; one before it loses "c". *)
Theorem insert_negative_offset :
  insert_at true 2 = Some (texts "abcXdefg") ∧ insert_at true (-5) = Some (texts "Xabcdefg") ∧
  insert_at false (-5) = Some (texts "abXdefg").
Proof. vm_compute. auto. Qed.

(** Nodes of five and two strings: the range of four from index 3 on has more
    strings than the first node has left, but fewer than it holds. *)
Definition delete_range (start cnt : Z) : option (Z * list (option zval)) :=
  '(q, h) ← push_all (quicklistNew 5 0) no_nodes (letters "abcdefg");
  '(q, h, _) ← quicklistDelRange q h start cnt;
  l ← strings q h; Some (qcount q, l).

(** The count says 3, five strings are left. *)
Theorem delRange_miscounts :
  delete_range (-4) 4 = Some (3, texts "abc") ∧ delete_range 3 4 = Some (3, texts "abcfg").
Proof. vm_compute. auto. Qed.

(** ** Compression *)
Definition long_text (c : Z) : bytes := replicate 60 c.

Definition encodings (q : quicklist) (h : heap qnode) : list (option Z) :=
  let fix go n p := match n with
    | O => []
    | S n => match p with
             | None => []
             | Some p => (encoding ∘ Adlist.value <$> nodes h !! p) :: go n (nodes h !! p ≫= Adlist.next)
             end
    end in
  go 20%nat (head q).

(** Depth 2, five nodes: of the four that are left after a pop, each is among the
    first two or the last two, and yet two are compressed. *)
Definition pop_depth_2 : option (list (option Z)) :=
  '(q, h) ← push_all (quicklistNew 1 2) no_nodes (long_text <$> [65; 66; 67; 68; 69]);
  '(q, h, _) ← quicklistPop q h QUICKLIST_HEAD;
  Some (encodings q h).

(** Depth 1: the node at index 1 is decompressed for use; it is the head after a
    pop; a replacement in it compresses it, and a pop then fails on it. *)
Definition compressed_head : option (list (option Z) * bool) :=
  '(q, h) ← push_all (quicklistNew 1 1) no_nodes (long_text <$> [65; 66; 67; 68]);
  '(h, _, _) ← quicklistIndex q h 1;
  '(q, h, _) ← quicklistPop q h QUICKLIST_HEAD;
  '(h, _) ← quicklistReplaceAtIndex q h 0 (long_text 90);
  Some (encodings q h, bool_decide (is_Some (quicklistPop q h QUICKLIST_HEAD))).

Theorem compression_inside_depth :
  pop_depth_2 = Some [Some RAW; Some LZF; Some LZF; Some RAW] ∧
  compressed_head = Some ([Some LZF; Some LZF; Some RAW], false).
Proof. vm_compute. auto. Qed.

(** The nodes after one string was read through an iterator at index 1 of four
    nodes, with depth 1, and the iterator was released. *)
Definition after_read (release : quicklist → heap qnode → ListType.listTypeIterator → option (heap qnode)) :
    option (list (option Z)) :=
  '(q, h) ← push_all (quicklistNew 1 1) no_nodes (long_text <$> [65; 66; 67; 68]);
  let subject := ListType.OBJ_ENCODING_QUICKLIST q in
  '(h, li) ← ListType.listTypeInitIterator subject h 1 ListType.LIST_TAIL;
  '(h, li, _, _) ← ListType.listTypeNext subject h li;
  h ← release q h li;
  Some (encodings q h).

(** [listTypeReleaseIterator] frees the iterator without
    [quicklistReleaseIterator]: the node stays decompressed. *)
Theorem listTypeReleaseIterator_leaves_node :
  after_read (λ q h li, it ← ListType.li_iter li; quicklistReleaseIterator q h it) = Some [Some RAW; Some LZF; Some LZF; Some RAW] ∧
  after_read (λ _ h li, Some (ListType.listTypeReleaseIterator h li)) = Some [Some RAW; Some RAW; Some LZF; Some RAW].
Proof. vm_compute. auto. Qed.

(** ** Small things *)

(** Both limits do not fit their bit fields: a depth above the maximum turns
    compression off, a fill above it is a negative one. *)
Theorem limits_wrap :
  compress (quicklistNew 1 100000) = 0 ∧ fill (quicklistNew 100000 0) = -32768.
Proof. vm_compute. auto. Qed.

(** A list of one node, whose last string is short enough to go to its front: the
    string that is pushed is read from a block that has been reallocated. *)
Theorem rotate_dangling :
  ('(q, h) ← push_all (quicklistNew 4 0) no_nodes (letters "abc"); quicklistRotate q h) = None.
Proof. vm_compute. reflexivity. Qed.

(** An insertion into an empty list leaves the size of the new node 0. *)
Theorem insert_empty_size :
  ('(q, h) ← quicklistInsertAfter (quicklistNew 4 0) no_nodes (QuicklistEntry None None None 0) (bytes_of "a");
   p ← head q; d ← node_at h p; Some (count d, sz d)) = Some (1, 0).
Proof. vm_compute. reflexivity. Qed.
End Findings.
