(* ===== verification/Keyspace.v ===== *)
(** * db.c, expire.c: the keyspace

    One database of a master: the dictionary of its keys, the one of their
    expirations, the string objects with their reference counts, the arguments of
    the command that runs, [server.dirty], and what goes out: replies to the client
    and events (the keys touched, the notifications, the expirations sent to the
    replicas).  A command is a function in the monad [M] of state and failure:
    [None] is a failed assertion or an access to a freed object.  Both dictionaries
    are finite maps, which is what the theorems on dict.c show them to be; a value
    that is not a string has its type only.  The clock does not advance during a
    command.  Access times, hit counters, clusters and scripts are left out. *)

From Stdlib Require Import String.
From S2P Require Import Prelude.
From S2P Require Import Mem.
From S2P Require Import Util.
From S2P Require Import Sds.
From S2P Require Import Object.
Import Object.

Module Keyspace.

#[local] Notation addr := positive.

(** [o->type] of a value that is not a string. *)
Inductive otype := OBJ_LIST | OBJ_SET | OBJ_ZSET | OBJ_HASH | OBJ_MODULE (name : string).

(** A value: a string object, or something else. *)
Inductive kvalue := VString (o : addr) | VOther (t : otype).

#[export] Instance otype_eq_dec : EqDecision otype.
Proof. solve_decision. Defined.
#[export] Instance kvalue_eq_dec : EqDecision kvalue.
Proof. solve_decision. Defined.
#[export] Instance encodings_eq_dec : EqDecision encodings.
Proof. solve_decision. Defined.

Inductive notify_class := NOTIFY_GENERIC | NOTIFY_STRING | NOTIFY_EXPIRED.

Inductive event :=
  | SignalModifiedKey (k : bytes) | NotifyKeyspaceEvent (c : notify_class) (name : string) (k : bytes)
  | PropagateExpire (lazy : bool) (k : bytes) | SignalListAsReady (k : bytes).

(** What a command writes to the client, piece by piece. *)
Inductive reply :=
  | ReplyOk | ReplyNull | ReplyEmptyBulk | ReplyInt (n : Z) | ReplyStatus (s : string)
  | ReplyBulkLen (n : Z) | ReplyObj (t : bytes) | ReplyCrlf | ReplyColon | ReplyMultiBulkLen (n : Z)
  | WrongTypeErr | SyntaxErr | NoKeyErr | ReplyError (msg : string).

Record state := State {
  dict : gmap bytes kvalue; expires : gmap bytes Z; objs : heap; argv : list addr; clock : Z;
  dirty : Z; events : list event; replies : list reply }.

Definition set_dict d (s : state) := State d (expires s) (objs s) (argv s) (clock s) (dirty s) (events s) (replies s).
Definition set_expires e (s : state) := State (dict s) e (objs s) (argv s) (clock s) (dirty s) (events s) (replies s).
Definition set_objs h (s : state) := State (dict s) (expires s) h (argv s) (clock s) (dirty s) (events s) (replies s).
Definition set_argv a (s : state) := State (dict s) (expires s) (objs s) a (clock s) (dirty s) (events s) (replies s).
Definition add_dirty n (s : state) := State (dict s) (expires s) (objs s) (argv s) (clock s) (dirty s + n) (events s) (replies s).
Definition add_event e (s : state) := State (dict s) (expires s) (objs s) (argv s) (clock s) (dirty s) (events s ++ [e]) (replies s).
Definition add_reply r (s : state) := State (dict s) (expires s) (objs s) (argv s) (clock s) (dirty s) (events s) (replies s ++ [r]).

(** ** The monad *)
Definition M (A : Type) : Type := state → option (A * state).
Definition ret {A} (a : A) : M A := λ s, Some (a, s).
Definition bind {A B} (m : M A) (k : A → M B) : M B := λ s, '(a, s) ← m s; k a s.
Definition get {A} (f : state → A) : M A := λ s, Some (f s, s).
Definition modify (f : state → state) : M unit := λ s, Some (tt, f s).
Definition lift {A} (m : option A) : M A := λ s, a ← m; Some (a, s).
Definition serverAssert (b : bool) : M unit := if b then ret tt else λ _, None.

(** An operation of object.c on the heap. *)
Definition heap_op {A} (f : heap → option (heap * A)) : M A :=
  λ s, '(h, a) ← f (objs s); Some (a, set_objs h s).
Definition heap_do (f : heap → option heap) : M unit := heap_op (λ h, h ← f h; Some (h, tt)).

Declare Scope M_scope.
Delimit Scope M_scope with M.
Notation "x <- m ;; k" := (bind m (λ x, k)) (at level 100, m at next level, right associativity) : M_scope.
Notation "m ;; k" := (bind m (λ _, k)) (at level 100, right associativity) : M_scope.
#[local] Open Scope M_scope.

Section Keyspace.
Context `{Alloc}.

(** [server.loading], [server.masterhost != NULL], whether the client of a slave is
    not its master and its command is read only, the two settings of lazyfree.c, and
    [shared.del] and [shared.unlink]. *)
Context (loading slave readonly_client lazyfree_lazy_expire lazyfree_lazy_server_del : bool).
Context (shared_del shared_unlink : addr).

Implicit Types (key val o : addr).

(** ** Replies and events *)
Definition addReplyR (r : reply) : M unit := modify (add_reply r).
Definition addReplyLongLong (n : Z) : M unit := addReplyR (ReplyInt n).
Definition addReplyError (msg : string) : M unit := addReplyR (ReplyError msg).

(** [o->ptr] as a string, with its [sdslen]. *)
Definition ptr_text o : M bytes :=
  h <- get objs;; r <- lift (h !! o);; s <- lift (as_sds r);; lift (sds_contents s).

(** [addReply] of an object: its string, or the text of its number. *)
Definition addReply o : M unit :=
  h <- get objs;; r <- lift (h !! o);;
  if sdsEncodedObject r then t <- ptr_text o;; addReplyR (ReplyObj t)
  else
    n <- lift (as_long r);;
    b <- lift (Util.ll2string (zmalloc 32) 32 n);;
    t <- lift (load b.1 0 b.2);; addReplyR (ReplyObj t).

(** [while((n = n/10) != 0) len++]; C division rounds to 0. *)
Definition bulk_len_body (s : Z * Z) : option (Z * Z + Z) :=
  let '(n, len) := s in
  let n := Z.quot n 10 in
  Some (if n =? 0 then inr len else inl (n, len + 1)).

Definition addReplyBulkLen o : M unit :=
  h <- get objs;; r <- lift (h !! o);;
  if sdsEncodedObject r then s <- lift (as_sds r);; n <- lift (Sds.sdslen s);; addReplyR (ReplyBulkLen n)
  else
    n <- lift (as_long r);;
    len <- lift (loop 20 bulk_len_body (if n <? 0 then (swrap 64 (- n), 2) else (n, 1)));;
    addReplyR (ReplyBulkLen len).

Definition addReplyBulk o : M unit := addReplyBulkLen o;; addReply o;; addReplyR ReplyCrlf.

(** The length, the bytes and the end of the line. *)
Definition addReplyBulkCBuffer (t : bytes) : M unit :=
  addReplyR (ReplyBulkLen (zlen t));; addReplyR (ReplyObj t);; addReplyR ReplyCrlf.

Definition signalModifiedKey key : M unit := k <- ptr_text key;; modify (add_event (SignalModifiedKey k)).
Definition notifyKeyspaceEvent (c : notify_class) (name : string) key : M unit :=
  k <- ptr_text key;; modify (add_event (NotifyKeyspaceEvent c name k)).
Definition propagateExpire key (lazy : bool) : M unit :=
  let cmd := if lazy then shared_unlink else shared_del in
  heap_do (λ h, incrRefCount h cmd);; heap_do (λ h, incrRefCount h key);;
  k <- ptr_text key;; modify (add_event (PropagateExpire lazy k));;
  heap_do (λ h, decrRefCount h cmd);; heap_do (λ h, decrRefCount h key).

(** ** Entries *)

(** The destructor of the values of [dbDictType]. *)
Definition dictObjectDestructor (v : kvalue) : M unit :=
  match v with VString o => heap_do (λ h, decrRefCount h o) | VOther _ => ret tt end.

(** [dictDelete(db->dict,key->ptr) == DICT_OK] *)
Definition dict_delete (k : bytes) : M bool :=
  d <- get dict;;
  match d !! k with
  | Some v => modify (set_dict (delete k d));; dictObjectDestructor v;; ret true
  | None => ret false
  end.

Definition dbSyncDelete key : M bool :=
  k <- ptr_text key;;
  modify (λ s, set_expires (delete k (expires s)) s);;
  dict_delete k.

(** What a string costs to free is 1, below the threshold; another value is freed in
    the background or at once, out of sight of this model. *)
Definition dbAsyncDelete key : M bool :=
  k <- ptr_text key;;
  modify (λ s, set_expires (delete k (expires s)) s);;
  dict_delete k.

Definition dbDelete key : M bool :=
  if lazyfree_lazy_server_del then dbAsyncDelete key else dbSyncDelete key.

(** ** Expirations *)
Definition getExpire key : M Z :=
  k <- ptr_text key;; e <- get expires;; d <- get dict;;
  match e !! k with
  | Some when_ => serverAssert (bool_decide (is_Some (d !! k)));; ret when_
  | None => ret (-1)
  end.

Definition removeExpire key : M bool :=
  k <- ptr_text key;; e <- get expires;; d <- get dict;;
  serverAssert (bool_decide (is_Some (d !! k)));;
  modify (set_expires (delete k e));;
  ret (bool_decide (is_Some (e !! k))).

Definition setExpire key (when_ : Z) : M unit :=
  k <- ptr_text key;; d <- get dict;;
  serverAssert (bool_decide (is_Some (d !! k)));;
  modify (λ s, set_expires (<[k := when_]> (expires s)) s).

Definition expireIfNeeded key : M bool :=
  when_ <- getExpire key;;
  if when_ <? 0 then ret false else
  if loading then ret false else
  now <- get clock;;
  if slave then ret (now >? when_) else
  if now <=? when_ then ret false else
  propagateExpire key lazyfree_lazy_expire;;
  notifyKeyspaceEvent NOTIFY_EXPIRED "expired" key;;
  (if lazyfree_lazy_expire then dbAsyncDelete key else dbSyncDelete key).

(** ** Lookup *)
Definition lookupKey key : M (option kvalue) := k <- ptr_text key;; d <- get dict;; ret (d !! k).

Definition lookupKeyRead key : M (option kvalue) :=
  expired <- expireIfNeeded key;;
  if expired && (negb slave || readonly_client) then ret None else lookupKey key.

Definition lookupKeyWrite key : M (option kvalue) := expireIfNeeded key;; lookupKey key.

(** The value, or the reply; [None] when the command ends here. *)
Definition lookupKeyReadOrReply key (r : reply) : M (option kvalue) :=
  v <- lookupKeyRead key;; (match v with None => addReplyR r | Some _ => ret tt end);; ret v.
Definition lookupKeyWriteOrReply key (r : reply) : M (option kvalue) :=
  v <- lookupKeyWrite key;; (match v with None => addReplyR r | Some _ => ret tt end);; ret v.

(** [checkType(c,o,OBJ_STRING)]: the object, or [None] after the error. *)
Definition checkString (v : kvalue) : M (option addr) :=
  match v with VString o => ret (Some o) | VOther _ => addReplyR WrongTypeErr;; ret None end.

(** ** Setting values *)
Definition dbAdd key (v : kvalue) : M unit :=
  k <- ptr_text key;; d <- get dict;;
  serverAssert (bool_decide (d !! k = None));;
  modify (set_dict (<[k := v]> d));;
  match v with VOther OBJ_LIST => modify (add_event (SignalListAsReady k)) | _ => ret tt end.

(** [dictReplace] sets the new value before it frees the old one. *)
Definition dbOverwrite key (v : kvalue) : M unit :=
  k <- ptr_text key;; d <- get dict;;
  old <- lift (d !! k);;
  modify (set_dict (<[k := v]> d));;
  dictObjectDestructor old.

Definition setKey key val : M unit :=
  v <- lookupKeyWrite key;;
  (match v with None => dbAdd key (VString val) | Some _ => dbOverwrite key (VString val) end);;
  heap_do (λ h, incrRefCount h val);;
  removeExpire key;;
  signalModifiedKey key.

Definition dbExists key : M bool := k <- ptr_text key;; d <- get dict;; ret (bool_decide (is_Some (d !! k))).

Definition dbUnshareStringValue key o : M addr :=
  h <- get objs;; r <- lift (h !! o);;
  if bool_decide (refcount r = 1) && bool_decide (encoding r = OBJ_ENCODING_RAW) then ret o else
  decoded <- heap_op (λ h, getDecodedObject h o);;
  h <- get objs;; r <- lift (h !! decoded);; s <- lift (as_sds r);; n <- lift (Sds.sdslen s);;
  o <- heap_op (λ h, createRawStringObject h (Some (Sds.from_ptr s)) n);;
  heap_do (λ h, decrRefCount h decoded);;
  dbOverwrite key (VString o);;
  ret o.

(** ** Arguments *)

(** [c->argv[i]] *)
Definition arg (i : nat) : M addr := a <- get argv;; lift (a !! i).

(** [c->argv[i] = o] *)
Definition set_arg (i : nat) o : M unit := modify (λ s, set_argv (<[i := o]> (argv s)) s).

Definition getLongLongFromObjectOrReply (o : option addr) (msg : option string) : M (option Z) :=
  h <- get objs;; v <- lift (getLongLongFromObject h o);;
  match v with
  | Some n => ret (Some n)
  | None =>
      addReplyError (match msg with Some m => m | None => "value is not an integer or out of range" end);; ret None
  end.

(** A [long] has the width of a [long long]. *)
Definition getLongFromObjectOrReply o (msg : option string) : M (option Z) :=
  getLongLongFromObjectOrReply (Some o) msg.

(** Call [f] on the elements of a list one after the other. *)
Fixpoint each {A} (f : A → M unit) (l : list A) : M unit :=
  match l with [] => ret tt | x :: l => f x;; each f l end.

(** The same with the sum of what the calls return. *)
Fixpoint total {A} (f : A → M Z) (l : list A) : M Z :=
  match l with [] => ret 0 | x :: l => n <- f x;; m <- total f l;; ret (n + m) end.

(** [for (j = 1; j < c->argc; j++)] *)
Definition args_from (i : nat) : M (list addr) := a <- get argv;; ret (drop i a).

(** The arguments are replaced, here by a command and a key. *)
Definition rewriteClientCommandVector (args : list addr) : M unit :=
  each (λ o, heap_do (λ h, incrRefCount h o)) args;;
  old <- get argv;;
  each (λ o, heap_do (λ h, decrRefCount h o)) old;;
  modify (set_argv args).

(** ** Commands on keys *)
Definition b2z (b : bool) : Z := if b then 1 else 0.

Definition del_one (lazy : bool) key : M Z :=
  expireIfNeeded key;;
  deleted <- (if lazy then dbAsyncDelete key else dbSyncDelete key);;
  (if deleted then
     signalModifiedKey key;; notifyKeyspaceEvent NOTIFY_GENERIC "del" key;; modify (add_dirty 1)
   else ret tt);;
  ret (b2z deleted).

Definition delGenericCommand (lazy : bool) : M unit :=
  keys <- args_from 1;; n <- total (del_one lazy) keys;; addReplyLongLong n.

Definition exists_one key : M Z := expireIfNeeded key;; e <- dbExists key;; ret (b2z e).

Definition existsCommand : M unit :=
  keys <- args_from 1;; n <- total exists_one keys;; addReplyLongLong n.

Definition dbsizeCommand : M unit := d <- get dict;; addReplyLongLong (Z.of_nat (size d)).

Definition type_name (v : option kvalue) : string :=
  match v with
  | None => "none"
  | Some (VString _) => "string"
  | Some (VOther OBJ_LIST) => "list"
  | Some (VOther OBJ_SET) => "set"
  | Some (VOther OBJ_ZSET) => "zset"
  | Some (VOther OBJ_HASH) => "hash"
  | Some (VOther (OBJ_MODULE name)) => name
  end.

Definition typeCommand : M unit :=
  key <- arg 1;; v <- lookupKeyRead key;; addReplyR (ReplyStatus (type_name v)).

(** Reference counts of a value that is not a string are out of sight. *)
Definition incr_value (v : kvalue) : M unit :=
  match v with VString o => heap_do (λ h, incrRefCount h o) | VOther _ => ret tt end.

Definition renameGenericCommand (nx : bool) : M unit :=
  src <- arg 1;; dst <- arg 2;;
  h <- get objs;;
  rs <- lift (h !! src);; rd <- lift (h !! dst);; ss <- lift (as_sds rs);; sd <- lift (as_sds rd);;
  cmp <- lift (Sds.sdscmp ss sd);;
  v <- lookupKeyWriteOrReply src NoKeyErr;;
  match v with
  | None => ret tt
  | Some v =>
      if cmp =? 0 then addReplyR (if nx then ReplyInt 0 else ReplyOk) else
      incr_value v;;
      expire <- getExpire src;;
      old <- lookupKeyWrite dst;;
      if bool_decide (is_Some old) && nx then dictObjectDestructor v;; addReplyLongLong 0 else
      (if bool_decide (is_Some old) then dbDelete dst else ret true);;
      dbAdd dst v;;
      (if negb (expire =? -1) then setExpire dst expire else ret tt);;
      dbDelete src;;
      signalModifiedKey src;;
      signalModifiedKey dst;;
      notifyKeyspaceEvent NOTIFY_GENERIC "rename_from" src;;
      notifyKeyspaceEvent NOTIFY_GENERIC "rename_to" dst;;
      modify (add_dirty 1);;
      addReplyR (if nx then ReplyInt 1 else ReplyOk)
  end.

(** ** Commands on expirations *)
Definition expireGenericCommand (basetime : Z) (seconds : bool) : M unit :=
  key <- arg 1;; param <- arg 2;;
  w <- getLongLongFromObjectOrReply (Some param) None;;
  match w with
  | None => ret tt
  | Some w =>
      let w := if seconds then swrap 64 (w * 1000) else w in
      let w := swrap 64 (w + basetime) in
      v <- lookupKeyWrite key;;
      match v with
      | None => addReplyLongLong 0
      | Some _ =>
          now <- get clock;;
          if (w <=? now) && negb loading && negb slave then
            deleted <- (if lazyfree_lazy_expire then dbAsyncDelete key else dbSyncDelete key);;
            serverAssert deleted;;
            modify (add_dirty 1);;
            rewriteClientCommandVector [if lazyfree_lazy_expire then shared_unlink else shared_del; key];;
            signalModifiedKey key;;
            notifyKeyspaceEvent NOTIFY_GENERIC "del" key;;
            addReplyLongLong 1
          else
            setExpire key w;;
            addReplyLongLong 1;;
            signalModifiedKey key;;
            notifyKeyspaceEvent NOTIFY_GENERIC "expire" key;;
            modify (add_dirty 1)
      end
  end.

Definition expireCommand : M unit := now <- get clock;; expireGenericCommand now true.
Definition expireatCommand : M unit := expireGenericCommand 0 true.
Definition pexpireCommand : M unit := now <- get clock;; expireGenericCommand now false.
Definition pexpireatCommand : M unit := expireGenericCommand 0 false.

Definition ttlGenericCommand (output_ms : bool) : M unit :=
  key <- arg 1;;
  v <- lookupKeyRead key;;
  match v with
  | None => addReplyLongLong (-2)
  | Some _ =>
      expire <- getExpire key;;
      now <- get clock;;
      let ttl := if negb (expire =? -1) then Z.max 0 (swrap 64 (expire - now)) else -1 in
      if ttl =? -1 then addReplyLongLong (-1)
      else addReplyLongLong (if output_ms then ttl else Z.quot (swrap 64 (ttl + 500)) 1000)
  end.

Definition persistCommand : M unit :=
  key <- arg 1;;
  v <- lookupKeyWrite key;;
  match v with
  | Some _ =>
      removed <- removeExpire key;;
      if removed then addReplyLongLong 1;; modify (add_dirty 1) else addReplyLongLong 0
  | None => addReplyLongLong 0
  end.

Definition touch_one key : M Z := v <- lookupKeyRead key;; ret (b2z (bool_decide (is_Some v))).

Definition touchCommand : M unit :=
  keys <- args_from 1;; n <- total touch_one keys;; addReplyLongLong n.

(** ** The client around a command *)

(** An argument of the query becomes a string object ([processMultibulkBuffer]). *)
Definition read_arg (t : bytes) : M unit :=
  o <- heap_op (λ h, createStringObject h (Some t) (zlen t));;
  modify (λ s, set_argv (argv s ++ [o]) s).

Definition freeClientArgv : M unit :=
  a <- get argv;; each (λ o, heap_do (λ h, decrRefCount h o)) a;; modify (set_argv []).
End Keyspace.
End Keyspace.
