(* ===== verification/StringType.v ===== *)
(** * t_string.c: the commands on strings

    Each command of t_string.c but INCRBYFLOAT, which computes with long doubles, as
    a function in the monad of [Keyspace], over string objects in their encodings
    with their reference counts. *)

From Stdlib Require Import String.
From S2P Require Import Prelude.
From S2P Require Import Mem.
From S2P Require Import Util.
From S2P Require Import Sds.
From S2P Require Import Object.
From S2P Require Import Keyspace.
Import Object Keyspace.

Module StringType.

#[local] Notation addr := positive.
#[local] Open Scope M_scope.

Definition OBJ_SET_NO_FLAGS : Z := 0.
Definition OBJ_SET_NX : Z := 1.
Definition OBJ_SET_XX : Z := 2.
Definition OBJ_SET_EX : Z := 4.
Definition OBJ_SET_PX : Z := 8.

Inductive units := UNIT_SECONDS | UNIT_MILLISECONDS.

(** [(a[0] == x || a[0] == X) && (a[1] == y || a[1] == Y) && a[2] == 0]: the text of
    an argument is followed by its terminator. *)
Definition is_option (t : bytes) (x y : Z) : bool :=
  match t ++ [0] with
  | a0 :: a1 :: a2 :: _ => ((a0 =? x) || (a0 =? x - 32)) && ((a1 =? y) || (a1 =? y - 32)) && (a2 =? 0)
  | _ => false
  end.

Definition has_flag (flags f : Z) : bool := negb (Z.land flags f =? 0).

(** The options of SET: arguments of type [X], each with its text; the result has the
    flags, the unit and the argument of the expiration, [None] for a syntax error. *)
Fixpoint set_options {X} (args : list (X * bytes)) (flags : Z) (unit : units) (expire : option X)
    : option (Z * units * option X) :=
  match args with
  | [] => Some (flags, unit, expire)
  | (_, a) :: rest =>
      if is_option a 110 120 && negb (has_flag flags OBJ_SET_XX) then
        set_options rest (Z.lor flags OBJ_SET_NX) unit expire
      else if is_option a 120 120 && negb (has_flag flags OBJ_SET_NX) then
        set_options rest (Z.lor flags OBJ_SET_XX) unit expire
      else match rest with
      | [] => None
      | (next, _) :: rest =>
          if is_option a 101 120 && negb (has_flag flags OBJ_SET_PX) then
            set_options rest (Z.lor flags OBJ_SET_EX) UNIT_SECONDS (Some next)
          else if is_option a 112 120 && negb (has_flag flags OBJ_SET_EX) then
            set_options rest (Z.lor flags OBJ_SET_PX) UNIT_MILLISECONDS (Some next)
          else None
      end
  end.

Section StringType.
Context `{Alloc}.
Context (loading slave readonly_client lazyfree_lazy_expire : bool) (shared_del shared_unlink : addr).

(** [shared.integers], [server.maxmemory] and [server.maxmemory_policy]. *)
Context (shared_integers : Z → addr) (maxmemory maxmemory_policy : Z).

#[local] Notation lookupKeyWrite := (lookupKeyWrite loading slave lazyfree_lazy_expire shared_del shared_unlink).
#[local] Notation lookupKeyRead := (lookupKeyRead loading slave readonly_client lazyfree_lazy_expire shared_del shared_unlink).
#[local] Notation lookupKeyReadOrReply := (lookupKeyReadOrReply loading slave readonly_client lazyfree_lazy_expire shared_del shared_unlink).
#[local] Notation setKey := (setKey loading slave lazyfree_lazy_expire shared_del shared_unlink).

Implicit Types (key val o : addr).

(** The error is sent; [false] is C_ERR. *)
Definition checkStringLength (size : Z) : M bool :=
  if size >? 512 * 1024 * 1024 then addReplyError "string exceeds maximum allowed size (512MB)";; ret false
  else ret true.

(** ** SET and its variants

    [name] is [c->cmd->name]. *)
Definition setGenericCommand (name : string) (flags : Z) key val (expire : option addr) (unit : units) (ok_reply abort_reply : option reply) : M Datatypes.unit :=
  ms <- (match expire with
         | None => ret (Some 0)
         | Some e =>
             m <- getLongLongFromObjectOrReply (Some e) None;;
             match m with
             | None => ret None
             | Some m =>
                 if m <=? 0 then addReplyError ("invalid expire time in " ++ name);; ret None
                 else ret (Some (match unit with UNIT_SECONDS => swrap 64 (m * 1000) | UNIT_MILLISECONDS => m end))
             end
         end);;
  match ms with
  | None => ret tt
  | Some milliseconds =>
      stop_nx <- (if has_flag flags OBJ_SET_NX then v <- lookupKeyWrite key;; ret (bool_decide (is_Some v)) else ret false);;
      stop <- (if stop_nx then ret true
               else if has_flag flags OBJ_SET_XX then v <- lookupKeyWrite key;; ret (bool_decide (v = None)) else ret false);;
      if stop : bool then addReplyR (default ReplyNull abort_reply) else
      setKey key val;;
      modify (add_dirty 1);;
      now <- get clock;;
      (match expire with Some _ => setExpire key (swrap 64 (now + milliseconds)) | None => ret tt end);;
      notifyKeyspaceEvent NOTIFY_STRING "set" key;;
      (match expire with Some _ => notifyKeyspaceEvent NOTIFY_GENERIC "expire" key | None => ret tt end);;
      addReplyR (default ReplyOk ok_reply)
  end.

(** [c->argv[i] = tryObjectEncoding(c->argv[i])] *)
Definition encode_arg (i : nat) : M addr :=
  o <- arg i;;
  o <- heap_op (λ h, tryObjectEncoding shared_integers maxmemory maxmemory_policy h o);;
  set_arg i o;; ret o.

(** The texts of some arguments. *)
Fixpoint arg_texts (l : list addr) : M (list (addr * bytes)) :=
  match l with [] => ret [] | o :: l => t <- ptr_text o;; ts <- arg_texts l;; ret ((o, t) :: ts) end.

Definition setCommand : M unit :=
  opts <- args_from 3;; opts <- arg_texts opts;;
  match set_options opts OBJ_SET_NO_FLAGS UNIT_SECONDS None with
  | None => addReplyR SyntaxErr
  | Some (flags, unit, expire) =>
      val <- encode_arg 2;; key <- arg 1;;
      setGenericCommand "set" flags key val expire unit None None
  end.

Definition setnxCommand : M unit :=
  val <- encode_arg 2;; key <- arg 1;;
  setGenericCommand "setnx" OBJ_SET_NX key val None UNIT_SECONDS (Some (ReplyInt 1)) (Some (ReplyInt 0)).

Definition setexCommand : M unit :=
  val <- encode_arg 3;; key <- arg 1;; expire <- arg 2;;
  setGenericCommand "setex" OBJ_SET_NO_FLAGS key val (Some expire) UNIT_SECONDS None None.

Definition psetexCommand : M unit :=
  val <- encode_arg 3;; key <- arg 1;; expire <- arg 2;;
  setGenericCommand "psetex" OBJ_SET_NO_FLAGS key val (Some expire) UNIT_MILLISECONDS None None.

(** ** GET *)

(** [false] is C_ERR. *)
Definition getGenericCommand : M bool :=
  key <- arg 1;;
  v <- lookupKeyReadOrReply key ReplyNull;;
  match v with
  | None => ret true
  | Some (VOther _) => addReplyR WrongTypeErr;; ret false
  | Some (VString o) => addReplyBulk o;; ret true
  end.

Definition getCommand : M unit := getGenericCommand;; ret tt.

Definition getsetCommand : M unit :=
  ok <- getGenericCommand;;
  if ok : bool then
    val <- encode_arg 2;; key <- arg 1;;
    setKey key val;;
    notifyKeyspaceEvent NOTIFY_STRING "set" key;;
    modify (add_dirty 1)
  else ret tt.

(** ** Ranges *)

(** [o->ptr] of a string, and [o->ptr = s]. *)
Definition get_sds o : M Sds.sds := h <- get objs;; r <- lift (h !! o);; lift (as_sds r).
Definition set_sds o (s : Sds.sds) : M unit :=
  heap_do (λ h, r ← h !! o; Some (<[o := Robj (encoding r) (refcount r) (PSds s)]> h)).

(** From the point where the object can be written to. *)
Definition setrange_at key o (offset : Z) (value : bytes) : M unit :=
  s <- get_sds o;;
  (if 0 <? zlen value then
     s <- lift (Sds.sdsgrowzero s (uwrap 64 (offset + zlen value)));;
     s <- lift (Sds.poke s offset value);;
     set_sds o s;;
     signalModifiedKey key;;
     notifyKeyspaceEvent NOTIFY_STRING "setrange" key;;
     modify (add_dirty 1)
   else ret tt);;
  s <- get_sds o;;
  n <- lift (Sds.sdslen s);;
  addReplyLongLong n.

(** The key is created. *)
Definition setrange_new key (offset : Z) (value : bytes) : M unit :=
  s <- lift (Sds.sdsnewlen None (uwrap 64 (offset + zlen value)));;
  o <- heap_op (λ h, Some (createObject h (PSds s)));;
  dbAdd key (VString o);;
  setrange_at key o offset value.

Definition setrangeCommand : M unit :=
  key <- arg 1;; a2 <- arg 2;; a3 <- arg 3;;
  value <- ptr_text a3;;
  offset <- getLongFromObjectOrReply a2 None;;
  match offset with
  | None => ret tt
  | Some offset =>
      if offset <? 0 then addReplyError "offset is out of range" else
      v <- lookupKeyWrite key;;
      match v with
      | None =>
          if zlen value =? 0 then addReplyLongLong 0 else
          ok <- checkStringLength (swrap 64 (offset + zlen value));;
          if negb ok then ret tt else
          setrange_new key offset value
      | Some v =>
          o <- checkString v;;
          match o with
          | None => ret tt
          | Some o =>
              h <- get objs;;
              olen <- lift (stringObjectLen h o);;
              if zlen value =? 0 then addReplyLongLong olen else
              ok <- checkStringLength (swrap 64 (offset + zlen value));;
              if negb ok then ret tt else
              o <- dbUnshareStringValue key o;;
              setrange_at key o offset value
          end
      end
  end.

(** [str] and [strlen] of a string object or of the text of its number. *)
Definition range_chars o : M bytes :=
  h <- get objs;; r <- lift (h !! o);;
  match encoding r with
  | OBJ_ENCODING_INT => n <- lift (as_long r);; b <- lift (Util.ll2string (zmalloc 32) 32 n);; lift (load b.1 0 b.2)
  | _ => ptr_text o
  end.

(** From the point where the string and the limits are known. *)
Definition getrange_end (str : bytes) (start stop : Z) : M unit :=
  let strlen := zlen str in
  if (start <? 0) && (stop <? 0) && (start >? stop) then addReplyR ReplyEmptyBulk else
  let start := if start <? 0 then swrap 64 (strlen + start) else start in
  let stop := if stop <? 0 then swrap 64 (strlen + stop) else stop in
  let start := if start <? 0 then 0 else start in
  let stop := if stop <? 0 then 0 else stop in
  let stop := if stop >=? strlen then swrap 64 (strlen - 1) else stop in
  if (start >? stop) || (strlen =? 0) then addReplyR ReplyEmptyBulk
  else t <- lift (load str start (stop - start + 1));; addReplyBulkCBuffer t.

Definition getrangeCommand : M unit :=
  key <- arg 1;; a2 <- arg 2;; a3 <- arg 3;;
  start <- getLongLongFromObjectOrReply (Some a2) None;;
  match start with
  | None => ret tt
  | Some start =>
      stop <- getLongLongFromObjectOrReply (Some a3) None;;
      match stop with
      | None => ret tt
      | Some stop =>
          v <- lookupKeyReadOrReply key ReplyEmptyBulk;;
          match v with
          | None => ret tt
          | Some v =>
              o <- checkString v;;
              match o with
              | None => ret tt
              | Some o =>
                  str <- range_chars o;;
                  getrange_end str start stop
              end
          end
      end
  end.

(** ** Several keys *)
Definition mget_one key : M unit :=
  v <- lookupKeyRead key;;
  match v with Some (VString o) => addReplyBulk o | _ => addReplyR ReplyNull end.

Definition mgetCommand : M unit :=
  keys <- args_from 1;; addReplyR (ReplyMultiBulkLen (zlen keys));; each mget_one keys.

(** The keys among keys and values. *)
Fixpoint evens {A} (l : list A) : list A :=
  match l with x :: _ :: l => x :: evens l | [x] => [x] | [] => [] end.

Definition busy_one key : M Z := v <- lookupKeyWrite key;; ret (b2z (bool_decide (is_Some v))).

(** [for (j = 1; j < c->argc; j += 2)] with [n] pairs left. *)
Fixpoint mset_loop (n j : nat) : M unit :=
  match n with
  | O => ret tt
  | S n =>
      val <- encode_arg (j + 1);; key <- arg j;;
      setKey key val;;
      notifyKeyspaceEvent NOTIFY_STRING "set" key;;
      mset_loop n (j + 2)
  end.

Definition msetGenericCommand (nx : bool) : M unit :=
  a <- get argv;;
  if zlen a mod 2 =? 0 then addReplyError "wrong number of arguments for MSET" else
  busykeys <- (if nx then total busy_one (evens (drop 1 a)) else ret 0);;
  if negb (busykeys =? 0) then addReplyLongLong 0 else
  mset_loop (Z.to_nat ((zlen a - 1) / 2)) 1;;
  modify (add_dirty ((zlen a - 1) / 2));;
  addReplyR (if nx then ReplyInt 1 else ReplyOk).

(** ** Counters *)
Definition LLONG_MIN : Z := - 2 ^ 63.
Definition LLONG_MAX : Z := 2 ^ 63 - 1.

(** The new value goes into the old object or into another one; a [long] holds every
    [long long]. *)
Definition incr_store key (o : option addr) (value : Z) : M addr :=
  match o with
  | Some o =>
      h <- get objs;;
      r <- lift (h !! o);;
      if (refcount r =? 1) && bool_decide (encoding r = OBJ_ENCODING_INT) && ((value <? 0) || (value >=? OBJ_SHARED_INTEGERS)) then
        heap_do (λ h, r ← h !! o; Some (<[o := Robj (encoding r) (refcount r) (PLong value)]> h));; ret o
      else
        new <- heap_op (λ h, createStringObjectFromLongLong shared_integers h value);;
        dbOverwrite key (VString new);; ret new
  | None =>
      new <- heap_op (λ h, createStringObjectFromLongLong shared_integers h value);;
      dbAdd key (VString new);; ret new
  end.

(** From the point where the old value is known. *)
Definition incr_from key (o : option addr) (oldvalue incr : Z) : M unit :=
  if ((incr <? 0) && (oldvalue <? 0) && (incr <? LLONG_MIN - oldvalue)) ||
     ((incr >? 0) && (oldvalue >? 0) && (incr >? LLONG_MAX - oldvalue))
  then addReplyError "increment or decrement would overflow" else
  new <- incr_store key o (swrap 64 (oldvalue + incr));;
  signalModifiedKey key;;
  notifyKeyspaceEvent NOTIFY_STRING "incrby" key;;
  modify (add_dirty 1);;
  addReplyR ReplyColon;; addReply new;; addReplyR ReplyCrlf.

Definition incrDecrCommand (incr : Z) : M unit :=
  key <- arg 1;;
  v <- lookupKeyWrite key;;
  match v with
  | Some (VOther _) => addReplyR WrongTypeErr
  | _ =>
      let o := match v with Some (VString o) => Some o | _ => None end in
      value <- getLongLongFromObjectOrReply o None;;
      match value with
      | None => ret tt
      | Some oldvalue => incr_from key o oldvalue incr
      end
  end.

Definition incrCommand : M unit := incrDecrCommand 1.
Definition decrCommand : M unit := incrDecrCommand (-1).

Definition incrbyCommand : M unit :=
  a <- arg 2;; incr <- getLongLongFromObjectOrReply (Some a) None;;
  match incr with Some incr => incrDecrCommand incr | None => ret tt end.

Definition decrbyCommand : M unit :=
  a <- arg 2;; incr <- getLongLongFromObjectOrReply (Some a) None;;
  match incr with Some incr => incrDecrCommand (swrap 64 (- incr)) | None => ret tt end.

(** ** APPEND and STRLEN *)
Definition append_end key (totlen : Z) : M unit :=
  signalModifiedKey key;;
  notifyKeyspaceEvent NOTIFY_STRING "append" key;;
  modify (add_dirty 1);;
  addReplyLongLong totlen.

(** The key is created. *)
Definition append_new key val : M unit :=
  dbAdd key (VString val);;
  heap_do (λ h, incrRefCount h val);;
  h <- get objs;;
  totlen <- lift (stringObjectLen h val);;
  append_end key totlen.

(** The key exists. *)
Definition append_old key o : M unit :=
  append <- arg 2;;
  h <- get objs;;
  olen <- lift (stringObjectLen h o);;
  a <- get_sds append;; alen <- lift (Sds.sdslen a);;
  ok <- checkStringLength (swrap 64 (uwrap 64 (olen + alen)));;
  if negb ok then ret tt else
  o <- dbUnshareStringValue key o;;
  a <- get_sds append;;
  s <- get_sds o;;
  s <- lift (Sds.sdscatlen s (Sds.from_ptr a) alen);;
  set_sds o s;;
  totlen <- lift (Sds.sdslen s);;
  append_end key totlen.

Definition appendCommand : M unit :=
  key <- arg 1;;
  v <- lookupKeyWrite key;;
  match v with
  | None => val <- encode_arg 2;; append_new key val
  | Some v => o <- checkString v;; match o with None => ret tt | Some o => append_old key o end
  end.

Definition strlenCommand : M unit :=
  key <- arg 1;;
  v <- lookupKeyReadOrReply key (ReplyInt 0);;
  match v with
  | None => ret tt
  | Some v =>
      o <- checkString v;;
      match o with
      | None => ret tt
      | Some o => h <- get objs;; n <- lift (stringObjectLen h o);; addReplyLongLong n
      end
  end.
End StringType.
End StringType.
