(* ===== verification/Commands.v ===== *)
(** * server.c, networking.c: from a query to a command

    The rows of [redisCommandTable] for the commands of [Keyspace] and [StringType],
    and the way of a query: its arguments become objects, the command is looked up by
    the first one, the number of arguments is checked, the command runs, the
    arguments are released.  The other checks of [processCommand] concern what this
    model leaves out: passwords, clusters, memory limits, replication, scripts and
    transactions. *)

From Stdlib Require Import String.
From S2P Require Import Prelude.
From S2P Require Import Mem.
From S2P Require Import Sds.
From S2P Require Import Object.
From S2P Require Import Keyspace.
From S2P Require Import StringType.
Import Object Keyspace StringType.

Module Commands.

#[local] Notation addr := positive.
#[local] Open Scope M_scope.

(** [proc] of a command. *)
Inductive procs :=
  | GetCommand | SetCommand | SetnxCommand | SetexCommand | PsetexCommand | AppendCommand | StrlenCommand
  | DelCommand | UnlinkCommand | ExistsCommand | SetrangeCommand | GetrangeCommand | IncrCommand | DecrCommand
  | MgetCommand | IncrbyCommand | DecrbyCommand | GetsetCommand | MsetCommand | MsetnxCommand
  | RenameCommand | RenamenxCommand | ExpireCommand | ExpireatCommand | PexpireCommand | PexpireatCommand
  | DbsizeCommand | TypeCommand | TtlCommand | TouchCommand | PttlCommand | PersistCommand.

Record redisCommand := RedisCommand { name : string; proc : procs; arity : Z }.

Definition redisCommandTable : list redisCommand :=
  [RedisCommand "get" GetCommand 2; RedisCommand "set" SetCommand (-3); RedisCommand "setnx" SetnxCommand 3;
   RedisCommand "setex" SetexCommand 4; RedisCommand "psetex" PsetexCommand 4; RedisCommand "append" AppendCommand 3;
   RedisCommand "strlen" StrlenCommand 2; RedisCommand "del" DelCommand (-2); RedisCommand "unlink" UnlinkCommand (-2);
   RedisCommand "exists" ExistsCommand (-2); RedisCommand "setrange" SetrangeCommand 4;
   RedisCommand "getrange" GetrangeCommand 4; RedisCommand "substr" GetrangeCommand 4;
   RedisCommand "incr" IncrCommand 2; RedisCommand "decr" DecrCommand 2; RedisCommand "mget" MgetCommand (-2);
   RedisCommand "incrby" IncrbyCommand 3; RedisCommand "decrby" DecrbyCommand 3; RedisCommand "getset" GetsetCommand 3;
   RedisCommand "mset" MsetCommand (-3); RedisCommand "msetnx" MsetnxCommand (-3); RedisCommand "rename" RenameCommand 3;
   RedisCommand "renamenx" RenamenxCommand 3; RedisCommand "expire" ExpireCommand 3; RedisCommand "expireat" ExpireatCommand 3;
   RedisCommand "pexpire" PexpireCommand 3; RedisCommand "pexpireat" PexpireatCommand 3; RedisCommand "dbsize" DbsizeCommand 1;
   RedisCommand "type" TypeCommand 2; RedisCommand "ttl" TtlCommand 2; RedisCommand "touch" TouchCommand (-2);
   RedisCommand "pttl" PttlCommand 2; RedisCommand "persist" PersistCommand 2].

(** The dictionary of the commands compares names without their case. *)
Definition lookupCommand (t : bytes) : option redisCommand :=
  List.find (λ c, bool_decide (bytes_of (name c) = map Sds.tolower t)) redisCommandTable.

(** The number of arguments does not fit. *)
Definition wrong_arity (c : redisCommand) (argc : Z) : bool :=
  ((0 <? arity c) && negb (arity c =? argc)) || (argc <? - arity c).

Definition arity_message (c : redisCommand) : string :=
  ("wrong number of arguments for '" ++ name c ++ "' command")%string.

Section Commands.
Context `{Alloc}.
Context (loading slave readonly_client lazyfree_lazy_expire lazyfree_lazy_server_del : bool) (shared_del shared_unlink : addr).
Context (shared_integers : Z → addr) (maxmemory maxmemory_policy : Z).

(** [c->cmd->proc(c)]; DEL and UNLINK, RENAME and RENAMENX, TTL and PTTL, MSET and
    MSETNX are one generic command each. *)
Definition call (p : procs) : M unit :=
  match p with
  | GetCommand => getCommand loading slave readonly_client lazyfree_lazy_expire shared_del shared_unlink
  | SetCommand => setCommand loading slave lazyfree_lazy_expire shared_del shared_unlink shared_integers maxmemory maxmemory_policy
  | SetnxCommand => setnxCommand loading slave lazyfree_lazy_expire shared_del shared_unlink shared_integers maxmemory maxmemory_policy
  | SetexCommand => setexCommand loading slave lazyfree_lazy_expire shared_del shared_unlink shared_integers maxmemory maxmemory_policy
  | PsetexCommand => psetexCommand loading slave lazyfree_lazy_expire shared_del shared_unlink shared_integers maxmemory maxmemory_policy
  | AppendCommand => appendCommand loading slave lazyfree_lazy_expire shared_del shared_unlink shared_integers maxmemory maxmemory_policy
  | StrlenCommand => strlenCommand loading slave readonly_client lazyfree_lazy_expire shared_del shared_unlink
  | DelCommand => delGenericCommand loading slave lazyfree_lazy_expire shared_del shared_unlink false
  | UnlinkCommand => delGenericCommand loading slave lazyfree_lazy_expire shared_del shared_unlink true
  | ExistsCommand => existsCommand loading slave lazyfree_lazy_expire shared_del shared_unlink
  | SetrangeCommand => setrangeCommand loading slave lazyfree_lazy_expire shared_del shared_unlink
  | GetrangeCommand => getrangeCommand loading slave readonly_client lazyfree_lazy_expire shared_del shared_unlink
  | IncrCommand => incrCommand loading slave lazyfree_lazy_expire shared_del shared_unlink shared_integers
  | DecrCommand => decrCommand loading slave lazyfree_lazy_expire shared_del shared_unlink shared_integers
  | MgetCommand => mgetCommand loading slave readonly_client lazyfree_lazy_expire shared_del shared_unlink
  | IncrbyCommand => incrbyCommand loading slave lazyfree_lazy_expire shared_del shared_unlink shared_integers
  | DecrbyCommand => decrbyCommand loading slave lazyfree_lazy_expire shared_del shared_unlink shared_integers
  | GetsetCommand => getsetCommand loading slave readonly_client lazyfree_lazy_expire shared_del shared_unlink shared_integers maxmemory maxmemory_policy
  | MsetCommand => msetGenericCommand loading slave lazyfree_lazy_expire shared_del shared_unlink shared_integers maxmemory maxmemory_policy false
  | MsetnxCommand => msetGenericCommand loading slave lazyfree_lazy_expire shared_del shared_unlink shared_integers maxmemory maxmemory_policy true
  | RenameCommand => renameGenericCommand loading slave lazyfree_lazy_expire lazyfree_lazy_server_del shared_del shared_unlink false
  | RenamenxCommand => renameGenericCommand loading slave lazyfree_lazy_expire lazyfree_lazy_server_del shared_del shared_unlink true
  | ExpireCommand => expireCommand loading slave lazyfree_lazy_expire shared_del shared_unlink
  | ExpireatCommand => expireatCommand loading slave lazyfree_lazy_expire shared_del shared_unlink
  | PexpireCommand => pexpireCommand loading slave lazyfree_lazy_expire shared_del shared_unlink
  | PexpireatCommand => pexpireatCommand loading slave lazyfree_lazy_expire shared_del shared_unlink
  | DbsizeCommand => dbsizeCommand
  | TypeCommand => typeCommand loading slave readonly_client lazyfree_lazy_expire shared_del shared_unlink
  | TtlCommand => ttlGenericCommand loading slave readonly_client lazyfree_lazy_expire shared_del shared_unlink false
  | TouchCommand => touchCommand loading slave readonly_client lazyfree_lazy_expire shared_del shared_unlink
  | PttlCommand => ttlGenericCommand loading slave readonly_client lazyfree_lazy_expire shared_del shared_unlink true
  | PersistCommand => persistCommand loading slave lazyfree_lazy_expire shared_del shared_unlink
  end.

(** A command outside the table is not run by this model. *)
Definition processCommand : M unit :=
  a <- arg 0;; t <- ptr_text a;;
  cmd <- lift (lookupCommand t);;
  argc <- get (λ s, zlen (argv s));;
  if wrong_arity cmd argc then addReplyError (arity_message cmd) else call (proc cmd).

(** A query of the client: the arguments, the command, [resetClient]. *)
Definition query (q : list bytes) : M unit :=
  each read_arg q;; processCommand;; freeClientArgv.

(** The time that [mstime()] returns while a query runs, then the query. *)
Definition set_clock (now : Z) (s : state) : state :=
  State (dict s) (expires s) (objs s) (argv s) now (dirty s) (events s) (replies s).

Definition session (qs : list (Z * list bytes)) : M unit :=
  each (λ q : Z * list bytes, modify (set_clock q.1);; query q.2) qs.
End Commands.
End Commands.
