(* ===== verification/KeyspaceSpec.v ===== *)
(** * What the keyspace holds

    [hrep] relates the dictionaries and the heap of [Keyspace] to a finite map from keys to values and
    deadlines.  It keeps the reference counts exact: the count of an object is the
    number of keys that hold it and of the references [X] held by the arguments and
    by the command itself, so that an object is freed when the last one goes and not
    before.  [wpm] says that a command runs to its end and what holds there.  This
    file has the references and the two dictionaries; the operations of db.c are in
    [KeyspaceOps]. *)

From Stdlib Require Import String.
From S2P Require Import Prelude.
From S2P Require Import Mem.
From S2P Require Import Util.
From S2P Require Import Sds.
From S2P Require Import SdsSpec.
From S2P Require Import Object.
From S2P Require Import ObjectSpec.
From S2P Require Import Keyspace.
Import Object Keyspace.

#[local] Notation addr := positive.
#[local] Notation length := Datatypes.length.

(** ** Runs *)

(** [m] runs from [s] to an end that satisfies [Q]. *)
Definition wpm {A} (m : M A) (s : state) (Q : A → state → Prop) : Prop := ∃ a s', m s = Some (a, s') ∧ Q a s'.

Lemma wpm_ret {A} (a : A) s (Q : A → state → Prop) : Q a s → wpm (ret a) s Q.
Proof. intros HQ. by exists a, s. Qed.

Lemma wpm_bind {A B} (m : M A) (k : A → M B) s Q : wpm m s (λ a s', wpm (k a) s' Q) → wpm (bind m k) s Q.
Proof.
  intros (a & s1 & Ha & b & s2 & Hb & HQ). exists b, s2. split; [|done]. unfold bind. rewrite Ha. done.
Qed.

Lemma wpm_mono {A} (m : M A) s (Q Q' : A → state → Prop) : wpm m s Q → (∀ a s', Q a s' → Q' a s') → wpm m s Q'.
Proof. intros (a & s1 & Ha & HQ) Himp. exists a, s1. auto. Qed.

Lemma wpm_step {A B} (m : M A) (k : A → M B) s a s1 Q : m s = Some (a, s1) → wpm (k a) s1 Q → wpm (bind m k) s Q.
Proof. intros Ha Hk. apply wpm_bind. by exists a, s1. Qed.

Lemma wpm_get {A B} (f : state → A) (k : A → M B) s Q : wpm (k (f s)) s Q → wpm (bind (get f) k) s Q.
Proof. by apply wpm_step. Qed.

Lemma wpm_modify {B} (f : state → state) (k : unit → M B) s Q : wpm (k tt) (f s) Q → wpm (bind (modify f) k) s Q.
Proof. by apply wpm_step. Qed.

Lemma wpm_lift {A B} (m : option A) a (k : A → M B) s Q : m = Some a → wpm (k a) s Q → wpm (bind (lift m) k) s Q.
Proof. intros ->. by apply wpm_step. Qed.

Lemma wpm_assert {B} b (k : unit → M B) s Q : b = true → wpm (k tt) s Q → wpm (bind (serverAssert b) k) s Q.
Proof. intros ->. by apply wpm_step. Qed.

Lemma heap_do_ok f s h : f (objs s) = Some h → heap_do f s = Some (tt, set_objs h s).
Proof. intros Hf. unfold heap_do, heap_op. by rewrite Hf. Qed.

Lemma heap_op_ok {A} (f : heap → option (heap * A)) s h a : f (objs s) = Some (h, a) → heap_op f s = Some (a, set_objs h s).
Proof. intros Hf. unfold heap_op. by rewrite Hf. Qed.

(** ** References *)

(** A reference that is not a key's: the object, its text, whether it is known to be
    a string rather than a number, and whether it is known to be the only one. *)
Record ref := Ref { ra : addr; rt : bytes; rs : bool; ru : bool }.

Definition cnt (X : list ref) (o : addr) : Z := Z.of_nat (length (filter (λ x, ra x = o) X)).

Definition refs (d : gmap bytes kvalue) (o : addr) : Z :=
  Z.of_nat (size (filter (λ kv : bytes * kvalue, kv.2 = VString o) d)).

Lemma cnt_cons x X o : cnt (x :: X) o = (if decide (ra x = o) then 1 else 0) + cnt X o.
Proof. unfold cnt. rewrite filter_cons. destruct (decide (ra x = o)); simpl; lia. Qed.

Lemma cnt_app X Y o : cnt (X ++ Y) o = cnt X o + cnt Y o.
Proof. unfold cnt. rewrite filter_app, length_app. lia. Qed.

Lemma cnt_nonneg X o : 0 ≤ cnt X o.
Proof. unfold cnt. lia. Qed.

Lemma cnt_le X o : cnt X o ≤ zlen X.
Proof. unfold cnt, zlen. apply inj_le. apply length_filter. Qed.

Lemma cnt_perm X Y o : X ≡ₚ Y → cnt X o = cnt Y o.
Proof. intros HXY. unfold cnt. by rewrite HXY. Qed.

Lemma cnt_pos X x : x ∈ X → 1 ≤ cnt X (ra x).
Proof.
  intros (X1 & X2 & ->)%list_elem_of_split. rewrite cnt_app, cnt_cons, decide_True by done.
  pose proof (cnt_nonneg X1 (ra x)). pose proof (cnt_nonneg X2 (ra x)). lia.
Qed.

Lemma refs_nonneg d o : 0 ≤ refs d o.
Proof. unfold refs. lia. Qed.

Lemma refs_insert d k v o :
  d !! k = None → refs (<[k := v]> d) o = (if decide (v = VString o) then 1 else 0) + refs d o.
Proof.
  intros Hk. unfold refs. destruct (decide (v = VString o)) as [->|Hv].
  - rewrite map_filter_insert_True by done. rewrite map_size_insert_None; [lia|].
    apply map_lookup_filter_None. by left.
  - rewrite map_filter_insert_False by done. by rewrite delete_id.
Qed.

Lemma refs_delete d k v o :
  d !! k = Some v → refs d o = (if decide (v = VString o) then 1 else 0) + refs (delete k d) o.
Proof.
  intros Hk. rewrite <-(insert_delete_id d k v Hk) at 1. apply refs_insert, lookup_delete_eq.
Qed.

Lemma refs_pos d k o : d !! k = Some (VString o) → 1 ≤ refs d o.
Proof. intros Hk. rewrite (refs_delete d k _ o Hk), decide_True by done. pose proof (refs_nonneg (delete k d) o). lia. Qed.

(** ** Representation *)
Definition MAXLEN : Z := 512 * 1024 * 1024.

Inductive aval := AStr (t : bytes) | AOther (t : otype).

Definition txt (h : heap) (o : addr) (t : bytes) : Prop :=
  ∃ r, h !! o = Some r ∧ obj_text r t ∧ wf_bytes t ∧ zlen t ≤ MAXLEN.

Definition good (h : heap) (x : ref) : Prop :=
  ∃ r, h !! ra x = Some r ∧ obj_text r (rt x) ∧ wf_bytes (rt x) ∧ zlen (rt x) ≤ MAXLEN ∧
    (rs x = true → sdsEncodedObject r = true) ∧ (ru x = true → refcount r = 1 ∨ refcount r = OBJ_SHARED_REFCOUNT).

Definition keyrep (m : gmap bytes (aval * option Z)) (d : gmap bytes kvalue) (e : gmap bytes Z) h (k : bytes) : Prop :=
  match m !! k with
  | None => d !! k = None ∧ e !! k = None
  | Some (v, dl) =>
      e !! k = dl ∧ (∀ w, dl = Some w → 0 ≤ w < 2 ^ 63) ∧
      match v with
      | AStr t => ∃ o, d !! k = Some (VString o) ∧ txt h o t
      | AOther ty => d !! k = Some (VOther ty)
      end
  end.

Lemma good_txt h x : good h x → txt h (ra x) (rt x).
Proof. intros (r & ? & ? & ? & ? & _). by exists r. Qed.

Section Heap.
Context `{Alloc} (shared_integers : Z → addr).

(** [dup] is the one object that two keys may hold, in the middle of a renaming. *)
Record hrep (dup : option addr) m d e X h : Prop := HRep {
  h_count : ∀ o r, h !! o = Some r →
    refcount r = OBJ_SHARED_REFCOUNT ∨
    (refcount r = refs d o + cnt X o ∧ 1 ≤ refcount r ∧ refs d o ≤ 1 + (if decide (dup = Some o) then 1 else 0));
  h_live : ∀ o, 0 < refs d o + cnt X o → is_Some (h !! o);
  h_shared : shared_ok shared_integers h;
  h_len : zlen X < 2 ^ 30;
  h_refs : Forall (good h) X;
  h_keys : ∀ k, keyrep m d e h k }.

Implicit Types (dup : option addr) (h : heap) (X Y : list ref).

Lemma hrep_perm dup m d e X Y h : hrep dup m d e X h → X ≡ₚ Y → hrep dup m d e Y h.
Proof.
  intros [Hc Hl Hs Hn Hr Hk] HXY. split; [| |done| | |done].
  - intros o r Ho. rewrite <-(cnt_perm X Y o HXY). by apply Hc.
  - intros o Ho. apply Hl. by rewrite (cnt_perm X Y o HXY).
  - unfold zlen in *. by rewrite <-HXY.
  - by rewrite <-HXY.
Qed.

(** The heap and the references change at one object only. *)
Lemma hrep_at dup m d e X X' h h' o :
  hrep dup m d e X h → (∀ a, a ≠ o → h' !! a = h !! a) → (∀ a, a ≠ o → cnt X' a = cnt X a) →
  (∀ r, h !! o = Some r → refcount r ≠ OBJ_SHARED_REFCOUNT) →
  match h' !! o with
  | None => refs d o + cnt X' o = 0
  | Some r' => (refcount r' = refs d o + cnt X' o ∧ 1 ≤ refcount r' ∧ refs d o ≤ 1 + (if decide (dup = Some o) then 1 else 0)) ∧
      (0 < refs d o → ∀ t, txt h o t → obj_text r' t)
  end →
  zlen X' < 2 ^ 30 → Forall (good h') X' → hrep dup m d e X' h'.
Proof.
  intros [Hc Hl Hs Hn Hr Hk] Hh HX Hns Ho Hn' Hr'. split; [| | |done|done|].
  - intros a r Ha. destruct (decide (a = o)) as [->|Hne]; [rewrite Ha in Ho; right; apply Ho|].
    rewrite Hh in Ha by done. rewrite HX by done. by apply Hc.
  - intros a Ha. destruct (decide (a = o)) as [->|Hne]; [destruct (h' !! o); [eauto|lia]|].
    rewrite Hh by done. apply Hl. by rewrite <-HX.
  - intros n Hnn. rewrite Hh; [by apply Hs|]. intros Heq. specialize (Hs n Hnn). rewrite Heq in Hs. by apply (Hns _ Hs).
  - intros k. specialize (Hk k). unfold keyrep in *. destruct (m !! k) as [[v dl]|]; [|done].
    destruct Hk as (He & Hw & Hv). split; [done|]. split; [done|]. destruct v as [t|ty]; [|done].
    destruct Hv as (a & Ha & r & Hra & Ht). exists a. split; [done|]. destruct (decide (a = o)) as [->|Hne].
    + pose proof (refs_pos d k o Ha). pose proof (cnt_nonneg X' o). destruct (h' !! o) as [r'|] eqn:E; [|lia].
      exists r'. split; [done|]. split; [|apply Ht]. apply (proj2 Ho); [lia|]. by exists r.
    + exists r. by rewrite Hh.
Qed.

(** A shared object takes and loses references without a change. *)
Lemma hrep_shared dup m d e X h o r :
  hrep dup m d e X h → h !! o = Some r → refcount r = OBJ_SHARED_REFCOUNT → ∀ X',
  (∀ a, a ≠ o → cnt X' a = cnt X a) → zlen X' < 2 ^ 30 → Forall (good h) X' → hrep dup m d e X' h.
Proof.
  intros [Hc Hl Hs Hn Hr Hk] Ho Hsh X' HX Hn' Hr'. split; try done.
  - intros a ra Ha. destruct (decide (a = o)) as [->|Hne]; [left; congruence|]. rewrite HX by done. by apply Hc.
  - intros a Ha. destruct (decide (a = o)) as [->|Hne]; [by eauto|]. apply Hl. by rewrite <-HX.
Qed.
(** ** Reference counts *)
Lemma good_at h h' x r :
  h !! ra x = Some r → good h x → ∀ r', h' !! ra x = Some r' → encoding r' = encoding r → ptr r' = ptr r →
  (ru x = true → refcount r' = 1 ∨ refcount r' = OBJ_SHARED_REFCOUNT) → good h' x.
Proof.
  intros Hr (r0 & Hr0 & Ht & Hw & Hl & Hs & _) r' Hr' He Hp Hu. simplify_eq. exists r'.
  unfold obj_text, sdsEncodedObject in *. rewrite He, Hp. by split_and!.
Qed.

Lemma good_other h h' x : h' !! ra x = h !! ra x → good h x → good h' x.
Proof. intros Hx (r & Hr & Hg). exists r. by rewrite Hx. Qed.

(** An object that a key holds too, or whose other references do not claim to be
    the only one. *)
Definition quiet d X (o : addr) : Prop := 0 < refs d o ∨ ∃ x, x ∈ X ∧ ra x = o ∧ ru x = false.

Lemma quiet_ru dup m d e X h o r x :
  hrep dup m d e X h → h !! o = Some r → refcount r ≠ OBJ_SHARED_REFCOUNT → quiet d X o →
  x ∈ X → ra x = o → ru x = false.
Proof.
  intros Hh Ho Hns Hq Hx <-. destruct (ru x) eqn:E; [exfalso|done].
  pose proof (proj1 (Forall_forall _ _) (h_refs _ _ _ _ _ _ Hh) x Hx) as (r0 & Hr0 & _ & _ & _ & _ & Hu). simplify_eq.
  destruct (h_count _ _ _ _ _ _ Hh _ _ Ho) as [|[Hc _]]; [done|]. specialize (Hu E).
  pose proof (cnt_pos X x Hx). pose proof (refs_nonneg d (ra x)).
  destruct Hq as [|(y & Hy & Hya & Hyu)]; [destruct Hu; lia|].
  apply list_elem_of_split in Hx as (X1 & X2 & ->). rewrite cnt_app, cnt_cons, decide_True in Hc by done.
  assert (1 ≤ cnt (X1 ++ X2) (ra x)) as Hy'.
  { rewrite <-Hya. apply cnt_pos. apply elem_of_app in Hy as [Hy|[->|Hy]%elem_of_cons]; [by apply elem_of_app; left|congruence|by apply elem_of_app; right]. }
  rewrite cnt_app in Hy'. destruct Hu; lia.
Qed.

Lemma set_refcount_small r n : 0 ≤ n < 2 ^ 31 → set_refcount r n = Robj (encoding r) n (ptr r).
Proof. intros Hn. unfold set_refcount. rewrite swrap_id; [done|lia|]. unfold in_s. change (2 ^ (32 - 1)) with (2 ^ 31). lia. Qed.

Lemma count_small dup m d e X h o r :
  hrep dup m d e X h → h !! o = Some r → refcount r ≠ OBJ_SHARED_REFCOUNT →
  refcount r = refs d o + cnt X o ∧ 1 ≤ refcount r ∧ refcount r ≤ 2 + zlen X ∧
  refs d o ≤ 1 + (if decide (dup = Some o) then 1 else 0).
Proof.
  intros Hh Ho Hns. destruct (h_count _ _ _ _ _ _ Hh _ _ Ho) as [|(Hc & H1 & Hd)]; [done|]. pose proof (cnt_le X o).
  split_and!; [done|done| |done]. destruct (decide (dup = Some o)); lia.
Qed.

Lemma count_incr dup m d e X h o r b :
  hrep dup m d e X h → h !! o = Some r → quiet d X o → (b = true → sdsEncodedObject r = true) → zlen X < 2 ^ 30 - 1 →
  ∀ t, txt h o t →
  ∃ h', incrRefCount h o = Some h' ∧ hrep dup m d e (Ref o t b false :: X) h' ∧
    (∀ a, a ≠ o → h' !! a = h !! a) ∧ ∃ r', h' !! o = Some r' ∧ encoding r' = encoding r ∧ ptr r' = ptr r.
Proof.
  intros Hh Ho Hq Hb Hn t (r0 & Hr0 & Ht & Hw & Hl). simplify_eq. unfold incrRefCount. rewrite Ho. cbn [mbind option_bind].
  assert (∀ a, a ≠ o → cnt (Ref o t b false :: X) a = cnt X a) as HX by (intros a Ha; by rewrite cnt_cons, decide_False).
  destruct (Z.eqb_spec (refcount r) OBJ_SHARED_REFCOUNT) as [Hsh|Hns]; cbn [negb].
  - exists h. split; [done|]. split; [|split; [done|by exists r]]. apply (hrep_shared dup m d e X h o r); try done; [zl|].
    constructor; [by exists r|]. apply Hh.
  - destruct (count_small dup m d e X h o r Hh Ho Hns) as (Hc & H1 & H2 & Hd).
    rewrite set_refcount_small by (change (2 ^ 31) with (2 * 2 ^ 30); lia). set (r' := Robj _ _ _).
    eexists. split; [done|]. split; [|split; [intros a Ha; by apply lookup_insert_ne|by exists r'; rewrite lookup_insert_eq]].
    apply (hrep_at dup m d e X _ h _ o Hh); try done.
    + intros a Ha. by apply lookup_insert_ne.
    + intros r1 Hr1. by simplify_eq.
    + rewrite lookup_insert_eq. split; [|intros _ t' (r1 & Hr1 & Ht' & _); by simplify_eq].
      rewrite cnt_cons, decide_True by done. simpl. split_and!; [lia|lia|done].
    + zl.
    + constructor; [exists r'; simpl; rewrite lookup_insert_eq; by split_and!|]. apply Forall_forall. intros x Hx.
      pose proof (proj1 (Forall_forall _ _) (h_refs _ _ _ _ _ _ Hh) x Hx) as Hg.
      destruct (decide (ra x = o)) as [Hxo|Hne]; [|apply (good_other h); [by apply lookup_insert_ne|done]].
      apply (good_at h _ x r ltac:(by rewrite Hxo) Hg r'); [by rewrite Hxo, lookup_insert_eq|done|done|].
      by rewrite (quiet_ru dup m d e X h o r x Hh Ho Hns Hq Hx Hxo).
Qed.

Lemma decr_ok dup m d e x X h :
  hrep dup m d e (x :: X) h →
  ∃ h', decrRefCount h (ra x) = Some h' ∧ hrep dup m d e X h' ∧ ∀ a, a ≠ ra x → h' !! a = h !! a.
Proof.
  intros Hh. set (o := ra x). pose proof (h_refs _ _ _ _ _ _ Hh) as Hgs. apply Forall_cons in Hgs as [Hgx HgX].
  destruct Hgx as (r & Ho & _). fold o in Ho. unfold decrRefCount. rewrite Ho. cbn [mbind option_bind].
  assert (∀ a, a ≠ o → cnt X a = cnt (x :: X) a) as HX by (intros a Ha; by rewrite cnt_cons, decide_False).
  pose proof (h_len _ _ _ _ _ _ Hh) as Hn.
  destruct (Z.eqb_spec (refcount r) OBJ_SHARED_REFCOUNT) as [Hsh|Hns].
  { rewrite Hsh. cbn. exists h. split; [done|]. split; [|done]. apply (hrep_shared dup m d e (x :: X) h o r); try done. zl. }
  destruct (count_small dup m d e _ h o r Hh Ho Hns) as (Hc & H1 & H2 & Hd).
  rewrite cnt_cons, decide_True in Hc by done.
  assert (∀ h', (∀ a, a ≠ o → h' !! a = h !! a) →
    match h' !! o with Some r' => encoding r' = encoding r ∧ ptr r' = ptr r ∧ refcount r' = refcount r - 1 ∧ 1 < refcount r
    | None => refcount r = 1 end → hrep dup m d e X h') as Hstep.
  { intros h' Hh' Hr'. apply (hrep_at dup m d e (x :: X) _ h _ o Hh); try done.
    - intros r1 Hr1. by simplify_eq.
    - destruct (h' !! o) as [r'|] eqn:E; [|pose proof (refs_nonneg d o); pose proof (cnt_nonneg X o); lia].
      destruct Hr' as (He & Hp & Hcnt & Hgt). split; [split_and!; [lia|lia|done]|]. intros _ t (r1 & Hr1 & Ht & _). simplify_eq.
      unfold obj_text. by rewrite He, Hp.
    - zl.
    - apply Forall_forall. intros y Hy. pose proof (proj1 (Forall_forall _ _) HgX y Hy) as Hg.
      destruct (decide (ra y = o)) as [Hyo|Hne]; [|by apply (good_other h); [apply Hh'|]].
      pose proof (cnt_pos X y Hy) as Hpos. rewrite Hyo in Hpos. pose proof (refs_nonneg d o).
      destruct (h' !! o) as [r'|] eqn:E; [|lia]. destruct Hr' as (He & Hp & Hcnt & Hgt).
      apply (good_at h _ y r ltac:(by rewrite Hyo) Hg r'); [by rewrite Hyo|done|done|]. intros Hu. exfalso.
      destruct Hg as (r1 & Hr1 & _ & _ & _ & _ & Hu'). rewrite Hyo in Hr1. simplify_eq. destruct (Hu' Hu); [lia|done]. }
  destruct (Z.eqb_spec (refcount r) 1) as [H1'|H1'].
  - eexists. split; [done|]. split; [|intros a Ha; by apply lookup_delete_ne].
    apply Hstep; [intros a Ha; by apply lookup_delete_ne|]. by rewrite lookup_delete_eq.
  - rewrite (proj2 (Z.leb_gt _ 0)) by lia. cbn [negb].
    rewrite set_refcount_small by (change (2 ^ 31) with (2 * 2 ^ 30); lia).
    eexists. split; [done|]. split; [|intros a Ha; by apply lookup_insert_ne].
    apply Hstep; [intros a Ha; by apply lookup_insert_ne|]. rewrite lookup_insert_eq. simpl. split_and!; [done|done|done|lia].
Qed.

(** A new object. *)
Lemma new_ok dup m d e X h o r t :
  hrep dup m d e X h → h !! o = None → obj_text r t → wf_bytes t → zlen t ≤ MAXLEN → refcount r = 1 → zlen X < 2 ^ 30 - 1 →
  hrep dup m d e (Ref o t (sdsEncodedObject r) true :: X) (<[o := r]> h).
Proof.
  intros Hh Ho Ht Hw Hl Hr Hn.
  assert (refs d o + cnt X o = 0) as Hz.
  { pose proof (refs_nonneg d o). pose proof (cnt_nonneg X o). destruct (decide (0 < refs d o + cnt X o)) as [Hp|Hp]; [|lia].
    apply (h_live _ _ _ _ _ _ Hh) in Hp as [? Hp]. congruence. }
  pose proof (refs_nonneg d o). pose proof (cnt_nonneg X o).
  apply (hrep_at dup m d e X _ h _ o Hh).
  - intros a Ha. by apply lookup_insert_ne.
  - intros a Ha. by rewrite cnt_cons, decide_False.
  - intros r1 Hr1. congruence.
  - rewrite lookup_insert_eq. rewrite cnt_cons, decide_True by done. split; [split_and!; [lia|lia|destruct (decide _); lia]|lia].
  - zl.
  - constructor; [exists r; simpl; rewrite lookup_insert_eq; by split_and!; [..|auto]|]. apply Forall_forall. intros x Hx.
    pose proof (proj1 (Forall_forall _ _) (h_refs _ _ _ _ _ _ Hh) x Hx) as Hg. apply (good_other h); [|done].
    apply lookup_insert_ne. intros Heq. destruct Hg as (r1 & Hr1 & _). congruence.
Qed.

(** The only reference to an object is replaced by the only one to another. *)
Lemma sole dup m d e x X h r :
  hrep dup m d e (x :: X) h → h !! ra x = Some r → refcount r = 1 → refs d (ra x) = 0 ∧ cnt X (ra x) = 0.
Proof.
  intros Hh Hr H1. destruct (h_count _ _ _ _ _ _ Hh _ _ Hr) as [Hs|(Hc & _)]; [rewrite Hs in H1; done|].
  rewrite cnt_cons, decide_True in Hc by done. pose proof (refs_nonneg d (ra x)). pose proof (cnt_nonneg X (ra x)). lia.
Qed.

Lemma not_in X x o : cnt X o = 0 → x ∈ X → ra x ≠ o.
Proof. intros Hc Hx <-. pose proof (cnt_pos X x Hx). lia. Qed.

Lemma drop_sole dup m d e x X h r :
  hrep dup m d e (x :: X) h → h !! ra x = Some r → refcount r = 1 → hrep dup m d e X (delete (ra x) h).
Proof.
  intros Hh Hr H1. destruct (sole dup m d e x X h r Hh Hr H1) as [Hz Hz'].
  pose proof (h_refs _ _ _ _ _ _ Hh) as Hgs. apply Forall_cons in Hgs as [_ HgX].
  apply (hrep_at dup m d e (x :: X) _ h _ (ra x) Hh).
  - intros a Ha. by apply lookup_delete_ne.
  - intros a Ha. by rewrite cnt_cons, decide_False.
  - intros r1 Hr1. simplify_eq. by rewrite H1.
  - rewrite lookup_delete_eq. lia.
  - pose proof (h_len _ _ _ _ _ _ Hh). zl.
  - apply Forall_forall. intros y Hy. pose proof (proj1 (Forall_forall _ _) HgX y Hy) as Hg.
    apply (good_other h); [|done]. apply lookup_delete_ne. intros Heq. by eapply (not_in X y (ra x)).
Qed.

Lemma encode_ok maxmemory policy dup m d e o t X h :
  hrep dup m d e (Ref o t true true :: X) h →
  ∃ h' o' b, tryObjectEncoding shared_integers maxmemory policy h o = Some (h', o') ∧
    hrep dup m d e (Ref o' t b true :: X) h'.
Proof.
  intros Hh. pose proof (h_refs _ _ _ _ _ _ Hh) as Hgs. apply Forall_cons in Hgs as [(r & Hr & Ht & Hw & Hl & Hs & Hu) HgX].
  simpl in *. specialize (Hs eq_refl). specialize (Hu eq_refl). pose proof (h_len _ _ _ _ _ _ Hh) as Hn.
  destruct Hu as [H1|Hsh].
  2:{ exists h, o, true. split; [|done]. unfold tryObjectEncoding. rewrite Hr. cbn [mbind option_bind]. rewrite Hs. cbn [negb].
      by rewrite Hsh. }
  destruct (try_ok shared_integers maxmemory policy h o r t Hr Ht ltac:(lia)) as (h' & o' & r' & -> & Hr' & Ht' & _ & Hk & Hc);
    [unfold MAXLEN in Hl; lia|apply Hh|].
  exists h', o', (sdsEncodedObject r'). split; [done|]. destruct (decide (o' = o)) as [->|Hne].
  - destruct (sole dup m d e _ X h r Hh Hr H1) as [Hz Hz']. simpl in *.
    apply (hrep_at dup m d e _ _ h _ o Hh); [intros a Ha; by apply Hk|intros a Ha; by rewrite !cnt_cons|intros r1 Hr1; simplify_eq; by rewrite H1| |zl|].
    + rewrite Hr'. rewrite cnt_cons, decide_True by done. split; [split_and!; [lia|lia|destruct (decide _); lia]|lia].
    + constructor; [exists r'; simpl; split_and!; try done; intros _; left; lia|]. apply Forall_forall. intros y Hy.
      pose proof (proj1 (Forall_forall _ _) HgX y Hy) as Hg. apply (good_other h); [|done].
      apply Hk; by apply (not_in X).
  - destruct Hc as [Hnone Hc]. pose proof (drop_sole dup m d e _ X h r Hh Hr H1) as Hd. simpl in Hd.
    destruct Hc as [[Hc Hfree]|[Hc Hsame]].
    + assert (h' = <[o' := r']> (delete o h)) as ->.
      { apply map_eq. intros a. destruct (decide (a = o')) as [->|Ha']; [by rewrite lookup_insert_eq|].
        rewrite lookup_insert_ne by done. destruct (decide (a = o)) as [->|Ha]; [by rewrite lookup_delete_eq|].
        rewrite lookup_delete_ne by done. by apply Hk. }
      apply new_ok; try done; [rewrite lookup_delete_ne by done; done|zl].
    + assert (h' = delete o h) as ->.
      { apply map_eq. intros a. destruct (decide (a = o)) as [->|Ha]; [by rewrite lookup_delete_eq|].
        rewrite lookup_delete_ne by done. destruct (decide (a = o')) as [->|Ha']; [congruence|]. by apply Hk. }
      apply (hrep_shared dup m d e X _ o' r' Hd Hr' Hc); [intros a Ha; by rewrite cnt_cons, decide_False|zl|].
      constructor; [exists r'; simpl; split_and!; try done; by right|]. apply Hd.
Qed.

(** ** Entries of the dictionaries *)
Lemma dict_put dup dup' m d e x X h k :
  hrep dup m d e (x :: X) h → m !! k = None →
  (∀ r, h !! ra x = Some r → refcount r ≠ OBJ_SHARED_REFCOUNT → refs d (ra x) ≤ if decide (dup' = Some (ra x)) then 1 else 0) →
  (dup = None ∨ dup' = dup) →
  hrep dup' (<[k := (AStr (rt x), None)]> m) (<[k := VString (ra x)]> d) e X h.
Proof.
  intros Hh Hk Hb Hd. destruct Hh as [Hc Hl Hs Hn Hr Hkeys]. pose proof (Hkeys k) as Hkk. unfold keyrep in Hkk. rewrite Hk in Hkk.
  destruct Hkk as [Hdk Hek]. apply Forall_cons in Hr as [Hgx HgX].
  assert (∀ o, refs (<[k := VString (ra x)]> d) o = (if decide (ra x = o) then 1 else 0) + refs d o) as Hrefs.
  { intros o. rewrite refs_insert by done. f_equal. destruct (decide (ra x = o)) as [->|]; [by rewrite decide_True|].
    rewrite decide_False; [done|congruence]. }
  split; [| |done|zl|done|].
  - intros o r Ho. destruct (decide (refcount r = OBJ_SHARED_REFCOUNT)) as [|Hns]; [by left|]. right.
    destruct (Hc o r Ho) as [|(Hcc & H1 & Hdd)]; [done|]. rewrite cnt_cons in Hcc. rewrite Hrefs.
    destruct (decide (ra x = o)) as [<-|Hne]; split_and!; try lia.
    + specialize (Hb r Ho Hns). destruct (decide (dup' = Some (ra x))); lia.
    + destruct Hd as [->| ->]; [|done]. rewrite decide_False in Hdd by done. destruct (decide (dup' = Some o)); lia.
  - intros o Ho. apply Hl. rewrite Hrefs in Ho. rewrite cnt_cons. lia.
  - intros k'. specialize (Hkeys k'). unfold keyrep in *. destruct (decide (k' = k)) as [->|Hne].
    + rewrite !lookup_insert_eq. split; [done|]. split; [done|]. exists (ra x). split; [done|]. by apply good_txt.
    + by rewrite !lookup_insert_ne by done.
Qed.

(** A reference that is the only one goes to a key. *)
Lemma dict_put_sole dup m d e x X h k :
  hrep dup m d e (x :: X) h → m !! k = None → ru x = true →
  hrep dup (<[k := (AStr (rt x), None)]> m) (<[k := VString (ra x)]> d) e X h.
Proof.
  intros Hh Hk Hu. apply (dict_put dup dup m d e x X h k Hh Hk); [|by right]. intros r Hr Hns.
  pose proof (h_refs _ _ _ _ _ _ Hh) as Hgs. apply Forall_cons in Hgs as [(r' & Hr' & _ & _ & _ & _ & Hu') _]. simplify_eq.
  destruct (Hu' Hu) as [H1|]; [|done]. destruct (sole dup m d e x X h r Hh Hr H1) as [-> _]. destruct (decide _); lia.
Qed.

Lemma dict_put_other dup m d e X h k ty :
  hrep dup m d e X h → m !! k = None →
  hrep dup (<[k := (AOther ty, None)]> m) (<[k := VOther ty]> d) e X h.
Proof.
  intros Hh Hk. destruct Hh as [Hc Hl Hs Hn Hr Hkeys]. pose proof (Hkeys k) as Hkk. unfold keyrep in Hkk. rewrite Hk in Hkk.
  destruct Hkk as [Hdk Hek].
  assert (∀ o, refs (<[k := VOther ty]> d) o = refs d o) as Hrefs by (intros o; by rewrite refs_insert, decide_False by done).
  split; [intros o r; rewrite Hrefs; apply Hc|intros o; rewrite Hrefs; apply Hl|done|done|done|].
  intros k'. specialize (Hkeys k'). unfold keyrep in *. destruct (decide (k' = k)) as [->|Hne].
  - by rewrite !lookup_insert_eq.
  - by rewrite !lookup_insert_ne by done.
Qed.

Lemma key_string dup m d e X h k t dl :
  hrep dup m d e X h → m !! k = Some (AStr t, dl) → ∃ o, d !! k = Some (VString o) ∧ txt h o t ∧ e !! k = dl.
Proof. intros Hh Hk. pose proof (h_keys _ _ _ _ _ _ Hh k) as Hkk. unfold keyrep in Hkk. rewrite Hk in Hkk. naive_solver. Qed.

Lemma key_other dup m d e X h k ty dl :
  hrep dup m d e X h → m !! k = Some (AOther ty, dl) → d !! k = Some (VOther ty) ∧ e !! k = dl.
Proof. intros Hh Hk. pose proof (h_keys _ _ _ _ _ _ Hh k) as Hkk. unfold keyrep in Hkk. rewrite Hk in Hkk. naive_solver. Qed.

Lemma key_none dup m d e X h k : hrep dup m d e X h → m !! k = None → d !! k = None ∧ e !! k = None.
Proof. intros Hh Hk. pose proof (h_keys _ _ _ _ _ _ Hh k) as Hkk. unfold keyrep in Hkk. by rewrite Hk in Hkk. Qed.

Lemma keyrep_delete m d e h k k' :
  keyrep m d e h k' → keyrep (delete k m) (delete k d) (delete k e) h k'.
Proof.
  intros Hk. unfold keyrep in *. destruct (decide (k' = k)) as [->|Hne]; [by rewrite !lookup_delete_eq|].
  by rewrite !lookup_delete_ne by done.
Qed.

(** The reference of a key goes to the command. *)
Lemma dict_take dup dup' m d e X h k o t dl :
  hrep dup m d e X h → m !! k = Some (AStr t, dl) → d !! k = Some (VString o) → zlen X < 2 ^ 30 - 1 →
  (dup' = dup ∨ dup = Some o ∧ dup' = None) →
  hrep dup' (delete k m) (delete k d) (delete k e) (Ref o t false false :: X) h.
Proof.
  intros Hh Hm Hd Hn Hdup. destruct (key_string _ _ _ _ _ _ _ _ _ Hh Hm) as (o' & Ho' & Ht & _). simplify_eq.
  destruct Hh as [Hc Hl Hs _ Hr Hkeys].
  assert (∀ a, refs d a = (if decide (o = a) then 1 else 0) + refs (delete k d) a) as Hrefs.
  { intros a. rewrite (refs_delete d k _ a Hd). f_equal. destruct (decide (o = a)) as [->|]; [by rewrite decide_True|].
    rewrite decide_False; [done|congruence]. }
  split; [| |done|zl| |].
  - intros a r Ha. destruct (Hc a r Ha) as [|(Hcc & H1 & Hdd)]; [by left|right]. rewrite cnt_cons. simpl.
    rewrite Hrefs in Hcc, Hdd. split_and!; try lia.
    destruct Hdup as [->|[-> ->]]; [destruct (decide (o = a)); lia|].
    destruct (decide (o = a)) as [->|Hne]; [rewrite decide_True in Hdd by done; rewrite decide_False by done; lia|].
    rewrite decide_False in Hdd by congruence. rewrite decide_False by done. lia.
  - intros a Ha. apply Hl. rewrite cnt_cons in Ha. simpl in Ha. rewrite Hrefs. lia.
  - constructor; [|done]. destruct Ht as (r & Hr' & Ht & Hw & Hlen). exists r. by split_and!.
  - intros k'. apply keyrep_delete, Hkeys.
Qed.

Lemma dict_take_other dup m d e X h k ty :
  hrep dup m d e X h → d !! k = Some (VOther ty) → hrep dup (delete k m) (delete k d) (delete k e) X h.
Proof.
  intros [Hc Hl Hs Hn Hr Hkeys] Hd.
  assert (∀ a, refs d a = refs (delete k d) a) as Hrefs by (intros a; by rewrite (refs_delete d k _ a Hd), decide_False by done).
  split; [intros a r; rewrite <-Hrefs; apply Hc|intros a; rewrite <-Hrefs; apply Hl|done|done|done|].
  intros k'. apply keyrep_delete, Hkeys.
Qed.

Lemma expires_put dup m d e X h k v dl w :
  hrep dup m d e X h → m !! k = Some (v, dl) → 0 ≤ w < 2 ^ 63 → hrep dup (<[k := (v, Some w)]> m) d (<[k := w]> e) X h.
Proof.
  intros [Hc Hl Hs Hn Hr Hkeys] Hm Hw. split; try done. intros k'. specialize (Hkeys k'). unfold keyrep in *.
  destruct (decide (k' = k)) as [->|Hne]; [|by rewrite !lookup_insert_ne by done]. rewrite Hm in Hkeys. rewrite !lookup_insert_eq.
  split; [done|]. split; [by intros ? [= <-]|apply Hkeys].
Qed.

Lemma expires_drop dup m d e X h k v dl :
  hrep dup m d e X h → m !! k = Some (v, dl) → hrep dup (<[k := (v, None)]> m) d (delete k e) X h.
Proof.
  intros [Hc Hl Hs Hn Hr Hkeys] Hm. split; try done. intros k'. specialize (Hkeys k'). unfold keyrep in *.
  destruct (decide (k' = k)) as [->|Hne]; [|by rewrite !lookup_insert_ne, lookup_delete_ne by done]. rewrite Hm in Hkeys. rewrite lookup_insert_eq, lookup_delete_eq.
  split; [done|]. split; [done|apply Hkeys].
Qed.

(** The deadline that a key had, after it was taken out and put back. *)
Lemma expires_back dup m d e X h k v dl t0 :
  hrep dup (<[k := (v, None)]> m) d (delete k e) X h → e !! k = dl → m !! k = Some (t0, dl) → (∀ w, dl = Some w → 0 ≤ w < 2 ^ 63) →
  hrep dup (<[k := (v, dl)]> m) d e X h.
Proof.
  intros Hh He Hm Hw. destruct dl as [w|]; [|by rewrite delete_id in Hh].
  pose proof (expires_put dup _ d _ X h k v None w Hh ltac:(by rewrite lookup_insert_eq) (Hw w eq_refl)) as Hp.
  by rewrite insert_insert_eq, insert_delete_id in Hp.
Qed.

Lemma deadline_pos dup m d e X h k v dl w : hrep dup m d e X h → m !! k = Some (v, dl) → dl = Some w → 0 ≤ w < 2 ^ 63.
Proof. intros Hh Hm. pose proof (h_keys _ _ _ _ _ _ Hh k) as Hkk. unfold keyrep in Hkk. rewrite Hm in Hkk. naive_solver. Qed.
End Heap.
