(* ===== verification/KeyspaceOps.v ===== *)
(** * The operations of db.c on a finite map

    [Rep] relates a state to an abstract one: a finite map from keys to values with
    deadlines, the clock, the count of changes, the events and the replies.  Each
    lemma says that an operation of [Keyspace] ends, gives the result that the
    finite map has, and keeps the reference counts exact.  The server is a master
    that is not loading. *)

From Stdlib Require Import String.
From S2P Require Import Prelude.
From S2P Require Import Mem.
From S2P Require Import Util.
From S2P Require Import Sds.
From S2P Require Import SdsSpec.
From S2P Require Import Object.
From S2P Require Import ObjectSpec.
From S2P Require Import Keyspace.
From S2P Require Import KeyspaceSpec.
Import Object Keyspace.

#[local] Notation addr := positive.
#[local] Notation length := Datatypes.length.

Record astate := AState {
  amap : gmap bytes (aval * option Z); aclock : Z; adirty : Z; aevents : list event; areplies : list reply }.

Definition with_map m (A : astate) := AState m (aclock A) (adirty A) (aevents A) (areplies A).
Definition a_dirty n (A : astate) := AState (amap A) (aclock A) (adirty A + n) (aevents A) (areplies A).
Definition a_event e (A : astate) := AState (amap A) (aclock A) (adirty A) (aevents A ++ [e]) (areplies A).
Definition a_reply r (A : astate) := AState (amap A) (aclock A) (adirty A) (aevents A) (areplies A ++ [r]).

(** A key whose deadline has passed, and what an access to it does. *)
Definition expired (A : astate) (k : bytes) : bool :=
  match amap A !! k with Some (_, Some w) => w <? aclock A | _ => false end.

Definition a_del k (A : astate) := with_map (delete k (amap A)) A.

Definition a_purge (lazy : bool) k (A : astate) : astate :=
  if expired A k
  then a_del k (a_event (NotifyKeyspaceEvent NOTIFY_EXPIRED "expired" k) (a_event (PropagateExpire lazy k) A))
  else A.

(** ** The text of a number in a reply *)
Lemma bulk_loop fuel : ∀ v acc, Z.abs v < 10 ^ Z.of_nat fuel → (0 < fuel)%nat →
  loop fuel bulk_len_body (v, acc) = Some (acc - 1 + zlen (Util.dec (Z.abs v))).
Proof.
  induction fuel as [|fuel IH]; intros v acc Hv Hf; [lia|]. rewrite loop_S.
  change (bulk_len_body (v, acc)) with (Some (if Z.quot v 10 =? 0 then inr acc else inl (Z.quot v 10, acc + 1)) : option (Z * Z + Z)).
  assert (Z.abs (Z.quot v 10) = Z.abs v / 10) as Hq by (Z.to_euclidean_division_equations; lia).
  destruct (Z.eqb_spec (Z.quot v 10) 0) as [Hz|Hz].
  - rewrite Util.dec_small by (Z.to_euclidean_division_equations; lia). change (zlen [Util.ch_0 + Z.abs v]) with 1. cbn [mbind option_bind]. apply f_equal. lia.
  - cbn [mbind option_bind]. rewrite Nat2Z.inj_succ, Z.pow_succ_r in Hv by lia.
    assert (10 ≤ Z.abs v) as H10 by (Z.to_euclidean_division_equations; lia).
    rewrite (IH (Z.quot v 10) (acc + 1)); [|rewrite Hq; apply Z.div_lt_upper_bound; lia|destruct fuel; [change (10 ^ Z.of_nat 0) with 1 in Hv; lia|lia]].
    rewrite Hq, (Util.dec_step (Z.abs v) H10), zlen_app. change (zlen [_]) with 1. apply f_equal. lia.
Qed.

Lemma bulk_number n : in_s 64 n →
  loop 20 bulk_len_body (if n <? 0 then (swrap 64 (- n), 2) else (n, 1)) = Some (zlen (Util.print n)).
Proof.
  intros Hn. assert (Z.abs (swrap 64 (- n)) = Z.abs n) as Hs.
  { unfold in_s in Hn. change (2 ^ (64 - 1)) with 9223372036854775808 in Hn. unfold swrap.
    change (2 ^ (64 - 1)) with 9223372036854775808. change (2 ^ 64) with 18446744073709551616. Z.to_euclidean_division_equations. lia. }
  unfold in_s in Hn. change (2 ^ (64 - 1)) with 9223372036854775808 in Hn.
  assert (Z.abs n < 10 ^ Z.of_nat 20) as H20 by (change (10 ^ Z.of_nat 20) with 100000000000000000000; lia).
  unfold Util.print. destruct (Z.ltb_spec n 0) as [Hneg|Hpos].
  - rewrite bulk_loop by (rewrite ?Hs; (done || lia)). rewrite Hs, zlen_cons. replace (Z.abs n) with (- n) by lia. f_equal; lia.
  - rewrite bulk_loop by (done || lia). replace (Z.abs n) with n by lia. f_equal; lia.
Qed.

Section Ops.
Context `{Alloc} (shared_integers : Z → addr).
Context (readonly_client lazyfree_lazy_expire lazyfree_lazy_server_del : bool).
Context (shared_del shared_unlink : addr).

(** The references that the server itself holds. *)
Definition perms : list ref := [Ref shared_del (bytes_of "DEL") true false; Ref shared_unlink (bytes_of "UNLINK") true false].

Record Rep (dup : option addr) (X : list ref) (L : list addr) (A : astate) (s : state) : Prop := RepI {
  R_h : hrep shared_integers dup (amap A) (dict s) (expires s) (perms ++ X) (objs s);
  R_argv : argv s = L;
  R_clock : clock s = aclock A;
  R_dirty : dirty s = adirty A;
  R_events : events s = aevents A;
  R_replies : replies s = areplies A }.

Definition small (X : list ref) : Prop := zlen X < 2 ^ 29.

(** An argument of the command that is a string. *)
Definition holds (X : list ref) (o : addr) (t : bytes) : Prop := Ref o t true false ∈ X.

Implicit Types (dup : option addr) (X : list ref) (L : list addr) (A : astate) (s : state).

Lemma perms_cons x X : perms ++ x :: X ≡ₚ x :: perms ++ X.
Proof. symmetry. apply Permutation_middle. Qed.

Lemma small_perms X : small X → zlen (perms ++ X) < 2 ^ 30 - 10.
Proof. unfold small. rewrite zlen_app. change (zlen perms) with 2. change (2 ^ 29) with 536870912. change (2 ^ 30) with 1073741824. lia. Qed.

Lemma small_slack X : small X → zlen X < 2 ^ 30 - 4.
Proof. unfold small. change (2 ^ 29) with 536870912. change (2 ^ 30) with 1073741824. lia. Qed.

(** ** Steps that do not touch the dictionaries *)
Lemma Rep_event dup X L A s e : Rep dup X L A s → Rep dup X L (a_event e A) (add_event e s).
Proof. intros [? ? ? ? He ?]. split; simpl; try done. by rewrite He. Qed.
Lemma Rep_reply dup X L A s r : Rep dup X L A s → Rep dup X L (a_reply r A) (add_reply r s).
Proof. intros [? ? ? ? ? Hr]. split; simpl; try done. by rewrite Hr. Qed.
Lemma Rep_dirty dup X L A s n : Rep dup X L A s → Rep dup X L (a_dirty n A) (add_dirty n s).
Proof. intros [? ? ? Hd ? ?]. split; simpl; try done. by rewrite Hd. Qed.

(** What the dictionaries and the heap are otherwise. *)
Lemma Rep_change dup dup' X X' L A s s' m :
  Rep dup X L A s →
  (argv s', clock s', dirty s', events s', replies s') = (argv s, clock s, dirty s, events s, replies s) →
  hrep shared_integers dup' m (dict s') (expires s') (perms ++ X') (objs s') → Rep dup' X' L (with_map m A) s'.
Proof. intros [? ? ? ? ? ?] [= ? ? ? ? ?] Hh. split; simpl; [done|congruence..]. Qed.

Lemma with_map_id A : with_map (amap A) A = A.
Proof. by destruct A. Qed.

Lemma Rep_heap dup X X' L A s h :
  Rep dup X L A s → hrep shared_integers dup (amap A) (dict s) (expires s) (perms ++ X') h → Rep dup X' L A (set_objs h s).
Proof. intros HR Hh. rewrite <-(with_map_id A). by eapply Rep_change. Qed.

Lemma Rep_perm dup X Y L A s : Rep dup X L A s → X ≡ₚ Y → Rep dup Y L A s.
Proof. intros [Hh ? ? ? ? ?] HXY. split; try done. eapply hrep_perm; [exact Hh|]. by rewrite HXY. Qed.

Lemma Rep_in dup X L A s x : Rep dup X L A s → x ∈ X → good (objs s) x.
Proof.
  intros HR Hx. eapply (proj1 (Forall_forall _ _)); [apply (R_h _ _ _ _ _ HR)|]. apply elem_of_app. by right.
Qed.

Lemma good_ptr s o t u : good (objs s) (Ref o t true u) → ptr_text o s = Some (t, s).
Proof.
  intros (r & Hr & Ht & _ & _ & Hs & _). simpl in *. destruct (obj_sds r t Ht (Hs eq_refl)) as (sd & Hsd & _ & Hl & Hp & _).
  unfold ptr_text, bind, get, lift. cbn [mbind option_bind]. rewrite Hr. cbn [mbind option_bind]. rewrite Hsd. cbn [mbind option_bind].
  unfold sds_contents. rewrite Hl. cbn [mbind option_bind]. by rewrite Hp.
Qed.

Lemma text_ok dup X L A s o t u : Rep dup X L A s → Ref o t true u ∈ X → ptr_text o s = Some (t, s).
Proof. intros HR Ho. by eapply good_ptr, Rep_in. Qed.

Lemma wpm_text {B} dup X L A s o t u (k : bytes → M B) Q :
  Rep dup X L A s → Ref o t true u ∈ X → wpm (k t) s Q → wpm (bind (ptr_text o) k) s Q.
Proof. intros HR Ho. apply wpm_step. by eapply text_ok. Qed.

Lemma signal_ok dup X L A s key k :
  Rep dup X L A s → holds X key k → signalModifiedKey key s = Some (tt, add_event (SignalModifiedKey k) s).
Proof. intros HR Hk. unfold signalModifiedKey, bind. by rewrite (text_ok _ _ _ _ _ _ _ _ HR Hk). Qed.

Lemma notify_ok dup X L A s c name key k :
  Rep dup X L A s → holds X key k →
  notifyKeyspaceEvent c name key s = Some (tt, add_event (NotifyKeyspaceEvent c name k) s).
Proof. intros HR Hk. unfold notifyKeyspaceEvent, bind. by rewrite (text_ok _ _ _ _ _ _ _ _ HR Hk). Qed.

Lemma holds_quiet d X o t : holds X o t → quiet d (perms ++ X) o.
Proof. intros Hx. right. exists (Ref o t true false). split; [|done]. apply elem_of_app. by right. Qed.

(** ** Reference counts *)
Lemma incr_rep dup X L A s o t b :
  Rep dup X L A s → txt (objs s) o t → quiet (dict s) (perms ++ X) o → zlen X < 2 ^ 30 - 4 →
  (b = true → ∃ x, x ∈ perms ++ X ∧ ra x = o ∧ rs x = true) →
  ∃ s', heap_do (λ h, incrRefCount h o) s = Some (tt, s') ∧ Rep dup (Ref o t b false :: X) L A s' ∧
    dict s' = dict s ∧ expires s' = expires s.
Proof.
  intros HR Ht Hq Hn Hb. pose proof Ht as (r & Hr & Ht').
  destruct (count_incr shared_integers dup _ _ _ _ _ o r b (R_h _ _ _ _ _ HR) Hr Hq) with t as (h' & Hi & Hh & _); [| |done|].
  - intros Hbt. destruct (Hb Hbt) as (x & Hx & <- & Hs).
    pose proof (proj1 (Forall_forall _ _) (h_refs _ _ _ _ _ _ _ (R_h _ _ _ _ _ HR)) x Hx) as (r' & Hr' & _ & _ & _ & Hs' & _).
    simplify_eq. by apply Hs'.
  - rewrite zlen_app. change (zlen perms) with 2. lia.
  - exists (set_objs h' s). split; [by apply heap_do_ok|]. split; [|done]. apply (Rep_heap dup X); [done|].
    eapply hrep_perm; [exact Hh|]. symmetry. apply perms_cons.
Qed.

Lemma decr_rep dup x X L A s :
  Rep dup (x :: X) L A s →
  ∃ s', heap_do (λ h, decrRefCount h (ra x)) s = Some (tt, s') ∧ Rep dup X L A s' ∧
    dict s' = dict s ∧ expires s' = expires s ∧ ∀ a, a ≠ ra x → objs s' !! a = objs s !! a.
Proof.
  intros HR. destruct (decr_ok shared_integers dup (amap A) (dict s) (expires s) x (perms ++ X) (objs s)) as (h' & Hd & Hh & Hk).
  { eapply hrep_perm; [apply (R_h _ _ _ _ _ HR)|apply perms_cons]. }
  exists (set_objs h' s). split; [by apply heap_do_ok|]. split; [by apply (Rep_heap dup (x :: X))|done].
Qed.

Lemma decr_perm dup x X Y L A s :
  Rep dup Y L A s → Y ≡ₚ x :: X →
  ∃ s', heap_do (λ h, decrRefCount h (ra x)) s = Some (tt, s') ∧ Rep dup X L A s' ∧
    dict s' = dict s ∧ expires s' = expires s ∧ ∀ a, a ≠ ra x → objs s' !! a = objs s !! a.
Proof. intros HR HXY. apply decr_rep. by eapply Rep_perm. Qed.

(** ** Deletion *)
Lemma key_delete_ok dup dup' X L A s k o t dl :
  Rep dup X L A s → small X → amap A !! k = Some (AStr t, dl) → dict s !! k = Some (VString o) →
  (dup' = dup ∨ dup = Some o ∧ dup' = None) →
  ∃ s', dict_delete k (set_expires (delete k (expires s)) s) = Some (true, s') ∧ Rep dup' X L (a_del k A) s' ∧
    dict s' = delete k (dict s).
Proof.
  intros HR Hn Hm Hd Hdup. unfold dict_delete, bind, get, modify. simpl. rewrite Hd. simpl.
  pose proof (dict_take shared_integers dup dup' _ _ _ _ _ k o t dl (R_h _ _ _ _ _ HR) Hm Hd ltac:(pose proof (small_perms X Hn); lia) Hdup) as Hh.
  set (s1 := set_dict _ _).
  assert (Rep dup' (Ref o t false false :: X) L (a_del k A) s1) as HR1.
  { apply (Rep_change dup dup' X _ L A s s1 _ HR); [done|]. eapply hrep_perm; [exact Hh|]. symmetry. apply perms_cons. }
  destruct (decr_rep dup' _ X L _ s1 HR1) as (s2 & E2 & HR2 & Hd2 & _). simpl in E2. rewrite E2. by exists s2.
Qed.

Lemma dict_delete_ok dup X L A s k :
  Rep dup X L A s → small X →
  ∃ s', dict_delete k (set_expires (delete k (expires s)) s) = Some (bool_decide (is_Some (amap A !! k)), s') ∧
    Rep dup X L (a_del k A) s' ∧ dict s' = delete k (dict s).
Proof.
  intros HR Hn. pose proof (R_h _ _ _ _ _ HR) as Hh. destruct (amap A !! k) as [[[t|ty] dl]|] eqn:Hm.
  - destruct (key_string shared_integers _ _ _ _ _ _ _ _ _ Hh Hm) as (o & Ho & _).
    rewrite bool_decide_eq_true_2 by eauto. by eapply key_delete_ok; [..|left].
  - destruct (key_other shared_integers _ _ _ _ _ _ _ _ _ Hh Hm) as (Ho & _).
    rewrite bool_decide_eq_true_2 by eauto. unfold dict_delete, bind, get, modify, ret. simpl. rewrite Ho. simpl. eexists. split; [done|]. split; [|done].
    apply (Rep_change dup dup X _ L A s _ _ HR); [done|]. by eapply dict_take_other.
  - destruct (key_none shared_integers _ _ _ _ _ _ _ Hh Hm) as (Hd & He). rewrite bool_decide_eq_false_2 by (by intros []).
    unfold dict_delete, bind, get, ret. simpl. rewrite Hd. eexists. split; [done|]. split; [|symmetry; by apply delete_id].
    unfold a_del. rewrite delete_id by done. rewrite with_map_id. rewrite delete_id by done. by destruct s.
Qed.

Lemma sync_ok dup X L A s key k u :
  Rep dup X L A s → Ref key k true u ∈ X → small X →
  ∃ s', dbSyncDelete key s = Some (bool_decide (is_Some (amap A !! k)), s') ∧ Rep dup X L (a_del k A) s' ∧
    dict s' = delete k (dict s).
Proof.
  intros HR Hk Hn. unfold dbSyncDelete, bind. rewrite (text_ok _ _ _ _ _ _ _ _ HR Hk). cbn [mbind option_bind modify].
  by apply dict_delete_ok.
Qed.

Lemma async_ok dup X L A s key k u :
  Rep dup X L A s → Ref key k true u ∈ X → small X →
  ∃ s', dbAsyncDelete key s = Some (bool_decide (is_Some (amap A !! k)), s') ∧ Rep dup X L (a_del k A) s' ∧
    dict s' = delete k (dict s).
Proof. apply sync_ok. Qed.

Lemma lazy_ok (lazy : bool) dup X L A s key k u :
  Rep dup X L A s → Ref key k true u ∈ X → small X →
  ∃ s', (if lazy then dbAsyncDelete key else dbSyncDelete key) s = Some (bool_decide (is_Some (amap A !! k)), s') ∧
    Rep dup X L (a_del k A) s' ∧ dict s' = delete k (dict s).
Proof. destruct lazy; apply sync_ok. Qed.

(** ** Expirations *)
Definition deadline (A : astate) (k : bytes) : Z := match amap A !! k with Some (_, Some w) => w | _ => -1 end.

Lemma keys_agree dup X L A s k :
  Rep dup X L A s → expires s !! k = (amap A !! k ≫= snd) ∧ (is_Some (dict s !! k) ↔ is_Some (amap A !! k)).
Proof.
  intros HR. pose proof (h_keys _ _ _ _ _ _ _ (R_h _ _ _ _ _ HR) k) as Hk. unfold keyrep in Hk.
  destruct (amap A !! k) as [[v dl]|]; cbn [mbind option_bind snd]; [|destruct Hk as [-> ->]; split; [done|split; by intros []]].
  destruct Hk as (-> & _ & Hv). split; [done|]. split; [by eauto|]. intros _. destruct v; naive_solver.
Qed.

Lemma getExpire_ok dup X L A s key k u :
  Rep dup X L A s → Ref key k true u ∈ X → getExpire key s = Some (deadline A k, s).
Proof.
  intros HR Hk. destruct (keys_agree _ _ _ _ _ k HR) as [He Hd]. unfold getExpire, bind. rewrite (text_ok _ _ _ _ _ _ _ _ HR Hk).
  cbn [mbind option_bind get]. rewrite He. unfold deadline. destruct (amap A !! k) as [[v [w|]]|]; cbn [mbind option_bind snd]; try done.
  rewrite bool_decide_eq_true_2; [done|]. apply Hd. eauto.
Qed.

Lemma propagate_ok dup X L A s key k lazy :
  Rep dup X L A s → holds X key k → small X →
  ∃ s', propagateExpire shared_del shared_unlink key lazy s = Some (tt, s') ∧
    Rep dup X L (a_event (PropagateExpire lazy k) A) s' ∧ dict s' = dict s.
Proof.
  intros HR Hk Hn. unfold propagateExpire. set (cmd := if lazy then shared_unlink else shared_del).
  assert (∃ t, Ref cmd t true false ∈ perms) as (t & Hcmd).
  { unfold cmd, perms. destruct lazy; eexists; [right|]; left. }
  pose proof (R_h _ _ _ _ _ HR) as Hh.
  assert (txt (objs s) cmd t) as Htc.
  { apply (good_txt (objs s) (Ref cmd t true false)). eapply (proj1 (Forall_forall _ _)); [apply Hh|]. apply elem_of_app. by left. }
  destruct (incr_rep dup X L A s cmd t false HR Htc) as (s1 & E1 & HR1 & Hd1 & _); [|by apply small_slack|done|].
  { right. eexists. split; [apply elem_of_app; left; exact Hcmd|done]. }
  assert (holds (Ref cmd t false false :: X) key k) as Hk1 by (by right).
  destruct (incr_rep dup _ L A s1 key k false HR1) as (s2 & E2 & HR2 & Hd2 & _);
    [apply (good_txt _ (Ref key k true false)); by eapply Rep_in|by eapply holds_quiet|rewrite zlen_cons; pose proof (small_slack X Hn); unfold small in Hn; lia|done|].
  assert (holds (Ref key k false false :: Ref cmd t false false :: X) key k) as Hk2 by (by right).
  unfold bind. rewrite E1. cbn [mbind option_bind]. rewrite E2. cbn [mbind option_bind].
  rewrite (text_ok _ _ _ _ _ _ _ _ HR2 Hk2). cbn [mbind option_bind modify].
  pose proof (Rep_event _ _ _ _ _ (PropagateExpire lazy k) HR2) as HR3.
  destruct (decr_perm dup (Ref cmd t false false) (Ref key k false false :: X) _ L _ _ HR3 ltac:(apply Permutation_swap)) as (s4 & E4 & HR4 & Hd4 & _).
  simpl in E4. rewrite E4. cbn [mbind option_bind].
  destruct (decr_rep dup _ _ L _ _ HR4) as (s5 & E5 & HR5 & Hd5 & _). simpl in E5. rewrite E5. exists s5.
  split; [done|]. split; [done|]. by rewrite Hd5, Hd4, <-Hd1, <-Hd2.
Qed.

Lemma expire_ok dup X L A s key k :
  Rep dup X L A s → holds X key k → small X →
  ∃ s', expireIfNeeded false false lazyfree_lazy_expire shared_del shared_unlink key s = Some (expired A k, s') ∧
    Rep dup X L (a_purge lazyfree_lazy_expire k A) s' ∧ ∀ k', k' ≠ k → dict s' !! k' = dict s !! k'.
Proof.
  intros HR Hk Hn. unfold expireIfNeeded, bind. rewrite (getExpire_ok _ _ _ _ _ _ _ _ HR Hk). cbn [mbind option_bind].
  unfold deadline, expired, a_purge, expired. destruct (amap A !! k) as [[v [w|]]|] eqn:Hm; try by exists s.
  pose proof (deadline_pos shared_integers _ _ _ _ _ _ _ _ _ w (R_h _ _ _ _ _ HR) Hm eq_refl) as Hw.
  rewrite (proj2 (Z.ltb_ge w 0)) by lia. unfold get. rewrite (R_clock _ _ _ _ _ HR). cbn [mbind option_bind].
  destruct (Z.leb_spec (aclock A) w); [rewrite (proj2 (Z.ltb_ge w _)) by done; by exists s|].
  rewrite (proj2 (Z.ltb_lt w _)) by done.
  destruct (propagate_ok dup X L A s key k lazyfree_lazy_expire HR Hk Hn) as (s1 & -> & HR1 & Hd1). cbn [mbind option_bind].
  rewrite (notify_ok _ _ _ _ _ NOTIFY_EXPIRED "expired" _ _ HR1 Hk). cbn [mbind option_bind].
  pose proof (Rep_event _ _ _ _ _ (NotifyKeyspaceEvent NOTIFY_EXPIRED "expired" k) HR1) as HR2.
  destruct (lazy_ok lazyfree_lazy_expire dup X L _ _ key k false HR2 Hk Hn) as (s3 & E3 & HR3 & Hd3). exists s3. split; [rewrite E3; simpl; by rewrite Hm|].
  split; [done|]. intros k' Hk'. rewrite Hd3, lookup_delete_ne by done. simpl. by rewrite Hd1.
Qed.

(** ** Lookup *)
Lemma lookup_ok dup X L A s key k u :
  Rep dup X L A s → Ref key k true u ∈ X → lookupKey key s = Some (dict s !! k, s).
Proof. intros HR Hk. unfold lookupKey, bind. by rewrite (text_ok _ _ _ _ _ _ _ _ HR Hk). Qed.

Lemma lookupW_ok dup X L A s key k :
  Rep dup X L A s → holds X key k → small X →
  ∃ s', lookupKeyWrite false false lazyfree_lazy_expire shared_del shared_unlink key s = Some (dict s' !! k, s') ∧
    Rep dup X L (a_purge lazyfree_lazy_expire k A) s' ∧ ∀ k', k' ≠ k → dict s' !! k' = dict s !! k'.
Proof.
  intros HR Hk Hn. unfold lookupKeyWrite, bind. destruct (expire_ok dup X L A s key k HR Hk Hn) as (s1 & -> & HR1 & Hd1).
  cbn [mbind option_bind]. exists s1. split; [|done]. by eapply lookup_ok.
Qed.

Lemma lookupR_ok dup X L A s key k :
  Rep dup X L A s → holds X key k → small X →
  ∃ s', lookupKeyRead false false readonly_client lazyfree_lazy_expire shared_del shared_unlink key s = Some (dict s' !! k, s') ∧
    Rep dup X L (a_purge lazyfree_lazy_expire k A) s'.
Proof.
  intros HR Hk Hn. unfold lookupKeyRead, bind. destruct (expire_ok dup X L A s key k HR Hk Hn) as (s1 & -> & HR1 & Hd1).
  cbn [mbind option_bind]. exists s1. split; [|done]. destruct (expired A k) eqn:E; cbn [andb orb negb].
  - unfold a_purge in HR1. rewrite E in HR1. unfold ret. f_equal. f_equal. symmetry.
    apply (key_none shared_integers _ _ _ _ _ _ _ (R_h _ _ _ _ _ HR1)). apply lookup_delete_eq.
  - by eapply lookup_ok.
Qed.

(** ** Setting values *)
Definition a_put k v (A : astate) := with_map (<[k := v]> (amap A)) A.

Lemma dbAdd_ok dup x X L A s key k u :
  Rep dup (x :: X) L A s → Ref key k true u ∈ X → amap A !! k = None → ru x = true →
  ∃ s', dbAdd key (VString (ra x)) s = Some (tt, s') ∧ Rep dup X L (a_put k (AStr (rt x), None) A) s' ∧
    dict s' !! k = Some (VString (ra x)) ∧ objs s' = objs s.
Proof.
  intros HR Hk Hm Hu. unfold dbAdd, bind. rewrite (text_ok _ _ _ _ _ key k u HR) by (by right). cbn [mbind option_bind get].
  destruct (key_none shared_integers _ _ _ _ _ _ _ (R_h _ _ _ _ _ HR) Hm) as [Hd He]. rewrite bool_decide_eq_true_2 by done.
  cbn. eexists. split; [done|]. split; [|split; [apply lookup_insert_eq|done]].
  apply (Rep_change dup dup _ _ L A s _ _ HR); [done|]. eapply dict_put_sole; [|done|done].
  eapply hrep_perm; [apply (R_h _ _ _ _ _ HR)|apply perms_cons].
Qed.

(** The key keeps its deadline, the old value loses its reference. *)
Lemma overwrite_ok dup x X L A s key k u v dl :
  Rep dup (x :: X) L A s → Ref key k true u ∈ X → amap A !! k = Some (v, dl) → ru x = true → small X →
  ∃ s', dbOverwrite key (VString (ra x)) s = Some (tt, s') ∧ Rep dup X L (a_put k (AStr (rt x), dl) A) s' ∧
    dict s' !! k = Some (VString (ra x)) ∧
    (∀ r, objs s !! ra x = Some r → refcount r = 1 → objs s' !! ra x = Some r).
Proof.
  intros HR Hk Hm Hu Hn. unfold dbOverwrite, bind. rewrite (text_ok _ _ _ _ _ key k u HR) by (by right). cbn [mbind option_bind get].
  pose proof (R_h _ _ _ _ _ HR) as Hh0. pose proof (hrep_perm _ _ _ _ _ _ _ _ Hh0 (perms_cons x X)) as Hh.
  pose proof (small_perms X Hn) as Hsp. pose proof (λ w, deadline_pos shared_integers _ _ _ _ _ _ _ _ _ w Hh Hm) as Hpos.
  destruct v as [t|ty].
  - destruct (key_string shared_integers _ _ _ _ _ _ _ _ _ Hh Hm) as (o & Ho & Ht & He). unfold lift. rewrite Ho. simpl.
    pose proof (dict_take shared_integers dup dup _ _ _ _ _ k o t dl Hh Hm Ho ltac:(rewrite zlen_cons; lia) ltac:(by left)) as H1.
    apply (hrep_perm _ _ _ _ _ _ (x :: Ref o t false false :: perms ++ X)) in H1; [|apply Permutation_swap].
    assert (good (objs s) x) as (r & Hr & _ & _ & _ & _ & Hru).
    { eapply Rep_in; [exact HR|]. left. }
    assert (refcount r = 1 → ra x ≠ o) as Hxo.
    { intros Hr1 <-. destruct (sole shared_integers _ _ _ _ _ _ _ _ Hh Hr Hr1) as [Hz _]. pose proof (refs_pos _ _ _ Ho). lia. }
    pose proof (dict_put_sole shared_integers dup _ _ _ x _ _ k H1 ltac:(apply lookup_delete_eq) Hu) as H2.
    rewrite !insert_delete_eq in H2.
    apply (expires_back shared_integers dup _ _ _ _ _ k _ dl (AStr t)) in H2; [|done|done|done].
    set (s1 := set_dict _ _). assert (Rep dup (Ref o t false false :: X) L (a_put k (AStr (rt x), dl) A) s1) as HR1.
    { apply (Rep_change dup dup _ _ L A s _ _ HR); [done|]. eapply hrep_perm; [exact H2|]. symmetry. apply perms_cons. }
    destruct (decr_rep dup _ X L _ s1 HR1) as (s2 & E2 & HR2 & Hd2 & _ & Hk2). simpl in E2, Hk2. rewrite E2. exists s2.
    split; [done|]. split; [done|]. rewrite Hd2. split; [apply lookup_insert_eq|]. intros r' Hr' Hr1. rewrite Hk2; [done|]. simplify_eq. auto.
  - destruct (key_other shared_integers _ _ _ _ _ _ _ _ _ Hh Hm) as (Ho & He). unfold lift. rewrite Ho. simpl.
    pose proof (dict_take_other shared_integers dup _ _ _ _ _ k ty Hh Ho) as H1.
    pose proof (dict_put_sole shared_integers dup _ _ _ x _ _ k H1 ltac:(apply lookup_delete_eq) Hu) as H2.
    rewrite !insert_delete_eq in H2. apply (expires_back shared_integers dup _ _ _ _ _ k _ dl (AOther ty)) in H2; [|done|done|done].
    eexists. split; [done|]. split; [by apply (Rep_change dup dup _ _ L A s _ _ HR)|]. split; [apply lookup_insert_eq|done].
Qed.

Lemma removeExpire_ok dup X L A s key k u v dl :
  Rep dup X L A s → Ref key k true u ∈ X → amap A !! k = Some (v, dl) →
  ∃ s', removeExpire key s = Some (bool_decide (is_Some dl), s') ∧ Rep dup X L (a_put k (v, None) A) s' ∧
    dict s' = dict s ∧ objs s' = objs s.
Proof.
  intros HR Hk Hm. destruct (keys_agree _ _ _ _ _ k HR) as [He Hd]. unfold removeExpire, bind.
  rewrite (text_ok _ _ _ _ _ _ _ _ HR Hk). cbn [mbind option_bind get]. assert (is_Some (dict s !! k)) as Hsome by (apply Hd; rewrite Hm; eauto).
  rewrite (bool_decide_eq_true_2 _ Hsome). cbn.
  rewrite He, Hm. cbn. eexists. split; [done|]. split; [|done]. apply (Rep_change dup dup _ _ L A s _ _ HR); [done|].
  eapply expires_drop; [apply HR|done].
Qed.

Lemma setExpire_ok dup X L A s key k u v dl w :
  Rep dup X L A s → Ref key k true u ∈ X → amap A !! k = Some (v, dl) → 0 ≤ w < 2 ^ 63 →
  ∃ s', setExpire key w s = Some (tt, s') ∧ Rep dup X L (a_put k (v, Some w) A) s' ∧ dict s' = dict s ∧ objs s' = objs s.
Proof.
  intros HR Hk Hm Hw. destruct (keys_agree _ _ _ _ _ k HR) as [He Hd]. unfold setExpire, bind.
  rewrite (text_ok _ _ _ _ _ _ _ _ HR Hk). cbn [mbind option_bind get]. assert (is_Some (dict s !! k)) as Hsome by (apply Hd; rewrite Hm; eauto).
  rewrite (bool_decide_eq_true_2 _ Hsome). cbn.
  eexists. split; [done|]. split; [|done]. apply (Rep_change dup dup _ _ L A s _ _ HR); [done|].
  eapply expires_put; [apply HR|done|done].
Qed.

(** The abstract [setKey]. *)
Definition a_set k t (A : astate) : astate :=
  a_event (SignalModifiedKey k) (a_put k (AStr t, None) (a_purge lazyfree_lazy_expire k A)).

Lemma purge_live lazy k A : amap (a_purge lazy k A) !! k = if expired A k then None else amap A !! k.
Proof. unfold a_purge. destruct (expired A k); [apply lookup_delete_eq|done]. Qed.

Lemma a_put_put k v v' A : a_put k v (a_put k v' A) = a_put k v A.
Proof. unfold a_put. simpl. by rewrite insert_insert_eq. Qed.

Lemma key_holds dup X L A s k t dl : Rep dup X L A s → amap A !! k = Some (AStr t, dl) →
  ∃ o, dict s !! k = Some (VString o) ∧ txt (objs s) o t ∧ 0 < refs (dict s) o.
Proof.
  intros HR Hm. destruct (key_string shared_integers _ _ _ _ _ _ _ _ _ (R_h _ _ _ _ _ HR) Hm) as (o & Ho & Ht & _).
  exists o. split_and!; [done|done|]. pose proof (refs_pos _ _ _ Ho). lia.
Qed.

Lemma setKey_ok dup x X L A s key k :
  Rep dup (x :: X) L A s → holds X key k → ru x = true → small (x :: X) →
  ∃ s', setKey false false lazyfree_lazy_expire shared_del shared_unlink key (ra x) s = Some (tt, s') ∧
    Rep dup (Ref (ra x) (rt x) false false :: X) L (a_set k (rt x) A) s'.
Proof.
  intros HR Hk Hu Hn. assert (small X) as HnX by (unfold small in *; zl).
  unfold setKey, bind. destruct (lookupW_ok dup _ L A s key k HR ltac:(by right) Hn) as (s1 & -> & HR1 & _). cbn [mbind option_bind].
  assert (∃ s2 dl, (match dict s1 !! k with None => dbAdd key (VString (ra x)) | Some _ => dbOverwrite key (VString (ra x)) end) s1 = Some (tt, s2) ∧
    Rep dup X L (a_put k (AStr (rt x), dl) (a_purge lazyfree_lazy_expire k A)) s2 ∧ dict s2 !! k = Some (VString (ra x)))
    as (s2 & dl & E2 & HR2 & Hd2).
  { destruct (keys_agree _ _ _ _ _ k HR1) as [_ Hag]. destruct (dict s1 !! k) as [v|] eqn:Hd.
    - destruct (proj1 Hag ltac:(eauto)) as [[v' dl] Hm].
      destruct (overwrite_ok dup x X L _ s1 key k false v' dl HR1 Hk Hm Hu HnX) as (s2 & E2 & HR2 & Hd2 & _). by exists s2, dl.
    - assert (amap (a_purge lazyfree_lazy_expire k A) !! k = None) as Hm.
      { destruct (amap _ !! k) as [|] eqn:E; [|done]. destruct (proj2 Hag ltac:(eauto)) as [? Hx]. done. }
      destruct (dbAdd_ok dup x X L _ s1 key k false HR1 Hk Hm Hu) as (s2 & E2 & HR2 & Hd2 & _). by exists s2, None. }
  rewrite E2. cbn [mbind option_bind].
  destruct (key_holds dup X L _ s2 k (rt x) dl HR2 ltac:(apply lookup_insert_eq)) as (o & Ho & Ht & Hrf). simplify_eq.
  destruct (incr_rep dup X L _ s2 (ra x) (rt x) false HR2 Ht ltac:(by left) ltac:(by apply small_slack) ltac:(done)) as (s3 & -> & HR3 & _). cbn [mbind option_bind].
  destruct (removeExpire_ok dup _ L _ s3 key k false (AStr (rt x)) dl HR3 ltac:(by right) ltac:(apply lookup_insert_eq)) as (s4 & -> & HR4 & _).
  cbn [mbind option_bind]. rewrite a_put_put in HR4. rewrite (signal_ok _ _ _ _ _ key k HR4 ltac:(by right)). eexists. split; [done|]. by apply Rep_event.
Qed.

(** ** New and changed objects *)
Lemma new_rep dup X L A s o r t :
  Rep dup X L A s → objs s !! o = None → obj_text r t → wf_bytes t → zlen t ≤ MAXLEN → refcount r = 1 → zlen X < 2 ^ 30 - 4 →
  Rep dup (Ref o t (sdsEncodedObject r) true :: X) L A (set_objs (<[o := r]> (objs s)) s).
Proof.
  intros HR Ho Ht Hw Hl Hr Hn. apply (Rep_heap dup X); [done|]. eapply hrep_perm; [|symmetry; apply perms_cons].
  apply new_ok; try done; [apply HR|]. rewrite zlen_app. change (zlen perms) with 2. lia.
Qed.

Lemma sds_object_ok dup X L A s sd t :
  Rep dup X L A s → sds_rep sd t → wf_bytes t → zlen t ≤ MAXLEN → zlen X < 2 ^ 30 - 4 →
  ∃ s' o, heap_op (λ h, Some (createObject h (PSds sd))) s = Some (o, s') ∧ Rep dup (Ref o t true true :: X) L A s' ∧
    dict s' = dict s ∧ objs s' !! o = Some (Robj OBJ_ENCODING_RAW 1 (PSds sd)).
Proof.
  intros HR Hsd Hw Hl Hn. unfold heap_op, createObject. cbn. eexists _, _. split; [done|].
  split; [|split; [done|apply lookup_insert_eq]]. by apply (new_rep dup X L A s _ (Robj OBJ_ENCODING_RAW 1 (PSds sd)) t); [|apply fresh_addr|..].
Qed.

Lemma raw_ok dup X L A s p t :
  Rep dup X L A s → load p 0 (zlen t) = Some t → wf_bytes t → zlen t ≤ MAXLEN → zlen X < 2 ^ 30 - 4 →
  ∃ s' o r, heap_op (λ h, createRawStringObject h (Some p) (zlen t)) s = Some (o, s') ∧ Rep dup (Ref o t true true :: X) L A s' ∧
    dict s' = dict s ∧ objs s' !! o = Some r ∧ refcount r = 1 ∧ encoding r = OBJ_ENCODING_RAW.
Proof.
  intros HR Hp Hw Hl Hn. destruct (newlen_ok (Some p) (zlen t) t) as (sd & Hsd & Hrep); [unfold MAXLEN in Hl; zlen_pos; lia|done|done|].
  destruct (sds_object_ok dup X L A s sd t HR Hrep Hw Hl Hn) as (s' & o & E & HR' & Hd & Ho). exists s', o, (Robj OBJ_ENCODING_RAW 1 (PSds sd)).
  split; [|done]. unfold heap_op, createRawStringObject in *. by rewrite Hsd.
Qed.

Lemma decode_ok dup X L A s o t :
  Rep dup X L A s → txt (objs s) o t → 0 < refs (dict s) o → zlen X < 2 ^ 30 - 4 →
  ∃ s' o' u, heap_op (λ h, getDecodedObject h o) s = Some (o', s') ∧ Rep dup (Ref o' t true u :: X) L A s' ∧ dict s' = dict s.
Proof.
  intros HR Ht Hrf Hn. pose proof Ht as (r & Hr & Htr & Hw & Hl). unfold heap_op, getDecodedObject. rewrite Hr. cbn [mbind option_bind].
  destruct (sdsEncodedObject r) eqn:E.
  - destruct (count_incr shared_integers dup _ _ _ _ _ o r true (R_h _ _ _ _ _ HR) Hr) with t as (h' & -> & Hh & _);
      [by left|done|rewrite zlen_app; change (zlen perms) with 2; lia|done|]. cbn [mbind option_bind]. exists (set_objs h' s), o, false.
    split; [done|]. split; [|done]. apply (Rep_heap dup X); [done|]. eapply hrep_perm; [exact Hh|]. symmetry. apply perms_cons.
  - destruct (obj_long r t Htr E) as (n & _ & -> & Hin & ->). cbn [mbind option_bind].
    destruct (number_text 32 n Hin ltac:(lia)) as (rest & ->). cbn [mbind option_bind].
    rewrite strlen_chars by apply print_chars. cbn [mbind option_bind].
    destruct (string_object_ok (objs s) (Util.print n ++ 0 :: rest) (Util.print n)) as (h' & o' & r' & -> & Hr' & Ht' & He' & Hc' & Hf' & Hk);
      [apply load_prefix|unfold MAXLEN in Hl; lia|]. cbn [mbind option_bind]. exists (set_objs h' s), o', true. split; [done|]. split; [|done].
    pose proof (new_rep dup X L A s o' r' _ HR Hf' Ht' Hw Hl Hc' Hn) as HN. by rewrite He', <-Hk in HN.
Qed.

Lemma update_ok dup X L A s k t dl o r r' t' :
  Rep dup X L A s → amap A !! k = Some (AStr t, dl) → dict s !! k = Some (VString o) → objs s !! o = Some r →
  refcount r = 1 → refcount r' = 1 → obj_text r' t' → wf_bytes t' → zlen t' ≤ MAXLEN → small X →
  Rep dup X L (a_put k (AStr t', dl) A) (set_objs (<[o := r']> (objs s)) s).
Proof.
  intros HR Hm Hd Hr H1 H1' Ht' Hw' Hl' Hn. pose proof (R_h _ _ _ _ _ HR) as Hh. pose proof (small_perms X Hn) as Hsp.
  pose proof (λ w, deadline_pos shared_integers _ _ _ _ _ _ _ _ _ w Hh Hm) as Hpos.
  destruct (key_string shared_integers _ _ _ _ _ _ _ _ _ Hh Hm) as (o1 & Ho1 & _ & He). simplify_eq.
  pose proof (dict_take shared_integers dup dup _ _ _ _ _ k o t _ Hh Hm Hd ltac:(lia) ltac:(by left)) as Ht.
  destruct (sole shared_integers _ _ _ _ _ _ _ _ Ht Hr H1) as [Hz Hz']. cbn [ra] in Hz, Hz'.
  assert (hrep shared_integers dup (delete k (amap A)) (delete k (dict s)) (delete k (expires s))
    (Ref o t' (sdsEncodedObject r') true :: perms ++ X) (<[o := r']> (objs s))) as Hu.
  { apply (hrep_at shared_integers dup _ _ _ _ _ _ _ o Ht).
    - intros a Ha. by apply lookup_insert_ne.
    - intros a Ha. by rewrite !cnt_cons.
    - intros r1 Hr1. simplify_eq. by rewrite H1.
    - rewrite lookup_insert_eq. rewrite cnt_cons, decide_True by done. split; [split_and!; [lia|lia|destruct (decide _); lia]|lia].
    - rewrite zlen_cons. lia.
    - constructor; [exists r'; simpl; rewrite lookup_insert_eq; split_and!; try done; by left|]. apply Forall_forall. intros y Hy.
      pose proof (proj1 (Forall_forall _ _) (h_refs _ _ _ _ _ _ _ Hh) y Hy) as Hg. apply (good_other (objs s)); [|done].
      apply lookup_insert_ne. intros Heq. by apply (not_in (perms ++ X) y o). }
  pose proof (dict_put_sole shared_integers dup _ _ _ _ _ _ k Hu ltac:(apply lookup_delete_eq) ltac:(done)) as Hp.
  rewrite !insert_delete_eq in Hp. cbn [ra rt] in Hp. rewrite (insert_id _ _ _ Hd) in Hp.
  apply (expires_back shared_integers dup _ _ _ _ _ k _ (expires s !! k) (AStr t)) in Hp; [|done|done|done].
  by apply (Rep_change dup dup _ _ L A s _ _ HR).
Qed.

Lemma unshare_ok dup X L A s key k u t dl o :
  Rep dup X L A s → Ref key k true u ∈ X → amap A !! k = Some (AStr t, dl) → dict s !! k = Some (VString o) → small X →
  ∃ s' o' r sd, dbUnshareStringValue key o s = Some (o', s') ∧ Rep dup X L A s' ∧ dict s' !! k = Some (VString o') ∧
    objs s' !! o' = Some r ∧ refcount r = 1 ∧ encoding r = OBJ_ENCODING_RAW ∧ as_sds r = Some sd ∧ sds_rep sd t.
Proof.
  intros HR Hk Hm Hd Hn. destruct (key_holds dup X L A s k t dl HR Hm) as (o0 & Ho0 & Ht & Hrf). simplify_eq.
  pose proof Ht as (r & Hr & Htr & Hw & Hl). pose proof (small_slack X Hn) as Hsl.
  assert (∀ s o r, objs s !! o = Some r → refcount r = 1 → encoding r = OBJ_ENCODING_RAW → txt (objs s) o t →
    ∃ sd, as_sds r = Some sd ∧ sds_rep sd t) as Hraw.
  { intros s1 o1 r1 Hr1 _ He1 (r2 & Hr2 & Ht2 & _). simplify_eq. destruct (obj_sds r1 t Ht2) as (sd & ? & ? & _);
      [unfold sdsEncodedObject; by rewrite He1|]. eauto. }
  unfold dbUnshareStringValue, bind, get, lift. cbn [mbind option_bind]. rewrite Hr. cbn [mbind option_bind].
  destruct (bool_decide (refcount r = 1) && bool_decide (encoding r = OBJ_ENCODING_RAW)) eqn:E.
  { apply andb_true_iff in E as [E1%bool_decide_eq_true E2%bool_decide_eq_true].
    destruct (Hraw s o r Hr E1 E2 Ht) as (sd & Hsd & Hrep). exists s, o, r, sd. by split_and!. }
  destruct (decode_ok dup X L A s o t HR Ht Hrf Hsl) as (s1 & o1 & u1 & E1 & HR1 & Hd1). rewrite E1. cbn [mbind option_bind].
  pose proof (Rep_in _ _ _ _ _ (Ref o1 t true u1) HR1 ltac:(left)) as (r1 & Hr1 & Ht1 & _ & _ & Hs1 & _). simpl in *.
  destruct (obj_sds r1 t Ht1 (Hs1 eq_refl)) as (sd & Hsd & _ & Hlen & _ & Hload). rewrite Hr1. cbn [mbind option_bind]. rewrite Hsd.
  cbn [mbind option_bind]. rewrite Hlen. cbn [mbind option_bind].
  destruct (raw_ok dup _ L A s1 (Sds.from_ptr sd) t HR1 Hload Hw Hl) as (s2 & o2 & r2 & E2 & HR2 & Hd2 & Hr2 & Hc2 & He2).
  { unfold small in Hn. rewrite zlen_cons. change (2 ^ 29) with 536870912 in Hn. change (2 ^ 30) with 1073741824. lia. }
  rewrite E2. cbn [mbind option_bind].
  destruct (decr_perm dup (Ref o1 t true u1) (Ref o2 t true true :: X) _ L A s2 HR2 ltac:(apply Permutation_swap)) as (s3 & E3 & HR3 & Hd3 & _ & Hk3).
  simpl in E3, Hk3. rewrite E3. cbn [mbind option_bind].
  assert (o2 ≠ o1) as Hne.
  { intros ->. pose proof (R_h _ _ _ _ _ HR2) as Hh2. apply (hrep_perm _ _ _ _ _ _ (Ref o1 t true true :: perms ++ Ref o1 t true u1 :: X)) in Hh2;
      [|apply perms_cons]. destruct (sole shared_integers _ _ _ _ _ _ _ _ Hh2 Hr2 Hc2) as [_ Hz]. cbn [ra] in Hz.
    rewrite cnt_app, cnt_cons, decide_True in Hz by done. pose proof (cnt_nonneg perms o1). pose proof (cnt_nonneg X o1). lia. }
  destruct (overwrite_ok dup (Ref o2 t true true) X L A s3 key k u (AStr t) dl HR3 Hk Hm eq_refl Hn) as (s4 & E4 & HR4 & Hd4 & Hr4).
  simpl in E4, HR4, Hd4, Hr4. rewrite E4. cbn [mbind option_bind]. assert (a_put k (AStr t, dl) A = A) as Heq.
  { unfold a_put. rewrite insert_id by done. apply with_map_id. }
  rewrite Heq in HR4. assert (objs s4 !! o2 = Some r2) as Hr5 by (apply Hr4; [rewrite Hk3; [done|congruence]|done]).
  destruct (key_holds dup X L A s4 k t dl HR4 Hm) as (o5 & Ho5 & Ht5 & _). simplify_eq.
  destruct (Hraw s4 o2 r2 Hr5 Hc2 He2 Ht5) as (sd5 & Hsd5 & Hrep5). exists s4, o2, r2, sd5. by split_and!.
Qed.

(** ** Replies with objects, numbers from objects *)
Lemma addReply_ok s o t : txt (objs s) o t → addReply o s = Some (tt, add_reply (ReplyObj t) s).
Proof.
  intros (r & Hr & Ht & Hw & Hl). unfold addReply, bind, get, lift. cbn [mbind option_bind]. rewrite Hr. cbn [mbind option_bind].
  destruct (sdsEncodedObject r) eqn:E.
  - rewrite (good_ptr s o t false); [done|]. exists r. by split_and!.
  - destruct (obj_long r t Ht E) as (n & _ & -> & Hn & ->). cbn [mbind option_bind].
    destruct (number_text 32 n Hn ltac:(lia)) as (rest & ->). cbn [mbind option_bind fst snd]. rewrite load_prefix. done.
Qed.

Definition bulk t s : state := add_reply ReplyCrlf (add_reply (ReplyObj t) (add_reply (ReplyBulkLen (zlen t)) s)).
Definition a_bulk t A : astate := a_reply ReplyCrlf (a_reply (ReplyObj t) (a_reply (ReplyBulkLen (zlen t)) A)).

Lemma addReplyBulk_ok s o t : txt (objs s) o t → addReplyBulk o s = Some (tt, bulk t s).
Proof.
  intros Ht. assert (addReplyBulkLen o s = Some (tt, add_reply (ReplyBulkLen (zlen t)) s)) as Hlen.
  { destruct Ht as (r & Hr & Ht & Hw & Hl). unfold addReplyBulkLen, bind, get, lift. cbn [mbind option_bind]. rewrite Hr. cbn [mbind option_bind].
    destruct (sdsEncodedObject r) eqn:E.
    - destruct (obj_sds r t Ht E) as (sd & -> & _ & Hlen & _). cbn [mbind option_bind]. by rewrite Hlen.
    - destruct (obj_long r t Ht E) as (n & _ & -> & Hn & ->). cbn [mbind option_bind]. by rewrite bulk_number. }
  unfold addReplyBulk, bind. rewrite Hlen. cbn [mbind option_bind]. by rewrite (addReply_ok (add_reply _ s) o t).
Qed.

Lemma Rep_bulk dup X L A s t : Rep dup X L A s → Rep dup X L (a_bulk t A) (bulk t s).
Proof. intros HR. by do 3 apply Rep_reply. Qed.

Definition not_integer : string := "value is not an integer or out of range".

Lemma getLL_ok s o t msg :
  txt (objs s) o t →
  getLongLongFromObjectOrReply (Some o) msg s =
  match Util.string2ll t with
  | Some n => Some (Some n, s)
  | None => Some (None, add_reply (ReplyError (default not_integer msg)) s)
  end.
Proof.
  intros (r & Hr & Ht & Hw & Hl). unfold getLongLongFromObjectOrReply, bind, get, lift, getLongLongFromObject.
  cbn [mbind option_bind]. rewrite Hr. cbn [mbind option_bind]. destruct (sdsEncodedObject r) eqn:E.
  - destruct (obj_sds r t Ht E) as (sd & -> & _ & Hlen & Hp & _). unfold sds_contents. cbn [mbind option_bind]. rewrite Hlen.
    cbn [mbind option_bind]. rewrite Hp. cbn [mbind option_bind]. by destruct (Util.string2ll t), msg.
  - destruct (obj_long r t Ht E) as (n & _ & -> & Hn & ->). cbn [mbind option_bind]. by rewrite Util.string2ll_complete.
Qed.

Lemma strlen_ok s o t : txt (objs s) o t → stringObjectLen (objs s) o = Some (zlen t).
Proof.
  intros (r & Hr & Ht & Hw & Hl). unfold stringObjectLen. rewrite Hr. cbn [mbind option_bind]. destruct (sdsEncodedObject r) eqn:E.
  - destruct (obj_sds r t Ht E) as (sd & -> & _ & Hlen & _). cbn [mbind option_bind]. by rewrite Hlen.
  - destruct (obj_long r t Ht E) as (n & _ & -> & Hn & ->). cbn [mbind option_bind]. by apply sdigits10_ok.
Qed.

Lemma Rep_txt dup X L A s o t b u : Rep dup X L A s → Ref o t b u ∈ X → txt (objs s) o t.
Proof. intros HR Ho. by apply (good_txt _ (Ref o t b u)), (Rep_in dup X L A). Qed.

(** ** The value of a key *)

(** A string, or a value of another type, as the abstract state has it. *)
Lemma value_cases dup X L A s k :
  Rep dup X L A s →
  match amap A !! k with
  | None => dict s !! k = None
  | Some (AStr t, _) => ∃ o, dict s !! k = Some (VString o) ∧ txt (objs s) o t ∧ 0 < refs (dict s) o
  | Some (AOther ty, _) => dict s !! k = Some (VOther ty)
  end.
Proof.
  intros HR. destruct (amap A !! k) as [[[t|ty] dl]|] eqn:Hm.
  - by eapply key_holds.
  - by apply (key_other shared_integers _ _ _ _ _ _ _ _ _ (R_h _ _ _ _ _ HR)) in Hm as [? _].
  - by apply (key_none shared_integers _ _ _ _ _ _ _ (R_h _ _ _ _ _ HR)) in Hm as [? _].
Qed.
End Ops.

(** The state and the references are those of the first hypothesis. *)
#[global] Arguments expire_ok {shared_integers} lazyfree_lazy_expire {shared_del shared_unlink dup X L A s key k} _ _ _.
#[global] Arguments lookupW_ok {shared_integers} lazyfree_lazy_expire {shared_del shared_unlink dup X L A s key k} _ _ _.
#[global] Arguments lookupR_ok {shared_integers} readonly_client lazyfree_lazy_expire {shared_del shared_unlink dup X L A s key k} _ _ _.
#[global] Arguments lazy_ok {shared_integers shared_del shared_unlink} lazy {dup X L A s key k u} _ _ _.
#[global] Arguments text_ok {shared_integers shared_del shared_unlink dup X L A s o t u} _ _.
#[global] Arguments signal_ok {shared_integers shared_del shared_unlink dup X L A s key k} _ _.
#[global] Arguments notify_ok {shared_integers shared_del shared_unlink dup X L A s} c name {key k} _ _.
#[global] Arguments keys_agree {shared_integers shared_del shared_unlink dup X L A s} k _.
#[global] Arguments value_cases {shared_integers shared_del shared_unlink dup X L A s} k _.
#[global] Arguments key_holds {shared_integers shared_del shared_unlink dup X L A s k t dl} _ _.
#[global] Arguments setKey_ok {shared_integers} lazyfree_lazy_expire {shared_del shared_unlink dup x X L A s key k} _ _ _ _.
#[global] Arguments dbAdd_ok {shared_integers shared_del shared_unlink dup x X L A s key k u} _ _ _ _.
#[global] Arguments overwrite_ok {shared_integers shared_del shared_unlink dup x X L A s key k u v dl} _ _ _ _ _.
#[global] Arguments getExpire_ok {shared_integers shared_del shared_unlink dup X L A s key k u} _ _.
#[global] Arguments setExpire_ok {shared_integers shared_del shared_unlink dup X L A s key k u v dl} w _ _ _ _.
#[global] Arguments removeExpire_ok {shared_integers shared_del shared_unlink dup X L A s key k u v dl} _ _ _.
#[global] Arguments unshare_ok {H shared_integers shared_del shared_unlink dup X L A s key k u t dl o} _ _ _ _ _.
#[global] Arguments Rep_event {shared_integers shared_del shared_unlink dup X L A s} e _.
#[global] Arguments Rep_reply {shared_integers shared_del shared_unlink dup X L A s} r _.
#[global] Arguments Rep_dirty {shared_integers shared_del shared_unlink dup X L A s} n _.
#[global] Arguments Rep_bulk {shared_integers shared_del shared_unlink dup X L A s} t _.
#[global] Arguments Rep_txt {shared_integers shared_del shared_unlink dup X L A s o t b u} _ _.
#[global] Arguments R_argv {shared_integers shared_del shared_unlink dup X L A s} _.
#[global] Arguments R_clock {shared_integers shared_del shared_unlink dup X L A s} _.
#[global] Arguments R_h {shared_integers shared_del shared_unlink dup X L A s} _.
#[global] Arguments decr_perm {shared_integers shared_del shared_unlink dup} x X {Y L A s} _ _.
#[global] Arguments sync_ok {shared_integers shared_del shared_unlink dup X L A s key k u} _ _ _.
