(* ===== verification/KeyCommands.v ===== *)
(** * The commands on keys and expirations

    What DEL, UNLINK, EXISTS, DBSIZE, TYPE, RENAME, EXPIRE, TTL, PERSIST and TOUCH with
    their variants do to a finite map, and that the commands of db.c and expire.c do
    it: replies, events and the count of changes included. *)

From Stdlib Require Import String.
From S2P Require Import Prelude.
From S2P Require Import Mem.
From S2P Require Import Util.
From S2P Require Import Sds.
From S2P Require Import SdsSpec.
From S2P Require Import SdsRefine.
From S2P Require Import Object.
From S2P Require Import ObjectSpec.
From S2P Require Import Keyspace.
From S2P Require Import KeyspaceSpec.
From S2P Require Import KeyspaceOps.
Import Object Keyspace.

#[local] Notation addr := positive.
#[local] Notation length := Datatypes.length.

(** [run E]: the next operation runs as the equation [E] says. *)
Ltac run E := apply (wpm_step _ _ _ _ _ _ E); cbv beta.
Ltac stop E := eexists _, _; split; [exact E|].
Ltac last_step := eexists _, _; split; [reflexivity|].

(** ** Arguments *)

(** A reference of which less is known. *)
Definition weaker (y x : ref) : Prop :=
  ra y = ra x ∧ rt y = rt x ∧ (rs y = true → rs x = true) ∧ (ru y = true → ru x = true).

(** A string that is known to be unshared no longer. *)
Definition weak (x : ref) : ref := Ref (ra x) (rt x) (rs x) false.

Lemma weak_weaker x : weaker (weak x) x.
Proof. by split_and!. Qed.

Lemma weaker_refl x : weaker x x.
Proof. by split_and!. Qed.

Lemma good_weaker h x y : weaker y x → good h x → good h y.
Proof. intros (Ha & Ht & Hs & Hu) (r & Hr & ? & ? & ? & ? & ?). exists r. rewrite Ha, Ht. split_and!; auto. Qed.

Lemma cnt_weaker Y X o : Forall2 weaker Y X → cnt Y o = cnt X o.
Proof.
  induction 1 as [|y x Y X Hyx _ IH]; [done|]. rewrite !cnt_cons, IH. by destruct Hyx as [-> _].
Qed.

(** An argument that is a string, and so far referred to by the command only. *)
Definition strong (x : ref) : Prop := rs x = true ∧ ru x = true.

Lemma holds_weak X x : x ∈ X → rs x = true → holds (weak <$> X) (ra x) (rt x).
Proof. intros Hx Hs. unfold holds. apply list_elem_of_fmap. exists x. split; [|done]. unfold weak. by rewrite Hs. Qed.

Lemma holds_args X : Forall strong X → Forall2 (holds (weak <$> X)) (ra <$> X) (rt <$> X).
Proof.
  intros HX. rewrite Forall2_fmap. apply Forall2_same_length_lookup_2; [done|]. intros i x y Hx Hy. simplify_eq.
  apply holds_weak; [by eapply list_elem_of_lookup_2|]. by apply (proj1 (Forall_lookup _ _) HX i).
Qed.

Section KeyCommands.
Context `{Alloc} (shared_integers : Z → addr).
Context (readonly_client lazyfree_lazy_expire lazyfree_lazy_server_del : bool).
Context (shared_del shared_unlink : addr).

#[local] Notation Rep := (Rep shared_integers shared_del shared_unlink).
#[local] Notation a_purge := (a_purge lazyfree_lazy_expire).

Implicit Types (X : list ref) (L : list addr) (A : astate) (s : state) (args : list bytes).

Lemma Rep_weaker dup X Y L A s : Rep dup X L A s → Forall2 weaker Y X → Rep dup Y L A s.
Proof.
  intros [[Hc Hl Hs Hn Hr Hk] ? ? ? ? ?] HYX. split; try done. split; try done.
  - intros o r Ho. rewrite cnt_app, (cnt_weaker Y X), <-cnt_app by done. by apply Hc.
  - intros o Ho. rewrite cnt_app, (cnt_weaker Y X), <-cnt_app in Ho by done. by apply Hl.
  - apply Forall2_length in HYX as Hlen. unfold zlen in *. rewrite length_app in *. lia.
  - apply Forall_app in Hr as [Hr1 Hr2]. apply Forall_app. split; [done|].
    clear -HYX Hr2. induction HYX; [done|]. apply Forall_cons in Hr2 as [? ?]. constructor; [by eapply good_weaker|auto].
Qed.

Lemma weak_all X : Forall2 weaker (weak <$> X) X.
Proof. induction X; simpl; constructor; [apply weak_weaker|done]. Qed.

Lemma Rep_weak dup X L A s : Rep dup X L A s → Rep dup (weak <$> X) L A s.
Proof. intros HR. eapply Rep_weaker; [exact HR|apply weak_all]. Qed.

(** Room for some more references. *)
Definition tiny X : Prop := zlen X < 2 ^ 28.

Lemma tiny_small X Y : tiny X → zlen Y ≤ 8 → small (Y ++ X).
Proof. unfold tiny, small. rewrite zlen_app. change (2 ^ 28) with 268435456. change (2 ^ 29) with 536870912. lia. Qed.

Lemma tiny_small0 X : tiny X → small X.
Proof. unfold tiny, small. change (2 ^ 28) with 268435456. change (2 ^ 29) with 536870912. lia. Qed.

Lemma tiny_weak X : tiny X → tiny (weak <$> X).
Proof. unfold tiny. by rewrite zlen_fmap. Qed.

(** The arguments as the command gets them, and as it leaves them. *)
Definition start X args A s : Prop :=
  Rep None X (ra <$> X) A s ∧ rt <$> X = args ∧ Forall strong X ∧ tiny X ∧ 500 ≤ aclock A < 2 ^ 63.

Definition finish A s : Prop := ∃ X L, Rep None X L A s ∧ (ra <$> X) ≡ₚ L ∧ small X.

(** A command that does what [f] does to the abstract state. *)
Definition does (m : M unit) (f : list bytes → astate → astate) args : Prop :=
  ∀ X A s, start X args A s → wpm m s (λ _ s', finish (f args A) s').

Lemma finish_weak X A s : Rep None (weak <$> X) (ra <$> X) A s → tiny X → finish A s.
Proof.
  intros HR Hn. exists (weak <$> X), (ra <$> X). split; [done|]. split; [by rewrite <-list_fmap_compose|].
  by apply tiny_small0, tiny_weak.
Qed.

Lemma start_weak X args A s : start X args A s →
  Rep None (weak <$> X) (ra <$> X) A s ∧ Forall2 (holds (weak <$> X)) (ra <$> X) args ∧ small (weak <$> X).
Proof.
  intros (HR & <- & Hs & Hn & _). split; [by apply Rep_weak|]. split; [by apply holds_args|]. by apply tiny_small0, tiny_weak.
Qed.

Lemma arg_ok X args A s i t :
  start X args A s → args !! i = Some t → ∃ o, arg i s = Some (o, s) ∧ holds (weak <$> X) o t.
Proof.
  intros Hst Ht. destruct (start_weak X args A s Hst) as (HR & HF & _). destruct (Forall2_lookup_r _ _ _ _ _ HF Ht) as (o & Ho & Hh).
  exists o. split; [|done]. unfold arg, bind, get, lift. cbn [mbind option_bind]. rewrite (R_argv HR). by rewrite Ho.
Qed.

Lemma args_from_ok X args A s i :
  start X args A s → ∃ keys, args_from i s = Some (keys, s) ∧ Forall2 (holds (weak <$> X)) keys (drop i args).
Proof.
  intros Hst. destruct (start_weak X args A s Hst) as (HR & HF & _). exists (drop i (ra <$> X)). split.
  - unfold args_from, bind, get, ret. cbn [mbind option_bind]. by rewrite (R_argv HR).
  - by apply Forall2_drop.
Qed.

(** ** One key after the other *)
Fixpoint a_total (g : bytes → astate → astate * Z) (ks : list bytes) A : astate * Z :=
  match ks with
  | [] => (A, 0)
  | k :: ks => let '(A, n) := g k A in let '(A, m) := a_total g ks A in (A, n + m)
  end.

Fixpoint a_each (g : bytes → astate → astate) (ks : list bytes) A : astate :=
  match ks with [] => A | k :: ks => a_each g ks (g k A) end.

Lemma total_ok (f : addr → M Z) g X L keys ks :
  (∀ A s key k, Rep None X L A s → holds X key k → ∃ s', f key s = Some ((g k A).2, s') ∧ Rep None X L (g k A).1 s') →
  Forall2 (holds X) keys ks → ∀ A s, Rep None X L A s →
  ∃ s', total f keys s = Some ((a_total g ks A).2, s') ∧ Rep None X L (a_total g ks A).1 s'.
Proof.
  intros Hf. induction 1 as [|key k keys ks Hk _ IH]; intros A s HR; [by exists s|].
  destruct (Hf A s key k HR Hk) as (s1 & E1 & HR1). simpl. destruct (g k A) as [A1 n1]. simpl in *.
  destruct (IH A1 s1 HR1) as (s2 & E2 & HR2). destruct (a_total g ks A1) as [A2 n2]. simpl in *.
  exists s2. split; [|done]. unfold bind. rewrite E1. cbn [mbind option_bind]. by rewrite E2.
Qed.

Lemma each_ok (f : addr → M unit) g X L keys ks :
  (∀ A s key k, Rep None X L A s → holds X key k → ∃ s', f key s = Some (tt, s') ∧ Rep None X L (g k A) s') →
  Forall2 (holds X) keys ks → ∀ A s, Rep None X L A s →
  ∃ s', each f keys s = Some (tt, s') ∧ Rep None X L (a_each g ks A) s'.
Proof.
  intros Hf. induction 1 as [|key k keys ks Hk _ IH]; intros A s HR; [by exists s|].
  destruct (Hf A s key k HR Hk) as (s1 & E1 & HR1). destruct (IH _ s1 HR1) as (s2 & E2 & HR2).
  exists s2. split; [|done]. simpl. unfold bind. by rewrite E1.
Qed.

Lemma a_del_none k A : amap A !! k = None → a_del k A = A.
Proof. intros Hk. unfold a_del. rewrite delete_id by done. by destruct A. Qed.

(** ** DEL, EXISTS, TOUCH, TYPE, DBSIZE *)
Definition has k A : bool := bool_decide (is_Some (amap A !! k)).

Definition s_del_one k A : astate * Z :=
  let A := a_purge k A in
  if has k A
  then (a_dirty 1 (a_event (NotifyKeyspaceEvent NOTIFY_GENERIC "del" k) (a_event (SignalModifiedKey k) (a_del k A))), 1)
  else (A, 0).

Definition s_del args A : astate := let '(A, n) := a_total s_del_one (drop 1 args) A in a_reply (ReplyInt n) A.

Lemma del_one_ok lazy X L A s key k :
  small X → Rep None X L A s → holds X key k →
  ∃ s', del_one false false lazyfree_lazy_expire shared_del shared_unlink lazy key s = Some ((s_del_one k A).2, s') ∧
    Rep None X L (s_del_one k A).1 s'.
Proof.
  intros Hn HR Hk. unfold del_one, s_del_one, has, bind.
  destruct (expire_ok lazyfree_lazy_expire HR Hk Hn) as (s1 & -> & HR1 & _). cbn [mbind option_bind].
  destruct (lazy_ok lazy HR1 Hk Hn) as (s2 & -> & HR2 & _). cbn [mbind option_bind].
  destruct (bool_decide_reflect (is_Some (amap (a_purge k A) !! k))) as [Hs|Hs]; simpl.
  - rewrite (signal_ok HR2 Hk). cbn [mbind option_bind].
    pose proof (Rep_event (SignalModifiedKey k) HR2) as HR3.
    rewrite (notify_ok NOTIFY_GENERIC "del" HR3 Hk). cbn. eexists. split; [done|].
    by apply Rep_dirty, Rep_event.
  - eexists. split; [done|]. rewrite a_del_none in HR2; [done|]. by apply eq_None_not_Some.
Qed.

Lemma del_does lazy args : does (delGenericCommand false false lazyfree_lazy_expire shared_del shared_unlink lazy) s_del args.
Proof.
  intros X A s Hst. destruct (start_weak X args A s Hst) as (HR & _ & Hn). destruct (args_from_ok X args A s 1 Hst) as (keys & E & HF).
  unfold delGenericCommand. run E.
  destruct (total_ok _ s_del_one _ _ keys _ (λ A s key k, del_one_ok lazy _ _ A s key k Hn) HF A s HR) as (s1 & E1 & HR1). run E1.
  last_step. unfold s_del. destruct (a_total _ _ _) as [A1 n]. simpl in *.
  apply (finish_weak X); [by apply Rep_reply|apply Hst].
Qed.

Definition s_count_one k A : astate * Z := let A := a_purge k A in (A, if has k A then 1 else 0).
Definition s_exists args A : astate := let '(A, n) := a_total s_count_one (drop 1 args) A in a_reply (ReplyInt n) A.

Lemma dict_has dup X L A s k : Rep dup X L A s → bool_decide (is_Some (dict s !! k)) = has k A.
Proof.
  intros HR. unfold has. apply bool_decide_ext. by destruct (keys_agree k HR).
Qed.

Lemma exists_one_ok X L A s key k :
  small X → Rep None X L A s → holds X key k →
  ∃ s', exists_one false false lazyfree_lazy_expire shared_del shared_unlink key s = Some ((s_count_one k A).2, s') ∧
    Rep None X L (s_count_one k A).1 s'.
Proof.
  intros Hn HR Hk. unfold exists_one, bind. destruct (expire_ok lazyfree_lazy_expire HR Hk Hn) as (s1 & -> & HR1 & _).
  cbn [mbind option_bind]. unfold dbExists, bind. rewrite (text_ok HR1 Hk). cbn [mbind option_bind get ret].
  rewrite (dict_has _ _ _ _ _ _ HR1). by exists s1.
Qed.

Lemma exists_does args : does (existsCommand false false lazyfree_lazy_expire shared_del shared_unlink) s_exists args.
Proof.
  intros X A s Hst. destruct (start_weak X args A s Hst) as (HR & _ & Hn). destruct (args_from_ok X args A s 1 Hst) as (keys & E & HF).
  unfold existsCommand. run E.
  destruct (total_ok _ s_count_one _ _ keys _ (λ A s key k, exists_one_ok _ _ A s key k Hn) HF A s HR) as (s1 & E1 & HR1). run E1.
  last_step. unfold s_exists. destruct (a_total _ _ _) as [A1 n]. simpl in *.
  apply (finish_weak X); [by apply Rep_reply|apply Hst].
Qed.

Lemma touch_one_ok X L A s key k :
  small X → Rep None X L A s → holds X key k →
  ∃ s', touch_one false false readonly_client lazyfree_lazy_expire shared_del shared_unlink key s = Some ((s_count_one k A).2, s') ∧
    Rep None X L (s_count_one k A).1 s'.
Proof.
  intros Hn HR Hk. unfold touch_one, bind. destruct (lookupR_ok readonly_client lazyfree_lazy_expire HR Hk Hn) as (s1 & -> & HR1).
  cbn [mbind option_bind ret]. rewrite (dict_has _ _ _ _ _ _ HR1). by exists s1.
Qed.

Lemma touch_does args : does (touchCommand false false readonly_client lazyfree_lazy_expire shared_del shared_unlink) s_exists args.
Proof.
  intros X A s Hst. destruct (start_weak X args A s Hst) as (HR & _ & Hn). destruct (args_from_ok X args A s 1 Hst) as (keys & E & HF).
  unfold touchCommand. run E.
  destruct (total_ok _ s_count_one _ _ keys _ (λ A s key k, touch_one_ok _ _ A s key k Hn) HF A s HR) as (s1 & E1 & HR1). run E1.
  last_step. unfold s_exists. destruct (a_total _ _ _) as [A1 n]. simpl in *.
  apply (finish_weak X); [by apply Rep_reply|apply Hst].
Qed.

Definition s_type_name (v : option (aval * option Z)) : string :=
  match v with None => "none" | Some (AStr _, _) => "string" | Some (AOther ty, _) => type_name (Some (VOther ty)) end.

Definition key_of args : bytes := default [] (args !! 1%nat).

Definition s_type args A : astate :=
  let A := a_purge (key_of args) A in a_reply (ReplyStatus (s_type_name (amap A !! key_of args))) A.

Lemma key_arg X args A s : start X args A s → (2 ≤ length args)%nat → ∃ key, arg 1 s = Some (key, s) ∧ holds (weak <$> X) key (key_of args).
Proof.
  intros Hst Hl. destruct (lookup_lt_is_Some_2 args 1 ltac:(lia)) as [k Hk].
  destruct (arg_ok X args A s 1 k Hst Hk) as (o & Ho & Hh). exists o. unfold key_of. rewrite Hk. done.
Qed.

Lemma type_does args : (2 ≤ length args)%nat → does (typeCommand false false readonly_client lazyfree_lazy_expire shared_del shared_unlink) s_type args.
Proof.
  intros Hl X A s Hst. destruct (start_weak X args A s Hst) as (HR & _ & Hn). destruct (key_arg X args A s Hst Hl) as (key & E & Hk).
  unfold typeCommand. run E. destruct (lookupR_ok readonly_client lazyfree_lazy_expire HR Hk Hn) as (s1 & E1 & HR1). run E1.
  last_step. apply (finish_weak X); [|apply Hst]. unfold s_type.
  pose proof (value_cases (key_of args) HR1) as Hv.
  replace (s_type_name (amap (a_purge (key_of args) A) !! key_of args)) with (type_name (dict s1 !! key_of args)); [by apply Rep_reply|].
  destruct (amap _ !! _) as [[[t|ty] dl]|]; [destruct Hv as (o & -> & _)|rewrite Hv..]; done.
Qed.

Definition s_dbsize args A : astate := a_reply (ReplyInt (Z.of_nat (size (amap A)))) A.

Lemma dom_agree dup X L A s : Rep dup X L A s → dom (dict s) = dom (amap A).
Proof.
  intros HR. apply set_eq. intros k. rewrite !elem_of_dom. by destruct (keys_agree k HR).
Qed.

Lemma dbsize_does args : does dbsizeCommand s_dbsize args.
Proof.
  intros X A s Hst. destruct (start_weak X args A s Hst) as (HR & _ & Hn). unfold dbsizeCommand. apply wpm_get.
  last_step. apply (finish_weak X); [|apply Hst]. unfold s_dbsize.
  rewrite <-!size_dom, (dom_agree _ _ _ _ _ HR). by apply Rep_reply.
Qed.

(** ** Expirations *)
Definition arg_of (i : nat) args : bytes := default [] (args !! i).

Lemma nth_arg X args A s i :
  start X args A s → (i < length args)%nat → ∃ o, arg i s = Some (o, s) ∧ holds (weak <$> X) o (arg_of i args).
Proof.
  intros Hst Hl. destruct (lookup_lt_is_Some_2 args i Hl) as [t Ht]. destruct (arg_ok X args A s i t Hst Ht) as (o & Ho & Hh).
  exists o. unfold arg_of. by rewrite Ht.
Qed.

(** The references of some objects are given up. *)
Lemma free_all dup X Y L A s :
  Rep dup (X ++ Y) L A s →
  ∃ s', each (λ o, heap_do (λ h, decrRefCount h o)) (ra <$> X) s = Some (tt, s') ∧ Rep dup Y L A s'.
Proof.
  revert s. induction X as [|x X IH]; intros s HR; [by exists s|].
  destruct (decr_rep _ _ _ dup x (X ++ Y) L A s HR) as (s1 & E1 & HR1 & _). destruct (IH s1 HR1) as (s2 & E2 & HR2).
  exists s2. split; [|done]. simpl. unfold bind. by rewrite E1.
Qed.

Lemma Rep_argv dup X L L' A s : Rep dup X L A s → Rep dup X L' A (set_argv L' s).
Proof. intros [? ? ? ? ? ?]. by split. Qed.

(** The arguments are replaced by [shared.del] or [shared.unlink] and the key. *)
Lemma rewrite_ok (lazy : bool) X L A s key k :
  Rep None X L A s → ra <$> X = L → holds X key k → small X →
  ∃ s' X' cmd, rewriteClientCommandVector [if lazy then shared_unlink else shared_del; key] s = Some (tt, s') ∧
    Rep None X' [cmd; key] A s' ∧ ra <$> X' = [cmd; key] ∧ holds X' key k ∧ small X'.
Proof.
  intros HR HL Hk Hn. set (cmd := if lazy then shared_unlink else shared_del).
  assert (∃ t, Ref cmd t true false ∈ perms shared_del shared_unlink) as (t & Hcmd).
  { unfold cmd, perms. destruct lazy; eexists; [right|]; left. }
  assert (txt (objs s) cmd t) as Htc.
  { apply (good_txt (objs s) (Ref cmd t true false)). eapply (proj1 (Forall_forall _ _)); [apply (R_h HR)|]. apply elem_of_app. by left. }
  destruct (incr_rep _ _ _ None X L A s cmd t false HR Htc) as (s1 & E1 & HR1 & _); [|by apply small_slack|done|].
  { right. eexists. split; [apply elem_of_app; left; exact Hcmd|done]. }
  assert (holds (Ref cmd t false false :: X) key k) as Hk1 by (by right).
  destruct (incr_rep _ _ _ None _ L A s1 key k true HR1) as (s2 & E2 & HR2 & _);
    [apply (Rep_txt HR1 Hk1)|by eapply holds_quiet|rewrite zlen_cons; pose proof (small_slack X Hn); unfold small in Hn; lia| |].
  { intros _. exists (Ref key k true false). split; [apply elem_of_app; by right|done]. }
  assert (Ref key k true false :: Ref cmd t false false :: X ≡ₚ X ++ [Ref cmd t false false; Ref key k true false]) as HP.
  { rewrite Permutation_app_comm. simpl. apply Permutation_swap. }
  destruct (free_all None X _ L A s2 (Rep_perm _ _ _ _ _ _ _ _ _ HR2 HP)) as (s3 & E3 & HR3).
  exists (set_argv [cmd; key] s3), [Ref cmd t false false; Ref key k true false], cmd. split; [|split; [by eapply Rep_argv|]].
  - unfold rewriteClientCommandVector. cbn [each]. unfold bind, get, ret, modify. rewrite E1. cbn [mbind option_bind]. rewrite E2. cbn [mbind option_bind].
    rewrite (R_argv HR2). rewrite <-HL at 1. by rewrite E3.
  - split; [done|]. split; [right; left|done].
Qed.

Definition s_expire_at (w : Z) k A : astate :=
  let A := a_purge k A in
  match amap A !! k with
  | None => a_reply (ReplyInt 0) A
  | Some (v, _) =>
      if w <=? aclock A then
        a_reply (ReplyInt 1) (a_event (NotifyKeyspaceEvent NOTIFY_GENERIC "del" k)
          (a_event (SignalModifiedKey k) (a_dirty 1 (a_del k A))))
      else
        a_dirty 1 (a_event (NotifyKeyspaceEvent NOTIFY_GENERIC "expire" k)
          (a_event (SignalModifiedKey k) (a_reply (ReplyInt 1) (a_put k (v, Some w) A))))
  end.

Definition expire_when (relative seconds : bool) (now w : Z) : Z :=
  (if seconds then w * 1000 else w) + (if relative then now else 0).

(** [relative] to the clock or not; in [seconds] or milliseconds. *)
Definition s_expire (relative seconds : bool) args A : astate :=
  match Util.string2ll (arg_of 2 args) with
  | None => a_reply (ReplyError not_integer) A
  | Some w => s_expire_at (expire_when relative seconds (aclock A) w) (key_of args) A
  end.

(** The deadline that is asked for can be computed with 64 bits. *)
Definition expire_fits (relative seconds : bool) args (now : Z) : Prop :=
  ∀ w, Util.string2ll (arg_of 2 args) = Some w →
    in_s 64 (if seconds then w * 1000 else w) ∧ in_s 64 (expire_when relative seconds now w).

Lemma finish_args X L A s : Rep None X L A s → ra <$> X = L → small X → finish A s.
Proof. intros HR HL Hn. exists X, L. by rewrite HL. Qed.

Lemma expire_generic_ok (relative seconds : bool) X args A s :
  start X args A s → (3 ≤ length args)%nat → expire_fits relative seconds args (aclock A) →
  wpm (expireGenericCommand false false lazyfree_lazy_expire shared_del shared_unlink (if relative then aclock A else 0) seconds) s
    (λ _ s', finish (s_expire relative seconds args A) s').
Proof.
  intros Hst Hl Hf. destruct (start_weak X args A s Hst) as (HR & _ & Hn). assert (500 ≤ aclock A < 2 ^ 63) as Hclk by apply Hst.
  unfold expireGenericCommand. destruct (key_arg X args A s Hst ltac:(lia)) as (key & E & Hk). run E.
  destruct (nth_arg X args A s 2 Hst ltac:(lia)) as (par & E2 & Hp). run E2.
  pose proof (getLL_ok s par _ None (Rep_txt HR Hp)) as E3. unfold s_expire. destruct (Util.string2ll (arg_of 2 args)) as [w|] eqn:Ew.
  2:{ run E3. apply wpm_ret. apply (finish_weak X); [by apply Rep_reply|apply Hst]. }
  run E3. destruct (Hf w Ew) as [Hf1 Hf2].
  assert (swrap 64 ((if seconds then swrap 64 (w * 1000) else w) + (if relative then aclock A else 0)) =
    expire_when relative seconds (aclock A) w) as ->.
  { unfold expire_when in *. destruct seconds; [rewrite (swrap_id 64 (w * 1000)) by done|]; by rewrite swrap_id. }
  set (w' := expire_when _ _ _ _) in *. destruct (lookupW_ok lazyfree_lazy_expire HR Hk Hn) as (s1 & E4 & HR1 & _). run E4.
  unfold s_expire_at. set (A1 := a_purge (key_of args) A) in *. assert (aclock A1 = aclock A) as Hc by (unfold A1, KeyspaceOps.a_purge; by destruct (expired _ _)).
  destruct (keys_agree (key_of args) HR1) as [_ Hag]. destruct (amap A1 !! key_of args) as [[v dl]|] eqn:Hm.
  2:{ destruct (dict s1 !! key_of args) as [x|]; [destruct (proj1 Hag ltac:(eauto)); done|]. last_step.
      apply (finish_weak X); [by apply Rep_reply|apply Hst]. }
  destruct (dict s1 !! key_of args) as [x|] eqn:Hd; [|destruct (proj2 Hag ltac:(eauto)); done].
  apply wpm_get. rewrite (R_clock HR1). destruct (Z.leb_spec w' (aclock A1)) as [Hle|Hgt]; cbn [negb andb].
  - destruct (lazy_ok lazyfree_lazy_expire HR1 Hk Hn) as (s2 & E5 & HR2 & _). run E5.
    rewrite bool_decide_eq_true_2 by (rewrite Hm; eauto). apply wpm_assert; [done|]. apply wpm_modify.
    destruct (rewrite_ok lazyfree_lazy_expire (weak <$> X) _ _ _ key (key_of args) (Rep_dirty 1 HR2)) as (s3 & X' & cmd & E6 & HR3 & HX' & Hk' & Hn');
      [by rewrite <-list_fmap_compose|done|done|]. run E6.
    run (signal_ok HR3 Hk'). pose proof (Rep_event (SignalModifiedKey (key_of args)) HR3) as HR4.
    run (notify_ok NOTIFY_GENERIC "del" HR4 Hk'). last_step.
    apply (finish_args X' [cmd; key]); [|done|done]. by apply Rep_reply, Rep_event.
  - unfold in_s in Hf2. change (2 ^ (64 - 1)) with (2 ^ 63) in Hf2.
    destruct (setExpire_ok w' HR1 Hk Hm ltac:(lia)) as (s2 & E5 & HR2 & _). run E5. apply wpm_modify.
    pose proof (Rep_reply (ReplyInt 1) HR2) as HR3. run (signal_ok HR3 Hk).
    pose proof (Rep_event (SignalModifiedKey (key_of args)) HR3) as HR4. run (notify_ok NOTIFY_GENERIC "expire" HR4 Hk). last_step.
    apply (finish_weak X); [|apply Hst]. by apply Rep_dirty, Rep_event.
Qed.

(** TTL and PTTL. *)
Definition s_ttl (output_ms : bool) args A : astate :=
  let A := a_purge (key_of args) A in
  a_reply (ReplyInt (match amap A !! key_of args with
                     | None => -2
                     | Some (_, None) => -1
                     | Some (_, Some w) => if output_ms then w - aclock A else (w - aclock A + 500) / 1000
                     end)) A.

Lemma purge_clock k A : aclock (a_purge k A) = aclock A.
Proof. unfold KeyspaceOps.a_purge. by destruct (expired A k). Qed.

Lemma purge_later k A v w : amap (a_purge k A) !! k = Some (v, Some w) → aclock A ≤ w.
Proof.
  rewrite purge_live. unfold expired. destruct (amap A !! k) as [[v' [w'|]]|]; try done; destruct (Z.ltb_spec w' (aclock A)); try done.
  by intros [= _ <-].
Qed.

Lemma ttl_does output_ms args :
  (2 ≤ length args)%nat →
  does (ttlGenericCommand false false readonly_client lazyfree_lazy_expire shared_del shared_unlink output_ms) (s_ttl output_ms) args.
Proof.
  intros Hl X A s Hst. destruct (start_weak X args A s Hst) as (HR & _ & Hn). destruct (key_arg X args A s Hst Hl) as (key & E & Hk).
  assert (500 ≤ aclock A < 2 ^ 63) as Hclk by apply Hst.
  unfold ttlGenericCommand. run E. destruct (lookupR_ok readonly_client lazyfree_lazy_expire HR Hk Hn) as (s1 & E1 & HR1). run E1.
  destruct (keys_agree (key_of args) HR1) as [_ Hag]. unfold s_ttl. pose proof (purge_clock (key_of args) A) as Hc.
  pose proof (purge_later (key_of args) A) as Hlate. set (A1 := a_purge (key_of args) A) in *.
  destruct (dict s1 !! key_of args) as [x|] eqn:Hd.
  2:{ destruct (amap A1 !! key_of args) eqn:Hm; [destruct (proj2 Hag ltac:(eauto)); done|]. last_step.
      apply (finish_weak X); [by apply Rep_reply|apply Hst]. }
  destruct (proj1 Hag ltac:(eauto)) as [[v dl] Hm]. run (getExpire_ok HR1 Hk). apply wpm_get. unfold deadline. rewrite Hm, (R_clock HR1), Hc.
  destruct dl as [w|]; [|last_step; apply (finish_weak X); [by apply Rep_reply|apply Hst]].
  pose proof (deadline_pos shared_integers _ _ _ _ _ _ _ _ _ w (R_h HR1) Hm eq_refl) as Hw. specialize (Hlate v w Hm).
  rewrite (proj2 (Z.eqb_neq w (-1))) by lia. cbn [negb].
  rewrite (swrap_id 64 (w - aclock A)) by (try done; unfold in_s; change (2 ^ (64 - 1)) with (2 ^ 63); lia).
  rewrite Z.max_r by lia. rewrite (proj2 (Z.eqb_neq (w - aclock A) (-1))) by lia.
  rewrite swrap_id by (try done; unfold in_s; change (2 ^ (64 - 1)) with (2 ^ 63); lia).
  rewrite Z.quot_div_nonneg by lia. last_step. apply (finish_weak X); [by apply Rep_reply|apply Hst].
Qed.

Definition s_persist args A : astate :=
  let A := a_purge (key_of args) A in
  match amap A !! key_of args with
  | Some (v, Some _) => a_dirty 1 (a_reply (ReplyInt 1) (a_put (key_of args) (v, None) A))
  | _ => a_reply (ReplyInt 0) A
  end.

Lemma a_put_same k v A : amap A !! k = Some v → a_put k v A = A.
Proof. intros Hk. unfold a_put. rewrite insert_id by done. by destruct A. Qed.

Lemma persist_does args :
  (2 ≤ length args)%nat → does (persistCommand false false lazyfree_lazy_expire shared_del shared_unlink) s_persist args.
Proof.
  intros Hl X A s Hst. destruct (start_weak X args A s Hst) as (HR & _ & Hn). destruct (key_arg X args A s Hst Hl) as (key & E & Hk).
  unfold persistCommand. run E. destruct (lookupW_ok lazyfree_lazy_expire HR Hk Hn) as (s1 & E1 & HR1 & _). run E1.
  destruct (keys_agree (key_of args) HR1) as [_ Hag]. unfold s_persist. set (A1 := a_purge (key_of args) A) in *.
  destruct (dict s1 !! key_of args) as [x|] eqn:Hd.
  2:{ destruct (amap A1 !! key_of args) eqn:Hm; [destruct (proj2 Hag ltac:(eauto)); done|]. last_step.
      apply (finish_weak X); [by apply Rep_reply|apply Hst]. }
  destruct (proj1 Hag ltac:(eauto)) as [[v dl] Hm]. rewrite Hm. destruct (removeExpire_ok HR1 Hk Hm) as (s2 & E2 & HR2 & _). run E2.
  destruct dl as [w|]; [|rewrite bool_decide_eq_false_2 by (by intros []); rewrite a_put_same in HR2 by done; last_step].
  - rewrite bool_decide_eq_true_2 by eauto. apply wpm_modify. last_step. apply (finish_weak X); [|apply Hst]. by apply Rep_dirty, Rep_reply.
  - apply (finish_weak X); [by apply Rep_reply|apply Hst].
Qed.

(** ** RENAME *)
Definition a_ready (v : aval) k A : astate :=
  match v with AOther OBJ_LIST => a_event (SignalListAsReady k) A | _ => A end.

Definition s_rename (nx : bool) args A : astate :=
  let k1 := key_of args in let k2 := arg_of 2 args in
  let A := a_purge k1 A in
  match amap A !! k1 with
  | None => a_reply NoKeyErr A
  | Some (v, dl) =>
      if bool_decide (k1 = k2) then a_reply (if nx then ReplyInt 0 else ReplyOk) A else
      let A := a_purge k2 A in
      if nx && has k2 A then a_reply (ReplyInt 0) A else
      a_reply (if nx then ReplyInt 1 else ReplyOk) (a_dirty 1
        (a_event (NotifyKeyspaceEvent NOTIFY_GENERIC "rename_to" k2) (a_event (NotifyKeyspaceEvent NOTIFY_GENERIC "rename_from" k1)
        (a_event (SignalModifiedKey k2) (a_event (SignalModifiedKey k1)
        (a_ready v k2 (with_map (<[k2 := (v, dl)]> (delete k1 (amap A))) A)))))))
  end.

(** The reference that the command holds to a value, and what a second key that
    holds it does to the bound on keys. *)
Definition value_refs (kv : kvalue) (v : aval) : list ref :=
  match kv, v with VString o, AStr t => [Ref o t false false] | _, _ => [] end.
Definition value_dup (kv : kvalue) : option addr := match kv with VString o => Some o | VOther _ => None end.
Definition value_is (kv : kvalue) (v : aval) : Prop :=
  match kv, v with VString _, AStr _ => True | VOther ty, AOther ty' => ty = ty' | _, _ => False end.

Lemma value_at X L A s k v dl :
  Rep None X L A s → amap A !! k = Some (v, dl) → ∃ kv, dict s !! k = Some kv ∧ value_is kv v ∧
    (small X → ∃ s', incr_value kv s = Some (tt, s') ∧ Rep None (value_refs kv v ++ X) L A s' ∧ dict s' = dict s).
Proof.
  intros HR Hm. pose proof (value_cases k HR) as Hv. rewrite Hm in Hv. destruct v as [t|ty].
  - destruct Hv as (o & Ho & Ht & Hrf). exists (VString o). split; [done|]. split; [done|]. intros Hn.
    destruct (incr_rep _ _ _ None X L A s o t false HR Ht ltac:(by left) ltac:(by apply small_slack) ltac:(done)) as (s' & E & HR' & Hd & _).
    by exists s'.
  - exists (VOther ty). split; [done|]. split; [done|]. intros _. by exists s.
Qed.

Lemma rename_add_ok kv v X L A s dst k2 k1 :
  Rep None (value_refs kv v ++ X) L A s → value_is kv v → holds X dst k2 → amap A !! k2 = None → k1 ≠ k2 →
  ∃ s', dbAdd dst kv s = Some (tt, s') ∧ Rep (value_dup kv) X L (a_ready v k2 (a_put k2 (v, None) A)) s' ∧ dict s' !! k1 = dict s !! k1.
Proof.
  intros HR Hv Hk Hm Hne. unfold dbAdd, bind. rewrite (text_ok HR (o := dst) (t := k2) (u := false)) by (apply elem_of_app; by right).
  cbn [mbind option_bind get]. destruct (key_none shared_integers _ _ _ _ _ _ _ (R_h HR) Hm) as [Hd He]. rewrite bool_decide_eq_true_2 by done.
  destruct kv as [o|ty], v as [t|ty']; try done; simpl in *.
  - cbn. eexists. split; [done|]. split; [|by apply lookup_insert_ne].
    apply (Rep_change _ _ _ None (Some o) _ _ L A s _ _ HR); [done|].
    apply (dict_put shared_integers None (Some o) _ _ _ (Ref o t false false)); [|done| |by left].
    + eapply hrep_perm; [apply (R_h HR)|]. symmetry. apply Permutation_middle.
    + intros r Hr Hns. rewrite decide_True by done. destruct (h_count _ _ _ _ _ _ _ (R_h HR) _ _ Hr) as [|(_ & _ & Hb)]; [done|].
      rewrite decide_False in Hb by done. simpl in *. lia.
  - subst ty'.
    assert (Rep None X L (a_put k2 (AOther ty, None) A) (set_dict (<[k2 := VOther ty]> (dict s)) s)) as HR1.
    { apply (Rep_change _ _ _ None None _ _ L A s _ _ HR); [done|]. apply dict_put_other; [apply (R_h HR)|done]. }
    assert ((<[k2 := VOther ty]> (dict s)) !! k1 = dict s !! k1) as Hd1 by (by apply lookup_insert_ne).
    destruct ty; cbn; eexists; (split; [reflexivity|]); (split; [|exact Hd1]); first [exact HR1|exact (Rep_event _ HR1)].
Qed.

Lemma delete_src_ok kv v X L A s src k1 dl :
  Rep (value_dup kv) X L A s → holds X src k1 → small X → amap A !! k1 = Some (v, dl) → dict s !! k1 = Some kv → value_is kv v →
  ∃ s', dbDelete lazyfree_lazy_server_del src s = Some (true, s') ∧ Rep None X L (a_del k1 A) s'.
Proof.
  intros HR Hk Hn Hm Hd Hv.
  assert (∃ s', dbSyncDelete src s = Some (true, s') ∧ Rep None X L (a_del k1 A) s') as (s' & E & HR').
  { unfold dbSyncDelete, bind. rewrite (text_ok HR Hk). cbn [mbind option_bind modify]. destruct kv as [o|ty], v as [t|ty']; try done.
    - destruct (key_delete_ok _ _ _ (Some o) None X L A s k1 o t dl HR Hn Hm Hd) as (s' & E & HR' & _); [by right|]. by exists s'.
    - destruct (dict_delete_ok _ _ _ None X L A s k1 HR Hn) as (s' & E & HR' & _). rewrite Hm in E. by exists s'. }
  exists s'. split; [|done]. unfold dbDelete. by destruct lazyfree_lazy_server_del.
Qed.

Lemma cmp_args X L A s o1 t1 o2 t2 :
  Rep None X L A s → holds X o1 t1 → holds X o2 t2 →
  ∃ r1 r2 sd1 sd2 c, objs s !! o1 = Some r1 ∧ objs s !! o2 = Some r2 ∧ as_sds r1 = Some sd1 ∧ as_sds r2 = Some sd2 ∧
    Sds.sdscmp sd1 sd2 = Some c ∧ (c =? 0) = bool_decide (t1 = t2).
Proof.
  intros HR H1 H2. apply (Rep_in _ _ _ _ _ _ _ _ _ HR) in H1 as (r1 & Hr1 & Ht1 & _ & Hl1 & Hs1 & _).
  apply (Rep_in _ _ _ _ _ _ _ _ _ HR) in H2 as (r2 & Hr2 & Ht2 & _ & Hl2 & Hs2 & _). simpl in *.
  destruct (obj_sds r1 t1 Ht1 (Hs1 eq_refl)) as (sd1 & Hd1 & Hp1 & _), (obj_sds r2 t2 Ht2 (Hs2 eq_refl)) as (sd2 & Hd2 & Hp2 & _).
  exists r1, r2, sd1, sd2, (cmp_bytes t1 t2). split_and!; try done; [by apply cmp_ok|].
  destruct (cmp_bytes_lex t1 t2) as [_ Heq]; [unfold MAXLEN in *; lia..|].
  destruct (Z.eqb_spec (cmp_bytes t1 t2) 0); [rewrite bool_decide_eq_true_2; tauto|rewrite bool_decide_eq_false_2; tauto].
Qed.

Lemma moved A k1 k2 v :
  with_map (<[k2 := v]> (delete k1 (amap (a_del k2 A)))) (a_del k2 A) = with_map (<[k2 := v]> (delete k1 (amap A))) A.
Proof. unfold a_del, with_map. simpl. by rewrite delete_delete, insert_delete_eq. Qed.

(** The new name is made free. *)
Lemma free_dst_ok X L A s dst k2 :
  Rep None X L A s → holds X dst k2 → small X →
  ∃ s' b, (if bool_decide (is_Some (dict s !! k2)) then dbDelete lazyfree_lazy_server_del dst else ret true) s = Some (b, s') ∧
    Rep None X L (a_del k2 A) s' ∧ dict s' = delete k2 (dict s).
Proof.
  intros HR H2 Hn. destruct (keys_agree k2 HR) as [_ Hag]. destruct (bool_decide_reflect (is_Some (dict s !! k2))) as [Ho|Ho].
  - destruct (sync_ok HR H2 Hn) as (s' & E & HR' & Hd). eexists s', _. split; [|done].
    unfold dbDelete. by destruct lazyfree_lazy_server_del.
  - exists s, true. split; [done|]. rewrite a_del_none by (apply eq_None_not_Some; tauto). split; [done|].
    symmetry. by apply delete_id, eq_None_not_Some.
Qed.

(** It gets the value and its deadline, and the old name goes. *)
Lemma rename_move_ok kv v dl X L A s src dst k1 k2 :
  Rep None (value_refs kv v ++ X) L A s → small X → value_is kv v → holds X src k1 → holds X dst k2 → k1 ≠ k2 →
  amap A !! k1 = Some (v, dl) → amap A !! k2 = None → dict s !! k1 = Some kv →
  ∃ s1 s2 s3, dbAdd dst kv s = Some (tt, s1) ∧
    (if negb (default (-1) dl =? -1) then setExpire dst (default (-1) dl) else ret tt) s1 = Some (tt, s2) ∧
    dbDelete lazyfree_lazy_server_del src s2 = Some (true, s3) ∧
    Rep None X L (a_ready v k2 (with_map (<[k2 := (v, dl)]> (delete k1 (amap A))) A)) s3.
Proof.
  intros HR Hn Hv H1 H2 Hne Hm Hm2 Hd. pose proof (λ w, deadline_pos shared_integers _ _ _ _ _ _ _ _ _ w (R_h HR) Hm) as Hpos.
  destruct (rename_add_ok kv v X L A s dst k2 k1 HR Hv H2 Hm2 Hne) as (s1 & E1 & HR1 & Hd1).
  assert (∃ s2, (if negb (default (-1) dl =? -1) then setExpire dst (default (-1) dl) else ret tt) s1 = Some (tt, s2) ∧
    Rep (value_dup kv) X L (a_ready v k2 (a_put k2 (v, dl) A)) s2 ∧ dict s2 = dict s1) as (s2 & E2 & HR2 & Hd2).
  { destruct dl as [w|]; [|by exists s1]. specialize (Hpos w eq_refl). simpl. rewrite (proj2 (Z.eqb_neq w (-1))) by lia. cbn [negb].
    assert (amap (a_ready v k2 (a_put k2 (v, None) A)) !! k2 = Some (v, None)) as Hp by (unfold a_ready; destruct v as [|[]]; apply lookup_insert_eq).
    destruct (setExpire_ok w HR1 H2 Hp Hpos) as (s2 & E2 & HR2 & Hd2 & _). exists s2. split; [done|]. split; [|done].
    replace (a_ready v k2 (a_put k2 (v, Some w) A)) with (a_put k2 (v, Some w) (a_ready v k2 (a_put k2 (v, None) A))); [done|].
    unfold a_put, a_ready. destruct v as [|[]]; simpl; unfold with_map, a_event; simpl; by rewrite insert_insert_eq. }
  assert (amap (a_ready v k2 (a_put k2 (v, dl) A)) = <[k2 := (v, dl)]> (amap A)) as Ham by (by destruct v as [|[]]).
  destruct (delete_src_ok kv v X L _ s2 src k1 dl HR2 H1 Hn) as (s3 & E3 & HR3); [by rewrite Ham, lookup_insert_ne|congruence|done|].
  exists s1, s2, s3. split_and!; try done.
  replace (a_ready v k2 (with_map (<[k2 := (v, dl)]> (delete k1 (amap A))) A)) with (a_del k1 (a_ready v k2 (a_put k2 (v, dl) A))); [done|].
  unfold a_del, a_put, a_ready. destruct v as [|[]]; simpl; unfold with_map, a_event; simpl; by rewrite delete_insert_ne.
Qed.

Lemma deadline_default A k v dl : amap A !! k = Some (v, dl) → deadline A k = default (-1) dl.
Proof. unfold deadline. intros ->. by destruct dl. Qed.

Lemma rename_does (nx : bool) args :
  (3 ≤ length args)%nat →
  does (renameGenericCommand false false lazyfree_lazy_expire lazyfree_lazy_server_del shared_del shared_unlink nx) (s_rename nx) args.
Proof.
  intros Hl X A s Hst. destruct (start_weak X args A s Hst) as (HR & _ & Hn). assert (tiny X) as Ht by apply Hst.
  destruct (key_arg X args A s Hst ltac:(lia)) as (src & Ea1 & H1), (nth_arg X args A s 2 Hst ltac:(lia)) as (dst & Ea2 & H2).
  unfold renameGenericCommand, s_rename. set (k1 := key_of args) in *. set (k2 := arg_of 2 args) in *. run Ea1. run Ea2. apply wpm_get.
  destruct (cmp_args _ _ A s src k1 dst k2 HR H1 H2) as (r1 & r2 & sd1 & sd2 & c & Hr1 & Hr2 & Hs1 & Hs2 & Hc & Hcz).
  do 5 (eapply wpm_lift; [eassumption|]). rewrite Hcz. clear Hcz Hc c Hs1 Hs2 sd1 sd2 Hr1 Hr2 r1 r2 Ea1 Ea2.
  unfold lookupKeyWriteOrReply. apply wpm_bind. destruct (lookupW_ok lazyfree_lazy_expire HR H1 Hn) as (s1 & E1 & HR1 & _). run E1.
  destruct (amap (a_purge k1 A) !! k1) as [[v dl]|] eqn:Hm.
  2:{ destruct (keys_agree k1 HR1) as [_ Hag]. assert (dict s1 !! k1 = None) as -> by (apply eq_None_not_Some; rewrite Hag, Hm; by intros []).
      apply wpm_modify, wpm_ret, wpm_ret. apply (finish_weak X); [by apply Rep_reply|done]. }
  destruct (value_at _ _ _ s1 k1 v dl HR1 Hm) as (kv & Hd & Hv & Hincr). rewrite Hd. apply wpm_bind, wpm_ret, wpm_ret.
  case_bool_decide as Hk; [last_step; apply (finish_weak X); [by apply Rep_reply|done]|].
  destruct (Hincr Hn) as (s2 & E2 & HR2 & Hd2). run E2. set (X2 := value_refs kv v ++ (weak <$> X)) in *.
  assert (small X2) as Hn2 by (apply tiny_small; [by apply tiny_weak|unfold value_refs; destruct kv, v; done]).
  assert (holds X2 src k1) as H1' by (apply elem_of_app; by right). assert (holds X2 dst k2) as H2' by (apply elem_of_app; by right).
  run (getExpire_ok HR2 H1'). rewrite (deadline_default _ _ _ _ Hm).
  destruct (lookupW_ok lazyfree_lazy_expire HR2 H2' Hn2) as (s3 & E3 & HR3 & Hd3). run E3. rewrite <-(dict_has _ _ _ _ _ k2 HR3), andb_comm.
  set (A2 := a_purge k2 (a_purge k1 A)) in *.
  assert (amap A2 !! k1 = Some (v, dl)) as Hm2 by (unfold A2, KeyspaceOps.a_purge; destruct (expired _ k2); [simpl; by rewrite lookup_delete_ne|done]).
  assert (dict s3 !! k1 = Some kv) as Hd4 by (rewrite Hd3 by done; by rewrite Hd2).
  destruct (nx && bool_decide (is_Some (dict s3 !! k2))) eqn:Enx.
  - assert (∃ s4, dictObjectDestructor kv s3 = Some (tt, s4) ∧ Rep None (weak <$> X) (ra <$> X) A2 s4) as (s4 & E4 & HR4).
    { unfold X2 in HR3. destruct kv as [o|ty], v as [t|ty']; try done; [|by exists s3].
      destruct (decr_rep _ _ _ None _ _ _ _ _ HR3) as (s4 & E4 & HR4 & _). by exists s4. }
    run E4. last_step. apply (finish_weak X); [by apply Rep_reply|done].
  - destruct (free_dst_ok X2 _ _ s3 dst k2 HR3 H2' Hn2) as (s4 & b & E4 & HR4 & Hd5). run E4.
    destruct (rename_move_ok kv v dl (weak <$> X) _ _ s4 src dst k1 k2 HR4 Hn Hv H1 H2 Hk) as (s5 & s6 & s7 & E5 & E6 & E7 & HR7);
      [simpl; by rewrite lookup_delete_ne|apply lookup_delete_eq|by rewrite Hd5, lookup_delete_ne|].
    rewrite moved in HR7. run E5. run E6. run E7. run (signal_ok HR7 H1). pose proof (Rep_event (SignalModifiedKey k1) HR7) as HR8.
    run (signal_ok HR8 H2). pose proof (Rep_event (SignalModifiedKey k2) HR8) as HR9.
    run (notify_ok NOTIFY_GENERIC "rename_from" HR9 H1). pose proof (Rep_event (NotifyKeyspaceEvent NOTIFY_GENERIC "rename_from" k1) HR9) as HR10.
    run (notify_ok NOTIFY_GENERIC "rename_to" HR10 H2). apply wpm_modify. last_step. apply (finish_weak X); [|done].
    by apply Rep_reply, Rep_dirty, Rep_event.
Qed.
End KeyCommands.
