(* ===== verification/StringCommands.v ===== *)
(** * SET and GET

    What SET with its options and variants, GET, GETSET, MGET, MSET and MSETNX do to
    a finite map, and that the commands of t_string.c do it, whatever the encodings of
    the objects. *)

From Stdlib Require Import String.
From S2P Require Import Prelude.
From S2P Require Import Mem.
From S2P Require Import Util.
From S2P Require Import Sds.
From S2P Require Import SdsSpec.
From S2P Require Import SdsRefine.
From S2P Require Import Object.
From S2P Require Import ObjectSpec.
From S2P Require Import Keyspace.
From S2P Require Import StringType.
From S2P Require Import KeyspaceSpec.
From S2P Require Import KeyspaceOps.
From S2P Require Import KeyCommands.
Import Object Keyspace StringType.

#[local] Notation addr := positive.
#[local] Notation length := Datatypes.length.

Lemma insert_perm {B} (l : list B) i x y : l !! i = Some x → <[i := y]> l ≡ₚ y :: delete i l.
Proof.
  revert i. induction l as [|z l IH]; intros [|i] Hi; simplify_eq/=; [done|]. rewrite (IH i Hi). apply Permutation_swap.
Qed.

(** Every second element, from the first on. *)
Lemma evens_ind {B} (P : list B → Prop) : P [] → (∀ x, P [x]) → (∀ x y l, P l → P (x :: y :: l)) → ∀ l, P l.
Proof.
  intros H0 H1 H2 l. enough (P l ∧ ∀ x, P (x :: l)) by tauto. induction l as [|y l [IH1 IH2]]; [done|]. split; [done|]. intros x. by apply H2.
Qed.

Lemma evens_fmap {B C} (f : B → C) l : evens (f <$> l) = f <$> evens l.
Proof. induction l as [| |x y l IH] using evens_ind; [done..|]. rewrite !fmap_cons. cbn [evens]. by rewrite fmap_cons, IH. Qed.

Lemma evens_in {B} (l : list B) x : x ∈ evens l → ∃ i, l !! i = Some x ∧ Nat.even i = true.
Proof.
  induction l as [|z|z y l IH] using evens_ind; cbn [evens]; [by intros ?%elem_of_nil|intros ->%list_elem_of_singleton; by exists 0%nat|].
  intros [->|Hx]%elem_of_cons; [by exists 0%nat|]. destruct (IH Hx) as (i & Hi & He). by exists (S (S i)).
Qed.

(** ** The options of SET *)
Definition on_arg {X Y} (f : X → Y) (p : X * bytes) : Y * bytes := (f p.1, p.2).
Definition on_expire {X Y} (f : X → Y) (r : Z * units * option X) : Z * units * option Y := (r.1, f <$> r.2).

Lemma set_options_map {X Y} (f : X → Y) n : ∀ (l : list (X * bytes)) fl u (e : option X), (length l ≤ n)%nat →
  set_options (map (on_arg f) l) fl u (f <$> e) = on_expire f <$> set_options l fl u e.
Proof.
  induction n as [|n IH]; intros [|[x a] l] fl u e Hn; try done; simpl in Hn; [lia|]. cbn [map on_arg set_options fst snd].
  destruct (is_option a 110 120 && _); [apply IH; lia|]. destruct (is_option a 120 120 && _); [apply IH; lia|].
  destruct l as [|[y b] l]; [done|]. cbn [map on_arg fst snd]. simpl in Hn.
  destruct (is_option a 101 120 && _); [apply (IH l _ _ (Some y)); lia|].
  destruct (is_option a 112 120 && _); [apply (IH l _ _ (Some y)); lia|done].
Qed.

Lemma set_options_in {X} n : ∀ (l : list (X * bytes)) fl u e fl' u' x, (length l ≤ n)%nat →
  set_options l fl u e = Some (fl', u', Some x) → e = Some x ∨ x ∈ l.*1.
Proof.
  induction n as [|n IH]; intros [|[y a] l] fl u e fl' u' x Hn; simpl in Hn; try lia; cbn [set_options].
  1-2: intros [= _ _ ->]; by left.
  assert (∀ fl u, set_options l fl u e = Some (fl', u', Some x) → e = Some x ∨ x ∈ ((y, a) :: l).*1) as Hskip.
  { intros fl0 u0 [?|?]%IH; [by left|right; by right|lia]. }
  destruct (is_option a 110 120 && _); [apply Hskip|]. destruct (is_option a 120 120 && _); [apply Hskip|].
  destruct l as [|[z b] l]; [done|]. simpl in Hn. right. destruct (is_option a 101 120 && _).
  { apply IH in H as [[= ->]|?]; [right; left|right; by right|lia]. }
  destruct (is_option a 112 120 && _); [|done]. apply IH in H as [[= ->]|?]; [right; left|right; by right|lia].
Qed.

Section StringCommands.
Context `{Alloc} (shared_integers : Z → addr) (maxmemory maxmemory_policy : Z).
Context (readonly_client lazyfree_lazy_expire : bool) (shared_del shared_unlink : addr).

#[local] Notation Rep := (Rep shared_integers shared_del shared_unlink).
#[local] Notation start := (start shared_integers shared_del shared_unlink).
#[local] Notation finish := (finish shared_integers shared_del shared_unlink).
#[local] Notation does := (does shared_integers shared_del shared_unlink).
#[local] Notation a_purge := (a_purge lazyfree_lazy_expire).

Implicit Types (X Y : list ref) (L : list addr) (A : astate) (s : state) (args : list bytes).

(** ** An argument is encoded *)
Lemma Rep_args dup X L A s L' : Rep dup X L A s → Rep dup X L' A (set_argv L' s).
Proof. intros [? ? ? ? ? ?]. by split. Qed.

Lemma encode_at Y A s i o t :
  Rep None Y (ra <$> Y) A s → Y !! i = Some (Ref o t true true) →
  ∃ s' o' b, encode_arg shared_integers maxmemory maxmemory_policy i s = Some (o', s') ∧
    Rep None (<[i := Ref o' t b true]> Y) (ra <$> <[i := Ref o' t b true]> Y) A s'.
Proof.
  intros HR Hi. pose proof (delete_Permutation Y i _ Hi) as HP.
  pose proof (R_h (Rep_perm _ _ _ _ _ _ _ _ _ HR HP)) as Hh.
  apply (hrep_perm _ _ _ _ _ _ (Ref o t true true :: perms shared_del shared_unlink ++ delete i Y)) in Hh; [|symmetry; apply Permutation_middle].
  destruct (encode_ok shared_integers maxmemory maxmemory_policy None _ _ _ o t _ _ Hh) as (h' & o' & b & E & Hh').
  set (Y' := <[i := Ref o' t b true]> Y). exists (set_argv (ra <$> Y') (set_objs h' s)), o', b. split.
  - unfold encode_arg, arg, set_arg, bind, get, modify, ret. cbn [mbind option_bind]. rewrite (R_argv HR), list_lookup_fmap, Hi.
    cbn [fmap option_fmap option_map lift mbind option_bind ra]. rewrite (heap_op_ok _ s h' o' E). cbn [mbind option_bind]. cbn [argv set_objs].
    rewrite (R_argv HR). unfold Y'. by rewrite list_fmap_insert.
  - apply (Rep_args None Y' (ra <$> Y)). apply (Rep_heap _ _ _ None Y); [done|]. eapply hrep_perm; [exact Hh'|].
    unfold Y'. rewrite (insert_perm Y i _ _ Hi). apply Permutation_middle.
Qed.

(** The references to the other arguments. *)
Definition others (i : nat) Y : list ref := delete i (weak <$> Y).

Lemma other_in i j Y y : Y !! j = Some y → j ≠ i → rs y = true → holds (others i Y) (ra y) (rt y).
Proof.
  intros Hj Hne Hs. assert ((weak <$> Y) !! j = Some (Ref (ra y) (rt y) true false)) as Hw by (rewrite list_lookup_fmap, Hj; simpl; unfold weak; by rewrite Hs).
  unfold holds, others. destruct (decide (j < i)%nat) as [Hlt|Hge].
  - apply list_elem_of_lookup_2 with j. by rewrite list_lookup_delete_lt.
  - apply list_elem_of_lookup_2 with (j - 1)%nat. rewrite list_lookup_delete_ge by lia. by replace (S (j - 1)) with j by lia.
Qed.

Lemma others_small i Y x : tiny Y → small (x :: others i Y).
Proof.
  unfold tiny, small, others. rewrite zlen_cons. change (2 ^ 28) with 268435456. change (2 ^ 29) with 536870912.
  unfold zlen. rewrite delete_take_drop, length_app, length_take, length_drop, length_fmap. lia.
Qed.

Lemma arg_at dup X L A s i o : Rep dup X L A s → L !! i = Some o → arg i s = Some (o, s).
Proof. intros HR Ho. unfold arg, bind, get, lift. cbn [mbind option_bind]. by rewrite (R_argv HR), Ho. Qed.

(** The value, in its encoding, and the other arguments. *)
Definition valued i Y (x : ref) A s : Prop := Rep None (x :: others i Y) (<[i := ra x]> (ra <$> Y)) A s.

Lemma encode_value Y A s i x :
  Rep None Y (ra <$> Y) A s → Y !! i = Some x → strong x →
  ∃ s' o b, encode_arg shared_integers maxmemory maxmemory_policy i s = Some (o, s') ∧ valued i Y (Ref o (rt x) b true) A s'.
Proof.
  intros HR Hi [Hs Hu]. assert (x = Ref (ra x) (rt x) true true) as Hx by (destruct x; simpl in *; congruence). rewrite Hx in Hi.
  destruct (encode_at Y A s i _ _ HR Hi) as (s' & o & b & E & HR'). exists s', o, b. split; [done|].
  rewrite list_fmap_insert in HR'. set (x' := Ref o (rt x) b true) in *.
  assert (Forall2 weaker (<[i := x']> (weak <$> Y)) (<[i := x']> Y)) as HW by (apply Forall2_insert; [apply weak_all|apply weaker_refl]).
  eapply Rep_perm; [eapply Rep_weaker; [exact HR'|exact HW]|].
  apply (insert_perm (weak <$> Y) i (weak (Ref (ra x) (rt x) true true))). by rewrite list_lookup_fmap, Hi.
Qed.

Lemma valued_arg i j Y x y A s :
  valued i Y x A s → Y !! j = Some y → j ≠ i → rs y = true →
  arg j s = Some (ra y, s) ∧ holds (others i Y) (ra y) (rt y).
Proof.
  intros HR Hj Hne Hs. split; [|by eapply other_in]. eapply arg_at; [exact HR|].
  rewrite list_lookup_insert_ne by done. by rewrite list_lookup_fmap, Hj.
Qed.

Lemma valued_finish i Y x y A s : valued i Y x A s → Y !! i = Some y → tiny Y → finish A s.
Proof.
  intros HR Hi Hn. exists (x :: others i Y), (<[i := ra x]> (ra <$> Y)). split; [done|]. split; [|by apply others_small].
  rewrite (insert_perm (ra <$> Y) i (ra y)) by (by rewrite list_lookup_fmap, Hi). cbn [fmap list_fmap]. apply Permutation_skip.
  unfold others. rewrite list_fmap_delete, <-list_fmap_compose. done.
Qed.

(** ** SET and its variants *)

(** The milliseconds that the option asks for, or the error. *)
Definition set_ms (cmd : string) (expire : option bytes) (unit : units) : string + Z :=
  match expire with
  | None => inr 0
  | Some e =>
      match Util.string2ll e with
      | None => inl not_integer
      | Some m => if m <=? 0 then inl ("invalid expire time in " ++ cmd)%string
                  else inr (match unit with UNIT_SECONDS => m * 1000 | UNIT_MILLISECONDS => m end)
      end
  end.

Definition s_set_generic (cmd : string) (flags : Z) (k t : bytes) (expire : option bytes) (unit : units) (ok_reply abort_reply : reply) A : astate :=
  match set_ms cmd expire unit with
  | inl msg => a_reply (ReplyError msg) A
  | inr ms =>
      let A := a_purge k A in
      if has_flag flags OBJ_SET_NX && has k A || has_flag flags OBJ_SET_XX && negb (has k A) then a_reply abort_reply A else
      let A := a_event (NotifyKeyspaceEvent NOTIFY_STRING "set" k) (a_dirty 1 (a_event (SignalModifiedKey k)
        (a_put k (AStr t, (λ _, aclock A + ms) <$> expire) A))) in
      a_reply ok_reply (match expire with Some _ => a_event (NotifyKeyspaceEvent NOTIFY_GENERIC "expire" k) A | None => A end)
  end.

(** The deadline fits in 64 bits. *)
Definition set_fits (expire : option bytes) (unit : units) (now : Z) : Prop :=
  ∀ cmd ms, set_ms cmd expire unit = inr ms → now + ms < 2 ^ 63.

Lemma purge_idem k A : a_purge k (a_purge k A) = a_purge k A.
Proof.
  assert (expired (a_purge k A) k = false) as He.
  { unfold KeyspaceOps.a_purge at 1. destruct (expired A k) eqn:E; [|done]. unfold expired, a_del. simpl. by rewrite lookup_delete_eq. }
  unfold KeyspaceOps.a_purge at 1. by rewrite He.
Qed.

(** NX or XX: the key is looked up, and the answer may end the command. *)
Lemma set_test_ok (f : option kvalue → bool) (flag : bool) X L A s key k :
  Rep None X L A s → holds X key k → small X →
  ∃ s' A', (if flag then bind (lookupKeyWrite false false lazyfree_lazy_expire shared_del shared_unlink key) (λ v, ret (f v)) else ret false) s =
      Some (flag && f (dict s' !! k), s') ∧
    Rep None X L A' s' ∧ A' = if flag then a_purge k A else A.
Proof.
  intros HR Hk Hn. destruct flag; [|by exists s, A].
  destruct (lookupW_ok lazyfree_lazy_expire HR Hk Hn) as (s1 & E1 & HR1 & _). exists s1, (a_purge k A). split; [|done].
  unfold bind. by rewrite E1.
Qed.

(** The option: an argument and its text. *)
Definition option_held X (ex : option (addr * bytes)) : Prop := ∀ p, ex = Some p → holds X p.1 p.2.

Lemma ms_ok cmd X A L s ex unit now :
  Rep None X L A s → option_held X ex → 0 ≤ now → set_fits (snd <$> ex) unit now →
  ∃ s' r, (match fst <$> ex with
    | None => ret (Some 0)
    | Some e => bind (getLongLongFromObjectOrReply (Some e) None) (λ m,
        match m with
        | None => ret None
        | Some m =>
            if m <=? 0 then bind (addReplyError ("invalid expire time in " ++ cmd)%string) (λ _, ret None)
            else ret (Some (match unit with UNIT_SECONDS => swrap 64 (m * 1000) | UNIT_MILLISECONDS => m end))
        end)
    end) s = Some (r, s') ∧
    match set_ms cmd (snd <$> ex) unit with
    | inl msg => r = None ∧ Rep None X L (a_reply (ReplyError msg) A) s'
    | inr ms => r = Some ms ∧ Rep None X L A s' ∧ 0 ≤ ms
    end.
Proof.
  intros HR He Hnow Hf. destruct ex as [[e t]|]; [|by exists s, (Some 0)].
  specialize (He _ eq_refl). cbn [fmap option_fmap option_map fst snd] in *. unfold set_fits, set_ms, bind in *. rewrite (getLL_ok s e t None (Rep_txt HR He)).
  destruct (Util.string2ll t) as [m|]; cbn [mbind option_bind]; [|eexists _, _; split; [reflexivity|]; split; [done|by apply Rep_reply]].
  destruct (Z.leb_spec m 0); [eexists _, _; split; [reflexivity|]; split; [done|by apply Rep_reply]|].
  eexists _, _. split; [done|]. specialize (Hf cmd _ eq_refl). split_and!; [|done|destruct unit; lia].
  destruct unit; [|done]. rewrite swrap_id; [done|lia|]. unfold in_s. change (2 ^ (64 - 1)) with (2 ^ 63). lia.
Qed.

Lemma dict_none X L A s k : Rep None X L A s → bool_decide (dict s !! k = None) = negb (has k A).
Proof.
  intros HR. rewrite <-(dict_has _ _ _ _ _ _ _ _ k HR). by destruct (dict s !! k).
Qed.

Lemma put_later k v v' n e A : a_put k v (a_dirty n (a_event e (a_put k v' A))) = a_dirty n (a_event e (a_put k v A)).
Proof. unfold a_put, a_dirty, a_event, with_map. simpl. by rewrite insert_insert_eq. Qed.

Lemma set_generic_ok cmd flags x X L A s key k ex unit okr abr :
  Rep None (x :: X) L A s → ru x = true → holds X key k → small (x :: X) → 500 ≤ aclock A < 2 ^ 63 →
  option_held X ex → set_fits (snd <$> ex) unit (aclock A) →
  wpm (setGenericCommand false false lazyfree_lazy_expire shared_del shared_unlink cmd flags key (ra x) (fst <$> ex) unit okr abr) s
    (λ _ s', ∃ y, ra y = ra x ∧ Rep None (y :: X) L
      (s_set_generic cmd flags k (rt x) (snd <$> ex) unit (default ReplyOk okr) (default ReplyNull abr) A) s').
Proof.
  intros HR Hu Hk Hn Hc He Hf. unfold setGenericCommand, s_set_generic.
  assert (option_held (x :: X) ex) as He' by (intros p Hp; right; by apply He).
  destruct (ms_ok cmd (x :: X) A L s ex unit (aclock A) HR He' ltac:(lia) Hf) as (s1 & r & E1 & H1). run E1.
  destruct (set_ms cmd (snd <$> ex) unit) as [msg|ms] eqn:Ems; [destruct H1 as [-> HR1]; last_step; by exists x|].
  destruct H1 as (-> & HR1 & Hms). specialize (Hf cmd ms Ems).
  destruct (set_test_ok (λ v, bool_decide (is_Some v)) (has_flag flags OBJ_SET_NX) _ L A s1 key k HR1 ltac:(by right) Hn) as (s2 & A2 & E2 & HR2 & HA2).
  run E2. rewrite (dict_has _ _ _ _ _ _ _ _ _ HR2).
  assert (has_flag flags OBJ_SET_NX && has k A2 = has_flag flags OBJ_SET_NX && has k (a_purge k A)) as -> by (subst A2; by destruct (has_flag _ _)).
  destruct (has_flag flags OBJ_SET_NX && has k _) eqn:Enx; cbn [orb].
  { apply andb_true_iff in Enx as [Enx _]. rewrite Enx in *. subst A2. apply wpm_bind, wpm_ret. last_step.
    exists x. split; [done|]. by apply Rep_reply. }
  destruct (set_test_ok (λ v, bool_decide (v = None)) (has_flag flags OBJ_SET_XX) _ L A2 s2 key k HR2 ltac:(by right) Hn) as (s3 & A3 & E3 & HR3 & HA3).
  run E3. assert (a_purge k A3 = a_purge k A) as HP by (subst A3 A2; destruct (has_flag _ OBJ_SET_NX), (has_flag _ OBJ_SET_XX); by rewrite ?purge_idem).
  rewrite (dict_none _ _ _ _ k HR3).
  assert (has_flag flags OBJ_SET_XX && negb (has k A3) = has_flag flags OBJ_SET_XX && negb (has k (a_purge k A))) as ->.
  { subst A3. rewrite <-HP. destruct (has_flag flags OBJ_SET_XX); [by rewrite purge_idem|done]. }
  destruct (has_flag flags OBJ_SET_XX && negb _) eqn:Exx.
  { apply andb_true_iff in Exx as [Exx _]. rewrite Exx in *. subst A3. last_step.
    exists x. split; [done|]. rewrite purge_idem in HP. rewrite HP in HR3. by apply Rep_reply. }
  destruct (setKey_ok lazyfree_lazy_expire HR3 Hk Hu Hn) as (s4 & E4 & HR4). run E4. unfold a_set in HR4. rewrite HP in HR4.
  clear E1 E2 E3 E4 HR HR1 HR2 HR3 HA2 HA3 HP A2 A3 Enx Exx. set (A4 := a_purge k A) in *.
  assert (aclock A4 = aclock A) as Hc4 by apply purge_clock. rewrite Hc4. apply wpm_modify, wpm_get. apply (Rep_dirty 1) in HR4.
  rewrite (R_clock HR4). set (X' := Ref (ra x) (rt x) false false :: X) in *. assert (holds X' key k) as Hk' by (by right).
  destruct ex as [[e et]|]; cbn [fmap option_fmap option_map fst snd] in *.
  - rewrite swrap_id by (try done; unfold in_s; change (2 ^ (64 - 1)) with (2 ^ 63); simpl; lia).
    destruct (setExpire_ok (aclock A4 + ms) HR4 Hk' ltac:(apply lookup_insert_eq) ltac:(lia)) as (s5 & E5 & HR5 & _). run E5.
    rewrite Hc4, put_later in HR5. run (notify_ok NOTIFY_STRING "set" HR5 Hk'). apply (Rep_event (NotifyKeyspaceEvent NOTIFY_STRING "set" k)) in HR5.
    run (notify_ok NOTIFY_GENERIC "expire" HR5 Hk'). apply (Rep_event (NotifyKeyspaceEvent NOTIFY_GENERIC "expire" k)) in HR5.
    apply (Rep_reply (default ReplyOk okr)) in HR5. last_step. by eexists; split; [|exact HR5].
  - apply wpm_bind, wpm_ret. run (notify_ok NOTIFY_STRING "set" HR4 Hk'). apply (Rep_event (NotifyKeyspaceEvent NOTIFY_STRING "set" k)) in HR4.
    apply wpm_bind, wpm_ret. apply (Rep_reply (default ReplyOk okr)) in HR4. last_step. by eexists; split; [|exact HR4].
Qed.

(** The first two arguments of a command are its key and its value. *)
Definition s_setnx args A : astate :=
  s_set_generic "setnx" OBJ_SET_NX (key_of args) (arg_of 2 args) None UNIT_SECONDS (ReplyInt 1) (ReplyInt 0) A.

Definition s_setex cmd unit args A : astate :=
  s_set_generic cmd OBJ_SET_NO_FLAGS (key_of args) (arg_of 3 args) (Some (arg_of 2 args)) unit ReplyOk ReplyNull A.

Definition s_set args A : astate :=
  match set_options ((λ t, (t, t)) <$> drop 3 args) OBJ_SET_NO_FLAGS UNIT_SECONDS None with
  | None => a_reply SyntaxErr A
  | Some (flags, unit, expire) => s_set_generic "set" flags (key_of args) (arg_of 2 args) expire unit ReplyOk ReplyNull A
  end.

Lemma start_at X args A s i :
  start X args A s → (i < length args)%nat → ∃ x, X !! i = Some x ∧ strong x ∧ rt x = arg_of i args.
Proof.
  intros (_ & <- & Hs & _) Hi. rewrite length_fmap in Hi. destruct (lookup_lt_is_Some_2 X i Hi) as [x Hx]. exists x.
  split; [done|]. split; [by eapply (proj1 (Forall_lookup _ _) Hs)|]. unfold arg_of. by rewrite list_lookup_fmap, Hx.
Qed.

(** The value is encoded, and the rest of the command has it and the other arguments. *)
Lemma with_value X args A s i (m : addr → M unit) B :
  start X args A s → (i < length args)%nat →
  (∀ o b s', valued i X (Ref o (arg_of i args) b true) A s' →
    wpm (m o) s' (λ _ s', ∃ y, ra y = o ∧ Rep None (y :: others i X) (<[i := o]> (ra <$> X)) B s')) →
  wpm (bind (encode_arg shared_integers maxmemory maxmemory_policy i) m) s (λ _ s', finish B s').
Proof.
  intros Hst Hi Hm. destruct (start_at X args A s i Hst Hi) as (x & Hx & Hxs & Ht). pose proof Hst as (HR & _ & _ & Hn & _).
  destruct (encode_value X A s i x HR Hx Hxs) as (s1 & o & b & E & HV). run E. rewrite Ht in HV.
  eapply wpm_mono; [by apply (Hm o b s1)|]. intros _ s' (y & <- & HR'). by eapply valued_finish.
Qed.

Lemma valued_key X args A0 s0 A s i j x :
  start X args A0 s0 → valued i X x A s → (j < length args)%nat → j ≠ i → ∃ o, arg j s = Some (o, s) ∧ holds (others i X) o (arg_of j args).
Proof.
  intros Hst HV Hj Hne. destruct (start_at X args A0 s0 j Hst Hj) as (y & Hy & [Hys _] & <-). exists (ra y). by eapply valued_arg.
Qed.

Lemma setnx_does args :
  (3 ≤ length args)%nat →
  does (setnxCommand false false lazyfree_lazy_expire shared_del shared_unlink shared_integers maxmemory maxmemory_policy) s_setnx args.
Proof.
  intros Hl X A s Hst. apply (with_value X args A s 2 _ _ Hst ltac:(lia)). intros o b s1 HV.
  destruct (valued_key X args A s A s1 2 1 _ Hst HV ltac:(lia) ltac:(done)) as (key & E1 & Hk). run E1.
  apply (set_generic_ok "setnx" OBJ_SET_NX _ _ _ A s1 key (key_of args) None UNIT_SECONDS (Some (ReplyInt 1)) (Some (ReplyInt 0)) HV); try done; [apply others_small, Hst|apply Hst|].
  intros cmd ms [= <-]. destruct Hst as (_ & _ & _ & _ & ?). lia.
Qed.

Lemma setex_generic_does cmd (unit : units) args :
  (4 ≤ length args)%nat → ∀ X A s, start X args A s → set_fits (Some (arg_of 2 args)) unit (aclock A) →
  wpm (bind (encode_arg shared_integers maxmemory maxmemory_policy 3) (λ val, bind (arg 1) (λ key, bind (arg 2) (λ expire,
    setGenericCommand false false lazyfree_lazy_expire shared_del shared_unlink cmd OBJ_SET_NO_FLAGS key val (Some expire) unit None None)))) s
    (λ _ s', finish (s_setex cmd unit args A) s').
Proof.
  intros Hl X A s Hst Hf. apply (with_value X args A s 3 _ _ Hst ltac:(lia)). intros o b s1 HV.
  destruct (valued_key X args A s A s1 3 1 _ Hst HV ltac:(lia) ltac:(done)) as (key & E1 & Hk). run E1.
  destruct (valued_key X args A s A s1 3 2 _ Hst HV ltac:(lia) ltac:(done)) as (ex & E2 & He). run E2.
  apply (set_generic_ok cmd OBJ_SET_NO_FLAGS _ _ _ A s1 key (key_of args) (Some (ex, arg_of 2 args)) unit None None HV); try done;
    [apply others_small, Hst|apply Hst|]. by intros p [= <-].
Qed.

Lemma setex_does args X A s :
  (4 ≤ length args)%nat → start X args A s → set_fits (Some (arg_of 2 args)) UNIT_SECONDS (aclock A) →
  wpm (setexCommand false false lazyfree_lazy_expire shared_del shared_unlink shared_integers maxmemory maxmemory_policy) s
    (λ _ s', finish (s_setex "setex" UNIT_SECONDS args A) s').
Proof. intros Hl. by apply (setex_generic_does "setex" UNIT_SECONDS). Qed.

Lemma psetex_does args X A s :
  (4 ≤ length args)%nat → start X args A s → set_fits (Some (arg_of 2 args)) UNIT_MILLISECONDS (aclock A) →
  wpm (psetexCommand false false lazyfree_lazy_expire shared_del shared_unlink shared_integers maxmemory maxmemory_policy) s
    (λ _ s', finish (s_setex "psetex" UNIT_MILLISECONDS args A) s').
Proof. intros Hl. by apply (setex_generic_does "psetex" UNIT_MILLISECONDS). Qed.

(** *** SET *)
Definition opt_pair (x : ref) : addr * bytes := (ra x, rt x).

Lemma arg_texts_ok Y X L A s :
  Rep None X L A s → Forall (λ x, holds X (ra x) (rt x)) Y → arg_texts (ra <$> Y) s = Some (map (on_arg ra) (map (λ x, (x, rt x)) Y), s).
Proof.
  intros HR. induction 1 as [|x Y Hx _ IH]; [done|]. rewrite fmap_cons. cbn [arg_texts map]. unfold bind at 1.
  rewrite (text_ok HR Hx). cbn [mbind option_bind]. unfold bind. by rewrite IH.
Qed.

(** The deadline that SET is asked for, if it is asked for one. *)
Definition set_command_fits args (now : Z) : Prop :=
  ∀ flags unit expire, set_options ((λ t, (t, t)) <$> drop 3 args) OBJ_SET_NO_FLAGS UNIT_SECONDS None = Some (flags, unit, expire) →
    set_fits expire unit now.

Lemma set_does args X A s :
  (3 ≤ length args)%nat → start X args A s → set_command_fits args (aclock A) →
  wpm (setCommand false false lazyfree_lazy_expire shared_del shared_unlink shared_integers maxmemory maxmemory_policy) s
    (λ _ s', finish (s_set args A) s').
Proof.
  intros Hl Hst Hf. destruct (start_weak _ _ _ X args A s Hst) as (HR & _ & _). pose proof Hst as (_ & Hargs & Hstr & Hn & Hc).
  unfold setCommand, args_from. apply wpm_bind, wpm_get, wpm_ret. rewrite (R_argv HR), <-fmap_drop.
  set (Y := drop 3 X).
  assert (Forall (λ x, holds (weak <$> X) (ra x) (rt x)) Y) as HY.
  { apply Forall_drop, Forall_forall. intros x Hx. apply holds_weak; [done|]. by apply (proj1 (Forall_forall _ _) Hstr). }
  run (arg_texts_ok Y _ _ A s HR HY). set (l := map (λ x, (x, rt x)) Y).
  assert ((λ t : bytes, (t, t)) <$> drop 3 args = map (on_arg rt) l) as Hl2.
  { rewrite <-Hargs, <-fmap_drop. fold Y. unfold l. rewrite map_map. unfold on_arg. simpl. rewrite <-list_fmap_compose. done. }
  unfold s_set, set_command_fits in *. rewrite Hl2 in *.
  rewrite (set_options_map ra (length l) l _ _ None ltac:(done) : set_options _ _ _ None = _).
  rewrite (set_options_map rt (length l) l _ _ None ltac:(done) : set_options _ _ _ None = _) in *.
  destruct (set_options l _ _ _) as [[[flags unit] ex]|] eqn:Eo; cbn [fmap option_fmap option_map on_expire fst snd];
    [|last_step; by apply (finish_weak _ _ _ X); [apply Rep_reply|]].
  apply (with_value X args A s 2 _ _ Hst ltac:(lia)). intros o b s1 HV.
  destruct (valued_key X args A s A s1 2 1 _ Hst HV ltac:(lia) ltac:(done)) as (key & E1 & Hk). run E1.
  replace (ra <$> ex) with (fst <$> (opt_pair <$> ex)) by (by destruct ex). replace (rt <$> ex) with (snd <$> (opt_pair <$> ex)) by (by destruct ex).
  apply (set_generic_ok "set" flags _ _ _ A s1 key (key_of args) (opt_pair <$> ex) unit None None HV); try done; [by apply others_small| |].
  - intros p Hp. destruct ex as [x|]; [|done]. injection Hp as <-. simpl.
    apply (set_options_in (length l)) in Eo as [|Hx]; [done| |done]. unfold l in Hx. rewrite map_map in Hx. simpl in Hx. rewrite map_id in Hx.
    apply list_elem_of_lookup_1 in Hx as (j & Hj). unfold Y in Hj. rewrite lookup_drop in Hj.
    apply (other_in 2 (3 + j)); [done|lia|]. by eapply (proj1 (Forall_lookup _ _) Hstr).
  - specialize (Hf flags unit (rt <$> ex) eq_refl). by destruct ex.
Qed.

(** ** GET *)
Definition is_other (v : option (aval * option Z)) : bool := match v with Some (AOther _, _) => true | _ => false end.

(** The value of a key goes to the client; [missing] and [wrong] are the replies when there is none of a string. *)
Definition a_value (missing wrong : reply) k A : astate :=
  match amap A !! k with
  | None => a_reply missing A
  | Some (AOther _, _) => a_reply wrong A
  | Some (AStr t, _) => a_bulk t A
  end.

Definition s_get args A : astate := a_value ReplyNull WrongTypeErr (key_of args) (a_purge (key_of args) A).

Lemma get_generic_ok X L A s key k :
  Rep None X L A s → arg 1 s = Some (key, s) → holds X key k → small X →
  ∃ s', getGenericCommand false false readonly_client lazyfree_lazy_expire shared_del shared_unlink s =
      Some (negb (is_other (amap (a_purge k A) !! k)), s') ∧
    Rep None X L (a_value ReplyNull WrongTypeErr k (a_purge k A)) s'.
Proof.
  intros HR Ea Hk Hn. unfold getGenericCommand, lookupKeyReadOrReply, bind, ret. rewrite Ea. cbn [mbind option_bind].
  destruct (lookupR_ok readonly_client lazyfree_lazy_expire HR Hk Hn) as (s1 & -> & HR1). cbn [mbind option_bind].
  unfold a_value. pose proof (value_cases k HR1) as Hv. destruct (amap _ !! k) as [[[t|ty] dl]|]; cbn [is_other negb].
  - destruct Hv as (o & -> & Ht & _). cbn [mbind option_bind]. rewrite (addReplyBulk_ok s1 o t Ht). cbn [mbind option_bind].
    eexists. split; [done|]. by apply Rep_bulk.
  - rewrite Hv. cbn [mbind option_bind]. eexists. split; [done|]. by apply Rep_reply.
  - rewrite Hv. eexists. split; [done|]. by apply Rep_reply.
Qed.

Lemma get_does args :
  (2 ≤ length args)%nat → does (getCommand false false readonly_client lazyfree_lazy_expire shared_del shared_unlink) s_get args.
Proof.
  intros Hl X A s Hst. destruct (start_weak _ _ _ X args A s Hst) as (HR & _ & Hn).
  destruct (key_arg _ _ _ X args A s Hst Hl) as (key & Ea & Hk). unfold getCommand.
  destruct (get_generic_ok _ _ A s key _ HR Ea Hk Hn) as (s1 & E1 & HR1). run E1. last_step.
  apply (finish_weak _ _ _ X); [done|apply Hst].
Qed.

(** SET without options once the command knows that it runs. *)
Definition a_store k t A : astate := a_event (NotifyKeyspaceEvent NOTIFY_STRING "set" k) (a_set lazyfree_lazy_expire k t A).

Definition s_getset args A : astate :=
  let A := a_purge (key_of args) A in
  let A' := a_value ReplyNull WrongTypeErr (key_of args) A in
  if is_other (amap A !! key_of args) then A' else a_dirty 1 (a_store (key_of args) (arg_of 2 args) A').

(** The key is looked up, and the other arguments are still the command's only. *)
Lemma start_key X args A s :
  start X args A s → (2 ≤ length args)%nat →
  let Y := alter weak 1%nat X in
  Rep None Y (ra <$> Y) A s ∧ (∃ key, arg 1 s = Some (key, s) ∧ holds Y key (key_of args) ∧ holds (weak <$> X) key (key_of args) ∧
    ∀ i, i ≠ 1%nat → holds (others i X) key (key_of args)) ∧ small Y ∧ tiny Y ∧
  (∀ i, (i < length args)%nat → i ≠ 1%nat → ∃ y, Y !! i = Some y ∧ strong y ∧ rt y = arg_of i args) ∧
  weak <$> Y = weak <$> X ∧ ra <$> Y = ra <$> X.
Proof.
  intros Hst Hl Y. pose proof Hst as (HR & Hargs & Hs & Hn & _). destruct (start_at X args A s 1 Hst ltac:(lia)) as (x & Hx & [Hx1 _] & Ht).
  assert (weak <$> Y = weak <$> X) as HW.
  { apply list_eq. intros i. unfold Y. rewrite !list_lookup_fmap. destruct (decide (i = 1%nat)) as [->|Hi]; [|by rewrite list_lookup_alter_ne].
    rewrite list_lookup_alter_eq, Hx. done. }
  assert (ra <$> Y = ra <$> X) as HA.
  { assert (ra <$> (weak <$> Y) = ra <$> (weak <$> X)) as HWA by (by rewrite HW). by rewrite <-!list_fmap_compose in HWA. }
  assert (tiny Y) as HT by (unfold tiny, zlen, Y in *; by rewrite length_alter).
  split_and!; [|exists (ra x); split_and!| |done| |done|done].
  - rewrite HA. eapply Rep_weaker; [exact HR|]. apply Forall2_same_length_lookup_2; [apply length_alter|]. intros i y z Hy Hz. unfold Y in Hy.
    destruct (decide (i = 1%nat)) as [->|Hi].
    + rewrite list_lookup_alter_eq, Hz in Hy. injection Hy as <-. apply weak_weaker.
    + rewrite list_lookup_alter_ne in Hy by done. simplify_eq. apply weaker_refl.
  - eapply arg_at; [exact HR|]. by rewrite list_lookup_fmap, Hx.
  - unfold holds. apply list_elem_of_lookup_2 with 1%nat. unfold Y. rewrite list_lookup_alter_eq, Hx. simpl. unfold weak. rewrite Hx1. by rewrite Ht.
  - unfold key_of. fold (arg_of 1 args). rewrite <-Ht. apply holds_weak; [|done]. by apply list_elem_of_lookup_2 with 1%nat.
  - intros i Hi. unfold key_of. fold (arg_of 1 args). rewrite <-Ht. by apply (other_in i 1).
  - by apply tiny_small0.
  - intros i Hi Hne. destruct (start_at X args A s i Hst Hi) as (y & Hy & ? & ?). exists y. split; [|done]. unfold Y. by rewrite list_lookup_alter_ne.
Qed.

Lemma getset_does args :
  (3 ≤ length args)%nat →
  does (getsetCommand false false readonly_client lazyfree_lazy_expire shared_del shared_unlink shared_integers maxmemory maxmemory_policy) s_getset args.
Proof.
  intros Hl X A s Hst. destruct (start_key X args A s Hst ltac:(lia)) as (HR & (key & Ea & Hk & _) & Hn & Ht & Hother & HW & HA).
  set (Y := alter weak 1%nat X) in *. unfold getsetCommand, s_getset.
  destruct (get_generic_ok _ _ A s key _ HR Ea Hk Hn) as (s1 & E1 & HR1). run E1.
  set (A1 := a_value _ _ _ _) in *. destruct (is_other _); cbn [negb].
  { last_step. exists Y, (ra <$> Y). by split_and!. }
  destruct (Hother 2%nat ltac:(lia) ltac:(done)) as (y & Hy & Hys & Hyt).
  destruct (encode_value Y A1 s1 2 y HR1 Hy Hys) as (s2 & o & b & E2 & HV). run E2. rewrite Hyt in HV.
  unfold valued, others in HV. rewrite HW, HA in HV. fold (others 2 X) in HV.
  destruct (valued_key X args A s A1 s2 2 1 (Ref o (arg_of 2 args) b true) Hst HV ltac:(lia) ltac:(done)) as (key' & E3 & Hk'). run E3.
  destruct (setKey_ok lazyfree_lazy_expire HV Hk' eq_refl ltac:(apply others_small, Hst)) as (s3 & E4 & HR4). run E4. cbn [ra rt] in *.
  run (notify_ok NOTIFY_STRING "set" HR4 ltac:(by right)). apply (Rep_event (NotifyKeyspaceEvent NOTIFY_STRING "set" (key_of args))) in HR4.
  apply (Rep_dirty 1) in HR4. last_step. destruct (start_at X args A s 2 Hst ltac:(lia)) as (x & Hx & _).
  apply (valued_finish 2 X (Ref o (arg_of 2 args) false false) x); [exact HR4|done|apply Hst].
Qed.

(** ** Several keys *)
Definition s_mget_one k A : astate := a_value ReplyNull ReplyNull k (a_purge k A).

Definition s_mget args A : astate := a_each s_mget_one (drop 1 args) (a_reply (ReplyMultiBulkLen (zlen (drop 1 args))) A).

Lemma mget_one_ok X L A s key k :
  small X → Rep None X L A s → holds X key k →
  ∃ s', mget_one false false readonly_client lazyfree_lazy_expire shared_del shared_unlink key s = Some (tt, s') ∧
    Rep None X L (s_mget_one k A) s'.
Proof.
  intros Hn HR Hk. unfold mget_one, bind. destruct (lookupR_ok readonly_client lazyfree_lazy_expire HR Hk Hn) as (s1 & -> & HR1).
  cbn [mbind option_bind]. unfold s_mget_one, a_value. pose proof (value_cases k HR1) as Hv. destruct (amap _ !! k) as [[[t|ty] dl]|].
  - destruct Hv as (o & -> & Ht & _). rewrite (addReplyBulk_ok s1 o t Ht). eexists. split; [done|]. by apply Rep_bulk.
  - rewrite Hv. eexists. split; [done|]. by apply Rep_reply.
  - rewrite Hv. eexists. split; [done|]. by apply Rep_reply.
Qed.

Lemma mget_does args : does (mgetCommand false false readonly_client lazyfree_lazy_expire shared_del shared_unlink) s_mget args.
Proof.
  intros X A s Hst. destruct (start_weak _ _ _ X args A s Hst) as (HR & _ & Hn). destruct (args_from_ok _ _ _ X args A s 1 Hst) as (keys & E & HF).
  unfold mgetCommand. run E. apply wpm_modify. unfold s_mget. replace (zlen keys) with (zlen (drop 1 args)) by (unfold zlen; by rewrite (Forall2_length _ _ _ HF)).
  destruct (each_ok _ _ _ _ s_mget_one _ _ keys _ (λ A s key k, mget_one_ok _ _ A s key k Hn) HF _ _ (Rep_reply (ReplyMultiBulkLen (zlen (drop 1 args))) HR)) as (s1 & E1 & HR1).
  stop E1. apply (finish_weak _ _ _ X); [done|apply Hst].
Qed.

(** *** MSET *)
Fixpoint a_mset (l : list bytes) A : astate := match l with k :: v :: l => a_mset l (a_store k v A) | _ => A end.

Definition s_mset (nx : bool) args A : astate :=
  if zlen args mod 2 =? 0 then a_reply (ReplyError "wrong number of arguments for MSET") A else
  let '(A, busy) := if nx then a_total (s_count_one lazyfree_lazy_expire) (evens (drop 1 args)) A else (A, 0) in
  if negb (busy =? 0) then a_reply (ReplyInt 0) A else
  a_reply (if nx then ReplyInt 1 else ReplyOk) (a_dirty ((zlen args - 1) / 2) (a_mset (drop 1 args) A)).

(** All arguments are strings, and those at even places are the command's only. *)
Definition paired (j : nat) Y : Prop := ∀ i y, (j ≤ i)%nat → Y !! i = Some y → rs y = true ∧ (Nat.even i = true → ru y = true).

Definition keys_weak X : list ref := imap (λ i x, if Nat.even i then x else weak x) X.

Lemma keys_weak_lookup X i : keys_weak X !! i = (λ x, if Nat.even i then x else weak x) <$> X !! i.
Proof. unfold keys_weak. by rewrite list_lookup_imap. Qed.

Lemma start_pairs X args A s :
  start X args A s → let Y := keys_weak X in
  Rep None Y (ra <$> Y) A s ∧ rt <$> Y = args ∧ tiny Y ∧ paired 0 Y ∧
  Forall2 (holds Y) (evens (drop 1 (ra <$> Y))) (evens (drop 1 args)).
Proof.
  intros (HR & Hargs & Hs & Hn & _) Y.
  assert (∀ B (f : ref → B), (∀ x, f (weak x) = f x) → f <$> Y = f <$> X) as Hf.
  { intros B f Hw. apply list_eq. intros i. rewrite !list_lookup_fmap. unfold Y. rewrite keys_weak_lookup. destruct (X !! i); [|done].
    cbn [fmap option_fmap option_map]. destruct (Nat.even i); [done|by rewrite Hw]. }
  pose proof (Hf _ ra ltac:(done)) as HA. pose proof (Hf _ rt ltac:(done)) as HT. rewrite Hargs in HT.
  assert (paired 0 Y) as HP.
  { intros i y _ Hy. unfold Y in Hy. rewrite keys_weak_lookup in Hy. destruct (X !! i) as [x|] eqn:Hx; [|done]. injection Hy as <-.
    destruct (proj1 (Forall_lookup _ _) Hs i x Hx). by destruct (Nat.even i). }
  split; [rewrite HA; eapply Rep_weaker; [exact HR|]|split; [done|]; split; [|split; [done|]]].
  - apply Forall2_same_length_lookup_2; [apply length_imap|]. intros i y x Hy Hx. unfold Y in Hy. rewrite keys_weak_lookup, Hx in Hy.
    injection Hy as <-. destruct (Nat.even i); [apply weaker_refl|apply weak_weaker].
  - unfold tiny, zlen, Y, keys_weak in *. by rewrite length_imap.
  - rewrite <-HT, <-!fmap_drop, !evens_fmap, Forall2_fmap. apply Forall_Forall2_diag, Forall_forall. intros y Hy.
    apply evens_in in Hy as (i & Hi & Hev). rewrite lookup_drop in Hi. pose proof Hi as Hi'. unfold Y in Hi'. rewrite keys_weak_lookup in Hi'.
    destruct (X !! (1 + i)%nat) as [x|] eqn:Hx; [|done]. cbn [fmap option_fmap option_map] in Hi'.
    apply (inj Some) in Hi'. rewrite Nat.even_add, Hev in Hi'. cbn [Nat.even eqb Bool.eqb] in Hi'. destruct (HP _ _ ltac:(lia) Hi) as [Hys _].
    apply (list_elem_of_lookup_2 _ (1 + i)). rewrite Hi, <-Hi'. rewrite <-Hi' in Hys. unfold weak in *. simpl in *. by rewrite Hys.
Qed.

(** One pair: the value is encoded and goes to the key. *)
Lemma pair_ok j Y A s :
  Rep None Y (ra <$> Y) A s → tiny Y → paired j Y → Nat.even (j + 1) = true → (j + 1 < length Y)%nat →
  ∃ s1 s2 s3 o key Y' k v, encode_arg shared_integers maxmemory maxmemory_policy (j + 1) s = Some (o, s1) ∧ arg j s1 = Some (key, s1) ∧
    setKey false false lazyfree_lazy_expire shared_del shared_unlink key o s1 = Some (tt, s2) ∧
    notifyKeyspaceEvent NOTIFY_STRING "set" key s2 = Some (tt, s3) ∧
    Rep None Y' (ra <$> Y') (a_store k v A) s3 ∧ tiny Y' ∧ paired (j + 2) Y' ∧ rt <$> Y' = rt <$> Y ∧
    drop j (rt <$> Y) = k :: v :: drop (j + 2) (rt <$> Y).
Proof.
  intros HR Hn HP He Hl. destruct (lookup_lt_is_Some_2 Y (j + 1) Hl) as [x Hx]. destruct (lookup_lt_is_Some_2 Y j ltac:(lia)) as [y Hy].
  destruct (HP (j + 1)%nat x ltac:(lia) Hx) as [Hxs Hxu]. specialize (Hxu He). destruct (HP j y ltac:(lia) Hy) as [Hys _].
  assert (x = Ref (ra x) (rt x) true true) as Hxe by (destruct x; simpl in *; congruence). pose proof Hx as Hx'. rewrite Hxe in Hx'.
  destruct (encode_at Y A s (j + 1) _ _ HR Hx') as (s1 & o & b & E1 & HR1). set (Y1 := <[(j + 1)%nat := _]> Y) in *.
  set (Y2 := <[j := weak y]> Y1). assert (Y1 !! j = Some y) as Hy1 by (unfold Y1; rewrite list_lookup_insert_ne by lia; done).
  assert (ra <$> Y2 = ra <$> Y1) as HA2 by (unfold Y2; rewrite list_fmap_insert; apply list_insert_id; by rewrite list_lookup_fmap, Hy1).
  assert (Y2 !! (j + 1)%nat = Some (Ref o (rt x) b true)) as Hx2.
  { unfold Y2, Y1. rewrite list_lookup_insert_ne by lia. by apply list_lookup_insert_eq. }
  assert (Y2 !! j = Some (Ref (ra y) (rt y) true false)) as Hy2.
  { unfold Y2. rewrite list_lookup_insert_eq by (by eapply lookup_lt_Some). unfold weak. by rewrite Hys. }
  assert (Rep None Y2 (ra <$> Y2) A s1) as HR2.
  { rewrite HA2. eapply Rep_weaker; [exact HR1|]. unfold Y2. rewrite <-(list_insert_id Y1 j y) at 2 by done.
    apply Forall2_insert; [|apply weak_weaker]. apply Forall_Forall2_diag, Forall_forall. intros z _. apply weaker_refl. }
  assert (tiny Y2) as Hn2 by (unfold tiny, zlen, Y2, Y1 in *; by rewrite !length_insert).
  assert (holds (delete (j + 1)%nat Y2) (ra y) (rt y)) as Hk.
  { apply (list_elem_of_lookup_2 _ j). by rewrite list_lookup_delete_lt by lia. }
  destruct (setKey_ok lazyfree_lazy_expire (Rep_perm _ _ _ _ _ _ _ _ _ HR2 (delete_Permutation _ _ _ Hx2)) Hk eq_refl) as (s2 & E2 & HR3).
  { unfold tiny, small in *. unfold zlen in *. rewrite <-(delete_Permutation _ _ _ Hx2). change (2 ^ 28) with 268435456 in Hn2. change (2 ^ 29) with 536870912. lia. }
  simpl in E2. cbn [ra rt] in HR3. set (Y3 := <[(j + 1)%nat := Ref o (rt x) false false]> Y2).
  apply (Rep_perm _ _ _ _ _ Y3) in HR3; [|symmetry; by apply (insert_perm _ _ _ _ Hx2)].
  assert (ra <$> Y3 = ra <$> Y2) as HA3 by (unfold Y3; rewrite list_fmap_insert; apply list_insert_id; by rewrite list_lookup_fmap, Hx2).
  rewrite <-HA3 in HR3.
  assert (rt <$> Y3 = rt <$> Y) as HT3.
  { unfold Y3, Y2, Y1. rewrite !list_fmap_insert. cbn [rt weak]. rewrite (list_insert_id (rt <$> Y) (j + 1)) by (by rewrite list_lookup_fmap, Hx).
    rewrite (list_insert_id (rt <$> Y) j) by (by rewrite list_lookup_fmap, Hy). apply list_insert_id. by rewrite list_lookup_fmap, Hx. }
  exists s1, s2, (add_event (NotifyKeyspaceEvent NOTIFY_STRING "set" (rt y)) s2), o, (ra y), Y3, (rt y), (rt x). split_and!; [done| |done| |by apply Rep_event| | |done|].
  - eapply arg_at; [exact HR1|]. by rewrite list_lookup_fmap, Hy1.
  - apply (notify_ok NOTIFY_STRING "set" HR3). apply (list_elem_of_lookup_2 _ j). unfold Y3. by rewrite list_lookup_insert_ne by lia.
  - unfold tiny, zlen, Y3 in *. by rewrite length_insert.
  - intros i z Hi Hz. unfold Y3, Y2, Y1 in Hz. rewrite !list_lookup_insert_ne in Hz by lia. apply (HP i z); [lia|done].
  - rewrite (drop_S _ (rt y) j) by (by rewrite list_lookup_fmap, Hy). f_equal.
    rewrite (drop_S _ (rt x) (S j)) by (rewrite list_lookup_fmap; replace (S j) with (j + 1)%nat by lia; by rewrite Hx). do 2 f_equal. lia.
Qed.

Lemma mset_loop_ok n : ∀ j Y A s,
  Rep None Y (ra <$> Y) A s → tiny Y → paired j Y → Nat.even (j + 1) = true → (j + 2 * n = length Y)%nat →
  ∃ s' Y', mset_loop false false lazyfree_lazy_expire shared_del shared_unlink shared_integers maxmemory maxmemory_policy n j s = Some (tt, s') ∧
    Rep None Y' (ra <$> Y') (a_mset (drop j (rt <$> Y)) A) s' ∧ tiny Y'.
Proof.
  induction n as [|n IH]; intros j Y A s HR Hn HP He Hl.
  - exists s, Y. rewrite drop_ge by (rewrite length_fmap; lia). done.
  - destruct (pair_ok j Y A s HR Hn HP He ltac:(lia)) as (s1 & s2 & s3 & o & key & Y1 & k & v & E1 & E2 & E3 & E4 & HR1 & Hn1 & HP1 & HT & Hd).
    destruct (IH (j + 2)%nat Y1 _ s3 HR1 Hn1 HP1) as (s4 & Y2 & E5 & HR2 & Hn2).
    { rewrite <-He, !Nat.even_add. by destruct (Nat.even j). }
    { rewrite <-(length_fmap rt), HT, length_fmap. lia. }
    exists s4, Y2. rewrite HT in HR2. rewrite Hd. split; [|done]. cbn [mset_loop]. unfold bind. rewrite E1. cbn [mbind option_bind]. rewrite E2. cbn [mbind option_bind].
    rewrite E3. cbn [mbind option_bind]. rewrite E4. done.
Qed.

Lemma busy_one_ok X L A s key k :
  small X → Rep None X L A s → holds X key k →
  ∃ s', busy_one false false lazyfree_lazy_expire shared_del shared_unlink key s = Some ((s_count_one lazyfree_lazy_expire k A).2, s') ∧
    Rep None X L (s_count_one lazyfree_lazy_expire k A).1 s'.
Proof.
  intros Hn HR Hk. unfold busy_one, bind. destruct (lookupW_ok lazyfree_lazy_expire HR Hk Hn) as (s1 & -> & HR1 & _).
  cbn [mbind option_bind ret]. rewrite (dict_has _ _ _ _ _ _ _ _ _ HR1). by exists s1.
Qed.

Lemma mset_does (nx : bool) args :
  does (msetGenericCommand false false lazyfree_lazy_expire shared_del shared_unlink shared_integers maxmemory maxmemory_policy nx) (s_mset nx) args.
Proof.
  intros X A s Hst. destruct (start_pairs X args A s Hst) as (HR & HT & Hn & HP & HK). set (Y := keys_weak X) in *.
  unfold msetGenericCommand, s_mset. apply wpm_get. rewrite (R_argv HR).
  assert (zlen (ra <$> Y) = zlen args) as Hz by (rewrite <-HT; unfold zlen; by rewrite !length_fmap). rewrite Hz.
  destruct (Z.eqb_spec (zlen args mod 2) 0) as [Hev|Hodd].
  { last_step. exists Y, (ra <$> Y). split; [by apply Rep_reply|]. split; [done|by apply tiny_small0]. }
  assert (∃ s1 A1 n1, (if nx then total (busy_one false false lazyfree_lazy_expire shared_del shared_unlink) (evens (drop 1 (ra <$> Y))) else ret 0) s = Some (n1, s1) ∧
    Rep None Y (ra <$> Y) A1 s1 ∧ (if nx then a_total (s_count_one lazyfree_lazy_expire) (evens (drop 1 args)) A else (A, 0)) = (A1, n1)) as (s1 & A1 & n1 & E1 & HR1 & ->).
  { destruct nx; [|by exists s, A, 0].
    destruct (total_ok _ _ _ _ (s_count_one lazyfree_lazy_expire) _ _ _ _ (λ A s key k, busy_one_ok _ _ A s key k (tiny_small0 _ Hn)) HK A s HR) as (s1 & E1 & HR1).
    exists s1, (a_total (s_count_one lazyfree_lazy_expire) (evens (drop 1 args)) A).1, (a_total (s_count_one lazyfree_lazy_expire) (evens (drop 1 args)) A).2.
    split_and!; [done|done|by destruct (a_total _ _ _)]. }
  run E1. destruct (negb (n1 =? 0)).
  { last_step. exists Y, (ra <$> Y). split; [by apply Rep_reply|]. split; [done|by apply tiny_small0]. }
  destruct (mset_loop_ok (Z.to_nat ((zlen args - 1) / 2)) 1 Y A1 s1 HR1 Hn) as (s2 & Y2 & E2 & HR2 & Hn2).
  { intros i y _ Hy. apply (HP i y); [lia|done]. } { done. }
  { pose proof (Z.mod_pos_bound (zlen args) 2). assert (length Y = length args) as -> by (rewrite <-HT; by rewrite length_fmap).
    unfold zlen in *. pose proof (Z.div_mod (Z.of_nat (length args)) 2). Z.to_euclidean_division_equations. lia. }
  run E2. apply wpm_modify. last_step. exists Y2, (ra <$> Y2). rewrite HT in HR2. split; [by apply Rep_reply, Rep_dirty|]. split; [done|by apply tiny_small0].
Qed.
End StringCommands.
