(* ===== verification/StringEdit.v ===== *)
(** * Strings that are edited

    What STRLEN, GETRANGE, APPEND, SETRANGE and the counters do to a finite map, and
    that the commands of t_string.c do it: a value that is shared is copied first,
    one that is not is changed in place. *)

From Stdlib Require Import String.
From S2P Require Import Prelude.
From S2P Require Import Mem.
From S2P Require Import Util.
From S2P Require Import Sds.
From S2P Require Import SdsSpec.
From S2P Require Import SdsRefine.
From S2P Require Import Object.
From S2P Require Import ObjectSpec.
From S2P Require Import Keyspace.
From S2P Require Import StringType.
From S2P Require Import KeyspaceSpec.
From S2P Require Import KeyspaceOps.
From S2P Require Import KeyCommands.
From S2P Require Import StringCommands.
Import Object Keyspace StringType.

#[local] Notation addr := positive.
#[local] Notation length := Datatypes.length.

Section StringEdit.
Context `{Alloc} (shared_integers : Z → addr) (maxmemory maxmemory_policy : Z).
Context (readonly_client lazyfree_lazy_expire : bool) (shared_del shared_unlink : addr).

#[local] Notation Rep := (Rep shared_integers shared_del shared_unlink).
#[local] Notation start := (start shared_integers shared_del shared_unlink).
#[local] Notation finish := (finish shared_integers shared_del shared_unlink).
#[local] Notation does := (does shared_integers shared_del shared_unlink).
#[local] Notation a_purge := (a_purge lazyfree_lazy_expire).

Implicit Types (X Y : list ref) (L : list addr) (A : astate) (s : state) (args : list bytes).

(** The value of a key for a command that wants a string. *)
Inductive found := FNone | FOther | FStr (t : bytes) (dl : option Z).
Definition find k A : found :=
  match amap A !! k with None => FNone | Some (AOther _, _) => FOther | Some (AStr t, dl) => FStr t dl end.

Lemma key_find_ok dup X L A s k :
  Rep dup X L A s →
  match find k A with
  | FNone => dict s !! k = None ∧ amap A !! k = None
  | FOther => ∃ ty, dict s !! k = Some (VOther ty)
  | FStr t dl => ∃ o, dict s !! k = Some (VString o) ∧ txt (objs s) o t ∧ 0 < refs (dict s) o ∧ amap A !! k = Some (AStr t, dl)
  end.
Proof.
  intros HR. pose proof (value_cases k HR) as Hv. unfold find. destruct (amap A !! k) as [[[t|ty] dl]|]; [naive_solver|by exists ty|done].
Qed.

(** ** STRLEN *)
Definition s_strlen args A : astate :=
  let A := a_purge (key_of args) A in
  a_reply (match find (key_of args) A with FNone => ReplyInt 0 | FOther => WrongTypeErr | FStr t _ => ReplyInt (zlen t) end) A.

Lemma strlen_does args :
  (2 ≤ length args)%nat → does (strlenCommand false false readonly_client lazyfree_lazy_expire shared_del shared_unlink) s_strlen args.
Proof.
  intros Hl X A s Hst. destruct (start_weak _ _ _ X args A s Hst) as (HR & _ & Hn).
  destruct (key_arg _ _ _ X args A s Hst Hl) as (key & Ea & Hk). unfold strlenCommand, lookupKeyReadOrReply. run Ea.
  apply wpm_bind. destruct (lookupR_ok readonly_client lazyfree_lazy_expire HR Hk Hn) as (s1 & E1 & HR1). run E1. unfold s_strlen.
  pose proof (key_find_ok _ _ _ _ _ (key_of args) HR1) as Hv. destruct (find _ _) as [| |t dl].
  - destruct Hv as [-> _]. last_step. apply wpm_ret. apply (finish_weak _ _ _ X); [by apply Rep_reply|apply Hst].
  - destruct Hv as [ty ->]. apply wpm_bind, wpm_ret, wpm_ret. last_step. apply (finish_weak _ _ _ X); [by apply Rep_reply|apply Hst].
  - destruct Hv as (o & -> & Ht & _). apply wpm_bind, wpm_ret, wpm_ret, wpm_bind, wpm_ret. apply wpm_get.
    eapply wpm_lift; [by apply strlen_ok|]. last_step. apply (finish_weak _ _ _ X); [by apply Rep_reply|apply Hst].
Qed.

(** ** GETRANGE *)

(** The bytes from [start] to [stop], both counted from the end when negative. *)
Definition range_of (t : bytes) (start stop : Z) : bytes :=
  let len := zlen t in
  if (start <? 0) && (stop <? 0) && (start >? stop) then [] else
  let start := Z.max 0 (if start <? 0 then len + start else start) in
  let stop := Z.min (len - 1) (Z.max 0 (if stop <? 0 then len + stop else stop)) in
  take (Z.to_nat (stop - start + 1)) (drop (Z.to_nat start) t).

Definition s_getrange args A : astate :=
  match Util.string2ll (arg_of 2 args), Util.string2ll (arg_of 3 args) with
  | Some start, Some stop =>
      let A := a_purge (key_of args) A in
      match find (key_of args) A with
      | FNone => a_reply ReplyEmptyBulk A
      | FOther => a_reply WrongTypeErr A
      | FStr t _ => match range_of t start stop with [] => a_reply ReplyEmptyBulk A | c => a_bulk c A end
      end
  | _, _ => a_reply (ReplyError not_integer) A
  end.

Lemma range_chars_ok s o t : txt (objs s) o t → range_chars o s = Some (t, s).
Proof.
  intros (r & Hr & Ht & Hw & Hl). unfold range_chars, bind, get, lift. cbn [mbind option_bind]. rewrite Hr. cbn [mbind option_bind].
  destruct (sdsEncodedObject r) eqn:E.
  - assert (ptr_text o s = Some (t, s)) as Hp by (apply (good_ptr s o t false); exists r; by split_and!).
    unfold sdsEncodedObject in E. by destruct (encoding r).
  - destruct (obj_long r t Ht E) as (n & -> & -> & Hn & ->). cbn [mbind option_bind].
    destruct (number_text 32 n Hn ltac:(lia)) as (rest & ->). cbn [mbind option_bind fst snd]. by rewrite load_prefix.
Qed.

Lemma load_range (t : bytes) i n : 0 ≤ i → 0 ≤ n → i + n ≤ zlen t → load t i n = Some (take (Z.to_nat n) (drop (Z.to_nat i) t)).
Proof.
  intros Hi Hn Ht. unfold zlen in Ht. apply (load_at _ (take (Z.to_nat i) t) _ (drop (Z.to_nat n) (drop (Z.to_nat i) t))).
  - by rewrite take_drop, take_drop.
  - unfold zlen. rewrite length_take. lia.
  - unfold zlen. rewrite length_take, length_drop. lia.
Qed.

Lemma getrange_end_ok X L A s t start stop :
  Rep None X L A s → in_s 64 start → in_s 64 stop → zlen t ≤ MAXLEN →
  ∃ s', getrange_end t start stop s = Some (tt, s') ∧
    Rep None X L (match range_of t start stop with [] => a_reply ReplyEmptyBulk A | c => a_bulk c A end) s'.
Proof.
  intros HR H1 H2 Hl. unfold getrange_end, range_of. destruct (_ && _ && _); [eexists; split; [done|by apply Rep_reply]|].
  unfold in_s in H1, H2. change (2 ^ (64 - 1)) with 9223372036854775808 in H1, H2. unfold MAXLEN in Hl. zlen_pos.
  assert (∀ v, -9223372036854775808 ≤ v < 9223372036854775808 →
    (if (if v <? 0 then swrap 64 (zlen t + v) else v) <? 0 then 0 else (if v <? 0 then swrap 64 (zlen t + v) else v)) =
    Z.max 0 (if v <? 0 then zlen t + v else v)) as Hw.
  { intros v Hv. destruct (Z.ltb_spec v 0); [|destruct (Z.ltb_spec v 0); lia].
    rewrite swrap_id by (try done; unfold in_s; change (2 ^ (64 - 1)) with 9223372036854775808; lia). destruct (Z.ltb_spec (zlen t + v) 0); lia. }
  rewrite !Hw by done. set (a := Z.max 0 _). set (b := Z.max 0 _). clear Hw.
  assert ((if b >=? zlen t then swrap 64 (zlen t - 1) else b) = Z.min (zlen t - 1) b) as ->.
  { rewrite Z.geb_leb. destruct (Z.leb_spec (zlen t) b); [|lia].
    rewrite swrap_id by (try done; unfold in_s; change (2 ^ (64 - 1)) with 9223372036854775808; lia). lia. }
  set (e := Z.min _ b). rewrite Z.gtb_ltb. destruct (Z.ltb_spec e a) as [Hlt|Hge]; cbn [orb].
  { replace (Z.to_nat (e - a + 1)) with 0%nat by lia. eexists. split; [done|]. by apply Rep_reply. }
  destruct (Z.eqb_spec (zlen t) 0) as [Hz|Hz].
  { apply zlen_0_nil in Hz as ->. rewrite drop_nil, take_nil. eexists. split; [done|]. by apply Rep_reply. }
  unfold bind, lift. rewrite load_range by lia. cbn [mbind option_bind].
  set (c := take _ _). assert (zlen c = e - a + 1) as Hc by (unfold c, zlen in *; rewrite length_take, length_drop; lia).
  destruct c as [|x c]; [change (zlen []) with 0 in Hc; lia|]. eexists. split; [done|]. by apply Rep_bulk.
Qed.

Lemma getrange_does args :
  (4 ≤ length args)%nat → does (getrangeCommand false false readonly_client lazyfree_lazy_expire shared_del shared_unlink) s_getrange args.
Proof.
  intros Hl X A s Hst. destruct (start_weak _ _ _ X args A s Hst) as (HR & _ & Hn). assert (tiny X) as Htn by apply Hst.
  destruct (key_arg _ _ _ X args A s Hst ltac:(lia)) as (key & Ea & Hk).
  destruct (nth_arg _ _ _ X args A s 2 Hst ltac:(lia)) as (a2 & Ea2 & Hk2), (nth_arg _ _ _ X args A s 3 Hst ltac:(lia)) as (a3 & Ea3 & Hk3).
  unfold getrangeCommand, s_getrange. run Ea. run Ea2. run Ea3.
  pose proof (getLL_ok s a2 _ None (Rep_txt HR Hk2)) as E2. pose proof (getLL_ok s a3 _ None (Rep_txt HR Hk3)) as E3.
  destruct (Util.string2ll (arg_of 2 args)) as [start|] eqn:Es; run E2; [|apply wpm_ret; apply (finish_weak _ _ _ X); [by apply Rep_reply|done]].
  destruct (Util.string2ll (arg_of 3 args)) as [stop|] eqn:Ep; run E3; [|apply wpm_ret; apply (finish_weak _ _ _ X); [by apply Rep_reply|done]].
  unfold lookupKeyReadOrReply. apply wpm_bind. destruct (lookupR_ok readonly_client lazyfree_lazy_expire HR Hk Hn) as (s1 & E1 & HR1). run E1.
  pose proof (key_find_ok _ _ _ _ _ (key_of args) HR1) as Hv. destruct (find _ _) as [| |t dl].
  - destruct Hv as [-> _]. last_step. apply wpm_ret. apply (finish_weak _ _ _ X); [by apply Rep_reply|done].
  - destruct Hv as [ty ->]. apply wpm_bind, wpm_ret, wpm_ret. last_step. apply (finish_weak _ _ _ X); [by apply Rep_reply|done].
  - destruct Hv as (o & -> & Ht & _). apply wpm_bind, wpm_ret, wpm_ret, wpm_bind, wpm_ret. run (range_chars_ok s1 o t Ht).
    destruct (getrange_end_ok _ _ _ s1 t start stop HR1) as (s2 & E4 & HR4); [by eapply Util.string2ll_sound..|by destruct Ht as (r & _ & _ & _ & ?)|].
    stop E4. by apply (finish_weak _ _ _ X).
Qed.

(** ** A string is changed *)
Definition a_changed (name : string) k A : astate :=
  a_dirty 1 (a_event (NotifyKeyspaceEvent NOTIFY_STRING name k) (a_event (SignalModifiedKey k) A)).

Lemma string_changed_ok {B} (name : string) X L A s key k (m : M B) Q :
  Rep None X L A s → holds X key k →
  (∀ s', Rep None X L (a_changed name k A) s' → objs s' = objs s → wpm m s' Q) →
  wpm (bind (signalModifiedKey key) (λ _, bind (notifyKeyspaceEvent NOTIFY_STRING name key) (λ _, bind (modify (add_dirty 1)) (λ _, m)))) s Q.
Proof.
  intros HR Hk Hm. run (signal_ok HR Hk). apply (Rep_event (SignalModifiedKey k)) in HR. run (notify_ok NOTIFY_STRING name HR Hk).
  apply wpm_modify. apply Hm; [|done]. by apply Rep_dirty, Rep_event.
Qed.

Lemma changed_last (name : string) X L A s key k Q :
  Rep None X L A s → holds X key k → (∀ s', Rep None X L (a_changed name k A) s' → objs s' = objs s → Q tt s') →
  wpm (bind (signalModifiedKey key) (λ _, bind (notifyKeyspaceEvent NOTIFY_STRING name key) (λ _, modify (add_dirty 1)))) s Q.
Proof.
  intros HR Hk HQ. run (signal_ok HR Hk). apply (Rep_event (SignalModifiedKey k)) in HR. run (notify_ok NOTIFY_STRING name HR Hk).
  last_step. apply HQ; [|done]. by apply Rep_dirty, Rep_event.
Qed.

Lemma get_sds_ok dup X L A s o t :
  Rep dup X L A s → holds X o t →
  ∃ sd, get_sds o s = Some (sd, s) ∧ Sds.sdslen sd = Some (zlen t) ∧ load (Sds.from_ptr sd) 0 (zlen t) = Some t ∧ wf_bytes t ∧ zlen t ≤ MAXLEN.
Proof.
  intros HR Ho. pose proof (Rep_in _ _ _ _ _ _ _ _ _ HR Ho) as (r & Hr & Ht & Hw & Hl & Hs & _). simpl in *.
  destruct (obj_sds r t Ht (Hs eq_refl)) as (sd & Hsd & _ & Hlen & _ & Hload). exists sd. split_and!; try done.
  unfold get_sds, bind, get, lift. cbn [mbind option_bind]. rewrite Hr. cbn [mbind option_bind]. by rewrite Hsd.
Qed.

(** The value of the key [k] is the string [t], in an object that can be written to. *)
Definition writable k t dl o sd A s : Prop :=
  amap A !! k = Some (AStr t, dl) ∧ dict s !! k = Some (VString o) ∧
  ∃ r, objs s !! o = Some r ∧ refcount r = 1 ∧ encoding r = OBJ_ENCODING_RAW ∧ as_sds r = Some sd ∧ sds_rep sd t.

Lemma writable_sds k t dl o sd A s : writable k t dl o sd A s → get_sds o s = Some (sd, s).
Proof.
  intros (_ & _ & r & Hr & _ & _ & Hs & _). unfold get_sds, bind, get, lift. cbn [mbind option_bind]. rewrite Hr. cbn [mbind option_bind]. by rewrite Hs.
Qed.

Lemma set_sds_ok X L A s k t dl o sd sd' t' :
  Rep None X L A s → writable k t dl o sd A s → small X → sds_rep sd' t' → wf_bytes t' → zlen t' ≤ MAXLEN →
  ∃ s', set_sds o sd' s = Some (tt, s') ∧ Rep None X L (a_put k (AStr t', dl) A) s' ∧ get_sds o s' = Some (sd', s').
Proof.
  intros HR (Hm & Hd & r & Hr & H1 & He & _) Hn Hs' Hw Hl.
  pose proof (update_ok _ _ _ None X L A s k t dl o r (Robj (encoding r) (refcount r) (PSds sd')) t' HR Hm Hd Hr H1 H1) as HU.
  eexists. split; [apply heap_do_ok; by rewrite Hr|]. split.
  - apply HU; try done. unfold obj_text. simpl. by rewrite He.
  - unfold get_sds, bind, get, lift. cbn [mbind option_bind objs set_objs]. rewrite lookup_insert_eq. cbn [mbind option_bind as_sds ptr]. done.
Qed.

Lemma unshare_writable X L A s key k t dl o :
  Rep None X L A s → holds X key k → amap A !! k = Some (AStr t, dl) → dict s !! k = Some (VString o) → small X →
  ∃ s' o' sd, dbUnshareStringValue key o s = Some (o', s') ∧ Rep None X L A s' ∧ writable k t dl o' sd A s'.
Proof.
  intros HR Hk Hm Hd Hn. destruct (unshare_ok HR Hk Hm Hd Hn) as (s' & o' & r & sd & E & HR' & Hd' & Hr & H1 & He & Hsd & Hrep).
  exists s', o', sd. split; [done|]. split; [done|]. split; [done|]. split; [done|]. by exists r.
Qed.

Definition too_long : reply := ReplyError "string exceeds maximum allowed size (512MB)".

Lemma check_length_ok n s : checkStringLength n s = Some (n <=? MAXLEN, if n <=? MAXLEN then s else add_reply too_long s).
Proof.
  unfold checkStringLength, MAXLEN. rewrite Z.gtb_ltb, Z.ltb_antisym. change (512 * 1024 * 1024) with 536870912. by destruct (n <=? 536870912).
Qed.

(** ** APPEND *)
Definition s_append args A : astate :=
  let k := key_of args in let v := arg_of 2 args in
  let A := a_purge k A in
  match find k A with
  | FOther => a_reply WrongTypeErr A
  | FNone => a_reply (ReplyInt (zlen v)) (a_changed "append" k (a_put k (AStr v, None) A))
  | FStr t dl =>
      if zlen t + zlen v <=? MAXLEN
      then a_reply (ReplyInt (zlen t + zlen v)) (a_changed "append" k (a_put k (AStr (t ++ v), dl) A))
      else a_reply too_long A
  end.

Lemma small_tail x X : small (x :: X) → small X.
Proof. unfold small. rewrite zlen_cons. lia. Qed.

Lemma append_new_ok X L A s key k o v b :
  Rep None (Ref o v b true :: X) L A s → holds X key k → amap A !! k = None → small X →
  wpm (append_new key o) s
    (λ _ s', Rep None (Ref o v false false :: X) L (a_reply (ReplyInt (zlen v)) (a_changed "append" k (a_put k (AStr v, None) A))) s').
Proof.
  intros HR Hk Hm Hn. unfold append_new. destruct (dbAdd_ok HR Hk Hm eq_refl) as (s1 & E1 & HR1 & Hd1 & _). simpl in E1, Hd1. cbn [rt] in HR1. run E1.
  destruct (key_holds HR1 ltac:(apply lookup_insert_eq)) as (o' & Ho' & Ht & Hrf). simplify_eq.
  destruct (incr_rep _ _ _ None X L _ s1 o v false HR1 Ht ltac:(by left) ltac:(by apply small_slack) ltac:(done)) as (s2 & E2 & HR2 & _). run E2.
  apply wpm_get. eapply wpm_lift; [apply strlen_ok; apply (Rep_txt HR2 (o := o) (t := v) (b := false) (u := false)); left|].
  unfold append_end. apply (string_changed_ok "append" _ _ _ _ key k _ _ HR2 ltac:(by right)). intros s3 HR3 _. last_step. by apply Rep_reply.
Qed.

Lemma append_old_ok X L A s key k o a t dl v :
  Rep None X L A s → holds X key k → holds X a v → arg 2 s = Some (a, s) → small X → amap A !! k = Some (AStr t, dl) → dict s !! k = Some (VString o) →
  wpm (append_old key o) s
    (λ _ s', Rep None X L (if zlen t + zlen v <=? MAXLEN
      then a_reply (ReplyInt (zlen t + zlen v)) (a_changed "append" k (a_put k (AStr (t ++ v), dl) A)) else a_reply too_long A) s').
Proof.
  intros HR Hk Ha E Hn Hm Hd. unfold append_old. run E. apply wpm_get. destruct (key_holds HR Hm) as (o' & Ho' & Ht & _). simplify_eq. pose proof Ht as (r & _ & _ & Hw & Hl).
  eapply wpm_lift; [by apply strlen_ok|]. destruct (get_sds_ok _ _ _ _ _ _ _ HR Ha) as (sa & Ea & Hla & _ & Hwv & Hlv). run Ea.
  eapply wpm_lift; [exact Hla|]. assert (swrap 64 (uwrap 64 (zlen t + zlen v)) = zlen t + zlen v) as ->.
  { unfold MAXLEN in *. zlen_pos. rewrite uwrap_id, swrap_id; [done|done|..]; unfold in_s, in_u;
      [change (2 ^ (64 - 1)) with 9223372036854775808|change (2 ^ 64) with 18446744073709551616]; lia. }
  run (check_length_ok (zlen t + zlen v) s). destruct (Z.leb_spec (zlen t + zlen v) MAXLEN) as [Hle|Hgt]; cbn [negb]; [|last_step; by apply Rep_reply].
  destruct (unshare_writable _ _ _ _ _ _ _ _ _ HR Hk Hm Hd Hn) as (s1 & o1 & sd & E1 & HR1 & HWr). run E1.
  destruct (get_sds_ok _ _ _ _ _ _ _ HR1 Ha) as (sa1 & Ea1 & _ & Hld & _). run Ea1. run (writable_sds _ _ _ _ _ _ _ HWr).
  pose proof HWr as (_ & _ & _ & _ & _ & _ & _ & Hrep).
  destruct (catlen_ok sd t (Sds.from_ptr sa1) (zlen v) v Hrep Hld) as (sd' & Hcat & Hrep'); [unfold MAXLEN in *; lia|].
  eapply wpm_lift; [exact Hcat|]. destruct (set_sds_ok _ _ _ _ _ _ _ _ _ sd' (t ++ v) HR1 HWr Hn Hrep') as (s2 & E2 & HR2 & _);
    [by apply Forall_app|by rewrite zlen_app|]. run E2. destruct (rep_view sd' _ Hrep') as [Hlen _]. eapply wpm_lift; [exact Hlen|].
  unfold append_end. apply (string_changed_ok "append" _ _ _ _ key k _ _ HR2 Hk). intros s3 HR3 _. last_step. rewrite zlen_app. by apply Rep_reply.
Qed.

Lemma arg_same dup dup' X X' L L' A A' s s' i o :
  Rep dup X L A s → Rep dup' X' L' A' s' → L = L' → arg i s = Some (o, s) → arg i s' = Some (o, s').
Proof.
  intros HR HR' -> E. apply (arg_at _ _ _ dup' X' L' A' s' i o HR'). unfold arg, bind, get, lift in E. cbn [mbind option_bind] in E.
  rewrite (R_argv HR) in E. by destruct (L' !! i); simplify_eq/=.
Qed.

Lemma append_does args :
  (3 ≤ length args)%nat →
  does (appendCommand false false lazyfree_lazy_expire shared_del shared_unlink shared_integers maxmemory maxmemory_policy) s_append args.
Proof.
  intros Hl X A s Hst. destruct (start_key _ _ _ X args A s Hst ltac:(lia)) as (HR & (key & Ea & Hk & Hkw & Hko) & Hn & Ht & Hother & HW & HA).
  set (Y := alter weak 1%nat X) in *. unfold appendCommand, s_append. run Ea. pose proof (nth_arg _ _ _ X args A s 2 Hst ltac:(lia)) as (a2 & Ea2 & Hk2).
  destruct (lookupW_ok lazyfree_lazy_expire HR Hk Hn) as (s1 & E1 & HR1 & _). run E1.
  set (k := key_of args) in *. set (A1 := a_purge k A) in *. pose proof (key_find_ok _ _ _ _ _ k HR1) as Hv. destruct (find k A1) as [| |t dl].
  - destruct Hv as [-> Hm]. destruct (Hother 2%nat ltac:(lia) ltac:(done)) as (y & Hy & Hys & Hyt).
    destruct (encode_value _ maxmemory maxmemory_policy _ _ Y A1 s1 2 y HR1 Hy Hys) as (s2 & o & b & E2 & HV). run E2. rewrite Hyt in HV.
    unfold valued, others in HV. rewrite HW, HA in HV. fold (others 2 X) in HV. cbn [ra] in HV.
    eapply wpm_mono; [apply (append_new_ok _ _ _ _ _ _ _ _ _ HV (Hko 2%nat ltac:(done)) Hm); apply (small_tail (Ref o [] false false)), others_small, Hst|].
    intros ? s' HR'. destruct (start_at _ _ _ X args A s 2 Hst ltac:(lia)) as (x & Hx & _).
    apply (valued_finish _ _ _ 2 X (Ref o (arg_of 2 args) false false) x); [exact HR'|done|apply Hst].
  - destruct Hv as [ty ->]. apply wpm_bind, wpm_modify, wpm_ret, wpm_ret. exists Y, (ra <$> Y). split; [by apply Rep_reply|done].
  - destruct Hv as (o & Hd & _ & _ & Hm). rewrite Hd. apply wpm_bind, wpm_ret. apply (Rep_weak _ _ _ None) in HR1. rewrite HW, HA in HR1.
    destruct (start_weak _ _ _ X args A s Hst) as (_ & _ & Hnw).
    eapply wpm_mono; [apply (append_old_ok _ _ _ _ key k o a2 t dl (arg_of 2 args) HR1); try done; apply (arg_same _ _ _ _ _ _ _ _ _ _ _ _ HR HR1 HA Ea2)|].
    intros ? s' HR'. apply (finish_weak _ _ _ X); [exact HR'|apply Hst].
Qed.
(** ** SETRANGE *)

(** [v] written over [t] from [off] on, after zeros where [t] is too short. *)
Definition overlay (t : bytes) (off : Z) (v : bytes) : bytes :=
  let t := t ++ replicate (Z.to_nat (off + zlen v - zlen t)) 0 in
  take (Z.to_nat off) t ++ v ++ drop (Z.to_nat (off + zlen v)) t.

Definition s_setrange args A : astate :=
  let k := key_of args in let v := arg_of 3 args in
  match Util.string2ll (arg_of 2 args) with
  | None => a_reply (ReplyError not_integer) A
  | Some off =>
      if off <? 0 then a_reply (ReplyError "offset is out of range") A else
      let A := a_purge k A in
      let edit t dl :=
        if zlen v =? 0 then a_reply (ReplyInt (zlen t)) A else
        if off + zlen v <=? MAXLEN then
          a_reply (ReplyInt (zlen (overlay t off v))) (a_changed "setrange" k (a_put k (AStr (overlay t off v), dl) A))
        else a_reply too_long A in
      match find k A with FOther => a_reply WrongTypeErr A | FNone => edit [] None | FStr t dl => edit t dl end
  end.

(** The end of the write can be computed with 64 bits. *)
Definition setrange_fits args : Prop := ∀ off, Util.string2ll (arg_of 2 args) = Some off → off + zlen (arg_of 3 args) < 2 ^ 63.

Lemma poke_ok sd t off v :
  sds_rep sd t → 0 ≤ off → off + zlen v ≤ zlen t →
  ∃ sd', Sds.poke sd off v = Some sd' ∧ sds_rep sd' (take (Z.to_nat off) t ++ v ++ drop (Z.to_nat (off + zlen v)) t).
Proof.
  intros (ty & w & free & [Hs Hf]) Ho Hl. zlen_pos. destruct (list_split3 t off (zlen v)) as (a & b & c & -> & Ha & Hb & Hc); [lia..|].
  destruct (shape_poke sd ty w _ _ _ Hs a b v (c ++ [0] ++ free) off) as (sd' & Hp & Hs'); [by rewrite <-!app_assoc|done|done|].
  exists sd'. split; [done|]. rewrite <-Ha, <-Hb. rewrite <-zlen_app. unfold zlen. rewrite !Nat2Z.id, take_app_length.
  rewrite (app_assoc a b c), drop_app_length. exists ty, w, free.
  assert (zlen (a ++ v ++ c) = zlen (a ++ b ++ c)) as Hz by (rewrite !zlen_app; lia). unfold sds_at. rewrite Hz. by rewrite <-!app_assoc.
Qed.

Lemma overlay_length t off v : 0 ≤ off → zlen (overlay t off v) = Z.max (zlen t) (off + zlen v).
Proof.
  intros Ho. unfold overlay. rewrite !zlen_app. unfold zlen. rewrite length_take, length_drop, length_app, length_replicate. lia.
Qed.

Lemma overlay_wf t off v : wf_bytes t → wf_bytes v → wf_bytes (overlay t off v).
Proof.
  intros Ht Hv. assert (wf_bytes (t ++ replicate (Z.to_nat (off + zlen v - zlen t)) 0)) as Hw.
  { apply Forall_app. split; [done|]. by apply Forall_replicate. }
  unfold overlay. apply Forall_app. split; [by apply Forall_take|]. apply Forall_app. split; [done|by apply Forall_drop].
Qed.

Lemma setrange_at_ok X L A s key k o sd t dl off v :
  Rep None X L A s → writable k t dl o sd A s → holds X key k → small X → wf_bytes t → zlen t ≤ MAXLEN → wf_bytes v → zlen v ≠ 0 →
  0 ≤ off → off + zlen v ≤ MAXLEN →
  wpm (setrange_at key o off v) s
    (λ _ s', Rep None X L (a_reply (ReplyInt (zlen (overlay t off v))) (a_changed "setrange" k (a_put k (AStr (overlay t off v), dl) A))) s').
Proof.
  intros HR HW Hk Hn Hwt Hlt Hwv Hv Ho Hl. unfold setrange_at. run (writable_sds _ _ _ _ _ _ _ HW). zlen_pos.
  rewrite (proj2 (Z.ltb_lt 0 (zlen v))) by lia. pose proof HW as (_ & _ & _ & _ & _ & _ & _ & Hrep).
  rewrite uwrap_id by (unfold in_u, MAXLEN in *; change (2 ^ 64) with 18446744073709551616; lia).
  destruct (growzero_ok sd t (off + zlen v) Hrep) as (sd1 & Hg & Hrep1); [unfold MAXLEN in *; lia..|].
  destruct (poke_ok sd1 _ off v Hrep1 Ho) as (sd2 & Hp & Hrep2); [rewrite zlen_app, zlen_replicate; lia|]. fold (overlay t off v) in Hrep2.
  destruct (set_sds_ok _ _ _ _ _ _ _ _ _ sd2 (overlay t off v) HR HW Hn Hrep2) as (s1 & E1 & HR1 & E1');
    [by apply overlay_wf|rewrite overlay_length by done; lia|].
  apply wpm_bind. eapply wpm_lift; [exact Hg|]. eapply wpm_lift; [exact Hp|]. run E1. apply (changed_last "setrange" _ _ _ _ key k _ HR1 Hk). intros s2 HR2 Ho2.
  assert (get_sds o s2 = Some (sd2, s2)) as E2.
  { unfold get_sds, bind, get, lift in *. cbn [mbind option_bind] in *. rewrite Ho2. destruct (objs s1 !! o); [|done]. cbn [mbind option_bind] in *. by destruct (as_sds r); simplify_eq/=. }
  run E2. destruct (rep_view sd2 _ Hrep2) as [Hlen _]. eapply wpm_lift; [exact Hlen|]. last_step. by apply Rep_reply.
Qed.
Lemma overlay_new off v : 0 ≤ off → overlay (replicate (Z.to_nat (off + zlen v)) 0) off v = overlay [] off v.
Proof.
  intros Ho. unfold overlay. change (zlen []) with 0. rewrite zlen_replicate. zlen_pos.
  replace (Z.to_nat (off + zlen v - Z.of_nat (Z.to_nat (off + zlen v)))) with 0%nat by lia. rewrite Z.sub_0_r. by rewrite app_nil_r.
Qed.

Lemma setrange_new_ok X L A s key k off v :
  Rep None X L A s → holds X key k → small X → amap A !! k = None → wf_bytes v → zlen v ≠ 0 → 0 ≤ off → off + zlen v ≤ MAXLEN →
  wpm (setrange_new key off v) s
    (λ _ s', Rep None X L (a_reply (ReplyInt (zlen (overlay [] off v))) (a_changed "setrange" k (a_put k (AStr (overlay [] off v), None) A))) s').
Proof.
  intros HR Hk Hn Hm Hw Hv Ho Hl. zlen_pos. unfold setrange_new. set (t := replicate (Z.to_nat (off + zlen v)) 0).
  rewrite uwrap_id by (unfold in_u, MAXLEN in *; change (2 ^ 64) with 18446744073709551616; lia).
  assert (zlen t = off + zlen v) as Hlt by (unfold t; rewrite zlen_replicate; lia). assert (wf_bytes t) as Hwt by (by apply Forall_replicate).
  destruct (newlen_ok None (off + zlen v) t) as (sd & Hsd & Hrep); [unfold MAXLEN in *; lia|done|done|]. eapply wpm_lift; [exact Hsd|].
  destruct (sds_object_ok _ _ _ None X L A s sd t HR Hrep Hwt ltac:(lia) ltac:(by apply small_slack)) as (s1 & o & E1 & HR1 & Hd1 & Ho1). run E1.
  destruct (dbAdd_ok HR1 Hk Hm eq_refl) as (s2 & E2 & HR2 & Hd2 & Ho2). cbn [ra rt] in *. run E2.
  assert (writable k t None o sd (a_put k (AStr t, None) A) s2) as HW.
  { split; [apply lookup_insert_eq|]. split; [done|]. rewrite Ho2. eexists. split; [exact Ho1|]. done. }
  eapply wpm_mono; [apply (setrange_at_ok _ _ _ _ key k o sd t None off v HR2 HW); (done || lia)|]. intros [] s3 HR3.
  by rewrite a_put_put, (overlay_new off v Ho : overlay t off v = _) in HR3.
Qed.

Lemma setrange_old_ok X L A s key k o t dl off v :
  Rep None X L A s → holds X key k → small X → amap A !! k = Some (AStr t, dl) → dict s !! k = Some (VString o) →
  wf_bytes v → zlen v ≠ 0 → 0 ≤ off → off + zlen v ≤ MAXLEN →
  wpm (bind (dbUnshareStringValue key o) (λ o, setrange_at key o off v)) s
    (λ _ s', Rep None X L (a_reply (ReplyInt (zlen (overlay t off v))) (a_changed "setrange" k (a_put k (AStr (overlay t off v), dl) A))) s').
Proof.
  intros HR Hk Hn Hm Hd Hw Hv Ho Hl. destruct (key_holds HR Hm) as (o' & _ & (r & _ & _ & Hwt & Hlt) & _).
  destruct (unshare_writable _ _ _ _ _ _ _ _ _ HR Hk Hm Hd Hn) as (s1 & o1 & sd & E1 & HR1 & HW). run E1.
  by apply (setrange_at_ok _ _ _ _ key k o1 sd t dl off v HR1 HW).
Qed.

Lemma setrange_does args X A s :
  (4 ≤ length args)%nat → start X args A s → setrange_fits args →
  wpm (setrangeCommand false false lazyfree_lazy_expire shared_del shared_unlink) s (λ _ s', finish (s_setrange args A) s').
Proof.
  intros Hl Hst Hf. destruct (start_weak _ _ _ X args A s Hst) as (HR & _ & Hn). assert (tiny X) as Htn by apply Hst.
  destruct (key_arg _ _ _ X args A s Hst ltac:(lia)) as (key & Ea & Hk).
  destruct (nth_arg _ _ _ X args A s 2 Hst ltac:(lia)) as (a2 & Ea2 & Hk2), (nth_arg _ _ _ X args A s 3 Hst ltac:(lia)) as (a3 & Ea3 & Hk3).
  unfold setrangeCommand, s_setrange, getLongFromObjectOrReply, setrange_fits in *. set (k := key_of args) in *. set (v := arg_of 3 args) in *.
  run Ea. run Ea2. run Ea3. run (text_ok HR Hk3). pose proof (getLL_ok s a2 _ None (Rep_txt HR Hk2)) as E2.
  destruct (Util.string2ll (arg_of 2 args)) as [off|] eqn:Es; run E2; [|apply wpm_ret; apply (finish_weak _ _ _ X); [by apply Rep_reply|done]].
  specialize (Hf off eq_refl). destruct (Z.ltb_spec off 0) as [Hneg|Hpos]; [last_step; apply (finish_weak _ _ _ X); [by apply Rep_reply|done]|].
  destruct (get_sds_ok _ _ _ _ _ _ _ HR Hk3) as (_ & _ & _ & _ & Hwv & _).
  destruct (lookupW_ok lazyfree_lazy_expire HR Hk Hn) as (s1 & E1 & HR1 & _). run E1. set (A1 := a_purge k A) in *. zlen_pos.
  rewrite (swrap_id 64 (off + zlen v)) by (try done; unfold in_s; change (2 ^ (64 - 1)) with (2 ^ 63); lia).
  pose proof (key_find_ok _ _ _ _ _ k HR1) as Hv. destruct (find k A1) as [| |t dl].
  - destruct Hv as [-> Hm]. destruct (Z.eqb_spec (zlen v) 0) as [Hz|Hz]; [last_step; apply (finish_weak _ _ _ X); [by apply Rep_reply|done]|].
    run (check_length_ok (off + zlen v) s1). destruct (Z.leb_spec (off + zlen v) MAXLEN); cbn [negb]; [|last_step; apply (finish_weak _ _ _ X); [by apply Rep_reply|done]].
    eapply wpm_mono; [by apply (setrange_new_ok _ _ _ _ key k off v HR1)|]. intros [] s2 HR2. by apply (finish_weak _ _ _ X).
  - destruct Hv as [ty ->]. apply wpm_bind, wpm_modify, wpm_ret, wpm_ret. apply (finish_weak _ _ _ X); [by apply Rep_reply|done].
  - destruct Hv as (o & Hd & Ht & _ & Hm). rewrite Hd. apply wpm_bind, wpm_ret, wpm_get. eapply wpm_lift; [by apply strlen_ok|].
    destruct (Z.eqb_spec (zlen v) 0) as [Hz|Hz]; [last_step; apply (finish_weak _ _ _ X); [by apply Rep_reply|done]|].
    run (check_length_ok (off + zlen v) s1). destruct (Z.leb_spec (off + zlen v) MAXLEN); cbn [negb]; [|last_step; apply (finish_weak _ _ _ X); [by apply Rep_reply|done]].
    eapply wpm_mono; [by apply (setrange_old_ok _ _ _ _ key k o t dl off v HR1)|]. intros [] s2 HR2. by apply (finish_weak _ _ _ X).
Qed.

(** ** Counters *)
Definition a_number (k : bytes) (n : Z) dl A : astate :=
  a_reply ReplyCrlf (a_reply (ReplyObj (Util.print n)) (a_reply ReplyColon (a_changed "incrby" k (a_put k (AStr (Util.print n), dl) A)))).

Definition s_add (n : Z) args A : astate :=
  let k := key_of args in
  let A := a_purge k A in
  let add old dl :=
    if (LLONG_MIN <=? old + n) && (old + n <=? LLONG_MAX) then a_number k (old + n) dl A
    else a_reply (ReplyError "increment or decrement would overflow") A in
  match find k A with
  | FOther => a_reply WrongTypeErr A
  | FNone => add 0 None
  | FStr t dl => match Util.string2ll t with Some old => add old dl | None => a_reply (ReplyError not_integer) A end
  end.

Definition s_incrby args A : astate :=
  match Util.string2ll (arg_of 2 args) with Some n => s_add n args A | None => a_reply (ReplyError not_integer) A end.
Definition s_decrby args A : astate :=
  match Util.string2ll (arg_of 2 args) with Some n => s_add (- n) args A | None => a_reply (ReplyError not_integer) A end.

Lemma print_wf n : wf_bytes (Util.print n).
Proof.
  unfold wf_bytes. rewrite Util.print_split. apply Forall_app. split.
  - destruct (n <? 0); repeat constructor; done.
  - eapply Forall_impl; [apply dec_rec_digits; lia|]. simpl. unfold is_byte. lia.
Qed.
Lemma number_object_ok X L A s n :
  Rep None X L A s → in_s 64 n → small X →
  ∃ s' o, heap_op (λ h, createStringObjectFromLongLong shared_integers h n) s = Some (o, s') ∧
    Rep None (Ref o (Util.print n) false true :: X) L A s' ∧ dict s' = dict s.
Proof.
  intros HR Hn Hs. pose proof (print_length n Hn) as Hl. pose proof (h_shared _ _ _ _ _ _ _ (R_h HR)) as Hsh.
  unfold heap_op, createStringObjectFromLongLong. destruct ((0 <=? n) && (n <? OBJ_SHARED_INTEGERS)) eqn:E.
  - apply andb_true_iff in E as [E1%Z.leb_le E2%Z.ltb_lt]. rewrite (incr_shared shared_integers (objs s) n Hsh ltac:(lia)). cbn [mbind option_bind].
    eexists _, _. split; [done|]. split; [|done]. apply (Rep_heap _ _ _ None X); [done|]. specialize (Hsh n ltac:(lia)).
    apply (hrep_shared shared_integers _ _ _ _ _ _ _ _ (R_h HR) Hsh eq_refl).
    + intros a Ha. rewrite !cnt_app, cnt_cons, decide_False by done. lia.
    + pose proof (small_perms shared_del shared_unlink X Hs) as Hsp. rewrite zlen_app in *. rewrite zlen_cons. lia.
    + pose proof (h_refs _ _ _ _ _ _ _ (R_h HR)) as Hr. apply Forall_app in Hr as [Hr1 Hr2]. apply Forall_app. split; [done|]. constructor; [|done].
      eexists. split; [exact Hsh|]. cbn [rt rs ru]. split; [done|]. split; [apply print_wf|]. split; [unfold MAXLEN; lia|]. split; [done|by right].
  - clear E. replace ((Util.LONG_MIN <=? n) && (n <=? Util.LONG_MAX)) with true.
    2:{ symmetry. rewrite andb_true_iff, !Z.leb_le. unfold in_s in Hn. unfold Util.LONG_MIN, Util.LONG_MAX, Util.LLONG_MIN, Util.LLONG_MAX. change (2 ^ (64 - 1)) with (2 ^ 63) in Hn. lia. }
    cbn [mbind option_bind]. eexists _, _. split; [done|]. split; [|done].
    apply (new_rep _ _ _ None X L A s _ (Robj OBJ_ENCODING_INT 1 (PLong n)) (Util.print n) HR); [apply fresh_addr|done|apply print_wf|unfold MAXLEN; lia|done|by apply small_slack].
Qed.

Lemma incr_store_ok X L A s key k n (f : found) :
  Rep None X L A s → holds X key k → small X → in_s 64 n → find k A = f → f ≠ FOther →
  let dl := match f with FStr _ dl => dl | _ => None end in
  ∃ s' new, incr_store shared_integers key (match dict s !! k with Some (VString o) => Some o | _ => None end) n s = Some (new, s') ∧
    Rep None X L (a_put k (AStr (Util.print n), dl) A) s' ∧ dict s' !! k = Some (VString new).
Proof.
  intros HR Hk Hs Hn Hf Hne. pose proof (key_find_ok _ _ _ _ _ k HR) as Hv. rewrite Hf in Hv. destruct f as [| |t dl]; [|done|].
  - destruct Hv as [-> Hm]. unfold incr_store, bind. destruct (number_object_ok X L A s n HR Hn Hs) as (s1 & o & -> & HR1 & _). cbn [mbind option_bind].
    destruct (dbAdd_ok HR1 Hk Hm eq_refl) as (s2 & E2 & HR2 & Hd2 & _). cbn [ra rt] in *. rewrite E2. by exists s2, o.
  - destruct Hv as (o & Hd & Ht & _ & Hm). rewrite Hd. pose proof Ht as (r & Hr & Htr & Hw & Hl). unfold incr_store, bind, get, lift.
    cbn [mbind option_bind]. rewrite Hr. cbn [mbind option_bind]. destruct (_ && _ && _) eqn:E.
    + apply andb_true_iff in E as [[E1%Z.eqb_eq He%bool_decide_eq_true]%andb_true_iff _].
      rewrite (heap_do_ok _ s (<[o := Robj (encoding r) (refcount r) (PLong n)]> (objs s))) by (by rewrite Hr). cbn [mbind option_bind]. eexists _, o. split; [done|]. split; [|done].
      apply (update_ok _ _ _ None X L A s k t dl o r _ (Util.print n) HR Hm Hd Hr E1); try done; [by unfold obj_text; simpl; rewrite He|apply print_wf|].
      pose proof (print_length n Hn). unfold MAXLEN. lia.
    + destruct (number_object_ok X L A s n HR Hn Hs) as (s1 & o1 & -> & HR1 & _). cbn [mbind option_bind].
      destruct (overwrite_ok HR1 Hk Hm eq_refl Hs) as (s2 & E2 & HR2 & Hd2 & _). cbn [ra rt] in *. rewrite E2. by exists s2, o1.
Qed.

Lemma incr_from_ok X L A s key k old n (f : found) :
  Rep None X L A s → holds X key k → small X → in_s 64 old → in_s 64 n → find k A = f → f ≠ FOther →
  let dl := match f with FStr _ dl => dl | _ => None end in
  wpm (incr_from shared_integers key (match dict s !! k with Some (VString o) => Some o | _ => None end) old n) s
    (λ _ s', Rep None X L (if (LLONG_MIN <=? old + n) && (old + n <=? LLONG_MAX) then a_number k (old + n) dl A
      else a_reply (ReplyError "increment or decrement would overflow") A) s').
Proof.
  intros HR Hk Hs Hold Hn Hf Hne dl. unfold incr_from.
  unfold in_s in Hold, Hn. change (2 ^ (64 - 1)) with 9223372036854775808 in Hold, Hn.
  assert (((n <? 0) && (old <? 0) && (n <? LLONG_MIN - old) || (n >? 0) && (old >? 0) && (n >? LLONG_MAX - old)) =
    negb ((LLONG_MIN <=? old + n) && (old + n <=? LLONG_MAX))) as ->.
  { unfold LLONG_MIN, LLONG_MAX. change (2 ^ 63) with 9223372036854775808. rewrite !Z.gtb_ltb.
    repeat match goal with |- context [?a <? ?b] => destruct (Z.ltb_spec a b) | |- context [?a <=? ?b] => destruct (Z.leb_spec a b) end; simpl; lia. }
  destruct ((LLONG_MIN <=? old + n) && _) eqn:E; cbn [negb]; [|last_step; by apply Rep_reply].
  apply andb_true_iff in E as [E1%Z.leb_le E2%Z.leb_le]. unfold LLONG_MIN, LLONG_MAX in E1, E2. change (2 ^ 63) with 9223372036854775808 in E1, E2.
  assert (in_s 64 (old + n)) as Hin by (unfold in_s; change (2 ^ (64 - 1)) with 9223372036854775808; lia). rewrite swrap_id by done.
  destruct (incr_store_ok X L A s key k (old + n) f HR Hk Hs Hin Hf Hne) as (s1 & new & E3 & HR1 & Hd1). run E3.
  destruct (key_holds HR1 ltac:(apply lookup_insert_eq)) as (o & Ho & Ht & _). simplify_eq.
  apply (string_changed_ok "incrby" _ _ _ _ key k _ _ HR1 Hk). intros s2 HR2 Ho2. apply wpm_modify. rewrite <-Ho2 in Ht.
  run (addReply_ok (add_reply ReplyColon s2) new _ Ht). last_step. by do 3 apply Rep_reply.
Qed.

Lemma add_does (n : Z) args X A s :
  (2 ≤ length args)%nat → start X args A s → in_s 64 n →
  wpm (incrDecrCommand false false lazyfree_lazy_expire shared_del shared_unlink shared_integers n) s (λ _ s', finish (s_add n args A) s').
Proof.
  intros Hl Hst Hn. destruct (start_weak _ _ _ X args A s Hst) as (HR & _ & Hs). assert (tiny X) as Htn by apply Hst.
  destruct (key_arg _ _ _ X args A s Hst Hl) as (key & Ea & Hk). unfold incrDecrCommand, s_add. run Ea. set (k := key_of args) in *.
  destruct (lookupW_ok lazyfree_lazy_expire HR Hk Hs) as (s1 & E1 & HR1 & _). run E1. set (A1 := a_purge k A) in *.
  pose proof (key_find_ok _ _ _ _ _ k HR1) as Hv. destruct (find k A1) as [| |t dl] eqn:Ef.
  - destruct Hv as [Hd _]. pose proof (incr_from_ok _ _ _ s1 key k 0 n FNone HR1 Hk Hs ltac:(done) Hn Ef ltac:(done)) as HI. rewrite Hd in *.
    eapply wpm_step; [reflexivity|]. eapply wpm_mono; [exact HI|]. intros [] s2 HR2. by apply (finish_weak _ _ _ X).
  - destruct Hv as [ty ->]. last_step. apply (finish_weak _ _ _ X); [by apply Rep_reply|done].
  - destruct Hv as (o & Hd & Ht & _ & Hm). rewrite Hd. pose proof (getLL_ok s1 o t None Ht) as E2.
    destruct (Util.string2ll t) as [old|] eqn:Es; run E2; [|apply wpm_ret; apply (finish_weak _ _ _ X); [by apply Rep_reply|done]].
    pose proof (incr_from_ok _ _ _ s1 key k old n (FStr t dl) HR1 Hk Hs ltac:(by eapply Util.string2ll_sound) Hn Ef ltac:(done)) as HI. rewrite Hd in HI.
    eapply wpm_mono; [exact HI|]. intros [] s2 HR2. by apply (finish_weak _ _ _ X).
Qed.

Lemma incrby_does args X A s :
  (3 ≤ length args)%nat → start X args A s →
  wpm (incrbyCommand false false lazyfree_lazy_expire shared_del shared_unlink shared_integers) s (λ _ s', finish (s_incrby args A) s').
Proof.
  intros Hl Hst. destruct (start_weak _ _ _ X args A s Hst) as (HR & _ & Hs). destruct (nth_arg _ _ _ X args A s 2 Hst ltac:(lia)) as (a2 & Ea2 & Hk2).
  unfold incrbyCommand, s_incrby. run Ea2. pose proof (getLL_ok s a2 _ None (Rep_txt HR Hk2)) as E2.
  destruct (Util.string2ll (arg_of 2 args)) as [n|] eqn:Es; run E2; [|apply wpm_ret; apply (finish_weak _ _ _ X); [by apply Rep_reply|apply Hst]].
  apply (add_does n args X A s ltac:(lia) Hst). by eapply Util.string2ll_sound.
Qed.

(** The smallest number has no negation. *)
Definition decrby_fits args : Prop := Util.string2ll (arg_of 2 args) ≠ Some LLONG_MIN.

Lemma decrby_does args X A s :
  (3 ≤ length args)%nat → start X args A s → decrby_fits args →
  wpm (decrbyCommand false false lazyfree_lazy_expire shared_del shared_unlink shared_integers) s (λ _ s', finish (s_decrby args A) s').
Proof.
  intros Hl Hst Hf. destruct (start_weak _ _ _ X args A s Hst) as (HR & _ & Hs). destruct (nth_arg _ _ _ X args A s 2 Hst ltac:(lia)) as (a2 & Ea2 & Hk2).
  unfold decrbyCommand, s_decrby, decrby_fits in *. run Ea2. pose proof (getLL_ok s a2 _ None (Rep_txt HR Hk2)) as E2.
  destruct (Util.string2ll (arg_of 2 args)) as [n|] eqn:Es; run E2; [|apply wpm_ret; apply (finish_weak _ _ _ X); [by apply Rep_reply|apply Hst]].
  apply Util.string2ll_sound in Es as [Hin _]. assert (in_s 64 (- n)) as Hin'.
  { unfold in_s, LLONG_MIN in *. change (2 ^ (64 - 1)) with 9223372036854775808 in *. change (2 ^ 63) with 9223372036854775808 in *.
    assert (n ≠ -9223372036854775808) by (intros ->; by apply Hf). lia. }
  rewrite swrap_id by done. by apply (add_does (- n) args X A s ltac:(lia) Hst).
Qed.
End StringEdit.
