(* ===== verification/KeyspaceSession.v ===== *)
(** * Sessions

    A session is a sequence of queries, each at its time.  The server that runs the
    commands of [Commands] is the finite map with deadlines that runs their abstract
    counterparts, and between two queries the reference counts are exact. *)

From Stdlib Require Import String.
From S2P Require Import Prelude.
From S2P Require Import Mem.
From S2P Require Import Util.
From S2P Require Import Sds.
From S2P Require Import SdsSpec.
From S2P Require Import SdsRefine.
From S2P Require Import Object.
From S2P Require Import ObjectSpec.
From S2P Require Import Keyspace.
From S2P Require Import StringType.
From S2P Require Import Commands.
From S2P Require Import KeyspaceSpec.
From S2P Require Import KeyspaceOps.
From S2P Require Import KeyCommands.
From S2P Require Import StringCommands.
From S2P Require Import StringEdit.
Import Object Keyspace StringType Commands.

#[local] Notation addr := positive.
#[local] Notation length := Datatypes.length.

(** ** The abstract server *)
Definition spec (lazy : bool) (p : procs) : list bytes → astate → astate :=
  match p with
  | GetCommand => s_get lazy | SetCommand => s_set lazy | SetnxCommand => s_setnx lazy
  | SetexCommand => s_setex lazy "setex" UNIT_SECONDS | PsetexCommand => s_setex lazy "psetex" UNIT_MILLISECONDS
  | AppendCommand => s_append lazy | StrlenCommand => s_strlen lazy
  | DelCommand | UnlinkCommand => s_del lazy | ExistsCommand | TouchCommand => s_exists lazy
  | SetrangeCommand => s_setrange lazy | GetrangeCommand => s_getrange lazy
  | IncrCommand => s_add lazy 1 | DecrCommand => s_add lazy (-1)
  | IncrbyCommand => s_incrby lazy | DecrbyCommand => s_decrby lazy
  | MgetCommand => s_mget lazy | GetsetCommand => s_getset lazy
  | MsetCommand => s_mset lazy false | MsetnxCommand => s_mset lazy true
  | RenameCommand => s_rename lazy false | RenamenxCommand => s_rename lazy true
  | ExpireCommand => s_expire lazy true true | ExpireatCommand => s_expire lazy false true
  | PexpireCommand => s_expire lazy true false | PexpireatCommand => s_expire lazy false false
  | DbsizeCommand => s_dbsize | TypeCommand => s_type lazy
  | TtlCommand => s_ttl lazy false | PttlCommand => s_ttl lazy true | PersistCommand => s_persist lazy
  end.

(** Numbers that the command computes with stay within 64 bits. *)
Definition fits (p : procs) (args : list bytes) (now : Z) : Prop :=
  match p with
  | SetCommand => set_command_fits args now
  | SetexCommand => set_fits (Some (arg_of 2 args)) UNIT_SECONDS now
  | PsetexCommand => set_fits (Some (arg_of 2 args)) UNIT_MILLISECONDS now
  | SetrangeCommand => setrange_fits args
  | DecrbyCommand => decrby_fits args
  | ExpireCommand => expire_fits true true args now | ExpireatCommand => expire_fits false true args now
  | PexpireCommand => expire_fits true false args now | PexpireatCommand => expire_fits false false args now
  | _ => True
  end.

Definition a_query (lazy : bool) (q : list bytes) (A : astate) : astate :=
  match lookupCommand (arg_of 0 q) with
  | Some c => if wrong_arity c (zlen q) then a_reply (ReplyError (arity_message c)) A else spec lazy (proc c) q A
  | None => A
  end.

Definition at_time (now : Z) (A : astate) : astate := AState (amap A) now (adirty A) (aevents A) (areplies A).

Definition a_session (lazy : bool) (qs : list (Z * list bytes)) (A : astate) : astate :=
  foldl (λ A q, a_query lazy q.2 (at_time q.1 A)) A qs.

(** A query that the model covers: a command of the table, arguments of bytes, each of
    512MB at most and not more than 2^20 of them, which is what the protocol admits. *)
Definition query_ok (q : Z * list bytes) : Prop :=
  500 ≤ q.1 < 2 ^ 63 ∧ zlen q.2 ≤ 2 ^ 20 ∧ Forall (λ t, wf_bytes t ∧ zlen t ≤ MAXLEN) q.2 ∧
  ∃ name c, q.2 !! 0%nat = Some name ∧ lookupCommand name = Some c ∧ (wrong_arity c (zlen q.2) = false → fits (proc c) q.2 q.1).

(** The arguments that a command looks at whatever they are. *)
Definition min_args (p : procs) : nat :=
  match p with
  | DbsizeCommand | DelCommand | UnlinkCommand | ExistsCommand | TouchCommand | MgetCommand | MsetCommand | MsetnxCommand => 1
  | GetCommand | StrlenCommand | IncrCommand | DecrCommand | TypeCommand | TtlCommand | PttlCommand | PersistCommand => 2
  | SetexCommand | PsetexCommand | SetrangeCommand | GetrangeCommand => 4
  | _ => 3
  end.

Lemma table_arity c : c ∈ redisCommandTable → Z.of_nat (min_args (proc c)) ≤ Z.abs (arity c).
Proof. revert c. apply Forall_forall. repeat constructor; done. Qed.

Lemma arity_enough c argc : c ∈ redisCommandTable → wrong_arity c argc = false → Z.of_nat (min_args (proc c)) ≤ argc.
Proof.
  intros Hc%table_arity Ha. unfold wrong_arity in Ha. apply orb_false_iff in Ha as [H1 H2]. apply Z.ltb_ge in H2.
  destruct (Z.ltb_spec 0 (arity c)); [|lia]. simpl in H1. apply negb_false_iff, Z.eqb_eq in H1. lia.
Qed.

Lemma refs_one d o : refs d o = 1 → ∃ k, d !! k = Some (VString o) ∧ ∀ k', d !! k' = Some (VString o) → k' = k.
Proof.
  intros H1. assert (size (filter (λ kv : bytes * kvalue, kv.2 = VString o) d) ≠ 0%nat) as Hs by (unfold refs in H1; lia).
  apply map_size_ne_0_lookup_1 in Hs as (k & v & [Hk Hv]%map_lookup_filter_Some). simpl in Hv. subst v. exists k. split; [done|].
  intros k' Hk'. destruct (decide (k' = k)) as [|Hne]; [done|exfalso]. rewrite (refs_delete d k _ o Hk), decide_True in H1 by done.
  pose proof (refs_pos (delete k d) k' o ltac:(by rewrite lookup_delete_ne)). lia.
Qed.

Section Session.
Context `{Alloc} (shared_integers : Z → addr) (maxmemory maxmemory_policy : Z).
Context (readonly_client lazyfree_lazy_expire lazyfree_lazy_server_del : bool) (shared_del shared_unlink : addr).

#[local] Notation Rep := (Rep shared_integers shared_del shared_unlink).
#[local] Notation start := (start shared_integers shared_del shared_unlink).
#[local] Notation finish := (finish shared_integers shared_del shared_unlink).
#[local] Notation call := (call false false readonly_client lazyfree_lazy_expire lazyfree_lazy_server_del shared_del shared_unlink
  shared_integers maxmemory maxmemory_policy).
#[local] Notation processCommand := (processCommand false false readonly_client lazyfree_lazy_expire lazyfree_lazy_server_del shared_del shared_unlink
  shared_integers maxmemory maxmemory_policy).
#[local] Notation query := (query false false readonly_client lazyfree_lazy_expire lazyfree_lazy_server_del shared_del shared_unlink
  shared_integers maxmemory maxmemory_policy).
#[local] Notation session := (session false false readonly_client lazyfree_lazy_expire lazyfree_lazy_server_del shared_del shared_unlink
  shared_integers maxmemory maxmemory_policy).

Implicit Types (X : list ref) (L : list addr) (A : astate) (s : state) (args : list bytes).

Lemma call_ok p args X A s :
  (min_args p ≤ length args)%nat → start X args A s → fits p args (aclock A) →
  wpm (call p) s (λ _ s', finish (spec lazyfree_lazy_expire p args A) s').
Proof.
  intros Hl Hst Hf. assert (clock s = aclock A) as Hc by (apply Hst).
  destruct p; cbn [min_args fits] in Hl, Hf; cbn [Commands.call spec].
  - by apply get_does with X.
  - by apply set_does with X.
  - by apply setnx_does with X.
  - by apply setex_does with X.
  - by apply psetex_does with X.
  - by apply append_does with X.
  - by apply strlen_does with X.
  - by apply del_does with X.
  - by apply del_does with X.
  - by apply exists_does with X.
  - by apply setrange_does with X.
  - by apply getrange_does with X.
  - by apply add_does with X.
  - by apply add_does with X.
  - by apply mget_does with X.
  - by apply incrby_does with X.
  - by apply decrby_does with X.
  - by apply getset_does with X.
  - by apply mset_does with X.
  - by apply mset_does with X.
  - by apply rename_does with X.
  - by apply rename_does with X.
  - apply wpm_get. rewrite Hc. by apply (expire_generic_ok _ _ _ _ true true X).
  - by apply (expire_generic_ok _ _ _ _ false true X).
  - apply wpm_get. rewrite Hc. by apply (expire_generic_ok _ _ _ _ true false X).
  - by apply (expire_generic_ok _ _ _ _ false false X).
  - by apply dbsize_does with X.
  - by apply type_does with X.
  - by apply ttl_does with X.
  - by apply touch_does with X.
  - by apply ttl_does with X.
  - by apply persist_does with X.
Qed.

(** ** One query *)

(** Between two queries: no arguments, and the count of every object that is not
    shared is the number of keys that hold it. *)
Definition Rest A s : Prop := Rep None [] [] A s.

Lemma read_ok X A s t :
  Rep None X (ra <$> X) A s → wf_bytes t → zlen t ≤ MAXLEN → tiny X →
  ∃ s' o, read_arg t s = Some (tt, s') ∧ Rep None (X ++ [Ref o t true true]) (ra <$> (X ++ [Ref o t true true])) A s'.
Proof.
  intros HR Hw Hl Hn. destruct (string_object_ok (objs s) t t) as (h' & o & r & E & Hr & Ht & He & Hc & Hf & ->);
    [apply load_all|unfold MAXLEN in Hl; lia|].
  pose proof (new_rep _ _ _ None X _ A s o r t HR Hf Ht Hw Hl Hc ltac:(by apply small_slack, tiny_small0)) as HN. rewrite He in HN.
  eexists _, o. split.
  - unfold read_arg, bind. rewrite (heap_op_ok _ s _ _ E). done.
  - cbn [argv set_objs]. rewrite (R_argv HR), fmap_app. apply (Rep_args _ _ _ None _ (ra <$> X)). eapply Rep_perm; [exact HN|].
    apply Permutation_cons_append.
Qed.

Lemma read_all_ok q : ∀ X A s,
  Rep None X (ra <$> X) A s → Forall strong X → Forall (λ t, wf_bytes t ∧ zlen t ≤ MAXLEN) q → zlen X + zlen q ≤ 2 ^ 20 →
  ∃ s' Y, each read_arg q s = Some (tt, s') ∧ Rep None Y (ra <$> Y) A s' ∧ Forall strong Y ∧ rt <$> Y = (rt <$> X) ++ q.
Proof.
  change (2 ^ 20) with 1048576. induction q as [|t q IH]; intros X A s HR Hs Hq Hn.
  - exists s, X. by rewrite app_nil_r.
  - apply Forall_cons in Hq as [[Hw Hl] Hq]. rewrite zlen_cons in Hn. pose proof (zlen_nonneg q) as Hq0.
    destruct (read_ok X A s t HR Hw Hl) as (s1 & o & E1 & HR1); [unfold tiny; change (2 ^ 28) with 268435456; lia|].
    destruct (IH _ A s1 HR1) as (s2 & Y & E2 & HR2 & Hs2 & Ht2); [apply Forall_app; split; [done|by repeat constructor]|done|rewrite zlen_app; change (zlen [_]) with 1; lia|].
    exists s2, Y. split; [|split; [done|]; split; [done|]].
    + cbn [each]. unfold bind. rewrite E1. cbn [mbind option_bind]. done.
    + rewrite Ht2, fmap_app, <-app_assoc. done.
Qed.

Lemma free_ok A s : finish A s → wpm freeClientArgv s (λ _ s', Rest A s').
Proof.
  intros (X & L & HR & HP & _). symmetry in HP. apply Permutation_map_inv in HP as (Y & -> & HP).
  destruct (free_all shared_integers shared_del shared_unlink None Y [] (map ra Y) A s) as (s1 & E & HR1); [rewrite app_nil_r; by eapply Rep_perm|].
  unfold freeClientArgv. apply wpm_get. rewrite (R_argv HR). run E. last_step. by apply (Rep_args _ _ _ None [] (map ra Y)).
Qed.

Lemma command_in_table t c : lookupCommand t = Some c → c ∈ redisCommandTable.
Proof. intros Hc. apply list_elem_of_In. by eapply List.find_some. Qed.

Lemma process_ok q X A s :
  start X q A s → query_ok (aclock A, q) → wpm processCommand s (λ _ s', finish (a_query lazyfree_lazy_expire q A) s').
Proof.
  intros Hst (_ & _ & _ & name & c & Hn & Hc & Hf). simpl in *. destruct (start_weak _ _ _ X q A s Hst) as (HR & _ & _).
  assert (0 < length q)%nat as Hlen by (by eapply lookup_lt_Some).
  assert (arg_of 0 q = name) as Hname by (unfold arg_of; by rewrite Hn).
  destruct (nth_arg _ _ _ X q A s 0 Hst Hlen) as (a & Ea & Ha). unfold Commands.processCommand, a_query. run Ea. run (text_ok HR Ha).
  rewrite Hname. eapply wpm_lift; [exact Hc|]. rewrite Hc. apply wpm_get. rewrite (R_argv HR).
  replace (zlen (ra <$> X)) with (zlen q) by (destruct Hst as (_ & <- & _); unfold zlen; by rewrite !length_fmap).
  destruct (wrong_arity c (zlen q)) eqn:E; [last_step; apply (finish_weak _ _ _ X); [by apply Rep_reply|apply Hst]|].
  apply (call_ok (proc c) q X A s); [|done|by apply Hf]. pose proof (arity_enough c (zlen q) (command_in_table _ _ Hc) E) as Ha'. unfold zlen in Ha'. lia.
Qed.

Lemma query_steps q A s : Rest A s → query_ok (aclock A, q) → wpm (query q) s (λ _ s', Rest (a_query lazyfree_lazy_expire q A) s').
Proof.
  intros HR Hq. pose proof Hq as (Hc & Hn & Hargs & _). simpl in *.
  destruct (read_all_ok q [] A s HR) as (s1 & Y & E1 & HR1 & Hs1 & Ht1); [done|done|change (zlen []) with 0; lia|]. unfold Commands.query. run E1.
  assert (start Y q A s1) as Hst.
  { split; [done|]. split; [done|]. split; [done|]. split; [|done]. unfold tiny. rewrite <-(zlen_fmap rt), Ht1. simpl.
    change (2 ^ 20) with 1048576 in Hn. change (2 ^ 28) with 268435456. lia. }
  apply wpm_bind. eapply wpm_mono; [by apply (process_ok q Y A s1)|]. intros [] s2. apply free_ok.
Qed.

(** ** Sessions *)
Lemma session_steps qs : ∀ A s, Rest A s → Forall query_ok qs →
  wpm (session qs) s (λ _ s', Rest (a_session lazyfree_lazy_expire qs A) s').
Proof.
  induction qs as [|[now q] qs IH]; intros A s HR Hqs; [by apply wpm_ret|]. apply Forall_cons in Hqs as [Hq Hqs].
  assert (Rest (at_time now A) (set_clock now s)) as HR0 by (destruct HR as [? ? ? ? ? ?]; by split).
  unfold Commands.session. cbn [each]. apply wpm_bind, wpm_modify. eapply wpm_mono; [by apply (query_steps q (at_time now A))|].
  intros [] s1 HR1. by apply IH.
Qed.

(** C1: any sequence of queries that [query_ok] covers, each at its time, runs to its
    end: no assertion fails and no freed object is used.  The replies, the events, the
    count of changes and the keys with their values and deadlines are those of a finite
    map that runs the same queries, whatever the encodings and the sharing of the
    objects.  Covered are the commands DEL, UNLINK, EXISTS, TOUCH, TYPE, DBSIZE, RENAME,
    RENAMENX, EXPIRE, EXPIREAT, PEXPIRE, PEXPIREAT, TTL, PTTL, PERSIST and those of
    t_string.c but INCRBYFLOAT, with arguments within the limits of the protocol, as
    long as the deadline that is asked for, the end of a SETRANGE and the negated
    argument of a DECRBY fit in 64 bits; the code does not check that. *)
Theorem keyspace_session_refines qs A s :
  Rest A s → Forall query_ok qs →
  ∃ s', session qs s = Some (tt, s') ∧ Rest (a_session lazyfree_lazy_expire qs A) s' ∧
    replies s' = areplies (a_session lazyfree_lazy_expire qs A) ∧
    events s' = aevents (a_session lazyfree_lazy_expire qs A) ∧
    dirty s' = adirty (a_session lazyfree_lazy_expire qs A) ∧
    ∀ k, keyrep (amap (a_session lazyfree_lazy_expire qs A)) (dict s') (expires s') (objs s') k.
Proof.
  intros HR Hqs. destruct (session_steps qs A s HR Hqs) as ([] & s' & E & HR'). exists s'. pose proof HR' as [Hh ? ? ? ? ?].
  split; [done|]. split; [done|]. split; [done|]. split; [done|]. split; [done|]. apply (h_keys _ _ _ _ _ _ _ Hh).
Qed.

(** C19: after any such session every object of the heap is shared, or one of the
    two names that the server keeps, or the value of exactly one key with a count of
    one, and every key has its object: nothing leaks and nothing dangles. *)
Theorem keyspace_counts_exact qs A s :
  Rest A s → Forall query_ok qs →
  ∃ s', session qs s = Some (tt, s') ∧ argv s' = [] ∧
    (∀ o r, objs s' !! o = Some r → o ≠ shared_del → o ≠ shared_unlink → refcount r ≠ OBJ_SHARED_REFCOUNT →
      refcount r = 1 ∧ ∃ k, dict s' !! k = Some (VString o) ∧ ∀ k', dict s' !! k' = Some (VString o) → k' = k) ∧
    (∀ k o, dict s' !! k = Some (VString o) → is_Some (objs s' !! o)).
Proof.
  intros HR Hqs. destruct (session_steps qs A s HR Hqs) as ([] & s' & E & [Hh Ha _ _ _ _]). exists s'. split; [done|]. split; [done|]. split.
  - intros o r Ho Hd Hu Hns. destruct (h_count _ _ _ _ _ _ _ Hh o r Ho) as [|(Hc & H1 & Hb)]; [done|].
    assert (cnt (perms shared_del shared_unlink ++ []) o = 0) as Hz by (rewrite app_nil_r; unfold perms; rewrite !cnt_cons, !decide_False by (simpl; congruence); done).
    rewrite decide_False in Hb by done. assert (refs (dict s') o = 1) as H1' by lia. split; [lia|]. by apply refs_one.
  - intros k o Hk. apply (h_live _ _ _ _ _ _ _ Hh). pose proof (refs_pos _ _ _ Hk). pose proof (cnt_nonneg (perms shared_del shared_unlink ++ []) o). lia.
Qed.
End Session.

(** ** A server with an empty database *)
Definition demo_del : addr := 20001.
Definition demo_unlink : addr := 20002.

Definition demo_heap : heap :=
  <[demo_del := demo_string OBJ_ENCODING_RAW (bytes_of "DEL")]>
    (<[demo_unlink := demo_string OBJ_ENCODING_RAW (bytes_of "UNLINK")]> demo_shared_heap).

Definition demo_server : state := State ∅ ∅ demo_heap [] 0 0 [] [].
Definition demo_map : astate := AState ∅ 0 0 [] [].

Lemma shared_counts (l : list Z) o r :
  (list_to_map ((λ n, (demo_shared n, Robj OBJ_ENCODING_INT OBJ_SHARED_REFCOUNT (PLong n))) <$> l) : heap) !! o = Some r →
  refcount r = OBJ_SHARED_REFCOUNT.
Proof. intros Ho. apply elem_of_list_to_map_2, list_elem_of_fmap in Ho as (n & Hn & Hin). by injection Hn as -> ->. Qed.

Lemma demo_shared_count o r : demo_shared_heap !! o = Some r → refcount r = OBJ_SHARED_REFCOUNT.
Proof. unfold demo_shared_heap. apply shared_counts. Qed.

#[local] Opaque demo_shared_heap.

Lemma demo_name_text e t : zlen t ≤ OBJ_ENCODING_EMBSTR_SIZE_LIMIT → e = OBJ_ENCODING_RAW → obj_text (demo_string e t) t.
Proof. intros Ht ->. by apply embedded_rep. Qed.

Lemma demo_rest : Rest demo_shared demo_del demo_unlink demo_map demo_server.
Proof.
  apply RepI; [|reflexivity..]. change (objs demo_server) with demo_heap. apply HRep.
  - intros o r Ho. unfold demo_heap in Ho. apply lookup_insert_Some in Ho as [[<- <-]|[Hne Ho]]; [by right|].
    apply lookup_insert_Some in Ho as [[<- <-]|[Hne2 Ho]]; [by right|]. left. by apply (demo_shared_count o).
  - intros o Ho. rewrite app_nil_r in Ho. unfold demo_heap. destruct (decide (o = demo_del)) as [->|Hne]; [rewrite lookup_insert_eq; eauto|].
    rewrite lookup_insert_ne by done. destruct (decide (o = demo_unlink)) as [->|Hne2]; [rewrite lookup_insert_eq; eauto|].
    exfalso. unfold perms in Ho. rewrite !cnt_cons, !decide_False in Ho by (simpl; congruence). done.
  - intros n Hn. unfold demo_heap, demo_del, demo_unlink. rewrite !lookup_insert_ne by (unfold demo_shared, OBJ_SHARED_INTEGERS in *; lia). by apply demo_shared_ok.
  - done.
  - rewrite app_nil_r. constructor; [|constructor; [|constructor]].
    + exists (demo_string OBJ_ENCODING_RAW (bytes_of "DEL")). split; [apply lookup_insert_eq|]. split; [by apply demo_name_text|]. split; [repeat constructor|]; done.
    + exists (demo_string OBJ_ENCODING_RAW (bytes_of "UNLINK")). split; [unfold demo_heap; rewrite lookup_insert_ne by done; apply lookup_insert_eq|].
      split; [by apply demo_name_text|]. split; [repeat constructor|]; done.
  - intros k. unfold keyrep. cbn [amap demo_map dict expires demo_server]. by rewrite !lookup_empty.
Qed.

(** A session with most of the commands: strings that become numbers, keys that
    expire, a renaming, a command that does not exist for this number of arguments. *)
Definition demo_queries : list (Z * list bytes) :=
  [(1000, [bytes_of "SET"; bytes_of "a"; bytes_of "41"; bytes_of "PX"; bytes_of "500"]);
   (1200, [bytes_of "INCR"; bytes_of "a"]);
   (1300, [bytes_of "append"; bytes_of "a"; bytes_of "0"]);
   (1400, [bytes_of "Rename"; bytes_of "a"; bytes_of "b"]);
   (1450, [bytes_of "MSET"; bytes_of "x"; bytes_of "1"; bytes_of "y"; bytes_of "two"]);
   (1480, [bytes_of "GET"]);
   (1500, [bytes_of "GET"; bytes_of "b"]);
   (1501, [bytes_of "GET"; bytes_of "b"])].

(** The part of [query_ok] that is decided by evaluation. *)
Definition query_okb (now : Z) (q : list bytes) : bool :=
  (500 <=? now) && (now <? 2 ^ 63) && (zlen q <=? 2 ^ 20) &&
  forallb (λ t, forallb (λ b, (0 <=? b) && (b <? 256)) t && (zlen t <=? MAXLEN)) q.

Lemma query_okb_ok now q name c :
  query_okb now q = true → q !! 0%nat = Some name → lookupCommand name = Some c →
  (wrong_arity c (zlen q) = false → fits (proc c) q now) → query_ok (now, q).
Proof.
  intros Hb Hn Hc Hf. unfold query_okb in Hb. apply andb_true_iff in Hb as [[[H1%Z.leb_le H2%Z.ltb_lt]%andb_true_iff H3%Z.leb_le]%andb_true_iff H4].
  split; [done|]. split; [done|]. split; [|by exists name, c]. apply Forall_forall. intros t Ht. rewrite forallb_forall in H4.
  apply list_elem_of_In, H4, andb_true_iff in Ht as [Ht Hl%Z.leb_le]. split; [|done]. apply Forall_forall. intros b Hb. rewrite forallb_forall in Ht.
  apply list_elem_of_In, Ht, andb_true_iff in Hb as [Hb1%Z.leb_le Hb2%Z.ltb_lt]. done.
Qed.

Lemma demo_queries_ok : Forall query_ok demo_queries.
Proof.
  unfold demo_queries. repeat (apply Forall_cons; split); [..|constructor];
    (eapply query_okb_ok; [vm_compute; reflexivity|reflexivity|vm_compute; reflexivity|]); intros _; try done.
  intros flags unit expire Ho. vm_compute in Ho. injection Ho as <- <- <-. intros cmd ms Hms. vm_compute in Hms. injection Hms as <-. done.
Qed.

Lemma keyspace_session_refines_witness : ∃ s',
  session (H := junk0) false false false false false demo_del demo_unlink demo_shared 0 0 demo_queries demo_server = Some (tt, s') ∧
  replies s' = [ReplyOk; ReplyColon; ReplyObj (bytes_of "42"); ReplyCrlf; ReplyInt 3; ReplyOk; ReplyOk;
    ReplyError "wrong number of arguments for 'get' command";
    ReplyBulkLen 3; ReplyObj (bytes_of "420"); ReplyCrlf; ReplyNull].
Proof.
  destruct (keyspace_session_refines (H := junk0) demo_shared 0 0 false false false demo_del demo_unlink demo_queries demo_map demo_server
    demo_rest demo_queries_ok) as (s' & E & _ & Hr & _). exists s'. split; [exact E|]. rewrite Hr. vm_compute. reflexivity.
Defined.

Lemma keyspace_counts_exact_witness : ∃ s',
  session (H := junk0) false false false false false demo_del demo_unlink demo_shared 0 0 demo_queries demo_server = Some (tt, s') ∧ argv s' = [].
Proof.
  destruct (keyspace_counts_exact (H := junk0) demo_shared 0 0 false false false demo_del demo_unlink demo_queries demo_map demo_server
    demo_rest demo_queries_ok) as (s' & E & Ha & _). exists s'. split; [exact E|exact Ha].
Defined.
