(* ===== verification/KeyspaceFacts.v ===== *)
(** * What a client sees

    Consequences of the refinement for a client that sets a key and reads it back,
    lets it expire, or counts with it, and what the commands do beyond the bounds of
    the refinement: deadlines and ranges that do not fit in 64 bits. *)

From Stdlib Require Import String.
From S2P Require Import Prelude.
From S2P Require Import Mem.
From S2P Require Import Util.
From S2P Require Import Sds.
From S2P Require Import SdsSpec.
From S2P Require Import Object.
From S2P Require Import ObjectSpec.
From S2P Require Import Keyspace.
From S2P Require Import StringType.
From S2P Require Import Commands.
From S2P Require Import KeyspaceSpec.
From S2P Require Import KeyspaceOps.
From S2P Require Import KeyCommands.
From S2P Require Import StringCommands.
From S2P Require Import StringEdit.
From S2P Require Import KeyspaceSession.
Import Object Keyspace StringType Commands.

#[local] Notation addr := positive.
#[local] Notation length := Datatypes.length.

(** An argument of a query, and a time. *)
Definition argument (t : bytes) : Prop := wf_bytes t ∧ zlen t ≤ MAXLEN.
Definition moment (t : Z) : Prop := 500 ≤ t < 2 ^ 63.

Definition bulk_reply (t : bytes) : list reply := [ReplyBulkLen (zlen t); ReplyObj t; ReplyCrlf].

Lemma purge_replies lazy k A : areplies (a_purge lazy k A) = areplies A.
Proof. unfold a_purge. by destruct (expired A k). Qed.

Lemma word_ok (w : string) : forallb (λ b, (0 <=? b) && (b <? 256)) (bytes_of w) && (zlen (bytes_of w) <=? MAXLEN) = true → argument (bytes_of w).
Proof.
  intros [Hb Hl%Z.leb_le]%andb_true_iff. split; [|done]. apply Forall_forall. intros b Hin. rewrite forallb_forall in Hb.
  by apply list_elem_of_In, Hb, andb_true_iff in Hin as [?%Z.leb_le ?%Z.ltb_lt].
Qed.

Lemma number_ok n : in_s 64 n → argument (Util.print n).
Proof. intros Hn. split; [apply print_wf|]. pose proof (print_length n Hn). unfold MAXLEN. lia. Qed.

(** A query with a command of the table. *)
Lemma query_intro now (w : string) c args :
  moment now → lookupCommand (bytes_of w) = Some c → argument (bytes_of w) → Forall argument args → zlen args < 2 ^ 20 →
  (wrong_arity c (zlen (bytes_of w :: args)) = false → fits (proc c) (bytes_of w :: args) now) → query_ok (now, bytes_of w :: args).
Proof.
  intros Hm Hc Hw Ha Hn Hf. split; [done|]. split; [simpl; rewrite zlen_cons; lia|]. split; [by constructor|]. by exists (bytes_of w), c.
Qed.

Lemma query_is lazy (w : string) c args A :
  lookupCommand (bytes_of w) = Some c → wrong_arity c (zlen (bytes_of w :: args)) = false →
  a_query lazy (bytes_of w :: args) A = spec lazy (proc c) (bytes_of w :: args) A.
Proof. intros Hc Ha. unfold a_query. change (arg_of 0 (bytes_of w :: args)) with (bytes_of w). by rewrite Hc, Ha. Qed.

Ltac all_args := repeat (apply Forall_cons; split); [first [done|by apply word_ok|by apply number_ok]..|apply List.Forall_nil].

(** ** The queries of this file *)
Definition q_set k v : list bytes := [bytes_of "SET"; k; v].
Definition q_setpx k v (ms : Z) : list bytes := [bytes_of "SET"; k; v; bytes_of "PX"; Util.print ms].
Definition q_get k : list bytes := [bytes_of "GET"; k].
Definition q_incrby k (n : Z) : list bytes := [bytes_of "INCRBY"; k; Util.print n].

Lemma set_is lazy k v A :
  a_query lazy (q_set k v) A = a_reply ReplyOk (a_event (NotifyKeyspaceEvent NOTIFY_STRING "set" k) (a_dirty 1
    (a_event (SignalModifiedKey k) (a_put k (AStr v, None) (a_purge lazy k A))))).
Proof. unfold q_set. by rewrite (query_is lazy "SET" (RedisCommand "set" SetCommand (-3))). Qed.

Lemma set_ok now k v : moment now → argument k → argument v → query_ok (now, q_set k v).
Proof.
  intros Hm Hk Hv. apply (query_intro now "SET" (RedisCommand "set" SetCommand (-3))); [done|done|by apply word_ok|all_args|done|].
  intros _ flags unit expire [= <- <- <-] cmd ms [= <-]. unfold moment in Hm. lia.
Qed.

Lemma get_is lazy k A :
  a_query lazy (q_get k) A = a_value ReplyNull WrongTypeErr k (a_purge lazy k A).
Proof. unfold q_get. by rewrite (query_is lazy "GET" (RedisCommand "get" GetCommand 2)). Qed.

Lemma get_ok now k : moment now → argument k → query_ok (now, q_get k).
Proof.
  intros Hm Hk. by apply (query_intro now "GET" (RedisCommand "get" GetCommand 2)); [done|done|by apply word_ok|all_args|..].
Qed.

Lemma setpx_is lazy k v ms A :
  in_s 64 ms → 0 < ms →
  a_query lazy (q_setpx k v ms) A = a_reply ReplyOk (a_event (NotifyKeyspaceEvent NOTIFY_GENERIC "expire" k)
    (a_event (NotifyKeyspaceEvent NOTIFY_STRING "set" k) (a_dirty 1
    (a_event (SignalModifiedKey k) (a_put k (AStr v, Some (aclock A + ms)) (a_purge lazy k A)))))).
Proof.
  intros Hin Hms. unfold q_setpx. rewrite (query_is lazy "SET" (RedisCommand "set" SetCommand (-3))) by done. cbn [proc spec]. unfold s_set.
  change (set_options _ _ _ _) with (Some (8, UNIT_MILLISECONDS, Some (Util.print ms))). unfold s_set_generic, set_ms.
  rewrite Util.string2ll_complete by done. rewrite (proj2 (Z.leb_gt ms 0)) by done. cbn [has_flag]. rewrite purge_clock. done.
Qed.

Lemma setpx_ok now k v ms : moment now → argument k → argument v → 0 < ms → now + ms < 2 ^ 63 → query_ok (now, q_setpx k v ms).
Proof.
  intros Hm Hk Hv Hms Hf. unfold moment in Hm.
  assert (in_s 64 ms) as Hin by (unfold in_s; change (2 ^ (64 - 1)) with (2 ^ 63); lia).
  apply (query_intro now "SET" (RedisCommand "set" SetCommand (-3))); [done|done|by apply word_ok|all_args|done|].
  intros _ flags unit expire Ho. change (set_options _ _ _ _) with (Some (8, UNIT_MILLISECONDS, Some (Util.print ms))) in Ho. injection Ho as <- <- <-.
  intros cmd m. unfold set_ms. rewrite Util.string2ll_complete by done. rewrite (proj2 (Z.leb_gt ms 0)) by done. by intros [= <-].
Qed.

Lemma incrby_is lazy k n A : in_s 64 n → a_query lazy (q_incrby k n) A = s_add lazy n (q_incrby k n) A.
Proof.
  intros Hn. unfold q_incrby. rewrite (query_is lazy "INCRBY" (RedisCommand "incrby" IncrbyCommand 3)) by done. cbn [proc spec]. unfold s_incrby.
  change (arg_of 2 _) with (Util.print n). by rewrite Util.string2ll_complete.
Qed.

Lemma incrby_ok now k n : moment now → argument k → in_s 64 n → query_ok (now, q_incrby k n).
Proof.
  intros Hm Hk Hn. by apply (query_intro now "INCRBY" (RedisCommand "incrby" IncrbyCommand 3)); [done|done|by apply word_ok|all_args|..].
Qed.

Section Facts.
Context `{Alloc} (shared_integers : Z → addr) (maxmemory maxmemory_policy : Z).
Context (readonly_client lazyfree_lazy_expire lazyfree_lazy_server_del : bool) (shared_del shared_unlink : addr).

#[local] Notation Rest := (Rest shared_integers shared_del shared_unlink).
#[local] Notation session := (session false false readonly_client lazyfree_lazy_expire lazyfree_lazy_server_del shared_del shared_unlink
  shared_integers maxmemory maxmemory_policy).

(** A key without a deadline, or with one that has not passed, is not purged. *)
Lemma purge_fresh k A v dl :
  amap A !! k = Some (v, dl) → (∀ w, dl = Some w → aclock A ≤ w) → a_purge lazyfree_lazy_expire k A = A.
Proof.
  intros Hm Hw. unfold a_purge, expired. rewrite Hm. destruct dl as [w|]; [|done]. specialize (Hw w eq_refl).
  by rewrite (proj2 (Z.ltb_ge w _)).
Qed.

(** C21: a value that is set is what a GET returns, byte for byte, whatever the key
    held before and at whatever times the two commands run. *)
Theorem set_get_roundtrip A s t1 t2 k v :
  Rest A s → moment t1 → moment t2 → argument k → argument v →
  ∃ s', session [(t1, q_set k v); (t2, q_get k)] s = Some (tt, s') ∧ replies s' = replies s ++ ReplyOk :: bulk_reply v.
Proof.
  intros HR H1 H2 Hk Hv.
  destruct (session_steps shared_integers maxmemory maxmemory_policy readonly_client lazyfree_lazy_expire lazyfree_lazy_server_del
    shared_del shared_unlink [(t1, q_set k v); (t2, q_get k)] A s HR) as ([] & s' & E & HR'); [repeat (apply Forall_cons; split); [by apply set_ok|by apply get_ok|done]|].
  exists s'. split; [done|]. rewrite (R_replies _ _ _ _ _ _ _ _ HR'), (R_replies _ _ _ _ _ _ _ _ HR). cbn [a_session foldl fst snd].
  unfold a_session. cbn [foldl fst snd]. rewrite get_is, set_is. set (A1 := at_time t2 _). assert (amap A1 !! k = Some (AStr v, None)) as Hm by apply lookup_insert_eq.
  rewrite (purge_fresh k A1 _ _ Hm) by done. unfold a_value. rewrite Hm. simpl. rewrite purge_replies, <-!app_assoc. done.
Qed.

(** C22: a value that is set to live [ms] milliseconds, with a deadline that fits in 64
    bits, is returned up to its deadline and never after it: the GET then finds
    nothing, and the key is gone. *)
Theorem expired_key_is_gone A s t1 t2 k v ms :
  Rest A s → moment t1 → moment t2 → argument k → argument v → 0 < ms → t1 + ms < 2 ^ 63 →
  ∃ s', session [(t1, q_setpx k v ms); (t2, q_get k)] s = Some (tt, s') ∧
    replies s' = replies s ++ ReplyOk :: (if t2 <=? t1 + ms then bulk_reply v else [ReplyNull]) ∧
    (dict s' !! k = None ↔ t1 + ms < t2).
Proof.
  intros HR H1 H2 Hk Hv Hms Hfit. assert (in_s 64 ms) as Hin by (unfold moment in *; unfold in_s; change (2 ^ (64 - 1)) with (2 ^ 63); lia).
  destruct (session_steps shared_integers maxmemory maxmemory_policy readonly_client lazyfree_lazy_expire lazyfree_lazy_server_del
    shared_del shared_unlink [(t1, q_setpx k v ms); (t2, q_get k)] A s HR) as ([] & s' & E & HR'); [repeat (apply Forall_cons; split); [by apply setpx_ok|by apply get_ok|done]|].
  exists s'. split; [done|]. rewrite (R_replies _ _ _ _ _ _ _ _ HR'), (R_replies _ _ _ _ _ _ _ _ HR).
  destruct (keys_agree k HR') as [_ Hag]. assert (dict s' !! k = None ↔ amap (a_session lazyfree_lazy_expire [(t1, q_setpx k v ms); (t2, q_get k)] A) !! k = None) as ->.
  { rewrite !eq_None_not_Some. tauto. }
  clear HR' Hag E. unfold a_session. cbn [foldl fst snd]. rewrite get_is, setpx_is by done. set (A1 := at_time t2 _).
  assert (amap A1 !! k = Some (AStr v, Some (t1 + ms))) as Hm by apply lookup_insert_eq.
  assert (areplies A1 = areplies A ++ [ReplyOk]) as Hr by (simpl; by rewrite purge_replies).
  assert (aclock A1 = t2) as Hc by done. clearbody A1.
  destruct (Z.leb_spec t2 (t1 + ms)) as [Hle|Hgt].
  - rewrite (purge_fresh k A1 _ _ Hm) by (intros w [= <-]; lia). unfold a_value. rewrite Hm. split.
    + simpl. rewrite Hr, <-!app_assoc. done.
    + simpl. rewrite Hm. split; [done|lia].
  - assert (expired A1 k = true) as He by (unfold expired; rewrite Hm; apply Z.ltb_lt; lia).
    unfold a_value, a_purge. rewrite He. simpl. rewrite lookup_delete_eq. simpl. split.
    + by rewrite Hr, <-app_assoc.
    + by rewrite lookup_delete_eq.
Qed.

(** C23: a counter is exact: INCRBY returns and stores the sum as an integer, and when
    the sum does not fit in 64 bits it returns the error and leaves the value alone. *)
Theorem counter_exact A s t1 t2 t3 k a b :
  Rest A s → moment t1 → moment t2 → moment t3 → argument k → in_s 64 a → in_s 64 b →
  ∃ s', session [(t1, q_set k (Util.print a)); (t2, q_incrby k b); (t3, q_get k)] s = Some (tt, s') ∧
    replies s' = replies s ++ ReplyOk ::
      (if bool_decide (in_s 64 (a + b))
       then [ReplyColon; ReplyObj (Util.print (a + b)); ReplyCrlf] ++ bulk_reply (Util.print (a + b))
       else ReplyError "increment or decrement would overflow" :: bulk_reply (Util.print a)).
Proof.
  intros HR H1 H2 H3 Hk Ha Hb.
  destruct (session_steps shared_integers maxmemory maxmemory_policy readonly_client lazyfree_lazy_expire lazyfree_lazy_server_del
    shared_del shared_unlink [(t1, q_set k (Util.print a)); (t2, q_incrby k b); (t3, q_get k)] A s HR) as ([] & s' & E & HR');
    [repeat (apply Forall_cons; split); [apply set_ok; [done|done|by apply number_ok]|by apply incrby_ok|by apply get_ok|done]|].
  exists s'. split; [done|]. rewrite (R_replies _ _ _ _ _ _ _ _ HR'), (R_replies _ _ _ _ _ _ _ _ HR). clear HR' E.
  unfold a_session. cbn [foldl fst snd]. rewrite get_is, incrby_is, set_is by done. set (A1 := at_time t2 _).
  assert (amap A1 !! k = Some (AStr (Util.print a), None)) as Hm by apply lookup_insert_eq.
  assert (areplies A1 = areplies A ++ [ReplyOk]) as Hr by (simpl; by rewrite purge_replies).
  unfold s_add. change (key_of (q_incrby k b)) with k. rewrite (purge_fresh k A1 _ _ Hm) by done. unfold find. rewrite Hm.
  rewrite Util.string2ll_complete by done.
  assert ((LLONG_MIN <=? a + b) && (a + b <=? LLONG_MAX) = bool_decide (in_s 64 (a + b))) as ->.
  { unfold LLONG_MIN, LLONG_MAX, in_s. change (2 ^ (64 - 1)) with (2 ^ 63). apply eq_true_iff_eq.
    rewrite andb_true_iff, !Z.leb_le, bool_decide_eq_true. lia. }
  case_bool_decide as Hin.
  - set (A2 := at_time t3 _). assert (amap A2 !! k = Some (AStr (Util.print (a + b)), None)) as Hm2 by apply lookup_insert_eq.
    rewrite (purge_fresh k A2 _ _ Hm2) by done. unfold a_value. rewrite Hm2. unfold A2. simpl in *. by rewrite purge_replies, <-!app_assoc.
  - set (A2 := at_time t3 _). assert (amap A2 !! k = Some (AStr (Util.print a), None)) as Hm2 by apply lookup_insert_eq.
    rewrite (purge_fresh k A2 _ _ Hm2) by done. unfold a_value. rewrite Hm2. unfold A2. simpl in *. by rewrite purge_replies, <-!app_assoc.
Qed.
End Facts.

Lemma a_word : argument (bytes_of "a"). Proof. by apply word_ok. Qed.
Lemma x_word : argument (bytes_of "0x1"). Proof. by apply word_ok. Qed.

Lemma set_get_roundtrip_witness : ∃ s',
  session (H := junk0) false false false false false demo_del demo_unlink demo_shared 0 0
    [(1000, q_set (bytes_of "a") (bytes_of "0x1")); (900, q_get (bytes_of "a"))] demo_server = Some (tt, s') ∧
  replies s' = [ReplyOk; ReplyBulkLen 3; ReplyObj (bytes_of "0x1"); ReplyCrlf].
Proof.
  apply (set_get_roundtrip (H := junk0) demo_shared 0 0 false false false demo_del demo_unlink demo_map demo_server 1000 900 (bytes_of "a") (bytes_of "0x1"));
    [apply demo_rest|done|done|apply a_word|apply x_word].
Defined.

Lemma expired_key_is_gone_witness : ∃ s',
  session (H := junk0) false false false false false demo_del demo_unlink demo_shared 0 0
    [(1000, q_setpx (bytes_of "a") (bytes_of "0x1") 500); (1501, q_get (bytes_of "a"))] demo_server = Some (tt, s') ∧
  replies s' = [ReplyOk; ReplyNull] ∧ (dict s' !! bytes_of "a" = None ↔ 1500 < 1501).
Proof.
  apply (expired_key_is_gone (H := junk0) demo_shared 0 0 false false false demo_del demo_unlink demo_map demo_server 1000 1501 (bytes_of "a") (bytes_of "0x1") 500);
    [apply demo_rest|done|done|apply a_word|apply x_word|done|done].
Defined.

Lemma counter_exact_witness : ∃ s',
  session (H := junk0) false false false false false demo_del demo_unlink demo_shared 0 0
    [(1000, q_set (bytes_of "a") (Util.print 9223372036854775807)); (1000, q_incrby (bytes_of "a") 1); (1000, q_get (bytes_of "a"))] demo_server = Some (tt, s') ∧
  replies s' = [ReplyOk; ReplyError "increment or decrement would overflow"; ReplyBulkLen 19; ReplyObj (bytes_of "9223372036854775807"); ReplyCrlf].
Proof.
  apply (counter_exact (H := junk0) demo_shared 0 0 false false false demo_del demo_unlink demo_map demo_server 1000 1000 1000 (bytes_of "a") 9223372036854775807 1);
    [apply demo_rest|done|done|done|apply a_word|done|done].
Defined.

(** ** Beyond 64 bits *)

(** A server with an empty database; no shared integer is used below. *)
Definition small_heap : heap :=
  {[demo_del := demo_string OBJ_ENCODING_RAW (bytes_of "DEL"); demo_unlink := demo_string OBJ_ENCODING_RAW (bytes_of "UNLINK")]}.

Definition run_small (qs : list (Z * list bytes)) : option (unit * state) :=
  session (H := junk0) false false false false false demo_del demo_unlink demo_shared 0 0 qs (State ∅ ∅ small_heap [] 0 0 [] []).

(** EXPIRE with a number of seconds whose milliseconds do not fit removes the key. *)
Theorem expire_seconds_wrap :
  replies ∘ snd <$> run_small
    [(1600000000000, q_set (bytes_of "a") (bytes_of "x"));
     (1600000000000, [bytes_of "EXPIRE"; bytes_of "a"; bytes_of "9223372036854776"]);
     (1600000000000, [bytes_of "EXISTS"; bytes_of "a"])] = Some [ReplyOk; ReplyInt 1; ReplyInt 0].
Proof. vm_compute. reflexivity. Qed.

(** SET with a life of 18446744073709552 seconds sets a key that lives for 384
    milliseconds. *)
Theorem set_ex_wrap :
  replies ∘ snd <$> run_small
    [(1600000000000, [bytes_of "SET"; bytes_of "a"; bytes_of "x"; bytes_of "EX"; bytes_of "18446744073709552"]);
     (1600000000385, q_get (bytes_of "a"))] = Some [ReplyOk; ReplyNull].
Proof. vm_compute. reflexivity. Qed.

(** SET with the largest life in milliseconds, which is accepted, overflows the sum for
    the deadline; when it wraps the deadline is negative, which counts as none, and the
    key stays. *)
Theorem set_px_wrap :
  replies ∘ snd <$> run_small
    [(1600000000000, q_setpx (bytes_of "a") (bytes_of "x") 9223372036854775807);
     (1600000000000, [bytes_of "PTTL"; bytes_of "a"]);
     (9000000000000000, q_get (bytes_of "a"))] = Some [ReplyOk; ReplyInt 9223372036854775807; ReplyBulkLen 1; ReplyObj (bytes_of "x"); ReplyCrlf].
Proof. vm_compute. reflexivity. Qed.

(** DECRBY of the smallest number on a key that does not exist stores that number
    instead of reporting that its negation does not fit. *)
Theorem decrby_min_wraps :
  replies ∘ snd <$> run_small
    [(1600000000000, [bytes_of "DECRBY"; bytes_of "a"; bytes_of "-9223372036854775808"])] =
  Some [ReplyColon; ReplyObj (bytes_of "-9223372036854775808"); ReplyCrlf].
Proof. vm_compute. reflexivity. Qed.

(** The check of the length lets a SETRANGE at the largest offset pass. *)
Theorem setrange_length_wraps s : checkStringLength (swrap 64 (9223372036854775807 + 1)) s = Some (true, s).
Proof. reflexivity. Qed.

(** The access after the deadline removes the key and notifies of it, and signals
    nothing: a transaction of a client that watches the key is not aborted. *)
Theorem expiry_not_signalled :
  (λ r : unit * state, (events r.2, size (expires r.2))) <$> run_small
    [(1000, q_setpx (bytes_of "a") (bytes_of "x") 500); (2000, [bytes_of "GET"; bytes_of "a"])] =
    Some ([SignalModifiedKey (bytes_of "a"); NotifyKeyspaceEvent NOTIFY_STRING "set" (bytes_of "a");
           NotifyKeyspaceEvent NOTIFY_GENERIC "expire" (bytes_of "a");
           PropagateExpire false (bytes_of "a"); NotifyKeyspaceEvent NOTIFY_EXPIRED "expired" (bytes_of "a")], 0%nat).
Proof. vm_compute. reflexivity. Qed.

(** PERSIST removes the deadline and counts a change, and signals nothing: a client
    that watches the key is not told. *)
Theorem persist_not_signalled :
  (λ r : unit * state, (events r.2, dirty r.2, size (expires r.2))) <$> run_small [(1000, q_setpx (bytes_of "a") (bytes_of "x") 500)] =
    Some ([SignalModifiedKey (bytes_of "a"); NotifyKeyspaceEvent NOTIFY_STRING "set" (bytes_of "a");
           NotifyKeyspaceEvent NOTIFY_GENERIC "expire" (bytes_of "a")], 1, 1%nat) ∧
  (λ r : unit * state, (events r.2, dirty r.2, size (expires r.2))) <$> run_small
    [(1000, q_setpx (bytes_of "a") (bytes_of "x") 500); (1000, [bytes_of "PERSIST"; bytes_of "a"])] =
    Some ([SignalModifiedKey (bytes_of "a"); NotifyKeyspaceEvent NOTIFY_STRING "set" (bytes_of "a");
           NotifyKeyspaceEvent NOTIFY_GENERIC "expire" (bytes_of "a")], 2, 0%nat).
Proof. split; vm_compute; reflexivity. Qed.
