(* ===== verification/Multi.v ===== *)
(** * multi.c: transactions and watched keys

    The clients of a server, the queues of their transactions, the keys they watch and
    the table from watched keys to clients.  What multi.c calls of the rest of the
    server is the class [Procs]; [MultiKeyspace] has its instance, the commands of db.c,
    expire.c and t_string.c.  A failed assertion and a pointer to a client that is gone
    give [None]. *)

From Stdlib Require Import String.
From S2P Require Import Prelude.
From S2P Require Import Mem.

#[local] Notation length := Datatypes.length.

(** The hooks that the commands call: [signalModifiedKey] and [signalFlushedDb] of
    db.c, and [propagateExpire] for a key that is removed because it expired. *)
Inductive hook := Modified (db : Z) (key : bytes) | Flushed (dbid : Z) | Expired (db : Z) (key : bytes).

(** What the server runs: [proc now db x d] is the procedure of the command [x] at the
    time [now] on the database [db] of the data [d], with the data after it, its
    replies, the hooks it called and the changes it counted in [server.dirty];
    [refuse] is the error of [processCommand] for a wrong number of arguments;
    [readonly_or_admin] the flags CMD_READONLY and CMD_ADMIN; [has] is [dictFind]. *)
Class Procs (D cmd rep : Type) := {
  proc : Z → Z → cmd → D → option (D * list rep * list hook * Z);
  refuse : cmd → option string;
  readonly_or_admin : cmd → bool;
  has : D → Z * bytes → bool;
}.

Module Multi.

Definition cid := positive.

Section Multi.
Context {D cmd rep : Type} `{!Procs D cmd rep} (dbnum : Z).

(** How SAVE ends: a background save is running, or what [rdbSave] returns. *)
Inductive saved := InProgress | Saved | SaveFailed.

(** A command that MULTI queues. *)
Inductive queued := Unwatch | Select (id : Z) | Save (r : saved) | Data (x : cmd).

Inductive reply :=
| ROk | RErr | RQueued | RNullMultiBulk | RExecAbort
| RError (msg : string) | RMultiBulkLen (n : Z) | RData (r : rep).

(** The fields of a client that multi.c uses, with CLIENT_MULTI, CLIENT_DIRTY_CAS and
    CLIENT_DIRTY_EXEC of its flags. *)
Record client := Client {
  c_db : Z; c_multi : bool; c_dirty_cas : bool; c_dirty_exec : bool;
  mstate : list queued; watched_keys : list (Z * bytes) }.

(** What goes to the append only file and the slaves: MULTI and EXEC, a command, and the
    deletion of an expired key. *)
Inductive feed := FMulti (db : Z) | FExec (db : Z) | FData (db : Z) (x : cmd) | FDel (db : Z) (key : bytes).

Record server := Server {
  clients : gmap cid client;
  watched : gmap (Z * bytes) (list cid);
  data : D; dirty : Z; propagated : list feed }.

Definition set_clients (f : gmap cid client → gmap cid client) (s : server) : server :=
  Server (f (clients s)) (watched s) (data s) (dirty s) (propagated s).
Definition set_watched w (s : server) : server := Server (clients s) w (data s) (dirty s) (propagated s).
Definition set_data d (s : server) : server := Server (clients s) (watched s) d (dirty s) (propagated s).
Definition add_dirty n (s : server) : server := Server (clients s) (watched s) (data s) (dirty s + n) (propagated s).
Definition set_dirty n (s : server) : server := Server (clients s) (watched s) (data s) n (propagated s).
Definition propagate f (s : server) : server := Server (clients s) (watched s) (data s) (dirty s) (propagated s ++ [f]).
Definition put_client c cl (s : server) : server := set_clients (insert c cl) s.

Definition set_keys ks (cl : client) : client := Client (c_db cl) (c_multi cl) (c_dirty_cas cl) (c_dirty_exec cl) (mstate cl) ks.
Definition set_db id (cl : client) : client := Client id (c_multi cl) (c_dirty_cas cl) (c_dirty_exec cl) (mstate cl) (watched_keys cl).
Definition set_multi b (cl : client) : client := Client (c_db cl) b (c_dirty_cas cl) (c_dirty_exec cl) (mstate cl) (watched_keys cl).
Definition set_cas b (cl : client) : client := Client (c_db cl) (c_multi cl) b (c_dirty_exec cl) (mstate cl) (watched_keys cl).
Definition set_exec b (cl : client) : client := Client (c_db cl) (c_multi cl) (c_dirty_cas cl) b (mstate cl) (watched_keys cl).
Definition set_mstate q (cl : client) : client := Client (c_db cl) (c_multi cl) (c_dirty_cas cl) (c_dirty_exec cl) q (watched_keys cl).

(** ** Watched keys *)

Definition watchForKey (c : cid) (key : bytes) (s : server) : option server :=
  cl ← clients s !! c;
  let wk := (c_db cl, key) in
  if bool_decide (wk ∈ watched_keys cl) then Some s else
  let l := default [] (watched s !! wk) in
  let s := set_watched (<[wk := l ++ [c]]> (watched s)) s in
  Some (put_client c (set_keys (watched_keys cl ++ [wk]) cl) s).

(** [listDelNode(clients,listSearchKey(clients,c))] *)
Fixpoint del_client (c : cid) (l : list cid) : option (list cid) :=
  match l with
  | [] => None
  | x :: l => if bool_decide (x = c) then Some l else l ← del_client c l; Some (x :: l)
  end.

(** The body of the loop of [unwatchAllKeys]. *)
Definition unwatch_key (c : cid) (wk : Z * bytes) (w : gmap (Z * bytes) (list cid)) : option (gmap (Z * bytes) (list cid)) :=
  l ← w !! wk;
  l ← del_client c l;
  Some (match l with [] => delete wk w | _ => <[wk := l]> w end).

Fixpoint unwatch_keys (c : cid) (ks : list (Z * bytes)) (w : gmap (Z * bytes) (list cid)) : option (gmap (Z * bytes) (list cid)) :=
  match ks with
  | [] => Some w
  | wk :: ks => w ← unwatch_key c wk w; unwatch_keys c ks w
  end.

Definition unwatchAllKeys (c : cid) (s : server) : option server :=
  cl ← clients s !! c;
  w ← unwatch_keys c (watched_keys cl) (watched s);
  Some (put_client c (set_keys [] cl) (set_watched w s)).

(** [c->flags |= CLIENT_DIRTY_CAS] for every client of a list. *)
Fixpoint mark_dirty (l : list cid) (cs : gmap cid client) : option (gmap cid client) :=
  match l with
  | [] => Some cs
  | c :: l => cl ← cs !! c; mark_dirty l (<[c := set_cas true cl]> cs)
  end.

Definition touchWatchedKey (db : Z) (key : bytes) (s : server) : option server :=
  match watched s !! (db, key) with
  | None => Some s
  | Some l => cs ← mark_dirty l (clients s); Some (set_clients (λ _, cs) s)
  end.

(** Every client that watches a key of the database that exists. *)
Definition flush_client (d : D) (dbid : Z) (cl : client) : client :=
  if existsb (λ wk : Z * bytes, ((dbid =? -1) || (wk.1 =? dbid)) && has d wk) (watched_keys cl)
  then set_cas true cl else cl.

Definition touchWatchedKeysOnFlush (d : D) (dbid : Z) (s : server) : server :=
  set_clients (fmap (flush_client d dbid)) s.

(** [signalModifiedKey], [signalFlushedDb] and [propagateExpire]; [d] is the data before
    the command, as a flush signals first. *)
Definition signal (d : D) (s : server) (h : hook) : option server :=
  match h with
  | Modified db key => touchWatchedKey db key s
  | Flushed dbid => Some (touchWatchedKeysOnFlush d dbid s)
  | Expired db key => Some (propagate (FDel db key) s)
  end.

Fixpoint signals (d : D) (hs : list hook) (s : server) : option server :=
  match hs with [] => Some s | h :: hs => s ← signal d s h; signals d hs s end.

(** ** Transactions *)

Definition initClientMultiState (cl : client) : client := set_mstate [] cl.

Definition queueMultiCommand (q : queued) (cl : client) : client := set_mstate (mstate cl ++ [q]) cl.

Definition discardTransaction (c : cid) (s : server) : option server :=
  cl ← clients s !! c;
  let cl := initClientMultiState cl in
  let cl := set_exec false (set_cas false (set_multi false cl)) in
  unwatchAllKeys c (put_client c cl s).

Definition flagTransaction (cl : client) : client := if c_multi cl then set_exec true cl else cl.

Definition multiCommand (c : cid) (s : server) : option (server * list reply) :=
  cl ← clients s !! c;
  if c_multi cl then Some (s, [RError "MULTI calls can not be nested"])
  else Some (put_client c (set_multi true cl) s, [ROk]).

Definition discardCommand (c : cid) (s : server) : option (server * list reply) :=
  cl ← clients s !! c;
  if negb (c_multi cl) then Some (s, [RError "DISCARD without MULTI"])
  else s ← discardTransaction c s; Some (s, [ROk]).

Fixpoint watch_loop (c : cid) (keys : list bytes) (s : server) : option server :=
  match keys with [] => Some s | key :: keys => s ← watchForKey c key s; watch_loop c keys s end.

Definition watchCommand (c : cid) (keys : list bytes) (s : server) : option (server * list reply) :=
  cl ← clients s !! c;
  if c_multi cl then Some (s, [RError "WATCH inside MULTI is not allowed"])
  else s ← watch_loop c keys s; Some (s, [ROk]).

Definition unwatchCommand (c : cid) (s : server) : option (server * list reply) :=
  s ← unwatchAllKeys c s;
  cl ← clients s !! c;
  Some (put_client c (set_cas false cl) s, [ROk]).

Definition selectCommand (c : cid) (id : Z) (s : server) : option (server * list reply) :=
  cl ← clients s !! c;
  if (id <? 0) || (id >=? dbnum) then Some (s, [RError "DB index is out of range"])
  else Some (put_client c (set_db id cl) s, [ROk]).

(** [rdbSave] resets the count of changes when it succeeds. *)
Definition saveCommand (r : saved) (s : server) : option (server * list reply) :=
  match r with
  | InProgress => Some (s, [RError "Background save already in progress"])
  | Saved => Some (set_dirty 0 s, [ROk])
  | SaveFailed => Some (s, [RErr])
  end.

(** [call] of a command that is not one of a transaction: the procedure, then the
    propagation if it counted changes. *)
Definition call_queued (c : cid) (now : Z) (q : queued) (s : server) : option (server * list reply) :=
  match q with
  | Unwatch => unwatchCommand c s
  | Select id => selectCommand c id s
  | Save r => saveCommand r s
  | Data x =>
      cl ← clients s !! c;
      match proc now (c_db cl) x (data s) with
      | None => None
      | Some (d, rs, hs, n) =>
          s ← signals (data s) hs s;
          let s := add_dirty n (set_data d s) in
          let s := if 0 <? n then propagate (FData (c_db cl) x) s else s in
          Some (s, RData <$> rs)
      end
  end.

Definition is_readonly (q : queued) : bool := match q with Data x => readonly_or_admin x | Save _ => true | _ => false end.

(** The loop over the queued commands; [time j] is the time when the command [j] runs. *)
Fixpoint exec_loop (c : cid) (time : nat → Z) (j : nat) (qs : list queued) (must : bool) (s : server) (rs : list reply)
    : option (bool * server * list reply) :=
  match qs with
  | [] => Some (must, s, rs)
  | q :: qs =>
      cl ← clients s !! c;
      let '(must, s) := if negb must && negb (is_readonly q) then (true, propagate (FMulti (c_db cl)) s) else (must, s) in
      '(s, r) ← call_queued c (time j) q s;
      exec_loop c time (S j) qs must s (rs ++ r)
  end.

Definition execCommand (c : cid) (time : nat → Z) (s : server) : option (server * list reply) :=
  cl ← clients s !! c;
  if negb (c_multi cl) then Some (s, [RError "EXEC without MULTI"]) else
  if c_dirty_cas cl || c_dirty_exec cl then
    s ← discardTransaction c s;
    Some (s, [if c_dirty_exec cl then RExecAbort else RNullMultiBulk])
  else
    s ← unwatchAllKeys c s;
    '(must, s, rs) ← exec_loop c time 0 (mstate cl) false s [RMultiBulkLen (zlen (mstate cl))];
    s ← discardTransaction c s;
    Some (if must : bool then add_dirty 1 s else s, rs).

(** ** The server *)

(** The queries, with the times at which the commands on the data run. *)
Inductive query := Multi | Exec (time : nat → Z) | Discard | Watch (keys : list bytes) | Queue (now : Z) (q : queued).

(** [call]: EXEC is propagated if it counted changes; the others of these do not count
    any. *)
Definition call (c : cid) (q : query) (s : server) : option (server * list reply) :=
  match q with
  | Multi => multiCommand c s
  | Discard => discardCommand c s
  | Watch keys => watchCommand c keys s
  | Queue now q => call_queued c now q s
  | Exec time =>
      '(s', rs) ← execCommand c time s;
      cl ← clients s' !! c;
      Some (if 0 <? dirty s' - dirty s then propagate (FExec (c_db cl)) s' else s', rs)
  end.

(** A query that [processCommand] refuses: an unknown name, a wrong number of arguments
    and other conditions. *)
Definition refuseCommand (c : cid) (msg : string) (s : server) : option (server * list reply) :=
  cl ← clients s !! c;
  Some (put_client c (flagTransaction cl) s, [RError msg]).

Definition refused (q : queued) : option string := match q with Data x => refuse x | _ => None end.

(** The check of the arguments and the end of [processCommand]. *)
Definition processCommand (c : cid) (q : query) (s : server) : option (server * list reply) :=
  cl ← clients s !! c;
  match q with
  | Queue _ b =>
      match refused b with
      | Some msg => refuseCommand c msg s
      | None => if c_multi cl then Some (put_client c (queueMultiCommand b cl) s, [RQueued]) else call c q s
      end
  | _ => call c q s
  end.

Definition createClient (c : cid) (s : server) : server :=
  put_client c (initClientMultiState (Client 0 false false false [] [])) s.

Definition freeClient (c : cid) (s : server) : option server :=
  s ← unwatchAllKeys c s;
  Some (set_clients (delete c) s).

Inductive event := Connect (c : cid) | Close (c : cid) | Query (c : cid) (q : query) | Refused (c : cid) (msg : string).

Definition step (e : event) (s : server) : option (server * list reply) :=
  match e with
  | Connect c => Some (createClient c s, [])
  | Close c => s ← freeClient c s; Some (s, [])
  | Query c q => processCommand c q s
  | Refused c msg => refuseCommand c msg s
  end.

(** A new client has a new address, and only clients that are connected send. *)
Definition enabled (e : event) (s : server) : bool :=
  match e with
  | Connect c => bool_decide (clients s !! c = None)
  | Close c | Query c _ | Refused c _ => bool_decide (is_Some (clients s !! c))
  end.

Definition initial (d : D) : server := Server ∅ ∅ d 0 [].
End Multi.
#[global] Arguments Unwatch {_}.
#[global] Arguments Select {_} _.
#[global] Arguments Save {_} _.
#[global] Arguments queued : clear implicits.
#[global] Arguments query : clear implicits.
#[global] Arguments event : clear implicits.
#[global] Arguments feed : clear implicits.
#[global] Arguments reply : clear implicits.
#[global] Arguments client : clear implicits.
#[global] Arguments server : clear implicits.
End Multi.
