(* ===== verification/MultiSpec.v ===== *)
(** * multi.c: the table of watched keys, and optimistic locking

    The table from watched keys to clients and the lists of the clients always agree,
    so that no event of any interleaving of clients fails; a transaction is executed
    only if no key that its client watches was signalled since, and then as one step;
    and what is propagated of it is one block between MULTI and EXEC.  The proofs are
    for any commands that meet [ProcsOk]; the theorems for the commands of the keyspace
    are in [MultiKeyspace]. *)

From Stdlib Require Import String.
From S2P Require Import Prelude.
From S2P Require Import Mem.
From S2P Require Import Multi.

#[local] Notation length := Datatypes.length.

(** What multi.c relies on of the commands.  A command that is [ok] runs on data that
    satisfy [inv]; it counts no change if it is read only, and no negative number of
    them; and the value of a key that it does not signal at most fades, as the value of
    a key that expires does. *)
Definition hook_touches {D cmd rep} `{!Procs D cmd rep} (d : D) (wk : Z * bytes) (h : hook) : bool :=
  match h with
  | Modified db key => bool_decide (wk = (db, key))
  | Flushed dbid => ((dbid =? -1) || (wk.1 =? dbid)) && has d wk
  | Expired _ _ => false
  end.

Class ProcsOk (D cmd rep V : Type) `{!Procs D cmd rep} (inv : D → Prop) (ok : Z → cmd → Prop)
    (value : D → Z * bytes → V) (fades : relation V) : Prop := {
  fades_preorder :: PreOrder fades;
  proc_ok now db x d :
    inv d → ok now x →
    ∃ d' rs hs n, proc now db x d = Some (d', rs, hs, n) ∧ inv d' ∧ 0 ≤ n ∧ (readonly_or_admin x = true → n = 0) ∧
      ∀ wk, existsb (hook_touches d wk) hs = false → fades (value d wk) (value d' wk);
}.

Module MultiSpec.
Import Multi.

(** ** The two views of the watched keys *)

Record Sync (w : gmap (Z * bytes) (list cid)) (K : gmap cid (list (Z * bytes))) : Prop := {
  sync_iff c k : (∃ l, w !! k = Some l ∧ c ∈ l) ↔ (∃ ks, K !! c = Some ks ∧ k ∈ ks);
  sync_clients k l : w !! k = Some l → NoDup l ∧ l ≠ [];
  sync_keys c ks : K !! c = Some ks → NoDup ks }.

Lemma sync_empty : Sync ∅ ∅.
Proof. split; [|by intros k l|by intros c ks]. intros c k. split; intros (? & ? & _); done. Qed.

Lemma sync_watch w K c ks k :
  Sync w K → K !! c = Some ks → k ∉ ks → Sync (<[k := default [] (w !! k) ++ [c]]> w) (<[c := ks ++ [k]]> K).
Proof.
  intros [Hiff Hc Hk] HK Hks.
  assert (Hnot : c ∉ default [] (w !! k)).
  { destruct (w !! k) as [l|] eqn:E; simpl; [|apply not_elem_of_nil]. intros Hin.
    destruct (proj1 (Hiff c k)) as (ks' & ? & ?); [by eauto|]. by simplify_eq. }
  split.
  - intros c' k'. destruct (decide (k' = k)) as [->|Hkk].
    + setoid_rewrite lookup_insert_eq. transitivity (c' ∈ default [] (w !! k) ∨ c' = c).
      { split; [intros (l & [= <-] & H)|intros H; eexists; split; [done|]]; rewrite elem_of_app, list_elem_of_singleton in *; done. }
      assert (Hd : c' ∈ default [] (w !! k) ↔ ∃ l, w !! k = Some l ∧ c' ∈ l).
      { destruct (w !! k) as [l|]; simpl; [naive_solver|]. split; [by intros ?%not_elem_of_nil|naive_solver]. }
      rewrite Hd, Hiff. destruct (decide (c' = c)) as [->|Hcc].
      * split; [|naive_solver]. intros _. eexists. rewrite lookup_insert_eq. split; [done|].
        apply elem_of_app. right. by apply list_elem_of_singleton.
      * rewrite lookup_insert_ne by done. naive_solver.
    + rewrite lookup_insert_ne by done. rewrite Hiff. destruct (decide (c' = c)) as [->|Hcc].
      * rewrite lookup_insert_eq, HK. split; intros (? & [= <-] & Hin); (eexists; split; [done|]).
        { apply elem_of_app. by left. }
        { apply elem_of_app in Hin as [?|?%list_elem_of_singleton]; done. }
      * by rewrite lookup_insert_ne by done.
  - intros k' l. destruct (decide (k' = k)) as [->|]; [|rewrite lookup_insert_ne by done; apply Hc].
    rewrite lookup_insert_eq. intros [= <-]. split; [|by destruct (default [] _)].
    apply NoDup_app. split; [|split; [|apply NoDup_singleton]].
    + destruct (w !! k) as [l|] eqn:E; simpl; [by apply (Hc k)|constructor].
    + intros x Hx ->%list_elem_of_singleton. done.
  - intros c' ks'. destruct (decide (c' = c)) as [->|]; [|rewrite lookup_insert_ne by done; apply Hk].
    rewrite lookup_insert_eq. intros [= <-]. apply NoDup_app. split; [by apply (Hk c)|split; [|apply NoDup_singleton]].
    intros x Hx ->%list_elem_of_singleton. done.
Qed.

Lemma del_client_ok c l :
  NoDup l → c ∈ l → ∃ l', del_client c l = Some l' ∧ NoDup l' ∧ ∀ x, x ∈ l' ↔ x ∈ l ∧ x ≠ c.
Proof.
  induction 1 as [|x l Hx Hl IH]; [by intros ?%not_elem_of_nil|]. intros Hin. simpl.
  destruct (decide (x = c)) as [->|Hne].
  - rewrite bool_decide_true by done. exists l. split; [done|]. split; [done|]. intros y. rewrite elem_of_cons.
    split; [|naive_solver]. intros Hy. split; [by right|]. by intros ->.
  - rewrite bool_decide_false by done. apply elem_of_cons in Hin as [->|Hin]; [done|].
    destruct (IH Hin) as (l' & -> & Hl' & Hiff). exists (x :: l'). split; [done|]. split.
    + constructor; [|done]. rewrite Hiff. naive_solver.
    + intros y. rewrite !elem_of_cons, Hiff. naive_solver.
Qed.

Lemma sync_unwatch_key w K c k ks :
  Sync w K → K !! c = Some (k :: ks) → ∃ w', unwatch_key c k w = Some w' ∧ Sync w' (<[c := ks]> K).
Proof.
  intros [Hiff Hc Hk] HK. destruct (proj2 (Hiff c k)) as (l & Hl & Hin); [exists (k :: ks); split; [done|]; apply list_elem_of_here|].
  destruct (Hc k l Hl) as [Hnd _]. destruct (del_client_ok c l Hnd Hin) as (l' & Hdel & Hnd' & Hmem).
  pose proof (Hk c _ HK) as Hks. apply NoDup_cons in Hks as [Hkn Hks].
  unfold unwatch_key. rewrite Hl. cbn [mbind option_bind]. rewrite Hdel. cbn [mbind option_bind].
  set (w' := match l' with [] => delete k w | _ => <[k := l']> w end).
  assert (Hw' : ∀ k', w' !! k' = if decide (k' = k) then (match l' with [] => None | _ => Some l' end) else w !! k').
  { intros k'. unfold w'. destruct (decide (k' = k)) as [->|]; destruct l'; by rewrite ?lookup_delete_eq, ?lookup_insert_eq, ?lookup_delete_ne, ?lookup_insert_ne by done. }
  exists w'. split; [by destruct l'|]. split.
  - intros c' k'. rewrite Hw'. destruct (decide (k' = k)) as [->|Hkk].
    + transitivity (c' ∈ l').
      { destruct l'; [split; [naive_solver|by intros ?%not_elem_of_nil]|naive_solver]. }
      rewrite Hmem. destruct (decide (c' = c)) as [->|Hcc].
      * rewrite lookup_insert_eq. split; [naive_solver|]. intros (? & [= <-] & ?). done.
      * rewrite lookup_insert_ne by done. rewrite <-Hiff. naive_solver.
    + rewrite Hiff. destruct (decide (c' = c)) as [->|Hcc]; [|by rewrite lookup_insert_ne].
      rewrite lookup_insert_eq, HK. split; intros (? & [= <-] & Hx); (eexists; split; [done|]); [|by apply list_elem_of_further].
      apply elem_of_cons in Hx as [?|?]; done.
  - intros k' l0. rewrite Hw'. destruct (decide (k' = k)); [|apply Hc]. destruct l'; [done|]. intros [= <-]. done.
  - intros c' ks'. destruct (decide (c' = c)) as [->|]; [|rewrite lookup_insert_ne by done; apply Hk].
    rewrite lookup_insert_eq. by intros [= <-].
Qed.

Lemma sync_unwatch_keys ks : ∀ w K c,
  Sync w K → K !! c = Some ks → ∃ w', unwatch_keys c ks w = Some w' ∧ Sync w' (<[c := []]> K).
Proof.
  induction ks as [|k ks IH]; intros w K c HS HK; simpl.
  - exists w. split; [done|]. by rewrite insert_id.
  - destruct (sync_unwatch_key w K c k ks HS HK) as (w1 & -> & HS1). cbn [mbind option_bind].
    destruct (IH w1 (<[c := ks]> K) c HS1) as (w' & -> & HS'); [apply lookup_insert_eq|].
    exists w'. split; [done|]. by rewrite insert_insert_eq in HS'.
Qed.

Lemma sync_delete w K c : Sync w K → K !! c = Some [] → Sync w (delete c K).
Proof.
  intros [Hiff Hc Hk] HK. split; [|done|].
  - intros c' k. rewrite Hiff. destruct (decide (c' = c)) as [->|]; [|by rewrite lookup_delete_ne].
    rewrite HK, lookup_delete_eq. split; [|naive_solver]. intros (? & [= <-] & ?%not_elem_of_nil). done.
  - intros c' ks. destruct (decide (c' = c)) as [->|]; [by rewrite lookup_delete_eq|rewrite lookup_delete_ne by done; apply Hk].
Qed.

Lemma sync_new w K c : Sync w K → K !! c = None → Sync w (<[c := []]> K).
Proof.
  intros [Hiff Hc Hk] HK. split; [|done|].
  - intros c' k. rewrite Hiff. destruct (decide (c' = c)) as [->|]; [|by rewrite lookup_insert_ne].
    rewrite HK, lookup_insert_eq. split; [naive_solver|]. intros (? & [= <-] & ?%not_elem_of_nil). done.
  - intros c' ks. destruct (decide (c' = c)) as [->|]; [|rewrite lookup_insert_ne by done; apply Hk].
    rewrite lookup_insert_eq. intros [= <-]. constructor.
Qed.

Section Spec.
Context {D cmd rep V : Type} `{!Procs D cmd rep} {inv : D → Prop} {ok : Z → cmd → Prop}.
Context {value : D → Z * bytes → V} {fades : relation V} `{!ProcsOk D cmd rep V inv ok value fades} (dbnum : Z).
#[local] Notation server := (server D cmd).
#[local] Notation client := (client cmd).

Definition keys_of (s : server) : gmap cid (list (Z * bytes)) := watched_keys <$> clients s.
Definition wf (s : server) : Prop := Sync (watched s) (keys_of s).

Lemma keys_of_lookup s c cl : clients s !! c = Some cl → keys_of s !! c = Some (watched_keys cl).
Proof. intros H. unfold keys_of. by rewrite lookup_fmap, H. Qed.

(** A change of a client that is not one of its keys. *)
Lemma wf_put s c (cl cl' : client) : wf s → clients s !! c = Some cl → watched_keys cl' = watched_keys cl → wf (put_client c cl' s).
Proof.
  intros Hw Hc Hk. unfold wf, keys_of, put_client, set_clients. cbn [clients watched]. rewrite fmap_insert, Hk.
  rewrite insert_id; [done|by rewrite lookup_fmap, Hc].
Qed.

Lemma wf_initial d : wf (initial d).
Proof. unfold wf, keys_of, initial. cbn [clients watched]. rewrite fmap_empty. apply sync_empty. Qed.

(** ** Hooks *)

Definition touched (d : D) (hs : list hook) (ks : list (Z * bytes)) : bool := existsb (λ h, existsb (λ k, hook_touches d k h) ks) hs.

Definition hit (d : D) (hs : list hook) (cl : client) : client := if touched d hs (watched_keys cl) then set_cas true cl else cl.

Lemma mark_dirty_ok l : ∀ cs : gmap cid client,
  (∀ c, c ∈ l → is_Some (cs !! c)) →
  mark_dirty l cs = Some (map_imap (λ c cl, Some (if bool_decide (c ∈ l) then set_cas true cl else cl)) cs).
Proof.
  induction l as [|c l IH]; intros cs Hl; simpl.
  - f_equal. apply map_eq. intros c. rewrite map_lookup_imap. by destruct (cs !! c).
  - destruct (Hl c) as [cl Hcl]; [apply list_elem_of_here|]. rewrite Hcl. cbn [mbind option_bind]. rewrite IH.
    + f_equal. apply map_eq. intros c'. rewrite !map_lookup_imap. destruct (decide (c' = c)) as [->|Hne].
      * rewrite lookup_insert_eq, Hcl. simpl. rewrite (bool_decide_true (c ∈ c :: l)) by apply list_elem_of_here.
        by destruct (bool_decide (c ∈ l)).
      * rewrite lookup_insert_ne by done. destruct (cs !! c') as [cl'|]; [|done]. simpl. f_equal.
        rewrite (bool_decide_ext (c' ∈ c :: l) (c' ∈ l)); [done|]. rewrite elem_of_cons. naive_solver.
    + intros c' Hc'. destruct (decide (c' = c)) as [->|]; [by rewrite lookup_insert_eq|].
      rewrite lookup_insert_ne by done. apply Hl. by apply list_elem_of_further.
Qed.

Lemma touchWatchedKey_ok db key s :
  wf s → touchWatchedKey db key s
  = Some (set_clients (fmap (λ cl, if bool_decide ((db, key) ∈ watched_keys cl) then set_cas true cl else cl)) s).
Proof.
  intros Hw. unfold touchWatchedKey. pose proof (sync_iff _ _ Hw) as Hiff. destruct (watched s !! (db, key)) as [l|] eqn:E.
  - rewrite mark_dirty_ok.
    + cbn [mbind option_bind]. unfold set_clients. do 2 f_equal. apply map_eq. intros c. rewrite map_lookup_imap, lookup_fmap.
      destruct (clients s !! c) as [cl|] eqn:Ec; [|done]. simpl. f_equal.
      rewrite (bool_decide_ext (c ∈ l) ((db, key) ∈ watched_keys cl)); [done|]. specialize (Hiff c (db, key)).
      rewrite (keys_of_lookup s c cl Ec), E in Hiff. naive_solver.
    + intros c Hc. destruct (proj1 (Hiff c (db, key))) as (ks & Hks & _); [by eauto|]. unfold keys_of in Hks.
      rewrite lookup_fmap in Hks. by destruct (clients s !! c).
  - f_equal. destruct s as [cs w d n p]. unfold set_clients. cbn [clients watched data dirty propagated] in *. f_equal.
    apply map_eq. intros c. rewrite lookup_fmap. destruct (cs !! c) as [cl|] eqn:Ec; [|done]. simpl. f_equal.
    rewrite bool_decide_false; [done|]. intros Hin. destruct (proj2 (Hiff c (db, key))) as (l & Hl & _); [|by rewrite E in Hl].
    exists (watched_keys cl). split; [|done]. by apply (keys_of_lookup (Server cs w d n p)).
Qed.

Lemma existsb_single (wk : Z * bytes) ks :
  existsb (λ k, bool_decide (k = wk)) ks = bool_decide (wk ∈ ks).
Proof.
  induction ks as [|k ks IH]; [symmetry; apply bool_decide_false, not_elem_of_nil|]. cbn [existsb]. rewrite IH.
  destruct (decide (k = wk)) as [->|Hne].
  - rewrite bool_decide_true by done. symmetry. apply bool_decide_true, list_elem_of_here.
  - rewrite (bool_decide_false (k = wk)) by done. simpl. apply bool_decide_ext. rewrite elem_of_cons. naive_solver.
Qed.

Lemma hit_keys d hs cl : watched_keys (hit d hs cl) = watched_keys cl.
Proof. unfold hit. by destruct (touched _ _ _). Qed.

Lemma wf_hit d hs s : wf s → wf (set_clients (fmap (hit d hs)) s).
Proof.
  intros Hw. unfold wf, keys_of, set_clients. cbn [clients watched]. rewrite <-map_fmap_compose.
  replace (watched_keys ∘ hit d hs <$> clients s) with (watched_keys <$> clients s); [done|].
  apply map_fmap_ext. intros c cl _. symmetry. apply hit_keys.
Qed.

Lemma set_clients_ext f g s : (∀ cl, f cl = g cl) → set_clients (fmap f) s = set_clients (fmap g) s :> server.
Proof. intros H. unfold set_clients. f_equal. apply map_fmap_ext. intros. apply H. Qed.

(** The deletions that the hooks propagate. *)
Definition dels (hs : list hook) : list (feed cmd) :=
  omap (λ h, match h with Expired db key => Some (FDel db key) | _ => None end) hs.

Definition fed (fs : list (feed cmd)) (s : server) : server := Server (clients s) (watched s) (data s) (dirty s) (propagated s ++ fs).

Lemma fed_nil s : fed [] s = s.
Proof. destruct s. unfold fed. cbn [propagated]. by rewrite app_nil_r. Qed.

Lemma hit_none d cl h : existsb (λ k, hook_touches d k h) (watched_keys cl) = false → hit d [h] cl = cl.
Proof. intros Hh. unfold hit, touched. simpl. by rewrite Hh. Qed.

Lemma set_clients_id f (s : server) : (∀ cl, f cl = cl) → set_clients (fmap f) s = s.
Proof.
  intros Hf. destruct s. unfold set_clients. cbn [clients]. f_equal. apply map_eq. intros c.
  rewrite lookup_fmap. destruct (_ !! c); simpl; [by rewrite Hf|done].
Qed.

Lemma hook_ok d s h : wf s → signal d s h = Some (fed (dels [h]) (set_clients (fmap (hit d [h])) s)).
Proof.
  intros Hw. destruct h as [db key|dbid|db key]; cbn [signal dels omap list_omap]; rewrite ?fed_nil.
  - rewrite touchWatchedKey_ok by done. f_equal. apply set_clients_ext. intros cl.
    unfold hit, touched. simpl. rewrite orb_false_r. by rewrite existsb_single.
  - f_equal. apply set_clients_ext. intros cl.
    unfold flush_client, hit, touched. simpl. by rewrite orb_false_r.
  - rewrite set_clients_id; [done|]. intros cl. apply hit_none. by induction (watched_keys cl).
Qed.

(** The hooks of a command mark exactly the clients that watch a key they touch. *)
Lemma signals_ok d hs : ∀ s, wf s → signals d hs s = Some (fed (dels hs) (set_clients (fmap (hit d hs)) s)).
Proof.
  induction hs as [|h hs IH]; intros s Hw; cbn [signals].
  - f_equal. cbn [dels omap list_omap]. rewrite fed_nil. symmetry. by apply set_clients_id.
  - rewrite hook_ok by done. cbn [mbind option_bind]. rewrite IH by (by apply (wf_hit d [h])). f_equal. unfold fed, set_clients.
    cbn [clients watched data dirty propagated]. f_equal.
    + rewrite <-map_fmap_compose. apply map_fmap_ext. intros c cl _.
      simpl. unfold hit at 1. rewrite hit_keys. unfold hit, touched. simpl. rewrite orb_false_r.
      destruct (existsb _ (watched_keys cl)), (existsb _ hs); done.
    + rewrite <-app_assoc. f_equal. by destruct h.
Qed.

(** ** Operations that change one client *)

Record quiet (c : cid) (cl' : client) (s s' : server) : Prop := {
  q_wf : wf s'; q_clients : clients s' = <[c := cl']> (clients s);
  q_data : data s' = data s; q_dirty : dirty s' = dirty s; q_feed : propagated s' = propagated s }.

Lemma put_quiet s c (cl cl' : client) :
  wf s → clients s !! c = Some cl → watched_keys cl' = watched_keys cl → quiet c cl' s (put_client c cl' s).
Proof. intros Hw Hc Hk. split; try done. by apply (wf_put s c cl). Qed.

Lemma quiet_trans c cl1 cl2 s s1 s2 : quiet c cl1 s s1 → quiet c cl2 s1 s2 → quiet c cl2 s s2.
Proof.
  intros [W1 C1 D1 R1 F1] [W2 C2 D2 R2 F2]. split; [done|by rewrite C2, C1, insert_insert_eq|congruence..].
Qed.

Lemma quiet_at c cl s s' : quiet c cl s s' → clients s' !! c = Some cl.
Proof. intros [_ -> _ _ _]. apply lookup_insert_eq. Qed.

Lemma quiet_self s c cl : wf s → clients s !! c = Some cl → quiet c cl s s.
Proof. intros Hw Hc. split; try done. by rewrite insert_id. Qed.

Lemma unwatchAllKeys_ok s c cl :
  wf s → clients s !! c = Some cl → ∃ s', unwatchAllKeys c s = Some s' ∧ quiet c (set_keys [] cl) s s'.
Proof.
  intros Hw Hc. unfold unwatchAllKeys. rewrite Hc. cbn [mbind option_bind].
  destruct (sync_unwatch_keys (watched_keys cl) (watched s) (keys_of s) c Hw) as (w & -> & HS); [by apply keys_of_lookup|].
  cbn [mbind option_bind]. eexists. split; [done|]. split; try done. unfold wf, keys_of. cbn. by rewrite fmap_insert.
Qed.

Definition fresh_client (db : Z) : client := Client db false false false [] [].

Lemma discardTransaction_ok s c cl :
  wf s → clients s !! c = Some cl → ∃ s', discardTransaction c s = Some s' ∧ quiet c (fresh_client (c_db cl)) s s'.
Proof.
  intros Hw Hc. unfold discardTransaction. rewrite Hc. cbn [mbind option_bind].
  set (cl1 := set_exec false (set_cas false (set_multi false (initClientMultiState cl)))).
  pose proof (put_quiet s c cl cl1 Hw Hc eq_refl) as Hq.
  destruct (unwatchAllKeys_ok (put_client c cl1 s) c cl1) as (s' & Hs' & Hq'); [apply Hq|by apply (quiet_at c cl1 s)|].
  exists s'. split; [done|]. exact (quiet_trans _ _ _ _ _ _ Hq Hq').
Qed.

Lemma watchForKey_ok s c cl key :
  wf s → clients s !! c = Some cl →
  ∃ s' ks, watchForKey c key s = Some s' ∧ quiet c (set_keys ks cl) s s' ∧ watched_keys cl ⊆ ks ∧ (c_db cl, key) ∈ ks.
Proof.
  intros Hw Hc. unfold watchForKey. rewrite Hc. cbn [mbind option_bind]. destruct (decide ((c_db cl, key) ∈ watched_keys cl)) as [Hin|Hin].
  - rewrite bool_decide_true by done. exists s, (watched_keys cl). split; [done|]. split; [|done].
    destruct cl. by apply quiet_self.
  - rewrite bool_decide_false by done. eexists _, _. split; [done|]. split.
    2:{ split; [intros k Hk; apply elem_of_app; by left|apply elem_of_app; right; by apply list_elem_of_singleton]. }
    split; try done. unfold wf, keys_of. cbn. rewrite fmap_insert. cbn [set_keys watched_keys].
    by apply sync_watch; [|apply keys_of_lookup|].
Qed.

Lemma watch_loop_ok keys : ∀ s c cl,
  wf s → clients s !! c = Some cl →
  ∃ s' ks, watch_loop c keys s = Some s' ∧ quiet c (set_keys ks cl) s s' ∧ watched_keys cl ⊆ ks ∧ ∀ key, key ∈ keys → (c_db cl, key) ∈ ks.
Proof.
  induction keys as [|key keys IH]; intros s c cl Hw Hc; simpl.
  - exists s, (watched_keys cl). split; [done|]. split; [destruct cl; by apply quiet_self|]. split; [done|]. by intros key ?%not_elem_of_nil.
  - destruct (watchForKey_ok s c cl key Hw Hc) as (s1 & ks1 & -> & Hq1 & Hsub1 & Hk1). cbn [mbind option_bind].
    destruct (IH s1 c (set_keys ks1 cl)) as (s2 & ks2 & -> & Hq2 & Hsub2 & Hk2); [apply Hq1|by apply (quiet_at c _ s)|].
    exists s2, ks2. split; [done|]. split; [exact (quiet_trans _ _ _ _ _ _ Hq1 Hq2)|]. cbn in Hsub2, Hk2.
    split; [by transitivity ks1|]. intros key' [->|Hin]%elem_of_cons; [by apply Hsub2|by apply Hk2].
Qed.

(** ** What a client that watches keys sees of an event *)

(** It stays, watches what it watched, stays dirty, and is dirty unless the value of
    every key that it watches at most faded. *)
Definition keeps (c : cid) (s s' : server) : Prop :=
  ∀ cl, clients s !! c = Some cl → ∃ cl', clients s' !! c = Some cl' ∧ watched_keys cl ⊆ watched_keys cl' ∧
    (c_dirty_cas cl = true → c_dirty_cas cl' = true) ∧
    (c_dirty_cas cl' = false → ∀ k, k ∈ watched_keys cl → fades (value (data s) k) (value (data s') k)).

Lemma keeps_same c s s' : (∀ cl, clients s !! c = Some cl → ∃ cl', clients s' !! c = Some cl' ∧
  watched_keys cl ⊆ watched_keys cl' ∧ c_dirty_cas cl' = c_dirty_cas cl) → data s' = data s → keeps c s s'.
Proof.
  intros H Hd cl Hc. destruct (H cl Hc) as (cl' & Hc' & Hk & Hcas). exists cl'. rewrite Hd, Hcas. done.
Qed.

Lemma keeps_trans c s s1 s2 : keeps c s s1 → keeps c s1 s2 → keeps c s s2.
Proof.
  intros H1 H2 cl Hc. destruct (H1 cl Hc) as (cl1 & Hc1 & Hk1 & Hd1 & Hv1). destruct (H2 cl1 Hc1) as (cl2 & Hc2 & Hk2 & Hd2 & Hv2).
  exists cl2. split; [done|]. split; [by transitivity (watched_keys cl1)|]. split; [auto|]. intros Hf k Hk.
  transitivity (value (data s1) k); [|by apply Hv2, Hk1]. apply Hv1; [|done]. destruct (c_dirty_cas cl1); [|done]. by rewrite Hd2 in Hf.
Qed.

Lemma quiet_keeps c c0 cl cl' s s' :
  quiet c cl' s s' → clients s !! c = Some cl → c0 ≠ c ∨ (watched_keys cl ⊆ watched_keys cl' ∧ c_dirty_cas cl' = c_dirty_cas cl) →
  keeps c0 s s'.
Proof.
  intros [_ Hcs Hd _ _] Hc H. apply keeps_same; [|done]. intros cl0 Hc0. rewrite Hcs. destruct (decide (c0 = c)) as [->|Hne].
  - rewrite lookup_insert_eq. simplify_eq. exists cl'. destruct H as [|[? ?]]; done.
  - rewrite lookup_insert_ne by done. eauto.
Qed.

(** ** The queued commands *)

(** What a queued command does to the selected database and to the data, and its
    replies. *)
Definition queue_data (now : Z) (q : queued cmd) (p : Z * D) : option (Z * D * list (reply rep)) :=
  match q with
  | Unwatch => Some (p, [ROk])
  | Select id => Some (if (id <? 0) || (id >=? dbnum) then (p, [RError "DB index is out of range"]) else (id, p.2, [ROk]))
  | Save InProgress => Some (p, [RError "Background save already in progress"])
  | Save Saved => Some (p, [ROk])
  | Save SaveFailed => Some (p, [RErr])
  | Data x => match proc now p.1 x p.2 with Some (d, rs, _, _) => Some (p.1, d, RData <$> rs) | None => None end
  end.

Definition is_del (f : feed cmd) : Prop := match f with FDel _ _ => True | _ => False end.
Definition is_data (f : feed cmd) : Prop := match f with FData _ _ | FDel _ _ => True | _ => False end.

Lemma is_del_data fs : Forall is_del fs → Forall is_data fs.
Proof. intros Hf. eapply Forall_impl; [exact Hf|]. by intros []. Qed.

Lemma dels_is_del hs : Forall is_del (dels hs).
Proof. induction hs as [|[]]; simpl; [constructor|done|done|by constructor]. Qed.

(** What is propagated by a command, and the changes it counts; only SAVE lowers the
    count. *)
Definition feeds (save ro : Prop) (s s' : server) : Prop :=
  (∃ fs, propagated s' = propagated s ++ fs ∧ Forall is_data fs ∧ (ro → Forall is_del fs)) ∧
  (¬ save → dirty s ≤ dirty s' ∧ (ro → dirty s' = dirty s)).

Lemma quiet_feeds save ro c cl s s' : quiet c cl s s' → feeds save ro s s'.
Proof. intros [_ _ _ Hd Hf]. split; [exists []; by rewrite app_nil_r|]. rewrite Hd. done. Qed.

(** A command that the server can run. *)
Definition runs (now : Z) (q : queued cmd) : Prop := match q with Data x => ok now x | _ => True end.
Definition is_save (q : queued cmd) : Prop := match q with Save _ => True | _ => False end.

Lemma call_data_ok s c cl now x :
  wf s → inv (data s) → clients s !! c = Some cl → ok now x →
  ∃ s' rs, call_queued dbnum c now (Data x) s = Some (s', rs) ∧ wf s' ∧ inv (data s') ∧ (∀ c0, keeps c0 s s') ∧
    (∃ cl', clients s' !! c = Some cl' ∧ c_db cl' = c_db cl) ∧
    queue_data now (Data x) (c_db cl, data s) = Some (c_db cl, data s', rs) ∧
    feeds False (readonly_or_admin x = true) s s'.
Proof.
  intros Hw Hi Hc Hx. unfold call_queued, queue_data. rewrite Hc. cbn [mbind option_bind fst snd].
  destruct (proc_ok (value:=value) now (c_db cl) x (data s) Hi Hx) as (d' & rs & hs & n & -> & Hi' & Hn0 & Hro & Hsig).
  rewrite signals_ok by done. cbn [mbind option_bind]. eexists _, _. split; [done|].
  set (s1 := add_dirty n (set_data d' (fed (dels hs) (set_clients (fmap (hit (data s) hs)) s)))).
  assert (Hcs : clients (if 0 <? n then propagate (FData (c_db cl) x) s1 else s1) = hit (data s) hs <$> clients s) by (by destruct (0 <? n)).
  assert (Hdata : data (if 0 <? n then propagate (FData (c_db cl) x) s1 else s1) = d') by (by destruct (0 <? n)).
  assert (Hdirty : dirty (if 0 <? n then propagate (FData (c_db cl) x) s1 else s1) = dirty s + n) by (by destruct (0 <? n)).
  split; [|split; [|split; [|split; [|split]]]].
  - assert (wf s1) as Hw1 by (by apply (wf_hit (data s) hs)). by destruct (0 <? n).
  - by rewrite Hdata.
  - intros c0 cl0 Hc0. rewrite Hcs, lookup_fmap, Hc0. eexists. split; [done|]. rewrite hit_keys. split; [done|].
    rewrite Hdata. unfold hit, touched. split.
    + intros Hd. by destruct (existsb _ hs).
    + destruct (existsb _ hs) eqn:E; [done|]. intros _ k Hk. apply (Hsig k).
      apply not_true_is_false. intros (h & Hh & Ht)%existsb_exists. apply not_true_iff_false in E. apply E.
      apply existsb_exists. exists h. split; [done|]. apply existsb_exists. exists k. split; [by apply list_elem_of_In|done].
  - rewrite Hcs, lookup_fmap, Hc. eexists. split; [done|]. unfold hit. by destruct (touched _ _ _).
  - by rewrite Hdata.
  - split; [|intros _; rewrite Hdirty; split; [lia|intros E; specialize (Hro E); lia]]. pose proof (dels_is_del hs) as Hdel.
    destruct (Z.ltb_spec 0 n).
    + exists (dels hs ++ [FData (c_db cl) x]). split; [by rewrite app_assoc|]. split.
      * apply Forall_app. split; [by apply is_del_data|by repeat constructor].
      * intros E. specialize (Hro E). lia.
    + exists (dels hs). split; [done|]. split; [by apply is_del_data|done].
Qed.

Lemma save_quiet s c cl r :
  wf s → clients s !! c = Some cl →
  ∃ s' rs, saveCommand r s = Some (s', rs) ∧ wf s' ∧ clients s' = clients s ∧ data s' = data s ∧
    propagated s' = propagated s ∧ queue_data 0 (Save r) (c_db cl, data s) = Some (c_db cl, data s, rs).
Proof. intros Hw Hc. destruct r; (eexists _, _; split; [done|]; done). Qed.

Lemma call_queued_ok s c cl now q :
  wf s → inv (data s) → clients s !! c = Some cl → runs now q →
  ∃ s' rs cl', call_queued dbnum c now q s = Some (s', rs) ∧ wf s' ∧ inv (data s') ∧ clients s' !! c = Some cl' ∧
    queue_data now q (c_db cl, data s) = Some (c_db cl', data s', rs) ∧ feeds (is_save q) (is_readonly q = true) s s' ∧
    ∀ c0, c0 ≠ c ∨ q ≠ Unwatch → keeps c0 s s'.
Proof.
  intros Hw Hi Hc Hx. destruct q as [|id|r|x]; cbn [call_queued queue_data is_readonly].
  - unfold unwatchCommand. destruct (unwatchAllKeys_ok s c cl Hw Hc) as (s1 & -> & Hq1). cbn [mbind option_bind].
    pose proof (quiet_at _ _ _ _ Hq1) as Hc1. rewrite Hc1. cbn [mbind option_bind].
    pose proof (put_quiet s1 c _ (set_cas false (set_keys [] cl)) (q_wf _ _ _ _ Hq1) Hc1 eq_refl) as Hq2.
    pose proof (quiet_trans _ _ _ _ _ _ Hq1 Hq2) as Hq. eexists _, _, _. split; [done|]. split; [apply Hq|].
    rewrite (q_data _ _ _ _ Hq). split; [done|]. split; [by apply (quiet_at _ _ s)|]. split; [done|]. split; [by eapply quiet_feeds|].
    intros c0 [Hne|]; [|done]. by apply (quiet_keeps c c0 cl _ s _ Hq); [|left].
  - unfold selectCommand. rewrite Hc. cbn [mbind option_bind fst snd]. destruct (_ || _).
    + exists s, [RError "DB index is out of range"], cl. split; [done|]. split; [done|]. split; [done|]. split; [done|]. split; [done|].
      pose proof (quiet_self s c cl Hw Hc) as Hq. split; [by eapply quiet_feeds|]. intros c0 _. apply (quiet_keeps c c0 cl cl); auto.
    + pose proof (put_quiet s c cl (set_db id cl) Hw Hc eq_refl) as Hq. eexists _, _, _. split; [done|]. split; [apply Hq|]. split; [done|].
      split; [by apply (quiet_at _ _ s)|]. split; [done|]. split; [by eapply quiet_feeds|].
      intros c0 _. by apply (quiet_keeps c c0 cl _ s _ Hq); [|right].
  - destruct (save_quiet s c cl r Hw Hc) as (s' & rs & -> & Hw' & Hc' & Hd & Hp & Hq). cbn [queue_data] in Hq. exists s', rs, cl.
    rewrite Hd, Hc'. split; [done|]. split; [done|]. split; [done|]. split; [done|]. split; [done|]. split.
    + split; [exists []; by rewrite app_nil_r|]. by intros [].
    + intros c0 _. apply keeps_same; [|done]. rewrite Hc'. eauto.
  - destruct (call_data_ok s c cl now x Hw Hi Hc Hx) as (s' & rs & Hcall & Hw' & Hi' & Hk & (cl' & Hc' & Hdb) & Hd & Hf).
    exists s', rs, cl'. rewrite Hdb. split; [done|]. split; [done|]. split; [done|]. split; [done|]. split; [done|]. split; [done|]. auto.
Qed.

(** ** EXEC *)

(** The queued commands one after the other, from the command [j] on. *)
Fixpoint run_queue (time : nat → Z) (j : nat) (qs : list (queued cmd)) (p : Z * D) : option (Z * D * list (reply rep)) :=
  match qs with
  | [] => Some (p, [])
  | q :: qs => '(p, r) ← queue_data (time j) q p; '(p, rs) ← run_queue time (S j) qs p; Some (p, r ++ rs)
  end.

(** What the loop of EXEC propagates: deletions of expired keys, or MULTI after them and
    then the commands. *)
Definition in_multi (fs : list (feed cmd)) : Prop :=
  ∃ pre db ds, fs = pre ++ FMulti db :: ds ∧ Forall is_del pre ∧ Forall is_data ds.

Definition exec_feeds (must must' : bool) (s s' : server) : Prop :=
  dirty s ≤ dirty s' ∧ ∃ fs, propagated s' = propagated s ++ fs ∧
  if must then must' = true ∧ Forall is_data fs
  else (must' = false ∧ Forall is_del fs ∧ dirty s' = dirty s) ∨ (must' = true ∧ in_multi fs).

Lemma exec_feeds_step must must1 must' s s1 s2 q db :
  must1 = must || negb (is_readonly q) → ¬ is_save q →
  feeds (is_save q) (is_readonly q = true) (if negb must && negb (is_readonly q) then propagate (FMulti db) s else s) s1 →
  exec_feeds must1 must' s1 s2 → exec_feeds must must' s s2.
Proof.
  intros -> Hns ((fs & Hp & Hfs & Hro) & Hd1) (Hd2 & gs & Hp2 & H2). destruct (Hd1 Hns) as [Hd1a Hd1b].
  assert (Hds : dirty (if negb must && negb (is_readonly q) then propagate (FMulti db) s else s) = dirty s) by (by destruct (_ && _)).
  rewrite Hds in Hd1a, Hd1b. split; [lia|]. destruct must; simpl in *.
  - exists (fs ++ gs). rewrite Hp2, Hp, <-app_assoc. destruct H2 as [-> Hg]. split; [done|]. split; [done|]. by apply Forall_app.
  - destruct (is_readonly q); simpl in *.
    + specialize (Hro eq_refl). specialize (Hd1b eq_refl). exists (fs ++ gs). rewrite Hp2, Hp, <-app_assoc. split; [done|].
      destruct H2 as [(-> & Hg & ?)|(-> & pre & db' & ds & -> & Hpre & Hds')].
      * left. split; [done|]. split; [by apply Forall_app|lia].
      * right. split; [done|]. exists (fs ++ pre), db', ds. split; [by rewrite app_assoc|]. split; [by apply Forall_app|done].
    + exists (FMulti db :: fs ++ gs). rewrite Hp2, Hp. cbn [propagate propagated]. rewrite <-!app_assoc. destruct H2 as [-> Hg].
      split; [done|]. right. split; [done|]. exists [], db, (fs ++ gs). split; [done|]. split; [constructor|]. by apply Forall_app.
Qed.

(** The queued commands can be run at their times, and none of them is SAVE. *)
Definition queue_ok (time : nat → Z) (j : nat) (qs : list (queued cmd)) : Prop :=
  ∀ i q, qs !! i = Some q → runs (time (j + i)%nat) q ∧ ¬ is_save q.

Lemma queue_ok_cons time j q qs : queue_ok time j (q :: qs) → (runs (time j) q ∧ ¬ is_save q) ∧ queue_ok time (S j) qs.
Proof.
  intros Hq. split; [specialize (Hq 0%nat q eq_refl); by rewrite Nat.add_0_r in Hq|].
  intros i q' Hi. specialize (Hq (S i) q' Hi). by rewrite Nat.add_succ_r in Hq.
Qed.

Lemma exec_loop_ok time qs : ∀ j must s c cl rs,
  wf s → inv (data s) → clients s !! c = Some cl → queue_ok time j qs →
  ∃ must' s' rs' cl', exec_loop dbnum c time j qs must s rs = Some (must', s', rs ++ rs') ∧ wf s' ∧ inv (data s') ∧
    clients s' !! c = Some cl' ∧ run_queue time j qs (c_db cl, data s) = Some (c_db cl', data s', rs') ∧
    exec_feeds must must' s s' ∧ ∀ c0, c0 ≠ c → keeps c0 s s'.
Proof.
  induction qs as [|q qs IH]; intros j must s c cl rs Hw Hi Hc Hqs; cbn [exec_loop run_queue].
  - exists must, s, [], cl. rewrite app_nil_r. split; [done|]. split; [done|]. split; [done|]. split; [done|]. split; [done|]. split.
    + split; [done|]. exists []. rewrite app_nil_r. split; [done|]. destruct must; [done|]. left. split; [done|]. by split; [constructor|].
    + intros c0 _. apply keeps_same; [|done]. eauto.
  - apply queue_ok_cons in Hqs as [[Hrun Hns] Hqs].
    rewrite Hc. cbn [mbind option_bind]. set (s0 := if negb must && negb (is_readonly q) then propagate (FMulti (c_db cl)) s else s).
    replace (if negb must && negb (is_readonly q) then (true, propagate (FMulti (c_db cl)) s) else (must, s))
      with (must || negb (is_readonly q), s0) by (unfold s0; by destruct must, (is_readonly q)).
    assert (Hw0 : wf s0) by (unfold s0; by destruct (_ && _)). assert (Hc0 : clients s0 !! c = Some cl) by (unfold s0; by destruct (_ && _)).
    assert (Hs0 : data s0 = data s) by (unfold s0; by destruct (_ && _)).
    destruct (call_queued_ok s0 c cl (time j) q Hw0 ltac:(by rewrite Hs0) Hc0 Hrun) as (s1 & r1 & cl1 & -> & Hw1 & Hi1 & Hc1 & Hd1 & Hf1 & Hk1).
    cbn [mbind option_bind]. rewrite Hs0 in Hd1. rewrite Hd1. cbn [mbind option_bind].
    destruct (IH (S j) (must || negb (is_readonly q)) s1 c cl1 (rs ++ r1) Hw1 Hi1 Hc1 Hqs) as (must' & s2 & rs2 & cl2 & -> & Hw2 & Hi2 & Hc2 & Hd2 & Hf2 & Hk2).
    rewrite Hd2. exists must', s2, (r1 ++ rs2), cl2. rewrite <-app_assoc. split; [done|]. split; [done|]. split; [done|]. split; [done|].
    split; [done|]. split; [by eapply exec_feeds_step|]. intros c0 Hne.
    apply (keeps_trans c0 s s0); [|apply (keeps_trans c0 s0 s1); auto]. apply keeps_same; [|done].
    intros cl0 H0. exists cl0. unfold s0. by destruct (_ && _).
Qed.

(** The commands of one transaction between MULTI and EXEC, after deletions of keys that
    expired before its first change. *)
Definition transaction (fs : list (feed cmd)) : Prop :=
  ∃ pre db ds db', fs = pre ++ FMulti db :: ds ++ [FExec db'] ∧ Forall is_del pre ∧ Forall is_data ds.

(** Commands, or the commands of one transaction. *)
Definition block (fs : list (feed cmd)) : Prop := Forall is_data fs ∨ transaction fs.

(** The end of EXEC: the transaction is discarded, the change counted and EXEC
    propagated after MULTI. *)
Lemma exec_end_ok (s s2 : server) c cl2 (must : bool) fs :
  wf s2 → clients s2 !! c = Some cl2 → dirty s ≤ dirty s2 → propagated s2 = propagated s ++ fs →
  (must = false ∧ Forall is_del fs ∧ dirty s2 = dirty s) ∨ (must = true ∧ in_multi fs) →
  ∃ s3 s5, discardTransaction c s2 = Some s3 ∧
    (let s4 := if must then add_dirty 1 s3 else s3 in
     cl ← clients s4 !! c; Some (if 0 <? dirty s4 - dirty s then propagate (FExec (c_db cl)) s4 else s4)) = Some s5 ∧
    wf s5 ∧ clients s5 = <[c := fresh_client (c_db cl2)]> (clients s2) ∧ data s5 = data s2 ∧
    ∃ b, propagated s5 = propagated s ++ b ∧ if must then transaction b else Forall is_del b.
Proof.
  intros Hw Hc Hd Hp Hfs. destruct (discardTransaction_ok s2 c cl2 Hw Hc) as (s3 & Hdisc & [Hw3 Hc3 Hd3 Hn3 Hp3]).
  exists s3. cbv zeta.
  set (s4 := if must then add_dirty 1 s3 else s3).
  assert (H4 : clients s4 = clients s3 ∧ watched s4 = watched s3 ∧ data s4 = data s3 ∧ propagated s4 = propagated s3 ∧
    dirty s4 = dirty s3 + if must then 1 else 0) by (unfold s4; destruct must; rewrite ?Z.add_0_r; done).
  destruct H4 as (Hc4 & Hw4 & Hd4 & Hp4 & Hn4). rewrite Hc4, Hc3, lookup_insert_eq. cbn [mbind option_bind].
  eexists. split; [done|]. split; [done|].
  set (s5 := if 0 <? _ then _ else _).
  assert (H5 : clients s5 = clients s4 ∧ watched s5 = watched s4 ∧ data s5 = data s4) by (unfold s5; by destruct (0 <? _)).
  destruct H5 as (Hc5 & Hw5 & Hd5). split; [unfold wf, keys_of; rewrite Hw5, Hw4, Hc5, Hc4; apply Hw3|].
  split; [congruence|]. split; [congruence|].
  destruct Hfs as [(-> & Hdel & Heq)|(-> & pre & db & ds & -> & Hpre & Hds)].
  - exists fs. unfold s5. replace (0 <? dirty s4 - dirty s) with false by lia. by rewrite Hp4, Hp3, Hp.
  - exists (pre ++ FMulti db :: ds ++ [FExec (c_db cl2)]). unfold s5. replace (0 <? dirty s4 - dirty s) with true by lia.
    cbn [propagate propagated]. rewrite Hp4, Hp3, Hp, <-!app_assoc. split; [done|]. by exists pre, db, ds, (c_db cl2).
Qed.

(** MULTI is propagated unless all commands are read only. *)
Lemma exec_loop_must time qs : ∀ j must s c rs must' s' rs',
  exec_loop dbnum c time j qs must s rs = Some (must', s', rs') → negb must' = negb must && forallb is_readonly qs.
Proof.
  induction qs as [|q qs IH]; intros j must s c rs must' s' rs'; cbn [exec_loop forallb]; [intros [= <- _ _]; by rewrite andb_true_r|].
  destruct (clients s !! c) as [cl|]; [|done]. cbn [mbind option_bind].
  destruct must, (is_readonly q); cbn [negb andb]; destruct (call_queued _ _ _ _ _) as [[s1 r]|]; try done; cbn [mbind option_bind]; by intros ->%IH.
Qed.

(** Every branch of EXEC of a client that is in a transaction. *)
Lemma exec_ok s c cl time :
  wf s → inv (data s) → clients s !! c = Some cl → c_multi cl = true →
  (c_dirty_cas cl || c_dirty_exec cl = false → queue_ok time 0 (mstate cl)) →
  ∃ s' rs, call dbnum c (Exec time) s = Some (s', rs) ∧ wf s' ∧ inv (data s') ∧ (∀ c0, c0 ≠ c → keeps c0 s s') ∧
    if c_dirty_cas cl || c_dirty_exec cl then
      rs = [if c_dirty_exec cl then RExecAbort else RNullMultiBulk] ∧ quiet c (fresh_client (c_db cl)) s s'
    else
      ∃ db rs', rs = RMultiBulkLen (zlen (mstate cl)) :: rs' ∧
        run_queue time 0 (mstate cl) (c_db cl, data s) = Some (db, data s', rs') ∧ clients s' !! c = Some (fresh_client db) ∧
        ∃ b, propagated s' = propagated s ++ b ∧
          if forallb is_readonly (mstate cl) then Forall is_del b else transaction b.
Proof.
  intros Hw Hi Hc Hm Hqs. cbn [call]. unfold execCommand. rewrite Hc. cbn [mbind option_bind]. rewrite Hm. simpl negb.
  destruct (c_dirty_cas cl || c_dirty_exec cl).
  - destruct (discardTransaction_ok s c cl Hw Hc) as (s' & -> & Hq). cbn [mbind option_bind].
    rewrite (quiet_at _ _ _ _ Hq). cbn [mbind option_bind]. rewrite (q_dirty _ _ _ _ Hq), Z.sub_diag. change (0 <? 0) with false. cbv iota.
    eexists _, _. split; [done|]. split; [apply Hq|]. split; [by rewrite (q_data _ _ _ _ Hq)|]. split; [|done].
    intros c0 Hne. by apply (quiet_keeps c c0 cl _ s _ Hq); [|left].
  - destruct (unwatchAllKeys_ok s c cl Hw Hc) as (s1 & -> & Hq1). cbn [mbind option_bind].
    destruct (exec_loop_ok time (mstate cl) 0 false s1 c _ [RMultiBulkLen (zlen (mstate cl))] (q_wf _ _ _ _ Hq1)
      ltac:(by rewrite (q_data _ _ _ _ Hq1)) (quiet_at _ _ _ _ Hq1) (Hqs eq_refl))
      as (must & s2 & rs & cl2 & Hrun & Hw2 & Hi2 & Hc2 & Hd2 & (Hdirty2 & fs & Hp2 & Hfs) & Hk2). rewrite Hrun. cbn [mbind option_bind].
    rewrite (q_data _ _ _ _ Hq1) in Hd2. rewrite (q_dirty _ _ _ _ Hq1) in Hdirty2, Hfs. rewrite (q_feed _ _ _ _ Hq1) in Hp2.
    destruct (exec_end_ok s s2 c cl2 must fs Hw2 Hc2 Hdirty2 Hp2 Hfs) as (s3 & s5 & -> & Hend & Hw5 & Hc5 & Hd5 & Hp5).
    cbn [mbind option_bind]. cbv zeta in Hend. destruct (clients (if must then _ else _) !! c) as [cl3|]; [|done].
    cbn [mbind option_bind] in Hend |- *. injection Hend as Hend. rewrite Hend. eexists _, _. split; [done|]. split; [done|].
    split; [by rewrite Hd5|]. split.
    + intros c0 Hne. apply (keeps_trans c0 s s1); [by apply (quiet_keeps c c0 cl _ s _ Hq1); [|left]|].
      apply (keeps_trans c0 s1 s2); [by apply Hk2|]. apply keeps_same; [|done].
      intros cl0 H0. exists cl0. by rewrite Hc5, lookup_insert_ne.
    + cbn in Hd2. rewrite Hd5. exists (c_db cl2), rs. split; [done|]. split; [done|]. split; [by rewrite Hc5, lookup_insert_eq|].
      replace (forallb is_readonly (mstate cl)) with (negb must); [by destruct must|]. by apply exec_loop_must in Hrun as ->.
Qed.

(** ** Events *)

(** The event is not one with which the client [c] ends its watching. *)
Definition stays (c : cid) (e : event cmd) (s : server) : bool :=
  match e with
  | Close c' => negb (bool_decide (c' = c))
  | Query c' (Exec _ | Discard) => negb (bool_decide (c' = c))
  | Query c' (Queue _ Unwatch) => negb (bool_decide (c' = c)) || default false (c_multi <$> clients s !! c)
  | _ => true
  end.

(** The commands that an event runs are ones that the server can run, and a transaction
    that is executed has no SAVE; queueing a command is always admissible. *)
Definition admissible (e : event cmd) (s : server) : Prop :=
  match e with
  | Query c (Queue now q) => ∀ cl, clients s !! c = Some cl → c_multi cl = false → refused q = None → runs now q
  | Query c (Exec time) =>
      ∀ cl, clients s !! c = Some cl → c_dirty_cas cl || c_dirty_exec cl = false → queue_ok time 0 (mstate cl)
  | _ => True
  end.

Record step_good (e : event cmd) (s s' : server) : Prop := {
  g_wf : wf s';
  g_inv : inv (data s');
  g_feed : ∃ b, propagated s' = propagated s ++ b ∧ block b;
  g_keeps c0 : stays c0 e s = true → keeps c0 s s' }.

Lemma feeds_block save ro s s' : feeds save ro s s' → ∃ b, propagated s' = propagated s ++ b ∧ block b.
Proof. intros ((fs & Hp & Hf & _) & _). exists fs. split; [done|by left]. Qed.

Lemma quiet_good e c cl cl' s s' :
  quiet c cl' s s' → inv (data s) → clients s !! c = Some cl →
  (stays c e s = false ∨ (watched_keys cl ⊆ watched_keys cl' ∧ c_dirty_cas cl' = c_dirty_cas cl)) → step_good e s s'.
Proof.
  intros Hq Hi Hc H. split; [apply Hq|by rewrite (q_data _ _ _ _ Hq)|by eapply (feeds_block True True), quiet_feeds|]. intros c0 H0.
  apply (quiet_keeps c c0 cl cl' s s' Hq Hc). destruct (decide (c0 = c)) as [->|]; [|by left]. right. destruct H as [H|H]; [congruence|done].
Qed.

Lemma discard_good s c cl :
  wf s → inv (data s) → clients s !! c = Some cl →
  ∃ s' (rs : list (reply rep)), discardCommand c s = Some (s', rs) ∧ step_good (Query c Discard) s s'.
Proof.
  intros Hw Hi Hc. unfold discardCommand. rewrite Hc. cbn [mbind option_bind]. destruct (c_multi cl); simpl negb.
  - destruct (discardTransaction_ok s c cl Hw Hc) as (s' & -> & Hq). cbn [mbind option_bind]. eexists _, _. split; [done|].
    apply (quiet_good _ c cl _ s s' Hq Hi Hc). left. simpl. by rewrite bool_decide_true.
  - eexists _, _. split; [done|]. apply (quiet_good _ c cl _ s s (quiet_self s c cl Hw Hc) Hi Hc). by right.
Qed.

Lemma exec_good s c cl time :
  wf s → inv (data s) → clients s !! c = Some cl → admissible (Query c (Exec time)) s →
  ∃ s' rs, call dbnum c (Exec time) s = Some (s', rs) ∧ step_good (Query c (Exec time)) s s'.
Proof.
  intros Hw Hi Hc Ha. destruct (c_multi cl) eqn:Hm.
  - destruct (exec_ok s c cl time Hw Hi Hc Hm (Ha cl Hc)) as (s' & rs & Hcall & Hw' & Hi' & Hk & Hbr).
    exists s', rs. split; [done|]. split; [done|done| |].
    + destruct (_ || _).
      * destruct Hbr as [_ Hq]. exists []. rewrite app_nil_r. split; [apply Hq|by left].
      * destruct Hbr as (_ & _ & _ & _ & _ & b & Hp & Hb). exists b. split; [done|].
        destruct (forallb _ _); [left; by apply is_del_data|by right].
    + intros c0 H0. apply Hk. intros ->. simpl in H0. by rewrite bool_decide_true in H0.
  - cbn [call]. unfold execCommand. rewrite Hc. cbn [mbind option_bind]. rewrite Hm. simpl negb. cbn [mbind option_bind].
    rewrite Hc. cbn [mbind option_bind]. rewrite Z.sub_diag. eexists _, _. split; [done|].
    apply (quiet_good _ c cl _ s s (quiet_self s c cl Hw Hc) Hi Hc). by right.
Qed.

Lemma refuse_good e s c cl msg :
  wf s → inv (data s) → clients s !! c = Some cl →
  ∃ s' (rs : list (reply rep)), refuseCommand c msg s = Some (s', rs) ∧ step_good e s s'.
Proof.
  intros Hw Hi Hc. unfold refuseCommand. rewrite Hc. cbn [mbind option_bind]. eexists _, _. split; [done|].
  assert (Hk : watched_keys (flagTransaction cl) = watched_keys cl) by (unfold flagTransaction; by destruct (c_multi cl)).
  apply (quiet_good _ c cl _ s _ (put_quiet s c cl (flagTransaction cl) Hw Hc Hk) Hi Hc). right. rewrite Hk. split; [done|].
  unfold flagTransaction. by destruct (c_multi cl).
Qed.

Lemma queue_good s c cl now q :
  wf s → inv (data s) → clients s !! c = Some cl → admissible (Query c (Queue now q)) s →
  ∃ s' rs, processCommand dbnum c (Queue now q) s = Some (s', rs) ∧ step_good (Query c (Queue now q)) s s'.
Proof.
  intros Hw Hi Hc Ha. unfold processCommand. rewrite Hc. cbn [mbind option_bind]. cbn [admissible] in Ha.
  destruct (refused q) as [msg|]; [by apply (refuse_good _ s c cl)|]. destruct (c_multi cl) eqn:Hm.
  - eexists _, _. split; [done|].
    apply (quiet_good _ c cl _ s _ (put_quiet s c cl (queueMultiCommand q cl) Hw Hc eq_refl) Hi Hc). by right.
  - cbn [call]. destruct (call_queued_ok s c cl now q Hw Hi Hc (Ha cl Hc Hm eq_refl)) as (s' & rs & cl' & Hcall & Hw' & Hi' & _ & _ & Hf & Hk).
    exists s', rs. split; [done|]. split; [done|done|by eapply feeds_block|]. intros c0 H0. apply Hk.
    destruct q; [|by right..]. left. intros ->. simpl in H0. rewrite bool_decide_true, Hc in H0 by done. simpl in H0. congruence.
Qed.

Lemma connect_good s c : wf s → inv (data s) → clients s !! c = None → step_good (Connect c) s (createClient c s).
Proof.
  intros Hw Hi He. split; [|done| |].
  - unfold wf, keys_of, createClient, put_client, set_clients. cbn [clients watched]. rewrite fmap_insert.
    apply sync_new; [done|]. by rewrite lookup_fmap, He.
  - exists []. rewrite app_nil_r. split; [done|by left].
  - intros c0 _. apply keeps_same; [|done]. intros cl Hcl. exists cl. unfold createClient, put_client, set_clients. cbn [clients].
    rewrite lookup_insert_ne; [done|]. intros <-. congruence.
Qed.

Lemma close_good s c cl : wf s → inv (data s) → clients s !! c = Some cl → ∃ s', freeClient c s = Some s' ∧ step_good (Close c) s s'.
Proof.
  intros Hw Hi Hc. unfold freeClient. destruct (unwatchAllKeys_ok s c cl Hw Hc) as (s1 & -> & Hq). cbn [mbind option_bind].
  eexists. split; [done|]. split.
  - unfold wf, keys_of, set_clients. cbn [clients watched]. rewrite fmap_delete. apply sync_delete; [apply Hq|].
    by rewrite lookup_fmap, (quiet_at _ _ _ _ Hq).
  - cbn [set_clients data]. by rewrite (q_data _ _ _ _ Hq).
  - exists []. rewrite app_nil_r. split; [apply Hq|by left].
  - intros c0 H0. simpl in H0. apply negb_true_iff, bool_decide_eq_false in H0. apply keeps_same; [|apply Hq].
    intros cl0 Hc0. exists cl0. unfold set_clients. cbn [clients]. rewrite lookup_delete_ne by done.
    rewrite (q_clients _ _ _ _ Hq), lookup_insert_ne by done. done.
Qed.

Lemma query_good s c cl q :
  wf s → inv (data s) → clients s !! c = Some cl → admissible (Query c q) s →
  ∃ s' rs, processCommand dbnum c q s = Some (s', rs) ∧ step_good (Query c q) s s'.
Proof.
  intros Hw Hi Hc Ha. destruct q as [|time| |keys|now q]; [..|by apply (queue_good s c cl)];
    unfold processCommand; rewrite Hc; cbn [mbind option_bind].
  - cbn [call]. unfold multiCommand. rewrite Hc. cbn [mbind option_bind].
    destruct (c_multi cl); (eexists _, _; split; [done|]).
    + apply (quiet_good _ c cl _ s s (quiet_self s c cl Hw Hc) Hi Hc). by right.
    + apply (quiet_good _ c cl _ s _ (put_quiet s c cl (set_multi true cl) Hw Hc eq_refl) Hi Hc). by right.
  - by apply (exec_good s c cl).
  - by apply (discard_good s c cl).
  - cbn [call]. unfold watchCommand. rewrite Hc. cbn [mbind option_bind]. destruct (c_multi cl).
    + eexists _, _. split; [done|]. apply (quiet_good _ c cl _ s s (quiet_self s c cl Hw Hc) Hi Hc). by right.
    + destruct (watch_loop_ok keys s c cl Hw Hc) as (s' & ks & -> & Hq & Hsub & _). cbn [mbind option_bind].
      eexists _, _. split; [done|]. apply (quiet_good _ c cl _ s s' Hq Hi Hc). by right.
Qed.

Lemma event_ok e s :
  wf s → inv (data s) → enabled e s = true → admissible e s → ∃ s' rs, step dbnum e s = Some (s', rs) ∧ step_good e s s'.
Proof.
  intros Hw Hi He Ha. destruct e as [c|c|c q|c msg]; simpl in He; apply bool_decide_eq_true in He; cbn [step].
  - eexists _, _. split; [done|]. by apply connect_good.
  - destruct He as [cl Hc]. destruct (close_good s c cl Hw Hi Hc) as (s' & -> & Hg). cbn [mbind option_bind]. eauto.
  - destruct He as [cl Hc]. by apply (query_good s c cl).
  - destruct He as [cl Hc]. by apply (refuse_good _ s c cl).
Qed.

(** The states that the events of any clients in any order lead to. *)
Inductive reachable (d : D) : server → Prop :=
| reachable_initial : reachable d (initial d)
| reachable_step s e s' rs :
    reachable d s → enabled e s = true → admissible e s → step dbnum e s = Some (s', rs) → reachable d s'.

Lemma reachable_good d s :
  inv d → reachable d s → wf s ∧ inv (data s) ∧ ∃ bs, propagated s = concat bs ∧ Forall block bs.
Proof.
  intros Hd. induction 1 as [|s e s' rs Hr (Hw & Hi & bs & Hp & Hb) He Ha Hs].
  { split; [apply wf_initial|]. split; [done|]. by exists []. }
  destruct (event_ok e s Hw Hi He Ha) as (s1 & rs1 & Hs1 & [Hw1 Hi1 (b & Hp1 & Hb1) _]). rewrite Hs in Hs1. injection Hs1 as <- <-.
  split; [done|]. split; [done|]. exists (bs ++ [b]). rewrite concat_app, Hp1, Hp. simpl. rewrite app_nil_r. split; [done|].
  apply Forall_app. split; [done|]. by apply Forall_singleton.
Qed.

(** The events from [s] to [s'], with the states in between, while [c] goes on watching. *)
Inductive during (c : cid) : server → list server → server → Prop :=
| during_nil s : during c s [] s
| during_step s e s1 rs mid s2 :
    enabled e s = true → admissible e s → stays c e s = true → step dbnum e s = Some (s1, rs) → during c s1 mid s2 →
    during c s (s1 :: mid) s2.

Lemma during_ok c s mid s2 cl :
  during c s mid s2 → wf s → inv (data s) → clients s !! c = Some cl →
  wf s2 ∧ inv (data s2) ∧ ∃ cl2, clients s2 !! c = Some cl2 ∧ watched_keys cl ⊆ watched_keys cl2 ∧
    (c_dirty_cas cl = true → c_dirty_cas cl2 = true) ∧
    (c_dirty_cas cl2 = false → ∀ k, k ∈ watched_keys cl → Forall (λ m, fades (value (data s) k) (value (data m) k)) mid).
Proof.
  intros Hd. revert cl. induction Hd as [s|s e s1 rs mid s2 He Ha Hst Hs Hd IH]; intros cl Hw Hi Hc.
  - split; [done|]. split; [done|]. exists cl. split; [done|]. split; [done|]. split; [done|]. by constructor.
  - destruct (event_ok e s Hw Hi He Ha) as (s1' & rs' & Hs' & [Hw1 Hi1 _ Hk]). rewrite Hs in Hs'. injection Hs' as <- <-.
    destruct (Hk c Hst cl Hc) as (cl1 & Hc1 & Hsub & Hdirty & Hval).
    destruct (IH cl1 Hw1 Hi1 Hc1) as (Hw2 & Hi2 & cl2 & Hc2 & Hsub2 & Hdirty2 & Hval2).
    split; [done|]. split; [done|]. exists cl2. split; [done|]. split; [by transitivity (watched_keys cl1)|]. split; [auto|]. intros Hf k Hin.
    assert (Hf1 : c_dirty_cas cl1 = false) by (destruct (c_dirty_cas cl1); [by rewrite Hdirty2 in Hf|done]).
    constructor; [by apply Hval|]. eapply Forall_impl; [by apply Hval2, Hsub|]. simpl. intros m Hm.
    transitivity (value (data s1) k); [by apply Hval|done].
Qed.

(** EXEC after any events since its client watched keys. *)
Lemma exec_since d c s s2 mid cl cl2 time :
  inv d → reachable d s → clients s !! c = Some cl → during c s mid s2 → clients s2 !! c = Some cl2 → c_multi cl2 = true →
  admissible (Query c (Exec time)) s2 →
  ∃ s3 rs, step dbnum (Query c (Exec time)) s2 = Some (s3, rs) ∧ (∃ db, clients s3 !! c = Some (fresh_client db)) ∧
    if c_dirty_cas cl2 || c_dirty_exec cl2
    then rs = [if c_dirty_exec cl2 then RExecAbort else RNullMultiBulk] ∧ data s3 = data s2 ∧ propagated s3 = propagated s2
    else (∃ db rs', rs = RMultiBulkLen (zlen (mstate cl2)) :: rs' ∧
            run_queue time 0 (mstate cl2) (c_db cl2, data s2) = Some (db, data s3, rs')) ∧
         ∀ k, k ∈ watched_keys cl → Forall (λ m, fades (value (data s) k) (value (data m) k)) mid.
Proof.
  intros Hi0 Hr Hc Hd Hc2 Hm Ha. destruct (reachable_good d s Hi0 Hr) as (Hw & Hi & _).
  destruct (during_ok c s mid s2 cl Hd Hw Hi Hc) as (Hw2 & Hi2 & cl2' & Hc2' & _ & _ & Hval). rewrite Hc2 in Hc2'. injection Hc2' as <-.
  destruct (exec_ok s2 c cl2 time Hw2 Hi2 Hc2 Hm (Ha cl2 Hc2)) as (s3 & rs & Hcall & _ & _ & _ & Hbr). exists s3, rs. cbn [step].
  unfold processCommand. rewrite Hc2. cbn [mbind option_bind]. split; [done|]. destruct (c_dirty_cas cl2) eqn:Ed; simpl in Hbr |- *.
  - destruct Hbr as [-> Hq]. split; [eexists; by apply (quiet_at _ _ _ _ Hq)|]. split; [done|]. split; apply Hq.
  - destruct (c_dirty_exec cl2).
    + destruct Hbr as [-> Hq]. split; [eexists; by apply (quiet_at _ _ _ _ Hq)|]. split; [done|]. split; apply Hq.
    + destruct Hbr as (db & rs' & Hrs & Hrun & Hcl & _). split; [by eexists|]. split; [by exists db, rs'|]. by apply Hval.
Qed.
End Spec.
End MultiSpec.
