(* ===== verification/MultiKeyspace.v ===== *)
(** * Transactions on the keyspace

    The commands of db.c, expire.c and t_string.c that [Commands] runs as the commands
    of multi.c, and what a session of clients then guarantees.  That they signal every
    change, count it and fail nowhere is proved of their abstract counterparts, which
    [KeyspaceSession] shows the server to run. *)

From Stdlib Require Import String.
From S2P Require Import Prelude.
From S2P Require Import Mem.
From S2P Require Import Util.
From S2P Require Import Sds.
From S2P Require Import Object.
From S2P Require Import ObjectSpec.
From S2P Require Import Keyspace.
From S2P Require Import StringType.
From S2P Require Import Commands.
From S2P Require Import KeyspaceSpec.
From S2P Require Import KeyspaceOps.
From S2P Require Import KeyCommands.
From S2P Require Import StringCommands.
From S2P Require Import StringEdit.
From S2P Require Import KeyspaceSession.
From S2P Require Import KeyspaceFacts.
From S2P Require Import Multi.
From S2P Require Import MultiSpec.
Import Object Keyspace StringType Commands.

#[local] Notation addr := positive.
#[local] Notation length := Datatypes.length.

(** ** What becomes of a key that is not signalled *)

(** It keeps its value; of a key with a deadline, PERSIST may remove the deadline, and
    the key may go if the deadline is before [horizon]. *)
Definition fades (horizon : Z) (v v' : option (aval * option Z)) : Prop :=
  v' = v ∨ ∃ x w, v = Some (x, Some w) ∧ (v' = Some (x, None) ∨ v' = None ∧ w < horizon).

#[export] Instance fades_order horizon : PreOrder (fades horizon).
Proof.
  split; [by left|]. intros v v1 v2 [->|(x & w & -> & H1)] H2; [done|]. right. exists x, w. split; [done|].
  destruct H2 as [->|(x' & w' & -> & _)]; [done|]. destruct H1 as [H1|[H1 _]]; done.
Qed.

Lemma fades_mono h h' v v' : h ≤ h' → fades h v v' → fades h' v v'.
Proof. intros Hh [->|(x & w & -> & [->|[-> ?]])]; [by left|right; eauto..]. exists x, w. split; [done|]. right. split; [done|lia]. Qed.

(** ** What a command does to the finite map

    Events are only added and the changes counted ([ro]: none); a key that is neither
    signalled nor one of [P], whose signal is still to come, at most fades. *)
Record moves (ro : bool) (P : list bytes) (A B : astate) : Prop := {
  mv_clock : aclock B = aclock A;
  mv_count : adirty A ≤ adirty B ∧ (ro = true → adirty B = adirty A);
  mv_keys : ∃ es, aevents B = aevents A ++ es ∧
    ∀ k, k ∈ P ∨ SignalModifiedKey k ∈ es ∨ fades (aclock A) (amap A !! k) (amap B !! k) }.

Section Moves.
Context (ro : bool).
Implicit Types (P : list bytes) (A B C : astate).

Lemma mv_refl P A : moves ro P A A.
Proof. split; [done|done|]. exists []. rewrite app_nil_r. split; [done|]. intros k. right. by right. Qed.

Lemma mv_trans P A B C : moves ro P A B → moves ro P B C → moves ro P A C.
Proof.
  intros [Hc [Hd Hd'] (es & He & Hk)] [Hc2 [Hd2 Hd2'] (es2 & He2 & Hk2)]. split; [congruence| |].
  - split; [lia|]. intros Hr. by rewrite Hd2', Hd' by done.
  - exists (es ++ es2). split; [by rewrite He2, He, app_assoc|]. intros k. rewrite elem_of_app. rewrite Hc in Hk2.
    destruct (Hk k) as [|[|H1]]; [auto..|]. destruct (Hk2 k) as [|[|H2]]; [auto..|]. right. right. by transitivity (amap B !! k).
Qed.

Lemma mv_reply P A B r : moves ro P A B → moves ro P A (a_reply r B).
Proof. by intros [? ? ?]. Qed.

Lemma mv_bulk P A B t : moves ro P A B → moves ro P A (a_bulk t B).
Proof. intros ?. unfold a_bulk. by repeat apply mv_reply. Qed.

Lemma mv_event P A B e : moves ro P A B → moves ro P A (a_event e B).
Proof.
  intros [? ? (es & He & Hk)]. split; [done|done|]. exists (es ++ [e]). split; [by simpl; rewrite He, app_assoc|].
  intros k. rewrite elem_of_app. destruct (Hk k) as [|[|]]; auto.
Qed.

Lemma mv_signal P A B k : moves ro (k :: P) A B → moves ro P A (a_event (SignalModifiedKey k) B).
Proof.
  intros [? ? (es & He & Hk)]. split; [done|done|]. exists (es ++ [SignalModifiedKey k]). split; [by simpl; rewrite He, app_assoc|].
  intros k'. rewrite elem_of_app. destruct (Hk k') as [[->|]%elem_of_cons|[|]]; [|auto..]. right. left. right. by apply list_elem_of_singleton.
Qed.

Lemma mv_dirty P A B n : ro = false → 0 ≤ n → moves ro P A B → moves ro P A (a_dirty n B).
Proof. intros Hr Hn [? [? ?] ?]. split; [done| |done]. split; [simpl; lia|]. by rewrite Hr. Qed.

Lemma mv_map P A B m :
  (∀ k, k ∉ P → m !! k = amap B !! k) → moves ro P A B → moves ro P A (with_map m B).
Proof.
  intros Hm [? ? (es & He & Hk)]. split; [done|done|]. exists es. split; [done|]. intros k.
  destruct (decide (k ∈ P)); [by left|]. destruct (Hk k) as [|[|]]; [auto..|]. right. right. simpl. by rewrite Hm.
Qed.

Lemma mv_put P A B k v : k ∈ P → moves ro P A B → moves ro P A (a_put k v B).
Proof. intros Hk. apply mv_map. intros k' Hk'. apply lookup_insert_ne. by intros ->. Qed.

Lemma mv_del P A B k : k ∈ P → moves ro P A B → moves ro P A (a_del k B).
Proof. intros Hk. apply mv_map. intros k' Hk'. apply lookup_delete_ne. by intros ->. Qed.

(** A change of one key that is a fading. *)
Lemma mv_fade P A B k v :
  fades (aclock B) (amap B !! k) v → moves ro P A B →
  moves ro P A (with_map (partial_alter (λ _, v) k (amap B)) B).
Proof.
  intros Hv HB. apply (mv_trans P A B); [done|]. split; [done|done|]. exists []. rewrite app_nil_r. split; [done|]. intros k'.
  right. right. simpl. destruct (decide (k' = k)) as [->|Hne]; [by rewrite lookup_partial_alter_eq|by rewrite lookup_partial_alter_ne].
Qed.

Lemma mv_purge P A B lazy k : moves ro P A B → moves ro P A (a_purge lazy k B).
Proof.
  intros HB. unfold a_purge. destruct (expired B k) eqn:E; [|done].
  apply (mv_fade P A (a_event _ (a_event _ B)) k None); [|by repeat apply mv_event]. simpl. unfold expired in E.
  destruct (amap B !! k) as [[x [w|]]|]; [|done..]. right. exists x, w. split; [done|]. right. split; [done|]. by apply Z.ltb_lt.
Qed.

Lemma mv_persist P A B k x w :
  amap B !! k = Some (x, Some w) → moves ro P A B → moves ro P A (a_put k (x, None) B).
Proof. intros Hk. apply (mv_fade P A B k (Some (x, None))). rewrite Hk. right. eauto. Qed.

Lemma mv_value P A B r1 r2 k : moves ro P A B → moves ro P A (a_value r1 r2 k B).
Proof.
  intros HB. unfold a_value. destruct (amap B !! k) as [[[]]|]; [by apply mv_bulk|by apply mv_reply..].
Qed.

Lemma mv_total g ks : (∀ k A, moves ro [] A (g k A).1) → ∀ A, moves ro [] A (a_total g ks A).1.
Proof.
  intros Hg. induction ks as [|k ks IH]; intros A; simpl; [apply mv_refl|]. specialize (Hg k A). destruct (g k A) as [B n]. specialize (IH B).
  destruct (a_total g ks B) as [C m]. by apply (mv_trans [] A B).
Qed.

Lemma mv_each g ks : (∀ k A, moves ro [] A (g k A)) → ∀ A, moves ro [] A (a_each g ks A).
Proof. intros Hg. induction ks as [|k ks IH]; intros A; simpl; [apply mv_refl|]. by apply (mv_trans [] A (g k A)). Qed.
End Moves.

(** ** The commands *)

#[local] Opaque a_reply a_bulk a_event a_dirty a_put a_del a_purge with_map.

Ltac mv_step :=
  first [apply mv_refl | apply mv_reply | apply mv_bulk | apply mv_value | apply mv_signal | apply mv_event
        | apply mv_dirty; [done|lia|] | apply mv_put; [set_solver|] | apply mv_del; [set_solver|] | apply mv_purge].

Ltac mv := repeat mv_step.

Lemma mv_set ro lazy k t A : moves ro [] A (a_set lazy k t A).
Proof. unfold a_set. mv. Qed.

Lemma mv_store ro lazy k t A : moves ro [] A (a_store lazy k t A).
Proof. unfold a_store. apply mv_event, mv_set. Qed.

Lemma count_moves ro lazy k A : moves ro [] A (s_count_one lazy k A).1.
Proof. unfold s_count_one. simpl. mv. Qed.

Lemma del_moves lazy args A : moves false [] A (s_del lazy args A).
Proof.
  unfold s_del. pose proof (mv_total false (s_del_one lazy) (drop 1 args)) as Ht. specialize (Ht ltac:(intros k B; unfold s_del_one; cbv zeta; case_match; simpl; mv) A).
  destruct (a_total _ _ A) as [B n]. by apply mv_reply.
Qed.

Lemma exists_moves ro lazy args A : moves ro [] A (s_exists lazy args A).
Proof.
  unfold s_exists. pose proof (mv_total ro (s_count_one lazy) (drop 1 args) (count_moves ro lazy) A) as Ht.
  destruct (a_total _ _ A) as [B n]. by apply mv_reply.
Qed.

Lemma set_generic_moves lazy cmd flags k t expire unit r1 r2 A :
  moves false [] A (s_set_generic lazy cmd flags k t expire unit r1 r2 A).
Proof. unfold s_set_generic. destruct (set_ms _ _ _); [mv|]. cbv zeta. destruct (_ || _); [mv|]. destruct expire; mv. Qed.

Lemma add_moves lazy n args A : moves false [] A (s_add lazy n args A).
Proof.
  unfold s_add. cbv zeta. destruct (find _ _); [mv| |mv..]; repeat case_match; unfold a_number, a_changed; mv.
Qed.

Lemma mset_moves lazy l : ∀ A, moves false [] A (a_mset lazy l A).
Proof.
  induction l as [l IH] using (induction_ltof1 _ length). unfold ltof in IH. intros A.
  destruct l as [|k [|v l]]; cbn [a_mset]; [apply mv_refl..|].
  apply (mv_trans false [] A (a_store lazy k v A)); [apply mv_store|]. apply IH. simpl. lia.
Qed.

Lemma mset_generic_moves lazy nx args A : moves false [] A (s_mset lazy nx args A).
Proof.
  unfold s_mset. destruct (Z.eqb_spec (zlen args mod 2) 0) as [|Hodd]; [mv|]. set (r := if nx then _ else _).
  assert (moves false [] A r.1) as Hr by (unfold r; destruct nx; [apply mv_total, count_moves|apply mv_refl]).
  destruct r as [B busy]. simpl in Hr. destruct (negb (busy =? 0)); [by apply mv_reply|]. apply mv_reply, mv_dirty; [done| |].
  - destruct args; [done|]. rewrite zlen_cons. pose proof (zlen_nonneg args). apply Z.div_pos; lia.
  - by apply (mv_trans false [] A B); [|apply mset_moves].
Qed.

Lemma rename_moves lazy nx args A : moves false [] A (s_rename lazy nx args A).
Proof.
  unfold s_rename. cbv zeta. destruct (amap _ !! _) as [[v dl]|]; [|mv]. case_bool_decide; [mv|]. destruct (nx && _); [mv|].
  mv. unfold a_ready. assert (∀ B C, moves false [key_of args; arg_of 2 args] B C →
    moves false [key_of args; arg_of 2 args] B (with_map (<[arg_of 2 args := (v, dl)]> (delete (key_of args) (amap C))) C)) as Hm.
  { intros B C HC. apply mv_map; [|done]. intros k Hk. rewrite lookup_insert_ne, lookup_delete_ne by set_solver. done. }
  destruct v as [t|[]]; try (apply mv_event); apply Hm; mv.
Qed.

Lemma expire_moves lazy relative seconds args A : moves false [] A (s_expire lazy relative seconds args A).
Proof.
  unfold s_expire, s_expire_at. destruct (Util.string2ll _); [|mv]. cbv zeta. destruct (amap _ !! _) as [[v dl]|]; [|mv].
  destruct (_ <=? _); mv.
Qed.

(** The commands with the flag CMD_READONLY ('r' in [redisCommandTable]); none of these
    commands has CMD_ADMIN. *)
Definition cmd_readonly (p : procs) : bool :=
  match p with
  | GetCommand | StrlenCommand | ExistsCommand | GetrangeCommand | MgetCommand | DbsizeCommand | TypeCommand
  | TtlCommand | TouchCommand | PttlCommand => true
  | _ => false
  end.

Lemma spec_moves lazy p args A : moves (cmd_readonly p) [] A (spec lazy p args A).
Proof.
  destruct p; cbn [spec cmd_readonly].
  - unfold s_get. mv.
  - unfold s_set. destruct (set_options _ _ _ _) as [[[]]|]; [apply set_generic_moves|mv].
  - apply set_generic_moves.
  - apply set_generic_moves.
  - apply set_generic_moves.
  - unfold s_append. cbv zeta. unfold a_changed. destruct (find _ _); [mv..|]. case_match; mv.
  - unfold s_strlen. mv.
  - apply del_moves.
  - apply del_moves.
  - apply exists_moves.
  - unfold s_setrange, a_changed. cbv zeta. repeat case_match; mv.
  - unfold s_getrange. cbv zeta. repeat case_match; mv.
  - apply add_moves.
  - apply add_moves.
  - unfold s_mget. apply (mv_trans true [] A (a_reply (ReplyMultiBulkLen (zlen (drop 1 args))) A)); [mv|].
    apply mv_each. intros k B. unfold s_mget_one. mv.
  - unfold s_incrby. destruct (Util.string2ll _); [apply add_moves|mv].
  - unfold s_decrby. destruct (Util.string2ll _); [apply add_moves|mv].
  - unfold s_getset. cbv zeta. destruct (is_other _); [mv|]. apply mv_dirty; [done|lia|].
    apply (mv_trans false [] A (a_value ReplyNull WrongTypeErr (key_of args) (a_purge lazy (key_of args) A))); [mv|apply mv_store].
  - apply mset_generic_moves.
  - apply mset_generic_moves.
  - apply rename_moves.
  - apply rename_moves.
  - apply expire_moves.
  - apply expire_moves.
  - apply expire_moves.
  - apply expire_moves.
  - unfold s_dbsize. mv.
  - unfold s_type. mv.
  - unfold s_ttl. mv.
  - apply exists_moves.
  - unfold s_ttl. mv.
  - unfold s_persist. cbv zeta. destruct (amap _ !! _) as [[x [w|]]|] eqn:E; [|mv..].
    apply mv_dirty; [done|lia|]. apply mv_reply. eapply mv_persist; [done|mv].
Qed.

(** ** The commands of the server *)

Definition query_readonly (q : list bytes) : bool :=
  match lookupCommand (arg_of 0 q) with Some c => cmd_readonly (Commands.proc c) | None => false end.

(** The error of [processCommand] for a wrong number of arguments. *)
Definition query_refused (q : list bytes) : option string :=
  match lookupCommand (arg_of 0 q) with
  | Some c => if wrong_arity c (zlen q) then Some (arity_message c) else None
  | None => None
  end.

Lemma query_moves lazy q A : moves (query_readonly q) [] A (a_query lazy q A).
Proof.
  unfold query_readonly, a_query. destruct (lookupCommand _) as [c|]; [|apply mv_refl].
  destruct (wrong_arity c (zlen q)); [mv|apply spec_moves].
Qed.

(** The hooks among the events of a command. *)
Definition hooks_of (db : Z) (es : list event) : list hook :=
  omap (λ e, match e with SignalModifiedKey k => Some (Modified db k) | PropagateExpire _ k => Some (Expired db k) | _ => None end) es.

Lemma hooks_signal db k es : SignalModifiedKey k ∈ es → Modified db k ∈ hooks_of db es.
Proof. intros Hk. apply list_elem_of_omap. by exists (SignalModifiedKey k). Qed.

(** A database when a query arrives. *)
Definition arriving (now : Z) (d : state) : state := State (dict d) (expires d) (objs d) (argv d) now 0 [] [].

Section Procs.
Context `{Alloc} (shared_integers : Z → addr) (maxmemory maxmemory_policy : Z).
Context (readonly_client lazyfree_lazy_expire lazyfree_lazy_server_del : bool) (shared_del shared_unlink : addr).

#[local] Notation Rest := (Rest shared_integers shared_del shared_unlink).
#[local] Notation query := (query false false readonly_client lazyfree_lazy_expire lazyfree_lazy_server_del shared_del shared_unlink
  shared_integers maxmemory maxmemory_policy).

(** The databases by their numbers; a query runs on one of them. *)
Definition run_query (now db : Z) (q : list bytes) (ds : Z → state) : option ((Z → state) * list reply * list hook * Z) :=
  match query q (arriving now (ds db)) with
  | Some (_, d) => Some (λ i, if i =? db then d else ds i, replies d, hooks_of db (events d), dirty d)
  | None => None
  end.

#[export] Instance keyspace_procs : Procs (Z → state) (list bytes) reply :=
  Build_Procs _ _ _ run_query query_refused query_readonly (λ ds wk, bool_decide (is_Some (dict (ds wk.1) !! wk.2))).

(** The text or the type of a key and its deadline. *)
Definition key_value (ds : Z → state) (wk : Z * bytes) : option (aval * option Z) :=
  let d := ds wk.1 in
  match dict d !! wk.2 with
  | None => None
  | Some (VOther ty) => Some (AOther ty, expires d !! wk.2)
  | Some (VString o) => r ← objs d !! o; t ← object_chars r; Some (AStr t, expires d !! wk.2)
  end.

Lemma key_value_ok A ds i k : Rest A (ds i) → key_value ds (i, k) = amap A !! k.
Proof.
  intros HR. pose proof (h_keys _ _ _ _ _ _ _ (R_h HR) k) as Hk. unfold keyrep in Hk. unfold key_value. cbn [fst snd].
  destruct (amap A !! k) as [[[t|ty] dl]|].
  - destruct Hk as (-> & _ & o & -> & r & -> & Ht & _). cbn [mbind option_bind]. by rewrite (chars_ok r t Ht).
  - by destruct Hk as (-> & _ & ->).
  - by destruct Hk as [-> _].
Qed.

(** Every database is one between two queries. *)
Definition at_rest (ds : Z → state) : Prop := ∀ i, ∃ A, Rest A (ds i).

(** A query of the modelled commands within its limits, not later than [horizon]. *)
Definition covered (horizon now : Z) (q : list bytes) : Prop := query_ok (now, q) ∧ now ≤ horizon.

#[export] Instance keyspace_procs_ok horizon :
  ProcsOk (Z → state) (list bytes) reply (option (aval * option Z)) at_rest (covered horizon) key_value (fades horizon).
Proof.
  split; [apply _|]. intros now db q ds Hi [Hq Hh]. destruct (Hi db) as [A HA].
  set (A0 := AState (amap A) now 0 [] []).
  assert (Rest A0 (arriving now (ds db))) as HR0 by (destruct HA as [? ? ? ? ? ?]; by split).
  destruct (query_steps shared_integers maxmemory maxmemory_policy readonly_client lazyfree_lazy_expire lazyfree_lazy_server_del
    shared_del shared_unlink q A0 _ HR0 Hq) as ([] & d & E & HR).
  destruct (query_moves lazyfree_lazy_expire q A0) as [Hc [Hd Hro] (es & He & Hk)]. simpl in Hd, Hro, He, Hk.
  cbn [Multi.proc keyspace_procs]. unfold run_query. rewrite E. eexists _, _, _, _. split; [done|]. split; [|split; [|split]].
  - intros i. destruct (i =? db); [by eexists|apply Hi].
  - by rewrite (R_dirty _ _ _ _ _ _ _ _ HR).
  - rewrite (R_dirty _ _ _ _ _ _ _ _ HR). exact Hro.
  - intros [i k] Hno. destruct (Z.eq_dec i db) as [->|Hne].
    2:{ unfold key_value. cbn [fst snd]. rewrite (proj2 (Z.eqb_neq i db)) by done. by left. }
    rewrite (key_value_ok A ds db k HA), (key_value_ok (a_query lazyfree_lazy_expire q A0) (λ i, if i =? db then d else ds i) db k)
      by (by rewrite Z.eqb_refl).
    destruct (Hk k) as [?%not_elem_of_nil|[Hs|Hf]]; [done| |by apply (fades_mono now)]. exfalso.
    rewrite (R_events _ _ _ _ _ _ _ _ HR), He in Hno. apply (hooks_signal db) in Hs. apply not_true_iff_false in Hno. apply Hno, existsb_exists.
    exists (Modified db k). split; [by apply list_elem_of_In|]. by apply bool_decide_eq_true.
Qed.
(** ** Sessions of clients *)

#[local] Notation server := (Multi.server (Z → state) (list bytes)).
#[local] Notation reachable horizon := (MultiSpec.reachable (ok := covered horizon)).
#[local] Notation during horizon := (MultiSpec.during (ok := covered horizon)).
#[local] Notation admissible horizon := (MultiSpec.admissible (ok := covered horizon)).

(** C3: Optimistic locking, for the commands of the keyspace: after a client has watched
    keys, and after any events of all clients that are not later than [horizon], its EXEC
    either runs the queued commands one after the other on the data as it is then, and
    every watched key kept its value in every state since, but for a key with a deadline,
    which may have lost the deadline or, if the deadline is before [horizon], may have
    expired; or it changes nothing and propagates nothing.  In both cases the transaction
    is over and nothing is watched.  The events run queries that [query_ok] covers, and
    no SAVE in a transaction. *)
Theorem exec_after_watch (horizon dbnum : Z) (ds : Z → state) (c : Multi.cid) (s s2 : server) (mid : list server)
    (cl cl2 : Multi.client (list bytes)) (time : nat → Z) :
  at_rest ds → reachable horizon dbnum ds s → Multi.clients s !! c = Some cl →
  during horizon dbnum c s mid s2 → Multi.clients s2 !! c = Some cl2 → Multi.c_multi cl2 = true →
  admissible horizon (Multi.Query c (Multi.Exec time)) s2 →
  ∃ s3 rs, Multi.step dbnum (Multi.Query c (Multi.Exec time)) s2 = Some (s3, rs) ∧
    (∃ db, Multi.clients s3 !! c = Some (MultiSpec.fresh_client db)) ∧
    if Multi.c_dirty_cas cl2 || Multi.c_dirty_exec cl2
    then rs = [if Multi.c_dirty_exec cl2 then Multi.RExecAbort else Multi.RNullMultiBulk] ∧
         Multi.data s3 = Multi.data s2 ∧ Multi.propagated s3 = Multi.propagated s2
    else (∃ db rs', rs = Multi.RMultiBulkLen (zlen (Multi.mstate cl2)) :: rs' ∧
            MultiSpec.run_queue dbnum time 0 (Multi.mstate cl2) (Multi.c_db cl2, Multi.data s2) = Some (db, Multi.data s3, rs')) ∧
         ∀ k, k ∈ Multi.watched_keys cl →
           Forall (λ m, fades horizon (key_value (Multi.data s) k) (key_value (Multi.data m) k)) mid.
Proof. intros Hds Hr Hc Hd Hc2 Hm Ha. by apply (MultiSpec.exec_since dbnum ds c s s2 mid cl cl2 time). Qed.

(** C20: However the events of the clients are interleaved, with queries that [query_ok]
    covers and no SAVE in a transaction, the table of watched keys and the lists of the
    clients agree and every database is consistent with its reference counts, so no
    event fails an assertion, uses a freed object or follows a pointer to a client that
    is gone; and what is propagated is a sequence of commands, of deletions of expired
    keys and of whole transactions between MULTI and EXEC. *)
Theorem multi_sessions_safe (horizon dbnum : Z) (ds : Z → state) (s : server) :
  at_rest ds → reachable horizon dbnum ds s →
  MultiSpec.wf s ∧ at_rest (Multi.data s) ∧
  (∀ e, Multi.enabled e s = true → admissible horizon e s → ∃ s' rs, Multi.step dbnum e s = Some (s', rs)) ∧
  ∃ bs, Multi.propagated s = concat bs ∧ Forall MultiSpec.block bs.
Proof.
  intros Hds Hr. destruct (MultiSpec.reachable_good dbnum ds s Hds Hr) as (Hw & Hi & Hb). split; [done|]. split; [done|]. split; [|done].
  intros e He Ha. destruct (MultiSpec.event_ok dbnum e s Hw Hi He Ha) as (s' & rs & Hs & _). eauto.
Qed.
End Procs.

(** ** Runs

    Two clients of a server with empty databases. *)
Section Demo.
Import Multi.

#[local] Instance demo_procs : Procs (Z → state) (list bytes) Keyspace.reply :=
  keyspace_procs (H := junk0) demo_shared 0 0 false false false demo_del demo_unlink.

#[local] Notation server := (Multi.server (Z → state) (list bytes)).
#[local] Notation event := (Multi.event (list bytes)).
#[local] Notation reachable := (MultiSpec.reachable (ok := covered 5000) 16).
#[local] Notation during := (MultiSpec.during (ok := covered 5000) 16).
#[local] Notation admissible := (MultiSpec.admissible (ok := covered 5000)).

(** The states after each of some events, if they are possible. *)
Fixpoint trail (es : list event) (s : server) : option (list server) :=
  match es with
  | [] => Some []
  | e :: es => if enabled e s then '(s1, _) ← step 16 e s; l ← trail es s1; Some (s1 :: l) else None
  end.

Definition ran (es : list event) (s : server) : bool := match trail es s with Some _ => true | None => false end.

Definition after (es : list event) (s : server) : server := List.last (default [] (trail es s)) s.

Lemma last_cons (s s1 : server) l : List.last (s1 :: l) s = List.last l s1.
Proof. destruct l as [|x l]; [done|]. revert x. induction l as [|y l IH]; intros x; [done|]. apply IH. Qed.

Lemma trail_reachable es : ∀ ds s l,
  reachable ds s → Forall (λ e, ∀ s, admissible e s) es → trail es s = Some l → reachable ds (List.last l s).
Proof.
  induction es as [|e es IH]; intros ds s l Hr Ha Ht; cbn [trail] in Ht; [by injection Ht as <-|]. apply Forall_cons in Ha as [Ha Has].
  destruct (enabled e s) eqn:He; [|done]. destruct (step 16 e s) as [[s1 rs]|] eqn:Hs; [|done]. cbn [mbind option_bind] in Ht.
  destruct (trail es s1) as [l1|] eqn:Ht1; [|done]. injection Ht as <-. rewrite last_cons. by apply (IH ds s1); [eapply MultiSpec.reachable_step|..].
Qed.

Fixpoint all_stay (c : cid) (es : list event) (s : server) : bool :=
  match es with
  | [] => true
  | e :: es => MultiSpec.stays c e s && match step 16 e s with Some (s1, _) => all_stay c es s1 | None => false end
  end.

Lemma trail_during c es : ∀ s l,
  Forall (λ e, ∀ s, admissible e s) es → trail es s = Some l → all_stay c es s = true → during c s l (List.last l s).
Proof.
  induction es as [|e es IH]; intros s l Ha Ht Hst; cbn [trail] in Ht; [injection Ht as <-; constructor|]. apply Forall_cons in Ha as [Ha Has].
  destruct (enabled e s) eqn:He; [|done]. cbn [all_stay] in Hst. apply andb_true_iff in Hst as [Hst Hrest].
  destruct (step 16 e s) as [[s1 rs]|] eqn:Hs; [|done]. cbn [mbind option_bind] in Ht.
  destruct (trail es s1) as [l1|] eqn:Ht1; [|done]. injection Ht as <-. rewrite last_cons.
  by eapply MultiSpec.during_step; [..|apply IH].
Qed.

Definition key_a : bytes := bytes_of "a".
Definition key_b : bytes := bytes_of "b".
Definition client1 : cid := 1%positive.
Definition client2 : cid := 2%positive.

Definition setup : list event := [Connect client1; Connect client2; Query client1 (Watch [key_a])].
Definition busy (key : bytes) : list event :=
  [Query client1 Multi; Query client1 (Queue 1000 (Data (q_set key_a (bytes_of "7"))));
   Query client2 (Queue 2000 (Data (q_set key (bytes_of "x"))))].

Definition demo_ds : Z → state := λ _, demo_server.
Definition watching : server := after setup (initial demo_ds).

Lemma demo_at_rest : at_rest demo_shared demo_del demo_unlink demo_ds.
Proof. intros i. exists demo_map. apply demo_rest. Qed.

Lemma set_covered now k v : moment now → now ≤ 5000 → argument k → argument v → covered 5000 now (q_set k v).
Proof. intros. split; [by apply set_ok|done]. Qed.

Lemma queue_admissible c now q s : covered 5000 now q → admissible (Query c (Queue now (Data q))) s.
Proof. intros Hq cl _ _ _. exact Hq. Qed.

Lemma watching_reachable : reachable demo_ds watching.
Proof.
  unfold watching, after. apply (trail_reachable setup _ (initial demo_ds)); [constructor|by repeat constructor|].
  assert (ran setup (initial demo_ds) = true) as Ht by (vm_compute; reflexivity). unfold ran in Ht.
  destruct (trail setup (initial demo_ds)) as [l|]; [reflexivity|discriminate].
Qed.

Lemma busy_during key :
  key = key_a ∨ key = key_b → during client1 watching (default [] (trail (busy key) watching)) (after (busy key) watching).
Proof.
  intros Hk. assert (argument key) as Hkey by (destruct Hk as [->| ->]; by apply word_ok).
  unfold after. apply (trail_during client1 (busy key)).
  - repeat (apply Forall_cons; split); [done|intros s; apply queue_admissible, set_covered..|constructor]; done || by apply word_ok.
  - assert (ran (busy key) watching = true) as Ht by (destruct Hk as [->| ->]; vm_compute; reflexivity). unfold ran in Ht.
    destruct (trail (busy key) watching) as [l|]; [reflexivity|discriminate].
  - destruct Hk as [->| ->]; vm_compute; reflexivity.
Qed.
(** The client that waits with one queued command. *)
Definition waiting (dirty : bool) : client (list bytes) :=
  Client 0 true dirty false [Data (q_set key_a (bytes_of "7"))] [(0, key_a)].

Lemma waiting_admissible s dirty :
  clients s !! client1 = Some (waiting dirty) → admissible (Query client1 (Exec (λ _, 3000))) s.
Proof.
  intros Hc cl Hcl _. rewrite Hc in Hcl. injection Hcl as <-. intros [|i] q Hq; [|discriminate]. injection Hq as <-.
  split; [|intros []]. apply set_covered; done || by apply word_ok.
Qed.

(** A write to another key lets the transaction through; a write to the watched key does
    not. *)
Lemma exec_after_watch_witness :
  (∃ s3 rs, step 16 (Query client1 (Exec (λ _, 3000))) (after (busy key_b) watching) = Some (s3, rs) ∧
     key_value (H := junk0) (data s3) (0, key_a) = Some (AStr (bytes_of "7"), None)) ∧
  (∃ s3, step 16 (Query client1 (Exec (λ _, 3000))) (after (busy key_a) watching) = Some (s3, [RNullMultiBulk]) ∧
     key_value (H := junk0) (data s3) (0, key_a) = Some (AStr (bytes_of "x"), None)).
Proof.
  split.
  - assert (Hc : clients (after (busy key_b) watching) !! client1 = Some (waiting false)) by (vm_compute; reflexivity).
    destruct (exec_after_watch (H := junk0) demo_shared 0 0 false false false demo_del demo_unlink 5000 16 demo_ds client1 watching
      (after (busy key_b) watching) (default [] (trail (busy key_b) watching)) (Client 0 false false false [] [(0, key_a)]) (waiting false) (λ _, 3000))
      as (s3 & rs & Hs & _ & (db & rs' & _ & Hrun) & _).
    + exact demo_at_rest.
    + exact watching_reachable.
    + vm_compute. reflexivity.
    + apply busy_during. right. reflexivity.
    + exact Hc.
    + reflexivity.
    + exact (waiting_admissible _ false Hc).
    + exists s3, rs. split; [exact Hs|].
      set (f := λ r : Z * (Z → state) * list (reply Keyspace.reply), key_value (H := junk0) r.1.2 (0, key_a)).
      assert (Hv : f <$> MultiSpec.run_queue 16 (λ _, 3000) 0 (mstate (waiting false)) (0, data (after (busy key_b) watching)) =
        Some (Some (AStr (bytes_of "7"), None))) by (vm_compute; reflexivity).
      pose proof (eq_trans (eq_sym Hv) (f_equal (fmap f) Hrun)) as He. injection He as He. symmetry. exact He.
  - assert (Hc : clients (after (busy key_a) watching) !! client1 = Some (waiting true)) by (vm_compute; reflexivity).
    destruct (exec_after_watch (H := junk0) demo_shared 0 0 false false false demo_del demo_unlink 5000 16 demo_ds client1 watching
      (after (busy key_a) watching) (default [] (trail (busy key_a) watching)) (Client 0 false false false [] [(0, key_a)]) (waiting true) (λ _, 3000))
      as (s3 & rs & Hs & _ & Hrs & Hd & _).
    + exact demo_at_rest.
    + exact watching_reachable.
    + vm_compute. reflexivity.
    + apply busy_during. left. reflexivity.
    + exact Hc.
    + reflexivity.
    + exact (waiting_admissible _ true Hc).
    + exists s3. cbn in Hrs. rewrite Hrs in Hs. split; [exact Hs|]. rewrite Hd. vm_compute. reflexivity.
Defined.

(** A query of the second client while the first one watches. *)
Lemma multi_sessions_safe_witness :
  ∃ s' rs, step 16 (Query client2 (Queue 1000 (Data (q_set key_a (bytes_of "x"))))) watching = Some (s', rs).
Proof.
  destruct (multi_sessions_safe (H := junk0) demo_shared 0 0 false false false demo_del demo_unlink 5000 16 demo_ds watching)
    as (_ & _ & Hstep & _); [exact demo_at_rest|exact watching_reachable|].
  apply Hstep; [vm_compute; reflexivity|]. apply queue_admissible, set_covered; done || by apply word_ok.
Defined.

(** *** Findings *)

Definition small_ds : Z → state := λ _, State ∅ ∅ small_heap [] 0 0 [] [].

(** SAVE in a transaction resets the count of changes: if there were changes before,
    MULTI and the commands are propagated but EXEC is not. *)
Theorem save_in_multi_loses_exec :
  propagated (after
    [Connect client1; Query client1 (Queue 1000 (Data (q_set key_a (bytes_of "x")))); Query client1 Multi;
     Query client1 (Queue 1000 (Data (q_set key_b (bytes_of "y")))); Query client1 (Queue 1000 (Save Saved));
     Query client1 (Exec (λ _, 1000))] (initial small_ds)) =
  [FData 0 (q_set key_a (bytes_of "x")); FMulti 0; FData 0 (q_set key_b (bytes_of "y"))].
Proof. vm_compute. reflexivity. Qed.

(** A watched key that expires does not abort the transaction: the GET of the second
    client removes the key, and the EXEC of the first one runs. *)
Theorem watched_key_expires :
  let s := after
    [Connect client1; Connect client2; Query client2 (Queue 1000 (Data (q_setpx key_a (bytes_of "x") 500)));
     Query client1 (Watch [key_a]); Query client1 Multi; Query client1 (Queue 1200 (Data (q_set key_b (bytes_of "y"))));
     Query client2 (Queue 2000 (Data (q_get key_a)))] (initial small_ds) in
  key_value (H := junk0) (data s) (0, key_a) = None ∧
  (λ r : server * list (reply Keyspace.reply), r.2) <$> step 16 (Query client1 (Exec (λ _, 2000))) s =
    Some [RMultiBulkLen 1; RData ReplyOk].
Proof. split; vm_compute; reflexivity. Qed.
End Demo.
